(* ===== verification/_CoqProject ===== *)
-Q . S2P
Prelude.v
Common.v
ValidInfo.v
GlobalLRLock.v
PageServer.v
PageProtocol.v
LocalLock.v
LazyRelease.v
NodeProtocol.v
EagerLock.v
EagerSystem.v
Page.v
Replacer.v
BufferPool.v
PoolProtocol.v
StorageReplacer.v
StorageBuffer.v
StorageProtocol.v
LockWait.v
LockWaitProtocol.v
LockWaitInv.v
LockWaitSteps.v
LockWaitHandoff.v
LockWaitSafety.v
LockWaitProgress.v
LockWaitDeadlock.v
Bytes.v
Record.v
PreparedTxn.v
LogRecord.v
LogFormat.v
Bitmap.v
RecordPage.v
DiskManager.v
FsmReplay.v
LogReplay.v
LogManager.v
LogBuffer.v
Redo.v
RedoView.v
LogStream.v
ReplayOrder.v
ReplayRead.v
ReplayStart.v
ReplaySystem.v
ReplayInv.v
ReplayDemo.v
ReplayProtocol.v
TxPage.v
TxRow.v
TxSpec.v
TxCalls.v
TxRedo.v
RowSystem.v
RowDemo.v
RowProtocol.v
BLinkNode.v
BLinkTree.v
BLinkInv.v
BLinkSteps.v
BLinkParent.v
BLinkCalls.v
BLinkSplit.v
BLinkInsert.v
BLinkOps.v
SBLink.v
SBLinkOps.v
BLinkSystem.v
BLinkChain.v
BLinkDemo.v
BLinkProtocol.v
FsmTree.v
FsmPage.v
FsmInv.v
FsmUpdate.v
FsmProtocol.v
FsmReplayProtocol.v
SFsm.v
SFsmOps.v
SFsmProtocol.v
