(* ===== verification/Prelude.v ===== *)
(** * WookongDB-MP: a verification library

    The program is a multi-primary cloud database: several compute nodes execute
    transactions against pages that live in a shared storage tier.  A lock table
    ([src/core/remote_page_table]) says which node may use which page; every
    node caches pages in a buffer pool ([src/core/bufferpool.h]) and arbitrates
    between its own threads with a latch per page ([src/core/LPLM]); rows are
    locked by transactions, and who meets a locked row waits for it
    ([src/core/dtx/lock_wait.h]).  This library models those layers operation by
    operation and proves what each one promises to the one above.

    ** How the code is modelled

    A class is a [Record] of its fields, a method a computation in the state
    monad [M] of this file, with the code's name and its statements in the
    code's order.  A computation returns ([Done]), waits ([Blocked]: a mutex is
    taken, a condition is not signalled, a round of a spin loop finds the latch
    busy) or fails ([Crash]: an [assert] or [CHECK], named by its line; the
    unlocking of a mutex that is not held; an index out of range).  Mutexes that
    the code locks and unlocks by hand are part of the state ([HasMutex]);
    those held by a guard for a whole method make the method one step.  Words
    are [Z] with their wrap-around written out ([u64]).  A call that leaves the
    component is recorded as a message, in order, where the component only sends;
    where the answer matters the caller is cut in two at the call, so that other
    threads may run in between.  [wp] says that a computation returns and what
    then holds, [safe] that it does not fail, [wlp] what holds if it returns;
    [wp_step], [safe_step] and [wlp_step] apply their rules.

    ** Parts and files

    - Shared types and constants: [Common] ([common/common.h], [common/config.h]).
    - Page ownership under lazy release, lock-table side.  [ValidInfo]: which
      nodes have a current copy of a page ([core/GPLM/global_valid_table.h]);
      [GlobalLRLock]: the page's lock with its queue of requests and its messages
      ([core/GPLM/global_LR_page_lock.h]); [PageServer]: the handlers that combine
      both ([core/remote_page_table/remote_page_table_rpc.h]) and the invariant of
      one page; [PageProtocol]: what holds in every state the nodes can drive the
      table to (coherence, no failures, the head of the queue is granted and has
      been announced).
    - Page ownership under lazy release, node side.  [LocalLock]: the latch
      ([core/LPLM/local_LR_page_lock.h]); [LazyRelease]: fetch, release, the
      notifications and the eviction of a page ([compute_server/
      lazyrelease_server.cc], [server.cc], [server.h]); [NodeProtocol]: any
      interleaving of a node's threads with the notifications.
    - Eager release.  [EagerLock]: the plain lock and latch with their handlers
      ([core/GPLM/global_page_lock.h], [core/LPLM/local_ER_page_lock.h]);
      [EagerSystem]: the nodes, the lock table and the storage together
      ([compute_server/baseline_server.cc]), with mutual exclusion, latest reads
      and progress.
    - The buffer pool of a compute node.  [Page] ([core/base/page.h]); [Replacer]
      ([core/bufferpool_replacer.h]): the class [ReplacerBase], the laws
      [ReplacerLaws] the pool is verified against, and [LRU_Replacer] with the
      proof that it satisfies them; [BufferPool] ([core/bufferpool.h]);
      [PoolProtocol]: refinement of a map from pages to contents.
    - The buffer pool of the storage tier.  [StorageReplacer]
      ([core/storage/buffer/replacer]), [StorageBuffer]
      ([core/storage/buffer/storage_bufferpool.cc], and the page calls of
      [core/storage/disk_manager.cc]), [StorageProtocol]: no write is lost,
      pinned pages stay, flushed pages survive.
    - Waiting for rows.  [LockWait]: [LockWaitManager] and the handlers that call
      it on another node ([core/dtx/lock_wait.h], [compute_server/server.cc]),
      and the write of the row's lock word; [LockWaitProtocol]: transactions of
      all nodes, step by step; [LockWaitInv], [LockWaitSteps], [LockWaitHandoff]:
      the invariant of one row and its preservation; [LockWaitSafety],
      [LockWaitProgress], [LockWaitDeadlock]: the guarantees.
    - The write-ahead log.  [Bytes]: buffers of bytes with loads and copies that
      stay in bounds; [Record], [PreparedTxn], [LogRecord]: the records of the log
      with their constructors, [serialize] and [deserialize]
      ([core/storage/log_record.h], [prepared_log_record.h],
      [core/record/record.h], [core/compute_node/prepared_txn.h]); [LogFormat]:
      their format as a function, and that decoding inverts encoding.
    - Pages of records.  [Bitmap] ([core/util/bitmap.h]) and [RecordPage], the
      layout and capacity of a page ([core/record/rm_manager.cc],
      [rm_file_handle.h], [core/base/data_item.h]).
    - The storage node's files.  [DiskManager] ([core/storage/disk_manager.cc]):
      the operating system's files and descriptors and the manager that keeps
      them open; [FsmReplay] ([core/storage/logreplay.cc], [fsm_tree/s_fsm_tree.h]):
      what replaying a change of the free-space map does.
    - The write-ahead log as the nodes use it.  [LogBuffer]
      ([compute_server/server.h], [server.cc]): how a compute node numbers, queues
      and flushes its records; [LogManager] ([core/storage/log_manager.cc]): how
      the storage node appends batches; [LogReplay] ([core/storage/logreplay.cc]):
      how it reads the logs of all nodes and applies the records to the pages in
      the order of each page.  [Redo]: the effect of a record as a function of the
      bytes of the page, and that [apply_single_log] has this effect and no other;
      [RedoView]: what that effect is, said of a page as a header and slots, and when
      a record applies without an assertion.
    - Write-ahead logging of the cluster.  [LogStream]: the loops that write, check,
      scan and read a log, on the encodings of records; [ReplayOrder]: [Dispatch]
      against the history of a page; [ReplayRead]: [ReadStream] and reading until
      nothing is left; [ReplayStart]: recovery; [ReplaySystem]: the cluster as steps
      (nodes that log and flush, the storage node that appends, reads and serves,
      crashes that tear requests); [ReplayInv]: its invariant; [ReplayDemo]: a run;
      [ReplayProtocol]: no call fails, every page follows its history whatever order
      the logs are read in, replay catches up, a restart recovers what was durable,
      what a node takes for durable is, and pages are served in the version asked
      for.  The system takes from the page protocol that a node changes only pages
      it holds exclusively and up to date, and pushes them only once their records
      are durable ([NodeProtocol.push_respects_log]).
    - What transactions do to rows.  [TxPage] ([core/dtx/dtx.cc], the loops of
      [core/dtx/dtx_exe.cc], [compute_server/twopc_server.cc],
      [twopc_fetch_server.cc]): reading, locking, committing and aborting a row of a
      held page, with the records they log, for the lazy modes and for coordinator
      and participants of two-phase commit.  [TxRow]: a row as the fields of its
      slot; [TxSpec]: what each call promises, as a change of one row and one record;
      [TxCalls]: that the calls keep it; [TxRedo]: that replaying the record makes
      the same change, up to the pointers that the code stores into pages and the lock
      words of rows whose lock was released at once ([page_equiv]).  [RowSystem]: the cluster of [ReplaySystem] with the contents
      of its pages, where every change is a row call; [RowDemo]: a run;
      [RowProtocol]: the pages are what their logs say, and what a transaction has
      waited for survives all crashes that follow, whatever else is done to the page.
    - The B-link index of a table ([core/index/bp_tree/blink]).  [BLinkNode]: a node
      as it lies in its page, with every method of [BLinkNodeHandle], and what each
      does to the node's pairs; [BLinkTree]: [BLinkIndexHandle], its descents, splits
      and operations over the pages that all compute nodes share, with the latches
      held; [BLinkInv]: the shape of the tree, by the span of keys and the parent of
      every page; [BLinkSteps], [BLinkParent]: what splitting a node, telling the
      parent and growing a root do to the shape; [BLinkCalls], [BLinkSplit],
      [BLinkInsert], [BLinkOps]: that the calls keep the latches straight, find the
      pages for a key and make these changes; [SBLink], [SBLinkOps]: the storage node's
      side ([core/storage/blink_tree]), which makes the empty tree and loads the first
      entries, with the same changes to the shape; [BLinkSystem]: the index through its
      life, from loading to the operations of all nodes, against a map; [BLinkChain]: the list
      of leaves; [BLinkProtocol]: loading, whole operations refine the map, the shape, the
      list; [BLinkDemo] runs what happens to operations that others overtake.
      A descent has one more round of fuel than there are pages; [height_size] says why
      this is enough.
    - The free-space map of a table ([core/fsm/fsm_tree.cc]).  [FsmTree]: the calls of
      [SecFSM] over pages that all nodes share, each a tree of categories;
      [FsmPage]: the search and the update within a page, and that a page is read back as
      written; [FsmInv]: the tree of pages and what it says about the pages of the
      table; [FsmUpdate]: that the calls keep the latches straight, find pages and carry
      a new category up to the root; [FsmProtocol]: the map as a map from pages to
      categories.  [SFsm], [SFsmOps] ([core/storage/fsm_tree]): the storage node,
      which builds the tree level by level, tells it what it has counted and writes it;
      [FsmReplayProtocol] ([core/storage/logreplay.cc]): what the replay of a
      free-space record does to the map in a file; [SFsmProtocol]: that the compute nodes
      find in the file what was told and replayed.
      The fuel of a recursion is the number of pages, and levels are fewer.

    ** What the theorems show

    Each protocol file defines a step relation over the operations of its
    component ([star] of it gives the reachable states) with the calls a client
    may make in a state, an inductive invariant, and the theorems read off it:
    the invariant in the words of a client, that no admissible call fails, and
    that the work gets done.  Functional theorems give the result of an operation
    on every branch.  The demonstrations next to them are concrete runs that
    show the hypotheses can hold.

    ** Fuel and bounds

    Loops over lists are [for_each] or structural recursion.  Two loops take fuel:
    the search for a victim ([replace_page]) makes as many rounds as there are
    frames, after which the code asserts; the loop of [PrepareHandoff] takes one
    waiter off the queue each time, so one more round than the length of the
    queue is enough, and [prepare_handoff_terminates] says so.  The chain walk of
    the deadlock detector has the code's own bound of 128 hops: the theorems ask
    for at most 126 other waiters or members of the deadlock, the most that the code's
    assertion admits, and say what its time budget has to last for.  Versions of a queue are 64 bits wide: a row is handed on fewer than
    2^64 times without being free.

    ** Not modelled

    Delivery of RPCs (that they arrive, once or more often, is a step of the
    protocols; loss ends the process in the code), time, statistics and log
    lines, fibers; the composition of the lazy-release node and lock-table
    models over a network with reordering; the loops of a transaction over its read
    and write sets and the timestamp service, the record manager's calls, the indexes but the B-link tree of the compute
    nodes, and the SQL front
    end.  The protobuf encoding of a prepared transaction is a parameter
    ([RequestCodec]) with the law that parsing inverts it.
    Those are the components listed as not modelled in the manifest. *)

From Stdlib Require Export ZArith Lia.
From stdpp Require Export prelude gmap list.

Open Scope Z_scope.

(** ** Outcomes of a C++ call

    The code fails in three observable ways: an [assert]/[CHECK] fires, a
    mutex that is not held is unlocked, or an array is indexed out of range; where
    a call answers by an exception that its thread does not catch, the process
    ends as well ([Thrown], by the line of the throw).
    A call can also block: a mutex is taken, a condition variable is not
    signalled, or one round of a spin loop finds the latch busy. *)

Inductive fault : Set :=
  | AssertFailed (line : Z)
  | UnlockNotHeld
  | Thrown (line : Z)
  | OutOfBounds.

Inductive outcome (A : Type) : Type :=
  | Done (a : A)
  | Blocked
  | Crash (f : fault).
Arguments Done {A} a.
Arguments Blocked {A}.
Arguments Crash {A} f.

(** ** The state monad of the handlers *)

Definition M (S A : Type) : Type := S → outcome (A * S).

Section monad.
Context {S : Type}.

#[global] Instance M_ret : MRet (M S) := λ A a s, Done (a, s).

#[global] Instance M_bind : MBind (M S) := λ A B f m s,
  match m s with
  | Done (a, s') => f a s'
  | Blocked => Blocked
  | Crash e => Crash e
  end.

Definition gets {A} (f : S → A) : M S A := λ s, Done (f s, s).
Definition modify (f : S → S) : M S unit := λ s, Done (tt, f s).
Definition crash {A} (f : fault) : M S A := λ _, Crash f.
Definition block {A} : M S A := λ _, Blocked.

(** [check line b] is [assert(b)] at source line [line]. *)
Definition check (line : Z) (b : bool) : M S unit :=
  if b then mret tt else crash (AssertFailed line).

Definition when (b : bool) (m : M S unit) : M S unit :=
  if b then m else mret tt.

(** A [for] loop over a list, stopping at the first failure. *)
Fixpoint for_each {A} (f : A → M S unit) (l : list A) : M S unit :=
  match l with
  | [] => mret tt
  | x :: l' => f x ;; for_each f l'
  end.
End monad.

Declare Scope mp_scope.
Delimit Scope mp_scope with mp.
Notation "'assert' b 'at_line' n" := (check n b)
  (at level 10, b at level 9, n at level 9) : mp_scope.
Open Scope mp_scope.

(** Running a sub-object's method inside the object that owns it. *)
Definition zoom {S T A} (get : S → T) (put : T → S → S) (m : M T A) : M S A :=
  λ s, match m (get s) with
       | Done (a, t) => Done (a, put t s)
       | Blocked => Blocked
       | Crash e => Crash e
       end.

(** ** Total correctness: [wp m Q s] says that [m], started in [s], returns
    (neither blocks nor fails) and that [Q] holds of result and final state. *)

Definition wp {S A} (m : M S A) (Q : A → S → Prop) (s : S) : Prop :=
  match m s with
  | Done (a, s') => Q a s'
  | _ => False
  end.

Section wp_rules.
Context {S : Type}.
Implicit Types s : S.

Lemma wp_done {A} (m : M S A) Q s a s' :
  m s = Done (a, s') → Q a s' → wp m Q s.
Proof. unfold wp. by intros ->. Qed.

Lemma wp_inv {A} (m : M S A) Q s :
  wp m Q s → ∃ a s', m s = Done (a, s') ∧ Q a s'.
Proof. unfold wp. destruct (m s) as [[a s']| |]; naive_solver. Qed.

Lemma wp_run {A} (m : M S A) Q s a s' :
  wp m Q s → m s = Done (a, s') → Q a s'.
Proof. unfold wp. intros H E. by rewrite E in H. Qed.

Lemma wp_mono {A} (m : M S A) (Q R : A → S → Prop) s :
  wp m Q s → (∀ a s', Q a s' → R a s') → wp m R s.
Proof. unfold wp. destruct (m s) as [[a s']| |]; naive_solver. Qed.

Lemma wp_ret {A} (a : A) Q s : Q a s → wp (mret a : M S A) Q s.
Proof. done. Qed.

Lemma wp_bind {A B} (m : M S A) (f : A → M S B) Q s :
  wp m (λ a s', wp (f a) Q s') s → wp (m ≫= f) Q s.
Proof.
  unfold wp, mbind, M_bind. destruct (m s) as [[a s']| |]; auto.
Qed.

Lemma wp_bind_inv {A B} (m : M S A) (f : A → M S B) Q s :
  wp (m ≫= f) Q s → wp m (λ a s', wp (f a) Q s') s.
Proof. unfold wp, mbind, M_bind. destruct (m s) as [[a s']| |]; auto. Qed.

(** Running a sequence whose first call is known to return. *)
Lemma run_bind {A B} (m : M S A) (f : A → M S B) s a s' :
  m s = Done (a, s') → (m ≫= f) s = f a s'.
Proof. unfold mbind, M_bind. by intros ->. Qed.

Lemma run_bind_crash {A B} (m : M S A) (f : A → M S B) s e :
  m s = Crash e → (m ≫= f) s = Crash e.
Proof. unfold mbind, M_bind. by intros ->. Qed.

Lemma wp_gets {A} (f : S → A) Q s : Q (f s) s → wp (gets f) Q s.
Proof. done. Qed.

Lemma wp_modify (f : S → S) (Q : unit → S → Prop) s : Q tt (f s) → wp (modify f) Q s.
Proof. done. Qed.

Lemma wp_check n (b : bool) (Q : unit → S → Prop) s :
  b = true → Q tt s → wp (check n b) Q s.
Proof. by intros ->. Qed.

Lemma wp_when (b : bool) m (Q : unit → S → Prop) s :
  (b = true → wp m Q s) → (b = false → Q tt s) → wp (when b m) Q s.
Proof. destruct b; unfold when; naive_solver. Qed.

Lemma wp_if {A} (b : bool) (m1 m2 : M S A) Q s :
  (b = true → wp m1 Q s) → (b = false → wp m2 Q s) →
  wp (if b then m1 else m2) Q s.
Proof. destruct b; naive_solver. Qed.

(** The rule of the [for] loop: an invariant indexed by what is left. *)
Lemma wp_for_each {A} (f : A → M S unit) (I : list A → S → Prop) Q l s :
  I l s →
  (∀ x l' s, I (x :: l') s → wp (f x) (λ _, I l') s) →
  (∀ s, I [] s → Q tt s) →
  wp (for_each f l) Q s.
Proof.
  intros Hi Hstep Hend. revert s Hi. induction l as [|x l IH]; intros s Hi; simpl.
  - by apply wp_ret, Hend.
  - apply wp_bind. eapply wp_mono; [by apply Hstep|]. simpl. auto.
Qed.
End wp_rules.

Lemma wp_zoom {S T A} (get : S → T) (put : T → S → S) (m : M T A) Q s :
  wp m (λ a t, Q a (put t s)) (get s) → wp (zoom get put m) Q s.
Proof. unfold wp, zoom. destruct (m (get s)) as [[a t]| |]; auto. Qed.

(** ** Safety: [safe m Q s] says that [m], started in [s], does not fail; it may
    block, and if it returns then [Q] holds. *)

Definition safe {S A} (m : M S A) (Q : A → S → Prop) (s : S) : Prop :=
  match m s with
  | Done (a, s') => Q a s'
  | Blocked => True
  | Crash _ => False
  end.

(** [no_crash m s]: [m], started in [s], does not fail. *)
Definition no_crash {S A} (m : M S A) (s : S) : Prop := ∀ f, m s ≠ Crash f.

Section safe_rules.
Context {S : Type}.
Implicit Types s : S.

Lemma wp_safe {A} (m : M S A) Q s : wp m Q s → safe m Q s.
Proof. unfold wp, safe. destruct (m s) as [[a s']| |]; done. Qed.

Lemma safe_no_crash {A} (m : M S A) Q s : safe m Q s → no_crash m s.
Proof. unfold safe, no_crash. by destruct (m s). Qed.

Lemma safe_run {A} (m : M S A) Q s a s' : safe m Q s → m s = Done (a, s') → Q a s'.
Proof. unfold safe. intros H E. by rewrite E in H. Qed.

Lemma safe_mono {A} (m : M S A) (Q R : A → S → Prop) s :
  safe m Q s → (∀ a s', Q a s' → R a s') → safe m R s.
Proof. unfold safe. destruct (m s) as [[a s']| |]; naive_solver. Qed.

Lemma safe_bind {A B} (m : M S A) (f : A → M S B) Q s :
  safe m (λ a s', safe (f a) Q s') s → safe (m ≫= f) Q s.
Proof. unfold safe, mbind, M_bind. destruct (m s) as [[a s']| |]; auto. Qed.

Lemma safe_ret {A} (a : A) Q s : Q a s → safe (mret a : M S A) Q s.
Proof. done. Qed.

Lemma safe_gets {A} (f : S → A) Q s : Q (f s) s → safe (gets f) Q s.
Proof. done. Qed.

Lemma safe_modify (f : S → S) (Q : unit → S → Prop) s : Q tt (f s) → safe (modify f) Q s.
Proof. done. Qed.

Lemma safe_check n (b : bool) (Q : unit → S → Prop) s :
  b = true → Q tt s → safe (check n b) Q s.
Proof. by intros ->. Qed.

Lemma safe_block {A} (Q : A → S → Prop) s : safe block Q s.
Proof. done. Qed.

Lemma safe_when (b : bool) m (Q : unit → S → Prop) s :
  (b = true → safe m Q s) → (b = false → Q tt s) → safe (when b m) Q s.
Proof. destruct b; unfold when; naive_solver. Qed.

Lemma safe_if {A} (b : bool) (m1 m2 : M S A) Q s :
  (b = true → safe m1 Q s) → (b = false → safe m2 Q s) → safe (if b then m1 else m2) Q s.
Proof. destruct b; naive_solver. Qed.

Lemma safe_for_each {A} (f : A → M S unit) (I : list A → S → Prop) Q l s :
  I l s →
  (∀ x l' s, I (x :: l') s → safe (f x) (λ _, I l') s) →
  (∀ s, I [] s → Q tt s) →
  safe (for_each f l) Q s.
Proof.
  intros Hi Hstep Hend. revert s Hi. induction l as [|x l IH]; intros s Hi; simpl.
  - by apply safe_ret, Hend.
  - apply safe_bind. eapply safe_mono; [by apply Hstep|]. simpl. auto.
Qed.
End safe_rules.

Lemma safe_zoom {S T A} (get : S → T) (put : T → S → S) (m : M T A) Q s :
  safe m (λ a t, Q a (put t s)) (get s) → safe (zoom get put m) Q s.
Proof. unfold safe, zoom. destruct (m (get s)) as [[a t]| |]; auto. Qed.

(** ** Partial correctness: [wlp m Q s] says that [Q] holds if [m] returns. *)

Definition wlp {S A} (m : M S A) (Q : A → S → Prop) (s : S) : Prop :=
  match m s with
  | Done (a, s') => Q a s'
  | _ => True
  end.

Section wlp_rules.
Context {S : Type}.
Implicit Types s : S.

Lemma wp_wlp {A} (m : M S A) Q s : wp m Q s → wlp m Q s.
Proof. unfold wp, wlp. by destruct (m s) as [[a s']| |]. Qed.

Lemma wlp_run {A} (m : M S A) Q s a s' : wlp m Q s → m s = Done (a, s') → Q a s'.
Proof. unfold wlp. intros H E. by rewrite E in H. Qed.

Lemma wlp_mono {A} (m : M S A) (Q R : A → S → Prop) s :
  wlp m Q s → (∀ a s', Q a s' → R a s') → wlp m R s.
Proof. unfold wlp. destruct (m s) as [[a s']| |]; naive_solver. Qed.

Lemma wlp_bind {A B} (m : M S A) (f : A → M S B) Q s :
  wlp m (λ a s', wlp (f a) Q s') s → wlp (m ≫= f) Q s.
Proof. unfold wlp, mbind, M_bind. destruct (m s) as [[a s']| |]; auto. Qed.

Lemma wlp_ret {A} (a : A) Q s : Q a s → wlp (mret a : M S A) Q s.
Proof. done. Qed.

Lemma wlp_gets {A} (f : S → A) Q s : Q (f s) s → wlp (gets f) Q s.
Proof. done. Qed.

Lemma wlp_modify (f : S → S) (Q : unit → S → Prop) s : Q tt (f s) → wlp (modify f) Q s.
Proof. done. Qed.

Lemma wlp_check n (b : bool) (Q : unit → S → Prop) s :
  (b = true → Q tt s) → wlp (check n b) Q s.
Proof. unfold wlp, check. destruct b; simpl; auto. Qed.

Lemma wlp_crash {A} e (Q : A → S → Prop) s : wlp (crash e) Q s.
Proof. done. Qed.

Lemma wlp_when (b : bool) m (Q : unit → S → Prop) s :
  (b = true → wlp m Q s) → (b = false → Q tt s) → wlp (when b m) Q s.
Proof. destruct b; unfold when; naive_solver. Qed.

Lemma wlp_if {A} (b : bool) (m1 m2 : M S A) Q s :
  (b = true → wlp m1 Q s) → (b = false → wlp m2 Q s) → wlp (if b then m1 else m2) Q s.
Proof. destruct b; naive_solver. Qed.
End wlp_rules.

Lemma wlp_zoom {S T A} (get : S → T) (put : T → S → S) (m : M T A) Q s :
  wlp m (λ a t, Q a (put t s)) (get s) → wlp (zoom get put m) Q s.
Proof. unfold wlp, zoom. destruct (m (get s)) as [[a t]| |]; auto. Qed.

(** ** Running a call on a concrete state *)

Definition result {S A} (m : M S A) (s : S) : option A :=
  match m s with Done (a, _) => Some a | _ => None end.
Definition after {S A} (m : M S A) (s : S) : S :=
  match m s with Done (_, s') => s' | _ => s end.

Lemma run_result {S A} (m : M S A) s a : result m s = Some a → m s = Done (a, after m s).
Proof. unfold result, after. destruct (m s) as [[a' s']| |]; congruence. Qed.

(** ** Mutexes

    The locks are taken in one method and released in another, so the mutex
    is a field of the object's state: taking a held mutex blocks, releasing a
    free one is an error. *)

Class HasMutex (S : Type) := {
  mutex_held : S → bool;
  mutex_set : bool → S → S;
  mutex_held_set : ∀ b s, mutex_held (mutex_set b s) = b;
  mutex_set_set : ∀ b c s, mutex_set b (mutex_set c s) = mutex_set b s;
  mutex_set_held : ∀ s, mutex_set (mutex_held s) s = s
}.

Section mutex.
Context {S : Type} `{!HasMutex S}.

Definition mutex_lock : M S unit := λ s,
  if mutex_held s then Blocked else Done (tt, mutex_set true s).

Definition mutex_unlock : M S unit := λ s,
  if mutex_held s then Done (tt, mutex_set false s) else Crash UnlockNotHeld.

Lemma wp_mutex_lock (Q : unit → S → Prop) s :
  mutex_held s = false → Q tt (mutex_set true s) → wp mutex_lock Q s.
Proof. unfold wp, mutex_lock. by intros ->. Qed.

Lemma wp_mutex_unlock (Q : unit → S → Prop) s :
  mutex_held s = true → Q tt (mutex_set false s) → wp mutex_unlock Q s.
Proof. unfold wp, mutex_unlock. by intros ->. Qed.

Lemma run_mutex_lock s : mutex_held s = false → mutex_lock s = Done (tt, mutex_set true s).
Proof. unfold mutex_lock. by intros ->. Qed.

Lemma run_mutex_unlock s : mutex_held s = true → mutex_unlock s = Done (tt, mutex_set false s).
Proof. unfold mutex_unlock. by intros ->. Qed.

(** A critical section leaves the mutex free. *)
Lemma wp_critical {A} (m : M S A) (Q : A → S → Prop) s :
  mutex_held s = false →
  wp m (λ a s', mutex_held s' = true ∧ Q a (mutex_set false s')) (mutex_set true s) →
  wp (mutex_lock ;; a ← m ; mutex_unlock ;; mret a) Q s.
Proof.
  intros Hf Hm. apply wp_bind, wp_mutex_lock; [done|].
  apply wp_bind. eapply wp_mono; [exact Hm|]. intros a s' [Hh HQ].
  by apply wp_bind, wp_mutex_unlock.
Qed.
End mutex.

(** ** Automation *)

Create HintDb mp discriminated.
#[export] Hint Resolve wp_ret wp_gets wp_modify : mp.

(** One step of symbolic execution. *)
Ltac wp_step :=
  lazymatch goal with
  | |- wp (mbind _ _) _ _ => apply wp_bind
  | |- wp (mret _) _ _ => apply wp_ret
  | |- wp (gets _) _ _ => apply wp_gets
  | |- wp (modify _) _ _ => apply wp_modify
  | |- wp (check _ _) _ _ => apply wp_check
  | |- wp (when _ _) _ _ => apply wp_when; intros ?
  | |- wp mutex_lock _ _ => apply wp_mutex_lock
  | |- wp mutex_unlock _ _ => apply wp_mutex_unlock
  | |- wp (zoom _ _ _) _ _ => apply wp_zoom
  | |- wp (if _ then _ else _) _ _ => apply wp_if; intros ?
  end; cbv beta.

Ltac safe_step :=
  lazymatch goal with
  | |- safe (mbind _ _) _ _ => apply safe_bind
  | |- safe (mret _) _ _ => apply safe_ret
  | |- safe (gets _) _ _ => apply safe_gets
  | |- safe (modify _) _ _ => apply safe_modify
  | |- safe (check _ _) _ _ => apply safe_check
  | |- safe block _ _ => apply safe_block
  | |- safe (when _ _) _ _ => apply safe_when; intros ?
  | |- safe (zoom _ _ _) _ _ => apply safe_zoom
  | |- safe (if _ then _ else _) _ _ => apply safe_if; intros ?
  end; cbv beta.

Ltac wlp_step :=
  lazymatch goal with
  | |- wlp (mbind _ _) _ _ => apply wlp_bind
  | |- wlp (mret _) _ _ => apply wlp_ret
  | |- wlp (gets _) _ _ => apply wlp_gets
  | |- wlp (modify _) _ _ => apply wlp_modify
  | |- wlp (check _ _) _ _ => apply wlp_check; intros ?
  | |- wlp (crash _) _ _ => apply wlp_crash
  | |- wlp (when _ _) _ _ => apply wlp_when; intros ?
  | |- wlp (zoom _ _ _) _ _ => apply wlp_zoom
  | |- wlp (if _ then _ else _) _ _ => apply wlp_if; intros ?
  end; cbv beta.

Ltac bool_simpl :=
  repeat match goal with
  | H : bool_decide _ = true |- _ => apply bool_decide_eq_true in H
  | H : bool_decide _ = false |- _ => apply bool_decide_eq_false in H
  | H : negb _ = true |- _ => apply negb_true_iff in H
  | H : negb _ = false |- _ => apply negb_false_iff in H
  | H : andb _ _ = true |- _ => apply andb_true_iff in H as [? ?]
  | H : orb _ _ = false |- _ => apply orb_false_iff in H as [? ?]
  | H : (_ =? _) = true |- _ => apply Z.eqb_eq in H
  | H : (_ =? _) = false |- _ => apply Z.eqb_neq in H
  | H : (_ <? _) = true |- _ => apply Z.ltb_lt in H
  | H : (_ <? _) = false |- _ => apply Z.ltb_ge in H
  | H : (_ <=? _) = true |- _ => apply Z.leb_le in H
  | H : (_ <=? _) = false |- _ => apply Z.leb_gt in H
  end.

(** ** Reachability *)

Section star.
Context {A : Type} (R : A → A → Prop).

Inductive star : A → A → Prop :=
  | star_refl a : star a a
  | star_snoc a b c : star a b → R b c → star a c.

(** Rule induction packaged: an invariant of the steps is an invariant of
    the reachable states. *)
Lemma star_invariant (I : A → Prop) a b :
  I a → (∀ x y, I x → R x y → I y) → star a b → I b.
Proof. intros Ha Hstep. induction 1; eauto. Qed.

Lemma star_trans a b c : star a b → star b c → star a c.
Proof. intros Hab. induction 1; eauto using star. Qed.
End star.

(** ** Machine integers *)

Definition u64 (z : Z) : Z := z mod 2 ^ 64.
Definition u32 (z : Z) : Z := z mod 2 ^ 32.

Lemma u64_small z : 0 ≤ z < 2 ^ 64 → u64 z = z.
Proof. apply Z.mod_small. Qed.

Lemma u64_range z : 0 ≤ u64 z < 2 ^ 64.
Proof. by apply Z.mod_pos_bound. Qed.

(** ** Lists *)

Section lists.
Context {A : Type}.

(** The number of elements of [l] that satisfy [p], as a C++ integer. *)
Definition countZ (p : A → bool) (l : list A) : Z :=
  Z.of_nat (length (List.filter p l)).

Lemma countZ_nil p : countZ p [] = 0.
Proof. done. Qed.

Lemma countZ_cons p x l :
  countZ p (x :: l) = (if p x then 1 else 0) + countZ p l.
Proof. unfold countZ. simpl. destruct (p x); simpl; lia. Qed.

Lemma countZ_app p l k : countZ p (l ++ k) = countZ p l + countZ p k.
Proof. induction l as [|x l IH]; [done|]. simpl. rewrite !countZ_cons, IH. lia. Qed.

Lemma countZ_nonneg p l : 0 ≤ countZ p l.
Proof. unfold countZ. lia. Qed.

Lemma countZ_pos p l x : x ∈ l → p x = true → 0 < countZ p l.
Proof.
  intros Hin Hp. induction l as [|y l IH]; [by apply elem_of_nil in Hin|].
  rewrite countZ_cons. pose proof (countZ_nonneg p l).
  apply elem_of_cons in Hin as [->|Hin].
  - rewrite Hp. lia.
  - specialize (IH Hin). destruct (p y); lia.
Qed.

Lemma countZ_none p l : (∀ x, x ∈ l → p x = false) → countZ p l = 0.
Proof.
  induction l as [|x l IH]; [done|]. intros Hl. rewrite countZ_cons, Hl by (by left).
  rewrite IH; [done|]. intros y Hy. apply Hl. by right.
Qed.

Lemma countZ_zero p l : countZ p l = 0 → List.filter p l = [].
Proof. unfold countZ. destruct (List.filter p l); simpl; [done|lia]. Qed.
End lists.

Create Rewrite HintDb mp_rw.
#[export] Hint Rewrite @countZ_nil @countZ_cons @countZ_app : mp_rw.

(** Keys that occur once identify their element. *)
Lemma NoDup_fmap_inj_in {A B} (f : A → B) (l : list A) x y :
  NoDup (f <$> l) → x ∈ l → y ∈ l → f x = f y → x = y.
Proof.
  intros Hnd [i Hi]%list_elem_of_lookup [j Hj]%list_elem_of_lookup Hf.
  assert (i = j) as ->; [|congruence].
  eapply NoDup_lookup; [exact Hnd| |]; rewrite list_lookup_fmap.
  - by rewrite Hi.
  - rewrite Hj. simpl. by rewrite Hf.
Qed.

(** [std::list::remove]: every occurrence goes. *)
Definition list_remove (n : Z) (l : list Z) : list Z :=
  List.filter (λ x, negb (x =? n)) l.

Lemma elem_of_list_remove n x l : x ∈ list_remove n l ↔ x ∈ l ∧ x ≠ n.
Proof.
  unfold list_remove. rewrite !list_elem_of_In, List.filter_In, negb_true_iff, Z.eqb_neq.
  done.
Qed.

Lemma NoDup_list_remove n l : NoDup l → NoDup (list_remove n l).
Proof. rewrite !NoDup_ListNoDup. apply List.NoDup_filter. Qed.

Lemma list_remove_notin n l : n ∉ l → list_remove n l = l.
Proof.
  induction l as [|x l IH]; [done|]. rewrite not_elem_of_cons. intros [? ?].
  unfold list_remove in *. simpl.
  destruct (Z.eqb_spec x n); simpl; [congruence|]. by rewrite IH.
Qed.

Lemma length_list_remove n l :
  NoDup l → n ∈ l → S (length (list_remove n l)) = length l.
Proof.
  induction l as [|x l IH]; intros Hl Hin; [by apply elem_of_nil in Hin|].
  apply NoDup_cons in Hl as [Hx Hnd]. apply elem_of_cons in Hin.
  unfold list_remove in *. simpl. case (Z.eqb_spec x n); intros Heq; simpl.
  - subst x. f_equal. fold (list_remove n l). by rewrite list_remove_notin.
  - f_equal. apply IH; naive_solver.
Qed.

Lemma list_alter_twice {A} (f g : A → A) (l : list A) i :
  alter f i (alter g i l) = alter (λ x, f (g x)) i l.
Proof.
  revert i. induction l as [|x l IH]; intros [|i]; [done..|].
  simpl. f_equal. apply (IH i).
Qed.

(** A list of distinct indices below [n] that misses one is shorter than [n]. *)
Lemma length_missing n (l : list Z) f :
  NoDup l → (∀ g, g ∈ l → 0 ≤ g < n) → 0 ≤ f < n → f ∉ l → Z.of_nat (length l) < n.
Proof.
  intros Hnd Hrg Hf Hnf.
  assert (f :: l ⊆+ (Z.of_nat <$> seq 0 (Z.to_nat n))) as Hsub%submseteq_length.
  { apply NoDup_submseteq; [by apply NoDup_cons|]. intros x Hx.
    assert (0 ≤ x < n) as Hx' by (apply elem_of_cons in Hx as [->|Hx]; auto).
    apply list_elem_of_fmap. exists (Z.to_nat x). split; [lia|]. apply elem_of_seq. lia. }
  simpl in Hsub. rewrite length_fmap, length_seq in Hsub. lia.
Qed.

(** Membership as the boolean [std::find(...) != end()]. *)
Definition memZ (n : Z) (l : list Z) : bool := bool_decide (n ∈ l).

Lemma memZ_true n l : memZ n l = true ↔ n ∈ l.
Proof. apply bool_decide_eq_true. Qed.

Lemma memZ_false n l : memZ n l = false ↔ n ∉ l.
Proof. apply bool_decide_eq_false. Qed.
