(* ===== verification/Common.v ===== *)
(** Types and constants shared by every component: [common/common.h] (identifier
    types, lock words, lock modes) and [common/config.h] (capacities). *)

From S2P Require Import Prelude.

(** Identifier types are C++ [int32_t]/[uint64_t]; they are modelled as [Z]. *)
Abbreviation page_id_t := Z (only parsing).
Abbreviation frame_id_t := Z (only parsing).
Abbreviation table_id_t := Z (only parsing).
Abbreviation node_id_t := Z (only parsing).
Abbreviation lock_t := Z (only parsing).
Abbreviation LLSN := Z (only parsing).

Definition INVALID_FRAME_ID : Z := -1.
Definition INVALID_PAGE_ID : Z := -1.
Definition INVALID_NODE_ID : Z := -1.

Definition UNLOCKED : Z := 0.
Definition EXCLUSIVE_LOCKED : Z := 0xFF00000000000000.

Definition MaxComputeNodeCount : Z := 64.
Definition NUM_BUFFER_PARTITION : Z := 16.

Inductive LockMode : Set := NONE | SHARED | EXCLUSIVE.

#[export] Instance LockMode_eq_dec : EqDecision LockMode.
Proof. solve_decision. Defined.

(** A compute node's identifier: an index into the arrays of size
    [MaxComputeNodeCount]. *)
Definition valid_node (n : Z) : Prop := 0 ≤ n < MaxComputeNodeCount.

#[export] Instance valid_node_dec n : Decision (valid_node n).
Proof. unfold valid_node. apply _. Defined.

(** The lock word counts readers from 0 and marks a writer by
    [EXCLUSIVE_LOCKED]; fewer readers than that leave the marker unambiguous
    and the 64-bit increment exact. *)
Lemma lock_incr k : 0 ≤ k < EXCLUSIVE_LOCKED → u64 (k + 1) = k + 1.
Proof. intros H. apply u64_small. unfold EXCLUSIVE_LOCKED in H. lia. Qed.

Lemma lock_decr k : 0 < k ≤ EXCLUSIVE_LOCKED → u64 (k - 1) = k - 1.
Proof. intros H. apply u64_small. unfold EXCLUSIVE_LOCKED in H. lia. Qed.

(** Distinct node identifiers are at most [MaxComputeNodeCount] many. *)
Lemma nodes_bounded (l : list Z) :
  NoDup l → Forall valid_node l → Z.of_nat (length l) ≤ MaxComputeNodeCount.
Proof.
  intros Hnd Hv.
  assert (l ⊆+ (Z.of_nat <$> seq 0 64)) as Hsub%submseteq_length.
  { apply NoDup_submseteq; [done|]. intros x Hx.
    rewrite Forall_forall in Hv. specialize (Hv _ Hx).
    unfold valid_node, MaxComputeNodeCount in Hv.
    apply list_elem_of_fmap. exists (Z.to_nat x). split; [lia|].
    apply elem_of_seq. lia. }
  rewrite length_fmap, length_seq in Hsub. unfold MaxComputeNodeCount. lia.
Qed.

Lemma nodes_below_exclusive (l : list Z) :
  NoDup l → Forall valid_node l → 0 ≤ Z.of_nat (length l) < EXCLUSIVE_LOCKED.
Proof.
  intros Hnd Hv. pose proof (nodes_bounded l Hnd Hv).
  unfold EXCLUSIVE_LOCKED, MaxComputeNodeCount in *. lia.
Qed.
