(* ===== verification/ValidInfo.v ===== *)
(** [core/GPLM/global_valid_table.h]: for one page, which compute nodes hold a
    current copy ([node_has_newest_page_status]) and which of them is the
    source to fetch it from ([newest_node]).  [GlobalValidInfo] models the
    class method by method, its mutex included. *)

From S2P Require Import Prelude Common.

Record GlobalValidInfo := mkValid {
  valid_page_id : page_id_t;
  newest_node : node_id_t;
  node_has_newest_page_status : list bool;
  valid_mutex : bool
}.

Definition set_newest (n : Z) (v : GlobalValidInfo) : GlobalValidInfo :=
  mkValid (valid_page_id v) n (node_has_newest_page_status v) (valid_mutex v).
Definition set_statuses (l : list bool) (v : GlobalValidInfo) : GlobalValidInfo :=
  mkValid (valid_page_id v) (newest_node v) l (valid_mutex v).

#[export] Program Instance GlobalValidInfo_mutex : HasMutex GlobalValidInfo := {
  mutex_held := valid_mutex;
  mutex_set b v :=
    mkValid (valid_page_id v) (newest_node v) (node_has_newest_page_status v) b
}.
Solve Obligations with by intros; try destruct s.

(** The constructor [GlobalValidInfo(pid)]. *)
Definition new_GlobalValidInfo (pid : page_id_t) : GlobalValidInfo :=
  mkValid pid (-1) (replicate (Z.to_nat MaxComputeNodeCount) false) false.

(** ** Array accesses *)

Definition read_status (n : Z) : M GlobalValidInfo bool := λ v,
  if 0 <=? n then
    match node_has_newest_page_status v !! Z.to_nat n with
    | Some b => Done (b, v)
    | None => Crash OutOfBounds
    end
  else Crash OutOfBounds.

Definition write_status (n : Z) (b : bool) : M GlobalValidInfo unit := λ v,
  if (0 <=? n) && (n <? Z.of_nat (length (node_has_newest_page_status v))) then
    Done (tt, set_statuses (<[Z.to_nat n := b]> (node_has_newest_page_status v)) v)
  else Crash OutOfBounds.

(** The scan [for (i = 0; i < MaxComputeNodeCount; i++) if (status[i]) ...; break]:
    the first valid node from position [i] on, [-1] when there is none. *)
Fixpoint first_valid (i : Z) (l : list bool) : Z :=
  match l with
  | [] => -1
  | true :: _ => i
  | false :: l' => first_valid (i + 1) l'
  end.

Definition HasAnyValid (v : GlobalValidInfo) : Z :=
  first_valid 0 (node_has_newest_page_status v).

Definition SetAllNodeStatusFalse : M GlobalValidInfo unit :=
  modify (set_statuses (replicate (Z.to_nat MaxComputeNodeCount) false)).

Definition SetAllNodeStatusTrue : M GlobalValidInfo unit :=
  modify (set_statuses (replicate (Z.to_nat MaxComputeNodeCount) true)).

(** ** The methods *)

Definition get_newest_nodeID : M GlobalValidInfo Z :=
  mutex_lock ;; r ← gets newest_node ; mutex_unlock ;; mret r.

Definition get_newest_nodeID_NoBlock : M GlobalValidInfo Z := gets newest_node.

Definition Global_Lock : M GlobalValidInfo unit := mutex_lock.

Definition MarkOnluInStorage : M GlobalValidInfo unit :=
  mutex_lock ;; modify (set_newest (-1)) ;; SetAllNodeStatusFalse ;; mutex_unlock.

Definition Reset : M GlobalValidInfo unit := MarkOnluInStorage.

(** Hand [newest_node] over to the first remaining valid node. *)
Definition repoint_newest : M GlobalValidInfo unit :=
  i ← gets HasAnyValid ; modify (set_newest i).

Definition ReleasePageNoBlock (n : Z) : M GlobalValidInfo unit :=
  write_status n false ;;
  cur ← gets newest_node ;
  when (cur =? n) repoint_newest.

(** The body of [ReleasePage] is that of [ReleasePageNoBlock], under the mutex. *)
Definition ReleasePage (n : Z) : M GlobalValidInfo unit :=
  mutex_lock ;; ReleasePageNoBlock n ;; mutex_unlock.

Definition UpdateValid (n : Z) : M GlobalValidInfo unit :=
  b ← read_status n ;
  cur ← gets newest_node ;
  if b : bool then check 107 (cur =? n)
  else
    check 110 (negb (cur =? n)) ;;
    when (negb (cur =? -1))
      (o ← read_status cur ; check 112 o ;; write_status cur false) ;;
    modify (set_newest n) ;;
    write_status n true.

(** Returns the source node and the out-parameter [need_from_storage] (which
    keeps the caller's value [nfs0] on the first branch). *)
Definition GetValid (n : Z) (nfs0 : bool) : M GlobalValidInfo (Z * bool) :=
  mutex_lock ;;
  b ← read_status n ;
  if b : bool then mutex_unlock ;; mret (-1, nfs0)
  else
    ret ← gets newest_node ;
    write_status n true ;;
    when (ret =? INVALID_NODE_ID) (modify (set_newest n)) ;;
    mutex_unlock ;;
    mret (ret, ret =? INVALID_NODE_ID).

(** The overload used on release: a pure query. *)
Definition GetValid_release (n : Z) : M GlobalValidInfo Z :=
  mutex_lock ;;
  b ← read_status n ;
  if b : bool then mutex_unlock ;; mret (-1)
  else ret ← gets newest_node ; mutex_unlock ;; mret ret.

Definition GetValid_NoBlock (n : Z) : M GlobalValidInfo Z :=
  b ← read_status n ;
  if b : bool then mret (-1)
  else cur ← gets newest_node ; check 178 (negb (cur =? n)) ;; mret cur.

Definition IsValid (n : Z) : M GlobalValidInfo bool :=
  mutex_lock ;; b ← read_status n ; mutex_unlock ;; mret b.

Definition IsValid_NoBlock (n : Z) : M GlobalValidInfo bool := read_status n.

Definition setNodeStatusNoBlock (n : Z) (b : bool) : M GlobalValidInfo unit :=
  write_status n b ;;
  cur ← gets newest_node ;
  when (negb b && (cur =? n)) repoint_newest.

(** As written: the scan that finds a new source unlocks the mutex before its
    [break], and the method unlocks it again on its way out. *)
Definition setNodeStatus (n : Z) (b : bool) : M GlobalValidInfo unit :=
  mutex_lock ;;
  write_status n b ;;
  cur ← gets newest_node ;
  when (negb b && (cur =? n))
    (modify (set_newest (-1)) ;;
     i ← gets HasAnyValid ;
     when (negb (i =? -1)) (modify (set_newest i) ;; mutex_unlock)) ;;
  mutex_unlock.

(** Called with the mutex held; releases it. *)
Definition SetValidAndUpdateNewest (n : Z) : M GlobalValidInfo unit :=
  write_status n true ;; modify (set_newest n) ;; mutex_unlock.

(** ** Abstract view: the set of valid nodes *)

Definition has_page (v : GlobalValidInfo) (n : Z) : Prop :=
  0 ≤ n ∧ node_has_newest_page_status v !! Z.to_nat n = Some true.

#[export] Instance has_page_dec v n : Decision (has_page v n).
Proof. unfold has_page. apply _. Defined.

(** Well-formedness: the array has its size, and the source node is a valid
    node, [-1] exactly when no node is valid. *)
Record valid_wf (v : GlobalValidInfo) : Prop := {
  vwf_len : length (node_has_newest_page_status v) = Z.to_nat MaxComputeNodeCount;
  vwf_newest : (newest_node v = -1 ∧ ∀ n, ¬ has_page v n) ∨ has_page v (newest_node v)
}.

Lemma has_page_valid_node v n :
  length (node_has_newest_page_status v) = Z.to_nat MaxComputeNodeCount →
  has_page v n → valid_node n.
Proof.
  intros Hl [? Hn]. apply lookup_lt_Some in Hn. unfold valid_node. lia.
Qed.

Lemma first_valid_spec l i :
  (first_valid i l = -1 ∧ (∀ k, l !! k = Some true → False)) ∨
  (∃ k, first_valid i l = i + Z.of_nat k ∧ l !! k = Some true).
Proof.
  revert i. induction l as [|[] l IH]; intros i; simpl.
  - left. split; [done|]. intros k. by rewrite lookup_nil.
  - right. exists 0%nat. split; [lia|done].
  - destruct (IH (i + 1)) as [[H1 H2]|[k [H1 H2]]].
    + left. split; [done|]. intros [|k] Hk; [done|]. by apply (H2 k).
    + right. exists (S k). split; [lia|done].
Qed.

Lemma HasAnyValid_spec v :
  (HasAnyValid v = -1 ∧ ∀ n, ¬ has_page v n) ∨ has_page v (HasAnyValid v).
Proof.
  unfold HasAnyValid, has_page.
  destruct (first_valid_spec (node_has_newest_page_status v) 0) as [[-> H]|[k [-> H]]].
  - left. split; [done|]. intros n [_ Hn]. eauto.
  - right. rewrite Z.add_0_l, Nat2Z.id. split; [lia|done].
Qed.

Lemma HasAnyValid_nonneg v : HasAnyValid v ≠ -1 → has_page v (HasAnyValid v).
Proof. destruct (HasAnyValid_spec v) as [[? _]|?]; tauto. Qed.

(** ** What the primitive accesses do to the abstract view *)

Section access.
Context (v : GlobalValidInfo).
Context (Hlen : length (node_has_newest_page_status v) = Z.to_nat MaxComputeNodeCount).

Lemma wp_read_status n (Q : bool → GlobalValidInfo → Prop) :
  valid_node n → Q (bool_decide (has_page v n)) v → wp (read_status n) Q v.
Proof using Hlen.
  intros Hn HQ. unfold wp, read_status, valid_node in *.
  rewrite (proj2 (Z.leb_le 0 n)) by lia.
  destruct (lookup_lt_is_Some_2 (node_has_newest_page_status v) (Z.to_nat n)) as [b Hb];
    [lia|]. rewrite Hb.
  replace b with (bool_decide (has_page v n)); [done|].
  destruct b; [apply bool_decide_eq_true_2|apply bool_decide_eq_false_2];
    unfold has_page; rewrite Hb; naive_solver lia.
Qed.

Definition status_written (n : Z) (b : bool) : GlobalValidInfo :=
  set_statuses (<[Z.to_nat n := b]> (node_has_newest_page_status v)) v.

Lemma wp_write_status n b (Q : unit → GlobalValidInfo → Prop) :
  valid_node n → Q tt (status_written n b) → wp (write_status n b) Q v.
Proof using Hlen.
  intros Hn HQ. unfold wp, write_status, valid_node in *.
  rewrite (proj2 (Z.leb_le 0 n)), (proj2 (Z.ltb_lt _ _)) by lia. done.
Qed.

Lemma status_written_len n b :
  length (node_has_newest_page_status (status_written n b)) = Z.to_nat MaxComputeNodeCount.
Proof using Hlen. simpl. by rewrite length_insert. Qed.

Lemma status_written_has n b m :
  valid_node n →
  has_page (status_written n b) m ↔ (m = n ∧ b = true) ∨ (m ≠ n ∧ has_page v m).
Proof using Hlen.
  intros Hn. unfold has_page, status_written, valid_node in *. simpl.
  destruct (decide (m = n)) as [->|Hne].
  - rewrite list_lookup_insert_eq by lia. naive_solver lia.
  - split.
    + intros [? H]. rewrite list_lookup_insert_ne in H by lia. auto.
    + intros [[? _]|[_ [? H]]]; [done|]. rewrite list_lookup_insert_ne by lia. auto.
Qed.
End access.

(** ** Specifications

    [valid_state v P b]: [v] is well formed, its mutex is held iff [b], and
    [P] is its set of valid nodes. *)

Definition valid_state (v : GlobalValidInfo) (P : Z → Prop) (held : bool) : Prop :=
  valid_wf v ∧ valid_mutex v = held ∧ ∀ n, has_page v n ↔ P n.

(** The weaker state between the calls of one handler: [newest_node] may lag. *)
Definition valid_pages (v : GlobalValidInfo) (P : Z → Prop) (held : bool) : Prop :=
  length (node_has_newest_page_status v) = Z.to_nat MaxComputeNodeCount ∧
  valid_mutex v = held ∧ ∀ n, has_page v n ↔ P n.

Lemma valid_state_ext v (P Q : Z → Prop) b :
  (∀ n, P n ↔ Q n) → valid_state v P b → valid_state v Q b.
Proof. intros HPQ (? & ? & HP). split_and!; [done|done|]. intros n. by rewrite HP. Qed.

Lemma valid_state_pages v P b : valid_state v P b → valid_pages v P b.
Proof. intros ([Hl _] & Hm & HP). done. Qed.

Lemma valid_state_newest v P b :
  valid_state v P b → (newest_node v = -1 ∧ ∀ n, ¬ P n) ∨ P (newest_node v).
Proof.
  intros ([_ [[H1 H2]|H]] & _ & HP).
  - left. split; [done|]. intros n. rewrite <- HP. apply H2.
  - right. by apply HP.
Qed.

Lemma valid_pages_node v P b n : valid_pages v P b → P n → valid_node n.
Proof. intros (Hl & _ & HP) Hn. apply HP in Hn. eauto using has_page_valid_node. Qed.

Lemma repoint_newest_spec v P b :
  valid_pages v P b → wp repoint_newest (λ _ v', valid_state v' P b) v.
Proof.
  intros (Hl & Hm & HP). unfold repoint_newest. repeat wp_step.
  split_and!; [split; [done|]|done|done].
  destruct (HasAnyValid_spec v) as [[Hi Hno]|Hyes]; [left|right]; simpl; done.
Qed.

Lemma ReleasePageNoBlock_spec v P b n :
  valid_state v P b → valid_node n →
  wp (ReleasePageNoBlock n)
     (λ _ v', valid_state v' (λ m, P m ∧ m ≠ n) b ∧
              (newest_node v ≠ n → newest_node v' = newest_node v)) v.
Proof.
  intros Hst Hn. unfold ReleasePageNoBlock. destruct Hst as (Hwf & Hm & HP). pose proof (vwf_len _ Hwf) as Hl.
  wp_step. apply wp_write_status; [done|done|]. do 2 wp_step.
  assert (valid_pages (status_written v n false) (λ m, P m ∧ m ≠ n) b) as Hpg.
  { split_and!; [by apply status_written_len|done|]. intros m.
    rewrite status_written_has by done. rewrite <- HP. naive_solver. }
  wp_step; bool_simpl; simpl in *.
  - eapply wp_mono; [by apply repoint_newest_spec|]. naive_solver.
  - split; [|done]. destruct Hpg as (Hl' & Hm' & HP').
    split_and!; [split; [done|]|done|done].
    destruct (vwf_newest _ Hwf) as [[Hi Hno]|Hyes]; [left|right]; simpl.
    + split; [done|]. intros m. rewrite HP'. intros [? _]. by apply (Hno m), HP.
    + apply HP'. split; [by apply HP|done].
Qed.

Lemma valid_state_lock v P b c :
  valid_state v P b → valid_state (mutex_set c v) P c.
Proof. intros ([Hl Hn] & _ & HP). done. Qed.

Lemma wp_valid_unlock v P (Q : unit → GlobalValidInfo → Prop) :
  valid_state v P true →
  (valid_state (mutex_set false v) P false → Q tt (mutex_set false v)) →
  wp mutex_unlock Q v.
Proof.
  intros Hst HQ. pose proof Hst as (_ & Hm & _).
  apply wp_mutex_unlock; [done|]. eauto using valid_state_lock.
Qed.

Lemma wp_valid_lock v P (Q : unit → GlobalValidInfo → Prop) :
  valid_state v P false →
  (valid_state (mutex_set true v) P true → Q tt (mutex_set true v)) →
  wp mutex_lock Q v.
Proof.
  intros Hst HQ. pose proof Hst as (_ & Hm & _).
  apply wp_mutex_lock; [done|]. eauto using valid_state_lock.
Qed.

Lemma ReleasePage_spec v P n :
  valid_state v P false → valid_node n →
  wp (ReleasePage n) (λ _ v', valid_state v' (λ m, P m ∧ m ≠ n) false ∧
                              (newest_node v ≠ n → newest_node v' = newest_node v)) v.
Proof.
  intros Hst Hn. unfold ReleasePage. wp_step.
  eapply wp_valid_lock; [done|]. intros Hst1. wp_step.
  eapply wp_mono; [by apply ReleasePageNoBlock_spec|]. intros _ v2 [Hst2 Hnew].
  eapply wp_valid_unlock; [done|]. intros Hst3. done.
Qed.

(** Adding a node: well-formedness survives when the source stays valid. *)
Lemma status_true_pages v P b n :
  valid_pages v P b → valid_node n →
  valid_pages (status_written v n true) (λ m, P m ∨ m = n) b.
Proof.
  intros (Hl & Hm & HP) Hn. split_and!; [by apply status_written_len|done|].
  intros m. rewrite status_written_has, <- HP by done.
  destruct (decide (m = n)); naive_solver.
Qed.

Lemma newest_set_state v P b n :
  valid_pages v P b → P n → valid_state (set_newest n v) P b.
Proof.
  intros (Hl & Hm & HP) Hn. split_and!; [split; [done|]|done|done].
  right. by apply HP.
Qed.

Lemma GetValid_spec v P n nfs0 :
  valid_state v P false → valid_node n →
  wp (GetValid n nfs0) (λ r v',
    valid_state v' (λ m, P m ∨ m = n) false ∧
    (P n → r = (-1, nfs0) ∧ v' = v) ∧
    (¬ P n → r = (newest_node v, bool_decide (newest_node v = -1)) ∧
             newest_node v' = if decide (newest_node v = -1) then n else newest_node v)) v.
Proof.
  intros Hst Hn. pose proof Hst as (Hwf & Hm & HP). unfold GetValid.
  wp_step. eapply wp_valid_lock; [done|]. intros Hst1. wp_step.
  pose proof (vwf_len _ Hwf) as Hl. pose proof Hst1 as (Hwf1 & Hm1 & HP1).
  apply wp_read_status; [apply Hwf1|done|]. wp_step; bool_simpl; rewrite HP1 in *.
  - wp_step. eapply wp_valid_unlock; [done|]. intros Hst2. wp_step.
    assert (mutex_set false (mutex_set true v) = v) as ->.
    { destruct v; simpl in *; by subst. }
    split_and!; [|done|done]. destruct Hst as ([? ?] & _ & _).
    split_and!; [done|done|]. intros m. rewrite HP. naive_solver.
  - do 3 wp_step. apply wp_write_status; [apply Hwf1|done|].
    pose proof (status_true_pages _ _ _ _ (valid_state_pages _ _ _ Hst1) Hn) as Hpg.
    pose proof (valid_state_newest _ _ _ Hst1) as Hnew. cbn [newest_node mutex_set] in *.
    do 2 wp_step; bool_simpl; cbn [GlobalValidInfo_mutex mutex_set newest_node] in *;
      change INVALID_NODE_ID with (-1) in *.
    + wp_step. wp_step. eapply wp_valid_unlock; [apply newest_set_state; [done|by right]|].
      intros Hst2. wp_step. split; [done|]. split; [by intros ?|]. intros _.
      rewrite H0, decide_True, bool_decide_eq_true_2 by done. done.
    + wp_step. apply (wp_valid_unlock _ (λ m, P m ∨ m = n)).
      { destruct Hnew as [[? _]|Hnew]; [done|].
        destruct (newest_set_state _ _ _ (newest_node v) Hpg (or_introl Hnew)) as ([? ?] & ? & ?).
        split; [|done]. by split. }
      intros Hst2. wp_step. split; [done|]. split; [by intros ?|]. intros _.
      rewrite decide_False, bool_decide_eq_false_2 by done.
      split; [|done]. by rewrite (proj2 (Z.eqb_neq _ _)).
Qed.

Lemma IsValid_spec v P n :
  valid_state v P false → valid_node n →
  wp (IsValid n) (λ r v', v' = v ∧ r = bool_decide (has_page v n)) v.
Proof.
  intros Hst Hn. pose proof Hst as (Hwf & Hm & HP). unfold IsValid.
  wp_step. apply wp_mutex_lock; [done|]. wp_step.
  apply wp_read_status; [apply Hwf|done|]. wp_step. apply wp_mutex_unlock; [done|].
  wp_step. split; [|done]. destruct v; simpl in *; by subst.
Qed.

Lemma get_newest_nodeID_spec v P :
  valid_state v P false →
  wp get_newest_nodeID (λ r v', v' = v ∧ r = newest_node v) v.
Proof.
  intros Hst. pose proof Hst as (Hwf & Hm & HP). unfold get_newest_nodeID.
  wp_step. apply wp_mutex_lock; [done|]. do 2 wp_step. wp_step.
  apply wp_mutex_unlock; [done|]. wp_step. split; [|done]. destruct v; simpl in *; by subst.
Qed.

(** [setNodeStatusNoBlock(n, true)]: one more valid node, source untouched. *)
Lemma setNodeStatusNoBlock_true_spec v P b n :
  valid_pages v P b → valid_node n →
  wp (setNodeStatusNoBlock n true) (λ _ v', valid_pages v' (λ m, P m ∨ m = n) b ∧
                                           newest_node v' = newest_node v) v.
Proof.
  intros Hpg Hn. unfold setNodeStatusNoBlock. wp_step.
  apply wp_write_status; [apply Hpg|done|]. do 3 wp_step; [done|].
  split; [by apply status_true_pages|done].
Qed.

(** [SetValidAndUpdateNewest(n)] restores full well-formedness and releases
    the mutex its caller took with [Global_Lock]. *)
Lemma SetValidAndUpdateNewest_spec v P n :
  valid_pages v P true → valid_node n →
  wp (SetValidAndUpdateNewest n)
     (λ _ v', valid_state v' (λ m, P m ∨ m = n) false ∧ newest_node v' = n) v.
Proof.
  intros Hpg Hn. unfold SetValidAndUpdateNewest. wp_step.
  apply wp_write_status; [apply Hpg|done|]. do 2 wp_step.
  apply (status_true_pages _ _ _ n) in Hpg; [|done].
  pose proof (newest_set_state _ _ _ n Hpg (or_intror eq_refl)) as Hst.
  eapply wp_valid_unlock; [done|]. done.
Qed.

Lemma new_GlobalValidInfo_state pid :
  valid_state (new_GlobalValidInfo pid) (λ _, False) false.
Proof.
  assert (∀ n, ¬ has_page (new_GlobalValidInfo pid) n) as Hno.
  { intros n [_ H]. apply lookup_replicate in H as [? _]. done. }
  split_and!; [split; [done|left; by split]|done|]. intros n. by split; [apply Hno|].
Qed.

Lemma MarkOnluInStorage_spec v :
  valid_mutex v = false →
  wp MarkOnluInStorage (λ _ v', v' = new_GlobalValidInfo (valid_page_id v)) v.
Proof.
  intros Hm. unfold MarkOnluInStorage. wp_step. apply wp_mutex_lock; [done|].
  unfold SetAllNodeStatusFalse. do 4 wp_step. by apply wp_mutex_unlock.
Qed.

(** ** [setNodeStatus], branch by branch *)

Section setNodeStatus.
Context (v : GlobalValidInfo) (P : Z → Prop) (n : Z).
Hypothesis Hst : valid_state v P false.
Hypothesis Hn : valid_node n.

Lemma marked_has b m :
  has_page (status_written (mutex_set true v) n b) m ↔ (m = n ∧ b = true) ∨ (m ≠ n ∧ P m).
Proof using Hst Hn.
  destruct Hst as (Hwf & Hm & HP). pose proof (vwf_len _ Hwf) as Hl. rewrite <- HP.
  exact (status_written_has (mutex_set true v) Hl n b m Hn).
Qed.

Lemma marked_len b :
  length (node_has_newest_page_status (status_written (mutex_set true v) n b)) =
  Z.to_nat MaxComputeNodeCount.
Proof using Hst. apply status_written_len, (vwf_len _ (proj1 Hst)). Qed.

Lemma wp_mark b (k : M GlobalValidInfo unit) Q :
  wp k Q (status_written (mutex_set true v) n b) →
  wp (mutex_lock ;; write_status n b ;; k) Q v.
Proof using Hst Hn.
  intros Hk. destruct Hst as (Hwf & Hm & _). wp_step. apply wp_mutex_lock; [done|].
  wp_step. by apply wp_write_status; [apply Hwf|..].
Qed.

Lemma run_mark b (k : M GlobalValidInfo unit) :
  (mutex_lock ;; write_status n b ;; k) v = k (status_written (mutex_set true v) n b).
Proof using Hst Hn.
  destruct Hst as (Hwf & Hm & _). set (v1 := mutex_set true v).
  assert (length (node_has_newest_page_status v1) = Z.to_nat MaxComputeNodeCount) as Hl
    by apply Hwf.
  rewrite (run_bind _ _ _ _ _ (@run_mutex_lock _ GlobalValidInfo_mutex v Hm)).
  destruct (wp_inv _ _ _ (wp_write_status v1 Hl n b
    (λ _ v', v' = status_written v1 n b) Hn eq_refl)) as ([] & v2 & E & ->).
  by rewrite (run_bind _ _ _ _ _ E).
Qed.

Lemma setNodeStatus_crash :
  newest_node v = n → (∃ m, P m ∧ m ≠ n) → setNodeStatus n false v = Crash UnlockNotHeld.
Proof using Hst Hn.
  intros Hnn (m & Hm1 & Hm2). unfold setNodeStatus. rewrite run_mark.
  rewrite (run_bind (gets newest_node) _ _ _ _ eq_refl).
  set (v1 := status_written (mutex_set true v) n false).
  change (newest_node v1) with (newest_node v).
  rewrite Hnn, Z.eqb_refl. cbn [negb andb when]. set (v2 := set_newest (-1) v1).
  assert (has_page v2 (HasAnyValid v2)) as Hany.
  { destruct (HasAnyValid_spec v2) as [[_ Hno]|]; [|done]. destruct (Hno m).
    apply marked_has. by right. }
  rewrite (run_bind _ _ _ tt (mutex_set false (set_newest (HasAnyValid v2) v2)));
    [reflexivity|].
  rewrite (run_bind (modify _) _ _ _ _ eq_refl).
  rewrite (run_bind (gets HasAnyValid) _ _ _ _ eq_refl). fold v2.
  replace (HasAnyValid v2 =? -1) with false; [reflexivity|].
  symmetry. apply Z.eqb_neq. destruct Hany. lia.
Qed.

Lemma setNodeStatus_clear :
  (newest_node v = n → ∀ m, P m → m = n) →
  wp (setNodeStatus n false) (λ _ v', valid_state v' (λ m, P m ∧ m ≠ n) false) v.
Proof using Hst Hn.
  intros Hlast. pose proof (valid_state_newest _ _ _ Hst) as Hnew. apply wp_mark.
  do 4 wp_step; cbn [negb andb] in *; bool_simpl.
  - do 4 wp_step. unfold HasAnyValid. cbn [set_newest node_has_newest_page_status].
    assert (∀ m, ¬ has_page (status_written (mutex_set true v) n false) m) as Hno.
    { intros m [[_ ?]|[Hne HPm]]%marked_has; [done|]. by apply Hne, Hlast. }
    destruct (HasAnyValid_spec (status_written (mutex_set true v) n false))
      as [[Hany _]|Hany]; [|by destruct (Hno _ Hany)].
    unfold HasAnyValid in Hany. rewrite Hany. apply wp_when; [done|]. intros _.
    apply wp_mutex_unlock; [done|]. split_and!; [split; [by apply marked_len|]|done|].
    + left. split; [done|]. exact Hno.
    + intros m. split; [by intros ?%Hno|]. intros [HPm ?]. exfalso.
      apply (Hno m), marked_has. by right.
  - apply wp_mutex_unlock; [done|]. split_and!; [split; [by apply marked_len|]|done|].
    + destruct Hnew as [[Hi Hno]|Hyes]; [left|right].
      * split; [done|]. intros m [[_ ?]|[_ ?]]%marked_has; [done|]. by apply (Hno m).
      * apply marked_has. by right.
    + intros m. etransitivity; [apply marked_has|]. naive_solver.
Qed.

Lemma setNodeStatus_set :
  wp (setNodeStatus n true) (λ _ v', valid_pages v' (λ m, P m ∨ m = n) false ∧
                                     newest_node v' = newest_node v) v.
Proof using Hst Hn.
  apply wp_mark. do 4 wp_step; [done|].
  apply wp_mutex_unlock; [done|]. split; [|done].
  split_and!; [by apply marked_len|done|].
  intros m. etransitivity; [apply marked_has|]. destruct (decide (m = n)); naive_solver.
Qed.
End setNodeStatus.

(** ** Properties *)

(** The state the public methods can produce, one call after another. *)
Inductive valid_step (v : GlobalValidInfo) : GlobalValidInfo → Prop :=
  | vs_reset v' : MarkOnluInStorage v = Done (tt, v') → valid_step v v'
  | vs_release n v' : valid_node n → ReleasePage n v = Done (tt, v') → valid_step v v'
  | vs_get n nfs r v' : valid_node n → GetValid n nfs v = Done (r, v') → valid_step v v'
  | vs_isvalid n r v' : valid_node n → IsValid n v = Done (r, v') → valid_step v v'
  | vs_newest r v' : get_newest_nodeID v = Done (r, v') → valid_step v v'.

(** the validity record stays coherent. Starting from the constructor, after
    any sequence of calls of the locking methods the array keeps its 64
    entries, the mutex is free again, and [newest_node] names a node whose
    copy is valid, or is [-1] exactly when no node has a valid copy. *)
Theorem valid_info_invariant pid v :
  star valid_step (new_GlobalValidInfo pid) v →
  valid_wf v ∧ valid_mutex v = false.
Proof.
  intros Hstar. cut (∃ P, valid_state v P false).
  { intros (P & Hwf & Hm & _). by split. }
  revert Hstar. apply (star_invariant _ (λ v, ∃ P, valid_state v P false)).
  - eexists. apply new_GlobalValidInfo_state.
  - intros x y [P Hx] Hstep. pose proof Hx as (_ & Hm & _). destruct Hstep as
      [v' Hs|n v' Hn Hs|n nfs r v' Hn Hs|n r v' Hn Hs|r v' Hs].
    + pose proof (wp_run _ _ _ _ _ (MarkOnluInStorage_spec _ Hm) Hs) as ->.
      eexists. apply new_GlobalValidInfo_state.
    + eexists. apply (wp_run _ _ _ _ _ (ReleasePage_spec _ _ _ Hx Hn) Hs).
    + eexists. apply (wp_run _ _ _ _ _ (GetValid_spec _ _ _ nfs Hx Hn) Hs).
    + destruct (wp_run _ _ _ _ _ (IsValid_spec _ _ _ Hx Hn) Hs) as [-> _]. eauto.
    + destruct (wp_run _ _ _ _ _ (get_newest_nodeID_spec _ _ Hx) Hs) as [-> _]. eauto.
Qed.

Lemma valid_info_invariant_witness :
  ∃ v, star valid_step (new_GlobalValidInfo 7) v ∧ newest_node v = 3 ∧ valid_wf v.
Proof.
  assert (∃ v, star valid_step (new_GlobalValidInfo 7) v ∧ newest_node v = 3) as [v [Hv Hn]].
  { eexists. split.
    - eapply star_snoc; [eapply star_snoc; [apply star_refl|]|].
      + eapply (vs_get _ 3 false); [|vm_compute; reflexivity]. by vm_compute.
      + eapply (vs_get _ 5 false); [|vm_compute; reflexivity]. by vm_compute.
    - reflexivity. }
  exists v. split; [exact Hv|]. split; [exact Hn|].
  exact (proj1 (valid_info_invariant 7 v Hv)).
Defined.

(** exact behaviour of [setNodeStatus]. On a coherent record it clears or
    sets the node's bit and re-points the source; but when it clears the
    source's own bit while another node is still valid, it unlocks its mutex
    twice. *)
Theorem setNodeStatus_behaviour v P n b :
  valid_state v P false → valid_node n →
  (b = false → newest_node v = n → (∃ m, P m ∧ m ≠ n) →
     setNodeStatus n b v = Crash UnlockNotHeld) ∧
  (b = false → (newest_node v = n → ∀ m, P m → m = n) →
     wp (setNodeStatus n b) (λ _ v', valid_state v' (λ m, P m ∧ m ≠ n) false) v) ∧
  (b = true →
     wp (setNodeStatus n b) (λ _ v', valid_pages v' (λ m, P m ∨ m = n) false ∧
                                     newest_node v' = newest_node v) v).
Proof.
  intros Hst Hn. split_and!; intros ->.
  - by eapply setNodeStatus_crash.
  - by apply setNodeStatus_clear.
  - by apply setNodeStatus_set.
Qed.

Lemma setNodeStatus_behaviour_witness :
  ∃ v, valid_state v (λ m, (False ∨ m = 3) ∨ m = 5) false ∧
       setNodeStatus 3 false v = Crash UnlockNotHeld.
Proof.
  assert (valid_node 3) as H3 by (by vm_compute).
  assert (valid_node 5) as H5 by (by vm_compute).
  destruct (wp_inv _ _ _ (GetValid_spec _ _ 3 false (new_GlobalValidInfo_state 7) H3))
    as (r1 & v1 & E1 & S1 & _ & N1).
  destruct (wp_inv _ _ _ (GetValid_spec _ _ 5 false S1 H5)) as (r2 & v2 & E2 & S2 & _ & N2).
  exists v2. split; [exact S2|].
  apply (proj1 (setNodeStatus_behaviour v2 _ 3 false S2 H3)); [reflexivity| |].
  - destruct N2 as [_ ->]; [intros [?|?]; [done|lia]|]. destruct N1 as [_ ->]; [tauto|]. reflexivity.
  - exists 5. split; [by right|lia].
Defined.
