(* ===== verification/GlobalLRLock.v ===== *)
(** [core/GPLM/global_LR_page_lock.h]: the lazy-release page lock kept by the
    metadata node for one page.  It counts the holders, queues the requests that
    conflict, tells the holders to give the page up ([Pending]), and hands the
    lock over when they have ([TransferControl], [TransferPending]).

    The methods run against a [PageState]: the lock, the page's validity record
    and the messages sent so far, in order.  RPC delivery is not modelled: a
    call on a stub, or on the co-located compute server, is a message. *)

From S2P Require Import Prelude Common ValidInfo.

Record LRRequest := mkReq {
  req_node : node_id_t;
  req_table : table_id_t;
  req_xlock : bool
}.

#[export] Instance LRRequest_eq_dec : EqDecision LRRequest.
Proof. solve_decision. Defined.

Record LR_GlobalPageLock := mkLR {
  lr_page_id : page_id_t;
  lock : lock_t;
  hold_lock_nodes : list Z;
  is_pending : bool;
  src_node_id : Z;
  lsn_id : LLSN;
  request_queue : list LRRequest;
  s_request_num : Z;
  x_request_num : Z;
  lr_mutex : bool
}.

Definition set_lock_word x l := mkLR (lr_page_id l) x (hold_lock_nodes l) (is_pending l)
  (src_node_id l) (lsn_id l) (request_queue l) (s_request_num l) (x_request_num l) (lr_mutex l).
Definition set_holders x l := mkLR (lr_page_id l) (lock l) x (is_pending l)
  (src_node_id l) (lsn_id l) (request_queue l) (s_request_num l) (x_request_num l) (lr_mutex l).
Definition set_pending x l := mkLR (lr_page_id l) (lock l) (hold_lock_nodes l) x
  (src_node_id l) (lsn_id l) (request_queue l) (s_request_num l) (x_request_num l) (lr_mutex l).
Definition set_src x l := mkLR (lr_page_id l) (lock l) (hold_lock_nodes l) (is_pending l)
  x (lsn_id l) (request_queue l) (s_request_num l) (x_request_num l) (lr_mutex l).
Definition set_lsn x l := mkLR (lr_page_id l) (lock l) (hold_lock_nodes l) (is_pending l)
  (src_node_id l) x (request_queue l) (s_request_num l) (x_request_num l) (lr_mutex l).
Definition set_queue x l := mkLR (lr_page_id l) (lock l) (hold_lock_nodes l) (is_pending l)
  (src_node_id l) (lsn_id l) x (s_request_num l) (x_request_num l) (lr_mutex l).
Definition set_s_num x l := mkLR (lr_page_id l) (lock l) (hold_lock_nodes l) (is_pending l)
  (src_node_id l) (lsn_id l) (request_queue l) x (x_request_num l) (lr_mutex l).
Definition set_x_num x l := mkLR (lr_page_id l) (lock l) (hold_lock_nodes l) (is_pending l)
  (src_node_id l) (lsn_id l) (request_queue l) (s_request_num l) x (lr_mutex l).

#[export] Program Instance LR_mutex : HasMutex LR_GlobalPageLock := {
  mutex_held := lr_mutex;
  mutex_set b l := mkLR (lr_page_id l) (lock l) (hold_lock_nodes l) (is_pending l)
    (src_node_id l) (lsn_id l) (request_queue l) (s_request_num l) (x_request_num l) b
}.
Solve Obligations with by intros; try destruct s.

(** The constructor leaves [src_node_id] uninitialised: [garbage] is whatever
    the allocation holds there. *)
Definition new_LR_GlobalPageLock (pid garbage : Z) : LR_GlobalPageLock :=
  mkLR pid 0 [] false garbage 0 [] 0 0 false.

(** [Reset] re-initialises the ownership fields (not the request queue). *)
Definition LR_Reset (l : LR_GlobalPageLock) : LR_GlobalPageLock :=
  mkLR (lr_page_id l) 0 [] false INVALID_NODE_ID (lsn_id l) (request_queue l)
    (s_request_num l) (x_request_num l) (lr_mutex l).

(** ** Messages to the compute nodes *)

Inductive Msg : Set :=
  (** [Pending] RPC to [node]; [dest] is who it must push the page to, or -1 *)
  | MsgPending (node : Z) (xpending : bool) (dest : Z)
  (** the same call on the compute server that hosts this lock table *)
  | CallPending (xpending : bool) (dest : Z)
  (** [NotifyPushPage] RPC: [src] must push the page to [dest] *)
  | MsgNotifyPushPage (src dest : Z)
  (** [PushPageToOther] on the co-located compute server *)
  | CallPushPage (dest : Z) (push_type : Z)
  (** [LockSuccess] RPC *)
  | MsgLockSuccess (node : Z) (xlock is_newest : bool) (dests : list Z).

Record PageState := mkPS {
  ps_lock : LR_GlobalPageLock;
  ps_valid : GlobalValidInfo;
  ps_out : list Msg;
  ps_immedia : Z
}.

Definition put_lock (l : LR_GlobalPageLock) (s : PageState) : PageState :=
  mkPS l (ps_valid s) (ps_out s) (ps_immedia s).
Definition put_valid (v : GlobalValidInfo) (s : PageState) : PageState :=
  mkPS (ps_lock s) v (ps_out s) (ps_immedia s).
Definition put_msgs (ms : list Msg) (s : PageState) : PageState :=
  mkPS (ps_lock s) (ps_valid s) (ps_out s ++ ms) (ps_immedia s).
Definition bump_immedia (s : PageState) : PageState :=
  mkPS (ps_lock s) (ps_valid s) (ps_out s) (ps_immedia s + 1).

Definition onLock {A} (m : M LR_GlobalPageLock A) : M PageState A := zoom ps_lock put_lock m.
Definition onValid {A} (m : M GlobalValidInfo A) : M PageState A := zoom ps_valid put_valid m.
Definition upd (f : LR_GlobalPageLock → LR_GlobalPageLock) : M PageState unit :=
  modify (λ s, put_lock (f (ps_lock s)) s).
Definition emit (m : Msg) : M PageState unit := modify (put_msgs [m]).

Definition queue_empty (l : LR_GlobalPageLock) : bool :=
  match request_queue l with [] => true | _ => false end.

Definition hold_size (l : LR_GlobalPageLock) : Z := Z.of_nat (length (hold_lock_nodes l)).

(** [hold_lock_nodes.front()]; undefined on an empty list, where callers have
    checked the size. *)
Definition hold_front (l : LR_GlobalPageLock) : Z := hd INVALID_NODE_ID (hold_lock_nodes l).

Definition push_request (r : LRRequest) (l : LR_GlobalPageLock) : LR_GlobalPageLock :=
  set_queue (request_queue l ++ [r]) l.

(** ** The methods *)

Definition getIsPendingNoBlock : M PageState bool := gets (λ s, is_pending (ps_lock s)).
Definition getLsnIDNoBlock : M PageState Z := gets (λ s, lsn_id (ps_lock s)).
Definition setLsnIDNoBlock (x : Z) : M PageState unit := upd (set_lsn x).
Definition get_hold_lock_nodes : M PageState (list Z) :=
  gets (λ s, hold_lock_nodes (ps_lock s)).
Definition is_request_queue_empty : M PageState bool := gets (λ s, queue_empty (ps_lock s)).
Definition mutexLock : M PageState unit := onLock mutex_lock.
Definition mutexUnlock : M PageState unit := onLock mutex_unlock.

Definition add_hold_lock_node (n : Z) : M PageState unit :=
  l ← gets ps_lock ;
  check 100 (negb (memZ n (hold_lock_nodes l))) ;;
  upd (λ l, set_holders (hold_lock_nodes l ++ [n]) l).

Section server.
(** [compute_server_instance->GetNodeID()] of the node hosting the table. *)
Variable self : node_id_t.

(** The [for (auto node_id : hold_lock_nodes)] loop of [SetComputenodePending]:
    returns [has_local] and [dest_node_id_local]. *)
Fixpoint send_pendings (n trans : Z) (XPending : bool) (nodes : list Z)
    (has_local : bool) (dest_local : Z) : M PageState (bool * Z) :=
  match nodes with
  | [] => mret (has_local, dest_local)
  | node :: nodes' =>
      if node =? n then send_pendings n trans XPending nodes' has_local dest_local
      else
        let set_dest_node := if node =? trans then n else -1 in
        if node =? self then
          check 204 (dest_local =? INVALID_NODE_ID) ;;
          send_pendings n trans XPending nodes' true set_dest_node
        else
          emit (MsgPending node XPending set_dest_node) ;;
          send_pendings n trans XPending nodes' has_local dest_local
  end.

Definition SetComputenodePending (n : Z) (XPending : bool) : M PageState unit :=
  l ← gets ps_lock ;
  trans_node_id ← (if XPending then
                     check 156 (hold_size l =? 1) ;; mret (hold_front l)
                   else
                     check 162 (1 <=? hold_size l) ;;
                     v ← onValid (IsValid n) ;
                     if negb v then onValid get_newest_nodeID else mret (-1)) ;
  check 168 (src_node_id l =? INVALID_NODE_ID) ;;
  upd (set_src n) ;;
  r ← send_pendings n trans_node_id XPending (hold_lock_nodes l) false INVALID_NODE_ID ;
  mutexUnlock ;;
  when (fst r) (emit (CallPending XPending (snd r))).

Definition NotifyPushPage (dest src : Z) (from_global : bool) : M PageState unit :=
  if src =? self then emit (CallPushPage dest (if from_global then 0 else 1))
  else check 270 (negb (src =? dest)) ;; emit (MsgNotifyPushPage src dest).

(** Returns [true] with the mutex still held, [false] with it released. *)
Definition LockShared (n table_id : Z) : M PageState bool :=
  mutexLock ;;
  l ← gets ps_lock ;
  if negb (lock l =? EXCLUSIVE_LOCKED) && queue_empty l then
    upd (λ l, set_lock_word (u64 (lock l + 1)) l) ;;
    add_hold_lock_node n ;;
    l ← gets ps_lock ;
    check 297 (lock l =? hold_size l) ;;
    check 298 (1 =? countZ (Z.eqb n) (hold_lock_nodes l)) ;;
    mret true
  else if queue_empty l then
    check 302 (lock l =? EXCLUSIVE_LOCKED) ;;
    upd (push_request (mkReq n table_id false)) ;;
    upd (set_pending true) ;;
    upd (λ l, set_s_num (s_request_num l + 1) l) ;;
    l ← gets ps_lock ;
    check 307 (s_request_num l =? 1) ;;
    SetComputenodePending n true ;;
    mret false
  else
    check 313 (is_pending l) ;;
    check 314 (negb (lock l =? 0)) ;;
    upd (push_request (mkReq n table_id false)) ;;
    upd (λ l, set_s_num (s_request_num l + 1) l) ;;
    mutexUnlock ;;
    mret false.

Definition LockExclusive (n table_id : Z) : M PageState bool :=
  mutexLock ;;
  l ← gets ps_lock ;
  if negb (lock l =? 0) && negb (is_pending l) then
    check 327 (queue_empty l) ;;
    check 328 ((s_request_num l =? 0) && (x_request_num l =? 0)) ;;
    if (lock l =? 1) && (hold_front l =? n) then
      upd (set_lock_word EXCLUSIVE_LOCKED) ;; mret true
    else
      upd (push_request (mkReq n table_id true)) ;;
      upd (set_pending true) ;;
      upd (λ l, set_x_num (x_request_num l + 1) l) ;;
      when (lock l =? EXCLUSIVE_LOCKED)
        (check 341 (hold_size l =? 1) ;; check 342 (negb (n =? hold_front l))) ;;
      SetComputenodePending n (lock l =? EXCLUSIVE_LOCKED) ;;
      mret false
  else if (lock l =? 0) && negb (is_pending l) then
    check 349 (queue_empty l) ;;
    check 350 ((s_request_num l =? 0) && (x_request_num l =? 0)) ;;
    upd (set_lock_word EXCLUSIVE_LOCKED) ;;
    add_hold_lock_node n ;;
    l ← gets ps_lock ;
    check 353 (hold_size l =? 1) ;;
    check 354 (n =? hold_front l) ;;
    mret true
  else
    check 358 (is_pending l) ;;
    check 359 (negb (queue_empty l)) ;;
    upd (push_request (mkReq n table_id true)) ;;
    upd (λ l, set_x_num (x_request_num l + 1) l) ;;
    mutexUnlock ;;
    mret false.

Definition UnlockShared (n : Z) : M PageState bool :=
  mutexLock ;;
  l ← gets ps_lock ;
  check 370 (0 <? lock l) ;;
  check 371 (negb (lock l =? EXCLUSIVE_LOCKED)) ;;
  check 372 (hold_size l =? lock l) ;;
  upd (λ l, set_lock_word (u64 (lock l - 1)) l) ;;
  upd (λ l, set_holders (list_remove n (hold_lock_nodes l)) l) ;;
  mutexUnlock ;;
  mret true.

Definition UnlockExclusive (n : Z) : M PageState bool :=
  mutexLock ;;
  upd (set_lock_word 0) ;;
  upd (λ l, set_holders (list_remove n (hold_lock_nodes l)) l) ;;
  l ← gets ps_lock ;
  check 383 (hold_size l =? 0) ;;
  mutexUnlock ;;
  mret true.

(** The body of the loop of [SendComputenodeLockSuccess] for one holder. *)
Definition send_success (xlock : bool) (holders : list Z) (node : Z) : M PageState unit :=
  l ← gets ps_lock ;
  if node =? src_node_id l then
    newest ← onValid (IsValid_NoBlock (src_node_id l)) ;
    upd (set_src INVALID_NODE_ID) ;;
    emit (MsgLockSuccess node xlock newest (list_remove (src_node_id l) holders))
  else emit (MsgLockSuccess node xlock false []).

Definition SendComputenodeLockSuccess : M PageState unit :=
  l ← gets ps_lock ;
  check 393 (negb (hold_size l =? 0)) ;;
  for_each (send_success (lock l =? EXCLUSIVE_LOCKED) (hold_lock_nodes l))
    (hold_lock_nodes l).

(** The erase loop of [TransferControl]: grant every queued shared request,
    return the requests that stay. *)
Fixpoint grant_shared (rest : list LRRequest) : M PageState (list LRRequest) :=
  match rest with
  | [] => mret []
  | r :: rest' =>
      if req_xlock r then
        k ← grant_shared rest' ; mret (r :: k)
      else
        upd (λ l, set_lock_word (u64 (lock l + 1)) l) ;;
        add_hold_lock_node (req_node r) ;;
        upd (λ l, set_s_num (s_request_num l - 1) l) ;;
        grant_shared rest'
  end.

Definition TransferControl : M PageState bool :=
  l ← gets ps_lock ;
  check 447 (negb (lock l =? EXCLUSIVE_LOCKED)) ;;
  match request_queue l with
  | [] =>
      check 450 (negb (is_pending l)) ;;
      check 451 ((s_request_num l =? 0) && (x_request_num l =? 0)) ;;
      mret false
  | request :: rest =>
      if lock l =? 0 then
        check 459 (is_pending l) ;;
        check 460 (hold_size l =? 0) ;;
        upd (set_queue rest) ;;
        check 465 (negb (src_node_id l =? INVALID_NODE_ID)) ;;
        check 466 (req_node request =? src_node_id l) ;;
        (if req_xlock request then
           upd (set_lock_word EXCLUSIVE_LOCKED) ;;
           add_hold_lock_node (req_node request) ;;
           upd (λ l, set_x_num (x_request_num l - 1) l) ;;
           upd (set_pending false)
         else
           upd (λ l, set_lock_word (u64 (lock l + 1)) l) ;;
           add_hold_lock_node (req_node request) ;;
           upd (λ l, set_s_num (s_request_num l - 1) l) ;;
           l ← gets ps_lock ;
           when (0 <? s_request_num l)
             (k ← grant_shared rest ; upd (set_queue k)) ;;
           upd (set_pending false) ;;
           l ← gets ps_lock ;
           check 496 (s_request_num l =? 0)) ;;
        mret true
      else
        check 500 (is_pending l) ;;
        check 501 (0 <? hold_size l) ;;
        if (lock l =? 1) && (hold_front l =? req_node request) then
          upd (set_lock_word EXCLUSIVE_LOCKED) ;;
          upd (λ l, set_x_num (x_request_num l - 1) l) ;;
          upd (set_pending false) ;;
          upd (set_queue rest) ;;
          mret true
        else mret false
  end.

(** Called with the mutex held; every path releases it. *)
Definition TransferPending : M PageState unit :=
  l ← gets ps_lock ;
  match request_queue l with
  | [] => mutexUnlock
  | request :: _ =>
      if is_pending l then mutexUnlock
      else
        modify bump_immedia ;;
        if req_xlock request then
          check 536 (0 <? x_request_num l) ;;
          upd (set_pending true) ;;
          when (lock l =? EXCLUSIVE_LOCKED)
            (check 541 (hold_size l =? 1) ;;
             check 542 (negb (req_node request =? hold_front l))) ;;
          SetComputenodePending (req_node request) (lock l =? EXCLUSIVE_LOCKED)
        else
          check 551 (0 <? s_request_num l) ;;
          check 552 (lock l =? EXCLUSIVE_LOCKED) ;;
          check 553 (hold_size l =? 1) ;;
          check 554 (negb (req_node request =? hold_front l)) ;;
          upd (set_pending true) ;;
          SetComputenodePending (req_node request) true
  end.

Definition CheckIsHoldNoBlock (n : Z) : M PageState bool :=
  gets (λ s, memZ n (hold_lock_nodes (ps_lock s))).

Definition UnlockAnyNoBlock (n : Z) : M PageState bool :=
  l ← gets ps_lock ;
  if lock l =? EXCLUSIVE_LOCKED then
    check 572 (hold_size l =? 1) ;;
    check 573 (hold_front l =? n) ;;
    upd (set_lock_word 0) ;;
    upd (λ l, set_holders (list_remove n (hold_lock_nodes l)) l) ;;
    mret true
  else
    check 581 (lock l =? hold_size l) ;;
    check 582 (1 =? countZ (Z.eqb n) (hold_lock_nodes l)) ;;
    upd (λ l, set_lock_word (u64 (lock l - 1)) l) ;;
    upd (λ l, set_holders (list_remove n (hold_lock_nodes l)) l) ;;
    l ← gets ps_lock ;
    check 586 (lock l =? hold_size l) ;;
    mret false.

(** [UnlockAny] takes the mutex and runs the same body (its asserts are at
    lines 597 to 611); the mutex stays held for [TransferControl]. *)
Definition UnlockAny (n : Z) : M PageState bool :=
  mutexLock ;; UnlockAnyNoBlock n.

Definition InvalidOK : M PageState unit := mutexUnlock.
End server.

(** ** Invariants of the lock *)

Definition is_x (r : LRRequest) : bool := req_xlock r.
Definition is_s (r : LRRequest) : bool := negb (req_xlock r).
Definition queue_nodes (l : LR_GlobalPageLock) : list Z := req_node <$> request_queue l.

(** What every method keeps: the lock word agrees with the holder list, the
    counters with the queue, no node is queued twice, and a queued node that
    still holds the page is waiting to upgrade its shared lock. *)
Record lr_inv (l : LR_GlobalPageLock) : Prop := {
  inv_hold_nodup : NoDup (hold_lock_nodes l);
  inv_hold_valid : Forall valid_node (hold_lock_nodes l);
  inv_word : (lock l = EXCLUSIVE_LOCKED ∧ hold_size l = 1) ∨ lock l = hold_size l;
  inv_q_nodup : NoDup (queue_nodes l);
  inv_q_valid : Forall valid_node (queue_nodes l);
  inv_snum : s_request_num l = countZ is_s (request_queue l);
  inv_xnum : x_request_num l = countZ is_x (request_queue l);
  inv_upgrade : ∀ r, r ∈ request_queue l → req_node r ∈ hold_lock_nodes l →
    req_xlock r = true ∧ lock l ≠ EXCLUSIVE_LOCKED
}.

(** The state between two handlers: a pending round is under way exactly when
    requests are queued; it is run for the first of them, and some other node
    still holds the page. *)
Record lr_quiet (l : LR_GlobalPageLock) : Prop := {
  q_inv : lr_inv l;
  q_pending : is_pending l = negb (queue_empty l);
  q_idle : request_queue l = [] → src_node_id l = INVALID_NODE_ID;
  q_busy : ∀ r q, request_queue l = r :: q →
    src_node_id l = req_node r ∧ ∃ h, h ∈ hold_lock_nodes l ∧ h ≠ req_node r
}.

Lemma inv_size_bound l : lr_inv l → 0 ≤ hold_size l < EXCLUSIVE_LOCKED.
Proof. intros [Hnd Hv _ _ _ _ _ _]. by apply nodes_below_exclusive. Qed.

Lemma inv_not_exclusive l : lr_inv l → lock l ≠ EXCLUSIVE_LOCKED → lock l = hold_size l.
Proof. intros Hi Hne. destruct (inv_word _ Hi) as [[? _]|]; done. Qed.

Lemma inv_exclusive l :
  lr_inv l → lock l = EXCLUSIVE_LOCKED → ∃ h, hold_lock_nodes l = [h].
Proof.
  intros Hi He. pose proof (inv_size_bound _ Hi) as Hb.
  destruct (inv_word _ Hi) as [[_ Hs]|Hs]; [|lia]. unfold hold_size in Hs.
  destruct (hold_lock_nodes l) as [|h [|h' t]]; simpl in *; try lia. eauto.
Qed.

Lemma inv_unlocked l : lr_inv l → lock l = 0 → hold_lock_nodes l = [].
Proof.
  intros Hi H0. destruct (inv_word _ Hi) as [[He _]|Hs]; [by rewrite H0 in He|].
  unfold hold_size in Hs. destruct (hold_lock_nodes l); simpl in *; [done|lia].
Qed.

Lemma inv_one_holder l : lr_inv l → lock l = 1 → ∃ h, hold_lock_nodes l = [h].
Proof.
  intros Hi H1. destruct (inv_word _ Hi) as [[He _]|Hs]; [by rewrite H1 in He|].
  unfold hold_size in Hs. destruct (hold_lock_nodes l) as [|h [|h' t]]; simpl in *; try lia. eauto.
Qed.

Lemma queue_empty_true l : queue_empty l = true ↔ request_queue l = [].
Proof. unfold queue_empty. by destruct (request_queue l). Qed.

Lemma queue_empty_false l : queue_empty l = false ↔ ∃ r q, request_queue l = r :: q.
Proof. unfold queue_empty. destruct (request_queue l); naive_solver. Qed.

Lemma quiet_head_valid l r q :
  lr_quiet l → request_queue l = r :: q → src_node_id l ≠ INVALID_NODE_ID.
Proof.
  intros Hq Hr. destruct (q_busy _ Hq _ _ Hr) as [-> _].
  pose proof (inv_q_valid _ (q_inv _ Hq)) as Hv. unfold queue_nodes in Hv.
  rewrite Hr in Hv. apply Forall_cons in Hv as [Hv _].
  unfold valid_node, INVALID_NODE_ID in *. lia.
Qed.

Lemma countZ_nodup n (l : list Z) : NoDup l → n ∈ l → countZ (Z.eqb n) l = 1.
Proof.
  induction l as [|x l IH]; intros Hnd Hin; [by apply elem_of_nil in Hin|].
  apply NoDup_cons in Hnd as [Hx Hnd]. rewrite countZ_cons.
  destruct (Z.eqb_spec n x) as [->|Hne].
  - assert (countZ (Z.eqb x) l = 0) as ->; [|done]. unfold countZ.
    clear IH Hin Hnd. induction l as [|y l IH]; [done|]. simpl.
    apply not_elem_of_cons in Hx as [Hxy Hx].
    rewrite (proj2 (Z.eqb_neq x y)) by done. auto.
  - apply elem_of_cons in Hin as [->|Hin]; [done|]. rewrite IH by done. done.
Qed.

(** Simplification of explicit states. *)
Ltac ps_simpl := cbn [ps_lock ps_valid ps_out ps_immedia put_lock put_valid put_msgs
  bump_immedia lr_page_id lock hold_lock_nodes is_pending src_node_id lsn_id request_queue
  s_request_num x_request_num lr_mutex set_lock_word set_holders set_pending set_src set_lsn
  set_queue set_s_num set_x_num mutex_set mutex_held LR_mutex push_request fst snd] in *.

Ltac ps_step := wp_step; ps_simpl.

(** Equality of two lock states, field by field. *)
Lemma lr_ext l l' :
  lr_page_id l = lr_page_id l' → lock l = lock l' → hold_lock_nodes l = hold_lock_nodes l' →
  is_pending l = is_pending l' → src_node_id l = src_node_id l' → lsn_id l = lsn_id l' →
  request_queue l = request_queue l' → s_request_num l = s_request_num l' →
  x_request_num l = x_request_num l' → lr_mutex l = lr_mutex l' → l = l'.
Proof. destruct l, l'; simpl. by intros; subst. Qed.

Lemma put_put l l' s : put_lock l (put_lock l' s) = put_lock l s.
Proof. done. Qed.

Lemma wp_upd f (Q : unit → PageState → Prop) s :
  Q tt (put_lock (f (ps_lock s)) s) → wp (upd f) Q s.
Proof. done. Qed.

Lemma wp_emit m (Q : unit → PageState → Prop) s :
  Q tt (put_msgs [m] s) → wp (emit m) Q s.
Proof. done. Qed.

Lemma wp_mutexLock (Q : unit → PageState → Prop) s :
  lr_mutex (ps_lock s) = false → Q tt (put_lock (mutex_set true (ps_lock s)) s) →
  wp mutexLock Q s.
Proof. intros Hm HQ. apply wp_zoom. by apply wp_mutex_lock. Qed.

Lemma wp_mutexUnlock (Q : unit → PageState → Prop) s :
  lr_mutex (ps_lock s) = true → Q tt (put_lock (mutex_set false (ps_lock s)) s) →
  wp mutexUnlock Q s.
Proof. intros Hm HQ. apply wp_zoom. by apply wp_mutex_unlock. Qed.

Lemma wp_add_hold n (Q : unit → PageState → Prop) s :
  n ∉ hold_lock_nodes (ps_lock s) →
  Q tt (put_lock (set_holders (hold_lock_nodes (ps_lock s) ++ [n]) (ps_lock s)) s) →
  wp (add_hold_lock_node n) Q s.
Proof.
  intros Hn HQ. unfold add_hold_lock_node. do 3 wp_step.
  apply wp_check; [by rewrite (proj2 (memZ_false _ _) Hn)|]. done.
Qed.

(** ** The pending round *)

Section round.
Variable self : node_id_t.

Definition pending_dest (n trans node : Z) : Z := if node =? trans then n else -1.

Definition remote_pendings (n trans : Z) (xp : bool) (nodes : list Z) : list Msg :=
  (λ node, MsgPending node xp (pending_dest n trans node)) <$>
    List.filter (λ node, negb (node =? n) && negb (node =? self)) nodes.

Definition local_pending (n trans : Z) (xp : bool) (nodes : list Z) : list Msg :=
  if memZ self nodes && negb (self =? n)
  then [CallPending xp (pending_dest n trans self)] else [].

(** Everything one call of [SetComputenodePending] sends. *)
Definition pending_round (n trans : Z) (xp : bool) (nodes : list Z) : list Msg :=
  remote_pendings n trans xp nodes ++ local_pending n trans xp nodes.

Lemma send_pendings_spec n trans xp nodes hl dl s :
  NoDup nodes → (self ∈ nodes → self ≠ n → dl = INVALID_NODE_ID) →
  wp (send_pendings self n trans xp nodes hl dl) (λ r s',
    r = (if memZ self nodes && negb (self =? n)
         then (true, pending_dest n trans self) else (hl, dl)) ∧
    s' = put_msgs (remote_pendings n trans xp nodes) s) s.
Proof.
  revert hl dl s. induction nodes as [|node nodes IH]; intros hl dl s Hnd Hdl; simpl.
  - apply wp_ret. split; [done|]. destruct s; unfold put_msgs; simpl. by rewrite app_nil_r.
  - apply NoDup_cons in Hnd as [Hnode Hnd].
    unfold remote_pendings. simpl.
    assert (memZ self (node :: nodes) = (self =? node) || memZ self nodes) as ->.
    { apply eq_bool_prop_intro. unfold memZ.
      rewrite orb_True, !bool_decide_spec, elem_of_cons.
      destruct (Z.eqb_spec self node); naive_solver. }
    wp_step; bool_simpl.
    + subst node. rewrite Z.eqb_refl. simpl. eapply wp_mono.
      { apply IH; [done|]. intros ??. apply Hdl; [by right|done]. }
      simpl. intros r s' [-> ->]. split; [|done].
      destruct (Z.eqb_spec self n); simpl; [|done]. by rewrite !andb_false_r.
    + rewrite (proj2 (Z.eqb_neq node n)) by done. wp_step; bool_simpl.
      * subst node. wp_step. apply wp_check.
        { apply Z.eqb_eq, Hdl; [by left|done]. }
        rewrite !Z.eqb_refl. simpl. eapply wp_mono.
        { apply IH; [done|]. by intros ?. }
        simpl. intros r s' [-> ->]. split; [|done].
        rewrite (proj2 (memZ_false _ _) Hnode), (proj2 (Z.eqb_neq self n)) by done. done.
      * wp_step. apply wp_emit. eapply wp_mono.
        { apply IH; [done|]. intros ??. apply Hdl; [by right|done]. }
        rewrite (proj2 (Z.eqb_neq node self)), (proj2 (Z.eqb_neq self node)) by done.
        simpl. intros r s' [-> ->]. split; [done|].
        unfold put_msgs. simpl. by rewrite <- app_assoc.
Qed.

(** Who must push: the exclusive holder, or the newest copy unless the next
    owner already has a valid one. *)
Definition push_source (s : PageState) (n : Z) (xp : bool) : Z :=
  if xp then hold_front (ps_lock s)
  else if bool_decide (has_page (ps_valid s) n) then -1 else newest_node (ps_valid s).

Definition round_state (s : PageState) (n : Z) (xp : bool) : PageState :=
  mkPS (set_src n (mutex_set false (ps_lock s))) (ps_valid s)
    (ps_out s ++ pending_round n (push_source s n xp) xp (hold_lock_nodes (ps_lock s)))
    (ps_immedia s).

Lemma SetComputenodePending_spec P n xp s :
  lr_mutex (ps_lock s) = true → src_node_id (ps_lock s) = INVALID_NODE_ID →
  NoDup (hold_lock_nodes (ps_lock s)) → 1 ≤ hold_size (ps_lock s) →
  (xp = true → hold_size (ps_lock s) = 1) →
  valid_state (ps_valid s) P false → valid_node n →
  wp (SetComputenodePending self n xp) (λ _ s', s' = round_state s n xp) s.
Proof.
  intros Hm Hsrc Hnd Hsz Hxp Hv Hn. unfold SetComputenodePending. do 3 wp_step.
  assert (wp (if xp then check 156 (hold_size (ps_lock s) =? 1) ;; mret (hold_front (ps_lock s))
              else check 162 (1 <=? hold_size (ps_lock s)) ;;
                   v ← onValid (IsValid n) ;
                   if negb v then onValid get_newest_nodeID else mret (-1))
    (λ r s', r = push_source s n xp ∧ s' = s) s) as Htr.
  { unfold push_source. destruct xp.
    - wp_step. apply wp_check; [by apply Z.eqb_eq, Hxp|]. by wp_step.
    - wp_step. apply wp_check; [by apply Z.leb_le|]. wp_step. apply wp_zoom.
      eapply wp_mono; [by eapply IsValid_spec|]. intros r v' [-> ->].
      assert (put_valid (ps_valid s) s = s) as -> by by destruct s.
      case_bool_decide; simpl.
      + by apply wp_ret.
      + apply wp_zoom. eapply wp_mono; [by eapply get_newest_nodeID_spec|].
        intros r v' [-> ->]. split; [done|]. by destruct s. }
  eapply wp_mono; [exact Htr|]. clear Htr. intros trans s' [-> ->]. wp_step.
  apply wp_check; [by rewrite Hsrc|]. wp_step. apply wp_upd. wp_step.
  eapply wp_mono; [by apply send_pendings_spec|].
  intros r s' [-> ->]. wp_step. apply wp_mutexUnlock; [done|].
  unfold round_state, pending_round, local_pending.
  destruct (memZ self (hold_lock_nodes (ps_lock s)) && negb (self =? n)); simpl.
  - apply wp_emit. unfold put_msgs. simpl. by rewrite <- app_assoc.
  - apply wp_ret. by rewrite app_nil_r.
Qed.
End round.

(** ** The pure transitions behind the methods *)

Definition grant_s (n : Z) (l : LR_GlobalPageLock) : LR_GlobalPageLock :=
  set_lock_word (lock l + 1) (set_holders (hold_lock_nodes l ++ [n]) l).
Definition grant_x (n : Z) (l : LR_GlobalPageLock) : LR_GlobalPageLock :=
  set_lock_word EXCLUSIVE_LOCKED (set_holders (hold_lock_nodes l ++ [n]) l).
Definition upgrade (l : LR_GlobalPageLock) : LR_GlobalPageLock :=
  set_lock_word EXCLUSIVE_LOCKED l.
Definition enqueue (r : LRRequest) (l : LR_GlobalPageLock) : LR_GlobalPageLock :=
  let l := push_request r l in
  if req_xlock r then set_x_num (x_request_num l + 1) l
  else set_s_num (s_request_num l + 1) l.
Definition release (n : Z) (l : LR_GlobalPageLock) : LR_GlobalPageLock :=
  set_lock_word (Z.of_nat (length (list_remove n (hold_lock_nodes l))))
    (set_holders (list_remove n (hold_lock_nodes l)) l).

Lemma Forall_snoc_valid (l : list Z) n :
  Forall valid_node l → valid_node n → Forall valid_node (l ++ [n]).
Proof. intros. apply Forall_app. split; [done|]. by apply Forall_singleton. Qed.

Lemma NoDup_snoc {A} (l : list A) x : NoDup l → x ∉ l → NoDup (l ++ [x]).
Proof.
  intros. apply NoDup_app. split_and!; [done| |by apply NoDup_singleton].
  intros y ? ->%list_elem_of_singleton. done.
Qed.

Lemma hold_size_snoc l n :
  Z.of_nat (length (hold_lock_nodes l ++ [n])) = hold_size l + 1.
Proof. unfold hold_size. rewrite length_app. simpl. lia. Qed.

Lemma lr_inv_grant_s n l :
  lr_inv l → lock l ≠ EXCLUSIVE_LOCKED → valid_node n →
  n ∉ hold_lock_nodes l → n ∉ queue_nodes l → lr_inv (grant_s n l).
Proof.
  intros Hi Hne Hv Hn Hq. pose proof (inv_not_exclusive _ Hi Hne) as Hw.
  destruct Hi as [Hnd Hhv _ Hqn Hqv Hs Hx Hup]. split; try done; simpl.
  - by apply NoDup_snoc.
  - by apply Forall_snoc_valid.
  - right. unfold hold_size. simpl. rewrite hold_size_snoc. lia.
  - intros r Hr. rewrite elem_of_app, list_elem_of_singleton. intros [Hh|<-].
    + destruct (Hup _ Hr Hh). split; [done|].
      pose proof (nodes_bounded (hold_lock_nodes l) Hnd Hhv).
      unfold hold_size, EXCLUSIVE_LOCKED, MaxComputeNodeCount in *. lia.
    + destruct Hq. by apply list_elem_of_fmap_2.
Qed.

Lemma lr_inv_grant_x n l :
  lr_inv l → hold_lock_nodes l = [] → valid_node n →
  n ∉ queue_nodes l → lr_inv (grant_x n l).
Proof.
  intros [Hnd Hhv _ Hqn Hqv Hs Hx Hup] He Hv Hq. split; try done; simpl; rewrite ?He.
  - apply NoDup_singleton.
  - by apply Forall_singleton.
  - left. unfold hold_size. simpl. by rewrite He.
  - intros r Hr Hh%list_elem_of_singleton. destruct Hq. rewrite <- Hh.
    by apply list_elem_of_fmap_2.
Qed.

Lemma lr_inv_upgrade l n :
  lr_inv l → hold_lock_nodes l = [n] → n ∉ queue_nodes l → lr_inv (upgrade l).
Proof.
  intros [Hnd Hhv _ Hqn Hqv Hs Hx Hup] He Hq. split; try done; simpl.
  - left. unfold hold_size. simpl. by rewrite He.
  - intros r Hr Hh. rewrite He in Hh. apply list_elem_of_singleton in Hh as Hh.
    destruct Hq. rewrite <- Hh. by apply list_elem_of_fmap_2.
Qed.

Lemma enqueue_fields r l :
  lock (enqueue r l) = lock l ∧ hold_lock_nodes (enqueue r l) = hold_lock_nodes l ∧
  request_queue (enqueue r l) = request_queue l ++ [r] ∧
  src_node_id (enqueue r l) = src_node_id l ∧ is_pending (enqueue r l) = is_pending l ∧
  lr_mutex (enqueue r l) = lr_mutex l.
Proof. unfold enqueue. destruct (req_xlock r); done. Qed.

Lemma lr_inv_enqueue r l :
  lr_inv l → valid_node (req_node r) → req_node r ∉ queue_nodes l →
  (req_node r ∈ hold_lock_nodes l → req_xlock r = true ∧ lock l ≠ EXCLUSIVE_LOCKED) →
  lr_inv (enqueue r l).
Proof.
  intros [Hnd Hhv Hw Hqn Hqv Hs Hx Hup] Hv Hq Hr.
  destruct (enqueue_fields r l) as (El & Eh & Eq & _).
  split; unfold queue_nodes, hold_size in *; rewrite ?El, ?Eh, ?Eq, ?fmap_app; try done.
  - by apply NoDup_snoc.
  - by apply Forall_snoc_valid.
  - rewrite countZ_app, countZ_cons, countZ_nil. unfold enqueue, is_s.
    destruct (req_xlock r); simpl; unfold is_s in Hs; lia.
  - rewrite countZ_app, countZ_cons, countZ_nil. unfold enqueue, is_x.
    destruct (req_xlock r); simpl; unfold is_x in Hx; lia.
  - intros r'. rewrite elem_of_app, list_elem_of_singleton. intros [H| ->]; eauto.
Qed.

Lemma lr_inv_release n l : lr_inv l → lr_inv (release n l).
Proof.
  intros Hi. pose proof (inv_size_bound _ Hi) as Hb.
  destruct Hi as [Hnd Hhv Hw Hqn Hqv Hs Hx Hup]. split; try done; simpl.
  - by apply NoDup_list_remove.
  - rewrite Forall_forall in *. intros x [Hx' _]%elem_of_list_remove. auto.
  - by right.
  - intros r Hr [Hh _]%elem_of_list_remove. destruct (Hup _ Hr Hh) as [? _]. split; [done|].
    assert (length (list_remove n (hold_lock_nodes l)) ≤ length (hold_lock_nodes l))%nat.
    { apply List.filter_length_le. }
    unfold hold_size, EXCLUSIVE_LOCKED in *. lia.
Qed.

Lemma lr_inv_ext l l' :
  lock l' = lock l → hold_lock_nodes l' = hold_lock_nodes l →
  request_queue l' = request_queue l → s_request_num l' = s_request_num l →
  x_request_num l' = x_request_num l → lr_inv l → lr_inv l'.
Proof.
  intros E1 E2 E3 E4 E5 [? ? ? ? ? ? ? ?].
  split; unfold queue_nodes, hold_size in *; rewrite ?E1, ?E2, ?E3, ?E4, ?E5; done.
Qed.

(** ** What the methods do *)

Lemma UnlockAnyNoBlock_spec n s :
  lr_inv (ps_lock s) → n ∈ hold_lock_nodes (ps_lock s) →
  wp (UnlockAnyNoBlock n) (λ b s',
    b = (lock (ps_lock s) =? EXCLUSIVE_LOCKED) ∧
    s' = put_lock (release n (ps_lock s)) s) s.
Proof.
  intros Hi Hn. unfold UnlockAnyNoBlock. do 3 wp_step; bool_simpl.
  - destruct (inv_exclusive _ Hi H) as [h Hh].
    assert (h = n) as -> by (rewrite Hh in Hn; by apply list_elem_of_singleton in Hn).
    wp_step. apply wp_check; [by unfold hold_size; rewrite Hh|].
    wp_step. apply wp_check; [unfold hold_front; rewrite Hh; apply Z.eqb_refl|].
    do 2 (wp_step; apply wp_upd). wp_step. rewrite H. split; [done|].
    unfold release, list_remove. simpl. rewrite Hh. simpl. by rewrite Z.eqb_refl.
  - pose proof (inv_not_exclusive _ Hi H) as Hw. pose proof (inv_size_bound _ Hi) as Hb.
    pose proof (length_list_remove _ _ (inv_hold_nodup _ Hi) Hn) as Hlen.
    assert (u64 (lock (ps_lock s) - 1) =
            Z.of_nat (length (list_remove n (hold_lock_nodes (ps_lock s))))) as Hu.
    { rewrite lock_decr; unfold hold_size in *; lia. }
    wp_step. apply wp_check; [by apply Z.eqb_eq|]. wp_step. apply wp_check.
    { apply Z.eqb_eq. symmetry. apply countZ_nodup; [|done]. apply Hi. }
    do 2 (wp_step; apply wp_upd). do 3 wp_step. apply wp_check.
    { apply Z.eqb_eq. unfold hold_size. simpl. exact Hu. }
    wp_step. rewrite (proj2 (Z.eqb_neq _ _)) by done. split; [done|].
    unfold release. rewrite <- Hu. done.
Qed.

Definition lr_request (n t : Z) (x : bool) : LRRequest := mkReq n t x.

(** The client contract: a node asks for a page it does not hold (shared), or
    does not hold exclusively (exclusive), and has no other request waiting. *)
Definition may_lock_shared (n : Z) (l : LR_GlobalPageLock) : Prop :=
  valid_node n ∧ (n ∉ hold_lock_nodes l) ∧ (n ∉ queue_nodes l).
Definition may_lock_exclusive (n : Z) (l : LR_GlobalPageLock) : Prop :=
  valid_node n ∧ (n ∉ queue_nodes l) ∧
  (n ∈ hold_lock_nodes l → lock l ≠ EXCLUSIVE_LOCKED).

(** The state in which a new pending round starts for the request [r]. *)
Definition open_round (r : LRRequest) (l : LR_GlobalPageLock) : LR_GlobalPageLock :=
  mutex_set true (set_pending true (enqueue r l)).

Section methods.
Variable self : node_id_t.
Variable s : PageState.
Abbreviation l := (ps_lock s).
Hypothesis Hquiet : lr_quiet l.
Hypothesis Hfree : lr_mutex l = false.
Hypothesis Hvalid : valid_state (ps_valid s) (λ n, n ∈ hold_lock_nodes l) false.

Let Hinv : lr_inv l := q_inv _ Hquiet.

Lemma global_LockShared_spec n t :
  may_lock_shared n l →
  wp (LockShared self n t) (λ b s',
    (b = true ∧ lock l ≠ EXCLUSIVE_LOCKED ∧ request_queue l = [] ∧
       s' = put_lock (mutex_set true (grant_s n l)) s) ∨
    (b = false ∧ lock l = EXCLUSIVE_LOCKED ∧ request_queue l = [] ∧
       s' = round_state self (put_lock (open_round (mkReq n t false) l) s) n true) ∨
    (b = false ∧ request_queue l ≠ [] ∧
       s' = put_lock (enqueue (mkReq n t false) l) s)) s.
Proof using Hquiet Hfree Hvalid Hinv.
  intros (Hv & Hh & Hq). unfold LockShared.
  wp_step. apply wp_mutexLock; [done|]. do 3 wp_step; bool_simpl.
  - cbn [lock ps_lock put_lock mutex_set LR_mutex] in *. apply queue_empty_true in H0.
    pose proof (inv_not_exclusive _ Hinv H) as Hw. pose proof (inv_size_bound _ Hinv).
    wp_step. apply wp_upd. wp_step. apply wp_add_hold; [done|]. do 3 wp_step.
    ps_simpl. apply wp_check.
    { apply Z.eqb_eq. unfold hold_size at 1. ps_simpl. rewrite hold_size_snoc, lock_incr; lia. }
    wp_step. apply wp_check.
    { apply Z.eqb_eq. symmetry. apply countZ_nodup; [|set_solver].
      apply NoDup_snoc; [|done]. apply Hinv. }
    wp_step. left. split_and!; [done..|]. rewrite lock_incr by lia. done.
  - wp_step; cbn [lock ps_lock put_lock mutex_set LR_mutex] in *.
    + rewrite H0, andb_true_r in H. bool_simpl. rename H into He.
      apply queue_empty_true in H0. ps_simpl. wp_step. apply wp_check; [by apply Z.eqb_eq|].
      do 3 (wp_step; apply wp_upd). do 3 wp_step. simpl. apply wp_check.
      { rewrite (inv_snum _ Hinv), H0. done. }
      destruct (inv_exclusive _ Hinv He) as [h Hsing].
      wp_step. eapply wp_mono.
      { eapply SetComputenodePending_spec; try done; simpl.
        - by apply (q_idle _ Hquiet).
        - apply Hinv.
        - unfold hold_size. simpl. by rewrite Hsing.
        - unfold hold_size. simpl. by rewrite Hsing. }
      intros [] s' ->. wp_step. right. left. done.
    + apply queue_empty_false in H0 as (r & q & Hrq). simpl in Hrq.
      wp_step. apply wp_check.
      { rewrite (q_pending _ Hquiet). unfold queue_empty. by rewrite Hrq. }
      wp_step. apply wp_check.
      { apply negb_true_iff, Z.eqb_neq. intros E.
        destruct (q_busy _ Hquiet _ _ Hrq) as (_ & h & Hhold & _).
        by rewrite (inv_unlocked _ Hinv E), elem_of_nil in Hhold. }
      do 2 (wp_step; apply wp_upd). wp_step. apply wp_mutexUnlock; [done|]. wp_step.
      right. right. split_and!; [done| |].
      * by rewrite Hrq.
      * unfold put_lock, enqueue. simpl. destruct (ps_lock s); simpl in *. by subst.
Qed.

Lemma global_LockExclusive_spec n t :
  may_lock_exclusive n l →
  wp (LockExclusive self n t) (λ b s',
    (b = true ∧ lock l = 1 ∧ hold_lock_nodes l = [n] ∧ request_queue l = [] ∧
       s' = put_lock (mutex_set true (upgrade l)) s) ∨
    (b = true ∧ lock l = 0 ∧ hold_lock_nodes l = [] ∧ request_queue l = [] ∧
       s' = put_lock (mutex_set true (grant_x n l)) s) ∨
    (b = false ∧ request_queue l = [] ∧ lock l ≠ 0 ∧ hold_lock_nodes l ≠ [n] ∧
       s' = round_state self (put_lock (open_round (mkReq n t true) l) s) n
              (lock l =? EXCLUSIVE_LOCKED)) ∨
    (b = false ∧ request_queue l ≠ [] ∧
       s' = put_lock (enqueue (mkReq n t true) l) s)) s.
Proof using Hquiet Hfree Hvalid Hinv.
  intros (Hv & Hq & Hh). unfold LockExclusive.
  pose proof (q_pending _ Hquiet) as Hp. pose proof (inv_size_bound _ Hinv) as Hb.
  assert (request_queue l = [] → s_request_num l = 0 ∧ x_request_num l = 0) as Hnums.
  { intros E. by rewrite (inv_snum _ Hinv), (inv_xnum _ Hinv), E. }
  wp_step. apply wp_mutexLock; [done|]. do 3 wp_step; bool_simpl; ps_simpl.
  - rewrite H0 in Hp. symmetry in Hp. apply negb_false_iff in Hp as He. clear Hp.
    pose proof (proj1 (queue_empty_true _) He) as Hnil. destruct (Hnums Hnil) as [Hs0 Hx0].
    wp_step. apply wp_check; [done|]. wp_step. apply wp_check.
    { by rewrite Hs0, Hx0. }
    wp_step; bool_simpl; ps_simpl.
    + destruct (inv_one_holder _ Hinv H1) as [h Hsing].
      assert (h = n) as -> by (unfold hold_front in H2; ps_simpl; by rewrite Hsing in H2).
      wp_step. apply wp_upd. wp_step. left. done.
    + do 3 (wp_step; apply wp_upd). wp_step.
      assert (hold_lock_nodes l ≠ [n]) as Hne.
      { intros Hsing. apply andb_false_iff in H1 as [H1|H1]; bool_simpl.
        - destruct (inv_word _ Hinv) as [[E _]|E].
          + apply Hh; [|done]. rewrite Hsing. by left.
          + unfold hold_size in E. by rewrite Hsing in E.
        - unfold hold_front in H1. ps_simpl. by rewrite Hsing in H1. }
      assert (lock l = EXCLUSIVE_LOCKED → hold_size l = 1 ∧ n ≠ hold_front l) as Hex.
      { intros E. destruct (inv_exclusive _ Hinv E) as [h Hsing].
        unfold hold_size, hold_front. rewrite Hsing. split; [done|]. simpl.
        intros ->. by apply Hne. }
      assert (hold_size l ≠ 0) as Hsz.
      { intros E. destruct (inv_word _ Hinv) as [[? E']|E']; [by rewrite E in E'|].
        rewrite E in E'. done. }
      eapply wp_mono with (Q := λ _ s', s' = put_lock (open_round (mkReq n t true) l) s).
      { wp_step; [|done]. bool_simpl. destruct (Hex H2) as [Hs1 Hfr].
        wp_step. apply wp_check; [by apply Z.eqb_eq|].
        apply wp_check; [by apply negb_true_iff, Z.eqb_neq|done]. }
      intros _ s' ->. wp_step. eapply wp_mono.
      { eapply SetComputenodePending_spec; try done; unfold hold_size in *; ps_simpl.
        - by apply (q_idle _ Hquiet).
        - apply Hinv.
        - ps_simpl. simpl. lia.
        - intros ?%Z.eqb_eq. by apply Hex. }
      intros [] s' ->. wp_step. right. right. left. done.
  - wp_step; bool_simpl; ps_simpl.
    + rewrite H1 in Hp. symmetry in Hp. apply negb_false_iff in Hp as He.
      pose proof (proj1 (queue_empty_true _) He) as Hnil. destruct (Hnums Hnil) as [Hs0 Hx0].
      pose proof (inv_unlocked _ Hinv H0) as Hemp.
      wp_step. apply wp_check; [done|]. wp_step. apply wp_check.
      { by rewrite Hs0, Hx0. }
      wp_step. apply wp_upd. wp_step. apply wp_add_hold.
      { ps_simpl. rewrite Hemp. apply not_elem_of_nil. }
      do 3 wp_step. ps_simpl. apply wp_check; [unfold hold_size; ps_simpl; by rewrite Hemp|].
      wp_step. apply wp_check.
      { apply Z.eqb_eq. unfold hold_front. ps_simpl. by rewrite Hemp. }
      wp_step. right. left. done.
    + assert (is_pending l = true) as Hpt.
      { destruct (is_pending l); [done|].
        rewrite andb_true_r in H, H0. apply negb_false_iff in H. by rewrite H in H0. }
      wp_step. apply wp_check; [done|]. wp_step. apply wp_check.
      { rewrite Hpt in Hp. symmetry. exact Hp. }
      do 2 (wp_step; apply wp_upd). wp_step. apply wp_mutexUnlock; [done|]. wp_step.
      right. right. right. split_and!; [done| |].
      * intros E%queue_empty_true. rewrite E, Hpt in Hp. done.
      * unfold put_lock, enqueue. simpl. destruct (ps_lock s); simpl in *. by subst.
Qed.
End methods.

(** ** Handing the lock over *)

(** [TransferControl] as a function: who holds the lock next. *)
Definition transfer (l : LR_GlobalPageLock) : option LR_GlobalPageLock :=
  match request_queue l with
  | [] => None
  | r :: rest =>
      if lock l =? 0 then
        if req_xlock r then
          Some (set_pending false (set_x_num (x_request_num l - 1)
                 (grant_x (req_node r) (set_queue rest l))))
        else
          let batch := List.filter is_s rest in
          Some (set_pending false (set_s_num 0
                 (set_queue (List.filter is_x rest)
                   (set_lock_word (1 + Z.of_nat (length batch))
                     (set_holders (req_node r :: (req_node <$> batch)) l)))))
      else if (lock l =? 1) && (hold_front l =? req_node r) then
        Some (set_queue rest (set_pending false (set_x_num (x_request_num l - 1) (upgrade l))))
      else None
  end.

Lemma grant_shared_spec rest s :
  lock (ps_lock s) = hold_size (ps_lock s) →
  0 ≤ hold_size (ps_lock s) + Z.of_nat (length rest) < EXCLUSIVE_LOCKED →
  NoDup (hold_lock_nodes (ps_lock s) ++ (req_node <$> List.filter is_s rest)) →
  wp (grant_shared rest) (λ k s',
    k = List.filter is_x rest ∧
    let batch := List.filter is_s rest in
    s' = put_lock
      (set_s_num (s_request_num (ps_lock s) - Z.of_nat (length batch))
        (set_lock_word (lock (ps_lock s) + Z.of_nat (length batch))
          (set_holders (hold_lock_nodes (ps_lock s) ++ (req_node <$> batch)) (ps_lock s)))) s) s.
Proof.
  revert s. induction rest as [|r rest IH]; intros s Hw Hb Hnd; simpl.
  - apply wp_ret. split; [done|]. destruct s as [[] v o i]; unfold put_lock; simpl in *.
    unfold set_s_num, set_lock_word, set_holders; simpl. by rewrite !Z.add_0_r, Z.sub_0_r, app_nil_r.
  - destruct r as [n t [|]]; simpl in *.
    + wp_step. eapply wp_mono; [apply IH; [done|unfold hold_size in *; lia|done]|].
      intros k s' [-> ->]. by wp_step.
    + assert (n ∉ hold_lock_nodes (ps_lock s)) as Hn.
      { apply NoDup_app in Hnd as (_ & Hnd & _). intros Hin. apply (Hnd _ Hin). by left. }
      wp_step. apply wp_upd. wp_step. apply wp_add_hold; [done|]. wp_step. apply wp_upd.
      eapply wp_mono.
      { apply IH; unfold hold_size in *; ps_simpl; rewrite ?hold_size_snoc; unfold hold_size.
        - rewrite lock_incr; lia.
        - lia.
        - by rewrite <- app_assoc. }
      intros k s' [-> ->]. split; [done|]. rewrite !put_put. f_equal.
      apply lr_ext; ps_simpl; rewrite <- ?app_assoc, ?lock_incr by (unfold hold_size in *; lia);
        try reflexivity; simpl; lia.
Qed.

Lemma countZ_filter_length p (q : list LRRequest) :
  countZ p q = Z.of_nat (length (List.filter p q)).
Proof. done. Qed.

Lemma NoDup_fmap_filter p (q : list LRRequest) :
  NoDup (req_node <$> q) → NoDup (req_node <$> List.filter p q).
Proof.
  induction q as [|r q IH]; intros Hnd; [done|]. simpl in *.
  apply NoDup_cons in Hnd as [Hr Hnd]. destruct (p r); [|auto].
  simpl. apply NoDup_cons. split; [|auto]. intros Hin. apply Hr.
  apply list_elem_of_fmap in Hin as (r' & -> & Hr'). apply list_elem_of_In, List.filter_In in Hr' as [Hr' _].
  apply list_elem_of_fmap_2. by apply list_elem_of_In.
Qed.

Lemma elem_of_Lfilter {A} p (q : list A) r : r ∈ List.filter p q ↔ r ∈ q ∧ p r = true.
Proof. rewrite !list_elem_of_In. apply List.filter_In. Qed.

(** The length of a request queue is bounded by the number of nodes. *)
Lemma queue_bound l : lr_inv l → Z.of_nat (length (request_queue l)) ≤ MaxComputeNodeCount.
Proof.
  intros Hi. pose proof (nodes_bounded (queue_nodes l) (inv_q_nodup _ Hi) (inv_q_valid _ Hi)) as Hb.
  unfold queue_nodes in Hb. by rewrite length_fmap in Hb.
Qed.

Section transfer.
Variable s : PageState.
Abbreviation l := (ps_lock s).
Hypothesis Hinv : lr_inv l.
Hypothesis Hpend : is_pending l = negb (queue_empty l).
Hypothesis Hsrc : ∀ r q, request_queue l = r :: q → src_node_id l = req_node r.
Hypothesis Hshared : lock l ≠ EXCLUSIVE_LOCKED.

Lemma head_valid r q : request_queue l = r :: q → valid_node (req_node r).
Proof using Hinv.
  intros Hr. pose proof (inv_q_valid _ Hinv) as Hv. unfold queue_nodes in Hv.
  rewrite Hr in Hv. by apply Forall_cons in Hv as [Hv _].
Qed.

Lemma grant_batch_spec r rest :
  request_queue l = r :: rest → lock l = 0 → req_xlock r = false →
  wp (upd (λ l, set_lock_word (u64 (lock l + 1)) l) ;;
      add_hold_lock_node (req_node r) ;;
      upd (λ l, set_s_num (s_request_num l - 1) l) ;;
      l ← gets ps_lock ;
      when (0 <? s_request_num l) (k ← grant_shared rest ; upd (set_queue k)) ;;
      upd (set_pending false) ;;
      l ← gets ps_lock ;
      check 496 (s_request_num l =? 0))
    (λ _ s', ∃ l', transfer l = Some l' ∧ s' = put_lock l' s)
    (put_lock (set_queue rest l) s).
Proof using Hinv Hshared.
  intros Hr H0 Hs. pose proof (inv_unlocked _ Hinv H0) as Hemp.
  pose proof (queue_bound _ Hinv) as Hqb. rewrite Hr in Hqb. simpl in Hqb.
  pose proof (inv_snum _ Hinv) as Hsn. rewrite Hr, countZ_cons in Hsn.
  unfold is_s in Hsn at 1. rewrite Hs, countZ_filter_length in Hsn. simpl in Hsn.
  assert (NoDup (req_node r :: (req_node <$> List.filter is_s rest))) as Hnd.
  { pose proof (NoDup_fmap_filter is_s _ (inv_q_nodup _ Hinv)) as Hn.
    rewrite Hr in Hn. simpl in Hn. unfold is_s in Hn at 1. by rewrite Hs in Hn. }
  wp_step. apply wp_upd. wp_step. apply wp_add_hold.
  { ps_simpl. rewrite Hemp. apply not_elem_of_nil. }
  wp_step. apply wp_upd. do 3 wp_step. ps_simpl. rewrite H0, Hemp. simpl.
  set (l0 := set_pending false (set_s_num 0 (set_queue (List.filter is_x rest)
     (set_lock_word (1 + Z.of_nat (length (List.filter is_s rest)))
     (set_holders (req_node r :: (req_node <$> List.filter is_s rest)) l))))).
  assert (transfer l = Some l0) as Ht.
  { unfold transfer. by rewrite Hr, H0, Hs. }
  eapply wp_mono with (Q := λ _ s', put_lock (set_pending false (ps_lock s')) s' = put_lock l0 s).
  - wp_step; bool_simpl.
    + wp_step. eapply wp_mono.
      { apply grant_shared_spec; unfold hold_size; ps_simpl; simpl.
        - done.
        - unfold EXCLUSIVE_LOCKED, MaxComputeNodeCount in *. lia.
        - done. }
      intros k s' [-> ->]. apply wp_upd. rewrite !put_put. f_equal. apply lr_ext; unfold l0;
        ps_simpl; first [reflexivity|lia].
    + assert (List.filter is_s rest = []) as Hnil.
      { destruct (List.filter is_s rest); simpl in *; [done|lia]. }
      assert (List.filter is_x rest = rest) as Hall.
      { clear - Hnil. induction rest as [|a rest IH]; [done|]. simpl in *.
        unfold is_s, is_x in *. destruct (req_xlock a); simpl in *; [|done]. by rewrite IH. }
      rewrite !put_put. f_equal. apply lr_ext; unfold l0; ps_simpl; rewrite ?Hnil, ?Hall;
        try reflexivity. rewrite Hsn, Hnil. simpl. lia.
  - intros _ s' E. wp_step. apply wp_upd. do 2 wp_step. rewrite E. apply wp_check; [done|].
    exists l0. done.
Qed.

(** [TransferControl] is the abstract hand-over [transfer]; in particular none of
    its assertions fails. *)
Lemma TransferControl_spec :
  wp TransferControl (λ b s', match transfer l with
                             | Some l' => b = true ∧ s' = put_lock l' s
                             | None => b = false ∧ s' = s
                             end) s.
Proof using Hinv Hpend Hsrc Hshared.
  unfold TransferControl. do 3 wp_step. apply wp_check; [by apply negb_true_iff, Z.eqb_neq|].
  destruct (request_queue l) as [|r rest] eqn:Hr.
  - assert (queue_empty l = true) as He by by apply queue_empty_true.
    wp_step. apply wp_check; [by rewrite Hpend, He|]. wp_step. apply wp_check.
    { by rewrite (inv_snum _ Hinv), (inv_xnum _ Hinv), Hr. }
    wp_step. unfold transfer. rewrite Hr. done.
  - assert (is_pending l = true) as Hp by (rewrite Hpend; unfold queue_empty; by rewrite Hr).
    assert (valid_node (req_node r)) as Hv by by eapply head_valid.
    wp_step; bool_simpl.
    + pose proof (inv_unlocked _ Hinv H) as Hemp.
      wp_step. apply wp_check; [done|]. wp_step. apply wp_check.
      { unfold hold_size. by rewrite Hemp. }
      wp_step. apply wp_upd. wp_step. apply wp_check.
      { rewrite (Hsrc _ _ eq_refl). apply negb_true_iff, Z.eqb_neq.
        unfold valid_node, INVALID_NODE_ID in *. lia. }
      wp_step. apply wp_check; [by rewrite (Hsrc _ _ eq_refl), Z.eqb_refl|].
      wp_step. destruct (req_xlock r) eqn:Hx.
      * wp_step. apply wp_upd. wp_step. apply wp_add_hold.
        { ps_simpl. rewrite Hemp. apply not_elem_of_nil. }
        wp_step. apply wp_upd. apply wp_upd. wp_step.
        unfold transfer. rewrite Hr, H, Hx. simpl. done.
      * eapply wp_mono; [by apply grant_batch_spec|].
        intros _ s' (l' & -> & ->). by wp_step.
    + wp_step. apply wp_check; [done|]. wp_step. apply wp_check.
      { apply Z.ltb_lt. pose proof (inv_size_bound _ Hinv).
        pose proof (inv_not_exclusive _ Hinv Hshared). lia. }
      unfold transfer. rewrite Hr, (proj2 (Z.eqb_neq (lock l) 0)) by done. wp_step.
      * rewrite H0. do 4 (wp_step; apply wp_upd). by wp_step.
      * rewrite H0. by wp_step.
Qed.

(** What a hand-over means for the holders and the queue. *)
Lemma transfer_inv l' :
  transfer l = Some l' →
  lr_inv l' ∧ is_pending l' = false ∧ src_node_id l' = src_node_id l ∧
  lr_mutex l' = lr_mutex l ∧
  (∀ h, h ∈ hold_lock_nodes l → h ∈ hold_lock_nodes l') ∧
  ∃ r rest, request_queue l = r :: rest ∧ hold_front l' = req_node r ∧
    req_node r ∈ hold_lock_nodes l' ∧ (req_node r ∉ queue_nodes l') ∧
    (∀ h, h ∈ hold_lock_nodes l' → h ∉ queue_nodes l') ∧
    (req_xlock r = true → lock l' = EXCLUSIVE_LOCKED ∧ request_queue l' = rest) ∧
    (req_xlock r = false → lock l' ≠ EXCLUSIVE_LOCKED ∧
       request_queue l' = List.filter is_x rest).
Proof using Hinv Hshared.
  clear Hpend Hsrc. unfold transfer, grant_x, upgrade. destruct (request_queue l) as [|r rest] eqn:Hr; [done|].
  pose proof Hinv as [Hnd Hhv Hw Hqn Hqv Hsn Hxn Hup].
  unfold queue_nodes in Hqn, Hqv. rewrite Hr in Hqn, Hqv, Hsn, Hxn. simpl in *.
  apply NoDup_cons in Hqn as [Hrr Hqn]. apply Forall_cons in Hqv as [Hrv Hqv].
  rewrite countZ_cons in Hsn, Hxn. unfold is_s, is_x in Hsn, Hxn.
  fold is_s in Hsn. fold is_x in Hxn.
  destruct (Z.eqb_spec (lock l) 0) as [H0|H0].
  - pose proof (inv_unlocked _ Hinv H0) as Hemp. destruct (req_xlock r) eqn:Hx.
    + intros [= <-]. unfold hold_front, queue_nodes. ps_simpl. rewrite Hemp. simpl hd.
      change ([] ++ [req_node r]) with [req_node r].
      split_and!; try done.
      * split; unfold queue_nodes; ps_simpl; rewrite ?Hemp; try done.
        -- apply NoDup_singleton.
        -- by apply Forall_singleton.
        -- by left.
        -- simpl in *. lia.
        -- intros r' Hr' Hh%list_elem_of_singleton. destruct Hrr.
           rewrite <- Hh. by apply list_elem_of_fmap_2.
      * by intros h ?%elem_of_nil.
      * exists r, rest. split_and!; try done; [by left| |by intros E; rewrite Hx in E].
        intros h ->%list_elem_of_singleton. done.
    + intros [= <-]. ps_simpl.
      assert (∀ h, h ∈ req_node r :: (req_node <$> List.filter is_s rest) →
        h ∉ req_node <$> List.filter is_x rest) as Hdisj.
      { intros h Hh Hq. apply list_elem_of_fmap in Hq as (r1 & -> & [Hr1 Hx1]%elem_of_Lfilter).
        apply elem_of_cons in Hh as [Hh|Hh].
        - apply Hrr. rewrite <- Hh. by apply list_elem_of_fmap_2.
        - apply list_elem_of_fmap in Hh as (r2 & E & [Hr2 Hx2]%elem_of_Lfilter).
          assert (r1 = r2) as -> by by eapply (NoDup_fmap_inj_in req_node).
          unfold is_x, is_s in *. by rewrite Hx1 in Hx2. }
      assert (∀ p, Forall valid_node (req_node <$> List.filter p rest)) as Hfv.
      { intros p. rewrite Forall_forall in *. intros x Hx'. apply Hqv.
        apply list_elem_of_fmap in Hx' as (r1 & -> & [Hr1 _]%elem_of_Lfilter).
        by apply list_elem_of_fmap_2. }
      assert (∀ (p p' : LRRequest → bool), (∀ r, p r = negb (p' r)) →
        countZ p (List.filter p' rest) = 0) as Hcz.
      { intros p p' Hpp. clear - Hpp. induction rest as [|a rest IH]; [done|]. simpl.
        destruct (p' a) eqn:E; [|done]. rewrite countZ_cons, IH, Hpp, E. done. }
      assert (countZ is_x (List.filter is_x rest) = countZ is_x rest) as Hcx.
      { clear. induction rest as [|a rest IH]; [done|]. simpl. rewrite countZ_cons.
        destruct (is_x a) eqn:E; [|done]. rewrite countZ_cons, IH, E. done. }
      assert (Z.of_nat (length (List.filter is_s rest)) < 64) as Hlen.
      { pose proof (queue_bound _ Hinv) as Hb. rewrite Hr in Hb. simpl in Hb.
        pose proof (List.filter_length_le is_s rest). unfold MaxComputeNodeCount in Hb. lia. }
      unfold hold_front, queue_nodes. ps_simpl. simpl.
      split_and!; try done.
      * split; unfold queue_nodes, hold_size; ps_simpl; try done.
        -- apply NoDup_cons. split; [|by apply NoDup_fmap_filter].
           intros Hin. apply Hrr. apply list_elem_of_fmap in Hin as (r1 & -> & [? _]%elem_of_Lfilter).
           by apply list_elem_of_fmap_2.
        -- by apply Forall_cons.
        -- right. simpl. rewrite length_fmap. lia.
        -- by apply NoDup_fmap_filter.
        -- rewrite (Hcz is_s is_x); [done|]. done.
        -- simpl in *. lia.
        -- intros r1 Hr1 Hh. destruct (Hdisj _ Hh). by apply list_elem_of_fmap_2.
      * rewrite Hemp. by intros h ?%elem_of_nil.
      * exists r, rest. split_and!; try done; [by left| |by rewrite Hx|].
        -- apply Hdisj. by left.
        -- intros _. split; [|done]. unfold EXCLUSIVE_LOCKED. lia.
  - destruct (Z.eqb_spec (lock l) 1) as [H1|H1]; [|done].
    destruct (inv_one_holder _ Hinv H1) as [h Hh]. unfold hold_front at 1. rewrite Hh. simpl.
    destruct (Z.eqb_spec h (req_node r)) as [->|]; [|done]. intros [= <-]. ps_simpl.
    destruct (Hup r) as [Hx _]; [by rewrite Hr; left|by rewrite Hh; left|]. rewrite Hx in *.
    unfold hold_front, queue_nodes. ps_simpl. rewrite Hh. simpl.
    split_and!; try done.
    + split; unfold queue_nodes, hold_size; ps_simpl; rewrite ?Hh; try done.
      * apply NoDup_singleton.
      * by apply Forall_singleton.
      * by left.
      * simpl in *. lia.
      * intros r' Hr' Hh'%list_elem_of_singleton. destruct Hrr.
        rewrite <- Hh'. by apply list_elem_of_fmap_2.
    + exists r, rest. split_and!; try done; [by left| |by intros E; rewrite Hx in E].
      intros h ->%list_elem_of_singleton. done.
Qed.
End transfer.

(** ** Announcing the new owners *)

(** The messages of [SendComputenodeLockSuccess]: the first owner learns whether
    its copy is current and to whom it must forward the page, the others wait
    for a push. *)
Definition success_msgs (xlock newest : bool) (owner : Z) (others : list Z) : list Msg :=
  MsgLockSuccess owner xlock newest others ::
  ((λ h, MsgLockSuccess h xlock false []) <$> others).

Lemma put_msgs_app a b s : put_msgs b (put_msgs a s) = put_msgs (a ++ b) s.
Proof. unfold put_msgs. simpl. by rewrite <- app_assoc. Qed.

Lemma put_lock_msgs a l s : put_msgs a (put_lock l s) = put_lock l (put_msgs a s).
Proof. done. Qed.

Lemma send_success_others xlock holders nodes s :
  src_node_id (ps_lock s) = INVALID_NODE_ID → Forall valid_node nodes →
  wp (for_each (send_success xlock holders) nodes) (λ _ s',
    s' = put_msgs ((λ h, MsgLockSuccess h xlock false []) <$> nodes) s) s.
Proof.
  revert s. induction nodes as [|n nodes IH]; intros s Hsrc Hv; simpl.
  - apply wp_ret. destruct s; unfold put_msgs; simpl. by rewrite app_nil_r.
  - apply Forall_cons in Hv as [Hn Hv]. wp_step. unfold send_success at 1. do 2 wp_step.
    rewrite Hsrc, (proj2 (Z.eqb_neq n INVALID_NODE_ID))
      by (unfold valid_node, INVALID_NODE_ID in *; lia).
    apply wp_emit. eapply wp_mono; [by apply IH|]. intros _ s' ->. by rewrite put_msgs_app.
Qed.

Lemma SendComputenodeLockSuccess_spec P b owner others s :
  hold_lock_nodes (ps_lock s) = owner :: others → NoDup (owner :: others) →
  Forall valid_node (owner :: others) → src_node_id (ps_lock s) = owner →
  valid_pages (ps_valid s) P b →
  wp SendComputenodeLockSuccess (λ _ s',
    s' = put_lock (set_src INVALID_NODE_ID (ps_lock s))
      (put_msgs (success_msgs (lock (ps_lock s) =? EXCLUSIVE_LOCKED)
        (bool_decide (has_page (ps_valid s) owner)) owner others) s)) s.
Proof.
  intros Hh Hnd Hv Hsrc Hpg. unfold SendComputenodeLockSuccess. do 3 wp_step.
  unfold hold_size. rewrite Hh. apply wp_check; [done|].
  apply NoDup_cons in Hnd as [Ho Hnd]. apply Forall_cons in Hv as [Hov Hv].
  simpl for_each. wp_step. unfold send_success at 1. do 2 wp_step.
  rewrite Hsrc, Z.eqb_refl. wp_step. apply wp_zoom. apply wp_read_status; [apply Hpg|done|].
  wp_step. apply wp_upd. apply wp_emit.
  eapply wp_mono; [by apply send_success_others|]. intros _ s' ->.
  rewrite put_msgs_app, !put_lock_msgs. unfold success_msgs.
  assert (list_remove owner (owner :: others) = others) as ->.
  { unfold list_remove. simpl. rewrite Z.eqb_refl. simpl.
    by apply (list_remove_notin owner others). }
  by destruct s.
Qed.

(** ** Starting the next round *)

Section next_round.
Variable self : node_id_t.
Variable s : PageState.
Abbreviation l := (ps_lock s).
Hypothesis Hinv : lr_inv l.
Hypothesis Hheld : lr_mutex l = true.
Hypothesis Hnp : is_pending l = false.
Hypothesis Hsrc : src_node_id l = INVALID_NODE_ID.
Hypothesis Hne : hold_lock_nodes l ≠ [].
Hypothesis Hdisj : ∀ h, h ∈ hold_lock_nodes l → h ∉ queue_nodes l.
Hypothesis Hallx : lock l ≠ EXCLUSIVE_LOCKED → ∀ r, r ∈ request_queue l → req_xlock r = true.
Hypothesis Hvalid : valid_state (ps_valid s) (λ n, n ∈ hold_lock_nodes l) false.

(** The state [TransferPending] leaves: a round for the first request, if
    there is one. *)
Definition next_round : PageState :=
  match request_queue l with
  | [] => put_lock (mutex_set false l) s
  | r :: _ => round_state self (put_lock (set_pending true l) (bump_immedia s)) (req_node r)
                (lock l =? EXCLUSIVE_LOCKED)
  end.

Lemma TransferPending_spec : wp (TransferPending self) (λ _ s', s' = next_round) s.
Proof using Hinv Hheld Hnp Hsrc Hne Hdisj Hallx Hvalid.
  unfold TransferPending, next_round. do 2 wp_step.
  destruct (request_queue l) as [|r q] eqn:Hr; [by apply wp_mutexUnlock|].
  rewrite Hnp. do 2 wp_step.
  assert (req_node r ∈ queue_nodes l) as Hrq.
  { unfold queue_nodes. rewrite Hr. by left. }
  assert (valid_node (req_node r)) as Hv.
  { pose proof (inv_q_valid _ Hinv) as Hq. rewrite Forall_forall in Hq. auto. }
  pose proof (inv_size_bound _ Hinv) as Hb.
  assert (1 ≤ hold_size l) as Hsz.
  { unfold hold_size. destruct (hold_lock_nodes l); simpl; [done|lia]. }
  assert (lock l = EXCLUSIVE_LOCKED → hold_size l = 1 ∧ req_node r ≠ hold_front l) as Hex.
  { intros E. destruct (inv_exclusive _ Hinv E) as [h Hh].
    unfold hold_size, hold_front. rewrite Hh. split; [done|]. simpl. intros Heq.
    apply (Hdisj h); [rewrite Hh; by left|]. by rewrite <- Heq. }
  assert (wp (SetComputenodePending self (req_node r) (lock l =? EXCLUSIVE_LOCKED))
    (λ _ s', s' = round_state self (put_lock (set_pending true l) (bump_immedia s))
                    (req_node r) (lock l =? EXCLUSIVE_LOCKED))
    (put_lock (set_pending true l) (bump_immedia s))) as Hround.
  { eapply SetComputenodePending_spec; try done; unfold hold_size in *; ps_simpl; try done.
    - apply Hinv.
    - intros ?%Z.eqb_eq. by apply Hex. }
  wp_step.
  - wp_step. apply wp_check.
    { apply Z.ltb_lt. rewrite (inv_xnum _ Hinv). apply (countZ_pos is_x _ r); [|done].
      rewrite Hr. by left. }
    wp_step. apply wp_upd. wp_step. eapply wp_mono with (Q := λ _ s',
      s' = put_lock (set_pending true l) (bump_immedia s)).
    { wp_step; [|done]. bool_simpl. destruct (Hex H0) as [Hs1 Hfr].
      wp_step. apply wp_check; [by apply Z.eqb_eq|].
      apply wp_check; [by apply negb_true_iff, Z.eqb_neq|done]. }
    intros _ s' ->. exact Hround.
  - assert (lock l = EXCLUSIVE_LOCKED) as E.
    { destruct (decide (lock l = EXCLUSIVE_LOCKED)) as [|Hn]; [done|].
      rewrite (Hallx Hn r) in H; [done|]. by left. }
    destruct (Hex E) as [Hs1 Hfr].
    wp_step. apply wp_check.
    { apply Z.ltb_lt. rewrite (inv_snum _ Hinv). apply (countZ_pos is_s _ r).
      - rewrite Hr. by left.
      - unfold is_s. by rewrite H. }
    wp_step. apply wp_check; [by apply Z.eqb_eq|]. wp_step. apply wp_check; [by apply Z.eqb_eq|].
    wp_step. apply wp_check; [by apply negb_true_iff, Z.eqb_neq|].
    wp_step. apply wp_upd. by rewrite E, Z.eqb_refl in Hround |- *.
Qed.
End next_round.
