(* ===== verification/PageServer.v ===== *)
(** [core/remote_page_table/remote_page_table_rpc.h]: the lazy-release handlers
    of [PageTableServiceImpl] for one page, composed from the page's lock
    ([GlobalLRLock]) and its validity record ([ValidInfo]) exactly as the
    service composes them, and the protocol those handlers implement. *)

From S2P Require Import Prelude Common ValidInfo GlobalLRLock.

(** The fields of [PSLockResponse]/[PXLockResponse] the handlers set. *)
Record LockResponse := mkResp {
  wait_lock_release : bool;
  resp_lsn : LLSN;
  resp_source : option (bool * Z)   (** [need_storage_fetch], [newest_node] *)
}.

Definition NO_LSN : Z := u64 (-1).

Section handlers.
Variable self : node_id_t.

(** [from_global] tells the RPC handler ([true]) from its [_Localcall] twin. *)
Definition LRPXLock (n table_id : Z) (from_global : bool) : M PageState LockResponse :=
  lock_success ← LockExclusive self n table_id ;
  if lock_success : bool then
    r ← onValid (GetValid n false) ;
    now_lsn ← getLsnIDNoBlock ;
    when (negb (snd r) && negb (fst r =? INVALID_NODE_ID))
      (NotifyPushPage self n (fst r) from_global) ;;
    mutexUnlock ;;
    mret (mkResp false now_lsn (Some (snd r, fst r)))
  else mret (mkResp true NO_LSN None).

Definition LRPSLock (n table_id : Z) (from_global : bool) : M PageState LockResponse :=
  lock_success ← LockShared self n table_id ;
  if lock_success : bool then
    r ← onValid (GetValid n false) ;
    now_lsn ← getLsnIDNoBlock ;
    when (negb (snd r))
      (check (if from_global then 313 else 365) (negb (fst r =? INVALID_NODE_ID)) ;;
       NotifyPushPage self n (fst r) from_global) ;;
    mutexUnlock ;;
    mret (mkResp false now_lsn (Some (snd r, fst r)))
  else mret (mkResp true NO_LSN None).

(** The [if(need_transfer)] branch of [LRPAnyUnLock]. *)
Definition hand_over (n : Z) : M PageState unit :=
  onValid Global_Lock ;;
  next_nodes ← get_hold_lock_nodes ;
  check 536 (negb (bool_decide (next_nodes = []))) ;;
  SendComputenodeLockSuccess ;;
  onValid (ReleasePageNoBlock n) ;;
  for_each (λ nid, onValid (setNodeStatusNoBlock nid true)) next_nodes ;;
  onValid (SetValidAndUpdateNewest (hd INVALID_NODE_ID next_nodes)) ;;
  TransferPending self.

Definition LRPAnyUnLock (n : Z) : M PageState unit :=
  UnlockAny n ;;
  need_transfer ← TransferControl ;
  if need_transfer : bool then hand_over n
  else
    onValid (ReleasePage n) ;;
    mutexUnlock.

(** One round of the loop of [LRPAnyUnLocks], the multi-page release: unlike
    [LRPAnyUnLock] it has no [else] branch. *)
Definition release_one_of_many (n : Z) : M PageState unit :=
  UnlockAny n ;;
  need_transfer ← TransferControl ;
  when need_transfer
    (nodes ← get_hold_lock_nodes ;
     for_each (λ m, onValid (GetValid_release m) ;; mret tt) nodes ;;
     SendComputenodeLockSuccess ;;
     TransferPending self).

(** Eviction: [set_agree] is the result. *)
Definition BufferReleaseUnlock (n lsn : Z) : M PageState bool :=
  mutexLock ;;
  h ← CheckIsHoldNoBlock n ;
  if negb h then mutexUnlock ;; mret false
  else
    p ← getIsPendingNoBlock ;
    if p : bool then mutexUnlock ;; mret false
    else
      setLsnIDNoBlock lsn ;;
      v ← onValid (IsValid n) ;
      check 438 v ;;
      onValid (setNodeStatus n false) ;;
      UnlockAnyNoBlock n ;;
      e ← is_request_queue_empty ;
      check 446 e ;;
      mutexUnlock ;;
      mret true.
End handlers.

(** ** The tables

    [page_lock_table_list_] and [page_valid_table_list_] are indexed by table and
    page; an index out of range throws. *)

Abbreviation Pages := (gmap (table_id_t * page_id_t) PageState).

Definition on_page {A} (k : table_id_t * page_id_t) (m : M PageState A) : M Pages A := λ ps,
  match ps !! k with
  | None => Crash OutOfBounds
  | Some s =>
      match m s with
      | Done (a, s') => Done (a, <[k := s']> ps)
      | Blocked => Blocked
      | Crash f => Crash f
      end
  end.

Definition LRPAnyUnLocks (self n : Z) (pages_id : list (table_id_t * page_id_t)) : M Pages unit :=
  for_each (λ k, on_page k (release_one_of_many self n)) pages_id.

(** ** The server's invariant *)

(** Between handlers: the lock is quiet, both mutexes are free, and the nodes
    with a valid copy are exactly the nodes that hold the page. *)
Record server_inv (s : PageState) : Prop := {
  sv_quiet : lr_quiet (ps_lock s);
  sv_free : lr_mutex (ps_lock s) = false;
  sv_valid : valid_state (ps_valid s) (λ n, n ∈ hold_lock_nodes (ps_lock s)) false
}.

Definition initial_page (pid garbage : Z) : PageState :=
  mkPS (LR_Reset (new_LR_GlobalPageLock pid garbage)) (new_GlobalValidInfo pid) [] 0.

Lemma initial_page_inv pid garbage : server_inv (initial_page pid garbage).
Proof.
  split; [|done|].
  - split; [|done|done|done]. split; try done; simpl.
    + apply NoDup_nil_2.
    + by right.
    + apply NoDup_nil_2.
    + intros r Hr. by apply elem_of_nil in Hr.
  - destruct (new_GlobalValidInfo_state pid) as (Hwf & Hm & HP).
    split_and!; [done|done|]. intros n. rewrite HP. by rewrite elem_of_nil.
Qed.

(** A node's contract when it gives a page up: it holds it, and it is not the
    node the current round is run for. *)
Definition may_unlock (n : Z) (l : LR_GlobalPageLock) : Prop :=
  n ∈ hold_lock_nodes l ∧ n ≠ src_node_id l.

Lemma quiet_busy_of_enqueue r l :
  lr_quiet l → request_queue l ≠ [] → lr_inv (enqueue r l) → lr_quiet (enqueue r l).
Proof.
  intros Hq Hne Hi. destruct (enqueue_fields r l) as (El & Eh & Eq & Es & Ep & _).
  destruct (request_queue l) as [|r0 q0] eqn:Hr; [done|].
  destruct (q_busy _ Hq _ _ Hr) as [Hs Hb]. split; [done|..].
  - rewrite Ep, (q_pending _ Hq). unfold queue_empty. by rewrite Eq, Hr.
  - rewrite Eq. done.
  - rewrite Eq. intros r' q' [= <- <-]. rewrite Es, Eh. done.
Qed.

Lemma lr_quiet_idle l :
  lr_inv l → is_pending l = false → request_queue l = [] →
  src_node_id l = INVALID_NODE_ID → lr_quiet l.
Proof.
  intros Hi Hp He Hs. split; [done| |done|].
  - rewrite Hp. unfold queue_empty. by rewrite He.
  - rewrite He. done.
Qed.

Lemma quiet_not_pending l :
  lr_quiet l → request_queue l = [] → is_pending l = false ∧ src_node_id l = INVALID_NODE_ID.
Proof.
  intros Hq He. split; [|by apply (q_idle _ Hq)].
  rewrite (q_pending _ Hq). unfold queue_empty. by rewrite He.
Qed.

Lemma lr_inv_mutex b l : lr_inv l → lr_inv (mutex_set b l).
Proof. by apply lr_inv_ext. Qed.

Lemma lr_inv_set_src n l : lr_inv l → lr_inv (set_src n l).
Proof. by apply lr_inv_ext. Qed.

Lemma lr_inv_set_pending n l : lr_inv l → lr_inv (set_pending n l).
Proof. by apply lr_inv_ext. Qed.

Lemma lr_inv_set_lsn n l : lr_inv l → lr_inv (set_lsn n l).
Proof. by apply lr_inv_ext. Qed.

#[export] Hint Resolve lr_inv_mutex lr_inv_set_src lr_inv_set_pending lr_inv_set_lsn
  lr_inv_release : mp.

(** Opening a round leaves a well-formed waiting state. *)
Lemma round_inv self s n xp :
  lr_inv (ps_lock s) → is_pending (ps_lock s) = true →
  (∃ r q, request_queue (ps_lock s) = r :: q ∧ req_node r = n) →
  (∃ h, h ∈ hold_lock_nodes (ps_lock s) ∧ h ≠ n) →
  valid_state (ps_valid s) (λ n, n ∈ hold_lock_nodes (ps_lock s)) false →
  server_inv (round_state self s n xp).
Proof.
  intros Hi Hp (r & q & Hr & Hn) Hh Hv. split; [|done|done].
  split; simpl; [by eapply lr_inv_ext, Hi| | |].
  - rewrite Hp. unfold queue_empty. simpl. by rewrite Hr.
  - by rewrite Hr.
  - rewrite Hr. intros r' q' [= <- <-]. rewrite Hn. done.
Qed.

(** The messages the server sends never change the protocol state. *)
Lemma server_inv_msgs ms s : server_inv s → server_inv (put_msgs ms s).
Proof. by intros [? ? ?]. Qed.

(** ** Acquiring *)

Section acquire.
Variable self : node_id_t.
Variable s : PageState.
Abbreviation l := (ps_lock s).
Hypothesis Hs : server_inv s.

Definition push_msg (dest src : Z) (from_global : bool) : Msg :=
  if src =? self then CallPushPage dest (if from_global then 0 else 1)
  else MsgNotifyPushPage src dest.

Lemma global_NotifyPushPage_spec dest src fg s0 :
  src ≠ dest →
  wp (NotifyPushPage self dest src fg) (λ _ s', s' = put_msgs [push_msg dest src fg] s0) s0.
Proof using.
  intros Hne. unfold NotifyPushPage, push_msg. wp_step; rewrite H.
  - by apply wp_emit.
  - wp_step. apply wp_check; [by apply negb_true_iff, Z.eqb_neq|]. by apply wp_emit.
Qed.

(** A granted exclusive lock: the node becomes the only holder. *)
Definition x_granted (n : Z) (r : LockResponse) (s' : PageState) : Prop :=
  wait_lock_release r = false ∧ resp_lsn r = lsn_id l ∧
  resp_source r = Some (bool_decide (hold_lock_nodes l = []), -1) ∧
  lock (ps_lock s') = EXCLUSIVE_LOCKED ∧ hold_lock_nodes (ps_lock s') = [n] ∧
  request_queue (ps_lock s') = [] ∧ ps_out s' = ps_out s.

(** A deferred request: it is queued, nothing else changes hands. *)
Definition deferred (req : LRRequest) (r : LockResponse) (s' : PageState) : Prop :=
  r = mkResp true NO_LSN None ∧
  request_queue (ps_lock s') = request_queue l ++ [req] ∧
  hold_lock_nodes (ps_lock s') = hold_lock_nodes l ∧ lock (ps_lock s') = lock l ∧
  ps_valid s' = ps_valid s ∧
  ps_out s' = ps_out s ++
    (if queue_empty l
     then pending_round self (req_node req)
            (push_source s (req_node req) (lock l =? EXCLUSIVE_LOCKED))
            (lock l =? EXCLUSIVE_LOCKED) (hold_lock_nodes l)
     else []).

Lemma open_round_inv r :
  request_queue l = [] → lr_inv (enqueue r l) →
  (∃ h, h ∈ hold_lock_nodes l ∧ h ≠ req_node r) →
  server_inv (round_state self (put_lock (open_round r l) s) (req_node r)
                (lock l =? EXCLUSIVE_LOCKED)).
Proof using Hs.
  intros He Hi Hh. destruct (enqueue_fields r l) as (El & Eh & Eq & _).
  apply round_inv; unfold open_round; simpl.
  - eapply lr_inv_ext, Hi; done.
  - done.
  - exists r, []. simpl. by rewrite Eq, He.
  - by rewrite Eh.
  - rewrite Eh. apply (sv_valid _ Hs).
Qed.

Lemma open_round_deferred r :
  request_queue l = [] →
  deferred r (mkResp true NO_LSN None)
    (round_state self (put_lock (open_round r l) s) (req_node r) (lock l =? EXCLUSIVE_LOCKED)).
Proof using.
  intros He. destruct (enqueue_fields r l) as (El & Eh & Eq & _).
  unfold deferred, round_state, open_round, push_source, hold_front. simpl.
  rewrite El, Eh, Eq. unfold queue_empty. rewrite He. done.
Qed.

Lemma enqueue_deferred r :
  request_queue l ≠ [] → lr_inv (enqueue r l) →
  server_inv (put_lock (enqueue r l) s) ∧
  deferred r (mkResp true NO_LSN None) (put_lock (enqueue r l) s).
Proof using Hs.
  intros He Hi. destruct Hs as [Hq Hf Hv].
  destruct (enqueue_fields r l) as (El & Eh & Eq & Esrc & Ep & Em).
  split; [split; simpl|].
  - by apply quiet_busy_of_enqueue.
  - by rewrite Em.
  - by rewrite Eh.
  - unfold deferred. simpl. rewrite El, Eh, Eq. unfold queue_empty.
    destruct (request_queue l); [done|]. by rewrite app_nil_r.
Qed.

Lemma LRPXLock_spec n t fg :
  may_lock_exclusive n l →
  wp (LRPXLock self n t fg) (λ r s', server_inv s' ∧
    (((lock l = 0 ∨ hold_lock_nodes l = [n] ∧ request_queue l = []) ∧ x_granted n r s') ∨
     (lock l ≠ 0 ∧ (request_queue l = [] → hold_lock_nodes l ≠ [n]) ∧
      deferred (mkReq n t true) r s'))) s.
Proof using Hs.
  intros Hc. pose proof Hc as (Hn & Hnq & Hnx). pose proof Hs as [Hq Hf Hv].
  pose proof (q_inv _ Hq) as Hi. unfold LRPXLock, getLsnIDNoBlock. wp_step.
  eapply wp_mono; [by apply global_LockExclusive_spec|].
  assert (lr_inv (enqueue (mkReq n t true) l)) as Hie.
  { apply lr_inv_enqueue; try done. simpl. intros ?. split; [done|]. by apply Hnx. }
  intros b s' [(-> & H1 & Hh & He & ->)|[(-> & H0 & Hh & He & ->)|
    [(-> & He & H0 & Hh & ->)|(-> & He & ->)]]].
  - destruct (quiet_not_pending _ Hq He) as [Hp Hsrc].
    wp_step. apply wp_zoom. eapply wp_mono; [by apply (GetValid_spec _ _ n false Hv)|].
    simpl. intros r v' (Hv' & Hyes & _).
    destruct Hyes as [-> ->]; [rewrite Hh; by left|].
    do 3 wp_step. simpl. apply wp_ret. wp_step. apply wp_mutexUnlock; [done|]. wp_step.
    split; [|left; split; [by right|]].
    + split; [|done|].
      * apply lr_quiet_idle; try done.
        by eapply lr_inv_ext, (lr_inv_upgrade l n).
      * eapply valid_state_ext, Hv. done.
    + unfold x_granted. simpl. rewrite Hh. done.
  - destruct (quiet_not_pending _ Hq He) as [Hp Hsrc].
    wp_step. apply wp_zoom. eapply wp_mono; [by apply (GetValid_spec _ _ n false Hv)|].
    simpl. intros r v' (Hv' & _ & Hno). rewrite Hh in Hno, Hv'.
    destruct Hno as [-> Hnew]; [apply not_elem_of_nil|].
    assert (newest_node (ps_valid s) = -1) as Hnn.
    { destruct (valid_state_newest _ _ _ Hv) as [[? _]|Hin]; [done|].
      rewrite Hh in Hin. by apply elem_of_nil in Hin. }
    rewrite Hnn. do 3 wp_step. simpl. apply wp_ret. wp_step.
    apply wp_mutexUnlock; [done|]. wp_step. split; [|left; split; [by left|]].
    + split; [|done|].
      * apply lr_quiet_idle; try done.
        by eapply lr_inv_ext, (lr_inv_grant_x n l).
      * eapply valid_state_ext, Hv'. intros m. simpl. rewrite Hh. simpl.
        rewrite elem_of_nil, list_elem_of_singleton. tauto.
    + unfold x_granted. simpl. rewrite Hh. done.
  - wp_step. split.
    + apply open_round_inv; [done|done|]. simpl.
      destruct (hold_lock_nodes l) as [|h hs] eqn:Ehs.
      { destruct (inv_word _ Hi) as [[_ E]|E]; unfold hold_size in E; rewrite Ehs in E; done. }
      destruct (decide (h = n)) as [->|]; [|exists h; split; [by left|done]].
      destruct hs as [|h' hs]; [done|]. exists h'. split; [by right; left|].
      pose proof (inv_hold_nodup _ Hi) as Hnd. rewrite Ehs in Hnd.
      apply NoDup_cons in Hnd as [Hnin _]. intros ->. apply Hnin. by left.
    + right. split; [done|]. split; [done|]. by apply open_round_deferred.
  - wp_step. destruct (enqueue_deferred (mkReq n t true)) as [Hi' Hd]; [done..|].
    split; [done|]. right. split; [|done].
    intros E. destruct (request_queue l) as [|r0 q0] eqn:Hr; [done|].
    destruct (q_busy _ Hq _ _ Hr) as (_ & h & Hhold & _).
    by rewrite (inv_unlocked _ Hi E), elem_of_nil in Hhold.
Qed.

(** A granted shared lock: the node joins the holders, and the newest copy
    is pushed to it when there is one. *)
Definition s_granted (n : Z) (fg : bool) (r : LockResponse) (s' : PageState) : Prop :=
  wait_lock_release r = false ∧ resp_lsn r = lsn_id l ∧
  resp_source r = Some (bool_decide (hold_lock_nodes l = []), newest_node (ps_valid s)) ∧
  lock (ps_lock s') = lock l + 1 ∧ hold_lock_nodes (ps_lock s') = hold_lock_nodes l ++ [n] ∧
  request_queue (ps_lock s') = [] ∧
  ps_out s' = ps_out s ++
    (if bool_decide (hold_lock_nodes l = []) then []
     else [push_msg n (newest_node (ps_valid s)) fg]) ∧
  (hold_lock_nodes l ≠ [] → newest_node (ps_valid s) ∈ hold_lock_nodes l).

Lemma newest_holder :
  (newest_node (ps_valid s) = -1 ∧ hold_lock_nodes l = []) ∨
  (newest_node (ps_valid s) ≠ -1 ∧ newest_node (ps_valid s) ∈ hold_lock_nodes l ∧
   hold_lock_nodes l ≠ []).
Proof using Hs.
  destruct Hs as [Hq Hf Hv].
  destruct (valid_state_newest _ _ _ Hv) as [[Hn Hno]|Hin]; [left|right].
  - split; [done|]. destruct (hold_lock_nodes l) as [|h hs]; [done|].
    destruct (Hno h). by left.
  - pose proof (inv_hold_valid _ (q_inv _ Hq)) as Hhv. rewrite Forall_forall in Hhv.
    pose proof (Hhv _ Hin) as Hvn. unfold valid_node in Hvn. split_and!; [lia|done|].
    intros E. rewrite E in Hin. by apply elem_of_nil in Hin.
Qed.

Lemma s_granted_inv n (v' : GlobalValidInfo) :
  request_queue l = [] → lock l ≠ EXCLUSIVE_LOCKED → may_lock_shared n l →
  valid_state v' (λ m, m ∈ hold_lock_nodes l ∨ m = n) false →
  server_inv (put_valid v' (put_lock (grant_s n l) s)).
Proof using Hs.
  intros He Hne (Hn & Hh & Hnq) Hv'. destruct Hs as [Hq Hf Hv].
  destruct (quiet_not_pending _ Hq He) as [Hp Hsrc]. split; [|done|]; simpl.
  - apply lr_quiet_idle; try done. by apply lr_inv_grant_s; [apply q_inv|..].
  - eapply valid_state_ext, Hv'. intros m.
    by rewrite elem_of_app, list_elem_of_singleton.
Qed.

Lemma LRPSLock_spec n t fg :
  may_lock_shared n l →
  wp (LRPSLock self n t fg) (λ r s', server_inv s' ∧
    ((lock l ≠ EXCLUSIVE_LOCKED ∧ request_queue l = [] ∧ s_granted n fg r s') ∨
     ((lock l = EXCLUSIVE_LOCKED ∨ request_queue l ≠ []) ∧
      deferred (mkReq n t false) r s'))) s.
Proof using Hs.
  intros Hc. pose proof Hc as (Hn & Hh & Hnq). pose proof Hs as [Hq Hf Hv].
  pose proof (q_inv _ Hq) as Hi. unfold LRPSLock, getLsnIDNoBlock. wp_step.
  eapply wp_mono; [by apply global_LockShared_spec|].
  assert (lr_inv (enqueue (mkReq n t false) l)) as Hie.
  { by apply lr_inv_enqueue. }
  intros b s' [(-> & Hne & He & ->)|[(-> & Hx & He & ->)|(-> & He & ->)]].
  - wp_step. apply wp_zoom. eapply wp_mono; [by apply (GetValid_spec _ _ n false Hv)|].
    intros r v' (Hv' & _ & Hno). destruct (Hno Hh) as [-> _].
    do 3 wp_step. cbn [fst snd].
    assert (bool_decide (newest_node (ps_valid s) = -1) =
            bool_decide (hold_lock_nodes l = [])) as Hbd.
    { apply bool_decide_ext. destruct newest_holder as [[? ?]|(? & ? & ?)]; done. }
    rewrite Hbd. pose proof (s_granted_inv n v' He Hne Hc Hv') as Hinv'.
    set (s1 := put_valid v' (put_lock (mutex_set true (grant_s n l)) s)).
    eapply wp_mono with (Q := λ _ s', s' = put_msgs
      (if bool_decide (hold_lock_nodes l = []) then []
       else [push_msg n (newest_node (ps_valid s)) fg]) s1).
    + wp_step; bool_simpl.
      * destruct newest_holder as [[? ?]|(Hne1 & Hin & _)]; [done|].
        rewrite bool_decide_eq_false_2 by done. wp_step.
        apply wp_check; [by apply negb_true_iff, Z.eqb_neq|].
        apply global_NotifyPushPage_spec. intros Heq. apply Hh. by rewrite <- Heq.
      * rewrite bool_decide_eq_true_2 by done. unfold put_msgs. simpl. by rewrite app_nil_r.
    + intros _ s' ->. wp_step. apply wp_mutexUnlock; [done|]. wp_step. split.
      * apply (server_inv_msgs (if bool_decide (hold_lock_nodes l = []) then []
          else [push_msg n (newest_node (ps_valid s)) fg])) in Hinv'.
        destruct Hinv' as [Hq' Hf' Hv'']. split; [|done|done].
        destruct Hq' as [A B C D]. split; [|exact B|exact C|exact D]. by eapply lr_inv_ext, A.
      * left. split_and!; [done..|]. unfold s_granted. simpl.
        split_and!; try done. intros ?. destruct newest_holder as [[? ?]|(_ & ? & _)]; done.
  - destruct (inv_exclusive _ Hi Hx) as [h Hsing]. wp_step.
    pose proof (open_round_inv (mkReq n t false) He Hie) as Hor.
    pose proof (open_round_deferred (mkReq n t false) He) as Hod.
    rewrite Hx, Z.eqb_refl in Hor, Hod. simpl in Hor, Hod. split.
    + apply Hor. exists h. rewrite Hsing. split; [by left|]. intros ->.
      apply Hh. rewrite Hsing. by left.
    + right. split; [by left|]. done.
  - wp_step. destruct (enqueue_deferred (mkReq n t false)) as [Hi' Hd]; [done..|].
    split; [done|]. right. split; [by right|done].
Qed.
End acquire.

(** ** Releasing *)

Section release.
Variable self : node_id_t.
Variable s : PageState.
Abbreviation l := (ps_lock s).
Hypothesis Hs : server_inv s.

Definition next_round_msgs (owner : Z) (l2 : LR_GlobalPageLock) : list Msg :=
  match request_queue l2 with
  | [] => []
  | r :: _ => pending_round self (req_node r) owner (lock l2 =? EXCLUSIVE_LOCKED)
                (hold_lock_nodes l2)
  end.

(** What [LRPAnyUnLock] does for a node [n]: without a hand-over the node is
    just forgotten; with one, the next owners are installed and told, and the
    next round is opened for the request that now heads the queue. *)
Definition unlock_result (n : Z) (s' : PageState) : Prop :=
  match transfer (release n l) with
  | None =>
      hold_lock_nodes (ps_lock s') = list_remove n (hold_lock_nodes l) ∧
      lock (ps_lock s') = Z.of_nat (length (list_remove n (hold_lock_nodes l))) ∧
      request_queue (ps_lock s') = request_queue l ∧
      src_node_id (ps_lock s') = src_node_id l ∧ ps_out s' = ps_out s
  | Some l2 => ∃ owner others,
      hold_lock_nodes l2 = owner :: others ∧
      hold_lock_nodes (ps_lock s') = hold_lock_nodes l2 ∧
      lock (ps_lock s') = lock l2 ∧ request_queue (ps_lock s') = request_queue l2 ∧
      newest_node (ps_valid s') = owner ∧
      ps_out s' = ps_out s ++
        success_msgs (lock l2 =? EXCLUSIVE_LOCKED) (bool_decide (owner ∈ hold_lock_nodes l))
          owner others ++ next_round_msgs owner l2
  end.

Lemma transfer_mutex b l0 : transfer (mutex_set b l0) = mutex_set b <$> transfer l0.
Proof.
  unfold transfer. cbn [request_queue lock mutex_set LR_mutex hold_front hold_lock_nodes].
  destruct (request_queue l0) as [|r rest]; [done|].
  destruct (lock l0 =? 0); [by destruct (req_xlock r)|].
  unfold hold_front. cbn [hold_lock_nodes].
  by destruct ((lock l0 =? 1) && _).
Qed.

(** A release that hands nothing over leaves a waiting request waiting for
    somebody else. *)
Lemma no_transfer_busy n r q :
  lr_inv (release n l) → request_queue l = r :: q → transfer (release n l) = None →
  ∃ h, h ∈ list_remove n (hold_lock_nodes l) ∧ h ≠ req_node r.
Proof using.
  intros Hi Hr Ht. unfold transfer in Ht. cbn [request_queue release set_lock_word set_holders] in Ht.
  rewrite Hr in Ht. pose proof (inv_hold_nodup _ Hi) as Hnd.
  unfold hold_front in Ht. cbn [lock hold_lock_nodes release set_lock_word set_holders] in *.
  destruct (list_remove n (hold_lock_nodes l)) as [|h hs]; simpl in *.
  { by destruct (req_xlock r). }
  destruct hs as [|h' hs]; simpl in *.
  - destruct (Z.eqb_spec h (req_node r)); [done|]. exists h. split; [by left|done].
  - apply NoDup_cons in Hnd as [Hn _]. destruct (decide (h = req_node r)) as [->|].
    + exists h'. split; [by right; left|]. intros ->. apply Hn. by left.
    + exists h. split; [by left|done].
Qed.

(** The validity updates of a hand-over: every new owner valid, the first one
    the source. *)
Lemma mark_owners_spec owner others P v :
  valid_pages v P true → Forall valid_node (owner :: others) →
  wp (for_each (λ nid, setNodeStatusNoBlock nid true) (owner :: others) ;;
      SetValidAndUpdateNewest owner)
     (λ _ v', valid_state v' (λ m, P m ∨ m ∈ owner :: others) false ∧
              newest_node v' = owner) v.
Proof using.
  intros Hpg Hv. wp_step.
  apply (wp_for_each _ (λ rest v, Forall valid_node rest ∧ ∃ P', valid_pages v P' true ∧
    (∀ m, P' m ∨ m ∈ rest ↔ P m ∨ m ∈ owner :: others)) _ _ v).
  - split; [done|]. exists P. done.
  - intros x rest v1 [Hvr (P' & Hpg' & HP')]. apply Forall_cons in Hvr as [Hx Hvr].
    eapply wp_mono; [by apply setNodeStatusNoBlock_true_spec|].
    intros _ v2 [Hpg2 _]. split; [done|]. eexists. split; [exact Hpg2|].
    intros m. simpl. rewrite <- HP', elem_of_cons. tauto.
  - intros v1 [_ (P' & Hpg' & HP')]. apply Forall_cons in Hv as [Ho _].
    eapply wp_mono; [by apply SetValidAndUpdateNewest_spec|].
    intros _ v2 [Hst Hn]. split; [|done]. eapply valid_state_ext, Hst. intros m.
    rewrite <- HP', elem_of_nil. simpl.
    assert (m = owner → P' m) by (intros ->; destruct (proj2 (HP' owner)) as [|H%elem_of_nil];
      [by right; left|done|done]). tauto.
Qed.

Lemma for_each_zoom {A} (f : A → M GlobalValidInfo unit) xs s0 v' :
  for_each f xs (ps_valid s0) = Done (tt, v') →
  for_each (λ x, onValid (f x)) xs s0 = Done (tt, put_valid v' s0).
Proof using.
  revert s0. induction xs as [|x xs IH]; intros s0; simpl.
  - intros [= <-]. by destruct s0.
  - unfold mbind, M_bind, onValid, zoom. destruct (f x (ps_valid s0)) as [[[] v1]| |]; try done.
    intros E. apply (IH (put_valid v1 s0)) in E. exact E.
Qed.

Lemma mark_owners_on_page owner others P (k : M PageState unit) s0 Q :
  valid_pages (ps_valid s0) P true → Forall valid_node (owner :: others) →
  (∀ v', valid_state v' (λ m, P m ∨ m ∈ owner :: others) false → newest_node v' = owner →
     wp k Q (put_valid v' s0)) →
  wp (for_each (λ nid, onValid (setNodeStatusNoBlock nid true)) (owner :: others) ;;
      onValid (SetValidAndUpdateNewest owner) ;; k) Q s0.
Proof using.
  intros Hpg Hv HQ. pose proof (mark_owners_spec owner others P _ Hpg Hv) as Hm.
  apply wp_inv in Hm as ([] & v' & E & Hst & Hn).
  unfold mbind, M_bind in E.
  destruct (for_each _ _ (ps_valid s0)) as [[[] v1]| |] eqn:E1; try done.
  pose proof (for_each_zoom _ _ _ _ E1) as E2.
  apply wp_bind, (wp_done _ _ _ _ _ E2), wp_bind.
  apply (wp_done _ _ _ tt (put_valid v' s0)); [|by apply HQ].
  unfold onValid, zoom. cbn [ps_valid put_valid]. by rewrite E.
Qed.

(** The state reached once the lock has changed hands and the validity record
    has been rewritten, just before [TransferPending]. *)
Lemma after_transfer_inv l2 (v' : GlobalValidInfo) out :
  lr_inv l2 → lr_mutex l2 = true → is_pending l2 = false → hold_lock_nodes l2 ≠ [] →
  (∀ h, h ∈ hold_lock_nodes l2 → h ∉ queue_nodes l2) →
  (lock l2 ≠ EXCLUSIVE_LOCKED → ∀ r, r ∈ request_queue l2 → req_xlock r = true) →
  valid_state v' (λ m, m ∈ hold_lock_nodes l2) false →
  newest_node v' = hold_front l2 →
  let s2 := mkPS (set_src INVALID_NODE_ID l2) v' out (ps_immedia s) in
  wp (TransferPending self) (λ _ s', server_inv s' ∧
    hold_lock_nodes (ps_lock s') = hold_lock_nodes l2 ∧ lock (ps_lock s') = lock l2 ∧
    request_queue (ps_lock s') = request_queue l2 ∧ ps_valid s' = v' ∧
    ps_out s' = out ++ next_round_msgs (hold_front l2) l2) s2.
Proof using.
  intros Hi Hm Hp Hne Hdisj Hx Hv Hnew s2. eapply wp_mono.
  { apply TransferPending_spec; try done. by apply lr_inv_set_src. }
  intros _ s' ->. unfold next_round, s2, next_round_msgs. simpl.
  destruct (request_queue l2) as [|r q] eqn:Hr.
  - split; [|by rewrite app_nil_r]. split; [|done|done]. apply lr_quiet_idle; try done.
    by eapply lr_inv_ext, Hi.
  - assert (req_node r ∈ queue_nodes l2) as Hrq.
    { unfold queue_nodes. rewrite Hr. by left. }
    assert (req_node r ∉ hold_lock_nodes l2) as Hrh.
    { intros Hin. by apply (Hdisj _ Hin). }
    split.
    + apply round_inv; simpl; try done.
      * by eapply lr_inv_ext, Hi.
      * by exists r, q.
      * destruct (hold_lock_nodes l2) as [|h hs]; [done|]. exists h. split; [by left|].
        intros ->. apply Hrh. by left.
    + split_and!; [done..|]. unfold round_state, push_source, hold_front. simpl. f_equal. f_equal.
      destruct (lock l2 =? EXCLUSIVE_LOCKED); [done|].
      rewrite bool_decide_eq_false_2; [done|].
      destruct Hv as (_ & _ & HP). by rewrite HP.
Qed.

Lemma hand_over_spec n l2 owner others :
  lr_inv l2 → lr_mutex l2 = true → is_pending l2 = false → src_node_id l2 = owner →
  hold_lock_nodes l2 = owner :: others →
  (∀ h, h ∈ owner :: others → h ∉ queue_nodes l2) →
  (lock l2 ≠ EXCLUSIVE_LOCKED → ∀ r, r ∈ request_queue l2 → req_xlock r = true) →
  valid_state (ps_valid s) (λ m, m ∈ hold_lock_nodes l) false → valid_node n →
  (∀ m, m ∈ hold_lock_nodes l → m ≠ n → m ∈ owner :: others) →
  wp (hand_over self n) (λ _ s', server_inv s' ∧
    hold_lock_nodes (ps_lock s') = hold_lock_nodes l2 ∧ lock (ps_lock s') = lock l2 ∧
    request_queue (ps_lock s') = request_queue l2 ∧ newest_node (ps_valid s') = owner ∧
    ps_out s' = ps_out s ++
      success_msgs (lock l2 =? EXCLUSIVE_LOCKED) (bool_decide (owner ∈ hold_lock_nodes l))
        owner others ++ next_round_msgs owner l2) (put_lock l2 s).
Proof using.
  intros Hi2 Hm2 Hp2 Hs2 Hh2 Hdisj Hx Hv Hn Hsub.
  pose proof (inv_hold_nodup _ Hi2) as Hnd2. pose proof (inv_hold_valid _ Hi2) as Hv2.
  rewrite Hh2 in Hnd2, Hv2. unfold hand_over, get_hold_lock_nodes, Global_Lock.
  wp_step. apply wp_zoom. eapply wp_valid_lock; [exact Hv|]. intros Hvl.
  do 3 wp_step. cbn [ps_lock put_lock put_valid]. rewrite Hh2. apply wp_check; [done|]. wp_step.
  eapply wp_mono.
  { eapply SendComputenodeLockSuccess_spec; cbn [ps_lock ps_valid put_lock put_valid]; try done.
    by apply valid_state_pages. }
  intros _ s3 ->. wp_step. apply wp_zoom. cbn [ps_lock ps_valid put_lock put_valid put_msgs].
  eapply wp_mono; [apply ReleasePageNoBlock_spec; [exact Hvl|done]|].
  intros _ v3 [Hv3 _].
  eapply mark_owners_on_page; [apply valid_state_pages, Hv3|done|].
  intros v4 Hv4 Hn4. eapply wp_mono.
  { apply (after_transfer_inv l2 v4
      (ps_out s ++ success_msgs (lock l2 =? EXCLUSIVE_LOCKED)
         (bool_decide (has_page (mutex_set true (ps_valid s)) owner)) owner others));
      try done.
    - by rewrite Hh2.
    - by rewrite Hh2.
    - eapply valid_state_ext, Hv4. intros m. rewrite Hh2. split; [|by right].
      intros [[Hm1 Hm2']|]; [|done]. by apply Hsub.
    - unfold hold_front. by rewrite Hh2. }
  intros [] s' (Hinv' & Eh & El & Eq & Ev & Eo).
  split_and!; rewrite ?Ev; try done; [by rewrite Eh|].
  rewrite Eo, <- app_assoc. unfold hold_front. rewrite Hh2. do 3 f_equal.
  apply bool_decide_ext. destruct Hv as (_ & _ & HP). apply HP.
Qed.

Lemma LRPAnyUnLock_spec n :
  may_unlock n l →
  wp (LRPAnyUnLock self n) (λ _ s', server_inv s' ∧ unlock_result n s') s.
Proof using Hs.
  intros [Hn Hns]. pose proof Hs as [Hq Hf Hv]. pose proof (q_inv _ Hq) as Hi.
  pose proof (inv_hold_valid _ Hi) as Hhv. rewrite Forall_forall in Hhv.
  set (l1 := release n (mutex_set true l)).
  assert (lr_inv l1) as Hi1 by by apply lr_inv_release, lr_inv_mutex, Hi.
  assert (lock l1 ≠ EXCLUSIVE_LOCKED) as Hne1.
  { pose proof (inv_size_bound _ Hi1) as Hb. unfold hold_size in Hb. simpl in *. lia. }
  pose proof (transfer_mutex true (release n l)) as Htr.
  unfold LRPAnyUnLock, UnlockAny. do 2 wp_step. apply wp_mutexLock; [done|].
  eapply wp_mono; [by apply UnlockAnyNoBlock_spec; [apply lr_inv_mutex|]|].
  intros _ s1 [_ ->]. wp_step. eapply wp_mono.
  { apply TransferControl_spec; try done; simpl.
    - apply (q_pending _ Hq).
    - intros r q Hr. by apply (q_busy _ Hq) in Hr as [? _]. }
  change (ps_lock (put_lock (release n (ps_lock (put_lock (mutex_set true l) s)))
    (put_lock (mutex_set true l) s))) with (mutex_set true (release n l)).
  intros b s2. unfold unlock_result. rewrite Htr.
  destruct (transfer (release n l)) as [l2|] eqn:Ht; cbn [fmap option_fmap option_map];
    intros [-> ->].
  - destruct (transfer_inv (put_lock (release n l) s)) with (l' := l2)
      as (Hi2 & Hp2 & Hs2 & Hm2 & Hsub & r & rest & Hr & Hfr & Hrh & Hrq & Hdisj & Hx & Hsh);
      [by apply lr_inv_release|done|done|].
    destruct (q_busy _ Hq _ _ Hr) as [Hsrc _].
    destruct (hold_lock_nodes l2) as [|owner others] eqn:Hh2; [by apply elem_of_nil in Hrh|].
    unfold hold_front in Hfr. rewrite Hh2 in Hfr. simpl in Hfr.
    eapply wp_mono.
    { apply (hand_over_spec n (mutex_set true l2) owner others); try done.
      - by apply lr_inv_mutex.
      - simpl. rewrite Hs2. simpl. by rewrite Hsrc.
      - intros Hnx r' Hr'. destruct (req_xlock r) eqn:Hxr; [by destruct (Hx eq_refl)|].
        destruct (Hsh eq_refl) as [_ Hq2]. simpl in Hr'. rewrite Hq2 in Hr'.
        by apply elem_of_Lfilter in Hr' as [_ ?].
      - by apply Hhv.
      - intros m Hm1 Hm2'. apply Hsub. by apply elem_of_list_remove. }
    intros [] s' (Hinv' & Eh & El & Eq & Ev & Eo). split; [done|].
    exists owner, others. split_and!; try done.
    by rewrite <- Hh2.
  - wp_step. apply wp_zoom. eapply wp_mono; [apply ReleasePage_spec; [exact Hv|by apply Hhv]|].
    intros _ v' [Hv' _]. apply wp_mutexUnlock; [done|]. simpl.
    split; [|split_and!; done]. split; [|done|]; simpl.
    + split; simpl.
      * by apply (lr_inv_mutex false l1).
      * apply (q_pending _ Hq).
      * apply (q_idle _ Hq).
      * intros r q Hr. destruct (q_busy _ Hq _ _ Hr) as [? _]. split; [done|].
        eapply no_transfer_busy; try done. by apply lr_inv_release.
    + eapply valid_state_ext, Hv'. intros m. by rewrite elem_of_list_remove.
Qed.
End release.

(** ** Evicting *)

Section evict.
Variable s : PageState.
Abbreviation l := (ps_lock s).
Hypothesis Hs : server_inv s.

(** A node that is not a holder, or a page with a round under way, is refused
    and nothing changes. *)
Lemma BufferReleaseUnlock_refused n lsn :
  n ∉ hold_lock_nodes l ∨ request_queue l ≠ [] →
  wp (BufferReleaseUnlock n lsn) (λ b s', b = false ∧ s' = s) s.
Proof using Hs.
  intros Hno. destruct Hs as [Hq Hf Hv]. unfold BufferReleaseUnlock, CheckIsHoldNoBlock.
  assert (put_lock (mutex_set false (mutex_set true l)) s = s) as Hsame.
  { destruct s as [[] v o i]; simpl in *. by subst. }
  wp_step. apply wp_mutexLock; [done|]. do 3 wp_step; bool_simpl.
  - wp_step. apply wp_mutexUnlock; [done|]. wp_step. by split.
  - apply memZ_true in H. destruct Hno as [?|Hne]; [done|]. unfold getIsPendingNoBlock.
    do 2 wp_step.
    assert (is_pending l = true) as Hp.
    { rewrite (q_pending _ Hq). unfold queue_empty. by destruct (request_queue l). }
    wp_step; [|simpl in *; congruence].
    wp_step. apply wp_mutexUnlock; [done|]. wp_step. by split.
Qed.

Definition evicted (n lsn : Z) (v' : GlobalValidInfo) : PageState :=
  put_valid v' (put_lock (release n (set_lsn lsn l)) s).

(** The first part of an agreed eviction, up to the validity record. *)
Lemma run_evict_prefix n lsn :
  n ∈ hold_lock_nodes l → request_queue l = [] →
  let s1 := put_lock (set_lsn lsn (mutex_set true l)) s in
  BufferReleaseUnlock n lsn s =
    (onValid (setNodeStatus n false) ;;
     UnlockAnyNoBlock n ;;
     e ← is_request_queue_empty ;
     check 446 e ;; mutexUnlock ;; mret true) s1.
Proof using Hs.
  intros Hn He s1. pose proof Hs as [Hq Hf Hv]. pose proof Hv as (Hwf & Hm & HP).
  destruct (quiet_not_pending _ Hq He) as [Hp _].
  pose proof (inv_hold_valid _ (q_inv _ Hq)) as Hhv. rewrite Forall_forall in Hhv.
  unfold BufferReleaseUnlock.
  rewrite (run_bind mutexLock _ s tt (put_lock (mutex_set true l) s)).
  2: { unfold mutexLock, onLock, zoom, mutex_lock. cbn [mutex_held LR_mutex]. by rewrite Hf. }
  rewrite (run_bind (CheckIsHoldNoBlock n) _ _ true (put_lock (mutex_set true l) s)).
  2: { unfold CheckIsHoldNoBlock, gets. cbn [ps_lock put_lock hold_lock_nodes mutex_set LR_mutex].
       by rewrite (proj2 (memZ_true _ _) Hn). }
  cbn [negb]. rewrite (run_bind getIsPendingNoBlock _ _ false (put_lock (mutex_set true l) s)).
  2: { unfold getIsPendingNoBlock, gets. cbn [ps_lock put_lock is_pending mutex_set LR_mutex].
       by rewrite Hp. }
  cbn iota. rewrite (run_bind (setLsnIDNoBlock lsn) _ _ tt s1) by done.
  rewrite (run_bind (onValid (IsValid n)) _ s1 true s1).
  2: { destruct (wp_inv _ _ _ (IsValid_spec _ _ n Hv (Hhv _ Hn))) as (r & v1 & E & -> & Hr).
       rewrite bool_decide_eq_true_2 in Hr by by apply HP. subst r.
       unfold onValid, zoom. cbn [ps_valid put_lock s1]. by rewrite E. }
  by rewrite (run_bind (check 438 true) _ _ tt s1).
Qed.

Lemma BufferReleaseUnlock_crash n lsn :
  n ∈ hold_lock_nodes l → request_queue l = [] →
  newest_node (ps_valid s) = n → (∃ m, m ∈ hold_lock_nodes l ∧ m ≠ n) →
  BufferReleaseUnlock n lsn s = Crash UnlockNotHeld.
Proof using Hs.
  intros Hn He Hnew Hm. rewrite run_evict_prefix by done. apply run_bind_crash.
  pose proof Hs as [Hq Hf Hv]. pose proof (inv_hold_valid _ (q_inv _ Hq)) as Hhv.
  rewrite Forall_forall in Hhv. unfold onValid, zoom. cbn [ps_valid put_lock].
  rewrite (setNodeStatus_crash _ _ n Hv); [done|by apply Hhv|done|done].
Qed.

Lemma BufferReleaseUnlock_agreed n lsn :
  n ∈ hold_lock_nodes l → request_queue l = [] →
  (newest_node (ps_valid s) = n → ∀ m, m ∈ hold_lock_nodes l → m = n) →
  wp (BufferReleaseUnlock n lsn) (λ b s', b = true ∧ server_inv s' ∧
    ∃ v', s' = evicted n lsn v') s.
Proof using Hs.
  intros Hn He Hlast. unfold wp. rewrite run_evict_prefix by done.
  match goal with |- match ?m ?s1 with _ => _ end => change (wp m (λ b s', b = true ∧
    server_inv s' ∧ ∃ v', s' = evicted n lsn v') s1) end.
  pose proof Hs as [Hq Hf Hv]. pose proof (inv_hold_valid _ (q_inv _ Hq)) as Hhv.
  rewrite Forall_forall in Hhv. destruct (quiet_not_pending _ Hq He) as [Hp Hsrc].
  pose proof (q_inv _ Hq) as Hi. wp_step. apply wp_zoom. cbn [ps_valid put_lock].
  eapply wp_mono; [by apply (setNodeStatus_clear _ _ _ Hv); [apply Hhv|]|].
  intros [] v' Hv'. wp_step. eapply wp_mono.
  { apply UnlockAnyNoBlock_spec; [by apply lr_inv_set_lsn, lr_inv_mutex|done]. }
  intros b s' [_ ->]. unfold is_request_queue_empty. do 3 wp_step.
  apply wp_check; [by apply queue_empty_true|]. wp_step. apply wp_mutexUnlock; [done|].
  wp_step. split; [done|]. split; [|].
  2: { exists v'. unfold evicted, put_lock, put_valid. cbn [ps_lock ps_valid ps_out ps_immedia].
       f_equal. by apply lr_ext. }
  split; [|done|]; simpl.
  - apply lr_quiet_idle; try done.
    by apply (lr_inv_ext (release n l)); [..|by apply lr_inv_release].
  - eapply valid_state_ext, Hv'. intros m. by rewrite elem_of_list_remove.
Qed.
End evict.
