(* ===== verification/PageProtocol.v ===== *)
(** The ownership protocol of one page, as the compute nodes drive it: any
    sequence of lock, unlock and eviction calls ([remote_page_table_rpc.h]) from
    the state in which the lock table was built.  Here are the guarantees the
    compute nodes rely on: coherence, absence of failures, fairness. *)

From S2P Require Import Prelude Common ValidInfo GlobalLRLock PageServer.

Section protocol.
Variable self : node_id_t.

(** One RPC, under the contract its caller keeps: a node only asks for what it
    does not hold and has not asked for; it gives up what it holds; it evicts
    a page only when none of its requests is waiting. *)
Inductive server_step (s : PageState) : PageState → Prop :=
  | step_lock_x n t fg r s' :
      may_lock_exclusive n (ps_lock s) →
      LRPXLock self n t fg s = Done (r, s') → server_step s s'
  | step_lock_s n t fg r s' :
      may_lock_shared n (ps_lock s) →
      LRPSLock self n t fg s = Done (r, s') → server_step s s'
  | step_unlock n s' :
      may_unlock n (ps_lock s) →
      LRPAnyUnLock self n s = Done (tt, s') → server_step s s'
  | step_evict n lsn b s' :
      n ∉ queue_nodes (ps_lock s) →
      BufferReleaseUnlock n lsn s = Done (b, s') → server_step s s'.

Definition reachable (pid garbage : Z) (s : PageState) : Prop :=
  star server_step (initial_page pid garbage) s.

(** When an eviction is agreed to, and when it hits the double unlock. *)
Definition evict_refused (n : Z) (s : PageState) : Prop :=
  n ∉ hold_lock_nodes (ps_lock s) ∨ request_queue (ps_lock s) ≠ [].
Definition evict_crashes (n : Z) (s : PageState) : Prop :=
  newest_node (ps_valid s) = n ∧ ∃ m, m ∈ hold_lock_nodes (ps_lock s) ∧ m ≠ n.

Lemma evict_cases n s :
  evict_refused n s ∨
  (n ∈ hold_lock_nodes (ps_lock s) ∧ request_queue (ps_lock s) = [] ∧
    (evict_crashes n s ∨
     (newest_node (ps_valid s) = n → ∀ m, m ∈ hold_lock_nodes (ps_lock s) → m = n))).
Proof using.
  unfold evict_refused, evict_crashes. set (hs := hold_lock_nodes (ps_lock s)).
  destruct (decide (n ∈ hs)); [|by left; left].
  destruct (decide (request_queue (ps_lock s) = [])) as [|]; [|by left; right].
  right. split_and!; [done..|].
  destruct (decide (Exists (λ m, m ≠ n) hs)) as [He|He].
  - apply Exists_exists in He. destruct (decide (newest_node (ps_valid s) = n)); [by left|].
    by right.
  - right. intros _ m Hm. destruct (decide (m = n)) as [|Hne]; [done|].
    destruct He. apply Exists_exists. by exists m.
Qed.

Lemma server_step_inv s s' : server_inv s → server_step s s' → server_inv s'.
Proof using.
  intros Hs [n t fg r s1 Hc E|n t fg r s1 Hc E|n s1 Hc E|n lsn b s1 Hc E].
  - apply (wp_run _ _ _ _ _ (LRPXLock_spec self s Hs n t fg Hc) E).
  - apply (wp_run _ _ _ _ _ (LRPSLock_spec self s Hs n t fg Hc) E).
  - apply (wp_run _ _ _ _ _ (LRPAnyUnLock_spec self s Hs n Hc) E).
  - destruct (evict_cases n s) as [Hr|(Hn & He & [[Hnew Hm]|Hok])].
    + by destruct (wp_run _ _ _ _ _ (BufferReleaseUnlock_refused s Hs n lsn Hr) E) as [_ ->].
    + by rewrite (BufferReleaseUnlock_crash s Hs n lsn) in E.
    + apply (wp_run _ _ _ _ _ (BufferReleaseUnlock_agreed s Hs n lsn Hn He Hok) E).
Qed.

Lemma reachable_inv pid garbage s : reachable pid garbage s → server_inv s.
Proof using.
  apply (star_invariant _ server_inv); [apply initial_page_inv|].
  eauto using server_step_inv.
Qed.

(** ** Coherence *)

(** Single writer or many readers, and the validity record agrees. *)
Record coherent (s : PageState) : Prop := {
  coh_writer : lock (ps_lock s) = EXCLUSIVE_LOCKED →
    ∃ h, hold_lock_nodes (ps_lock s) = [h];
  coh_readers : lock (ps_lock s) ≠ EXCLUSIVE_LOCKED →
    lock (ps_lock s) = Z.of_nat (length (hold_lock_nodes (ps_lock s)));
  coh_distinct : NoDup (hold_lock_nodes (ps_lock s));
  coh_copies : ∀ n, has_page (ps_valid s) n ↔ n ∈ hold_lock_nodes (ps_lock s);
  coh_newest : (newest_node (ps_valid s) = -1 ∧ hold_lock_nodes (ps_lock s) = []) ∨
    newest_node (ps_valid s) ∈ hold_lock_nodes (ps_lock s);
  coh_free : lr_mutex (ps_lock s) = false ∧ valid_mutex (ps_valid s) = false
}.

Lemma server_inv_coherent s : server_inv s → coherent s.
Proof using.
  intros Hs. pose proof Hs as [Hq Hf (Hwf & Hm & HP)]. pose proof (q_inv _ Hq) as Hi. split.
  - by apply inv_exclusive.
  - by apply inv_not_exclusive.
  - apply Hi.
  - done.
  - destruct (newest_holder s Hs) as [?|(_ & ? & _)]; [by left|by right].
  - done.
Qed.

(** ** The pending round *)

(** The last thing the server said is the current round: it was addressed to
    every node that still holds the page, it names at most one pusher, and it
    names one unless the next owner already has a copy. *)
Definition round_told (s : PageState) : Prop := ∀ r q,
  request_queue (ps_lock s) = r :: q → ∃ pre src xp nodes,
    ps_out s = pre ++ pending_round self (req_node r) src xp nodes ∧
    NoDup nodes ∧ (∀ h, h ∈ hold_lock_nodes (ps_lock s) → h ∈ nodes) ∧
    (req_node r ∈ nodes → src = -1) ∧
    (req_node r ∉ nodes → src ∈ nodes).

(** Who pushes in the round a deferred request opens. *)
Lemma push_source_cases s n x :
  server_inv s → (n ∈ hold_lock_nodes (ps_lock s) → lock (ps_lock s) ≠ EXCLUSIVE_LOCKED) →
  hold_lock_nodes (ps_lock s) ≠ [] → x = (lock (ps_lock s) =? EXCLUSIVE_LOCKED) →
  (n ∈ hold_lock_nodes (ps_lock s) → push_source s n x = -1) ∧
  (n ∉ hold_lock_nodes (ps_lock s) → push_source s n x ∈ hold_lock_nodes (ps_lock s)).
Proof using.
  intros Hs Hx Hne ->. pose proof Hs as [Hq Hf (Hwf & Hm & HP)].
  unfold push_source, hold_front. destruct (Z.eqb_spec (lock (ps_lock s)) EXCLUSIVE_LOCKED) as [E|E].
  - destruct (inv_exclusive _ (q_inv _ Hq) E) as [h Hh]. split; [by intros ?%Hx|].
    intros _. rewrite Hh. by left.
  - split; intros Hn.
    + by rewrite bool_decide_eq_true_2 by by apply HP.
    + rewrite bool_decide_eq_false_2 by by rewrite HP.
      by destruct (newest_holder s Hs) as [[_ ?]|(_ & ? & _)].
Qed.

Lemma deferred_told s req resp s' :
  server_inv s → round_told s → lock (ps_lock s) ≠ 0 →
  (req_node req ∈ hold_lock_nodes (ps_lock s) → lock (ps_lock s) ≠ EXCLUSIVE_LOCKED) →
  deferred self s req resp s' → round_told s'.
Proof using.
  intros Hs Ht H0 Hc (-> & Eq & Eh & _ & _ & Eo) r q Hr. rewrite Eh, Eo.
  rewrite Eq in Hr. destruct (request_queue (ps_lock s)) as [|r0 q0] eqn:Eqs.
  - simplify_eq/=. unfold queue_empty. rewrite Eqs.
    pose proof (q_inv _ (sv_quiet _ Hs)) as Hi.
    assert (hold_lock_nodes (ps_lock s) ≠ []) as Hne.
    { intros E. destruct (inv_word _ Hi) as [[_ Hw]|Hw]; unfold hold_size in Hw;
        rewrite E in Hw; done. }
    destruct (push_source_cases s (req_node r) _ Hs Hc Hne eq_refl) as [Hp1 Hp2].
    eexists _, _, _, _. split; [reflexivity|]. split; [apply Hi|]. done.
  - simplify_eq/=. destruct (Ht r q0 Eqs) as (pre & src & xp & nodes & Eout & Hrest).
    exists pre, src, xp, nodes. unfold queue_empty. rewrite Eqs, app_nil_r. done.
Qed.

Lemma unlock_told s n s' :
  server_inv s → round_told s → may_unlock n (ps_lock s) → server_inv s' →
  unlock_result self s n s' → round_told s'.
Proof using.
  intros Hs Ht [Hn _] Hs' Hres r q Hr. unfold unlock_result in Hres.
  destruct (transfer (release n (ps_lock s))) as [l2|] eqn:Et.
  - destruct Hres as (owner & others & Eh2 & Eh & El & Eq & _ & Eo).
    pose proof (q_inv _ (sv_quiet _ Hs)) as Hi.
    assert (lock (release n (ps_lock s)) ≠ EXCLUSIVE_LOCKED) as Hne.
    { pose proof (inv_size_bound _ (lr_inv_release n _ Hi)) as Hb.
      unfold hold_size in Hb. simpl in *. lia. }
    destruct (transfer_inv (put_lock (release n (ps_lock s)) s)) with (l' := l2)
      as (Hi2 & _ & _ & _ & _ & _ & _ & _ & _ & _ & _ & Hdisj & _);
      [by apply lr_inv_release|done|done|].
    rewrite Eh, Eo. rewrite Eq in Hr. unfold next_round_msgs. rewrite Hr.
    exists (ps_out s ++ success_msgs (lock l2 =? EXCLUSIVE_LOCKED)
      (bool_decide (owner ∈ hold_lock_nodes (ps_lock s))) owner others).
    eexists _, _, _. split; [by rewrite <- app_assoc|]. split; [apply Hi2|]. split; [done|].
    split; [|intros _; rewrite Eh2; by left].
    intros Hh. destruct (Hdisj _ Hh). unfold queue_nodes. rewrite Hr. by left.
  - destruct Hres as (Eh & _ & Eq & _ & Eo). rewrite Eq in Hr.
    destruct (Ht r q Hr) as (pre & src & xp & nodes & Eout & Hnd & Hsub & Hrest).
    exists pre, src, xp, nodes. rewrite Eo, Eh. split_and!; try done.
    + intros h [Hh _]%elem_of_list_remove. by apply Hsub.
    + apply Hrest.
    + apply Hrest.
Qed.

Lemma server_step_told s s' :
  server_inv s → round_told s → server_step s s' → round_told s'.
Proof using.
  intros Hs Ht Hstep. pose proof (server_step_inv _ _ Hs Hstep) as Hs'.
  destruct Hstep as [n t fg r s1 Hc E|n t fg r s1 Hc E|n s1 Hc E|n lsn b s1 Hc E].
  - destruct (wp_run _ _ _ _ _ (LRPXLock_spec self s Hs n t fg Hc) E)
      as [_ [[_ (_ & _ & _ & _ & _ & Eq & _)]|(H0 & _ & Hd)]].
    + intros ?? Hr. by rewrite Eq in Hr.
    + eapply deferred_told, Hd; [done..|]. apply Hc.
  - destruct (wp_run _ _ _ _ _ (LRPSLock_spec self s Hs n t fg Hc) E)
      as [_ [(_ & _ & _ & _ & _ & _ & _ & Eq & _)|[Hb Hd]]].
    + intros ?? Hr. by rewrite Eq in Hr.
    + eapply deferred_told, Hd; [done..| |by intros ?%Hc].
      destruct Hb as [->|Hb]; [done|]. intros E0.
      destruct (request_queue (ps_lock s)) as [|r0 q0] eqn:Er; [done|].
      destruct (q_busy _ (sv_quiet _ Hs) _ _ Er) as (_ & h & Hh & _).
      by rewrite (inv_unlocked _ (q_inv _ (sv_quiet _ Hs)) E0), elem_of_nil in Hh.
  - destruct (wp_run _ _ _ _ _ (LRPAnyUnLock_spec self s Hs n Hc) E) as [_ Hres].
    by apply (unlock_told s n).
  - destruct (evict_cases n s) as [Hr|(Hn & He & [[Hnew Hm]|Hok])].
    + by destruct (wp_run _ _ _ _ _ (BufferReleaseUnlock_refused s Hs n lsn Hr) E) as [_ ->].
    + by rewrite (BufferReleaseUnlock_crash s Hs n lsn) in E.
    + destruct (wp_run _ _ _ _ _ (BufferReleaseUnlock_agreed s Hs n lsn Hn He Hok) E)
        as (_ & _ & v' & ->). intros r q Hr. simpl in Hr. by rewrite He in Hr.
Qed.

(** ** Hand-over *)

(** The request [r], ahead of [q] in the queue, has been granted: alone if it
    is exclusive, with every shared request of the queue if it is shared. *)
Definition granted (r : LRRequest) (q : list LRRequest) (s : PageState) : Prop :=
  if req_xlock r then
    lock (ps_lock s) = EXCLUSIVE_LOCKED ∧ hold_lock_nodes (ps_lock s) = [req_node r] ∧
    request_queue (ps_lock s) = q ∧ newest_node (ps_valid s) = req_node r
  else
    lock (ps_lock s) ≠ EXCLUSIVE_LOCKED ∧
    hold_lock_nodes (ps_lock s) = req_node r :: (req_node <$> List.filter is_s q) ∧
    request_queue (ps_lock s) = List.filter is_x q ∧ newest_node (ps_valid s) = req_node r.

(** The nodes the head request still waits for. *)
Definition waits_for (r : LRRequest) (s : PageState) : list Z :=
  list_remove (req_node r) (hold_lock_nodes (ps_lock s)).

Lemma list_remove_comm a b l : list_remove a (list_remove b l) = list_remove b (list_remove a l).
Proof using.
  unfold list_remove. induction l as [|x l IH]; [done|]. simpl.
  destruct (x =? a) eqn:Ea, (x =? b) eqn:Eb; simpl; rewrite ?Ea, ?Eb; simpl; by rewrite ?IH.
Qed.

Lemma unlock_not_last s n r q s' :
  server_inv s → request_queue (ps_lock s) = r :: q →
  list_remove n (waits_for r s) ≠ [] → unlock_result self s n s' →
  request_queue (ps_lock s') = r :: q ∧ waits_for r s' = list_remove n (waits_for r s).
Proof using.
  intros Hs Hr Hne Hres. unfold waits_for in *. rewrite list_remove_comm in Hne |- *.
  assert (transfer (release n (ps_lock s)) = None) as Et.
  { unfold transfer, hold_front.
    cbn [request_queue lock hold_lock_nodes release set_lock_word set_holders]. rewrite Hr.
    destruct (list_remove n (hold_lock_nodes (ps_lock s))) as [|h [|h' hs]]; simpl in *; [done| |].
    - unfold list_remove in Hne. simpl in Hne. by destruct (h =? req_node r).
    - by destruct (Pos.of_succ_nat (length hs)). }
  unfold unlock_result in Hres. rewrite Et in Hres.
  destruct Hres as (-> & _ & -> & _). done.
Qed.

Lemma unlock_last s n r q s' :
  server_inv s → request_queue (ps_lock s) = r :: q → may_unlock n (ps_lock s) →
  list_remove n (waits_for r s) = [] → unlock_result self s n s' → granted r q s'.
Proof using.
  intros Hs Hr [Hn _] Hnil Hres. unfold waits_for in Hnil. rewrite list_remove_comm in Hnil.
  pose proof (q_inv _ (sv_quiet _ Hs)) as Hi.
  set (rem := list_remove n (hold_lock_nodes (ps_lock s))) in *.
  assert (NoDup rem) as Hnd by (apply NoDup_list_remove, Hi).
  assert (rem = [] ∨ rem = [req_node r]) as Hrem.
  { assert (∀ h, h ∈ rem → h = req_node r) as Hall.
    { intros h Hh. destruct (decide (h = req_node r)); [done|].
      assert (h ∈ list_remove (req_node r) rem) as Hin by by apply elem_of_list_remove.
      rewrite Hnil in Hin. by apply elem_of_nil in Hin. }
    destruct rem as [|h [|h' hs]]; [by left|right; f_equal; apply Hall; by left|exfalso].
    apply NoDup_cons in Hnd as [Hh _]. apply Hh.
    rewrite (Hall h) by by left. rewrite <- (Hall h') by (right; by left). by left. }
  unfold unlock_result, transfer, hold_front in Hres.
  cbn [request_queue lock hold_lock_nodes release set_lock_word set_holders] in Hres.
  fold rem in Hres. rewrite Hr in Hres. unfold granted. destruct Hrem as [Hrem|Hrem];
    rewrite Hrem in Hres; simpl in Hres.
  - destruct (req_xlock r) eqn:Hx.
    + destruct Hres as (owner & others & Eh & Eh' & El & Eq & Ev & _). simpl in *. simplify_eq/=.
      rewrite Hrem in *. simpl in *. simplify_eq/=. done.
    + destruct Hres as (owner & others & Eh & Eh' & El & Eq & Ev & _). simpl in *. simplify_eq/=.
      split_and!; try done. rewrite El.
      pose proof (queue_bound _ Hi) as Hb. rewrite Hr in Hb. simpl in Hb.
      pose proof (List.filter_length_le is_s q).
      unfold EXCLUSIVE_LOCKED, MaxComputeNodeCount in *. lia.
  - rewrite Z.eqb_refl in Hres.
    assert (req_node r ∈ hold_lock_nodes (ps_lock s)) as Hrh.
    { apply (elem_of_list_remove n). fold rem. rewrite Hrem. by left. }
    destruct (inv_upgrade _ Hi r) as [Hx _]; [rewrite Hr; by left|done|]. rewrite Hx.
    destruct Hres as (owner & others & Eh & Eh' & El & Eq & Ev & _). simpl in *.
    fold rem in Eh, Eh'. rewrite Hrem in Eh, Eh'. simplify_eq/=. done.
Qed.

(** Once every other holder has released the page, in whatever order, the
    head of the queue has it. *)
Lemma releases_grant_head ks s r q :
  server_inv s → request_queue (ps_lock s) = r :: q → ks ≡ₚ waits_for r s →
  wp (for_each (LRPAnyUnLock self) ks) (λ _ s', server_inv s' ∧ granted r q s') s.
Proof using.
  revert s. induction ks as [|n ks IH]; intros s Hs Hr Hks.
  - destruct (q_busy _ (sv_quiet _ Hs) _ _ Hr) as (_ & h & Hh & Hne).
    assert (h ∈ waits_for r s) as Hin by by apply elem_of_list_remove.
    rewrite <- Hks in Hin. by apply elem_of_nil in Hin.
  - assert (n ∈ waits_for r s) as Hin by (rewrite <- Hks; by left).
    apply elem_of_list_remove in Hin as [Hn Hne].
    assert (may_unlock n (ps_lock s)) as Hmay.
    { split; [done|]. by destruct (q_busy _ (sv_quiet _ Hs) _ _ Hr) as [-> _]. }
    assert (NoDup (n :: ks)) as Hnd.
    { rewrite Hks. apply NoDup_list_remove. apply (q_inv _ (sv_quiet _ Hs)). }
    apply NoDup_cons in Hnd as [Hnk Hnd].
    assert (list_remove n (waits_for r s) ≡ₚ ks) as Hrem.
    { apply NoDup_Permutation; [apply NoDup_list_remove; rewrite <- Hks; by apply NoDup_cons|done|].
      intros x. rewrite elem_of_list_remove, <- Hks, elem_of_cons.
      split; [naive_solver|]. intros Hx. split; [by right|]. by intros ->. }
    simpl. wp_step. eapply wp_mono; [by apply LRPAnyUnLock_spec|].
    intros _ s1 [Hs1 Hres]. destruct ks as [|k ks].
    + apply wp_ret. split; [done|]. apply (unlock_last s n); try done.
      by apply Permutation_nil_r.
    + destruct (unlock_not_last s n r q s1 Hs Hr) as [Hr1 Hw1]; try done.
      { intros E. rewrite E in Hrem. by apply Permutation_nil_cons in Hrem. }
      apply IH; [done|done|]. by rewrite Hw1, Hrem.
Qed.
End protocol.

(** ** Properties *)

#[export] Instance may_lock_exclusive_dec n l : Decision (may_lock_exclusive n l).
Proof. unfold may_lock_exclusive. apply _. Defined.
#[export] Instance may_lock_shared_dec n l : Decision (may_lock_shared n l).
Proof. unfold may_lock_shared. apply _. Defined.
#[export] Instance may_unlock_dec n l : Decision (may_unlock n l).
Proof. unfold may_unlock. apply _. Defined.

(** A concrete history on the node 0's table: 1 takes the page exclusively, 2
    and 4 want to read it, 3 wants to write it. *)
Definition demo_lock1 : M PageState LockResponse := LRPXLock 0 1 5 true.
Definition final {A} (m : M PageState A) (s : PageState) : PageState :=
  match m s with Done (_, s') => s' | _ => s end.

Definition demo1 : PageState := Eval vm_compute in final demo_lock1 (initial_page 7 (-9)).
Definition demo2 : PageState := Eval vm_compute in final (LRPSLock 0 2 5 true) demo1.
Definition demo3 : PageState := Eval vm_compute in final (LRPXLock 0 3 5 true) demo2.
Definition demo4 : PageState := Eval vm_compute in final (LRPSLock 0 4 5 true) demo3.
(** ... and, in another history, 1 and 2 read the page together. *)
Definition demo5 : PageState := Eval vm_compute in final (LRPSLock 0 1 5 true) (initial_page 7 (-9)).
Definition demo6 : PageState := Eval vm_compute in final (LRPSLock 0 2 5 true) demo5.

Lemma reach_x self pid g s n t fg r s' :
  reachable self pid g s → may_lock_exclusive n (ps_lock s) →
  LRPXLock self n t fg s = Done (r, s') → reachable self pid g s'.
Proof. intros Hr Hc E. eapply star_snoc; [exact Hr|]. by eapply step_lock_x. Qed.

Lemma reach_s self pid g s n t fg r s' :
  reachable self pid g s → may_lock_shared n (ps_lock s) →
  LRPSLock self n t fg s = Done (r, s') → reachable self pid g s'.
Proof. intros Hr Hc E. eapply star_snoc; [exact Hr|]. by eapply step_lock_s. Qed.

Ltac decide_now := apply (bool_decide_unpack _); vm_compute; exact I.

Lemma demo1_reachable : reachable 0 7 (-9) demo1.
Proof. eapply (reach_x _ _ _ _ 1 5 true); [apply star_refl|decide_now|vm_compute; reflexivity]. Qed.
Lemma demo2_reachable : reachable 0 7 (-9) demo2.
Proof. eapply (reach_s _ _ _ _ 2 5 true); [apply demo1_reachable|decide_now|vm_compute; reflexivity]. Qed.
Lemma demo3_reachable : reachable 0 7 (-9) demo3.
Proof. eapply (reach_x _ _ _ _ 3 5 true); [apply demo2_reachable|decide_now|vm_compute; reflexivity]. Qed.
Lemma demo4_reachable : reachable 0 7 (-9) demo4.
Proof. eapply (reach_s _ _ _ _ 4 5 true); [apply demo3_reachable|decide_now|vm_compute; reflexivity]. Qed.
Lemma demo5_reachable : reachable 0 7 (-9) demo5.
Proof. eapply (reach_s _ _ _ _ 1 5 true); [apply star_refl|decide_now|vm_compute; reflexivity]. Qed.
Lemma demo6_reachable : reachable 0 7 (-9) demo6.
Proof. eapply (reach_s _ _ _ _ 2 5 true); [apply demo5_reachable|decide_now|vm_compute; reflexivity]. Qed.

(** C1: coherence of a page. In every state the compute nodes can drive the
    page to, an exclusive lock has exactly one holder, a shared one as many
    holders as its word says, the nodes with a valid copy are exactly the
    holders, the source of the newest copy is one of them ([-1] exactly when
    there is none), and both mutexes are free. *)
Theorem page_coherence self pid garbage s :
  reachable self pid garbage s → coherent s.
Proof. intros Hr. by eapply server_inv_coherent, reachable_inv. Qed.

Lemma page_coherence_witness :
  lock (ps_lock demo4) = EXCLUSIVE_LOCKED ∧ ∃ h, hold_lock_nodes (ps_lock demo4) = [h].
Proof.
  split; [reflexivity|].
  exact (coh_writer _ (page_coherence 0 7 (-9) demo4 demo4_reachable) eq_refl).
Defined.

(** C26: no handler fails. In every reachable state, every lock or unlock call
    its caller is entitled to make returns: none of the assertions of the lock,
    the validity record and the handlers fires, no mutex is unlocked twice and
    nothing blocks. The same holds of an eviction, except when the evicting
    node is the recorded source and another node still holds the page. *)
Theorem page_calls_never_fail self pid garbage s :
  reachable self pid garbage s →
  (∀ n t fg, may_lock_exclusive n (ps_lock s) → ∃ r s', LRPXLock self n t fg s = Done (r, s')) ∧
  (∀ n t fg, may_lock_shared n (ps_lock s) → ∃ r s', LRPSLock self n t fg s = Done (r, s')) ∧
  (∀ n, may_unlock n (ps_lock s) → ∃ s', LRPAnyUnLock self n s = Done (tt, s')) ∧
  (∀ n lsn, evict_refused n s ∨ ¬ evict_crashes n s →
     ∃ b s', BufferReleaseUnlock n lsn s = Done (b, s')).
Proof.
  intros Hs%reachable_inv. split_and!.
  - intros n t fg Hc. destruct (wp_inv _ _ _ (LRPXLock_spec self s Hs n t fg Hc)) as (r & s' & ? & _).
    eauto.
  - intros n t fg Hc. destruct (wp_inv _ _ _ (LRPSLock_spec self s Hs n t fg Hc)) as (r & s' & ? & _).
    eauto.
  - intros n Hc. destruct (wp_inv _ _ _ (LRPAnyUnLock_spec self s Hs n Hc)) as ([] & s' & ? & _).
    eauto.
  - intros n lsn Hok. destruct (evict_cases n s) as [Hr|(Hn & He & [Hcr|Hlast])].
    + destruct (wp_inv _ _ _ (BufferReleaseUnlock_refused s Hs n lsn Hr)) as (b & s' & ? & _). eauto.
    + destruct Hok as [[?|?]|?]; done.
    + destruct (wp_inv _ _ _ (BufferReleaseUnlock_agreed s Hs n lsn Hn He Hlast))
        as (b & s' & ? & _). eauto.
Qed.

Lemma page_calls_never_fail_witness :
  may_unlock 1 (ps_lock demo4) ∧ ∃ s', LRPAnyUnLock 0 1 demo4 = Done (tt, s').
Proof.
  assert (may_unlock 1 (ps_lock demo4)) as H by decide_now. split; [exact H|].
  exact (proj1 (proj2 (proj2 (page_calls_never_fail 0 7 (-9) demo4 demo4_reachable))) 1 H).
Defined.

(** what an exclusive request gets. It is granted at once when the page is
    free or the requester is its only (shared) holder and nobody waits: the
    requester becomes the exclusive holder, and is told to read from storage
    exactly when nobody held the page. Otherwise it is queued behind the
    others, nothing changes hands, and if it is first in the queue the round of
    [Pending] messages is sent. *)
Theorem page_exclusive_request self pid garbage s n t fg :
  reachable self pid garbage s → may_lock_exclusive n (ps_lock s) →
  wp (LRPXLock self n t fg) (λ r s',
    if bool_decide (lock (ps_lock s) = 0 ∨
         (hold_lock_nodes (ps_lock s) = [n] ∧ request_queue (ps_lock s) = []))
    then x_granted s n r s'
    else deferred self s (mkReq n t true) r s') s.
Proof.
  intros Hs%reachable_inv Hc. eapply wp_mono; [by apply LRPXLock_spec|].
  intros r s' [_ [[Hg Hx]|(H0 & Hh & Hd)]].
  - by rewrite bool_decide_eq_true_2.
  - rewrite bool_decide_eq_false_2; [done|]. intros [?|[??]]; [done|]. by apply Hh.
Qed.

Lemma page_exclusive_request_witness : ∃ r s',
  LRPXLock 0 3 5 true demo2 = Done (r, s') ∧ deferred 0 demo2 (mkReq 3 5 true) r s'.
Proof.
  assert (may_lock_exclusive 3 (ps_lock demo2)) as Hc by decide_now.
  destruct (wp_inv _ _ _ (page_exclusive_request 0 7 (-9) demo2 3 5 true demo2_reachable Hc))
    as (r & s' & E & H).
  exists r, s'. split; [exact E|exact H].
Defined.

(** what a shared request gets. With no writer and nobody waiting it is
    granted at once: the requester joins the readers, and the source of the
    newest copy (a holder) is asked to push the page to it, unless nobody holds
    the page and it must be read from storage. Otherwise it is queued, and the
    first in the queue triggers the round of [Pending] messages. *)
Theorem page_shared_request self pid garbage s n t fg :
  reachable self pid garbage s → may_lock_shared n (ps_lock s) →
  wp (LRPSLock self n t fg) (λ r s',
    if bool_decide (lock (ps_lock s) ≠ EXCLUSIVE_LOCKED ∧ request_queue (ps_lock s) = [])
    then s_granted self s n fg r s'
    else deferred self s (mkReq n t false) r s') s.
Proof.
  intros Hs%reachable_inv Hc. eapply wp_mono; [by apply LRPSLock_spec|].
  intros r s' [_ [(Hl & Hq & Hg)|[Hno Hd]]].
  - by rewrite bool_decide_eq_true_2.
  - rewrite bool_decide_eq_false_2; [done|]. intros [??]. by destruct Hno.
Qed.

Lemma page_shared_request_witness : ∃ r s',
  LRPSLock 0 2 5 true demo5 = Done (r, s') ∧ s_granted 0 demo5 2 true r s'.
Proof.
  assert (may_lock_shared 2 (ps_lock demo5)) as Hc by decide_now.
  destruct (wp_inv _ _ _ (page_shared_request 0 7 (-9) demo5 2 5 true demo5_reachable Hc))
    as (r & s' & E & H).
  exists r, s'. split; [exact E|exact H].
Defined.

(** what a release does. The releasing node stops being a holder; if that
    lets the request at the head of the queue through, [TransferControl] grants
    it (an exclusive request alone, a shared one together with every shared
    request of the queue), the new owners are told who forwards the page to
    whom, the first of them becomes the source, and the next round is opened
    for the request that now heads the queue; if not, nothing is sent. *)
Theorem page_release self pid garbage s n :
  reachable self pid garbage s → may_unlock n (ps_lock s) →
  wp (LRPAnyUnLock self n) (λ _ s', unlock_result self s n s' ∧
    ∀ r q, request_queue (ps_lock s) = r :: q →
      if bool_decide (list_remove n (waits_for r s) = []) then granted r q s'
      else request_queue (ps_lock s') = r :: q ∧
           waits_for r s' = list_remove n (waits_for r s)) s.
Proof.
  intros Hs%reachable_inv Hc. eapply wp_mono; [by apply LRPAnyUnLock_spec|].
  intros _ s' [_ Hres]. split; [done|]. intros r q Hr. case_bool_decide as Hd.
  - by apply (unlock_last self s n).
  - by apply (unlock_not_last self s n r q s').
Qed.

Lemma page_release_witness : ∃ s',
  LRPAnyUnLock 0 1 demo4 = Done (tt, s') ∧ granted (mkReq 2 5 false) [mkReq 3 5 true; mkReq 4 5 false] s'.
Proof.
  assert (may_unlock 1 (ps_lock demo4)) as Hc by decide_now.
  destruct (wp_inv _ _ _ (page_release 0 7 (-9) demo4 1 demo4_reachable Hc))
    as ([] & s' & E & _ & H).
  exists s'. split; [exact E|]. exact (H _ _ eq_refl).
Defined.

(** evictions. A node that does not hold the page, or whose page has
    requests waiting, is refused and nothing changes; otherwise the node is
    forgotten, the log sequence number it reports is recorded and the record
    stays coherent; except that evicting the source while others hold the page
    unlocks the mutex of the validity record twice. *)
Theorem page_eviction self pid garbage s n lsn :
  reachable self pid garbage s →
  (evict_refused n s → BufferReleaseUnlock n lsn s = Done (false, s)) ∧
  (¬ evict_refused n s → evict_crashes n s →
     BufferReleaseUnlock n lsn s = Crash UnlockNotHeld) ∧
  (¬ evict_refused n s → ¬ evict_crashes n s →
     wp (BufferReleaseUnlock n lsn) (λ b s', b = true ∧ server_inv s' ∧
       ∃ v', s' = evicted s n lsn v') s).
Proof.
  intros Hs%reachable_inv. split_and!.
  - intros Hr. by destruct (wp_inv _ _ _ (BufferReleaseUnlock_refused s Hs n lsn Hr))
      as (b & s' & E & -> & ->).
  - intros Hno [Hnew Hm]. destruct (evict_cases n s) as [?|(Hn & He & _)]; [done|].
    by apply BufferReleaseUnlock_crash.
  - intros Hno Hnc. destruct (evict_cases n s) as [?|(Hn & He & [?|Hlast])]; [done|done|].
    by apply BufferReleaseUnlock_agreed.
Qed.

Lemma page_eviction_witness : BufferReleaseUnlock 1 40 demo6 = Crash UnlockNotHeld.
Proof.
  refine (proj1 (proj2 (page_eviction 0 7 (-9) demo6 1 40 demo6_reachable)) _ _).
  - intros [Hn|Hq]; [apply Hn; vm_compute; left|by apply Hq].
  - split; [reflexivity|]. exists 2. split; [vm_compute; right; left|lia].
Defined.

(** C27: nobody is forgotten. Whenever a request waits, the last messages the
    server sent are the current round of [Pending] calls, for that request:
    every node that still holds the page was told to give it up, and the node
    told to push the page to the requester is a holder, unless the requester
    already has a copy (then no node is). *)
Theorem page_waiters_announced self pid garbage s :
  reachable self pid garbage s → round_told self s.
Proof.
  intros Hr. cut (server_inv s ∧ round_told self s); [tauto|]. revert Hr.
  apply (star_invariant _ (λ s, server_inv s ∧ round_told self s)).
  - split; [apply initial_page_inv|]. intros r q Hr. done.
  - intros x y [Hx Ht] Hstep. split; [by eapply server_step_inv|by eapply server_step_told].
Qed.

Lemma page_waiters_announced_witness :
  request_queue (ps_lock demo4) ≠ [] ∧ round_told 0 demo4.
Proof. split; [by vm_compute|exact (page_waiters_announced 0 7 (-9) demo4 demo4_reachable)]. Defined.

(** C25: a waiting request is eventually served. Whatever the order in which
    the other holders give the page up, once they all have, the request at the
    head of the queue is granted: requests are served in order, readers in one
    batch. *)
Theorem page_head_granted self pid garbage s r q ks :
  reachable self pid garbage s → request_queue (ps_lock s) = r :: q →
  ks ≡ₚ waits_for r s →
  wp (for_each (LRPAnyUnLock self) ks) (λ _ s', granted r q s') s.
Proof.
  intros Hs%reachable_inv Hr Hks. eapply wp_mono; [by apply releases_grant_head|]. naive_solver.
Qed.

Definition demo7 : PageState := Eval vm_compute in final (LRPXLock 0 3 5 true) demo6.
Lemma demo7_reachable : reachable 0 7 (-9) demo7.
Proof. eapply (reach_x _ _ _ _ 3 5 true); [apply demo6_reachable|decide_now|vm_compute; reflexivity]. Qed.

Lemma page_head_granted_witness : ∃ s',
  for_each (LRPAnyUnLock 0) [2; 1] demo7 = Done (tt, s') ∧ hold_lock_nodes (ps_lock s') = [3].
Proof.
  assert ([2; 1] ≡ₚ waits_for (mkReq 3 5 true) demo7) as Hp by (vm_compute; apply perm_swap).
  destruct (wp_inv _ _ _ (page_head_granted 0 7 (-9) demo7 (mkReq 3 5 true) [] [2; 1]
    demo7_reachable eq_refl Hp)) as ([] & s' & E & _ & H & _).
  exists s'. split; [exact E|exact H].
Defined.

(** A held lock mutex blocks every later call on the page. *)
Lemma held_blocks self n t fg s :
  lr_mutex (ps_lock s) = true →
  LRPXLock self n t fg s = Blocked ∧ LRPSLock self n t fg s = Blocked.
Proof.
  intros Hm.
  assert (mutexLock s = Blocked) as E.
  { unfold mutexLock, onLock, zoom, mutex_lock. cbn [mutex_held LR_mutex]. by rewrite Hm. }
  unfold LRPXLock, LRPSLock, LockExclusive, LockShared, mbind, M_bind. by rewrite E.
Qed.

Lemma release_one_leaks self s n :
  server_inv s → may_unlock n (ps_lock s) → request_queue (ps_lock s) = [] →
  wp (release_one_of_many self n) (λ _ s',
    s' = put_lock (mutex_set true (release n (ps_lock s))) s) s.
Proof.
  intros Hs [Hn Hns] He. pose proof Hs as [Hq Hf Hv]. pose proof (q_inv _ Hq) as Hi.
  destruct (quiet_not_pending _ Hq He) as [Hp Hsrc].
  assert (lr_inv (release n (ps_lock s))) as Hi1 by by apply lr_inv_release.
  assert (lock (release n (ps_lock s)) ≠ EXCLUSIVE_LOCKED) as Hne.
  { pose proof (inv_size_bound _ Hi1) as Hb. unfold hold_size in Hb. simpl in *. lia. }
  unfold release_one_of_many, UnlockAny. do 2 wp_step. apply wp_mutexLock; [done|].
  eapply wp_mono; [by apply UnlockAnyNoBlock_spec; [apply lr_inv_mutex|]|].
  intros _ s1 [_ ->]. wp_step. eapply wp_mono.
  { apply TransferControl_spec; simpl.
    - by apply (lr_inv_ext (release n (ps_lock s))).
    - unfold queue_empty. simpl. by rewrite He, Hp.
    - by rewrite He.
    - done. }
  intros b s'. unfold transfer. simpl. rewrite He. intros [-> ->]. done.
Qed.

(** the multi-page release does not do what the single-page one does. When
    nobody waits for the page, [LRPAnyUnLocks] forgets the holder but leaves
    the lock's mutex taken and the node's copy recorded as valid, so that the
    page can never be locked again. *)
Theorem page_multi_release_leaks (self pid garbage : Z) (s : PageState) (n : Z)
    (k : Z * Z) (ps : Pages) :
  reachable self pid garbage s → may_unlock n (ps_lock s) →
  request_queue (ps_lock s) = [] → ps !! k = Some s →
  wp (LRPAnyUnLocks self n [k]) (λ _ ps', ∃ s', ps' = <[k := s']> ps ∧
    (n ∉ hold_lock_nodes (ps_lock s')) ∧ has_page (ps_valid s') n ∧
    ∀ m t fg, on_page k (LRPXLock self m t fg) ps' = Blocked ∧
              on_page k (LRPSLock self m t fg) ps' = Blocked) ps.
Proof.
  intros Hs%reachable_inv Hc He Hk. unfold LRPAnyUnLocks. simpl. wp_step.
  destruct (wp_inv _ _ _ (release_one_leaks self s n Hs Hc He)) as ([] & s' & E & ->).
  apply (wp_done _ _ _ tt (<[k := put_lock (mutex_set true (release n (ps_lock s))) s]> ps)).
  { unfold on_page. by rewrite Hk, E. }
  apply wp_ret. eexists. split; [done|]. split_and!.
  - simpl. rewrite elem_of_list_remove. tauto.
  - simpl. destruct Hs as [_ _ (_ & _ & HP)]. apply HP, Hc.
  - intros m t fg. unfold on_page. rewrite lookup_insert_eq.
    destruct (held_blocks self m t fg (put_lock (mutex_set true (release n (ps_lock s))) s))
      as [-> ->]; done.
Qed.

Lemma page_multi_release_leaks_witness : ∃ ps' : Pages,
  LRPAnyUnLocks 0 1 [(5, 7)] {[(5, 7) := demo1]} = Done (tt, ps') ∧
  on_page (5, 7) (LRPSLock 0 2 5 true) ps' = Blocked.
Proof.
  assert (may_unlock 1 (ps_lock demo1)) as Hc by decide_now.
  destruct (wp_inv _ _ _ (page_multi_release_leaks 0 7 (-9) demo1 1 (5, 7) {[(5, 7) := demo1]}
    demo1_reachable Hc eq_refl (lookup_singleton_eq _ _))) as ([] & ps' & E & s' & _ & _ & _ & H).
  exists ps'. split; [exact E|]. apply H.
Defined.
