(* ===== verification/LocalLock.v ===== *)
(** [core/LPLM/local_LR_page_lock.h]: the lock one compute node keeps for one
    page under the lazy-release policy.  It arbitrates between the node's own
    threads and remembers what the node owns remotely ([remote_mode]), so that a
    page is given back only when another node asks for it ([Pending]).

    A spinning call is modelled round by round: a round that finds the latch
    busy releases the mutex and returns [Blocked]; so does a wait on a condition
    variable whose predicate is false. *)

From S2P Require Import Prelude Common.

Record LRLocalPageLock := mkLocal {
  ll_page_id : page_id_t;
  ll_lock : lock_t;
  remote_mode : LockMode;
  ll_pending : bool;
  ll_granting : bool;
  success_return : bool;
  need_wait : bool;
  update_success : bool;
  dest_node_id : node_id_t;
  push_list : list Z;
  is_evicting : bool;
  is_released : bool;
  ll_mutex : bool
}.

Definition set_ll_lock x l := mkLocal (ll_page_id l) x (remote_mode l) (ll_pending l)
  (ll_granting l) (success_return l) (need_wait l) (update_success l) (dest_node_id l)
  (push_list l) (is_evicting l) (is_released l) (ll_mutex l).
Definition set_mode x l := mkLocal (ll_page_id l) (ll_lock l) x (ll_pending l) (ll_granting l)
  (success_return l) (need_wait l) (update_success l) (dest_node_id l) (push_list l)
  (is_evicting l) (is_released l) (ll_mutex l).
Definition set_ll_pending x l := mkLocal (ll_page_id l) (ll_lock l) (remote_mode l) x
  (ll_granting l) (success_return l) (need_wait l) (update_success l) (dest_node_id l)
  (push_list l) (is_evicting l) (is_released l) (ll_mutex l).
Definition set_granting x l := mkLocal (ll_page_id l) (ll_lock l) (remote_mode l) (ll_pending l) x
  (success_return l) (need_wait l) (update_success l) (dest_node_id l) (push_list l)
  (is_evicting l) (is_released l) (ll_mutex l).
Definition set_success x l := mkLocal (ll_page_id l) (ll_lock l) (remote_mode l) (ll_pending l)
  (ll_granting l) x (need_wait l) (update_success l) (dest_node_id l) (push_list l)
  (is_evicting l) (is_released l) (ll_mutex l).
Definition set_need_wait x l := mkLocal (ll_page_id l) (ll_lock l) (remote_mode l) (ll_pending l)
  (ll_granting l) (success_return l) x (update_success l) (dest_node_id l) (push_list l)
  (is_evicting l) (is_released l) (ll_mutex l).
Definition set_update x l := mkLocal (ll_page_id l) (ll_lock l) (remote_mode l) (ll_pending l)
  (ll_granting l) (success_return l) (need_wait l) x (dest_node_id l) (push_list l)
  (is_evicting l) (is_released l) (ll_mutex l).
Definition set_dest x l := mkLocal (ll_page_id l) (ll_lock l) (remote_mode l) (ll_pending l)
  (ll_granting l) (success_return l) (need_wait l) (update_success l) x (push_list l)
  (is_evicting l) (is_released l) (ll_mutex l).
Definition set_push_list x l := mkLocal (ll_page_id l) (ll_lock l) (remote_mode l) (ll_pending l)
  (ll_granting l) (success_return l) (need_wait l) (update_success l) (dest_node_id l) x
  (is_evicting l) (is_released l) (ll_mutex l).
Definition set_evicting x l := mkLocal (ll_page_id l) (ll_lock l) (remote_mode l) (ll_pending l)
  (ll_granting l) (success_return l) (need_wait l) (update_success l) (dest_node_id l)
  (push_list l) x (is_released l) (ll_mutex l).
Definition set_released x l := mkLocal (ll_page_id l) (ll_lock l) (remote_mode l) (ll_pending l)
  (ll_granting l) (success_return l) (need_wait l) (update_success l) (dest_node_id l)
  (push_list l) (is_evicting l) x (ll_mutex l).

#[export] Program Instance LRLocal_mutex : HasMutex LRLocalPageLock := {
  mutex_held := ll_mutex;
  mutex_set b l := mkLocal (ll_page_id l) (ll_lock l) (remote_mode l) (ll_pending l)
    (ll_granting l) (success_return l) (need_wait l) (update_success l) (dest_node_id l)
    (push_list l) (is_evicting l) (is_released l) b
}.
Solve Obligations with by intros; try destruct s.

(** The constructor does not initialise [need_wait]. *)
Definition new_LRLocalPageLock (pid : page_id_t) (garbage : bool) : LRLocalPageLock :=
  mkLocal pid 0 NONE false false false garbage false INVALID_NODE_ID [] false true false.

Module Local.

Abbreviation L := (M LRLocalPageLock).

Definition upd (f : LRLocalPageLock → LRLocalPageLock) : L unit := modify f.

(** [mutex.unlock()] and another round of the loop. *)
Definition spin {A} : L A := mutex_unlock ;; block.

(** [cv.wait(lock, p)]: goes on once [p] holds. *)
Definition cv_wait (p : LRLocalPageLock → bool) : L unit :=
  b ← gets p ; if b : bool then mret tt else block.

(** A [lock_guard]/[unique_lock] scope. *)
Definition guarded {A} (m : L A) : L A := mutex_lock ;; a ← m ; mutex_unlock ;; mret a.

(** ** Cost snapshot and the push destination *)

Record CostSnapshot := mkSnap { usable : bool; snap_upgrade : bool }.

Definition is_mode (m : LockMode) (l : LRLocalPageLock) : bool :=
  bool_decide (remote_mode l = m).

Definition SnapshotForCost (write : bool) : L CostSnapshot :=
  guarded (gets (λ l,
    let permission := if write then is_mode EXCLUSIVE l else negb (is_mode NONE l) in
    let busy := ll_pending l || ll_granting l || is_evicting l ||
      (if write then negb (ll_lock l =? 0) else ll_lock l =? EXCLUSIVE_LOCKED) in
    mkSnap (permission && negb busy) (write && is_mode SHARED l))).

Definition setDestNodeID (n : Z) : L unit := guarded (upd (set_dest n)).
Definition setDestNodeIDNoBlock (n : Z) : L unit := upd (set_dest n).
Definition getDestNodeID : L Z := guarded (gets dest_node_id).
Definition getDestNodeIDNoBlock : L Z := gets dest_node_id.
Definition addToPushListNoBlock (n : Z) : L unit :=
  upd (λ l, set_push_list (push_list l ++ [n]) l).
Definition getPushList : L (list Z) :=
  guarded (ret ← gets push_list ; upd (set_push_list []) ;; mret ret).

(** ** Acquiring *)

(** The result tells whether the caller must now acquire the page remotely. *)
Definition LockShared : L bool :=
  mutex_lock ;;
  l ← gets (λ l, l) ;
  if ll_granting l || ll_pending l || is_evicting l then spin
  else match remote_mode l with
  | EXCLUSIVE =>
      if ll_lock l =? EXCLUSIVE_LOCKED then spin
      else
        upd (λ l, set_ll_lock (u64 (ll_lock l + 1)) l) ;;
        mutex_unlock ;; mret false
  | SHARED =>
      if ll_lock l =? EXCLUSIVE_LOCKED then mutex_unlock ;; crash (AssertFailed 129)
      else
        upd (λ l, set_ll_lock (u64 (ll_lock l + 1)) l) ;;
        mutex_unlock ;; mret false
  | NONE =>
      upd (λ l, set_ll_lock (u64 (ll_lock l + 1)) l) ;;
      upd (set_granting true) ;;
      mutex_unlock ;; mret true
  end.

Definition LockExclusive : L bool :=
  mutex_lock ;;
  l ← gets (λ l, l) ;
  if ll_granting l || ll_pending l || is_evicting l then spin
  else match remote_mode l with
  | EXCLUSIVE =>
      if negb (ll_lock l =? 0) then spin
      else upd (set_ll_lock EXCLUSIVE_LOCKED) ;; mutex_unlock ;; mret false
  | SHARED | NONE =>
      if negb (ll_lock l =? 0) then spin
      else
        upd (set_ll_lock EXCLUSIVE_LOCKED) ;;
        upd (set_granting true) ;;
        mutex_unlock ;; mret true
  end.

(** ** Notifications from the other nodes *)

Definition RemotePushPageSuccess : L unit :=
  guarded (l ← gets (λ l, l) ; check 198 (ll_granting l) ;; upd (set_update true)).

(** Leaves the mutex held: [LockSuccess] releases it. *)
Definition RemoteNotifyLockSuccess (xlock is_newest : bool) : L unit :=
  mutex_lock ;;
  l ← gets (λ l, l) ;
  check 205 (ll_granting l) ;;
  (if xlock then check 206 (ll_lock l =? EXCLUSIVE_LOCKED) else check 207 (0 <? ll_lock l)) ;;
  upd (set_success true) ;;
  upd (set_need_wait (negb is_newest)).

Definition TryGetPushData : L unit :=
  guarded (
    l ← gets (λ l, l) ;
    check 220 (ll_granting l) ;;
    cv_wait update_success ;;
    upd (set_update false)).

(** The result is the [need_wait] the notification set. *)
Definition TryRemoteLockSuccess : L bool :=
  guarded (
    l ← gets (λ l, l) ;
    check 233 (ll_granting l) ;;
    cv_wait success_return ;;
    l ← gets (λ l, l) ;
    (if negb (need_wait l) then check 241 (negb (update_success l))
     else
       cv_wait update_success ;;
       upd (set_update false) ;;
       upd (set_need_wait false)) ;;
    upd (set_success false) ;;
    mret (need_wait l)).

Definition LockRemoteOK : L unit :=
  mutex_lock ;;
  l ← gets (λ l, l) ;
  check 293 (ll_granting l) ;;
  upd (set_mode (if ll_lock l =? EXCLUSIVE_LOCKED then EXCLUSIVE else SHARED)) ;;
  upd (set_granting false) ;;
  upd (set_released false) ;;
  mutex_unlock.

(** ** Eviction *)

Definition TryBeginEvict : L bool :=
  guarded (
    l ← gets (λ l, l) ;
    if is_evicting l || is_released l then mret false
    else if (ll_lock l =? 0) && negb (ll_granting l) && negb (ll_pending l) then
      upd (set_evicting true) ;; mret true
    else mret false).

Definition EndEvict : L unit :=
  guarded (l ← gets (λ l, l) ; check 281 (is_evicting l) ;; upd (set_evicting false)).

Definition isEvicting : L bool := guarded (gets is_evicting).

(** ** Releasing *)

Definition unlock_type (m : LockMode) : Z := if bool_decide (m = SHARED) then 1 else 2.

(** Takes the mutex and keeps it: the result says whether the remote ownership
    must be given up (1 shared, 2 exclusive) and whether the frame must be
    unpinned. *)
Definition tryUnlockShared : L (Z * bool) :=
  mutex_lock ;;
  l ← gets (λ l, l) ;
  check 312 (0 <? ll_lock l) ;;
  check 313 (negb (ll_lock l =? EXCLUSIVE_LOCKED)) ;;
  check 314 (negb (ll_granting l)) ;;
  if (u64 (ll_lock l - 1) =? 0) && ll_pending l then
    upd (set_released true) ;; mret (unlock_type (remote_mode l), false)
  else mret (0, u64 (ll_lock l - 1) =? 0).

(** [int getLock() const]: the 64-bit word narrowed to a 32-bit [int]. *)
Definition to_int (z : Z) : Z :=
  let r := z mod 2 ^ 32 in if r <? 2 ^ 31 then r else r - 2 ^ 32.
Definition getLock : L Z := gets (λ l, to_int (ll_lock l)).

Definition UnlockShared : L unit :=
  upd (λ l, set_ll_lock (u64 (ll_lock l - 1)) l) ;;
  l ← gets (λ l, l) ;
  when ((ll_lock l =? 0) && ll_pending l) (upd (set_ll_pending false) ;; upd (set_mode NONE)).

Definition tryUnlockExclusive : L Z :=
  mutex_lock ;;
  l ← gets (λ l, l) ;
  check 341 (is_mode EXCLUSIVE l) ;;
  check 342 (ll_lock l =? EXCLUSIVE_LOCKED) ;;
  check 343 (negb (ll_granting l)) ;;
  if ll_pending l then upd (set_released true) ;; mret 2 else mret 0.

Definition UnlockExclusive : L unit :=
  upd (set_ll_lock 0) ;;
  l ← gets (λ l, l) ;
  when (ll_pending l) (upd (set_ll_pending false) ;; upd (set_mode NONE)).

(** The branch without remote ownership releases the mutex before the final
    write, the others keep it for [UnlockRemoteOK]. *)
Definition UnlockAny : L Z :=
  mutex_lock ;;
  l ← gets (λ l, l) ;
  check 363 (ll_lock l =? 0) ;;
  check 364 (negb (ll_granting l) && negb (ll_pending l)) ;;
  r ← (match remote_mode l with
       | NONE => mutex_unlock ;; mret 0
       | SHARED => upd (set_mode NONE) ;; mret 1
       | EXCLUSIVE => upd (set_mode NONE) ;; mret 2
       end) ;
  upd (set_released true) ;;
  mret r.

Definition UnlockRemoteOK : L unit := mutex_unlock.
Definition lockMtx : L unit := mutex_lock.
Definition UnlockMtx : L unit := mutex_unlock.

(** Another node wants the page. Keeps the mutex on every path. *)
Definition Pending (n : Z) (xpending : bool) : L Z :=
  mutex_lock ;;
  l ← gets (λ l, l) ;
  check 393 (negb (ll_pending l)) ;;
  match ll_granting l, remote_mode l with
  | false, NONE => crash (AssertFailed 412)
  | false, m =>
      if ll_lock l =? 0 then
        upd (set_released true) ;; upd (set_mode NONE) ;; mret (unlock_type m)
      else upd (set_ll_pending true) ;; mret 0
  | true, SHARED =>
      check 418 (ll_lock l =? EXCLUSIVE_LOCKED) ;;
      if xpending then upd (set_ll_pending true) ;; mret 0
      else upd (set_mode NONE) ;; mret 1
  | true, NONE => upd (set_ll_pending true) ;; mret 0
  | true, EXCLUSIVE => crash (AssertFailed 438)
  end.

Definition getLockType : L Z :=
  l ← gets (λ l, l) ;
  check 444 (negb (ll_lock l =? 0)) ;;
  mret (if negb (ll_lock l =? EXCLUSIVE_LOCKED) then 1 else 2).

Definition VarifyRemoteLock (status : bool) : L unit :=
  mutex_lock ;;
  l ← gets (λ l, l) ;
  (if status then check 455 (is_mode EXCLUSIVE l)
   else check 458 (is_mode SHARED l || is_mode EXCLUSIVE l)) ;;
  mutex_unlock.

Definition IsUpgrading : L bool := guarded (gets (λ l, is_mode SHARED l && ll_granting l)).
Definition HasOwner : L bool := guarded (gets (λ l, is_mode SHARED l || is_mode EXCLUSIVE l)).

(** Takes the mutex and keeps it. *)
Definition getUnlockType : L Z :=
  mutex_lock ;;
  gets (λ l, match remote_mode l with NONE => 0 | EXCLUSIVE => 2 | SHARED => 1 end).

End Local.

(** ** The invariant between critical sections *)

Record local_inv (l : LRLocalPageLock) : Prop := {
  li_range : ll_lock l = EXCLUSIVE_LOCKED ∨ 0 ≤ ll_lock l < EXCLUSIVE_LOCKED;
  (** a local writer needs the exclusive ownership, a reader any *)
  li_writer : ll_lock l = EXCLUSIVE_LOCKED → ll_granting l = false → remote_mode l = EXCLUSIVE;
  li_reader : ll_lock l ≠ 0 → ll_granting l = false → remote_mode l ≠ NONE;
  (** one thread at a time talks to the lock table, and has taken the latch *)
  li_grant : ll_granting l = true → remote_mode l ≠ EXCLUSIVE ∧
    (ll_lock l = EXCLUSIVE_LOCKED ∨ (ll_lock l = 1 ∧ remote_mode l = NONE));
  li_pend : ll_pending l = true → ll_lock l ≠ 0;
  li_evict : is_evicting l = true → ll_lock l = 0;
  li_rel1 : is_released l = true → remote_mode l = NONE;
  li_rel2 : ll_granting l = false → remote_mode l = NONE → is_released l = true;
  li_flags : ll_granting l = false → success_return l = false ∧ update_success l = false;
  li_dest : dest_node_id l ≠ INVALID_NODE_ID → ll_pending l = true;
  li_free : ll_mutex l = false
}.

Lemma new_local_inv pid garbage : local_inv (new_LRLocalPageLock pid garbage).
Proof. split; simpl; try done. right. unfold EXCLUSIVE_LOCKED. lia. Qed.

(** The latch is busy: another thread of the node is acquiring the page, another
    node has asked for it, it is being evicted, or the local mode conflicts. *)
Definition busy (l : LRLocalPageLock) : bool :=
  ll_granting l || ll_pending l || is_evicting l.

Ltac local_cases :=
  match goal with
  | l : LRLocalPageLock |- _ =>
      destruct l as [pid lk mode pend grant succ nw us dest pl ev rel mx]
  end; simpl in *.

Ltac local_exec :=
  repeat (case_match; simpl in *; simplify_eq); bool_simpl; simplify_eq.

Section spec.
Variable l : LRLocalPageLock.
Hypothesis Hl : local_inv l.

(** A shared latch: blocked while busy or written to; granted locally when the
    node owns the page in any mode; otherwise the caller is elected to acquire
    the page remotely. *)
Lemma local_LockShared_spec :
  ll_lock l ≠ EXCLUSIVE_LOCKED - 1 →
  Local.LockShared l =
    (if busy l || (ll_lock l =? EXCLUSIVE_LOCKED) then Blocked
     else if bool_decide (remote_mode l = NONE) then
       Done (true, set_granting true (set_ll_lock (ll_lock l + 1) l))
     else Done (false, set_ll_lock (ll_lock l + 1) l)).
Proof using Hl.
  intros Hmax. destruct Hl as [Hr Hw Hrd Hg Hp He Hr1 Hr2 Hf Hd Hm].
  unfold Local.LockShared, Local.spin, busy. local_cases. subst mx.
  unfold mbind, M_bind, mutex_lock, gets, Local.upd, modify, mutex_unlock, block, crash; simpl.
  destruct grant, pend, ev; simpl; try done.
  assert (lk ≠ EXCLUSIVE_LOCKED → u64 (lk + 1) = lk + 1) as Hu.
  { intros ?. apply lock_incr. unfold EXCLUSIVE_LOCKED in *. lia. }
  destruct (Z.eqb_spec lk EXCLUSIVE_LOCKED) as [E|E].
  - rewrite (Hw E eq_refl). done.
  - destruct mode; simpl; rewrite (Hu E); done.
Qed.

Lemma local_LockExclusive_spec :
  Local.LockExclusive l =
    (if busy l || negb (ll_lock l =? 0) then Blocked
     else if bool_decide (remote_mode l = EXCLUSIVE) then
       Done (false, set_ll_lock EXCLUSIVE_LOCKED l)
     else Done (true, set_granting true (set_ll_lock EXCLUSIVE_LOCKED l))).
Proof using Hl.
  destruct Hl as [Hr Hw Hrd Hg Hp He Hr1 Hr2 Hf Hd Hm].
  unfold Local.LockExclusive, Local.spin, busy. local_cases. subst mx.
  unfold mbind, M_bind, mutex_lock, gets, Local.upd, modify, mutex_unlock, block, crash; simpl.
  destruct grant, pend, ev; simpl; try done.
  destruct (lk =? 0) eqn:E; destruct mode; simpl; done.
Qed.

(** Granting a latch keeps the invariant. *)
Lemma local_inv_shared b :
  ll_lock l ≠ EXCLUSIVE_LOCKED → ll_lock l ≠ EXCLUSIVE_LOCKED - 1 → busy l = false →
  b = bool_decide (remote_mode l = NONE) →
  local_inv (if b then set_granting true (set_ll_lock (ll_lock l + 1) l)
             else set_ll_lock (ll_lock l + 1) l).
Proof using Hl.
  intros Hne Hmax Hb ->. destruct Hl as [Hr Hw Hrd Hg Hp He Hr1 Hr2 Hf Hd Hm].
  unfold busy in Hb. local_cases. apply orb_false_iff in Hb as [Hb Hev].
  apply orb_false_iff in Hb as [Hgr Hpe]. subst.
  assert (lk + 1 ≠ 0 ∧ lk + 1 ≠ EXCLUSIVE_LOCKED) by (unfold EXCLUSIVE_LOCKED in *; lia).
  case_bool_decide; subst; split; simpl in *; try done; try lia; try (intros; lia).
  intros _. split; [done|]. destruct (decide (lk = 0)) as [->|]; [by right|].
  by destruct (Hrd n).
Qed.

Lemma local_inv_exclusive b :
  ll_lock l = 0 → busy l = false → b = negb (bool_decide (remote_mode l = EXCLUSIVE)) →
  local_inv (if b then set_granting true (set_ll_lock EXCLUSIVE_LOCKED l)
             else set_ll_lock EXCLUSIVE_LOCKED l).
Proof using Hl.
  intros H0 Hb ->. destruct Hl as [Hr Hw Hrd Hg Hp He Hr1 Hr2 Hf Hd Hm].
  unfold busy in Hb. local_cases. apply orb_false_iff in Hb as [Hb Hev].
  apply orb_false_iff in Hb as [Hgr Hpe]. subst.
  case_bool_decide; subst; split; simpl in *; try done; try (left; done); naive_solver.
Qed.

(** The remote grant arrives: the mode follows the latch. *)
Lemma LockRemoteOK_spec :
  ll_granting l = true → success_return l = false → update_success l = false →
  wp Local.LockRemoteOK (λ _ l', local_inv l' ∧
    l' = set_released false (set_granting false
      (set_mode (if ll_lock l =? EXCLUSIVE_LOCKED then EXCLUSIVE else SHARED) l))) l.
Proof using Hl.
  intros Hgr Hs Hu. destruct Hl as [Hr Hw Hrd Hg Hp He Hr1 Hr2 Hf Hd Hm].
  unfold Local.LockRemoteOK, wp. local_cases. subst.
  unfold mbind, M_bind, mutex_lock, gets, Local.upd, modify, mutex_unlock; simpl.
  split; [|done]. destruct (Hg eq_refl) as [Hne Hlk].
  split; simpl; try done; destruct (Z.eqb_spec lk EXCLUSIVE_LOCKED); try done; naive_solver.
Qed.
End spec.

(** ** The calls a handler makes while it owns the mutex, evaluated *)

Section run.
Variable l : LRLocalPageLock.

Definition locked : LRLocalPageLock := mutex_set true l.

Lemma run_tryUnlockShared :
  ll_mutex l = false → 0 < ll_lock l < EXCLUSIVE_LOCKED → ll_granting l = false →
  Local.tryUnlockShared l =
    if (ll_lock l =? 1) && ll_pending l
    then Done ((Local.unlock_type (remote_mode l), false), set_released true locked)
    else Done ((0, ll_lock l =? 1), locked).
Proof using.
  intros Hm Hlk Hg.
  assert (u64 (ll_lock l - 1) = ll_lock l - 1) as Hu by (apply lock_decr; lia).
  assert ((0 <? ll_lock l) = true) as H1 by (apply Z.ltb_lt; lia).
  assert ((ll_lock l =? EXCLUSIVE_LOCKED) = false) as H2 by (apply Z.eqb_neq; lia).
  assert ((ll_lock l - 1 =? 0) = (ll_lock l =? 1)) as H3.
  { destruct (Z.eqb_spec (ll_lock l) 1), (Z.eqb_spec (ll_lock l - 1) 0); lia || done. }
  unfold locked, Local.tryUnlockShared, mutex_lock, mbind, M_bind, gets, check, Local.upd, modify.
  destruct l as [pid lk mode pend grant succ nw us dest pl ev rel mx].
  cbn [ll_lock ll_granting ll_mutex ll_pending remote_mode] in *. subst.
  cbn [mutex_held mutex_set LRLocal_mutex ll_lock ll_granting ll_mutex ll_pending remote_mode].
  rewrite H1, H2. cbn. rewrite Hu, H3. by destruct (lk =? 1), pend.
Qed.

Lemma run_UnlockShared :
  0 < ll_lock l < EXCLUSIVE_LOCKED →
  Local.UnlockShared l = Done (tt,
    if (ll_lock l =? 1) && ll_pending l
    then set_mode NONE (set_ll_pending false (set_ll_lock (ll_lock l - 1) l))
    else set_ll_lock (ll_lock l - 1) l).
Proof using.
  intros Hlk.
  assert (u64 (ll_lock l - 1) = ll_lock l - 1) as Hu by (apply lock_decr; lia).
  assert ((ll_lock l - 1 =? 0) = (ll_lock l =? 1)) as H3.
  { destruct (Z.eqb_spec (ll_lock l) 1), (Z.eqb_spec (ll_lock l - 1) 0); lia || done. }
  unfold Local.UnlockShared, Local.upd, modify, mbind, M_bind, gets, when.
  cbn [ll_lock set_ll_lock ll_pending]. rewrite Hu, H3.
  by destruct ((ll_lock l =? 1) && ll_pending l).
Qed.

Lemma run_tryUnlockExclusive :
  ll_mutex l = false → ll_lock l = EXCLUSIVE_LOCKED → remote_mode l = EXCLUSIVE →
  ll_granting l = false →
  Local.tryUnlockExclusive l =
    if ll_pending l then Done (2, set_released true locked) else Done (0, locked).
Proof using.
  intros Hm Hlk Hr Hg. unfold locked. local_cases. subst. by destruct pend.
Qed.

Lemma run_UnlockExclusive :
  Local.UnlockExclusive l = Done (tt,
    if ll_pending l then set_mode NONE (set_ll_pending false (set_ll_lock 0 l))
    else set_ll_lock 0 l).
Proof using. local_cases. by destruct pend. Qed.

(** [getLock() == 0] holds of a latch held exclusively. *)
Lemma run_getLock_exclusive :
  ll_lock l = EXCLUSIVE_LOCKED → Local.getLock l = Done (0, l).
Proof using. intros Hlk. unfold Local.getLock, gets. by rewrite Hlk. Qed.

Lemma run_unlockMtx :
  ll_mutex l = true → Local.UnlockMtx l = Done (tt, mutex_set false l).
Proof using. intros Hm. by apply run_mutex_unlock. Qed.

(** [Pending], by who uses the page: nobody, a local thread, a thread that is
    upgrading its shared ownership, a thread that is fetching it. *)
Lemma run_Pending n xp :
  local_inv l → ll_pending l = false →
  (ll_granting l = false → remote_mode l ≠ NONE) →
  Local.Pending n xp l =
    if ll_granting l then
      if bool_decide (remote_mode l = SHARED) && negb xp then Done (1, set_mode NONE locked)
      else Done (0, set_ll_pending true locked)
    else if ll_lock l =? 0 then
      Done (Local.unlock_type (remote_mode l), set_mode NONE (set_released true locked))
    else Done (0, set_ll_pending true locked).
Proof using.
  intros [Hr Hw Hrd Hg Hp He Hr1 Hr2 Hf Hd Hm] Hpe Hmo. unfold locked. local_cases. subst.
  unfold Local.Pending, mutex_lock, mbind, M_bind, gets, check, Local.upd, modify, crash; simpl.
  destruct grant; simpl.
  - destruct (Hg eq_refl) as [Hne Hlk]. destruct mode; simpl; try done.
    destruct Hlk as [->|[_ ?]]; [|done]. by destruct xp.
  - specialize (Hmo eq_refl). destruct mode; simpl; try done; by destruct (lk =? 0).
Qed.

(** Waiting for the page, and for the lock: what has to arrive first. *)
Lemma run_TryGetPushData :
  ll_mutex l = false → ll_granting l = true →
  Local.TryGetPushData l =
    if update_success l then Done (tt, set_update false l) else Blocked.
Proof using. intros Hm Hg. local_cases. subst. by destruct us. Qed.

Lemma run_TryRemoteLockSuccess :
  ll_mutex l = false → ll_granting l = true →
  Local.TryRemoteLockSuccess l =
    if success_return l then
      if need_wait l then
        if update_success l
        then Done (true, set_success false (set_need_wait false (set_update false l)))
        else Blocked
      else if update_success l then Crash (AssertFailed 241)
      else Done (false, set_success false l)
    else Blocked.
Proof using. intros Hm Hg. local_cases. subst. by destruct succ, nw, us. Qed.

Lemma run_getPushList :
  ll_mutex l = false → Local.getPushList l = Done (push_list l, set_push_list [] l).
Proof using. intros Hm. local_cases. by subst. Qed.
End run.
