(* ===== verification/LazyRelease.v ===== *)
(** One compute node's handling of one page under lazy release
    ([compute_server/lazyrelease_server.cc], and the notifications of
    [compute_server/server.cc]): fetching and releasing the page, answering
    [Pending], [LockSuccess], [NotifyPushPage] and [PushPage], evicting it.

    A handler is cut at the remote calls that let other threads in: a fetch is
    [..._begin] up to the lock request and [..._finish] from its response.
    Calls that leave the node are recorded, in order, as [NodeMsg]s. *)

From S2P Require Import Prelude Common PageServer LocalLock.

Section node.
(** The contents of a page, and the log sequence number in its header
    ([RmPageHdr::LLSN_]). *)
Context {Data : Type}.
Variable llsn_of : Data → LLSN.

(** Configuration: this node, the node whose lock table has the page, the
    table, [generate_log_] and [push_page_with_scheduler]. *)
Variable self page_belong_node : node_id_t.
Variable table_id : table_id_t.
Variable generate_log push_with_scheduler : bool.

Record Frame := mkFrame { pg_data : Data; pg_dirty : bool }.

Inductive NodeMsg :=
  | RpcPSLock | RpcPXLock
  | RpcPAnyUnLock
  | RpcBufferReleaseUnlock (lsn : LLSN)
  | RpcPushPage (dest : Z) (d : Data)
  | SchedulePush (dest : Z) (d : Data) (can_push : bool) (wait_lsn : LLSN)
  | LogFlushRequest (lsn : LLSN)
  | FetchFromStorage (lsn : option LLSN)
  | FlushToStorage (d : Data).

Record NodePage := mkNP {
  np_lock : LRLocalPageLock;
  np_frame : option Frame;     (** the page's entry in the buffer pool *)
  np_persist : LLSN;           (** [persist_lsn] *)
  np_out : list NodeMsg
}.

Definition np_put_lock (l : LRLocalPageLock) (s : NodePage) : NodePage :=
  mkNP l (np_frame s) (np_persist s) (np_out s).
Definition np_put_frame (f : option Frame) (s : NodePage) : NodePage :=
  mkNP (np_lock s) f (np_persist s) (np_out s).
Definition np_put_persist (x : LLSN) (s : NodePage) : NodePage :=
  mkNP (np_lock s) (np_frame s) x (np_out s).
Definition np_put_out (m : NodeMsg) (s : NodePage) : NodePage :=
  mkNP (np_lock s) (np_frame s) (np_persist s) (np_out s ++ [m]).

Abbreviation MN := (M NodePage).
Definition onL {A} (m : M LRLocalPageLock A) : MN A := zoom np_lock np_put_lock m.
Definition send (m : NodeMsg) : MN unit := modify (np_put_out m).

Definition is_data_table : bool := table_id <? 10000.

(** ** The buffer pool, as seen for this page *)

Definition fetch_page : MN Frame := λ s,
  match np_frame s with Some f => Done (f, s) | None => Crash (AssertFailed 63) end.
Definition unpin_page : MN unit := f ← gets np_frame ; check 147 (bool_decide (is_Some f)).
Definition releaseBufferPage : MN unit :=
  f ← gets np_frame ; check 121 (bool_decide (is_Some f)) ;; modify (np_put_frame None).
Definition wait_in_bufferPool : MN unit :=
  f ← gets np_frame ; if bool_decide (is_Some f) then mret tt else block.
(** [put_page_into_buffer(..., 1)]: the page must not be there yet. *)
Definition put_page_into_buffer (d : Data) : MN unit :=
  f ← gets np_frame ; check 172 (negb (bool_decide (is_Some f))) ;;
  modify (np_put_frame (Some (mkFrame d false))).

Definition set_dirty (b : bool) : MN unit :=
  f ← fetch_page ; modify (np_put_frame (Some (mkFrame (pg_data f) b))).

(** ** The log *)

(** While the log is behind, the call waits ([Blocked]) with its flush request
    outstanding. *)
Definition wait_log_flush : MN unit :=
  f ← fetch_page ;
  if negb generate_log then when (pg_dirty f) (set_dirty false)
  else if negb (pg_dirty f) then mret tt
  else
    let required_lsn := llsn_of (pg_data f) in
    send (LogFlushRequest required_lsn) ;;
    p ← gets np_persist ;
    if p <? required_lsn then block else set_dirty false.

Definition PushPageToOther (dest : Z) (need_to_wait_log from_global : bool) (push_type : Z)
    : MN unit :=
  when from_global wait_in_bufferPool ;;
  page ← fetch_page ;
  check 581 (negb (dest =? -1)) ;;
  check 582 (negb (dest =? self)) ;;
  if negb is_data_table || negb push_with_scheduler || (push_type =? 0) then
    when (is_data_table && (need_to_wait_log && generate_log)) wait_log_flush ;;
    send (RpcPushPage dest (pg_data page))
  else
    check 608 (push_type =? 1) ;;
    let wait_lsn := if need_to_wait_log && generate_log then llsn_of (pg_data page) else 0 in
    p ← gets np_persist ;
    let can_push := negb (pg_dirty page && need_to_wait_log && generate_log && (p <? wait_lsn)) in
    when (negb can_push) (send (LogFlushRequest wait_lsn)) ;;
    send (SchedulePush dest (pg_data page) can_push wait_lsn).

(** ** Fetching *)

Definition fetch_from_storage (lsn : LLSN) : MN unit :=
  send (FetchFromStorage (if is_data_table then Some lsn else None)).

(** [rpc_lazy_fetch_s_page]: the page, if the latch was enough. *)
Definition rpc_lazy_fetch_s_page_begin : MN (option Frame) :=
  lock_remote ← onL Local.LockShared ;
  if negb lock_remote then f ← fetch_page ; mret (Some f)
  else send RpcPSLock ;; mret None.

Definition push_to_batch : MN unit :=
  push_list ← onL Local.getPushList ;
  for_each (λ d, PushPageToOther d true false 1) (rev push_list).

(** [storage d] is what the storage returns. *)
Definition rpc_lazy_fetch_s_page_finish (response : LockResponse) (storage : Data) : MN Frame :=
  (if negb (wait_lock_release response) then
     match resp_source response with
     | Some (true, _) =>
         when is_data_table (check 97 (negb (resp_lsn response =? NO_LSN))) ;;
         fetch_from_storage (resp_lsn response) ;;
         put_page_into_buffer storage
     | Some (false, valid_node) =>
         if negb (valid_node =? -1) then onL Local.TryGetPushData ;; fetch_page ;; mret tt
         else crash (AssertFailed 114)
     | None => crash (AssertFailed 114)
     end
   else
     onL Local.TryRemoteLockSuccess ;;
     push_to_batch ;;
     fetch_page ;; mret tt) ;;
  onL Local.LockRemoteOK ;;
  fetch_page.

Definition rpc_lazy_fetch_x_page_begin : MN (option Frame) :=
  lock_remote ← onL Local.LockExclusive ;
  if negb lock_remote then f ← fetch_page ; mret (Some f)
  else send RpcPXLock ;; mret None.

Definition rpc_lazy_fetch_x_page_finish (response : LockResponse) (storage : Data) : MN Frame :=
  (if negb (wait_lock_release response) then
     match resp_source response with
     | Some (true, _) =>
         check 251 (negb (resp_lsn response =? NO_LSN)) ;;
         fetch_from_storage (resp_lsn response) ;;
         put_page_into_buffer storage
     | Some (false, valid_node) =>
         if negb (valid_node =? -1) then onL Local.TryGetPushData ;; fetch_page ;; mret tt
         else fetch_page ;; mret tt
     | None => fetch_page ;; mret tt
     end
   else
     onL Local.TryRemoteLockSuccess ;;
     push_list ← onL Local.getPushList ;
     check 297 (bool_decide (push_list = [])) ;;
     fetch_page ;; mret tt) ;;
  onL Local.LockRemoteOK ;;
  fetch_page.

(** ** Releasing *)

Definition push_type_of_release : Z := if is_data_table then 1 else 0.

Definition rpc_lazy_release_s_page : MN unit :=
  r ← onL Local.tryUnlockShared ;
  dest ← onL Local.getDestNodeIDNoBlock ;
  when (negb (dest =? INVALID_NODE_ID))
    (PushPageToOther dest true false push_type_of_release ;;
     onL (Local.setDestNodeIDNoBlock INVALID_NODE_ID)) ;;
  if fst r =? 0 then
    when (snd r) unpin_page ;;
    onL Local.UnlockShared ;;
    onL Local.UnlockMtx
  else
    onL Local.UnlockShared ;;
    send RpcPAnyUnLock ;;
    releaseBufferPage ;;
    onL Local.UnlockRemoteOK.

Definition rpc_lazy_release_x_page : MN unit :=
  unlock_remote ← onL Local.tryUnlockExclusive ;
  dest ← onL Local.getDestNodeIDNoBlock ;
  if unlock_remote =? 0 then
    check 419 (dest =? INVALID_PAGE_ID) ;;
    lk ← onL Local.getLock ;
    check 420 (lk =? 0) ;;
    unpin_page ;;
    onL Local.UnlockExclusive ;;
    onL Local.UnlockMtx
  else
    when (negb (dest =? INVALID_NODE_ID))
      (PushPageToOther dest true false push_type_of_release ;;
       onL (Local.setDestNodeIDNoBlock INVALID_NODE_ID)) ;;
    onL Local.UnlockExclusive ;;
    check 445 (unlock_remote =? 2) ;;
    send RpcPAnyUnLock ;;
    releaseBufferPage ;;
    onL Local.UnlockRemoteOK.

(** ** Notifications *)

(** [ComputeNodeServiceImpl::Pending], the RPC. *)
Definition ComputeNodeServiceImpl_Pending (xpending : bool) (dest : Z) : MN unit :=
  check 180 (negb (dest =? self)) ;;
  unlock_remote ← onL (Local.Pending self xpending) ;
  d ← onL Local.getDestNodeIDNoBlock ;
  check 187 (d =? INVALID_NODE_ID) ;;
  if 0 <? unlock_remote then
    check 192 (negb (unlock_remote =? 3)) ;;
    when (negb (dest =? -1)) (PushPageToOther dest true false 0) ;;
    releaseBufferPage ;;
    check 217 (negb (page_belong_node =? self)) ;;
    send RpcPAnyUnLock ;;
    onL Local.UnlockRemoteOK
  else
    when (negb (dest =? INVALID_NODE_ID)) (onL (Local.setDestNodeIDNoBlock dest)) ;;
    onL Local.UnlockMtx.

(** [ComputeServer::Pending], the same on the node of the lock table. *)
Definition ComputeServer_Pending (xpending : bool) (dest : Z) : MN unit :=
  check 494 (negb (dest =? self)) ;;
  unlock_remote ← onL (Local.Pending self xpending) ;
  d ← onL Local.getDestNodeIDNoBlock ;
  check 502 (d =? INVALID_NODE_ID) ;;
  if 0 <? unlock_remote then
    check 507 (negb (unlock_remote =? 3)) ;;
    when (negb (dest =? -1)) (PushPageToOther dest true false push_type_of_release) ;;
    releaseBufferPage ;;
    check 535 (page_belong_node =? self) ;;
    send RpcPAnyUnLock ;;
    onL Local.UnlockRemoteOK
  else
    when (negb (dest =? INVALID_NODE_ID)) (onL (Local.setDestNodeIDNoBlock dest)) ;;
    onL Local.UnlockMtx.

Definition LockSuccess (xlock is_newest : bool) (dests : list Z) : MN unit :=
  onL (Local.RemoteNotifyLockSuccess xlock is_newest) ;;
  for_each (λ d, check 370 (negb (d =? self)) ;; onL (Local.addToPushListNoBlock d)) dests ;;
  onL Local.UnlockMtx.

Definition NotifyPushPage (src : Z) (dests : list Z) : MN unit :=
  check 139 (src =? self) ;;
  wait_in_bufferPool ;;
  check 152 (negb (bool_decide (dests = []))) ;;
  for_each (λ d, check 157 (negb (d =? src)) ;; PushPageToOther d true false 0) dests.

Definition PushPage (src dest : Z) (d : Data) : MN unit :=
  check 337 (negb (src =? dest)) ;;
  check 338 (dest =? self) ;;
  put_page_into_buffer d ;;
  onL Local.RemotePushPageSuccess.

(** ** Evicting ([put_page_into_buffe_lazy], the victim's side) *)

(** The candidate is locked against the node's own threads... *)
Definition evict_try : MN bool := onL Local.TryBeginEvict.

(** ... and, back from the replacer with the page id now in the frame, the
    lock table is asked; [false] when the page is no victim any more. *)
Definition evict_request (later_page_id : Z) : MN bool :=
  if later_page_id =? INVALID_PAGE_ID then
    onL Local.UnlockMtx ;; onL Local.EndEvict ;; mret false
  else
    unlock_remote ← onL Local.getUnlockType ;
    if unlock_remote =? 0 then onL Local.UnlockMtx ;; onL Local.EndEvict ;; mret false
    else
      (if is_data_table then fetch_page ;; wait_log_flush
       else f ← fetch_page ; send (FlushToStorage (pg_data f))) ;;
      page ← fetch_page ;
      onL Local.UnlockMtx ;;
      send (RpcBufferReleaseUnlock (if is_data_table then llsn_of (pg_data page) else 0)) ;;
      mret true.

(** From the response on; on agreement the frame goes to another page. *)
Definition evict_finish (agree : bool) : MN bool :=
  if negb agree then onL Local.EndEvict ;; mret false
  else
    f ← gets np_frame ;
    check 254 (bool_decide (is_Some f)) ;;
    modify (np_put_frame None) ;;
    lock_type ← onL Local.UnlockAny ;
    when (negb (lock_type =? 0)) (onL Local.UnlockRemoteOK) ;;
    onL Local.EndEvict ;;
    mret true.

(** ** Pushing a page *)

Definition is_push (dest : Z) (d : Data) (m : NodeMsg) : Prop :=
  m = RpcPushPage dest d ∨ ∃ can lsn, m = SchedulePush dest d can lsn.

(** Write-ahead logging: a data page that is dirty while the log is on leaves
    the node only once its last log record is durable; a deferred push carries
    the sequence number it has to wait for. *)
Definition wal_safe (dirty : bool) (persist : LLSN) (m : NodeMsg) : Prop :=
  generate_log = true → is_data_table = true → dirty = true →
  match m with
  | RpcPushPage _ d => llsn_of d ≤ persist
  | SchedulePush _ d true _ => llsn_of d ≤ persist
  | SchedulePush _ d false wait_lsn => wait_lsn = llsn_of d
  | _ => True
  end.

Definition pushed (dest : Z) (f : Frame) (s s' : NodePage) : Prop :=
  np_lock s' = np_lock s ∧ np_persist s' = np_persist s ∧
  (∃ b, np_frame s' = Some (mkFrame (pg_data f) b)) ∧
  ∃ pre m, np_out s' = np_out s ++ pre ++ [m] ∧ is_push dest (pg_data f) m ∧
    wal_safe (pg_dirty f) (np_persist s) m ∧ Forall (λ m, ∃ lsn, m = LogFlushRequest lsn) pre.

Lemma safe_fetch_page f (Q : Frame → NodePage → Prop) s :
  np_frame s = Some f → Q f s → safe fetch_page Q s.
Proof using. unfold safe, fetch_page. by intros ->. Qed.

Lemma np_eta s f : np_frame s = Some f → s = mkNP (np_lock s) (Some f) (np_persist s) (np_out s).
Proof using. destruct s; simpl. by intros ->. Qed.

(** [wait_log_flush] returns with the log of a dirty page durable. *)
Lemma wait_log_flush_spec f s :
  np_frame s = Some f →
  safe wait_log_flush (λ _ s', np_lock s' = np_lock s ∧ np_persist s' = np_persist s ∧
    (∃ b, np_frame s' = Some (mkFrame (pg_data f) b)) ∧
    (∃ pre, np_out s' = np_out s ++ pre ∧ Forall (λ m, ∃ lsn, m = LogFlushRequest lsn) pre) ∧
    (generate_log = true → pg_dirty f = true → llsn_of (pg_data f) ≤ np_persist s)) s.
Proof using.
  intros Hf. unfold wait_log_flush. safe_step. apply (safe_fetch_page f); [done|].
  destruct f as [d dirty]. cbn [pg_data pg_dirty]. safe_step.
  - apply negb_true_iff in H. rewrite H. safe_step; subst.
    + unfold set_dirty. safe_step. apply (safe_fetch_page (mkFrame d true)); [done|]. safe_step.
      split_and!; [done|done|by eexists|exists []; by rewrite app_nil_r|done].
    + split_and!; [done|done|by eexists|exists []; by rewrite app_nil_r|done].
  - safe_step.
    + apply negb_true_iff in H0. subst. safe_step.
      split_and!; [done|done|by eexists|exists []; by rewrite app_nil_r|done].
    + safe_step. unfold send. do 2 safe_step. safe_step. safe_step; [apply safe_block|].
      unfold set_dirty. safe_step. apply (safe_fetch_page (mkFrame d dirty)); [done|]. safe_step.
      simpl in *. bool_simpl. split_and!; [done|done|by eexists| |done].
      eexists. split; [done|]. apply Forall_singleton. eauto.
Qed.

Lemma PushPageToOther_spec dest push_type f s :
  np_frame s = Some f → dest ≠ -1 → dest ≠ self → push_type = 0 ∨ push_type = 1 →
  safe (PushPageToOther dest true false push_type) (λ _ s', pushed dest f s s') s.
Proof using.
  intros Hf Hd Hs Hpt. unfold PushPageToOther. do 2 safe_step; [done|]. safe_step.
  apply (safe_fetch_page f); [done|]. safe_step. apply safe_check; [by apply negb_true_iff, Z.eqb_neq|].
  safe_step. apply safe_check; [by apply negb_true_iff, Z.eqb_neq|]. safe_step.
  - safe_step. eapply safe_mono with (Q := λ (_ : unit) s', np_lock s' = np_lock s ∧
      np_persist s' = np_persist s ∧ (∃ b, np_frame s' = Some (mkFrame (pg_data f) b)) ∧
      (∃ pre, np_out s' = np_out s ++ pre ∧ Forall (λ m, ∃ lsn, m = LogFlushRequest lsn) pre) ∧
      (generate_log = true → is_data_table = true → pg_dirty f = true →
         llsn_of (pg_data f) ≤ np_persist s)).
    + safe_step.
      * eapply safe_mono; [by apply wait_log_flush_spec|]. naive_solver.
      * split_and!; [done|done|exists (pg_dirty f); rewrite Hf; by destruct f|
          exists []; by rewrite app_nil_r|].
        intros Hg Ht. rewrite Hg, Ht in H1. done.
    + intros _ s' (El & Ep & [b Efr] & (pre & Eo & Hpre) & Hw). unfold send. safe_step.
      split_and!; [done|done|by eexists|]. exists pre, (RpcPushPage dest (pg_data f)). simpl.
      rewrite Eo, <- app_assoc. split_and!; [done|by left|exact Hw|done].
  - safe_step. apply safe_check.
    { apply orb_false_iff in H0 as [_ E]. apply Z.eqb_neq in E. apply Z.eqb_eq. naive_solver. }
    do 3 safe_step.
    set (w := if true && generate_log then llsn_of (pg_data f) else 0).
    set (can := negb (pg_dirty f && true && generate_log && (np_persist s <? w))).
    assert (wal_safe (pg_dirty f) (np_persist s) (SchedulePush dest (pg_data f) can w)) as Hw.
    { intros Hg _ Hdi. unfold can, w. rewrite Hg, Hdi. simpl.
      destruct (Z.ltb_spec (np_persist s) (llsn_of (pg_data f))); simpl; [done|lia]. }
    unfold send. safe_step.
    + safe_step. split_and!; [done|done|exists (pg_dirty f); simpl; rewrite Hf; by destruct f|].
      exists [LogFlushRequest w], (SchedulePush dest (pg_data f) can w). simpl.
      rewrite <- app_assoc. split_and!; [done|right; eauto|exact Hw|apply Forall_singleton; eauto].
    + safe_step. split_and!; [done|done|exists (pg_dirty f); simpl; rewrite Hf; by destruct f|].
      exists [], (SchedulePush dest (pg_data f) can w). split_and!; [done|right; eauto|exact Hw|done].
Qed.

(** ** The invariant of a node *)

Hypothesis Hself : valid_node self.

Lemma self_valid : INVALID_NODE_ID ≠ self.
Proof using Hself. unfold valid_node, INVALID_NODE_ID in *. lia. Qed.

Record node_inv (s : NodePage) : Prop := {
  ni_lock : local_inv (np_lock s);
  (** an owner at rest has the page in its buffer, and only an owner *)
  ni_frame : ll_granting (np_lock s) = false →
    (remote_mode (np_lock s) ≠ NONE ↔ is_Some (np_frame s));
  ni_upgrade : ll_granting (np_lock s) = true → remote_mode (np_lock s) = SHARED →
    is_Some (np_frame s);
  (** a pushed page is there, and was not owned *)
  ni_push : update_success (np_lock s) = true →
    is_Some (np_frame s) ∧ remote_mode (np_lock s) = NONE;
  ni_nopush : ll_granting (np_lock s) = true → remote_mode (np_lock s) = NONE →
    update_success (np_lock s) = false → np_frame s = None;
  ni_succ : success_return (np_lock s) = true →
    need_wait (np_lock s) = bool_decide (remote_mode (np_lock s) = NONE);
  ni_list : push_list (np_lock s) ≠ [] →
    ll_granting (np_lock s) = true ∧ ll_lock (np_lock s) ≠ EXCLUSIVE_LOCKED ∧
    success_return (np_lock s) = true;
  ni_list_ok : Forall (λ d, d ≠ -1 ∧ d ≠ self) (push_list (np_lock s));
  ni_dest : dest_node_id (np_lock s) ≠ self
}.

Lemma safe_onL {A B} (op : M LRLocalPageLock A) (k : A → MN B) Q s a l' :
  op (np_lock s) = Done (a, l') → safe (k a) Q (np_put_lock l' s) → safe (onL op ≫= k) Q s.
Proof using. intros E Hk. apply safe_bind. unfold safe at 1, onL, zoom. by rewrite E. Qed.

Lemma safe_onL_last {A} (op : M LRLocalPageLock A) Q s a l' :
  op (np_lock s) = Done (a, l') → Q a (np_put_lock l' s) → safe (onL op) Q s.
Proof using. intros E Hk. unfold safe, onL, zoom. by rewrite E. Qed.

Lemma owner_frame s :
  node_inv s → ll_granting (np_lock s) = false → remote_mode (np_lock s) ≠ NONE →
  ∃ f, np_frame s = Some f.
Proof using. intros Hs Hg Hm. by apply (proj1 (ni_frame s Hs Hg)). Qed.

(** What a handler sent to satisfy a push request for [dest]. *)
Definition push_part (dest : Z) (f : Frame) (persist : LLSN) (ms : list NodeMsg) : Prop :=
  (dest = -1 ∧ ms = []) ∨
  (dest ≠ -1 ∧ ∃ pre m, ms = pre ++ [m] ∧ is_push dest (pg_data f) m ∧
     wal_safe (pg_dirty f) persist m ∧ Forall (λ m, ∃ lsn, m = LogFlushRequest lsn) pre).

(** Pushing to a recorded destination, if there is one, and clearing it. *)
Lemma push_dest_spec dest pt f s :
  np_frame s = Some f → dest ≠ self → pt = 0 ∨ pt = 1 → dest_node_id (np_lock s) = dest →
  safe (when (negb (dest =? INVALID_NODE_ID))
          (PushPageToOther dest true false pt ;;
           onL (Local.setDestNodeIDNoBlock INVALID_NODE_ID)))
    (λ _ s', np_lock s' = set_dest INVALID_NODE_ID (np_lock s) ∧
      np_persist s' = np_persist s ∧ is_Some (np_frame s') ∧
      ∃ ms, np_out s' = np_out s ++ ms ∧ push_part dest f (np_persist s) ms) s.
Proof using.
  intros Hf Hs Hpt Hd. safe_step; bool_simpl.
  - safe_step. eapply safe_mono; [by apply (PushPageToOther_spec dest pt f s)|].
    intros _ s' (El & Ep & [b Efr] & pre & m & Eo & Hm & Hw & Hpre).
    eapply safe_onL_last; [reflexivity|]. simpl. rewrite El. split_and!; [done|done|by eexists|].
    exists (pre ++ [m]). split; [done|]. right. split; [done|]. by exists pre, m.
  - split_and!; [|done|by eexists|].
    + unfold INVALID_NODE_ID in H. destruct (np_lock s). simpl in *. by subst.
    + exists []. split; [by rewrite app_nil_r|]. by left.
Qed.

(** What releasing a latch does, whatever its mode: [last] tells whether the
    remote ownership went too. *)
Record release_result (s : NodePage) (f : Frame) (give : bool) (lk : Z) (s' : NodePage) : Prop := {
  rr_lock : ll_lock (np_lock s') = lk;
  rr_mode : remote_mode (np_lock s') = if give then NONE else remote_mode (np_lock s);
  rr_pending : ll_pending (np_lock s') = if give then false else ll_pending (np_lock s);
  rr_frame : is_Some (np_frame s') ↔ give = false;
  rr_persist : np_persist s' = np_persist s;
  rr_out : ∃ ms, np_out s' = np_out s ++ ms ++ (if give then [RpcPAnyUnLock] else []) ∧
    push_part (dest_node_id (np_lock s)) f (np_persist s) ms
}.

Definition holds_shared (l : LRLocalPageLock) : Prop :=
  0 < ll_lock l < EXCLUSIVE_LOCKED ∧ ll_granting l = false.
Definition holds_exclusive (l : LRLocalPageLock) : Prop :=
  ll_lock l = EXCLUSIVE_LOCKED ∧ ll_granting l = false.

Lemma safe_release_frame {B} (k : unit → MN B) Q s :
  is_Some (np_frame s) → safe (k tt) Q (np_put_frame None s) → safe (releaseBufferPage ≫= k) Q s.
Proof using.
  intros Hf Hk. unfold releaseBufferPage. do 3 safe_step.
  safe_step. apply safe_check; [by apply bool_decide_eq_true|].
  safe_step. done.
Qed.

Lemma holds_shared_mode s :
  node_inv s → holds_shared (np_lock s) → remote_mode (np_lock s) ≠ NONE.
Proof using. intros Hs [Hlk Hg]. apply (li_reader _ (ni_lock _ Hs)); [lia|done]. Qed.

Lemma holds_exclusive_mode s :
  node_inv s → holds_exclusive (np_lock s) → remote_mode (np_lock s) = EXCLUSIVE.
Proof using. intros Hs [Hlk Hg]. by apply (li_writer _ (ni_lock _ Hs)). Qed.

Lemma no_push_list s : node_inv s → ll_granting (np_lock s) = false → push_list (np_lock s) = [].
Proof using.
  intros Hs Hg. destruct (push_list (np_lock s)) eqn:E; [done|].
  destruct (ni_list _ Hs) as [Hg' _]; [by rewrite E|congruence].
Qed.

(** The lock of a node that releases a latch: [lk] is the new word, [give]
    whether the remote ownership goes with it. *)
Definition after_release (lk : Z) (give : bool) (l : LRLocalPageLock) : LRLocalPageLock :=
  let l := set_ll_lock lk (set_dest INVALID_NODE_ID l) in
  if give then set_mode NONE (set_ll_pending false (set_released true l)) else l.

Lemma after_release_inv s s' lk (give : bool) :
  node_inv s → ll_granting (np_lock s) = false → remote_mode (np_lock s) ≠ NONE →
  (if give then lk = 0 else 0 ≤ lk < EXCLUSIVE_LOCKED ∧ (ll_pending (np_lock s) = true → lk ≠ 0)) →
  is_evicting (np_lock s) = false →
  np_lock s' = after_release lk give (np_lock s) →
  (is_Some (np_frame s') ↔ give = false) → node_inv s'.
Proof using Hself.
  intros Hs Hg Hm Hlk Hev El Hf. pose proof (no_push_list _ Hs Hg) as Hpl.
  destruct (ni_lock _ Hs) as [Hr Hw Hrd Hgr Hp He Hr1 Hr2 Hfl Hd Hfree].
  destruct (Hfl Hg) as [Hsu Hup].
  assert (local_inv (np_lock s')) as Hl'.
  { rewrite El. unfold after_release. destruct (np_lock s) as [pid w mode pend grant succ nw us
      dest pl ev rel mx]; simpl in *; subst.
    destruct give; [subst lk|destruct Hlk as [Hlk Hlk']]; split; simpl; try done;
      try (intros; lia); try tauto; right; unfold EXCLUSIVE_LOCKED in *; lia. }
  split; [done|..]; rewrite El; unfold after_release; destruct give; simpl; rewrite ?Hg, ?Hpl, ?Hup, ?Hsu;
    try done; try (intros _; rewrite Hf; split; done); apply self_valid.
Qed.

Lemma unlock_after w give l :
  ll_mutex l = false →
  mutex_set false (mutex_set true (after_release w give l)) = after_release w give l.
Proof using. unfold after_release. local_cases. intros ->. by destruct give. Qed.

Lemma rpc_lazy_release_s_page_spec s :
  node_inv s → holds_shared (np_lock s) →
  ∃ f, np_frame s = Some f ∧
  safe rpc_lazy_release_s_page (λ _ s', node_inv s' ∧
    release_result s f ((ll_lock (np_lock s) =? 1) && ll_pending (np_lock s))
      (ll_lock (np_lock s) - 1) s') s.
Proof using Hself.
  intros Hs Hh. pose proof Hh as [Hlk Hg]. pose proof (holds_shared_mode _ Hs Hh) as Hm.
  destruct (owner_frame _ Hs Hg Hm) as [f Hf]. exists f. split; [done|].
  pose proof (ni_lock _ Hs) as Hl. set (give := (ll_lock (np_lock s) =? 1) && ll_pending (np_lock s)).
  set (l1 := if give then set_released true (locked (np_lock s)) else locked (np_lock s)).
  assert (is_evicting (np_lock s) = false) as Hev.
  { destruct (is_evicting (np_lock s)) eqn:E; [|done]. apply (li_evict _ Hl) in E. lia. }
  set (r := if give then (Local.unlock_type (remote_mode (np_lock s)), false)
            else (0, ll_lock (np_lock s) =? 1)).
  unfold rpc_lazy_release_s_page. eapply safe_onL with (l' := l1) (a := r).
  { rewrite run_tryUnlockShared by (done || apply Hl). fold give. unfold l1, r.
    by destruct give. }
  eapply safe_onL; [reflexivity|]. cbn [np_lock np_put_lock].
  assert (dest_node_id l1 = dest_node_id (np_lock s)) as Hd by by (unfold l1; destruct give).
  rewrite Hd. safe_step. eapply safe_mono.
  { apply (push_dest_spec (dest_node_id (np_lock s)) push_type_of_release f); try done.
    - apply Hs.
    - unfold push_type_of_release. destruct is_data_table; auto. }
  cbn [np_lock np_persist np_out np_put_lock].
  intros _ s2 (El & Ep & Hfr & ms & Eo & Hms).
  assert (ll_lock (np_lock s2) = ll_lock (np_lock s) ∧
          ll_pending (np_lock s2) = ll_pending (np_lock s)) as [Elk Epe].
  { rewrite El. unfold l1. by destruct give. }
  assert (Local.UnlockShared (np_lock s2) = Done (tt,
    mutex_set true (after_release (ll_lock (np_lock s) - 1) give (np_lock s)))) as Eun.
  { rewrite run_UnlockShared by (rewrite Elk; done). rewrite Elk, Epe. fold give.
    rewrite El. unfold after_release, l1. by destruct give. }
  assert (ll_lock (np_lock s) - 1 ≠ 0 ∨ ll_lock (np_lock s) - 1 = 0) as Hcase by lia.
  destruct give eqn:Eg; cbn [fst snd r] in *.
  - unfold give in Eg. apply andb_true_iff in Eg as [E1 E2]. bool_simpl.
    rewrite (proj2 (Z.eqb_neq _ 0)) by (unfold Local.unlock_type; case_bool_decide; done).
    eapply safe_onL; [exact Eun|]. unfold send. do 2 safe_step. apply safe_release_frame; [done|].
    eapply safe_onL_last; [by apply run_unlockMtx|].
    cbn [np_lock np_put_lock np_frame np_put_frame np_out np_persist np_put_out].
    rewrite unlock_after by apply Hl. split.
    + eapply (after_release_inv s _ (ll_lock (np_lock s) - 1) true); try done; simpl; [lia|].
      split; [by intros [? ?]|done].
    + split; try done; simpl.
      * split; [by intros [? ?]|done].
      * exists ms. by rewrite Eo, app_assoc.
  - cbn [Z.eqb]. safe_step. eapply safe_mono with (Q := λ _ s', s' = s2).
    { safe_step; [|done]. unfold unpin_page. do 2 safe_step. apply safe_check; [|done].
      by apply bool_decide_eq_true. }
    intros _ s3 ->. eapply safe_onL; [exact Eun|]. eapply safe_onL_last; [by apply run_unlockMtx|].
    cbn [np_lock np_put_lock np_frame np_put_frame np_out np_persist np_put_out].
    rewrite unlock_after by apply Hl. split.
    + eapply (after_release_inv s _ (ll_lock (np_lock s) - 1) false); try done; simpl.
      * split; [lia|]. intros Hp. unfold give in Eg. rewrite Hp, andb_true_r in Eg. bool_simpl. lia.
    + split; try done; simpl.
      exists ms. by rewrite Eo, app_nil_r.
Qed.

Lemma rpc_lazy_release_x_page_spec s :
  node_inv s → holds_exclusive (np_lock s) →
  ∃ f, np_frame s = Some f ∧
  safe rpc_lazy_release_x_page (λ _ s', node_inv s' ∧
    release_result s f (ll_pending (np_lock s)) 0 s') s.
Proof using Hself.
  intros Hs Hh. pose proof Hh as [Hlk Hg]. pose proof (holds_exclusive_mode _ Hs Hh) as Hm.
  assert (remote_mode (np_lock s) ≠ NONE) as Hnn by by rewrite Hm.
  destruct (owner_frame _ Hs Hg Hnn) as [f Hf]. exists f. split; [done|].
  pose proof (ni_lock _ Hs) as Hl.
  set (give := ll_pending (np_lock s)).
  set (l1 := if give then set_released true (locked (np_lock s)) else locked (np_lock s)).
  assert (is_evicting (np_lock s) = false) as Hev.
  { destruct (is_evicting (np_lock s)) eqn:E; [|done]. apply (li_evict _ Hl) in E. by rewrite Hlk in E. }
  unfold rpc_lazy_release_x_page. eapply safe_onL with (l' := l1) (a := if give then 2 else 0).
  { rewrite run_tryUnlockExclusive by (done || apply Hl). fold give. unfold l1. by destruct give. }
  eapply safe_onL; [reflexivity|]. cbn [np_lock np_put_lock].
  assert (dest_node_id l1 = dest_node_id (np_lock s)) as Hd by by (unfold l1; destruct give).
  rewrite Hd. destruct give eqn:Eg; cbn [Z.eqb].
  - safe_step. eapply safe_mono.
    { apply (push_dest_spec (dest_node_id (np_lock s)) push_type_of_release f); try done.
      - apply Hs.
      - unfold push_type_of_release. destruct is_data_table; auto. }
    cbn [np_lock np_persist np_out np_put_lock].
    intros _ s2 (El & Ep & Hfr & ms & Eo & Hms).
    assert (Local.UnlockExclusive (np_lock s2) = Done (tt,
      mutex_set true (after_release 0 true (np_lock s)))) as Eun.
    { rewrite run_UnlockExclusive, El. unfold l1. cbn [ll_pending set_dest set_released locked
        mutex_set LRLocal_mutex]. fold give. by rewrite Eg. }
    eapply safe_onL; [exact Eun|]. safe_step. apply safe_check; [done|].
    unfold send. do 2 safe_step. apply safe_release_frame; [done|].
    eapply safe_onL_last; [by apply run_unlockMtx|].
    cbn [np_lock np_put_lock np_frame np_put_frame np_out np_persist np_put_out].
    rewrite unlock_after by apply Hl. split.
    + eapply (after_release_inv s _ 0 true); try done; simpl. split; [by intros [? ?]|done].
    + split; try done; simpl.
      * split; [by intros [? ?]|done].
      * exists ms. by rewrite Eo, app_assoc.
  - assert (dest_node_id (np_lock s) = INVALID_PAGE_ID) as Hdest.
    { destruct (decide (dest_node_id (np_lock s) = INVALID_NODE_ID)) as [|Hne]; [done|].
      apply (li_dest _ Hl) in Hne. unfold give in Eg. congruence. }
    safe_step. apply safe_check; [by rewrite Hdest|].
    eapply safe_onL; [by apply run_getLock_exclusive|]. safe_step. apply safe_check; [done|].
    unfold unpin_page. do 3 safe_step. apply safe_check.
    { apply bool_decide_eq_true. simpl. by rewrite Hf. }
    assert (Local.UnlockExclusive l1 = Done (tt,
      mutex_set true (after_release 0 false (np_lock s)))) as Eun.
    { rewrite run_UnlockExclusive. unfold l1. cbn [ll_pending locked mutex_set LRLocal_mutex].
      fold give. rewrite Eg. do 2 f_equal. unfold after_release, locked. unfold give in Eg.
      clear -Hdest Eg. destruct (np_lock s). simpl in *. by subst. }
    eapply safe_onL; [exact Eun|]. eapply safe_onL_last; [by apply run_unlockMtx|].
    cbn [np_lock np_put_lock np_frame np_put_frame np_out np_persist np_put_out].
    rewrite unlock_after by apply Hl. split.
    + eapply (after_release_inv s _ 0 false); try done; simpl.
      split; [unfold EXCLUSIVE_LOCKED; lia|]. unfold give in Eg. by rewrite Eg.
    + split; try done; simpl.
      * exists []. split; [by rewrite app_nil_r|]. left. done.
Qed.

(** ** Being asked for the page *)

Lemma push_opt_spec dest pt f s :
  np_frame s = Some f → dest ≠ self → pt = 0 ∨ pt = 1 →
  safe (when (negb (dest =? -1)) (PushPageToOther dest true false pt))
    (λ _ s', np_lock s' = np_lock s ∧ np_persist s' = np_persist s ∧ is_Some (np_frame s') ∧
      ∃ ms, np_out s' = np_out s ++ ms ∧ push_part dest f (np_persist s) ms) s.
Proof using.
  intros Hf Hs Hpt. safe_step; bool_simpl.
  - eapply safe_mono; [by apply (PushPageToOther_spec dest pt f s)|].
    intros _ s' (El & Ep & [b Efr] & pre & m & Eo & Hm & Hw & Hpre).
    split_and!; [done|done|by eexists|]. exists (pre ++ [m]). split; [done|]. right.
    split; [done|]. by exists pre, m.
  - split_and!; [done|done|by eexists|]. exists []. split; [by rewrite app_nil_r|]. by left.
Qed.

(** The common shape of the two [Pending] handlers. *)
Definition pending_body (a b c e : Z) (belongs : bool) (push_type : Z) (xpending : bool)
    (dest : Z) : MN unit :=
  check a (negb (dest =? self)) ;;
  unlock_remote ← onL (Local.Pending self xpending) ;
  d ← onL Local.getDestNodeIDNoBlock ;
  check b (d =? INVALID_NODE_ID) ;;
  if 0 <? unlock_remote then
    check c (negb (unlock_remote =? 3)) ;;
    when (negb (dest =? -1)) (PushPageToOther dest true false push_type) ;;
    releaseBufferPage ;;
    check e belongs ;;
    send RpcPAnyUnLock ;;
    onL Local.UnlockRemoteOK
  else
    when (negb (dest =? INVALID_NODE_ID)) (onL (Local.setDestNodeIDNoBlock dest)) ;;
    onL Local.UnlockMtx.

Lemma rpc_pending_body xp dest :
  ComputeNodeServiceImpl_Pending xp dest =
  pending_body 180 187 192 217 (negb (page_belong_node =? self)) 0 xp dest.
Proof using. reflexivity. Qed.

Lemma local_pending_body xp dest :
  ComputeServer_Pending xp dest =
  pending_body 494 502 507 535 (page_belong_node =? self) push_type_of_release xp dest.
Proof using. reflexivity. Qed.

(** The lock table's contract: it asks once per round, an owner or a node that
    is acquiring; an upgrade is only refused its shared copy before it is
    granted. *)
Definition may_pend (xp : bool) (dest : Z) (s : NodePage) : Prop :=
  let l := np_lock s in
  ll_pending l = false ∧ dest ≠ self ∧
  (ll_granting l = false → remote_mode l ≠ NONE) ∧
  (ll_granting l = true → remote_mode l = SHARED → xp = false → success_return l = false).

(** Whether the node gives the page up at once. *)
Definition gives_up (xp : bool) (l : LRLocalPageLock) : bool :=
  if ll_granting l then bool_decide (remote_mode l = SHARED) && negb xp else ll_lock l =? 0.

Definition pend_result (xp : bool) (dest : Z) (s s' : NodePage) : Prop :=
  ll_lock (np_lock s') = ll_lock (np_lock s) ∧
  ll_granting (np_lock s') = ll_granting (np_lock s) ∧
  if gives_up xp (np_lock s) then
    remote_mode (np_lock s') = NONE ∧ np_frame s' = None ∧
    ∃ f ms, np_frame s = Some f ∧ np_out s' = np_out s ++ ms ++ [RpcPAnyUnLock] ∧
      push_part dest f (np_persist s) ms
  else
    remote_mode (np_lock s') = remote_mode (np_lock s) ∧ np_frame s' = np_frame s ∧
    ll_pending (np_lock s') = true ∧ dest_node_id (np_lock s') = dest ∧ np_out s' = np_out s.

Ltac node_cases H :=
  destruct H as [[Hr Hw Hrd Hgr Hp He Hr1 Hr2 Hfl Hd Hfree] Hfr Hupg Hpu Hnp Hsu Hli Hlo Hde];
  match goal with s : NodePage |- _ => destruct s as [l0 fr per0 out0] end;
  cbn [np_lock np_frame] in *;
  match goal with l0 : LRLocalPageLock |- _ =>
    destruct l0 as [pid lk mode pend grant succ nw us dest0 pl ev rel mx] end;
  simpl in *; subst.

(** The shared copy of an upgrading node is taken away. *)
Lemma pend_inv_upgrade s per out :
  node_inv s → ll_granting (np_lock s) = true → remote_mode (np_lock s) = SHARED →
  success_return (np_lock s) = false → ll_pending (np_lock s) = false →
  node_inv (mkNP (set_mode NONE (np_lock s)) None per out).
Proof using.
  intros Hs Hg Hm Hsu0 Hpe. node_cases Hs.
  destruct us; [by destruct (Hpu eq_refl)|].
  assert (pl = []) as -> by (destruct pl; [done|]; by destruct Hli as (_ & _ & ?)).
  destruct (Hgr eq_refl) as [_ [Hlk|[_ ?]]]; [|done].
  split; try split; simpl; try done. intros _. split; [done|by left].
Qed.

(** An idle owner gives the page up. *)
Lemma pend_inv_release s per out :
  node_inv s → ll_granting (np_lock s) = false → ll_lock (np_lock s) = 0 →
  node_inv (mkNP (set_mode NONE (set_released true (np_lock s))) None per out).
Proof using.
  intros Hs Hg Hlk. node_cases Hs. destruct (Hfl eq_refl) as [-> ->].
  assert (pl = []) as -> by (destruct pl; [done|]; by destruct Hli).
  destruct pend; [by destruct (Hp eq_refl)|].
  split; try split; simpl; done.
Qed.

(** A busy node remembers that it has to. *)
Lemma pend_inv_wait s dest per out :
  node_inv s → ll_lock (np_lock s) ≠ 0 → dest ≠ self →
  node_inv (mkNP (set_dest dest (set_ll_pending true (np_lock s))) (np_frame s) per out).
Proof using.
  intros Hs Hlk Hdne. node_cases Hs. split; try split; simpl; try done; try tauto.
Qed.

Lemma pending_body_spec a b c e belongs pt xp dest s :
  node_inv s → may_pend xp dest s → belongs = true → pt = 0 ∨ pt = 1 →
  safe (pending_body a b c e belongs pt xp dest) (λ _ s', node_inv s' ∧
    pend_result xp dest s s') s.
Proof using Hself.
  intros Hs (Hpe & Hde & Hmo & Hup) -> Hpt. pose proof (ni_lock _ Hs) as Hl.
  unfold pending_body. safe_step. apply safe_check; [by apply negb_true_iff, Z.eqb_neq|].
  set (gu := gives_up xp (np_lock s)).
  assert (dest_node_id (np_lock s) = INVALID_NODE_ID) as Hdi.
  { destruct (decide (dest_node_id (np_lock s) = INVALID_NODE_ID)) as [|Hne]; [done|].
    apply (li_dest _ Hl) in Hne. congruence. }
  set (lgiven := if ll_granting (np_lock s) then set_mode NONE (np_lock s)
                 else set_mode NONE (set_released true (np_lock s))).
  set (l1 := mutex_set true (if gu then lgiven else set_ll_pending true (np_lock s))).
  set (u := if gu then (if ll_granting (np_lock s) then 1
                        else Local.unlock_type (remote_mode (np_lock s))) else 0).
  eapply safe_onL with (a := u) (l' := l1).
  { rewrite run_Pending by done. unfold u, l1, lgiven, gu, gives_up, locked.
    destruct (ll_granting (np_lock s)); [by destruct (bool_decide _ && _)|].
    by destruct (ll_lock (np_lock s) =? 0). }
  eapply safe_onL; [reflexivity|]. cbn [np_lock np_put_lock].
  assert (dest_node_id l1 = INVALID_NODE_ID) as Hd1.
  { unfold l1, lgiven. destruct gu, (ll_granting (np_lock s)); done. }
  safe_step. apply safe_check; [by rewrite Hd1|].
  destruct gu eqn:Egu.
  - assert (0 < u ∧ u ≠ 3) as [Hu1 Hu2].
    { unfold u, Local.unlock_type. destruct (ll_granting (np_lock s)); [lia|].
      case_bool_decide; lia. }
    rewrite (proj2 (Z.ltb_lt 0 u)) by done. safe_step.
    apply safe_check; [by apply negb_true_iff, Z.eqb_neq|].
    assert (∃ f, np_frame s = Some f) as [f Hf].
    { unfold gu, gives_up in Egu. destruct (ll_granting (np_lock s)) eqn:Eg.
      - apply andb_true_iff in Egu as [Egu _]. bool_simpl. by apply (ni_upgrade _ Hs).
      - apply (ni_frame _ Hs Eg), Hmo. done. }
    safe_step. eapply safe_mono; [by apply (push_opt_spec dest pt f)|].
    cbn [np_lock np_persist np_out np_put_lock np_frame].
    intros _ s2 (El & Ep & Hfr2 & ms & Eo & Hms). apply safe_release_frame; [done|].
    safe_step. apply safe_check; [done|]. unfold send. do 2 safe_step.
    eapply safe_onL_last with (l' := lgiven).
    { cbn [np_lock np_put_out np_put_frame]. rewrite El. unfold l1, lgiven.
      pose proof (li_free _ Hl) as Hfree. clear -Hfree. destruct (np_lock s); simpl in *; subst.
      by destruct ll_granting. }
    cbn [np_lock np_put_lock np_frame np_put_frame np_out np_persist np_put_out].
    assert (node_inv (mkNP lgiven None (np_persist s2) (np_out s2 ++ [RpcPAnyUnLock]))) as Hinv.
    { unfold lgiven. unfold gu, gives_up in Egu. destruct (ll_granting (np_lock s)) eqn:Eg.
      - apply andb_true_iff in Egu as [Egu1 Egu2]. bool_simpl.
        apply pend_inv_upgrade; try done. by apply Hup.
      - bool_simpl. by apply pend_inv_release. }
    split; [exact Hinv|]. unfold pend_result. fold gu. rewrite Egu. cbn [np_lock np_frame np_out].
    split_and!.
    + unfold lgiven. by destruct (ll_granting (np_lock s)).
    + unfold lgiven. by destruct (ll_granting (np_lock s)) eqn:E.
    + unfold lgiven. by destruct (ll_granting (np_lock s)).
    + done.
    + exists f, ms. split; [done|]. simpl. by rewrite Eo, <- app_assoc.
  - cbn [Z.ltb Z.compare u]. unfold u. cbn [Z.ltb Z.compare].
    assert (ll_lock (np_lock s) ≠ 0) as Hlk.
    { unfold gu, gives_up in Egu. destruct (ll_granting (np_lock s)) eqn:Eg; bool_simpl; [|done].
      destruct (li_grant _ Hl Eg) as [_ [->|[-> _]]]; done. }
    set (l2 := set_dest dest (set_ll_pending true (np_lock s))).
    safe_step. eapply safe_mono with (Q := λ (_ : unit) s', s' = np_put_lock (mutex_set true l2) s).
    { safe_step; bool_simpl.
      - eapply safe_onL_last; [reflexivity|]. unfold np_put_lock. simpl. f_equal.
      - unfold np_put_lock. simpl. f_equal. subst. unfold l1, l2. clear -Hdi.
        destruct (np_lock s). simpl in *. by subst. }
    intros _ s' ->. eapply safe_onL_last with (l' := l2).
    { cbn [np_lock np_put_lock]. pose proof (li_free _ Hl) as Hfree. unfold l2. clear -Hfree.
      destruct (np_lock s); simpl in *; by subst. }
    split.
    + by apply (pend_inv_wait s dest (np_persist s) (np_out s)).
    + unfold pend_result. fold gu. rewrite Egu. done.
Qed.

(** ** Fetching *)

Lemma idle_owner_frame s :
  node_inv s → ll_granting (np_lock s) = false →
  bool_decide (remote_mode (np_lock s) = NONE) = negb (bool_decide (is_Some (np_frame s))).
Proof using.
  intros Hs Hg. pose proof (ni_frame s Hs Hg) as Hf.
  do 2 case_bool_decide; try done; exfalso; tauto.
Qed.

Lemma begin_inv s l' fr per out :
  node_inv s → local_inv l' → busy (np_lock s) = false → fr = np_frame s →
  remote_mode l' = remote_mode (np_lock s) →
  success_return l' = success_return (np_lock s) → need_wait l' = need_wait (np_lock s) →
  update_success l' = update_success (np_lock s) → push_list l' = push_list (np_lock s) →
  dest_node_id l' = dest_node_id (np_lock s) →
  node_inv (mkNP l' fr per out).
Proof using.
  intros Hs Hl Hb -> Em Esu Enw Eup Epl Ede.
  assert (ll_granting (np_lock s) = false) as Hg.
  { unfold busy in Hb. by apply orb_false_iff in Hb as [[Hb _]%orb_false_iff _]. }
  pose proof (ni_frame s Hs Hg) as Hf. pose proof (no_push_list s Hs Hg) as Hpl.
  destruct (li_flags _ (ni_lock _ Hs) Hg) as [Hsu Hup].
  split; cbn [np_lock np_frame]; rewrite ?Em, ?Esu, ?Enw, ?Eup, ?Epl, ?Ede, ?Hsu, ?Hup, ?Hpl; try done.
  - intros _ Hm. apply Hf. by rewrite Hm.
  - intros _ Hm _. destruct (np_frame s) eqn:E; [|done]. destruct (proj2 Hf); [by eexists|done].
  - apply Hs.
Qed.

(** What a latch request returns: the page when the node owns it in the right
    mode, nothing and an outstanding request to the lock table otherwise. *)
Lemma rpc_lazy_fetch_s_page_begin_spec s :
  node_inv s → ll_lock (np_lock s) ≠ EXCLUSIVE_LOCKED - 1 →
  safe rpc_lazy_fetch_s_page_begin (λ r s', node_inv s' ∧
    ll_lock (np_lock s') = ll_lock (np_lock s) + 1 ∧
    remote_mode (np_lock s') = remote_mode (np_lock s) ∧ np_frame s' = np_frame s ∧
    busy (np_lock s) = false ∧ ll_lock (np_lock s) ≠ EXCLUSIVE_LOCKED ∧
    if bool_decide (remote_mode (np_lock s) = NONE)
    then r = None ∧ ll_granting (np_lock s') = true ∧ np_out s' = np_out s ++ [RpcPSLock]
    else r = np_frame s ∧ is_Some r ∧ ll_granting (np_lock s') = false ∧ np_out s' = np_out s) s.
Proof using.
  intros Hs Hmax. pose proof (ni_lock _ Hs) as Hl. unfold rpc_lazy_fetch_s_page_begin.
  safe_step. unfold safe at 1, onL, zoom. rewrite (local_LockShared_spec _ Hl Hmax).
  destruct (busy (np_lock s)) eqn:Hb; [done|]. simpl orb.
  destruct (Z.eqb_spec (ll_lock (np_lock s)) EXCLUSIVE_LOCKED) as [|Hne]; [done|].
  pose proof (local_inv_shared _ Hl _ Hne Hmax Hb eq_refl) as Hl'.
  assert (ll_granting (np_lock s) = false) as Hg.
  { unfold busy in Hb. by apply orb_false_iff in Hb as [[Hb' _]%orb_false_iff _]. }
  destruct (bool_decide (remote_mode (np_lock s) = NONE)) eqn:Hm; cbn [negb].
  - unfold send. do 2 safe_step. safe_step. split; [|done].
    by apply (begin_inv s).
  - rewrite idle_owner_frame in Hm by done. apply negb_false_iff, bool_decide_eq_true in Hm as [f Hf].
    safe_step. apply (safe_fetch_page f); [done|]. safe_step. split; [by apply (begin_inv s)|].
    rewrite Hf. split_and!; done || by eexists.
Qed.

Lemma rpc_lazy_fetch_x_page_begin_spec s :
  node_inv s →
  safe rpc_lazy_fetch_x_page_begin (λ r s', node_inv s' ∧
    ll_lock (np_lock s') = EXCLUSIVE_LOCKED ∧
    remote_mode (np_lock s') = remote_mode (np_lock s) ∧ np_frame s' = np_frame s ∧
    busy (np_lock s) = false ∧ ll_lock (np_lock s) = 0 ∧
    if bool_decide (remote_mode (np_lock s) = EXCLUSIVE)
    then r = np_frame s ∧ is_Some r ∧ ll_granting (np_lock s') = false ∧ np_out s' = np_out s
    else r = None ∧ ll_granting (np_lock s') = true ∧ np_out s' = np_out s ++ [RpcPXLock]) s.
Proof using.
  intros Hs. pose proof (ni_lock _ Hs) as Hl. unfold rpc_lazy_fetch_x_page_begin.
  safe_step. unfold safe at 1, onL, zoom. rewrite (local_LockExclusive_spec _ Hl).
  destruct (busy (np_lock s)) eqn:Hb; [done|]. simpl orb.
  destruct (Z.eqb_spec (ll_lock (np_lock s)) 0) as [H0|Hne]; [|done]. cbn [negb].
  pose proof (local_inv_exclusive _ Hl _ H0 Hb eq_refl) as Hl'.
  assert (ll_granting (np_lock s) = false) as Hg.
  { unfold busy in Hb. by apply orb_false_iff in Hb as [[Hb' _]%orb_false_iff _]. }
  destruct (bool_decide (remote_mode (np_lock s) = EXCLUSIVE)) eqn:Hm; cbn [negb] in *.
  - bool_simpl. destruct (owner_frame s Hs Hg) as [f Hf]; [by rewrite Hm|].
    safe_step. apply (safe_fetch_page f); [done|]. safe_step. split; [by apply (begin_inv s)|].
    rewrite Hf. split_and!; done || by eexists.
  - unfold send. do 2 safe_step. safe_step. split; [|done].
    by apply (begin_inv s).
Qed.

(** The state in which a fetch calls [LockRemoteOK]: the page is there and
    every notification has been consumed. *)
Definition fetched (s : NodePage) : Prop :=
  local_inv (np_lock s) ∧ ll_granting (np_lock s) = true ∧
  success_return (np_lock s) = false ∧ update_success (np_lock s) = false ∧
  push_list (np_lock s) = [] ∧ dest_node_id (np_lock s) ≠ self ∧ is_Some (np_frame s).

Definition finish_result (s : NodePage) (f : Frame) (s' : NodePage) : Prop :=
  ll_lock (np_lock s') = ll_lock (np_lock s) ∧ ll_granting (np_lock s') = false ∧
  remote_mode (np_lock s') =
    (if ll_lock (np_lock s) =? EXCLUSIVE_LOCKED then EXCLUSIVE else SHARED) ∧
  np_frame s' = Some f.

Lemma fetched_finish s :
  fetched s →
  safe (onL Local.LockRemoteOK ;; fetch_page)
    (λ f s', node_inv s' ∧ finish_result s f s' ∧ np_frame s' = np_frame s ∧
             np_out s' = np_out s) s.
Proof using.
  intros (Hl & Hg & Hsu & Hup & Hpl & Hd & [f Hf]). safe_step. apply safe_zoom, wp_safe.
  eapply wp_mono; [by apply (LockRemoteOK_spec _ Hl)|]. intros _ l' [Hl' ->].
  apply (safe_fetch_page f); [done|]. split_and!; try done.
  split; simpl; rewrite ?Hpl, ?Hsu, ?Hup; try done.
  - rewrite Hf. intros _. split; [by eexists|]. by destruct (_ =? _).
Qed.

(** Forwarding the page to the other members of the batch. *)
Lemma push_batch_spec dests f s :
  np_frame s = Some f → Forall (λ d, d ≠ -1 ∧ d ≠ self) dests →
  safe (for_each (λ d, PushPageToOther d true false 1) dests) (λ _ s',
    np_lock s' = np_lock s ∧ ∃ b, np_frame s' = Some (mkFrame (pg_data f) b)) s.
Proof using.
  intros Hf Hd. apply (safe_for_each _ (λ rest s', np_lock s' = np_lock s ∧
    Forall (λ d, d ≠ -1 ∧ d ≠ self) rest ∧ ∃ b, np_frame s' = Some (mkFrame (pg_data f) b))).
  - split_and!; [done|done|]. exists (pg_dirty f). rewrite Hf. by destruct f.
  - intros d rest s1 (El & Hrest & [b Hf1]). apply Forall_cons in Hrest as [[Hd1 Hd2] Hrest].
    eapply safe_mono; [apply (PushPageToOther_spec d 1 _ s1 Hf1); auto|].
    intros _ s2 (El2 & _ & [b2 Hf2] & _). split_and!; [congruence|done|by eexists].
  - intros s1 (El & _ & Hf1). done.
Qed.

(** The server's side of the contract of a fetch: nobody notifies a request
    that was granted at once, and it says truthfully where the page is. *)
Definition response_ok (xlock : bool) (r : LockResponse) (s : NodePage) : Prop :=
  let l := np_lock s in
  ll_granting l = true ∧ (ll_lock l = EXCLUSIVE_LOCKED ↔ xlock = true) ∧
  (wait_lock_release r = false → success_return l = false ∧ resp_lsn r ≠ NO_LSN ∧
    match resp_source r with
    | Some (true, _) => remote_mode l = NONE ∧ update_success l = false
    | Some (false, newest) =>
        if newest =? -1 then xlock = true ∧ remote_mode l = SHARED else remote_mode l = NONE
    | None => False
    end).

Lemma granting_push_list s :
  node_inv s → success_return (np_lock s) = false → push_list (np_lock s) = [].
Proof using.
  intros Hs Hsu. destruct (push_list (np_lock s)) eqn:E; [done|].
  destruct (ni_list _ Hs) as (_ & _ & H); [by rewrite E|congruence].
Qed.

(** From a state with the notification pending to [fetched]. *)
Lemma consume_update s :
  node_inv s → ll_granting (np_lock s) = true → success_return (np_lock s) = false →
  update_success (np_lock s) = true → fetched (np_put_lock (set_update false (np_lock s)) s).
Proof using.
  intros Hs Hg Hsu Hup. pose proof (granting_push_list s Hs Hsu) as Hpl.
  destruct (ni_push _ Hs Hup) as [Hf Hm]. pose proof (ni_dest _ Hs) as Hd.
  destruct (ni_lock _ Hs). unfold fetched. simpl. split_and!; try done.
Qed.

Lemma put_page_spec d s :
  node_inv s → ll_granting (np_lock s) = true → remote_mode (np_lock s) = NONE →
  success_return (np_lock s) = false → update_success (np_lock s) = false →
  safe (put_page_into_buffer d) (λ _ s', fetched s' ∧ np_lock s' = np_lock s ∧
    np_frame s' = Some (mkFrame d false)) s.
Proof using.
  intros Hs Hg Hm Hsu Hup. pose proof (ni_nopush _ Hs Hg Hm Hup) as Hf.
  unfold put_page_into_buffer. do 3 safe_step.
  apply safe_check; [by rewrite Hf|]. safe_step. split; [|done].
  unfold fetched. simpl. split_and!; try done.
  - apply Hs.
  - by apply granting_push_list.
  - apply Hs.
Qed.

Lemma put_lock_same s : np_put_lock (np_lock s) s = s.
Proof using. by destruct s. Qed.

Lemma send_state_inv m s : node_inv s → node_inv (np_put_out m s).
Proof using. intros [? ? ? ? ? ? ? ? ?]. by split. Qed.

Definition fetch_post (s : NodePage) (f : Frame) (s' : NodePage) : Prop :=
  node_inv s' ∧ finish_result s f s'.

(** A fetch whose page is there ends as an owner. *)
Lemma finish_from s0 s1 :
  fetched s1 → ll_lock (np_lock s1) = ll_lock (np_lock s0) →
  safe (onL Local.LockRemoteOK ;; fetch_page) (fetch_post s0) s1.
Proof using.
  intros Hf El. eapply safe_mono; [by apply fetched_finish|].
  intros f s' (Hs' & (E1 & E2 & E3 & E4) & _). split; [done|]. unfold finish_result.
  by rewrite <- El.
Qed.

(** Waiting for the push that was promised. *)
Lemma get_push_data s :
  node_inv s → ll_granting (np_lock s) = true → success_return (np_lock s) = false →
  safe (onL Local.TryGetPushData ;; fetch_page ;; mret tt)
    (λ _ s', fetched s' ∧ ll_lock (np_lock s') = ll_lock (np_lock s)) s.
Proof using.
  intros Hs Hg Hsu. safe_step. unfold safe at 1, onL, zoom.
  rewrite run_TryGetPushData by (done || apply Hs).
  destruct (update_success (np_lock s)) eqn:Hup; [|done].
  pose proof (consume_update s Hs Hg Hsu Hup) as Hfe. pose proof Hfe as (_ & _ & _ & _ & _ & _ & [f Hf]).
  safe_step. apply (safe_fetch_page f); [done|]. safe_step. by split.
Qed.

(** Waiting for the lock, and then for the page unless its copy is current. *)
Lemma try_remote_success s :
  node_inv s → ll_granting (np_lock s) = true →
  safe (onL Local.TryRemoteLockSuccess) (λ _ s',
    fetched (np_put_lock (set_push_list [] (np_lock s')) s') ∧
    push_list (np_lock s') = push_list (np_lock s) ∧ np_frame s' = np_frame s ∧
    ll_lock (np_lock s') = ll_lock (np_lock s)) s.
Proof using.
  intros Hs Hg. unfold safe, onL, zoom.
  rewrite run_TryRemoteLockSuccess by (done || apply Hs).
  destruct (success_return (np_lock s)) eqn:Hsu; [|done].
  pose proof (ni_succ _ Hs Hsu) as Hnw. pose proof (ni_dest _ Hs) as Hd.
  assert (local_inv (set_push_list [] (set_success false (set_need_wait false
    (set_update false (np_lock s))))) ∧ local_inv (set_push_list [] (set_success false (np_lock s))))
    as [Hl1 Hl2].
  { destruct (ni_lock _ Hs). rewrite Hg in *. split; split; simpl; try done; by rewrite Hg. }
  destruct (need_wait (np_lock s)) eqn:Enw.
  - destruct (update_success (np_lock s)) eqn:Hup; [|done].
    destruct (ni_push _ Hs Hup) as [Hf _]. split_and!; try done.
  - symmetry in Hnw. bool_simpl.
    destruct (update_success (np_lock s)) eqn:Hup; [by destruct (ni_push _ Hs Hup)|].
    split_and!; try done. unfold fetched. simpl. split_and!; try done.
    apply (ni_upgrade _ Hs Hg). destruct (li_grant _ (ni_lock _ Hs) Hg) as [Hx _].
    by destruct (remote_mode (np_lock s)).
Qed.

Lemma rpc_lazy_fetch_s_page_finish_spec r d s :
  node_inv s → response_ok false r s →
  safe (rpc_lazy_fetch_s_page_finish r d) (fetch_post s) s.
Proof using.
  intros Hs (Hg & Hx & Hr). unfold rpc_lazy_fetch_s_page_finish. safe_step.
  eapply safe_mono with (Q := λ _ s', fetched s' ∧ ll_lock (np_lock s') = ll_lock (np_lock s)).
  2: { intros _ s1 [Hf El]. by apply finish_from. }
  destruct (wait_lock_release r); cbn [negb].
  - safe_step. eapply safe_mono; [by apply try_remote_success|].
    intros b s1 (Hfe & Epl & Efr & El). safe_step. unfold push_to_batch.
    destruct Hfe as (Hl1 & Hg1 & Hsu1 & Hup1 & _ & Hd1 & [f Hf]). simpl in *.
    assert (ll_mutex (np_lock s1) = false) as Hfree by apply Hl1.
    eapply safe_onL; [by apply run_getPushList|].
    eapply safe_mono.
    { apply (push_batch_spec _ f); [done|]. rewrite Epl. apply Forall_rev, Hs. }
    intros _ s2 [El2 [b2 Hf2]]. safe_step. apply (safe_fetch_page _ _ _ Hf2). safe_step.
    rewrite El2. simpl. split; [|done].
    unfold fetched. rewrite El2. simpl. split_and!; try done.
  - destruct Hr as (Hsu & Hlsn & Hsrc); [done|].
    destruct (resp_source r) as [[fromst newest]|]; [destruct fromst|done].
    + destruct Hsrc as [Hm Hup]. safe_step. eapply safe_mono with (Q := λ _ s', s' = s).
      { safe_step; [|done]. apply safe_check; [by apply negb_true_iff, Z.eqb_neq|done]. }
      intros _ ? ->. unfold fetch_from_storage, send. do 2 safe_step.
      eapply safe_mono; [by apply put_page_spec; [apply send_state_inv|..]|].
      intros _ s1 (Hfe & El & _). split; [done|]. by rewrite El.
    + destruct (newest =? -1); cbn [negb] in *; [by destruct Hsrc|].
      by apply get_push_data.
Qed.

Lemma rpc_lazy_fetch_x_page_finish_spec r d s :
  node_inv s → response_ok true r s →
  safe (rpc_lazy_fetch_x_page_finish r d) (fetch_post s) s.
Proof using.
  intros Hs (Hg & Hx & Hr). destruct Hx as [_ Hx]. specialize (Hx eq_refl).
  unfold rpc_lazy_fetch_x_page_finish. safe_step.
  eapply safe_mono with (Q := λ _ s', fetched s' ∧ ll_lock (np_lock s') = ll_lock (np_lock s)).
  2: { intros _ s1 [Hf El]. by apply finish_from. }
  destruct (wait_lock_release r); cbn [negb].
  - safe_step. eapply safe_mono; [by apply try_remote_success|].
    intros b s1 (Hfe & Epl & Efr & El).
    assert (push_list (np_lock s1) = []) as Hpl.
    { rewrite Epl. destruct (push_list (np_lock s)) eqn:E; [done|].
      destruct (ni_list _ Hs) as (_ & H & _); [by rewrite E|done]. }
    pose proof Hfe as (Hl1 & _ & _ & _ & _ & _ & [f Hf]). simpl in *.
    assert (ll_mutex (np_lock s1) = false) as Hfree by apply Hl1.
    eapply safe_onL; [by apply run_getPushList|]. safe_step.
    apply safe_check; [by apply bool_decide_eq_true|]. safe_step.
    apply (safe_fetch_page f); [done|]. safe_step. by split.
  - destruct Hr as (Hsu & Hlsn & Hsrc); [done|].
    destruct (resp_source r) as [[fromst newest]|]; [destruct fromst|done].
    + destruct Hsrc as [Hm Hup]. safe_step.
      apply safe_check; [by apply negb_true_iff, Z.eqb_neq|].
      unfold fetch_from_storage, send. do 2 safe_step.
      eapply safe_mono; [by apply put_page_spec; [apply send_state_inv|..]|].
      intros _ s1 (Hfe & El & _). split; [done|]. by rewrite El.
    + destruct (newest =? -1); cbn [negb] in *; [|by apply get_push_data].
      destruct Hsrc as [_ Hm]. destruct (ni_upgrade _ Hs Hg Hm) as [f Hf].
      safe_step. apply (safe_fetch_page f); [done|]. safe_step. split; [|done].
      unfold fetched. split_and!; try done.
      * apply Hs.
      * destruct (update_success (np_lock s)) eqn:Hup; [|done].
        destruct (ni_push _ Hs Hup). congruence.
      * by apply granting_push_list.
      * apply Hs.
Qed.

(** ** Notifications *)

Definition may_succeed (xlock is_newest : bool) (dests : list Z) (s : NodePage) : Prop :=
  let l := np_lock s in
  ll_granting l = true ∧ success_return l = false ∧
  (ll_lock l = EXCLUSIVE_LOCKED ↔ xlock = true) ∧
  (remote_mode l = SHARED ↔ is_newest = true) ∧
  Forall (λ d, d ≠ -1 ∧ d ≠ self) dests ∧ (xlock = true → dests = []).

Lemma add_dests_spec dests s :
  Forall (λ d, d ≠ -1 ∧ d ≠ self) dests →
  safe (for_each (λ d, check 370 (negb (d =? self)) ;; onL (Local.addToPushListNoBlock d)) dests)
    (λ _ s', s' = np_put_lock (set_push_list (push_list (np_lock s) ++ dests) (np_lock s)) s) s.
Proof using.
  revert s. induction dests as [|d dests IH]; intros s Hd; simpl.
  - apply safe_ret. destruct s as [[] ? ? ?]. simpl. by rewrite app_nil_r.
  - apply Forall_cons in Hd as [[_ Hd1] Hd]. safe_step. safe_step.
    apply safe_check; [by apply negb_true_iff, Z.eqb_neq|].
    eapply safe_onL_last; [reflexivity|]. eapply safe_mono; [by apply IH|].
    intros _ s' ->. destruct s as [[] ? ? ?]. simpl. by rewrite <- app_assoc.
Qed.

Lemma LockSuccess_spec xlock is_newest dests s :
  node_inv s → may_succeed xlock is_newest dests s →
  safe (LockSuccess xlock is_newest dests) (λ _ s', node_inv s' ∧
    success_return (np_lock s') = true ∧ push_list (np_lock s') = dests ∧
    ll_lock (np_lock s') = ll_lock (np_lock s) ∧ np_out s' = np_out s) s.
Proof using.
  intros Hs (Hg & Hsu & Hx & Hn & Hd & Hxd). pose proof (granting_push_list s Hs Hsu) as Hpl.
  pose proof (li_grant _ (ni_lock _ Hs) Hg) as [Hne Hlk].
  set (l1 := set_need_wait (negb is_newest) (set_success true (np_lock s))).
  unfold LockSuccess. eapply safe_onL with (a := tt) (l' := mutex_set true l1).
  { unfold Local.RemoteNotifyLockSuccess, Local.upd, l1. pose proof (li_free _ (ni_lock _ Hs)) as Hm.
    assert ((if xlock then check 206 (ll_lock (np_lock s) =? EXCLUSIVE_LOCKED)
             else check 207 (0 <? ll_lock (np_lock s))) = (mret tt : M LRLocalPageLock unit)) as Ec.
    { destruct xlock.
      - by rewrite (proj2 Hx).
      - destruct Hlk as [E|[-> _]]; [|done]. by apply Hx in E. }
    clear -Hg Hm Ec. destruct (np_lock s); simpl in *; subst.
    unfold mbind, M_bind, mutex_lock, gets. cbn. by rewrite Ec. }
  safe_step. eapply safe_mono; [by apply add_dests_spec|]. intros _ s' ->.
  set (l2 := set_push_list dests l1).
  eapply safe_onL_last with (l' := l2).
  { unfold l2, l1. pose proof (li_free _ (ni_lock _ Hs)) as Hm. clear -Hpl Hm.
    destruct (np_lock s); simpl in *; by subst. }
  split; [|done]. cbn [np_put_lock np_lock np_frame np_persist np_out].
  destruct Hs as [[Hr Hw Hrd Hgr Hp He Hr1 Hr2 Hfl Hdd Hfree] Hfr Hupg Hpu Hnp Hss Hli Hlo Hde].
  unfold l2, l1. split; simpl; try done.
  - split; simpl; try done. by rewrite Hg.
  - intros _. destruct (remote_mode (np_lock s)); [|by rewrite (proj1 Hn)|done].
    destruct is_newest; [by discriminate (proj2 Hn eq_refl)|done].
  - intros Hdn. split_and!; [done| |done]. intros E. by apply Hdn, Hxd, Hx.
Qed.

Definition may_push (src dest : Z) (s : NodePage) : Prop :=
  src ≠ dest ∧ dest = self ∧ ll_granting (np_lock s) = true ∧
  remote_mode (np_lock s) = NONE ∧ update_success (np_lock s) = false.

Lemma PushPage_spec src dest d s :
  node_inv s → may_push src dest s →
  safe (PushPage src dest d) (λ _ s', node_inv s' ∧
    np_lock s' = set_update true (np_lock s) ∧ np_frame s' = Some (mkFrame d false) ∧
    np_out s' = np_out s) s.
Proof using.
  intros Hs (Hne & Hde0 & Hg & Hm & Hup). pose proof (ni_nopush _ Hs Hg Hm Hup) as Hf.
  unfold PushPage. safe_step. apply safe_check; [by apply negb_true_iff, Z.eqb_neq|].
  safe_step. apply safe_check; [by apply Z.eqb_eq|]. safe_step.
  unfold put_page_into_buffer. do 3 safe_step. apply safe_check; [by rewrite Hf|]. safe_step.
  eapply safe_onL_last with (l' := set_update true (np_lock s)).
  { pose proof (li_free _ (ni_lock _ Hs)) as Hfree. clear -Hg Hfree. destruct s as [[] ? ? ?].
    simpl in *. by subst. }
  split; [|done]. node_cases Hs. split; try split; simpl; try done. by apply Hli.
Qed.

Lemma node_NotifyPushPage_spec src dests s :
  node_inv s → src = self → dests ≠ [] → Forall (λ d, d ≠ -1 ∧ d ≠ self) dests →
  safe (NotifyPushPage src dests) (λ _ s', node_inv s' ∧ np_lock s' = np_lock s) s.
Proof using.
  intros Hs -> Hne Hd. unfold NotifyPushPage. safe_step. apply safe_check; [apply Z.eqb_refl|].
  safe_step. unfold wait_in_bufferPool. do 2 safe_step. safe_step; [|apply safe_block].
  bool_simpl. destruct H as [f Hf]. safe_step. safe_step.
  apply safe_check; [by apply negb_true_iff, bool_decide_eq_false|].
  apply (safe_for_each _ (λ rest s', np_lock s' = np_lock s ∧
    Forall (λ d, d ≠ -1 ∧ d ≠ self) rest ∧ ∃ b, np_frame s' = Some (mkFrame (pg_data f) b))).
  - split_and!; [done|done|]. exists (pg_dirty f). rewrite Hf. by destruct f.
  - intros d rest s1 (El & Hrest & [b Hf1]). apply Forall_cons in Hrest as [[Hd1 Hd2] Hrest].
    safe_step. apply safe_check; [by apply negb_true_iff, Z.eqb_neq|].
    eapply safe_mono; [apply (PushPageToOther_spec d 0 _ s1 Hf1); auto|].
    intros _ s2 (El2 & _ & [b2 Hf2] & _). split_and!; [congruence|done|by eexists].
  - intros s1 (El & _ & [b Hf1]). split; [|done].
    destruct Hs as [Hl Hfr Hupg Hpu Hnp Hss Hli Hlo Hde]. split; rewrite ?El; try done.
    + intros Hg. rewrite Hfr, Hf, Hf1 by done. split; by eexists.
    + intros Hup. rewrite Hf1. split; [by eexists|by apply Hpu].
    + intros Hg Hm Hup. rewrite (Hnp Hg Hm Hup) in Hf. done.
Qed.

(** ** Evicting *)

Definition evictable (l : LRLocalPageLock) : bool :=
  negb (is_evicting l) && negb (is_released l) && (ll_lock l =? 0) &&
  negb (ll_granting l) && negb (ll_pending l).

Lemma run_TryBeginEvict l :
  ll_mutex l = false →
  Local.TryBeginEvict l =
    if evictable l then Done (true, set_evicting true l) else Done (false, l).
Proof using.
  intros Hm. unfold evictable. local_cases. subst. unfold Local.TryBeginEvict, Local.guarded,
    mbind, M_bind, mutex_lock, gets, Local.upd, modify, mutex_unlock. simpl.
  destruct ev, rel; simpl; try done.
  by destruct (lk =? 0), grant, pend.
Qed.

Lemma set_evicting_inv (b : bool) s :
  node_inv s → (b = true → ll_lock (np_lock s) = 0) →
  node_inv (np_put_lock (set_evicting b (np_lock s)) s).
Proof using.
  intros Hs Hb. destruct Hs as [[Hr Hw Hrd Hgr Hp He Hr1 Hr2 Hfl Hdd Hfree] Hfr Hupg Hpu Hnp Hss
    Hli Hlo Hde]. split; simpl; try done.
Qed.

Lemma evict_try_spec s :
  node_inv s →
  safe evict_try (λ ok s', node_inv s' ∧ ok = evictable (np_lock s) ∧
    s' = if ok then np_put_lock (set_evicting true (np_lock s)) s else s) s.
Proof using.
  intros Hs. unfold evict_try, safe, onL, zoom. rewrite run_TryBeginEvict by apply Hs.
  destruct (evictable (np_lock s)) eqn:E; [|by rewrite put_lock_same].
  split; [|done]. apply set_evicting_inv; [done|]. intros _. unfold evictable in E.
  repeat (apply andb_true_iff in E as [E ?]). by apply Z.eqb_eq.
Qed.

Lemma run_EndEvict l :
  ll_mutex l = false → is_evicting l = true →
  Local.EndEvict l = Done (tt, set_evicting false l).
Proof using. intros Hm He. local_cases. by subst. Qed.

Lemma end_evict_spec {A} (a : A) s :
  node_inv s → is_evicting (np_lock s) = true →
  safe (onL Local.EndEvict ;; mret a) (λ r s', r = a ∧ node_inv s' ∧
    s' = np_put_lock (set_evicting false (np_lock s)) s) s.
Proof using.
  intros Hs He. eapply safe_onL; [apply run_EndEvict; [apply Hs|done]|]. safe_step.
  split; [done|]. split; [|done]. by apply set_evicting_inv.
Qed.

(** The mutex taken by [getUnlockType] is released before the request. *)
Lemma evict_request_spec later s :
  node_inv s → is_evicting (np_lock s) = true → later ≠ INVALID_PAGE_ID →
  safe (evict_request later) (λ ok s', node_inv s' ∧
    ok = negb (bool_decide (remote_mode (np_lock s) = NONE)) ∧
    is_evicting (np_lock s') = ok ∧ remote_mode (np_lock s') = remote_mode (np_lock s)) s.
Proof using.
  intros Hs He Hla. pose proof (ni_lock _ Hs) as Hl.
  assert (ll_granting (np_lock s) = false) as Hg.
  { pose proof (li_evict _ Hl He) as H0. destruct (ll_granting (np_lock s)) eqn:E; [|done].
    destruct (li_grant _ Hl E) as [_ [H|[H _]]]; by rewrite H0 in H. }
  unfold evict_request. rewrite (proj2 (Z.eqb_neq later INVALID_PAGE_ID)) by done.
  set (u := match remote_mode (np_lock s) with NONE => 0 | EXCLUSIVE => 2 | SHARED => 1 end).
  set (l1 := mutex_set true (np_lock s)).
  eapply safe_onL with (a := u) (l' := l1).
  { pose proof (li_free _ Hl) as Hfree. unfold u, l1. clear -Hfree. destruct (np_lock s).
    simpl in *. by subst. }
  assert (mutex_set false l1 = np_lock s) as Hun.
  { pose proof (li_free _ Hl) as Hfree. unfold l1. clear -Hfree. destruct (np_lock s).
    simpl in *. by subst. }
  safe_step; bool_simpl.
  - eapply safe_onL; [by apply run_unlockMtx|]. cbn [np_lock np_put_lock]. rewrite Hun.
    eapply safe_mono; [apply (end_evict_spec false); [|done]|].
    { by destruct s. }
    intros r s' (-> & Hs' & ->). split; [done|]. simpl. split_and!; try done.
    unfold u in H. by destruct (remote_mode (np_lock s)).
  - assert (remote_mode (np_lock s) ≠ NONE) as Hm by (intros E; unfold u in H; by rewrite E in H).
    destruct (owner_frame s Hs Hg Hm) as [f Hf]. safe_step.
    eapply safe_mono with (Q := λ (_ : unit) s', np_lock s' = l1 ∧ is_Some (np_frame s')).
    { safe_step.
      - safe_step. apply (safe_fetch_page f); [done|].
        eapply safe_mono; [by apply (wait_log_flush_spec f)|].
        intros _ s' (El & _ & [b Hf'] & _). split; [by rewrite El|by eexists].
      - safe_step. apply (safe_fetch_page f); [done|]. unfold send. safe_step.
        split; [done|]. simpl. by eexists. }
    intros _ s1 [El [f1 Hf1]]. safe_step. apply (safe_fetch_page f1); [done|].
    eapply safe_onL; [apply run_unlockMtx; by rewrite El|]. unfold send. do 3 safe_step.
    cbn [np_lock np_put_out np_put_lock]. rewrite El, Hun. split_and!; try done.
    + destruct Hs as [_ Hfr Hupg Hpu Hnp Hss Hli Hlo Hde].
      split; cbn [np_lock np_put_out np_put_lock np_frame]; try done.
      intros Hup. by destruct (li_flags _ Hl Hg) as [_ ?]; congruence.
    + by rewrite bool_decide_eq_false_2.
Qed.

(** The answer: on agreement the page and its ownership go; the lock table
    agrees only to a node that still owns the page. *)
Lemma evict_finish_spec agree s :
  node_inv s → is_evicting (np_lock s) = true →
  (agree = true → remote_mode (np_lock s) ≠ NONE) →
  safe (evict_finish agree) (λ ok s', node_inv s' ∧ ok = agree ∧
    is_evicting (np_lock s') = false ∧
    (agree = true → remote_mode (np_lock s') = NONE ∧ np_frame s' = None)) s.
Proof using.
  intros Hs He Hm. pose proof (ni_lock _ Hs) as Hl. pose proof (li_evict _ Hl He) as H0.
  assert (ll_granting (np_lock s) = false) as Hg.
  { destruct (ll_granting (np_lock s)) eqn:E; [|done].
    destruct (li_grant _ Hl E) as [_ [H|[H _]]]; by rewrite H0 in H. }
  assert (ll_pending (np_lock s) = false) as Hp.
  { destruct (ll_pending (np_lock s)) eqn:E; [|done]. by destruct (li_pend _ Hl E). }
  unfold evict_finish. destruct agree; cbn [negb].
  - destruct (owner_frame s Hs Hg (Hm eq_refl)) as [f Hf]. do 3 safe_step.
    apply safe_check; [rewrite Hf; by apply bool_decide_eq_true|]. do 2 safe_step.
    set (l1 := set_released true (set_mode NONE (np_lock s))).
    eapply safe_onL with (a := if bool_decide (remote_mode (np_lock s) = SHARED) then 1 else 2)
      (l' := mutex_set true l1).
    { specialize (Hm eq_refl). pose proof (li_free _ Hl) as Hfree. unfold l1.
      clear -Hm H0 Hg Hp Hfree. cbn [np_lock np_put_frame]. destruct (np_lock s).
      simpl in *. subst. by destruct remote_mode. }
    safe_step. safe_step; [|by case_bool_decide].
    eapply safe_onL_last with (l' := l1).
    { unfold l1. pose proof (li_free _ Hl) as Hfree. clear -Hfree. simpl. destruct (np_lock s).
      simpl in *. by subst. }
    eapply safe_mono; [apply (end_evict_spec true)|].
    + pose proof (pend_inv_release s (np_persist s) (np_out s) Hs Hg H0) as Hinv.
      unfold l1. simpl. destruct (np_lock s). exact Hinv.
    + done.
    + intros r s' (-> & Hs' & ->). done.
  - eapply safe_mono; [by apply (end_evict_spec false)|]. intros r s' (-> & Hs' & ->). done.
Qed.
End node.
