(* ===== verification/NodeProtocol.v ===== *)
(** The life of one page on one compute node: any interleaving of the node's
    threads (fetch, release), the notifications of the other nodes and the
    evictor, at the granularity of the handlers of [LazyRelease].  The
    guarantees: a latch always implies the ownership it needs, a page asked
    for is given back, no handler fails, and no page leaves before its log. *)

From S2P Require Import Prelude Common PageServer LocalLock LazyRelease.

Section protocol.
Context {Data : Type}.
Variable llsn_of : Data → LLSN.
Variable self page_belong_node table_id : Z.
Variable generate_log push_with_scheduler : bool.
Hypothesis Hself : valid_node self.

Abbreviation State := (@NodePage Data).
Abbreviation fetch_s_finish := (rpc_lazy_fetch_s_page_finish llsn_of self table_id generate_log
  push_with_scheduler).
Abbreviation fetch_x_finish := (rpc_lazy_fetch_x_page_finish table_id).
Abbreviation release_s := (rpc_lazy_release_s_page llsn_of self table_id generate_log
  push_with_scheduler).
Abbreviation release_x := (rpc_lazy_release_x_page llsn_of self table_id generate_log
  push_with_scheduler).
Abbreviation pending_rpc := (ComputeNodeServiceImpl_Pending llsn_of self page_belong_node table_id
  generate_log push_with_scheduler).
Abbreviation pending_local := (ComputeServer_Pending llsn_of self page_belong_node table_id
  generate_log push_with_scheduler).
Abbreviation notify_push := (NotifyPushPage llsn_of self table_id generate_log
  push_with_scheduler).
Abbreviation evict_req := (evict_request llsn_of table_id generate_log).

(** One handler, under the contract of its caller: threads release what they
    hold, the lock table asks and answers as [PageServer] does, only the
    evictor continues an eviction. *)
Inductive node_step (s : State) : State → Prop :=
  | ns_fetch_s r s' :
      ll_lock (np_lock s) ≠ EXCLUSIVE_LOCKED - 1 →
      rpc_lazy_fetch_s_page_begin s = Done (r, s') → node_step s s'
  | ns_fetch_s_finish r d f s' :
      response_ok false r s → fetch_s_finish r d s = Done (f, s') → node_step s s'
  | ns_fetch_x r s' : rpc_lazy_fetch_x_page_begin s = Done (r, s') → node_step s s'
  | ns_fetch_x_finish r d f s' :
      response_ok true r s → fetch_x_finish r d s = Done (f, s') → node_step s s'
  | ns_release_s s' : holds_shared (np_lock s) → release_s s = Done (tt, s') → node_step s s'
  | ns_release_x s' : holds_exclusive (np_lock s) → release_x s = Done (tt, s') → node_step s s'
  | ns_pending_rpc xp dest s' :
      page_belong_node ≠ self → may_pend self xp dest s →
      pending_rpc xp dest s = Done (tt, s') → node_step s s'
  | ns_pending_local xp dest s' :
      page_belong_node = self → may_pend self xp dest s →
      pending_local xp dest s = Done (tt, s') → node_step s s'
  | ns_success xlock is_newest dests s' :
      may_succeed self xlock is_newest dests s →
      LockSuccess self xlock is_newest dests s = Done (tt, s') → node_step s s'
  | ns_push src dest d s' :
      may_push self src dest s → PushPage self src dest d s = Done (tt, s') → node_step s s'
  | ns_notify src dests s' :
      src = self → dests ≠ [] → Forall (λ d, d ≠ -1 ∧ d ≠ self) dests →
      notify_push src dests s = Done (tt, s') → node_step s s'
  | ns_evict_try ok s' : evict_try s = Done (ok, s') → node_step s s'
  | ns_evict_request later ok s' :
      is_evicting (np_lock s) = true → later ≠ INVALID_PAGE_ID →
      evict_req later s = Done (ok, s') → node_step s s'
  | ns_evict_finish agree ok s' :
      is_evicting (np_lock s) = true → (agree = true → remote_mode (np_lock s) ≠ NONE) →
      evict_finish agree s = Done (ok, s') → node_step s s'
  | ns_log_flushed lsn : np_persist s ≤ lsn → node_step s (np_put_persist lsn s).

Definition node_initial (pid : Z) (garbage : bool) : State :=
  mkNP (new_LRLocalPageLock pid garbage) None 0 [].

Definition node_reachable (pid : Z) (garbage : bool) (s : State) : Prop :=
  star node_step (node_initial pid garbage) s.

Lemma node_initial_inv pid garbage : node_inv self (node_initial pid garbage).
Proof using Hself.
  split; simpl; try done.
  - apply new_local_inv.
  - unfold INVALID_NODE_ID, valid_node in *. lia.
Qed.

Lemma push_type_ok : push_type_of_release table_id = 0 ∨ push_type_of_release table_id = 1.
Proof using. unfold push_type_of_release. destruct (is_data_table table_id); auto. Qed.

Lemma pending_rpc_spec xp dest s :
  node_inv self s → page_belong_node ≠ self → may_pend self xp dest s →
  safe (pending_rpc xp dest) (λ _ s', node_inv self s' ∧
    pend_result llsn_of table_id generate_log xp dest s s') s.
Proof using Hself.
  intros Hs Hb Hc. rewrite rpc_pending_body. apply pending_body_spec; auto.
  by apply negb_true_iff, Z.eqb_neq.
Qed.

Lemma pending_local_spec xp dest s :
  node_inv self s → page_belong_node = self → may_pend self xp dest s →
  safe (pending_local xp dest) (λ _ s', node_inv self s' ∧
    pend_result llsn_of table_id generate_log xp dest s s') s.
Proof using Hself.
  intros Hs Hb Hc. rewrite local_pending_body. apply pending_body_spec; auto.
  - by apply Z.eqb_eq.
  - apply push_type_ok.
Qed.

Lemma node_step_inv s s' : node_inv self s → node_step s s' → node_inv self s'.
Proof using Hself.
  intros Hs Hstep. destruct Hstep as [r s' Hc E|r d f s' Hc E|r s' E|r d f s' Hc E|s' Hc E|s' Hc E|
    xp dest s' Hb Hc E|xp dest s' Hb Hc E|xlock nw dests s' Hc E|src dest d s' Hc E|
    src dests s' H1 H2 H3 E|ok s' E|later ok s' He Hla E|agree ok s' He Ha E|lsn Hlsn].
  - apply (safe_run _ _ _ _ _ (rpc_lazy_fetch_s_page_begin_spec self s Hs Hc) E).
  - apply (safe_run _ _ _ _ _ (rpc_lazy_fetch_s_page_finish_spec _ self _ _ _ r d s Hs Hc) E).
  - apply (safe_run _ _ _ _ _ (rpc_lazy_fetch_x_page_begin_spec self s Hs) E).
  - apply (safe_run _ _ _ _ _ (rpc_lazy_fetch_x_page_finish_spec self table_id r d s Hs Hc) E).
  - destruct (rpc_lazy_release_s_page_spec llsn_of self table_id generate_log
      push_with_scheduler Hself s Hs Hc) as (f & _ & Hsp).
    apply (safe_run _ _ _ _ _ Hsp E).
  - destruct (rpc_lazy_release_x_page_spec llsn_of self table_id generate_log
      push_with_scheduler Hself s Hs Hc) as (f & _ & Hsp).
    apply (safe_run _ _ _ _ _ Hsp E).
  - apply (safe_run _ _ _ _ _ (pending_rpc_spec xp dest s Hs Hb Hc) E).
  - apply (safe_run _ _ _ _ _ (pending_local_spec xp dest s Hs Hb Hc) E).
  - apply (safe_run _ _ _ _ _ (LockSuccess_spec self xlock nw dests s Hs Hc) E).
  - apply (safe_run _ _ _ _ _ (PushPage_spec self src dest d s Hs Hc) E).
  - apply (safe_run _ _ _ _ _ (node_NotifyPushPage_spec llsn_of self table_id generate_log
      push_with_scheduler src dests s Hs H1 H2 H3) E).
  - apply (safe_run _ _ _ _ _ (evict_try_spec self s Hs) E).
  - apply (safe_run _ _ _ _ _ (evict_request_spec llsn_of self table_id generate_log later s
      Hs He Hla) E).
  - apply (safe_run _ _ _ _ _ (evict_finish_spec self agree s Hs He Ha) E).
  - destruct Hs. by split.
Qed.

Lemma node_reachable_inv pid garbage s : node_reachable pid garbage s → node_inv self s.
Proof using Hself.
  apply (star_invariant _ (node_inv self)); [apply node_initial_inv|]. eauto using node_step_inv.
Qed.

(** ** Properties *)

(** What the node's threads may rely on. *)
Record node_coherent (s : State) : Prop := {
  nc_writer : holds_exclusive (np_lock s) →
    remote_mode (np_lock s) = EXCLUSIVE ∧ is_Some (np_frame s);
  nc_reader : holds_shared (np_lock s) →
    remote_mode (np_lock s) ≠ NONE ∧ is_Some (np_frame s);
  nc_idle : ll_granting (np_lock s) = false →
    (remote_mode (np_lock s) ≠ NONE ↔ is_Some (np_frame s));
  (** a page that was asked for is in use, so that its user will give it back;
      a page being evicted is not in use *)
  nc_pending : ll_pending (np_lock s) = true → ll_lock (np_lock s) ≠ 0;
  nc_evicting : is_evicting (np_lock s) = true → ll_lock (np_lock s) = 0;
  (** while a thread acquires the page from the lock table, no other begins to fetch it *)
  nc_acquiring : ll_granting (np_lock s) = true →
    rpc_lazy_fetch_s_page_begin s = Blocked ∧ rpc_lazy_fetch_x_page_begin s = Blocked;
  nc_free : ll_mutex (np_lock s) = false
}.

(** C2: coherence of a node. Under any interleaving of fetches, releases,
    notifications and evictions, a thread that writes does so under the
    exclusive ownership of the page and one that reads under some ownership,
    with the page in the buffer pool; at rest the node owns the page exactly
    when it buffers it; a page that was asked for is in use and a page being
    evicted is not; while one thread acquires the page from the lock table,
    every other that starts to fetch it waits. *)
Theorem node_coherence pid garbage s : node_reachable pid garbage s → node_coherent s.
Proof using Hself.
  intros Hs%node_reachable_inv. pose proof (ni_lock _ _ Hs) as Hl. split.
  - intros Hh. pose proof (holds_exclusive_mode _ _ Hs Hh) as Hm. split; [done|].
    destruct Hh as [_ Hg]. apply (ni_frame _ _ Hs Hg). by rewrite Hm.
  - intros Hh. pose proof (holds_shared_mode _ _ Hs Hh) as Hm. split; [done|].
    destruct Hh as [_ Hg]. by apply (ni_frame _ _ Hs Hg).
  - apply Hs.
  - apply Hl.
  - apply Hl.
  - intros Hg. pose proof (li_free _ Hl) as Hf.
    unfold rpc_lazy_fetch_s_page_begin, rpc_lazy_fetch_x_page_begin, onL, zoom, Local.LockShared, Local.LockExclusive,
      mbind, M_bind, mutex_lock, gets. cbn. by rewrite Hf, Hg.
  - apply Hl.
Qed.


(** who gets the latch. A thread waits exactly while the page is being
    acquired, was asked for by another node, is being evicted, or is latched
    in a conflicting mode; so once another node has asked for the page no
    thread of this node can take it before it is given back. A thread that
    gets it goes to the lock table exactly when the node's ownership does not
    cover the mode. *)
Theorem latch_admission pid garbage s :
  node_reachable pid garbage s →
  (ll_lock (np_lock s) ≠ EXCLUSIVE_LOCKED - 1 →
   Local.LockShared (np_lock s) =
    (if busy (np_lock s) || (ll_lock (np_lock s) =? EXCLUSIVE_LOCKED) then Blocked
     else if bool_decide (remote_mode (np_lock s) = NONE) then
       Done (true, set_granting true (set_ll_lock (ll_lock (np_lock s) + 1) (np_lock s)))
     else Done (false, set_ll_lock (ll_lock (np_lock s) + 1) (np_lock s)))) ∧
  Local.LockExclusive (np_lock s) =
    (if busy (np_lock s) || negb (ll_lock (np_lock s) =? 0) then Blocked
     else if bool_decide (remote_mode (np_lock s) = EXCLUSIVE) then
       Done (false, set_ll_lock EXCLUSIVE_LOCKED (np_lock s))
     else Done (true, set_granting true (set_ll_lock EXCLUSIVE_LOCKED (np_lock s)))).
Proof using Hself.
  intros Hs%node_reachable_inv. pose proof (ni_lock _ _ Hs) as Hl. split.
  - by apply local_LockShared_spec.
  - by apply local_LockExclusive_spec.
Qed.

(** a fetch ends in the ownership that was asked for. When the response of
    the lock table (and the notifications it announces) have arrived, the
    fetch returns the buffered page; the node then owns it exclusively or
    shared according to the latch. *)
Theorem fetch_takes_ownership pid garbage s xlock r d :
  node_reachable pid garbage s → response_ok xlock r s →
  safe (if xlock then fetch_x_finish r d else fetch_s_finish r d)
    (λ f s', finish_result s f s') s.
Proof using Hself.
  intros Hs%node_reachable_inv Hr. destruct xlock.
  - eapply safe_mono; [by apply (rpc_lazy_fetch_x_page_finish_spec self)|]. by intros f s' [_ ?].
  - eapply safe_mono; [by apply rpc_lazy_fetch_s_page_finish_spec|]. by intros f s' [_ ?].
Qed.

(** a page that was asked for is given back by its last user. Releasing a
    latch pushes the page to the recorded destination, if any; the ownership
    goes with the latch exactly when the page was asked for and this was its
    last user, and then the page leaves the buffer after the push and the
    lock table is told, once. *)
Theorem release_gives_back pid garbage s :
  node_reachable pid garbage s →
  (holds_shared (np_lock s) → ∃ f, np_frame s = Some f ∧
     safe release_s (λ _ s', release_result llsn_of table_id generate_log s f
       ((ll_lock (np_lock s) =? 1) && ll_pending (np_lock s)) (ll_lock (np_lock s) - 1) s') s) ∧
  (holds_exclusive (np_lock s) → ∃ f, np_frame s = Some f ∧
     safe release_x (λ _ s', release_result llsn_of table_id generate_log s f
       (ll_pending (np_lock s)) 0 s') s).
Proof using Hself.
  intros Hs%node_reachable_inv. split; intros Hh.
  - destruct (rpc_lazy_release_s_page_spec llsn_of self table_id generate_log
      push_with_scheduler Hself s Hs Hh) as (f & Hf & Hsp).
    exists f. split; [done|]. eapply safe_mono; [exact Hsp|]. by intros ? ? [_ ?].
  - destruct (rpc_lazy_release_x_page_spec llsn_of self table_id generate_log
      push_with_scheduler Hself s Hs Hh) as (f & Hf & Hsp).
    exists f. split; [done|]. eapply safe_mono; [exact Hsp|]. by intros ? ? [_ ?].
Qed.

(** what [Pending] does. An idle owner pushes the page to the next owner
    and gives it up at once, an upgrading one gives up its shared copy (and
    keeps waiting) unless its upgrade was already granted; everybody else
    records the request and keeps the page until it is released. *)
Theorem pending_behaviour pid garbage s xp dest :
  node_reachable pid garbage s → may_pend self xp dest s →
  safe (if page_belong_node =? self then pending_local xp dest else pending_rpc xp dest)
    (λ _ s', pend_result llsn_of table_id generate_log xp dest s s') s.
Proof using Hself.
  intros Hs%node_reachable_inv Hc. destruct (Z.eqb_spec page_belong_node self).
  - eapply safe_mono; [by apply pending_local_spec|]. by intros ? ? [_ ?].
  - eapply safe_mono; [by apply pending_rpc_spec|]. by intros ? ? [_ ?].
Qed.

(** C39: write-ahead logging. Pushing a buffered page sends it to its
    destination once, and if it is a dirty page of a data table then its log
    is durable when it leaves, or the deferred push carries exactly the log
    sequence number it must wait for. *)
Theorem push_respects_log dest push_type f s :
  np_frame s = Some f → dest ≠ -1 → dest ≠ self → push_type = 0 ∨ push_type = 1 →
  safe (PushPageToOther llsn_of self table_id generate_log push_with_scheduler dest true false
          push_type)
    (λ _ s', pushed llsn_of table_id generate_log dest f s s') s.
Proof using. intros. by apply PushPageToOther_spec. Qed.

(** eviction. A page becomes a victim only while nobody uses it; the lock
    table is asked only if the node still owns it; on agreement the page
    leaves the buffer and the node owns nothing. But when the replacer
    reports that the frame was emptied in the meantime, the evictor unlocks a
    mutex it does not hold. *)
Theorem eviction_protocol pid garbage s :
  node_reachable pid garbage s →
  safe evict_try (λ ok s', ok = evictable (np_lock s)) s ∧
  (is_evicting (np_lock s) = true →
   evict_req INVALID_PAGE_ID s = Crash UnlockNotHeld ∧
   (∀ later, later ≠ INVALID_PAGE_ID →
     safe (evict_req later) (λ ok s', ok = negb (bool_decide (remote_mode (np_lock s) = NONE)) ∧
       is_evicting (np_lock s') = ok) s) ∧
   (remote_mode (np_lock s) ≠ NONE →
     safe (evict_finish true) (λ ok s', remote_mode (np_lock s') = NONE ∧ np_frame s' = None ∧
       is_evicting (np_lock s') = false) s)).
Proof using Hself.
  intros Hs%node_reachable_inv. split.
  - eapply safe_mono; [by apply (evict_try_spec self)|]. by intros ok s' (_ & ? & _).
  - intros He. split_and!.
    + unfold evict_request. simpl. unfold mbind, M_bind, onL, zoom, Local.UnlockMtx, mutex_unlock.
      cbn [mutex_held LRLocal_mutex]. by rewrite (li_free _ (ni_lock _ _ Hs)).
    + intros later Hla. eapply safe_mono; [by apply (evict_request_spec _ self)|].
      by intros ok s' (_ & ? & ? & _).
    + intros Hm. eapply safe_mono; [by apply (evict_finish_spec self)|].
      intros ok s' (_ & _ & ? & Hfin). by destruct (Hfin eq_refl).
Qed.
End protocol.

(** [getLock] narrows the 64-bit latch word to an [int]: a page latched
    exclusively reports 0, like a free one (which is what the assertion of
    [rpc_lazy_release_x_page] relies on); counts of readers are reported
    faithfully up to [2^31 - 1]. *)
Theorem getLock_narrows l :
  ∃ v, Local.getLock l = Done (v, l) ∧
    (ll_lock l = EXCLUSIVE_LOCKED → v = 0 ∧ ll_lock l ≠ 0) ∧
    (0 ≤ ll_lock l < 2 ^ 31 → v = ll_lock l).
Proof.
  exists (Local.to_int (ll_lock l)). split_and!; [done|by intros ->|].
  intros Hb. unfold Local.to_int. rewrite Z.mod_small by lia.
  by rewrite (proj2 (Z.ltb_lt _ _)) by lia.
Qed.

(** ** A concrete history

    Node 1 fetches a page of table 5 exclusively from storage, is asked for it
    on behalf of node 2, and gives it back; the log is on and a page's content
    is its sequence number. *)

Abbreviation demo_reach := (node_reachable (λ d : Z, d) 1 0 5 true false 7 false).

Definition final_n (m : outcome (option (@Frame Z) * @NodePage Z)) (s : @NodePage Z) : @NodePage Z :=
  match m with Done (_, s') => s' | _ => s end.
Definition final_u {A} (m : outcome (A * @NodePage Z)) (s : @NodePage Z) : @NodePage Z :=
  match m with Done (_, s') => s' | _ => s end.

Definition nd0 : @NodePage Z := node_initial 7 false.
Definition nd1 : @NodePage Z := Eval vm_compute in final_n (rpc_lazy_fetch_x_page_begin nd0) nd0.
Definition from_storage : LockResponse := mkResp false 40 (Some (true, -1)).
Definition nd2 : @NodePage Z := Eval vm_compute in
  final_u (rpc_lazy_fetch_x_page_finish 5 from_storage 40 nd1) nd1.
Definition nd3 : @NodePage Z := Eval vm_compute in
  final_u (ComputeNodeServiceImpl_Pending (λ d, d) 1 0 5 true false true 2 nd2) nd2.
(** ... or, in another history, it is given up before anybody asks. *)
Definition nd4 : @NodePage Z := Eval vm_compute in
  final_u (rpc_lazy_release_x_page (λ d, d) 1 5 true false nd2) nd2.
Definition nd5 : @NodePage Z := Eval vm_compute in final_u (evict_try nd4) nd4.

Lemma from_storage_ok : response_ok true from_storage nd1.
Proof. split_and!; try done. Qed.

Lemma nd2_may_pend : may_pend 1 true 2 nd2.
Proof. by split_and!. Qed.

Lemma nd1_reachable : demo_reach nd1.
Proof. eapply star_snoc; [apply star_refl|]. by eapply (ns_fetch_x _ _ _ _ _ _ _ None). Qed.
Lemma nd2_reachable : demo_reach nd2.
Proof.
  eapply star_snoc; [apply nd1_reachable|].
  eapply (ns_fetch_x_finish _ _ _ _ _ _ _ from_storage 40); [apply from_storage_ok|].
  vm_compute; reflexivity.
Qed.
Lemma nd3_reachable : demo_reach nd3.
Proof.
  eapply star_snoc; [apply nd2_reachable|].
  apply (ns_pending_rpc _ _ _ _ _ _ _ true 2); [done|apply nd2_may_pend|by vm_compute].
Qed.
Lemma nd4_reachable : demo_reach nd4.
Proof.
  eapply star_snoc; [apply nd2_reachable|]. apply ns_release_x; [by split|by vm_compute].
Qed.
Lemma nd5_reachable : demo_reach nd5.
Proof. eapply star_snoc; [apply nd4_reachable|]. by apply (ns_evict_try _ _ _ _ _ _ _ true). Qed.

Lemma self1 : valid_node 1.
Proof. by vm_compute. Qed.

Lemma node_coherence_witness :
  holds_exclusive (np_lock nd2) ∧ remote_mode (np_lock nd2) = EXCLUSIVE ∧ is_Some (np_frame nd2).
Proof.
  assert (holds_exclusive (np_lock nd2)) as H by by split. split; [exact H|].
  exact (nc_writer _ (node_coherence _ _ _ _ _ _ self1 _ _ nd2 nd2_reachable) H).
Defined.


Lemma latch_admission_witness :
  Local.LockShared (np_lock nd3) = Blocked ∧ Local.LockExclusive (np_lock nd3) = Blocked.
Proof.
  destruct (latch_admission _ _ _ _ _ _ self1 _ _ nd3 nd3_reachable) as [H1 H2].
  split; [rewrite H1; [reflexivity|by vm_compute]|rewrite H2; reflexivity].
Defined.

Lemma fetch_takes_ownership_witness :
  ∃ f s', rpc_lazy_fetch_x_page_finish 5 from_storage 40 nd1 = Done (f, s') ∧
    finish_result nd1 f s'.
Proof.
  pose proof (fetch_takes_ownership (λ d, d) 1 0 5 true false self1 7 false nd1 true from_storage 40
    nd1_reachable from_storage_ok) as H.
  eexists _, _. split; [vm_compute; reflexivity|]. eapply (safe_run _ _ _ _ _ H).
  vm_compute; reflexivity.
Defined.

Lemma release_gives_back_witness :
  ∃ f, np_frame nd3 = Some f ∧
    safe (rpc_lazy_release_x_page (λ d, d) 1 5 true false)
      (λ _ s', release_result (λ d, d) 5 true nd3 f true 0 s') nd3.
Proof.
  destruct (release_gives_back (λ d, d) 1 0 5 true false self1 7 false nd3 nd3_reachable) as [_ H].
  apply H. by split.
Defined.

Lemma pending_behaviour_witness :
  safe (ComputeNodeServiceImpl_Pending (λ d, d) 1 0 5 true false true 2)
    (λ _ s', pend_result (λ d, d) 5 true true 2 nd2 s') nd2.
Proof.
  exact (pending_behaviour (λ d, d) 1 0 5 true false self1 7 false nd2 true 2 nd2_reachable
    nd2_may_pend).
Defined.

Lemma push_respects_log_witness :
  PushPageToOther (λ d : Z, d) 1 5 true false 2 true false 1
    (mkNP (np_lock nd2) (Some (mkFrame 40 true)) 39 []) = Blocked ∧
  safe (PushPageToOther (λ d : Z, d) 1 5 true false 2 true false 1)
    (λ _ s', pushed (λ d, d) 5 true 2 (mkFrame 40 true)
       (mkNP (np_lock nd2) (Some (mkFrame 40 true)) 40 []) s')
    (mkNP (np_lock nd2) (Some (mkFrame 40 true)) 40 []).
Proof.
  split; [vm_compute; reflexivity|].
  apply (push_respects_log (λ d, d) 1 5 true false 2 1 (mkFrame 40 true)); try done. by right.
Defined.

Lemma eviction_protocol_witness :
  evict_request (λ d : Z, d) 5 true INVALID_PAGE_ID nd5 = Crash UnlockNotHeld.
Proof.
  exact (proj1 (proj2 (eviction_protocol (λ d, d) 1 0 5 true false self1 7 false nd5 nd5_reachable)
    eq_refl)).
Defined.

Lemma getLock_narrows_witness :
  ∃ v, Local.getLock (np_lock nd2) = Done (v, np_lock nd2) ∧ v = 0 ∧ ll_lock (np_lock nd2) ≠ 0.
Proof.
  destruct (getLock_narrows (np_lock nd2)) as (v & E & H & _).
  exists v. split; [exact E|]. exact (H eq_refl).
Defined.
