(* ===== verification/EagerLock.v ===== *)
(** The locks of the eager-release policy: [core/GPLM/global_page_lock.h] (the
    lock table's plain reader/writer lock, [Module Basic]), the [PSLock] ...
    [PXUnlock] handlers of [core/remote_page_table/remote_page_table_rpc.h] that
    combine it with the page's validity record, and
    [core/LPLM/local_ER_page_lock.h] (the latch of a compute node,
    [Module ER]). *)

From S2P Require Import Prelude Common ValidInfo.

(** ** The lock of the lock table *)

Record GlobalPageLock := mkBasic {
  bl_page_id : page_id_t;
  bl_lock : lock_t;
  bl_mutex : bool
}.

Definition set_bl_lock (x : lock_t) (l : GlobalPageLock) : GlobalPageLock :=
  mkBasic (bl_page_id l) x (bl_mutex l).

#[export] Program Instance GlobalPageLock_mutex : HasMutex GlobalPageLock := {
  mutex_held := bl_mutex;
  mutex_set b l := mkBasic (bl_page_id l) (bl_lock l) b
}.
Solve Obligations with by intros; try destruct s.

Module Basic.

Definition new_GlobalPageLock (pid : page_id_t) : GlobalPageLock := mkBasic pid 0 false.

Definition Reset : M GlobalPageLock unit := modify (set_bl_lock 0).

(** A round of the loop that finds the lock taken ends in [Blocked]. *)
Definition LockShared : M GlobalPageLock unit :=
  mutex_lock ;;
  l ← gets bl_lock ;
  if l =? EXCLUSIVE_LOCKED then mutex_unlock ;; block
  else modify (λ l, set_bl_lock (u64 (bl_lock l + 1)) l) ;; mutex_unlock.

Definition LockExclusive : M GlobalPageLock unit :=
  mutex_lock ;;
  l ← gets bl_lock ;
  if negb (l =? 0) then mutex_unlock ;; block
  else modify (set_bl_lock EXCLUSIVE_LOCKED) ;; mutex_unlock.

Definition CheckIfLockedNoBlock : M GlobalPageLock bool := gets (λ l, negb (bl_lock l =? 0)).

(** The unlock methods keep the mutex; the handler releases it with [UnlockMtx]. *)
Definition UnlockShared : M GlobalPageLock unit :=
  mutex_lock ;;
  l ← gets bl_lock ;
  check 63 (0 <? l) ;;
  modify (λ l, set_bl_lock (u64 (bl_lock l - 1)) l).

Definition LockMtx : M GlobalPageLock unit := mutex_lock.
Definition UnlockMtx : M GlobalPageLock unit := mutex_unlock.

Definition UnlockExclusive : M GlobalPageLock unit :=
  mutex_lock ;;
  l ← gets bl_lock ;
  check 79 (l =? EXCLUSIVE_LOCKED) ;;
  modify (set_bl_lock 0).

End Basic.

(** ** The handlers *)

Record EagerPage := mkEP { ep_lock : GlobalPageLock; ep_valid : GlobalValidInfo }.

Definition ep_put_lock (l : GlobalPageLock) (s : EagerPage) : EagerPage := mkEP l (ep_valid s).
Definition ep_put_valid (v : GlobalValidInfo) (s : EagerPage) : EagerPage := mkEP (ep_lock s) v.

Definition onBasic {A} (m : M GlobalPageLock A) : M EagerPage A := zoom ep_lock ep_put_lock m.
Definition onInfo {A} (m : M GlobalValidInfo A) : M EagerPage A := zoom ep_valid ep_put_valid m.

(** The response: [newest_node] and [need_storage_fetch]. *)
Definition PSLock (n : node_id_t) : M EagerPage (Z * bool) :=
  onBasic Basic.LockShared ;; onInfo (GetValid n false).

Definition PSUnlock (n : node_id_t) : M EagerPage unit :=
  onBasic Basic.UnlockShared ;; onInfo (ReleasePage n) ;; onBasic Basic.UnlockMtx.

Definition PXLock (n : node_id_t) : M EagerPage (Z * bool) :=
  onBasic Basic.LockExclusive ;; onInfo (GetValid n false).

Definition PXUnlock (n : node_id_t) : M EagerPage unit :=
  onBasic Basic.UnlockExclusive ;; onInfo (ReleasePage n) ;; onBasic Basic.UnlockMtx.

(** ** The latch of a compute node *)

Record ERLocalPageLock := mkER {
  er_page_id : page_id_t;
  er_lock : lock_t;
  er_dirty : bool;
  er_remote_mode : LockMode;
  er_granting : bool;
  er_evicting : bool;
  er_mutex : bool
}.

Definition set_er_lock x l := mkER (er_page_id l) x (er_dirty l) (er_remote_mode l)
  (er_granting l) (er_evicting l) (er_mutex l).
Definition set_er_dirty x l := mkER (er_page_id l) (er_lock l) x (er_remote_mode l)
  (er_granting l) (er_evicting l) (er_mutex l).
Definition set_er_mode x l := mkER (er_page_id l) (er_lock l) (er_dirty l) x
  (er_granting l) (er_evicting l) (er_mutex l).
Definition set_er_granting x l := mkER (er_page_id l) (er_lock l) (er_dirty l)
  (er_remote_mode l) x (er_evicting l) (er_mutex l).
Definition set_er_evicting x l := mkER (er_page_id l) (er_lock l) (er_dirty l)
  (er_remote_mode l) (er_granting l) x (er_mutex l).

#[export] Program Instance ERLocal_mutex : HasMutex ERLocalPageLock := {
  mutex_held := er_mutex;
  mutex_set b l := mkER (er_page_id l) (er_lock l) (er_dirty l) (er_remote_mode l)
    (er_granting l) (er_evicting l) b
}.
Solve Obligations with by intros; try destruct s.

Module ER.

(** The constructor leaves [is_dirty] uninitialised. *)
Definition new_ERLocalPageLock (pid : page_id_t) (garbage : bool) : ERLocalPageLock :=
  mkER pid 0 garbage NONE false false false.

Definition GetDirty : M ERLocalPageLock bool := gets er_dirty.
Definition SetDirty (d : bool) : M ERLocalPageLock unit := modify (set_er_dirty d).

Definition spin {A} : M ERLocalPageLock A := mutex_unlock ;; block.

(** On the branch that needs no remote lock the mutex stays held. *)
Definition LockShared : M ERLocalPageLock bool :=
  mutex_lock ;;
  l ← gets (λ l, l) ;
  if er_granting l || er_evicting l then spin
  else match er_remote_mode l with
  | EXCLUSIVE => if er_lock l =? EXCLUSIVE_LOCKED then spin else crash (AssertFailed 51)
  | SHARED =>
      check 54 (negb (er_lock l =? EXCLUSIVE_LOCKED)) ;;
      check 55 (negb (er_lock l =? 0)) ;;
      modify (λ l, set_er_lock (u64 (er_lock l + 1)) l) ;;
      mret false
  | NONE =>
      check 61 (er_lock l =? 0) ;;
      modify (λ l, set_er_lock (u64 (er_lock l + 1)) l) ;;
      modify (set_er_granting true) ;;
      mutex_unlock ;;
      mret true
  end.

Definition UnlockMtx : M ERLocalPageLock unit := mutex_unlock.

(** Only the last branch leaves the loop, so the final assertion on
    [lock_remote] holds. *)
Definition LockExclusive : M ERLocalPageLock bool :=
  mutex_lock ;;
  l ← gets (λ l, l) ;
  if er_granting l || er_evicting l then spin
  else match er_remote_mode l with
  | EXCLUSIVE => if er_lock l =? EXCLUSIVE_LOCKED then spin else crash (AssertFailed 88)
  | SHARED =>
      check 91 (negb (er_lock l =? EXCLUSIVE_LOCKED)) ;;
      if er_lock l =? 0 then crash (AssertFailed 93) else spin
  | NONE =>
      check 98 (er_lock l =? 0) ;;
      modify (set_er_lock EXCLUSIVE_LOCKED) ;;
      modify (set_er_granting true) ;;
      mutex_unlock ;;
      mret true
  end.

Definition LockRemoteOK : M ERLocalPageLock unit :=
  mutex_lock ;;
  l ← gets (λ l, l) ;
  check 113 (er_granting l) ;;
  modify (set_er_granting false) ;;
  modify (set_er_mode (if er_lock l =? EXCLUSIVE_LOCKED then EXCLUSIVE else SHARED)) ;;
  mutex_unlock.

(** Both unlock methods keep the mutex. *)
Definition UnlockShared : M ERLocalPageLock bool :=
  mutex_lock ;;
  l ← gets (λ l, l) ;
  check 127 (0 <? er_lock l) ;;
  check 128 (negb (er_lock l =? EXCLUSIVE_LOCKED)) ;;
  check 129 (negb (er_granting l)) ;;
  check 130 (bool_decide (er_remote_mode l = SHARED)) ;;
  modify (λ l, set_er_lock (u64 (er_lock l - 1)) l) ;;
  l ← gets er_lock ;
  if l =? 0 then modify (set_er_mode NONE) ;; mret true else mret false.

Definition UnlockExclusive : M ERLocalPageLock bool :=
  mutex_lock ;;
  l ← gets (λ l, l) ;
  check 143 (er_lock l =? EXCLUSIVE_LOCKED) ;;
  check 144 (negb (er_granting l)) ;;
  check 145 (bool_decide (er_remote_mode l = EXCLUSIVE)) ;;
  modify (set_er_lock 0) ;;
  modify (set_er_mode NONE) ;;
  mret true.

Definition tryBeginEvict : M ERLocalPageLock bool :=
  mutex_lock ;;
  l ← gets (λ l, l) ;
  if er_evicting l then mutex_unlock ;; mret false
  else if (er_lock l =? 0) && negb (er_granting l) then
    modify (set_er_evicting true) ;; mutex_unlock ;; mret true
  else mutex_unlock ;; mret false.

Definition EndEvict : M ERLocalPageLock unit :=
  mutex_lock ;;
  l ← gets (λ l, l) ;
  check 170 (er_evicting l) ;;
  modify (set_er_evicting false) ;;
  mutex_unlock.

Definition UnlockRemoteOK : M ERLocalPageLock unit := mutex_unlock.

End ER.
