(* ===== verification/EagerSystem.v ===== *)
(** The eager-release system as a whole: the compute nodes
    ([compute_server/baseline_server.cc]), the lock table and the storage, for
    one page.  Every critical section of the code is one step, so all
    interleavings of the nodes are covered.

    [rpc_fetch_s_page], [rpc_fetch_x_page], [rpc_release_s_page] and
    [rpc_release_x_page] are cut into these steps; [Phase] says how far the
    thread of a node that talks to the lock table has come. *)

From stdpp Require Import functions.
From S2P Require Import Prelude Common ValidInfo EagerLock.

Section system.
Context {Data : Type}.

Inductive Phase :=
  | Idle                               (** no such thread *)
  | Local                              (** read latch shared with other threads *)
  | Ask (x : bool)                     (** latch taken, before the lock request *)
  | Locked (x : bool)                  (** in the lock handler, lock granted *)
  | Answered (x : bool) (src : Z) (from_storage : bool)
  | Fetched (x : bool) (d : Data)
  | Buffered (x : bool)
  | Keep                               (** released, other readers remain *)
  | Give (x : bool)                    (** last user, ownership to be returned *)
  | Flushed (x : bool)
  | Unlocked (x : bool)                (** in the unlock handler, lock returned *)
  | Invalidated (x : bool)
  | Returned (x : bool).

Record ENode := mkEN {
  en_latch : ERLocalPageLock;
  en_frame : option Data;     (** the page's entry in the buffer pool *)
  en_phase : Phase
}.

Record Sys := mkSys {
  sy_node : Z → ENode;
  sy_server : EagerPage;
  sy_storage : Data;
  sy_latest : Data            (** the contents last written, not in the code *)
}.

Definition put_node (n : Z) (k : ENode) (s : Sys) : Sys :=
  mkSys (<[n := k]> (sy_node s)) (sy_server s) (sy_storage s) (sy_latest s).
Definition put_latch (n : Z) (l : ERLocalPageLock) (s : Sys) : Sys :=
  put_node n (mkEN l (en_frame (sy_node s n)) (en_phase (sy_node s n))) s.
Definition put_frame (n : Z) (f : option Data) (s : Sys) : Sys :=
  put_node n (mkEN (en_latch (sy_node s n)) f (en_phase (sy_node s n))) s.
Definition put_phase (n : Z) (p : Phase) (s : Sys) : Sys :=
  put_node n (mkEN (en_latch (sy_node s n)) (en_frame (sy_node s n)) p) s.
Definition put_server (e : EagerPage) (s : Sys) : Sys :=
  mkSys (sy_node s) e (sy_storage s) (sy_latest s).

Abbreviation MS := (M Sys).

Definition onLatch {A} (n : Z) (m : M ERLocalPageLock A) : MS A :=
  zoom (λ s, en_latch (sy_node s n)) (put_latch n) m.
Definition onServer {A} (m : M EagerPage A) : MS A := zoom sy_server put_server m.
Definition goto (n : Z) (p : Phase) : MS unit := modify (put_phase n p).

(** ** The buffer pool and the storage, as seen for this page *)

Definition fetch_page (n : Z) : MS Data :=
  f ← gets (λ s, en_frame (sy_node s n)) ;
  match f with Some d => mret d | None => crash (AssertFailed 63) end.

(** [put_page_into_buffer_eager]: in place when the page is there already. *)
Definition put_page_into_buffer_eager (n : Z) (d : Data) : MS unit :=
  modify (put_frame n (Some d)).

Definition releaseBufferPage (n : Z) : MS unit :=
  f ← gets (λ s, en_frame (sy_node s n)) ;
  check 121 (bool_decide (is_Some f)) ;;
  modify (put_frame n None).

Definition rpc_flush_page_to_storage (n : Z) : MS unit :=
  d ← fetch_page n ;
  modify (λ s, mkSys (sy_node s) (sy_server s) d (sy_latest s)).

(** [GetPage] on the node [src]; [None] when it has dropped the page meanwhile,
    which sends the reader to the storage. *)
Definition UpdatePageFromRemoteCompute (n src : Z) : MS (option Data) :=
  check 654 (negb (src =? n)) ;;
  gets (λ s, en_frame (sy_node s src)).

(** ** Fetching *)

Definition rpc_fetch_s_page_begin (n : Z) : MS unit :=
  lock_remote ← onLatch n ER.LockShared ;
  goto n (if lock_remote : bool then Ask false else Local).

Definition rpc_fetch_x_page_begin (n : Z) : MS unit :=
  lock_remote ← onLatch n ER.LockExclusive ;
  check 78 lock_remote ;;
  goto n (Ask true).

(** From the response to the contents, [rpc_fetch_s_page]... *)
Definition fetch_source_s (n src : Z) (from_storage : bool) : MS (option Data) :=
  if from_storage then check 45 (src =? -1) ;; d ← gets sy_storage ; mret (Some d)
  else check 50 (negb (src =? -1)) ;; UpdatePageFromRemoteCompute n src.

(** ... and [rpc_fetch_x_page]: without a source the assertion on [page] fails. *)
Definition fetch_source_x (n src : Z) (from_storage : bool) : MS (option Data) :=
  if from_storage then check 110 (src =? -1) ;; d ← gets sy_storage ; mret (Some d)
  else if negb (src =? -1) then check 115 (negb (src =? n)) ;; UpdatePageFromRemoteCompute n src
  else crash (AssertFailed 120).

(** ** Releasing *)

Definition rpc_release_s_page_begin (n : Z) : MS unit :=
  unlock_remote ← onLatch n ER.UnlockShared ;
  goto n (if unlock_remote : bool then Give false else Keep).

Definition rpc_release_x_page_begin (n : Z) : MS unit :=
  unlock_remote ← onLatch n ER.UnlockExclusive ;
  check 167 unlock_remote ;;
  goto n (Give true).

(** ** One more critical section of the thread that is under way *)

Definition advance (n : Z) : MS unit :=
  k ← gets (λ s, sy_node s n) ;
  match en_phase k with
  | Idle => block
  | Local => fetch_page n ;; onLatch n ER.UnlockMtx ;; goto n Idle
  | Ask x =>
      onServer (onBasic (if x then Basic.LockExclusive else Basic.LockShared)) ;;
      goto n (Locked x)
  | Locked x =>
      r ← onServer (onInfo (GetValid n false)) ;
      goto n (Answered x (fst r) (snd r))
  | Answered x src from_storage =>
      r ← (if x then fetch_source_x else fetch_source_s) n src from_storage ;
      goto n (match r with Some d => Fetched x d | None => Answered x (-1) true end)
  | Fetched x d => put_page_into_buffer_eager n d ;; goto n (Buffered x)
  | Buffered x => onLatch n ER.LockRemoteOK ;; goto n Idle
  | Keep => onLatch n ER.UnlockMtx ;; goto n Idle
  | Give x => when x (rpc_flush_page_to_storage n) ;; goto n (Flushed x)
  | Flushed x =>
      onServer (onBasic (if x then Basic.UnlockExclusive else Basic.UnlockShared)) ;;
      goto n (Unlocked x)
  | Unlocked x => onServer (onInfo (ReleasePage n)) ;; goto n (Invalidated x)
  | Invalidated x => onServer (onBasic Basic.UnlockMtx) ;; goto n (Returned x)
  | Returned x => releaseBufferPage n ;; onLatch n ER.UnlockRemoteOK ;; goto n Idle
  end.

(** A thread that has the page latched exclusively changes it. *)
Definition write_page (n : Z) (d : Data) : MS unit :=
  modify (λ s, mkSys (<[n := mkEN (en_latch (sy_node s n)) (Some d) (en_phase (sy_node s n))]>
    (sy_node s)) (sy_server s) (sy_storage s) d).

(** ** The step relation *)

Definition reads (l : ERLocalPageLock) : Prop :=
  er_lock l ≠ 0 ∧ er_lock l ≠ EXCLUSIVE_LOCKED ∧ er_granting l = false.
Definition writes (l : ERLocalPageLock) : Prop :=
  er_lock l = EXCLUSIVE_LOCKED ∧ er_granting l = false.

Inductive eager_step (s s' : Sys) : Prop :=
  | es_fetch_s n : valid_node n → er_lock (en_latch (sy_node s n)) ≠ EXCLUSIVE_LOCKED - 1 →
      rpc_fetch_s_page_begin n s = Done (tt, s') → eager_step s s'
  | es_fetch_x n : valid_node n → rpc_fetch_x_page_begin n s = Done (tt, s') → eager_step s s'
  | es_release_s n : valid_node n → reads (en_latch (sy_node s n)) →
      rpc_release_s_page_begin n s = Done (tt, s') → eager_step s s'
  | es_release_x n : valid_node n → writes (en_latch (sy_node s n)) →
      rpc_release_x_page_begin n s = Done (tt, s') → eager_step s s'
  | es_write n d : valid_node n → writes (en_latch (sy_node s n)) →
      write_page n d s = Done (tt, s') → eager_step s s'
  | es_advance n : valid_node n → advance n s = Done (tt, s') → eager_step s s'.

Definition eager_initial (pid : Z) (garbage : bool) (d : Data) : Sys :=
  mkSys (λ _, mkEN (ER.new_ERLocalPageLock pid garbage) None Idle)
    (mkEP (Basic.new_GlobalPageLock pid) (new_GlobalValidInfo pid)) d d.

Definition eager_reachable (pid : Z) (garbage : bool) (d : Data) (s : Sys) : Prop :=
  star eager_step (eager_initial pid garbage d) s.

(** ** Roles *)

(** What the lock table has granted to a node. *)
Definition owned (k : ENode) : option bool :=
  match en_phase k with
  | Idle | Local | Keep =>
      match er_remote_mode (en_latch k) with
      | NONE => None | SHARED => Some false | EXCLUSIVE => Some true
      end
  | Locked x | Answered x _ _ | Fetched x _ | Buffered x | Give x | Flushed x => Some x
  | Ask _ | Unlocked _ | Invalidated _ | Returned _ => None
  end.

(** Whether the validity record lists the node. *)
Definition listed (k : ENode) : bool :=
  match en_phase k with
  | Idle | Local | Keep => negb (bool_decide (er_remote_mode (en_latch k) = NONE))
  | Answered _ _ _ | Fetched _ _ | Buffered _ | Give _ | Flushed _ | Unlocked _ => true
  | Ask _ | Locked _ | Invalidated _ | Returned _ => false
  end.

(** The node's unlock handler holds the mutex of the lock; [Unlocked]: before it
    has updated the validity record. *)
Definition unlocked (k : ENode) : bool :=
  match en_phase k with Unlocked _ => true | _ => false end.
Definition in_handler (k : ENode) : bool :=
  match en_phase k with Unlocked _ | Invalidated _ => true | _ => false end.

(** The node may hold contents the storage does not have. *)
Definition dirty (k : ENode) : bool :=
  match en_phase k with
  | Idle => bool_decide (er_remote_mode (en_latch k) = EXCLUSIVE)
  | Give x => x
  | _ => false
  end.

Definition buffered (k : ENode) : bool :=
  match en_phase k with
  | Idle | Local | Keep => negb (bool_decide (er_remote_mode (en_latch k) = NONE))
  | Buffered _ | Give _ | Flushed _ | Unlocked _ | Invalidated _ | Returned _ => true
  | Ask _ | Locked _ | Answered _ _ _ | Fetched _ _ => false
  end.

(** ** The invariant *)

Definition latch_ok (k : ENode) : Prop :=
  let l := en_latch k in
  er_evicting l = false ∧
  match en_phase k with
  | Idle => er_mutex l = false ∧ er_granting l = false ∧
      match er_remote_mode l with
      | NONE => er_lock l = 0
      | SHARED => 0 < er_lock l < EXCLUSIVE_LOCKED
      | EXCLUSIVE => er_lock l = EXCLUSIVE_LOCKED
      end
  | Local | Keep => er_mutex l = true ∧ er_granting l = false ∧ er_remote_mode l = SHARED ∧
      0 < er_lock l < EXCLUSIVE_LOCKED
  | Ask x | Locked x | Answered x _ _ | Fetched x _ | Buffered x =>
      er_mutex l = false ∧ er_granting l = true ∧ er_remote_mode l = NONE ∧
      er_lock l = (if x then EXCLUSIVE_LOCKED else 1)
  | Give _ | Flushed _ | Unlocked _ | Invalidated _ | Returned _ =>
      er_mutex l = true ∧ er_granting l = false ∧ er_remote_mode l = NONE ∧ er_lock l = 0
  end.

(** A node on its own, [latest] being the contents last written. *)
Record enode_ok (n : Z) (latest : Data) (k : ENode) : Prop := {
  eo_latch : latch_ok k;
  eo_frame : is_Some (en_frame k) ↔ buffered k = true;
  eo_valid : owned k ≠ None ∨ en_phase k ≠ Idle → valid_node n;
  eo_data : ∀ d, en_frame k = Some d → listed k = true → d = latest;
  eo_answer : ∀ x src fs, en_phase k = Answered x src fs →
    src ≠ n ∧ (x = true → fs = true) ∧ (fs = true ↔ src = -1);
  eo_fetched : ∀ x d, en_phase k = Fetched x d → d = latest
}.

Section roles.
Variable own : Z → option bool.

Definition no_writer : Prop := ∀ n, own n ≠ Some true.

(** The lock word counts the readers or marks the one writer. *)
Definition word_ok (w : Z) : Prop :=
  ∃ readers, NoDup readers ∧ (∀ n, n ∈ readers ↔ own n = Some false) ∧
    ((w = Z.of_nat (length readers) ∧ no_writer) ∨
     (w = EXCLUSIVE_LOCKED ∧ readers = [] ∧
      ∃ m, own m = Some true ∧ ∀ n, own n = Some true → n = m)).
End roles.

Record sys_inv (s : Sys) : Prop := {
  si_node : ∀ n, enode_ok n (sy_latest s) (sy_node s n);
  si_word : word_ok (λ n, owned (sy_node s n)) (bl_lock (ep_lock (sy_server s)));
  si_listed : valid_state (ep_valid (sy_server s)) (λ n, listed (sy_node s n) = true) false;
  si_mutex : bl_mutex (ep_lock (sy_server s)) = true ↔ ∃ n, in_handler (sy_node s n) = true;
  si_handler : ∀ n m, in_handler (sy_node s n) = true → in_handler (sy_node s m) = true → n = m;
  si_quiet : (∃ w, owned (sy_node s w) = Some true) → ∀ n, unlocked (sy_node s n) = false;
  si_storage : (∀ n, dirty (sy_node s n) = false) → sy_storage s = sy_latest s;
  si_source : ∀ n x src d, en_phase (sy_node s n) = Answered x src false →
    en_frame (sy_node s src) = Some d → d = sy_latest s
}.

(** ** Running the latch of one node *)

Lemma safe_onLatch {A B} n (m : M ERLocalPageLock A) (f : A → MS B) Q s a l :
  m (en_latch (sy_node s n)) = Done (a, l) →
  safe (f a) Q (put_latch n l s) → safe (onLatch n m ≫= f) Q s.
Proof. intros E H. unfold safe, mbind, M_bind, onLatch, zoom. by rewrite E. Qed.

Ltac er_run :=
  match goal with
  | |- context [?l] =>
      match type of l with
      | ERLocalPageLock => is_var l; destruct l as [pid lk dt md gr ev mx]; simpl in *
      end
  end.

Lemma run_ER_LockShared l :
  er_mutex l = false → er_granting l = false → er_evicting l = false →
  match er_remote_mode l with
  | NONE => er_lock l = 0
  | SHARED => 0 < er_lock l < EXCLUSIVE_LOCKED
  | EXCLUSIVE => er_lock l = EXCLUSIVE_LOCKED
  end →
  ER.LockShared l = match er_remote_mode l with
    | NONE => Done (true, set_er_granting true (set_er_lock 1 l))
    | SHARED => Done (false, mutex_set true (set_er_lock (u64 (er_lock l + 1)) l))
    | EXCLUSIVE => Blocked
    end.
Proof using.
  intros Hm Hg He Hr. er_run. subst. unfold ER.LockShared, ER.spin, mutex_lock, mutex_unlock.
  destruct md; simpl in *; subst; [done| |done].
  unfold mbind, M_bind, gets, modify. simpl.
  rewrite (proj2 (Z.eqb_neq lk EXCLUSIVE_LOCKED)), (proj2 (Z.eqb_neq lk 0)) by lia. done.
Qed.

Lemma run_ER_LockExclusive l :
  er_mutex l = false → er_granting l = false → er_evicting l = false →
  match er_remote_mode l with
  | NONE => er_lock l = 0
  | SHARED => 0 < er_lock l < EXCLUSIVE_LOCKED
  | EXCLUSIVE => er_lock l = EXCLUSIVE_LOCKED
  end →
  ER.LockExclusive l = match er_remote_mode l with
    | NONE => Done (true, set_er_granting true (set_er_lock EXCLUSIVE_LOCKED l))
    | _ => Blocked
    end.
Proof using.
  intros Hm Hg He Hr. er_run. subst. unfold ER.LockExclusive, ER.spin, mutex_lock, mutex_unlock.
  destruct md; simpl in *; subst; [done| |done].
  unfold mbind, M_bind, gets, modify. simpl.
  rewrite (proj2 (Z.eqb_neq lk EXCLUSIVE_LOCKED)), (proj2 (Z.eqb_neq lk 0)) by lia. done.
Qed.

Lemma run_ER_LockRemoteOK l :
  er_mutex l = false → er_granting l = true →
  ER.LockRemoteOK l = Done (tt, set_er_granting false (set_er_mode
    (if er_lock l =? EXCLUSIVE_LOCKED then EXCLUSIVE else SHARED) l)).
Proof using. intros Hm Hg. er_run. by subst. Qed.

Lemma run_ER_UnlockShared l :
  er_mutex l = false → er_granting l = false → er_remote_mode l = SHARED →
  0 < er_lock l < EXCLUSIVE_LOCKED →
  ER.UnlockShared l =
    if er_lock l =? 1 then Done (true, mutex_set true (set_er_mode NONE (set_er_lock 0 l)))
    else Done (false, mutex_set true (set_er_lock (er_lock l - 1) l)).
Proof using.
  intros Hm Hg Hr Hl. er_run. subst.
  unfold ER.UnlockShared, mbind, M_bind, mutex_lock, gets, modify. simpl.
  rewrite (proj2 (Z.ltb_lt 0 lk)), (proj2 (Z.eqb_neq lk EXCLUSIVE_LOCKED)) by lia. simpl.
  rewrite lock_decr by lia. destruct (Z.eqb_spec lk 1) as [->|Hne]; [done|].
  by rewrite (proj2 (Z.eqb_neq (lk - 1) 0)) by lia.
Qed.

Lemma run_ER_UnlockExclusive l :
  er_mutex l = false → er_granting l = false → er_remote_mode l = EXCLUSIVE →
  er_lock l = EXCLUSIVE_LOCKED →
  ER.UnlockExclusive l = Done (true, mutex_set true (set_er_mode NONE (set_er_lock 0 l))).
Proof using. intros Hm Hg Hr Hl. er_run. by subst. Qed.

Lemma run_ER_unlock l : er_mutex l = true → ER.UnlockMtx l = Done (tt, mutex_set false l).
Proof using. intros Hm. by apply run_mutex_unlock. Qed.

(** ** Steps of one node *)

(** [s'] differs from [s] in the node [n] only, which is now [k]. *)
Definition moves (n : Z) (k : ENode) (s s' : Sys) : Prop :=
  sy_node s' n = k ∧ ∀ m, m ≠ n → sy_node s' m = sy_node s m.

Lemma moves_put n k s s' k' :
  moves n k s s' → moves n k' s (put_node n k' s').
Proof using.
  intros [_ Hne]. split; simpl; [by rewrite fn_lookup_insert|].
  intros m Hm. rewrite fn_lookup_insert_ne by done. by apply Hne.
Qed.

Lemma moves_refl n s : moves n (sy_node s n) s s.
Proof using. done. Qed.

Lemma moves_same {A} (f : ENode → A) n k s s' :
  moves n k s s' → f k = f (sy_node s n) → ∀ m, f (sy_node s' m) = f (sy_node s m).
Proof using.
  intros [He Hne] Hf m. destruct (decide (m = n)) as [->|Hm].
  - by rewrite He.
  - by rewrite Hne.
Qed.

Lemma word_ok_ext own own' w : (∀ n, own' n = own n) → word_ok own w → word_ok own' w.
Proof using.
  intros He (H & Hnd & Hin & Hc). exists H. split; [done|]. split.
  - intros n. by rewrite Hin, He.
  - destruct Hc as [[Hw Hno]|(Hw & Hn & m & Hm & Hu)]; [left|right].
    + split; [done|]. intros n. rewrite He. apply Hno.
    + split_and!; [done|done|]. exists m. rewrite He. split; [done|].
      intros n. rewrite He. apply Hu.
Qed.

(** Nobody but [n] looks at what a step of [n] does to its frame, unless the
    contents stay the latest. *)
Lemma source_step n k s s' :
  (∀ m x src d, en_phase (sy_node s m) = Answered x src false →
     en_frame (sy_node s src) = Some d → d = sy_latest s) →
  moves n k s s' → (∀ x src, en_phase k ≠ Answered x src false) →
  (∀ d, en_frame k = Some d → en_frame (sy_node s n) = Some d ∨ d = sy_latest s) →
  ∀ m x src d, en_phase (sy_node s' m) = Answered x src false →
    en_frame (sy_node s' src) = Some d → d = sy_latest s.
Proof using.
  intros Hs [He Hne] Hk Hf m x src d. destruct (decide (m = n)) as [->|Hm].
  - rewrite He. by intros ?%Hk.
  - rewrite (Hne m) by done. intros Ha. destruct (decide (src = n)) as [->|?].
    + rewrite He. intros [?| ->]%Hf; [by eapply Hs|done].
    + rewrite Hne by done. by eapply Hs.
Qed.

(** A step that changes no role: the lock table is untouched. *)
Lemma quiet_step n k s s' :
  sys_inv s → moves n k s s' → sy_server s' = sy_server s → sy_latest s' = sy_latest s →
  enode_ok n (sy_latest s) k →
  owned k = owned (sy_node s n) → listed k = listed (sy_node s n) →
  in_handler k = in_handler (sy_node s n) → unlocked k = unlocked (sy_node s n) →
  (sy_storage s' = sy_storage s ∧ (dirty (sy_node s n) = true → dirty k = true) ∨
   sy_storage s' = sy_latest s) →
  (∀ x src, en_phase k ≠ Answered x src false) →
  (∀ d, en_frame k = Some d → en_frame (sy_node s n) = Some d ∨ d = sy_latest s) →
  sys_inv s'.
Proof using.
  intros [Hn Hw Hl Hm Hh Hq Hs Hf] Hmv Esv Ela Hk Eo El Eh Eu Hd Hna Hfr.
  pose proof (moves_same owned n k s s' Hmv Eo) as Ho'.
  pose proof (moves_same listed n k s s' Hmv El) as Hl'.
  pose proof (moves_same in_handler n k s s' Hmv Eh) as Hh'.
  pose proof (moves_same unlocked n k s s' Hmv Eu) as Hu'.
  pose proof (source_step n k s s' Hf Hmv Hna Hfr) as Hf'.
  destruct Hmv as [He Hne]. split; rewrite ?Esv, ?Ela.
  - intros m. destruct (decide (m = n)) as [->|?]; [by rewrite He|by rewrite Hne].
  - by apply (word_ok_ext (λ j, owned (sy_node s j))).
  - eapply valid_state_ext; [|done]. intros m. by rewrite Hl'.
  - rewrite Hm. split; intros [m Hx]; exists m; [by rewrite Hh'|by rewrite <- Hh'].
  - intros a b. rewrite !Hh'. apply Hh.
  - intros [w Hx] m. rewrite Hu'. apply Hq. exists w. by rewrite <- Ho'.
  - intros Hall. destruct Hd as [[-> Hd]|Hd]; [|done]. apply Hs. intros m.
    destruct (decide (m = n)) as [->|?].
    + specialize (Hall n). rewrite He in Hall. destruct (dirty (sy_node s n)); [|done].
      by rewrite Hd in Hall.
    + specialize (Hall m). by rewrite Hne in Hall.
  - exact Hf'.
Qed.

Lemma moves_latch n k s s' l :
  moves n k s s' → moves n (mkEN l (en_frame k) (en_phase k)) s (put_latch n l s').
Proof using. intros Hm. unfold put_latch. rewrite (proj1 Hm). by eapply moves_put. Qed.

Lemma moves_phase n k s s' p :
  moves n k s s' → moves n (mkEN (en_latch k) (en_frame k) p) s (put_phase n p s').
Proof using. intros Hm. unfold put_phase. rewrite (proj1 Hm). by eapply moves_put. Qed.

Lemma moves_frame n k s s' f :
  moves n k s s' → moves n (mkEN (en_latch k) f (en_phase k)) s (put_frame n f s').
Proof using. intros Hm. unfold put_frame. rewrite (proj1 Hm). by eapply moves_put. Qed.

Create HintDb moves.
#[local] Hint Resolve moves_latch moves_phase moves_frame moves_refl : moves.

(** Outside [Idle] a thread that comes for the latch finds it busy. *)
Lemma busy_blocks n s :
  sys_inv s → en_phase (sy_node s n) ≠ Idle →
  ER.LockShared (en_latch (sy_node s n)) = Blocked ∧
  ER.LockExclusive (en_latch (sy_node s n)) = Blocked ∧
  (¬ (er_granting (en_latch (sy_node s n)) = true) →
   ER.UnlockShared (en_latch (sy_node s n)) = Blocked ∧
   ER.UnlockExclusive (en_latch (sy_node s n)) = Blocked).
Proof using.
  intros Hs Hp. destruct (eo_latch _ _ _ (si_node _ Hs n)) as [He H].
  destruct (sy_node s n) as [[pid lk dt md gr ev mx] f p]. simpl in *. subst ev.
  unfold ER.LockShared, ER.LockExclusive, ER.UnlockShared, ER.UnlockExclusive, ER.spin, mbind,
    M_bind, mutex_lock, mutex_unlock, gets. simpl.
  destruct p; try done; destruct H as (Hm & Hg & _); subst; simpl;
    (split_and!; [done|done|]); intros Hng; done.
Qed.

Lemma idle_latch n s :
  sys_inv s → en_phase (sy_node s n) = Idle →
  let l := en_latch (sy_node s n) in
  er_mutex l = false ∧ er_granting l = false ∧ er_evicting l = false ∧
  match er_remote_mode l with
  | NONE => er_lock l = 0
  | SHARED => 0 < er_lock l < EXCLUSIVE_LOCKED
  | EXCLUSIVE => er_lock l = EXCLUSIVE_LOCKED
  end.
Proof using.
  intros Hs Hp. destruct (eo_latch _ _ _ (si_node _ Hs n)) as [He H]. rewrite Hp in H. by destruct H as (? & ? & ?).
Qed.

Lemma safe_onLatch_blocked {A B} n (m : M ERLocalPageLock A) (f : A → MS B) Q s :
  m (en_latch (sy_node s n)) = Blocked → safe (onLatch n m ≫= f) Q s.
Proof using. intros E. unfold safe, mbind, M_bind, onLatch, zoom. by rewrite E. Qed.

(** A quiet step of [n]: its new local state remains to be checked. *)
Ltac role_simpl :=
  unfold owned, listed, dirty, in_handler, unlocked, buffered, latch_ok in *; simpl in *;
  repeat match goal with
  | H : en_phase _ = _ |- _ => rewrite H in *; clear H
  | H : er_remote_mode (en_latch _) = _ |- _ => rewrite H in *; clear H
  end; simpl in *.

Ltac quiet :=
  unfold goto; safe_step;
  eapply quiet_step; [eassumption|eauto with moves|done|done| | | | | |left; split; [done|]| |];
  [|role_simpl; try done; try (by left)..].

Lemma fetch_s_step n s :
  sys_inv s → valid_node n → er_lock (en_latch (sy_node s n)) ≠ EXCLUSIVE_LOCKED - 1 →
  safe (rpc_fetch_s_page_begin n) (λ _ s', sys_inv s') s.
Proof using.
  intros Hs Hn Hmax. unfold rpc_fetch_s_page_begin.
  destruct (en_phase (sy_node s n)) eqn:Hp;
    try (apply safe_onLatch_blocked; apply busy_blocks; [done|by rewrite Hp]).
  destruct (idle_latch n s Hs Hp) as (Hm & Hg & He & Hr).
  pose proof (run_ER_LockShared _ Hm Hg He Hr) as Hrun.
  pose proof (si_node _ Hs n) as [Hla Hfr _ Hdt _ _].
  destruct (er_remote_mode (en_latch (sy_node s n))) eqn:Hmode.
  - eapply safe_onLatch; [exact Hrun|]. quiet.
    split; role_simpl; done.
  - eapply safe_onLatch; [exact Hrun|]. quiet.
    split; role_simpl; try done. rewrite lock_incr by lia. split_and!; try done; lia.
  - by apply safe_onLatch_blocked.
Qed.

Lemma fetch_x_step n s :
  sys_inv s → valid_node n → safe (rpc_fetch_x_page_begin n) (λ _ s', sys_inv s') s.
Proof using.
  intros Hs Hn. unfold rpc_fetch_x_page_begin.
  destruct (en_phase (sy_node s n)) eqn:Hp;
    try (apply safe_onLatch_blocked; apply busy_blocks; [done|by rewrite Hp]).
  destruct (idle_latch n s Hs Hp) as (Hm & Hg & He & Hr).
  pose proof (run_ER_LockExclusive _ Hm Hg He Hr) as Hrun.
  pose proof (si_node _ Hs n) as [Hla Hfr _ Hdt _ _].
  destruct (er_remote_mode (en_latch (sy_node s n))) eqn:Hmode; [|by apply safe_onLatch_blocked..].
  eapply safe_onLatch; [exact Hrun|]. safe_step. apply safe_check; [done|]. quiet.
  split; role_simpl; done.
Qed.

Lemma release_s_step n s :
  sys_inv s → valid_node n → reads (en_latch (sy_node s n)) →
  safe (rpc_release_s_page_begin n) (λ _ s', sys_inv s') s.
Proof using.
  intros Hs Hn (H0 & Hx & Hng). unfold rpc_release_s_page_begin.
  destruct (en_phase (sy_node s n)) eqn:Hp;
    try (apply safe_onLatch_blocked; apply busy_blocks; [done|by rewrite Hp|by rewrite Hng]).
  destruct (idle_latch n s Hs Hp) as (Hm & Hg & He & Hr).
  pose proof (si_node _ Hs n) as [Hla Hfr _ Hdt _ _].
  destruct (er_remote_mode (en_latch (sy_node s n))) eqn:Hmode; [done| |done].
  pose proof (run_ER_UnlockShared _ Hm Hg Hmode Hr) as Hrun.
  destruct (er_lock (en_latch (sy_node s n)) =? 1) eqn:E1; bool_simpl.
  - eapply safe_onLatch; [exact Hrun|]. quiet.
    split; role_simpl; done.
  - eapply safe_onLatch; [exact Hrun|]. quiet.
    split; role_simpl; try done. split_and!; try done; lia.
Qed.

Lemma release_x_step n s :
  sys_inv s → valid_node n → writes (en_latch (sy_node s n)) →
  safe (rpc_release_x_page_begin n) (λ _ s', sys_inv s') s.
Proof using.
  intros Hs Hn (Hx & Hng). unfold rpc_release_x_page_begin.
  destruct (en_phase (sy_node s n)) eqn:Hp;
    try (apply safe_onLatch_blocked; apply busy_blocks; [done|by rewrite Hp|by rewrite Hng]).
  destruct (idle_latch n s Hs Hp) as (Hm & Hg & He & Hr).
  pose proof (si_node _ Hs n) as [Hla Hfr _ Hdt _ _].
  destruct (er_remote_mode (en_latch (sy_node s n))) eqn:Hmode.
  - by rewrite Hr in Hx.
  - rewrite Hx in Hr. lia.
  - pose proof (run_ER_UnlockExclusive _ Hm Hg Hmode Hr) as Hrun.
    eapply safe_onLatch; [exact Hrun|]. safe_step. apply safe_check; [done|]. quiet.
    split; role_simpl; done.
Qed.

(** The lock word decides who owns what. *)
Lemma word_writer own w m :
  word_ok own w → own m = Some true → w = EXCLUSIVE_LOCKED ∧ ∀ n, n ≠ m → own n = None.
Proof using.
  intros (H & Hnd & Hin & [[_ Hno]|(Hw & -> & j & Hj & Hu)]) Hm; [by destruct (Hno m)|].
  split; [done|]. rewrite (Hu m Hm) in *. intros n Hne. destruct (own n) as [[]|] eqn:E; [|exfalso..|done].
  - by destruct Hne; apply Hu.
  - apply Hin in E. by apply not_elem_of_nil in E.
Qed.

(** The validity record lists owners, and nodes about to leave it. *)
Lemma listed_owner k : listed k = true → owned k ≠ None ∨ unlocked k = true.
Proof using.
  unfold listed, owned, unlocked. destruct (en_phase k); try (by left); try (by right);
    try done; case_bool_decide; try done; left; by destruct (er_remote_mode _).
Qed.

Lemma writes_idle n s :
  sys_inv s → writes (en_latch (sy_node s n)) →
  en_phase (sy_node s n) = Idle ∧ er_remote_mode (en_latch (sy_node s n)) = EXCLUSIVE.
Proof using.
  intros Hs (Hx & Hng). pose proof (eo_latch _ _ _ (si_node _ Hs n)) as Hla.
  unfold latch_ok in Hla. rewrite Hx, Hng in Hla. destruct Hla as [_ Hla].
  destruct (en_phase (sy_node s n)); try (destruct Hla as (_ & ? & ? & ?); done || lia).
  destruct (er_remote_mode (en_latch (sy_node s n))); destruct Hla as (_ & _ & Hl); done || lia.
Qed.

Lemma write_step n d s :
  sys_inv s → valid_node n → writes (en_latch (sy_node s n)) →
  safe (write_page n d) (λ _ s', sys_inv s') s.
Proof using.
  intros Hs Hn Hw0. unfold write_page. safe_step.
  pose proof (si_node _ Hs n) as Hk. pose proof (eo_latch _ _ _ Hk) as Hla.
  set (k' := mkEN (en_latch (sy_node s n)) (Some d) (en_phase (sy_node s n))).
  destruct (writes_idle n s Hs Hw0) as [Hp Hm].
  assert (owned (sy_node s n) = Some true) as Ho by (unfold owned; by rewrite Hp, Hm).
  destruct (word_writer _ _ n (si_word _ Hs) Ho) as [_ Hothers].
  set (s' := mkSys _ _ _ _).
  assert (moves n k' s s') as Hmv by (by apply (moves_put n (sy_node s n) s s k')).
  assert (∀ m, owned (sy_node s' m) = owned (sy_node s m)) as Ho'
    by by apply (moves_same owned n k' s s').
  assert (∀ m, listed (sy_node s' m) = listed (sy_node s m)) as Hl'
    by by apply (moves_same listed n k' s s').
  assert (∀ m, in_handler (sy_node s' m) = in_handler (sy_node s m)) as Hh'
    by by apply (moves_same in_handler n k' s s').
  assert (∀ m, unlocked (sy_node s' m) = unlocked (sy_node s m)) as Hu'
    by by apply (moves_same unlocked n k' s s').
  destruct Hs as [Hns Hw Hl Hmx Hh Hq Hst Hf]. destruct Hmv as [He Hne].
  split.
  - intros m. destruct (decide (m = n)) as [->|Hmn].
    + rewrite He. destruct Hk as [_ Hfr Hv Hdt Ha Hfe]. split; simpl; try done.
      * split; [|done]. intros _. unfold buffered. simpl. by rewrite Hp, Hm.
      * by intros d' [= ->].
      * intros x d'. by rewrite Hp.
    + rewrite Hne by done. destruct (Hns m) as [? ? ? Hdt ? Hfe]. specialize (Hothers m Hmn).
      split; try done.
      * intros d' _ Hli. destruct (listed_owner _ Hli) as [?|Hu]; [done|].
        by rewrite Hq in Hu by eauto.
      * intros x d' E. exfalso. simpl in Hothers. unfold owned in Hothers. by rewrite E in Hothers.
  - by apply (word_ok_ext (λ j, owned (sy_node s j))).
  - eapply valid_state_ext; [|exact Hl]. intros m. by rewrite Hl'.
  - transitivity (∃ m, in_handler (sy_node s m) = true); [exact Hmx|].
    split; intros [m Hx']; exists m; [by rewrite Hh'|by rewrite <- Hh'].
  - intros a b. rewrite !Hh'. apply Hh.
  - intros [w Hx'] m. rewrite Hu'. apply Hq. exists w. by rewrite <- Ho'.
  - intros Hall. specialize (Hall n). rewrite He in Hall. unfold dirty in Hall. simpl in Hall.
    by rewrite Hp, Hm in Hall.
  - intros m x src d' Ha. exfalso. destruct (decide (m = n)) as [->|Hmn].
    + rewrite He in Ha. simpl in Ha. congruence.
    + rewrite Hne in Ha by done. specialize (Hothers m Hmn). unfold owned in Hothers.
      by rewrite Ha in Hothers.
Qed.

(** ** The lock word *)

Section word.
Variables (own own' : Z → option bool) (n w : Z).
Hypothesis Hown : word_ok own w.
Hypothesis Hothers : ∀ m, m ≠ n → own' m = own m.

Lemma word_add_reader :
  (∀ m, own m ≠ None → valid_node m) → w ≠ EXCLUSIVE_LOCKED →
  own n = None → own' n = Some false → word_ok own' (u64 (w + 1)).
Proof using Hown Hothers.
  intros Hv Hw Hn Hn'. destruct Hown as (H & Hnd & Hin & [[-> Hno]|[? _]]); [|done].
  assert (n ∉ H) as HnH by (rewrite Hin, Hn; done).
  rewrite lock_incr.
  2: { apply nodes_below_exclusive; [done|]. apply Forall_forall. intros m Hm. apply Hv.
       apply Hin in Hm. by rewrite Hm. }
  exists (n :: H). split_and!; [by apply NoDup_cons| |left; split; [simpl; lia|]].
  - intros m. rewrite elem_of_cons. destruct (decide (m = n)) as [->|Hm].
    + rewrite Hn'. tauto.
    + rewrite Hothers, <- Hin by done. tauto.
  - intros m. destruct (decide (m = n)) as [->|Hm]; [by rewrite Hn'|rewrite Hothers by done; apply Hno].
Qed.

Lemma word_free : w = 0 → ∀ m, own m = None.
Proof using Hown.
  destruct Hown as (H & Hnd & Hin & [[Hl Hno]|[Hx _]]); [|intros Hw0; by rewrite Hw0 in Hx].
  intros ->. destruct H; [|done]. intros m. destruct (own m) as [[]|] eqn:E; [by apply Hno in E| |done].
  apply Hin in E. by apply not_elem_of_nil in E.
Qed.

Lemma word_taken : w ≠ 0 → ∃ m, own m ≠ None.
Proof using Hown.
  destruct Hown as (H & Hnd & Hin & [[-> _]|(_ & _ & m & Hm & _)]); [|exists m; by rewrite Hm].
  destruct H as [|m H]; [done|]. intros _. exists m. by rewrite (proj1 (Hin m)) by left.
Qed.

Lemma word_add_writer : w = 0 → own' n = Some true → word_ok own' EXCLUSIVE_LOCKED.
Proof using Hown Hothers.
  intros Hw Hn'. pose proof (word_free Hw) as Hfree. exists []. split_and!; [apply NoDup_nil_2| |].
  - intros m. destruct (decide (m = n)) as [->|Hm].
    + rewrite Hn'. split; [by intros ?%not_elem_of_nil|done].
    + rewrite Hothers, Hfree by done. split; [by intros ?%not_elem_of_nil|done].
  - right. split_and!; [done|done|]. exists n. split; [done|]. intros m Hm.
    destruct (decide (m = n)); [done|]. by rewrite Hothers, Hfree in Hm.
Qed.

Lemma word_reader : own n = Some false → 0 < w ∧ no_writer own.
Proof using Hown.
  destruct Hown as (H & Hnd & Hin & [[-> Hno]|(_ & -> & _)]); intros Hn; apply Hin in Hn.
  - split; [|done]. destruct H; [by apply not_elem_of_nil in Hn|simpl; lia].
  - by apply not_elem_of_nil in Hn.
Qed.

Lemma word_drop_reader :
  (∀ m, own m ≠ None → valid_node m) → own n = Some false → own' n = None →
  word_ok own' (u64 (w - 1)).
Proof using Hown Hothers.
  intros Hv Hn Hn'. destruct (word_reader Hn) as [Hpos Hno].
  destruct Hown as (H & Hnd & Hin & [[-> _]|(_ & _ & m & Hm & _)]); [|by destruct (Hno m)].
  assert (Z.of_nat (length H) < EXCLUSIVE_LOCKED) as Hb.
  { apply nodes_below_exclusive; [done|]. apply Forall_forall. intros m Hm. apply Hv.
    apply Hin in Hm. by rewrite Hm. }
  assert (n ∈ H) as HnH by by apply Hin.
  rewrite lock_decr by lia.
  exists (list_remove n H). split_and!; [by apply NoDup_list_remove| |left; split].
  - intros m. rewrite elem_of_list_remove. destruct (decide (m = n)) as [->|Hm].
    + rewrite Hn'. split; [by intros [_ ?]|done].
    + rewrite Hothers, <- Hin by done. tauto.
  - pose proof (length_list_remove n H Hnd HnH). lia.
  - intros m. destruct (decide (m = n)) as [->|Hm]; [by rewrite Hn'|rewrite Hothers by done; apply Hno].
Qed.

Lemma word_drop_writer : own n = Some true → own' n = None → word_ok own' 0.
Proof using Hown Hothers.
  intros Hn Hn'. destruct (word_writer own w n Hown Hn) as [_ Hnone].
  assert (∀ m, own' m = None) as Hall.
  { intros m. destruct (decide (m = n)) as [->|Hm]; [done|]. rewrite Hothers by done. by apply Hnone. }
  exists []. split_and!; [apply NoDup_nil_2| |left; split; [done|]].
  - intros m. rewrite Hall. split; [by intros ?%not_elem_of_nil|done].
  - intros m. by rewrite Hall.
Qed.
End word.

(** ** Running the lock table *)

Lemma safe_onServer {A B} (m : M EagerPage A) (f : A → MS B) Q s a e :
  m (sy_server s) = Done (a, e) → safe (f a) Q (put_server e s) → safe (onServer m ≫= f) Q s.
Proof using. intros E H. unfold safe, mbind, M_bind, onServer, zoom. by rewrite E. Qed.

Lemma safe_onServer_blocked {A B} (m : M EagerPage A) (f : A → MS B) Q s :
  m (sy_server s) = Blocked → safe (onServer m ≫= f) Q s.
Proof using. intros E. unfold safe, mbind, M_bind, onServer, zoom. by rewrite E. Qed.

Definition lock_of (x : bool) : M EagerPage unit :=
  onBasic (if x then Basic.LockExclusive else Basic.LockShared).
Definition unlock_of (x : bool) : M EagerPage unit :=
  onBasic (if x then Basic.UnlockExclusive else Basic.UnlockShared).

Lemma run_lock_of (x : bool) e :
  lock_of x e =
    if bl_mutex (ep_lock e) || (if x then negb (bl_lock (ep_lock e) =? 0)
                                else bl_lock (ep_lock e) =? EXCLUSIVE_LOCKED)
    then Blocked
    else Done (tt, ep_put_lock (set_bl_lock
      (if x then EXCLUSIVE_LOCKED else u64 (bl_lock (ep_lock e) + 1)) (ep_lock e)) e).
Proof using.
  destruct e as [[pid w []] v]; [by destruct x|].
  unfold lock_of, onBasic, zoom, Basic.LockExclusive, Basic.LockShared, mbind, M_bind, mutex_lock, gets.
  destruct x; simpl; [by destruct (w =? 0)|by destruct (w =? EXCLUSIVE_LOCKED)].
Qed.

Lemma run_unlock_of (x : bool) e :
  (if x then bl_lock (ep_lock e) = EXCLUSIVE_LOCKED else 0 < bl_lock (ep_lock e)) →
  unlock_of x e =
    if bl_mutex (ep_lock e) then Blocked
    else Done (tt, ep_put_lock (mutex_set true (set_bl_lock
      (if x then 0 else u64 (bl_lock (ep_lock e) - 1)) (ep_lock e))) e).
Proof using.
  destruct e as [[pid w []] v]; [by destruct x|].
  unfold unlock_of, onBasic, zoom, Basic.UnlockExclusive, Basic.UnlockShared, mbind, M_bind,
    mutex_lock, gets. intros Hw.
  destruct x; simpl in *; [by subst|]. by rewrite (proj2 (Z.ltb_lt 0 w)).
Qed.

Lemma owners_valid s : sys_inv s → ∀ m, owned (sy_node s m) ≠ None → valid_node m.
Proof using. intros Hs m Hm. apply (eo_valid _ _ _ (si_node _ Hs m)). by left. Qed.

Lemma no_handler s :
  sys_inv s → bl_mutex (ep_lock (sy_server s)) = false →
  ∀ m, in_handler (sy_node s m) = false ∧ unlocked (sy_node s m) = false.
Proof using.
  intros Hs Hm m. destruct (in_handler (sy_node s m)) eqn:E.
  - rewrite (proj2 (si_mutex _ Hs)) in Hm by eauto. done.
  - split; [done|]. unfold in_handler, unlocked in *. by destruct (en_phase (sy_node s m)).
Qed.

(** What a step of [n] on the lock table does to the rest of the system: the
    clauses that only look at the other nodes. *)
Lemma handler_step n k s s' (b : bool) :
  (∀ m, m ≠ n → in_handler (sy_node s m) = false) → moves n k s s' → in_handler k = b →
  (b = true ↔ ∃ m, in_handler (sy_node s' m) = true) ∧
  ∀ m1 m2, in_handler (sy_node s' m1) = true → in_handler (sy_node s' m2) = true → m1 = m2.
Proof using.
  intros Hno [He Hne] Hb.
  assert (∀ m, in_handler (sy_node s' m) = true → m = n ∧ b = true) as Hall.
  { intros m. destruct (decide (m = n)) as [->|Hm]; [by rewrite He, Hb|].
    by rewrite Hne, Hno. }
  split.
  - split; [intros ->; exists n; by rewrite He|]. by intros [m [_ ?]%Hall].
  - by intros m1 m2 [-> _]%Hall [-> _]%Hall.
Qed.

Lemma storage_step n k s s' :
  sys_inv s → moves n k s s' → sy_storage s' = sy_storage s → sy_latest s' = sy_latest s →
  dirty (sy_node s n) = false → (∀ m, dirty (sy_node s' m) = false) → sy_storage s' = sy_latest s'.
Proof using.
  intros Hs [He Hne] -> -> Hd Hall. apply (si_storage _ Hs). intros m.
  destruct (decide (m = n)) as [->|Hm]; [done|]. by rewrite <- Hne.
Qed.

Lemma lock_step n x s :
  sys_inv s → valid_node n → en_phase (sy_node s n) = Ask x →
  safe (onServer (lock_of x) ;; goto n (Locked x)) (λ _ s', sys_inv s') s.
Proof using.
  intros Hs Hn Hp. pose proof (run_lock_of x (sy_server s)) as Hrun.
  destruct (bl_mutex (ep_lock (sy_server s)) || _) eqn:Hb in Hrun;
    [by apply safe_onServer_blocked|].
  apply orb_false_iff in Hb as [Hm Hw]. pose proof (no_handler s Hs Hm) as Hnh.
  eapply safe_onServer; [exact Hrun|]. unfold goto. safe_step.
  set (s' := put_phase _ _ _).
  assert (moves n (mkEN (en_latch (sy_node s n)) (en_frame (sy_node s n)) (Locked x)) s s') as Hmv
    by by apply (moves_put n (sy_node s n)).
  pose proof (si_node _ Hs n) as [Hla Hfr Hv Hdt _ _].
  assert (owned (sy_node s n) = None ∧ listed (sy_node s n) = false ∧ dirty (sy_node s n) = false)
    as (Ho & Hli & Hdi) by (unfold owned, listed, dirty; by rewrite Hp).
  destruct (handler_step n _ s s' false (λ m _, proj1 (Hnh m)) Hmv eq_refl) as [Hh1 Hh2].
  pose proof (storage_step n _ s s' Hs Hmv eq_refl eq_refl Hdi) as Hst.
  pose proof (source_step n _ s s' (si_source _ Hs) Hmv) as Hsrc.
  pose proof (moves_same listed n _ s s' Hmv (eq_sym Hli)) as Hls. pose proof Hmv as [He Hne].
  split; try done.
  - intros m. destruct (decide (m = n)) as [->|?]; [rewrite He|rewrite Hne by done; apply Hs].
    unfold latch_ok, buffered in *. rewrite Hp in *. split; simpl; done.
  - simpl. destruct x; bool_simpl.
    + by apply (word_add_writer (λ m, owned (sy_node s m)) (λ m, owned (sy_node s' m)) n _
        (si_word _ Hs) (λ m Hm', f_equal owned (Hne m Hm')) Hw (f_equal owned He)).
    + by apply (word_add_reader (λ m, owned (sy_node s m)) (λ m, owned (sy_node s' m)) n _
        (si_word _ Hs) (λ m Hm', f_equal owned (Hne m Hm')) (owners_valid s Hs) Hw Ho
        (f_equal owned He)).
  - eapply valid_state_ext; [|apply Hs]. intros m. by rewrite (Hls m).
  - simpl. by rewrite Hm.
  - intros _ m. destruct (decide (m = n)) as [->|?]; [by rewrite He|rewrite Hne by done; apply Hnh].
  - apply Hsrc; [done|]. by left.
Qed.

(** With a writer about, the validity record lists nobody else. *)
Lemma writer_listed s n m :
  sys_inv s → owned (sy_node s n) = Some true → m ≠ n → listed (sy_node s m) = false.
Proof using.
  intros Hs Hn Hm. destruct (listed (sy_node s m)) eqn:E; [|done].
  destruct (listed_owner _ E) as [Ho|Hu].
  - by destruct Ho; apply (word_writer _ _ n (si_word _ Hs) Hn).
  - by rewrite (si_quiet _ Hs) in Hu by eauto.
Qed.

Lemma listed_node s m : sys_inv s → listed (sy_node s m) = true → valid_node m.
Proof using.
  intros Hs Hm. destruct (si_listed _ Hs) as ([Hl _] & _ & HP).
  apply (has_page_valid_node (ep_valid (sy_server s))); [done|]. by apply HP.
Qed.

Lemma valid_step n x s :
  sys_inv s → valid_node n → en_phase (sy_node s n) = Locked x →
  wp (r ← onServer (onInfo (GetValid n false)) ; goto n (Answered x (fst r) (snd r)))
    (λ _ s', sys_inv s') s.
Proof using.
  intros Hs Hn Hp. unfold onServer, onInfo. do 3 wp_step.
  assert (owned (sy_node s n) = Some x ∧ listed (sy_node s n) = false ∧
    dirty (sy_node s n) = false ∧ in_handler (sy_node s n) = false ∧
    unlocked (sy_node s n) = false) as (Ho & Hli & Hdi & Hih & Hun)
    by (unfold owned, listed, dirty, in_handler, unlocked; by rewrite Hp).
  eapply wp_mono; [by apply GetValid_spec; [apply Hs|]|].
  intros r v (Hv & _ & Hr). destruct Hr as [Hr _]; [by rewrite Hli|].
  unfold goto. wp_step. rewrite Hr. cbn [fst snd]. set (src := newest_node _). set (s' := put_phase _ _ _).
  set (k := mkEN (en_latch (sy_node s n)) (en_frame (sy_node s n))
    (Answered x src (bool_decide (src = -1)))).
  assert (moves n k s s') as Hmv by by apply (moves_put n (sy_node s n)).
  assert ((src = -1 ∧ ∀ m, ¬ listed (sy_node s m) = true) ∨ listed (sy_node s src) = true) as Hsrc.
  { exact (valid_state_newest _ _ _ (si_listed _ Hs)). }
  assert (src = -1 ↔ ∀ m, listed (sy_node s m) = false) as Hnone.
  { split.
    - intros E m. apply not_true_is_false. destruct Hsrc as [[_ Hall]|Hl]; [apply Hall|].
      apply listed_node in Hl; [|done]. rewrite E in Hl. by destruct Hl.
    - intros Hall. destruct Hsrc as [[? _]|Hl]; [done|]. by rewrite Hall in Hl. }
  pose proof (moves_same owned n k s s' Hmv (eq_sym Ho)) as Hos.
  pose proof (moves_same in_handler n k s s' Hmv (eq_sym Hih)) as Hhs.
  pose proof (moves_same unlocked n k s s' Hmv (eq_sym Hun)) as Hus.
  pose proof (storage_step n _ s s' Hs Hmv eq_refl eq_refl Hdi) as Hst.
  pose proof Hmv as [He Hne]. pose proof (si_node _ Hs n) as [Hla Hfr Hvn Hdt _ _].
  split; try done.
  - intros m. destruct (decide (m = n)) as [->|?]; [rewrite He|rewrite Hne by done; apply Hs].
    unfold latch_ok, buffered in *. rewrite Hp in *. split; unfold latch_ok, buffered; simpl; try done.
    + intros d Hd. by destruct (proj1 Hfr (ex_intro _ d Hd)).
    + intros x' src' fs [= -> <- <-]. rewrite bool_decide_eq_true. split_and!; [|intros ->|done].
      * intros E. destruct Hsrc as [[E' _]|Hl]; [|by rewrite E, Hli in Hl].
        rewrite <- E, E' in Hn. by destruct Hn.
      * apply Hnone. intros m. destruct (decide (m = n)) as [->|]; [done|].
        by apply (writer_listed s n).
  - apply (word_ok_ext (λ j, owned (sy_node s j))); [done|apply Hs].
  - eapply valid_state_ext; [|exact Hv]. intros m. destruct (decide (m = n)) as [->|?].
    + rewrite He. simpl. naive_solver.
    + rewrite Hne by done. naive_solver.
  - transitivity (∃ m, in_handler (sy_node s m) = true); [apply Hs|].
    split; intros [m Hx']; exists m; [by rewrite Hhs|by rewrite <- Hhs].
  - intros a b. rewrite !Hhs. apply Hs.
  - intros [w Hw] m. rewrite Hus. apply (si_quiet _ Hs). exists w. by rewrite <- Hos.
  - intros m x' src' d. destruct (decide (m = n)) as [->|?].
    + rewrite He. intros [= -> <- E]. apply bool_decide_eq_false in E.
      destruct Hsrc as [[? _]|Hl]; [done|]. assert (src ≠ n) by (intros ->; congruence).
      rewrite Hne by done. intros Hd. by apply (eo_data _ _ _ (si_node _ Hs src)).
    + rewrite Hne by done. intros Ha Hd. apply (si_source _ Hs m x' src' d Ha).
      destruct (decide (src' = n)) as [->|?]; [by rewrite He in Hd|by rewrite Hne in Hd].
Qed.

Lemma unlock_step n x s :
  sys_inv s → valid_node n → en_phase (sy_node s n) = Flushed x →
  safe (onServer (unlock_of x) ;; goto n (Unlocked x)) (λ _ s', sys_inv s') s.
Proof using.
  intros Hs Hn Hp.
  assert (owned (sy_node s n) = Some x ∧ listed (sy_node s n) = true ∧
    dirty (sy_node s n) = false) as (Ho & Hli & Hdi)
    by (unfold owned, listed, dirty; by rewrite Hp).
  pose proof (si_word _ Hs) as Hw.
  assert (if x then bl_lock (ep_lock (sy_server s)) = EXCLUSIVE_LOCKED
          else 0 < bl_lock (ep_lock (sy_server s))) as Hlk.
  { destruct x; [by apply (word_writer _ _ n Hw)|by apply (word_reader _ n _ Hw)]. }
  pose proof (run_unlock_of x _ Hlk) as Hrun.
  destruct (bl_mutex (ep_lock (sy_server s))) eqn:Hm; [by apply safe_onServer_blocked|].
  pose proof (no_handler s Hs Hm) as Hnh.
  eapply safe_onServer; [exact Hrun|]. unfold goto. safe_step. set (s' := put_phase _ _ _).
  assert (moves n (mkEN (en_latch (sy_node s n)) (en_frame (sy_node s n)) (Unlocked x)) s s') as Hmv
    by by apply (moves_put n (sy_node s n)).
  destruct (handler_step n _ s s' true (λ m _, proj1 (Hnh m)) Hmv eq_refl) as [Hh1 Hh2].
  pose proof (storage_step n _ s s' Hs Hmv eq_refl eq_refl Hdi) as Hst.
  pose proof (source_step n _ s s' (si_source _ Hs) Hmv) as Hsrc.
  pose proof (moves_same listed n _ s s' Hmv (eq_sym Hli)) as Hls. pose proof Hmv as [He Hne].
  pose proof (si_node _ Hs n) as [Hla Hfr Hv Hdt _ _].
  assert (no_writer (λ m, owned (sy_node s' m))) as Hnw.
  { intros m. destruct (decide (m = n)) as [->|?]; [by rewrite He|rewrite Hne by done].
    destruct x; [by rewrite (proj2 (word_writer _ _ n Hw Ho))|].
    by apply (word_reader (λ j, owned (sy_node s j)) n _ Hw). }
  split; try done.
  - intros m. destruct (decide (m = n)) as [->|?]; [rewrite He|rewrite Hne by done; apply Hs].
    unfold latch_ok, buffered in *. rewrite Hp in *. split; simpl; try done. eauto.
  - simpl. destruct x.
    + by apply (word_drop_writer (λ m, owned (sy_node s m)) (λ m, owned (sy_node s' m)) n _
        Hw (λ m Hm', f_equal owned (Hne m Hm')) Ho (f_equal owned He)).
    + by apply (word_drop_reader (λ m, owned (sy_node s m)) (λ m, owned (sy_node s' m)) n _
        Hw (λ m Hm', f_equal owned (Hne m Hm')) (owners_valid s Hs) Ho (f_equal owned He)).
  - eapply valid_state_ext; [|apply Hs]. intros m. by rewrite (Hls m).
  - intros [m Hx]. by apply Hnw in Hx.
  - apply Hsrc; [done|]. by left.
Qed.

(** The two remaining steps of the unlock handler run under the lock's mutex. *)
Lemma in_handler_only s n :
  sys_inv s → in_handler (sy_node s n) = true →
  bl_mutex (ep_lock (sy_server s)) = true ∧ ∀ m, m ≠ n → in_handler (sy_node s m) = false.
Proof using.
  intros Hs Hn. split; [apply (si_mutex _ Hs); eauto|]. intros m Hm.
  destruct (in_handler (sy_node s m)) eqn:E; [|done]. by destruct Hm; apply (si_handler _ Hs).
Qed.

Lemma unlocked_handler k : unlocked k = true → in_handler k = true.
Proof using. unfold unlocked, in_handler. by destruct (en_phase k). Qed.

Lemma invalidate_step n x s :
  sys_inv s → valid_node n → en_phase (sy_node s n) = Unlocked x →
  wp (onServer (onInfo (ReleasePage n)) ;; goto n (Invalidated x)) (λ _ s', sys_inv s') s.
Proof using.
  intros Hs Hn Hp. unfold onServer, onInfo. do 3 wp_step.
  assert (owned (sy_node s n) = None ∧ dirty (sy_node s n) = false ∧
    in_handler (sy_node s n) = true) as (Ho & Hdi & Hih)
    by (unfold owned, dirty, in_handler; by rewrite Hp).
  eapply wp_mono; [by apply ReleasePage_spec; [apply Hs|]|]. intros _ v (Hv & _).
  unfold goto. wp_step. set (s' := put_phase _ _ _).
  set (k := mkEN (en_latch (sy_node s n)) (en_frame (sy_node s n)) (Invalidated x)).
  assert (moves n k s s') as Hmv by by apply (moves_put n (sy_node s n)).
  pose proof (moves_same owned n k s s' Hmv (eq_sym Ho)) as Hos.
  destruct (in_handler_only s n Hs Hih) as [Hmx Hoth].
  destruct (handler_step n k s s' true Hoth Hmv eq_refl) as [Hh1 Hh2].
  pose proof (storage_step n _ s s' Hs Hmv eq_refl eq_refl Hdi) as Hst.
  pose proof (source_step n _ s s' (si_source _ Hs) Hmv) as Hsrc.
  pose proof Hmv as [He Hne]. pose proof (si_node _ Hs n) as [Hla Hfr Hvn Hdt _ _].
  split; try done.
  - intros m. destruct (decide (m = n)) as [->|?]; [rewrite He|rewrite Hne by done; apply Hs].
    unfold latch_ok, buffered in *. rewrite Hp in *. split; simpl; done.
  - apply (word_ok_ext (λ j, owned (sy_node s j))); [done|apply Hs].
  - eapply valid_state_ext; [|exact Hv]. intros m. destruct (decide (m = n)) as [->|Hm].
    + rewrite He. naive_solver.
    + rewrite Hne by done. naive_solver.
  - simpl. by rewrite Hmx.
  - intros _ m. destruct (decide (m = n)) as [->|Hm]; [by rewrite He|rewrite Hne by done].
    apply not_true_is_false. intros Hu%unlocked_handler. by rewrite Hoth in Hu.
  - apply Hsrc; [done|]. by left.
Qed.

Lemma mutex_step n x s :
  sys_inv s → valid_node n → en_phase (sy_node s n) = Invalidated x →
  wp (onServer (onBasic Basic.UnlockMtx) ;; goto n (Returned x)) (λ _ s', sys_inv s') s.
Proof using.
  intros Hs Hn Hp. unfold onServer, onBasic, Basic.UnlockMtx. do 3 wp_step.
  assert (owned (sy_node s n) = None ∧ dirty (sy_node s n) = false ∧
    in_handler (sy_node s n) = true ∧ listed (sy_node s n) = false) as (Ho & Hdi & Hih & Hli)
    by (unfold owned, dirty, in_handler, listed; by rewrite Hp).
  destruct (in_handler_only s n Hs Hih) as [Hmx Hoth].
  apply wp_mutex_unlock; [done|]. unfold goto. wp_step. set (s' := put_phase _ _ _).
  set (k := mkEN (en_latch (sy_node s n)) (en_frame (sy_node s n)) (Returned x)).
  assert (moves n k s s') as Hmv by by apply (moves_put n (sy_node s n)).
  pose proof (moves_same owned n k s s' Hmv (eq_sym Ho)) as Hos.
  pose proof (moves_same listed n k s s' Hmv (eq_sym Hli)) as Hls.
  destruct (handler_step n k s s' false Hoth Hmv eq_refl) as [Hh1 Hh2].
  pose proof (storage_step n _ s s' Hs Hmv eq_refl eq_refl Hdi) as Hst.
  pose proof (source_step n _ s s' (si_source _ Hs) Hmv) as Hsrc.
  pose proof Hmv as [He Hne]. pose proof (si_node _ Hs n) as [Hla Hfr Hvn Hdt _ _].
  split; try done.
  - intros m. destruct (decide (m = n)) as [->|?]; [rewrite He|rewrite Hne by done; apply Hs].
    unfold latch_ok, buffered in *. rewrite Hp in *. split; simpl; done.
  - apply (word_ok_ext (λ j, owned (sy_node s j))); [done|apply Hs].
  - eapply valid_state_ext; [|apply Hs]. intros m. by rewrite (Hls m).
  - intros _ m. destruct (decide (m = n)) as [->|Hm]; [by rewrite He|rewrite Hne by done].
    apply not_true_is_false. intros Hu%unlocked_handler. by rewrite Hoth in Hu.
  - apply Hsrc; [done|]. by left.
Qed.

(** ** The remaining steps: only the node changes *)

Lemma wp_onLatch {A B} n (m : M ERLocalPageLock A) (f : A → MS B) Q s a l :
  m (en_latch (sy_node s n)) = Done (a, l) →
  wp (f a) Q (put_latch n l s) → wp (onLatch n m ≫= f) Q s.
Proof using. intros E H. unfold wp, mbind, M_bind, onLatch, zoom. by rewrite E. Qed.

Lemma wp_fetch_page {A} n d (f : Data → MS A) Q s :
  en_frame (sy_node s n) = Some d → wp (f d) Q s → wp (fetch_page n ≫= f) Q s.
Proof using. intros E H. unfold wp, fetch_page, mbind, M_bind, gets. by rewrite E. Qed.

Lemma node_frame n s :
  sys_inv s → buffered (sy_node s n) = true → ∃ d, en_frame (sy_node s n) = Some d.
Proof using. intros Hs Hb. by apply (eo_frame _ _ _ (si_node _ Hs n)). Qed.

Lemma answered_step n x src fs s :
  sys_inv s → valid_node n → en_phase (sy_node s n) = Answered x src fs →
  wp (r ← (if x then fetch_source_x else fetch_source_s) n src fs ;
        goto n (match r with Some d => Fetched x d | None => Answered x (-1) true end))
    (λ _ s', sys_inv s') s.
Proof using.
  intros Hs Hn Hp. pose proof (si_node _ Hs n) as Hk.
  destruct (eo_answer _ _ _ Hk _ _ _ Hp) as (Hne & Hx & Hsrc).
  wp_step. eapply wp_mono with (Q := λ r s', s' = s ∧ ∀ d, r = Some d → d = sy_latest s).
  - assert (wp (d ← gets sy_storage ; mret (Some d))
      (λ r s', s' = s ∧ ∀ d, r = Some d → fs = true → d = sy_latest s) s) as Hstore.
    { do 3 wp_step. split; [done|]. intros d [= <-] Hfs.
      apply (si_storage _ Hs). intros m. apply not_true_is_false. intros Hd.
      (* a node with unflushed contents is a writer, [n] owns the page too *)
      assert (owned (sy_node s m) = Some true) as Hm.
      { unfold dirty, owned in *. destruct (en_phase (sy_node s m)); try done.
        - by apply bool_decide_eq_true in Hd as ->.
        - by subst. }
      assert (owned (sy_node s n) = Some x) as Ho by (unfold owned; by rewrite Hp).
      destruct (decide (n = m)) as [->|Hnm].
      + unfold dirty in Hd. by rewrite Hp in Hd.
      + apply (word_writer _ _ m (si_word _ Hs)) in Hnm; [|done]. by rewrite Ho in Hnm. }
    assert (fs = false → wp (UpdatePageFromRemoteCompute n src)
      (λ r s', s' = s ∧ ∀ d, r = Some d → d = sy_latest s) s) as Hremote.
    { intros ->. unfold UpdatePageFromRemoteCompute. wp_step.
      apply wp_check; [by apply negb_true_iff, Z.eqb_neq|]. wp_step. split; [done|].
      intros d Hd. by apply (si_source _ Hs n x src). }
    unfold fetch_source_x, fetch_source_s. destruct x, fs.
    + wp_step. apply wp_check; [by apply Z.eqb_eq, Hsrc|].
      eapply wp_mono; [exact Hstore|]. naive_solver.
    + by specialize (Hx eq_refl).
    + wp_step. apply wp_check; [by apply Z.eqb_eq, Hsrc|].
      eapply wp_mono; [exact Hstore|]. naive_solver.
    + wp_step. apply wp_check; [|by apply Hremote].
      apply negb_true_iff, Z.eqb_neq. intros E. by apply Hsrc in E.
  - intros r s' [-> Hr]. pose proof Hk as [Hla Hfr Hv Hdt _ _]. unfold goto. wp_step.
    eapply quiet_step; [exact Hs|eauto with moves|done|done| | | | | |left; split; [done|]| |];
      [|unfold owned, listed, dirty, in_handler, unlocked in *; rewrite ?Hp; simpl;
        by destruct r..| |by left].
    + unfold latch_ok, buffered, listed, owned in *. rewrite Hp in *.
      split; unfold latch_ok, buffered, listed, owned; simpl; try (by destruct r).
      * intros x' src' fs'. destruct r; [done|]. intros [= -> <- <-]. split_and!; try done.
        intros E. rewrite <- E in Hn. by destruct Hn.
      * destruct r; [|done]. intros x' d' [= -> ->]. by apply Hr.
    + intros x' src'. by destruct r.
Qed.

Ltac keep_quiet := eapply quiet_step;
  [eassumption|eauto with moves|done|done| | | | | |left; split; [done|]| |];
  [|role_simpl; try done; try (by left)..].

(** The only calls that can wait are the two that take the lock's mutex. *)
Definition may_wait (p : Phase) : bool :=
  match p with Idle | Ask _ | Flushed _ => true | _ => false end.

Lemma advance_wp n s :
  sys_inv s → valid_node n → may_wait (en_phase (sy_node s n)) = false →
  wp (advance n) (λ _ s', sys_inv s') s.
Proof using.
  intros Hs Hn Hnw. unfold advance. do 2 wp_step.
  pose proof (si_node _ Hs n) as Hk. pose proof Hk as [Hla Hfr Hv Hdt _ Hfe].
  destruct (en_phase (sy_node s n)) as [| |x|x|x src fs|x d|x| |x|x|x|x|x] eqn:Hp.
  - done.
  - destruct (node_frame n s Hs) as [d Hd].
    { destruct Hla as [_ Hla]. rewrite Hp in Hla. destruct Hla as (_ & _ & Hm & _).
      unfold buffered. by rewrite Hp, Hm. }
    apply (wp_fetch_page n d); [done|].
    unfold latch_ok in Hla. rewrite Hp in Hla. destruct Hla as (? & Hm & ? & Hr & ?).
    eapply wp_onLatch; [by apply run_ER_unlock|]. unfold goto. wp_step. keep_quiet.
    split; role_simpl; done.
  - done.
  - by apply valid_step.
  - by apply answered_step.
  - unfold put_page_into_buffer_eager, goto. do 3 wp_step.
    specialize (Hfe _ _ eq_refl) as ->. keep_quiet.
    + split; role_simpl; try done; naive_solver.
    + intros d [= ->]. by right.
  - unfold latch_ok in Hla. rewrite Hp in Hla. destruct Hla as (? & Hm & Hg & Hr & Hl).
    eapply wp_onLatch; [by apply run_ER_LockRemoteOK|]. unfold goto. wp_step.
    rewrite Hl. destruct x; simpl; keep_quiet; split; role_simpl; try done.
    split_and!; try done; rewrite Hl; unfold EXCLUSIVE_LOCKED; lia.
  - unfold latch_ok in Hla. rewrite Hp in Hla. destruct Hla as (? & Hm & ? & Hr & ?).
    eapply wp_onLatch; [by apply run_ER_unlock|]. unfold goto. wp_step. keep_quiet.
    split; role_simpl; done.
  - destruct (node_frame n s Hs) as [d Hd]; [by unfold buffered; rewrite Hp|].
    unfold goto. do 2 wp_step.
    + unfold rpc_flush_page_to_storage. apply (wp_fetch_page n d); [done|]. do 2 wp_step.
      subst x. assert (d = sy_latest s) as -> by (apply Hdt; [done|by unfold listed; rewrite Hp]).
      eapply quiet_step; [exact Hs|apply moves_phase; split; [done|]; done|done|done| | | | | |by right| |];
        [|role_simpl; try done; try (by left)..].
      split; role_simpl; done.
    + wp_step. subst x. keep_quiet. split; role_simpl; done.
  - done.
  - by apply invalidate_step.
  - by apply (mutex_step n x).
  - destruct (node_frame n s Hs) as [d Hd]; [by unfold buffered; rewrite Hp|].
    unfold releaseBufferPage. do 3 wp_step. rewrite Hd. wp_step.
    apply wp_check; [by apply bool_decide_eq_true|]. wp_step.
    unfold latch_ok in Hla. rewrite Hp in Hla. destruct Hla as (? & Hm & ? & Hr & ?).
    eapply wp_onLatch with (a := tt) (l := mutex_set false (en_latch (sy_node s n))).
    { simpl. rewrite fn_lookup_insert. by apply run_ER_unlock. }
    unfold goto. wp_step. keep_quiet. split; role_simpl; done.
Qed.

Lemma advance_step n s :
  sys_inv s → valid_node n → safe (advance n) (λ _ s', sys_inv s') s.
Proof using.
  intros Hs Hn. destruct (may_wait (en_phase (sy_node s n))) eqn:Hp; [|by apply wp_safe, advance_wp].
  unfold advance. do 2 safe_step. destruct (en_phase (sy_node s n)) as [| |x|x|x src fs|x d|x| |x|x|x|x|x] eqn:E;
    try done.
  - by apply (lock_step n x).
  - by apply unlock_step.
Qed.

(** ** Reachable states *)

Lemma eager_initial_inv pid garbage d : sys_inv (eager_initial pid garbage d).
Proof using.
  split; simpl; try done.
  - intros n. split; simpl; try done.
    + by intros [?|?].
  - exists []. split_and!; [apply NoDup_nil_2| |by left].
    intros n. split; [by intros ?%not_elem_of_nil|done].
  - eapply valid_state_ext; [|apply new_GlobalValidInfo_state]. done.
  - split; [done|]. by intros [? ?].
Qed.

Lemma eager_step_inv s s' : sys_inv s → eager_step s s' → sys_inv s'.
Proof using.
  intros Hs [n Hn Hmax E|n Hn E|n Hn Hr E|n Hn Hw E|n d Hn Hw E|n Hn E].
  - exact (safe_run _ _ _ _ _ (fetch_s_step n s Hs Hn Hmax) E).
  - exact (safe_run _ _ _ _ _ (fetch_x_step n s Hs Hn) E).
  - exact (safe_run _ _ _ _ _ (release_s_step n s Hs Hn Hr) E).
  - exact (safe_run _ _ _ _ _ (release_x_step n s Hs Hn Hw) E).
  - exact (safe_run _ _ _ _ _ (write_step n d s Hs Hn Hw) E).
  - exact (safe_run _ _ _ _ _ (advance_step n s Hs Hn) E).
Qed.

Lemma eager_reachable_inv pid garbage d s : eager_reachable pid garbage d s → sys_inv s.
Proof using.
  apply (star_invariant _ sys_inv); [apply eager_initial_inv|]. intros x y Hx. by apply eager_step_inv.
Qed.

Lemma latched_owner n s :
  sys_inv s →
  (reads (en_latch (sy_node s n)) →
     owned (sy_node s n) = Some false ∧ listed (sy_node s n) = true ∧ buffered (sy_node s n) = true) ∧
  (writes (en_latch (sy_node s n)) →
     owned (sy_node s n) = Some true ∧ listed (sy_node s n) = true ∧ buffered (sy_node s n) = true).
Proof using.
  intros Hs. split.
  - intros (H0 & Hx & Hg). pose proof (eo_latch _ _ _ (si_node _ Hs n)) as [_ Hla].
    unfold owned, listed, buffered. destruct (en_phase (sy_node s n)) as [| |[]|[]|[] ??|[] ?|[]| |[]|[]|[]|[]|[]];
      try (destruct Hla as (_ & Hg' & Hr & Hl); congruence || by rewrite Hr).
    destruct (er_remote_mode (en_latch (sy_node s n))); destruct Hla as (_ & _ & Hl); done.
  - intros Hw. destruct (writes_idle n s Hs Hw) as [Hp Hr]. unfold owned, listed, buffered.
    by rewrite Hp, Hr.
Qed.

(** C3: mutual exclusion across the nodes. In every reachable state, for every
    interleaving of the critical sections of the nodes and of the lock table,
    a page that a thread of one node has latched exclusively is latched by no
    thread of another node, and is latched by its own node only for writing. *)
Theorem eager_mutual_exclusion pid garbage d s n m :
  eager_reachable pid garbage d s → writes (en_latch (sy_node s n)) →
  reads (en_latch (sy_node s m)) ∨ writes (en_latch (sy_node s m)) →
  m = n ∧ ¬ reads (en_latch (sy_node s m)).
Proof using.
  intros Hs%eager_reachable_inv Hw Hm.
  destruct (proj2 (latched_owner n s Hs) Hw) as (Ho & _).
  destruct (decide (m = n)) as [->|Hne].
  - split; [done|]. intros (_ & Hx & _). by destruct Hw.
  - destruct (word_writer _ _ n (si_word _ Hs) Ho) as [_ Hno]. specialize (Hno m Hne). simpl in Hno.
    destruct Hm as [Hm|Hm]; [apply (latched_owner m s Hs) in Hm as [E _]
      |apply (latched_owner m s Hs) in Hm as [E _]]; congruence.
Qed.

(** C24: readers see the last write. In every reachable state, a page that a
    thread has latched, in either mode and on any node, is in the node's buffer
    with the contents last written anywhere; and when no node has the page
    buffered, the storage has these contents. *)
Theorem eager_reads_latest pid garbage d s :
  eager_reachable pid garbage d s →
  (∀ n, reads (en_latch (sy_node s n)) ∨ writes (en_latch (sy_node s n)) →
     en_frame (sy_node s n) = Some (sy_latest s)) ∧
  ((∀ n, en_frame (sy_node s n) = None) → sy_storage s = sy_latest s).
Proof using.
  intros Hs%eager_reachable_inv. split.
  - intros n Hl.
    assert (listed (sy_node s n) = true ∧ buffered (sy_node s n) = true) as [Hli Hb].
    { by destruct Hl as [Hl|Hl]; apply (latched_owner n s Hs) in Hl as [_ ?]. }
    destruct (node_frame n s Hs Hb) as [d' Hd]. rewrite Hd. f_equal.
    by apply (eo_data _ _ _ (si_node _ Hs n)).
  - intros Hno. apply (si_storage _ Hs). intros n. apply not_true_is_false. intros Hd.
    destruct (node_frame n s Hs) as [d' Hf]; [|by rewrite Hno in Hf].
    unfold dirty, buffered in *. destruct (en_phase (sy_node s n)); try done.
    by apply bool_decide_eq_true in Hd as ->.
Qed.

(** no call of the eager policy fails: in every reachable state none of the
    assertions of the latch, the lock table, the validity record, the buffer
    pool and the handlers fires, whatever the interleaving. *)
Theorem eager_never_fails pid garbage d s n :
  eager_reachable pid garbage d s → valid_node n →
  (er_lock (en_latch (sy_node s n)) ≠ EXCLUSIVE_LOCKED - 1 → no_crash (rpc_fetch_s_page_begin n) s) ∧
  no_crash (rpc_fetch_x_page_begin n) s ∧
  (reads (en_latch (sy_node s n)) → no_crash (rpc_release_s_page_begin n) s) ∧
  (writes (en_latch (sy_node s n)) → no_crash (rpc_release_x_page_begin n) s) ∧
  no_crash (advance n) s.
Proof using.
  intros Hs%eager_reachable_inv Hn. split_and!; intros; eapply safe_no_crash.
  - by apply fetch_s_step.
  - by apply fetch_x_step.
  - by apply release_s_step.
  - by apply release_x_step.
  - by apply advance_step.
Qed.

Lemma advance_done n s :
  sys_inv s → valid_node n → may_wait (en_phase (sy_node s n)) = false →
  ∃ s', advance n s = Done (tt, s').
Proof using.
  intros Hs Hn Hp. destruct (wp_inv _ _ _ (advance_wp n s Hs Hn Hp)) as ([] & s' & E & _). eauto.
Qed.

(** An owner of the page is using it, or can go on, when the lock's mutex is free. *)
Lemma owner_progress m s :
  sys_inv s → bl_mutex (ep_lock (sy_server s)) = false → owned (sy_node s m) ≠ None →
  (∃ s', advance m s = Done (tt, s')) ∨
  (en_phase (sy_node s m) = Idle ∧
   (reads (en_latch (sy_node s m)) ∨ writes (en_latch (sy_node s m)))).
Proof using.
  intros Hs Hmx Ho. pose proof (owners_valid s Hs m Ho) as Hm.
  destruct (may_wait (en_phase (sy_node s m))) eqn:Hw; [|left; by apply advance_done].
  unfold may_wait, owned in *. destruct (en_phase (sy_node s m)) as [| |x|x|x src fs|x d|x| |x|x|x|x|x] eqn:Hp; try done.
  - right. split; [done|]. destruct (idle_latch m s Hs Hp) as (_ & Hg & _ & Hr).
    unfold reads, writes. destruct (er_remote_mode (en_latch (sy_node s m))); [done|left|right].
    + rewrite Hg. split_and!; [lia..|done].
    + by rewrite Hg.
  - left. unfold advance, mbind, M_bind, gets. rewrite Hp.
    change (onBasic (if x then Basic.UnlockExclusive else Basic.UnlockShared)) with (unlock_of x).
    unfold onServer, zoom. rewrite run_unlock_of.
    + rewrite Hmx. by eexists.
    + pose proof (si_word _ Hs) as Hwd. assert (owned (sy_node s m) = Some x) as Hox
        by (unfold owned; by rewrite Hp).
      destruct x; [by apply (word_writer _ _ m Hwd)|by apply (word_reader _ m _ Hwd)].
Qed.

(** no deadlock. In every reachable state in which some node is in the middle
    of a call, some node can take its next step, or has the page latched by a
    thread that is outside the calls. *)
Theorem eager_progress pid garbage d s n :
  eager_reachable pid garbage d s → en_phase (sy_node s n) ≠ Idle →
  ∃ m, valid_node m ∧
    ((∃ s', advance m s = Done (tt, s')) ∨
     (en_phase (sy_node s m) = Idle ∧
      (reads (en_latch (sy_node s m)) ∨ writes (en_latch (sy_node s m))))).
Proof using.
  intros Hs%eager_reachable_inv Hp.
  assert (valid_node n) as Hn by (apply (eo_valid _ _ _ (si_node _ Hs n)); by right).
  destruct (bl_mutex (ep_lock (sy_server s))) eqn:Hmx.
  - apply (si_mutex _ Hs) in Hmx as [m Hm]. exists m.
    assert (en_phase (sy_node s m) ≠ Idle ∧ may_wait (en_phase (sy_node s m)) = false) as [Hi Hw]
      by (unfold in_handler in Hm; by destruct (en_phase (sy_node s m))).
    assert (valid_node m) as Hv by (apply (eo_valid _ _ _ (si_node _ Hs m)); by right).
    split; [done|]. left. by apply advance_done.
  - destruct (decide (owned (sy_node s n) = None)) as [Ho|Ho].
    2: { exists n. split; [done|]. by apply owner_progress. }
    destruct (may_wait (en_phase (sy_node s n))) eqn:Hw; [|exists n; split; [done|left; by apply advance_done]].
    unfold may_wait, owned in *. destruct (en_phase (sy_node s n)) as [| |x|x|x src fs|x d'|x| |x|x|x|x|x] eqn:E; try done.
    destruct (lock_of x (sy_server s)) as [[[] e]| |f] eqn:Hlk.
    + exists n. split; [done|]. left. unfold advance, mbind, M_bind, gets. rewrite E.
      change (onBasic (if x then Basic.LockExclusive else Basic.LockShared)) with (lock_of x).
      unfold onServer, zoom. rewrite Hlk. by eexists.
    + rewrite run_lock_of, Hmx in Hlk. destruct (word_taken _ _ (si_word _ Hs)) as [m Hm].
      { simpl in Hlk. case_match; [|done]. intros E0. rewrite E0 in H. by destruct x. }
      exists m. split; [by apply (owners_valid s)|]. by apply owner_progress.
    + rewrite run_lock_of, Hmx in Hlk. simpl in Hlk. by case_match.
Qed.
End system.

(** ** Concrete histories *)

Section script.
Context {Data : Type}.

Inductive Cmd :=
  | FetchS (n : Z) | FetchX (n : Z) | ReleaseS (n : Z) | ReleaseX (n : Z)
  | Write (n : Z) (d : Data) | Go (n : Z).

#[local] Instance reads_dec l : Decision (reads l).
Proof using. unfold reads. apply _. Defined.
#[local] Instance writes_dec l : Decision (writes l).
Proof using. unfold writes. apply _. Defined.

Definition when_ok (P : Sys → Prop) `{!∀ s, Decision (P s)} (m : M (@Sys Data) unit) : M Sys unit :=
  b ← gets (λ s, bool_decide (P s)) ; if b : bool then m else block.

Definition command (c : Cmd) : M Sys unit :=
  match c with
  | FetchS n => when_ok (λ s, valid_node n ∧
      er_lock (en_latch (sy_node s n)) ≠ EXCLUSIVE_LOCKED - 1) (rpc_fetch_s_page_begin n)
  | FetchX n => when_ok (λ _, valid_node n) (rpc_fetch_x_page_begin n)
  | ReleaseS n => when_ok (λ s, valid_node n ∧ reads (en_latch (sy_node s n))) (rpc_release_s_page_begin n)
  | ReleaseX n => when_ok (λ s, valid_node n ∧ writes (en_latch (sy_node s n))) (rpc_release_x_page_begin n)
  | Write n d => when_ok (λ s, valid_node n ∧ writes (en_latch (sy_node s n))) (write_page n d)
  | Go n => when_ok (λ _, valid_node n) (advance n)
  end.

Lemma when_ok_done P `{!∀ s, Decision (P s)} (m : M (@Sys Data) unit) s r :
  when_ok P m s = Done r → P s ∧ m s = Done r.
Proof using.
  unfold when_ok, mbind, M_bind, gets. case_bool_decide; [done|]. by intros [=].
Qed.

Lemma command_step c s s' : command c s = Done (tt, s') → eager_step s s'.
Proof using.
  destruct c; intros H; apply when_ok_done in H as [Hok Hrun].
  - destruct Hok. by eapply es_fetch_s.
  - by eapply es_fetch_x.
  - destruct Hok. by eapply es_release_s.
  - destruct Hok. by eapply es_release_x.
  - destruct Hok. by eapply es_write.
  - by eapply es_advance.
Qed.

Definition history (cs : list Cmd) : M Sys unit := for_each command cs.

Lemma history_star cs s s' : history cs s = Done (tt, s') → star eager_step s s'.
Proof using.
  revert s. induction cs as [|c cs IH]; intros s; simpl.
  - intros [= ->]. constructor.
  - unfold history. simpl. unfold mbind at 1, M_bind at 1.
    destruct (command c s) as [[[] s1]| |] eqn:E; [|done|done].
    intros H%IH. eapply star_trans; [|exact H].
    eapply star_snoc; [apply star_refl|]. by eapply command_step.
Qed.

Definition outcome_state {A} (r : outcome (A * Sys)) (s : Sys) : @Sys Data :=
  match r with Done (_, s') => s' | _ => s end.
Definition returns {A} (r : outcome (A * @Sys Data)) : bool :=
  match r with Done _ => true | _ => false end.

Lemma history_reachable pid g d cs :
  returns (history cs (eager_initial pid g d)) = true →
  eager_reachable pid g d (outcome_state (history cs (eager_initial pid g d)) (eager_initial pid g d)).
Proof using.
  intros H. unfold eager_reachable.
  destruct (history cs (eager_initial pid g d)) as [[[] s']| |] eqn:E; [|done|done].
  by apply history_star in E.
Qed.
End script.

(** Node 1 writes 42 and holds the page; then it gives the page back, node 2
    reads it from the storage and node 3 from node 2. *)
Definition write42 : list (@Cmd Z) := [FetchX 1; Go 1; Go 1; Go 1; Go 1; Go 1; Write 1 42].
Definition give_back (n : Z) : list (@Cmd Z) := [Go n; Go n; Go n; Go n; Go n].
Definition read_by (n : Z) : list (@Cmd Z) := [FetchS n; Go n; Go n; Go n; Go n; Go n].

Definition end_of (cs : list (@Cmd Z)) : @Sys Z :=
  outcome_state (history cs (eager_initial 7 false 0)) (eager_initial 7 false 0).
Definition written : @Sys Z := end_of write42.
Definition waiting : @Sys Z := end_of (write42 ++ [FetchS 2]).
Definition shared : @Sys Z := end_of (write42 ++ [ReleaseX 1] ++ give_back 1 ++ read_by 2 ++ read_by 3).

Lemma eager_mutual_exclusion_witness :
  writes (en_latch (sy_node written 1)) ∧ ¬ reads (en_latch (sy_node written 1)).
Proof.
  assert (writes (en_latch (sy_node written 1))) as Hw by (vm_compute; split; reflexivity).
  split; [exact Hw|].
  apply (eager_mutual_exclusion 7 false 0 written 1 1); [|exact Hw|right; exact Hw].
  apply history_reachable. vm_compute. reflexivity.
Defined.

Lemma eager_reads_latest_witness :
  reads (en_latch (sy_node shared 3)) ∧ en_frame (sy_node shared 3) = Some (sy_latest shared) ∧
  sy_latest shared = 42.
Proof.
  assert (reads (en_latch (sy_node shared 3))) as Hr by (vm_compute; split_and!; discriminate || reflexivity).
  split; [exact Hr|]. split; [|vm_compute; reflexivity].
  apply (eager_reads_latest 7 false 0 shared); [|left; exact Hr].
  apply history_reachable. vm_compute. reflexivity.
Defined.

Lemma eager_never_fails_witness :
  en_phase (sy_node waiting 2) = Ask false ∧ no_crash (advance 2) waiting.
Proof.
  split; [vm_compute; reflexivity|].
  apply (eager_never_fails 7 false 0 waiting 2); [|by vm_compute].
  apply history_reachable. vm_compute. reflexivity.
Defined.

Lemma eager_progress_witness :
  advance 2 waiting = Blocked ∧ ∃ m, valid_node m ∧
    ((∃ s', advance m waiting = Done (tt, s')) ∨
     (en_phase (sy_node waiting m) = Idle ∧
      (reads (en_latch (sy_node waiting m)) ∨ writes (en_latch (sy_node waiting m))))).
Proof.
  split; [vm_compute; reflexivity|].
  apply (eager_progress 7 false 0 waiting 2); [|by vm_compute].
  apply history_reachable. vm_compute. reflexivity.
Defined.
