(* ===== verification/Page.v ===== *)
(** [core/base/page.h]: page identifiers and page frames, as both buffer pools
    use them. The contents of a page are a parameter [Data]. *)

From S2P Require Import Prelude Common.

(** [PageId]: table and page number. *)
Abbreviation PageId := (Z * Z)%type.

Definition INVALID_TABLE_ID : Z := -1.

(** [PageId::operator<]. *)
Definition PageId_lt (x y : PageId) : bool :=
  if fst x <? fst y then true else snd x <? snd y.

Record Page {Data : Type} := mkPage {
  page_id_ : page_id_t;
  id_ : PageId;
  data_ : Data;
  is_dirty_ : bool;
  pin_count_ : Z
}.
Arguments Page : clear implicits.
Arguments mkPage {Data} _ _ _ _ _.

Section setters.
Context {Data : Type}.
Implicit Types p : Page Data.

Definition set_page_id (x : page_id_t) p := mkPage x (id_ p) (data_ p) (is_dirty_ p) (pin_count_ p).
Definition set_id (x : PageId) p := mkPage (page_id_ p) x (data_ p) (is_dirty_ p) (pin_count_ p).
Definition set_data (x : Data) p := mkPage (page_id_ p) (id_ p) x (is_dirty_ p) (pin_count_ p).
Definition set_dirty (x : bool) p := mkPage (page_id_ p) (id_ p) (data_ p) x (pin_count_ p).
Definition set_pin (x : Z) p := mkPage (page_id_ p) (id_ p) (data_ p) (is_dirty_ p) x.
End setters.

(** [operator<] is no order: it puts (1, 2) below (2, 1) and (2, 1) below (1, 2). *)
Example PageId_lt_both : PageId_lt (1, 2) (2, 1) = true ∧ PageId_lt (2, 1) (1, 2) = true.
Proof. done. Qed.
