(* ===== verification/Replacer.v ===== *)
(** [core/bufferpool_replacer.h]: which frames of a buffer pool may be evicted.
    [ReplacerBase], the abstract class of the code, is a class of operations;
    [ReplacerLaws] states what the buffer pool relies on; [LRU_Replacer] (one LRU
    list per partition) implements it.

    Every method is one critical section of a partition's mutex, which it takes
    and releases itself; the mutexes are therefore not part of the state. *)

From stdpp Require Import functions.
From S2P Require Import Prelude Common.

(** ** The interface *)

Class ReplacerBase (R : Type) := {
  tryVictim : Z → M R (option Z);     (** with the random number it draws *)
  endVictim : bool → Z → M R unit;
  pin : Z → M R unit;
  unpin : Z → M R unit;
  getSize : R → Z
}.

(** [candidate r f]: frame [f] may be evicted; [claimed r f]: some thread is
    trying to. [n] is the number of frames. *)
Class ReplacerLaws (R : Type) `{!ReplacerBase R} := {
  replacer_inv : Z → R → Prop;
  candidate : R → Z → Prop;
  claimed : R → Z → Prop;
  candidate_range n r f : replacer_inv n r → candidate r f → 0 ≤ f < n;
  pin_law n r f : replacer_inv n r →
    wp (pin f) (λ _ r', replacer_inv n r' ∧ (∀ g, candidate r' g ↔ candidate r g ∧ g ≠ f) ∧
      (∀ g, claimed r' g ↔ claimed r g)) r;
  unpin_law n r f : replacer_inv n r → 0 ≤ f < n →
    wp (unpin f) (λ _ r', replacer_inv n r' ∧ (∀ g, candidate r' g ↔ candidate r g ∨ g = f) ∧
      (∀ g, claimed r' g ↔ claimed r g)) r;
  tryVictim_law n r seed : replacer_inv n r →
    wp (tryVictim seed) (λ o r', replacer_inv n r' ∧ (∀ g, candidate r' g ↔ candidate r g) ∧
      match o with
      | Some f => candidate r f ∧ ¬ claimed r f ∧ ∀ g, claimed r' g ↔ claimed r g ∨ g = f
      | None => r' = r ∧ ((∀ g, ¬ claimed r g) → ∀ g, ¬ candidate r g)
      end) r;
  endVictim_law n r (b : bool) f : replacer_inv n r → 0 ≤ f < n →
    wp (endVictim b f) (λ _ r', replacer_inv n r' ∧
      (∀ g, candidate r' g ↔ candidate r g ∧ (b = true → g ≠ f)) ∧
      (∀ g, claimed r' g ↔ claimed r g ∧ g ≠ f)) r
}.

(** ** The implementation *)

Record LRU_Replacer := mkLRU {
  is_evicting : list bool;
  lru_lists : Z → list Z;
  lru_hashes : Z → gset Z;    (** the keys; the iterators are positions in the list *)
  max_size : Z
}.

Definition set_evicting x r := mkLRU x (lru_lists r) (lru_hashes r) (max_size r).
Definition set_list (i : Z) (x : list Z) r :=
  mkLRU (is_evicting r) (<[i := x]> (lru_lists r)) (lru_hashes r) (max_size r).
Definition set_hash (i : Z) (x : gset Z) r :=
  mkLRU (is_evicting r) (lru_lists r) (<[i := x]> (lru_hashes r)) (max_size r).

Module LRU.

Abbreviation MR := (M LRU_Replacer).

Definition new_LRU_Replacer (num_pages : Z) : LRU_Replacer :=
  mkLRU (replicate (Z.to_nat num_pages) false) (λ _, []) (λ _, ∅) num_pages.

Definition get_partition_idx (f : Z) : Z := u64 f mod NUM_BUFFER_PARTITION.

Definition read_evicting (f : Z) : MR bool := λ r,
  if 0 <=? f then
    match is_evicting r !! Z.to_nat f with
    | Some b => Done (b, r)
    | None => Crash OutOfBounds
    end
  else Crash OutOfBounds.

Definition write_evicting (f : Z) (b : bool) : MR unit := λ r,
  if (0 <=? f) && (f <? Z.of_nat (length (is_evicting r))) then
    Done (tt, set_evicting (<[Z.to_nat f := b]> (is_evicting r)) r)
  else Crash OutOfBounds.

Definition max_probe_per_partition : nat := 5.

(** The inner loop of [tryVictim]: from the end of the list. *)
Fixpoint probe (k : nat) (l : list Z) : MR (option Z) :=
  match k, l with
  | S k', candidate :: l' =>
      e ← read_evicting candidate ;
      if e : bool then probe k' l'
      else write_evicting candidate true ;; mret (Some candidate)
  | _, _ => mret None
  end.

Fixpoint try_partitions (parts : list Z) : MR (option Z) :=
  match parts with
  | [] => mret None
  | i :: parts' =>
      l ← gets (λ r, lru_lists r i) ;
      o ← probe max_probe_per_partition (rev l) ;
      match o with Some f => mret (Some f) | None => try_partitions parts' end
  end.

(** The order in which the partitions are visited, for the random number that
    [FastSeed] returned. *)
Definition partition_order (seed : Z) : list Z :=
  let start_partition := Z.shiftr seed 32 mod NUM_BUFFER_PARTITION in
  (λ i, (start_partition + Z.of_nat i) mod NUM_BUFFER_PARTITION) <$>
    seq 0 (Z.to_nat NUM_BUFFER_PARTITION).

Definition tryVictim (seed : Z) : MR (option Z) := try_partitions (partition_order seed).

(** [lru_list.erase(it->second); lru_hash.erase(it)], when the frame is listed. *)
Definition erase (f : Z) : MR unit :=
  let i := get_partition_idx f in
  h ← gets (λ r, lru_hashes r i) ;
  when (bool_decide (f ∈ h))
    (modify (λ r, set_list i (list_remove f (lru_lists r i)) r) ;;
     modify (λ r, set_hash i (lru_hashes r i ∖ {[f]}) r)).

Definition endVictim (success : bool) (f : Z) : MR unit :=
  when success (erase f) ;; write_evicting f false.

Definition pin (f : Z) : MR unit := erase f.

Definition unpin (f : Z) : MR unit :=
  let i := get_partition_idx f in
  erase f ;;
  r ← gets (λ r, r) ;
  check 108 (negb (max_size r <=? Z.of_nat (length (lru_lists r i)))) ;;
  modify (λ r, set_list i (f :: lru_lists r i) r) ;;
  modify (λ r, set_hash i ({[f]} ∪ lru_hashes r i) r).

Definition getSize (r : LRU_Replacer) : Z :=
  foldr (λ i n, n + Z.of_nat (length (lru_lists r (Z.of_nat i)))) 0
    (seq 0 (Z.to_nat NUM_BUFFER_PARTITION)).

(** The generator of [tryVictim]'s random numbers: a 64-bit LCG, seeded once
    per thread with a non-zero value. *)
Definition next_seed (local_seed : Z) : Z := u64 (local_seed * 1103515245 + 12345).

End LRU.

#[export] Instance LRU_ReplacerBase : ReplacerBase LRU_Replacer := {
  tryVictim := LRU.tryVictim;
  endVictim := LRU.endVictim;
  pin := LRU.pin;
  unpin := LRU.unpin;
  getSize := LRU.getSize
}.

(** ** The invariant *)

Definition idx (f : Z) : Z := LRU.get_partition_idx f.

Record lru_inv (n : Z) (r : LRU_Replacer) : Prop := {
  lri_size : Z.of_nat (length (is_evicting r)) = n;
  lri_max : max_size r = n;
  lri_nodup : ∀ i, NoDup (lru_lists r i);
  lri_hash : ∀ i f, f ∈ lru_hashes r i ↔ f ∈ lru_lists r i;
  lri_range : ∀ i f, f ∈ lru_lists r i → 0 ≤ f < n ∧ idx f = i
}.

Definition lru_candidate (r : LRU_Replacer) (f : Z) : Prop := f ∈ lru_lists r (idx f).
Definition lru_claimed (r : LRU_Replacer) (f : Z) : Prop :=
  0 ≤ f ∧ is_evicting r !! Z.to_nat f = Some true.

#[export] Instance lru_claimed_dec r f : Decision (lru_claimed r f).
Proof. unfold lru_claimed. apply _. Defined.

Lemma idx_range f : 0 ≤ idx f < NUM_BUFFER_PARTITION.
Proof. unfold idx, LRU.get_partition_idx. by apply Z.mod_pos_bound. Qed.

Lemma lru_in_candidate n r i f : lru_inv n r → f ∈ lru_lists r i → lru_candidate r f.
Proof. intros Hr Hf. unfold lru_candidate. by destruct (lri_range _ _ Hr _ _ Hf) as [_ ->]. Qed.

Lemma new_LRU_inv n : 0 ≤ n → lru_inv n (LRU.new_LRU_Replacer n).
Proof.
  intros Hn. split; simpl; try done.
  - rewrite length_replicate. lia.
  - intros _. apply NoDup_nil_2.
  - intros _ f. split; intros Hf; [by apply not_elem_of_empty in Hf|by apply elem_of_nil in Hf].
  - by intros i f ?%elem_of_nil.
Qed.

(** ** Specifications *)

Section spec.
Variables (n : Z) (r : LRU_Replacer).
Hypothesis Hr : lru_inv n r.

Lemma wp_read_evicting f (Q : bool → LRU_Replacer → Prop) :
  0 ≤ f < n → Q (bool_decide (lru_claimed r f)) r → wp (LRU.read_evicting f) Q r.
Proof using Hr.
  intros Hf HQ. unfold wp, LRU.read_evicting. rewrite (proj2 (Z.leb_le 0 f)) by lia.
  pose proof (lri_size _ _ Hr). destruct (lookup_lt_is_Some_2 (is_evicting r) (Z.to_nat f)) as [b Hb];
    [lia|]. rewrite Hb. replace b with (bool_decide (lru_claimed r f)); [done|].
  destruct b; [apply bool_decide_eq_true_2|apply bool_decide_eq_false_2];
    unfold lru_claimed; rewrite Hb; naive_solver lia.
Qed.

Definition evicting_written (f : Z) (b : bool) : LRU_Replacer :=
  set_evicting (<[Z.to_nat f := b]> (is_evicting r)) r.

Lemma wp_write_evicting f b (Q : unit → LRU_Replacer → Prop) :
  0 ≤ f < n → Q tt (evicting_written f b) → wp (LRU.write_evicting f b) Q r.
Proof using Hr.
  intros Hf HQ. unfold wp, LRU.write_evicting. pose proof (lri_size _ _ Hr).
  by rewrite (proj2 (Z.leb_le 0 f)), (proj2 (Z.ltb_lt _ _)) by lia.
Qed.

Lemma evicting_written_inv f b : lru_inv n (evicting_written f b).
Proof using Hr. destruct Hr. split; simpl; try done. by rewrite length_insert. Qed.

Lemma evicting_written_claimed f b g :
  0 ≤ f < n → lru_claimed (evicting_written f b) g ↔ (g = f ∧ b = true) ∨ (g ≠ f ∧ lru_claimed r g).
Proof using Hr.
  intros Hf. pose proof (lri_size _ _ Hr). unfold lru_claimed, evicting_written. simpl.
  destruct (decide (g = f)) as [->|Hne].
  - rewrite list_lookup_insert_eq by lia. naive_solver lia.
  - split; intros H1.
    + right. destruct H1 as [H1 H2]. rewrite list_lookup_insert_ne in H2 by lia. done.
    + destruct H1 as [[? _]|[_ [H1 H2]]]; [done|]. rewrite list_lookup_insert_ne by lia. done.
Qed.

Lemma probe_spec k l :
  (∀ f, f ∈ l → 0 ≤ f < n) →
  wp (LRU.probe k l) (λ o r', match o with
    | Some f => f ∈ l ∧ ¬ lru_claimed r f ∧ r' = evicting_written f true
    | None => r' = r ∧ (k ≠ 0%nat → (∀ f, ¬ lru_claimed r f) → l = [])
    end) r.
Proof using Hr.
  revert l. induction k as [|k IH]; intros [|f l] Hl; simpl; try (apply wp_ret; naive_solver).
  wp_step. apply wp_read_evicting; [apply Hl; by left|]. case_bool_decide as Hc; simpl.
  - eapply wp_mono; [apply IH; intros g Hg; apply Hl; by right|]. intros [g|] r'.
    + intros (? & ? & ?). split_and!; [by right|done|done].
    + intros [-> _]. split; [done|]. intros _ Hno. by destruct (Hno f).
  - wp_step. apply wp_write_evicting; [apply Hl; by left|]. wp_step. split_and!; [by left|done|done].
Qed.

Lemma try_partitions_spec parts :
  wp (LRU.try_partitions parts) (λ o r', match o with
    | Some f => lru_candidate r f ∧ ¬ lru_claimed r f ∧ r' = evicting_written f true
    | None => r' = r ∧ ((∀ f, ¬ lru_claimed r f) → ∀ i, i ∈ parts → lru_lists r i = [])
    end) r.
Proof using Hr.
  induction parts as [|i parts IH]; cbn [LRU.try_partitions].
  - apply wp_ret. split; [done|]. intros _ i Hi. by apply elem_of_nil in Hi.
  - do 3 wp_step. eapply wp_mono.
    { apply probe_spec. intros f Hf. rewrite list_elem_of_In, <- in_rev, <- list_elem_of_In in Hf.
      by apply (lri_range _ _ Hr i). }
    intros [f|] r'.
    + intros (Hf & Hc & ->). wp_step. split_and!; [|done|done].
      apply (lru_in_candidate n _ i); [done|]. by rewrite list_elem_of_In, <- in_rev, <- list_elem_of_In in Hf.
    + intros [-> Hnil]. eapply wp_mono; [exact IH|]. intros [f|] r'; [done|].
      intros [-> Hall]. split; [done|]. intros Hno j Hj. apply elem_of_cons in Hj as [->|Hj].
      * assert (rev (lru_lists r i) = []) as E by (by apply Hnil).
        by destruct (lru_lists r i) as [|x l]; [|simpl in E; destruct (rev l)].
      * by apply Hall.
Qed.

(** Every partition is visited. *)
Lemma partition_order_all seed i : 0 ≤ i < NUM_BUFFER_PARTITION → i ∈ LRU.partition_order seed.
Proof using.
  intros Hi. unfold LRU.partition_order. set (st := Z.shiftr seed 32 mod NUM_BUFFER_PARTITION).
  assert (0 ≤ st < NUM_BUFFER_PARTITION) as Hst by by apply Z.mod_pos_bound.
  apply list_elem_of_fmap. exists (Z.to_nat ((i - st) mod NUM_BUFFER_PARTITION)).
  assert (0 ≤ (i - st) mod NUM_BUFFER_PARTITION < NUM_BUFFER_PARTITION) as Hm by by apply Z.mod_pos_bound.
  split.
  - rewrite Z2Nat.id by lia. rewrite Zplus_mod_idemp_r. replace (st + (i - st)) with i by lia.
    by rewrite Z.mod_small.
  - apply elem_of_seq. lia.
Qed.

Lemma lru_tryVictim seed :
  wp (LRU.tryVictim seed) (λ o r', lru_inv n r' ∧ (∀ g, lru_candidate r' g ↔ lru_candidate r g) ∧
    match o with
    | Some f => lru_candidate r f ∧ ¬ lru_claimed r f ∧
        ∀ g, lru_claimed r' g ↔ lru_claimed r g ∨ g = f
    | None => r' = r ∧ ((∀ g, ¬ lru_claimed r g) → ∀ g, ¬ lru_candidate r g)
    end) r.
Proof using Hr.
  eapply wp_mono; [apply try_partitions_spec|]. intros [f|] r'.
  - intros (Hc & Hn & ->). assert (0 ≤ f < n) as Hf by by destruct (lri_range _ _ Hr _ _ Hc).
    split_and!; [apply evicting_written_inv|done|done|done|].
    intros g. rewrite evicting_written_claimed by done. destruct (decide (g = f)); naive_solver.
  - intros [-> Hnil]. split_and!; [done|done|done|]. intros Hno g Hg. unfold lru_candidate in Hg.
    rewrite Hnil in Hg; [by apply elem_of_nil in Hg|done|]. apply partition_order_all, idx_range.
Qed.

(** After [erase f] the frame is not listed. *)
Definition erased (f : Z) (r' : LRU_Replacer) : Prop :=
  lru_inv n r' ∧ is_evicting r' = is_evicting r ∧
  (∀ i, lru_lists r' i = list_remove f (lru_lists r i)).

Lemma erase_spec f : wp (LRU.erase f) (λ _, erased f) r.
Proof using Hr.
  pose proof Hr as [Hs Hm Hnd Hh Hrg]. unfold LRU.erase. fold (idx f). do 3 wp_step; bool_simpl.
  - do 3 wp_step. rewrite Hh in H.
    assert (∀ i, i ≠ idx f → list_remove f (lru_lists r i) = lru_lists r i) as Hoth.
    { intros i Hi. apply list_remove_notin. intros Hf. by destruct (Hrg _ _ Hf) as [_ ?]. }
    split_and!; [split; simpl; try done|done|].
    + intros i. destruct (decide (i = idx f)) as [->|Hi].
      * rewrite fn_lookup_insert. by apply NoDup_list_remove.
      * by rewrite fn_lookup_insert_ne.
    + intros i g. destruct (decide (i = idx f)) as [->|Hi].
      * rewrite !fn_lookup_insert, elem_of_list_remove, elem_of_difference, Hh, elem_of_singleton. done.
      * by rewrite !fn_lookup_insert_ne.
    + intros i g. destruct (decide (i = idx f)) as [->|Hi].
      * rewrite fn_lookup_insert, elem_of_list_remove. intros [? _]. by apply Hrg.
      * rewrite fn_lookup_insert_ne by done. apply Hrg.
    + simpl. intros i. destruct (decide (i = idx f)) as [->|Hi].
      * by rewrite fn_lookup_insert.
      * rewrite fn_lookup_insert_ne by done. by rewrite Hoth.
  - split_and!; [done|done|]. intros i. rewrite list_remove_notin; [done|]. rewrite Hh in H.
    intros Hf. destruct (Hrg _ _ Hf) as [_ E]. by rewrite E in H.
Qed.

Lemma erased_candidate f r' g : erased f r' → lru_candidate r' g ↔ lru_candidate r g ∧ g ≠ f.
Proof using. intros (_ & _ & Hl). unfold lru_candidate. by rewrite Hl, elem_of_list_remove. Qed.

Lemma erased_claimed f r' g : erased f r' → lru_claimed r' g ↔ lru_claimed r g.
Proof using. intros (_ & E & _). unfold lru_claimed. by rewrite E. Qed.

(** A partition lists fewer than [n] frames when one of its frames is missing. *)
Lemma list_short i f :
  0 ≤ f < n → f ∉ lru_lists r i → Z.of_nat (length (lru_lists r i)) < n.
Proof using Hr.
  destruct Hr as [_ _ Hnd _ Hrg]. apply length_missing; [done|]. intros g Hg. by destruct (Hrg _ _ Hg).
Qed.
End spec.

Lemma lru_pin n r f :
  lru_inv n r →
  wp (LRU.pin f) (λ _ r', lru_inv n r' ∧
    (∀ g, lru_candidate r' g ↔ lru_candidate r g ∧ g ≠ f) ∧
    (∀ g, lru_claimed r' g ↔ lru_claimed r g)) r.
Proof.
  intros Hr. eapply wp_mono; [by apply erase_spec|]. intros [] r' He. split_and!.
  - apply He.
  - intros g. by eapply erased_candidate.
  - intros g. by eapply erased_claimed.
Qed.

(** The most recently used frame goes to the front. *)
Lemma lru_unpin n r f :
  lru_inv n r → 0 ≤ f < n →
  wp (LRU.unpin f) (λ _ r', lru_inv n r' ∧
    (∀ g, lru_candidate r' g ↔ lru_candidate r g ∨ g = f) ∧
    (∀ g, lru_claimed r' g ↔ lru_claimed r g) ∧
    lru_lists r' (idx f) = f :: list_remove f (lru_lists r (idx f))) r.
Proof.
  intros Hr Hf. unfold LRU.unpin. fold (idx f). wp_step. eapply wp_mono; [by apply erase_spec|].
  intros [] r1 He. pose proof He as ([Hs Hm Hnd Hh Hrg] & Ee & El).
  assert (f ∉ lru_lists r1 (idx f)) as Hnf by (rewrite El, elem_of_list_remove; tauto).
  do 3 wp_step. apply wp_check.
  { apply negb_true_iff, Z.leb_gt. rewrite Hm. by apply (list_short n r1 (proj1 He) _ f). }
  do 3 wp_step. split_and!.
  - split; simpl; try done.
    + intros i. destruct (decide (i = idx f)) as [->|Hi].
      * rewrite fn_lookup_insert. by apply NoDup_cons.
      * by rewrite fn_lookup_insert_ne.
    + intros i g. destruct (decide (i = idx f)) as [->|Hi].
      * rewrite !fn_lookup_insert, elem_of_cons, elem_of_union, elem_of_singleton, Hh. done.
      * by rewrite !fn_lookup_insert_ne.
    + intros i g. destruct (decide (i = idx f)) as [->|Hi].
      * rewrite fn_lookup_insert, elem_of_cons. intros [->|?]; [done|by apply Hrg].
      * rewrite fn_lookup_insert_ne by done. apply Hrg.
  - intros g. unfold lru_candidate. simpl. destruct (decide (idx g = idx f)) as [E|Hi].
    + rewrite E, fn_lookup_insert, elem_of_cons, El, elem_of_list_remove.
      destruct (decide (g = f)); tauto.
    + rewrite fn_lookup_insert_ne by done. rewrite El, elem_of_list_remove.
      assert (g ≠ f) by congruence. tauto.
  - intros g. by rewrite <- (erased_claimed n r f r1 g He).
  - simpl. by rewrite fn_lookup_insert, El.
Qed.

Lemma lru_endVictim n r (b : bool) f :
  lru_inv n r → 0 ≤ f < n →
  wp (LRU.endVictim b f) (λ _ r', lru_inv n r' ∧
    (∀ g, lru_candidate r' g ↔ lru_candidate r g ∧ (b = true → g ≠ f)) ∧
    (∀ g, lru_claimed r' g ↔ lru_claimed r g ∧ g ≠ f)) r.
Proof.
  intros Hr Hf. unfold LRU.endVictim. wp_step.
  eapply wp_mono with (Q := λ (_ : unit) r', lru_inv n r' ∧
    (∀ g, lru_candidate r' g ↔ lru_candidate r g ∧ (b = true → g ≠ f)) ∧
    (∀ g, lru_claimed r' g ↔ lru_claimed r g)).
  - wp_step; subst b.
    + eapply wp_mono; [by apply erase_spec|]. intros [] r1 He. split_and!; [by apply He| |].
      * intros g. rewrite (erased_candidate n r f r1 g He). naive_solver.
      * intros g. by apply (erased_claimed n r f r1 g He).
    + split_and!; [done| |done]. intros g. naive_solver.
  - intros [] r1 (Hr1 & Hc & Hcl). apply (wp_write_evicting n r1 Hr1); [done|].
    split_and!; [by apply evicting_written_inv| |].
    + intros g. by rewrite <- Hc.
    + intros g. rewrite (evicting_written_claimed n r1 Hr1) by done. rewrite Hcl. naive_solver.
Qed.

#[export] Program Instance LRU_ReplacerLaws : ReplacerLaws LRU_Replacer := {
  replacer_inv := lru_inv;
  candidate := lru_candidate;
  claimed := lru_claimed
}.
Next Obligation. intros n r f Hr Hf. by destruct (lri_range _ _ Hr _ _ Hf). Qed.
Next Obligation. intros. by apply lru_pin. Qed.
Next Obligation.
  intros n r f Hr Hf. eapply wp_mono; [by apply lru_unpin|]. by intros [] r' (? & ? & ? & _).
Qed.
Next Obligation. intros. by apply lru_tryVictim. Qed.
Next Obligation. intros. by apply lru_endVictim. Qed.

(** ** Least recently used *)

Lemma probe_oldest n r f l :
  lru_inv n r → 0 ≤ f < n → ¬ lru_claimed r f →
  wp (LRU.probe LRU.max_probe_per_partition (rev (l ++ [f]))) (λ o _, o = Some f) r.
Proof.
  intros Hr Hf Hc. rewrite rev_app_distr. unfold LRU.max_probe_per_partition.
  cbn [rev app LRU.probe]. wp_step. apply (wp_read_evicting n r Hr); [done|].
  rewrite bool_decide_eq_false_2 by done. wp_step. by apply (wp_write_evicting n r Hr).
Qed.

Lemma try_partitions_first n r pre i post l f :
  lru_inv n r → (∀ j, j ∈ pre → lru_lists r j = []) → lru_lists r i = l ++ [f] →
  ¬ lru_claimed r f →
  wp (LRU.try_partitions (pre ++ i :: post)) (λ o _, o = Some f) r.
Proof.
  intros Hr Hpre Hi Hc. induction pre as [|j pre IH]; cbn [app LRU.try_partitions].
  - do 3 wp_step. rewrite Hi. eapply wp_mono.
    + apply (probe_oldest n); [done| |done]. apply (lri_range _ _ Hr i). rewrite Hi. set_solver.
    + by intros o r' ->.
  - do 3 wp_step. rewrite Hpre by (by left). apply wp_ret. apply IH. intros k Hk. apply Hpre. by right.
Qed.

(** the victim is the least recently used page of a partition. When nobody
    is evicting, [tryVictim] returns the last frame of the first non-empty list
    on its way round the partitions, and [unpin] puts a frame at the front of
    its list and keeps the order of the others: so the frame returned is the
    one of its partition that was unpinned the longest ago. *)
Theorem lru_victim_order n r seed pre i post l f :
  lru_inv n r → LRU.partition_order seed = pre ++ i :: post →
  (∀ j, j ∈ pre → lru_lists r j = []) → lru_lists r i = l ++ [f] → ¬ lru_claimed r f →
  wp (LRU.tryVictim seed) (λ o _, o = Some f) r ∧
  ∀ g, 0 ≤ g < n → wp (LRU.unpin g) (λ _ r',
    lru_lists r' (idx g) = g :: list_remove g (lru_lists r (idx g))) r.
Proof.
  intros Hr Ho Hpre Hi Hc. split.
  - unfold LRU.tryVictim. rewrite Ho. by apply (try_partitions_first n r pre i post l f).
  - intros g Hg. eapply wp_mono; [by apply lru_unpin|]. by intros [] r' (_ & _ & _ & ?).
Qed.

Definition lru_demo : LRU_Replacer :=
  match (LRU.unpin 3 ;; LRU.unpin 19 ;; LRU.unpin 35 ;; LRU.unpin 3) (LRU.new_LRU_Replacer 64) with
  | Done (_, r) => r
  | _ => LRU.new_LRU_Replacer 64
  end.

Lemma lru_demo_inv : lru_inv 64 lru_demo.
Proof.
  unfold lru_demo.
  assert (wp (LRU.unpin 3 ;; LRU.unpin 19 ;; LRU.unpin 35 ;; LRU.unpin 3)
    (λ _ r', lru_inv 64 r') (LRU.new_LRU_Replacer 64)) as H.
  { do 3 (wp_step; eapply wp_mono;
      [apply (lru_unpin 64); [done || by apply new_LRU_inv|lia]|intros [] ? (? & _)]).
    eapply wp_mono; [apply (lru_unpin 64); [done|lia]|]. by intros [] ? (? & _). }
  destruct (wp_inv _ _ _ H) as ([] & r' & -> & Hr). exact Hr.
Qed.

(** Frame 19 is the oldest of partition 3, frame 3 was used again. *)
Lemma lru_victim_order_witness :
  wp (LRU.tryVictim 0) (λ o _, o = Some 19) lru_demo.
Proof.
  apply (proj1 (lru_victim_order 64 lru_demo 0 [0; 1; 2] 3 [4; 5; 6; 7; 8; 9; 10; 11; 12; 13; 14; 15]
    [3; 35] 19 lru_demo_inv eq_refl
    ltac:(intros j Hj; repeat (apply elem_of_cons in Hj as [->|Hj]; [vm_compute; reflexivity|]);
          by apply elem_of_nil in Hj)
    ltac:(vm_compute; reflexivity)
    ltac:(intros [_ H]; vm_compute in H; discriminate))).
Defined.
