(* ===== verification/BufferPool.v ===== *)
(** [core/bufferpool.h]: the buffer pool of a compute node, method by method, on
    top of any replacer that satisfies the laws of [ReplacerLaws]; and
    [ComputeServer::checkIfDirectlyPutInBuffer] of [compute_server/server.h].

    A page lives in the partition of its number; a method runs under the mutex
    of its partition, which it takes and releases itself.  The methods refer to
    a page by its frame number, as the page table does. *)

From stdpp Require Import functions.
From S2P Require Import Prelude Common Page Replacer.

Section pool.
Context {R Data : Type} `{!ReplacerBase R, !ReplacerLaws R}.

(** What [memset(data_, 0, PAGE_SIZE)] leaves. *)
Variable zeroed : Data.

#[local] Abbreviation Page := (Page.Page Data).

Record BufferPool := mkPool {
  pages : list Page;
  pool_size : Z;
  max_page_num : Z;
  replacer : R;
  free_lists : Z → list frame_id_t;
  page_tables : Z → gmap page_id_t frame_id_t
}.

Definition set_pages x b := mkPool x (pool_size b) (max_page_num b) (replacer b)
  (free_lists b) (page_tables b).
Definition set_replacer x b := mkPool (pages b) (pool_size b) (max_page_num b) x
  (free_lists b) (page_tables b).
Definition set_free (i : Z) x b := mkPool (pages b) (pool_size b) (max_page_num b) (replacer b)
  (<[i := x]> (free_lists b)) (page_tables b).
Definition set_table (i : Z) x b := mkPool (pages b) (pool_size b) (max_page_num b) (replacer b)
  (free_lists b) (<[i := x]> (page_tables b)).

Abbreviation MB := (M BufferPool).

(** [static_cast<size_t>(page_id) % NUM_BUFFER_PARTITION]. *)
Definition get_partition_idx (p : Z) : Z := u64 p mod NUM_BUFFER_PARTITION.

Definition new_BufferPool (r : R) (size_ max_page_num_ : Z) : BufferPool :=
  mkPool
    (replicate (Z.to_nat size_)
       (mkPage INVALID_PAGE_ID (-1, INVALID_PAGE_ID) zeroed false 0))
    size_ max_page_num_ r
    (λ i, List.filter (λ f, get_partition_idx f =? i) (Z.of_nat <$> seq 0 (Z.to_nat size_)))
    (λ _, ∅).

(** ** Accesses *)

Definition onReplacer {A} (m : M R A) : MB A := zoom replacer set_replacer m.

Definition page_at (f : Z) : MB Page := λ b,
  if 0 <=? f then
    match pages b !! Z.to_nat f with
    | Some p => Done (p, b)
    | None => Crash OutOfBounds
    end
  else Crash OutOfBounds.

Definition upd_page (f : Z) (g : Page → Page) : MB unit :=
  modify (λ b, set_pages (alter g (Z.to_nat f) (pages b)) b).

Definition get_partition_page_table (p : Z) : MB (gmap page_id_t frame_id_t) :=
  gets (λ b, page_tables b (get_partition_idx p)).

Definition find_page (p : Z) : MB (option Z) :=
  t ← get_partition_page_table p ; mret (t !! p).

(** ** The methods *)

(** [if (page->pin_count_++ == 0) replacer->pin(frame_id)]. *)
Definition pin_page (f : Z) : MB unit :=
  pg ← page_at f ;
  upd_page f (set_pin (pin_count_ pg + 1)) ;;
  when (pin_count_ pg =? 0) (onReplacer (pin f)).

Definition fetch_page (p : page_id_t) : MB Z :=
  it ← find_page p ;
  match it with
  | None => crash (AssertFailed 63)
  | Some f => pin_page f ;; mret f
  end.

Definition try_fetch_page (p : page_id_t) : MB (option Z) :=
  it ← find_page p ;
  match it with
  | None => mret None
  | Some f =>
      pin_page f ;;
      pg ← page_at f ;
      check 90 (page_id_ pg =? p) ;;
      mret (Some f)
  end.

Definition try_fetch_page_ret_string (p : page_id_t) : MB (option Data) :=
  it ← find_page p ;
  match it with
  | None => mret None
  | Some f => pg ← page_at f ; check 108 (page_id_ pg =? p) ;; mret (Some (data_ pg))
  end.

Definition release_page (p : page_id_t) : MB unit :=
  let i := get_partition_idx p in
  it ← find_page p ;
  match it with
  | None => crash (AssertFailed 121)
  | Some f =>
      pg ← page_at f ;
      upd_page f (λ pg, set_page_id INVALID_PAGE_ID (set_data zeroed (set_pin 0 pg))) ;;
      modify (λ b, set_table i (delete p (page_tables b i)) b) ;;
      onReplacer (pin f) ;;
      modify (λ b, set_free i (free_lists b i ++ [f]) b)
  end.

Definition unpin_page (p : page_id_t) : MB unit :=
  it ← find_page p ;
  match it with
  | None => crash (AssertFailed 147)
  | Some f =>
      pg ← page_at f ;
      upd_page f (set_pin 0) ;;
      onReplacer (unpin f)
  end.

Definition is_in_bufferPool (p : page_id_t) : MB bool :=
  it ← find_page p ; mret (bool_decide (is_Some it)).

Definition wait_in_bufferPool (p : page_id_t) : MB unit :=
  b ← is_in_bufferPool p ; if b : bool then mret tt else block.

(** A free frame of the page's partition, if there is one. *)
Definition checkIfDirectlyPutInBuffer (p : page_id_t) : MB (option Z) :=
  let i := get_partition_idx p in
  it ← find_page p ;
  check 172 (negb (bool_decide (is_Some it))) ;;
  l ← gets (λ b, free_lists b i) ;
  match l with
  | [] => mret None
  | f :: l' => modify (set_free i l') ;; mret (Some f)
  end.

Definition checkIfDirectlyUpdate (p : page_id_t) (d : Data) : MB bool :=
  it ← find_page p ;
  match it with
  | None => mret false
  | Some f =>
      pg ← page_at f ;
      check 192 (pin_count_ pg =? 0) ;;
      upd_page f (set_pin (pin_count_ pg + 1)) ;;
      onReplacer (pin f) ;;
      upd_page f (set_data d) ;;
      mret true
  end.

(** The partition mutexes [insert_or_replace] takes, in this order. *)
Definition lock_order (new_idx old_idx : Z) : Z * option Z :=
  if old_idx =? new_idx then (new_idx, None)
  else if old_idx <? new_idx then (old_idx, Some new_idx)
  else (new_idx, Some old_idx).

Definition insert_or_replace (table_id p f : Z) (need_to_replace : bool) (replaced_page : Z)
    (src : Data) : MB unit :=
  let new_idx := get_partition_idx p in
  let old_idx := if need_to_replace then get_partition_idx replaced_page else new_idx in
  when need_to_replace
    (check 252 (negb (replaced_page =? INVALID_PAGE_ID)) ;;
     old ← gets (λ b, page_tables b old_idx) ;
     check 254 (bool_decide (is_Some (old !! replaced_page))) ;;
     modify (set_table old_idx (delete replaced_page old))) ;;
  new ← gets (λ b, page_tables b new_idx) ;
  check 259 (negb (bool_decide (is_Some (new !! p)))) ;;
  modify (set_table new_idx (<[p := f]> new)) ;;
  onReplacer (pin f) ;;
  pg ← page_at f ;
  upd_page f (λ pg, mkPage p (table_id, p) src false (pin_count_ pg)).

Definition releaseBufferPage (p : page_id_t) : MB unit := release_page p.

(** [ComputeServer::checkIfDirectlyPutInBuffer]. *)
Definition server_checkIfDirectlyPutInBuffer (table_id p : Z) (d : Data) : MB (option Z) :=
  ans ← checkIfDirectlyPutInBuffer p ;
  match ans with
  | None => mret None
  | Some f => insert_or_replace table_id p f false INVALID_PAGE_ID d ;; mret (Some f)
  end.

(** ** Choosing a victim

    [try_begin_evict] is the caller's function; it works on the latches, which
    are part of the larger state [S]. The replacer draws a random number per
    round: [seeds] holds as many as the loop is given rounds. *)

Section victim.
Context {S : Type} (get_pool : S → BufferPool) (put_pool : BufferPool → S → S).
Variable try_begin_evict : page_id_t → M S bool.

Definition onPool {A} (m : MB A) : M S A := zoom get_pool put_pool m.

(** One round: the page chosen, its state afterwards, its frame. *)
Definition replace_round (seed : Z) : M S (option (Z * Z * Z)) :=
  res ← onPool (onReplacer (tryVictim seed)) ;
  match res with
  | None => crash (AssertFailed 207)
  | Some f =>
      pg ← onPool (page_at f) ;
      let victim_page_id := page_id_ pg in
      if victim_page_id =? INVALID_PAGE_ID then
        onPool (onReplacer (endVictim false f)) ;; mret None
      else
        ok ← try_begin_evict victim_page_id ;
        onPool (onReplacer (endVictim ok f)) ;;
        if ok : bool then
          pg' ← onPool (page_at f) ; mret (Some (victim_page_id, page_id_ pg', f))
        else mret None
  end.

Fixpoint replace_page (seeds : list Z) : M S (Z * Z * Z) :=
  match seeds with
  | [] => block
  | seed :: seeds' =>
      r ← replace_round seed ;
      match r with Some v => mret v | None => replace_page seeds' end
  end.
End victim.

(** ** The invariant

    [held]: the frames taken off the free lists by a thread that has not put its
    page in yet. *)

Definition frame_page (b : BufferPool) (f : Z) : option Page :=
  if 0 <=? f then pages b !! Z.to_nat f else None.

Definition mapped (b : BufferPool) (p f : Z) : Prop := page_tables b (get_partition_idx p) !! p = Some f.

Definition is_free (b : BufferPool) (f : Z) : Prop := ∃ i, f ∈ free_lists b i.

Record pool_inv (held : list Z) (b : BufferPool) : Prop := {
  pi_size : Z.of_nat (length (pages b)) = pool_size b;
  pi_replacer : replacer_inv (pool_size b) (replacer b);
  (** the page table and the page identifiers agree *)
  pi_table : ∀ p f, mapped b p f → p ≠ INVALID_PAGE_ID ∧ ∃ pg, frame_page b f = Some pg ∧ page_id_ pg = p;
  pi_home : ∀ i p f, page_tables b i !! p = Some f → i = get_partition_idx p;
  pi_mapped : ∀ f pg, frame_page b f = Some pg → page_id_ pg ≠ INVALID_PAGE_ID → mapped b (page_id_ pg) f;
  (** every other frame is free, or held by a thread *)
  pi_other : ∀ f pg, frame_page b f = Some pg → page_id_ pg = INVALID_PAGE_ID →
    is_free b f ∨ f ∈ held;
  pi_free : ∀ i f, f ∈ free_lists b i →
    (f ∉ held) ∧ ∃ pg, frame_page b f = Some pg ∧ page_id_ pg = INVALID_PAGE_ID;
  pi_free1 : ∀ i, NoDup (free_lists b i);
  pi_free2 : ∀ i j f, f ∈ free_lists b i → f ∈ free_lists b j → i = j;
  pi_held : ∀ f, f ∈ held → ∃ pg, frame_page b f = Some pg ∧ page_id_ pg = INVALID_PAGE_ID;
  pi_held1 : NoDup held;
  (** only buffered pages that nobody uses may be evicted *)
  pi_idle : ∀ f, candidate (replacer b) f →
    ∃ pg, frame_page b f = Some pg ∧ page_id_ pg ≠ INVALID_PAGE_ID ∧ pin_count_ pg = 0
}.

(** ** The abstract contents: a partial map from pages to data and dirty bit *)

Definition contents (pg : Page) : Data * bool := (data_ pg, is_dirty_ pg).

Definition view (b : BufferPool) (p : Z) : option (Data * bool) :=
  match page_tables b (get_partition_idx p) !! p with
  | Some f => contents <$> frame_page b f
  | None => None
  end.

(** ** Lemmas on the accesses *)

Lemma wp_page_at f pg (Q : Page → BufferPool → Prop) b :
  frame_page b f = Some pg → Q pg b → wp (page_at f) Q b.
Proof using.
  unfold frame_page, wp, page_at. intros Hf HQ. destruct (0 <=? f); [|done]. by rewrite Hf.
Qed.

Lemma wp_find_page p (Q : option Z → BufferPool → Prop) b :
  Q (page_tables b (get_partition_idx p) !! p) b → wp (find_page p) Q b.
Proof using. intros HQ. unfold find_page, get_partition_page_table. by do 3 wp_step. Qed.

Definition upd_at (f : Z) (g : Page → Page) (b : BufferPool) : BufferPool :=
  set_pages (alter g (Z.to_nat f) (pages b)) b.

Lemma frame_range b f pg : frame_page b f = Some pg → 0 ≤ f < Z.of_nat (length (pages b)).
Proof using.
  unfold frame_page. destruct (Z.leb_spec 0 f); [|done]. intros Hl%lookup_lt_Some. lia.
Qed.

Lemma frame_page_upd f g b h :
  0 ≤ f → frame_page (upd_at f g b) h =
    if decide (h = f) then g <$> frame_page b h else frame_page b h.
Proof using.
  intros Hf. unfold frame_page, upd_at. simpl. destruct (Z.leb_spec 0 h).
  - destruct (decide (h = f)) as [->|Hne].
    + apply list_lookup_alter_eq.
    + apply list_lookup_alter_ne. lia.
  - by case_decide; [lia|].
Qed.

Lemma mapped_inj b held p q f : pool_inv held b → mapped b p f → mapped b q f → p = q.
Proof using.
  intros Hb Hp Hq. destruct (pi_table _ _ Hb _ _ Hp) as (_ & pg & E & <-).
  destruct (pi_table _ _ Hb _ _ Hq) as (_ & pg' & E' & <-). congruence.
Qed.

Lemma mapped_range b held p f : pool_inv held b → mapped b p f → 0 ≤ f < pool_size b.
Proof using.
  intros Hb Hp. destruct (pi_table _ _ Hb _ _ Hp) as (_ & pg & E & _).
  apply frame_range in E. by rewrite (pi_size _ _ Hb) in E.
Qed.

Lemma view_mapped b held p f :
  pool_inv held b → mapped b p f → ∃ pg, frame_page b f = Some pg ∧ page_id_ pg = p ∧ view b p = Some (contents pg).
Proof using.
  intros Hb Hp. destruct (pi_table _ _ Hb _ _ Hp) as (_ & pg & E & Hid).
  exists pg. split_and!; [done|done|]. unfold view. unfold mapped in Hp. by rewrite Hp, E.
Qed.

(** No frame becomes a candidate for eviction. *)
Definition fewer (b b' : BufferPool) : Prop := ∀ h, candidate (replacer b') h → candidate (replacer b) h.

(** ** Steps that keep every page where it is *)

(** The frame [f] changes, but not its page identifier; the replacer becomes [r]. *)
Lemma pool_inv_upd held b f g r :
  pool_inv held b → 0 ≤ f → (∀ pg, page_id_ (g pg) = page_id_ pg) →
  replacer_inv (pool_size b) r →
  (∀ h, candidate r h → (h ≠ f ∧ candidate (replacer b) h) ∨
     (h = f ∧ ∃ pg, frame_page b f = Some pg ∧ page_id_ pg ≠ INVALID_PAGE_ID ∧ pin_count_ (g pg) = 0)) →
  pool_inv held (set_replacer r (upd_at f g b)).
Proof using.
  intros Hb Hf Hg Hr Hc. destruct Hb as [Hsz Hrp Ht Hh Hm Ho Hfr Hf1 Hf2 Hhe Hh1 Hid].
  assert (∀ h, frame_page (set_replacer r (upd_at f g b)) h =
    if decide (h = f) then g <$> frame_page b h else frame_page b h) as Efp
    by (intros h; apply (frame_page_upd f g b h Hf)).
  assert (∀ h (pg : Page), frame_page b h = Some pg → ∃ pg', frame_page (set_replacer r (upd_at f g b)) h = Some pg' ∧
    page_id_ pg' = page_id_ pg) as Hto.
  { intros h pg E. rewrite Efp. case_decide; [|by eauto]. rewrite E. simpl. eauto. }
  assert (∀ h (pg' : Page), frame_page (set_replacer r (upd_at f g b)) h = Some pg' →
    ∃ pg, frame_page b h = Some pg ∧ page_id_ pg' = page_id_ pg) as Hof.
  { intros h pg'. rewrite Efp. case_decide; [|by eauto]. intros (pg & ? & ->)%fmap_Some. eauto. }
  split; try done.
  - simpl. by rewrite length_alter.
  - intros p h Hp. destruct (Ht p h Hp) as (? & pg & E & <-). split; [done|].
    destruct (Hto h pg E) as (pg' & ? & ?). eauto.
  - intros h pg' E. destruct (Hof h pg' E) as (pg & E' & ->). by apply Hm.
  - intros h pg' E. destruct (Hof h pg' E) as (pg & E' & ->). by apply Ho.
  - intros i h Hi. destruct (Hfr i h Hi) as (? & pg & E & <-). split; [done|].
    destruct (Hto h pg E) as (pg' & ? & ?). eauto.
  - intros h Hh'. destruct (Hhe h Hh') as (pg & E & <-).
    destruct (Hto h pg E) as (pg' & ? & ?). eauto.
  - intros h Hh'. destruct (Hc h Hh') as [[Hne Hch]|(-> & pg & E & ? & ?)].
    + destruct (Hid h Hch) as (pg & E & ? & ?). exists pg. rewrite Efp, decide_False by done. done.
    + exists (g pg). rewrite Efp, decide_True, E by done. rewrite Hg. done.
Qed.

Lemma view_upd b f g r p :
  0 ≤ f → (∀ pg, contents (g pg) = contents pg) → view (set_replacer r (upd_at f g b)) p = view b p.
Proof using.
  intros Hf Hg. unfold view. simpl. destruct (page_tables b _ !! p) as [h|]; [|done].
  change (frame_page (set_replacer r (upd_at f g b)) h) with (frame_page (upd_at f g b) h).
  rewrite frame_page_upd by done. case_decide; [|done].
  destruct (frame_page b h); simpl; [by rewrite Hg|done].
Qed.

(** What the methods that leave every page in place do: [only f] says how the
    candidates for eviction change. *)
Record stays (held : list Z) (b b' : BufferPool) : Prop := {
  st_inv : pool_inv held b';
  st_size : pool_size b' = pool_size b;
  st_tables : page_tables b' = page_tables b;
  st_free : free_lists b' = free_lists b;
  st_view : ∀ q, view b' q = view b q
}.

Lemma pin_page_spec held b p f :
  pool_inv held b → mapped b p f →
  wp (pin_page f) (λ _ b', stays held b b' ∧
    ∀ h, candidate (replacer b') h ↔ candidate (replacer b) h ∧ h ≠ f) b.
Proof using.
  intros Hb Hp. pose proof (mapped_range b held p f Hb Hp) as Hrg.
  destruct (pi_table _ _ Hb _ _ Hp) as (Hnp & pg & E & Hid).
  unfold pin_page, upd_page. wp_step. apply (wp_page_at f pg); [done|]. do 2 wp_step.
  change (set_pages (alter (set_pin (pin_count_ pg + 1)) (Z.to_nat f) (pages b)) b)
    with (upd_at f (set_pin (pin_count_ pg + 1)) b).
  unfold onReplacer. wp_step; bool_simpl.
  - wp_step. eapply wp_mono; [by apply (pin_law (pool_size b)), Hb|]. intros [] r (Hr & Hc & _).
    split; [|done]. split; try done.
    + apply pool_inv_upd; [done|lia|done|done|]. intros h Hh. left. by apply Hc in Hh as [? ?].
    + intros q. by apply view_upd; [lia|].
  - assert (¬ candidate (replacer b) f) as Hnc.
    { intros Hc. destruct (pi_idle _ _ Hb f Hc) as (pg' & E' & _ & ?). congruence. }
    split.
    + split; try done.
      * apply (pool_inv_upd held b f (set_pin (pin_count_ pg + 1)) (replacer b));
          [done|lia|done|apply Hb|]. intros h Hh. left. split; [by intros ->|done].
      * intros q. by apply (view_upd b f (set_pin (pin_count_ pg + 1)) (replacer b)); [lia|].
    + intros h. simpl. split; [|tauto]. intros Hh. split; [done|by intros ->].
Qed.

Lemma fetch_page_spec held b p f :
  pool_inv held b → mapped b p f →
  wp (fetch_page p) (λ f' b', f' = f ∧ stays held b b' ∧
    ∀ h, candidate (replacer b') h ↔ candidate (replacer b) h ∧ h ≠ f) b.
Proof using.
  intros Hb Hp. unfold fetch_page. wp_step. apply wp_find_page. unfold mapped in Hp. rewrite Hp.
  wp_step. eapply wp_mono; [by apply (pin_page_spec held b p f)|]. intros [] b' [? ?]. by wp_step.
Qed.

Lemma fetch_page_absent b p :
  page_tables b (get_partition_idx p) !! p = None → fetch_page p b = Crash (AssertFailed 63).
Proof using.
  intros Hp. unfold fetch_page, find_page, get_partition_page_table, mbind, M_bind, gets. simpl.
  by rewrite Hp.
Qed.

Lemma stays_page held b b' p f :
  stays held b b' → mapped b p f → ∃ pg, frame_page b' f = Some pg ∧ page_id_ pg = p.
Proof using.
  intros Hst Hp. assert (mapped b' p f) as Hp' by (unfold mapped; by rewrite (st_tables _ _ _ Hst)).
  by destruct (pi_table _ _ (st_inv _ _ _ Hst) _ _ Hp') as (_ & ?).
Qed.

Lemma try_fetch_page_spec held b p :
  pool_inv held b →
  wp (try_fetch_page p) (λ o b', stays held b b' ∧
    match o with
    | Some f => mapped b p f ∧ ∀ h, candidate (replacer b') h ↔ candidate (replacer b) h ∧ h ≠ f
    | None => b' = b ∧ view b p = None
    end) b.
Proof using.
  intros Hb. unfold try_fetch_page. wp_step. apply wp_find_page.
  destruct (page_tables b (get_partition_idx p) !! p) as [f|] eqn:E.
  - wp_step. eapply wp_mono; [by apply (pin_page_spec held b p f)|]. intros [] b' [Hst Hc].
    destruct (stays_page held b b' p f Hst E) as (pg & Epg & Hid).
    wp_step. apply (wp_page_at f pg); [done|]. wp_step. apply wp_check; [by apply Z.eqb_eq|]. by wp_step.
  - wp_step. split; [by split|]. split; [done|]. unfold view. by rewrite E.
Qed.

Lemma try_fetch_string_spec held b p :
  pool_inv held b → wp (try_fetch_page_ret_string p) (λ o b', b' = b ∧ o = fst <$> view b p) b.
Proof using.
  intros Hb. unfold try_fetch_page_ret_string. wp_step. apply wp_find_page.
  destruct (page_tables b (get_partition_idx p) !! p) as [f|] eqn:E.
  - destruct (view_mapped b held p f Hb E) as (pg & Epg & Hid & Hv).
    wp_step. apply (wp_page_at f pg); [done|]. wp_step. apply wp_check; [by apply Z.eqb_eq|].
    wp_step. by rewrite Hv.
  - wp_step. unfold view. by rewrite E.
Qed.

Lemma unpin_page_spec held b p f :
  pool_inv held b → mapped b p f →
  wp (unpin_page p) (λ _ b', stays held b b' ∧
    ∀ h, candidate (replacer b') h ↔ candidate (replacer b) h ∨ h = f) b.
Proof using.
  intros Hb Hp. pose proof (mapped_range b held p f Hb Hp) as Hrg.
  destruct (pi_table _ _ Hb _ _ Hp) as (Hnp & pg & E & Hid).
  unfold unpin_page, upd_page. wp_step. apply wp_find_page. unfold mapped in Hp. rewrite Hp.
  wp_step. apply (wp_page_at f pg); [done|]. do 2 wp_step.
  change (set_pages (alter (set_pin 0) (Z.to_nat f) (pages b)) b) with (upd_at f (set_pin 0) b).
  unfold onReplacer. wp_step. eapply wp_mono; [by apply (unpin_law (pool_size b)); [apply Hb|]|].
  intros [] r (Hr & Hc & _). split; [|done]. split; try done.
  - apply pool_inv_upd; [done|lia|done|done|]. intros h Hh. apply Hc in Hh.
    destruct (decide (h = f)) as [->|Hne].
    + right. split; [done|]. exists pg. subst p. done.
    + left. split; [done|]. by destruct Hh.
  - intros q. by apply view_upd; [lia|].
Qed.

Lemma is_in_bufferPool_spec b p :
  wp (is_in_bufferPool p) (λ r b', b' = b ∧
    r = bool_decide (is_Some (page_tables b (get_partition_idx p) !! p))) b.
Proof using. unfold is_in_bufferPool. wp_step. apply wp_find_page. by wp_step. Qed.

(** ** Steps that move pages *)

Lemma release_page_spec held b p f :
  pool_inv held b → mapped b p f →
  wp (release_page p) (λ _ b', pool_inv held b' ∧ pool_size b' = pool_size b ∧
    (∀ q, view b' q = if decide (q = p) then None else view b q) ∧
    (∀ q h, mapped b' q h ↔ q ≠ p ∧ mapped b q h) ∧ is_free b' f ∧
    ∀ h, candidate (replacer b') h ↔ candidate (replacer b) h ∧ h ≠ f) b.
Proof using.
  intros Hb Hp. pose proof (mapped_range b held p f Hb Hp) as Hrg.
  destruct (pi_table _ _ Hb _ _ Hp) as (Hnp & pg & E & Hid).
  unfold release_page, upd_page. wp_step. apply wp_find_page. pose proof Hp as Hp'.
  unfold mapped in Hp'. rewrite Hp'. set (i := get_partition_idx p).
  wp_step. apply (wp_page_at f pg); [done|]. do 4 wp_step. unfold onReplacer. do 2 wp_step.
  set (clear := λ pg : Page, _).
  eapply wp_mono; [by apply (pin_law (pool_size b)), Hb|]. intros [] r (Hr & Hc & _). wp_step.
  match goal with |- pool_inv held ?b ∧ _ => set (b' := b) end.
  assert (∀ h, frame_page b' h = if decide (h = f) then clear <$> frame_page b h else frame_page b h) as Efp
    by (intros h; apply (frame_page_upd f clear b h); lia).
  assert (∀ q h, mapped b' q h ↔ q ≠ p ∧ mapped b q h) as Hmap.
  { intros q h. unfold mapped, b'. simpl. destruct (decide (get_partition_idx q = i)) as [Eq|Hne].
    - rewrite Eq, fn_lookup_insert, lookup_delete_Some. unfold i. naive_solver.
    - rewrite fn_lookup_insert_ne by done. split; [|tauto]. intros ?. split; [|done]. by intros ->. }
  assert (∀ q h, mapped b q h → q ≠ p → h ≠ f) as Hdisj.
  { intros q h Hq Hne ->. by destruct Hne; apply (mapped_inj b held q p f). }
  assert (∀ j h, h ∈ free_lists b' j ↔ h ∈ free_lists b j ∨ (j = i ∧ h = f)) as Hfree.
  { intros j h. unfold b'. simpl. destruct (decide (j = i)) as [->|Hne].
    - rewrite fn_lookup_insert, elem_of_app, list_elem_of_singleton. naive_solver.
    - rewrite fn_lookup_insert_ne by done. naive_solver. }
  assert (¬ is_free b f) as Hnf.
  { intros [j Hj]. destruct (pi_free _ _ Hb j f Hj) as (_ & pg' & E' & ?). congruence. }
  assert (f ∉ held) as Hnh.
  { intros Hh. destruct (pi_held _ _ Hb f Hh) as (pg' & E' & ?). congruence. }
  split_and!; try done.
  - destruct Hb as [Hsz Hrp Ht Hh Hm Ho Hfr Hf1 Hf2 Hhe Hh1 Hidl]. split; try done.
    + unfold b'. simpl. by rewrite length_alter.
    + intros q h [Hne Hq]%Hmap. destruct (Ht q h Hq) as (? & pg' & E' & ?). split; [done|].
      exists pg'. rewrite Efp, decide_False by by eapply Hdisj. done.
    + intros j q h. unfold b'. simpl. destruct (decide (j = i)) as [->|Hne].
      * rewrite fn_lookup_insert. intros [_ Hq]%lookup_delete_Some. by apply Hh in Hq.
      * rewrite fn_lookup_insert_ne by done. apply Hh.
    + intros h pg'. rewrite Efp. case_decide; [by intros (pg1 & _ & ->)%fmap_Some|].
      intros E' Hne. apply Hmap. pose proof (Hm h pg' E' Hne) as Hq. split; [|done].
      intros Eq. rewrite Eq in Hq. unfold mapped in *. congruence.
    + intros h pg'. rewrite Efp. case_decide as Eh; intros E' Hinv.
      * left. exists i. apply Hfree. auto.
      * destruct (Ho h pg' E' Hinv) as [[j Hj]|?]; [|by right]. left. exists j. apply Hfree. auto.
    + intros j h [Hj|[-> ->]]%Hfree.
      * destruct (Hfr j h Hj) as (? & pg' & E' & ?). split; [done|]. exists pg'.
        rewrite Efp, decide_False; [done|]. intros ->. by destruct Hnf; exists j.
      * split; [done|]. exists (clear pg). by rewrite Efp, decide_True, E.
    + intros j. unfold b'. simpl. destruct (decide (j = i)) as [->|Hne].
      * rewrite fn_lookup_insert. apply NoDup_app. split_and!; [done| |apply NoDup_singleton].
        intros h Hi ->%list_elem_of_singleton. by destruct Hnf; exists i.
      * by rewrite fn_lookup_insert_ne.
    + intros j k h [Hj|[-> ->]]%Hfree [Hk|[Ek Ehh]]%Hfree; [by eapply Hf2| | |done].
      * subst. by destruct Hnf; exists j.
      * by destruct Hnf; exists k.
    + intros h Hhh. destruct (Hhe h Hhh) as (pg' & E' & ?). exists pg'.
      rewrite Efp, decide_False; [done|]. by intros ->.
    + intros h [Hh' Hne]%Hc. rewrite Efp, decide_False by done. by apply Hidl.
  - intros q. unfold view. destruct (decide (q = p)) as [->|Hne].
    + destruct (page_tables b' (get_partition_idx p) !! p) as [h|] eqn:Eh; [|done].
      by destruct (proj1 (Hmap p h) Eh).
    + destruct (page_tables b (get_partition_idx q) !! q) as [h|] eqn:Eh.
      * rewrite (proj2 (Hmap q h)) by done. by rewrite Efp, decide_False by by eapply Hdisj.
      * destruct (page_tables b' (get_partition_idx q) !! q) as [h|] eqn:Eh'; [|done].
        apply Hmap in Eh' as [_ Eh']. unfold mapped in Eh'. congruence.
  - exists i. apply Hfree. auto.
Qed.

Lemma take_frame_spec held b p :
  pool_inv held b → page_tables b (get_partition_idx p) !! p = None →
  wp (checkIfDirectlyPutInBuffer p) (λ o b', match o with
    | None => b' = b ∧ free_lists b (get_partition_idx p) = []
    | Some f => free_lists b (get_partition_idx p) ≠ [] ∧ pool_inv (f :: held) b' ∧ pool_size b' = pool_size b ∧
        page_tables b' = page_tables b ∧ replacer b' = replacer b ∧ (∀ q, view b' q = view b q)
    end) b.
Proof using.
  intros Hb Hp. unfold checkIfDirectlyPutInBuffer. wp_step. apply wp_find_page. rewrite Hp. wp_step.
  apply wp_check; [done|]. do 2 wp_step. set (i := get_partition_idx p).
  destruct (free_lists b i) as [|f l] eqn:El; [by wp_step|]. do 3 wp_step.
  assert (∀ j h, h ∈ free_lists (set_free i l b) j → h ∈ free_lists b j) as Hsub.
  { intros j h. simpl. destruct (decide (j = i)) as [->|Hne].
    - rewrite fn_lookup_insert, El, elem_of_cons. auto.
    - by rewrite fn_lookup_insert_ne. }
  pose proof (pi_free1 _ _ Hb i) as Hnd. rewrite El in Hnd. apply NoDup_cons in Hnd as [Hfl Hnd].
  assert (f ∈ free_lists b i) as Hfi by (rewrite El; by left).
  destruct (pi_free _ _ Hb i f Hfi) as (Hfh & Hpage).
  destruct Hb as [Hsz Hrp Ht Hh Hm Ho Hfr Hf1 Hf2 Hhe Hh1 Hidl].
  split_and!; try done. split; try done.
  - intros h pg E Hinv. destruct (decide (h = f)) as [->|Hne]; [right; by left|].
    destruct (Ho h pg E Hinv) as [[j Hj]|?]; [|right; by right]. left. exists j. simpl.
    destruct (decide (j = i)) as [->|Hji].
    + rewrite fn_lookup_insert. rewrite El in Hj. by apply elem_of_cons in Hj as [?|?].
    + by rewrite fn_lookup_insert_ne.
  - intros j h Hj. destruct (Hfr j h (Hsub j h Hj)) as [Hnh Hpg]. split; [|done].
    rewrite elem_of_cons. intros [->|?]; [|done].
    assert (j = i) as -> by (by apply (Hf2 j i f); [apply Hsub|]).
    simpl in Hj. by rewrite fn_lookup_insert in Hj.
  - intros j. simpl. destruct (decide (j = i)) as [->|Hji].
    + by rewrite fn_lookup_insert.
    + by rewrite fn_lookup_insert_ne.
  - intros j k h Hj Hk. by apply (Hf2 j k h); apply Hsub.
  - intros h [->|Hhh]%elem_of_cons; [done|by apply Hhe].
  - by apply NoDup_cons.
Qed.

(** A held frame receives the page [p]. *)
Definition placed (f t p : Z) (src : Data) (r : R) (b : BufferPool) : BufferPool :=
  set_replacer r (upd_at f (λ pg, mkPage p (t, p) src false (pin_count_ pg))
    (set_table (get_partition_idx p) (<[p := f]> (page_tables b (get_partition_idx p))) b)).

Lemma placed_mapped f t p src r b q h :
  page_tables b (get_partition_idx p) !! p = None →
  mapped (placed f t p src r b) q h ↔ (q = p ∧ h = f) ∨ mapped b q h.
Proof using.
  intros Hp. unfold mapped, placed. simpl.
  destruct (decide (get_partition_idx q = get_partition_idx p)) as [E|Hne].
  - rewrite E, fn_lookup_insert, lookup_insert_Some. split; [naive_solver|].
    intros [[-> ->]|Hq]; [by left|]. right. split; [|done]. intros ->. congruence.
  - rewrite fn_lookup_insert_ne by done. split; [by right|]. intros [[-> _]|?]; done.
Qed.

Lemma placed_inv held f t p src r b :
  pool_inv (f :: held) b → page_tables b (get_partition_idx p) !! p = None →
  p ≠ INVALID_PAGE_ID → replacer_inv (pool_size b) r →
  (∀ h, candidate r h ↔ candidate (replacer b) h ∧ h ≠ f) →
  pool_inv held (placed f t p src r b) ∧
  ∀ q, view (placed f t p src r b) q = if decide (q = p) then Some (src, false) else view b q.
Proof using.
  intros Hb Hp Hpv Hr Hc. set (g := λ pg : Page, mkPage p (t, p) src false (pin_count_ pg)).
  destruct (pi_held _ _ Hb f) as (pg & E & Hinv); [by left|].
  pose proof (frame_range _ _ _ E) as Hrg. set (b' := placed f t p src r b).
  assert (∀ h, frame_page b' h = if decide (h = f) then g <$> frame_page b h else frame_page b h) as Efp
    by (intros h; apply (frame_page_upd f g b h); lia).
  assert (∀ q h, mapped b' q h ↔ (q = p ∧ h = f) ∨ mapped b q h) as Hmap
    by (intros q h; by apply placed_mapped).
  assert (∀ q h, mapped b q h → h ≠ f) as Hdisj.
  { intros q h Hq ->. destruct (pi_table _ _ Hb q f Hq) as (? & pg' & E' & ?). congruence. }
  destruct Hb as [Hsz Hrp Ht Hh Hm Ho Hfr Hf1 Hf2 Hhe Hh1 Hidl].
  apply NoDup_cons in Hh1 as [Hfh Hh1]. split; [split; try done|].
  - unfold b', placed. simpl. by rewrite length_alter.
  - intros q h [[-> ->]|Hq]%Hmap.
    + split; [done|]. exists (g pg). by rewrite Efp, decide_True, E.
    + destruct (Ht q h Hq) as (? & pg' & E' & ?). split; [done|]. exists pg'.
      by rewrite Efp, decide_False by by eapply Hdisj.
  - intros j q h. unfold b', placed. simpl. destruct (decide (j = get_partition_idx p)) as [->|Hne].
    + rewrite fn_lookup_insert. intros [[-> _]|[_ Hq]]%lookup_insert_Some; [done|by apply Hh in Hq].
    + rewrite fn_lookup_insert_ne by done. apply Hh.
  - intros h pg'. rewrite Efp. case_decide as Eh.
    + intros (pg1 & _ & ->)%fmap_Some _. apply Hmap. by left.
    + intros E' Hne. apply Hmap. right. by apply Hm.
  - intros h pg'. rewrite Efp. case_decide as Eh.
    + by intros (pg1 & _ & ->)%fmap_Some.
    + intros E' Hi. destruct (Ho h pg' E' Hi) as [?|[?|?]%elem_of_cons]; [by left|done|by right].
  - intros j h Hj. destruct (Hfr j h Hj) as (Hnh & pg' & E' & ?).
    rewrite not_elem_of_cons in Hnh. destruct Hnh as [Hne Hnh]. split; [done|]. exists pg'.
    by rewrite Efp, decide_False.
  - intros h Hhh. destruct (Hhe h) as (pg' & E' & ?); [by right|]. exists pg'.
    rewrite Efp, decide_False; [done|]. by intros ->.
  - intros h [Hh' Hne]%Hc. rewrite Efp, decide_False by done. by apply Hidl.
  - intros q. unfold view. destruct (decide (q = p)) as [->|Hne].
    + rewrite (proj2 (Hmap p f)) by auto. by rewrite Efp, decide_True, E.
    + destruct (page_tables b (get_partition_idx q) !! q) as [h|] eqn:Eh.
      * rewrite (proj2 (Hmap q h)) by auto. by rewrite Efp, decide_False by by eapply Hdisj.
      * destruct (page_tables b' (get_partition_idx q) !! q) as [h|] eqn:Eh'; [|done].
        apply Hmap in Eh' as [[? _]|Eh']; [done|]. unfold mapped in Eh'. congruence.
Qed.

Lemma insert_free_spec held b t p f src :
  pool_inv (f :: held) b → page_tables b (get_partition_idx p) !! p = None → p ≠ INVALID_PAGE_ID →
  wp (insert_or_replace t p f false INVALID_PAGE_ID src) (λ _ b', pool_inv held b' ∧
    mapped b' p f ∧ pool_size b' = pool_size b ∧ fewer b b' ∧
    (∀ q, view b' q = if decide (q = p) then Some (src, false) else view b q)) b.
Proof using.
  intros Hb Hp Hpv. unfold insert_or_replace, onReplacer, upd_page.
  cbn [when]. do 5 wp_step. rewrite Hp.
  apply wp_check; [done|]. do 4 wp_step. eapply wp_mono; [by apply (pin_law (pool_size b)), Hb|].
  intros [] r (Hr & Hc & _). destruct (pi_held _ _ Hb f) as (pg & E & _); [by left|].
  wp_step. apply (wp_page_at f pg); [done|]. wp_step.
  destruct (placed_inv held f t p src r b Hb Hp Hpv Hr Hc) as [Hinv Hv].
  split_and!; [exact Hinv| |done|by intros h [? _]%Hc|exact Hv]. apply (placed_mapped f t p src r b p f Hp). auto.
Qed.

(** The frame of [v] taken out of the page table. *)
Definition unplaced (f v : Z) (b : BufferPool) : BufferPool :=
  upd_at f (set_page_id INVALID_PAGE_ID)
    (set_table (get_partition_idx v) (delete v (page_tables b (get_partition_idx v))) b).

Lemma unplaced_mapped f v b q h : mapped (unplaced f v b) q h ↔ q ≠ v ∧ mapped b q h.
Proof using.
  unfold mapped, unplaced. simpl. destruct (decide (get_partition_idx q = get_partition_idx v)) as [E|Hne].
  - rewrite E, fn_lookup_insert, lookup_delete_Some. naive_solver.
  - rewrite fn_lookup_insert_ne by done. split; [|tauto]. intros ?. split; [|done]. by intros ->.
Qed.

Lemma unplaced_inv held f v b :
  pool_inv held b → mapped b v f → ¬ candidate (replacer b) f →
  pool_inv (f :: held) (unplaced f v b) ∧
  ∀ q, view (unplaced f v b) q = if decide (q = v) then None else view b q.
Proof using.
  intros Hb Hv Hnc. pose proof (mapped_range b held v f Hb Hv) as Hrg.
  destruct (pi_table _ _ Hb v f Hv) as (Hvv & pg & E & Hid).
  set (b' := unplaced f v b). set (g := @set_page_id Data INVALID_PAGE_ID).
  assert (∀ h, frame_page b' h = if decide (h = f) then g <$> frame_page b h else frame_page b h) as Efp
    by (intros h; apply (frame_page_upd f g b h); lia).
  assert (∀ q h, mapped b' q h ↔ q ≠ v ∧ mapped b q h) as Hmap by (intros; apply unplaced_mapped).
  assert (∀ q h, mapped b q h → q ≠ v → h ≠ f) as Hdisj.
  { intros q h Hq Hne ->. by destruct Hne; apply (mapped_inj b held q v f). }
  assert (∀ j, f ∉ free_lists b j) as Hnf.
  { intros j Hj. destruct (pi_free _ _ Hb j f Hj) as (_ & pg' & E' & ?). congruence. }
  assert (f ∉ held) as Hnh.
  { intros Hh. destruct (pi_held _ _ Hb f Hh) as (pg' & E' & ?). congruence. }
  destruct Hb as [Hsz Hrp Ht Hh Hm Ho Hfr Hf1 Hf2 Hhe Hh1 Hidl]. split; [split; try done|].
  - unfold b', unplaced. simpl. by rewrite length_alter.
  - intros q h [Hne Hq]%Hmap. destruct (Ht q h Hq) as (? & pg' & E' & ?). split; [done|]. exists pg'.
    by rewrite Efp, decide_False by by eapply Hdisj.
  - intros j q h. unfold b', unplaced. simpl. destruct (decide (j = get_partition_idx v)) as [->|Hne].
    + rewrite fn_lookup_insert. intros [_ Hq]%lookup_delete_Some. by apply Hh in Hq.
    + rewrite fn_lookup_insert_ne by done. apply Hh.
  - intros h pg'. rewrite Efp. case_decide as Eh.
    + by intros (pg1 & _ & ->)%fmap_Some.
    + intros E' Hne. apply Hmap. pose proof (Hm h pg' E' Hne) as Hq. split; [|done].
      intros Eq. rewrite Eq in Hq. unfold mapped in *. congruence.
  - intros h pg'. rewrite Efp. case_decide as Eh; intros E' Hi.
    + right. subst. by left.
    + destruct (Ho h pg' E' Hi) as [?|?]; [by left|right; by right].
  - intros j h Hj. destruct (Hfr j h Hj) as (Hn & pg' & E' & ?).
    assert (h ≠ f) by (intros ->; by destruct (Hnf j)).
    split; [by apply not_elem_of_cons|]. exists pg'. by rewrite Efp, decide_False.
  - intros h [->|Hhh]%elem_of_cons.
    + exists (g pg). by rewrite Efp, decide_True, E.
    + destruct (Hhe h Hhh) as (pg' & E' & ?). exists pg'. rewrite Efp, decide_False; [done|]. by intros ->.
  - by apply NoDup_cons.
  - intros h Hh'. rewrite Efp, decide_False; [by apply Hidl|]. by intros ->.
  - intros q. unfold view. destruct (decide (q = v)) as [->|Hne].
    + destruct (page_tables b' (get_partition_idx v) !! v) as [h|] eqn:Eh; [|done].
      by destruct (proj1 (Hmap v h) Eh).
    + destruct (page_tables b (get_partition_idx q) !! q) as [h|] eqn:Eh.
      * rewrite (proj2 (Hmap q h)) by done. by rewrite Efp, decide_False by by eapply Hdisj.
      * destruct (page_tables b' (get_partition_idx q) !! q) as [h|] eqn:Eh'; [|done].
        apply Hmap in Eh' as [_ Eh']. unfold mapped in Eh'. congruence.
Qed.

Lemma placed_unplaced f v t p src r b :
  placed f t p src r (unplaced f v b) =
  set_replacer r (upd_at f (λ pg, mkPage p (t, p) src false (pin_count_ pg))
    (set_table (get_partition_idx p)
      (<[p := f]> (page_tables (set_table (get_partition_idx v)
         (delete v (page_tables b (get_partition_idx v))) b) (get_partition_idx p)))
      (set_table (get_partition_idx v) (delete v (page_tables b (get_partition_idx v))) b))).
Proof using.
  unfold placed, unplaced, upd_at, set_replacer, set_pages, set_table. simpl. f_equal.
  by rewrite list_alter_twice.
Qed.

Lemma insert_replace_spec held b t p f v src :
  pool_inv held b → mapped b v f → ¬ candidate (replacer b) f → p ≠ v →
  page_tables b (get_partition_idx p) !! p = None → p ≠ INVALID_PAGE_ID →
  wp (insert_or_replace t p f true v src) (λ _ b', pool_inv held b' ∧
    mapped b' p f ∧ pool_size b' = pool_size b ∧ fewer b b' ∧
    (∀ q, view b' q = if decide (q = p) then Some (src, false)
                      else if decide (q = v) then None else view b q)) b.
Proof using.
  intros Hb Hv Hnc Hpv Hp Hpi. destruct (unplaced_inv held f v b Hb Hv Hnc) as [Hb1 Hv1].
  pose proof (pi_table _ _ Hb v f Hv) as (Hvi & pg & E & _). unfold mapped in Hv.
  assert (page_tables (unplaced f v b) (get_partition_idx p) !! p = None) as Hp1.
  { destruct (page_tables (unplaced f v b) (get_partition_idx p) !! p) as [h|] eqn:Eh; [|done].
    apply unplaced_mapped in Eh as [_ Eh]. unfold mapped in Eh. congruence. }
  unfold insert_or_replace, onReplacer, upd_page. cbn [when]. do 2 wp_step.
  apply wp_check; [by apply negb_true_iff, Z.eqb_neq|]. do 3 wp_step.
  rewrite Hv. apply wp_check; [done|]. do 4 wp_step. apply wp_check.
  { change (page_tables (set_table _ _ b)) with (page_tables (unplaced f v b)). by rewrite Hp1. }
  do 4 wp_step.
  eapply wp_mono; [apply (pin_law (pool_size b) (replacer b)), Hb|].
  intros [] r (Hr & Hc & _). wp_step. apply (wp_page_at f pg); [exact E|]. wp_step.
  destruct (placed_inv held f t p src r _ Hb1 Hp1 Hpi Hr Hc) as [Hinv Hvw].
  match goal with |- pool_inv held ?b ∧ _ => set (b' := b) end.
  assert (b' = placed f t p src r (unplaced f v b)) as -> by by rewrite placed_unplaced.
  split_and!; [exact Hinv| |done|by intros h [? _]%Hc|].
  - apply (placed_mapped f t p src r _ p f Hp1). auto.
  - intros q. rewrite Hvw. case_decide; [done|]. apply Hv1.
Qed.

Lemma update_spec held b p f pg d :
  pool_inv held b → mapped b p f → frame_page b f = Some pg → pin_count_ pg = 0 →
  wp (checkIfDirectlyUpdate p d) (λ r b', r = true ∧ pool_inv held b' ∧
    pool_size b' = pool_size b ∧ fewer b b' ∧ page_tables b' = page_tables b ∧
    (∀ q, view b' q = if decide (q = p) then Some (d, is_dirty_ pg) else view b q)) b.
Proof using.
  intros Hb Hp E Hpin. pose proof (mapped_range b held p f Hb Hp) as Hrg.
  unfold checkIfDirectlyUpdate, upd_page, onReplacer. wp_step. apply wp_find_page. pose proof Hp as Hp'.
  unfold mapped in Hp'. rewrite Hp'. wp_step. apply (wp_page_at f pg); [done|]. wp_step.
  apply wp_check; [by apply Z.eqb_eq|]. do 4 wp_step.
  eapply wp_mono; [by apply (pin_law (pool_size b)), Hb|]. intros [] r (Hr & Hc & _). do 3 wp_step.
  set (g := λ pg : Page, set_data d (set_pin (pin_count_ pg + 1) pg)).
  match goal with |- _ ∧ pool_inv held ?b ∧ _ => set (b' := b) end.
  assert (b' = set_replacer r (upd_at f (λ x, set_data d (set_pin (pin_count_ pg + 1) x)) b)) as ->.
  { unfold b', upd_at, set_pages, set_replacer. simpl. by rewrite list_alter_twice. }
  split_and!; [done| |done|by intros h [? _]%Hc|done|].
  - apply pool_inv_upd; [done|lia|done|done|]. intros h Hh. left. by apply Hc in Hh as [? ?].
  - intros q. unfold view. simpl.
    change (frame_page (set_replacer r (upd_at f ?g b))) with (frame_page (upd_at f g b)).
    destruct (decide (q = p)) as [->|Hne].
    + rewrite Hp'. change (frame_page (set_replacer r ?x) f) with (frame_page x f).
      by rewrite frame_page_upd, decide_True, E by (done || lia).
    + destruct (page_tables b (get_partition_idx q) !! q) as [h|] eqn:Eh; [|done].
      change (frame_page (set_replacer r ?x) h) with (frame_page x h).
      rewrite frame_page_upd, decide_False; [done| |lia].
      intros ->. by destruct Hne; apply (mapped_inj b held q p f).
Qed.

Lemma elem_free_init i n f :
  f ∈ List.filter (λ f, get_partition_idx f =? i) (Z.of_nat <$> seq 0 (Z.to_nat n)) ↔
  get_partition_idx f = i ∧ 0 ≤ f < n.
Proof using.
  rewrite list_elem_of_In, List.filter_In, <- list_elem_of_In, Z.eqb_eq, list_elem_of_fmap.
  split.
  - intros [(k & -> & Hk%elem_of_seq) <-]. split; [done|lia].
  - intros [<- Hf]. split; [|done]. exists (Z.to_nat f). rewrite elem_of_seq. lia.
Qed.

Lemma new_pool_inv r n m :
  0 ≤ n → replacer_inv n r → (∀ f, ¬ candidate r f) → pool_inv [] (new_BufferPool r n m).
Proof using.
  intros Hn Hr Hc.
  assert (∀ f pg, frame_page (new_BufferPool r n m) f = Some pg →
    0 ≤ f < n ∧ page_id_ pg = INVALID_PAGE_ID) as Hfp.
  { intros f pg. unfold frame_page. simpl. destruct (Z.leb_spec 0 f); [|done].
    intros [-> ?]%lookup_replicate. split; [lia|done]. }
  split; simpl; try done.
  - rewrite length_replicate. lia.
  - intros f pg E Hne. by destruct (Hfp f pg E).
  - intros f pg E _. left. exists (get_partition_idx f). simpl. apply elem_free_init.
    split; [done|]. by apply Hfp in E as [? _].
  - intros i f [_ Hf]%elem_free_init. split; [apply not_elem_of_nil|].
    eexists. split.
    + unfold frame_page. simpl. rewrite (proj2 (Z.leb_le 0 f)) by lia.
      apply lookup_replicate_2. lia.
    + done.
  - intros i. apply NoDup_ListNoDup, List.NoDup_filter, NoDup_ListNoDup, NoDup_fmap_2; [|apply NoDup_seq].
    intros x y. lia.
  - intros i j f [<- _]%elem_free_init [<- _]%elem_free_init. done.
  - by intros f ?%elem_of_nil.
  - apply NoDup_nil_2.
  - intros f Hf. by destruct (Hc f).
Qed.
End pool.
