(* ===== verification/PoolProtocol.v ===== *)
(** What the buffer pool of a compute node guarantees to the threads that use
    it: an abstract map from pages to contents, frames that are never lost or
    shared, and victims that nobody uses. *)

From stdpp Require Import functions.
From S2P Require Import Prelude Common Page Replacer BufferPool.

Section protocol.
Context {R Data : Type} `{!ReplacerBase R, !ReplacerLaws R}.
Variable zeroed : Data.

Abbreviation Pool := (@BufferPool R Data).

(** ** The calls the threads make

    A thread takes a free frame ([held] lists the frames taken so far whose page
    has not been put in), or claims a candidate for eviction and ends the claim,
    successfully or not; the page of a frame is replaced only when the frame is
    no candidate any more and while the latch of its old page is marked as being
    evicted, so that the frame still has that page. *)

Inductive call : Type :=
  | Fetch (p f : Z)
  | TryFetch (p : Z) (o : option Z)
  | Read (p : Z) (o : option Data)
  | Unpin (p : Z)
  | Release (p : Z)
  | Update (p : Z) (d : Data) (r : bool)
  | Take (p : Z) (o : option Z)
  | Insert (p : Z) (d : Data)
  | Claim (f : Z)
  | EndClaim (f : Z) (ok : bool)
  | Replace (v p : Z) (d : Data).

Inductive pool_step : call → Pool * list Z → Pool * list Z → Prop :=
  | ps_fetch b held p f b' : fetch_page p b = Done (f, b') →
      pool_step (Fetch p f) (b, held) (b', held)
  | ps_try_fetch b held p o b' : try_fetch_page p b = Done (o, b') →
      pool_step (TryFetch p o) (b, held) (b', held)
  | ps_read b held p o b' : try_fetch_page_ret_string p b = Done (o, b') →
      pool_step (Read p o) (b, held) (b', held)
  | ps_unpin b held p b' : unpin_page p b = Done (tt, b') →
      pool_step (Unpin p) (b, held) (b', held)
  | ps_release b held p b' : releaseBufferPage zeroed p b = Done (tt, b') →
      pool_step (Release p) (b, held) (b', held)
  | ps_update b held p d r b' : checkIfDirectlyUpdate p d b = Done (r, b') →
      pool_step (Update p d r) (b, held) (b', held)
  | ps_take b held p o b' : checkIfDirectlyPutInBuffer p b = Done (o, b') →
      pool_step (Take p o) (b, held) (b', option_list o ++ held)
  | ps_insert b held t p f d b' : p ≠ INVALID_PAGE_ID →
      insert_or_replace t p f false INVALID_PAGE_ID d b = Done (tt, b') →
      pool_step (Insert p d) (b, f :: held) (b', held)
  | ps_claim b held seed f b' : onReplacer (tryVictim seed) b = Done (Some f, b') →
      pool_step (Claim f) (b, held) (b', held)
  | ps_end b held ok f b' : 0 ≤ f < pool_size b → onReplacer (endVictim ok f) b = Done (tt, b') →
      pool_step (EndClaim f ok) (b, held) (b', held)
  | ps_replace b held t p f v d b' : p ≠ INVALID_PAGE_ID → p ≠ v → mapped b v f →
      ¬ candidate (replacer b) f → insert_or_replace t p f true v d b = Done (tt, b') →
      pool_step (Replace v p d) (b, held) (b', held).

Definition pool_reachable (r : R) (n m : Z) : Pool * list Z → Prop :=
  star (λ s s', ∃ c, pool_step c s s') (new_BufferPool zeroed r n m, []).

(** ** What the calls mean: a map from pages to contents *)

Abbreviation Contents := (Z → option (Data * bool)).

Definition effect (c : call) (m : Contents) : Contents :=
  match c with
  | Release p => <[p := None]> m
  | Update p d _ => match m p with Some (_, dirty) => <[p := Some (d, dirty)]> m | None => m end
  | Insert p d => <[p := Some (d, false)]> m
  | Replace v p d => <[p := Some (d, false)]> (<[v := None]> m)
  | _ => m
  end.

Definition answer (c : call) (m : Contents) : Prop :=
  match c with
  | Fetch p _ | Unpin p | Release p => is_Some (m p)
  | TryFetch p o => is_Some o ↔ is_Some (m p)
  | Read p o => o = fst <$> m p
  | Update p _ r => r = true ↔ is_Some (m p)
  | Take p _ | Insert p _ => m p = None
  | Replace v p _ => is_Some (m v) ∧ m p = None
  | Claim _ | EndClaim _ _ => True
  end.

(** ** Calls that return find what they look for *)

Lemma view_None held (b : Pool) p :
  pool_inv held b → view b p = None ↔ page_tables b (get_partition_idx p) !! p = None.
Proof using.
  intros Hb. destruct (page_tables b (get_partition_idx p) !! p) as [f|] eqn:E.
  - destruct (view_mapped b held p f Hb E) as (pg & _ & _ & ->). naive_solver.
  - unfold view. by rewrite E.
Qed.

Lemma view_Some held (b : Pool) p :
  pool_inv held b → is_Some (view b p) ↔ ∃ f, mapped b p f.
Proof using.
  intros Hb. rewrite <- not_eq_None_Some, (view_None held b p Hb), not_eq_None_Some. done.
Qed.

Lemma find_page_bind {A} (b : Pool) p (k : option Z → M Pool A) :
  (find_page p ≫= k) b = k (page_tables b (get_partition_idx p) !! p) b.
Proof using. done. Qed.

Lemma fetch_done (b : Pool) p f b' : fetch_page p b = Done (f, b') → ∃ f, mapped b p f.
Proof using.
  unfold fetch_page. rewrite find_page_bind. unfold mapped. destruct (_ !! p); [by eauto|done].
Qed.

Lemma unpin_done (b : Pool) p x : unpin_page p b = Done x → ∃ f, mapped b p f.
Proof using.
  unfold unpin_page. rewrite find_page_bind. unfold mapped. destruct (_ !! p); [by eauto|done].
Qed.

Lemma release_done (b : Pool) p x : release_page zeroed p b = Done x → ∃ f, mapped b p f.
Proof using.
  unfold release_page. rewrite find_page_bind. unfold mapped. destruct (_ !! p); [by eauto|done].
Qed.

Lemma take_done (b : Pool) p x :
  checkIfDirectlyPutInBuffer p b = Done x → page_tables b (get_partition_idx p) !! p = None.
Proof using. unfold checkIfDirectlyPutInBuffer. rewrite find_page_bind. by destruct (_ !! p). Qed.

Lemma update_done (b : Pool) p d f pg x :
  mapped b p f → frame_page b f = Some pg → checkIfDirectlyUpdate p d b = Done x → pin_count_ pg = 0.
Proof using.
  unfold mapped, checkIfDirectlyUpdate. intros Hp E. rewrite find_page_bind, Hp.
  rewrite (run_bind _ _ b pg b).
  - destruct (Z.eqb_spec (pin_count_ pg) 0); [done|]. by unfold check, mbind, M_bind, crash.
  - unfold page_at. unfold frame_page in E. destruct (0 <=? f); [by rewrite E|done].
Qed.

Lemma insert_done (b : Pool) t p f (rep : bool) v d x :
  p ≠ v → insert_or_replace t p f rep v d b = Done x → page_tables b (get_partition_idx p) !! p = None.
Proof using.
  intros Hne. unfold insert_or_replace, when, check, mbind, M_bind, gets, modify, mret, M_ret, crash.
  destruct rep; simpl.
  - destruct (v =? INVALID_PAGE_ID); [done|]. simpl. destruct (bool_decide _); [|done]. simpl.
    set (i := get_partition_idx v). destruct (decide (get_partition_idx p = i)) as [->|Hi].
    + rewrite fn_lookup_insert, lookup_delete_ne by done. by destruct (_ !! p).
    + rewrite fn_lookup_insert_ne by done. by destruct (_ !! p).
  - by destruct (_ !! p).
Qed.

(** ** Every call keeps the invariant and means what it says *)

Record sound (c : call) (b : Pool) (b' : Pool) (held' : list Z) : Prop := {
  so_inv : pool_inv held' b';
  so_size : pool_size b' = pool_size b;
  so_answer : answer c (view b);
  so_effect : ∀ q, view b' q = effect c (view b) q;
  so_fewer : (∀ p, c ≠ Unpin p) → fewer b b'
}.

Lemma sound_stays c held (b b' : Pool) :
  stays held b b' → answer c (view b) → (∀ m, effect c m = m) → ((∀ p, c ≠ Unpin p) → fewer b b') →
  sound c b b' held.
Proof using. intros [] Ha He Hf. split; try done. intros q. by rewrite He. Qed.

Lemma replacer_only held (b : Pool) r :
  pool_inv held b → replacer_inv (pool_size b) r →
  (∀ h, candidate r h → candidate (replacer b) h) → stays held b (set_replacer r b).
Proof using.
  intros Hb Hr Hc. split; try done. destruct Hb. split; try done. intros h Hh. by apply pi_idle, Hc.
Qed.

Lemma fetch_sound held b p f b' :
  pool_inv held b → fetch_page p b = Done (f, b') →
  sound (Fetch p f) b b' held ∧ ∃ pg, frame_page b' f = Some pg ∧ page_id_ pg = p.
Proof using.
  intros Hb E. destruct (fetch_done b p f b' E) as [f' Hp].
  pose proof (wp_run _ _ _ _ _ (fetch_page_spec held b p f' Hb Hp) E) as (-> & Hst & Hc).
  split; [|by apply (stays_page held b b' p)]. apply (sound_stays _ held); [done| |done|by intros _ h [? _]%Hc].
  apply (view_Some held b p Hb). eauto.
Qed.

Lemma try_fetch_sound held b p o b' :
  pool_inv held b → try_fetch_page p b = Done (o, b') → sound (TryFetch p o) b b' held.
Proof using.
  intros Hb E. pose proof (wp_run _ _ _ _ _ (try_fetch_page_spec held b p Hb) E) as [Hst Ho].
  destruct o as [f|]; apply (sound_stays _ held); try done; simpl.
  - destruct Ho as [Hp _]. split; [|done]. intros _. apply (view_Some held b p Hb). eauto.
  - destruct Ho as [_ Hc]. by intros _ h [? _]%Hc.
  - destruct Ho as [_ ->]. done.
  - destruct Ho as [-> _]. by intros _ h.
Qed.

Lemma unpin_sound held b p b' :
  pool_inv held b → unpin_page p b = Done (tt, b') → sound (Unpin p) b b' held.
Proof using.
  intros Hb E. destruct (unpin_done b p _ E) as [f Hp].
  pose proof (wp_run _ _ _ _ _ (unpin_page_spec held b p f Hb Hp) E) as [Hst _].
  apply (sound_stays _ held); [done| |done|by intros Hu; destruct (Hu p)].
  apply (view_Some held b p Hb). eauto.
Qed.

Lemma release_sound held b p b' :
  pool_inv held b → release_page zeroed p b = Done (tt, b') → sound (Release p) b b' held.
Proof using.
  intros Hb E. destruct (release_done b p _ E) as [f Hp].
  pose proof (wp_run _ _ _ _ _ (release_page_spec zeroed held b p f Hb Hp) E) as (Hi & Hs & Hv & _ & _ & Hc).
  split; [done|done| | |by intros _ h [? _]%Hc].
  - apply (view_Some held b p Hb). eauto.
  - intros q. rewrite Hv. simpl. case_decide as Eq; [subst; by rewrite fn_lookup_insert|].
    by rewrite fn_lookup_insert_ne.
Qed.

Lemma update_sound held b p d r b' :
  pool_inv held b → checkIfDirectlyUpdate p d b = Done (r, b') → sound (Update p d r) b b' held.
Proof using.
  intros Hb E. destruct (page_tables b (get_partition_idx p) !! p) as [f|] eqn:Ep.
  - destruct (view_mapped b held p f Hb Ep) as (pg & Epg & Hid & Hvp).
    pose proof (update_done b p d f pg _ Ep Epg E) as Hpin.
    pose proof (wp_run _ _ _ _ _ (update_spec held b p f pg d Hb Ep Epg Hpin) E) as (-> & Hi & Hs & Hf & Ht & Hv).
    split; [done|done| | |done].
    + simpl. rewrite Hvp. done.
    + intros q. rewrite Hv. simpl. rewrite Hvp. simpl.
      case_decide as Eq; [subst; by rewrite fn_lookup_insert|]. by rewrite fn_lookup_insert_ne.
  - assert (r = false ∧ b' = b) as [-> ->].
    { unfold checkIfDirectlyUpdate in E. rewrite find_page_bind, Ep in E. by injection E as <- <-. }
    apply (view_None held b p Hb) in Ep. split; [done|done| | |by intros _ h].
    + simpl. rewrite Ep. split; [done|]. by intros [? ?].
    + intros q. simpl. by rewrite Ep.
Qed.

Lemma take_sound held b p o b' :
  pool_inv held b → checkIfDirectlyPutInBuffer p b = Done (o, b') →
  sound (Take p o) b b' (option_list o ++ held).
Proof using.
  intros Hb E. pose proof (take_done b p _ E) as Hp.
  pose proof (wp_run _ _ _ _ _ (take_frame_spec held b p Hb Hp) E) as Ho.
  apply (view_None held b p Hb) in Hp. destruct o as [f|].
  - destruct Ho as (_ & ? & ? & _ & Er & ?). split; try done. intros _ h. by rewrite Er.
  - destruct Ho as [-> _]. split; try done. by intros _ h.
Qed.

Lemma insert_sound held b t p f d b' :
  pool_inv (f :: held) b → p ≠ INVALID_PAGE_ID →
  insert_or_replace t p f false INVALID_PAGE_ID d b = Done (tt, b') →
  sound (Insert p d) b b' held.
Proof using.
  intros Hb Hpi E. pose proof (insert_done b t p f false _ d _ Hpi E) as Hp.
  pose proof (wp_run _ _ _ _ _ (insert_free_spec held b t p f d Hb Hp Hpi) E) as (Hi & _ & Hs & Hf & Hv).
  split; [done|done|by apply (view_None (f :: held) b p Hb)| |done].
  intros q. rewrite Hv. simpl. case_decide as Eq; [subst; by rewrite fn_lookup_insert|].
  by rewrite fn_lookup_insert_ne.
Qed.

Lemma replace_sound held b t p f v d b' :
  pool_inv held b → p ≠ INVALID_PAGE_ID → p ≠ v → mapped b v f → ¬ candidate (replacer b) f →
  insert_or_replace t p f true v d b = Done (tt, b') → sound (Replace v p d) b b' held.
Proof using.
  intros Hb Hpi Hne Hv Hc E. pose proof (insert_done b t p f true v d _ Hne E) as Hp.
  pose proof (wp_run _ _ _ _ _ (insert_replace_spec held b t p f v d Hb Hv Hc Hne Hp Hpi) E)
    as (Hi & _ & Hs & Hf & Hvw).
  split; [done|done| | |done].
  - split; [apply (view_Some held b v Hb); eauto|by apply (view_None held b p Hb)].
  - intros q. rewrite Hvw. simpl. case_decide as Eq; [subst; by rewrite fn_lookup_insert|].
    rewrite fn_lookup_insert_ne by done.
    case_decide as Ev; [subst; by rewrite fn_lookup_insert|]. by rewrite fn_lookup_insert_ne.
Qed.

Lemma claim_sound held b seed f b' :
  pool_inv held b → onReplacer (tryVictim seed) b = Done (Some f, b') → sound (Claim f) b b' held.
Proof using.
  intros Hb E. assert (stays held b b' ∧ fewer b b') as [Hst Hf]; [|by apply (sound_stays _ held)].
  unshelve eapply (wp_run _ (λ _ b', stays held b b' ∧ fewer b b') _ _ _ _ E).
  unfold onReplacer. wp_step. eapply wp_mono; [apply tryVictim_law, Hb|]. intros o r (Hr & Hc & _).
  assert (fewer b (set_replacer r b)) by (intros h; apply Hc). split; [|done]. by apply replacer_only.
Qed.

Lemma end_sound held b ok f b' :
  pool_inv held b → 0 ≤ f < pool_size b → onReplacer (endVictim ok f) b = Done (tt, b') →
  sound (EndClaim f ok) b b' held.
Proof using.
  intros Hb Hf E. assert (stays held b b' ∧ fewer b b') as [Hst Hfw]; [|by apply (sound_stays _ held)].
  unshelve eapply (wp_run _ (λ _ b', stays held b b' ∧ fewer b b') _ _ _ _ E).
  unfold onReplacer. wp_step. eapply wp_mono; [by apply (endVictim_law (pool_size b)); [apply Hb|]|].
  intros [] r (Hr & Hc & _). 
  assert (fewer b (set_replacer r b)) by (by intros h [? _]%Hc). split; [|done]. by apply replacer_only.
Qed.

Lemma pool_step_sound c b held b' held' :
  pool_inv held b → pool_step c (b, held) (b', held') → sound c b b' held'.
Proof using.
  intros Hb H. inversion H; subst.
  - by eapply fetch_sound.
  - by apply try_fetch_sound.
  - match goal with E : try_fetch_page_ret_string _ _ = _ |- _ =>
      destruct (wp_run _ _ _ _ _ (try_fetch_string_spec held' b _ Hb) E) as [-> ->] end.
    split; try done. by intros _ h.
  - by apply unpin_sound.
  - by apply release_sound.
  - by apply update_sound.
  - by apply take_sound.
  - by eapply insert_sound.
  - by eapply claim_sound.
  - by eapply end_sound.
  - by eapply replace_sound.
Qed.

Lemma pool_reachable_inv r n m b held :
  0 ≤ n → replacer_inv n r → (∀ f, ¬ candidate r f) → pool_reachable r n m (b, held) →
  pool_inv held b ∧ pool_size b = n.
Proof using.
  intros Hn Hr Hc. change (pool_inv held b ∧ pool_size b = n)
    with ((λ s : Pool * list Z, pool_inv (snd s) (fst s) ∧ pool_size (fst s) = n) (b, held)).
  apply star_invariant.
  - split; [by apply new_pool_inv|done].
  - intros [b1 h1] [b2 h2] [Hi Hs] [c Hstep]. simpl in *.
    destruct (pool_step_sound c b1 h1 b2 h2 Hi Hstep). split; congruence.
Qed.

(** ** One round of the search for a victim *)

Section round.
Context {S : Type} (get_pool : S → Pool) (put_pool : Pool → S → S).
Variable try_begin_evict : page_id_t → M S bool.

(** The larger state has the pool as a component that the latch leaves alone. *)
Hypothesis get_put : ∀ b s, get_pool (put_pool b s) = b.
Hypothesis latch_only : ∀ v s, safe (try_begin_evict v) (λ _ s', get_pool s' = get_pool s) s.

Lemma safe_onPool {A B} (m : M Pool A) (k : A → M S B) Q P s :
  wp m P (get_pool s) → (∀ a b, P a b → safe (k a) Q (put_pool b s)) →
  safe (onPool get_pool put_pool m ≫= k) Q s.
Proof using.
  intros Hm Hk. apply safe_bind. unfold safe at 1, onPool, zoom. unfold wp in Hm.
  destruct (m (get_pool s)) as [[a b]| |]; [by apply Hk|done|done].
Qed.

Definition victim_ok (held : list Z) (s : S) (o : option (Z * Z * Z)) (s' : S) : Prop :=
  pool_inv held (get_pool s') ∧ (∀ q, view (get_pool s') q = view (get_pool s) q) ∧
  page_tables (get_pool s') = page_tables (get_pool s) ∧
  (∀ f, ¬ claimed (replacer (get_pool s')) f) ∧
  match o with
  | None => ∀ f, candidate (replacer (get_pool s')) f ↔ candidate (replacer (get_pool s)) f
  | Some (v, later, f) => later = v ∧ mapped (get_pool s') v f ∧
      candidate (replacer (get_pool s)) f ∧ ¬ candidate (replacer (get_pool s')) f ∧
      ∃ pg, frame_page (get_pool s') f = Some pg ∧ pin_count_ pg = 0
  end.

Lemma replace_round_spec held seed s :
  pool_inv held (get_pool s) → (∃ f, candidate (replacer (get_pool s)) f) →
  (∀ f, ¬ claimed (replacer (get_pool s)) f) →
  safe (replace_round get_pool put_pool try_begin_evict seed) (victim_ok held s) s.
Proof using get_put latch_only.
  intros Hb [f0 Hf0] Hcl. unfold replace_round. set (b := get_pool s) in *.
  assert (∀ r f pg, frame_page b f = Some pg → frame_page (set_replacer r b) f = Some pg) as Hfp by done.
  eapply safe_onPool with (P := λ o b1, ∃ r1, b1 = set_replacer r1 b ∧ replacer_inv (pool_size b) r1 ∧
    (∀ g, candidate r1 g ↔ candidate (replacer b) g) ∧
    ∃ f, o = Some f ∧ candidate (replacer b) f ∧ ∀ g, claimed r1 g → g = f).
  { unfold onReplacer. wp_step. eapply wp_mono; [apply tryVictim_law, Hb|]. intros [f|] r1 (Hr & Hc & Ho).
    - exists r1. split_and!; [done|done|done|]. exists f. destruct Ho as (? & _ & Hg). split_and!; [done|done|].
      intros g [Hgc|?]%Hg; [by destruct (Hcl g)|done].
    - destruct Ho as [_ Hno]. by destruct (Hno Hcl f0). }
  intros o b1 (r1 & -> & Hr1 & Hc1 & f & -> & Hf & Hcl1).
  destruct (pi_idle _ _ Hb f Hf) as (pg & Epg & Hid & Hpin).
  pose proof (frame_range _ _ _ Epg) as Hrg. rewrite (pi_size _ _ Hb) in Hrg.
  eapply safe_onPool with (P := λ x b2, x = pg ∧ b2 = set_replacer r1 b).
  { rewrite get_put. by apply (wp_page_at f pg). }
  intros ? ? [-> ->]. cbv zeta. rewrite (proj2 (Z.eqb_neq _ _)) by done. cbn [negb].
  safe_step. eapply safe_mono; [apply latch_only|]. intros ok s1 Hs1. cbv beta in Hs1.
  rewrite !get_put in Hs1.
  eapply safe_onPool with (P := λ _ b3, ∃ r2, b3 = set_replacer r2 b ∧ replacer_inv (pool_size b) r2 ∧
    (∀ g, candidate r2 g ↔ candidate (replacer b) g ∧ (ok = true → g ≠ f)) ∧ ∀ g, ¬ claimed r2 g).
  { rewrite Hs1. unfold onReplacer. wp_step.
    eapply wp_mono; [apply (endVictim_law (pool_size b)); done|].
    intros [] r2 (Hr2 & Hc2 & Hcl2). exists r2. split_and!; [done|done| |].
    - intros g. rewrite Hc2. simpl. by rewrite Hc1.
    - intros g [Hg ?]%Hcl2. by apply Hcl1 in Hg. }
  intros _ b3 (r2 & -> & Hr2 & Hc2 & Hcl2).
  destruct (replacer_only held b r2 Hb Hr2) as [Hinv _ _ _ Hview];
    [intros h Hh; by apply Hc2 in Hh as [? _]|].
  assert (mapped (set_replacer r2 b) (page_id_ pg) f) as Hmap by by apply (pi_mapped _ _ Hb f pg).
  destruct ok.
  - eapply safe_onPool with (P := λ x b4, x = pg ∧ b4 = set_replacer r2 b).
    { rewrite get_put. by apply (wp_page_at f pg). }
    intros ? ? [-> ->]. safe_step. unfold victim_ok. rewrite get_put. split_and!; try done.
    + intros Hcf. apply Hc2 in Hcf as [_ Hne]. by apply Hne.
    + exists pg. done.
  - safe_step. unfold victim_ok. rewrite get_put. split_and!; try done. intros g. rewrite Hc2. naive_solver.
Qed.

(** Nobody to evict: the assertion on the replacer's answer fails. *)
Lemma replace_round_exhausted held seed s :
  pool_inv held (get_pool s) → (∀ f, ¬ candidate (replacer (get_pool s)) f) →
  replace_round get_pool put_pool try_begin_evict seed s = Crash (AssertFailed 207).
Proof using.
  intros Hb Hno. unfold replace_round, mbind, M_bind, onPool, onReplacer, zoom.
  destruct (wp_inv _ _ _ (tryVictim_law (pool_size (get_pool s)) _ seed (pi_replacer _ _ Hb)))
    as (o & r1 & E & _ & _ & Ho).
  rewrite E. destruct o as [f|]; [|done]. destruct Ho as [Hf _]. by destruct (Hno f).
Qed.

Lemma replace_page_spec held seeds s :
  pool_inv held (get_pool s) → (∃ f, candidate (replacer (get_pool s)) f) →
  (∀ f, ¬ claimed (replacer (get_pool s)) f) →
  safe (replace_page get_pool put_pool try_begin_evict seeds) (λ v s', victim_ok held s (Some v) s') s.
Proof using get_put latch_only.
  revert s. induction seeds as [|seed seeds IH]; intros s Hb Hf Hcl; cbn [replace_page]; [by safe_step|].
  safe_step. eapply safe_mono; [by apply replace_round_spec|]. intros [v|] s1 Hv.
  - by safe_step.
  - destruct Hv as (Hb1 & Hv1 & Ht1 & Hcl1 & Hc1).
    eapply safe_mono; [apply IH; [done| |done]|].
    + destruct Hf as [f Hf]. exists f. by apply Hc1.
    + intros [[v later] f] s2 (Hb2 & Hv2 & Ht2 & Hcl2 & -> & Hm & Hc & ? & ?).
      split_and!; try done; [intros q; by rewrite Hv2|by rewrite Ht2|by apply Hc1].
Qed.
End round.

(** ** The properties *)

(** the frames of the buffer pool are never lost and never shared. In every
    state the calls of the threads can reach, in any order, each frame is free,
    or taken by a thread whose page is still on its way, or has exactly one page
    of the page table; and a frame offered for eviction has a page, which nobody
    has pinned. *)
Theorem buffer_pool_frames r n m b held f :
  0 ≤ n → replacer_inv n r → (∀ g, ¬ candidate r g) → pool_reachable r n m (b, held) → 0 ≤ f < n →
  ((is_free b f ∧ (f ∉ held) ∧ ∀ p, ¬ mapped b p f) ∨
   (¬ is_free b f ∧ f ∈ held ∧ ∀ p, ¬ mapped b p f) ∨
   (¬ is_free b f ∧ (f ∉ held) ∧ ∃ p, mapped b p f ∧ ∀ q, mapped b q f → q = p)) ∧
  (candidate (replacer b) f → ∃ p pg, mapped b p f ∧ frame_page b f = Some pg ∧
    page_id_ pg = p ∧ pin_count_ pg = 0).
Proof using.
  intros Hn Hr Hc Hreach Hf. destruct (pool_reachable_inv r n m b held Hn Hr Hc Hreach) as [Hb Hs].
  assert (is_Some (frame_page b f)) as [pg E].
  { unfold frame_page. rewrite (proj2 (Z.leb_le 0 f)) by lia. apply lookup_lt_is_Some.
    pose proof (pi_size _ _ Hb). lia. }
  assert (∀ p, mapped b p f → page_id_ pg = p ∧ p ≠ INVALID_PAGE_ID) as Hmp.
  { intros p Hp. destruct (pi_table _ _ Hb p f Hp) as (? & pg' & E' & ?). split; congruence. }
  assert (is_free b f → (f ∉ held) ∧ page_id_ pg = INVALID_PAGE_ID) as Hfr.
  { intros [i Hi]. destruct (pi_free _ _ Hb i f Hi) as (? & pg' & E' & ?). split; congruence. }
  assert (f ∈ held → page_id_ pg = INVALID_PAGE_ID) as Hhe.
  { intros Hh. destruct (pi_held _ _ Hb f Hh) as (pg' & E' & ?). congruence. }
  split.
  - destruct (decide (page_id_ pg = INVALID_PAGE_ID)) as [Ei|Hne].
    + assert (∀ p, ¬ mapped b p f) as Hnm by (intros p Hp; destruct (Hmp p Hp); congruence).
      destruct (pi_other _ _ Hb f pg E Ei) as [Hfree|Hh].
      * left. by destruct (Hfr Hfree).
      * right. left. split_and!; [|done|done]. intros Hfree. by destruct (Hfr Hfree).
    + right. right. split_and!; [by intros [_ ?]%Hfr|by intros ?%Hhe|].
      exists (page_id_ pg). split; [by apply (pi_mapped _ _ Hb)|]. intros q Hq. by destruct (Hmp q Hq).
  - intros Hcf. destruct (pi_idle _ _ Hb f Hcf) as (pg' & E' & Hne & Hpin).
    exists (page_id_ pg'), pg'. split_and!; [by apply (pi_mapped _ _ Hb)|done|done|done].
Qed.

Lemma mapped_view (b : Pool) p f : mapped b p f → contents <$> frame_page b f = view b p.
Proof using. unfold mapped, view. by intros ->. Qed.

(** C30: the buffer pool refines a map from pages to contents: whatever the order
    of the calls, each one answers what the map says and changes the map as the
    call means, whichever frames and partitions are involved; and the frame that
    a fetch returns holds the contents of the page asked for. *)
Theorem buffer_pool_refines_map r n m b held c b' held' :
  0 ≤ n → replacer_inv n r → (∀ g, ¬ candidate r g) → pool_reachable r n m (b, held) →
  pool_step c (b, held) (b', held') →
  answer c (view b) ∧ (∀ q, view b' q = effect c (view b) q) ∧
  match c with
  | Fetch p f | TryFetch p (Some f) => contents <$> frame_page b' f = view b p
  | _ => True
  end.
Proof using.
  intros Hn Hr Hc Hreach Hstep. destruct (pool_reachable_inv r n m b held Hn Hr Hc Hreach) as [Hb _].
  destruct (pool_step_sound c b held b' held' Hb Hstep) as [Hb' _ Ha He _].
  split_and!; [done|done|]. destruct c as [p f|p [f|]| | | | | | | | |]; try done; inversion Hstep; subst.
  - match goal with E : fetch_page _ _ = _ |- _ => destruct (fetch_done b p f b' E) as [f' Hp];
      destruct (wp_run _ _ _ _ _ (fetch_page_spec held' b p f' Hb Hp) E) as (-> & Hst & _) end.
    rewrite <- (st_view _ _ _ Hst). apply mapped_view. unfold mapped. by rewrite (st_tables _ _ _ Hst).
  - match goal with E : try_fetch_page _ _ = _ |- _ =>
      destruct (wp_run _ _ _ _ _ (try_fetch_page_spec held' b p Hb) E) as (Hst & Hp & _) end.
    rewrite <- (st_view _ _ _ Hst). apply mapped_view. unfold mapped. by rewrite (st_tables _ _ _ Hst).
Qed.

(** in every reachable state the calls return, no assertion fires: fetching,
    unpinning and releasing a buffered page; looking any page up; taking a frame
    for an absent page, which succeeds exactly when the page's partition has a
    free frame; putting an absent page into a frame taken, or into the frame of
    a victim. *)
Theorem buffer_pool_calls_return r n m b held p :
  0 ≤ n → replacer_inv n r → (∀ g, ¬ candidate r g) → pool_reachable r n m (b, held) →
  wp (try_fetch_page p) (λ o _, is_Some o ↔ is_Some (view b p)) b ∧
  wp (try_fetch_page_ret_string p) (λ o _, o = fst <$> view b p) b ∧
  (∀ f, mapped b p f → wp (fetch_page p) (λ f' _, f' = f) b ∧ wp (unpin_page p) (λ _ _, True) b ∧
     wp (releaseBufferPage zeroed p) (λ _ _, True) b) ∧
  (view b p = None → wp (checkIfDirectlyPutInBuffer p)
     (λ o _, o = None ↔ free_lists b (get_partition_idx p) = []) b) ∧
  (∀ t f held' d, view b p = None → p ≠ INVALID_PAGE_ID → held = f :: held' →
     wp (insert_or_replace t p f false INVALID_PAGE_ID d) (λ _ b', mapped b' p f) b) ∧
  (∀ t f v d, view b p = None → p ≠ INVALID_PAGE_ID → mapped b v f → ¬ candidate (replacer b) f →
     wp (insert_or_replace t p f true v d) (λ _ b', mapped b' p f) b).
Proof using.
  intros Hn Hr Hc Hreach. destruct (pool_reachable_inv r n m b held Hn Hr Hc Hreach) as [Hb _].
  split_and!.
  - eapply wp_mono; [by apply (try_fetch_page_spec held)|]. intros [f|] b' [_ Ho].
    + split; [|done]. intros _. apply (view_Some held b p Hb). destruct Ho. eauto.
    + by destruct Ho as [_ ->].
  - eapply wp_mono; [by apply (try_fetch_string_spec held)|]. by intros o b' [_ ?].
  - intros f Hp. split_and!.
    + eapply wp_mono; [by apply (fetch_page_spec held b p f)|]. by intros f' b' (? & _).
    + eapply wp_mono; [by apply (unpin_page_spec held b p f)|done].
    + eapply wp_mono; [by apply (release_page_spec zeroed held b p f)|done].
  - intros Hv%(view_None held b p Hb). eapply wp_mono; [by apply (take_frame_spec held b p)|].
    intros [f|] b'; [by intros (? & _)|by intros [_ ->]].
  - intros t f held' d Hv%(view_None held b p Hb) Hpi ->.
    eapply wp_mono; [by apply (insert_free_spec held')|]. by intros [] b' (_ & ? & _).
  - intros t f v d Hv%(view_None held b p Hb) Hpi Hm Hnc.
    eapply wp_mono; [apply (insert_replace_spec held b t p f v d Hb Hm Hnc)|].
    + intros ->. unfold mapped in Hm. congruence.
    + done.
    + done.
    + by intros [] b' (_ & ? & _).
Qed.

(** choosing a victim. [replace_page] gives back the page it chose and its
    frame: the frame still has that page, nobody has pinned it, it was a
    candidate and is none any more, and the contents of the pool are what they
    were, however many candidates the latch refused on the way. The larger
    state [S] has the pool as a component, which the latch leaves alone; one
    thread is choosing. *)
Theorem victim_is_idle {S} (get_pool : S → Pool) (put_pool : Pool → S → S) latch held seeds s :
  (∀ b s, get_pool (put_pool b s) = b) →
  (∀ v s, safe (latch v) (λ _ s', get_pool s' = get_pool s) s) →
  pool_inv held (get_pool s) → (∃ f, candidate (replacer (get_pool s)) f) →
  (∀ f, ¬ claimed (replacer (get_pool s)) f) →
  safe (replace_page get_pool put_pool latch seeds) (λ '(v, later, f) s',
    later = v ∧ mapped (get_pool s') v f ∧
    candidate (replacer (get_pool s)) f ∧ ¬ candidate (replacer (get_pool s')) f ∧
    (∃ pg, frame_page (get_pool s') f = Some pg ∧ page_id_ pg = v ∧ pin_count_ pg = 0) ∧
    pool_inv held (get_pool s') ∧ (∀ q, view (get_pool s') q = view (get_pool s) q)) s.
Proof using.
  intros Hgp Hl Hb Hf Hcl. eapply safe_mono; [by apply (replace_page_spec get_pool put_pool latch Hgp Hl held)|].
  intros [[v later] f] s' (Hi & Hv & _ & _ & -> & Hm & Hc & Hnc & pg & E & Hpin).
  split_and!; try done. exists pg. split_and!; [done| |done].
  destruct (pi_table _ _ Hi v f Hm) as (_ & pg' & E' & ?). congruence.
Qed.

(** an exhausted pool. As long as nobody unpins a page (the eager mode never
    does), no frame is ever offered for eviction, and the search for a victim
    fails its assertion instead of waiting for a page to be released. *)
Theorem never_unpinned_exhausts {S} (get_pool : S → Pool) (put_pool : Pool → S → S) latch r n m s held seed :
  0 ≤ n → replacer_inv n r → (∀ g, ¬ candidate r g) →
  star (λ s s', ∃ c, (∀ p, c ≠ Unpin p) ∧ pool_step c s s')
    (new_BufferPool zeroed r n m, []) (get_pool s, held) →
  replace_page get_pool put_pool latch [seed] s = Crash (AssertFailed 207).
Proof using.
  intros Hn Hr Hc Hstar.
  assert (pool_inv held (get_pool s) ∧ ∀ g, ¬ candidate (replacer (get_pool s)) g) as [Hb Hno].
  { change ((λ s : Pool * list Z, pool_inv (snd s) (fst s) ∧ ∀ g, ¬ candidate (replacer (fst s)) g)
      (get_pool s, held)).
    revert Hstar. apply star_invariant; [split; [by apply new_pool_inv|done]|].
    intros [b1 h1] [b2 h2] [Hi Hg] (c & Hu & Hstep). simpl in *.
    destruct (pool_step_sound c b1 h1 b2 h2 Hi Hstep) as [Hi2 _ _ _ Hfw]. split; [done|].
    intros g Hcg. by apply (Hg g), Hfw. }
  unfold replace_page. eapply run_bind_crash. by eapply replace_round_exhausted.
Qed.
End protocol.

(** ** A pool of 32 frames with the LRU replacer *)

Section demo.

(** The pages 0 and 16 share partition 0, which has the two frames 0 and 16. *)
Definition demo_pool : @BufferPool LRU_Replacer Z := new_BufferPool 0 (LRU.new_LRU_Replacer 32) 32 100.

Definition demo1 := after (checkIfDirectlyPutInBuffer 0) demo_pool.
Definition demo2 := after (insert_or_replace 7 0 0 false INVALID_PAGE_ID 11) demo1.
Definition demo3 := after (checkIfDirectlyPutInBuffer 16) demo2.
Definition demo4 := after (insert_or_replace 7 16 16 false INVALID_PAGE_ID 22) demo3.
Definition demo5 := after (unpin_page 0) demo4.
Definition demo6 := after (unpin_page 16) demo5.

Lemma demo_no_candidate f : ¬ candidate (LRU.new_LRU_Replacer 32) f.
Proof. intros Hf. by apply elem_of_nil in Hf. Qed.

Lemma demo_step2 : star (λ s s', ∃ c, (∀ p, c ≠ Unpin p) ∧ pool_step 0 c s s') (demo_pool, []) (demo4, []).
Proof.
  apply (star_snoc _ _ (demo3, [16])).
  2: { exists (Insert 16 22). split; [done|]. apply (ps_insert 0 demo3 [] 7 16 16 22 demo4); [done|].
       unfold demo4. apply run_result. vm_compute. reflexivity. }
  apply (star_snoc _ _ (demo2, [])).
  2: { exists (Take 16 (Some 16)). split; [done|]. apply (ps_take 0 demo2 [] 16 (Some 16) demo3).
       unfold demo3. apply run_result. vm_compute. reflexivity. }
  apply (star_snoc _ _ (demo1, [0])).
  2: { exists (Insert 0 11). split; [done|]. apply (ps_insert 0 demo1 [] 7 0 0 11 demo2); [done|].
       unfold demo2. apply run_result. vm_compute. reflexivity. }
  apply (star_snoc _ _ (demo_pool, [])); [apply star_refl|].
  exists (Take 0 (Some 0)). split; [done|]. apply (ps_take 0 demo_pool [] 0 (Some 0) demo1).
  unfold demo1. apply run_result. vm_compute. reflexivity.
Qed.

Lemma star_sub {A} (R R' : A → A → Prop) a b : (∀ x y, R x y → R' x y) → star R a b → star R' a b.
Proof. intros HR. induction 1; eauto using star. Qed.

Lemma demo_reachable : pool_reachable 0 (LRU.new_LRU_Replacer 32) 32 100 (demo6, []).
Proof.
  apply (star_snoc _ _ (demo5, [])).
  2: { exists (Unpin 16). apply ps_unpin. unfold demo6. apply run_result. vm_compute. reflexivity. }
  apply (star_snoc _ _ (demo4, [])).
  2: { exists (Unpin 0). apply ps_unpin. unfold demo5. apply run_result. vm_compute. reflexivity. }
  eapply star_sub; [|exact demo_step2]. intros x y (c & _ & ?). by exists c.
Qed.

Lemma demo_inv : pool_inv [] demo6.
Proof.
  by apply (pool_reachable_inv 0 (LRU.new_LRU_Replacer 32) 32 100 demo6 []);
    [|apply new_LRU_inv|apply demo_no_candidate|apply demo_reachable].
Qed.

Lemma buffer_pool_frames_witness : ∃ p, mapped demo6 p 16 ∧ ∀ q, mapped demo6 q 16 → q = p.
Proof.
  destruct (proj1 (buffer_pool_frames 0 (LRU.new_LRU_Replacer 32) 32 100 demo6 [] 16 ltac:(done)
    (new_LRU_inv 32 ltac:(done)) demo_no_candidate demo_reachable ltac:(lia)))
    as [(_ & _ & Hn)|[(_ & Hn & _)|(_ & _ & Hp)]].
  - exfalso. apply (Hn 16). vm_compute. reflexivity.
  - exfalso. by apply elem_of_nil in Hn.
  - exact Hp.
Defined.

Definition demo7 := after (fetch_page 16) demo6.

Lemma demo_fetch : pool_step 0 (Fetch 16 16) (demo6, []) (demo7, []).
Proof. apply ps_fetch. unfold demo7. apply run_result. vm_compute. reflexivity. Qed.

Lemma buffer_pool_refines_map_witness :
  view demo6 16 = Some (22, false) ∧ is_Some (view demo6 16) ∧
  contents <$> frame_page demo7 16 = view demo6 16.
Proof.
  pose proof (buffer_pool_refines_map 0 (LRU.new_LRU_Replacer 32) 32 100 demo6 [] (Fetch 16 16)
    demo7 [] ltac:(done) (new_LRU_inv 32 ltac:(done)) demo_no_candidate demo_reachable demo_fetch) as H.
  split; [vm_compute; reflexivity|]. split; [exact (proj1 H)|exact (proj2 (proj2 H))].
Defined.

Lemma buffer_pool_calls_return_witness :
  wp (checkIfDirectlyPutInBuffer 32) (λ o _, o = None ↔ free_lists demo6 (get_partition_idx 32) = []) demo6.
Proof.
  pose proof (buffer_pool_calls_return 0 (LRU.new_LRU_Replacer 32) 32 100 demo6 [] 32 ltac:(done)
    (new_LRU_inv 32 ltac:(done)) demo_no_candidate demo_reachable) as H.
  assert (view demo6 32 = None) as Hv by (vm_compute; reflexivity).
  exact (proj1 (proj2 (proj2 (proj2 H))) Hv).
Defined.

(** The latch refuses page 0, the oldest, and the search goes on. *)
Definition demo_latch (v : Z) : M (@BufferPool LRU_Replacer Z * nat) bool := λ s,
  Done (negb (v =? 0) || (1 <? Z.of_nat (snd s)), (fst s, Datatypes.S (snd s))).

Lemma demo_candidates : lru_lists (replacer demo6) (idx 16) = [16; 0].
Proof. vm_compute. reflexivity. Qed.

Lemma demo_unclaimed f : ¬ claimed (replacer demo6) f.
Proof.
  intros [_ Hf]. assert (is_evicting (replacer demo6) = replicate 32 false) as E by (vm_compute; reflexivity).
  rewrite E in Hf. by apply lookup_replicate_1 in Hf as [? _].
Qed.

Lemma victim_is_idle_witness :
  result (replace_page fst (λ b s, (b, snd s)) demo_latch [0; 0; 0]) (demo6, O) = Some (0, 0, 0) ∧
  safe (replace_page fst (λ b s, (b, snd s)) demo_latch [0; 0; 0])
    (λ '(v, later, f) s', later = v ∧ mapped (fst s') v f ∧ ∀ q, view (fst s') q = view demo6 q) (demo6, O).
Proof.
  split; [vm_compute; reflexivity|].
  eapply safe_mono; [apply (victim_is_idle fst (λ b s, (b, snd s)) demo_latch [] [0; 0; 0] (demo6, O))|].
  - done.
  - done.
  - exact demo_inv.
  - exists 16. change (16 ∈ lru_lists (replacer demo6) (idx 16)). rewrite demo_candidates. by left.
  - exact demo_unclaimed.
  - intros [[v later] f] s' (? & ? & _ & _ & _ & _ & ?). done.
Defined.

(** Pages 0 and 16 in use, partition 0 has no frame left. *)
Lemma never_unpinned_exhausts_witness :
  result (checkIfDirectlyPutInBuffer 32) demo4 = Some None ∧
  replace_page id (λ b _, b) (λ _, mret true) [0] demo4 = Crash (AssertFailed 207).
Proof.
  split; [vm_compute; reflexivity|].
  apply (never_unpinned_exhausts 0 id (λ b _, b) (λ _, mret true) (LRU.new_LRU_Replacer 32) 32 100 demo4 [] 0
    ltac:(done) (new_LRU_inv 32 ltac:(done)) demo_no_candidate demo_step2).
Defined.
End demo.
