(* ===== verification/StorageReplacer.v ===== *)
(** [core/storage/buffer/replacer]: the replacement policy of the buffer pool of
    the storage tier. [StorageReplacer] is the abstract class [Replacer] of the
    code, [StorageReplacerLaws] what [StorageBufferPoolManager] relies on, and
    [LRUReplacer] the implementation.

    Every method is one critical section of [latch_], which it takes and releases
    itself. *)

From S2P Require Import Prelude Common.

Class StorageReplacer (R : Type) := {
  victim : M R (option Z);
  pin : Z → M R unit;
  unpin : Z → M R unit;
  Size : R → Z
}.

(** [evictable r f]: frame [f] may be chosen; [n] is the number of frames. *)
Class StorageReplacerLaws (R : Type) `{!StorageReplacer R} := {
  rep_inv : Z → R → Prop;
  evictable : R → Z → Prop;
  victim_law n r : rep_inv n r →
    wp victim (λ o r', rep_inv n r' ∧ match o with
      | Some f => evictable r f ∧ ∀ g, evictable r' g ↔ evictable r g ∧ g ≠ f
      | None => r' = r ∧ ∀ g, ¬ evictable r g
      end) r;
  pin_law n r f : rep_inv n r →
    wp (pin f) (λ _ r', rep_inv n r' ∧ ∀ g, evictable r' g ↔ evictable r g ∧ g ≠ f) r;
  unpin_law n r f : rep_inv n r → 0 ≤ f < n →
    wp (unpin f) (λ _ r', rep_inv n r' ∧ ∀ g, evictable r' g ↔ evictable r g ∨ g = f) r
}.

(** ** [LRUReplacer] *)

Record LRUReplacer := mkLRUReplacer {
  LRUlist_ : list Z;
  LRUhash_ : gset Z;    (** the keys; the iterators are positions in the list *)
  max_size_ : Z
}.

Module LRUR.

Abbreviation MR := (M LRUReplacer).

Definition new_LRUReplacer (num_pages : Z) : LRUReplacer := mkLRUReplacer [] ∅ num_pages.

Definition Size (r : LRUReplacer) : Z := Z.of_nat (length (LRUlist_ r)).

(** [LRUlist_.back()] and [pop_back()]. *)
Definition victim : MR (option Z) :=
  l ← gets LRUlist_ ;
  match last l with
  | None => mret None
  | Some f =>
      modify (λ r, mkLRUReplacer (LRUlist_ r) (LRUhash_ r ∖ {[f]}) (max_size_ r)) ;;
      modify (λ r, mkLRUReplacer (removelast (LRUlist_ r)) (LRUhash_ r) (max_size_ r)) ;;
      mret (Some f)
  end.

Definition pin (f : Z) : MR unit :=
  h ← gets LRUhash_ ;
  if bool_decide (f ∉ h) then mret tt
  else
    modify (λ r, mkLRUReplacer (list_remove f (LRUlist_ r)) (LRUhash_ r) (max_size_ r)) ;;
    modify (λ r, mkLRUReplacer (LRUlist_ r) (LRUhash_ r ∖ {[f]}) (max_size_ r)).

Definition unpin (f : Z) : MR unit :=
  r ← gets (λ r, r) ;
  if bool_decide (f ∈ LRUhash_ r) then mret tt
  else if Size r =? max_size_ r then mret tt
  else
    modify (λ r, mkLRUReplacer (f :: LRUlist_ r) (LRUhash_ r) (max_size_ r)) ;;
    modify (λ r, mkLRUReplacer (LRUlist_ r) ({[f]} ∪ LRUhash_ r) (max_size_ r)).
End LRUR.

#[export] Instance LRUReplacer_Replacer : StorageReplacer LRUReplacer := {
  victim := LRUR.victim;
  pin := LRUR.pin;
  unpin := LRUR.unpin;
  Size := LRUR.Size
}.

(** ** It satisfies the laws *)

Record lrur_inv (n : Z) (r : LRUReplacer) : Prop := {
  lrr_max : max_size_ r = n;
  lrr_nodup : NoDup (LRUlist_ r);
  lrr_hash : ∀ f, f ∈ LRUhash_ r ↔ f ∈ LRUlist_ r;
  lrr_range : ∀ f, f ∈ LRUlist_ r → 0 ≤ f < n
}.

Lemma new_lrur_inv n : 0 ≤ n → lrur_inv n (LRUR.new_LRUReplacer n).
Proof.
  intros Hn. split; simpl; [done|apply NoDup_nil_2| |by intros f ?%elem_of_nil].
  intros f. split; intros Hf; [by apply not_elem_of_empty in Hf|by apply elem_of_nil in Hf].
Qed.

Lemma lrur_victim n r :
  lrur_inv n r → wp LRUR.victim (λ o r', lrur_inv n r' ∧ match o with
    | Some f => ∃ l, LRUlist_ r = l ++ [f] ∧ LRUlist_ r' = l
    | None => r' = r ∧ LRUlist_ r = []
    end) r.
Proof.
  intros Hr. pose proof Hr as [Hm Hnd Hh Hrg]. unfold LRUR.victim. do 2 wp_step.
  destruct (last (LRUlist_ r)) as [x|] eqn:El; [|wp_step; by apply last_None in El].
  apply last_Some in El as [l0 El]. do 4 wp_step. rewrite El in Hnd.
  apply NoDup_app in Hnd as (Hnd & Hx & _).
  split; [|exists l0; simpl; by rewrite El, removelast_last].
  split; simpl; rewrite ?El, ?removelast_last; [done|done| |].
  - intros f. rewrite elem_of_difference, elem_of_singleton, Hh, El, elem_of_app, list_elem_of_singleton.
    split; [tauto|]. intros Hf. split; [by left|]. intros ->. apply (Hx x Hf). by left.
  - intros f Hf. apply Hrg. rewrite El, elem_of_app. by left.
Qed.

Lemma lrur_pin n r f :
  lrur_inv n r → wp (LRUR.pin f) (λ _ r', lrur_inv n r' ∧ LRUlist_ r' = list_remove f (LRUlist_ r)) r.
Proof.
  intros Hr. pose proof Hr as [Hm Hnd Hh Hrg]. unfold LRUR.pin. do 3 wp_step; bool_simpl.
  - wp_step. split; [done|]. symmetry. apply list_remove_notin. by rewrite <- Hh.
  - do 3 wp_step. split; [|done]. split; simpl; [done|by apply NoDup_list_remove| |].
    + intros g. by rewrite elem_of_list_remove, elem_of_difference, Hh, elem_of_singleton.
    + intros g [Hg _]%elem_of_list_remove. by apply Hrg.
Qed.

Lemma lrur_unpin n r f :
  lrur_inv n r → 0 ≤ f < n →
  wp (LRUR.unpin f) (λ _ r', lrur_inv n r' ∧
    LRUlist_ r' = if decide (f ∈ LRUlist_ r) then LRUlist_ r else f :: LRUlist_ r) r.
Proof.
  intros Hr Hf. pose proof Hr as [Hm Hnd Hh Hrg]. unfold LRUR.unpin. do 3 wp_step; bool_simpl.
  - wp_step. split; [done|]. rewrite decide_True; [done|]. by apply Hh.
  - rewrite Hh in H. rewrite decide_False by done.
    assert (Z.of_nat (length (LRUlist_ r)) < n) as Hlen by by apply (length_missing n _ f).
    wp_step; bool_simpl; [unfold LRUR.Size in *; lia|]. do 3 wp_step. split; [|done].
    split; simpl; [done|by apply NoDup_cons| |].
    + intros g. by rewrite elem_of_union, elem_of_singleton, Hh, elem_of_cons.
    + intros g [->|Hg]%elem_of_cons; [done|by apply Hrg].
Qed.

#[export] Program Instance LRUReplacer_Laws : StorageReplacerLaws LRUReplacer := {
  rep_inv := lrur_inv;
  evictable r f := f ∈ LRUlist_ r
}.
Next Obligation.
  intros n r Hr. eapply wp_mono; [by apply lrur_victim|]. intros [f|] r'.
  - intros (Hi & l & E & E'). split; [done|]. rewrite E, E'. destruct Hr as [_ Hnd _ _]. rewrite E in Hnd.
    apply NoDup_app in Hnd as (_ & Hx & _). split; [rewrite elem_of_app; right; by left|].
    intros g. rewrite elem_of_app, list_elem_of_singleton. split; [|tauto].
    intros Hg. split; [by left|]. intros ->. apply (Hx f Hg). by left.
  - intros (Hi & -> & E). split; [done|]. split; [done|]. rewrite E. by intros g ?%elem_of_nil.
Qed.
Next Obligation.
  intros n r f Hr. eapply wp_mono; [by apply lrur_pin|]. intros [] r' [Hi E]. split; [done|].
  intros g. by rewrite E, elem_of_list_remove.
Qed.
Next Obligation.
  intros n r f Hr Hf. eapply wp_mono; [by apply lrur_unpin|]. intros [] r' [Hi E]. split; [done|].
  intros g. rewrite E. case_decide; [naive_solver|]. rewrite elem_of_cons. tauto.
Qed.
