(* ===== verification/StorageBuffer.v ===== *)
(** [core/storage/buffer/storage_bufferpool.h, storage_bufferpool.cc]: the buffer
    pool of the storage tier, method by method, on top of any replacer that
    satisfies the laws of [StorageReplacerLaws].

    Every public method runs under [latch_], which it takes first and releases on
    leaving. The disk is the file contents that [DiskManager::read_page] and
    [write_page] access through [pread] and [pwrite]: reading a page that a file
    does not have throws. Writes succeed. *)

From stdpp Require Import functions.
From S2P Require Import Prelude Common Page StorageReplacer.

Section storage.
Context {R Data : Type} `{!StorageReplacer R, !StorageReplacerLaws R}.

(** What [reset_memory] leaves. *)
Variable zeroed : Data.

#[local] Abbreviation Page := (Page.Page Data).

Record StorageBufferPoolManager := mkSBP {
  pages_ : list Page;
  page_table_ : gmap PageId Z;
  free_list_ : list Z;
  replacer_ : R;
  disk : gmap PageId Data;
  fd2pageno_ : Z → Z
}.

Abbreviation SBP := StorageBufferPoolManager.
Abbreviation MB := (M StorageBufferPoolManager).

Definition set_pages x s := mkSBP x (page_table_ s) (free_list_ s) (replacer_ s) (disk s) (fd2pageno_ s).
Definition set_table x s := mkSBP (pages_ s) x (free_list_ s) (replacer_ s) (disk s) (fd2pageno_ s).
Definition set_free x s := mkSBP (pages_ s) (page_table_ s) x (replacer_ s) (disk s) (fd2pageno_ s).
Definition set_replacer x s := mkSBP (pages_ s) (page_table_ s) (free_list_ s) x (disk s) (fd2pageno_ s).
Definition set_disk x s := mkSBP (pages_ s) (page_table_ s) (free_list_ s) (replacer_ s) x (fd2pageno_ s).
Definition set_next x s := mkSBP (pages_ s) (page_table_ s) (free_list_ s) (replacer_ s) (disk s) x.

Definition new_SBP (r : R) (pool_size : Z) (d : gmap PageId Data) (next : Z → Z) : SBP :=
  mkSBP
    (replicate (Z.to_nat pool_size)
       (mkPage INVALID_PAGE_ID (INVALID_TABLE_ID, INVALID_PAGE_ID) zeroed false 0))
    ∅ (Z.of_nat <$> seq 0 (Z.to_nat pool_size)) r d next.

(** ** Accesses *)

Definition onReplacer {A} (m : M R A) : MB A := zoom replacer_ set_replacer m.

Definition page_at (f : Z) : MB Page := λ s,
  if 0 <=? f then
    match pages_ s !! Z.to_nat f with
    | Some p => Done (p, s)
    | None => Crash OutOfBounds
    end
  else Crash OutOfBounds.

Definition upd_page (f : Z) (g : Page → Page) : MB unit :=
  modify (λ s, set_pages (alter g (Z.to_nat f) (pages_ s)) s).

(** [DiskManager::write_page]. *)
Definition write_page (p : PageId) (d : Data) : MB unit :=
  modify (λ s, set_disk (<[p := d]> (disk s)) s).

(** [DiskManager::read_page] into the frame; [false]: it throws. *)
Definition read_page (p : PageId) (f : Z) : MB bool :=
  d ← gets (λ s, disk s !! p) ;
  match d with
  | Some d => upd_page f (set_data d) ;; mret true
  | None => mret false
  end.

(** [DiskManager::allocate_page]. *)
Definition MAX_FD : Z := 30000.

Definition allocate_page (table_id : Z) : MB Z :=
  check 98 ((0 <=? table_id) && (table_id <? MAX_FD)) ;;
  n ← gets (λ s, fd2pageno_ s table_id) ;
  modify (λ s, set_next (<[table_id := n + 1]> (fd2pageno_ s)) s) ;;
  mret n.

(** ** The methods *)

Definition find_victim_page : MB (option Z) :=
  l ← gets free_list_ ;
  match l with
  | f :: l' => modify (set_free l') ;; mret (Some f)
  | [] => onReplacer victim
  end.

Definition update_page (f : Z) (new_page_id : PageId) : MB unit :=
  pg ← page_at f ;
  when (is_dirty_ pg) (write_page (id_ pg) (data_ pg) ;; upd_page f (set_dirty false)) ;;
  modify (λ s, set_table (delete (id_ pg) (page_table_ s)) s) ;;
  when (negb (snd new_page_id =? INVALID_PAGE_ID))
    (modify (λ s, set_table (<[new_page_id := f]> (page_table_ s)) s)) ;;
  upd_page f (λ pg, set_id new_page_id (set_data zeroed pg)).

(** The frame of the page; [None] when the read throws. *)
Definition fetch_page (p : PageId) : MB (option Z) :=
  it ← gets (λ s, page_table_ s !! p) ;
  match it with
  | Some f =>
      onReplacer (pin f) ;;
      pg ← page_at f ;
      upd_page f (set_pin (pin_count_ pg + 1)) ;;
      mret (Some f)
  | None =>
      v ← find_victim_page ;
      match v with
      | None => crash (AssertFailed 85)
      | Some f =>
          update_page f p ;;
          pg ← page_at f ;
          ok ← read_page (id_ pg) f ;
          if ok : bool then
            onReplacer (pin f) ;; upd_page f (set_pin 1) ;; mret (Some f)
          else mret None
      end
  end.

Definition unpin_page (p : PageId) (dirty : bool) : MB bool :=
  it ← gets (λ s, page_table_ s !! p) ;
  match it with
  | None => mret false
  | Some f =>
      pg ← page_at f ;
      if pin_count_ pg =? 0 then mret false
      else
        upd_page f (set_pin (pin_count_ pg - 1)) ;;
        when (pin_count_ pg - 1 =? 0) (onReplacer (unpin f)) ;;
        when dirty (upd_page f (set_dirty true)) ;;
        mret true
  end.

Definition flush_page (p : PageId) : MB bool :=
  if snd p =? INVALID_PAGE_ID then mret false
  else
    it ← gets (λ s, page_table_ s !! p) ;
    match it with
    | None => mret false
    | Some f =>
        pg ← page_at f ;
        write_page (id_ pg) (data_ pg) ;;
        upd_page f (set_dirty false) ;;
        mret true
    end.

(** The new page and its frame. *)
Definition new_page (table_id : Z) : MB (option (PageId * Z)) :=
  v ← find_victim_page ;
  match v with
  | None => mret None
  | Some f =>
      n ← allocate_page table_id ;
      update_page f (table_id, n) ;;
      onReplacer (pin f) ;;
      upd_page f (set_pin 1) ;;
      mret (Some ((table_id, n), f))
  end.

Definition delete_page (p : PageId) : MB bool :=
  it ← gets (λ s, page_table_ s !! p) ;
  match it with
  | None => mret true
  | Some f =>
      pg ← page_at f ;
      if 0 <? pin_count_ pg then mret false
      else
        update_page f (fst (id_ pg), INVALID_PAGE_ID) ;;
        modify (λ s, set_free (free_list_ s ++ [f]) s) ;;
        mret true
  end.

(** [for (size_t i = 0; i < pool_size_; i++)]. *)
Definition frames (s : SBP) : list Z := Z.of_nat <$> seq 0 (length (pages_ s)).

Definition for_frames (body : Z → MB unit) : MB unit :=
  l ← gets frames ; for_each body l.

Definition flush_frame (mine : PageId → bool) (f : Z) : MB unit :=
  pg ← page_at f ;
  when (mine (id_ pg) && negb (snd (id_ pg) =? INVALID_PAGE_ID) && is_dirty_ pg)
    (write_page (id_ pg) (data_ pg) ;; upd_page f (set_dirty false)).

Definition flush_file_pages (fd : Z) : MB unit := for_frames (flush_frame (λ p, fst p =? fd)).
Definition flush_all_pages : MB unit := for_frames (flush_frame (λ _, true)).

Definition clear_frame (mine : PageId → bool) (write_back : bool) (new_id : PageId → PageId) (f : Z) : MB unit :=
  pg ← page_at f ;
  when (mine (id_ pg) && negb (snd (id_ pg) =? INVALID_PAGE_ID))
    (when (write_back && is_dirty_ pg)
       (write_page (id_ pg) (data_ pg) ;; upd_page f (set_dirty false)) ;;
     modify (λ s, set_table (delete (id_ pg) (page_table_ s)) s) ;;
     onReplacer (pin f) ;;
     upd_page f (λ pg, mkPage (page_id_ pg) (new_id (id_ pg)) zeroed false 0) ;;
     modify (λ s, set_free (free_list_ s ++ [f]) s)).

Definition clear_file_pages (fd : Z) : MB unit :=
  for_frames (clear_frame (λ p, fst p =? fd) true (λ _, (fd, INVALID_PAGE_ID))).
Definition clear_all_pages : MB unit :=
  for_frames (clear_frame (λ _, true) false (λ p, (fst p, INVALID_PAGE_ID))).

(** A holder of a pin writes through the pointer to the frame. *)
Definition write_frame (f : Z) (d : Data) : MB unit := upd_page f (set_data d).

(** ** The invariant *)

Definition frame (s : SBP) (f : Z) : option Page :=
  if 0 <=? f then pages_ s !! Z.to_nat f else None.

Definition size (s : SBP) : Z := Z.of_nat (length (pages_ s)).

Definition writers (p : PageId) (w : list PageId) : Z := countZ (λ q, bool_decide (q = p)) w.

(** [w]: the pages that a pin holder has written to, or is writing to, and will
    unpin as dirty; once per writer. *)
Record storage_inv (w : list PageId) (s : SBP) : Prop := {
  si_replacer : rep_inv (size s) (replacer_ s);
  si_table : ∀ p f, page_table_ s !! p = Some f →
    snd p ≠ INVALID_PAGE_ID ∧ ∃ pg, frame s f = Some pg ∧ id_ pg = p;
  si_frame : ∀ f pg, frame s f = Some pg →
    0 ≤ pin_count_ pg ∧
    (snd (id_ pg) ≠ INVALID_PAGE_ID ∧ page_table_ s !! id_ pg = Some f ∨
     snd (id_ pg) = INVALID_PAGE_ID ∧ f ∈ free_list_ s ∧ is_dirty_ pg = false ∧ pin_count_ pg = 0);
  si_free : ∀ f, f ∈ free_list_ s → ∃ pg, frame s f = Some pg ∧ snd (id_ pg) = INVALID_PAGE_ID;
  si_free1 : NoDup (free_list_ s);
  (** an unpinned page can be evicted, a pinned one cannot *)
  si_idle : ∀ p f pg, page_table_ s !! p = Some f → frame s f = Some pg →
    evictable (replacer_ s) f ↔ pin_count_ pg = 0;
  si_range : ∀ f, evictable (replacer_ s) f → is_Some (frame s f);
  (** a clean page nobody writes to is on the disk *)
  si_clean : ∀ p f pg, page_table_ s !! p = Some f → frame s f = Some pg →
    is_dirty_ pg = false → p ∉ w → disk s !! p = Some (data_ pg);
  (** a writer has a pin *)
  si_writers : ∀ p, p ∈ w → ∃ f pg, page_table_ s !! p = Some f ∧ frame s f = Some pg ∧
    writers p w ≤ pin_count_ pg
}.

(** ** The abstract contents: what a page holds, in the buffer or on the disk *)

Definition value (s : SBP) (p : PageId) : option Data :=
  match page_table_ s !! p with
  | Some f => data_ <$> frame s f
  | None => disk s !! p
  end.

(** ** Lemmas on the accesses *)

Lemma wp_storage_page f pg (Q : Page → SBP → Prop) s :
  frame s f = Some pg → Q pg s → wp (page_at f) Q s.
Proof using.
  unfold frame, wp, page_at. intros Hf HQ. destruct (0 <=? f); [|done]. by rewrite Hf.
Qed.

Lemma storage_frame_range s f pg : frame s f = Some pg → 0 ≤ f < size s.
Proof using.
  unfold frame, size. destruct (Z.leb_spec 0 f); [|done]. intros Hl%lookup_lt_Some. lia.
Qed.

Lemma frame_some s f : 0 ≤ f < size s → is_Some (frame s f).
Proof using.
  unfold frame, size. intros Hf. rewrite (proj2 (Z.leb_le 0 f)) by lia. apply lookup_lt_is_Some. lia.
Qed.

Lemma frame_alter g s f h :
  0 ≤ f → frame (set_pages (alter g (Z.to_nat f) (pages_ s)) s) h =
    if decide (h = f) then g <$> frame s h else frame s h.
Proof using.
  intros Hf. unfold frame. simpl. destruct (Z.leb_spec 0 h).
  - destruct (decide (h = f)) as [->|Hne].
    + apply list_lookup_alter_eq.
    + apply list_lookup_alter_ne. lia.
  - by case_decide; [lia|].
Qed.

Lemma frame_pages s s' f : pages_ s' = pages_ s → frame s' f = frame s f.
Proof using. unfold frame. by intros ->. Qed.

Lemma mapped_frame w s p f :
  storage_inv w s → page_table_ s !! p = Some f →
  snd p ≠ INVALID_PAGE_ID ∧ ∃ pg, frame s f = Some pg ∧ id_ pg = p ∧ value s p = Some (data_ pg) ∧
    0 ≤ f < size s.
Proof using.
  intros Hs Hp. destruct (si_table _ _ Hs p f Hp) as (Hne & pg & E & Hid). split; [done|].
  exists pg. split_and!; [done|done| |by apply (storage_frame_range s f pg)|by apply (storage_frame_range s f pg)].
  unfold value. by rewrite Hp, E.
Qed.

Lemma storage_mapped_inj w s p q f :
  storage_inv w s → page_table_ s !! p = Some f → page_table_ s !! q = Some f → p = q.
Proof using.
  intros Hs Hp Hq. destruct (si_table _ _ Hs p f Hp) as (_ & pg & E & <-).
  destruct (si_table _ _ Hs q f Hq) as (_ & pg' & E' & <-). congruence.
Qed.

Lemma writers_nonneg p w : 0 ≤ writers p w.
Proof using. apply countZ_nonneg. Qed.

Lemma writers_pos p w : p ∈ w → 0 < writers p w.
Proof using. intros Hp. apply (countZ_pos _ _ p Hp). by apply bool_decide_eq_true. Qed.

Lemma writers_cons p q w : writers p (q :: w) = (if decide (q = p) then 1 else 0) + writers p w.
Proof using.
  unfold writers. rewrite countZ_cons. destruct (decide (q = p)) as [->|?].
  - by rewrite bool_decide_eq_true_2.
  - by rewrite bool_decide_eq_false_2.
Qed.

Lemma unpinned_unwritten w s p f pg :
  storage_inv w s → page_table_ s !! p = Some f → frame s f = Some pg → pin_count_ pg = 0 → p ∉ w.
Proof using.
  intros Hs Hp E Hpin Hw. destruct (si_writers _ _ Hs p Hw) as (f' & pg' & Hp' & E' & Hle).
  pose proof (writers_pos p w Hw). assert (f' = f) as -> by congruence.
  assert (pg' = pg) as -> by congruence. lia.
Qed.

(** ** Steps that keep every page where it is

    The frame [f] of page [p] changes its contents, dirty bit or pin count; the
    disk may change for [p]. *)

Record touched (f : Z) (pg' : Page) (s s' : SBP) : Prop := {
  to_frame : ∀ h, frame s' h = if decide (h = f) then Some pg' else frame s h;
  to_size : size s' = size s;
  to_table : page_table_ s' = page_table_ s;
  to_free : free_list_ s' = free_list_ s
}.

Lemma touched_inv w w' p f pg pg' s s' :
  storage_inv w s → page_table_ s !! p = Some f → frame s f = Some pg → touched f pg' s s' →
  id_ pg' = p → 0 ≤ pin_count_ pg' →
  rep_inv (size s) (replacer_ s') →
  (∀ g, g ≠ f → evictable (replacer_ s') g ↔ evictable (replacer_ s) g) →
  (evictable (replacer_ s') f ↔ pin_count_ pg' = 0) →
  (∀ q, q ≠ p → disk s' !! q = disk s !! q) →
  (is_dirty_ pg' = false → p ∉ w' → disk s' !! p = Some (data_ pg')) →
  (∀ q, q ≠ p → q ∈ w' ↔ q ∈ w) → (∀ q, q ≠ p → writers q w' = writers q w) →
  (p ∈ w' → writers p w' ≤ pin_count_ pg') →
  storage_inv w' s' ∧ (∀ q, value s' q = if decide (q = p) then Some (data_ pg') else value s q).
Proof using.
  intros Hs Hp E [Hfr Hsz Ht Hfl] Hid Hpin Hr Hev Hevf Hd Hclean Hw Hcount Hwp.
  assert (∀ q h, q ≠ p → page_table_ s !! q = Some h → h ≠ f) as Hdis.
  { intros q h Hne Hq ->. by destruct Hne; apply (storage_mapped_inj w s q p f). }
  assert (frame s' f = Some pg') as E' by by rewrite Hfr, decide_True.
  assert (∀ h, h ≠ f → frame s' h = frame s h) as Hoth by (intros h ?; by rewrite Hfr, decide_False).
  destruct (si_table _ _ Hs p f Hp) as (Hpv & pg0 & E0 & Hid0).
  assert (pg0 = pg) as -> by congruence.
  split; [split|].
  - by rewrite Hsz.
  - intros q h. rewrite Ht. intros Hq. destruct (si_table _ _ Hs q h Hq) as (? & pgq & Eq & Hidq).
    split; [done|]. destruct (decide (h = f)) as [->|Hne].
    + exists pg'. split; [done|]. rewrite Hid. congruence.
    + exists pgq. by rewrite Hoth.
  - intros h pgh Eh. rewrite Ht, Hfl. destruct (decide (h = f)) as [->|Hne].
    + assert (pgh = pg') as -> by congruence. split; [done|]. left. by rewrite Hid.
    + rewrite Hoth in Eh by done. by apply (si_frame _ _ Hs).
  - intros h. rewrite Hfl. intros Hh. destruct (si_free _ _ Hs h Hh) as (pgh & Eh & ?).
    exists pgh. rewrite Hoth; [done|]. intros ->. congruence.
  - rewrite Hfl. apply Hs.
  - intros q h pgh. rewrite Ht. intros Hq Eh. destruct (decide (h = f)) as [->|Hne].
    + assert (pgh = pg') as -> by congruence. done.
    + rewrite Hoth in Eh by done. rewrite Hev by done. by apply (si_idle _ _ Hs q).
  - intros h Hh. destruct (decide (h = f)) as [->|Hne]; [by eexists|]. rewrite Hoth by done.
    apply (si_range _ _ Hs). by apply Hev.
  - intros q h pgh. rewrite Ht. intros Hq Eh Hc Hqw. destruct (decide (q = p)) as [->|Hne].
    + assert (h = f) as -> by congruence. assert (pgh = pg') as -> by congruence. by apply Hclean.
    + rewrite Hoth in Eh by by eapply Hdis. rewrite Hd by done. apply (si_clean _ _ Hs q h pgh Hq Eh Hc).
      by rewrite <- Hw.
  - intros q Hq. rewrite Ht. destruct (decide (q = p)) as [->|Hne].
    + exists f, pg'. split_and!; [done|done|]. by apply Hwp.
    + apply Hw in Hq; [|done]. destruct (si_writers _ _ Hs q Hq) as (h & pgh & Hqh & Eh & Hle).
      exists h, pgh. rewrite Hoth by by eapply Hdis. by rewrite Hcount.
  - intros q. unfold value. rewrite Ht. case_decide as Hq.
    + subst q. rewrite Hp. by rewrite E'.
    + destruct (page_table_ s !! q) as [h|] eqn:Eq; [by rewrite Hoth by by eapply Hdis|by apply Hd].
Qed.

(** Same contents for every page. *)
Definition same_values (s s' : SBP) : Prop := ∀ q, value s' q = value s q.

Lemma same_value p f pg d s s' :
  page_table_ s !! p = Some f → frame s f = Some pg → d = data_ pg →
  (∀ q, value s' q = if decide (q = p) then Some d else value s q) → same_values s s'.
Proof using.
  intros Hp E -> Hv q. rewrite Hv. case_decide as Hq; [|done]. subst. unfold value. by rewrite Hp, E.
Qed.

Lemma fetch_hit_spec w s p f pg :
  storage_inv w s → page_table_ s !! p = Some f → frame s f = Some pg →
  wp (fetch_page p) (λ o s', o = Some f ∧ storage_inv w s' ∧ same_values s s' ∧
    touched f (set_pin (pin_count_ pg + 1) pg) s s') s.
Proof using.
  intros Hs Hp E. pose proof (storage_frame_range _ _ _ E) as Hrg. unfold fetch_page, upd_page, onReplacer.
  do 2 wp_step. rewrite Hp. do 2 wp_step.
  eapply wp_mono; [by apply (pin_law (size s)), Hs|]. intros [] r (Hr & Hev).
  wp_step. apply (wp_storage_page f pg); [done|]. do 3 wp_step.
  match goal with |- _ ∧ storage_inv w ?s' ∧ _ => set (s1 := s') end.
  assert (touched f (set_pin (pin_count_ pg + 1) pg) s s1) as Hto.
  { split; [|unfold size, s1; simpl; by rewrite length_alter|done|done].
    intros h. unfold s1. rewrite frame_alter by lia. change (frame (set_replacer r s) h) with (frame s h).
    case_decide; [subst; by rewrite E|done]. }
  split; [done|]. destruct (si_frame _ _ Hs f pg E) as [Hpin _].
  destruct (si_table _ _ Hs p f Hp) as (_ & pg0 & E0 & Hid). assert (pg0 = pg) as -> by congruence.
  destruct (touched_inv w w p f pg (set_pin (pin_count_ pg + 1) pg) s s1 Hs Hp E Hto) as [Hi Hv]; try done.
  - simpl. lia.
  - intros g Hg. simpl. rewrite Hev. tauto.
  - simpl. rewrite Hev. split; [tauto|lia].
  - intros Hc Hw. by apply (si_clean _ _ Hs p f pg).
  - intros Hw. destruct (si_writers _ _ Hs p Hw) as (f' & pg' & Hp' & E' & Hle).
    assert (f' = f) as -> by congruence. assert (pg' = pg) as -> by congruence. simpl. lia.
  - split_and!; [done| |done]. by apply (same_value p f pg _ s s1 Hp E eq_refl).
Qed.

(** The pages with one writer less. *)
Fixpoint drop_writer (p : PageId) (w : list PageId) : list PageId :=
  match w with
  | [] => []
  | q :: w' => if decide (q = p) then w' else q :: drop_writer p w'
  end.

Lemma drop_writer_other p q w : q ≠ p → q ∈ drop_writer p w ↔ q ∈ w.
Proof using.
  intros Hne. induction w as [|x w IH]; [done|]. simpl. case_decide; subst; rewrite ?elem_of_cons; naive_solver.
Qed.

Lemma drop_writer_count p q w :
  p ∈ w → writers q (drop_writer p w) = writers q w - if decide (q = p) then 1 else 0.
Proof using.
  induction w as [|x w IH]; [by intros ?%elem_of_nil|]. simpl. rewrite elem_of_cons, writers_cons.
  intros Hp. destruct (decide (x = p)) as [->|Hx].
  - destruct (decide (p = q)), (decide (q = p)); try congruence; lia.
  - rewrite writers_cons, IH by naive_solver. destruct (decide (x = q)), (decide (q = p)); try congruence; lia.
Qed.

(** What an unpin does to the writers: a dirty one may end a write. *)
Definition unpinned_writers (p : PageId) (dirty : bool) (w w' : list PageId) (pins : Z) : Prop :=
  (w' = w ∧ writers p w < pins) ∨ (dirty = true ∧ p ∈ w ∧ w' = drop_writer p w).

Lemma unpin_hit_spec w w' s p f pg dirty :
  storage_inv w s → page_table_ s !! p = Some f → frame s f = Some pg → pin_count_ pg ≠ 0 →
  unpinned_writers p dirty w w' (pin_count_ pg) →
  wp (unpin_page p dirty) (λ r s', r = true ∧ storage_inv w' s' ∧ same_values s s' ∧
    touched f (set_dirty (dirty || is_dirty_ pg) (set_pin (pin_count_ pg - 1) pg)) s s') s.
Proof using.
  intros Hs Hp E Hpin Hw. pose proof (storage_frame_range _ _ _ E) as Hrg.
  destruct (si_frame _ _ Hs f pg E) as [Hpin0 _].
  destruct (si_table _ _ Hs p f Hp) as (_ & pg0 & E0 & Hid). assert (pg0 = pg) as -> by congruence.
  set (pg' := set_dirty (dirty || is_dirty_ pg) (set_pin (pin_count_ pg - 1) pg)).
  assert (∀ q, q ≠ p → q ∈ w' ↔ q ∈ w) as Hw1.
  { intros q Hq. destruct Hw as [[-> _]|(_ & _ & ->)]; [done|by apply drop_writer_other]. }
  assert (∀ q, q ≠ p → writers q w' = writers q w) as Hw2.
  { intros q Hq. destruct Hw as [[-> _]|(_ & Hin & ->)]; [done|].
    rewrite drop_writer_count, decide_False by done. lia. }
  assert (p ∈ w → writers p w ≤ pin_count_ pg) as Hw0.
  { intros Hin. destruct (si_writers _ _ Hs p Hin) as (f' & pg1 & Hp' & E' & Hle).
    assert (f' = f) as -> by congruence. by assert (pg1 = pg) as -> by congruence. }
  unfold unpin_page, upd_page, onReplacer. do 2 wp_step. rewrite Hp. wp_step.
  apply (wp_storage_page f pg); [done|]. wp_step; bool_simpl; [done|]. do 3 wp_step.
  set (s1 := set_pages _ s).
  eapply wp_mono with (Q := λ (_ : unit) s2, ∃ r, s2 = set_replacer r s1 ∧ rep_inv (size s) r ∧
    (∀ g, evictable r g ↔ evictable (replacer_ s) g ∨ (g = f ∧ pin_count_ pg = 1))).
  { wp_step; bool_simpl.
    - wp_step. eapply wp_mono; [apply (unpin_law (size s)); [apply Hs|done]|].
      intros [] r (Hr & Hev). exists r. split_and!; [done|done|]. intros g. rewrite Hev. simpl.
      split; [|tauto]. intros [?|?]; [by left|right; split; [done|lia]].
    - exists (replacer_ s). split_and!; [by destruct s|apply Hs|]. intros g. split; [by left|].
      intros [?|[_ ?]]; [done|lia]. }
  intros [] s2 (r & -> & Hr & Hev). wp_step.
  eapply wp_mono with (Q := λ (_ : unit) s3, touched f pg' s s3 ∧ replacer_ s3 = r ∧ disk s3 = disk s).
  - assert (∀ h, frame s1 h = if decide (h = f) then Some (set_pin (pin_count_ pg - 1) pg) else frame s h) as Hf1.
    { intros h. unfold s1. rewrite frame_alter by lia. case_decide; [subst; by rewrite E|done]. }
    wp_step; subst dirty.
    + wp_step. split_and!; [|done|done]. split; [|unfold size; simpl; by rewrite !length_alter|done|done].
      intros h. rewrite frame_alter by lia. change (frame (set_replacer r s1) h) with (frame s1 h).
      rewrite Hf1. case_decide; [done|]. done.
    + split_and!; [|done|done]. split; [|unfold size; simpl; by rewrite length_alter|done|done].
      intros h. change (frame (set_replacer r s1) h) with (frame s1 h). rewrite Hf1.
      unfold pg'. simpl. case_decide; [|done]. by destruct pg.
  - intros [] s3 (Hto & Hr3 & Hd3). wp_step.
    destruct (touched_inv w w' p f pg pg' s s3 Hs Hp E Hto) as [Hi Hv]; try done.
    + unfold pg'. simpl. lia.
    + by rewrite Hr3.
    + intros g Hg. rewrite Hr3, Hev. naive_solver.
    + rewrite Hr3, Hev, (si_idle _ _ Hs p f pg Hp E). unfold pg'. simpl. split; [|lia].
      intros [?|[_ ?]]; lia.
    + intros q _. by rewrite Hd3.
    + unfold pg'. simpl. intros [-> Hc]%orb_false_iff Hin. rewrite Hd3.
      destruct Hw as [[-> _]|[? _]]; [|done]. by apply (si_clean _ _ Hs p f pg).
    + intros Hin. unfold pg'. simpl. destruct Hw as [[-> Hlt]|(_ & Hin' & ->)]; [lia|].
      rewrite drop_writer_count, decide_True by done. specialize (Hw0 Hin'). lia.
    + split_and!; [done|done| |done]. by apply (same_value p f pg _ s s3 Hp E eq_refl).
Qed.

(** Writing a frame back. *)
Record flushed (p : PageId) (f : Z) (w : list PageId) (s s' : SBP) : Prop := {
  fl_inv : storage_inv w s';
  fl_values : same_values s s';
  fl_disk : disk s' !! p = value s p;
  fl_others : ∀ q, q ≠ p → disk s' !! q = disk s !! q;
  fl_table : page_table_ s' = page_table_ s;
  fl_size : size s' = size s;
  fl_frame : ∀ h, frame s' h = if decide (h = f) then set_dirty false <$> frame s h else frame s h
}.

Lemma write_back_spec w s p f pg :
  storage_inv w s → page_table_ s !! p = Some f → frame s f = Some pg →
  wp (write_page (id_ pg) (data_ pg) ;; upd_page f (set_dirty false)) (λ _ s', flushed p f w s s') s.
Proof using.
  intros Hs Hp E. pose proof (storage_frame_range _ _ _ E) as Hrg. unfold upd_page, write_page.
  destruct (si_table _ _ Hs p f Hp) as (_ & pg0 & E0 & Hid). assert (pg0 = pg) as -> by congruence.
  do 3 wp_step. match goal with |- flushed _ _ _ _ ?s' => set (s1 := s') end.
  assert (∀ h, frame s1 h = if decide (h = f) then set_dirty false <$> frame s h else frame s h) as Hfr.
  { intros h. unfold s1. by rewrite frame_alter by lia. }
  assert (touched f (set_dirty false pg) s s1) as Hto.
  { split; [|unfold size, s1; simpl; by rewrite length_alter|done|done].
    intros h. rewrite Hfr. case_decide; [subst; by rewrite E|done]. }
  destruct (si_frame _ _ Hs f pg E) as [Hpin _].
  destruct (touched_inv w w p f pg (set_dirty false pg) s s1 Hs Hp E Hto) as [Hi Hv]; try done.
  - apply Hs.
  - by apply (si_idle _ _ Hs p f pg).
  - intros q Hq. simpl. rewrite lookup_insert_ne; [done|]. by rewrite Hid.
  - intros _ _. simpl. by rewrite Hid, lookup_insert_eq.
  - intros Hw. destruct (si_writers _ _ Hs p Hw) as (f' & pg' & Hp' & E' & Hle).
    assert (f' = f) as -> by congruence. by assert (pg' = pg) as -> by congruence.
  - split; [done|by apply (same_value p f pg _ s s1 Hp E eq_refl)| | |done|apply Hto|done].
    + simpl. rewrite Hid, lookup_insert_eq. unfold value. by rewrite Hp, E.
    + intros q Hq. simpl. rewrite lookup_insert_ne; [done|]. by rewrite Hid.
Qed.

(** A writer changes the contents of its page. *)
Lemma write_frame_spec w s p f pg d :
  storage_inv w s → page_table_ s !! p = Some f → frame s f = Some pg → p ∈ w →
  wp (write_frame f d) (λ _ s', storage_inv w s' ∧ touched f (set_data d pg) s s' ∧
    ∀ q, value s' q = if decide (q = p) then Some d else value s q) s.
Proof using.
  intros Hs Hp E Hw. pose proof (storage_frame_range _ _ _ E) as Hrg. unfold write_frame, upd_page. wp_step.
  set (s1 := set_pages _ s).
  assert (touched f (set_data d pg) s s1) as Hto.
  { split; [|unfold size, s1; simpl; by rewrite length_alter|done|done].
    intros h. unfold s1. rewrite frame_alter by lia. case_decide; [subst; by rewrite E|done]. }
  destruct (si_frame _ _ Hs f pg E) as [Hpin _].
  destruct (si_table _ _ Hs p f Hp) as (_ & pg0 & E0 & Hid). assert (pg0 = pg) as -> by congruence.
  destruct (touched_inv w w p f pg (set_data d pg) s s1 Hs Hp E Hto) as [Hi Hv]; try done.
  - apply Hs.
  - by apply (si_idle _ _ Hs p f pg).
  - destruct (si_writers _ _ Hs p Hw) as (f' & pg' & Hp' & E' & Hle).
    assert (f' = f) as -> by congruence. by assert (pg' = pg) as -> by congruence.
Qed.

(** ** A frame receives another page *)

(** [find_victim_page]: a free frame, or, when none is left, an unpinned one. *)
Definition picked (s : SBP) (f : Z) (pg : Page) (s' : SBP) : Prop :=
  frame s f = Some pg ∧ pin_count_ pg = 0 ∧ pages_ s' = pages_ s ∧ page_table_ s' = page_table_ s ∧
  disk s' = disk s ∧ rep_inv (size s) (replacer_ s') ∧
  (∀ g, g ≠ f → evictable (replacer_ s') g ↔ evictable (replacer_ s) g) ∧
  (free_list_ s = f :: free_list_ s' ∧ snd (id_ pg) = INVALID_PAGE_ID ∧ is_dirty_ pg = false ∨
   free_list_ s = [] ∧ free_list_ s' = [] ∧ page_table_ s !! id_ pg = Some f).

Lemma find_victim_spec w s :
  storage_inv w s →
  wp find_victim_page (λ o s', match o with
    | Some f => fd2pageno_ s' = fd2pageno_ s ∧ ∃ pg, picked s f pg s'
    | None => s' = s ∧ free_list_ s = [] ∧ ∀ p f pg, page_table_ s !! p = Some f → frame s f = Some pg →
        pin_count_ pg ≠ 0
    end) s.
Proof using.
  intros Hs. unfold find_victim_page, onReplacer. do 2 wp_step. destruct (free_list_ s) as [|f l] eqn:El.
  - wp_step. eapply wp_mono; [by apply (victim_law (size s)), Hs|]. intros [f|] r (Hr & Ho).
    + split; [done|]. destruct Ho as [Hf Hev]. destruct (si_range _ _ Hs f Hf) as [pg E].
      destruct (si_frame _ _ Hs f pg E) as [_ [[Hne Hp]|(_ & Hfree & _)]].
      * exists pg. split_and!; try done; [by apply (si_idle _ _ Hs (id_ pg) f pg Hp E)| |right; done].
        intros g Hg. simpl. rewrite Hev. tauto.
      * rewrite El in Hfree. by apply elem_of_nil in Hfree.
    + destruct Ho as [-> Hno]. split_and!; [by destruct s|done|]. intros p f pg Hp E Hpin.
      by apply (Hno f), (si_idle _ _ Hs p f pg).
  - do 3 wp_step. assert (f ∈ free_list_ s) as Hf by (rewrite El; by left).
    destruct (si_free _ _ Hs f Hf) as (pg & E & Hid).
    destruct (si_frame _ _ Hs f pg E) as [_ [[? _]|(_ & _ & Hd & Hpin)]]; [done|].
    split; [done|]. exists pg. split_and!; try done; [apply Hs|left; done].
Qed.

(** The frame [f], picked in [s], has the page [p] with contents [d], is clean
    and has [pins] pins; its old page is written back if it was dirty. *)
Record installed (f : Z) (pg : Page) (p : PageId) (d : Data) (pins : Z) (s s0 s' : SBP) : Prop := {
  in_frame : ∀ h, frame s' h =
    if decide (h = f) then Some (mkPage (page_id_ pg) p d false pins) else frame s h;
  in_size : size s' = size s;
  in_table : page_table_ s' = <[p := f]> (delete (id_ pg) (page_table_ s));
  in_free : free_list_ s' = free_list_ s0;
  in_disk : disk s' = if is_dirty_ pg then <[id_ pg := data_ pg]> (disk s) else disk s
}.

Lemma wp_update_page f pg p (Q : unit → SBP → Prop) s s0 :
  picked s f pg s0 → snd p ≠ INVALID_PAGE_ID →
  (∀ s', installed f pg p zeroed (pin_count_ pg) s s0 s' → replacer_ s' = replacer_ s0 →
     fd2pageno_ s' = fd2pageno_ s0 → Q tt s') →
  wp (update_page f p) Q s0.
Proof using.
  intros (E & Hpin & Epg & Et & Ed & _) Hp HQ. pose proof (storage_frame_range _ _ _ E) as Hrg.
  assert (∀ h, frame s0 h = frame s h) as Hfr by (intros h; by apply frame_pages).
  unfold update_page, write_page, upd_page. wp_step. apply (wp_storage_page f pg); [by rewrite Hfr|]. wp_step.
  eapply wp_mono with (Q := λ (_ : unit) s1, page_table_ s1 = page_table_ s ∧ free_list_ s1 = free_list_ s0 ∧
    replacer_ s1 = replacer_ s0 ∧ fd2pageno_ s1 = fd2pageno_ s0 ∧ size s1 = size s ∧
    (∀ h, frame s1 h = if decide (h = f) then Some (set_dirty false pg) else frame s h) ∧
    disk s1 = if is_dirty_ pg then <[id_ pg := data_ pg]> (disk s) else disk s).
  { wp_step.
    - do 3 wp_step. rewrite H. split_and!; try done.
      + unfold size. simpl. rewrite length_alter. by rewrite Epg.
      + intros h. rewrite frame_alter by lia. change (frame (set_disk ?x s0) h) with (frame s0 h).
        rewrite Hfr. case_decide; [subst; by rewrite E|done].
      + simpl. by rewrite Ed.
    - rewrite H. split_and!; try done.
      + unfold size. by rewrite Epg.
      + intros h. rewrite Hfr. case_decide; [|done]. subst. rewrite E. destruct pg. simpl in *. by subst. }
  intros [] s1 (Ht1 & Hf1 & Hr1 & Hn1 & Hs1 & Hfr1 & Hd1). do 3 wp_step.
  rewrite (proj2 (Z.eqb_neq _ _) Hp). cbn [negb when]. do 2 wp_step. apply HQ; [|done|done]. split.
  - intros h. rewrite frame_alter by lia.
    change (frame (set_table ?x (set_table ?y s1)) h) with (frame s1 h). rewrite Hfr1.
    by case_decide.
  - unfold size. simpl. rewrite length_alter. exact Hs1.
  - simpl. by rewrite Ht1.
  - exact Hf1.
  - exact Hd1.
Qed.

(** The page the frame had, if any, was not being written. *)
Lemma picked_old w s f pg s0 :
  storage_inv w s → picked s f pg s0 →
  (snd (id_ pg) = INVALID_PAGE_ID ∧ is_dirty_ pg = false ∧ page_table_ s !! id_ pg = None) ∨
  (page_table_ s !! id_ pg = Some f ∧ snd (id_ pg) ≠ INVALID_PAGE_ID ∧ id_ pg ∉ w).
Proof using.
  intros Hs (E & Hpin & _ & _ & _ & _ & _ & [(_ & Hi & Hd)|(_ & _ & Ht)]).
  - left. split_and!; [done|done|]. destruct (page_table_ s !! id_ pg) as [h|] eqn:Eh; [|done].
    by destruct (si_table _ _ Hs _ _ Eh).
  - right. split_and!; [done|by destruct (si_table _ _ Hs _ _ Ht)|].
    by apply (unpinned_unwritten w s (id_ pg) f pg).
Qed.

Lemma installed_inv w w' f pg p d s s0 s' :
  storage_inv w s → picked s f pg s0 → page_table_ s !! p = None → snd p ≠ INVALID_PAGE_ID →
  installed f pg p d 1 s s0 s' →
  rep_inv (size s) (replacer_ s') →
  (∀ g, evictable (replacer_ s') g ↔ evictable (replacer_ s0) g ∧ g ≠ f) →
  (w' = w ∧ disk s !! p = Some d) ∨ w' = p :: w →
  storage_inv w' s' ∧ (∀ q, value s' q = if decide (q = p) then Some d else value s q).
Proof using.
  intros Hs Hpick Hp Hpv Hin Hr Hev Hw. pose proof (picked_old w s f pg s0 Hs Hpick) as Hold.
  destruct Hpick as (E & Hpin & _ & _ & _ & _ & Hev0 & Hchoice). destruct Hin as [Hfr Hsz Ht Hfl Hd].
  assert (p ∉ w) as Hpw.
  { intros Hin. destruct (si_writers _ _ Hs p Hin) as (f' & ? & Hp' & _). congruence. }
  assert (p ≠ id_ pg) as Hpo by (intros ->; destruct Hold as [(? & _)|(? & _)]; congruence).
  assert (∀ q h, page_table_ s' !! q = Some h ↔ (q = p ∧ h = f) ∨
    (q ≠ p ∧ q ≠ id_ pg ∧ page_table_ s !! q = Some h)) as Hmap.
  { intros q h. rewrite Ht, lookup_insert_Some, lookup_delete_Some. naive_solver. }
  assert (∀ q h, q ≠ id_ pg → page_table_ s !! q = Some h → h ≠ f) as Hdis.
  { intros q h Hne Hq ->. destruct (si_table _ _ Hs q f Hq) as (? & pg' & E' & ?). congruence. }
  assert (∀ h, h ≠ f → frame s' h = frame s h) as Hoth by (intros h ?; by rewrite Hfr, decide_False).
  assert (∀ h, h ∈ free_list_ s' ↔ h ∈ free_list_ s ∧ h ≠ f) as Hfree.
  { intros h. rewrite Hfl. destruct Hchoice as [(El & _)|(El & -> & Ht0)].
    - pose proof (si_free1 _ _ Hs) as Hnd. rewrite El in Hnd |- *. apply NoDup_cons in Hnd as [Hn _].
      rewrite elem_of_cons. naive_solver.
    - rewrite El. split; [by intros ?%elem_of_nil|by intros [?%elem_of_nil _]]. }
  assert (∀ g, g ≠ f → evictable (replacer_ s') g ↔ evictable (replacer_ s) g) as Hevo.
  { intros g Hg. rewrite Hev, Hev0 by done. tauto. }
  assert (∀ q, q ≠ id_ pg → disk s' !! q = disk s !! q) as Hdisk.
  { intros q Hq. rewrite Hd. case_match; [by rewrite lookup_insert_ne|done]. }
  split; [split|].
  - by rewrite Hsz.
  - intros q h [[-> ->]|(Hne & Hno & Hq)]%Hmap.
    + split; [done|]. rewrite Hfr, decide_True by done. eauto.
    + destruct (si_table _ _ Hs q h Hq) as (? & pgq & Eq & ?). split; [done|]. exists pgq.
      by rewrite Hoth by by eapply Hdis.
  - intros h pgh. destruct (decide (h = f)) as [->|Hne].
    + rewrite Hfr, decide_True by done. intros [= <-]. split; [done|]. left. split; [done|]. apply Hmap. by left.
    + rewrite Hoth by done. intros Eh. destruct (si_frame _ _ Hs h pgh Eh) as [? [[Hnv Hq]|(? & Hf & ?)]];
        (split; [done|]).
      * left. split; [done|]. apply Hmap. right. split_and!; [intros Eq; rewrite Eq in Hq; congruence| |done].
        intros Eq. rewrite Eq in Hq, Hnv. destruct Hold as [(? & _)|(? & _)]; congruence.
      * right. split_and!; try tauto. by apply Hfree.
  - intros h [Hh Hne]%Hfree. rewrite Hoth by done. by apply (si_free _ _ Hs).
  - rewrite Hfl. pose proof (si_free1 _ _ Hs) as Hnd. destruct Hchoice as [(El & _)|(_ & -> & _)].
    + rewrite El in Hnd. by apply NoDup_cons in Hnd as [_ ?].
    + apply NoDup_nil_2.
  - intros q h pgh [[-> ->]|(Hne & Hno & Hq)]%Hmap.
    + rewrite Hfr, decide_True by done. intros [= <-]. rewrite Hev. simpl. split; [tauto|done].
    + assert (h ≠ f) by by eapply Hdis. rewrite Hoth, Hevo by done. by apply (si_idle _ _ Hs q).
  - intros h [Hh Hne]%Hev. rewrite Hoth by done. apply (si_range _ _ Hs). by apply Hev0.
  - intros q h pgh [[-> ->]|(Hne & Hno & Hq)]%Hmap.
    + rewrite Hfr, decide_True by done. intros [= <-] _ Hqw. rewrite Hdisk by done.
      destruct Hw as [[-> ?]| ->]; [done|]. destruct Hqw. by left.
    + rewrite Hoth, Hdisk by (done || by eapply Hdis). intros Eh Hc Hqw.
      apply (si_clean _ _ Hs q h pgh Hq Eh Hc). destruct Hw as [[-> _]| ->]; [done|].
      intros Hin. apply Hqw. by right.
  - intros q Hq. assert (q = p ∧ w' = p :: w ∨ q ≠ p ∧ q ∈ w) as [[-> ->]|[Hne Hqw]].
    { destruct (decide (q = p)) as [->|?].
      - destruct Hw as [[-> _]| ->]; [done|by left].
      - right. split; [done|]. destruct Hw as [[-> _]| ->]; [done|]. by apply elem_of_cons in Hq as [?|?]. }
    + exists f, (mkPage (page_id_ pg) p d false 1). rewrite Hfr, decide_True by done.
      split_and!; [apply Hmap; by left|done|]. rewrite writers_cons, decide_True by done. simpl.
      unfold writers. rewrite countZ_none; [done|].
      intros x Hx. apply bool_decide_eq_false. by intros ->.
    + destruct (si_writers _ _ Hs q Hqw) as (h & pgh & Hqh & Eh & Hle).
      assert (q ≠ id_ pg) as Hqo.
      { intros ->. destruct Hold as [(? & _)|(_ & _ & ?)]; [|done].
        by destruct (si_table _ _ Hs _ _ Hqh). }
      exists h, pgh. rewrite Hoth by by eapply Hdis. split_and!; [apply Hmap; by right|done|].
      destruct Hw as [[-> _]| ->]; [done|]. rewrite writers_cons, decide_False by done. lia.
  - intros q. unfold value at 1. destruct (page_table_ s' !! q) as [h|] eqn:Eq.
    + apply Hmap in Eq as [[-> ->]|(Hne & Hno & Hq)].
      * by rewrite Hfr, !decide_True by done.
      * rewrite decide_False, Hoth by (done || by eapply Hdis). unfold value. by rewrite Hq.
    + rewrite decide_False by (intros ->; rewrite Ht, lookup_insert_eq in Eq; done).
      destruct (decide (q = id_ pg)) as [->|Hno].
      * destruct Hold as [(Hi & Hcl & Hn)|(Hf & Hnv & Hnw)].
        -- unfold value. rewrite Hn, Hd, Hcl. done.
        -- unfold value. rewrite Hf, E, Hd. simpl. destruct (is_dirty_ pg) eqn:Edirty.
           ++ by rewrite lookup_insert_eq.
           ++ by apply (si_clean _ _ Hs (id_ pg) f pg).
      * rewrite Hdisk by done. unfold value. destruct (page_table_ s !! q) as [h|] eqn:Eh; [|done].
        assert (page_table_ s' !! q = Some h) as Hc; [|congruence].
        apply Hmap. right. split_and!; [|done|done]. intros ->. congruence.
Qed.

(** Pinned pages stay where they are. *)
Definition keeps_pinned (s s' : SBP) : Prop := ∀ q f pg,
  page_table_ s !! q = Some f → frame s f = Some pg → pin_count_ pg ≠ 0 → page_table_ s' !! q = Some f.

Lemma installed_keeps w f pg p d pins s s0 s' :
  storage_inv w s → picked s f pg s0 → page_table_ s !! p = None → installed f pg p d pins s s0 s' →
  keeps_pinned s s'.
Proof using.
  intros Hs (E & Hpin & _) Hp Hin q h pgh Hq Eh Hpinh. rewrite (in_table _ _ _ _ _ _ _ _ Hin).
  rewrite lookup_insert_ne by congruence. rewrite lookup_delete_ne; [done|]. intros Eq. rewrite <- Eq in Hq.
  destruct (si_frame _ _ Hs f pg E) as [_ [[_ Ht]|(Hi & _)]]; [congruence|].
  by destruct (si_table _ _ Hs _ _ Hq).
Qed.

(** A frame can be found for a page that is not buffered. *)
Definition available (s : SBP) : Prop :=
  free_list_ s ≠ [] ∨ ∃ p f pg, page_table_ s !! p = Some f ∧ frame s f = Some pg ∧ pin_count_ pg = 0.

Lemma available_pick w s :
  storage_inv w s → available s → wp find_victim_page (λ o s', ∃ f pg, o = Some f ∧ fd2pageno_ s' = fd2pageno_ s ∧ picked s f pg s') s.
Proof using.
  intros Hs Ha. eapply wp_mono; [by apply (find_victim_spec w)|]. intros [f|] s'; [intros (? & pg & ?); eauto 6|].
  intros (_ & Hf & Hno). destruct Ha as [?|(p & f & pg & Hp & E & Hpin)]; [done|]. by destruct (Hno p f pg Hp E).
Qed.

Lemma unavailable_crash w s p :
  storage_inv w s → ¬ available s → page_table_ s !! p = None → fetch_page p s = Crash (AssertFailed 85).
Proof using.
  intros Hs Ha Hp. destruct (wp_inv _ _ _ (find_victim_spec w s Hs)) as (o & s' & E & Ho).
  unfold fetch_page. erewrite run_bind by done. rewrite Hp. erewrite run_bind by done.
  destruct o as [f|]; [|done]. destruct Ha. destruct Ho as (_ & pg & Ef & Hpin & _ & _ & _ & _ & _ & Hc).
  destruct Hc as [(El & _)|(_ & _ & Ht)]; [left; by rewrite El|right]. by exists (id_ pg), f, pg.
Qed.

(** [update_page] makes the frame that of the page. *)
Lemma installed_page f pg p d pins s s0 s' g s'' :
  installed f pg p d pins s s0 s' → (∀ h, frame s'' h = if decide (h = f) then g <$> frame s' h else frame s' h) →
  frame s'' f = Some (g (mkPage (page_id_ pg) p d false pins)).
Proof using. intros Hi Hf. by rewrite Hf, decide_True, (in_frame _ _ _ _ _ _ _ _ Hi), decide_True by done. Qed.

Lemma fetch_miss_spec w s p d :
  storage_inv w s → page_table_ s !! p = None → snd p ≠ INVALID_PAGE_ID → available s →
  disk s !! p = Some d →
  wp (fetch_page p) (λ o s', ∃ f pg, o = Some f ∧ storage_inv w s' ∧ same_values s s' ∧
    size s' = size s ∧ keeps_pinned s s' ∧ page_table_ s' !! p = Some f ∧ frame s' f = Some pg ∧
    pin_count_ pg = 1) s.
Proof using.
  intros Hs Hp Hpv Ha Hd. unfold fetch_page. do 2 wp_step. rewrite Hp. wp_step.
  eapply wp_mono; [by apply (available_pick w)|]. intros o s0 (f & pg & -> & En & Hpick).
  pose proof Hpick as (E & Hpin & _ & _ & _ & Hr0 & _). pose proof (storage_frame_range _ _ _ E) as Hrg.
  wp_step. apply (wp_update_page f pg p _ s s0 Hpick Hpv). intros s1 Hin1 Hr1 _.
  assert (disk s1 !! p = Some d) as Hd1.
  { rewrite (in_disk _ _ _ _ _ _ _ _ Hin1). destruct (picked_old w s f pg s0 Hs Hpick) as [(_ & -> & _)|(Ht & _)]; [done|].
    case_match; [|done]. rewrite lookup_insert_ne; [done|]. intros Eq. rewrite Eq in Ht. congruence. }
  wp_step. apply (wp_storage_page f (mkPage (page_id_ pg) p zeroed false (pin_count_ pg))).
  { by rewrite (in_frame _ _ _ _ _ _ _ _ Hin1), decide_True. }
  simpl. unfold read_page, upd_page, onReplacer. do 3 wp_step. rewrite Hd1. do 5 wp_step.
  eapply wp_mono; [apply (pin_law (size s)); simpl; by rewrite Hr1|]. intros [] r (Hr & Hev). do 3 wp_step.
  match goal with |- context [storage_inv w ?s'] => set (s2 := s') end.
  set (pg' := mkPage (page_id_ pg) p d false 1).
  assert (installed f pg p d 1 s s0 s2) as Hin2.
  { destruct Hin1 as [Hfr Hsz Ht Hfl Hdk]. split; [|unfold size, s2 in *; simpl; by rewrite !length_alter|done|done|done].
    intros h. unfold s2. rewrite frame_alter by lia.
    change (frame (set_replacer r ?x) h) with (frame x h). rewrite frame_alter, Hfr by lia. by case_decide. }
  destruct (installed_inv w w f pg p d s s0 s2 Hs Hpick Hp Hpv Hin2) as [Hi Hv]; [done| |by left|].
  - intros g. simpl. rewrite Hev. simpl. by rewrite Hr1.
  - exists f, pg'. split_and!; [done|done| |apply Hin2|by eapply installed_keeps| | |done].
    + intros q. rewrite Hv. case_decide; [subst|done]. unfold value. by rewrite Hp.
    + rewrite (in_table _ _ _ _ _ _ _ _ Hin2). apply lookup_insert_eq.
    + by rewrite (in_frame _ _ _ _ _ _ _ _ Hin2), decide_True.
Qed.

(** A page that the disk does not have: the read throws, but the frame is
    already registered as the page's. *)
Lemma fetch_failed_spec w s p :
  storage_inv w s → page_table_ s !! p = None → snd p ≠ INVALID_PAGE_ID → available s →
  disk s !! p = None →
  wp (fetch_page p) (λ o s', o = None ∧ rep_inv (size s) (replacer_ s') ∧ ∃ f pg, page_table_ s' !! p = Some f ∧
    frame s' f = Some pg ∧ id_ pg = p ∧ data_ pg = zeroed ∧ pin_count_ pg = 0) s.
Proof using.
  intros Hs Hp Hpv Ha Hd. unfold fetch_page. do 2 wp_step. rewrite Hp. wp_step.
  eapply wp_mono; [by apply (available_pick w)|]. intros o s0 (f & pg & -> & En & Hpick).
  pose proof Hpick as (E & Hpin & _ & _ & _ & Hr0 & _). wp_step.
  apply (wp_update_page f pg p _ s s0 Hpick Hpv). intros s1 Hin1 Hr1 _.
  assert (disk s1 !! p = None) as Hd1.
  { rewrite (in_disk _ _ _ _ _ _ _ _ Hin1). destruct (picked_old w s f pg s0 Hs Hpick) as [(_ & -> & _)|(Ht & _)]; [done|].
    case_match; [|done]. rewrite lookup_insert_ne; [done|]. intros Eq. rewrite Eq in Ht. congruence. }
  assert (frame s1 f = Some (mkPage (page_id_ pg) p zeroed false (pin_count_ pg))) as E1.
  { by rewrite (in_frame _ _ _ _ _ _ _ _ Hin1), decide_True. }
  wp_step. eapply wp_storage_page; [exact E1|].
  simpl. unfold read_page. do 3 wp_step. rewrite Hd1. do 2 wp_step.
  split_and!; [done|by rewrite Hr1|]. exists f, (mkPage (page_id_ pg) p zeroed false (pin_count_ pg)).
  split_and!; [|done|done|done|done].
  rewrite (in_table _ _ _ _ _ _ _ _ Hin1). apply lookup_insert_eq.
Qed.

(** A new page; the caller is its writer. *)
Lemma new_page_spec w s t :
  storage_inv w s → available s → 0 ≤ t < MAX_FD → fd2pageno_ s t ≠ INVALID_PAGE_ID →
  page_table_ s !! (t, fd2pageno_ s t) = None →
  wp (new_page t) (λ o s', ∃ f pg, o = Some ((t, fd2pageno_ s t), f) ∧ fd2pageno_ s' t = fd2pageno_ s t + 1 ∧
    storage_inv ((t, fd2pageno_ s t) :: w) s' ∧ size s' = size s ∧ keeps_pinned s s' ∧
    (∀ q, value s' q = if decide (q = (t, fd2pageno_ s t)) then Some zeroed else value s q) ∧
    page_table_ s' !! (t, fd2pageno_ s t) = Some f ∧ frame s' f = Some pg ∧ pin_count_ pg = 1) s.
Proof using.
  intros Hs Ha Ht Hpv Hp. set (p := (t, fd2pageno_ s t)). unfold new_page. wp_step.
  eapply wp_mono; [by apply (available_pick w)|]. intros o s0 (f & pg & -> & En & Hpick).
  pose proof Hpick as (E & Hpin & _ & _ & _ & Hr0 & _). pose proof (storage_frame_range _ _ _ E) as Hrg.
  unfold allocate_page, onReplacer, upd_page. do 2 wp_step.
  wp_step; [apply andb_true_iff; split; [apply Z.leb_le|apply Z.ltb_lt]; lia|].
  do 5 wp_step. rewrite En. wp_step. set (s0' := set_next _ s0).
  assert (picked s f pg s0') as Hpick' by exact Hpick.
  apply (wp_update_page f pg p _ s s0'); [done|done|]. intros s1 Hin1 Hr1 Hn1. do 2 wp_step.
  eapply wp_mono; [apply (pin_law (size s)); by rewrite Hr1|]. intros [] r (Hr & Hev). do 3 wp_step.
  match goal with |- context [storage_inv _ ?s'] => set (s2 := s') end.
  set (pg' := mkPage (page_id_ pg) p zeroed false 1).
  assert (installed f pg p zeroed 1 s s0' s2) as Hin2.
  { destruct Hin1 as [Hfr Hsz Htb Hfl Hdk]. split; [|unfold size, s2 in *; simpl; by rewrite !length_alter|done|done|done].
    intros h. unfold s2. rewrite frame_alter by lia.
    change (frame (set_replacer r ?x) h) with (frame x h). rewrite Hfr. by case_decide. }
  destruct (installed_inv w (p :: w) f pg p zeroed s s0' s2 Hs Hpick' Hp Hpv Hin2) as [Hi Hv]; [done| |by right|].
  - intros g. simpl. rewrite Hev. by rewrite Hr1.
  - exists f, pg'. split_and!; [done| |done|apply Hin2|by eapply installed_keeps|done| | |done].
    + simpl. rewrite Hn1. simpl. by rewrite fn_lookup_insert.
    + rewrite (in_table _ _ _ _ _ _ _ _ Hin2). apply lookup_insert_eq.
    + by rewrite (in_frame _ _ _ _ _ _ _ _ Hin2), decide_True.
Qed.

(** ** A frame loses its page *)

Record vacated (p : PageId) (f : Z) (pg' : Page) (s s' : SBP) : Prop := {
  va_frame : ∀ h, frame s' h = if decide (h = f) then Some pg' else frame s h;
  va_size : size s' = size s;
  va_table : page_table_ s' = delete p (page_table_ s);
  va_free : free_list_ s' = free_list_ s ++ [f];
  va_disk : ∀ q, q ≠ p → disk s' !! q = disk s !! q
}.

Lemma vacated_inv w p f pg' s s' :
  storage_inv w s → page_table_ s !! p = Some f → p ∉ w → vacated p f pg' s s' →
  snd (id_ pg') = INVALID_PAGE_ID → is_dirty_ pg' = false → pin_count_ pg' = 0 →
  rep_inv (size s) (replacer_ s') →
  (∀ g, g ≠ f → evictable (replacer_ s') g ↔ evictable (replacer_ s) g) →
  storage_inv w s' ∧ (∀ q, value s' q = if decide (q = p) then disk s' !! p else value s q).
Proof using.
  intros Hs Hp Hpw [Hfr Hsz Ht Hfl Hd] Hid Hcl Hpin Hr Hev.
  destruct (si_table _ _ Hs p f Hp) as (Hpv & pg & E & Hidp).
  assert (∀ h, h ≠ f → frame s' h = frame s h) as Hoth by (intros h ?; by rewrite Hfr, decide_False).
  assert (frame s' f = Some pg') as E' by by rewrite Hfr, decide_True.
  assert (∀ q h, page_table_ s' !! q = Some h ↔ q ≠ p ∧ page_table_ s !! q = Some h) as Hmap.
  { intros q h. rewrite Ht, lookup_delete_Some. naive_solver. }
  assert (∀ q h, q ≠ p → page_table_ s !! q = Some h → h ≠ f) as Hdis.
  { intros q h Hne Hq ->. by destruct Hne; apply (storage_mapped_inj w s q p f). }
  assert (f ∉ free_list_ s) as Hnf.
  { intros Hf. destruct (si_free _ _ Hs f Hf) as (pg1 & E1 & ?). congruence. }
  assert (∀ h, h ∈ free_list_ s' ↔ h ∈ free_list_ s ∨ h = f) as Hfree.
  { intros h. by rewrite Hfl, elem_of_app, list_elem_of_singleton. }
  split; [split|].
  - by rewrite Hsz.
  - intros q h [Hne Hq]%Hmap. destruct (si_table _ _ Hs q h Hq) as (? & pgq & Eq & ?). split; [done|].
    exists pgq. by rewrite Hoth by by eapply Hdis.
  - intros h pgh. destruct (decide (h = f)) as [->|Hne].
    + rewrite E'. intros [= <-]. split; [lia|]. right. split_and!; [done| |done|done]. apply Hfree. by right.
    + rewrite Hoth by done. intros Eh.
      destruct (si_frame _ _ Hs h pgh Eh) as [? [[Hnv Hq]|(? & Hf & ?)]]; (split; [done|]).
      * left. split; [done|]. apply Hmap. split; [|done]. intros Eq. rewrite Eq in Hq. congruence.
      * right. split_and!; try tauto. apply Hfree. by left.
  - intros h [Hh| ->]%Hfree; [|by exists pg']. destruct (si_free _ _ Hs h Hh) as (pgh & Eh & ?).
    exists pgh. rewrite Hoth; [done|]. by intros ->.
  - rewrite Hfl. apply NoDup_app. split_and!; [apply Hs| |apply NoDup_singleton].
    intros h Hh ->%list_elem_of_singleton. done.
  - intros q h pgh [Hne Hq]%Hmap. assert (h ≠ f) by by eapply Hdis. rewrite Hoth, Hev by done.
    by apply (si_idle _ _ Hs q).
  - intros h Hh. destruct (decide (h = f)) as [->|Hne]; [by eexists|]. rewrite Hoth by done.
    apply (si_range _ _ Hs). by apply Hev.
  - intros q h pgh [Hne Hq]%Hmap. rewrite Hoth, Hd by (done || by eapply Hdis). by apply (si_clean _ _ Hs).
  - intros q Hq. destruct (si_writers _ _ Hs q Hq) as (h & pgh & Hqh & Eh & Hle).
    assert (q ≠ p) by (by intros ->). exists h, pgh. rewrite Hoth by by eapply Hdis.
    split_and!; [by apply Hmap|done|done].
  - intros q. unfold value. rewrite Ht. case_decide as Hq.
    + subst. by rewrite lookup_delete_eq.
    + rewrite lookup_delete_ne by done. destruct (page_table_ s !! q) as [h|] eqn:Eq.
      * by rewrite Hoth by by eapply Hdis.
      * by apply Hd.
Qed.

Lemma delete_page_spec w s p f pg :
  storage_inv w s → page_table_ s !! p = Some f → frame s f = Some pg → pin_count_ pg = 0 →
  wp (delete_page p) (λ r s', r = true ∧ storage_inv w s' ∧ size s' = size s ∧ same_values s s' ∧
    page_table_ s' = delete p (page_table_ s)) s.
Proof using.
  intros Hs Hp E Hpin. pose proof (storage_frame_range _ _ _ E) as Hrg.
  destruct (si_table _ _ Hs p f Hp) as (Hpv & pg0 & E0 & Hid). assert (pg0 = pg) as -> by congruence.
  pose proof (unpinned_unwritten w s p f pg Hs Hp E Hpin) as Hpw.
  unfold delete_page. do 2 wp_step. rewrite Hp. wp_step. apply (wp_storage_page f pg); [done|].
  rewrite Hpin. cbn [Z.ltb Z.compare]. unfold update_page, write_page, upd_page. wp_step. wp_step.
  apply (wp_storage_page f pg); [done|]. wp_step.
  eapply wp_mono with (Q := λ (_ : unit) s1, page_table_ s1 = page_table_ s ∧ free_list_ s1 = free_list_ s ∧
    replacer_ s1 = replacer_ s ∧ size s1 = size s ∧
    (∀ h, frame s1 h = if decide (h = f) then Some (set_dirty false pg) else frame s h) ∧
    disk s1 = if is_dirty_ pg then <[id_ pg := data_ pg]> (disk s) else disk s).
  { wp_step.
    - do 3 wp_step. rewrite H. split_and!; try done.
      + unfold size. simpl. by rewrite length_alter.
      + intros h. rewrite frame_alter by lia. change (frame (set_disk ?x s) h) with (frame s h).
        case_decide; [subst; by rewrite E|done].
    - rewrite H. split_and!; try done. intros h. case_decide; [|done]. subst. rewrite E.
      destruct pg. simpl in *. by subst. }
  intros [] s1 (Ht1 & Hf1 & Hr1 & Hs1 & Hfr1 & Hd1). do 3 wp_step.
  cbn [snd]. rewrite Z.eqb_refl. cbn [negb when]. do 5 wp_step.
  match goal with |- context [storage_inv _ ?s'] => set (s2 := s') end.
  set (pg' := mkPage (page_id_ pg) (fst p, INVALID_PAGE_ID) zeroed false 0).
  assert (vacated p f pg' s s2) as Hva.
  { split.
    - intros h. unfold s2. change (frame (set_free ?l ?x) h) with (frame x h). rewrite frame_alter by lia.
      change (frame (set_table ?x s1) h) with (frame s1 h). rewrite Hfr1. case_decide; [|done]. simpl.
      unfold pg', set_id, set_data. simpl. by rewrite Hid, Hpin.
    - unfold size, s2 in *. simpl. by rewrite length_alter.
    - simpl. by rewrite Ht1, Hid.
    - simpl. by rewrite Hf1.
    - intros q Hq. simpl. rewrite Hd1. case_match; [|done]. rewrite lookup_insert_ne; [done|]. congruence. }
  destruct (vacated_inv w p f pg' s s2 Hs Hp Hpw Hva) as [Hi Hv]; try done.
  - simpl. rewrite Hr1. apply Hs.
  - intros g _. simpl. by rewrite Hr1.
  - split_and!; [done|done|apply Hva| |apply Hva]. intros q. rewrite Hv. case_decide; [subst q|done].
    unfold value. rewrite Hp, E. simpl. rewrite Hd1. destruct (is_dirty_ pg) eqn:Ed.
    + by rewrite Hid, lookup_insert_eq.
    + by apply (si_clean _ _ Hs p f pg).
Qed.

(** ** The loops over the frames *)

Lemma elem_frames s f : f ∈ frames s ↔ 0 ≤ f < size s.
Proof using.
  unfold frames, size. rewrite list_elem_of_fmap. split.
  - intros (k & -> & Hk%elem_of_seq). lia.
  - intros Hf. exists (Z.to_nat f). rewrite elem_of_seq. lia.
Qed.

(** A loop over the frames: an invariant indexed by the frames still to come. *)
Lemma wp_for_frames body (I : list Z → SBP → Prop) (Q : unit → SBP → Prop) s :
  I (frames s) s →
  (∀ f l s', 0 ≤ f < size s → f ∉ l → I (f :: l) s' → wp (body f) (λ _, I l) s') →
  (∀ s', I [] s' → Q tt s') →
  wp (for_frames body) Q s.
Proof using.
  intros H0 Hstep HQ. unfold for_frames. do 2 wp_step.
  apply (wp_for_each body (λ l s', I l s' ∧ NoDup l ∧ ∀ f, f ∈ l → 0 ≤ f < size s)).
  - split_and!; [done| |by intros f ?%elem_frames].
    apply NoDup_fmap_2; [|apply NoDup_seq]. intros x y. lia.
  - intros f l s' (Hi & Hnd & Hrg). apply NoDup_cons in Hnd as [Hf Hnd].
    eapply wp_mono; [by apply Hstep; [apply Hrg; left|done|]|]. intros [] s1 H1.
    split_and!; [done|done|]. intros g Hg. apply Hrg. by right.
  - intros s' (Hi & _). by apply HQ.
Qed.

Lemma flush_frame_spec w s mine f :
  storage_inv w s → 0 ≤ f < size s →
  wp (flush_frame mine f) (λ _ s', storage_inv w s' ∧ same_values s s' ∧ page_table_ s' = page_table_ s ∧
    size s' = size s ∧ (∀ p, page_table_ s !! p ≠ Some f → disk s' !! p = disk s !! p) ∧
    ∀ p, page_table_ s !! p = Some f → mine p = true → p ∉ w → disk s' !! p = value s p) s.
Proof using.
  intros Hs Hf. destruct (frame_some s f Hf) as [pg E]. unfold flush_frame.
  wp_step. apply (wp_storage_page f pg); [done|]. wp_step.
  - apply andb_true_iff in H as [[Hm Hv]%andb_true_iff Hd]. bool_simpl.
    assert (page_table_ s !! id_ pg = Some f) as Hp.
    { destruct (si_frame _ _ Hs f pg E) as [_ [[_ ?]|(? & _)]]; done. }
    eapply wp_mono; [by apply (write_back_spec w s (id_ pg) f pg)|].
    intros [] s' [Hi Hsv Hdk Hot Ht Hsz _]. split_and!; try done.
    + intros p Hp'. apply Hot. by intros ->.
    + intros p Hp' _ _. by rewrite (storage_mapped_inj w s p (id_ pg) f Hs Hp' Hp).
  - split_and!; try done. intros p Hp Hmine Hw. destruct (mapped_frame w s p f Hs Hp) as (Hpv & pg' & E' & Hid & -> & _).
    assert (pg' = pg) as -> by congruence. apply (si_clean _ _ Hs p f pg Hp E); [|done].
    rewrite Hid, Hmine, (proj2 (Z.eqb_neq _ _) Hpv) in H. by destruct (is_dirty_ pg).
Qed.

Lemma flush_frames_spec w s mine :
  storage_inv w s →
  wp (for_frames (flush_frame mine)) (λ _ s', storage_inv w s' ∧ same_values s s' ∧
    page_table_ s' = page_table_ s ∧
    ∀ p, is_Some (page_table_ s !! p) → mine p = true → p ∉ w → disk s' !! p = value s p) s.
Proof using.
  intros Hs. apply (wp_for_frames _ (λ l s', storage_inv w s' ∧ same_values s s' ∧
    page_table_ s' = page_table_ s ∧ size s' = size s ∧
    ∀ p f, page_table_ s !! p = Some f → f ∉ l → mine p = true → p ∉ w → disk s' !! p = value s p)).
  - split_and!; try done. intros p f Hp Hf. destruct Hf. apply elem_frames.
    by destruct (mapped_frame w s p f Hs Hp) as (_ & pg & _ & _ & _ & ?).
  - intros f l s' Hf Hfl (Hi & Hv & Ht & Hsz & Hd).
    eapply wp_mono; [by apply (flush_frame_spec w); [|rewrite Hsz]|].
    intros [] s1 (Hi1 & Hv1 & Ht1 & Hsz1 & Hother & Hthis). split_and!; [done| |congruence|congruence|].
    + intros q. by rewrite Hv1.
    + intros p g Hp Hg Hm Hw. destruct (decide (g = f)) as [->|Hne].
      * rewrite Hthis; [apply Hv|by rewrite Ht|done|done].
      * rewrite Hother by (rewrite Ht, Hp; congruence). apply (Hd p g); [done| |done|done].
        by apply not_elem_of_cons.
  - intros s' (Hi & Hv & Ht & _ & Hd). split_and!; try done. intros p [f Hp] Hm Hw.
    apply (Hd p f Hp); [apply not_elem_of_nil|done|done].
Qed.

Lemma clear_frame_spec w s mine wb new_id f :
  storage_inv w s → 0 ≤ f < size s → (∀ p, snd (new_id p) = INVALID_PAGE_ID) →
  (∀ p, mine p = true → p ∉ w) →
  wp (clear_frame mine wb new_id f) (λ _ s', storage_inv w s' ∧ size s' = size s ∧
    (∀ p h, page_table_ s' !! p = Some h ↔ page_table_ s !! p = Some h ∧ ¬ (h = f ∧ mine p = true)) ∧
    (∀ p, page_table_ s !! p ≠ Some f → disk s' !! p = disk s !! p) ∧
    (∀ p, value s' p = if decide (page_table_ s !! p = Some f ∧ mine p = true) then disk s' !! p else value s p) ∧
    (∀ p, page_table_ s !! p = Some f → disk s' !! p = if wb && mine p then value s p else disk s !! p)) s.
Proof using.
  intros Hs Hf Hnew Hmw. destruct (frame_some s f Hf) as [pg E]. unfold clear_frame, onReplacer, upd_page.
  wp_step. apply (wp_storage_page f pg); [done|]. wp_step.
  - apply andb_true_iff in H as [Hm Hv]. bool_simpl.
    assert (page_table_ s !! id_ pg = Some f) as Hp.
    { destruct (si_frame _ _ Hs f pg E) as [_ [[_ ?]|(? & _)]]; done. }
    pose proof (Hmw _ Hm) as Hpw. wp_step.
    eapply wp_mono with (Q := λ (_ : unit) s1, page_table_ s1 = page_table_ s ∧ free_list_ s1 = free_list_ s ∧
      replacer_ s1 = replacer_ s ∧ size s1 = size s ∧ (∀ h, h ≠ f → frame s1 h = frame s h) ∧
      is_Some (frame s1 f) ∧ (∀ pg1, frame s1 f = Some pg1 → page_id_ pg1 = page_id_ pg ∧ id_ pg1 = id_ pg) ∧
      (∀ q, q ≠ id_ pg → disk s1 !! q = disk s !! q) ∧
      disk s1 !! id_ pg = if wb then value s (id_ pg) else disk s !! id_ pg).
    { wp_step.
      - apply andb_true_iff in H as [-> Hd]. unfold write_page. do 3 wp_step.
        assert (∀ h, frame (set_pages (alter (set_dirty false) (Z.to_nat f) (pages_ s)) (set_disk (<[id_ pg:=data_ pg]> (disk s)) s)) h =
          if decide (h = f) then set_dirty false <$> frame s h else frame s h) as Hfr
          by (intros h; rewrite (frame_alter (set_dirty false) (set_disk (<[id_ pg:=data_ pg]> (disk s)) s)) by lia; done).
        split_and!; try done.
        + unfold size. simpl. by rewrite length_alter.
        + intros h Hne. by rewrite Hfr, decide_False.
        + rewrite Hfr, decide_True, E by done. by eexists.
        + rewrite Hfr, decide_True, E by done. by intros pg1 [= <-].
        + intros q Hq. simpl. by rewrite lookup_insert_ne.
        + simpl. rewrite lookup_insert_eq. unfold value. by rewrite Hp, E.
      - split_and!; try done.
        + intros pg1 E1. by assert (pg1 = pg) as -> by congruence.
        + destruct wb; [|done]. simpl in H. unfold value. rewrite Hp, E. simpl.
          by apply (si_clean _ _ Hs (id_ pg) f pg). }
    intros [] s1 (Ht1 & Hf1 & Hr1 & Hs1 & Hfr1 & [pg1 E1] & Hpg1 & Hd1 & Hd1p). do 4 wp_step.
    eapply wp_mono; [apply (pin_law (size s)); simpl; rewrite Hr1; apply Hs|]. intros [] r (Hr & Hev).
    do 3 wp_step. match goal with |- context [storage_inv _ ?s'] => set (s2 := s') end.
    set (pg' := mkPage (page_id_ pg) (new_id (id_ pg)) zeroed false 0).
    assert (vacated (id_ pg) f pg' s s2) as Hva.
    { split.
      - intros h. unfold s2. change (frame (set_free ?l ?x) h) with (frame x h). rewrite frame_alter by lia.
        change (frame (set_replacer r ?x) h) with (frame x h). change (frame (set_table ?x s1) h) with (frame s1 h).
        case_decide as Hh; [|by apply Hfr1]. subst. rewrite E1. destruct (Hpg1 _ E1) as [E2 E3]. simpl.
        by rewrite E2, E3.
      - unfold size, s2 in *. simpl. by rewrite length_alter.
      - simpl. by rewrite Ht1.
      - simpl. by rewrite Hf1.
      - exact Hd1. }
    destruct (vacated_inv w (id_ pg) f pg' s s2 Hs Hp Hpw Hva) as [Hi Hval]; try done.
    + apply Hnew.
    + intros g Hg. simpl. rewrite Hev. simpl. rewrite Hr1. tauto.
    + split_and!; [done|apply Hva| | | |].
      * intros p h. rewrite (va_table _ _ _ _ _ Hva), lookup_delete_Some.
        split; [intros [Hne Hq]; split; [done|]; intros [-> _]|].
        { by destruct Hne; apply (storage_mapped_inj w s (id_ pg) p f). }
        { intros [Hq Hn]. split; [|done]. intros <-. apply Hn. split; [congruence|done]. }
      * intros p Hq. apply Hd1. by intros ->.
      * intros p. rewrite Hval. destruct (decide (p = id_ pg)) as [->|Hne].
        { by rewrite decide_True. }
        rewrite decide_False; [done|]. intros [Hq _]. by destruct Hne; apply (storage_mapped_inj w s p (id_ pg) f).
      * intros p Hq. assert (p = id_ pg) as -> by by apply (storage_mapped_inj w s p (id_ pg) f).
        rewrite Hm, andb_true_r. exact Hd1p.
  - assert (∀ p, page_table_ s !! p = Some f → mine p = false) as Hnm.
    { intros p Hp. destruct (mapped_frame w s p f Hs Hp) as (Hpv & pg' & E' & Hid & _).
      assert (pg' = pg) as -> by congruence. rewrite Hid, (proj2 (Z.eqb_neq _ _) Hpv) in H. by destruct (mine p). }
    split_and!; try done.
    + intros p h. split; [|tauto]. intros Hp. split; [done|]. intros [-> Hm]. by rewrite (Hnm p Hp) in Hm.
    + intros p. case_decide as Hc; [|done]. destruct Hc as [Hp Hm]. by rewrite (Hnm p Hp) in Hm.
    + intros p Hp. by rewrite (Hnm p Hp), andb_false_r.
Qed.

Lemma clear_frames_spec w s mine wb new_id :
  storage_inv w s → (∀ p, snd (new_id p) = INVALID_PAGE_ID) → (∀ p, mine p = true → p ∉ w) →
  wp (for_frames (clear_frame mine wb new_id)) (λ _ s', storage_inv w s' ∧
    (∀ p h, page_table_ s' !! p = Some h ↔ page_table_ s !! p = Some h ∧ mine p = false) ∧
    ∀ p, value s' p = if mine p && negb wb then disk s !! p else value s p) s.
Proof using.
  intros Hs Hnew Hmw. apply (wp_for_frames _ (λ l s', storage_inv w s' ∧ size s' = size s ∧
    (∀ p h, page_table_ s' !! p = Some h ↔ page_table_ s !! p = Some h ∧ (mine p = false ∨ h ∈ l)) ∧
    (∀ p h, page_table_ s !! p = Some h → h ∈ l → disk s' !! p = disk s !! p) ∧
    (∀ p h, page_table_ s !! p = Some h → h ∈ l → value s' p = value s p) ∧
    ∀ p, (∀ h, page_table_ s !! p = Some h → h ∉ l) → value s' p = if mine p && negb wb then disk s !! p else value s p)).
  - assert (∀ p h, page_table_ s !! p = Some h → h ∈ frames s) as Hall.
    { intros p h Hp. apply elem_frames. by destruct (mapped_frame w s p h Hs Hp) as (_ & pg & _ & _ & _ & ?). }
    split_and!; try done.
    + intros p h. split; [|tauto]. intros Hp. split; [done|]. right. by apply (Hall p).
    + intros p Hno. unfold value. destruct (page_table_ s !! p) as [h|] eqn:Eh.
      * destruct (Hno h eq_refl). by apply (Hall p).
      * by case_match.
  - intros f l s' Hf Hfl (Hi & Hsz & Ht & Hd & Hv & Hv').
    eapply wp_mono; [apply (clear_frame_spec w); [done|by rewrite Hsz|done|done]|].
    intros [] s1 (Hi1 & Hsz1 & Ht1 & Hother & Hval & Hthis).
    assert (∀ p h, page_table_ s !! p = Some h → h ∈ l → page_table_ s' !! p ≠ Some f) as Hnf.
    { intros p h Hp Hh [Hp' _]%Ht. congruence. }
    split_and!; [done|congruence| | | |].
    + intros p h. rewrite Ht1, Ht, elem_of_cons. destruct (mine p); [|naive_solver]. split.
      * intros [[Hp [?|[->|?]]] Hn]; [done|by destruct Hn|]. split; [done|by right].
      * intros [Hp [?|?]]; [done|]. split_and!; [done|right; by right|]. by intros [-> _].
    + intros p h Hp Hh. rewrite Hother by by apply (Hnf p h). apply (Hd p h); [done|by right].
    + intros p h Hp Hh. rewrite Hval, decide_False by (intros [? _]; by apply (Hnf p h)).
      apply (Hv p h); [done|by right].
    + intros p Hno. rewrite Hval. destruct (page_table_ s !! p) as [h|] eqn:Eh.
      * destruct (decide (h = f)) as [->|Hne].
        { assert (page_table_ s' !! p = Some f) as Hp' by (apply Ht; split; [done|right; by left]).
          rewrite (Hv p f Eh) by (by left). destruct (mine p) eqn:Em.
          - rewrite decide_True by done. rewrite Hthis, Em by done.
            rewrite (Hv p f Eh), (Hd p f Eh) by (by left). by destruct wb.
          - by rewrite decide_False by by intros [_ ?]. }
        rewrite decide_False.
        { apply Hv'. intros h' E'; rewrite Eh in E'; injection E' as <-. rewrite not_elem_of_cons. split; [done|by apply Hno]. }
        intros [[Hp _]%Ht _]. congruence.
      * rewrite decide_False; [apply Hv'; intros h' E'; congruence|]. intros [[Hp _]%Ht _]. congruence.
  - intros s' (Hi & _ & Ht & _ & _ & Hv). split_and!; [done| |].
    + intros p h. rewrite Ht. split; [|tauto]. intros [? [?|?%elem_of_nil]]; done.
    + intros p. apply Hv. intros h _. apply not_elem_of_nil.
Qed.

(** ** The initial state *)

Lemma new_storage_inv r n d next :
  0 ≤ n → rep_inv n r → (∀ f, ¬ evictable r f) → storage_inv [] (new_SBP r n d next).
Proof using.
  intros Hn Hr Hev.
  assert (size (new_SBP r n d next) = n) as Hsz by (unfold size; simpl; rewrite length_replicate; lia).
  assert (∀ f, f ∈ free_list_ (new_SBP r n d next) ↔ 0 ≤ f < n) as Hfree.
  { intros f. simpl. rewrite list_elem_of_fmap. split.
    - intros (k & -> & Hk%elem_of_seq). lia.
    - intros Hf. exists (Z.to_nat f). rewrite elem_of_seq. lia. }
  assert (∀ f pg, frame (new_SBP r n d next) f = Some pg → 0 ≤ f < n ∧
    pg = mkPage INVALID_PAGE_ID (INVALID_TABLE_ID, INVALID_PAGE_ID) zeroed false 0) as Hfr.
  { intros f pg E. pose proof (storage_frame_range _ _ _ E) as Hrg. rewrite Hsz in Hrg. split; [done|].
    unfold frame in E. destruct (0 <=? f); [|done]. simpl in E. by apply lookup_replicate in E as [-> _]. }
  split; simpl; try done.
  - by rewrite Hsz.
  - intros f pg E. destruct (Hfr f pg E) as [Hf ->]. simpl. split; [done|]. right.
    split_and!; [done|by apply Hfree|done|done].
  - intros f Hf%Hfree. destruct (frame_some (new_SBP r n d next) f) as [pg E]; [by rewrite Hsz|].
    exists pg. split; [done|]. by destruct (Hfr f pg E) as [_ ->].
  - apply NoDup_fmap_2; [|apply NoDup_seq]. intros x y. lia.
  - intros f Hf. by destruct (Hev f).
  - by intros p ?%elem_of_nil.
Qed.
End storage.
