(* ===== verification/StorageProtocol.v ===== *)
(** What the buffer pool of the storage tier guarantees: pages never lose what
    was written to them, pinned pages stay in their frames, and flushed pages
    survive a restart. *)

From stdpp Require Import functions.
From S2P Require Import Prelude Common Page StorageReplacer StorageBuffer.

Section protocol.
Context {R Data : Type} `{!StorageReplacer R, !StorageReplacerLaws R}.
Variable zeroed : Data.

Abbreviation SBP := (@StorageBufferPoolManager R Data).
Abbreviation Contents := (PageId → option Data).

Implicit Types s : SBP.

(** ** The calls

    Next to the pool, the state has the list of the pages that are being
    written, once per writer: a thread that holds a pin announces itself
    ([Begin]), writes through the frame, and ends by unpinning the page as dirty.
    A file is cleared only when nobody writes to it. *)

Inductive call : Type :=
  | Fetch (p : PageId) (f : Z)
  | Unpin (p : PageId) (dirty r : bool)
  | Begin (p : PageId)
  | Write (p : PageId) (d : Data)
  | Flush (p : PageId) (r : bool)
  | New (p : PageId) (f : Z)
  | Delete (p : PageId) (r : bool)
  | FlushFile (fd : Z)
  | FlushAll
  | ClearFile (fd : Z).

Inductive storage_step : call → SBP * list PageId → SBP * list PageId → Prop :=
  | ss_fetch s w p f s' : snd p ≠ INVALID_PAGE_ID → fetch_page zeroed p s = Done (Some f, s') →
      storage_step (Fetch p f) (s, w) (s', w)
  | ss_unpin s w w' p dirty f pg s' : page_table_ s !! p = Some f → frame s f = Some pg →
      pin_count_ pg ≠ 0 → unpinned_writers p dirty w w' (pin_count_ pg) →
      unpin_page p dirty s = Done (true, s') → storage_step (Unpin p dirty true) (s, w) (s', w')
  | ss_unpin_no s w p dirty s' : unpin_page p dirty s = Done (false, s') →
      storage_step (Unpin p dirty false) (s, w) (s', w)
  | ss_begin s w p f pg : page_table_ s !! p = Some f → frame s f = Some pg →
      writers p w < pin_count_ pg → storage_step (Begin p) (s, w) (s, p :: w)
  | ss_write s w p f d s' : p ∈ w → page_table_ s !! p = Some f → write_frame f d s = Done (tt, s') →
      storage_step (Write p d) (s, w) (s', w)
  | ss_flush s w p r s' : flush_page p s = Done (r, s') → storage_step (Flush p r) (s, w) (s', w)
  | ss_new s w t f s' : fd2pageno_ s t ≠ INVALID_PAGE_ID → page_table_ s !! (t, fd2pageno_ s t) = None →
      new_page zeroed t s = Done (Some ((t, fd2pageno_ s t), f), s') →
      storage_step (New (t, fd2pageno_ s t) f) (s, w) (s', (t, fd2pageno_ s t) :: w)
  | ss_delete s w p r s' : delete_page zeroed p s = Done (r, s') → storage_step (Delete p r) (s, w) (s', w)
  | ss_flush_file s w fd s' : flush_file_pages fd s = Done (tt, s') →
      storage_step (FlushFile fd) (s, w) (s', w)
  | ss_flush_all s w s' : flush_all_pages s = Done (tt, s') → storage_step FlushAll (s, w) (s', w)
  | ss_clear_file s w fd s' : (∀ p, p ∈ w → fst p ≠ fd) → clear_file_pages zeroed fd s = Done (tt, s') →
      storage_step (ClearFile fd) (s, w) (s', w).

Definition storage_reachable (r : R) (n : Z) (d : gmap PageId Data) (next : Z → Z) : SBP * list PageId → Prop :=
  star (λ x y, ∃ c, storage_step c x y) (new_SBP zeroed r n d next, []).

(** What a call does to the contents of the pages. *)
Definition effect (c : call) (m : Contents) : Contents :=
  match c with
  | Write p d => <[p := Some d]> m
  | New p _ => <[p := Some zeroed]> m
  | _ => m
  end.

Definition empties (c : call) (p : PageId) : Prop :=
  match c with ClearFile fd => fst p = fd | _ => False end.

Record sound (c : call) (s s' : SBP) (w' : list PageId) : Prop := {
  so_inv : storage_inv w' s';
  so_effect : ∀ q, value s' q = effect c (value s) q;
  so_pinned : ∀ q f pg, page_table_ s !! q = Some f → frame s f = Some pg → pin_count_ pg ≠ 0 →
    ¬ empties c q → page_table_ s' !! q = Some f;
  so_answer : match c with
    | Fetch p f | New p f => data_ <$> frame s' f = value s' p ∧ page_table_ s' !! p = Some f
    | _ => True
    end
}.

(** ** Each call is sound *)

Lemma sound_same c s s' w' :
  storage_inv w' s' → same_values s s' → page_table_ s' = page_table_ s → (∀ m, effect c m = m) →
  match c with Fetch _ _ | New _ _ => False | _ => True end → sound c s s' w'.
Proof using.
  intros Hi Hv Ht He Hc. split; [done| | |by destruct c].
  - intros q. by rewrite He.
  - intros q f pg Hq _ _ _. by rewrite Ht.
Qed.

Lemma mapped_data (s : SBP) p f : page_table_ s !! p = Some f → data_ <$> frame s f = value s p.
Proof using. unfold value. by intros ->. Qed.

Lemma find_bind {A B} (s : SBP) (g : SBP → A) (k : A → M SBP B) : (gets g ≫= k) s = k (g s) s.
Proof using. done. Qed.

(** A fetch that returns a page had a frame for it and its contents. *)
Lemma storage_fetch_done w s p f s' :
  storage_inv w s → snd p ≠ INVALID_PAGE_ID → page_table_ s !! p = None → fetch_page zeroed p s = Done (Some f, s') →
  available s ∧ is_Some (disk s !! p).
Proof using.
  intros Hs Hpv Hp E.
  destruct (decide (free_list_ s = [])) as [Hf|Hf].
  - destruct (wp_inv _ _ _ (find_victim_spec w s Hs)) as (o & s0 & Ev & Ho).
    destruct o as [g|].
    + assert (available s) as Ha.
      { destruct Ho as (_ & pg & Eg & Hpin & _ & _ & _ & _ & _ & [(El & _)|(_ & _ & Ht)]); [congruence|].
        right. by exists (id_ pg), g, pg. }
      split; [done|]. destruct (disk s !! p) as [d|] eqn:Ed; [by eexists|].
      destruct (wp_run _ _ _ _ _ (fetch_failed_spec zeroed w s p Hs Hp Hpv Ha Ed) E). done.
    + exfalso. unfold fetch_page in E. rewrite find_bind, Hp in E.
      by rewrite (run_bind _ _ _ _ _ Ev) in E.
  - assert (available s) as Ha by by left. split; [done|].
    destruct (disk s !! p) as [d|] eqn:Ed; [by eexists|].
    destruct (wp_run _ _ _ _ _ (fetch_failed_spec zeroed w s p Hs Hp Hpv Ha Ed) E). done.
Qed.

Lemma storage_fetch_sound w s p f s' :
  storage_inv w s → snd p ≠ INVALID_PAGE_ID → fetch_page zeroed p s = Done (Some f, s') →
  sound (Fetch p f) s s' w.
Proof using.
  intros Hs Hpv E. destruct (page_table_ s !! p) as [g|] eqn:Ep.
  - destruct (mapped_frame w s p g Hs Ep) as (_ & pg & Eg & _).
    destruct (wp_run _ _ _ _ _ (fetch_hit_spec zeroed w s p g pg Hs Ep Eg) E) as ([= <-] & Hi & Hv & Hto).
    assert (page_table_ s' !! p = Some f) as Hp' by by rewrite (to_table _ _ _ _ Hto).
    split; [done|done| |split; [by apply mapped_data|done]].
    intros q h pgh Hq _ _ _. by rewrite (to_table _ _ _ _ Hto).
  - destruct (storage_fetch_done w s p f s' Hs Hpv Ep E) as [Ha [d Hd]].
    destruct (wp_run _ _ _ _ _ (fetch_miss_spec zeroed w s p d Hs Ep Hpv Ha Hd) E)
      as (g & pg & [= <-] & Hi & Hv & _ & Hk & Hp' & Ef & _).
    split; [done|done| |split; [by apply mapped_data|done]]. intros q h pgh Hq Eh Hpin _. by apply (Hk q h pgh).
Qed.

Lemma unpin_no_sound w s p dirty s' :
  storage_inv w s → unpin_page p dirty s = Done (false, s') → s' = s.
Proof using.
  intros Hs. unfold unpin_page. rewrite find_bind. destruct (page_table_ s !! p) as [f|] eqn:Ep; [|by intros [= <-]].
  destruct (mapped_frame w s p f Hs Ep) as (_ & pg & E & _).
  assert (page_at f s = Done (pg, s)) as Epg.
  { unfold page_at. unfold frame in E. destruct (0 <=? f); [by rewrite E|done]. }
  rewrite (run_bind _ _ _ _ _ Epg). destruct (pin_count_ pg =? 0) eqn:Ez; [by intros [= <-]|].
  unfold upd_page, when, onReplacer, mbind, M_bind, modify, zoom.
  destruct (pin_count_ pg - 1 =? 0); [destruct (unpin f _) as [[[] r]| |]|]; destruct dirty; done.
Qed.

Lemma flush_sound w s p r s' :
  storage_inv w s → flush_page p s = Done (r, s') → sound (Flush p r) s s' w.
Proof using.
  intros Hs. unfold flush_page. destruct (snd p =? INVALID_PAGE_ID) eqn:Ev.
  { intros [= <- <-]. by apply sound_same. }
  rewrite find_bind. destruct (page_table_ s !! p) as [f|] eqn:Ep; [|intros [= <- <-]; by apply sound_same].
  destruct (mapped_frame w s p f Hs Ep) as (_ & pg & E & _). intros H.
  assert (wp (flush_page p) (λ _ s', flushed p f w s s') s) as Hwp.
  { unfold flush_page. rewrite Ev. wp_step. wp_step. rewrite Ep. wp_step. apply (wp_storage_page f pg); [done|].
    destruct (wp_inv _ _ _ (write_back_spec w s p f pg Hs Ep E)) as ([] & s1 & E1 & Hfl).
    unfold wp. unfold mbind, M_bind in *. unfold write_page, upd_page, modify in *. by injection E1 as <-. }
  unfold flush_page in Hwp. rewrite Ev in Hwp. unfold wp in Hwp. rewrite find_bind, Ep, H in Hwp.
  destruct Hwp as [Hi Hv _ _ Ht _ _]. by apply sound_same.
Qed.

Lemma delete_sound w s p r s' :
  storage_inv w s → delete_page zeroed p s = Done (r, s') → sound (Delete p r) s s' w.
Proof using.
  intros Hs E. destruct (page_table_ s !! p) as [f|] eqn:Ep.
  - destruct (mapped_frame w s p f Hs Ep) as (_ & pg & Ef & _).
    destruct (decide (pin_count_ pg = 0)) as [Hpin|Hpin].
    + destruct (wp_run _ _ _ _ _ (delete_page_spec zeroed w s p f pg Hs Ep Ef Hpin) E) as (_ & Hi & _ & Hv & Ht).
      split; [done|done| |done]. intros q h pgh Hq Eh Hpinh _. rewrite Ht, lookup_delete_ne; [done|].
      intros <-. congruence.
    + destruct (si_frame _ _ Hs f pg Ef) as [Hge _].
      assert (s' = s) as ->; [|by apply sound_same].
      unfold delete_page in E. rewrite find_bind, Ep in E.
      assert (page_at f s = Done (pg, s)) as Epg.
      { unfold page_at. unfold frame in Ef. destruct (0 <=? f); [by rewrite Ef|done]. }
      rewrite (run_bind _ _ _ _ _ Epg), (proj2 (Z.ltb_lt _ _)) in E by lia. by injection E as <- <-.
  - unfold delete_page in E. rewrite find_bind, Ep in E. injection E as <- <-. by apply sound_same.
Qed.

Lemma new_sound w s t f s' :
  storage_inv w s → fd2pageno_ s t ≠ INVALID_PAGE_ID → page_table_ s !! (t, fd2pageno_ s t) = None →
  new_page zeroed t s = Done (Some ((t, fd2pageno_ s t), f), s') →
  sound (New (t, fd2pageno_ s t) f) s s' ((t, fd2pageno_ s t) :: w).
Proof using.
  intros Hs Hne Hp E.
  destruct (wp_inv _ _ _ (find_victim_spec w s Hs)) as (o & s0 & Ev & Ho).
  assert (∃ g, o = Some g) as [g ->].
  { destruct o as [g|]; [by eexists|]. unfold new_page in E. by rewrite (run_bind _ _ _ _ _ Ev) in E. }
  assert (0 ≤ t < MAX_FD) as Ht.
  { unfold new_page in E. rewrite (run_bind _ _ _ _ _ Ev) in E.
    unfold allocate_page, check in E. destruct ((0 <=? t) && (t <? MAX_FD)) eqn:Eb; [|done].
    apply andb_true_iff in Eb as [?%Z.leb_le ?%Z.ltb_lt]. done. }
  assert (available s) as Ha.
  { destruct Ho as (_ & pg & Eg & Hpin & _ & _ & _ & _ & _ & [(El & _)|(_ & _ & Htb)]).
    - left. by rewrite El.
    - right. by exists (id_ pg), g, pg. }
  destruct (wp_run _ _ _ _ _ (new_page_spec zeroed w s t Hs Ha Ht Hne Hp) E)
    as (h & pg & [= <-] & _ & Hi & _ & Hk & Hv & Hp' & _).
  split; [done| | |split; [by apply mapped_data|done]].
  - intros q. rewrite Hv. simpl. case_decide as Hq; [subst; by rewrite fn_lookup_insert|].
    by rewrite fn_lookup_insert_ne.
  - intros q h' pgh Hq Eh Hpin _. by apply (Hk q h' pgh).
Qed.

Lemma begin_sound w s p f pg :
  storage_inv w s → page_table_ s !! p = Some f → frame s f = Some pg → writers p w < pin_count_ pg →
  sound (Begin p) s s (p :: w).
Proof using.
  intros Hs Hp E Hlt. apply sound_same; try done. destruct Hs as [? ? ? ? ? ? ? Hc Hw]. split; try done.
  - intros q h pgh Hq Eh Hcl Hn. apply (Hc q h pgh Hq Eh Hcl). intros ?. apply Hn. by right.
  - intros q Hq. destruct (decide (q = p)) as [->|Hne].
    + exists f, pg. split_and!; [done|done|]. rewrite writers_cons, decide_True by done. lia.
    + apply elem_of_cons in Hq as [?|Hq]; [done|]. destruct (Hw q Hq) as (h & pgh & ? & ? & ?).
      exists h, pgh. split_and!; [done|done|]. rewrite writers_cons, decide_False by done. lia.
Qed.

Lemma storage_step_sound c s w s' w' :
  storage_inv w s → storage_step c (s, w) (s', w') → sound c s s' w'.
Proof using.
  intros Hs H. inversion H; subst.
  - by apply storage_fetch_sound.
  - match goal with E : unpin_page _ _ _ = _, Hp : page_table_ _ !! _ = Some ?f, Ef : frame _ ?f = Some ?pg |- _ =>
      destruct (wp_run _ _ _ _ _ (unpin_hit_spec w w' s p f pg dirty Hs Hp Ef ltac:(done) ltac:(done)) E)
        as (_ & Hi & Hv & Hto) end.
    apply sound_same; try done. apply Hto.
  - match goal with E : unpin_page _ _ _ = _ |- _ => apply (unpin_no_sound w') in E as ->; [|done] end.
    by apply sound_same.
  - by eapply begin_sound.
  - match goal with Hp : page_table_ _ !! _ = Some ?f |- _ =>
      destruct (mapped_frame w' s p f Hs Hp) as (_ & pg & E & _) end.
    match goal with Ew : write_frame _ _ _ = _, Hp : page_table_ _ !! _ = Some ?f, Hin : p ∈ w' |- _ =>
      destruct (wp_run _ _ _ _ _ (write_frame_spec w' s p f pg d Hs Hp E Hin) Ew) as (Hi & Hto & Hv) end.
    split; [done| | |done].
    + intros q. rewrite Hv. simpl. case_decide; [subst; by rewrite fn_lookup_insert|].
      by rewrite fn_lookup_insert_ne.
    + intros q h pgh Hq _ _ _. by rewrite (to_table _ _ _ _ Hto).
  - by apply flush_sound.
  - by apply new_sound.
  - by apply delete_sound.
  - match goal with E : flush_file_pages _ _ = _ |- _ =>
      destruct (wp_run _ _ _ _ _ (flush_frames_spec w' s _ Hs) E) as (Hi & Hv & Ht & _) end.
    by apply sound_same.
  - match goal with E : flush_all_pages _ = _ |- _ =>
      destruct (wp_run _ _ _ _ _ (flush_frames_spec w' s _ Hs) E) as (Hi & Hv & Ht & _) end.
    by apply sound_same.
  - match goal with E : clear_file_pages _ _ _ = _, Hw : ∀ p, p ∈ w' → _ |- _ =>
      destruct (wp_run _ _ _ _ _ (clear_frames_spec zeroed w' s (λ p, fst p =? fd) true
        (λ _, (fd, INVALID_PAGE_ID)) Hs ltac:(done)
        ltac:(intros p Hp%Z.eqb_eq Hin; by apply (Hw p Hin))) E) as (Hi & Ht & Hv) end.
    split; [done| | |done].
    + intros q. rewrite Hv. simpl. by rewrite andb_false_r.
    + intros q h pgh Hq _ _ Hn. apply Ht. split; [done|]. by apply Z.eqb_neq.
Qed.

Lemma storage_reachable_inv r n d next s w :
  0 ≤ n → rep_inv n r → (∀ f, ¬ evictable r f) → storage_reachable r n d next (s, w) → storage_inv w s.
Proof using.
  intros Hn Hr He. change (storage_inv w s) with ((λ x : SBP * list PageId, storage_inv (snd x) (fst x)) (s, w)).
  apply star_invariant; [by apply new_storage_inv|].
  intros [s1 w1] [s2 w2] Hi [c Hstep]. by apply (storage_step_sound c s1 w1 s2 w2 Hi) in Hstep as [].
Qed.

(** ** The properties *)

(** C31: no write is lost. In every state the calls can reach, each call changes
    the contents of the pages (what the buffer has, or else the disk) exactly as
    it means: only a write changes a page and only a new page appears; fetching,
    evicting, flushing, deleting from the buffer and clearing a file change
    nothing; and a fetch returns a frame that holds the contents of its page. *)
Theorem storage_no_lost_write r n d next s w c s' w' :
  0 ≤ n → rep_inv n r → (∀ f, ¬ evictable r f) → storage_reachable r n d next (s, w) →
  storage_step c (s, w) (s', w') →
  (∀ q, value s' q = effect c (value s) q) ∧
  match c with Fetch p f | New p f => data_ <$> frame s' f = value s' p | _ => True end.
Proof using.
  intros Hn Hr He Hreach Hstep. pose proof (storage_reachable_inv r n d next s w Hn Hr He Hreach) as Hs.
  destruct (storage_step_sound c s w s' w' Hs Hstep) as [_ Hv _ Ha]. split; [done|].
  by destruct c; try destruct Ha.
Qed.

(** a pinned page stays in its frame: whatever call is made, other than
    clearing its file, the page table still has it there; no other page has that
    frame; and the replacer never offers it. *)
Theorem storage_pinned_stays r n d next s w c s' w' p f pg :
  0 ≤ n → rep_inv n r → (∀ g, ¬ evictable r g) → storage_reachable r n d next (s, w) →
  storage_step c (s, w) (s', w') →
  page_table_ s !! p = Some f → frame s f = Some pg → pin_count_ pg ≠ 0 → ¬ empties c p →
  page_table_ s' !! p = Some f ∧ (∀ q, page_table_ s' !! q = Some f → q = p) ∧
  ¬ evictable (replacer_ s) f.
Proof using.
  intros Hn Hr He Hreach Hstep Hp E Hpin Hc.
  pose proof (storage_reachable_inv r n d next s w Hn Hr He Hreach) as Hs.
  destruct (storage_step_sound c s w s' w' Hs Hstep) as [Hs' _ Hk _].
  pose proof (Hk p f pg Hp E Hpin Hc) as Hp'. split_and!; [done| |].
  - intros q Hq. by apply (storage_mapped_inj w' s' q p f).
  - by rewrite (si_idle _ _ Hs p f pg Hp E).
Qed.

(** [fetch_page] on every branch, for a page that the disk has: it returns a
    frame exactly when the page is buffered, or a frame is free, or some page is
    unpinned; otherwise it does not return the null pointer its comment
    announces but fails an assertion. *)
Theorem storage_fetch_returns r n d next s w p x :
  0 ≤ n → rep_inv n r → (∀ g, ¬ evictable r g) → storage_reachable r n d next (s, w) →
  snd p ≠ INVALID_PAGE_ID → disk s !! p = Some x →
  (is_Some (page_table_ s !! p) ∨ available s → wp (fetch_page zeroed p) (λ o _, is_Some o) s) ∧
  (page_table_ s !! p = None → ¬ available s → fetch_page zeroed p s = Crash (AssertFailed 85)).
Proof using.
  intros Hn Hr He Hreach Hpv Hd. pose proof (storage_reachable_inv r n d next s w Hn Hr He Hreach) as Hs. split.
  - intros Ha. destruct (page_table_ s !! p) as [f|] eqn:Ep.
    + destruct (mapped_frame w s p f Hs Ep) as (_ & pg & E & _).
      eapply wp_mono; [by apply (fetch_hit_spec zeroed w s p f pg)|]. intros o s' (-> & _). by eexists.
    + destruct Ha as [[? ?]|Ha]; [done|].
      eapply wp_mono; [by apply (fetch_miss_spec zeroed w s p x)|]. intros o s' (f & pg & -> & _). by eexists.
  - intros Hp Ha. by apply (unavailable_crash zeroed w).
Qed.

(** a read that fails leaves a poisoned page. When the disk does not have
    the page, [fetch_page] throws after it registered the page's frame, and the
    next fetch of the page returns that frame, filled with zeros. *)
Theorem storage_failed_read r n d next s w p :
  0 ≤ n → rep_inv n r → (∀ g, ¬ evictable r g) → storage_reachable r n d next (s, w) →
  snd p ≠ INVALID_PAGE_ID → page_table_ s !! p = None → disk s !! p = None → available s →
  wp (fetch_page zeroed p) (λ o s1, o = None ∧
    wp (fetch_page zeroed p) (λ o' s2, ∃ f, o' = Some f ∧ data_ <$> frame s2 f = Some zeroed) s1) s.
Proof using.
  intros Hn Hr He Hreach Hpv Hp Hd Ha. pose proof (storage_reachable_inv r n d next s w Hn Hr He Hreach) as Hs.
  eapply wp_mono; [by apply (fetch_failed_spec zeroed w)|].
  intros o s1 (-> & Hr1 & f & pg & Hp1 & E1 & _ & Hz & _). split; [done|].
  pose proof (storage_frame_range _ _ _ E1) as Hrg. unfold fetch_page, onReplacer, upd_page. do 2 wp_step. rewrite Hp1.
  do 2 wp_step. eapply wp_mono; [by apply (pin_law (size s))|]. intros [] r1 _.
  wp_step. apply (wp_storage_page f pg); [done|]. do 3 wp_step. exists f. split; [done|].
  rewrite frame_alter by lia. change (frame (set_replacer r1 s1) f) with (frame s1 f).
  rewrite decide_True, E1 by done. simpl. by rewrite Hz.
Qed.

(** C32: flushed pages survive a restart. After [flush_all_pages] a pool started
    afresh on the same disk has every page that nobody was writing with the
    contents it had; after [flush_page] the disk has the page. *)
Theorem storage_flush_durable r n d next s w (r' : R) n' next' :
  0 ≤ n → rep_inv n r → (∀ g, ¬ evictable r g) → storage_reachable r n d next (s, w) →
  wp flush_all_pages (λ _ s', ∀ p, p ∉ w →
    value (new_SBP zeroed r' n' (disk s') next') p = value s p) s ∧
  ∀ p, is_Some (page_table_ s !! p) → wp (flush_page p) (λ b s', b = true ∧ disk s' !! p = value s p) s.
Proof using.
  intros Hn Hr He Hreach. pose proof (storage_reachable_inv r n d next s w Hn Hr He Hreach) as Hs. split.
  - unfold flush_all_pages. eapply wp_mono; [by apply (flush_frames_spec w)|]. intros [] s' (Hi & Hv & Ht & Hd) p Hp.
    unfold value at 1. simpl. rewrite lookup_empty. destruct (page_table_ s !! p) as [f|] eqn:Ep.
    + apply Hd; [by eexists|done|done].
    + rewrite <- (Hv p). unfold value. by rewrite Ht, Ep.
  - intros p [f Hp]. destruct (mapped_frame w s p f Hs Hp) as (Hpv & pg & E & _).
    unfold flush_page. rewrite (proj2 (Z.eqb_neq _ _) Hpv). do 2 wp_step. rewrite Hp.
    wp_step. apply (wp_storage_page f pg); [done|].
    destruct (wp_inv _ _ _ (write_back_spec w s p f pg Hs Hp E)) as ([] & s1 & E1 & Hfl).
    unfold wp, write_page, upd_page, modify, mbind, M_bind, mret, M_ret in *. injection E1 as <-.
    split; [done|apply Hfl].
Qed.

(** [clear_all_pages] drops what was not flushed: afterwards no page is
    buffered and every page is what the disk has. *)
Theorem storage_clear_all_forgets r n d next s :
  0 ≤ n → rep_inv n r → (∀ g, ¬ evictable r g) → storage_reachable r n d next (s, []) →
  wp (clear_all_pages zeroed) (λ _ s', page_table_ s' = ∅ ∧ ∀ p, value s' p = disk s !! p) s.
Proof using.
  intros Hn Hr He Hreach. pose proof (storage_reachable_inv r n d next s [] Hn Hr He Hreach) as Hs.
  eapply wp_mono; [apply (clear_frames_spec zeroed [] s (λ _, true) false (λ p, (fst p, INVALID_PAGE_ID)) Hs)|].
  - done.
  - intros p _. apply not_elem_of_nil.
  - intros [] s' (_ & Ht & Hv). split; [|exact Hv]. apply map_empty. intros p.
    destruct (page_table_ s' !! p) as [f|] eqn:Ep; [|done]. by apply Ht in Ep as [_ ?].
Qed.
End protocol.

(** ** Two frames, three pages *)

Section demo.

Definition disk0 : gmap PageId Z := {[ (1, 0) := 10; (1, 1) := 20; (1, 2) := 30 ]}.
Definition pool0 : @StorageBufferPoolManager LRUReplacer Z :=
  new_SBP 0 (LRUR.new_LRUReplacer 2) 2 disk0 (λ _, 3).

Definition pool1 := after (fetch_page 0 (1, 0)) pool0.
Definition pool2 := after (write_frame 0 11) pool1.
Definition pool3 := after (unpin_page (1, 0) true) pool2.
Definition pool4 := after (fetch_page 0 (1, 1)) pool3.
Definition pool5 := after (fetch_page 0 (1, 2)) pool4.

Lemma pool0_no_evictable f : ¬ evictable (LRUR.new_LRUReplacer 2) f.
Proof. by intros ?%elem_of_nil. Qed.

Lemma step1 : storage_step 0 (Fetch (1, 0) 0) (pool0, []) (pool1, []).
Proof. apply ss_fetch; [done|]. unfold pool1. apply run_result. vm_compute. reflexivity. Qed.

Lemma step2 : storage_step 0 (Begin (1, 0)) (pool1, []) (pool1, [(1, 0)]).
Proof.
  eapply ss_begin; [vm_compute; reflexivity|vm_compute; reflexivity|vm_compute; reflexivity].
Qed.

Lemma step3 : storage_step 0 (Write (1, 0) 11) (pool1, [(1, 0)]) (pool2, [(1, 0)]).
Proof.
  eapply (ss_write 0 pool1 [(1, 0)] (1, 0) 0); [by left|vm_compute; reflexivity|].
  unfold pool2. apply run_result. vm_compute. reflexivity.
Qed.

Lemma step4 : storage_step 0 (Unpin (1, 0) true true) (pool2, [(1, 0)]) (pool3, []).
Proof.
  eapply ss_unpin; [vm_compute; reflexivity|vm_compute; reflexivity|vm_compute; discriminate| |].
  - right. split; [done|]. split; [by left|reflexivity].
  - unfold pool3. apply run_result. vm_compute. reflexivity.
Qed.

Lemma step5 : storage_step 0 (Fetch (1, 1) 1) (pool3, []) (pool4, []).
Proof. apply ss_fetch; [done|]. unfold pool4. apply run_result. vm_compute. reflexivity. Qed.

(** The third page takes frame 0; the dirty page goes back to the disk. *)
Lemma step6 : storage_step 0 (Fetch (1, 2) 0) (pool4, []) (pool5, []).
Proof. apply ss_fetch; [done|]. unfold pool5. apply run_result. vm_compute. reflexivity. Qed.

Lemma pool4_reachable : storage_reachable 0 (LRUR.new_LRUReplacer 2) 2 disk0 (λ _, 3) (pool4, []).
Proof.
  apply (star_snoc _ _ (pool3, [])); [|exists (Fetch (1, 1) 1); exact step5].
  apply (star_snoc _ _ (pool2, [(1, 0)])); [|exists (Unpin (1, 0) true true); exact step4].
  apply (star_snoc _ _ (pool1, [(1, 0)])); [|exists (Write (1, 0) 11); exact step3].
  apply (star_snoc _ _ (pool1, [])); [|exists (Begin (1, 0)); exact step2].
  apply (star_snoc _ _ (pool0, [])); [|exists (Fetch (1, 0) 0); exact step1].
  apply star_refl.
Qed.

Lemma pool5_reachable : storage_reachable 0 (LRUR.new_LRUReplacer 2) 2 disk0 (λ _, 3) (pool5, []).
Proof. apply (star_snoc _ _ (pool4, [])); [exact pool4_reachable|exists (Fetch (1, 2) 0); exact step6]. Qed.

Lemma lrur2_inv : lrur_inv 2 (LRUR.new_LRUReplacer 2).
Proof. by apply new_lrur_inv. Qed.

Lemma storage_no_lost_write_witness :
  value pool5 (1, 0) = Some 11 ∧ disk pool5 !! (1, 0) = Some 11 ∧ value pool5 (1, 0) = value pool4 (1, 0).
Proof.
  split; [vm_compute; reflexivity|]. split; [vm_compute; reflexivity|].
  exact (proj1 (storage_no_lost_write 0 (LRUR.new_LRUReplacer 2) 2 disk0 (λ _, 3) pool4 [] (Fetch (1, 2) 0)
    pool5 [] ltac:(done) lrur2_inv pool0_no_evictable pool4_reachable step6) (1, 0)).
Defined.

(** Page (1, 1) is pinned in frame 1, so page (1, 2) had to take frame 0. *)
Lemma storage_pinned_stays_witness : page_table_ pool5 !! (1, 1) = Some 1.
Proof.
  refine (proj1 (storage_pinned_stays 0 (LRUR.new_LRUReplacer 2) 2 disk0 (λ _, 3) pool4 [] (Fetch (1, 2) 0)
    pool5 [] (1, 1) 1 (mkPage (-1) (1, 1) 20 false 1) _ lrur2_inv pool0_no_evictable pool4_reachable step6 _ _ _ _)).
  - done.
  - vm_compute. reflexivity.
  - vm_compute. reflexivity.
  - done.
  - intros [].
Defined.

(** Both frames are pinned. *)
Lemma storage_fetch_returns_witness : fetch_page 0 (1, 0) pool5 = Crash (AssertFailed 85).
Proof.
  refine (proj2 (storage_fetch_returns 0 (LRUR.new_LRUReplacer 2) 2 disk0 (λ _, 3) pool5 [] (1, 0) 11 _ lrur2_inv
    pool0_no_evictable pool5_reachable _ _) _ _).
  - done.
  - done.
  - vm_compute. reflexivity.
  - vm_compute. reflexivity.
  - intros [Hf|(p & f & pg & Hp & E & Hpin)].
    + apply Hf. vm_compute. reflexivity.
    + assert (f = 0 ∨ f = 1) as [-> | ->].
      { apply storage_frame_range in E. assert (size pool5 = 2) by (vm_compute; reflexivity). lia. }
      * vm_compute in E. injection E as <-. discriminate.
      * vm_compute in E. injection E as <-. discriminate.
Defined.

Lemma storage_failed_read_witness :
  wp (fetch_page 0 (1, 9)) (λ o s1, o = None ∧
    wp (fetch_page 0 (1, 9)) (λ o' s2, ∃ f, o' = Some f ∧ data_ <$> frame s2 f = Some 0) s1) pool4.
Proof.
  apply (storage_failed_read 0 (LRUR.new_LRUReplacer 2) 2 disk0 (λ _, 3) pool4 [] (1, 9) ltac:(done) lrur2_inv
    pool0_no_evictable pool4_reachable).
  - done.
  - vm_compute. reflexivity.
  - vm_compute. reflexivity.
  - right. exists (1, 0), 0, (mkPage (-1) (1, 0) 11 true 0). split_and!; vm_compute; reflexivity.
Defined.

Lemma storage_flush_durable_witness :
  wp flush_all_pages (λ _ s', ∀ p, p ∉ [] →
    value (new_SBP 0 (LRUR.new_LRUReplacer 2) 2 (disk s') (λ _, 3)) p = value pool4 p) pool4.
Proof.
  exact (proj1 (storage_flush_durable 0 (LRUR.new_LRUReplacer 2) 2 disk0 (λ _, 3) pool4 []
    (LRUR.new_LRUReplacer 2) 2 (λ _, 3) ltac:(done) lrur2_inv pool0_no_evictable pool4_reachable)).
Defined.

(** The write of 11, not flushed yet, is gone. *)
Lemma storage_clear_all_forgets_witness :
  value pool4 (1, 0) = Some 11 ∧
  wp (clear_all_pages 0) (λ _ s', page_table_ s' = ∅ ∧ ∀ p, value s' p = disk pool4 !! p) pool4.
Proof.
  split; [vm_compute; reflexivity|].
  exact (storage_clear_all_forgets 0 (LRUR.new_LRUReplacer 2) 2 disk0 (λ _, 3) pool4 ltac:(done) lrur2_inv
    pool0_no_evictable pool4_reachable).
Defined.
End demo.
