(* ===== verification/LockWait.v ===== *)
(** Waiting for a row lock: [LockWaitManager] ([core/dtx/lock_wait.h]) and the
    handlers of [compute_server/server.cc] that call it on another node.

    A manager is the state of one node; every method of the source that takes
    [mtx_] is one definition here, run atomically.  A call that reaches other
    nodes ([PrepareHandoff], [TryAcceptHandoff], [DeliverHandoff], the chain
    walk) is a computation on all the managers of the cluster.  Statistics,
    log lines, timers and the fiber of a waiter are left out; an RPC that
    fails aborts the process in the source and is taken to succeed. *)

From stdpp Require Import functions.
From S2P Require Import Prelude Common.

(** ** Data *)

Record TupleWaitKey : Set := mkKey {
  key_table : Z;
  key_page : Z;
  key_slot : Z
}.

#[export] Instance TupleWaitKey_eq_dec : EqDecision TupleWaitKey.
Proof. solve_decision. Defined.

#[export] Instance TupleWaitKey_countable : Countable TupleWaitKey.
Proof.
  refine (inj_countable' (λ k, (key_table k, key_page k, key_slot k))
    (λ '(t, p, s), mkKey t p s) _).
  by intros [].
Defined.

Inductive WaitFlag : Set := WAITING | GRANTED | RESERVED.

#[export] Instance WaitFlag_eq_dec : EqDecision WaitFlag.
Proof. solve_decision. Defined.

Inductive LockWaitResult : Set := GRANTED_RETRY | VICTIM_ABORT | TIMEOUT_ABORT.

(** One episode of waiting; [w_holder_*] is the edge of the waits-for graph. *)
Record WaitState : Type := mkWait {
  w_flag : WaitFlag;
  reservation_key : TupleWaitKey;
  reservation_source : Z;
  reservation_version : Z;
  w_holder_ts : Z;
  w_holder_node : Z;
  w_holder_version : Z;
  w_key : TupleWaitKey;
  w_key_set : bool
}.

Definition set_flag (f : WaitFlag) (w : WaitState) : WaitState :=
  mkWait f (reservation_key w) (reservation_source w) (reservation_version w)
    (w_holder_ts w) (w_holder_node w) (w_holder_version w) (w_key w) (w_key_set w).
Definition set_reservation (k : TupleWaitKey) (src v : Z) (w : WaitState) : WaitState :=
  mkWait (w_flag w) k src v
    (w_holder_ts w) (w_holder_node w) (w_holder_version w) (w_key w) (w_key_set w).
Definition set_holder (ts node v : Z) (w : WaitState) : WaitState :=
  mkWait (w_flag w) (reservation_key w) (reservation_source w) (reservation_version w)
    ts node v (w_key w) (w_key_set w).

Record TupleWaitQueue : Type := mkQueue {
  waiters : list (Z * Z);      (* (waiter_ts, waiter_node), first come first *)
  owner_holder_ts : Z;
  version : Z
}.
Definition new_queue : TupleWaitQueue := mkQueue [] 0 0.

Record PendingHandoff : Type := mkHandoff {
  h_key : TupleWaitKey;
  source_holder_ts : Z;
  new_holder_ts : Z;
  new_holder_node : Z;
  h_version : Z;
  tail : list (Z * Z);
  local_wake : bool;
  prepared : bool
}.

Definition unowned_handoff (key : TupleWaitKey) (holder_ts : Z) : PendingHandoff :=
  mkHandoff key holder_ts 0 (-1) 0 [] false true.

Record Manager : Type := mkManager {
  active_txs : gset Z;
  local_queues : gmap TupleWaitKey TupleWaitQueue;
  holder_keys : gmap Z (gset TupleWaitKey);
  forwarded_keys : gmap Z (gset TupleWaitKey);
  local_waiters : gmap Z WaitState
}.

Definition new_Manager : Manager := mkManager ∅ ∅ ∅ ∅ ∅.

Definition upd_active (f : gset Z → gset Z) (m : Manager) : Manager :=
  mkManager (f (active_txs m)) (local_queues m) (holder_keys m) (forwarded_keys m)
    (local_waiters m).
Definition upd_queues (f : gmap TupleWaitKey TupleWaitQueue → gmap TupleWaitKey TupleWaitQueue)
    (m : Manager) : Manager :=
  mkManager (active_txs m) (f (local_queues m)) (holder_keys m) (forwarded_keys m)
    (local_waiters m).
Definition upd_holder_keys (f : gmap Z (gset TupleWaitKey) → gmap Z (gset TupleWaitKey))
    (m : Manager) : Manager :=
  mkManager (active_txs m) (local_queues m) (f (holder_keys m)) (forwarded_keys m)
    (local_waiters m).
Definition upd_forwarded (f : gmap Z (gset TupleWaitKey) → gmap Z (gset TupleWaitKey))
    (m : Manager) : Manager :=
  mkManager (active_txs m) (local_queues m) (holder_keys m) (f (forwarded_keys m))
    (local_waiters m).
Definition upd_waiters (f : gmap Z WaitState → gmap Z WaitState) (m : Manager) : Manager :=
  mkManager (active_txs m) (local_queues m) (holder_keys m) (forwarded_keys m)
    (f (local_waiters m)).

(** [map[ts]] of a map of sets: a missing entry is an empty set. *)
Definition keys_of (ts : Z) (m : gmap Z (gset TupleWaitKey)) : gset TupleWaitKey :=
  default ∅ (m !! ts).

(** [map[ts].insert(key)] creates the entry; [find] and [erase] do not. *)
Definition add_key (ts : Z) (key : TupleWaitKey) (m : gmap Z (gset TupleWaitKey)) :=
  <[ts := {[key]} ∪ keys_of ts m]> m.
Definition drop_key (ts : Z) (key : TupleWaitKey) (m : gmap Z (gset TupleWaitKey)) :=
  alter (λ s, s ∖ {[key]}) ts m.

(** ** Registration *)

Definition OnTxnBegin (start_ts : Z) : M Manager unit :=
  modify (upd_active (λ s, {[start_ts]} ∪ s)).

(** The last part of [OnRegisterTupleWait]: [local_queues_[key]] creates the
    queue, and only a brand-new queue gets an owner. *)
Definition enqueue_waiter (key : TupleWaitKey) (holder_ts waiter_ts waiter_node : Z)
    : M Manager bool :=
  q ← gets (λ m, default new_queue (local_queues m !! key)) ;
  let brand_new_queue := owner_holder_ts q =? 0 in
  when brand_new_queue (modify (upd_holder_keys (add_key holder_ts key))) ;;
  modify (upd_queues (insert key
    (mkQueue (waiters q ++ [(waiter_ts, waiter_node)])
       (if brand_new_queue then holder_ts else owner_holder_ts q) (version q)))) ;;
  mret false.

(** [true]: do not wait, read the row again. *)
Definition OnRegisterTupleWait (key : TupleWaitKey) (holder_ts waiter_ts waiter_node : Z)
    : M Manager bool :=
  released ← gets (λ m, bool_decide (key ∈ keys_of holder_ts (forwarded_keys m))) ;
  if released : bool then mret true
  else
    active ← gets (λ m, bool_decide (holder_ts ∈ active_txs m)) ;
    if negb active then mret true
    else
      oq ← gets (λ m, local_queues m !! key) ;
      match oq with
      | Some q =>
          if negb (owner_holder_ts q =? holder_ts) then mret true
          else if existsb (λ w, w.1 =? waiter_ts) (waiters q) then mret false
          else enqueue_waiter key holder_ts waiter_ts waiter_node
      | None => enqueue_waiter key holder_ts waiter_ts waiter_node
      end.

(** ** Giving a row up *)

Definition MarkForwardedLocked (key : TupleWaitKey) (holder_ts : Z) : M Manager unit :=
  modify (upd_forwarded (add_key holder_ts key)).

(** [local_queues_.erase(it)] and the entry of the reverse index. *)
Definition erase_queue (key : TupleWaitKey) (holder_ts : Z) : M Manager unit :=
  modify (upd_queues (delete key)) ;;
  modify (upd_holder_keys (drop_key holder_ts key)).

Definition PrepareUncontendedUnlock (key : TupleWaitKey) (holder_ts : Z)
    : M Manager (option PendingHandoff) :=
  let rest :=
    fwd ← gets (λ m, keys_of holder_ts (forwarded_keys m)) ;
    check 265 (bool_decide (key ∉ fwd)) ;;
    MarkForwardedLocked key holder_ts ;;
    mret (Some (unowned_handoff key holder_ts)) in
  oq ← gets (λ m, local_queues m !! key) ;
  match oq with
  | Some q =>
      check 259 (owner_holder_ts q =? holder_ts) ;;
      if negb (bool_decide (waiters q = [])) then mret None
      else erase_queue key holder_ts ;; rest
  | None => rest
  end.

(** The first critical section of [PrepareHandoff]. *)
Definition freeze (key : TupleWaitKey) (holder_ts : Z) : M Manager unit :=
  fwd ← gets (λ m, keys_of holder_ts (forwarded_keys m)) ;
  check 305 (bool_decide (key ∉ fwd)) ;;
  MarkForwardedLocked key holder_ts.

Definition ReserveWaiterLocked (st : WaitState) (key : TupleWaitKey) (source v : Z)
    : option WaitState :=
  if negb (bool_decide (w_flag st = WAITING)) then None
  else if w_key_set st && (negb (bool_decide (w_key st = key)) ||
            negb (w_holder_ts st =? source) || (v <=? w_holder_version st))
  then None
  else Some (set_flag RESERVED (set_reservation key source v st)).

Definition SameReservation (st : WaitState) (key : TupleWaitKey) (source v : Z) : bool :=
  bool_decide (reservation_key st = key) && (reservation_source st =? source) &&
  (reservation_version st =? v) && negb (v =? 0).

(** The record of one waiter after news of its new holder: older news and news
    of another wait are dropped. *)
Definition refresh_holder (new_ts new_node : Z) (key : TupleWaitKey) (v : Z)
    (st : WaitState) : WaitState :=
  if v <=? w_holder_version st then st
  else if w_key_set st && negb (bool_decide (w_key st = key)) then st
  else set_holder new_ts new_node v st.

(** [remote_out[node].push_back(ts)] *)
Definition push_remote (node ts : Z) (r : gmap Z (list Z)) : gmap Z (list Z) :=
  <[node := default [] (r !! node) ++ [ts]]> r.

Fixpoint UpdateTailHolderLocked (l : list (Z * Z)) (new_owner_ts new_owner_node self_node : Z)
    (key : TupleWaitKey) (v : Z) (remote_out : gmap Z (list Z))
    : M Manager (gmap Z (list Z)) :=
  match l with
  | [] => mret remote_out
  | (ts, node) :: l' =>
      if node =? self_node then
        modify (upd_waiters (alter (refresh_holder new_owner_ts new_owner_node key v) ts)) ;;
        UpdateTailHolderLocked l' new_owner_ts new_owner_node self_node key v remote_out
      else
        UpdateTailHolderLocked l' new_owner_ts new_owner_node self_node key v
          (push_remote node ts remote_out)
  end.

Definition OnUpdateWaiterHolder (l : list Z) (new_ts new_node : Z) (key : TupleWaitKey) (v : Z)
    : M Manager unit :=
  for_each (λ ts, modify (upd_waiters (alter (refresh_holder new_ts new_node key v) ts))) l.

Inductive Head : Type :=
  | NoWaiter
  | HeadGone
  | HeadReserved (ph : PendingHandoff) (updates : gmap Z (list Z))
  | HeadRemote (ph : PendingHandoff).

(** The critical section of one iteration of [PrepareHandoff]. *)
Definition take_head (key : TupleWaitKey) (holder_ts self_node : Z) : M Manager Head :=
  oq ← gets (λ m, local_queues m !! key) ;
  match oq with
  | None => mret NoWaiter
  | Some q =>
      check 316 (owner_holder_ts q =? holder_ts) ;;
      match waiters q with
      | [] => erase_queue key holder_ts ;; mret NoWaiter
      | (ts, node) :: rest =>
          let v := u64 (version q + 1) in
          modify (upd_queues (insert key (mkQueue rest (owner_holder_ts q) v))) ;;
          if node =? self_node then
            ow ← gets (λ m, local_waiters m !! ts) ;
            match ow ≫= λ st, ReserveWaiterLocked st key holder_ts v with
            | None => mret HeadGone
            | Some st' =>
                modify (upd_waiters (insert ts st')) ;;
                modify (upd_queues (insert key (mkQueue rest ts v))) ;;
                modify (upd_holder_keys (add_key ts key)) ;;
                modify (upd_holder_keys (drop_key holder_ts key)) ;;
                updates ← UpdateTailHolderLocked rest ts self_node self_node key v ∅ ;
                mret (HeadReserved (mkHandoff key holder_ts ts node v rest true true) updates)
            end
          else mret (HeadRemote (mkHandoff key holder_ts ts node v rest false true))
      end
  end.

(** The queue goes once another node has taken it over. *)
Definition hand_queue_over (key : TupleWaitKey) (holder_ts : Z) : M Manager unit :=
  oq ← gets (λ m, local_queues m !! key) ;
  check 346 (match oq with Some q => owner_holder_ts q =? holder_ts | None => false end) ;;
  erase_queue key holder_ts.

(** ** Taking a row over *)

(** The critical section of [TryAcceptHandoff]; [None] refuses. *)
Definition accept_handoff (key : TupleWaitKey) (owner_ts v : Z) (l : list (Z * Z))
    (self_node source : Z) : M Manager (option (gmap Z (list Z))) :=
  ow ← gets (λ m, local_waiters m !! owner_ts) ;
  match ow with
  | None => mret None
  | Some st =>
      let finish :=
        updates ← UpdateTailHolderLocked l owner_ts self_node self_node key v ∅ ;
        mret (Some updates) in
      if negb (bool_decide (w_flag st = WAITING)) then
        if negb (SameReservation st key source v) then mret None
        else if bool_decide (w_flag st = GRANTED) then mret (Some ∅)
        else finish
      else
        match ReserveWaiterLocked st key source v with
        | None => mret None
        | Some st' =>
            modify (upd_waiters (insert owner_ts st')) ;;
            q ← gets (λ m, default new_queue (local_queues m !! key)) ;
            check 395 (version q <? v) ;;
            modify (upd_queues (insert key (mkQueue (l ++ waiters q) owner_ts v))) ;;
            modify (upd_holder_keys (add_key owner_ts key)) ;;
            finish
        end
  end.

Definition PublishHandoff (key : TupleWaitKey) (owner_ts source v : Z) : M Manager bool :=
  ow ← gets (λ m, local_waiters m !! owner_ts) ;
  match ow with
  | None => mret true
  | Some st =>
      if negb (SameReservation st key source v) then mret true
      else if bool_decide (w_flag st = GRANTED) then mret true
      else
        check 420 (bool_decide (w_flag st = RESERVED)) ;;
        modify (upd_waiters (insert owner_ts (set_flag GRANTED st))) ;;
        mret true
  end.

(** Whom the transaction waits for; a reserved or granted one waits for nobody. *)
Definition QueryWaiterHolder (waiter_ts : Z) (m : Manager) : option (Z * Z) :=
  match local_waiters m !! waiter_ts with
  | Some st => if bool_decide (w_flag st = WAITING) then Some (w_holder_ts st, w_holder_node st)
               else None
  | None => None
  end.

(** ** The end of a transaction *)

Definition FinishTx (holder_ts : Z) : M Manager unit :=
  modify (upd_active (λ s, s ∖ {[holder_ts]})) ;;
  has_residual ← gets (λ m, negb (bool_decide (keys_of holder_ts (holder_keys m) = ∅))) ;
  modify (upd_forwarded (delete holder_ts)) ;;
  modify (upd_holder_keys (delete holder_ts)) ;;
  check 649 (negb has_residual).

(** ** The waiting side *)

Definition new_WaitState (holder_ts holder_node : Z) (key : TupleWaitKey) : WaitState :=
  mkWait WAITING (mkKey 0 0 0) 0 0 holder_ts holder_node 0 key true.

Definition RegisterLocalWaiter (waiter_ts : Z) (st : WaitState) : M Manager unit :=
  ow ← gets (λ m, local_waiters m !! waiter_ts) ;
  check 740 (match ow with None => true | Some _ => false end) ;;
  modify (upd_waiters (insert waiter_ts st)).

(** [None]: the waiter is reserved and has to stay; [Some adopted] otherwise. *)
Definition TryUnregisterLocalWaiter (waiter_ts : Z) : M Manager (option bool) :=
  ow ← gets (λ m, local_waiters m !! waiter_ts) ;
  match ow with
  | None => crash (AssertFailed 748)
  | Some st =>
      if bool_decide (w_flag st = RESERVED) then mret None
      else modify (upd_waiters (delete waiter_ts)) ;;
           mret (Some (bool_decide (w_flag st = GRANTED)))
  end.

Definition UnregisterLocalWaiter (waiter_ts : Z) : M Manager bool :=
  r ← TryUnregisterLocalWaiter waiter_ts ;
  match r with
  | Some adopted => mret adopted
  | None => crash (AssertFailed 758)
  end.

(** [WaitForLock] up to the registration call. *)
Definition wait_begin (waiter_ts holder_ts holder_node : Z) (key : TupleWaitKey) : M Manager unit :=
  RegisterLocalWaiter waiter_ts (new_WaitState holder_ts holder_node key).

(** [WaitForLock] after the registration call: whether it returns at once. *)
Definition wait_registered (waiter_ts : Z) (granted : bool) : M Manager (option LockWaitResult) :=
  if granted then
    r ← TryUnregisterLocalWaiter waiter_ts ;
    mret (match r with Some _ => Some GRANTED_RETRY | None => None end)
  else mret None.

(** One iteration of the loop of [WaitForLock] and what follows it: [in_fiber]
    says that there is a scheduler to suspend the waiter, [check_due] that the
    detector has to run, [cycle] what it answers ([wait_detect]); [None] goes on
    waiting.  The watchdog, which ends the process, is left out. *)
Definition wait_round (waiter_ts : Z) (in_fiber check_due cycle : bool)
    : M Manager (option LockWaitResult) :=
  ow ← gets (λ m, local_waiters m !! waiter_ts) ;
  match ow with
  | Some st =>
    match w_flag st with
    | GRANTED => UnregisterLocalWaiter waiter_ts ;; mret (Some GRANTED_RETRY)
    | RESERVED => check 902 in_fiber ;; mret None
    | WAITING =>
        if check_due && cycle then
          r ← TryUnregisterLocalWaiter waiter_ts ;
          mret (match r with
                | Some adopted => Some (if (adopted : bool) then GRANTED_RETRY else VICTIM_ABORT)
                | None => None
                end)
        else check 952 (check_due || in_fiber) ;; mret None
    end
  | None => mret None
  end.

(** ** The lock word of a row *)

(** The fields of [DataItem] that carry the lock. *)
Record DataItem : Set := mkItem {
  lock : Z;
  timeStamp : Z;
  holder_node : Z;
  lock_owner_node : Z
}.

Definition u8 (z : Z) : Z := z mod 2 ^ 8.

Definition UnlockTupleWithHandoff2PC (key : TupleWaitKey) (holder_ts : Z) (ph : PendingHandoff)
    : M DataItem bool :=
  check 1741 (prepared ph && bool_decide (h_key ph = key) && (source_holder_ts ph =? holder_ts)) ;;
  held ← gets (λ it, (lock it =? EXCLUSIVE_LOCKED) && (timeStamp it =? holder_ts)) ;
  check 1742 held ;;
  if new_holder_ts ph =? 0 then mret false
  else
    modify (λ it, mkItem (lock it) (new_holder_ts ph) (u8 (new_holder_node ph))
                    (u8 (new_holder_node ph))) ;;
    mret true.

(** What the commit and the abort do with the answer. *)
Definition write_unlocked (key : TupleWaitKey) (holder_ts : Z) (ph : PendingHandoff)
    : M DataItem bool :=
  lw_handed ← UnlockTupleWithHandoff2PC key holder_ts ph ;
  when (negb lw_handed)
    (modify (λ it, mkItem UNLOCKED (timeStamp it) (holder_node it) (lock_owner_node it))) ;;
  mret lw_handed.

(** ** The cluster: one manager per node *)

Class NodeCount := ComputeNodeCount : Z.

Abbreviation Nodes := (Z → Manager).

Definition at_node {A} (n : Z) (m : M Manager A) : M Nodes A :=
  zoom (λ N : Nodes, N n) (λ t N, <[n := t]> N) m.

Section cluster.
Context `{NodeCount}.

Definition is_node (n : Z) : bool := (0 <=? n) && (n <? ComputeNodeCount).

(** The beginning of [WaitForLock]. *)
Definition wait_enter (waiter_ts self_node holder_ts holder_node lock_owner_node : Z) (key : TupleWaitKey)
    : M Nodes unit :=
  check 778 (is_node holder_node) ;;
  check 779 (is_node lock_owner_node) ;;
  at_node self_node (wait_begin waiter_ts holder_ts holder_node key).

(** One [UpdateWaiterHolder] message. *)
Definition send_update (new_ts new_node : Z) (key : TupleWaitKey) (v : Z) (n : Z) (l : list Z)
    : M Nodes unit :=
  check 520 (is_node new_node) ;;
  check 522 (is_node n) ;;
  at_node n (OnUpdateWaiterHolder l new_ts new_node key v).

Definition SendHolderUpdateRPCs (updates : gmap Z (list Z)) (new_ts new_node : Z)
    (key : TupleWaitKey) (v : Z) : M Nodes unit :=
  for_each (λ '(n, l), send_update new_ts new_node key v n l) (map_to_list updates).

Definition TryAcceptHandoff (key : TupleWaitKey) (owner_ts v : Z) (l : list (Z * Z))
    (self_node source : Z) : M Nodes bool :=
  r ← at_node self_node (accept_handoff key owner_ts v l self_node source) ;
  match r with
  | None => mret false
  | Some updates =>
      SendHolderUpdateRPCs updates owner_ts self_node key v ;;
      mret true
  end.

(** The [RESERVE] call and the [PUBLISH] call, with [HandoffQueue] on the other side. *)
Definition SendHandoffRemote (ph : PendingHandoff) (publish : bool) : M Nodes bool :=
  check 658 (is_node (new_holder_node ph)) ;;
  if publish then
    at_node (new_holder_node ph)
      (PublishHandoff (h_key ph) (new_holder_ts ph) (source_holder_ts ph) (h_version ph))
  else
    TryAcceptHandoff (h_key ph) (new_holder_ts ph) (h_version ph) (tail ph)
      (new_holder_node ph) (source_holder_ts ph).

(** The loop of [PrepareHandoff]; every iteration takes one waiter off the
    queue, so that [fuel] above the length of the queue is enough. *)
Fixpoint handoff_loop (fuel : nat) (key : TupleWaitKey) (holder_ts self_node : Z)
    : M Nodes PendingHandoff :=
  match fuel with
  | O => block
  | S fuel' =>
      h ← at_node self_node (take_head key holder_ts self_node) ;
      match h with
      | NoWaiter => mret (unowned_handoff key holder_ts)
      | HeadGone => handoff_loop fuel' key holder_ts self_node
      | HeadReserved ph updates =>
          SendHolderUpdateRPCs updates (new_holder_ts ph) (new_holder_node ph) key
            (h_version ph) ;;
          mret ph
      | HeadRemote ph =>
          accepted ← SendHandoffRemote ph false ;
          if accepted : bool then at_node self_node (hand_queue_over key holder_ts) ;; mret ph
          else handoff_loop fuel' key holder_ts self_node
      end
  end.

Definition queue_length (key : TupleWaitKey) (m : Manager) : nat :=
  match local_queues m !! key with Some q => length (waiters q) | None => O end.

Definition PrepareHandoff (key : TupleWaitKey) (holder_ts self_node : Z)
    : M Nodes PendingHandoff :=
  at_node self_node (freeze key holder_ts) ;;
  n ← gets (λ N : Nodes, queue_length key (N self_node)) ;
  handoff_loop (S n) key holder_ts self_node.

Definition DeliverHandoff (ph : PendingHandoff) (self_node : Z) : M Nodes unit :=
  check 365 (prepared ph) ;;
  if new_holder_ts ph =? 0 then mret tt
  else if new_holder_node ph =? self_node then
    ok ← at_node self_node
      (PublishHandoff (h_key ph) (new_holder_ts ph) (source_holder_ts ph) (h_version ph)) ;
    check 368 ok
  else
    ok ← SendHandoffRemote ph true ;
    check 370 ok.

(** ** Deadlock detection: following the waits-for edges from node to node *)

Definition kMaxChainHops : Z := 128.

Definition QueryHolderOnNode (cur_ts cur_node self_node : Z) (N : Nodes) : option (Z * Z) :=
  if cur_node =? self_node then QueryWaiterHolder cur_ts (N self_node)
  else if negb (is_node cur_node) then None
  else QueryWaiterHolder cur_ts (N cur_node).

Section walk.
(** [expired hop]: the budget is used up at that hop. *)
Variable expired : Z → bool.
Variable my_ts self_node : Z.

Fixpoint chain_walk (hops : nat) (hop : Z) (visited : gset Z) (cur_ts cur_node : Z)
    : M Nodes bool :=
  match hops with
  | O => mret false
  | S hops' =>
      if expired hop then mret false
      else
        check 1022 (negb (hop =? kMaxChainHops - 1)) ;;
        if cur_ts =? my_ts then mret true
        else if bool_decide (cur_ts ∈ visited) then mret false
        else
          next ← gets (QueryHolderOnNode cur_ts cur_node self_node) ;
          match next with
          | None => mret false
          | Some (next_ts, next_node) =>
              if next_ts =? my_ts then mret true
              else chain_walk hops' (hop + 1) ({[cur_ts]} ∪ visited) next_ts next_node
          end
  end.

Definition DetectDeadlockByChainWalk (holder_ts holder_node : Z) : M Nodes bool :=
  chain_walk (Z.to_nat kMaxChainHops) 0 {[my_ts]} holder_ts holder_node.

(** The turn of the detector in the loop of [WaitForLock]: whom the transaction
    waits for is read again, and is as it was at the beginning if there is no answer. *)
Definition wait_detect (holder_ts holder_node : Z) : M Nodes bool :=
  cur ← gets (λ N : Nodes, QueryWaiterHolder my_ts (N self_node)) ;
  let '(cur_holder_ts, cur_holder_node) := default (holder_ts, holder_node) cur in
  DetectDeadlockByChainWalk cur_holder_ts cur_holder_node.
End walk.
End cluster.
