(* ===== verification/LockWaitProtocol.v ===== *)
(** Row locks and waiting across the cluster: every transaction of every node,
    in any interleaving of the critical sections of [LockWait] and of the RPCs
    between them.  The rows' lock words live on pages that are read and written
    under the page's exclusive latch, so a row is taken, installed and freed in
    one step; everything else (a conflict that was read a while ago, a
    registration in flight, a reservation, news for the tail, a repeated RPC)
    is a step of its own.  The guarantees: no check of the code fails, nobody
    who waits is forgotten, the row passes to exactly one live transaction, and
    the edges the deadlock detector follows are right. *)

From stdpp Require Import functions.
From S2P Require Import Prelude Common LockWait.

(** Where a transaction runs. *)
Class Placement := {
  placement_count :: NodeCount;
  home : Z → Z;
  home_is_node : ∀ t, is_node (home t) = true
}.

(** ** The transactions *)

(** How far the unlocking of a row has got: between [freeze] and the return of
    [PrepareHandoff] (to [Adopted]/[Updating]), the write of the row
    ([Prepared]) and [DeliverHandoff] ([Installed]). *)
Inductive Stage : Type :=
  | Frozen
  | Asking (ph : PendingHandoff)
  | Adopted (ph : PendingHandoff) (updates : gmap Z (list Z))
  | Updating (ph : PendingHandoff) (updates : gmap Z (list Z))
  | Prepared (ph : PendingHandoff)
  | Installed (ph : PendingHandoff).

Inductive Phase : Type :=
  | Unborn
  | Running
  | Registering (key : TupleWaitKey) (holder : Z)
  | Rejected (key : TupleWaitKey)
  | Waiting (key : TupleWaitKey)
  | Finishing
  | Unlocking (key : TupleWaitKey) (st : Stage)
  | Gone.

Record Sys : Type := mkSys {
  mgr : Nodes;
  row : TupleWaitKey → option Z;
  phase : Z → Phase;
  delivered : list PendingHandoff
}.

Definition set_mgr (N : Nodes) (s : Sys) : Sys := mkSys N (row s) (phase s) (delivered s).
Definition set_row (k : TupleWaitKey) (o : option Z) (s : Sys) : Sys :=
  mkSys (mgr s) (<[k := o]> (row s)) (phase s) (delivered s).
Definition set_phase (t : Z) (p : Phase) (s : Sys) : Sys :=
  mkSys (mgr s) (row s) (<[t := p]> (phase s)) (delivered s).
Definition log_delivery (ph : PendingHandoff) (s : Sys) : Sys :=
  mkSys (mgr s) (row s) (phase s) (ph :: delivered s).

Definition initial : Sys := mkSys (λ _, new_Manager) (λ _, None) (λ _, Unborn) [].

(** What [write_unlocked] makes of the row (see [shows] and [install_writes_row]
    in [LockWaitSafety]): the new owner is written, or the row is freed. *)
Definition install (t : Z) (k : TupleWaitKey) (ph : PendingHandoff) (s : Sys) : Sys :=
  if new_holder_ts ph =? 0 then set_phase t Finishing (set_row k None s)
  else set_phase t (Unlocking k (Installed ph)) (set_row k (Some (new_holder_ts ph)) s).

Definition after_head (k : TupleWaitKey) (t : Z) (h : Head) : Stage :=
  match h with
  | NoWaiter => Prepared (unowned_handoff k t)
  | HeadGone => Frozen
  | HeadReserved ph updates => Updating ph updates
  | HeadRemote ph => Asking ph
  end.

Definition after_round (w : Z) (r : option LockWaitResult) (s : Sys) : Sys :=
  match r with
  | None => s
  | Some VICTIM_ABORT => set_phase w Finishing s
  | Some _ => set_phase w Running s
  end.

Section protocol.
Context `{Placement}.

Definition ask (ph : PendingHandoff) : M Nodes (option (gmap Z (list Z))) :=
  at_node (new_holder_node ph)
    (accept_handoff (h_key ph) (new_holder_ts ph) (h_version ph) (tail ph)
       (new_holder_node ph) (source_holder_ts ph)).

(** At most so many transactions wait besides [w]: the assertion of the detector on
    the number of hops says that the load never has a longer chain. *)
Definition waiting_others (w : Z) (n : nat) (N : Nodes) : Prop :=
  ∃ W : list Z, (length W ≤ n)%nat ∧
    ∀ node t, t ≠ w → is_Some (QueryWaiterHolder t (N node)) → t ∈ W.

(** The calls that may be issued in a state, and what their answer makes of the
    transaction: a transaction registers for a holder it read in the row,
    releases rows only when it is finishing, one at a time, and is finished
    when it owns none.  The version of a queue is 64 bits wide: fewer than
    2^64 handoffs of one row in a row.  Transactions run in fibers.  The detector
    may run at any time in a wait, over managers that do not change while it walks,
    and may run out of its budget at any hop. *)
Inductive lw_call (s : Sys) : ∀ A : Type, M Nodes A → (A → Sys → Sys) → Prop :=
  | call_begin t : phase s t = Unborn → 0 < t →
      lw_call s unit (at_node (home t) (OnTxnBegin t)) (λ _, set_phase t Running)
  | call_acquire t k : phase s t = Running → row s k = None →
      lw_call s unit (mret tt) (λ _, set_row k (Some t))
  | call_conflict w k h : phase s w = Running → row s k = Some h → h ≠ w →
      lw_call s unit (wait_enter w (home w) h (home h) (home h) k)
        (λ _, set_phase w (Registering k h))
  | call_register w k h : phase s w = Registering k h →
      lw_call s bool (at_node (home h) (OnRegisterTupleWait k h w (home w)))
        (λ granted, set_phase w (if granted : bool then Rejected k else Waiting k))
  | call_rejected w k : phase s w = Rejected k →
      lw_call s _ (at_node (home w) (wait_registered w true))
        (λ r, set_phase w (match r with Some _ => Running | None => Waiting k end))
  | call_round w k due cycle : phase s w = Waiting k →
      lw_call s _ (at_node (home w) (wait_round w true due cycle)) (after_round w)
  | call_detect w k expired h n : phase s w = Waiting k → waiting_others w 126 (mgr s) →
      lw_call s bool (wait_detect expired w (home w) h n) (λ _, id)
  | call_finish t : phase s t = Running →
      lw_call s unit (mret tt) (λ _, set_phase t Finishing)
  | call_uncontended t k : phase s t = Finishing → row s k = Some t →
      lw_call s _ (at_node (home t) (PrepareUncontendedUnlock k t))
        (λ r, match r with Some _ => set_row k None | None => id end)
  | call_freeze t k : phase s t = Finishing → row s k = Some t →
      lw_call s unit (at_node (home t) (freeze k t)) (λ _, set_phase t (Unlocking k Frozen))
  | call_head t k : phase s t = Unlocking k Frozen →
      (∀ q, local_queues (mgr s (home t)) !! k = Some q → version q + 1 < 2 ^ 64) →
      lw_call s _ (at_node (home t) (take_head k t (home t)))
        (λ h, set_phase t (Unlocking k (after_head k t h)))
  | call_ask t k ph st : phase s t = Unlocking k st →
      (st = Asking ph ∨ ∃ u, st = Adopted ph u) →
      lw_call s _ (ask ph)
        (λ r, set_phase t (Unlocking k
          (match r with Some u => Adopted ph u | None => Frozen end)))
  | call_update_remote t k ph u n l : phase s t = Unlocking k (Adopted ph u) → u !! n = Some l →
      lw_call s _ (send_update (new_holder_ts ph) (new_holder_node ph) k (h_version ph) n l)
        (λ _, set_phase t (Unlocking k (Adopted ph (delete n u))))
  | call_update_local t k ph u n l : phase s t = Unlocking k (Updating ph u) → u !! n = Some l →
      lw_call s _ (send_update (new_holder_ts ph) (new_holder_node ph) k (h_version ph) n l)
        (λ _, set_phase t (Unlocking k (Updating ph (delete n u))))
  | call_adopted t k ph : phase s t = Unlocking k (Adopted ph ∅) →
      lw_call s unit (at_node (home t) (hand_queue_over k t))
        (λ _, set_phase t (Unlocking k (Prepared ph)))
  | call_updated t k ph : phase s t = Unlocking k (Updating ph ∅) →
      lw_call s unit (mret tt) (λ _, set_phase t (Unlocking k (Prepared ph)))
  | call_install t k ph : phase s t = Unlocking k (Prepared ph) →
      lw_call s unit (mret tt) (λ _, install t k ph)
  | call_deliver t k ph : phase s t = Unlocking k (Installed ph) →
      lw_call s unit (DeliverHandoff ph (home t))
        (λ _ s, log_delivery ph (set_phase t Finishing s))
  | call_deliver_again ph : ph ∈ delivered s →
      lw_call s bool (SendHandoffRemote ph true) (λ _, id)
  | call_end t : phase s t = Finishing → (∀ k, row s k ≠ Some t) →
      lw_call s unit (at_node (home t) (FinishTx t)) (λ _, set_phase t Gone).

Inductive lw_step (s : Sys) : Sys → Prop :=
  | lw_run A (m : M Nodes A) f a N' :
      lw_call s A m f → m (mgr s) = Done (a, N') → lw_step s (f a (set_mgr N' s)).

Definition lw_reachable : Sys → Prop := star lw_step initial.
End protocol.
