(* ===== verification/LockWaitInv.v ===== *)
(** The invariant of [LockWaitProtocol], row by row: what the queues, the
    waiters' records and the handoff in progress of one row say together; and
    the frame lemmas that reduce a step to the row it is about. *)

From stdpp Require Import functions.
From S2P Require Import Prelude Common LockWait LockWaitProtocol.

(** ** What one row sees of a transaction *)

Inductive View : Type :=
  | VUnborn
  | VOther                    (* alive, busy elsewhere *)
  | VReg (holder : Z)
  | VRej
  | VWait
  | VDead                     (* finishing: takes part in nothing new *)
  | VUnl (st : Stage)
  | VGone.

Definition view_of (k : TupleWaitKey) (p : Phase) : View :=
  match p with
  | Unborn => VUnborn
  | Running => VOther
  | Registering k' h => if decide (k' = k) then VReg h else VOther
  | Rejected k' => if decide (k' = k) then VRej else VOther
  | Waiting k' => if decide (k' = k) then VWait else VOther
  | Finishing => VDead
  | Unlocking k' st => if decide (k' = k) then VUnl st else VDead
  | Gone => VGone
  end.

Section invariant.
Context `{Placement}.

Definition view (s : Sys) (k : TupleWaitKey) (t : Z) : View := view_of k (phase s t).
Definition queue (s : Sys) (k : TupleWaitKey) (n : Z) : option TupleWaitQueue :=
  local_queues (mgr s n) !! k.
Definition rec (s : Sys) (w : Z) : option WaitState := local_waiters (mgr s (home w)) !! w.
Definition released (s : Sys) (k : TupleWaitKey) (t : Z) : Prop :=
  k ∈ keys_of t (forwarded_keys (mgr s (home t))).

(** Dead to the row: it waits no more and never will. *)
Definition departed (v : View) : Prop :=
  match v with VDead | VUnl _ | VGone => True | _ => False end.

(** The handoff whose reservation is held but not yet published. *)
Definition incoming (st : Stage) : option PendingHandoff :=
  match st with
  | Adopted ph _ | Updating ph _ | Prepared ph => Some ph
  | _ => None
  end.
Definition reserving (st : Stage) : option PendingHandoff :=
  match st with Installed ph => Some ph | _ => incoming st end.
Definition handing (st : Stage) : option PendingHandoff :=
  match st with Asking ph => Some ph | _ => reserving st end.

(** Stages in which the old holder still has the queue. *)
Definition keeps_queue (v : View) : Prop :=
  match v with
  | VUnl (Updating _ _ | Prepared _ | Installed _) => False
  | _ => True
  end.

Definition on_owner (r : WaitState) (t v : Z) : Prop :=
  w_holder_ts r = t ∧ w_holder_node r = home t ∧ w_holder_version r < v.
Definition moved (r : WaitState) (ph : PendingHandoff) : Prop :=
  w_holder_ts r = new_holder_ts ph ∧ w_holder_node r = home (new_holder_ts ph) ∧
  w_holder_version r = h_version ph.
Definition unsent (u : gmap Z (list Z)) (w : Z) : Prop := w ∈ default [] (u !! home w).

Definition handoff_ok (k : TupleWaitKey) (t : Z) (ph : PendingHandoff) : Prop :=
  h_key ph = k ∧ source_holder_ts ph = t ∧ prepared ph = true ∧
  (new_holder_ts ph ≠ 0 →
   0 < new_holder_ts ph ∧ new_holder_ts ph ≠ t ∧
   new_holder_node ph = home (new_holder_ts ph) ∧
   1 ≤ h_version ph < 2 ^ 64 ∧ NoDup (new_holder_ts ph :: (tail ph).*1) ∧
   Forall (λ e, e.2 = home e.1) (tail ph)).

Definition new_owner_queue (ph : PendingHandoff) : TupleWaitQueue :=
  mkQueue (tail ph) (new_holder_ts ph) (h_version ph).

(** A queue entry is a waiter of this row or somebody who has left for good. *)
Definition entry_ok (s : Sys) (k : TupleWaitKey) (w : Z) : Prop :=
  departed (view s k w) ∨
  (view s k w = VWait ∧ ∃ r, rec s w = Some r ∧ w_flag r = WAITING).

Definition reserved_for (s : Sys) (k : TupleWaitKey) (t : Z) (ph : PendingHandoff) : Prop :=
  view s k (new_holder_ts ph) = VWait ∧
  ∃ r, rec s (new_holder_ts ph) = Some r ∧ w_flag r = RESERVED ∧
       reservation_key r = k ∧ reservation_source r = t ∧
       reservation_version r = h_version ph.

(** The news still to be sent go to waiters of the tail, at their nodes. *)
Definition updates_ok (ph : PendingHandoff) (u : gmap Z (list Z)) : Prop :=
  ∀ n l, u !! n = Some l → l ≠ [] ∧ ∀ w, w ∈ l → (w, n) ∈ tail ph.

(** What each stage of an unlocking guarantees. *)
Definition stage_ok (s : Sys) (k : TupleWaitKey) (t : Z) (st : Stage) : Prop :=
  match st with
  | Frozen => row s k = Some t
  | Asking ph =>
      row s k = Some t ∧ new_holder_ts ph ≠ 0 ∧ home (new_holder_ts ph) ≠ home t ∧
      queue s k (home t) = Some (mkQueue (tail ph) t (h_version ph)) ∧
      entry_ok s k (new_holder_ts ph)
  | Adopted ph u =>
      row s k = Some t ∧ new_holder_ts ph ≠ 0 ∧ home (new_holder_ts ph) ≠ home t ∧
      queue s k (home t) = Some (mkQueue (tail ph) t (h_version ph)) ∧
      queue s k (home (new_holder_ts ph)) = Some (new_owner_queue ph) ∧
      reserved_for s k t ph ∧ updates_ok ph u
  | Updating ph u =>
      row s k = Some t ∧ new_holder_ts ph ≠ 0 ∧
      queue s k (home (new_holder_ts ph)) = Some (new_owner_queue ph) ∧
      reserved_for s k t ph ∧ updates_ok ph u
  | Prepared ph =>
      row s k = Some t ∧
      (if new_holder_ts ph =? 0 then ∀ n, queue s k n = None
       else queue s k (home (new_holder_ts ph)) = Some (new_owner_queue ph) ∧
            reserved_for s k t ph)
  | Installed ph =>
      new_holder_ts ph ≠ 0 ∧ row s k = Some (new_holder_ts ph) ∧ reserved_for s k t ph
  end.

(** Where a waiter that is neither granted nor reserved is to be found, and
    whom its record names. *)
Definition queued (s : Sys) (k : TupleWaitKey) (w : Z) (r : WaitState) : Prop :=
  ∃ t, row s k = Some t ∧
  match view s k t with
  | VUnl (Asking ph) =>
      (w = new_holder_ts ph ∨ w ∈ (tail ph).*1) ∧ on_owner r t (h_version ph)
  | VUnl (Adopted ph u) | VUnl (Updating ph u) =>
      w ∈ (tail ph).*1 ∧ (moved r ph ∨ (on_owner r t (h_version ph) ∧ unsent u w))
  | VUnl (Prepared ph) => new_holder_ts ph ≠ 0 ∧ w ∈ (tail ph).*1 ∧ moved r ph
  | VUnl (Installed _) => False
  | _ => ∃ q, queue s k (home t) = Some q ∧ owner_holder_ts q = t ∧
              w ∈ (waiters q).*1 ∧ on_owner r t (version q + 1)
  end.

Definition waiter_ok (s : Sys) (k : TupleWaitKey) (w : Z) (r : WaitState) : Prop :=
  w_key r = k ∧ w_key_set r = true ∧
  match w_flag r with
  | WAITING => reservation_version r = 0 ∧ queued s k w r
  | RESERVED =>
      ∃ t st ph, view s k t = VUnl st ∧ reserving st = Some ph ∧ new_holder_ts ph = w ∧
                 reservation_key r = k ∧ reservation_source r = t
  | GRANTED => row s k = Some w ∧ reservation_key r = k
  end.

Definition owned (s : Sys) (k : TupleWaitKey) (h : Z) : Prop :=
  (row s k = Some h ∧ keeps_queue (view s k h)) ∨
  ∃ t st ph, row s k = Some t ∧ view s k t = VUnl st ∧ incoming st = Some ph ∧
             new_holder_ts ph = h.

Definition queue_ok (s : Sys) (k : TupleWaitKey) (n : Z) (q : TupleWaitQueue) : Prop :=
  n = home (owner_holder_ts q) ∧ 0 < owner_holder_ts q ∧ 0 ≤ version q < 2 ^ 64 ∧
  NoDup (waiters q).*1 ∧ Forall (λ e, e.2 = home e.1 ∧ entry_ok s k e.1) (waiters q) ∧
  owned s k (owner_holder_ts q).

Record key_inv (s : Sys) (k : TupleWaitKey) : Prop := {
  ki_row t : row s k = Some t → 0 < t ∧ view s k t ≠ VUnborn ∧ view s k t ≠ VGone;
  ki_stage t st : view s k t = VUnl st → stage_ok s k t st;
  ki_handoff t st ph : view s k t = VUnl st → handing st = Some ph → handoff_ok k t ph;
  ki_queue n q : queue s k n = Some q → queue_ok s k n q;
  ki_reg w h : view s k w = VReg h →
    h ≠ w ∧ 0 < h ∧ rec s w = Some (new_WaitState h (home h) k) ∧
    ((row s k = Some h ∧ ∀ st, view s k h ≠ VUnl st) ∨ view s k h = VGone ∨ released s k h);
  ki_rej w : view s k w = VRej → ∃ r, rec s w = Some r ∧ w_flag r = WAITING ∧
    w_key r = k ∧ w_key_set r = true ∧ reservation_version r = 0 ∧ w_holder_node r = home (w_holder_ts r);
  ki_wait w : view s k w = VWait → ∃ r, rec s w = Some r ∧ waiter_ok s k w r;
  ki_released t : released s k t →
    (view s k t = VDead ∨ ∃ st, view s k t = VUnl st) ∧
    (row s k = Some t → ∃ st, view s k t = VUnl st);
  ki_unlocking t st : view s k t = VUnl st → released s k t;
  ki_delivered ph : ph ∈ delivered s → h_key ph = k →
    new_holder_node ph = home (new_holder_ts ph) ∧
    (view s k (source_holder_ts ph) = VGone ∨
     (released s k (source_holder_ts ph) ∧ ∀ st, view s k (source_holder_ts ph) ≠ VUnl st))
}.

Definition alive (p : Phase) : Prop := match p with Unborn | Gone => False | _ => True end.
Definition waits (p : Phase) : Prop :=
  match p with Registering _ _ | Rejected _ | Waiting _ => True | _ => False end.

(** The reverse index is the inverse of the owners of the queues. *)
Definition index_ok (m : Manager) : Prop :=
  ∀ h k, k ∈ keys_of h (holder_keys m) ↔
         ∃ q, local_queues m !! k = Some q ∧ owner_holder_ts q = h.

Record lw_inv (s : Sys) : Prop := {
  li_key k : key_inv s k;
  li_active t : t ∈ active_txs (mgr s (home t)) ↔ alive (phase s t);
  li_index n : index_ok (mgr s n);
  li_rec w r : rec s w = Some r → waits (phase s w);
  li_pos t : phase s t ≠ Unborn → 0 < t
}.

(** ** Steps that leave the row and its queues alone *)

Definition about (v : View) : Prop :=
  match v with VReg _ | VRej | VWait => True | _ => False end.

Inductive moves (s s' : Sys) (k : TupleWaitKey) (t : Z) : Prop :=
  | mv_same : view s' k t = view s k t → (about (view s k t) → rec s' t = rec s t) →
      (released s' k t ↔ released s k t) → moves s s' k t
  | mv_born : view s k t = VUnborn → view s' k t = VOther →
      (released s' k t ↔ released s k t) → moves s s' k t
  | mv_done : view s k t = VOther → view s' k t = VDead →
      (released s' k t ↔ released s k t) → moves s s' k t
  | mv_reg h : view s k t = VOther → view s' k t = VReg h →
      rec s' t = Some (new_WaitState h (home h) k) → h ≠ t → row s k = Some h →
      (released s' k t ↔ released s k t) → moves s s' k t
  | mv_rejected h : view s k t = VReg h → view s' k t = VRej → rec s' t = rec s t →
      (released s' k t ↔ released s k t) → moves s s' k t
  | mv_free : view s k t = VRej → view s' k t = VOther →
      (released s' k t ↔ released s k t) → moves s s' k t
  | mv_granted r : view s k t = VWait → rec s t = Some r → w_flag r = GRANTED →
      view s' k t = VOther → (released s' k t ↔ released s k t) → moves s s' k t
  | mv_victim r : view s k t = VWait → rec s t = Some r → w_flag r = WAITING →
      view s' k t = VDead → (released s' k t ↔ released s k t) → moves s s' k t
  | mv_end : view s k t = VDead → view s' k t = VGone → row s k ≠ Some t →
      ¬ released s' k t → moves s s' k t.

Section frame.
Variables (s s' : Sys) (k : TupleWaitKey).
Hypothesis Hrow : row s' k = row s k.
Hypothesis Hque : ∀ n, queue s' k n = queue s k n.
Hypothesis Hmv : ∀ t, moves s s' k t.
Hypothesis Hdel : ∀ ph, h_key ph = k → ph ∈ delivered s' → ph ∈ delivered s.
Hypothesis HI : key_inv s k.

Lemma moves_unl t st : view s' k t = VUnl st ↔ view s k t = VUnl st.
Proof using Hmv. destruct (Hmv t); split; congruence. Qed.

Lemma moves_wait t : view s' k t = VWait → view s k t = VWait ∧ rec s' t = rec s t.
Proof using Hmv.
  intros Hv. destruct (Hmv t) as [E Er ?| | | | | | | |]; try congruence.
  rewrite E in Hv. rewrite Er by (by rewrite Hv). done.
Qed.

Lemma moves_reserved t ph : reserved_for s k t ph → reserved_for s' k t ph.
Proof using Hmv.
  intros [Hv [r (Hr & Hf & Hres)]]. destruct (Hmv (new_holder_ts ph)) as [E Er ?| | | | | | | |]; try congruence.
  split; [congruence|]. exists r. rewrite Er by (by rewrite Hv). done.
Qed.

Lemma moves_entry w : entry_ok s k w → entry_ok s' k w.
Proof using Hmv.
  intros [Hd|[Hv [r [Hr Hf]]]]; destruct (Hmv w) as [E Er ?| | | | | | | |]; unfold entry_ok in *;
    repeat match goal with
    | E : view s k w = _, Hd : departed (view s k w) |- _ => rewrite E in Hd; simpl in Hd
    end; simpl; try congruence; try done.
  - left. by rewrite E.
  - left. by rewrite H1.
  - right. split; [congruence|]. exists r. rewrite Er by (by rewrite Hv). done.
  - left. by rewrite H3.
Qed.

Lemma moves_stage t st : stage_ok s k t st → stage_ok s' k t st.
Proof using Hmv Hrow Hque.
  pose proof (moves_reserved t) as Hr. pose proof moves_entry as He.
  destruct st; simpl; rewrite ?Hrow, ?Hque; try naive_solver.
  intros [? Hp]. split; [done|]. case_match; [|naive_solver].
  intros n. by rewrite Hque.
Qed.

Lemma moves_queued w r : queued s k w r → queued s' k w r.
Proof using Hmv Hrow Hque.
  intros (t & Ht & Hq). exists t. rewrite Hrow. split; [done|].
  destruct (view s' k t) as [| | | | | |st|] eqn:Hv'; [..|].
  7: { apply moves_unl in Hv'. rewrite Hv' in Hq. destruct st; simpl in *; rewrite ?Hque; done. }
  all: rewrite ?Hque; destruct (view s k t) as [| | | | | |st|] eqn:Hv; try done.
  all: apply moves_unl in Hv; congruence.
Qed.

Lemma moves_owned h : owned s k h → owned s' k h.
Proof using Hmv Hrow.
  intros [[Hr Hk]|(t & st & ph & Hr & Hv & Hi)].
  - left. rewrite Hrow. split; [done|].
    destruct (view s' k h) as [| | | | | |st|] eqn:Hv'; try done.
    apply moves_unl in Hv'. by rewrite Hv' in Hk.
  - right. exists t, st, ph. rewrite Hrow, moves_unl. done.
Qed.

Lemma key_inv_moves : key_inv s' k.
Proof using All.
  destruct HI as [Irow Istage Ihand Ique Ireg Irej Iwait Irel Iunl Idel].
  split.
  - intros t Ht. rewrite Hrow in Ht. destruct (Irow t Ht) as (? & ? & ?).
    split; [done|]. destruct (Hmv t); split; congruence.
  - intros t st Hv. apply moves_unl in Hv. by apply moves_stage, Istage.
  - intros t st ph Hv. apply moves_unl in Hv. by apply Ihand.
  - intros n q. rewrite Hque. intros (Hn & Hp & Hb & Hnd & Hall & Ho)%Ique.
    split_and!; [done|done|lia|lia|done| |by apply moves_owned].
    eapply Forall_impl; [exact Hall|]. intros e [? ?]. split; [done|]. by apply moves_entry.
  - intros w h Hw. rewrite Hrow.
    assert (h ≠ w ∧ 0 < h ∧ rec s' w = Some (new_WaitState h (home h) k) ∧
      ((row s k = Some h ∧ ∀ st, view s k h ≠ VUnl st) ∨ view s k h = VGone ∨ released s k h))
      as (? & ? & ? & Hc).
    { destruct (Hmv w) as [E Er| | |h' E E' Er Hne Hrw| | | | |]; try congruence.
      - rewrite E in Hw. rewrite Er by (by rewrite Hw). by apply Ireg.
      - assert (h' = h) as -> by congruence. destruct (Irow h Hrw) as (? & ? & ?).
        split_and!; try done. destruct (view s k h) eqn:Hvh; try (left; split; [done|congruence]).
        right. right. by eapply Iunl. }
    split_and!; try done. destruct Hc as [[Hr Hn]|[Hg|Hrl]].
    + left. split; [done|]. intros st Hst. by apply moves_unl, Hn in Hst.
    + right. left. destruct (Hmv h); congruence.
    + right. destruct (Hmv h); try naive_solver.
  - intros w Hw. destruct (Hmv w) as [E Er| | | |h E E' Er| | | |]; try congruence.
    + rewrite E in Hw. rewrite Er by (by rewrite Hw). by apply Irej.
    + destruct (Ireg _ _ E) as (? & ? & Hr & _). rewrite Er, Hr. eexists. split; [done|]. done.
  - intros w [Hw Hr]%moves_wait. rewrite Hr. destruct (Iwait _ Hw) as (r & Hr' & Hk & Hks & Hf).
    exists r. split; [done|]. do 2 (split; [done|]). destruct (w_flag r).
    + destruct Hf. split; [done|]. by apply moves_queued.
    + by rewrite Hrow.
    + destruct Hf as (t & st & ph & Hf). exists t, st, ph. by rewrite moves_unl.
  - intros t Ht. rewrite Hrow. setoid_rewrite moves_unl.
    assert (released s k t) as Hrt%Irel by (destruct (Hmv t); tauto).
    destruct Hrt as [Hc ?]. split; [|done]. destruct Hc as [Hc|Hc]; [|by right].
    left. destruct (Hmv t); try congruence; tauto.
  - intros t st Hv. apply moves_unl in Hv as Hv2. specialize (Iunl _ _ Hv2).
    destruct (Hmv t); try congruence; tauto.
  - intros ph Hph Hk. destruct (Idel ph (Hdel _ Hk Hph) Hk) as [? Hc].
    split; [done|]. setoid_rewrite moves_unl.
    destruct Hc as [Hc|[Hc ?]]; destruct (Hmv (source_holder_ts ph)); first [left; congruence|right; tauto].
Qed.
End frame.

(** ** One row at a time *)

Lemma stage_row s k t st : stage_ok s k t st →
  row s k = Some t ∨ (∃ ph, st = Installed ph ∧ row s k = Some (new_holder_ts ph) ∧
                            reserved_for s k t ph).
Proof. destruct st; simpl; intros Hs; try (left; tauto). right. exists ph. tauto. Qed.

(** One transaction at a time unlocks a row. *)
Lemma unlocking_unique s k t t' st st' :
  key_inv s k → view s k t = VUnl st → view s k t' = VUnl st' → t = t'.
Proof.
  intros I Hv Hv'.
  pose proof (stage_row _ _ _ _ (ki_stage _ _ I _ _ Hv)) as Hs.
  pose proof (stage_row _ _ _ _ (ki_stage _ _ I _ _ Hv')) as Hs'.
  destruct Hs as [Hr|(ph & -> & Hr & Hp & r & Hrec & _ & _ & Hsrc & _)],
           Hs' as [Hr'|(ph' & -> & Hr' & Hp' & r' & Hrec' & _ & _ & Hsrc' & _)];
    simplify_eq; try congruence.
Qed.

Lemma owner_not_unlocking s k t :
  key_inv s k → row s k = Some t → view s k t = VDead → ∀ t' st, view s k t' ≠ VUnl st.
Proof.
  intros I Hr Hv t' st Hv'.
  destruct (stage_row _ _ _ _ (ki_stage _ _ I _ _ Hv')) as [Hr'|(ph & -> & Hr' & Hp & _)];
    simplify_eq; congruence.
Qed.

Lemma free_row s k : key_inv s k → row s k = None →
  (∀ n, queue s k n = None) ∧ (∀ t st, view s k t ≠ VUnl st) ∧ (∀ w, view s k w ≠ VWait).
Proof.
  intros I Hr. assert (∀ t st, view s k t ≠ VUnl st) as Hu.
  { intros t st Hv. destruct (stage_row _ _ _ _ (ki_stage _ _ I _ _ Hv)) as [?|(? & ? & ? & ?)];
      congruence. }
  split_and!; [|done|].
  - intros n. destruct (queue s k n) as [q|] eqn:Hq; [|done].
    destruct (ki_queue _ _ I _ _ Hq) as (_ & _ & _ & _ & _ & [[? _]|(? & ? & ? & ? & _)]);
      congruence.
  - intros w Hw. destruct (ki_wait _ _ I _ Hw) as (r & _ & _ & _ & Hf). destruct (w_flag r).
    + destruct Hf as (_ & t & ? & _). congruence.
    + destruct Hf. congruence.
    + destruct Hf as (t & st & ph & Hv & _). by apply Hu in Hv.
Qed.

(** [r'] is [r] but for the edge. *)
Definition same_wait (r r' : WaitState) : Prop :=
  w_flag r' = w_flag r ∧ w_key r' = w_key r ∧ w_key_set r' = w_key_set r ∧
  reservation_key r' = reservation_key r ∧ reservation_source r' = reservation_source r ∧
  reservation_version r' = reservation_version r.

Lemma refresh_same ts n k v r : same_wait r (refresh_holder ts n k v r).
Proof. unfold refresh_holder. by repeat case_match. Qed.

(** A step of the transaction that unlocks the row, before the row changes. *)
Section progress.
Variables (s s' : Sys) (k : TupleWaitKey) (t : Z) (st : Stage).
Hypothesis I : key_inv s k.
Hypothesis Hrow : row s k = Some t.
Hypothesis Hrow' : row s' k = row s k.
Hypothesis Hv : view s k t = VDead ∨ ∃ st0, view s k t = VUnl st0.
Hypothesis Hv' : view s' k t = VUnl st.
Hypothesis Hview : ∀ t', t' ≠ t → view s' k t' = view s k t'.
Hypothesis Hrec : ∀ w, about (view s k w) → view s k w ≠ VWait → rec s' w = rec s w.
Hypothesis Hrel : ∀ t', t' ≠ t → released s' k t' ↔ released s k t'.
Hypothesis Hrelt : released s' k t.
Hypothesis Hdel : delivered s' = delivered s.

Lemma progress_unl t' st' : view s' k t' = VUnl st' → t' = t ∧ st' = st.
Proof using I Hrow Hv Hv' Hview Hrel Hrelt.
  destruct (decide (t' = t)) as [->|Hne]; [rewrite Hv'; by intros [= ->]|].
  rewrite Hview by done. intros Hu. destruct Hv as [Hd|[st0 H0]].
  - by destruct (owner_not_unlocking _ _ _ I Hrow Hd _ _ Hu).
  - by destruct Hne, (unlocking_unique _ _ _ _ _ _ I Hu H0).
Qed.

Lemma progress_waits w : view s' k w = VWait → w ≠ t ∧ view s k w = VWait.
Proof using Hv' Hview.
  intros Hw. assert (w ≠ t) by congruence. by rewrite <- Hview.
Qed.

Lemma progress_entry w :
  (∀ r, view s k w = VWait → rec s w = Some r → w_flag r = WAITING →
        ∃ r', rec s' w = Some r' ∧ w_flag r' = WAITING) →
  entry_ok s k w → entry_ok s' k w.
Proof using Hv' Hview.
  intros Hr He. unfold entry_ok. destruct (decide (w = t)) as [->|Hne].
  - left. by rewrite Hv'.
  - rewrite Hview by done. destruct He as [?|[Hw (r & ? & ?)]]; [by left|right].
    split; [done|]. by eapply Hr.
Qed.

Lemma progress_inv :
  stage_ok s' k t st → (∀ ph, handing st = Some ph → handoff_ok k t ph) →
  (∀ n q, queue s' k n = Some q → queue_ok s' k n q) →
  (∀ w, view s k w = VWait → w ≠ t → ∃ r, rec s' w = Some r ∧ waiter_ok s' k w r) →
  key_inv s' k.
Proof using All.
  intros Hs Hh Hq Hw. destruct I as [Irow Istage Ihand Ique Ireg Irej Iwait Irel Iunl Idel].
  split.
  - intros t' Ht. assert (t' = t) as -> by congruence. destruct (Irow t Hrow) as (? & ? & ?).
    split_and!; congruence.
  - by intros t' st' [-> ->]%progress_unl.
  - intros t' st' ph [-> ->]%progress_unl. apply Hh.
  - done.
  - intros w h Hw'. assert (w ≠ t) by congruence. rewrite Hview in Hw' by done.
    destruct (Ireg _ _ Hw') as (? & ? & Hr & Hc). rewrite Hrow', Hrec by (rewrite Hw'; done).
    split_and!; try done. destruct (decide (h = t)) as [->|Hne]; [by right; right|].
    destruct Hc as [[? _]|[?|?]]; [congruence|right; left; by rewrite Hview|right; right; by apply Hrel].
  - intros w Hw'. assert (w ≠ t) by congruence. rewrite Hview in Hw' by done.
    rewrite Hrec by (rewrite Hw'; done). by apply Irej.
  - intros w [? ?]%progress_waits. by apply Hw.
  - intros t'. rewrite Hrow'. destruct (decide (t' = t)) as [->|Hne].
    + rewrite Hv'. split; eauto.
    + rewrite Hrel, Hview by done. apply Irel.
  - by intros t' st' [-> ->]%progress_unl.
  - intros ph. rewrite Hdel. intros Hph Hk. destruct (Idel ph Hph Hk) as [? Hc]. split; [done|].
    assert (source_holder_ts ph ≠ t) as Hne.
    { intros E. rewrite E in Hc. destruct Hc as [Hc|[Hr Hn]]; [destruct (Irow t Hrow) as (_ & _ & Hng); by destruct Hng|].
      destruct (proj2 (Irel t Hr) Hrow) as [st0 Hst0]. by destruct (Hn st0). }
    rewrite Hview, Hrel by done. done.
Qed.

Lemma progress_queue n q :
  queue_ok s k n q →
  (∀ w r, w ∈ (waiters q).*1 → view s k w = VWait → rec s w = Some r → w_flag r = WAITING →
          ∃ r', rec s' w = Some r' ∧ w_flag r' = WAITING) →
  owned s' k (owner_holder_ts q) → queue_ok s' k n q.
Proof using All.
  intros (Hn & Hp & Hb & Hnd & Hall & _) Hr Ho. do 4 (split; [done|]). split; [|done].
  rewrite Forall_forall in *. intros e He. destruct (Hall e He) as [? Hok]. split; [done|].
  apply progress_entry; [|done]. intros r ? ? ?. eapply Hr; try done.
  apply list_elem_of_fmap. by exists e.
Qed.

Lemma progress_waiter w r r' :
  view s k w = VWait → w ≠ t → waiter_ok s k w r → same_wait r r' →
  (w_flag r = WAITING → queued s k w r → queued s' k w r') →
  (∀ st0 ph, view s k t = VUnl st0 → reserving st0 = Some ph → new_holder_ts ph = w →
     ∃ ph', reserving st = Some ph' ∧ new_holder_ts ph' = w) →
  waiter_ok s' k w r'.
Proof using All.
  intros Hw Hne (Hk & Hks & Hf) (Ef & Ek & Eks & Erk & Ers & Erv) Hqd Hres.
  unfold waiter_ok. rewrite Ek, Eks, Ef. do 2 (split; [done|]). destruct (w_flag r).
  - destruct Hf. rewrite Erv. auto.
  - by rewrite Hrow', Erk.
  - destruct Hf as (t0 & st0 & ph & Hv0 & Hph & Hnew & Hrk & Hrs).
    assert (t0 = t) as ->.
    { destruct Hv as [Hd|[st1 Hst1]]; [|by eapply unlocking_unique].
      by destruct (owner_not_unlocking _ _ _ I Hrow Hd _ _ Hv0). }
    destruct (Hres _ _ Hv0 Hph Hnew) as (ph' & Hph' & Hnew').
    exists t, st, ph'. by rewrite Erk, Ers.
Qed.
End progress.

(** When the owner is not unlocking, at most its own installation is being
    published. *)
Lemma owner_idle s k h t st :
  key_inv s k → row s k = Some h → (∀ st0, view s k h ≠ VUnl st0) → view s k t = VUnl st →
  ∃ ph, st = Installed ph ∧ new_holder_ts ph = h ∧ reserved_for s k t ph.
Proof.
  intros I Hr Hn Hv.
  destruct (stage_row _ _ _ _ (ki_stage _ _ I _ _ Hv)) as [Hr'|(ph & -> & Hr' & Hp)].
  - assert (t = h) as -> by congruence. by destruct (Hn st).
  - exists ph. split_and!; [done|congruence|done].
Qed.

Lemma idle_queue_owner s k h n q :
  key_inv s k → row s k = Some h → (∀ st0, view s k h ≠ VUnl st0) → queue s k n = Some q →
  owner_holder_ts q = h ∧ n = home h.
Proof.
  intros I Hr Hn Hq. destruct (ki_queue _ _ I _ _ Hq) as (-> & _ & _ & _ & _ & Ho).
  assert (owner_holder_ts q = h) as ->; [|done].
  destruct Ho as [[? _]|(t & st & ph & _ & Hv & Hi & _)]; [congruence|].
  destruct (owner_idle _ _ _ _ _ I Hr Hn Hv) as (? & -> & _). done.
Qed.

Section enqueue.
Variables (s s' : Sys) (k : TupleWaitKey) (w h : Z) (oq : option TupleWaitQueue).
Abbreviation q0 := (default new_queue oq).
Abbreviation q' := (mkQueue (waiters q0 ++ [(w, home w)]) h (version q0)).
Hypothesis I : key_inv s k.
Hypothesis Hw : view s k w = VReg h.
Hypothesis Hr : row s k = Some h.
Hypothesis Hn : ∀ st, view s k h ≠ VUnl st.
Hypothesis Hoq : queue s k (home h) = oq.
Hypothesis Hq : ∀ n, queue s' k n = if decide (n = home h) then Some q' else queue s k n.
Hypothesis Hrow : row s' k = row s k.
Hypothesis Hw' : view s' k w = VWait.
Hypothesis Hview : ∀ t, t ≠ w → view s' k t = view s k t.
Hypothesis Hrec : ∀ t, rec s' t = rec s t.
Hypothesis Hrel : ∀ t, released s' k t ↔ released s k t.
Hypothesis Hdel : delivered s' = delivered s.

Lemma enqueue_entry e : entry_ok s k e → e ≠ w ∧ entry_ok s' k e.
Proof using All.
  unfold entry_ok. intros He. assert (e ≠ w) as Hne.
  { intros ->. rewrite Hw in He. naive_solver. }
  by rewrite Hview, Hrec.
Qed.

Lemma enqueue_reserved t ph : reserved_for s k t ph → reserved_for s' k t ph.
Proof using All.
  intros [Hv ?]. unfold reserved_for. rewrite Hview, Hrec; [done|congruence].
Qed.

Lemma enqueue_unl t st : view s' k t = VUnl st → t ≠ w ∧ view s k t = VUnl st.
Proof using All. intros Hv. assert (t ≠ w) by congruence. by rewrite <- Hview. Qed.

Lemma enqueue_queue n q : queue s' k n = Some q → queue_ok s' k n q.
Proof using All.
  rewrite Hq. intros E.
  assert (h ≠ w) as Hne by (by destruct (ki_reg _ _ I _ _ Hw)).
  assert (n = home h ∧ q = q') as [-> ->].
  { destruct (decide (n = home h)) as [->|]; [naive_solver|].
    by destruct (idle_queue_owner _ _ _ _ _ I Hr Hn E). }
  destruct (ki_reg _ _ I _ _ Hw) as (_ & Hpos & Hfresh & _).
  assert (NoDup (waiters q0).*1 ∧ 0 ≤ version q0 < 2 ^ 64 ∧
          Forall (λ e, e.2 = home e.1 ∧ entry_ok s k e.1) (waiters q0)) as (Hnd & Hver & Hall).
  { destruct oq as [q1|]; simpl.
    - destruct (ki_queue _ _ I _ _ Hoq) as (_ & _ & ? & ? & ? & _). done.
    - split_and!; [apply NoDup_nil_2|lia|lia|by apply Forall_nil]. }
  split_and!; simpl; try done; try lia.
  - rewrite fmap_app. apply NoDup_app. split_and!; [done| |apply NoDup_singleton].
    intros x (e & -> & He)%list_elem_of_fmap Hx. apply list_elem_of_singleton in Hx.
    rewrite Forall_forall in Hall. destruct (Hall _ He) as [_ Hok].
    by destruct (enqueue_entry _ Hok).
  - apply Forall_app. split.
    + eapply Forall_impl; [exact Hall|]. intros e [? He]. split; [done|]. by apply enqueue_entry.
    + apply Forall_singleton. split; [done|]. right. simpl. rewrite Hrec, Hfresh. split; [done|]. eauto.
  - left. rewrite Hrow, Hview by done. split; [done|].
    destruct (view s k h) eqn:E'; simpl; try done. by destruct (Hn st).
Qed.

Lemma enqueue_queued t r : t ≠ w → queued s k t r → queued s' k t r.
Proof using All.
  intros Hne (h' & Hr' & Hc). assert (h' = h) as -> by congruence. exists h.
  rewrite Hrow. split; [done|].
  assert (h ≠ w) as Hhw by (by destruct (ki_reg _ _ I _ _ Hw)). rewrite Hview by done.
  assert (∃ q, queue s k (home h) = Some q ∧ owner_holder_ts q = h ∧
              t ∈ (waiters q).*1 ∧ on_owner r h (version q + 1)) as (q & Hq1 & _ & Hin & Ho).
  { destruct (view s k h) as [| | | | | |st|]; try done. by destruct (Hn st). }
  assert (oq = Some q) as Hoq' by congruence.
  assert (∃ q, queue s' k (home h) = Some q ∧ owner_holder_ts q = h ∧
              t ∈ (waiters q).*1 ∧ on_owner r h (version q + 1)) as Hgoal.
  { exists q'. rewrite Hq, decide_True, Hoq' by done. simpl. split_and!; try done; try apply Ho.
    rewrite fmap_app. apply elem_of_app. by left. }
  destruct (view s k h) as [| | | | | |st|]; try done. by destruct (Hn st).
Qed.

Lemma enqueue_inv : key_inv s' k.
Proof using All.
  pose proof enqueue_queue as Hqok. pose proof enqueue_queued as Hqd.
  destruct (ki_reg _ _ I _ _ Hw) as (Hhw & Hpos & Hfresh & _).
  destruct I as [Irow Istage Ihand Ique Ireg Irej Iwait Irel Iunl Idel]. split.
  - intros t. rewrite Hrow. intros (? & ? & ?)%Irow. split; [done|].
    destruct (decide (t = w)) as [->|]; [by rewrite Hw'|by rewrite Hview].
  - intros t st [? Hv]%enqueue_unl.
    destruct (owner_idle _ _ _ _ _ I Hr Hn Hv) as (ph & -> & E & Hres). simpl.
    destruct (Istage _ _ Hv) as (? & ? & ?). rewrite Hrow. split_and!; try done.
    by apply enqueue_reserved.
  - intros t st ph [? Hv]%enqueue_unl. by apply Ihand.
  - done.
  - intros t h' Ht. assert (t ≠ w) by congruence. rewrite Hview in Ht by done.
    rewrite Hrow, Hrec, Hrel. destruct (Ireg _ _ Ht) as (? & ? & ? & Hc). split_and!; try done.
    destruct (decide (h' = w)) as [->|]; [|by rewrite Hview].
    rewrite Hw in Hc. destruct Hc as [[? _]|[?|?]]; [congruence|done|by right; right].
  - intros t Ht. assert (t ≠ w) by congruence. rewrite Hview in Ht by done. rewrite Hrec. auto.
  - intros t Ht. rewrite Hrec. destruct (decide (t = w)) as [->|Hne].
    + eexists. split; [exact Hfresh|]. do 2 (split; [done|]). simpl. split; [done|]. exists h.
      rewrite Hrow, Hview by done. split; [done|].
      assert (∃ q, queue s' k (home h) = Some q ∧ owner_holder_ts q = h ∧ w ∈ (waiters q).*1 ∧
        on_owner (new_WaitState h (home h) k) h (version q + 1)) as Hgoal.
      { exists q'. rewrite Hq, decide_True by done. split_and!; try done; simpl.
        - rewrite fmap_app. apply elem_of_app. right. by apply list_elem_of_singleton.
        - assert (0 ≤ version q0); [|unfold on_owner; simpl; split_and!; [done|done|lia]].
          destruct oq as [q1|]; simpl; [|lia].
          destruct (Ique _ _ Hoq) as (_ & _ & ? & _). lia. }
      destruct (view s k h) as [| | | | | |st|] eqn:E; try done. by destruct (Hn st).
    + rewrite Hview in Ht by done. destruct (Iwait _ Ht) as (r & Hr1 & Hk & Hks & Hf).
      exists r. split; [done|]. do 2 (split; [done|]). destruct (w_flag r).
      * destruct Hf. split; [done|]. by apply Hqd.
      * by rewrite Hrow.
      * destruct Hf as (t' & st & ph & Hv & Hf). exists t', st, ph. rewrite Hview; [done|congruence].
  - intros t Ht%Hrel. rewrite Hrow. destruct (Irel t Ht) as [Hc Hc'].
    assert (t ≠ w) by (intros ->; rewrite Hw in Hc; naive_solver). by rewrite Hview.
  - intros t st [? Hv]%enqueue_unl. rewrite Hrel. by eapply Iunl.
  - intros ph. rewrite Hdel. intros Hph Hk. destruct (Idel ph Hph Hk) as [? Hc]. split; [done|].
    assert (source_holder_ts ph ≠ w) as Hne.
    { intros E. rewrite E, Hw in Hc. destruct Hc as [?|[Hc _]]; [done|].
      destruct (Irel _ Hc) as [Hc' _]. rewrite Hw in Hc'. naive_solver. }
    by rewrite Hview, Hrel.
Qed.
End enqueue.

(** A row nobody waits for is freed. *)
Section freed.
Variables (s s' : Sys) (k : TupleWaitKey) (t : Z).
Hypothesis I : key_inv s k.
Hypothesis Hr : row s k = Some t.
Hypothesis Hv : view s k t = VDead ∨ ∃ st, view s k t = VUnl st.
Hypothesis Hno : ∀ w, view s k w ≠ VWait.
Hypothesis Hunl : ∀ t' st, t' ≠ t → view s k t' ≠ VUnl st.
Hypothesis Hrow : row s' k = None.
Hypothesis Hq : ∀ n, queue s' k n = None.
Hypothesis Hv' : view s' k t = VDead.
Hypothesis Hview : ∀ t', t' ≠ t → view s' k t' = view s k t'.
Hypothesis Hrec : ∀ w, about (view s k w) → rec s' w = rec s w.
Hypothesis Hrel : ∀ t', t' ≠ t → released s' k t' ↔ released s k t'.
Hypothesis Hrelt : released s' k t.
Hypothesis Hdel : delivered s' = delivered s.

Lemma freed_inv : key_inv s' k.
Proof using All.
  assert (∀ t' v, view s' k t' = v → v ≠ VDead → t' ≠ t ∧ view s k t' = v) as Hback.
  { intros t' v E Hne. assert (t' ≠ t) by congruence. by rewrite <- Hview. }
  destruct I as [Irow Istage Ihand Ique Ireg Irej Iwait Irel Iunl Idel]. split.
  - intros t'. rewrite Hrow. done.
  - intros t' st (? & E)%Hback; [|done]. by destruct (Hunl t' st).
  - intros t' st ph (? & E)%Hback; [|done]. by destruct (Hunl t' st).
  - intros n q. by rewrite Hq.
  - intros w h (Hne & E)%Hback; [|done]. destruct (Ireg _ _ E) as (? & ? & ? & Hc).
    rewrite Hrec by (rewrite E; done). split_and!; try done. right.
    destruct (decide (h = t)) as [->|Hht]; [by right|].
    destruct Hc as [[? _]|[?|?]]; [congruence|left; by rewrite Hview|right; by apply Hrel].
  - intros w (Hne & E)%Hback; [|done]. rewrite Hrec by (rewrite E; done). by apply Irej.
  - intros w (Hne & E)%Hback; [|done]. by destruct (Hno w).
  - intros t' Ht. rewrite Hrow. split; [|done]. destruct (decide (t' = t)) as [->|Hne]; [by left|].
    apply Hrel in Ht; [|done]. rewrite Hview by done. by apply Irel.
  - intros t' st (? & E)%Hback; [|done]. by destruct (Hunl t' st).
  - intros ph. rewrite Hdel. intros Hph Hk. destruct (Idel ph Hph Hk) as [? Hc]. split; [done|].
    assert (source_holder_ts ph ≠ t) as Hne.
    { intros E. rewrite E in Hc. destruct Hc as [Hc|[Hc Hn]].
      - destruct (Irow t Hr) as (_ & _ & Hg). by destruct Hg.
      - destruct (proj2 (Irel t Hc) Hr) as [st0 Hst0]. by destruct (Hn st0). }
    by rewrite Hview, Hrel.
Qed.
End freed.
End invariant.
