(* ===== verification/LockWaitSteps.v ===== *)
(** Beginning and ending transactions, conflicts, registrations, and the taking
    and freeing of uncontended rows: each call returns and keeps the invariant
    of [LockWaitInv]. *)

From stdpp Require Import functions.
From S2P Require Import Prelude Common LockWait LockWaitProtocol LockWaitInv.

(** ** Looking through the updates *)

Lemma wp_at_node {A} n (m : M Manager A) Q N :
  wp m (λ a t, Q a (<[n := t]> N)) (N n) → wp (at_node n m) Q N.
Proof. intros Hm. by apply wp_zoom. Qed.

Ltac node_step := first [apply wp_at_node | wp_step].

Lemma keys_of_add k' h' h k m :
  k' ∈ keys_of h' (add_key h k m) ↔ (k' = k ∧ h' = h) ∨ k' ∈ keys_of h' m.
Proof.
  unfold keys_of, add_key. destruct (decide (h' = h)) as [->|].
  - rewrite lookup_insert_eq. simpl. set_solver.
  - rewrite lookup_insert_ne by done. naive_solver.
Qed.

Lemma keys_of_drop k' h' h k m :
  k' ∈ keys_of h' (drop_key h k m) ↔ k' ∈ keys_of h' m ∧ ¬ (k' = k ∧ h' = h).
Proof.
  unfold keys_of, drop_key. destruct (decide (h' = h)) as [->|].
  - rewrite lookup_alter_eq. destruct (m !! h); simpl; set_solver.
  - rewrite lookup_alter_ne by done. naive_solver.
Qed.

Lemma keys_of_delete h' h m :
  keys_of h' (delete h m) = if decide (h' = h) then ∅ else keys_of h' m.
Proof.
  unfold keys_of. destruct (decide (h' = h)) as [->|].
  - by rewrite lookup_delete_eq.
  - by rewrite lookup_delete_ne.
Qed.

Lemma refresh_idem ts n k v r :
  refresh_holder ts n k v (refresh_holder ts n k v r) = refresh_holder ts n k v r.
Proof.
  unfold refresh_holder at 2 3. destruct (v <=? w_holder_version r) eqn:E1.
  { unfold refresh_holder. by rewrite E1. }
  destruct (w_key_set r && negb (bool_decide (w_key r = k))) eqn:E2.
  { unfold refresh_holder. by rewrite E1, E2. }
  unfold refresh_holder. simpl. by rewrite Z.leb_refl.
Qed.

(** News for the tail: the local records are refreshed, the others are
    collected by node. *)
Lemma UpdateTailHolderLocked_spec l ts node self k v u0 m :
  wp (UpdateTailHolderLocked l ts node self k v u0) (λ u m',
    (∃ W, m' = upd_waiters (λ _, W) m) ∧
    (∀ w, (w, self) ∉ l → local_waiters m' !! w = local_waiters m !! w) ∧
    (∀ w, (w, self) ∈ l →
       local_waiters m' !! w = refresh_holder ts node k v <$> local_waiters m !! w) ∧
    (∀ w n, (w, n) ∈ l → n ≠ self → w ∈ default [] (u !! n)) ∧
    (∀ n w, w ∈ default [] (u !! n) → (w, n) ∈ l ∨ w ∈ default [] (u0 !! n)) ∧
    (∀ n w, w ∈ default [] (u0 !! n) → w ∈ default [] (u !! n)) ∧
    ((∀ n, u0 !! n ≠ Some []) → ∀ n, u !! n ≠ Some [])) m.
Proof.
  revert u0 m. induction l as [|[w n] l IH]; intros u0 m; simpl.
  - wp_step. split_and!; try done.
    + exists (local_waiters m). by destruct m.
    + intros w Hw. by apply elem_of_nil in Hw.
    + intros w n Hw. by apply elem_of_nil in Hw.
    + auto.
  - wp_step.
    + bool_simpl. subst n. do 2 wp_step. eapply wp_mono; [apply IH|]. simpl.
      intros u m' ([W ->] & Hout & Hin & Hu1 & Hu2 & Hu3 & Hu4). simpl in *. split_and!.
      * exists W. done.
      * intros w' Hw'. apply not_elem_of_cons in Hw' as [Hne ?].
        rewrite Hout, lookup_alter_ne by congruence. done.
      * intros w' Hw'. destruct (decide ((w', self) ∈ l)) as [Hl|Hl].
        -- rewrite Hin by done. destruct (decide (w = w')) as [<-|].
           ++ rewrite lookup_alter_eq. destruct (local_waiters m !! w); simpl; [|done].
              by rewrite refresh_idem.
           ++ by rewrite lookup_alter_ne.
        -- rewrite Hout by done. assert (w = w') as <-.
           { apply elem_of_cons in Hw' as [?|?]; [congruence|done]. }
           apply lookup_alter_eq.
      * intros w' n' [?|?]%elem_of_cons ?; [congruence|auto].
      * intros n' w' [?|?]%Hu2; [left; by right|by right].
      * done.
      * done.
    + bool_simpl. eapply wp_mono; [apply IH|]. simpl.
      intros u m' (HW & Hout & Hin & Hu1 & Hu2 & Hu3 & Hu4). split_and!.
      * done.
      * intros w' [_ ?]%not_elem_of_cons. auto.
      * intros w' [?|?]%elem_of_cons; [congruence|auto].
      * intros w' n' [Heq|?]%elem_of_cons ?; [|auto]. injection Heq as -> ->.
        apply Hu3. unfold push_remote. rewrite lookup_insert_eq. simpl. set_solver.
      * intros n' w' [?|Hr]%Hu2; [left; by right|]. unfold push_remote in Hr.
        destruct (decide (n' = n)) as [->|].
        -- rewrite lookup_insert_eq in Hr. simpl in Hr.
           apply elem_of_app in Hr as [?|Hr]; [by right|]. apply list_elem_of_singleton in Hr as ->.
           left. by left.
        -- rewrite lookup_insert_ne in Hr by done. by right.
      * intros n' w' Hw'. apply Hu3. unfold push_remote. destruct (decide (n' = n)) as [->|].
        -- rewrite lookup_insert_eq. simpl. apply elem_of_app. by left.
        -- by rewrite lookup_insert_ne.
      * intros H0. apply Hu4. intros n'. unfold push_remote. destruct (decide (n' = n)) as [->|].
        -- rewrite lookup_insert_eq. by destruct (default [] (u0 !! n)).
        -- by rewrite lookup_insert_ne.
Qed.

Lemma OnUpdateWaiterHolder_spec l ts node k v m :
  wp (OnUpdateWaiterHolder l ts node k v) (λ _ m',
    (∃ W, m' = upd_waiters (λ _, W) m) ∧
    (∀ w, w ∉ l → local_waiters m' !! w = local_waiters m !! w) ∧
    (∀ w, w ∈ l → local_waiters m' !! w = refresh_holder ts node k v <$> local_waiters m !! w)) m.
Proof.
  unfold OnUpdateWaiterHolder. revert m. induction l as [|w l IH]; intros m; simpl.
  - wp_step. split_and!; try done.
    + exists (local_waiters m). by destruct m.
    + intros w Hw. by apply elem_of_nil in Hw.
  - do 2 wp_step. eapply wp_mono; [apply IH|]. simpl. intros _ m' ([W ->] & Hout & Hin).
    simpl in *. split_and!.
    + by exists W.
    + intros w' [Hne ?]%not_elem_of_cons. rewrite Hout, lookup_alter_ne by done. done.
    + intros w' Hw'. destruct (decide (w' ∈ l)) as [Hl|Hl].
      * rewrite Hin by done. destruct (decide (w = w')) as [<-|].
        -- rewrite lookup_alter_eq. destruct (local_waiters m !! w); simpl; [|done].
           by rewrite refresh_idem.
        -- by rewrite lookup_alter_ne.
      * rewrite Hout by done. assert (w = w') as <- by (apply elem_of_cons in Hw' as [?|?]; done).
        apply lookup_alter_eq.
Qed.

Section steps.
Context `{Placement}.
Implicit Types s : Sys.

Definition put (n : Z) (m : Manager) (s : Sys) : Sys := set_mgr (<[n := m]> (mgr s)) s.

Lemma mgr_put n m s n' : mgr (put n m s) n' = if decide (n' = n) then m else mgr s n'.
Proof.
  unfold put. simpl. destruct (decide (n' = n)) as [->|].
  - by rewrite fn_lookup_insert.
  - by rewrite fn_lookup_insert_ne by done.
Qed.

Lemma phase_set t p s t' : phase (set_phase t p s) t' = if decide (t' = t) then p else phase s t'.
Proof.
  simpl. destruct (decide (t' = t)) as [->|].
  - by rewrite fn_lookup_insert.
  - by rewrite fn_lookup_insert_ne by done.
Qed.

Lemma phase_put n m s : phase (put n m s) = phase s.
Proof. done. Qed.

Lemma view_set t p s k t' :
  view (set_phase t p s) k t' = if decide (t' = t) then view_of k p else view s k t'.
Proof. unfold view. rewrite phase_set. by destruct (decide (t' = t)). Qed.

Lemma queue_put n m s k n' :
  queue (put n m s) k n' = if decide (n' = n) then local_queues m !! k else queue s k n'.
Proof. unfold queue. rewrite mgr_put. by destruct (decide (n' = n)). Qed.

Lemma rec_put n m s w :
  rec (put n m s) w = if decide (home w = n) then local_waiters m !! w else rec s w.
Proof. unfold rec. rewrite mgr_put. by destruct (decide (home w = n)). Qed.

Lemma released_put n m s k t :
  released (put n m s) k t ↔
  if decide (home t = n) then k ∈ keys_of t (forwarded_keys m) else released s k t.
Proof. unfold released. rewrite mgr_put. by destruct (decide (home t = n)). Qed.

Lemma about_rec s k t : key_inv s k → about (view s k t) →
  ∃ r, rec s t = Some r ∧ w_key r = k ∧ w_key_set r = true.
Proof.
  intros I Ha. destruct (view s k t) eqn:Hv; try done.
  - destruct (ki_reg _ _ I _ _ Hv) as (? & ? & Hr & _). eauto.
  - destruct (ki_rej _ _ I _ Hv) as (r & ? & ? & ? & ? & ? & _). eauto.
  - destruct (ki_wait _ _ I _ Hv) as (r & ? & ? & ? & ?). eauto.
Qed.

Lemma about_phase s k t : about (view s k t) → waits (phase s t).
Proof. unfold view. destruct (phase s t); simpl; try case_decide; done. Qed.

(** The parts of the invariant that speak of one node or one transaction. *)
Lemma lw_inv_change s s' n m' :
  lw_inv s → (∀ n', mgr s' n' = if decide (n' = n) then m' else mgr s n') →
  active_txs m' = active_txs (mgr s n) → index_ok m' →
  (∀ t, alive (phase s' t) ↔ alive (phase s t)) →
  (∀ t, phase s' t ≠ Unborn → phase s t ≠ Unborn) →
  (∀ w r, home w = n → local_waiters m' !! w = Some r → waits (phase s' w)) →
  (∀ w, home w ≠ n → waits (phase s w) → waits (phase s' w)) →
  (∀ k, key_inv s' k) → lw_inv s'.
Proof.
  intros [Ik Ia Ii Ir Ip] Hm Hact Hidx Hal Hub Hw1 Hw2 Hk. split; [done|..].
  - intros t. rewrite Hal, <- Ia, Hm. destruct (decide (home t = n)) as [->|]; [|done].
    by rewrite Hact.
  - intros n'. rewrite Hm. by destruct (decide (n' = n)).
  - intros w r. unfold rec. rewrite Hm. destruct (decide (home w = n)); eauto.
  - intros t Ht. by apply Ip, Hub.
Qed.

(** A step that leaves all the managers alone. *)
Lemma lw_inv_ghost s s' :
  lw_inv s → mgr s' = mgr s →
  (∀ t, alive (phase s' t) ↔ alive (phase s t)) →
  (∀ t, phase s' t ≠ Unborn → phase s t ≠ Unborn) →
  (∀ w, waits (phase s w) → waits (phase s' w)) →
  (∀ k, key_inv s' k) → lw_inv s'.
Proof.
  intros I Hm Hal Hub Hw Hk. apply (lw_inv_change s s' 0 (mgr s 0)); try done.
  - intros n'. rewrite Hm. by destruct (decide (n' = 0)) as [->|].
  - apply I.
  - intros w r <- Hr. eapply Hw, li_rec, Hr. done.
  - auto.
Qed.

Lemma queue_phase t p s k n : queue (set_phase t p s) k n = queue s k n.
Proof. done. Qed.
Lemma rec_phase t p s w : rec (set_phase t p s) w = rec s w.
Proof. done. Qed.
Lemma released_phase t p s k t' : released (set_phase t p s) k t' = released s k t'.
Proof. done. Qed.
Lemma row_phase t p s k : row (set_phase t p s) k = row s k.
Proof. done. Qed.

Lemma queue_put_same n m s k n' :
  local_queues m = local_queues (mgr s n) → queue (put n m s) k n' = queue s k n'.
Proof. intros E. rewrite queue_put. destruct (decide (n' = n)) as [->|]; [|done]. by rewrite E. Qed.

Lemma released_put_same n m s k t :
  (home t = n → keys_of t (forwarded_keys m) = keys_of t (forwarded_keys (mgr s n))) →
  released (put n m s) k t ↔ released s k t.
Proof.
  intros E. rewrite released_put. destruct (decide (home t = n)) as [<-|]; [|done].
  by rewrite E.
Qed.

Lemma rec_put_same n m s w :
  (home w = n → local_waiters m !! w = local_waiters (mgr s n) !! w) →
  rec (put n m s) w = rec s w.
Proof. intros E. rewrite rec_put. destruct (decide (home w = n)) as [<-|]; [|done]. by apply E. Qed.

Lemma view_phase s k t p : phase s t = p → view s k t = view_of k p.
Proof. unfold view. by intros ->. Qed.

End steps.

(** The view of a row that the phase does not mention. *)
Ltac views :=
  repeat match goal with
  | E : phase ?s ?t = _ |- context [view ?s ?k ?t] => rewrite (view_phase s k t _ E)
  | |- context [view (set_phase ?t _ _) _ ?t] => rewrite view_set, decide_True by done
  end; simpl; repeat rewrite decide_True by done.

Section quiet_steps.
Context `{Placement}.
Implicit Types s : Sys.

(** ** Calls that touch no queue *)

Section quiet.
Variables (s : Sys) (t : Z) (p : Phase) (m' : Manager).
Abbreviation m := (mgr s (home t)).
Abbreviation s' := (set_phase t p (put (home t) m' s)).
Hypothesis I : lw_inv s.
Hypothesis Hq : local_queues m' = local_queues m.
Hypothesis Hh : ∀ h, keys_of h (holder_keys m') = keys_of h (holder_keys m).
Hypothesis Ha : ∀ t', t' ≠ t → t' ∈ active_txs m' ↔ t' ∈ active_txs m.
Hypothesis Hat : t ∈ active_txs m' ↔ alive p.
Hypothesis Hw : ∀ w, w ≠ t → local_waiters m' !! w = local_waiters m !! w.
Hypothesis Hwt : ∀ r, local_waiters m' !! t = Some r → waits p.
Hypothesis Hf : ∀ t', t' ≠ t → keys_of t' (forwarded_keys m') = keys_of t' (forwarded_keys m).
Hypothesis Hpos : 0 < t.
Hypothesis Hmv : ∀ k, moves s s' k t.

Lemma quiet_inv : lw_inv s'.
Proof using All.
  destruct I as [Ik Ia Ii Ir Ip]. split.
  - intros k. apply (key_inv_moves s); try done.
    + intros n. by apply (queue_put_same (home t) m' s).
    + intros t'. destruct (decide (t' = t)) as [->|Hne]; [done|].
      apply mv_same.
      * by rewrite view_set, decide_False.
      * intros _. apply (rec_put_same (home t) m' s). auto.
      * apply (released_put_same (home t) m' s). auto.
  - intros t'. rewrite phase_set, phase_put. change (mgr s' ?x) with (mgr (put (home t) m' s) x).
    rewrite mgr_put. destruct (decide (t' = t)) as [->|Hne].
    + by rewrite decide_True.
    + rewrite <- Ia. destruct (decide (home t' = home t)) as [->|]; auto.
  - intros n. change (mgr s' ?x) with (mgr (put (home t) m' s) x). rewrite mgr_put.
    destruct (decide (n = home t)) as [->|]; [|done].
    intros h k. rewrite Hq, Hh. apply Ii.
  - intros w r Hr. rewrite phase_set, phase_put. change (rec s' w) with (rec (put (home t) m' s) w) in Hr.
    destruct (decide (w = t)) as [->|Hne].
    + rewrite rec_put, decide_True in Hr by done. eauto.
    + rewrite rec_put_same in Hr by auto. eauto.
  - intros t'. rewrite phase_set, phase_put. destruct (decide (t' = t)) as [->|]; [done|]. apply Ip.
Qed.
End quiet.

Lemma begin_ok s t :
  lw_inv s → phase s t = Unborn → 0 < t →
  wp (at_node (home t) (OnTxnBegin t))
     (λ _ N', lw_inv (set_phase t Running (set_mgr N' s))) (mgr s).
Proof.
  intros I Hp Hpos. node_step. apply wp_modify.
  assert (∀ r, rec s t ≠ Some r) as Hn by (intros r Hr%li_rec; [by rewrite Hp in Hr|done]).
  apply (quiet_inv s t); simpl; try done; try set_solver.
  intros k. apply mv_born; views; try done. by apply released_put_same.
Qed.

Lemma conflict_ok s w k h :
  lw_inv s → phase s w = Running → row s k = Some h → h ≠ w →
  wp (wait_enter w (home w) h (home h) (home h) k)
     (λ _ N', lw_inv (set_phase w (Registering k h) (set_mgr N' s))) (mgr s).
Proof.
  intros I Hp Hr Hne. unfold wait_enter. do 2 (wp_step; wp_step; [apply home_is_node|]).
  unfold wait_begin, RegisterLocalWaiter. node_step. do 2 wp_step.
  assert (∀ r, rec s w ≠ Some r) as Hn by (intros r Hr'%li_rec; [by rewrite Hp in Hr'|done]).
  wp_step. wp_step; [destruct (local_waiters _ !! w) as [r|] eqn:E; [by destruct (Hn r)|done]|].
  wp_step. assert (0 < w) by (apply (li_pos _ I); by rewrite Hp).
  apply (quiet_inv s w); simpl; try done.
  - rewrite (li_active _ I), Hp. done.
  - intros w' ?. by rewrite lookup_insert_ne.
  - intros k'. destruct (decide (k = k')) as [<-|Hk].
    + eapply (mv_reg _ _ _ _ h); views; try done.
      * change (rec (put (home w) (upd_waiters (insert w (new_WaitState h (home h) k)) (mgr s (home w))) s) w
                 = Some (new_WaitState h (home h) k)).
        rewrite rec_put, decide_True by done. apply lookup_insert_eq.
      * by apply released_put_same.
    + apply mv_same; views; rewrite ?decide_False by done; try done. by apply released_put_same.
Qed.

Lemma rejected_ok s w k :
  lw_inv s → phase s w = Rejected k →
  wp (at_node (home w) (wait_registered w true))
     (λ r N', lw_inv (set_phase w (match r with Some _ => Running | None => Waiting k end)
        (set_mgr N' s))) (mgr s).
Proof.
  intros I Hp.
  assert (view s k w = VRej) as Hv by (by views).
  destruct (ki_rej _ _ (li_key _ I k) _ Hv) as (r & Hr & Hf & _).
  unfold wait_registered, TryUnregisterLocalWaiter. node_step. do 3 wp_step.
  unfold rec in Hr. rewrite Hr, Hf. simpl. do 4 wp_step.
  assert (0 < w) by (apply (li_pos _ I); by rewrite Hp).
  apply (quiet_inv s w); simpl; try done.
  - rewrite (li_active _ I), Hp. done.
  - intros w' ?. by rewrite lookup_delete_ne.
  - intros r'. by rewrite lookup_delete_eq.
  - intros k'. destruct (decide (k = k')) as [<-|Hk].
    + apply mv_free; views; try done. by apply released_put_same.
    + apply mv_same; views; rewrite ?decide_False by done; try done. by apply released_put_same.
Qed.

(** Only what the managers say matters. *)
Lemma lw_inv_ext s s' :
  lw_inv s → (∀ n, mgr s' n = mgr s n) → row s' = row s → phase s' = phase s →
  delivered s' = delivered s → lw_inv s'.
Proof.
  intros I Hm Hr Hp Hd. apply (lw_inv_change s s' 0 (mgr s 0)); try done.
  - intros n'. rewrite Hm. by destruct (decide (n' = 0)) as [->|].
  - apply I.
  - intros t. by rewrite Hp.
  - intros t. by rewrite Hp.
  - intros w r E Hw. rewrite Hp. eapply (li_rec _ I w r). unfold rec. by rewrite E.
  - intros w _. by rewrite Hp.
  - intros k. apply (key_inv_moves s); try done.
    + by rewrite Hr.
    + intros n'. unfold queue. by rewrite Hm.
    + intros t. apply mv_same; [by unfold view; rewrite Hp|intros _; unfold rec; by rewrite Hm|].
      unfold released. by rewrite Hm.
    + intros ph _. by rewrite Hd.
    + apply I.
Qed.

Lemma put_inv s n : lw_inv s → lw_inv (put n (mgr s n) s).
Proof.
  intros I. apply (lw_inv_ext s); try done.
  intros n'. rewrite mgr_put. by destruct (decide (n' = n)) as [->|].
Qed.

Lemma leave_inv s w k r p :
  lw_inv s → phase s w = Waiting k → rec s w = Some r →
  ((w_flag r = GRANTED ∧ p = Running) ∨ (w_flag r = WAITING ∧ p = Finishing)) →
  lw_inv (set_phase w p (put (home w) (upd_waiters (delete w) (mgr s (home w))) s)).
Proof.
  intros I Hp Hr Hc. assert (0 < w) by (apply (li_pos _ I); by rewrite Hp).
  apply (quiet_inv s w); simpl; try done.
  - rewrite (li_active _ I), Hp. by destruct Hc as [[_ ->]|[_ ->]].
  - intros w' ?. by rewrite lookup_delete_ne.
  - intros r'. by rewrite lookup_delete_eq.
  - intros k'.
    assert (released (set_phase w p (put (home w) (upd_waiters (delete w) (mgr s (home w))) s)) k' w
      ↔ released s k' w) by (by apply released_put_same).
    destruct (decide (k = k')) as [<-|Hk].
    + assert (view s k w = VWait) by (by views).
      destruct Hc as [[Hf ->]|[Hf ->]].
      * eapply mv_granted; views; done.
      * eapply mv_victim; views; done.
    + destruct Hc as [[Hf ->]|[Hf ->]].
      * apply mv_same; views; rewrite ?decide_False by done; done.
      * apply mv_done; views; rewrite ?decide_False by done; done.
Qed.

Lemma round_ok s w k due cycle :
  lw_inv s → phase s w = Waiting k →
  wp (at_node (home w) (wait_round w true due cycle))
     (λ r N', lw_inv (after_round w r (set_mgr N' s))) (mgr s).
Proof.
  intros I Hp. pose proof (put_inv s (home w) I) as Hsame.
  assert (view s k w = VWait) as Hv by (by views).
  destruct (ki_wait _ _ (li_key _ I k) _ Hv) as (r & Hr & _).
  pose proof (leave_inv s w k r) as Hl. unfold rec in Hr.
  unfold wait_round, UnregisterLocalWaiter, TryUnregisterLocalWaiter. node_step. do 2 wp_step.
  rewrite Hr. destruct (w_flag r) eqn:Hf.
  - wp_step; [|wp_step; wp_step; [by rewrite orb_true_r|by wp_step]]. do 3 wp_step. rewrite Hr, Hf. simpl.
    do 4 wp_step. apply Hl; auto.
  - do 4 wp_step. rewrite Hr, Hf. simpl. do 5 wp_step. apply Hl; auto.
  - wp_step. wp_step; [done|]. by wp_step.
Qed.

Lemma size_of_list (l : list Z) : (size (list_to_set l : gset Z) ≤ length l)%nat.
Proof.
  induction l as [|x l IH]; [done|]. cbn [list_to_set length].
  rewrite size_union_alt, size_singleton. apply le_n_S. etrans; [|exact IH]. apply subseteq_size. set_solver.
Qed.

(** The walk visits a transaction that waits, and no one it has visited, in every hop. *)
Lemma chain_walk_returns expired my self N (W : list Z) :
  (∀ node t, t ≠ my → is_Some (QueryWaiterHolder t (N node)) → t ∈ W) → (length W ≤ 126)%nat →
  ∀ hops hop (V : gset Z) cur node,
  (Z.of_nat (size V) = hop) → my ∉ V → V ⊆ list_to_set W →
  wp (chain_walk expired my self hops hop ({[my]} ∪ V) cur node) (λ _ N', N' = N) N.
Proof.
  intros HW HlW. induction hops as [|hops IH]; intros hop V cur node Hhop Hmy HV; cbn [chain_walk]; [done|].
  assert (size V ≤ 126)%nat as Hsize.
  { etrans; [by apply subseteq_size|]. etrans; [|exact HlW]. apply size_of_list. }
  wp_step; [by wp_step|]. wp_step. wp_step; [apply negb_true_iff, Z.eqb_neq; unfold kMaxChainHops; lia|].
  wp_step; [by wp_step|]. wp_step; [by wp_step|]. wp_step. wp_step.
  destruct (QueryHolderOnNode cur node self N) as [[next_ts next_node]|] eqn:Hq; [|by wp_step].
  wp_step; [by wp_step|]. bool_simpl.
  assert (cur ∈ W) as Hin.
  { unfold QueryHolderOnNode in Hq. repeat case_match; [eapply HW; eauto| |eapply HW; eauto]; done. }
  rewrite (union_comm_L {[cur]}), <- union_assoc_L. apply IH; [|set_solver|set_solver].
  rewrite size_union, size_singleton by set_solver. lia.
Qed.

Lemma wait_detect_returns expired w self h n N :
  waiting_others w 126 N → wp (wait_detect expired w self h n) (λ _ N', N' = N) N.
Proof.
  intros (W & Hl & HW). unfold wait_detect. wp_step. wp_step.
  destruct (default (h, n) (QueryWaiterHolder w (N self))) as [h' n'].
  unfold DetectDeadlockByChainWalk. rewrite <- (union_empty_r_L {[w]}).
  eapply chain_walk_returns; [exact HW|exact Hl|done|set_solver|set_solver].
Qed.

Lemma set_mgr_same s : set_mgr (mgr s) s = s.
Proof. by destruct s. Qed.

Lemma finish_ok s t :
  lw_inv s → phase s t = Running → lw_inv (set_phase t Finishing s).
Proof.
  intros I Hp. eapply (lw_inv_ghost s); try done.
  - intros t'. rewrite phase_set. destruct (decide (t' = t)) as [->|]; [by rewrite Hp|done].
  - intros t'. rewrite phase_set. destruct (decide (t' = t)) as [->|]; [by rewrite Hp|done].
  - intros t'. rewrite phase_set. destruct (decide (t' = t)) as [->|]; [by rewrite Hp|done].
  - intros k. apply (key_inv_moves s); try done; [|apply I].
    intros t'. destruct (decide (t' = t)) as [->|].
    + apply mv_done; by views.
    + apply mv_same; by rewrite ?view_set, ?decide_False.
Qed.

(** A transaction that owns no row and waits for none has no queue left. *)
Lemma no_residual s t :
  lw_inv s → phase s t = Finishing → (∀ k, row s k ≠ Some t) →
  keys_of t (holder_keys (mgr s (home t))) = ∅.
Proof.
  intros I Hp Hrow. apply set_eq. intros k. split; [|set_solver].
  intros (q & Hq & Ho)%(li_index _ I).
  destruct (ki_queue _ _ (li_key _ I k) _ _ Hq) as (_ & _ & _ & _ & _ & Hown).
  rewrite Ho in Hown. destruct Hown as [[Hr _]|(t' & st & ph & _ & Hv & Hi & Hn)].
  - by destruct (Hrow k).
  - assert (view s k t = VDead) as Hw by (by views).
    pose proof (ki_stage _ _ (li_key _ I k) _ _ Hv) as Hs.
    pose proof (li_pos _ I t ltac:(by rewrite Hp)).
    destruct st; simplify_eq/=; [| |case_match; [lia|]];
      unfold reserved_for in Hs; naive_solver congruence.
Qed.

Lemma end_ok s t :
  lw_inv s → phase s t = Finishing → (∀ k, row s k ≠ Some t) →
  wp (at_node (home t) (FinishTx t))
     (λ _ N', lw_inv (set_phase t Gone (set_mgr N' s))) (mgr s).
Proof.
  intros I Hp Hrow. pose proof (no_residual _ _ I Hp Hrow) as Hres.
  unfold FinishTx. node_step. do 8 wp_step. simpl. apply wp_check; [by rewrite Hres|].
  assert (0 < t) by (apply (li_pos _ I); by rewrite Hp).
  apply (quiet_inv s t); simpl; try done.
  - intros h. rewrite keys_of_delete. by destruct (decide (h = t)) as [->|].
  - set_solver.
  - set_solver.
  - intros r Hr. eapply (li_rec _ I t) in Hr. by rewrite Hp in Hr.
  - intros t' ?. by rewrite keys_of_delete, decide_False.
  - intros k. apply mv_end; views; try done.
    change (¬ released (put (home t) (mkManager (active_txs (mgr s (home t)) ∖ {[t]})
      (local_queues (mgr s (home t))) (delete t (holder_keys (mgr s (home t))))
      (delete t (forwarded_keys (mgr s (home t)))) (local_waiters (mgr s (home t)))) s) k t).
    rewrite released_put, decide_True by done. simpl. rewrite keys_of_delete, decide_True by done.
    set_solver.
Qed.

(** ** Calls about one row *)

Definition similar (k0 : TupleWaitKey) (p p' : Phase) : Prop :=
  (∀ k, k ≠ k0 → view_of k p' = view_of k p) ∧ (alive p' ↔ alive p) ∧
  (waits p → waits p') ∧ (p' ≠ Unborn → p ≠ Unborn).

Lemma similar_refl k0 p : similar k0 p p.
Proof. done. Qed.

Section row_step.
Variables (s s' : Sys) (n : Z) (m' : Manager) (k0 : TupleWaitKey).
Hypothesis I : lw_inv s.
Hypothesis Hm : ∀ n', mgr s' n' = if decide (n' = n) then m' else mgr s n'.
Hypothesis Hact : active_txs m' = active_txs (mgr s n).
Hypothesis Hidx : index_ok m'.
Hypothesis Hph : ∀ t, similar k0 (phase s t) (phase s' t).
Hypothesis Hrow : ∀ k, k ≠ k0 → row s' k = row s k.
Hypothesis Hq : ∀ k, k ≠ k0 → local_queues m' !! k = local_queues (mgr s n) !! k.
Hypothesis Hr : ∀ w r, home w = n → local_waiters (mgr s n) !! w = Some r → w_key_set r = true →
  w_key r ≠ k0 → local_waiters m' !! w = Some r.
Hypothesis Hdom : ∀ w r', home w = n → local_waiters m' !! w = Some r' →
  ∃ r, local_waiters (mgr s n) !! w = Some r.
Hypothesis Hf : ∀ k t, k ≠ k0 →
  k ∈ keys_of t (forwarded_keys m') ↔ k ∈ keys_of t (forwarded_keys (mgr s n)).
Hypothesis Hdel : ∀ ph, h_key ph ≠ k0 → ph ∈ delivered s' → ph ∈ delivered s.
Hypothesis Hk0 : key_inv s' k0.

Lemma row_step_inv : lw_inv s'.
Proof using All.
  apply (lw_inv_change s s' n m'); try done.
  - intros t. apply Hph.
  - intros t. apply Hph.
  - intros w r Hn Hw. destruct (Hdom _ _ Hn Hw) as [r0 Hr0]. apply Hph.
    eapply (li_rec _ I w r0). unfold rec. by rewrite Hn.
  - intros w _. apply Hph.
  - intros k. destruct (decide (k = k0)) as [->|Hne]; [done|].
    apply (key_inv_moves s); [auto| | |by intros ph <-; apply Hdel|apply I].
    + intros n'. unfold queue. rewrite Hm. destruct (decide (n' = n)) as [->|]; auto.
    + intros t. apply mv_same; [by apply Hph| |].
      * intros Ha. destruct (about_rec _ _ _ (li_key _ I k) Ha) as (r & Hrec & Hkr & Hks).
        rewrite Hrec. unfold rec in *. rewrite Hm.
        destruct (decide (home t = n)) as [E|]; [|done]. apply Hr; [done|by rewrite <- E|done|congruence].
      * unfold released. rewrite Hm. destruct (decide (home t = n)) as [E|]; [|done].
        rewrite Hf by done. by rewrite E.
Qed.
End row_step.

(** ** The reverse index *)

Lemma index_ext m m' :
  local_queues m' = local_queues m → holder_keys m' = holder_keys m → index_ok m → index_ok m'.
Proof. intros E E' I h k. rewrite E, E'. apply I. Qed.

Lemma index_insert m k q q' :
  index_ok m → local_queues m !! k = Some q → owner_holder_ts q' = owner_holder_ts q →
  index_ok (upd_queues (insert k q') m).
Proof.
  intros I Hq Ho h k'. simpl. rewrite (I h k'). destruct (decide (k' = k)) as [->|].
  - rewrite lookup_insert_eq, Hq. naive_solver congruence.
  - by rewrite lookup_insert_ne.
Qed.

Lemma index_new m k q' :
  index_ok m → local_queues m !! k = None →
  index_ok (upd_queues (insert k q') (upd_holder_keys (add_key (owner_holder_ts q') k) m)).
Proof.
  intros I Hq h k'. simpl. rewrite keys_of_add, (I h k'). destruct (decide (k' = k)) as [->|].
  - rewrite lookup_insert_eq, Hq. naive_solver.
  - rewrite lookup_insert_ne by done. naive_solver.
Qed.

Lemma index_erase m k q :
  index_ok m → local_queues m !! k = Some q →
  index_ok (upd_holder_keys (drop_key (owner_holder_ts q) k) (upd_queues (delete k) m)).
Proof.
  intros I Hq h k'. simpl. rewrite keys_of_drop, (I h k'). destruct (decide (k' = k)) as [->|].
  - rewrite lookup_delete_eq, Hq. naive_solver.
  - rewrite lookup_delete_ne by done. naive_solver.
Qed.

(** The queue changes hands inside one node. *)
Lemma index_transfer m k q q' :
  index_ok m → local_queues m !! k = Some q → owner_holder_ts q' ≠ owner_holder_ts q →
  index_ok (upd_holder_keys (drop_key (owner_holder_ts q) k)
    (upd_holder_keys (add_key (owner_holder_ts q') k) (upd_queues (insert k q') m))).
Proof.
  intros I Hq Hne h k'. simpl. rewrite keys_of_drop, keys_of_add, (I h k').
  destruct (decide (k' = k)) as [->|].
  - rewrite lookup_insert_eq, Hq. naive_solver.
  - rewrite lookup_insert_ne by done. naive_solver.
Qed.

(** ** Registration *)

Lemma rejected_inv s w k h :
  lw_inv s → phase s w = Registering k h → lw_inv (set_phase w (Rejected k) s).
Proof.
  intros I Hp. eapply (lw_inv_ghost s); try done.
  1-3: intros t'; rewrite phase_set; destruct (decide (t' = w)) as [->|]; [by rewrite Hp|done].
  intros k'. apply (key_inv_moves s); try done; [|apply I].
  intros t'. destruct (decide (t' = w)) as [->|].
  - destruct (decide (k = k')) as [<-|].
    + eapply mv_rejected; by views.
    + apply mv_same; views; by rewrite ?decide_False.
  - apply mv_same; by rewrite ?view_set, ?decide_False.
Qed.

Lemma view_gone s k t : view s k t = VGone ↔ phase s t = Gone.
Proof. unfold view. destruct (phase s t); simpl; try case_decide; done. Qed.

Lemma register_ok s w k h :
  lw_inv s → phase s w = Registering k h →
  wp (at_node (home h) (OnRegisterTupleWait k h w (home w)))
     (λ b N', lw_inv (set_phase w (if b : bool then Rejected k else Waiting k) (set_mgr N' s)))
     (mgr s).
Proof.
  intros I Hp. pose proof (li_key _ I k) as Ik.
  assert (lw_inv (set_phase w (Rejected k) (put (home h) (mgr s (home h)) s))) as Hrej.
  { eapply rejected_inv; [by apply put_inv|exact Hp]. }
  assert (view s k w = VReg h) as Hv by (by views).
  destruct (ki_reg _ _ Ik _ _ Hv) as (Hhw & Hpos & Hfresh & Hc).
  unfold OnRegisterTupleWait. node_step. do 2 wp_step. wp_step; [by wp_step|].
  do 2 wp_step. wp_step; [by wp_step|]. bool_simpl.
  assert (row s k = Some h ∧ ∀ st, view s k h ≠ VUnl st) as [Hr Hn].
  { destruct Hc as [?|[Hg%view_gone|?]]; [done| |done].
    destruct (decide (h ∈ active_txs (mgr s (home h)))) as [Ha|]; [|set_solver].
    apply (li_active _ I) in Ha. by rewrite Hg in Ha. }
  do 2 wp_step.
  assert (∀ m', local_queues m' = <[k := mkQueue (waiters (default new_queue
      (local_queues (mgr s (home h)) !! k)) ++ [(w, home w)]) h
      (version (default new_queue (local_queues (mgr s (home h)) !! k)))]>
      (local_queues (mgr s (home h))) →
    active_txs m' = active_txs (mgr s (home h)) →
    forwarded_keys m' = forwarded_keys (mgr s (home h)) →
    local_waiters m' = local_waiters (mgr s (home h)) → index_ok m' →
    lw_inv (set_phase w (Waiting k) (put (home h) m' s))) as Hdone.
  { intros m' Eq Ea Ef Ew Hidx.
    apply (row_step_inv s _ (home h) m' k); try done.
    - intros n'. apply mgr_put.
    - intros t. rewrite phase_set, phase_put. destruct (decide (t = w)) as [->|]; [|done].
      rewrite Hp. split_and!; try done. intros k' ?. simpl. by rewrite !decide_False.
    - intros k' ?. by rewrite Eq, lookup_insert_ne.
    - intros w' r _ Hr'. by rewrite Ew.
    - intros w' r' _. rewrite Ew. eauto.
    - intros k' t ?. by rewrite Ef.
    - eapply (enqueue_inv s _ k w h (local_queues (mgr s (home h)) !! k)); try done.
      + intros n. change (queue (put (home h) m' s) k n = if decide (n = home h) then
          Some (mkQueue (waiters (default new_queue (local_queues (mgr s (home h)) !! k)) ++
            [(w, home w)]) h (version (default new_queue (local_queues (mgr s (home h)) !! k))))
          else queue s k n). rewrite queue_put. destruct (decide (n = home h)); [|done].
        by rewrite Eq, lookup_insert_eq.
      + by views.
      + intros t ?. by rewrite view_set, decide_False.
      + intros t. apply (rec_put_same (home h) m' s). by rewrite Ew.
      + intros t. apply (released_put_same (home h) m' s). by rewrite Ef. }
  unfold enqueue_waiter. destruct (local_queues _ !! k) as [q|] eqn:Hq; simpl in *.
  - destruct (idle_queue_owner _ _ _ _ _ Ik Hr Hn Hq) as [Ho _].
    rewrite Ho, Z.eqb_refl. simpl.
    assert (existsb (λ w0, w0.1 =? w) (waiters q) = false) as ->.
    { apply not_true_iff_false. intros ([a b] & Hin & Ha)%existsb_exists. simpl in Ha.
      apply Z.eqb_eq in Ha as ->. apply list_elem_of_In in Hin.
      destruct (ki_queue _ _ Ik _ _ Hq) as (_ & _ & _ & _ & Hall & _).
      rewrite Forall_forall in Hall. destruct (Hall _ Hin) as [_ He]. simpl in He.
      unfold entry_ok in He. rewrite Hv in He. naive_solver. }
    do 2 wp_step. rewrite Hq. simpl. rewrite Ho.
    destruct (Z.eqb_spec h 0); [lia|]. simpl. do 4 wp_step. apply Hdone; try done.
    by eapply index_insert; [apply I|exact Hq|].
  - do 2 wp_step. rewrite Hq. simpl. do 5 wp_step. apply Hdone; try done.
    by apply index_new; [apply I|].
Qed.

(** ** Taking a free row, and freeing it *)

Lemma row_set k o s k' : row (set_row k o s) k' = if decide (k' = k) then o else row s k'.
Proof.
  simpl. destruct (decide (k' = k)) as [->|].
  - by rewrite fn_lookup_insert.
  - by rewrite fn_lookup_insert_ne by done.
Qed.

Lemma acquire_ok s t k :
  lw_inv s → phase s t = Running → row s k = None → lw_inv (set_row k (Some t) s).
Proof.
  intros I Hp Hr. apply (lw_inv_ghost s); try done.
  intros k'. destruct (decide (k' = k)) as [->|Hne].
  - destruct (free_row _ _ (li_key _ I k) Hr) as (Hq & Hu & Hw).
    destruct (li_key _ I k) as [Irow Istage Ihand Ique Ireg Irej Iwait Irel Iunl Idel]. split.
    + intros t'. rewrite row_set, decide_True by done. intros [= <-].
      change (0 < t ∧ view s k t ≠ VUnborn ∧ view s k t ≠ VGone). views.
      split_and!; [|done|done]. apply (li_pos _ I). by rewrite Hp.
    + intros t' st Hv. by destruct (Hu t' st).
    + intros t' st ph Hv. by destruct (Hu t' st).
    + intros n q E. change (queue s k n = Some q) in E. by rewrite Hq in E.
    + intros w h E. destruct (Ireg _ _ E) as (? & ? & ? & Hc). split_and!; try done.
      right. destruct Hc as [[? _]|?]; [congruence|done].
    + apply Irej.
    + intros w E. by destruct (Hw w).
    + intros t' Ht. destruct (Irel t' Ht) as [Hc _]. split; [done|].
      rewrite row_set, decide_True by done. intros [= ->].
      change (∃ st, view s k t' = VUnl st). destruct Hc as [Hc|?]; [|done].
      revert Hc. by views.
    + apply Iunl.
    + apply Idel.
  - apply (key_inv_moves s); try done; [by rewrite row_set, decide_False| |apply I].
    intros t'. by apply mv_same.
Qed.

Lemma released_add n k0 t0 m s k t :
  home t0 = n → forwarded_keys m = add_key t0 k0 (forwarded_keys (mgr s n)) →
  released (put n m s) k t ↔ (k = k0 ∧ t = t0) ∨ released s k t.
Proof.
  intros Hn E. rewrite released_put, E. destruct (decide (home t = n)) as [Ht|Ht].
  - rewrite keys_of_add. unfold released. by rewrite Ht.
  - assert (t ≠ t0) by congruence. naive_solver.
Qed.

(** The owner of a row with nobody in the queue. *)
Lemma nobody_waits s k t :
  key_inv s k → row s k = Some t → view s k t = VDead →
  match queue s k (home t) with Some q => waiters q = [] | None => True end →
  (∀ w, view s k w ≠ VWait) ∧ (∀ n, n ≠ home t → queue s k n = None).
Proof.
  intros I Hr Hv Hq. pose proof (owner_not_unlocking _ _ _ I Hr Hv) as Hn. split.
  - intros w Hw. destruct (ki_wait _ _ I _ Hw) as (r & _ & _ & _ & Hf). destruct (w_flag r).
    + destruct Hf as (_ & t' & Hr' & Hc). assert (t' = t) as -> by congruence.
      rewrite Hv in Hc. destruct Hc as (q & Hq1 & _ & Hin & _). rewrite Hq1 in Hq.
      rewrite Hq in Hin. by apply elem_of_nil in Hin.
    + destruct Hf. assert (w = t) as -> by congruence. congruence.
    + destruct Hf as (t' & st & ph & Hv' & _). by destruct (Hn t' st).
  - intros n Hne. destruct (queue s k n) as [q|] eqn:E; [|done].
    by destruct (idle_queue_owner _ _ _ _ _ I Hr (Hn t) E).
Qed.

Lemma dead_not_released s k t :
  key_inv s k → row s k = Some t → view s k t = VDead → ¬ released s k t.
Proof.
  intros I Hr Hv Hrel. destruct (proj2 (ki_released _ _ I _ Hrel) Hr). congruence.
Qed.

Lemma uncontended_ok s t k :
  lw_inv s → phase s t = Finishing → row s k = Some t →
  wp (at_node (home t) (PrepareUncontendedUnlock k t))
     (λ r N', lw_inv (match r with Some _ => set_row k None | None => id end (set_mgr N' s)))
     (mgr s).
Proof.
  intros I Hp Hr. pose proof (li_key _ I k) as Ik.
  assert (view s k t = VDead) as Hv by (by views).
  pose proof (dead_not_released _ _ _ Ik Hr Hv) as Hnr.
  pose proof (owner_not_unlocking _ _ _ Ik Hr Hv) as Hnu.
  assert (∀ m', match queue s k (home t) with Some q => waiters q = [] | None => True end →
    local_queues m' = delete k (local_queues (mgr s (home t))) →
    active_txs m' = active_txs (mgr s (home t)) →
    forwarded_keys m' = add_key t k (forwarded_keys (mgr s (home t))) →
    local_waiters m' = local_waiters (mgr s (home t)) → index_ok m' →
    lw_inv (set_row k None (put (home t) m' s))) as Hdone.
  { intros m' He Eq Ea Ef Ew Hidx.
    destruct (nobody_waits _ _ _ Ik Hr Hv He) as [Hnw Hnq].
    apply (row_step_inv s _ (home t) m' k); try done.
    - intros n'. apply mgr_put.
    - intros k' ?. by rewrite row_set, decide_False.
    - intros k' ?. by rewrite Eq, lookup_delete_ne.
    - intros w' r _ Hr'. by rewrite Ew.
    - intros w' r' _. rewrite Ew. eauto.
    - intros k' t' ?. rewrite Ef, keys_of_add. naive_solver.
    - apply (freed_inv s _ k t); try done; [by left|..].
      + by rewrite row_set, decide_True.
      + intros n. change (queue (put (home t) m' s) k n = None). rewrite queue_put.
        destruct (decide (n = home t)) as [->|]; [by rewrite Eq, lookup_delete_eq|auto].
      + intros w _. apply (rec_put_same (home t) m' s). by rewrite Ew.
      + intros t' ?. change (released (put (home t) m' s) k t' ↔ released s k t').
        rewrite (released_add _ k t) by done. naive_solver.
      + change (released (put (home t) m' s) k t). rewrite (released_add _ k t) by done. by left. }
  unfold PrepareUncontendedUnlock, erase_queue, MarkForwardedLocked. node_step. do 2 wp_step.
  destruct (local_queues _ !! k) as [q|] eqn:Hq.
  - destruct (idle_queue_owner _ _ _ _ _ Ik Hr (Hnu t) Hq) as [Ho _].
    wp_step. wp_step; [by apply Z.eqb_eq|].
    wp_step; [wp_step; by apply put_inv|]. bool_simpl.
    do 7 wp_step. simpl. wp_step; [by apply bool_decide_eq_true|]. do 3 wp_step.
    apply Hdone; simpl; try done; [by unfold queue; rewrite Hq|].
    apply (index_ext (upd_holder_keys (drop_key (owner_holder_ts q) k)
      (upd_queues (delete k) (mgr s (home t))))); [done|by rewrite Ho|].
    apply index_erase; [apply I|done].
  - do 3 wp_step. wp_step; [by apply bool_decide_eq_true|]. do 3 wp_step.
    apply Hdone; simpl; try done; [by unfold queue; rewrite Hq|by rewrite delete_id|apply I].
Qed.
End quiet_steps.
