(* ===== verification/LockWaitHandoff.v ===== *)
(** The handoff of a row, step by step ([PrepareHandoff], the calls it makes on
    other nodes, the installation, [DeliverHandoff]): each call returns and keeps
    the invariant of [LockWaitInv]. *)

From stdpp Require Import functions.
From S2P Require Import Prelude Common LockWait LockWaitProtocol LockWaitInv LockWaitSteps.

Section handoff_steps.
Context `{Placement}.
Implicit Types s : Sys.

(** ** Unlocking a row *)

(** A step of the transaction that unlocks the row, before the row changes:
    [m'] is the new state of node [n], [st] the new stage. *)
Record unlock_step (s : Sys) (t : Z) (k : TupleWaitKey) (st : Stage) (n : Z) (m' : Manager)
    : Prop := {
  us_inv : lw_inv s;
  us_phase : phase s t = Finishing ∨ ∃ st0, phase s t = Unlocking k st0;
  us_row : row s k = Some t;
  us_active : active_txs m' = active_txs (mgr s n);
  us_index : index_ok m';
  us_queues k' : k' ≠ k → local_queues m' !! k' = local_queues (mgr s n) !! k';
  us_waiters w : home w = n → view s k w ≠ VWait →
    local_waiters m' !! w = local_waiters (mgr s n) !! w;
  us_dom w r' : home w = n → local_waiters m' !! w = Some r' →
    ∃ r, local_waiters (mgr s n) !! w = Some r;
  us_fwd : (forwarded_keys m' = forwarded_keys (mgr s n) ∧ ∃ st0, phase s t = Unlocking k st0) ∨
    (home t = n ∧ forwarded_keys m' = add_key t k (forwarded_keys (mgr s n)))
}.

Section unlocking.
Variables (s : Sys) (t : Z) (k : TupleWaitKey) (st : Stage) (n : Z) (m' : Manager).
Abbreviation m := (mgr s n).
Abbreviation s' := (set_phase t (Unlocking k st) (put n m' s)).
Hypothesis U : unlock_step s t k st n m'.

Lemma unlocking_view : view s k t = VDead ∨ ∃ st0, view s k t = VUnl st0.
Proof using U. destruct (us_phase _ _ _ _ _ _ U) as [E|[st0 E]]; views; eauto. Qed.

Lemma unlocking_view_other t' : t' ≠ t → view s' k t' = view s k t'.
Proof using. intros ?. by rewrite view_set, decide_False. Qed.

Lemma unlocking_rec w : about (view s k w) → view s k w ≠ VWait → rec s' w = rec s w.
Proof using U.
  intros _ Hn. apply (rec_put_same n m' s). intros ?. by apply (us_waiters _ _ _ _ _ _ U).
Qed.

Lemma unlocking_keys k' t' : (k' = k → t' ≠ t) →
  k' ∈ keys_of t' (forwarded_keys m') ↔ k' ∈ keys_of t' (forwarded_keys m).
Proof using U.
  intros ?. destruct (us_fwd _ _ _ _ _ _ U) as [[-> _]|[_ ->]]; [done|].
  rewrite keys_of_add. naive_solver.
Qed.

Lemma unlocking_released t' : t' ≠ t → released s' k t' ↔ released s k t'.
Proof using U.
  intros ?. change (released (put n m' s) k t' ↔ released s k t').
  rewrite released_put. destruct (decide (home t' = n)) as [E|]; [|done].
  unfold released. rewrite E. by apply unlocking_keys.
Qed.

Lemma unlocking_self : released s' k t.
Proof using U.
  change (released (put n m' s) k t).
  destruct (us_fwd _ _ _ _ _ _ U) as [[Hf [st0 Hp]]|[Hn Hf]].
  - apply released_put_same; [by intros _; rewrite Hf|].
    eapply ki_unlocking; [apply (us_inv _ _ _ _ _ _ U)|by views].
  - rewrite (released_add n k t) by done. by left.
Qed.

Lemma unlocking_self_view : view s' k t = VUnl st.
Proof using. by views. Qed.

Lemma unlocking_inv :
  stage_ok s' k t st → (∀ ph, handing st = Some ph → handoff_ok k t ph) →
  (∀ n' q, queue s' k n' = Some q → queue_ok s' k n' q) →
  (∀ w r, view s k w = VWait → w ≠ t → rec s w = Some r → waiter_ok s k w r →
     ∃ r', rec s' w = Some r' ∧ waiter_ok s' k w r') →
  lw_inv s'.
Proof using U.
  intros Hs Hh Hqs Hws.
  pose proof (us_inv _ _ _ _ _ _ U) as I. pose proof (us_phase _ _ _ _ _ _ U) as Hp.
  apply (row_step_inv s _ n m' k); try done; try apply U.
  - intros n'. apply mgr_put.
  - intros t'. rewrite phase_set, phase_put. destruct (decide (t' = t)) as [->|]; [|done].
    destruct Hp as [->|[st0 ->]]; split_and!; try done; intros k' ?; simpl;
      by rewrite !decide_False.
  - intros w r Hn Hr Hks Hne. rewrite (us_waiters _ _ _ _ _ _ U), Hr; try done. intros Hv.
    destruct (ki_wait _ _ (li_key _ I k) _ Hv) as (r' & Hr' & Hk & _).
    unfold rec in Hr'. rewrite Hn in Hr'. congruence.
  - intros k' t' ?. apply unlocking_keys. naive_solver.
  - apply (progress_inv s _ k t st); try done.
    + apply I.
    + apply U.
    + apply unlocking_view.
    + apply unlocking_self_view.
    + apply unlocking_view_other.
    + apply unlocking_rec.
    + apply unlocking_released.
    + apply unlocking_self.
    + intros w Hv Hne. destruct (ki_wait _ _ (li_key _ I k) _ Hv) as (r & ? & ?). eauto.
Qed.

Lemma unlocking_queue n' q :
  queue s k n' = Some q →
  (∀ w r, w ∈ (waiters q).*1 → view s k w = VWait → rec s w = Some r → w_flag r = WAITING →
          ∃ r', rec s' w = Some r' ∧ w_flag r' = WAITING) →
  owned s' k (owner_holder_ts q) → queue_ok s' k n' q.
Proof using U.
  intros Hq. apply (progress_queue s s' k t st); try done.
  - apply (us_inv _ _ _ _ _ _ U).
  - apply (us_row _ _ _ _ _ _ U).
  - apply unlocking_view.
  - apply unlocking_self_view.
  - apply unlocking_view_other.
  - apply unlocking_rec.
  - apply unlocking_released.
  - apply unlocking_self.
  - eapply ki_queue; [|exact Hq]. apply (us_inv _ _ _ _ _ _ U).
Qed.

Lemma unlocking_waiter w r r' :
  view s k w = VWait → w ≠ t → waiter_ok s k w r → same_wait r r' →
  (w_flag r = WAITING → queued s k w r → queued s' k w r') →
  (∀ st0 ph, view s k t = VUnl st0 → reserving st0 = Some ph → new_holder_ts ph = w →
     ∃ ph', reserving st = Some ph' ∧ new_holder_ts ph' = w) →
  waiter_ok s' k w r'.
Proof using U.
  apply (progress_waiter s s' k t st); try done.
  - apply (us_inv _ _ _ _ _ _ U).
  - apply (us_row _ _ _ _ _ _ U).
  - apply unlocking_view.
  - apply unlocking_self_view.
  - apply unlocking_view_other.
  - apply unlocking_rec.
  - apply unlocking_released.
  - apply unlocking_self.
Qed.
End unlocking.

Lemma same_wait_refl r : same_wait r r.
Proof. done. Qed.

Lemma freeze_ok s t k :
  lw_inv s → phase s t = Finishing → row s k = Some t →
  wp (at_node (home t) (freeze k t))
     (λ _ N', lw_inv (set_phase t (Unlocking k Frozen) (set_mgr N' s))) (mgr s).
Proof.
  intros I Hp Hr. pose proof (li_key _ I k) as Ik.
  assert (view s k t = VDead) as Hv by (by views).
  pose proof (dead_not_released _ _ _ Ik Hr Hv) as Hnr.
  pose proof (owner_not_unlocking _ _ _ Ik Hr Hv) as Hnu.
  unfold freeze, MarkForwardedLocked. node_step. do 3 wp_step.
  wp_step; [by apply bool_decide_eq_true|]. wp_step.
  assert (unlock_step s t k Frozen (home t) (upd_forwarded (add_key t k) (mgr s (home t)))) as U.
  { split; simpl; try done; [by left|apply I|eauto|by right]. }
  assert (∀ w, rec (put (home t) (upd_forwarded (add_key t k) (mgr s (home t))) s) w = rec s w)
    as Hrec by (intros w; by apply rec_put_same).
  apply (unlocking_inv _ _ _ _ _ _ U); try done.
  - intros n' q. rewrite queue_phase, queue_put_same by done. intros Hq.
    apply (unlocking_queue _ _ _ _ _ _ U); [done|intros w r; rewrite rec_phase, Hrec; eauto|].
    destruct (idle_queue_owner _ _ _ _ _ Ik Hr (Hnu t) Hq) as [-> _]. left. split; [done|].
    by views.
  - intros w r Hvw Hne Hrw Hok. exists r. rewrite rec_phase, Hrec. split; [done|].
    apply (unlocking_waiter _ _ _ _ _ _ U w r); try done; [|by intros ? ? ?%Hnu].
    intros _ (t' & Hr' & Hc). assert (t' = t) as -> by congruence. exists t. split; [done|].
    rewrite Hv in Hc. views. destruct Hc as (q & Hq & Hc). exists q.
    by rewrite queue_phase, queue_put_same.
Qed.

(** *** Taking waiters off the queue *)

Section head.
Variables (s : Sys) (t : Z) (k : TupleWaitKey).
Hypothesis I : lw_inv s.
Hypothesis Hp : phase s t = Unlocking k Frozen.

Lemma frozen_view : view s k t = VUnl Frozen.
Proof using Hp. by views. Qed.

Lemma frozen_row : row s k = Some t.
Proof using I Hp. apply (ki_stage _ _ (li_key _ I k) _ _ frozen_view). Qed.

Lemma frozen_queue n q : queue s k n = Some q → n = home t ∧ owner_holder_ts q = t.
Proof using I Hp.
  intros Hq. destruct (ki_queue _ _ (li_key _ I k) _ _ Hq) as (-> & _ & _ & _ & _ & Ho).
  pose proof frozen_row as Hr.
  assert (owner_holder_ts q = t) as ->; [|done].
  destruct Ho as [[? _]|(t' & st & ph & _ & Hv & Hi & _)]; [congruence|].
  assert (t' = t) as -> by (eapply unlocking_unique; [apply I|exact Hv|exact frozen_view]).
  rewrite frozen_view in Hv. by simplify_eq.
Qed.

Lemma frozen_waiter w r : view s k w = VWait → waiter_ok s k w r →
  w ≠ t ∧ w_key r = k ∧ w_key_set r = true ∧ w_flag r = WAITING ∧
  reservation_version r = 0 ∧
  ∃ q, queue s k (home t) = Some q ∧ w ∈ (waiters q).*1 ∧ on_owner r t (version q + 1).
Proof using I Hp.
  intros Hw (Hk & Hks & Hf). pose proof frozen_row as Hr. pose proof frozen_view as Hv.
  assert (w ≠ t) by congruence. do 3 (split; [done|]). destruct (w_flag r).
  - destruct Hf as (Hrv & t' & Hr' & Hc). assert (t' = t) as -> by congruence.
    rewrite Hv in Hc. destruct Hc as (q & ? & ? & ? & ?). do 2 (split; [done|]). by exists q.
  - destruct Hf. congruence.
  - destruct Hf as (t' & st & ph & Hv' & Hi & _).
    assert (t' = t) as -> by (eapply unlocking_unique; [apply I|exact Hv'|exact Hv]).
    rewrite Hv in Hv'. by simplify_eq.
Qed.

(** A waiter in the queue whose record is there can be reserved. *)
Lemma frozen_reserve w r v q :
  view s k w = VWait → waiter_ok s k w r → queue s k (home t) = Some q → version q < v →
  ReserveWaiterLocked r k t v = Some (set_flag RESERVED (set_reservation k t v r)).
Proof using I Hp.
  intros Hw Hok Hq Hv.
  destruct (frozen_waiter _ _ Hw Hok) as (_ & Hk & Hks & Hf & _ & q' & Hq' & _ & Ht & _ & Hver).
  assert (q' = q) as -> by congruence.
  unfold ReserveWaiterLocked. rewrite Hf, Hks, Hk, Ht. rewrite !bool_decide_true by done. simpl.
  rewrite Z.eqb_refl. simpl. destruct (Z.leb_spec v (w_holder_version r)); [lia|done].
Qed.

(** The loop ends with nobody in the queue. *)
Lemma head_none m' :
  match queue s k (home t) with Some q => waiters q = [] | None => True end →
  local_queues m' = delete k (local_queues (mgr s (home t))) →
  active_txs m' = active_txs (mgr s (home t)) → forwarded_keys m' = forwarded_keys (mgr s (home t)) →
  local_waiters m' = local_waiters (mgr s (home t)) → index_ok m' →
  lw_inv (set_phase t (Unlocking k (Prepared (unowned_handoff k t))) (put (home t) m' s)).
Proof using I Hp.
  intros He Eq Ea Ef Ew Hidx. pose proof frozen_row as Hr.
  assert (unlock_step s t k (Prepared (unowned_handoff k t)) (home t) m') as U.
  { split; try done; eauto.
    - intros k' ?. by rewrite Eq, lookup_delete_ne.
    - by rewrite Ew.
    - rewrite Ew. eauto. }
  assert (∀ n, queue (put (home t) m' s) k n = None) as Hnone.
  { intros n. rewrite queue_put. destruct (decide (n = home t)) as [->|Hne].
    - by rewrite Eq, lookup_delete_eq.
    - destruct (queue s k n) as [q|] eqn:Hq; [|done]. by destruct (frozen_queue _ _ Hq). }
  apply (unlocking_inv _ _ _ _ _ _ U); try done.
  - intros ph [= <-]. split_and!; done.
  - intros n' q. by rewrite queue_phase, Hnone.
  - intros w r Hw _ _ Hok.
    destruct (frozen_waiter _ _ Hw Hok) as (_ & _ & _ & _ & _ & q & Hq & Hin & _).
    rewrite Hq in He. rewrite He in Hin. by apply elem_of_nil in Hin.
Qed.

Section pop.
Variables (q : TupleWaitQueue) (ts node : Z) (rest : list (Z * Z)).
Hypothesis Hq : queue s k (home t) = Some q.
Hypothesis Hws : waiters q = (ts, node) :: rest.
Hypothesis Hver : version q + 1 < 2 ^ 64.
Abbreviation v := (version q + 1).

Lemma pop_queue : owner_holder_ts q = t ∧ 0 < t ∧ 0 ≤ version q ∧ node = home ts ∧ entry_ok s k ts ∧
  NoDup (ts :: rest.*1) ∧ Forall (λ e, e.2 = home e.1 ∧ entry_ok s k e.1) rest.
Proof using I Hp Hq Hws.
  destruct (ki_queue _ _ (li_key _ I k) _ _ Hq) as (_ & Hpos & ? & Hnd & Hall & _).
  destruct (frozen_queue _ _ Hq) as [_ Ho]. rewrite Ho in Hpos. rewrite Hws in Hnd, Hall.
  apply Forall_cons in Hall as [[? ?] ?]. split_and!; try done; lia.
Qed.

(** A waiter other than the head stays where it was. *)
Lemma pop_waiter w r : view s k w = VWait → waiter_ok s k w r → w ≠ ts →
  w ∈ rest.*1 ∧ on_owner r t v.
Proof using I Hp Hq Hws.
  intros Hw Hok Hne.
  destruct (frozen_waiter _ _ Hw Hok) as (_ & _ & _ & _ & _ & q' & Hq' & Hin & Ho).
  assert (q' = q) as -> by congruence. rewrite Hws in Hin.
  apply elem_of_cons in Hin as [?|?]; done.
Qed.

Lemma pop_handoff b : ts ≠ t → 0 < ts → handoff_ok k t (mkHandoff k t ts node v rest b true).
Proof using I Hp Hq Hws Hver.
  intros Hne Hpos. destruct pop_queue as (_ & _ & ? & ? & _ & ? & Hall).
  split_and!; try done. intros _. simpl in *. split_and!; try done; [lia|].
  eapply Forall_impl; [exact Hall|]. by intros e [].
Qed.

(** The head has left: it is dropped. *)
Lemma head_gone_inv m' :
  departed (view s k ts) →
  local_queues m' = <[k := mkQueue rest t v]> (local_queues (mgr s (home t))) →
  active_txs m' = active_txs (mgr s (home t)) → forwarded_keys m' = forwarded_keys (mgr s (home t)) →
  local_waiters m' = local_waiters (mgr s (home t)) → index_ok m' →
  lw_inv (set_phase t (Unlocking k Frozen) (put (home t) m' s)).
Proof using I Hp Hq Hws Hver.
  intros Hdep Eq Ea Ef Ew Hidx. pose proof frozen_row as Hr. pose proof frozen_view as Hv.
  destruct pop_queue as (Ho & Hpos & Hv0 & Hnode & He & Hnd & Hall).
  assert (unlock_step s t k Frozen (home t) m') as U.
  { split; try done; eauto.
    - intros k' ?. by rewrite Eq, lookup_insert_ne.
    - by rewrite Ew.
    - rewrite Ew. eauto. }
  assert (∀ w, rec (put (home t) m' s) w = rec s w) as Hrec
    by (intros w; apply rec_put_same; by rewrite Ew).
  apply NoDup_cons in Hnd as [Hts Hnd].
  apply (unlocking_inv _ _ _ _ _ _ U); try done.
  - intros n' q'. rewrite queue_phase, queue_put. destruct (decide (n' = home t)) as [->|Hne].
    + rewrite Eq, lookup_insert_eq. intros [= <-]. split_and!; simpl; try done; try lia.
      * eapply Forall_impl; [exact Hall|]. intros e [? Hok]. split; [done|].
        eapply (progress_entry s); [apply (unlocking_self_view s t k Frozen)| | |exact Hok].
        -- intros t' ?. by apply unlocking_view_other.
        -- intros r ? ? ?. rewrite rec_phase, Hrec. eauto.
      * left. split; [done|]. by views.
    + intros Hq'. by destruct (frozen_queue _ _ Hq').
  - intros w r Hw Hne Hrw Hok. exists r. rewrite rec_phase, Hrec. split; [done|].
    assert (w ≠ ts) as Hwts by (intros ->; by rewrite Hw in Hdep).
    destruct (pop_waiter _ _ Hw Hok Hwts) as [Hin (? & ? & ?)].
    apply (unlocking_waiter _ _ _ _ _ _ U w r); try done.
    + intros _ _. exists t. split; [done|]. views. exists (mkQueue rest t v).
      rewrite queue_phase, queue_put, decide_True, Eq, lookup_insert_eq by done.
      do 3 (split; [done|]). split_and!; simpl; [done|done|lia].
    + intros st0 ph Hst0. rewrite Hv in Hst0. by simplify_eq.
Qed.

(** The head is somebody of another node: it is asked. *)
Lemma head_remote_inv m' :
  home ts ≠ home t →
  local_queues m' = <[k := mkQueue rest t v]> (local_queues (mgr s (home t))) →
  active_txs m' = active_txs (mgr s (home t)) → forwarded_keys m' = forwarded_keys (mgr s (home t)) →
  local_waiters m' = local_waiters (mgr s (home t)) → index_ok m' →
  lw_inv (set_phase t (Unlocking k (Asking (mkHandoff k t ts node v rest false true)))
    (put (home t) m' s)).
Proof using I Hp Hq Hws Hver.
  intros Hrem Eq Ea Ef Ew Hidx. pose proof frozen_row as Hr. pose proof frozen_view as Hv.
  destruct pop_queue as (Ho & Hpos & Hv0 & Hnode & He & Hnd & Hall).
  set (ph := mkHandoff k t ts node v rest false true).
  assert (unlock_step s t k (Asking ph) (home t) m') as U.
  { split; try done; eauto.
    - intros k' ?. by rewrite Eq, lookup_insert_ne.
    - by rewrite Ew.
    - rewrite Ew. eauto. }
  assert (∀ w, rec (put (home t) m' s) w = rec s w) as Hrec
    by (intros w; apply rec_put_same; by rewrite Ew).
  assert (∀ e, entry_ok s k e → entry_ok (set_phase t (Unlocking k (Asking ph)) (put (home t) m' s)) k e)
    as Hentry.
  { intros e Hok. eapply (progress_entry s); [apply unlocking_self_view| | |exact Hok].
    - intros t' ?. by apply unlocking_view_other.
    - intros r ? ? ?. rewrite rec_phase, Hrec. eauto. }
  assert (0 < ts) as Htspos.
  { apply (li_pos _ I). intros E. destruct He as [Hd|[Hd _]]; unfold view in Hd; by rewrite E in Hd. }
  apply (unlocking_inv _ _ _ _ _ _ U).
  - split_and!; simpl; [done|lia|done| |by apply Hentry].
    rewrite queue_phase, queue_put, decide_True, Eq, lookup_insert_eq by done. done.
  - intros ph' [= <-]. apply pop_handoff; [congruence|done].
  - intros n' q'. rewrite queue_phase, queue_put. destruct (decide (n' = home t)) as [->|Hne].
    + rewrite Eq, lookup_insert_eq. intros [= <-].
      apply NoDup_cons in Hnd as [Hts Hnd]. split_and!; simpl; try done; try lia.
      * eapply Forall_impl; [exact Hall|]. intros e [? Hok]. split; [done|]. by apply Hentry.
      * left. split; [done|]. by views.
    + intros Hq'. by destruct (frozen_queue _ _ Hq').
  - intros w r Hw Hne Hrw Hok. exists r. rewrite rec_phase, Hrec. split; [done|].
    apply (unlocking_waiter _ _ _ _ _ _ U w r); try done.
    + intros _ _. exists t. split; [done|]. views.
      destruct (decide (w = ts)) as [->|Hwts].
      * split; [by left|].
        destruct (frozen_waiter _ _ Hw Hok) as (_ & _ & _ & _ & _ & q' & Hq' & _ & Hon).
        by simplify_eq.
      * destruct (pop_waiter _ _ Hw Hok Hwts) as [? ?]. split; [by right|done].
    + intros st0 ph' Hst0. rewrite Hv in Hst0. by simplify_eq.
Qed.

(** The head is a live waiter of this node: it is reserved and the queue is its. *)
Lemma head_reserved_inv r0 W u m' :
  home ts = home t → view s k ts = VWait → rec s ts = Some r0 → w_flag r0 = WAITING →
  local_queues m' = <[k := mkQueue rest ts v]> (local_queues (mgr s (home t))) →
  active_txs m' = active_txs (mgr s (home t)) → forwarded_keys m' = forwarded_keys (mgr s (home t)) →
  local_waiters m' = W → index_ok m' →
  W !! ts = Some (set_flag RESERVED (set_reservation k t v r0)) →
  (∀ w, w ≠ ts → (w, home t) ∉ rest → W !! w = local_waiters (mgr s (home t)) !! w) →
  (∀ w, w ≠ ts → (w, home t) ∈ rest →
     W !! w = refresh_holder ts (home t) k v <$> local_waiters (mgr s (home t)) !! w) →
  (∀ w n, (w, n) ∈ rest → n ≠ home t → w ∈ default [] (u !! n)) →
  updates_ok (mkHandoff k t ts node v rest true true) u →
  lw_inv (set_phase t (Unlocking k (Updating (mkHandoff k t ts node v rest true true) u))
    (put (home t) m' s)).
Proof using I Hp Hq Hws Hver.
  intros Hloc Hvts Hr0 Hf0 Eq Ea Ef Ew Hidx Wts Wout Win Hu Huok.
  pose proof frozen_row as Hr. pose proof frozen_view as Hv.
  destruct pop_queue as (Ho & Hpos & Hv0 & Hnode & He & Hnd & Hall).
  set (ph := mkHandoff k t ts node v rest true true) in *.
  assert (ts ≠ t) as Htst by congruence.
  assert (0 < ts) as Htspos.
  { apply (li_pos _ I). intros E. unfold view in Hvts. by rewrite E in Hvts. }
  rewrite Forall_forall in Hall. apply NoDup_cons in Hnd as Hnd'. destruct Hnd' as [Hts Hnd1].
  assert (∀ w, w ∈ rest.*1 → (w, home w) ∈ rest ∧ entry_ok s k w ∧ w ≠ ts) as Hrest.
  { intros w Hin. apply list_elem_of_fmap in Hin as Hin'. destruct Hin' as ([a b] & -> & Hin').
    destruct (Hall _ Hin') as [E ?]. simpl in *. rewrite <- E. split_and!; try done. congruence. }
  assert (∀ w r, (w, home t) ∈ rest → view s k w ≠ VWait → local_waiters (mgr s (home t)) !! w ≠ Some r)
    as Hdead.
  { intros w r Hin Hn Hl. destruct (Hall _ Hin) as [E [Hd|[? _]]]; simpl in *; [|done].
    assert (rec s w = Some r) as Hr'%li_rec by (unfold rec; by rewrite <- E); [|done].
    revert Hd Hr'. unfold view. destruct (phase s w); simpl; try case_decide; done. }
  assert (unlock_step s t k (Updating ph u) (home t) m') as U.
  { split; try done; eauto.
    - intros k' ?. by rewrite Eq, lookup_insert_ne.
    - intros w Hw Hn. rewrite Ew. assert (w ≠ ts) by congruence.
      destruct (decide ((w, home t) ∈ rest)) as [Hin|Hin]; [|by apply Wout].
      rewrite Win by done. destruct (local_waiters (mgr s (home t)) !! w) as [r|] eqn:E; [|done].
      by destruct (Hdead w r).
    - intros w r' Hw. rewrite Ew. destruct (decide (w = ts)) as [->|].
      + intros _. exists r0. unfold rec in Hr0. by rewrite <- Hw.
      + destruct (decide ((w, home t) ∈ rest)); [rewrite Win by done|rewrite Wout by done; eauto].
        intros (r & ? & ?)%fmap_Some_1. eauto. }
  assert (∀ w r, rec s w = Some r → w ≠ ts → ∃ r', rec (put (home t) m' s) w = Some r' ∧ same_wait r r')
    as Hsame.
  { intros w r Hrw Hne. rewrite rec_put. destruct (decide (home w = home t)) as [E|]; [|by exists r].
    unfold rec in Hrw. rewrite E in Hrw. rewrite Ew.
    destruct (decide ((w, home t) ∈ rest)) as [Hin|Hin].
    - rewrite Win, Hrw by done. eexists. split; [done|]. apply refresh_same.
    - rewrite Wout, Hrw by done. by exists r. }
  apply (unlocking_inv _ _ _ _ _ _ U).
  - split_and!; simpl; [done|lia| | |done].
    + by rewrite queue_phase, queue_put, decide_True, Eq, lookup_insert_eq.
    + split; [by rewrite unlocking_view_other|].
      exists (set_flag RESERVED (set_reservation k t v r0)).
      rewrite rec_phase, rec_put, decide_True, Ew by done. done.
  - intros ph' [= <-]. by apply pop_handoff.
  - intros n' q'. rewrite queue_phase, queue_put. destruct (decide (n' = home t)) as [->|Hne].
    + rewrite Eq, lookup_insert_eq. intros [= <-]. split_and!; simpl; try done; try lia.
      * apply Forall_forall. intros e Hin. destruct (Hall _ Hin) as [E Hok]. split; [done|].
        eapply (progress_entry s); [apply unlocking_self_view| | |exact Hok].
        -- intros t' ?. by apply unlocking_view_other.
        -- intros r ? Hre Hfe. destruct (Hrest e.1) as (_ & _ & Hne);
             [apply list_elem_of_fmap; eauto|].
           rewrite rec_phase. destruct (Hsame _ _ Hre Hne) as (r' & ? & Es & _).
           exists r'. by rewrite Es.
      * right. exists t, (Updating ph u), ph. split_and!; try done. by views.
    + intros Hq'. by destruct (frozen_queue _ _ Hq').
  - intros w r Hw Hne Hrw Hok. rewrite rec_phase.
    destruct (decide (w = ts)) as [->|Hwts].
    + exists (set_flag RESERVED (set_reservation k t v r0)).
      rewrite rec_put, decide_True, Ew by done. split; [done|].
      assert (r = r0) as -> by congruence.
      destruct (frozen_waiter _ _ Hw Hok) as (_ & Hk & Hks & _).
      do 2 (split; [done|]). simpl. exists t, (Updating ph u), ph. split_and!; try done. by views.
    + destruct (pop_waiter _ _ Hw Hok Hwts) as [Hin Hon].
      destruct (Hrest w Hin) as (Hin' & _ & _).
      destruct (Hsame _ _ Hrw Hwts) as (r' & Hr' & Hs). exists r'. split; [done|].
      apply (unlocking_waiter _ _ _ _ _ _ U w r); try done.
      * intros _ _. exists t. split; [done|]. views. split; [done|].
        rewrite rec_put in Hr'. destruct (decide (home w = home t)) as [E|E].
        -- left. rewrite Ew, Win in Hr' by (rewrite <- ?E; done).
           unfold rec in Hrw. rewrite <- E, Hrw in Hr'. simpl in Hr'. injection Hr' as <-.
           destruct (frozen_waiter _ _ Hw Hok) as (_ & Hk & Hks & _).
           destruct Hon as (_ & _ & Hlt). unfold refresh_holder.
           destruct (Z.leb_spec v (w_holder_version r)); [lia|].
           rewrite Hks, bool_decide_true by done. simpl. split_and!; simpl; congruence.
        -- right. assert (r' = r) as -> by congruence. split; [done|]. by apply Hu.
      * intros st0 ph' Hst0. rewrite Hv in Hst0. by simplify_eq.
Qed.
End pop.
End head.

Lemma entry_gone s k w : lw_inv s → departed (view s k w) → rec s w = None.
Proof.
  intros I Hd. destruct (rec s w) as [r|] eqn:Hr; [|done].
  apply li_rec in Hr; [|done]. unfold view in Hd. destruct (phase s w); simpl in *; try case_decide; done.
Qed.

Lemma take_head_ok s t k :
  lw_inv s → phase s t = Unlocking k Frozen →
  (∀ q, local_queues (mgr s (home t)) !! k = Some q → version q + 1 < 2 ^ 64) →
  wp (at_node (home t) (take_head k t (home t)))
     (λ h N', lw_inv (set_phase t (Unlocking k (after_head k t h)) (set_mgr N' s))) (mgr s).
Proof.
  intros I Hp Hver. pose proof (li_key _ I k) as Ik.
  unfold take_head, erase_queue. node_step. do 2 wp_step.
  destruct (local_queues _ !! k) as [q|] eqn:Hq.
  2:{ wp_step. apply (head_none s t k I Hp); try done.
      - unfold queue. by rewrite Hq.
      - by rewrite delete_id.
      - apply I. }
  destruct (frozen_queue s t k I Hp _ _ Hq) as [_ Ho].
  wp_step. wp_step; [by apply Z.eqb_eq|]. destruct (waiters q) as [|[ts node] rest] eqn:Hws.
  { do 5 wp_step. apply (head_none s t k I Hp); try done.
    - unfold queue. by rewrite Hq.
    - apply (index_ext (upd_holder_keys (drop_key (owner_holder_ts q) k)
        (upd_queues (delete k) (mgr s (home t))))); [done|by rewrite Ho|].
      apply index_erase; [apply I|done]. }
  destruct (pop_queue s t k I Hp q ts node rest Hq Hws) as (_ & Hpos & Hv0 & Hnode & He & Hnd & Hall).
  specialize (Hver q eq_refl). rewrite u64_small by lia. rewrite Ho. do 2 wp_step.
  assert (index_ok (upd_queues (insert k (mkQueue rest t (version q + 1))) (mgr s (home t)))) as Hidx
    by (eapply index_insert; [apply I|exact Hq|done]).
  wp_step.
  2:{ wp_step. bool_simpl. subst node.
      by apply (head_remote_inv s t k I Hp q ts (home ts) rest Hq Hws Hver). }
  bool_simpl. assert (home ts = home t) as Hloc by congruence. do 2 wp_step. simpl.
  assert (local_waiters (mgr s (home t)) !! ts = rec s ts) as -> by (unfold rec; congruence).
  destruct He as [Hd|[Hvts (r0 & Hr0 & Hf0)]].
  { rewrite (entry_gone _ _ _ I Hd). simpl. wp_step.
    by apply (head_gone_inv s t k I Hp q ts node rest Hq Hws Hver). }
  rewrite Hr0. simpl.
  destruct (ki_wait _ _ Ik _ Hvts) as (r & Hr & Hok). assert (r = r0) as -> by congruence.
  rewrite (frozen_reserve s t k I Hp ts r0 (version q + 1) q) by (try done; lia).
  do 9 wp_step. eapply wp_mono; [apply UpdateTailHolderLocked_spec|]. simpl.
  intros u m' ([W Hm'] & Hout & Hin & Hu1 & Hu2 & Hu3 & Hu4). wp_step.
  apply NoDup_cons in Hnd as [Hts Hnd].
  assert (∀ n, (ts, n) ∉ rest) as Hts'.
  { intros n Hn. destruct Hts. apply list_elem_of_fmap. by exists (ts, n). }
  apply (head_reserved_inv s t k I Hp q ts node rest Hq Hws Hver r0 (local_waiters m') u m');
    try done.
  - by rewrite Hm'; simpl; rewrite insert_insert_eq.
  - by rewrite Hm'.
  - by rewrite Hm'.
  - rewrite Hm'. eapply index_ext; [| |apply (index_transfer (mgr s (home t)) k q
      (mkQueue rest ts (version q + 1)))]; simpl; [by rewrite insert_insert_eq|by rewrite Ho|apply I|done|].
    rewrite Ho. intros ->. by rewrite (view_phase _ _ _ _ Hp) in Hvts; simpl in Hvts; case_decide.
  - rewrite Hout by done. apply lookup_insert_eq.
  - intros w ? ?. rewrite Hout by done. by rewrite lookup_insert_ne.
  - intros w ? ?. rewrite Hin by done. by rewrite lookup_insert_ne.
  - intros n l Hl. split.
    + intros ->. by apply (Hu4 ltac:(done) n).
    + intros w Hw. destruct (Hu2 n w) as [?|Hw']; [by rewrite Hl|done|].
      by rewrite lookup_empty in Hw'; apply elem_of_nil in Hw'.
Qed.

(** *** News for the waiters behind the successor *)

Definition spreading (con : PendingHandoff → gmap Z (list Z) → Stage) : Prop :=
  con = Adopted ∨ con = Updating.

Section news.
Variables (s : Sys) (t : Z) (k : TupleWaitKey) (ph : PendingHandoff) (u : gmap Z (list Z)).
Variable con : PendingHandoff → gmap Z (list Z) → Stage.
Hypothesis I : lw_inv s.
Hypothesis Hcon : spreading con.
Hypothesis Hp : phase s t = Unlocking k (con ph u).

Lemma news_view : view s k t = VUnl (con ph u).
Proof using Hp. by views. Qed.

Lemma news_stage :
  row s k = Some t ∧ new_holder_ts ph ≠ 0 ∧
  queue s k (home (new_holder_ts ph)) = Some (new_owner_queue ph) ∧
  reserved_for s k t ph ∧ updates_ok ph u.
Proof using I Hp Hcon.
  pose proof (ki_stage _ _ (li_key _ I k) _ _ news_view) as Hs.
  destruct Hcon; subst con; simpl in Hs; tauto.
Qed.

Lemma news_handoff : handoff_ok k t ph.
Proof using I Hp Hcon.
  eapply ki_handoff; [apply I|exact news_view|]. by destruct Hcon; subst con.
Qed.

Lemma news_tail w : w ∈ (tail ph).*1 →
  (w, home w) ∈ tail ph ∧ entry_ok s k w ∧ w ≠ new_holder_ts ph.
Proof using I Hp Hcon.
  intros Hin. destruct news_stage as (_ & Hnz & Hq & _).
  destruct news_handoff as (_ & _ & _ & Hok). destruct (Hok Hnz) as (_ & _ & _ & _ & Hnd & _).
  apply NoDup_cons in Hnd as [Hnew _].
  destruct (ki_queue _ _ (li_key _ I k) _ _ Hq) as (_ & _ & _ & _ & Hall & _).
  rewrite Forall_forall in Hall. simpl in Hall.
  apply list_elem_of_fmap in Hin as Hin'. destruct Hin' as ([a b] & -> & Hab).
  destruct (Hall _ Hab) as [E ?]. simpl in *. subst b. split_and!; try done. congruence.
Qed.

Lemma news_owned s' h :
  row s' k = row s k → (∃ u', view s' k t = VUnl (con ph u')) →
  owned s k h → owned s' k h.
Proof using I Hp Hcon.
  intros Hrow [u' Hv'] Ho. destruct news_stage as (Hr & _). pose proof news_view as Hv.
  destruct Ho as [[? Hk]|(t' & st & ph' & ? & Hvt & Hi & ?)].
  - assert (h = t) as -> by congruence. left. split; [congruence|].
    rewrite Hv' . rewrite Hv in Hk. by destruct Hcon; subst con.
  - assert (t' = t) as -> by (eapply unlocking_unique; [apply I|exact Hvt|exact Hv]).
    right. exists t, (con ph u'), ph. rewrite Hrow. split_and!; try done.
    + by destruct Hcon; subst con.
    + rewrite Hv in Hvt. destruct Hcon; subst con; by simplify_eq/=.
Qed.

Section refresh.
Variables (n : Z) (m' : Manager) (l : list Z) (u' : gmap Z (list Z)).
Abbreviation refresh := (refresh_holder (new_holder_ts ph) (home (new_holder_ts ph)) k (h_version ph)).
Hypothesis Hm : ∃ W, m' = upd_waiters (λ _, W) (mgr s n).
Hypothesis Hin : ∀ w, w ∈ l →
  local_waiters m' !! w = refresh <$> local_waiters (mgr s n) !! w.
Hypothesis Hout : ∀ w, w ∉ l → local_waiters m' !! w = local_waiters (mgr s n) !! w.
Hypothesis Hl : ∀ w, w ∈ l → home w = n → w ∈ (tail ph).*1.
Hypothesis Hu : ∀ w, w ∈ (tail ph).*1 → unsent u w → unsent u' w ∨ (home w = n ∧ w ∈ l).
Hypothesis Huok : updates_ok ph u'.

Lemma refresh_rec w r : rec s w = Some r →
  rec (put n m' s) w = Some (if decide (home w = n ∧ w ∈ l) then refresh r else r).
Proof using Hin Hout.
  intros Hr. rewrite rec_put. destruct (decide (home w = n)) as [E|E].
  - unfold rec in Hr. rewrite E in Hr. destruct (decide (w ∈ l)) as [Hwl|Hwl].
    + rewrite Hin, Hr, decide_True by done. done.
    + rewrite Hout, Hr, decide_False by tauto. done.
  - rewrite decide_False by tauto. done.
Qed.

Lemma refresh_step : unlock_step s t k (con ph u') n m'.
Proof using All.
  destruct news_stage as (Hr & _). destruct Hm as [W E]. rewrite E in *. simpl in *.
  split; simpl; try done; [by eauto|apply I| | |by eauto].
  - intros w Hw Hn. destruct (decide (w ∈ l)) as [Hwl|Hwl]; [|auto].
    rewrite Hin by done. destruct (local_waiters (mgr s n) !! w) as [r|] eqn:Er; [|done].
    destruct (news_tail w (Hl _ Hwl Hw)) as (_ & [Hd|[? _]] & _); [|done].
    pose proof (entry_gone _ _ _ I Hd) as Hg. unfold rec in Hg. congruence.
  - intros w r' Hw. destruct (decide (w ∈ l)); [rewrite Hin by done|rewrite Hout by done; eauto].
    intros (r & ? & ?)%fmap_Some_1. eauto.
Qed.

Lemma refresh_inv : lw_inv (set_phase t (Unlocking k (con ph u')) (put n m' s)).
Proof using All.
  pose proof refresh_step as U. pose proof refresh_rec as Hrec.
  destruct news_stage as (Hr & Hnz & Hq & Hres & _). pose proof news_view as Hv.
  assert (∀ n', queue (put n m' s) k n' = queue s k n') as Hqs.
  { intros n'. apply queue_put_same. by destruct Hm as [W ->]. }
  assert (reserved_for (set_phase t (Unlocking k (con ph u')) (put n m' s)) k t ph) as Hres'.
  { destruct Hres as [Hvn (r & Hrn & Hf)]. split; [rewrite unlocking_view_other by congruence; done|].
    exists r. rewrite rec_phase, (Hrec _ _ Hrn). rewrite decide_False; [done|].
    intros [E Hn]. by destruct (news_tail _ (Hl _ Hn E)) as (_ & _ & ?). }
  apply (unlocking_inv _ _ _ _ _ _ U).
  - pose proof (ki_stage _ _ (li_key _ I k) _ _ Hv) as Hs.
    destruct Hcon; subst con; simpl in *; rewrite !queue_phase, !Hqs; tauto.
  - intros ph' Hph'. assert (ph' = ph) as -> by (destruct Hcon; subst con; simpl in *; congruence).
    apply news_handoff.
  - intros n' q. rewrite queue_phase, Hqs. intros Hq'.
    apply (unlocking_queue _ _ _ _ _ _ U); [done| |].
    + intros w r _ _ Hrw Hf. rewrite rec_phase, (Hrec _ _ Hrw). eexists. split; [done|].
      case_decide; [|done]. rewrite <- Hf. apply refresh_same.
    + apply news_owned; [done| |by eapply ki_queue, Hq'; apply I]. exists u'. by views.
  - intros w r Hw Hne Hrw Hok. rewrite rec_phase, (Hrec _ _ Hrw). eexists. split; [done|].
    apply (unlocking_waiter _ _ _ _ _ _ U w r); try done.
    + case_decide; [apply refresh_same|done].
    + intros Hf (t' & Hr' & Hc). assert (t' = t) as -> by congruence. exists t. split; [done|].
      rewrite Hv in Hc. views.
      assert (w ∈ (tail ph).*1 ∧ (moved r ph ∨ (on_owner r t (h_version ph) ∧ unsent u w)))
        as [Hwt Hc'] by (by destruct Hcon; subst con).
      destruct Hok as (Hk & Hks & _).
      assert (w ∈ (tail ph).*1 ∧
        (moved (if decide (home w = n ∧ w ∈ l) then refresh r else r) ph ∨
         (on_owner (if decide (home w = n ∧ w ∈ l) then refresh r else r) t (h_version ph) ∧ unsent u' w)))
        as Hg; [|by destruct Hcon; subst con].
      split; [done|]. destruct Hc' as [(? & ? & Hver)|[(Ho & Hon & Hlt) Hus]].
      * left. case_decide; [|done]. unfold refresh_holder. by rewrite Hver, Z.leb_refl.
      * case_decide as Hd.
        -- left. unfold refresh_holder. destruct (Z.leb_spec (h_version ph) (w_holder_version r)); [lia|].
           rewrite Hks, bool_decide_true by done. done.
        -- right. split; [done|]. destruct (Hu _ Hwt Hus) as [?|?]; [done|tauto].
    + intros st0 ph' Hst0. rewrite Hv in Hst0. intros Hph' <-. exists ph'. split; [|done].
      destruct Hcon; subst con; by simplify_eq/=.
Qed.
End refresh.
End news.

Lemma update_ok s t k ph u n l con :
  lw_inv s → spreading con → phase s t = Unlocking k (con ph u) → u !! n = Some l →
  wp (send_update (new_holder_ts ph) (new_holder_node ph) k (h_version ph) n l)
     (λ _ N', lw_inv (set_phase t (Unlocking k (con ph (delete n u))) (set_mgr N' s))) (mgr s).
Proof.
  intros I Hcon Hp Hl. destruct (news_stage s t k ph u con I Hcon Hp) as (_ & Hnz & Hq & _ & Hok).
  destruct (news_handoff s t k ph u con I Hcon Hp) as (_ & _ & _ & Hh).
  destruct (Hh Hnz) as (_ & _ & -> & _ & _ & Hall).
  destruct (Hok _ _ Hl) as [Hne Hin]. destruct l as [|w0 l0]; [done|].
  assert (n = home w0) as Hn.
  { rewrite Forall_forall in Hall. apply (Hall (w0, n)), Hin. by left. }
  unfold send_update. wp_step. wp_step; [apply home_is_node|].
  wp_step. wp_step; [rewrite Hn; apply home_is_node|].
  apply wp_at_node. eapply wp_mono; [apply OnUpdateWaiterHolder_spec|].
  intros _ m' (Hm & Hout & Hin'). simpl.
  apply (refresh_inv s t k ph u con I Hcon Hp n m' (w0 :: l0)); try done.
  - intros w Hw _. apply list_elem_of_fmap. exists (w, n). split; [done|]. by apply Hin.
  - unfold unsent. intros w _ Hus. destruct (decide (home w = n)) as [E|E].
    + right. split; [done|]. rewrite E, Hl in Hus. done.
    + left. by rewrite lookup_delete_ne.
  - intros n' l' [? ?]%lookup_delete_Some. by apply Hok.
Qed.

Lemma ask_again_ok s t k ph u :
  lw_inv s → phase s t = Unlocking k (Adopted ph u) →
  wp (ask ph) (λ r N', lw_inv (set_phase t (Unlocking k
    (match r with Some u' => Adopted ph u' | None => Frozen end)) (set_mgr N' s))) (mgr s).
Proof.
  intros I Hp.
  destruct (news_stage s t k ph u Adopted I ltac:(by left) Hp) as (_ & Hnz & Hq & [Hvn Hres] & Hok).
  destruct Hres as (r & Hr & Hf & Hrk & Hrs & Hrv).
  destruct (news_handoff s t k ph u Adopted I ltac:(by left) Hp) as (Hhk & Hsrc & _ & Hh).
  destruct (Hh Hnz) as (Hpos & Hne & Hnode & Hver & Hnd & Hall).
  unfold ask, accept_handoff. rewrite Hhk, Hsrc, Hnode. node_step. do 2 wp_step.
  unfold rec in Hr. rewrite Hr, Hf. unfold SameReservation. rewrite Hrk, Hrs, Hrv.
  rewrite (bool_decide_true (k = k)), !Z.eqb_refl by done.
  assert ((h_version ph =? 0) = false) as -> by (apply Z.eqb_neq; lia). simpl.
  wp_step. eapply wp_mono; [apply UpdateTailHolderLocked_spec|]. simpl.
  intros u' m' (Hm & Hout & Hin & Hu1 & Hu2 & Hu3 & Hu4). wp_step.
  rewrite Forall_forall in Hall.
  apply (refresh_inv s t k ph u Adopted I ltac:(by left) Hp (home (new_holder_ts ph)) m'
    (filter (λ e, e.2 = home (new_holder_ts ph)) (tail ph)).*1); try done.
  - intros w Hw. apply Hin. apply list_elem_of_fmap in Hw as ([a b] & -> & Hab).
    apply list_elem_of_filter in Hab as [E ?]. simpl in *. by rewrite <- E.
  - intros w Hw. apply Hout. intros Hin'. apply Hw. apply list_elem_of_fmap.
    exists (w, home (new_holder_ts ph)). split; [done|]. by apply list_elem_of_filter.
  - intros w (e & -> & [_ ?]%list_elem_of_filter)%list_elem_of_fmap _.
    apply list_elem_of_fmap. eauto.
  - intros w ([a b] & -> & Hab)%list_elem_of_fmap _. simpl.
    pose proof (Hall _ Hab) as E. simpl in E. destruct (decide (home a = home (new_holder_ts ph))).
    + right. split; [done|]. apply list_elem_of_fmap. exists (a, b). split; [done|].
      apply list_elem_of_filter. split; [simpl; congruence|done].
    + left. unfold unsent. apply Hu1; congruence.
  - intros n l Hl. split.
    + intros ->. by apply (Hu4 ltac:(done) n).
    + intros w Hw. destruct (Hu2 n w) as [?|Hw']; [by rewrite Hl|done|].
      by rewrite lookup_empty in Hw'; apply elem_of_nil in Hw'.
Qed.

(** *** Asking a successor on another node *)

Section asking.
Variables (s : Sys) (t : Z) (k : TupleWaitKey) (ph : PendingHandoff).
Hypothesis I : lw_inv s.
Hypothesis Hp : phase s t = Unlocking k (Asking ph).
Abbreviation new := (new_holder_ts ph).

Lemma asking_view : view s k t = VUnl (Asking ph).
Proof using Hp. by views. Qed.

Lemma asking_stage :
  row s k = Some t ∧ new ≠ 0 ∧ home new ≠ home t ∧
  queue s k (home t) = Some (mkQueue (tail ph) t (h_version ph)) ∧ entry_ok s k new.
Proof using I Hp. apply (ki_stage _ _ (li_key _ I k) _ _ asking_view). Qed.

Lemma asking_handoff : handoff_ok k t ph.
Proof using I Hp. eapply ki_handoff; [apply I|exact asking_view|done]. Qed.

Lemma asking_queue n q : queue s k n = Some q → n = home t ∧ q = mkQueue (tail ph) t (h_version ph).
Proof using I Hp.
  intros Hq. destruct asking_stage as (Hr & _ & _ & Hq' & _).
  destruct (ki_queue _ _ (li_key _ I k) _ _ Hq) as (-> & _ & _ & _ & _ & Ho).
  assert (owner_holder_ts q = t) as E; [|rewrite E in *; split; [done|congruence]].
  destruct Ho as [[? _]|(t' & st & ph' & _ & Hv & Hi & _)]; [congruence|].
  assert (t' = t) as -> by (eapply unlocking_unique; [apply I|exact Hv|exact asking_view]).
  rewrite asking_view in Hv. by simplify_eq.
Qed.

Lemma asking_waiter w r : view s k w = VWait → waiter_ok s k w r →
  w ≠ t ∧ w_key r = k ∧ w_key_set r = true ∧ w_flag r = WAITING ∧
  (w = new ∨ w ∈ (tail ph).*1) ∧ on_owner r t (h_version ph).
Proof using I Hp.
  intros Hw (Hk & Hks & Hf). destruct asking_stage as (Hr & _). pose proof asking_view as Hv.
  assert (w ≠ t) by congruence. do 3 (split; [done|]). destruct (w_flag r).
  - destruct Hf as (_ & t' & Hr' & Hc). assert (t' = t) as -> by congruence.
    rewrite Hv in Hc. done.
  - destruct Hf. congruence.
  - destruct Hf as (t' & st & ph' & Hv' & Hi & _).
    assert (t' = t) as -> by (eapply unlocking_unique; [apply I|exact Hv'|exact Hv]).
    rewrite Hv in Hv'. by simplify_eq.
Qed.

Lemma asking_tail w : w ∈ (tail ph).*1 →
  (w, home w) ∈ tail ph ∧ entry_ok s k w ∧ w ≠ new.
Proof using I Hp.
  intros Hin. destruct asking_stage as (_ & Hnz & _ & Hq & _).
  destruct asking_handoff as (_ & _ & _ & Hok). destruct (Hok Hnz) as (_ & _ & _ & _ & Hnd & _).
  apply NoDup_cons in Hnd as [Hnew _].
  destruct (ki_queue _ _ (li_key _ I k) _ _ Hq) as (_ & _ & _ & _ & Hall & _).
  rewrite Forall_forall in Hall. simpl in Hall.
  apply list_elem_of_fmap in Hin as Hin'. destruct Hin' as ([a b] & -> & Hab).
  destruct (Hall _ Hab) as [E ?]. simpl in *. subst b. split_and!; try done. congruence.
Qed.

(** The successor has left: the next one is tried. *)
Lemma refused_inv :
  departed (view s k new) →
  lw_inv (set_phase t (Unlocking k Frozen) (put (home new) (mgr s (home new)) s)).
Proof using I Hp.
  intros Hdep. destruct asking_stage as (Hr & Hnz & Hrem & Hq & _). pose proof asking_view as Hv.
  assert (unlock_step s t k Frozen (home new) (mgr s (home new))) as U.
  { split; try done; eauto. apply I. }
  assert (∀ w, rec (put (home new) (mgr s (home new)) s) w = rec s w) as Hrec
    by (intros w; by apply rec_put_same).
  assert (∀ n, queue (put (home new) (mgr s (home new)) s) k n = queue s k n) as Hqs
    by (intros n; by apply queue_put_same).
  apply (unlocking_inv _ _ _ _ _ _ U); try done.
  - intros n' q'. rewrite queue_phase, Hqs. intros Hq'.
    apply (unlocking_queue _ _ _ _ _ _ U); [done|intros w r; rewrite rec_phase, Hrec; eauto|].
    destruct (asking_queue _ _ Hq') as [_ ->]. cbn [owner_holder_ts]. left. split; [done|]. by views.
  - intros w r Hw Hne Hrw Hok. exists r. rewrite rec_phase, Hrec. split; [done|].
    destruct (asking_waiter _ _ Hw Hok) as (_ & _ & _ & _ & Hin & (? & ? & ?)).
    assert (w ≠ new) as Hwn by (intros ->; by rewrite Hw in Hdep).
    apply (unlocking_waiter _ _ _ _ _ _ U w r); try done.
    + intros _ _. exists t. split; [done|]. views. exists (mkQueue (tail ph) t (h_version ph)).
      rewrite queue_phase, Hqs. split; [done|]. split; [done|].
      split; [by destruct Hin|]. split_and!; simpl; [done|done|lia].
    + intros st0 ph' Hst0. rewrite Hv in Hst0. by simplify_eq.
Qed.

(** The successor is reserved on its node and the queue is there too. *)
Lemma accepted_inv r0 W u m' :
  view s k new = VWait → rec s new = Some r0 → w_flag r0 = WAITING →
  local_queues m' = <[k := new_owner_queue ph]> (local_queues (mgr s (home new))) →
  active_txs m' = active_txs (mgr s (home new)) →
  forwarded_keys m' = forwarded_keys (mgr s (home new)) →
  local_waiters m' = W → index_ok m' →
  W !! new = Some (set_flag RESERVED (set_reservation k t (h_version ph) r0)) →
  (∀ w, w ≠ new → (w, home new) ∉ tail ph → W !! w = local_waiters (mgr s (home new)) !! w) →
  (∀ w, w ≠ new → (w, home new) ∈ tail ph →
     W !! w = refresh_holder new (home new) k (h_version ph) <$>
              local_waiters (mgr s (home new)) !! w) →
  (∀ w n, (w, n) ∈ tail ph → n ≠ home new → w ∈ default [] (u !! n)) →
  updates_ok ph u →
  lw_inv (set_phase t (Unlocking k (Adopted ph u)) (put (home new) m' s)).
Proof using I Hp.
  intros Hvn Hr0 Hf0 Eq Ea Ef Ew Hidx Wn Wout Win Hu Huok.
  destruct asking_stage as (Hr & Hnz & Hrem & Hq & _). pose proof asking_view as Hv.
  destruct asking_handoff as (Hhk & Hsrc & _ & Hh).
  destruct (Hh Hnz) as (Hpos & Hnt & Hnode & Hver & Hnd & Hall).
  assert (∀ w r, (w, home new) ∈ tail ph → view s k w ≠ VWait →
    local_waiters (mgr s (home new)) !! w ≠ Some r) as Hdead.
  { intros w r Hin Hn Hl. destruct (asking_tail w) as (_ & [Hd|[? _]] & _); [| |done].
    - apply list_elem_of_fmap. by exists (w, home new).
    - apply (entry_gone _ _ _ I) in Hd. rewrite Forall_forall in Hall.
      pose proof (Hall _ Hin) as E. simpl in E. unfold rec in Hd. congruence. }
  assert (unlock_step s t k (Adopted ph u) (home new) m') as U.
  { split; try done; eauto.
    - intros k' ?. by rewrite Eq, lookup_insert_ne.
    - intros w Hw Hn. rewrite Ew. assert (w ≠ new) by congruence.
      destruct (decide ((w, home new) ∈ tail ph)) as [Hin|Hin]; [|by apply Wout].
      rewrite Win by done. destruct (local_waiters (mgr s (home new)) !! w) as [r|] eqn:E; [|done].
      by destruct (Hdead w r).
    - intros w r' Hw. rewrite Ew. destruct (decide (w = new)) as [->|].
      + intros _. exists r0. done.
      + destruct (decide ((w, home new) ∈ tail ph)); [rewrite Win by done|rewrite Wout by done; eauto].
        intros (r & ? & ?)%fmap_Some_1. eauto. }
  assert (∀ w r, rec s w = Some r → w ≠ new →
    ∃ r', rec (put (home new) m' s) w = Some r' ∧ same_wait r r') as Hsame.
  { intros w r Hrw Hne. rewrite rec_put. destruct (decide (home w = home new)) as [E|]; [|by exists r].
    unfold rec in Hrw. rewrite E in Hrw. rewrite Ew.
    destruct (decide ((w, home new) ∈ tail ph)) as [Hin|Hin].
    - rewrite Win, Hrw by done. eexists. split; [done|]. apply refresh_same.
    - rewrite Wout, Hrw by done. by exists r. }
  assert (queue (put (home new) m' s) k (home t) = Some (mkQueue (tail ph) t (h_version ph))) as Hqt
    by (by rewrite queue_put, decide_False).
  assert (queue (put (home new) m' s) k (home new) = Some (new_owner_queue ph)) as Hqn
    by (by rewrite queue_put, decide_True, Eq, lookup_insert_eq).
  assert (Forall (λ e, e.2 = home e.1 ∧
    entry_ok (set_phase t (Unlocking k (Adopted ph u)) (put (home new) m' s)) k e.1) (tail ph)) as Hents.
  { rewrite Forall_forall in Hall |- *. intros e He. split; [by apply Hall|].
    destruct (asking_tail e.1) as (_ & Hok & Hne); [apply list_elem_of_fmap; eauto|].
    eapply (progress_entry s); [apply unlocking_self_view| | |exact Hok].
    - intros t' ?. by apply unlocking_view_other.
    - intros r ? Hre Hfe. rewrite rec_phase. destruct (Hsame _ _ Hre Hne) as (r' & ? & Es & _).
      exists r'. by rewrite Es. }
  apply NoDup_cons in Hnd as Hnd'. destruct Hnd' as [_ Hnd1].
  apply (unlocking_inv _ _ _ _ _ _ U).
  - split_and!; simpl; try done. split; [by rewrite unlocking_view_other|].
    exists (set_flag RESERVED (set_reservation k t (h_version ph) r0)).
    rewrite rec_phase, rec_put, decide_True, Ew by done. done.
  - intros ph' [= <-]. apply asking_handoff.
  - intros n' q'. rewrite queue_phase. intros Hq'.
    assert ((n' = home t ∧ q' = mkQueue (tail ph) t (h_version ph)) ∨
            (n' = home new ∧ q' = new_owner_queue ph)) as [[-> ->]|[-> ->]].
    { destruct (decide (n' = home new)) as [->|Hne]; [right; split; [done|congruence]|].
      rewrite queue_put, decide_False in Hq' by done. left. by apply asking_queue. }
    + destruct (ki_queue _ _ (li_key _ I k) _ _ Hq) as (_ & ? & _).
      split_and!; simpl; try done; try lia. left. split; [done|]. by views.
    + split_and!; simpl; try done; try lia. right. exists t, (Adopted ph u), ph.
      split_and!; try done. by views.
  - intros w r Hw Hne Hrw Hok. rewrite rec_phase.
    destruct (asking_waiter _ _ Hw Hok) as (_ & Hk & Hks & Hf & Hin & Hon).
    destruct (decide (w = new)) as [->|Hwn].
    + exists (set_flag RESERVED (set_reservation k t (h_version ph) r0)).
      rewrite rec_put, decide_True, Ew by done. split; [done|].
      assert (r = r0) as -> by congruence. do 2 (split; [done|]). simpl.
      exists t, (Adopted ph u), ph. split_and!; try done. by views.
    + destruct Hin as [?|Hin]; [done|]. destruct (asking_tail w Hin) as (Hin' & _ & _).
      destruct (Hsame _ _ Hrw Hwn) as (r' & Hr' & Hs). exists r'. split; [done|].
      apply (unlocking_waiter _ _ _ _ _ _ U w r); try done.
      * intros _ _. exists t. split; [done|]. views. split; [done|].
        rewrite rec_put in Hr'. destruct (decide (home w = home new)) as [E|E].
        -- left. rewrite Ew, Win in Hr' by (rewrite <- ?E; done).
           unfold rec in Hrw. rewrite <- E, Hrw in Hr'. simpl in Hr'. injection Hr' as <-.
           destruct Hon as (_ & _ & Hlt). unfold refresh_holder.
           destruct (Z.leb_spec (h_version ph) (w_holder_version r)); [lia|].
           rewrite Hks, Hk, bool_decide_true by done. simpl. split_and!; simpl; congruence.
        -- right. assert (r' = r) as -> by congruence. split; [done|]. by apply Hu.
      * intros st0 ph' Hst0. rewrite Hv in Hst0. by simplify_eq.
Qed.

Lemma ask_ok :
  wp (ask ph) (λ r N', lw_inv (set_phase t (Unlocking k
    (match r with Some u' => Adopted ph u' | None => Frozen end)) (set_mgr N' s))) (mgr s).
Proof using I Hp.
  destruct asking_stage as (Hr & Hnz & Hrem & Hq & He). pose proof (li_key _ I k) as Ik.
  destruct asking_handoff as (Hhk & Hsrc & _ & Hh).
  destruct (Hh Hnz) as (Hpos & Hnt & Hnode & Hver & Hnd & Hall).
  unfold ask, accept_handoff. rewrite Hhk, Hsrc, Hnode. node_step. do 2 wp_step.
  change (local_waiters (mgr s (home new)) !! new) with (rec s new).
  destruct He as [Hd|[Hvn (r0 & Hr0 & Hf0)]].
  { rewrite (entry_gone _ _ _ I Hd). wp_step. by apply refused_inv. }
  rewrite Hr0, Hf0. simpl.
  destruct (ki_wait _ _ Ik _ Hvn) as (r & Hr1 & Hok). assert (r = r0) as -> by congruence.
  destruct (asking_waiter _ _ Hvn Hok) as (_ & Hk & Hks & _ & _ & (Ht & _ & Hlt)).
  assert (ReserveWaiterLocked r0 k t (h_version ph) =
    Some (set_flag RESERVED (set_reservation k t (h_version ph) r0))) as ->.
  { unfold ReserveWaiterLocked. rewrite Hf0, Hks, Hk, Ht, !bool_decide_true by done. simpl.
    rewrite Z.eqb_refl. simpl. by destruct (Z.leb_spec (h_version ph) (w_holder_version r0)); [lia|]. }
  assert (local_queues (mgr s (home new)) !! k = None) as Hnone.
  { destruct (local_queues (mgr s (home new)) !! k) as [q|] eqn:E; [|done].
    by destruct (asking_queue _ _ E). }
  do 4 wp_step. simpl. rewrite Hnone. simpl. wp_step.
  wp_step; [apply Z.ltb_lt; lia|]. do 5 wp_step.
  eapply wp_mono; [apply UpdateTailHolderLocked_spec|]. simpl.
  intros u m' ([W Hm'] & Hout & Hin & Hu1 & Hu2 & Hu3 & Hu4). wp_step.
  apply NoDup_cons in Hnd as [Hts Hnd].
  assert (∀ n, (new, n) ∉ tail ph) as Hts'.
  { intros n Hn. destruct Hts. apply list_elem_of_fmap. by exists (new, n). }
  apply (accepted_inv r0 (local_waiters m') u m'); try done.
  - rewrite Hm'. simpl. by rewrite app_nil_r.
  - by rewrite Hm'.
  - by rewrite Hm'.
  - rewrite Hm'. eapply index_ext; [| |apply (index_new (mgr s (home new)) k
      (mkQueue (tail ph ++ []) new (h_version ph)))]; [done|done|apply I|done].
  - rewrite Hout by done. apply lookup_insert_eq.
  - intros w ? ?. rewrite Hout by done. by rewrite lookup_insert_ne.
  - intros w ? ?. rewrite Hin by done. by rewrite lookup_insert_ne.
  - intros n l Hl. split.
    + intros ->. by apply (Hu4 ltac:(done) n).
    + intros w Hw. destruct (Hu2 n w) as [?|Hw']; [by rewrite Hl|done|].
      by rewrite lookup_empty in Hw'; apply elem_of_nil in Hw'.
Qed.
End asking.

(** *** The successor is ready *)

Lemma prepared_inv s t k ph con n m' :
  lw_inv s → spreading con → phase s t = Unlocking k (con ph ∅) →
  unlock_step s t k (Prepared ph) n m' →
  (∀ w, rec (put n m' s) w = rec s w) →
  (∀ n' q, queue (put n m' s) k n' = Some q → queue s k n' = Some q ∧ owner_holder_ts q ≠ t) →
  queue (put n m' s) k (home (new_holder_ts ph)) = Some (new_owner_queue ph) →
  lw_inv (set_phase t (Unlocking k (Prepared ph)) (put n m' s)).
Proof.
  intros I Hcon Hp U Hrec Hqs Hqn.
  destruct (news_stage s t k ph ∅ con I Hcon Hp) as (Hr & Hnz & Hq & Hres & _).
  pose proof (news_handoff s t k ph ∅ con I Hcon Hp) as Hh.
  pose proof (news_view s t k ph ∅ con Hp) as Hv.
  apply (unlocking_inv _ _ _ _ _ _ U).
  - simpl. split; [done|]. rewrite (proj2 (Z.eqb_neq _ _) Hnz). split; [done|].
    destruct Hres as [Hvn Hres]. split; [by rewrite unlocking_view_other by congruence|].
    by rewrite rec_phase, Hrec.
  - by intros ph' [= <-].
  - intros n' q. rewrite queue_phase. intros [Hq' Ho]%Hqs.
    apply (unlocking_queue _ _ _ _ _ _ U); [done|intros w r; rewrite rec_phase, Hrec; eauto|].
    destruct (ki_queue _ _ (li_key _ I k) _ _ Hq') as (_ & _ & _ & _ & _ & Hown).
    destruct Hown as [[? _]|(t' & st & ph' & ? & Hvt & Hi & <-)]; [congruence|].
    assert (t' = t) as -> by (eapply unlocking_unique; [apply I|exact Hvt|exact Hv]).
    right. exists t, (Prepared ph), ph. split_and!; [done|by views|done|].
    rewrite Hv in Hvt. destruct Hcon; subst con; by simplify_eq/=.
  - intros w r Hw Hne Hrw Hok. exists r. rewrite rec_phase, Hrec. split; [done|].
    apply (unlocking_waiter _ _ _ _ _ _ U w r); try done.
    + intros _ (t' & Hr' & Hc). assert (t' = t) as -> by congruence. exists t. split; [done|].
      rewrite Hv in Hc. views. split; [done|].
      assert (w ∈ (tail ph).*1 ∧ (moved r ph ∨ (on_owner r t (h_version ph) ∧ unsent ∅ w)))
        as [? [?|[_ Hu]]] by (by destruct Hcon; subst con); [done|].
      unfold unsent in Hu. rewrite lookup_empty in Hu. by apply elem_of_nil in Hu.
    + intros st0 ph' Hst0. rewrite Hv in Hst0. intros Hph' <-. exists ph'. split; [|done].
      destruct Hcon; subst con; by simplify_eq/=.
Qed.

Lemma adopted_ok s t k ph :
  lw_inv s → phase s t = Unlocking k (Adopted ph ∅) →
  wp (at_node (home t) (hand_queue_over k t))
     (λ _ N', lw_inv (set_phase t (Unlocking k (Prepared ph)) (set_mgr N' s))) (mgr s).
Proof.
  intros I Hp. pose proof (li_key _ I k) as Ik.
  assert (view s k t = VUnl (Adopted ph ∅)) as Hv by (by views).
  destruct (ki_stage _ _ Ik _ _ Hv) as (Hr & Hnz & Hrem & Hqt & Hqn & Hres & _).
  unfold hand_queue_over, erase_queue. node_step. do 2 wp_step.
  unfold queue in Hqt. rewrite Hqt. wp_step. wp_step; [by apply Z.eqb_refl|]. do 3 wp_step.
  apply (prepared_inv s t k ph Adopted); try done.
  - by left.
  - split; simpl; try done; [by eauto| | |by eauto|by eauto].
    + apply (index_erase (mgr s (home t)) k (mkQueue (tail ph) t (h_version ph))); [apply I|done].
    + intros k' ?. by rewrite lookup_delete_ne.
  - intros w. by apply rec_put_same.
  - intros n' q. rewrite queue_put. simpl. destruct (decide (n' = home t)) as [->|Hne].
    + by rewrite lookup_delete_eq.
    + intros Hq. split; [done|]. destruct (ki_queue _ _ Ik _ _ Hq) as (E & _). congruence.
  - by rewrite queue_put, decide_False.
Qed.

Lemma updated_ok s t k ph :
  lw_inv s → phase s t = Unlocking k (Updating ph ∅) →
  lw_inv (set_phase t (Unlocking k (Prepared ph)) s).
Proof.
  intros I Hp. pose proof (li_key _ I k) as Ik.
  assert (view s k t = VUnl (Updating ph ∅)) as Hv by (by views).
  destruct (ki_stage _ _ Ik _ _ Hv) as (Hr & Hnz & Hqn & Hres & _).
  apply (lw_inv_ext (set_phase t (Unlocking k (Prepared ph)) (put (home t) (mgr s (home t)) s)));
    try done.
  2:{ intros n. change (mgr s n = mgr (put (home t) (mgr s (home t)) s) n). rewrite mgr_put.
      by destruct (decide (n = home t)) as [->|]. }
  apply (prepared_inv s t k ph Updating); try done.
  - by right.
  - split; try done; eauto. apply I.
  - intros w. by apply rec_put_same.
  - intros n' q. rewrite queue_put_same by done. intros Hq. split; [done|].
    destruct (ki_queue _ _ Ik _ _ Hq) as (_ & _ & _ & _ & _ & Ho).
    destruct (ki_handoff _ _ Ik _ _ ph Hv eq_refl) as (_ & _ & _ & Hh).
    destruct (Hh Hnz) as (_ & Hne & _).
    destruct Ho as [[? Hk]|(t' & st & ph' & ? & Hvt & Hi & <-)].
    + intros E. rewrite E, Hv in Hk. done.
    + assert (t' = t) as -> by (eapply unlocking_unique; [exact Ik|exact Hvt|exact Hv]).
      rewrite Hv in Hvt. by simplify_eq/=.
  - by rewrite queue_put_same.
Qed.

(** *** The row gets its new owner *)

Section install.
Variables (s : Sys) (t : Z) (k : TupleWaitKey) (ph : PendingHandoff).
Hypothesis I : lw_inv s.
Hypothesis Hp : phase s t = Unlocking k (Prepared ph).

Lemma install_view : view s k t = VUnl (Prepared ph).
Proof using Hp. by views. Qed.

Lemma install_row : row s k = Some t.
Proof using I Hp. apply (ki_stage _ _ (li_key _ I k) _ _ install_view). Qed.

Lemma install_unique t' st : view s k t' = VUnl st → t' = t ∧ st = Prepared ph.
Proof using I Hp.
  intros Hv. assert (t' = t) as -> by (eapply unlocking_unique; [apply I|exact Hv|exact install_view]).
  rewrite install_view in Hv. by simplify_eq.
Qed.

Lemma free_inv : new_holder_ts ph = 0 → lw_inv (set_phase t Finishing (set_row k None s)).
Proof using I Hp.
  intros Hz. pose proof (li_key _ I k) as Ik. pose proof install_row as Hr.
  destruct (ki_stage _ _ Ik _ _ install_view) as [_ Hnone]. rewrite Hz in Hnone. simpl in Hnone.
  assert (∀ t', view (set_phase t Finishing (set_row k None s)) k t' =
    if decide (t' = t) then VDead else view s k t') as Hvs by (intros t'; by rewrite view_set).
  apply (row_step_inv s _ 0 (mgr s 0) k); try done.
  - intros n'. change (mgr s n' = if decide (n' = 0) then mgr s 0 else mgr s n').
    by destruct (decide (n' = 0)) as [->|].
  - apply I.
  - intros t'. rewrite phase_set. destruct (decide (t' = t)) as [->|]; [|done].
    rewrite Hp. split_and!; try done. intros k' ?. simpl. by rewrite decide_False.
  - intros k' ?. rewrite row_phase, row_set. by rewrite decide_False.
  - eauto.
  - apply (freed_inv s _ k t); try done.
    + right. eauto using install_view.
    + intros w Hw. destruct (ki_wait _ _ Ik _ Hw) as (r & _ & _ & _ & Hf). destruct (w_flag r).
      * destruct Hf as (_ & t' & Hr' & Hc). assert (t' = t) as -> by congruence.
        rewrite install_view in Hc. by destruct Hc.
      * destruct Hf. assert (w = t) as -> by congruence. by rewrite install_view in Hw.
      * destruct Hf as (t' & st & ph' & Hv & Hi & <- & _).
        destruct (install_unique _ _ Hv) as [-> ->]. simplify_eq/=.
        assert (0 < new_holder_ts ph'); [|lia]. apply (li_pos _ I). intros E.
        unfold view in Hw. by rewrite E in Hw.
    + intros t' st ? Hv. by destruct (install_unique _ _ Hv).
    + by rewrite row_phase, row_set, decide_True.
    + by rewrite Hvs, decide_True.
    + intros t' ?. by rewrite Hvs, decide_False.
    + change (released s k t). eapply ki_unlocking; [apply I|exact install_view].
Qed.

Hypothesis Hnz : new_holder_ts ph ≠ 0.
Abbreviation new := (new_holder_ts ph).
Abbreviation s' := (set_phase t (Unlocking k (Installed ph)) (set_row k (Some new) s)).

Lemma installed_key : key_inv s' k.
Proof using All.
  pose proof (li_key _ I k) as Ik. pose proof install_row as Hr.
  pose proof install_unique as Huniq. pose proof install_view as Hv.
  destruct (ki_stage _ _ Ik _ _ Hv) as [_ Hst]. rewrite (proj2 (Z.eqb_neq _ _) Hnz) in Hst.
  destruct Hst as [Hqn Hres]. pose proof (ki_handoff _ _ Ik _ _ ph Hv eq_refl) as Hho.
  destruct Hho as (_ & _ & _ & Hh). destruct (Hh Hnz) as (Hpos & Hnt & _).
  assert (row s' k = Some new) as Hr' by (by rewrite row_phase, row_set, decide_True).
  assert (view s' k t = VUnl (Installed ph)) as Hv' by (by views).
  assert (∀ t', t' ≠ t → view s' k t' = view s k t') as Hvs
    by (intros t' ?; by rewrite view_set, decide_False).
  assert (∀ t' v, view s' k t' = v → (∀ st, v ≠ VUnl st) → t' ≠ t ∧ view s k t' = v) as Hback.
  { intros t' v E Hne. assert (t' ≠ t) by (intros ->; by apply (Hne (Installed ph)); rewrite <- E).
    by rewrite <- Hvs. }
  assert (∀ t' st, view s' k t' = VUnl st → t' = t ∧ st = Installed ph) as Hback'.
  { intros t' st E. destruct (decide (t' = t)) as [->|Hne]; [split; congruence|].
    rewrite Hvs in E by done. by destruct (Huniq _ _ E). }
  destruct Ik as [Irow Istage Ihand Ique Ireg Irej Iwait Irel Iunl Idel]. split.
  - intros t'. rewrite Hr'. intros [= <-]. rewrite Hvs by done. destruct Hres as [-> _]. done.
  - intros t' st [-> ->]%Hback'. simpl. split; [done|]. split; [done|].
    destruct Hres as [Hvn Hres]. split; [by rewrite Hvs|done].
  - intros t' st ph' [-> ->]%Hback'. intros [= <-]. by apply (Ihand t (Prepared ph)).
  - intros n q Hq. destruct (Ique n q Hq) as (Hn & Hp' & Hb & Hnd & Hall & Ho).
    do 4 (split; [done|]). split.
    + eapply Forall_impl; [exact Hall|]. intros e [? He]. split; [done|]. unfold entry_ok.
      destruct (decide (e.1 = t)) as [->|]; [left; by rewrite Hv'|by rewrite Hvs].
    + left. rewrite Hr'. destruct Ho as [[? Hk]|(t' & st & ph' & ? & Hvt & Hi & <-)].
      * assert (owner_holder_ts q = t) as E by congruence. by rewrite E, Hv in Hk.
      * destruct (Huniq _ _ Hvt) as [-> ->]. simplify_eq/=. split; [done|].
        rewrite Hvs by done. destruct Hres as [-> _]. done.
  - intros w h [Hne E]%Hback; [|done]. destruct (Ireg _ _ E) as (? & ? & ? & Hc).
    split_and!; try done. right. destruct Hc as [[? Hn]|[Hg|?]].
    + assert (h = t) as -> by congruence. by destruct (Hn (Prepared ph)).
    + left. rewrite Hvs; [done|congruence].
    + by right.
  - intros w [Hne E]%Hback; [|done]. by apply Irej.
  - intros w [Hne E]%Hback; [|done]. destruct (Iwait _ E) as (r & Hrw & Hk & Hks & Hf).
    exists r. split; [done|]. do 2 (split; [done|]). destruct (w_flag r).
    + destruct Hf as (? & t' & Hrt & Hc). split; [done|]. assert (t' = t) as -> by congruence.
      rewrite Hv in Hc. destruct Hc as (_ & Hin & (? & ? & Hver)). exists new. split; [done|].
      rewrite Hvs by done. destruct Hres as [-> _]. exists (new_owner_queue ph).
      do 3 (split; [done|]). split_and!; simpl; [done|done|lia].
    + destruct Hf. congruence.
    + destruct Hf as (t' & st & ph' & Hvt & Hi & Hnw & ? & ?). destruct (Huniq _ _ Hvt) as [-> ->].
      simpl in Hi. injection Hi as <-. exists t, (Installed ph), ph. split_and!; done.
  - intros t' Ht. rewrite Hr'. change (released s k t') in Ht. destruct (Irel t' Ht) as [Hc _]. split.
    + destruct (decide (t' = t)) as [->|]; [right; eauto|by rewrite Hvs].
    + intros [= <-]. destruct Hres as [Hvn _]. rewrite Hvn in Hc. naive_solver.
  - intros t' st [-> ->]%Hback'. by apply (Iunl t (Prepared ph)).
  - intros ph' Hph Hk. destruct (Idel ph' Hph Hk) as [? Hc]. split; [done|].
    assert (source_holder_ts ph' ≠ t) as Hne.
    { intros E. rewrite E, Hv in Hc. destruct Hc as [?|[_ Hn]]; [done|]. by apply (Hn (Prepared ph)). }
    by rewrite Hvs.
Qed.

Lemma row_installed_inv : lw_inv s'.
Proof using All.
  apply (row_step_inv s _ 0 (mgr s 0) k); try done.
  - intros n'. change (mgr s n' = if decide (n' = 0) then mgr s 0 else mgr s n').
    by destruct (decide (n' = 0)) as [->|].
  - apply I.
  - intros t'. rewrite phase_set. destruct (decide (t' = t)) as [->|]; [|done].
    rewrite Hp. split_and!; try done. intros k' ?. simpl. by rewrite !decide_False.
  - intros k' ?. rewrite row_phase, row_set. by rewrite decide_False.
  - eauto.
  - apply installed_key.
Qed.
End install.

Lemma install_ok s t k ph :
  lw_inv s → phase s t = Unlocking k (Prepared ph) → lw_inv (install t k ph s).
Proof.
  intros I Hp. unfold install. destruct (Z.eqb_spec (new_holder_ts ph) 0).
  - by eapply free_inv.
  - by apply row_installed_inv.
Qed.

(** *** The successor is told *)

Section deliver.
Variables (s : Sys) (t : Z) (k : TupleWaitKey) (ph : PendingHandoff).
Hypothesis I : lw_inv s.
Hypothesis Hp : phase s t = Unlocking k (Installed ph).
Abbreviation new := (new_holder_ts ph).

Lemma deliver_view : view s k t = VUnl (Installed ph).
Proof using Hp. by views. Qed.

Lemma deliver_stage : new ≠ 0 ∧ row s k = Some new ∧ reserved_for s k t ph.
Proof using I Hp. apply (ki_stage _ _ (li_key _ I k) _ _ deliver_view). Qed.

Lemma deliver_handoff : handoff_ok k t ph.
Proof using I Hp. eapply ki_handoff; [apply I|exact deliver_view|done]. Qed.

Section granted.
Variables (r0 : WaitState).
Hypothesis Hr0 : rec s new = Some r0.
Hypothesis Hres : w_flag r0 = RESERVED ∧ reservation_key r0 = k.
Abbreviation m' := (upd_waiters (insert new (set_flag GRANTED r0)) (mgr s (home new))).
Abbreviation s' := (log_delivery ph (set_phase t Finishing (put (home new) m' s))).

Lemma delivered_rec w : rec s' w = if decide (w = new) then Some (set_flag GRANTED r0) else rec s w.
Proof using Hr0.
  change (rec (put (home new) m' s) w = if decide (w = new) then Some (set_flag GRANTED r0) else rec s w).
  rewrite rec_put. simpl. destruct (decide (w = new)) as [->|Hne].
  - by rewrite decide_True, lookup_insert_eq.
  - destruct (decide (home w = home new)) as [E|]; [|done].
    rewrite lookup_insert_ne by done. unfold rec. by rewrite E.
Qed.

Lemma delivered_key : key_inv s' k.
Proof using All.
  pose proof (li_key _ I k) as Ik. pose proof deliver_view as Hv. pose proof delivered_rec as Hrec.
  destruct deliver_stage as (Hnz & Hr & Hvn & _). destruct deliver_handoff as (Hhk & Hsrc & _ & Hh).
  destruct (Hh Hnz) as (Hpos & Hnt & Hnode & _).
  assert (view s' k t = VDead) as Hv'.
  { change (view (set_phase t Finishing s) k t = VDead). by views. }
  assert (∀ t', t' ≠ t → view s' k t' = view s k t') as Hvs.
  { intros t' ?. change (view (set_phase t Finishing s) k t' = view s k t').
    by rewrite view_set, decide_False. }
  assert (∀ t' v, view s' k t' = v → v ≠ VDead → t' ≠ t ∧ view s k t' = v) as Hback.
  { intros t' v E Hne. assert (t' ≠ t) by congruence. by rewrite <- Hvs. }
  assert (∀ t' st, view s k t' = VUnl st → t' = t ∧ st = Installed ph) as Huniq.
  { intros t' st E. assert (t' = t) as -> by (eapply unlocking_unique; [exact Ik|exact E|exact Hv]).
    split; congruence. }
  assert (∀ t' st, view s' k t' ≠ VUnl st) as Hno.
  { intros t' st [? E]%Hback; [|done]. by destruct (Huniq _ _ E). }
  assert (∀ n, queue s' k n = queue s k n) as Hqs.
  { intros n. by apply (queue_put_same (home new) m' s). }
  assert (∀ t', released s' k t' ↔ released s k t') as Hrel.
  { intros t'. by apply (released_put_same (home new) m' s). }
  destruct Ik as [Irow Istage Ihand Ique Ireg Irej Iwait Irel Iunl Idel]. split.
  - intros t' Ht. change (row s k = Some t') in Ht. assert (t' = new) as -> by congruence. rewrite Hvs, Hvn by done. done.
  - intros t' st E. by destruct (Hno t' st).
  - intros t' st ph' E. by destruct (Hno t' st).
  - intros n q. rewrite Hqs. intros Hq. destruct (Ique n q Hq) as (Hn & Hp' & Hb & Hnd & Hall & Ho).
    do 4 (split; [done|]). split.
    + eapply Forall_impl; [exact Hall|]. intros e [? He]. split; [done|]. unfold entry_ok.
      destruct (decide (e.1 = t)) as [E|E]; [left; by rewrite E, Hv'|]. rewrite Hvs by done.
      destruct He as [?|[Hw (r & Hrw & Hf)]]; [by left|right]. split; [done|].
      rewrite Hrec. destruct (decide (e.1 = new)) as [E'|]; [|eauto].
      rewrite E', Hr0 in Hrw. destruct Hres. congruence.
    + left. destruct Ho as [[Hro Hk]|(t' & st & ph' & ? & Hvt & Hi & ?)].
      * split; [done|]. assert (owner_holder_ts q = new) as -> by congruence.
        rewrite Hvs, Hvn by done. done.
      * destruct (Huniq _ _ Hvt) as [-> ->]. done.
  - intros w h [Hne E]%Hback; [|done]. destruct (Ireg _ _ E) as (? & ? & Hf & Hc).
    rewrite Hrec, decide_False by congruence. split_and!; try done.
    destruct Hc as [[? _]|[Hg|?]].
    + left. split; [done|]. intros st. apply Hno.
    + right. left. rewrite Hvs; [done|congruence].
    + right. right. by apply Hrel.
  - intros w [Hne E]%Hback; [|done]. rewrite Hrec, decide_False by congruence. by apply Irej.
  - intros w [Hne E]%Hback; [|done]. rewrite Hrec. destruct (decide (w = new)) as [->|Hwn].
    + eexists. split; [done|]. destruct (Iwait _ E) as (r & Hrw & Hk & Hks & _).
      assert (r = r0) as -> by congruence. do 2 (split; [done|]). simpl. split; [done|]. apply Hres.
    + destruct (Iwait _ E) as (r & Hrw & Hk & Hks & Hf). exists r. split; [done|].
      do 2 (split; [done|]). destruct (w_flag r).
      * destruct Hf as (? & t' & Hrt & Hc). split; [done|]. assert (t' = new) as -> by congruence.
        rewrite Hvn in Hc. destruct Hc as (q & Hq & Hc). exists new. split; [done|].
        rewrite Hvs, Hvn by done. exists q. by rewrite Hqs.
      * destruct Hf. congruence.
      * destruct Hf as (t' & st & ph' & Hvt & Hi & Hnw & _). destruct (Huniq _ _ Hvt) as [-> ->].
        simpl in Hi. congruence.
  - intros t' Ht%Hrel. destruct (Irel t' Ht) as [Hc Hc'].
    destruct (decide (t' = t)) as [->|Hne].
    + split; [by left|]. intros E. change (row s k = Some t) in E. congruence.
    + rewrite Hvs by done. done.
  - intros t' st E. by destruct (Hno t' st).
  - intros ph' [->|Hph]%elem_of_cons Hk.
    + split; [done|]. right. rewrite Hsrc. split; [|by apply Hno].
      apply Hrel. by apply (Iunl t (Installed ph)).
    + destruct (Idel ph' Hph Hk) as [? Hc]. split; [done|].
      assert (source_holder_ts ph' ≠ t) as Hne.
      { intros E. rewrite E, Hv in Hc. destruct Hc as [?|[_ Hn]]; [done|]. by apply (Hn (Installed ph)). }
      rewrite Hvs, Hrel by done. destruct Hc as [?|[? Hn]]; [by left|right; split; [done|]].
      intros st. apply Hn.
Qed.

Lemma delivered_inv : lw_inv s'.
Proof using All.
  pose proof (li_key _ I k) as Ik. destruct deliver_stage as (Hnz & Hr & Hvn & _).
  destruct deliver_handoff as (Hhk & _).
  destruct (ki_wait _ _ Ik _ Hvn) as (r & Hrw & Hk & _). assert (r = r0) as -> by congruence.
  apply (row_step_inv s _ (home new) m' k); try done.
  - intros n'. apply (mgr_put (home new) m' s n').
  - apply (li_index _ I (home new)).
  - intros t'. change (similar k (phase s t') (phase (set_phase t Finishing s) t')).
    rewrite phase_set. destruct (decide (t' = t)) as [->|]; [|done].
    rewrite Hp. split_and!; try done. intros k' ?. simpl. by rewrite decide_False.
  - intros w r Hw Hrw' Hks Hkr. simpl. rewrite lookup_insert_ne; [done|]. intros <-.
    unfold rec in Hr0. congruence.
  - intros w r' Hw. simpl. destruct (decide (w = new)) as [->|]; [by eauto|].
    rewrite lookup_insert_ne by done. eauto.
  - intros ph' Hne [->|?]%elem_of_cons; done.
  - apply delivered_key.
Qed.
End granted.

Lemma deliver_ok :
  wp (DeliverHandoff ph (home t))
     (λ _ N', lw_inv (log_delivery ph (set_phase t Finishing (set_mgr N' s))) ∧
        ∃ r, local_waiters (N' (home new)) !! new = Some r ∧ w_flag r = GRANTED) (mgr s).
Proof using I Hp.
  destruct deliver_stage as (Hnz & Hr & Hvn & (r & Hrn & Hf & Hrk & Hrs & Hrv)).
  destruct deliver_handoff as (Hhk & Hsrc & Hprep & Hh).
  destruct (Hh Hnz) as (Hpos & Hnt & Hnode & Hver & _).
  assert (wp (at_node (home new) (PublishHandoff k new t (h_version ph)))
     (λ b N', b = true ∧ lw_inv (log_delivery ph (set_phase t Finishing (set_mgr N' s))) ∧
        ∃ r, local_waiters (N' (home new)) !! new = Some r ∧ w_flag r = GRANTED) (mgr s)) as Hpub.
  { unfold PublishHandoff. node_step. do 2 wp_step.
    change (local_waiters (mgr s (home new)) !! new) with (rec s new). rewrite Hrn.
    unfold SameReservation. rewrite Hf, Hrk, Hrs, Hrv, !Z.eqb_refl, (bool_decide_true (k = k)) by done.
    assert ((h_version ph =? 0) = false) as -> by (apply Z.eqb_neq; lia). simpl.
    do 5 wp_step. split; [done|]. split; [by apply delivered_inv|].
    rewrite fn_lookup_insert. exists (set_flag GRANTED r). split; [apply lookup_insert_eq|done]. }
  unfold DeliverHandoff, SendHandoffRemote. rewrite Hprep, Hhk, Hsrc, Hnode.
  wp_step. wp_step; [done|]. rewrite (proj2 (Z.eqb_neq _ _) Hnz). wp_step; wp_step.
  - bool_simpl. eapply wp_mono; [match goal with E : home new = home t |- _ => rewrite <- E end; exact Hpub|].
    intros b N' [-> ?]. by wp_step.
  - wp_step. wp_step; [apply home_is_node|]. eapply wp_mono; [exact Hpub|].
    intros b N' [-> ?]. by wp_step.
Qed.
End deliver.

Lemma deliver_again_ok s ph :
  lw_inv s → ph ∈ delivered s →
  wp (SendHandoffRemote ph true) (λ _ N', lw_inv (set_mgr N' s)) (mgr s).
Proof.
  intros I Hph. set (k := h_key ph). pose proof (li_key _ I k) as Ik.
  destruct (ki_delivered _ _ Ik ph Hph eq_refl) as [Hnode Hc].
  unfold SendHandoffRemote, PublishHandoff. rewrite Hnode. wp_step.
  wp_step; [apply home_is_node|]. node_step. do 2 wp_step.
  change (local_waiters (mgr s (home (new_holder_ts ph))) !! new_holder_ts ph)
    with (rec s (new_holder_ts ph)).
  destruct (rec s (new_holder_ts ph)) as [r|] eqn:Hr; [|wp_step; by apply put_inv].
  wp_step; [wp_step; by apply put_inv|]. wp_step; [wp_step; by apply put_inv|].
  bool_simpl. exfalso. unfold SameReservation in *. bool_simpl.
  assert (h_version ph ≠ 0) as Hv0 by done.
  pose proof (li_rec _ I _ _ Hr) as Hw.
  destruct (phase s (new_holder_ts ph)) as [| |k' h|k'|k'| | |] eqn:Hp; try done.
  - assert (view s k' (new_holder_ts ph) = VReg h) as Hv by (by views).
    destruct (ki_reg _ _ (li_key _ I k') _ _ Hv) as (_ & _ & Hr' & _). by simplify_eq/=.
  - assert (view s k' (new_holder_ts ph) = VRej) as Hv by (by views).
    destruct (ki_rej _ _ (li_key _ I k') _ Hv) as (r' & Hr' & _ & _ & _ & ? & _). congruence.
  - assert (view s k' (new_holder_ts ph) = VWait) as Hv by (by views).
    destruct (ki_wait _ _ (li_key _ I k') _ Hv) as (r' & Hr' & _ & _ & Hf).
    assert (r' = r) as -> by congruence. destruct (w_flag r); [destruct Hf; congruence|done|].
    destruct Hf as (t' & st & ph' & Hvt & _ & _ & Hk' & Hs').
    assert (k' = k) as -> by (subst k; congruence). assert (t' = source_holder_ts ph) as -> by congruence.
    destruct Hc as [?|[_ Hn]]; [congruence|by destruct (Hn st)].
Qed.
End handoff_steps.
