(* ===== verification/LockWaitSafety.v ===== *)
(** What [LockWaitProtocol] guarantees: no check fails, nobody who waits is
    lost, a row passes to exactly one live transaction, and the edges of the
    waits-for graph follow the rows. *)

From stdpp Require Import functions.
From S2P Require Import Prelude Common LockWait LockWaitProtocol LockWaitInv.
From S2P Require Import LockWaitSteps LockWaitHandoff.

Section safety.
Context `{Placement}.
Implicit Types s : Sys.

Lemma wp_ghost {A} (a : A) s (Q : A → Nodes → Prop) :
  Q a (mgr s) → wp (mret a : M Nodes A) Q (mgr s).
Proof. done. Qed.

(** Every call returns and keeps the invariant. *)
Lemma lw_call_ok s A (m : M Nodes A) f :
  lw_inv s → lw_call s A m f → wp m (λ a N', lw_inv (f a (set_mgr N' s))) (mgr s).
Proof.
  intros I Hc. destruct Hc.
  - by apply begin_ok.
  - apply wp_ghost. rewrite set_mgr_same. by apply acquire_ok.
  - by apply conflict_ok.
  - by apply register_ok.
  - by apply rejected_ok.
  - by eapply round_ok.
  - eapply wp_mono; [by apply wait_detect_returns|]. intros b N' ->. by rewrite set_mgr_same.
  - apply wp_ghost. rewrite set_mgr_same. by apply finish_ok.
  - by apply uncontended_ok.
  - by apply freeze_ok.
  - by apply take_head_ok.
  - destruct H1 as [->|[u ->]]; [by apply ask_ok|by eapply ask_again_ok].
  - eapply (update_ok s t k ph u n l Adopted); try done. by left.
  - eapply (update_ok s t k ph u n l Updating); try done. by right.
  - by apply adopted_ok.
  - apply wp_ghost. rewrite set_mgr_same. by apply updated_ok.
  - apply wp_ghost. rewrite set_mgr_same. by apply install_ok.
  - eapply wp_mono; [by eapply deliver_ok|]. by intros ? ? [? _].
  - by apply deliver_again_ok.
  - by apply end_ok.
Qed.

Lemma initial_inv : lw_inv initial.
Proof.
  split; try done.
  - intros k. split; try done. intros t Ht. unfold released in Ht. set_solver.
  - intros n h k. unfold keys_of. simpl. rewrite lookup_empty. simpl. set_solver.
Qed.

Lemma lw_reachable_inv s : lw_reachable s → lw_inv s.
Proof.
  intros Hr. eapply (star_invariant lw_step lw_inv initial s); [apply initial_inv| |exact Hr].
  intros x y I [A m f a N' Hc Hrun]. by apply (wp_run _ _ _ _ _ (lw_call_ok _ _ _ _ I Hc)).
Qed.

(** ** Concrete runs

    A command is a call with its caller's conditions decided on the state. *)

Inductive Cmd : Type :=
  | Begin (t : Z)
  | Acquire (t : Z) (k : TupleWaitKey)
  | Conflict (w : Z) (k : TupleWaitKey)
  | Register (w : Z)
  | Finish (t : Z)
  | Freeze (t : Z) (k : TupleWaitKey)
  | Head_ (t : Z)
  | Ask (t : Z)
  | Update (t n : Z)
  | Adopt (t : Z)
  | Install (t : Z)
  | Deliver (t : Z).

Definition step {A} (m : M Nodes A) (f : A → Sys → Sys) (s : Sys) : option Sys :=
  match m (mgr s) with Done (a, N') => Some (f a (set_mgr N' s)) | _ => None end.

Definition exec1 (c : Cmd) (s : Sys) : option Sys :=
  match c with
  | Begin t =>
      match phase s t with
      | Unborn => if 0 <? t then step (at_node (home t) (OnTxnBegin t)) (λ _, set_phase t Running) s
                  else None
      | _ => None
      end
  | Acquire t k =>
      match phase s t, row s k with
      | Running, None => step (mret tt) (λ _, set_row k (Some t)) s
      | _, _ => None
      end
  | Conflict w k =>
      match phase s w, row s k with
      | Running, Some h =>
          if h =? w then None
          else step (wait_enter w (home w) h (home h) (home h) k)
                 (λ _, set_phase w (Registering k h)) s
      | _, _ => None
      end
  | Register w =>
      match phase s w with
      | Registering k h =>
          step (at_node (home h) (OnRegisterTupleWait k h w (home w)))
            (λ granted, set_phase w (if granted : bool then Rejected k else Waiting k)) s
      | _ => None
      end
  | Finish t =>
      match phase s t with
      | Running => step (mret tt) (λ _, set_phase t Finishing) s
      | _ => None
      end
  | Freeze t k =>
      match phase s t, row s k with
      | Finishing, Some t' =>
          if t' =? t then step (at_node (home t) (freeze k t)) (λ _, set_phase t (Unlocking k Frozen)) s
          else None
      | _, _ => None
      end
  | Head_ t =>
      match phase s t with
      | Unlocking k Frozen =>
          if (match local_queues (mgr s (home t)) !! k with
              | Some q => version q + 1 <? 2 ^ 64
              | None => true
              end)
          then step (at_node (home t) (take_head k t (home t)))
                 (λ h, set_phase t (Unlocking k (after_head k t h))) s
          else None
      | _ => None
      end
  | Ask t =>
      match phase s t with
      | Unlocking k (Asking ph) =>
          step (ask ph) (λ r, set_phase t (Unlocking k
            (match r with Some u => Adopted ph u | None => Frozen end))) s
      | _ => None
      end
  | Update t n =>
      match phase s t with
      | Unlocking k (Adopted ph u) =>
          match u !! n with
          | Some l => step (send_update (new_holder_ts ph) (new_holder_node ph) k (h_version ph) n l)
                        (λ _, set_phase t (Unlocking k (Adopted ph (delete n u)))) s
          | None => None
          end
      | _ => None
      end
  | Adopt t =>
      match phase s t with
      | Unlocking k (Adopted ph u) =>
          if bool_decide (u = ∅) then
            step (at_node (home t) (hand_queue_over k t)) (λ _, set_phase t (Unlocking k (Prepared ph))) s
          else None
      | _ => None
      end
  | Install t =>
      match phase s t with
      | Unlocking k (Prepared ph) => step (mret tt) (λ _, install t k ph) s
      | _ => None
      end
  | Deliver t =>
      match phase s t with
      | Unlocking k (Installed ph) =>
          step (DeliverHandoff ph (home t)) (λ _ s, log_delivery ph (set_phase t Finishing s)) s
      | _ => None
      end
  end.

Fixpoint exec (cs : list Cmd) (s : Sys) : option Sys :=
  match cs with
  | [] => Some s
  | c :: cs' => exec1 c s ≫= exec cs'
  end.

Lemma step_reachable {A} (m : M Nodes A) f s s' :
  lw_reachable s → lw_call s A m f → step m f s = Some s' → lw_reachable s'.
Proof.
  intros Hs Hc. unfold step. destruct (m (mgr s)) as [[a N']| |] eqn:R; [|done|done].
  intros [= <-]. eapply star_snoc; [exact Hs|]. by econstructor.
Qed.

Lemma exec1_reachable c s s' : lw_reachable s → exec1 c s = Some s' → lw_reachable s'.
Proof.
  intros Hs. destruct c; simpl; repeat (case_match; try done); bool_simpl; subst;
    apply step_reachable; try done.
  - by apply call_begin.
  - by apply call_acquire.
  - by apply call_conflict.
  - by apply call_register.
  - by apply call_finish.
  - by apply call_freeze.
  - apply call_head; [done|]. intros q' Hq. congruence.
  - apply call_head; [done|]. intros q' Hq. congruence.
  - eapply call_ask; [done|by left].
  - by eapply call_update_remote.
  - by apply call_adopted.
  - by apply call_install.
  - by eapply call_deliver.
Qed.

Lemma exec_reachable cs s s' : lw_reachable s → exec cs s = Some s' → lw_reachable s'.
Proof.
  revert s. induction cs as [|c cs IH]; simpl; intros s Hs; [by intros [= <-]|].
  destruct (exec1 c s) as [s1|] eqn:E; simpl; [|done]. apply IH. by eapply exec1_reachable.
Qed.
End safety.

(** Two nodes; transaction [t] runs on node [t mod 2]. *)
Definition demo_home (t : Z) : Z := t mod 2.
#[export] Instance demo_placement : Placement.
Proof.
  refine {| placement_count := 2; home := demo_home |}.
  intros t. unfold is_node, demo_home, ComputeNodeCount.
  pose proof (Z.mod_pos_bound t 2 ltac:(lia)). apply andb_true_iff.
  split; [apply Z.leb_le|apply Z.ltb_lt]; lia.
Defined.

Definition demo_key : TupleWaitKey := mkKey 1 7 3.
Definition demo_key' : TupleWaitKey := mkKey 1 7 4.

(** 2 owns the row; 3, on the other node, and 4 wait for it. *)
Definition waiting_run : list Cmd :=
  [Begin 2; Acquire 2 demo_key; Begin 3; Conflict 3 demo_key; Register 3;
   Begin 4; Conflict 4 demo_key; Register 4].
(** 2 is unlocking: 3 is reserved on its node, 4 has still to be told. *)
Definition handing_run : list Cmd :=
  waiting_run ++ [Finish 2; Freeze 2 demo_key; Head_ 2; Ask 2].
(** 3 has been granted the row. *)
Definition granted_run : list Cmd :=
  handing_run ++ [Update 2 0; Adopt 2; Install 2; Deliver 2].
(** 2 and 3 wait for each other. *)
Definition deadlock_run : list Cmd :=
  [Begin 2; Acquire 2 demo_key; Begin 3; Acquire 3 demo_key';
   Conflict 2 demo_key'; Register 2; Conflict 3 demo_key; Register 3].

Definition demo_state (cs : list Cmd) : Sys := default initial (exec cs initial).

Lemma lw_demo_reachable cs :
  match exec cs initial with Some _ => true | None => false end = true → lw_reachable (demo_state cs).
Proof.
  unfold demo_state. destruct (exec cs initial) as [s|] eqn:E; [|done]. intros _.
  eapply exec_reachable; [constructor|exact E].
Qed.

Example granted_run_grants :
  row (demo_state granted_run) demo_key = Some 3 ∧
  (w_flag <$> rec (demo_state granted_run) 3) = Some GRANTED ∧
  (w_holder_ts <$> rec (demo_state granted_run) 4) = Some 3.
Proof. vm_compute. done. Qed.

(** ** Properties *)

(** The bytes of a row that is taken by [o]. *)
Definition shows `{Placement} (o : option Z) (it : DataItem) : Prop :=
  match o with
  | Some t => lock it = EXCLUSIVE_LOCKED ∧ timeStamp it = t ∧
              holder_node it = u8 (home t) ∧ lock_owner_node it = u8 (home t)
  | None => lock it = UNLOCKED
  end.

(** The installation of a prepared handoff passes the checks on the row's bytes,
    and writes what the protocol says. *)
Lemma install_writes_row `{Placement} (s : Sys) t k ph it :
  lw_reachable s → phase s t = Unlocking k (Prepared ph) → shows (row s k) it →
  wp (write_unlocked k t ph)
    (λ handed it', handed = negb (new_holder_ts ph =? 0) ∧
                   shows (row (install t k ph s) k) it') it.
Proof.
  intros Hs Hp Hit. apply lw_reachable_inv in Hs as I. pose proof (li_key _ I k) as Ik.
  assert (view s k t = VUnl (Prepared ph)) as Hv by (unfold view; rewrite Hp; simpl; by case_decide).
  destruct (ki_handoff _ _ Ik _ _ _ Hv eq_refl) as (Hk & Hsrc & Hprep & Hnew).
  destruct (ki_stage _ _ Ik _ _ Hv) as [Hrow _]. rewrite Hrow in Hit.
  destruct Hit as (Hl & Ht & Hn & Ho).
  unfold write_unlocked, UnlockTupleWithHandoff2PC.
  assert (prepared ph && bool_decide (h_key ph = k) && (source_holder_ts ph =? t) = true) as C1.
  { by rewrite Hprep, bool_decide_true, Hsrc, Z.eqb_refl by done. }
  assert ((lock it =? EXCLUSIVE_LOCKED) && (timeStamp it =? t) = true) as C2.
  { by rewrite Hl, Ht, !Z.eqb_refl. }
  unfold install. repeat wp_step; try exact C1; try exact C2; try discriminate;
    (split; [by destruct (new_holder_ts ph =? 0)|]);
    destruct (Z.eqb_spec (new_holder_ts ph) 0) as [E|E]; try discriminate;
    simpl; rewrite fn_lookup_insert; try done.
  destruct (Hnew E) as (_ & _ & -> & _). done.
Qed.



(** C4: a row belongs to one live transaction.  Who is granted owns the row; who
    is reserved is the only one, keeps waiting, and the transaction that
    releases the row is about to install it or to publish its grant. *)
Theorem row_handed_safely `{Placement} (s : Sys) k :
  lw_reachable s →
  (∀ t, row s k = Some t → alive (phase s t)) ∧
  (∀ w, phase s w = Waiting k → ∃ r, rec s w = Some r ∧
     match w_flag r with
     | GRANTED => row s k = Some w
     | RESERVED => ∃ t st ph, phase s t = Unlocking k st ∧ reserving st = Some ph ∧
                              new_holder_ts ph = w ∧ (row s k = Some t ∨ row s k = Some w)
     | WAITING => True
     end) ∧
  (∀ w w' r r', phase s w = Waiting k → phase s w' = Waiting k →
     rec s w = Some r → rec s w' = Some r' → w_flag r = RESERVED → w_flag r' = RESERVED → w = w').
Proof.
  intros Hs. pose proof (lw_reachable_inv _ Hs) as I. pose proof (li_key _ I k) as Ik.
  assert (∀ w, phase s w = Waiting k → view s k w = VWait) as Hvw by (intros w E; by views).
  assert (∀ t st, view s k t = VUnl st → phase s t = Unlocking k st) as Hvu.
  { intros t st. unfold view. destruct (phase s t); simpl; try done; case_decide; congruence. }
  split_and!.
  - intros t Hr. destruct (ki_row _ _ Ik t Hr) as (_ & Hu & Hg).
    unfold view in *. by destruct (phase s t).
  - intros w Hw. destruct (ki_wait _ _ Ik w (Hvw w Hw)) as (r & Hr & _ & _ & Hf).
    exists r. split; [done|]. destruct (w_flag r); [done|by destruct Hf|].
    destruct Hf as (t & st & ph & Hv & Hi & Hn & _). exists t, st, ph. split_and!; auto.
    pose proof (ki_stage _ _ Ik _ _ Hv) as Hst.
    destruct (stage_row _ _ _ _ Hst) as [?|(ph' & -> & ? & _)]; [by left|right]. simpl in Hi. congruence.
  - intros w w' r r' Hw Hw' Hr Hr' Hf Hf'.
    destruct (ki_wait _ _ Ik w (Hvw w Hw)) as (r1 & Hr1 & _ & _ & Hc).
    destruct (ki_wait _ _ Ik w' (Hvw w' Hw')) as (r2 & Hr2 & _ & _ & Hc').
    simplify_eq. rewrite Hf in Hc. rewrite Hf' in Hc'.
    destruct Hc as (t & st & ph & Hv & Hi & <- & _), Hc' as (t' & st' & ph' & Hv' & Hi' & <- & _).
    assert (t = t') as <- by (eapply unlocking_unique; [exact Ik|exact Hv|exact Hv']). congruence.
Qed.

Lemma row_handed_safely_witness :
  ∃ r, rec (demo_state handing_run) 3 = Some r ∧
    match w_flag r with
    | GRANTED => row (demo_state handing_run) demo_key = Some 3
    | RESERVED => ∃ t st ph, phase (demo_state handing_run) t = Unlocking demo_key st ∧
        reserving st = Some ph ∧ new_holder_ts ph = 3 ∧
        (row (demo_state handing_run) demo_key = Some t ∨
         row (demo_state handing_run) demo_key = Some 3)
    | WAITING => True
    end.
Proof.
  pose proof (row_handed_safely (demo_state handing_run) demo_key
    (lw_demo_reachable handing_run ltac:(vm_compute; reflexivity))) as H.
  apply (proj1 (proj2 H) 3). vm_compute. reflexivity.
Defined.

(** C20: nobody who waits is lost.  A waiter that is neither granted nor reserved
    is in the queue that the owner of the row has on its node, or, while the
    owner is handing the row over, it is the successor being asked or in the
    queue that travels with the row. *)
Theorem no_waiter_lost `{Placement} (s : Sys) w k r :
  lw_reachable s → phase s w = Waiting k → rec s w = Some r → w_flag r = WAITING →
  ∃ t, row s k = Some t ∧ alive (phase s t) ∧
    ((∃ q, local_queues (mgr s (home t)) !! k = Some q ∧ owner_holder_ts q = t ∧
           w ∈ (waiters q).*1 ∧ (phase s t = Unlocking k Frozen ∨ ¬ released s k t)) ∨
     (∃ st ph, phase s t = Unlocking k st ∧ handing st = Some ph ∧
               (w = new_holder_ts ph ∨ w ∈ (tail ph).*1))).
Proof.
  intros Hs Hw Hr Hf. pose proof (lw_reachable_inv _ Hs) as I. pose proof (li_key _ I k) as Ik.
  assert (view s k w = VWait) as Hv by (by views).
  destruct (ki_wait _ _ Ik _ Hv) as (r' & Hr' & _ & _ & Hc). simplify_eq. rewrite Hf in Hc.
  destruct Hc as (_ & t & Ht & Hq). exists t. split; [done|].
  destruct (ki_row _ _ Ik t Ht) as (_ & Hub & Hg). split; [unfold view in *; by destruct (phase s t)|].
  assert (∀ st, view s k t = VUnl st → phase s t = Unlocking k st) as Hvu.
  { intros st. unfold view. destruct (phase s t); simpl; try done; case_decide; congruence. }
  destruct (view s k t) as [| | | | | |st|] eqn:Hvt.
  7:{ destruct st as [|ph|ph u|ph u|ph|ph]; [left|right..]; try done.
      - destruct Hq as (q & ? & ? & ? & _). exists q. split_and!; auto.
      - exists (Asking ph), ph. split_and!; auto. by destruct Hq.
      - exists (Adopted ph u), ph. split_and!; auto. right. by destruct Hq.
      - exists (Updating ph u), ph. split_and!; auto. right. by destruct Hq.
      - exists (Prepared ph), ph. split_and!; auto. right. by destruct Hq as (_ & ? & _). }
  all: left; destruct Hq as (q & ? & ? & ? & _); exists q; split_and!; try done; right;
    intros Hrel; destruct (proj2 (ki_released _ _ Ik _ Hrel) Ht); congruence.
Qed.

Lemma no_waiter_lost_witness :
  ∃ r t, rec (demo_state handing_run) 4 = Some r ∧ w_flag r = WAITING ∧
    row (demo_state handing_run) demo_key = Some t ∧ alive (phase (demo_state handing_run) t).
Proof.
  assert (∃ r, rec (demo_state handing_run) 4 = Some r ∧ w_flag r = WAITING) as [r [Hr Hf]].
  { eexists. split; vm_compute; reflexivity. }
  destruct (no_waiter_lost (demo_state handing_run) 4 demo_key r
    (lw_demo_reachable handing_run ltac:(vm_compute; reflexivity)) ltac:(vm_compute; reflexivity) Hr Hf)
    as (t & Ht & Ha & _).
  exists r, t. exact (conj Hr (conj Hf (conj Ht Ha))).
Defined.

(** the edge a waiter shows to the deadlock detector names the owner of the
    row, on the owner's node; only while the row is being handed over it may
    name the successor that is already reserved. *)
Theorem edges_follow_rows `{Placement} (s : Sys) w k :
  lw_reachable s → phase s w = Waiting k →
  ∀ h n, QueryWaiterHolder w (mgr s (home w)) = Some (h, n) →
  n = home h ∧
  (row s k = Some h ∨
   ∃ t st ph, row s k = Some t ∧ phase s t = Unlocking k st ∧ reserving st = Some ph ∧
              new_holder_ts ph = h).
Proof.
  intros Hs Hw h n. pose proof (lw_reachable_inv _ Hs) as I. pose proof (li_key _ I k) as Ik.
  assert (view s k w = VWait) as Hv by (by views).
  destruct (ki_wait _ _ Ik _ Hv) as (r & Hr & _ & _ & Hc).
  unfold QueryWaiterHolder. change (local_waiters (mgr s (home w)) !! w) with (rec s w). rewrite Hr.
  destruct (w_flag r) eqn:Hf; [|done|done]. simpl. intros [= <- <-].
  destruct Hc as (_ & t & Ht & Hq).
  assert (∀ st, view s k t = VUnl st → phase s t = Unlocking k st) as Hvu.
  { intros st. unfold view. destruct (phase s t); simpl; try done; case_decide; congruence. }
  destruct (view s k t) as [| | | | | |st|] eqn:Hvt.
  7:{ destruct st as [|ph|ph u|ph u|ph|ph]; try done.
      - destruct Hq as (q & _ & _ & _ & -> & -> & _). split; [done|by left].
      - destruct Hq as (_ & -> & -> & _). split; [done|by left].
      - destruct Hq as [_ [(-> & -> & _)|[(-> & -> & _) _]]]; (split; [done|]); [right|by left].
        exists t, (Adopted ph u), ph. auto.
      - destruct Hq as [_ [(-> & -> & _)|[(-> & -> & _) _]]]; (split; [done|]); [right|by left].
        exists t, (Updating ph u), ph. auto.
      - destruct Hq as (_ & _ & -> & -> & _). split; [done|]. right. exists t, (Prepared ph), ph. auto. }
  all: destruct Hq as (q & _ & _ & _ & -> & -> & _); split; [done|by left].
Qed.

Lemma edges_follow_rows_witness :
  1 = home 3 ∧
  (row (demo_state granted_run) demo_key = Some 3 ∨
   ∃ t st ph, row (demo_state granted_run) demo_key = Some t ∧
     phase (demo_state granted_run) t = Unlocking demo_key st ∧ reserving st = Some ph ∧
     new_holder_ts ph = 3).
Proof.
  apply (edges_follow_rows (demo_state granted_run) 4 demo_key).
  - apply lw_demo_reachable. vm_compute. reflexivity.
  - vm_compute. reflexivity.
  - vm_compute. reflexivity.
Defined.
