(* ===== verification/LockWaitProgress.v ===== *)
(** The unlocking of a row runs to its end: [PrepareHandoff], called in any
    reachable state, returns; its run is one of the interleavings of
    [LockWaitProtocol]; and the successor is the first transaction of the queue
    that still waits. *)

From stdpp Require Import functions.
From S2P Require Import Prelude Common LockWait LockWaitProtocol LockWaitInv.
From S2P Require Import LockWaitSteps LockWaitHandoff LockWaitSafety.

(** What one iteration takes off the queue. *)
Lemma take_head_spec k t self m :
  wlp (take_head k t self) (λ h m',
    match h with
    | NoWaiter => match local_queues m !! k with Some q => waiters q = [] | None => True end
    | HeadGone => ∃ q ts rest, local_queues m !! k = Some q ∧ waiters q = (ts, self) :: rest ∧
        local_queues m' !! k = Some (mkQueue rest t (u64 (version q + 1)))
    | HeadReserved ph _ => ∃ q rest, local_queues m !! k = Some q ∧
        waiters q = (new_holder_ts ph, new_holder_node ph) :: rest
    | HeadRemote ph => ∃ q, local_queues m !! k = Some q ∧
        waiters q = (new_holder_ts ph, new_holder_node ph) :: tail ph ∧
        local_queues m' !! k = Some (mkQueue (tail ph) t (u64 (version q + 1)))
    end) m.
Proof.
  unfold take_head, erase_queue. do 2 wlp_step.
  destruct (local_queues m !! k) as [q|] eqn:Hq; [|by wlp_step].
  do 2 wlp_step. bool_simpl. match goal with E : owner_holder_ts q = t |- _ => rewrite E end.
  destruct (waiters q) as [|[ts node] rest] eqn:Hw; [by do 5 wlp_step|].
  do 2 wlp_step. wlp_step.
  2:{ wlp_step. exists q. split_and!; [done|done|apply lookup_insert_eq]. }
  bool_simpl. subst node. do 2 wlp_step. simpl.
  destruct (local_waiters m !! ts ≫= _) as [st'|].
  2:{ wlp_step. exists q, ts, rest. split_and!; [done|done|apply lookup_insert_eq]. }
  do 9 wlp_step. eapply wp_wlp, wp_mono; [apply UpdateTailHolderLocked_spec|].
  intros u m' _. wlp_step. by exists q, rest.
Qed.

(** The first transaction of the list that waits for the row; 0 if none. *)
Definition waits_for (k : TupleWaitKey) (p : Phase) : bool :=
  match p with Waiting k' => bool_decide (k' = k) | _ => false end.
Fixpoint first_waiting (P : Z → Phase) (k : TupleWaitKey) (l : list (Z * Z)) : Z :=
  match l with
  | [] => 0
  | (w, _) :: l' => if waits_for k (P w) then w else first_waiting P k l'
  end.

Lemma first_waiting_ext P P' k l :
  (∀ w, waits_for k (P w) = waits_for k (P' w)) → first_waiting P k l = first_waiting P' k l.
Proof. intros E. induction l as [|[w n] l IH]; simpl; [done|]. by rewrite E, IH. Qed.

Section progress.
Context `{Placement}.
Implicit Types s : Sys.

Lemma waits_for_view s k w : waits_for k (phase s w) = true ↔ view s k w = VWait.
Proof.
  unfold view. destruct (phase s w); simpl; rewrite ?bool_decide_eq_true; try case_decide;
    split; congruence.
Qed.

(** [s'] is reached from [s] by the calls of [t] alone. *)
Definition solo (t : Z) s s' : Prop :=
  star lw_step s s' ∧ row s' = row s ∧ ∀ t', t' ≠ t → phase s' t' = phase s t'.

Lemma solo_refl t s : solo t s s.
Proof. split_and!; [constructor|done|done]. Qed.

Lemma solo_trans t s1 s2 s3 : solo t s1 s2 → solo t s2 s3 → solo t s1 s3.
Proof.
  intros (R1 & E1 & P1) (R2 & E2 & P2). split_and!; [by eapply star_trans|congruence|].
  intros t' ?. by rewrite P2, P1.
Qed.

Lemma solo_inv t s s' : lw_inv s → solo t s s' → lw_inv s'.
Proof.
  intros I (R & _). eapply (star_invariant lw_step lw_inv s); [exact I| |exact R].
  intros x y Ix [A m f a N' Hc Hrun]. by apply (wp_run _ _ _ _ _ (lw_call_ok _ _ _ _ Ix Hc)).
Qed.

(** One call that moves [t] to the stage [st a]. *)
Lemma solo_call s t A (m : M Nodes A) (p : A → Phase) :
  lw_inv s → lw_call s A m (λ a, set_phase t (p a)) →
  ∃ a s', m (mgr s) = Done (a, mgr s') ∧ solo t s s' ∧ phase s' t = p a.
Proof.
  intros I Hc. destruct (wp_inv _ _ _ (lw_call_ok _ _ _ _ I Hc)) as (a & N' & Hrun & _).
  exists a, (set_phase t (p a) (set_mgr N' s)). split; [done|]. split; [split_and!|].
  - eapply star_snoc; [constructor|]. by apply (lw_run s A m (λ a, set_phase t (p a)) a N').
  - done.
  - intros t' ?. rewrite phase_set. by rewrite decide_False.
  - rewrite phase_set. by rewrite decide_True.
Qed.

(** The news are sent, node by node. *)
Lemma spread s t k ph con l :
  lw_inv s → spreading con → phase s t = Unlocking k (con ph (list_to_map l)) → NoDup l.*1 →
  ∃ s', for_each (λ '(n, l), send_update (new_holder_ts ph) (new_holder_node ph) k
                             (h_version ph) n l) l (mgr s) = Done (tt, mgr s') ∧
        solo t s s' ∧ phase s' t = Unlocking k (con ph ∅).
Proof.
  intros I Hcon. revert s I. induction l as [|[n ln] l IH]; intros s I Hp Hnd.
  - exists s. split_and!; [done|apply solo_refl|done].
  - apply NoDup_cons in Hnd as [Hn Hnd].
    assert (∃ a s1, send_update (new_holder_ts ph) (new_holder_node ph) k (h_version ph) n ln
        (mgr s) = Done (a, mgr s1) ∧ solo t s s1 ∧
        phase s1 t = Unlocking k (con ph (delete n (list_to_map ((n, ln) :: l))))) as ([] & s1 & R & S & P).
    { apply (solo_call s t _ _ (λ _, Unlocking k (con ph (delete n (list_to_map ((n, ln) :: l))))));
        [done|].
      destruct Hcon as [->| ->].
      - eapply call_update_remote; [exact Hp|apply lookup_insert_eq].
      - eapply call_update_local; [exact Hp|apply lookup_insert_eq]. }
    assert (delete n (list_to_map ((n, ln) :: l)) = (list_to_map l : gmap Z (list Z))) as E.
    { simpl. rewrite delete_insert_eq. apply delete_id. by apply not_elem_of_list_to_map_1. }
    rewrite E in P. destruct (IH s1 (solo_inv _ _ _ I S) P Hnd) as (s2 & R2 & S2 & P2).
    exists s2. split_and!; [|by eapply solo_trans|done]. simpl. by rewrite (run_bind _ _ _ _ _ R).
Qed.

Lemma SendHolderUpdateRPCs_run s t k ph con u :
  lw_inv s → spreading con → phase s t = Unlocking k (con ph u) →
  ∃ s', SendHolderUpdateRPCs u (new_holder_ts ph) (new_holder_node ph) k (h_version ph) (mgr s)
          = Done (tt, mgr s') ∧
        solo t s s' ∧ phase s' t = Unlocking k (con ph ∅).
Proof.
  intros I Hcon Hp. apply (spread s t k ph con (map_to_list u)); try done.
  - by rewrite list_to_map_to_list.
  - apply NoDup_fst_map_to_list.
Qed.

(** A waiter that left the queue without being reserved waits no more. *)
Lemma dropped s t k w :
  lw_inv s → phase s t = Unlocking k Frozen →
  (∀ q, queue s k (home t) = Some q → w ∉ (waiters q).*1) → view s k w ≠ VWait.
Proof.
  intros I Hp Hq Hw. destruct (ki_wait _ _ (li_key _ I k) _ Hw) as (r & _ & Hok).
  destruct (frozen_waiter s t k I Hp w r Hw Hok) as (_ & _ & _ & _ & _ & q & Hq' & Hin & _).
  by destruct (Hq _ Hq').
Qed.

Lemma solo_view t s s' k w : solo t s s' → w ≠ t → view s' k w = view s k w.
Proof. intros (_ & _ & E) ?. unfold view. by rewrite E. Qed.

Lemma solo_waits_for t s s' k :
  solo t s s' → (∀ k', phase s t ≠ Waiting k') → (∀ k', phase s' t ≠ Waiting k') →
  ∀ w, waits_for k (phase s' w) = waits_for k (phase s w).
Proof.
  intros (_ & _ & E) H1 H2 w. destruct (decide (w = t)) as [->|]; [|by rewrite E].
  assert (∀ p, (∀ k', p ≠ Waiting k') → waits_for k p = false) as F.
  { intros [| | | |k'| | |] Hn; try done. by destruct (Hn k'). }
  by rewrite !F.
Qed.

Lemma at_node_run {A} n (m : M Manager A) N a N' :
  at_node n m N = Done (a, N') → ∃ t, m (N n) = Done (a, t) ∧ N' = <[n := t]> N.
Proof. unfold at_node, zoom. destruct (m (N n)) as [[b t]| |]; naive_solver. Qed.

(** [take_head] as a step, with what it takes off the queue. *)
Lemma head_run s t k :
  lw_inv s → phase s t = Unlocking k Frozen →
  (∀ q, local_queues (mgr s (home t)) !! k = Some q → version q + 1 < 2 ^ 64) →
  ∃ h s', at_node (home t) (take_head k t (home t)) (mgr s) = Done (h, mgr s') ∧
    solo t s s' ∧ phase s' t = Unlocking k (after_head k t h) ∧
    match h with
    | NoWaiter => match queue s k (home t) with Some q => waiters q = [] | None => True end
    | HeadGone => ∃ q ts rest, queue s k (home t) = Some q ∧ waiters q = (ts, home t) :: rest ∧
        queue s' k (home t) = Some (mkQueue rest t (version q + 1)) ∧ view s k ts ≠ VWait
    | HeadReserved ph _ => ∃ q rest, queue s k (home t) = Some q ∧
        waiters q = (new_holder_ts ph, new_holder_node ph) :: rest
    | HeadRemote ph => ∃ q, queue s k (home t) = Some q ∧
        waiters q = (new_holder_ts ph, new_holder_node ph) :: tail ph ∧
        queue s' k (home t) = Some (mkQueue (tail ph) t (version q + 1))
    end.
Proof.
  intros I Hp Hver.
  destruct (solo_call s t _ _ (λ h, Unlocking k (after_head k t h)) I (call_head s t k Hp Hver))
    as (h & s' & R & S & P).
  exists h, s'. split; [exact R|]. split; [exact S|]. split; [exact P|].
  destruct (at_node_run _ _ _ _ _ R) as (m' & Rm & Em).
  assert (queue s' k (home t) = local_queues m' !! k) as Hq'
    by (unfold queue; rewrite Em; by rewrite fn_lookup_insert).
  apply (wlp_run _ _ _ _ _ (take_head_spec k t (home t) (mgr s (home t)))) in Rm.
  assert (∀ q, queue s k (home t) = Some q → waiters q ≠ [] → u64 (version q + 1) = version q + 1) as Hu.
  { intros q Hq _. destruct (ki_queue _ _ (li_key _ I k) _ _ Hq) as (_ & _ & ? & _).
    specialize (Hver q Hq). apply u64_small. lia. }
  destruct h.
  - exact Rm.
  - destruct Rm as (q & ts & rest & Hq & Hw & Hq2). rewrite Hu in Hq2 by (try rewrite Hw; done).
    exists q, ts, rest. rewrite Hq'. split_and!; try done.
    assert (lw_inv s') as I' by (by eapply solo_inv).
    assert (ts ≠ t → view s' k ts ≠ VWait) as Hd.
    { intros _. apply (dropped s' t k ts I' P). intros q' E.
      assert (q' = mkQueue rest t (version q + 1)) as -> by congruence. simpl.
      destruct (ki_queue _ _ (li_key _ I k) _ _ Hq) as (_ & _ & _ & Hnd & _).
      rewrite Hw in Hnd. by apply NoDup_cons in Hnd as [? _]. }
    intros Hv. destruct (decide (ts = t)) as [->|Hne].
    + rewrite (view_phase _ _ _ _ Hp) in Hv. simpl in Hv. by case_decide.
    + by rewrite (solo_view _ _ _ _ _ S Hne) in Hd; apply Hd.
  - exact Rm.
  - destruct Rm as (q & Hq & Hw & Hq2). rewrite Hu in Hq2 by (try rewrite Hw; done).
    exists q. by rewrite Hq'.
Qed.

Lemma not_waiting s t k st : phase s t = Unlocking k st → ∀ k', phase s t ≠ Waiting k'.
Proof. congruence. Qed.

Lemma send_reserve_run ph N r N' :
  is_node (new_holder_node ph) = true → ask ph N = Done (r, N') →
  SendHandoffRemote ph false N =
  match r with
  | None => Done (false, N')
  | Some u => (SendHolderUpdateRPCs u (new_holder_ts ph) (new_holder_node ph) (h_key ph)
                 (h_version ph) ;; mret true) N'
  end.
Proof.
  intros Hn R. unfold SendHandoffRemote, TryAcceptHandoff. rewrite Hn.
  rewrite (run_bind (check 658 true) _ N tt N) by done. cbv beta. unfold ask in R.
  rewrite (run_bind _ _ _ _ _ R). by destruct r.
Qed.

(** The loop of [PrepareHandoff], as a run of the protocol. *)
Lemma handoff_loop_run fuel s t k :
  lw_inv s → phase s t = Unlocking k Frozen →
  (queue_length k (mgr s (home t)) < fuel)%nat →
  (∀ q, queue s k (home t) = Some q → version q + Z.of_nat (length (waiters q)) + 1 < 2 ^ 64) →
  ∃ ph s', handoff_loop fuel k t (home t) (mgr s) = Done (ph, mgr s') ∧ solo t s s' ∧
    phase s' t = Unlocking k (Prepared ph) ∧
    new_holder_ts ph = match queue s k (home t) with
                       | Some q => first_waiting (phase s) k (waiters q)
                       | None => 0
                       end.
Proof.
  revert s. induction fuel as [|fuel IH]; intros s I Hp Hlen Hver; [lia|].
  destruct (head_run s t k I Hp) as (h & s1 & R & S & P & Hh).
  { intros q Hq. specialize (Hver q Hq). lia. }
  assert (lw_inv s1) as I1 by (by eapply solo_inv).
  assert (∀ w, waits_for k (phase s1 w) = waits_for k (phase s w)) as Hwf
    by (by apply (solo_waits_for t); [done|eapply not_waiting|eapply not_waiting]).
  cbn [handoff_loop]. rewrite (run_bind _ _ _ _ _ R). destruct h as [| |ph u|ph]; simpl in P.
  - exists (unowned_handoff k t), s1. split_and!; try done. simpl.
    destruct (queue s k (home t)) as [q|]; [by rewrite Hh|done].
  - destruct Hh as (q & ts & rest & Hq & Hw & Hq1 & Hv).
    unfold queue_length in Hlen. unfold queue in Hq. rewrite Hq, Hw in Hlen. simpl in Hlen.
    specialize (Hver q Hq). rewrite Hw in Hver. simpl in Hver.
    destruct (IH s1 I1 P) as (ph & s2 & R2 & S2 & P2 & E2).
    { unfold queue_length. unfold queue in Hq1. rewrite Hq1. simpl. lia. }
    { rewrite Hq1. intros q' [= <-]. simpl. lia. }
    exists ph, s2. split_and!; [done|by eapply solo_trans|done|].
    rewrite E2, Hq1. unfold queue. rewrite Hq, Hw. simpl.
    destruct (waits_for k (phase s ts)) eqn:E; [by apply waits_for_view in E|].
    by apply first_waiting_ext.
  - destruct Hh as (q & rest & Hq & Hw). rewrite Hq, Hw. simpl.
    pose proof (ki_stage _ _ (li_key _ I1 k) t (Updating ph u) ltac:(by views)) as Hst.
    destruct Hst as (_ & _ & _ & [Hvn _] & _). apply waits_for_view in Hvn.
    rewrite Hwf in Hvn. rewrite Hvn.
    destruct (SendHolderUpdateRPCs_run s1 t k ph Updating u I1 ltac:(by right) P)
      as (s2 & R2 & S2 & P2).
    rewrite (run_bind _ _ _ _ _ R2).
    assert (lw_inv s2) as I2 by (by eapply solo_inv).
    destruct (solo_call s2 t _ _ (λ _, Unlocking k (Prepared ph)) I2 (call_updated s2 t k ph P2))
      as ([] & s3 & R3 & S3 & P3).
    exists ph, s3. split_and!; [|by eapply solo_trans, solo_trans|done|done].
    injection R3 as <-. done.
  - destruct Hh as (q & Hq & Hw & Hq1). rewrite Hq, Hw. simpl.
    destruct (asking_stage s1 t k ph I1 P) as (_ & Hnz & Hrem & _ & _).
    destruct (asking_handoff s1 t k ph I1 P) as (Hhk & Hsrc & _ & Hho).
    destruct (Hho Hnz) as (_ & Hnt & Hnode & _ & Hnd & _).
    destruct (solo_call s1 t _ _ (λ r, Unlocking k (match r with Some u => Adopted ph u | None => Frozen end))
      I1 (call_ask s1 t k ph (Asking ph) P ltac:(by left))) as (r & s2 & R2 & S2 & P2).
    assert (lw_inv s2) as I2 by (by eapply solo_inv).
    assert (∀ w, waits_for k (phase s2 w) = waits_for k (phase s1 w)) as Hwf2.
    { apply (solo_waits_for t); [done|by eapply not_waiting|by eapply not_waiting]. }
    pose proof (send_reserve_run ph _ _ _ ltac:(rewrite Hnode; apply home_is_node) R2) as Hsend.
    destruct r as [u|].
    + pose proof (ki_stage _ _ (li_key _ I2 k) t (Adopted ph u) ltac:(by views)) as Hst.
      destruct Hst as (_ & _ & _ & _ & _ & [Hvn _] & _). apply waits_for_view in Hvn.
      rewrite Hwf2, Hwf in Hvn. rewrite Hvn.
      destruct (SendHolderUpdateRPCs_run s2 t k ph Adopted u I2 ltac:(by left) P2)
        as (s3 & R3 & S3 & P3).
      assert (lw_inv s3) as I3 by (by eapply solo_inv).
      destruct (solo_call s3 t _ _ (λ _, Unlocking k (Prepared ph)) I3 (call_adopted s3 t k ph P3))
        as ([] & s4 & R4 & S4 & P4).
      exists ph, s4. split_and!; [|by eapply solo_trans, solo_trans, solo_trans|done|done].
      rewrite Hhk, (run_bind _ _ _ _ _ R3) in Hsend. rewrite (run_bind _ _ _ _ _ Hsend).
      by rewrite (run_bind _ _ _ _ _ R4).
    + rewrite (run_bind _ _ _ _ _ Hsend).
      assert (queue s2 k (home t) = Some (mkQueue (tail ph) t (version q + 1))) as Hq2.
      { unfold ask in R2. destruct (at_node_run _ _ _ _ _ R2) as (m2 & _ & Em). rewrite <- Hq1. unfold queue.
        rewrite Em, fn_lookup_insert_ne; [done|congruence]. }
      apply NoDup_cons in Hnd as [Hnew _].
      assert (view s2 k (new_holder_ts ph) ≠ VWait) as Hd.
      { apply (dropped s2 t k _ I2 P2). intros q' E. assert (q' = mkQueue (tail ph) t (version q + 1))
          as -> by congruence. done. }
      unfold queue_length in Hlen. unfold queue in Hq, Hq2. rewrite Hq, Hw in Hlen. simpl in Hlen.
      specialize (Hver q Hq). rewrite Hw in Hver. simpl in Hver.
      destruct (IH s2 I2 P2) as (ph' & s3 & R3 & S3 & P3 & E3).
      { unfold queue_length. rewrite Hq2. simpl. lia. }
      { unfold queue. rewrite Hq2. intros q' [= <-]. simpl. lia. }
      exists ph', s3. split_and!; [done|by eapply solo_trans, solo_trans|done|].
      rewrite E3. unfold queue. rewrite Hq2. simpl.
      destruct (waits_for k (phase s (new_holder_ts ph))) eqn:E.
      * rewrite <- Hwf, <- Hwf2 in E. by apply waits_for_view in E.
      * apply first_waiting_ext. intros w. by rewrite Hwf2, Hwf.
Qed.

(** [PrepareHandoff], as a run of the protocol. *)
Lemma PrepareHandoff_run s t k :
  lw_inv s → phase s t = Finishing → row s k = Some t →
  (∀ q, queue s k (home t) = Some q → version q + Z.of_nat (length (waiters q)) + 1 < 2 ^ 64) →
  ∃ ph s', PrepareHandoff k t (home t) (mgr s) = Done (ph, mgr s') ∧ solo t s s' ∧
    phase s' t = Unlocking k (Prepared ph) ∧
    new_holder_ts ph = match queue s k (home t) with
                       | Some q => first_waiting (phase s) k (waiters q)
                       | None => 0
                       end.
Proof.
  intros I Hp Hr Hver.
  destruct (solo_call s t _ _ (λ _, Unlocking k Frozen) I (call_freeze s t k Hp Hr))
    as ([] & s1 & R & S & P).
  assert (lw_inv s1) as I1 by (by eapply solo_inv).
  assert (queue s1 k (home t) = queue s k (home t)) as Hq.
  { destruct (at_node_run _ _ _ _ _ R) as (m' & Rm & Em). unfold queue.
    rewrite Em, fn_lookup_insert. unfold freeze, MarkForwardedLocked in Rm.
    unfold mbind, M_bind, gets, check, modify in Rm. case_bool_decide; [|done]. by simplify_eq/=. }
  destruct (handoff_loop_run (Datatypes.S (queue_length k (mgr s1 (home t)))) s1 t k I1 P)
    as (ph & s2 & R2 & S2 & P2 & E2); [lia|by rewrite Hq|].
  exists ph, s2. split_and!; [|by eapply solo_trans|done|].
  - unfold PrepareHandoff. rewrite (run_bind _ _ _ _ _ R). exact R2.
  - rewrite E2, Hq. destruct (queue s k (home t)); [|done]. apply first_waiting_ext.
    apply (solo_waits_for t); [done|congruence|congruence].
Qed.
End progress.

Lemma waiting_queue :
  local_queues (mgr (demo_state (waiting_run ++ [Finish 2])) (home 2)) !! demo_key =
  Some (mkQueue [(3, 1); (4, 0)] 2 0).
Proof. vm_compute. reflexivity. Qed.

(** ** Properties *)

(** C29: [PrepareHandoff] terminates: called by the owner of a row in any
    reachable state it returns without a failed check, whatever has become of
    the waiters; its run is an interleaving of the protocol; and the successor
    it has prepared is the first transaction of the queue that still waits for
    the row, or nobody when there is none. *)
Theorem prepare_handoff_terminates `{Placement} (s : Sys) t k :
  lw_reachable s → phase s t = Finishing → row s k = Some t →
  (∀ q, local_queues (mgr s (home t)) !! k = Some q →
        version q + Z.of_nat (length (waiters q)) + 1 < 2 ^ 64) →
  ∃ ph s', PrepareHandoff k t (home t) (mgr s) = Done (ph, mgr s') ∧ star lw_step s s' ∧
    phase s' t = Unlocking k (Prepared ph) ∧
    new_holder_ts ph = match local_queues (mgr s (home t)) !! k with
                       | Some q => first_waiting (phase s) k (waiters q)
                       | None => 0
                       end.
Proof.
  intros Hs Hp Hr Hver.
  destruct (PrepareHandoff_run s t k (lw_reachable_inv _ Hs) Hp Hr Hver)
    as (ph & s' & R & (S & _) & P & E). by exists ph, s'.
Qed.

Lemma prepare_handoff_terminates_witness :
  ∃ ph s', PrepareHandoff demo_key 2 (home 2) (mgr (demo_state (waiting_run ++ [Finish 2])))
      = Done (ph, mgr s') ∧
    star lw_step (demo_state (waiting_run ++ [Finish 2])) s' ∧
    phase s' 2 = Unlocking demo_key (Prepared ph) ∧
    new_holder_ts ph =
      match local_queues (mgr (demo_state (waiting_run ++ [Finish 2])) (home 2)) !! demo_key with
      | Some q => first_waiting (phase (demo_state (waiting_run ++ [Finish 2]))) demo_key (waiters q)
      | None => 0
      end.
Proof.
  apply prepare_handoff_terminates.
  - apply lw_demo_reachable. vm_compute. reflexivity.
  - vm_compute. reflexivity.
  - vm_compute. reflexivity.
  - intros q Hq. rewrite waiting_queue in Hq. injection Hq as <-. reflexivity.
Defined.

(** C21: unlocking a row hands it over: from any reachable state the calls of the
    owner alone lead to a state in which it is done with the row, and the row
    belongs to the first transaction of the queue that still waits, which has
    been granted; the row is free when nobody waits. *)
Theorem unlocking_hands_over `{Placement} (s : Sys) t k :
  lw_reachable s → phase s t = Finishing → row s k = Some t →
  (∀ q, local_queues (mgr s (home t)) !! k = Some q →
        version q + Z.of_nat (length (waiters q)) + 1 < 2 ^ 64) →
  ∃ s', star lw_step s s' ∧ phase s' t = Finishing ∧
    let w := match local_queues (mgr s (home t)) !! k with
             | Some q => first_waiting (phase s) k (waiters q)
             | None => 0
             end in
    if w =? 0 then row s' k = None
    else row s' k = Some w ∧ phase s' w = Waiting k ∧
         ∃ r, local_waiters (mgr s' (home w)) !! w = Some r ∧ w_flag r = GRANTED.
Proof.
  intros Hs Hp Hr Hver. pose proof (lw_reachable_inv _ Hs) as I.
  destruct (PrepareHandoff_run s t k I Hp Hr Hver) as (ph & s1 & _ & S1 & P1 & E).
  assert (lw_inv s1) as I1 by (by eapply solo_inv).
  assert (lw_step s1 (install t k ph s1)) as L2.
  { pose proof (lw_run s1 _ _ _ tt (mgr s1) (call_install s1 t k ph P1) eq_refl) as L.
    by rewrite set_mgr_same in L. }
  assert (star lw_step s (install t k ph s1)) as S2 by (eapply star_snoc; [apply S1|exact L2]).
  cbv zeta. unfold queue in E. rewrite <- E. unfold install in S2. case_match eqn:Ez.
  - eexists. split; [exact S2|]. split; [by rewrite phase_set, decide_True|].
    by rewrite row_phase, row_set, decide_True.
  - set (s2 := set_phase t (Unlocking k (Installed ph)) (set_row k (Some (new_holder_ts ph)) s1)) in *.
    assert (lw_inv s2) as I2 by (by apply row_installed_inv; [..|apply Z.eqb_neq]).
    assert (phase s2 t = Unlocking k (Installed ph)) as P2 by (unfold s2; by rewrite phase_set, decide_True).
    destruct (wp_inv _ _ _ (deliver_ok s2 t k ph I2 P2)) as ([] & N3 & R3 & _ & Hg).
    pose proof (lw_run s2 _ _ _ tt N3 (call_deliver s2 t k ph P2) R3) as L3. cbv beta in L3.
    destruct (deliver_stage s2 t k ph I2 P2) as (_ & Hrow & [Hv _]).
    destruct (deliver_handoff s2 t k ph I2 P2) as (_ & _ & _ & Hh).
    destruct (Hh ltac:(by apply Z.eqb_neq)) as (_ & Hnt & _).
    eexists. split; [eapply star_snoc; [exact S2|exact L3]|].
    set (s3 := log_delivery ph (set_phase t Finishing (set_mgr N3 s2))) in *.
    assert (phase s3 = phase (set_phase t Finishing s2)) as Eph by done.
    rewrite !Eph, !phase_set, decide_True, decide_False by done.
    split; [done|]. split; [exact Hrow|]. split; [|exact Hg].
    apply waits_for_view in Hv. destruct (phase s2 (new_holder_ts ph)); simpl in Hv; try done.
    apply bool_decide_eq_true in Hv. by subst.
Qed.

Lemma unlocking_hands_over_witness :
  ∃ s', star lw_step (demo_state (waiting_run ++ [Finish 2])) s' ∧ phase s' 2 = Finishing ∧
    row s' demo_key = Some 3.
Proof.
  destruct (unlocking_hands_over (demo_state (waiting_run ++ [Finish 2])) 2 demo_key)
    as (s' & Hs & Hp & Hw).
  - apply lw_demo_reachable. vm_compute. reflexivity.
  - vm_compute. reflexivity.
  - vm_compute. reflexivity.
  - intros q Hq. rewrite waiting_queue in Hq. injection Hq as <-. reflexivity.
  - exists s'. split; [exact Hs|]. split; [exact Hp|].
    assert (match local_queues (mgr (demo_state (waiting_run ++ [Finish 2])) (home 2)) !! demo_key with
      | Some q => first_waiting (phase (demo_state (waiting_run ++ [Finish 2]))) demo_key (waiters q)
      | None => 0
      end = 3) as E by (vm_compute; reflexivity).
    cbv zeta in Hw. rewrite E in Hw. exact (proj1 Hw).
Defined.
