(* ===== verification/LockWaitDeadlock.v ===== *)
(** Deadlock detection: what the walk along the waits-for edges answers on a
    snapshot of the nodes, and that a deadlock, once there, stays until one of
    its members gives up, so that a later walk still finds it. *)

From stdpp Require Import functions finite.
From S2P Require Import Prelude Common LockWait LockWaitProtocol LockWaitInv.
From S2P Require Import LockWaitSteps LockWaitHandoff LockWaitSafety.

(** ** The reference: following the edges [i] times *)

Section chain.
Context `{NodeCount}.
Variables (N : Nodes) (self_node : Z).

Definition edge (p : Z * Z) : option (Z * Z) := QueryHolderOnNode p.1 p.2 self_node N.

Fixpoint follow (i : nat) (p : Z * Z) : option (Z * Z) :=
  match i with
  | O => Some p
  | S i' => edge p ≫= follow i'
  end.

Lemma follow_add i j p : follow (i + j) p = follow i p ≫= follow j.
Proof. revert p. induction i as [|i IH]; intros p; [done|]. simpl. destruct (edge p); simpl; auto. Qed.

Lemma follow_snoc i p : follow (S i) p = follow i p ≫= edge.
Proof.
  replace (S i) with (i + 1)%nat by lia. rewrite follow_add. destruct (follow i p) as [q|]; [|done].
  simpl. by destruct (edge q).
Qed.

(** The chain from [p] comes to [ts]. *)
Definition comes_to (ts : Z) (p : Z * Z) : Prop := ∃ i n, follow i p = Some (ts, n).

Section walk.
Variables (my : Z) (start : Z * Z) (loc : Z → Z) (D : list Z) (expired : Z → bool).
(** A transaction is looked for on one node only; the ones that wait are in [D]; the
    budget lasts for as many hops. *)
Hypothesis Hloc : ∀ i p, follow i start = Some p →
  p.2 = loc p.1 ∧ (is_Some (edge p) → p.1 ≠ my → p.1 ∈ D).
Hypothesis Hbudget : ∀ i : nat, (i ≤ length D)%nat → expired (Z.of_nat i) = false.

(** What the loop knows at hop [i]: it has seen [vis], none of them [my]. *)
Definition seen (i : nat) (vis : list Z) : Prop :=
  NoDup vis ∧ length vis = i ∧ (my ∉ vis) ∧
  ∀ x, x ∈ vis ↔ ∃ j n, (j < i)%nat ∧ follow j start = Some (x, n).

Lemma seen_length i vis p : seen i vis → follow i start = Some p → (i ≤ length D)%nat.
Proof using Hloc.
  intros (Hnd & <- & Hmy & Hin) Hi. apply submseteq_length, NoDup_submseteq; [done|].
  intros x Hx. destruct (proj1 (Hin x) Hx) as (j & n & Hj & Hf).
  apply (proj2 (Hloc _ _ Hf)); [|intros E; apply Hmy; cbn in E; congruence].
  replace (length vis) with (S j + (length vis - S j))%nat in Hi by lia.
  rewrite follow_add, follow_snoc, Hf in Hi. simpl in Hi. destruct (edge (x, n)); [by eexists|done].
Qed.

(** A transaction met for the second time: the chain never comes to [my]. *)
Lemma seen_twice i vis x n :
  seen i vis → follow i start = Some (x, n) → x ∈ vis → ¬ comes_to my start.
Proof using Hloc.
  intros (_ & _ & Hmy & Hin) Hi Hx (l & nl & Hl).
  destruct (proj1 (Hin x) Hx) as (j & nj & Hji & Hj).
  assert (nj = n) as ->.
  { destruct (Hloc _ _ Hi) as [E _], (Hloc _ _ Hj) as [E' _]. simpl in *. congruence. }
  revert l nl Hl. induction l as [l IH] using (well_founded_induction lt_wf). intros nl Hl.
  destruct (decide (l < i)%nat) as [Hlt|Hge].
  - apply Hmy, Hin. eauto.
  - apply (IH (j + (l - i))%nat ltac:(lia) nl).
    rewrite follow_add, Hj. replace l with (i + (l - i))%nat in Hl by lia.
    by rewrite follow_add, Hi in Hl.
Qed.

Lemma chain_walk_spec hops i vis visited ts n :
  seen i vis → (∀ x, x ∈ visited ↔ x = my ∨ x ∈ vis) → follow i start = Some (ts, n) →
  (i + hops = 128)%nat → (length D ≤ 126)%nat → (i ≠ O → ts ≠ my) →
  ∃ b, chain_walk expired my self_node hops (Z.of_nat i) visited ts n N = Done (b, N) ∧
       (b = true ↔ comes_to my start).
Proof using Hloc Hbudget.
  revert i vis visited ts n. induction hops as [|hops IH];
    intros i vis visited ts n Hs Hvis Hi Hsum HD Hne; pose proof (seen_length _ _ _ Hs Hi) as Hle; [lia|].
  cbn [chain_walk]. rewrite Hbudget by done. unfold kMaxChainHops.
  destruct (Z.eqb_spec (Z.of_nat i) (128 - 1)); [lia|]. cbn [negb check].
  rewrite (run_bind (mret tt) _ _ tt N) by done. cbv beta.
  destruct (Z.eqb_spec ts my) as [->|Hmy].
  { exists true. split; [done|]. split; [|done]. intros _. by exists i, n. }
  case_bool_decide as Hin.
  { exists false. split; [done|]. split; [done|]. intros Hc. exfalso.
    apply Hvis in Hin as [?|Hin]; [done|]. by eapply seen_twice. }
  rewrite (run_bind (gets _) _ _ (edge (ts, n)) N) by done. cbv beta.
  assert (follow (S i) start = edge (ts, n)) as Hnext by (by rewrite follow_snoc, Hi).
  assert (∀ x, x ∈ ts :: vis ↔ ∃ j m, (j < S i)%nat ∧ follow j start = Some (x, m)) as Hin'.
  { destruct Hs as (_ & _ & _ & Hin'). intros x. rewrite elem_of_cons, Hin'. split.
    - intros [->|(j & m & ? & ?)]; [exists i, n|exists j, m]; split; (lia || done).
    - intros (j & m & Hj & Hf). destruct (decide (j = i)) as [->|]; [left; congruence|].
      right. exists j, m. split; [lia|done]. }
  destruct (edge (ts, n)) as [[next nn]|] eqn:He.
  - destruct (Z.eqb_spec next my) as [->|Hnm].
    { exists true. split; [done|]. split; [|done]. intros _. by exists (S i), nn. }
    cbv beta iota. replace (Z.of_nat i + 1) with (Z.of_nat (S i)) by lia.
    apply (IH (S i) (ts :: vis)); [| |exact Hnext|lia|exact HD|intros _; exact Hnm].
    2:{ intros x. rewrite elem_of_union, elem_of_singleton, Hvis, elem_of_cons. tauto. }
    destruct Hs as (Hnd & Hlen & Hmv & _). split_and!; [|simpl; lia| |done].
    2:{ intros [?|?]%elem_of_cons; [by destruct Hmy|done]. }
    apply NoDup_cons. split; [|done]. intros Hx. apply Hin, Hvis. by right.
  - exists false. split; [done|]. split; [done|]. intros (l & m & Hl). exfalso.
    destruct (decide (l < S i)%nat) as [Hlt|Hge].
    + assert (my ∈ ts :: vis) as [?|Hv]%elem_of_cons by (apply Hin'; eauto); [done|].
      by destruct Hs as (_ & _ & Hmv & _).
    + replace l with (S i + (l - S i))%nat in Hl by lia. by rewrite follow_add, Hnext in Hl.
Qed.

Lemma DetectDeadlock_spec :
  (length D ≤ 126)%nat →
  ∃ b, DetectDeadlockByChainWalk expired my self_node start.1 start.2 N = Done (b, N) ∧
       (b = true ↔ comes_to my start).
Proof using Hloc Hbudget.
  intros HD. apply (chain_walk_spec _ O [] {[my]}); [| | |done|exact HD|done].
  - split_and!; [apply NoDup_nil_2|done|by apply not_elem_of_nil|]. intros x. split.
    + intros Hx. by apply elem_of_nil in Hx.
    + intros (j & n & ? & _). lia.
  - intros x. rewrite elem_of_singleton, elem_of_nil. tauto.
  - by destruct start.
Qed.
End walk.

(** Whatever the budget, an answer [true] is a cycle. *)
Lemma chain_walk_sound expired my start hops i hop visited ts n N' :
  follow i start = Some (ts, n) →
  chain_walk expired my self_node hops hop visited ts n N = Done (true, N') → comes_to my start.
Proof.
  revert i hop visited ts n. induction hops as [|hops IH]; intros i hop visited ts n Hi; [done|].
  cbn [chain_walk]. destruct (expired hop); [done|].
  unfold check. destruct (negb _); [|done].
  rewrite (run_bind (mret tt) _ _ tt N) by done. cbv beta.
  destruct (Z.eqb_spec ts my) as [->|Hmy]; [by exists i, n|].
  case_bool_decide; [done|]. rewrite (run_bind (gets _) _ _ (edge (ts, n)) N) by done. cbv beta.
  destruct (edge (ts, n)) as [[next nn]|] eqn:He; [|done].
  assert (follow (S i) start = Some (next, nn)) as Hnext by (by rewrite follow_snoc, Hi).
  destruct (Z.eqb_spec next my) as [->|]; [by exists (S i), nn|]. by eapply (IH (S i)).
Qed.
End chain.

(** ** Waits on other rows are left alone *)

Definition keeps_waits (k : TupleWaitKey) (m m' : Manager) : Prop :=
  ∀ w r, local_waiters m !! w = Some r → w_flag r = WAITING → w_key_set r = true →
         w_key r ≠ k → local_waiters m' !! w = Some r.

Lemma keeps_waits_same k m m' : local_waiters m' = local_waiters m → keeps_waits k m m'.
Proof. intros E w r. by rewrite E. Qed.

Lemma refresh_other ts n k v r : w_key_set r = true → w_key r ≠ k → refresh_holder ts n k v r = r.
Proof.
  intros Hks Hk. unfold refresh_holder. case_match; [done|].
  by rewrite Hks, bool_decide_false.
Qed.

Lemma reserve_key r k src v r' :
  ReserveWaiterLocked r k src v = Some r' → w_key_set r = true → w_key r = k.
Proof.
  unfold ReserveWaiterLocked. case_match; [done|]. intros E Hks. rewrite Hks in E.
  destruct (decide (w_key r = k)) as [|Hk]; [done|].
  by rewrite (bool_decide_false _ Hk) in E.
Qed.

Lemma update_tail_keeps l ts n self k v u m :
  wp (UpdateTailHolderLocked l ts n self k v u) (λ _ m', keeps_waits k m m') m.
Proof.
  eapply wp_mono; [apply UpdateTailHolderLocked_spec|]. intros u' m' (_ & Hout & Hin & _) w r Hr Hf Hks Hk.
  destruct (decide ((w, self) ∈ l)); [|by rewrite Hout].
  rewrite Hin, Hr by done. simpl. by rewrite refresh_other.
Qed.

Lemma update_keeps l ts n k v m :
  wlp (OnUpdateWaiterHolder l ts n k v) (λ _ m', keeps_waits k m m') m.
Proof.
  eapply wp_wlp, wp_mono; [apply OnUpdateWaiterHolder_spec|]. intros _ m' (_ & Hout & Hin) w r Hr Hf Hks Hk.
  destruct (decide (w ∈ l)); [|by rewrite Hout].
  rewrite Hin, Hr by done. simpl. by rewrite refresh_other.
Qed.

Lemma take_head_keeps k t self m : wlp (take_head k t self) (λ _ m', keeps_waits k m m') m.
Proof.
  unfold take_head, erase_queue. do 2 wlp_step.
  destruct (local_queues m !! k) as [q|] eqn:Hq; [|wlp_step; by apply keeps_waits_same].
  do 2 wlp_step. destruct (waiters q) as [|[ts node] rest] eqn:Hw; [do 5 wlp_step; by apply keeps_waits_same|].
  do 2 wlp_step. wlp_step; [|wlp_step; by apply keeps_waits_same]. do 2 wlp_step. simpl.
  destruct (local_waiters m !! ts) as [st|] eqn:Hts; simpl; [|wlp_step; by apply keeps_waits_same].
  destruct (ReserveWaiterLocked _ _ _ _) as [st'|] eqn:Hres; [|wlp_step; by apply keeps_waits_same].
  do 9 wlp_step. eapply wp_wlp, wp_mono; [apply update_tail_keeps|]. simpl.
  intros u m' Hk. wlp_step. intros w r Hr Hf Hks Hne. apply Hk; try done. simpl.
  rewrite lookup_insert_ne; [done|]. intros ->. destruct Hne.
  assert (st = r) as -> by congruence. by eapply reserve_key.
Qed.

Lemma accept_keeps k ts v l self src m :
  wlp (accept_handoff k ts v l self src) (λ _ m', keeps_waits k m m') m.
Proof.
  unfold accept_handoff. do 2 wlp_step. destruct (local_waiters m !! ts) as [st|] eqn:Hts; [|wlp_step; by apply keeps_waits_same].
  wlp_step.
  - wlp_step; [wlp_step; by apply keeps_waits_same|]. wlp_step; [wlp_step; by apply keeps_waits_same|]. wlp_step.
    eapply wp_wlp, wp_mono; [apply update_tail_keeps|]. intros u m' Hk. by wlp_step.
  - destruct (ReserveWaiterLocked _ _ _ _) as [st'|] eqn:Hres; [|wlp_step; by apply keeps_waits_same].
    do 6 wlp_step. do 5 wlp_step. eapply wp_wlp, wp_mono; [apply update_tail_keeps|]. simpl.
    intros u m' Hk. wlp_step. intros w r Hr Hf Hks Hne. apply Hk; try done. simpl.
    rewrite lookup_insert_ne; [done|]. intros ->. destruct Hne.
    assert (st = r) as -> by congruence. by eapply reserve_key.
Qed.

(** A publication touches no record that is neither reserved nor granted. *)
Lemma publish_keeps k ts src v m :
  wlp (PublishHandoff k ts src v) (λ _ m', ∀ w r,
    local_waiters m !! w = Some r → w_flag r = WAITING → local_waiters m' !! w = Some r) m.
Proof.
  unfold PublishHandoff. do 2 wlp_step. destruct (local_waiters m !! ts) as [st|] eqn:Hts; [|by wlp_step].
  wlp_step; [by wlp_step|]. wlp_step; [by wlp_step|]. do 4 wlp_step. bool_simpl.
  intros w r Hr Hf. simpl. rewrite lookup_insert_ne; [done|]. intros ->. congruence.
Qed.

Lemma register_keeps k h w n m :
  wlp (OnRegisterTupleWait k h w n) (λ _ m', local_waiters m' = local_waiters m) m.
Proof.
  unfold OnRegisterTupleWait, enqueue_waiter. do 2 wlp_step. wlp_step; [by wlp_step|].
  do 2 wlp_step. wlp_step; [by wlp_step|]. do 2 wlp_step.
  destruct (local_queues m !! k) as [q|]; [wlp_step; [by wlp_step|wlp_step; [by wlp_step|]]|];
    do 3 wlp_step; wlp_step; [wlp_step| |wlp_step|]; by do 3 wlp_step.
Qed.

Lemma uncontended_keeps k t m :
  wlp (PrepareUncontendedUnlock k t) (λ _ m', local_waiters m' = local_waiters m) m.
Proof.
  unfold PrepareUncontendedUnlock, erase_queue, MarkForwardedLocked. do 2 wlp_step.
  destruct (local_queues m !! k) as [q|]; [|by do 7 wlp_step].
  do 2 wlp_step. wlp_step; [by wlp_step|]. by do 11 wlp_step.
Qed.

(** ** Deadlocks *)

Section deadlock.
Context `{Placement}.
Implicit Types s : Sys.

(** Every member waits, and for a member. *)
Definition deadlocked s (D : list Z) : Prop :=
  ∀ w, w ∈ D → ∃ k h n, phase s w = Waiting k ∧
    QueryWaiterHolder w (mgr s (home w)) = Some (h, n) ∧ h ∈ D.

Section persists.
Variables (s : Sys) (D : list Z).
Hypothesis I : lw_inv s.
Hypothesis HD : deadlocked s D.

Lemma member w : w ∈ D → ∃ k r, phase s w = Waiting k ∧ rec s w = Some r ∧
  w_flag r = WAITING ∧ w_key_set r = true ∧ w_key r = k ∧ w_holder_ts r ∈ D ∧
  (∀ t st, view s k t ≠ VUnl st).
Proof using All.
  intros Hw. destruct (HD w Hw) as (k & h & n & Hp & Hq & Hh). pose proof (li_key _ I k) as Ik.
  assert (view s k w = VWait) as Hv by (by views).
  destruct (ki_wait _ _ Ik _ Hv) as (r & Hr & Hk & Hks & Hc). exists k, r.
  unfold QueryWaiterHolder in Hq. change (local_waiters (mgr s (home w)) !! w) with (rec s w) in Hq.
  rewrite Hr in Hq. destruct (w_flag r) eqn:Hf; [|done|done]. simpl in Hq.
  injection Hq as Hq1 Hq2. subst h n. split_and!; try done.
  destruct (HD _ Hh) as (k' & h' & n' & Hp' & Hq' & _).
  assert (∀ t ph, new_holder_ts ph = w_holder_ts r → reserved_for s k t ph → False) as Hnr.
  { intros t ph E [_ (r' & Hr' & Hf' & _)]. unfold QueryWaiterHolder in Hq'.
    rewrite <- E in Hq'. unfold rec in Hr'. rewrite Hr', Hf' in Hq'. done. }
  intros t st Hvt. pose proof (ki_stage _ _ Ik _ _ Hvt) as Hst.
  destruct Hc as (_ & t0 & Ht0 & Hqd).
  assert (view s k (w_holder_ts r) ≠ VUnl st) as Hne.
  { rewrite (view_phase _ _ _ _ Hp'). simpl. by case_decide. }
  destruct (stage_row _ _ _ _ Hst) as [Hr0|(ph & -> & Hr0 & Hres)].
  - assert (t0 = t) as -> by congruence. rewrite Hvt in Hqd.
    destruct st as [|ph|ph u|ph u|ph|ph]; simpl in Hst; try done.
    + destruct Hqd as (q & _ & _ & _ & E & _). congruence.
    + destruct Hqd as (_ & E & _). congruence.
    + destruct Hqd as [_ [[E _]|[[E _] _]]]; [|congruence]. by eapply Hnr; [symmetry; exact E|apply Hst].
    + destruct Hqd as [_ [[E _]|[[E _] _]]]; [|congruence]. by eapply Hnr; [symmetry; exact E|apply Hst].
    + destruct Hqd as (Hnz & _ & [E _]). rewrite (proj2 (Z.eqb_neq _ _) Hnz) in Hst.
      by eapply Hnr; [symmetry; exact E|apply Hst].
  - assert (t0 = new_holder_ts ph) as -> by congruence. destruct Hres as [Hvn Hres].
    rewrite Hvn in Hqd. destruct Hqd as (q & _ & _ & _ & E & _).
    by eapply (Hnr t ph); [symmetry; exact E|].
Qed.

Lemma kept s' :
  (∀ w, w ∈ D → phase s' w = phase s w ∧ rec s' w = rec s w) → deadlocked s' D.
Proof using HD.
  intros Hk w Hw. destruct (HD w Hw) as (k & h & n & Hp & Hq & Hh). destruct (Hk w Hw) as [Ep Er].
  exists k, h, n. rewrite Ep. split_and!; try done. unfold QueryWaiterHolder in *.
  unfold rec in Er. by rewrite Er.
Qed.

(** A call at node [n] that leaves the waits of the members alone. *)
Lemma kept_rec {A} n (m : M Manager A) a N' :
  at_node n m (mgr s) = Done (a, N') →
  wlp m (λ _ m', ∀ w r, w ∈ D → home w = n → rec s w = Some r →
                        local_waiters m' !! w = Some r) (mgr s n) →
  ∀ w, w ∈ D → local_waiters (N' (home w)) !! w = rec s w.
Proof using I HD.
  intros Hrun Hm w Hw. unfold at_node, zoom in Hrun. unfold wlp in Hm.
  destruct (m (mgr s n)) as [[b m']| |]; try done. injection Hrun as _ <-.
  destruct (decide (home w = n)) as [E|E].
  - rewrite <- E, fn_lookup_insert. destruct (member w Hw) as (k & r & _ & Hr & _).
    rewrite Hr. by apply Hm.
  - by rewrite fn_lookup_insert_ne by congruence.
Qed.

Lemma kept_same {A} n (m : M Manager A) a N' :
  at_node n m (mgr s) = Done (a, N') →
  wlp m (λ _ m', local_waiters m' = local_waiters (mgr s n)) (mgr s n) →
  ∀ w, w ∈ D → local_waiters (N' (home w)) !! w = rec s w.
Proof using I HD.
  intros Hrun Hm. eapply kept_rec; [exact Hrun|]. eapply wlp_mono; [exact Hm|].
  intros _ m' -> w r Hw <- Hr. exact Hr.
Qed.

Lemma kept_other {A} n (m : M Manager A) a N' k :
  at_node n m (mgr s) = Done (a, N') →
  wlp m (λ _ m', keeps_waits k (mgr s n) m') (mgr s n) →
  (∀ w, w ∈ D → phase s w ≠ Waiting k) →
  ∀ w, w ∈ D → local_waiters (N' (home w)) !! w = rec s w.
Proof using I HD.
  intros Hrun Hm Hn. eapply kept_rec; [exact Hrun|]. eapply wlp_mono; [exact Hm|].
  intros _ m' Hk w r Hw <- Hr. destruct (member w Hw) as (kw & r' & Hp & Hr' & Hf & Hks & Hkr & _).
  assert (r' = r) as -> by congruence. apply Hk; try done. intros E. apply (Hn w Hw). congruence.
Qed.

Lemma kept_publish n k ts src v a N' :
  at_node n (PublishHandoff k ts src v) (mgr s) = Done (a, N') →
  ∀ w, w ∈ D → local_waiters (N' (home w)) !! w = rec s w.
Proof using I HD.
  intros Hrun. eapply kept_rec; [exact Hrun|]. eapply wlp_mono; [apply publish_keeps|].
  intros _ m' Hk w r Hw <- Hr. destruct (member w Hw) as (kw & r' & Hp & Hr' & Hf & _).
  assert (r' = r) as -> by congruence. by apply Hk.
Qed.

Abbreviation all_kept := (λ N' : Nodes, ∀ w, w ∈ D → local_waiters (N' (home w)) !! w = rec s w).

Lemma kept_at n k ts src v :
  wlp (at_node n (PublishHandoff k ts src v)) (λ _ N', all_kept N') (mgr s).
Proof using I HD.
  unfold wlp. destruct (at_node _ _ _) as [[b N']| |] eqn:E; [|done|done]. by eapply kept_publish.
Qed.

Lemma kept_send ph : wlp (SendHandoffRemote ph true) (λ _ N', all_kept N') (mgr s).
Proof using I HD. unfold SendHandoffRemote. do 2 wlp_step. apply kept_at. Qed.

Lemma kept_deliver ph n : wlp (DeliverHandoff ph n) (λ _ N', all_kept N') (mgr s).
Proof using I HD.
  unfold DeliverHandoff. do 2 wlp_step. wlp_step; [by wlp_step|]. wlp_step; wlp_step.
  - eapply wlp_mono; [apply kept_at|]. intros b N' Hk. by wlp_step.
  - eapply wlp_mono; [apply kept_send|]. intros b N' Hk. by wlp_step.
Qed.

(** Nobody unlocks a row a member waits for. *)
Lemma unlocking_elsewhere t k st : phase s t = Unlocking k st → ∀ w, w ∈ D → phase s w ≠ Waiting k.
Proof using I HD.
  intros Hp w Hw Hpw. destruct (member w Hw) as (kw & r & Hp' & _ & _ & _ & _ & _ & Hn).
  assert (kw = k) as -> by congruence. apply (Hn t st). by views.
Qed.

Lemma not_member t : (∀ k, phase s t ≠ Waiting k) → t ∉ D.
Proof using HD. intros Hn Hin. destruct (HD t Hin) as (k & _ & _ & Hp & _). by apply (Hn k). Qed.

Lemma others_phase t p : t ∉ D → ∀ w, w ∈ D → phase (set_phase t p s) w = phase s w.
Proof using. intros Ht w Hw. rewrite phase_set, decide_False; [done|]. by intros ->. Qed.
End persists.

Lemma deadlock_kept s D A (m : M Nodes A) f a N' :
  lw_inv s → deadlocked s D → lw_call s A m f → m (mgr s) = Done (a, N') →
  deadlocked (f a (set_mgr N' s)) D ∨ ∃ w, w ∈ D ∧ phase (f a (set_mgr N' s)) w = Finishing.
Proof.
  intros I HD Hc Hrun.
  assert (∀ t p, phase s t = p → (∀ k, p ≠ Waiting k) → t ∉ D) as Hnm.
  { intros t p <- Hn. by eapply not_member. }
  assert (∀ t p, t ∉ D → (∀ w, w ∈ D → local_waiters (N' (home w)) !! w = rec s w) →
    deadlocked (set_phase t p (set_mgr N' s)) D) as Hkeep.
  { intros t p Ht Hk. eapply kept; [exact HD|]. intros w Hw. split; [change (phase (set_phase t p s) w = phase s w); by apply (others_phase s D)|].
    by apply Hk. }
  destruct Hc as [t Hp _|t k Hp _|w0 k h Hp _ _|w0 k h Hp|w0 k Hp|w0 k due cycle Hp|w0 k ex h n Hp Hfew|t Hp|t k Hp _
    |t k Hp _|t k Hp _|t k ph st Hp Hst|t k ph u n l Hp _|t k ph u n l Hp _|t k ph Hp|t k ph Hp
    |t k ph Hp|t k ph Hp|ph Hph|t Hp _].
  - left. apply Hkeep; [by eapply Hnm|]. eapply (kept_same s D I HD); [exact Hrun|done].
  - left. injection Hrun as _ <-. rewrite set_mgr_same. eapply kept; [exact HD|]. done.
  - left. apply Hkeep; [by eapply Hnm|]. unfold wait_enter, check in Hrun. rewrite !home_is_node in Hrun.
    eapply (kept_rec s D I HD); [exact Hrun|]. unfold wait_begin, RegisterLocalWaiter. do 5 wlp_step. simpl. intros w r Hw <- Hr.
    rewrite lookup_insert_ne; [done|]. intros <-. by eapply Hnm.
  - left. apply Hkeep; [by eapply Hnm|]. eapply (kept_same s D I HD); [exact Hrun|].
    apply register_keeps.
  - left. apply Hkeep; [by eapply Hnm|]. eapply (kept_rec s D I HD); [exact Hrun|].
    unfold wait_registered, TryUnregisterLocalWaiter. do 3 wlp_step.
    destruct (local_waiters _ !! w0) as [r0|]; [|done]. wlp_step.
    + do 2 wlp_step. by intros w r Hw <- Hr.
    + do 4 wlp_step. simpl. intros w r Hw <- Hr. rewrite lookup_delete_ne; [done|].
      intros <-. by eapply Hnm.
  - destruct (decide (w0 ∈ D)) as [Hin|Hin].
    + destruct (member s D I HD w0 Hin) as (k' & r & _ & Hr & Hf & _).
      unfold at_node, zoom, wait_round, TryUnregisterLocalWaiter, mbind, M_bind, gets, modify in Hrun.
      unfold rec in Hr. rewrite Hr, Hf in Hrun. destruct (due && cycle); simpl in Hrun.
      * rewrite Hr, Hf in Hrun. simpl in Hrun. injection Hrun as <- <-. right. exists w0.
        split; [done|]. cbn [after_round]. by rewrite phase_set, decide_True.
      * rewrite orb_true_r in Hrun. simpl in Hrun. injection Hrun as <- <-. left. simpl. eapply kept; [exact HD|]. intros w Hw.
        split; [done|]. by apply (rec_put_same (home w0) (mgr s (home w0)) s).
    + left. assert (∀ w, w ∈ D → local_waiters (N' (home w)) !! w = rec s w) as Hk.
      { eapply (kept_rec s D I HD); [exact Hrun|].
        unfold wait_round, UnregisterLocalWaiter, TryUnregisterLocalWaiter. do 2 wlp_step.
        destruct (local_waiters (mgr s (home w0)) !! w0) as [r0|] eqn:Hr0; [|wlp_step; by intros w r Hw <- Hr].
        assert (∀ w r, w ∈ D → home w = home w0 → rec s w = Some r →
          delete w0 (local_waiters (mgr s (home w0))) !! w = Some r) as Hdel.
        { intros w r Hw <- Hr. rewrite lookup_delete_ne; [done|]. by intros ->. }
        assert (∀ w r, w ∈ D → home w = home w0 → rec s w = Some r →
          local_waiters (mgr s (home w0)) !! w = Some r) as Hid by (by intros w r Hw <- Hr).
        destruct (w_flag r0) eqn:Hf.
        - wlp_step; [|by do 3 wlp_step]. do 3 wlp_step. rewrite Hr0, Hf. simpl. by do 4 wlp_step.
        - do 4 wlp_step. rewrite Hr0, Hf. simpl. by do 5 wlp_step.
        - by do 3 wlp_step. }
      unfold after_round. destruct a as [[]|]; try (by apply Hkeep).
      eapply kept; [exact HD|]. intros w Hw. split; [done|]. by apply Hk.
  - left. pose proof (wp_run _ _ _ _ _ (wait_detect_returns ex w0 (home w0) h n (mgr s) Hfew) Hrun) as Hsame.
    cbv beta in Hsame. rewrite Hsame. by rewrite set_mgr_same.
  - left. injection Hrun as _ <-. apply Hkeep; [by eapply Hnm|done].
  - left. assert (∀ w, w ∈ D → local_waiters (N' (home w)) !! w = rec s w) as Hk.
    { eapply (kept_same s D I HD); [exact Hrun|]. apply uncontended_keeps. }
    destruct a as [ph|]; (eapply kept; [exact HD|]; intros w Hw; split; [done|by apply Hk]).
  - left. apply Hkeep; [by eapply Hnm|]. eapply (kept_same s D I HD); [exact Hrun|].
    unfold freeze, MarkForwardedLocked. by do 4 wlp_step.
  - left. apply Hkeep; [by eapply Hnm|]. eapply (kept_other s D I HD); [exact Hrun|apply take_head_keeps|].
    by eapply unlocking_elsewhere.
  - left. apply Hkeep; [by eapply Hnm|]. eapply (kept_other s D I HD); [exact Hrun|apply accept_keeps|].
    assert (h_key ph = k) as ->; [|by eapply unlocking_elsewhere].
    assert (handing st = Some ph) as Hh by (by destruct Hst as [->|[u ->]]).
    apply (ki_handoff _ _ (li_key _ I k) t st ph); [by views|done].
  - left. apply Hkeep; [by eapply Hnm|]. unfold send_update, check in Hrun.
    destruct (is_node (new_holder_node ph)); [|done]. destruct (is_node n); [|done].
    eapply (kept_other s D I HD); [exact Hrun|apply update_keeps|]. by eapply unlocking_elsewhere.
  - left. apply Hkeep; [by eapply Hnm|]. unfold send_update, check in Hrun.
    destruct (is_node (new_holder_node ph)); [|done]. destruct (is_node n); [|done].
    eapply (kept_other s D I HD); [exact Hrun|apply update_keeps|]. by eapply unlocking_elsewhere.
  - left. apply Hkeep; [by eapply Hnm|]. eapply (kept_same s D I HD); [exact Hrun|].
    unfold hand_queue_over, erase_queue. by do 6 wlp_step.
  - left. injection Hrun as _ <-. apply Hkeep; [by eapply Hnm|done].
  - left. injection Hrun as _ <-. rewrite set_mgr_same. eapply kept; [exact HD|]. intros w Hw.
    assert (w ≠ t) as Hne by (intros ->; by eapply Hnm).
    unfold install. case_match; (split; [rewrite phase_set, decide_False by done; done|done]).
  - left. assert (t ∉ D) as Ht by (by eapply Hnm).
    assert (∀ w, w ∈ D → local_waiters (N' (home w)) !! w = rec s w) as Hk.
    { refine (wlp_run _ _ _ _ _ (kept_deliver s D I HD ph (home t)) Hrun). }
    eapply kept; [exact HD|]. intros w Hw. split; [|by apply Hk].
    change (phase (set_phase t Finishing s) w = phase s w). by apply (others_phase s D).
  - left. eapply kept; [exact HD|]. intros w Hw. split; [done|].
    by apply (wlp_run _ _ _ _ _ (kept_send s D I HD ph) Hrun).
  - left. apply Hkeep; [by eapply Hnm|]. eapply (kept_same s D I HD); [exact Hrun|].
    unfold FinishTx. by do 9 wlp_step.
Qed.

(** Whom a transaction waits for is recorded with its node. *)
Lemma waiting_home s w r :
  lw_inv s → rec s w = Some r → w_flag r = WAITING → w_holder_node r = home (w_holder_ts r).
Proof.
  intros I Hr Hf. pose proof (li_rec _ I _ _ Hr) as Hw.
  destruct (phase s w) as [| |k h|k|k| | |] eqn:Hp; try done.
  - assert (view s k w = VReg h) as Hv by (by views).
    destruct (ki_reg _ _ (li_key _ I k) _ _ Hv) as (_ & _ & Hr' & _). rewrite Hr in Hr'. by injection Hr' as ->.
  - assert (view s k w = VRej) as Hv by (by views).
    destruct (ki_rej _ _ (li_key _ I k) _ Hv) as (r' & Hr' & _ & _ & _ & _ & Hh). congruence.
  - assert (view s k w = VWait) as Hv by (by views).
    destruct (ki_wait _ _ (li_key _ I k) _ Hv) as (r' & Hr' & _ & _ & Hc). simplify_eq. rewrite Hf in Hc.
    destruct Hc as (_ & t & _ & Hc).
    assert (∀ v, on_owner r t v → w_holder_node r = home (w_holder_ts r)) as Ho by (by intros v (-> & -> & _)).
    assert (∀ ph, moved r ph → w_holder_node r = home (w_holder_ts r)) as Hm by (by intros ph (-> & -> & _)).
    destruct (view s k t) as [| | | | | |st|]; [..|destruct st|]; naive_solver.
Qed.

(** The edges of the waits-for graph lead to the nodes of the transactions. *)
Lemma edge_home s self w h n :
  lw_inv s → edge (mgr s) self (w, home w) = Some (h, n) → n = home h ∧
    QueryWaiterHolder w (mgr s (home w)) = Some (h, n).
Proof.
  intros I He.
  assert (QueryWaiterHolder w (mgr s (home w)) = Some (h, n)) as Hq.
  { unfold edge, QueryHolderOnNode in He. simpl in He. destruct (Z.eqb_spec (home w) self) as [<-|]; [done|].
    by rewrite home_is_node in He. }
  split; [|done]. unfold QueryWaiterHolder in Hq. change (local_waiters (mgr s (home w)) !! w) with (rec s w) in Hq.
  destruct (rec s w) as [r|] eqn:Hr; [|done]. case_bool_decide as Hf; [|done].
  pose proof (waiting_home s w r I Hr Hf). by injection Hq as <- <-.
Qed.

(** The edge of a member, as the walk reads it. *)
Lemma member_edge s D w self :
  lw_inv s → deadlocked s D → w ∈ D →
  ∃ h, edge (mgr s) self (w, home w) = Some (h, home h) ∧ h ∈ D.
Proof.
  intros I HD Hw. destruct (HD w Hw) as (k & h & n & Hp & Hq & Hh). exists h. split; [|done].
  assert (edge (mgr s) self (w, home w) = Some (h, n)) as He.
  { unfold edge, QueryHolderOnNode. simpl. destruct (Z.eqb_spec (home w) self) as [<-|]; [done|]. by rewrite home_is_node. }
  destruct (edge_home s self w h n I He) as [-> _]. exact He.
Qed.

Lemma follow_member s D w self i :
  lw_inv s → deadlocked s D → w ∈ D →
  ∃ x, follow (mgr s) self i (w, home w) = Some (x, home x) ∧ x ∈ D.
Proof.
  intros I HD. revert w. induction i as [|i IH]; intros w Hw; [by exists w|].
  destruct (member_edge s D w self I HD Hw) as (h & He & Hh). simpl. rewrite He. simpl. by apply IH.
Qed.

(** From a member the walk reads the same edges on every node. *)
Lemma follow_self s D w self self' i :
  lw_inv s → deadlocked s D → w ∈ D →
  follow (mgr s) self i (w, home w) = follow (mgr s) self' i (w, home w).
Proof.
  intros I HD. revert w. induction i as [|i IH]; intros w Hw; [done|].
  destruct (member_edge s D w self I HD Hw) as (h & He & Hh).
  destruct (member_edge s D w self' I HD Hw) as (h' & He' & _). simpl. rewrite He, He'. simpl.
  assert (h' = h) as ->; [|by apply IH].
  unfold edge, QueryHolderOnNode in He, He'. simpl in *. rewrite home_is_node in *.
  simpl in *. destruct (Z.eqb_spec (home w) self) as [<-|], (Z.eqb_spec (home w) self') as [<-|]; congruence.
Qed.

(** Somebody of a deadlock waits for itself. *)
Lemma cycle_member s D :
  lw_inv s → deadlocked s D → D ≠ [] →
  ∃ x h, x ∈ D ∧ h ∈ D ∧ QueryWaiterHolder x (mgr s (home x)) = Some (h, home h) ∧
         comes_to (mgr s) (home x) x (h, home h).
Proof.
  intros I HD Hne. destruct D as [|w0 D0] eqn:ED; [done|]. rewrite <- ED in *.
  assert (w0 ∈ D) as Hw0 by (rewrite ED; by left).
  set (f i := default 0 (fst <$> follow (mgr s) 0 i (w0, home w0))).
  assert (∀ i, follow (mgr s) 0 i (w0, home w0) = Some (f i, home (f i)) ∧ f i ∈ D) as Hf.
  { intros i. destruct (follow_member s D w0 0 i I HD Hw0) as (x & Hx & Hin).
    unfold f. rewrite Hx. done. }
  destruct (list_pigeonhole (f <$> seq 0 (S (length D))) D) as (i & j & x & Hij & Hi & Hj).
  { intros x (i & -> & _)%list_elem_of_fmap. apply Hf. }
  { rewrite length_fmap, length_seq. lia. }
  apply list_lookup_fmap_Some in Hi as (i' & Hx & Hi).
  apply list_lookup_fmap_Some in Hj as (j' & Hx' & Hj).
  apply lookup_seq in Hi as [-> _]. apply lookup_seq in Hj as [-> _]. simpl in *.
  destruct (Hf i) as [Hfi HxD]. destruct (Hf j) as [Hfj _]. rewrite <- Hx in *. rewrite <- Hx' in *.
  destruct (member_edge s D x (home x) I HD HxD) as (h & He & Hh).
  exists x, h. split; [done|]. split; [done|]. split.
  { unfold edge, QueryHolderOnNode in He. simpl in He. by rewrite Z.eqb_refl in He. }
  exists (j - i - 1)%nat, (home x).
  assert (follow (mgr s) (home x) (j - i) (x, home x) = Some (x, home x)) as Hc.
  { rewrite (follow_self s D x (home x) 0 (j - i) I HD HxD).
    replace j with (i + (j - i))%nat in Hfj by lia. by rewrite follow_add, Hfi in Hfj. }
  replace (j - i)%nat with (S (j - i - 1)) in Hc by lia. simpl in Hc. by rewrite He in Hc.
Qed.
End deadlock.

(** ** Properties *)

(** C28: the walk of the deadlock detector is exact.  In every reachable state, for a
    transaction that waits, while at most 126 others do: [DetectDeadlockByChainWalk]
    returns (the assertion on the number of hops does not fire); if it answers
    [true], following the edges of the waits-for graph comes back to the
    transaction; and if they do, it answers [true] unless its budget runs out within
    as many hops as there are others that wait. *)
Theorem chain_walk_exact `{Placement} (s : Sys) w k h n expired (W : list Z) :
  lw_reachable s → phase s w = Waiting k → QueryWaiterHolder w (mgr s (home w)) = Some (h, n) →
  (∀ node t, t ≠ w → is_Some (QueryWaiterHolder t (mgr s node)) → t ∈ W) → (length W ≤ 126)%nat →
  ∃ b, DetectDeadlockByChainWalk expired w (home w) h n (mgr s) = Done (b, mgr s) ∧
    (b = true → comes_to (mgr s) (home w) w (h, n)) ∧
    ((∀ hop : nat, (hop ≤ length W)%nat → expired (Z.of_nat hop) = false) →
     comes_to (mgr s) (home w) w (h, n) → b = true).
Proof.
  intros I%lw_reachable_inv Hp Hq HW Hlen.
  pose proof (wp_inv _ _ _ (chain_walk_returns expired w (home w) (mgr s) W HW Hlen (Z.to_nat kMaxChainHops) 0 ∅ h n
    eq_refl ltac:(set_solver) ltac:(set_solver))) as (b & N' & Hrun & ->).
  rewrite (union_empty_r_L {[w]}) in Hrun. exists b. split; [exact Hrun|]. split.
  - intros ->. by eapply (chain_walk_sound _ _ expired w (h, n) _ O).
  - intros Hbudget Hc.
    assert (edge (mgr s) (home w) (w, home w) = Some (h, n)) as He
      by (unfold edge, QueryHolderOnNode; simpl; by rewrite Z.eqb_refl).
    destruct (edge_home s (home w) w h n I He) as [-> _].
    destruct (DetectDeadlock_spec (mgr s) (home w) w (h, home h) home W expired) as (b' & Hb' & Hiff); [|done|done|].
    + intros i. induction i as [|i IH]; intros p Hf.
      * injection Hf as <-. split; [done|]. intros [q Hq'] Hne. cbn [fst] in *. destruct q as [h' n'].
        destruct (edge_home s (home w) h h' n' I Hq') as [_ ?]. apply (HW (home h)); [done|by eexists].
      * rewrite follow_snoc in Hf. destruct (follow (mgr s) (home w) i (h, home h)) as [[t m]|] eqn:Hi; [|done].
        destruct (IH _ eq_refl) as [Em _]. cbn in Em, Hf. subst m. destruct p as [h' n'].
        destruct (edge_home s (home w) t h' n' I Hf) as [-> _]. split; [done|]. intros [[h2 n2] Hq'] Hne. cbn [fst] in *.
        destruct (edge_home s (home w) h' h2 n2 I Hq') as [_ ?]. apply (HW (home h')); [done|by eexists].
    + cbn [fst snd] in Hb'. unfold DetectDeadlockByChainWalk in Hb'. rewrite Hrun in Hb'. injection Hb' as ->. by apply Hiff.
Qed.

Lemma demo_waiters node t :
  t ≠ 2 → is_Some (QueryWaiterHolder t (mgr (demo_state deadlock_run) node)) → t ∈ [3].
Proof.
  intros Ht. destruct (decide (node = 0)) as [->|H0]; [|destruct (decide (node = 1)) as [->|H1]].
  - intros [p Hp]. unfold QueryWaiterHolder in Hp.
    destruct (local_waiters _ !! t) as [r|] eqn:E; [|done].
    apply elem_of_dom_2 in E. assert (dom (local_waiters (mgr (demo_state deadlock_run) 0)) = {[2]}) as D
      by (vm_compute; reflexivity). set_solver.
  - intros [p Hp]. unfold QueryWaiterHolder in Hp.
    destruct (local_waiters _ !! t) as [r|] eqn:E; [|done].
    apply elem_of_dom_2 in E. assert (dom (local_waiters (mgr (demo_state deadlock_run) 1)) = {[3]}) as D
      by (vm_compute; reflexivity). set_solver.
  - assert (mgr (demo_state deadlock_run) node = new_Manager) as ->; [|by intros [? ?]].
    destruct node as [|[]|]; done || (vm_compute; reflexivity).
Qed.

Lemma chain_walk_exact_witness :
  ∃ b, DetectDeadlockByChainWalk (λ hop, 2 <? hop) 2 0 3 1 (mgr (demo_state deadlock_run))
      = Done (b, mgr (demo_state deadlock_run)) ∧
    (b = true → comes_to (mgr (demo_state deadlock_run)) 0 2 (3, 1)) ∧
    (comes_to (mgr (demo_state deadlock_run)) 0 2 (3, 1) → b = true).
Proof.
  destruct (chain_walk_exact (demo_state deadlock_run) 2 demo_key' 3 1 (λ hop, 2 <? hop) [3]) as (b & Hb & H1 & H2).
  - apply lw_demo_reachable. vm_compute. reflexivity.
  - vm_compute. reflexivity.
  - vm_compute. reflexivity.
  - apply demo_waiters.
  - simpl. lia.
  - exists b. split; [exact Hb|]. split; [exact H1|]. apply H2. intros hop Hhop. cbn in Hhop. apply Z.ltb_ge. lia.
Defined.

(** a deadlock stays.  When every transaction of a set waits for one of the
    set, no call of any transaction of the cluster changes that, other than one
    of the set being chosen as the victim and giving up. *)
Theorem deadlock_persists `{Placement} (s s' : Sys) (D : list Z) :
  lw_reachable s → deadlocked s D → lw_step s s' →
  deadlocked s' D ∨ ∃ w, w ∈ D ∧ phase s' w = Finishing.
Proof.
  intros Hs HD [A m f a N' Hc Hrun]. apply lw_reachable_inv in Hs. by eapply deadlock_kept.
Qed.

Lemma demo_deadlocked : deadlocked (demo_state deadlock_run) [2; 3].
Proof.
  intros w Hw. apply elem_of_cons in Hw as [->|Hw].
  - exists demo_key', 3, 1. split_and!; [vm_compute; reflexivity|vm_compute; reflexivity|set_solver].
  - apply list_elem_of_singleton in Hw as ->. exists demo_key, 2, 0.
    split_and!; [vm_compute; reflexivity|vm_compute; reflexivity|set_solver].
Qed.

Lemma deadlock_persists_witness :
  let s' := set_phase 4 Running (set_mgr (after (at_node (home 4) (OnTxnBegin 4))
              (mgr (demo_state deadlock_run))) (demo_state deadlock_run)) in
  deadlocked s' [2; 3] ∨ ∃ w, w ∈ [2; 3] ∧ phase s' w = Finishing.
Proof.
  apply (deadlock_persists (demo_state deadlock_run)).
  - apply lw_demo_reachable. vm_compute. reflexivity.
  - exact demo_deadlocked.
  - apply (lw_run (demo_state deadlock_run) unit (at_node (home 4) (OnTxnBegin 4)) (λ _, set_phase 4 Running) tt).
    + apply call_begin; vm_compute; reflexivity.
    + apply run_result. vm_compute. reflexivity.
Defined.

(** C23: a deadlock of at most 126 transactions is found: one of its members, walking the
    edges, finds that it waits for itself, if its budget lasts for as many hops as the
    deadlock has members. *)
Theorem deadlock_is_found `{Placement} (s : Sys) (D : list Z) :
  lw_reachable s → deadlocked s D → D ≠ [] → (length D ≤ 126)%nat →
  ∃ w h n, w ∈ D ∧ QueryWaiterHolder w (mgr s (home w)) = Some (h, n) ∧
    ∀ expired, (∀ hop : nat, (hop ≤ length D)%nat → expired (Z.of_nat hop) = false) →
      DetectDeadlockByChainWalk expired w (home w) h n (mgr s) = Done (true, mgr s).
Proof.
  intros Hs HD Hne Hlen. apply lw_reachable_inv in Hs as I.
  destruct (cycle_member s D I HD Hne) as (x & h & HxD & HhD & Hq & Hc).
  exists x, h, (home h). split; [done|]. split; [done|]. intros expired Hbudget.
  destruct (DetectDeadlock_spec (mgr s) (home x) x (h, home h) home D expired) as (b & Hb & Hiff); [|done|done|].
  - intros i p Hp. destruct (follow_member s D h (home x) i I HD HhD) as (y & Hy & ?).
    rewrite Hy in Hp. injection Hp as <-. done.
  - simpl in Hb. rewrite Hb. by rewrite (proj2 Hiff Hc).
Qed.

Lemma deadlock_is_found_witness :
  ∃ w h n, w ∈ [2; 3] ∧
    QueryWaiterHolder w (mgr (demo_state deadlock_run) (home w)) = Some (h, n) ∧
    ∀ expired, (∀ hop : nat, (hop ≤ 2)%nat → expired (Z.of_nat hop) = false) →
      DetectDeadlockByChainWalk expired w (home w) h n (mgr (demo_state deadlock_run))
      = Done (true, mgr (demo_state deadlock_run)).
Proof.
  apply (deadlock_is_found (demo_state deadlock_run) [2; 3]).
  - apply lw_demo_reachable. vm_compute. reflexivity.
  - exact demo_deadlocked.
  - discriminate.
  - simpl. lia.
Defined.
