(* ===== verification/Bytes.v ===== *)
(** Byte buffers: what [memcpy] does to them, and how the code's integers lie
    in them (little-endian, two's complement, as on the machines the code is
    built for).  A byte is a [Z] from 0 to 255.  A copy that would leave the
    buffer is an out-of-bounds access. *)

From S2P Require Import Prelude.

Abbreviation buffer := (list Z).

Definition len {A} (l : list A) : Z := Z.of_nat (length l).

Definition is_byte (b : Z) : Prop := 0 ≤ b < 256.

#[export] Instance is_byte_dec b : Decision (is_byte b).
Proof. unfold is_byte. apply _. Defined.

(** ** Integers of [w] bytes *)

Fixpoint le (w : nat) (z : Z) : buffer :=
  match w with
  | O => []
  | S w' => z mod 256 :: le w' (z / 256)
  end.

Fixpoint unle (l : buffer) : Z :=
  match l with
  | [] => 0
  | b :: l' => b + 256 * unle l'
  end.

(** The signed reading of [w] bytes. *)
Definition sint (w : nat) (z : Z) : Z :=
  if z <? 2 ^ (8 * Z.of_nat w - 1) then z else z - 2 ^ (8 * Z.of_nat w).

Definition uint_fits (w : nat) (z : Z) : Prop := 0 ≤ z < 2 ^ (8 * Z.of_nat w).
Definition sint_fits (w : nat) (z : Z) : Prop :=
  - 2 ^ (8 * Z.of_nat w - 1) ≤ z < 2 ^ (8 * Z.of_nat w - 1).

#[export] Instance uint_fits_dec w z : Decision (uint_fits w z).
Proof. unfold uint_fits. apply _. Defined.
#[export] Instance sint_fits_dec w z : Decision (sint_fits w z).
Proof. unfold sint_fits. apply _. Defined.

(** ** Copying *)

(** [bs] written over the buffer from offset [off] on. *)
Definition splice (off : Z) (bs buf : buffer) : buffer :=
  take (Z.to_nat off) buf ++ bs ++ drop (Z.to_nat off + length bs) buf.

Definition slice (off n : Z) (buf : buffer) : buffer :=
  take (Z.to_nat n) (drop (Z.to_nat off) buf).

Definition in_bounds (off n : Z) (buf : buffer) : bool :=
  (0 <=? off) && (0 <=? n) && (off + n <=? len buf).

(** [memcpy(buf + off, bs, len bs)] *)
Definition memcpy_to (off : Z) (bs : buffer) : M buffer unit := λ buf,
  if in_bounds off (len bs) buf then Done (tt, splice off bs buf) else Crash OutOfBounds.

(** [memcpy(.., buf + off, n)], or a load through a cast pointer. *)
Definition memcpy_from (off n : Z) : M buffer buffer := λ buf,
  if in_bounds off n buf then Done (slice off n buf, buf) else Crash OutOfBounds.

Definition load_uint (off : Z) (w : nat) : M buffer Z :=
  bs ← memcpy_from off (Z.of_nat w) ; mret (unle bs).
Definition load_sint (off : Z) (w : nat) : M buffer Z :=
  bs ← memcpy_from off (Z.of_nat w) ; mret (sint w (unle bs)).

(** ** Lemmas: integers *)

Lemma length_le w z : length (le w z) = w.
Proof. revert z. induction w as [|w IH]; intros z; simpl; [done|]. by rewrite IH. Qed.

Lemma pow_byte_S w : 2 ^ (8 * Z.of_nat (S w)) = 256 * 2 ^ (8 * Z.of_nat w).
Proof.
  replace (8 * Z.of_nat (S w)) with (8 + 8 * Z.of_nat w) by lia.
  rewrite Z.pow_add_r by lia. done.
Qed.

Lemma unle_le_mod w z : unle (le w z) = z mod 2 ^ (8 * Z.of_nat w).
Proof.
  revert z. induction w as [|w IH]; intros z; [simpl; by rewrite Z.mod_1_r|].
  cbn [le unle]. rewrite IH, pow_byte_S. symmetry. apply Z.rem_mul_r; [lia|].
  apply Z.pow_pos_nonneg; lia.
Qed.

Lemma unle_le w z : uint_fits w z → unle (le w z) = z.
Proof. intros Hz. rewrite unle_le_mod. by apply Z.mod_small. Qed.

Lemma sint_unle_le w z : (0 < w)%nat → sint_fits w z → sint w (unle (le w z)) = z.
Proof.
  unfold sint_fits, sint. intros Hw Hz. rewrite unle_le_mod.
  assert (2 ^ (8 * Z.of_nat w) = 2 * 2 ^ (8 * Z.of_nat w - 1)) as E.
  { rewrite <- Z.pow_succ_r by lia. f_equal. lia. }
  assert (0 < 2 ^ (8 * Z.of_nat w - 1)) by (apply Z.pow_pos_nonneg; lia).
  destruct (Z.leb_spec 0 z).
  - rewrite Z.mod_small by lia. destruct (Z.ltb_spec z (2 ^ (8 * Z.of_nat w - 1))); lia.
  - replace (z mod 2 ^ (8 * Z.of_nat w)) with (z + 2 ^ (8 * Z.of_nat w)).
    + destruct (Z.ltb_spec (z + 2 ^ (8 * Z.of_nat w)) (2 ^ (8 * Z.of_nat w - 1))); lia.
    + apply (Z.mod_unique_pos z _ (-1)); lia.
Qed.

Lemma le_bytes w z : Forall is_byte (le w z).
Proof.
  revert z. induction w as [|w IH]; intros z; simpl; constructor; [|done].
  apply Z.mod_pos_bound. lia.
Qed.

Lemma unle_fits l : Forall is_byte l → uint_fits (length l) (unle l).
Proof.
  unfold uint_fits. induction 1 as [|b l Hb _ IH]; [simpl; lia|].
  cbn [unle length]. rewrite pow_byte_S. unfold is_byte in Hb. lia.
Qed.

Lemma sint_fits_sint w z : (0 < w)%nat → uint_fits w z → sint_fits w (sint w z).
Proof.
  unfold sint_fits, sint, uint_fits. intros Hw Hz.
  assert (2 ^ (8 * Z.of_nat w) = 2 * 2 ^ (8 * Z.of_nat w - 1)) as E.
  { rewrite <- Z.pow_succ_r by lia. f_equal. lia. }
  destruct (Z.ltb_spec z (2 ^ (8 * Z.of_nat w - 1))); lia.
Qed.

Lemma le_unle l : Forall is_byte l → le (length l) (unle l) = l.
Proof.
  induction 1 as [|b l Hb _ IH]; [done|]. unfold is_byte in Hb. cbn [length unle le].
  rewrite (Z.mul_comm 256 (unle l)), Z.mod_add, Z.div_add, (Z.mod_small b), Z.div_small, Z.add_0_l, IH by lia.
  done.
Qed.

(** ** Lemmas: lengths, slices and splices *)

Lemma len_nonneg {A} (l : list A) : 0 ≤ len l.
Proof. unfold len. lia. Qed.
Lemma len_app {A} (l k : list A) : len (l ++ k) = len l + len k.
Proof. unfold len. rewrite length_app. lia. Qed.
Lemma len_cons {A} (x : A) l : len (x :: l) = 1 + len l.
Proof. unfold len. simpl. lia. Qed.
Lemma len_nil {A} : len (@nil A) = 0.
Proof. done. Qed.
Lemma len_le w z : len (le w z) = Z.of_nat w.
Proof. unfold len. by rewrite length_le. Qed.

Create Rewrite HintDb len.
#[export] Hint Rewrite @len_app @len_cons @len_nil len_le : len.
Ltac len := autorewrite with len in *.

Lemma in_bounds_true off n buf :
  0 ≤ off → 0 ≤ n → off + n ≤ len buf → in_bounds off n buf = true.
Proof. intros. unfold in_bounds. rewrite !andb_true_iff, !Z.leb_le. lia. Qed.

Lemma length_splice off bs buf :
  0 ≤ off → off + len bs ≤ len buf → length (splice off bs buf) = length buf.
Proof.
  unfold len, splice. intros. rewrite !length_app, length_take, length_drop. lia.
Qed.

Lemma len_splice off bs buf :
  0 ≤ off → off + len bs ≤ len buf → len (splice off bs buf) = len buf.
Proof. intros. unfold len. by rewrite length_splice. Qed.

Lemma splice_nil off buf : splice off [] buf = buf.
Proof. unfold splice. simpl. rewrite Nat.add_0_r. apply take_drop. Qed.

(** Writing on where the last write ended. *)
Lemma splice_app off l k buf :
  0 ≤ off → off + len l + len k ≤ len buf →
  splice (off + len l) k (splice off l buf) = splice off (l ++ k) buf.
Proof.
  unfold splice, len. intros Ho Hl.
  assert (Z.to_nat (off + Z.of_nat (length l)) = Z.to_nat off + length l)%nat as -> by lia.
  assert (length (take (Z.to_nat off) buf) = Z.to_nat off) as Ht by (rewrite length_take; lia).
  rewrite take_app, Ht. rewrite (take_ge (take _ buf)) by (rewrite Ht; lia).
  replace (Z.to_nat off + length l - Z.to_nat off)%nat with (length l) by lia.
  rewrite take_app_length. rewrite <- !app_assoc. do 3 f_equal.
  rewrite drop_app, Ht. rewrite (drop_ge (take _ buf)) by (rewrite Ht; lia). simpl.
  rewrite drop_app. rewrite (drop_ge l) by lia. simpl. rewrite drop_drop, length_app. f_equal. lia.
Qed.

Lemma slice_all buf : slice 0 (len buf) buf = buf.
Proof. unfold slice, len. rewrite drop_0. apply take_ge. lia. Qed.

Lemma len_slice off n buf :
  0 ≤ off → 0 ≤ n → off + n ≤ len buf → len (slice off n buf) = n.
Proof. unfold slice, len. intros. rewrite length_take, length_drop. lia. Qed.

Lemma slice_bytes off n buf : Forall is_byte buf → Forall is_byte (slice off n buf).
Proof. intros. by apply Forall_take, Forall_drop. Qed.

Lemma slice_lookup off n buf (i : nat) :
  0 ≤ off → slice off n buf !! i =
  if decide (i < Z.to_nat n)%nat then buf !! (Z.to_nat off + i)%nat else None.
Proof.
  intros Ho. unfold slice. case_decide.
  - rewrite lookup_take_lt by lia. by rewrite lookup_drop.
  - apply lookup_take_ge. lia.
Qed.

Lemma splice_lookup off bs buf (i : nat) :
  0 ≤ off → off + len bs ≤ len buf → splice off bs buf !! i =
  if decide (Z.to_nat off ≤ i < Z.to_nat off + length bs)%nat
  then bs !! (i - Z.to_nat off)%nat else buf !! i.
Proof.
  unfold splice, len. intros Ho Hl.
  assert (length (take (Z.to_nat off) buf) = Z.to_nat off) as Ht by (rewrite length_take; lia).
  destruct (decide (i < Z.to_nat off)%nat).
  - rewrite decide_False by lia. rewrite lookup_app_l by (rewrite Ht; lia).
    by apply lookup_take_lt.
  - rewrite lookup_app_r by (rewrite Ht; lia). rewrite Ht. case_decide.
    + by rewrite lookup_app_l by lia.
    + rewrite lookup_app_r by lia. rewrite lookup_drop. f_equal. lia.
Qed.

(** What was written is read back. *)
Lemma slice_splice off bs buf :
  0 ≤ off → off + len bs ≤ len buf → slice off (len bs) (splice off bs buf) = bs.
Proof.
  intros Ho Hl. apply list_eq. intros i. rewrite slice_lookup by done. unfold len in *.
  case_decide.
  - rewrite splice_lookup by done. rewrite decide_True by lia. f_equal. lia.
  - symmetry. apply lookup_ge_None_2. lia.
Qed.

(** A write elsewhere is not seen. *)
Lemma slice_splice_other off n off' bs buf :
  0 ≤ off → 0 ≤ off' → off' + len bs ≤ len buf →
  off + n ≤ off' ∨ off' + len bs ≤ off →
  slice off n (splice off' bs buf) = slice off n buf.
Proof.
  intros Ho Ho' Hl Hd. apply list_eq. intros i. rewrite !slice_lookup by done.
  case_decide; [|done]. rewrite splice_lookup by done. unfold len in *.
  by rewrite decide_False by lia.
Qed.

Lemma slice_slice off n off' n' buf :
  0 ≤ off → 0 ≤ off' → 0 ≤ n' → off' + n' ≤ n →
  slice off' n' (slice off n buf) = slice (off + off') n' buf.
Proof.
  intros. apply list_eq. intros i. rewrite !slice_lookup by lia.
  repeat case_decide; try lia; try done. f_equal. lia.
Qed.

Lemma splice_bytes off bs buf :
  Forall is_byte bs → Forall is_byte buf → Forall is_byte (splice off bs buf).
Proof.
  intros. unfold splice. apply Forall_app; split; [by apply Forall_take|].
  apply Forall_app; split; [done|by apply Forall_drop].
Qed.

(** ** Writing a sequence of pieces *)

Lemma wp_memcpy_to off bs (Q : unit → buffer → Prop) buf :
  0 ≤ off → off + len bs ≤ len buf → Q tt (splice off bs buf) → wp (memcpy_to off bs) Q buf.
Proof.
  intros. unfold wp, memcpy_to. rewrite in_bounds_true; auto using len_nonneg.
Qed.

Lemma wp_write_next dest l off bs (Q : unit → buffer → Prop) buf :
  0 ≤ dest → off = dest + len l → dest + len l + len bs ≤ len buf →
  Q tt (splice dest (l ++ bs) buf) → wp (memcpy_to off bs) Q (splice dest l buf).
Proof.
  intros Hd -> Hl HQ. pose proof (len_nonneg l). pose proof (len_nonneg bs).
  apply wp_memcpy_to; [lia|rewrite len_splice; lia|]. by rewrite splice_app.
Qed.

(** ** Reading a sequence of pieces: [stored buf off l] says that [l] lies in the
    buffer at [off]. *)

Definition stored (buf : buffer) (off : Z) (l : buffer) : Prop :=
  ∃ pre post, buf = pre ++ l ++ post ∧ len pre = off.

Lemma stored_app buf off l k :
  stored buf off (l ++ k) → stored buf off l ∧ stored buf (off + len l) k.
Proof.
  intros (pre & post & -> & <-). split.
  - exists pre, (k ++ post). by rewrite <- !app_assoc.
  - exists (pre ++ l), post. rewrite len_app, <- !app_assoc. done.
Qed.

Lemma stored_bounds buf off l : stored buf off l → 0 ≤ off ∧ off + len l ≤ len buf.
Proof.
  intros (pre & post & -> & <-). len. pose proof (len_nonneg pre).
  pose proof (len_nonneg post). lia.
Qed.

Lemma stored_slice buf off l : stored buf off l ↔ 0 ≤ off ∧ off + len l ≤ len buf ∧ slice off (len l) buf = l.
Proof.
  split.
  - intros H. pose proof (stored_bounds _ _ _ H) as [? ?]. split; [done|]. split; [done|].
    destruct H as (pre & post & -> & <-). unfold slice, len.
    rewrite !Nat2Z.id, drop_app_length. apply take_app_length.
  - intros (Ho & Hl & Hs). exists (take (Z.to_nat off) buf), (drop (Z.to_nat (off + len l)) buf).
    unfold slice, len in *. split; [|rewrite length_take; lia].
    rewrite <- Hs at 1. rewrite Nat2Z.id in *.
    replace (Z.to_nat (off + Z.of_nat (length l))) with (Z.to_nat off + length l)%nat by lia.
    rewrite <- drop_drop. rewrite take_drop. by rewrite take_drop.
Qed.

Lemma stored_splice dest l buf :
  0 ≤ dest → dest + len l ≤ len buf → stored (splice dest l buf) dest l.
Proof.
  intros. apply stored_slice. rewrite len_splice, slice_splice by done. done.
Qed.

Lemma wp_read buf off' l off n bs (Q : buffer → buffer → Prop) :
  stored buf off' (bs ++ l) → off = off' → n = len bs →
  (stored buf (off' + len bs) l → Q bs buf) → wp (memcpy_from off n) Q buf.
Proof.
  intros Hs -> -> HQ. destruct (stored_app _ _ _ _ Hs) as [H1 H2].
  apply stored_slice in H1 as (H0 & Hb & Hl). unfold wp, memcpy_from.
  rewrite in_bounds_true by auto using len_nonneg. rewrite Hl. auto.
Qed.

Lemma wp_read_uint buf off' l off w z (Q : Z → buffer → Prop) :
  stored buf off' (le w z ++ l) → off = off' → uint_fits w z →
  (stored buf (off' + Z.of_nat w) l → Q z buf) → wp (load_uint off w) Q buf.
Proof.
  intros Hs -> Hz HQ. unfold load_uint. apply wp_bind.
  eapply wp_read; [exact Hs|done|by rewrite len_le|]. intros Hs'. apply wp_ret.
  rewrite unle_le by done. apply HQ. by rewrite len_le in Hs'.
Qed.

Lemma wp_read_sint buf off' l off w z (Q : Z → buffer → Prop) :
  stored buf off' (le w z ++ l) → off = off' → (0 < w)%nat → sint_fits w z →
  (stored buf (off' + Z.of_nat w) l → Q z buf) → wp (load_sint off w) Q buf.
Proof.
  intros Hs -> Hw Hz HQ. unfold load_sint. apply wp_bind.
  eapply wp_read; [exact Hs|done|by rewrite len_le|]. intros Hs'. apply wp_ret.
  rewrite sint_unle_le by done. apply HQ. by rewrite len_le in Hs'.
Qed.
