(* ===== verification/Record.v ===== *)
(** [core/record/record.h] and [Rid] of [core/base/page.h]: the headers of a
    table's file and of its pages, and a record, with their byte layouts. *)

From S2P Require Import Prelude Common Bytes.

(** Bytes of a primary key in a slot. *)
Definition sizeof_itemkey_t : Z := 8.

(** ** Headers *)

Record RmFileHdr : Set := mkFileHdr {
  record_size_ : Z;
  num_pages_ : Z;
  num_records_per_page_ : Z;
  first_free_page_no_ : Z;
  bitmap_size_ : Z
}.

Record RmPageHdr : Set := mkPageHdr {
  next_free_page_no_ : Z;
  num_records_ : Z;
  LLSN_ : Z;
  pre_LLSN_ : Z
}.

Record Rid : Set := mkRid {
  page_no_ : Z;
  slot_no_ : Z
}.

#[export] Instance Rid_eq_dec : EqDecision Rid.
Proof. solve_decision. Defined.
#[export] Instance RmPageHdr_eq_dec : EqDecision RmPageHdr.
Proof. solve_decision. Defined.

(** [sizeof]: the fields in order; none of the structures needs padding. *)
Definition sizeof_RmFileHdr : Z := 20.
Definition sizeof_RmPageHdr : Z := 24.
Definition sizeof_Rid : Z := 8.

Definition enc_RmPageHdr (h : RmPageHdr) : buffer :=
  le 4 (next_free_page_no_ h) ++ le 4 (num_records_ h) ++ le 8 (LLSN_ h) ++ le 8 (pre_LLSN_ h).

Definition load_RmPageHdr (off : Z) : M buffer RmPageHdr :=
  next ← load_sint off 4 ;
  num ← load_sint (off + 4) 4 ;
  lsn ← load_uint (off + 8) 8 ;
  pre ← load_uint (off + 16) 8 ;
  mret (mkPageHdr next num lsn pre).

Definition RmPageHdr_fits (h : RmPageHdr) : Prop :=
  sint_fits 4 (next_free_page_no_ h) ∧ sint_fits 4 (num_records_ h) ∧
  uint_fits 8 (LLSN_ h) ∧ uint_fits 8 (pre_LLSN_ h).

Definition enc_RmFileHdr (h : RmFileHdr) : buffer :=
  le 4 (record_size_ h) ++ le 4 (num_pages_ h) ++ le 4 (num_records_per_page_ h) ++
  le 4 (first_free_page_no_ h) ++ le 4 (bitmap_size_ h).

Definition load_RmFileHdr (off : Z) : M buffer RmFileHdr :=
  size ← load_sint off 4 ;
  pages ← load_sint (off + 4) 4 ;
  records ← load_sint (off + 8) 4 ;
  free ← load_sint (off + 12) 4 ;
  bitmap ← load_sint (off + 16) 4 ;
  mret (mkFileHdr size pages records free bitmap).

Definition RmFileHdr_fits (h : RmFileHdr) : Prop :=
  sint_fits 4 (record_size_ h) ∧ sint_fits 4 (num_pages_ h) ∧
  sint_fits 4 (num_records_per_page_ h) ∧ sint_fits 4 (first_free_page_no_ h) ∧
  sint_fits 4 (bitmap_size_ h).

Definition enc_Rid (r : Rid) : buffer := le 4 (page_no_ r) ++ le 4 (slot_no_ r).

Definition load_Rid (off : Z) : M buffer Rid :=
  page ← load_sint off 4 ;
  slot ← load_sint (off + 4) 4 ;
  mret (mkRid page slot).

Definition Rid_fits (r : Rid) : Prop := sint_fits 4 (page_no_ r) ∧ sint_fits 4 (slot_no_ r).

(** ** Records; [value_size_] is the length of [value_] *)

Record RmRecord : Set := mkRecord {
  key_ : Z;
  value_ : buffer
}.

Definition value_size_ (r : RmRecord) : Z := len (value_ r).

(** [Serialize(dest, offset)]: the new offset is the answer. *)
Definition Serialize (r : RmRecord) (dest offset : Z) : M buffer Z :=
  memcpy_to dest (le 8 (key_ r)) ;;
  memcpy_to (dest + 8) (le 8 (value_size_ r)) ;;
  memcpy_to (dest + 8 + 8) (value_ r) ;;
  mret (offset + 8 + 8 + value_size_ r).

Definition Deserialize (data offset : Z) : M buffer (RmRecord * Z) :=
  key ← load_uint data 8 ;
  size ← load_uint (data + 8) 8 ;
  value ← memcpy_from (data + 8 + 8) size ;
  mret (mkRecord key value, offset + 8 + 8 + size).

Definition enc_RmRecord (r : RmRecord) : buffer :=
  le 8 (key_ r) ++ le 8 (value_size_ r) ++ value_ r.

Definition RmRecord_fits (r : RmRecord) : Prop :=
  uint_fits 8 (key_ r) ∧ uint_fits 8 (value_size_ r).

(** ** Lemmas *)

Lemma len_enc_RmPageHdr h : len (enc_RmPageHdr h) = sizeof_RmPageHdr.
Proof. unfold enc_RmPageHdr. by len. Qed.
Lemma len_enc_RmFileHdr h : len (enc_RmFileHdr h) = sizeof_RmFileHdr.
Proof. unfold enc_RmFileHdr. by len. Qed.
Lemma len_enc_Rid r : len (enc_Rid r) = sizeof_Rid.
Proof. unfold enc_Rid. by len. Qed.
Lemma len_enc_RmRecord r : len (enc_RmRecord r) = 16 + value_size_ r.
Proof. unfold enc_RmRecord, value_size_. len. lia. Qed.
#[export] Hint Rewrite len_enc_RmPageHdr len_enc_RmFileHdr len_enc_Rid len_enc_RmRecord : len.

(** One read of a sequence: the goal reads next what [stored] has next. *)
Ltac read_next Hs :=
  lazymatch goal with
  | |- wp (load_uint _ _) _ _ => eapply wp_read_uint; [exact Hs|lia|first [done|tauto]|]
  | |- wp (load_sint _ _) _ _ => eapply wp_read_sint; [exact Hs|lia|lia|first [done|tauto]|]
  | |- wp (memcpy_from _ _) _ _ => eapply wp_read; [exact Hs|lia|by len|]
  end; clear Hs; intros Hs; cbv beta.

Lemma wp_load_RmPageHdr buf off' l off h (Q : RmPageHdr → buffer → Prop) :
  stored buf off' (enc_RmPageHdr h ++ l) → off = off' → RmPageHdr_fits h →
  (stored buf (off' + sizeof_RmPageHdr) l → Q h buf) → wp (load_RmPageHdr off) Q buf.
Proof.
  unfold enc_RmPageHdr, load_RmPageHdr. intros Hs -> (F1 & F2 & F3 & F4) HQ.
  rewrite <- !app_assoc in Hs.
  do 4 (wp_step; read_next Hs). wp_step. destruct h. apply HQ.
  unfold sizeof_RmPageHdr. by replace (off' + 24) with (off' + 4 + 4 + 8 + 8) by lia.
Qed.

Lemma wp_load_RmFileHdr buf off' l off h (Q : RmFileHdr → buffer → Prop) :
  stored buf off' (enc_RmFileHdr h ++ l) → off = off' → RmFileHdr_fits h →
  (stored buf (off' + sizeof_RmFileHdr) l → Q h buf) → wp (load_RmFileHdr off) Q buf.
Proof.
  unfold enc_RmFileHdr, load_RmFileHdr. intros Hs -> (F1 & F2 & F3 & F4 & F5) HQ.
  rewrite <- !app_assoc in Hs.
  do 5 (wp_step; read_next Hs). wp_step. destruct h. apply HQ.
  unfold sizeof_RmFileHdr. by replace (off' + 20) with (off' + 4 + 4 + 4 + 4 + 4) by lia.
Qed.

Lemma wp_load_Rid buf off' l off r (Q : Rid → buffer → Prop) :
  stored buf off' (enc_Rid r ++ l) → off = off' → Rid_fits r →
  (stored buf (off' + sizeof_Rid) l → Q r buf) → wp (load_Rid off) Q buf.
Proof.
  unfold enc_Rid, load_Rid. intros Hs -> (F1 & F2) HQ. rewrite <- !app_assoc in Hs.
  do 2 (wp_step; read_next Hs). wp_step. destruct r. apply HQ.
  unfold sizeof_Rid. by replace (off' + 8) with (off' + 4 + 4) by lia.
Qed.

Lemma wp_Deserialize buf off' l off offset r (Q : RmRecord * Z → buffer → Prop) :
  stored buf off' (enc_RmRecord r ++ l) → off = off' → RmRecord_fits r →
  (stored buf (off' + 16 + value_size_ r) l → Q (r, offset + 16 + value_size_ r) buf) →
  wp (Deserialize off offset) Q buf.
Proof.
  unfold enc_RmRecord, Deserialize. intros Hs -> (F1 & F2) HQ. rewrite <- !app_assoc in Hs.
  do 3 (wp_step; read_next Hs). wp_step. destruct r as [k v]. unfold value_size_ in *. simpl in *.
  replace (offset + 8 + 8 + len v) with (offset + 16 + len v) by lia. apply HQ.
  by replace (off' + 16 + len v) with (off' + 8 + 8 + len v) by lia.
Qed.

(** One write of a sequence. *)
Ltac write_next :=
  lazymatch goal with
  | |- wp (memcpy_to _ _) _ (splice _ _ _) =>
      apply wp_write_next; [lia|len; unfold value_size_ in *; lia|len; unfold value_size_ in *; lia|]
  end; cbv beta.

Lemma wp_Serialize dest l off offset r (Q : Z → buffer → Prop) buf :
  0 ≤ dest → off = dest + len l → dest + len l + 16 + value_size_ r ≤ len buf →
  Q (offset + 16 + value_size_ r) (splice dest (l ++ enc_RmRecord r) buf) →
  wp (Serialize r off offset) Q (splice dest l buf).
Proof.
  intros Hd -> Hl HQ. unfold Serialize. pose proof (len_nonneg (value_ r)). pose proof (len_nonneg l).
  unfold value_size_ in *.
  do 3 (wp_step; write_next). wp_step. unfold enc_RmRecord, value_size_ in HQ.
  rewrite <- !app_assoc. replace (offset + 8 + 8 + len (value_ r)) with (offset + 16 + len (value_ r)) by lia.
  done.
Qed.
