(* ===== verification/PreparedTxn.v ===== *)
(** [core/compute_node/prepared_txn.h]: the request by which a coordinator asks a
    writer to prepare, and what makes it valid.  The messages are protobuf
    messages of [core/compute_node/twoPC.proto]; how protobuf lays them out in
    bytes is the class [RequestCodec]. *)

From S2P Require Import Prelude Common Bytes.

Definition kParticipantReplyVersion : Z := 1.
Definition kProtocolVersion : Z := 2.

Record ItemID : Set := mkItemID {
  i_table_id : Z;
  i_page_no : Z;
  i_slot_id : Z
}.

#[export] Instance ItemID_eq_dec : EqDecision ItemID.
Proof. solve_decision. Defined.

Record TxnIdentity : Set := mkIdentity {
  coordinator_node : Z;
  coordinator_incarnation : buffer;
  local_tx_id : Z
}.

#[export] Instance TxnIdentity_eq_dec : EqDecision TxnIdentity.
Proof. solve_decision. Defined.

Inductive Operation : Set := UNSUPPORTED | UPDATE_WRITE.

#[export] Instance Operation_eq_dec : EqDecision Operation.
Proof. solve_decision. Defined.

Record PreparedWrite : Set := mkWrite {
  item_id : option ItemID;
  table_name : buffer;
  w_row_key : Z;
  operation : Operation;
  w_value : buffer
}.

#[export] Instance PreparedWrite_eq_dec : EqDecision PreparedWrite.
Proof. solve_decision. Defined.

Record PrepareRequest : Set := mkPrepare {
  transaction_id : Z;
  protocol_version : Z;
  identity : option TxnIdentity;
  start_ts : Z;
  commit_ts : Z;
  participants : list Z;
  participant_node : Z;
  writes : list PreparedWrite
}.

(** [has_identity()] and [identity()], which is the default message without one. *)
Definition identity_of (r : PrepareRequest) : TxnIdentity :=
  default (mkIdentity 0 [] 0) (identity r).

Definition ValidIdentity (id : TxnIdentity) : bool :=
  (0 <=? coordinator_node id) && (len (coordinator_incarnation id) =? 16).

(** The loop over the participants: strictly increasing from [previous] on. *)
Fixpoint increasing (previous : Z) (nodes : list Z) : bool :=
  match nodes with
  | [] => true
  | node :: nodes' => if node <=? previous then false else increasing node nodes'
  end.

(** The loop over the writes; [tuples] has the rows seen so far. *)
Fixpoint valid_writes (tuples : list ItemID) (ws : list PreparedWrite) : bool :=
  match ws with
  | [] => true
  | w :: ws' =>
      match item_id w with
      | None => false
      | Some id =>
          if (i_table_id id <? 0) || (i_page_no id <=? 0) || (i_slot_id id <? 0) ||
             bool_decide (table_name w = []) ||
             negb (bool_decide (operation w = UPDATE_WRITE)) || bool_decide (id ∈ tuples)
          then false
          else valid_writes (id :: tuples) ws'
      end
  end.

Definition ValidRequest (r : PrepareRequest) : bool :=
  if (negb (protocol_version r =? kProtocolVersion) &&
      negb (protocol_version r =? kParticipantReplyVersion)) ||
     bool_decide (identity r = None) || negb (ValidIdentity (identity_of r)) ||
     negb (local_tx_id (identity_of r) =? transaction_id r) ||
     (start_ts r =? 0) || (commit_ts r =? 0) || (len (participants r) <? 2) ||
     (len (writes r) =? 0)
  then false
  else increasing (-1) (participants r) &&
       bool_decide (participant_node r ∈ participants r) && valid_writes [] (writes r).

(** Protobuf: what is serialized parses back. *)
Class RequestCodec := {
  SerializeAsString : PrepareRequest → buffer;
  ParseFromArray : buffer → option PrepareRequest;
  parse_serialize r : ParseFromArray (SerializeAsString r) = Some r;
  serialize_bytes r : Forall is_byte (SerializeAsString r)
}.

(** ** A codec: the bytes of the number that stdpp's [Countable] gives a message *)

#[export] Instance ItemID_countable : Countable ItemID.
Proof.
  refine (inj_countable' (λ i, (i_table_id i, i_page_no i, i_slot_id i))
    (λ '(a, b, c), mkItemID a b c) _). by intros [].
Defined.

#[export] Instance TxnIdentity_countable : Countable TxnIdentity.
Proof.
  refine (inj_countable' (λ i, (coordinator_node i, coordinator_incarnation i, local_tx_id i))
    (λ '(a, b, c), mkIdentity a b c) _). by intros [].
Defined.

#[export] Instance PreparedWrite_countable : Countable PreparedWrite.
Proof.
  refine (inj_countable'
    (λ w, (item_id w, table_name w, w_row_key w, bool_decide (operation w = UPDATE_WRITE), w_value w))
    (λ '(a, b, c, d, e), mkWrite a b c (if d : bool then UPDATE_WRITE else UNSUPPORTED) e) _).
  by intros [? ? ? [] ?].
Defined.

#[export] Instance PrepareRequest_eq_dec : EqDecision PrepareRequest.
Proof. solve_decision. Defined.

#[export] Instance PrepareRequest_countable : Countable PrepareRequest.
Proof.
  refine (inj_countable'
    (λ r, (transaction_id r, protocol_version r, identity r, start_ts r, commit_ts r,
           participants r, participant_node r, writes r))
    (λ '(a, b, c, d, e, f, g, h), mkPrepare a b c d e f g h) _).
  by intros [].
Defined.

Definition demo_serialize (r : PrepareRequest) : buffer :=
  let p := encode r in le (Pos.size_nat p) (Zpos p).
Definition demo_parse (bs : buffer) : option PrepareRequest :=
  match unle bs with Zpos p => decode p | _ => None end.

Lemma size_nat_fits p : uint_fits (Pos.size_nat p) (Zpos p).
Proof.
  unfold uint_fits. split; [lia|].
  assert (Zpos p < 2 ^ Z.of_nat (Pos.size_nat p)) as Hp.
  { induction p as [p IH|p IH|]; cbn [Pos.size_nat]; [| |done];
      rewrite Nat2Z.inj_succ, Z.pow_succ_r by lia; lia. }
  eapply Z.lt_le_trans; [exact Hp|]. apply Z.pow_le_mono_r; lia.
Qed.

Lemma demo_parse_serialize r : demo_parse (demo_serialize r) = Some r.
Proof.
  unfold demo_parse, demo_serialize. rewrite unle_le by apply size_nat_fits.
  apply decode_encode.
Qed.

Definition demo_codec : RequestCodec := {|
  SerializeAsString := demo_serialize;
  ParseFromArray := demo_parse;
  parse_serialize := demo_parse_serialize;
  serialize_bytes r := le_bytes _ _
|}.
