(* ===== verification/LogRecord.v ===== *)
(** [core/storage/log_record.h] and [core/storage/prepared_log_record.h]: the
    records of the write-ahead log, their serialization into the buffer of a
    batch, and the decoder of the replayer ([DecodeRecord] of
    [core/storage/logreplay.cc]).

    [encode] is the format on paper; [serialize] and [DecodeRecord] are the
    code, which is proved to write and to read it.  Printing is left out. *)

From S2P Require Import Prelude Common Bytes Record PreparedTxn.

(** ** The header *)

Definition OFFSET_BATCH_ID : Z := 0.
Definition OFFSET_LOG_TYPE : Z := 8.
Definition OFFSET_LSN : Z := OFFSET_LOG_TYPE + 4.
Definition OFFSET_LOG_TOT_LEN : Z := OFFSET_LSN + 8.
Definition OFFSET_LOG_TID : Z := OFFSET_LOG_TOT_LEN + 4.
Definition OFFSET_LOG_NODE_ID : Z := OFFSET_LOG_TID + 8.
Definition OFFSET_PREV_LSN : Z := OFFSET_LOG_NODE_ID + 4.
Definition OFFSET_LOG_DATA : Z := OFFSET_PREV_LSN + 8.
Definition LOG_HEADER_SIZE : Z := OFFSET_LOG_DATA.

Definition LOG_REPLAY_BUFFER_SIZE : Z := 10 * 4096.

(** [enum LogType : int] *)
Definition UPDATE : Z := 0.
Definition INSERT : Z := 1.
Definition DELETE : Z := 2.
Definition BEGIN : Z := 3.
Definition COMMIT : Z := 4.
Definition ABORT : Z := 5.
Definition NEWPAGE : Z := 6.
Definition FSMUPDATE : Z := 7.
Definition BATCHEND : Z := 8.
Definition LOCK : Z := 9.
Definition PREPARED : Z := 10.

Definition INVALID_BATCH_ID : Z := 0.
Definition INVALID_LSN : Z := 0.
Definition INVALID_TXN_ID : Z := u64 (-1).
Definition INVALID_TABLE_ID : Z := -1.

Record LogHeader : Set := mkLogHeader {
  log_batch_id_ : Z;
  log_type_ : Z;
  lsn_ : Z;
  log_tot_len_ : Z;
  log_tid_ : Z;
  log_node_id_ : Z;
  prev_lsn_ : Z
}.

Definition LogRecord_serialize (h : LogHeader) (dest : Z) : M buffer unit :=
  memcpy_to (dest + OFFSET_BATCH_ID) (le 8 (log_batch_id_ h)) ;;
  memcpy_to (dest + OFFSET_LOG_TYPE) (le 4 (log_type_ h)) ;;
  memcpy_to (dest + OFFSET_LSN) (le 8 (lsn_ h)) ;;
  memcpy_to (dest + OFFSET_LOG_TOT_LEN) (le 4 (log_tot_len_ h)) ;;
  memcpy_to (dest + OFFSET_LOG_TID) (le 8 (log_tid_ h)) ;;
  memcpy_to (dest + OFFSET_LOG_NODE_ID) (le 4 (log_node_id_ h)) ;;
  memcpy_to (dest + OFFSET_PREV_LSN) (le 8 (prev_lsn_ h)).

Definition LogRecord_deserialize (src : Z) : M buffer LogHeader :=
  batch ← load_uint (src + OFFSET_BATCH_ID) 8 ;
  type ← load_sint (src + OFFSET_LOG_TYPE) 4 ;
  lsn ← load_uint (src + OFFSET_LSN) 8 ;
  tot ← load_uint (src + OFFSET_LOG_TOT_LEN) 4 ;
  tid ← load_uint (src + OFFSET_LOG_TID) 8 ;
  node ← load_sint (src + OFFSET_LOG_NODE_ID) 4 ;
  prev ← load_uint (src + OFFSET_PREV_LSN) 8 ;
  mret (mkLogHeader batch type lsn tot tid node prev).

(** ** The classes of records: what each has beyond the header *)

Record DeleteMeta : Set := mkDeleteMeta {
  bucket_offset_ : Z;
  bucket_value_ : Z;
  page_hdr_ : RmPageHdr;
  m_first_free_page_no_ : Z
}.

Record UndoMeta : Set := mkUndoMeta {
  undo_bucket_value_ : Z;
  undo_page_hdr_ : RmPageHdr;
  undo_first_free_page_no_ : Z
}.

Inductive LogBody : Set :=
  | BeginBody | CommitBody | AbortBody | BatchEndBody
  | InsertBody (insert_value : RmRecord) (page_no slot_no : Z) (name : buffer)
  | DeleteBody (table_id : Z) (name : buffer) (page_no slot_no : Z)
      (delete_meta : option DeleteMeta) (undo_meta : option UndoMeta)
  | FSMUpdateBody (table_id page_id free_space : Z) (name : buffer)
  | UpdateBody (new_value : RmRecord) (rid : Rid) (name : buffer) (old_value : option RmRecord)
  | NewPageBody (request_pages table_id : Z) (name : buffer)
  | LockBody (table_id : Z) (rid : Rid) (lock_type time_stamp holder_node lock_owner_node : Z)
      (name : buffer)
  | PreparedBody (payload : buffer).

Record LogRecord : Set := mkLog {
  hdr : LogHeader;
  body : LogBody
}.

(** [if (table_name_size_ > 0) memcpy(dest + offset, table_name_, table_name_size_)] *)
Definition put_name (off : Z) (name : buffer) : M buffer unit :=
  when (0 <? len name) (memcpy_to off name).

Definition get_name (off size : Z) : M buffer buffer :=
  if 0 <? size then memcpy_from off size else mret [].

(** ** [serialize] *)

Definition Insert_serialize (value : RmRecord) (page slot : Z) (name : buffer) (dest : Z)
    : M buffer unit :=
  offset ← Serialize value (dest + OFFSET_LOG_DATA) OFFSET_LOG_DATA ;
  memcpy_to (dest + offset) (le 4 page) ;;
  memcpy_to (dest + (offset + 4)) (le 4 slot) ;;
  memcpy_to (dest + (offset + 4 + 4)) (le 8 (len name)) ;;
  memcpy_to (dest + (offset + 4 + 4 + 8)) name.

(** The part of a delete record between the slot number and the undo flag; the
    new offset is the answer. *)
Definition put_delete_meta (m : option DeleteMeta) (dest offset : Z) : M buffer Z :=
  match m with
  | None => memcpy_to (dest + offset) (le 1 0) ;; mret (offset + 1)
  | Some d =>
      memcpy_to (dest + offset) (le 1 1) ;;
      memcpy_to (dest + (offset + 1)) (le 4 (bucket_offset_ d)) ;;
      memcpy_to (dest + (offset + 1 + 4)) (le 1 (bucket_value_ d)) ;;
      memcpy_to (dest + (offset + 1 + 4 + 1)) (enc_RmPageHdr (page_hdr_ d)) ;;
      memcpy_to (dest + (offset + 1 + 4 + 1 + sizeof_RmPageHdr)) (le 4 (m_first_free_page_no_ d)) ;;
      mret (offset + 1 + 4 + 1 + sizeof_RmPageHdr + 4)
  end.

Definition put_undo_meta (m : option UndoMeta) (dest offset : Z) : M buffer unit :=
  match m with
  | None => memcpy_to (dest + offset) (le 1 0)
  | Some u =>
      memcpy_to (dest + offset) (le 1 1) ;;
      memcpy_to (dest + (offset + 1)) (le 1 (undo_bucket_value_ u)) ;;
      memcpy_to (dest + (offset + 1 + 1)) (enc_RmPageHdr (undo_page_hdr_ u)) ;;
      memcpy_to (dest + (offset + 1 + 1 + sizeof_RmPageHdr)) (le 4 (undo_first_free_page_no_ u))
  end.

Definition Delete_serialize (table : Z) (name : buffer) (page slot : Z)
    (dm : option DeleteMeta) (um : option UndoMeta) (dest : Z) : M buffer unit :=
  memcpy_to (dest + OFFSET_LOG_DATA) (le 4 table) ;;
  memcpy_to (dest + (OFFSET_LOG_DATA + 4)) (le 8 (len name)) ;;
  put_name (dest + (OFFSET_LOG_DATA + 4 + 8)) name ;;
  let offset := OFFSET_LOG_DATA + 4 + 8 + len name in
  memcpy_to (dest + offset) (le 4 page) ;;
  memcpy_to (dest + (offset + 4)) (le 4 slot) ;;
  offset' ← put_delete_meta dm dest (offset + 4 + 4) ;
  put_undo_meta um dest offset'.

Definition FSMUpdate_serialize (table page free : Z) (name : buffer) (dest : Z) : M buffer unit :=
  memcpy_to (dest + OFFSET_LOG_DATA) (le 4 table) ;;
  memcpy_to (dest + (OFFSET_LOG_DATA + 4)) (le 4 page) ;;
  memcpy_to (dest + (OFFSET_LOG_DATA + 4 + 4)) (le 4 free) ;;
  memcpy_to (dest + (OFFSET_LOG_DATA + 4 + 4 + 4)) (le 8 (len name)) ;;
  put_name (dest + (OFFSET_LOG_DATA + 4 + 4 + 4 + 8)) name.

Definition Update_serialize (value : RmRecord) (rid : Rid) (name : buffer)
    (old : option RmRecord) (dest : Z) : M buffer unit :=
  offset ← Serialize value (dest + OFFSET_LOG_DATA) OFFSET_LOG_DATA ;
  memcpy_to (dest + offset) (enc_Rid rid) ;;
  memcpy_to (dest + (offset + sizeof_Rid)) (le 8 (len name)) ;;
  memcpy_to (dest + (offset + sizeof_Rid + 8)) name ;;
  let offset := offset + sizeof_Rid + 8 + len name in
  match old with
  | None => memcpy_to (dest + offset) (le 1 0)
  | Some v =>
      memcpy_to (dest + offset) (le 1 1) ;;
      Serialize v (dest + (offset + 1)) (offset + 1) ;;
      mret tt
  end.

Definition NewPage_serialize (pages table : Z) (name : buffer) (dest : Z) : M buffer unit :=
  memcpy_to (dest + OFFSET_LOG_DATA) (le 4 pages) ;;
  memcpy_to (dest + (OFFSET_LOG_DATA + 4)) (le 4 table) ;;
  memcpy_to (dest + (OFFSET_LOG_DATA + 4 + 4)) (le 8 (len name)) ;;
  put_name (dest + (OFFSET_LOG_DATA + 4 + 4 + 8)) name.

Definition Lock_serialize (table : Z) (rid : Rid) (lock ts node owner : Z) (name : buffer)
    (dest : Z) : M buffer unit :=
  memcpy_to (dest + OFFSET_LOG_DATA) (le 4 table) ;;
  memcpy_to (dest + (OFFSET_LOG_DATA + 4)) (enc_Rid rid) ;;
  let offset := OFFSET_LOG_DATA + 4 + sizeof_Rid in
  memcpy_to (dest + offset) (le 8 lock) ;;
  memcpy_to (dest + (offset + 8)) (le 8 ts) ;;
  memcpy_to (dest + (offset + 8 + 8)) (le 1 node) ;;
  memcpy_to (dest + (offset + 8 + 8 + 1)) (le 1 owner) ;;
  memcpy_to (dest + (offset + 8 + 8 + 1 + 1)) (le 8 (len name)) ;;
  memcpy_to (dest + (offset + 8 + 8 + 1 + 1 + 8)) name.

Definition kEnvelopeSize : Z := LOG_HEADER_SIZE + 4 + 8.

(** FNV-1a, in 64 bits. *)
Definition Checksum (bs : buffer) : Z :=
  fold_left (λ hash b, u64 (Z.lxor hash b * 1099511628211)) bs 14695981039346656037.

Definition Prepared_serialize (tot : Z) (payload : buffer) (dest : Z) : M buffer unit :=
  memcpy_to (dest + LOG_HEADER_SIZE) (le 4 (len payload)) ;;
  memcpy_to (dest + LOG_HEADER_SIZE + 4) payload ;;
  bs ← memcpy_from dest (tot - 8) ;
  memcpy_to (dest + tot - 8) (le 8 (Checksum bs)).

Definition serialize (r : LogRecord) (dest : Z) : M buffer unit :=
  LogRecord_serialize (hdr r) dest ;;
  match body r with
  | BeginBody | CommitBody | AbortBody | BatchEndBody => mret tt
  | InsertBody v p s n => Insert_serialize v p s n dest
  | DeleteBody t n p s dm um => Delete_serialize t n p s dm um dest
  | FSMUpdateBody t p f n => FSMUpdate_serialize t p f n dest
  | UpdateBody v r n o => Update_serialize v r n o dest
  | NewPageBody ps t n => NewPage_serialize ps t n dest
  | LockBody t r l ts nd ow n => Lock_serialize t r l ts nd ow n dest
  | PreparedBody payload => Prepared_serialize (log_tot_len_ (hdr r)) payload dest
  end.

(** ** [deserialize] *)

Definition Insert_deserialize (src : Z) : M buffer LogBody :=
  '(value, offset) ← Deserialize (src + OFFSET_LOG_DATA) OFFSET_LOG_DATA ;
  page ← load_sint (src + offset) 4 ;
  slot ← load_sint (src + (offset + 4)) 4 ;
  size ← load_uint (src + (offset + 4 + 4)) 8 ;
  name ← memcpy_from (src + (offset + 4 + 4 + 8)) size ;
  mret (InsertBody value page slot name).

Definition get_delete_meta (src offset : Z) : M buffer (option DeleteMeta * Z) :=
  flag ← load_uint (src + offset) 1 ;
  if flag =? 0 then mret (None, offset + 1)
  else
    bucket ← load_sint (src + (offset + 1)) 4 ;
    value ← load_uint (src + (offset + 1 + 4)) 1 ;
    page ← load_RmPageHdr (src + (offset + 1 + 4 + 1)) ;
    free ← load_sint (src + (offset + 1 + 4 + 1 + sizeof_RmPageHdr)) 4 ;
    mret (Some (mkDeleteMeta bucket value page free), offset + 1 + 4 + 1 + sizeof_RmPageHdr + 4).

Definition get_undo_meta (src offset : Z) : M buffer (option UndoMeta) :=
  flag ← load_uint (src + offset) 1 ;
  if flag =? 0 then mret None
  else
    value ← load_uint (src + (offset + 1)) 1 ;
    page ← load_RmPageHdr (src + (offset + 1 + 1)) ;
    free ← load_sint (src + (offset + 1 + 1 + sizeof_RmPageHdr)) 4 ;
    mret (Some (mkUndoMeta value page free)).

Definition Delete_deserialize (src : Z) : M buffer LogBody :=
  table ← load_sint (src + OFFSET_LOG_DATA) 4 ;
  size ← load_uint (src + (OFFSET_LOG_DATA + 4)) 8 ;
  name ← get_name (src + (OFFSET_LOG_DATA + 4 + 8)) size ;
  let offset := OFFSET_LOG_DATA + 4 + 8 + size in
  page ← load_sint (src + offset) 4 ;
  slot ← load_sint (src + (offset + 4)) 4 ;
  '(dm, offset') ← get_delete_meta src (offset + 4 + 4) ;
  um ← get_undo_meta src offset' ;
  mret (DeleteBody table name page slot dm um).

Definition FSMUpdate_deserialize (src : Z) : M buffer LogBody :=
  table ← load_sint (src + OFFSET_LOG_DATA) 4 ;
  page ← load_uint (src + (OFFSET_LOG_DATA + 4)) 4 ;
  free ← load_uint (src + (OFFSET_LOG_DATA + 4 + 4)) 4 ;
  size ← load_uint (src + (OFFSET_LOG_DATA + 4 + 4 + 4)) 8 ;
  name ← get_name (src + (OFFSET_LOG_DATA + 4 + 4 + 4 + 8)) size ;
  mret (FSMUpdateBody table page free name).

Definition Update_deserialize (src : Z) : M buffer LogBody :=
  '(value, offset) ← Deserialize (src + OFFSET_LOG_DATA) OFFSET_LOG_DATA ;
  rid ← load_Rid (src + offset) ;
  size ← load_uint (src + (offset + sizeof_Rid)) 8 ;
  name ← memcpy_from (src + (offset + sizeof_Rid + 8)) size ;
  let offset := offset + sizeof_Rid + 8 + size in
  has_old ← load_uint (src + offset) 1 ;
  if has_old =? 0 then mret (UpdateBody value rid name None)
  else
    '(old, _) ← Deserialize (src + (offset + 1)) (offset + 1) ;
    mret (UpdateBody value rid name (Some old)).

Definition NewPage_deserialize (src : Z) : M buffer LogBody :=
  pages ← load_sint (src + OFFSET_LOG_DATA) 4 ;
  table ← load_sint (src + (OFFSET_LOG_DATA + 4)) 4 ;
  size ← load_uint (src + (OFFSET_LOG_DATA + 4 + 4)) 8 ;
  name ← get_name (src + (OFFSET_LOG_DATA + 4 + 4 + 8)) size ;
  mret (NewPageBody pages table name).

Definition Lock_deserialize (src : Z) : M buffer LogBody :=
  table ← load_sint (src + OFFSET_LOG_DATA) 4 ;
  rid ← load_Rid (src + (OFFSET_LOG_DATA + 4)) ;
  let offset := OFFSET_LOG_DATA + 4 + sizeof_Rid in
  lock ← load_uint (src + offset) 8 ;
  ts ← load_uint (src + (offset + 8)) 8 ;
  node ← load_uint (src + (offset + 8 + 8)) 1 ;
  owner ← load_uint (src + (offset + 8 + 8 + 1)) 1 ;
  size ← load_uint (src + (offset + 8 + 8 + 1 + 1)) 8 ;
  name ← memcpy_from (src + (offset + 8 + 8 + 1 + 1 + 8)) size ;
  mret (LockBody table rid lock ts node owner name).

(** [PreparedLogRecord::Decode]; [None] is the answer false. *)
Definition Decode `{RequestCodec} (src available : Z) : M buffer (option LogRecord) :=
  if available <? kEnvelopeSize then mret None
  else
    length ← load_uint (src + OFFSET_LOG_TOT_LEN) 4 ;
    if (length <? kEnvelopeSize) || (LOG_REPLAY_BUFFER_SIZE <? length) || (available <? length)
    then mret None
    else
      payload_size ← load_uint (src + LOG_HEADER_SIZE) 4 ;
      if negb (payload_size =? length - kEnvelopeSize) then mret None
      else
        stored_sum ← load_uint (src + length - 8) 8 ;
        bs ← memcpy_from src (length - 8) ;
        if negb (stored_sum =? Checksum bs) then mret None
        else
          payload ← memcpy_from (src + LOG_HEADER_SIZE + 4) payload_size ;
          match ParseFromArray payload with
          | None => mret None
          | Some request =>
              if negb (ValidRequest request) then mret None
              else
                h ← LogRecord_deserialize src ;
                if negb (log_type_ h =? PREPARED) ||
                   negb (log_tid_ h =? transaction_id request) ||
                   negb (log_node_id_ h =? participant_node request) ||
                   negb (prev_lsn_ h =? INVALID_LSN)
                then mret None
                else mret (Some (mkLog h (PreparedBody payload)))
          end.

(** The body that [deserialize] of the class for [type] reads. *)
Definition body_deserialize (type src : Z) : M buffer LogBody :=
  if type =? BEGIN then mret BeginBody
  else if type =? ABORT then mret AbortBody
  else if type =? COMMIT then mret CommitBody
  else if type =? INSERT then Insert_deserialize src
  else if type =? UPDATE then Update_deserialize src
  else if type =? DELETE then Delete_deserialize src
  else if type =? NEWPAGE then NewPage_deserialize src
  else if type =? FSMUPDATE then FSMUpdate_deserialize src
  else if type =? BATCHEND then mret BatchEndBody
  else if type =? LOCK then Lock_deserialize src
  else crash (AssertFailed 709).

(** [ReplayError], which ends the process, is a failed assertion. *)
Definition DecodeRecord `{RequestCodec} (data size : Z) : M buffer LogRecord :=
  type ← load_sint (data + OFFSET_LOG_TYPE) 4 ;
  if type =? PREPARED then
    r ← Decode data size ;
    match r with
    | Some r => mret r
    | None => crash (AssertFailed 713)
    end
  else
    if bool_decide (type ∈ [BEGIN; ABORT; COMMIT; INSERT; UPDATE; DELETE; NEWPAGE; FSMUPDATE;
                            BATCHEND; LOCK])
    then
      h ← LogRecord_deserialize data ;
      b ← body_deserialize type data ;
      mret (mkLog h b)
    else crash (AssertFailed 709).

(** ** Constructors: each computes the length of what it will write *)

Definition new_LogHeader (type tot tid : Z) (batch node : Z) : LogHeader :=
  mkLogHeader batch type INVALID_LSN (u32 tot) tid node INVALID_LSN.

Definition new_BeginLogRecord (batch node txn : Z) : LogRecord :=
  mkLog (new_LogHeader BEGIN LOG_HEADER_SIZE txn batch node) BeginBody.
Definition new_CommitLogRecord (batch node txn : Z) : LogRecord :=
  mkLog (new_LogHeader COMMIT LOG_HEADER_SIZE txn batch node) CommitBody.
Definition new_AbortLogRecord (batch node txn : Z) : LogRecord :=
  mkLog (new_LogHeader ABORT LOG_HEADER_SIZE txn batch node) AbortBody.
Definition new_BatchEndLogRecord (batch node txn : Z) : LogRecord :=
  mkLog (new_LogHeader BATCHEND LOG_HEADER_SIZE txn batch node) BatchEndBody.

Definition new_InsertLogRecord (batch node txn : Z) (value : RmRecord) (page slot : Z)
    (name : buffer) : LogRecord :=
  mkLog (new_LogHeader INSERT
           (LOG_HEADER_SIZE + 8 + 8 + value_size_ value + 4 + 4 + (8 + len name)) txn batch node)
    (InsertBody value page slot name).

Definition new_DeleteLogRecord (batch node txn table : Z) (name : buffer) (page slot : Z)
    : LogRecord :=
  mkLog (new_LogHeader DELETE
           (LOG_HEADER_SIZE + 4 + 8 + len name + 4 + 4 + 1 + 1) txn batch node)
    (DeleteBody table name page slot None None).

Definition add_tot_len (n : Z) (h : LogHeader) : LogHeader :=
  mkLogHeader (log_batch_id_ h) (log_type_ h) (lsn_ h) (u32 (log_tot_len_ h + n)) (log_tid_ h)
    (log_node_id_ h) (prev_lsn_ h).

(** [set_meta]; called twice it counts the bytes twice. *)
Definition set_meta (d : DeleteMeta) (u : UndoMeta) (r : LogRecord) : LogRecord :=
  match body r with
  | DeleteBody t n p s _ _ =>
      mkLog (add_tot_len (4 + 1 + sizeof_RmPageHdr + 4 + 1 + sizeof_RmPageHdr + 4) (hdr r))
        (DeleteBody t n p s (Some d) (Some u))
  | _ => r
  end.

Definition new_FSMUpdateLogRecord (batch node txn table : Z) (name : buffer) (page free : Z)
    : LogRecord :=
  mkLog (new_LogHeader FSMUPDATE (LOG_HEADER_SIZE + 4 + 4 + 4 + 8 + len name) txn batch node)
    (FSMUpdateBody table page free name).

Definition AttachUndoPayload (old : RmRecord) (r : LogRecord) : LogRecord :=
  match body r with
  | UpdateBody v rid n None =>
      mkLog (add_tot_len (8 + 8 + value_size_ old) (hdr r)) (UpdateBody v rid n (Some old))
  | _ => r
  end.

Definition new_UpdateLogRecord (batch node txn : Z) (value : RmRecord) (rid : Rid)
    (name : buffer) (old : option RmRecord) : LogRecord :=
  let r := mkLog (new_LogHeader UPDATE
             (LOG_HEADER_SIZE + 1 + 8 + 8 + value_size_ value + sizeof_Rid + 8 + len name)
             txn batch node)
             (UpdateBody value rid name None) in
  match old with
  | Some v => AttachUndoPayload v r
  | None => r
  end.

Definition new_NewPageLogRecord (batch node txn table : Z) (name : buffer) (pages : Z) : LogRecord :=
  mkLog (new_LogHeader NEWPAGE (LOG_HEADER_SIZE + 4 + 4 + 8 + len name) txn batch node)
    (NewPageBody pages table name).

Definition new_LockLogRecord (batch node txn table : Z) (name : buffer) (rid : Rid)
    (lock ts holder owner : Z) : LogRecord :=
  mkLog (new_LogHeader LOCK
           (LOG_HEADER_SIZE + 4 + sizeof_Rid + 8 + 8 + 1 + 1 + 8 + len name) txn batch node)
    (LockBody table rid lock ts holder owner name).

(** [None]: the exception for an invalid or oversized request. *)
Definition new_PreparedLogRecord `{RequestCodec} (r : PrepareRequest) : option LogRecord :=
  let payload := SerializeAsString r in
  if negb (ValidRequest r) || (LOG_REPLAY_BUFFER_SIZE - kEnvelopeSize <? len payload) then None
  else Some (mkLog (mkLogHeader INVALID_BATCH_ID PREPARED INVALID_LSN
                      (u32 (kEnvelopeSize + len payload)) (transaction_id r) (participant_node r)
                      INVALID_LSN)
               (PreparedBody payload)).

(** [log->prev_lsn_ = ..; log->lsn_ = ..], before the record is queued. *)
Definition set_lsns (prev lsn : Z) (r : LogRecord) : LogRecord :=
  let h := hdr r in
  mkLog (mkLogHeader (log_batch_id_ h) (log_type_ h) lsn (log_tot_len_ h) (log_tid_ h)
           (log_node_id_ h) prev) (body r).
