(* ===== verification/LogFormat.v ===== *)
(** The format of the write-ahead log: [encode] says what the bytes of a record
    are; [serialize] writes exactly them, within the length that the record
    states, and [DecodeRecord] reads them back. *)

From S2P Require Import Prelude Common Bytes Record PreparedTxn LogRecord.

(** ** The format *)

Definition enc_header (h : LogHeader) : buffer :=
  le 8 (log_batch_id_ h) ++ le 4 (log_type_ h) ++ le 8 (lsn_ h) ++ le 4 (log_tot_len_ h) ++
  le 8 (log_tid_ h) ++ le 4 (log_node_id_ h) ++ le 8 (prev_lsn_ h).

Definition enc_name (name : buffer) : buffer := le 8 (len name) ++ name.

Definition enc_delete_meta (m : option DeleteMeta) : buffer :=
  match m with
  | None => le 1 0
  | Some d => le 1 1 ++ le 4 (bucket_offset_ d) ++ le 1 (bucket_value_ d) ++
              enc_RmPageHdr (page_hdr_ d) ++ le 4 (m_first_free_page_no_ d)
  end.

Definition enc_undo_meta (m : option UndoMeta) : buffer :=
  match m with
  | None => le 1 0
  | Some u => le 1 1 ++ le 1 (undo_bucket_value_ u) ++
              enc_RmPageHdr (undo_page_hdr_ u) ++ le 4 (undo_first_free_page_no_ u)
  end.

Definition enc_old (m : option RmRecord) : buffer :=
  match m with
  | None => le 1 0
  | Some v => le 1 1 ++ enc_RmRecord v
  end.

Definition enc_body (h : LogHeader) (b : LogBody) : buffer :=
  match b with
  | BeginBody | CommitBody | AbortBody | BatchEndBody => []
  | InsertBody v p s n => enc_RmRecord v ++ le 4 p ++ le 4 s ++ enc_name n
  | DeleteBody t n p s dm um =>
      le 4 t ++ enc_name n ++ le 4 p ++ le 4 s ++ enc_delete_meta dm ++ enc_undo_meta um
  | FSMUpdateBody t p f n => le 4 t ++ le 4 p ++ le 4 f ++ enc_name n
  | UpdateBody v r n o => enc_RmRecord v ++ enc_Rid r ++ enc_name n ++ enc_old o
  | NewPageBody ps t n => le 4 ps ++ le 4 t ++ enc_name n
  | LockBody t r l ts nd ow n =>
      le 4 t ++ enc_Rid r ++ le 8 l ++ le 8 ts ++ le 1 nd ++ le 1 ow ++ enc_name n
  | PreparedBody payload =>
      let bs := le 4 (len payload) ++ payload in
      bs ++ le 8 (Checksum (enc_header h ++ bs))
  end.

Definition encode (r : LogRecord) : buffer := enc_header (hdr r) ++ enc_body (hdr r) (body r).

(** ** Which records have a faithful encoding: the fields fit their types, the
    type and the length in the header are those of the record *)

Definition type_of (b : LogBody) : Z :=
  match b with
  | BeginBody => BEGIN | CommitBody => COMMIT | AbortBody => ABORT | BatchEndBody => BATCHEND
  | InsertBody _ _ _ _ => INSERT | DeleteBody _ _ _ _ _ _ => DELETE
  | FSMUpdateBody _ _ _ _ => FSMUPDATE | UpdateBody _ _ _ _ => UPDATE
  | NewPageBody _ _ _ => NEWPAGE | LockBody _ _ _ _ _ _ _ => LOCK | PreparedBody _ => PREPARED
  end.

Definition header_fits (h : LogHeader) : Prop :=
  uint_fits 8 (log_batch_id_ h) ∧ uint_fits 8 (lsn_ h) ∧ uint_fits 4 (log_tot_len_ h) ∧
  uint_fits 8 (log_tid_ h) ∧ sint_fits 4 (log_node_id_ h) ∧ uint_fits 8 (prev_lsn_ h).

Definition delete_meta_fits (d : DeleteMeta) : Prop :=
  sint_fits 4 (bucket_offset_ d) ∧ uint_fits 1 (bucket_value_ d) ∧
  RmPageHdr_fits (page_hdr_ d) ∧ sint_fits 4 (m_first_free_page_no_ d).

Definition undo_meta_fits (u : UndoMeta) : Prop :=
  uint_fits 1 (undo_bucket_value_ u) ∧ RmPageHdr_fits (undo_page_hdr_ u) ∧
  sint_fits 4 (undo_first_free_page_no_ u).

Definition body_fits (b : LogBody) : Prop :=
  match b with
  | BeginBody | CommitBody | AbortBody | BatchEndBody => True
  | InsertBody v p s n => uint_fits 8 (key_ v) ∧ sint_fits 4 p ∧ sint_fits 4 s
  | DeleteBody t n p s dm um =>
      sint_fits 4 t ∧ sint_fits 4 p ∧ sint_fits 4 s ∧
      match dm with Some d => delete_meta_fits d | None => True end ∧
      match um with Some u => undo_meta_fits u | None => True end
  | FSMUpdateBody t p f n => sint_fits 4 t ∧ uint_fits 4 p ∧ uint_fits 4 f
  | UpdateBody v r n o =>
      uint_fits 8 (key_ v) ∧ Rid_fits r ∧
      match o with Some w => uint_fits 8 (key_ w) | None => True end
  | NewPageBody ps t n => sint_fits 4 ps ∧ sint_fits 4 t
  | LockBody t r l ts nd ow n =>
      sint_fits 4 t ∧ Rid_fits r ∧ uint_fits 8 l ∧ uint_fits 8 ts ∧ uint_fits 1 nd ∧
      uint_fits 1 ow
  | PreparedBody payload => True
  end.

Section format.
Context `{RequestCodec}.

(** A vote carries a valid request whose transaction and participant are the
    header's; it fits the buffer of the replayer. *)
Definition vote_ok (r : LogRecord) : Prop :=
  match body r with
  | PreparedBody payload =>
      len payload ≤ LOG_REPLAY_BUFFER_SIZE - kEnvelopeSize ∧
      ∃ q, payload = SerializeAsString q ∧ ValidRequest q = true ∧
           log_tid_ (hdr r) = transaction_id q ∧ log_node_id_ (hdr r) = participant_node q ∧
           prev_lsn_ (hdr r) = INVALID_LSN
  | _ => True
  end.

Record wf (r : LogRecord) : Prop := {
  wf_type : log_type_ (hdr r) = type_of (body r);
  wf_length : log_tot_len_ (hdr r) = len (encode r);
  wf_header : header_fits (hdr r);
  wf_body : body_fits (body r);
  wf_vote : vote_ok r
}.
End format.

(** ** Lengths *)

Lemma len_enc_header h : len (enc_header h) = LOG_HEADER_SIZE.
Proof. unfold enc_header. by len. Qed.
Lemma len_enc_name n : len (enc_name n) = 8 + len n.
Proof. unfold enc_name. len. lia. Qed.
#[export] Hint Rewrite len_enc_header len_enc_name : len.

Lemma encode_length r : LOG_HEADER_SIZE ≤ len (encode r).
Proof. unfold encode. len. pose proof (len_nonneg (enc_body (hdr r) (body r))). lia. Qed.

(** ** [serialize] writes the format *)

Ltac sizes := unfold kEnvelopeSize, LOG_HEADER_SIZE, OFFSET_LOG_DATA, OFFSET_PREV_LSN, OFFSET_LOG_NODE_ID,
  OFFSET_LOG_TID, OFFSET_LOG_TOT_LEN, OFFSET_LSN, OFFSET_LOG_TYPE, OFFSET_BATCH_ID,
  sizeof_Rid, sizeof_RmPageHdr in *.

(** Everything that has to be known about lengths, then arithmetic. *)
Ltac note_len l :=
  lazymatch goal with
  | _ : 0 ≤ len l |- _ => fail
  | _ => pose proof (len_nonneg l)
  end.
Ltac len_lia :=
  unfold enc_name in *; len; unfold value_size_ in *;
  repeat match goal with
  | |- context [len ?l] => note_len l
  | _ : context [len ?l] |- _ => note_len l
  end; sizes; lia.

Ltac put := lazymatch goal with
  | |- wp (memcpy_to _ _) _ (splice _ _ _) => apply wp_write_next; [lia|len_lia|len_lia|]; cbv beta
  | |- wp (Serialize _ _ _) _ (splice _ _ _) => apply wp_Serialize; [lia|len_lia|len_lia|]; cbv beta
  end.

Lemma wp_header dest h (Q : unit → buffer → Prop) buf :
  0 ≤ dest → dest + LOG_HEADER_SIZE ≤ len buf →
  Q tt (splice dest (enc_header h) buf) → wp (LogRecord_serialize h dest) Q buf.
Proof.
  intros Hd Hl HQ. rewrite <- (splice_nil dest buf). unfold LogRecord_serialize.
  do 6 (wp_step; put). put. unfold enc_header in HQ. rewrite <- !app_assoc. exact HQ.
Qed.

Lemma wp_put_name dest l off name (Q : unit → buffer → Prop) buf :
  0 ≤ dest → off = dest + len l → dest + len l + len name ≤ len buf →
  Q tt (splice dest (l ++ name) buf) → wp (put_name off name) Q (splice dest l buf).
Proof.
  intros Hd -> Hl HQ. unfold put_name. wp_step; [by put|].
  destruct name; [by rewrite app_nil_r in HQ|]. rewrite len_cons in *. pose proof (len_nonneg name).
  bool_simpl. lia.
Qed.

Section serialize.
Context (dest : Z) (l buf : buffer).
Hypothesis Hd : 0 ≤ dest.
Hypothesis Hh : len l = LOG_HEADER_SIZE.
Implicit Types Q : unit → buffer → Prop.

(** The body [b] fits, and is written behind the header [l]. *)
Definition writes_body (m : M buffer unit) (bs : buffer) : Prop :=
  ∀ Q, dest + len l + len bs ≤ len buf → Q tt (splice dest (l ++ bs) buf) →
       wp m Q (splice dest l buf).

Lemma Insert_writes h v p s n :
  writes_body (Insert_serialize v p s n dest) (enc_body h (InsertBody v p s n)).
Proof using All.
  intros Q Hl HQ. cbn [enc_body] in *. unfold Insert_serialize.
  wp_step. apply wp_Serialize; [lia|len_lia|len_lia|].
  do 3 (wp_step; put). put. unfold enc_name in HQ. rewrite <- !app_assoc. exact HQ.
Qed.

Lemma put_delete_meta_writes m off k (Q : Z → buffer → Prop) :
  dest + off = dest + len k → dest + len k + len (enc_delete_meta m) ≤ len buf →
  Q (off + len (enc_delete_meta m)) (splice dest (k ++ enc_delete_meta m) buf) →
  wp (put_delete_meta m dest off) Q (splice dest k buf).
Proof using All.
  intros Hoff Hl HQ. unfold put_delete_meta, enc_delete_meta in *. destruct m as [d|].
  - do 5 (wp_step; put). wp_step. rewrite <- !app_assoc.
    replace (off + 1 + 4 + 1 + sizeof_RmPageHdr + 4) with
      (off + len (le 1 1 ++ le 4 (bucket_offset_ d) ++ le 1 (bucket_value_ d) ++
        enc_RmPageHdr (page_hdr_ d) ++ le 4 (m_first_free_page_no_ d))) by len_lia.
    exact HQ.
  - wp_step. put. wp_step. by rewrite len_le in HQ.
Qed.

Lemma put_undo_meta_writes m off k Q :
  dest + off = dest + len k → dest + len k + len (enc_undo_meta m) ≤ len buf →
  Q tt (splice dest (k ++ enc_undo_meta m) buf) →
  wp (put_undo_meta m dest off) Q (splice dest k buf).
Proof using All.
  intros Hoff Hl HQ. unfold put_undo_meta, enc_undo_meta in *. destruct m as [d|].
  - do 3 (wp_step; put). put. by rewrite <- !app_assoc.
  - by put.
Qed.

Lemma Delete_writes h t n p s dm um :
  writes_body (Delete_serialize t n p s dm um dest) (enc_body h (DeleteBody t n p s dm um)).
Proof using All.
  intros Q Hl HQ. cbn [enc_body] in *. unfold Delete_serialize.
  do 2 (wp_step; put). wp_step. apply wp_put_name; [lia|len_lia|len_lia|].
  do 2 (wp_step; put). wp_step.
  pose proof (len_nonneg (enc_undo_meta um)).
  apply put_delete_meta_writes; [len_lia|len_lia|].
  apply put_undo_meta_writes; [len_lia|len_lia|].
  unfold enc_name in HQ. rewrite <- !app_assoc. rewrite <- !app_assoc in HQ. exact HQ.
Qed.

Lemma FSMUpdate_writes h t p f n :
  writes_body (FSMUpdate_serialize t p f n dest) (enc_body h (FSMUpdateBody t p f n)).
Proof using All.
  intros Q Hl HQ. cbn [enc_body] in *. unfold FSMUpdate_serialize.
  do 4 (wp_step; put). apply wp_put_name; [lia|len_lia|len_lia|].
  unfold enc_name in HQ. rewrite <- !app_assoc. exact HQ.
Qed.

Lemma Update_writes h v r n o :
  writes_body (Update_serialize v r n o dest) (enc_body h (UpdateBody v r n o)).
Proof using All.
  intros Q Hl HQ. cbn [enc_body] in *. unfold Update_serialize.
  pose proof (len_nonneg (enc_old o)).
  wp_step. apply wp_Serialize; [lia|len_lia|len_lia|].
  do 3 (wp_step; put). unfold enc_name in HQ. destruct o as [w|]; cbn [enc_old] in *.
  - wp_step. put. wp_step. put. wp_step. rewrite <- !app_assoc. rewrite <- !app_assoc in HQ. exact HQ.
  - put. rewrite <- !app_assoc. rewrite <- !app_assoc in HQ. exact HQ.
Qed.

Lemma NewPage_writes h ps t n :
  writes_body (NewPage_serialize ps t n dest) (enc_body h (NewPageBody ps t n)).
Proof using All.
  intros Q Hl HQ. cbn [enc_body] in *. unfold NewPage_serialize.
  do 3 (wp_step; put). apply wp_put_name; [lia|len_lia|len_lia|].
  unfold enc_name in HQ. rewrite <- !app_assoc. exact HQ.
Qed.

Lemma Lock_writes h t r lk ts nd ow n :
  writes_body (Lock_serialize t r lk ts nd ow n dest) (enc_body h (LockBody t r lk ts nd ow n)).
Proof using All.
  intros Q Hl HQ. cbn [enc_body] in *. unfold Lock_serialize.
  do 7 (wp_step; put). put. unfold enc_name in HQ. rewrite <- !app_assoc. exact HQ.
Qed.
End serialize.

(** The checksum covers what has been written so far. *)
Lemma Prepared_writes dest h payload buf (Q : unit → buffer → Prop) :
  0 ≤ dest → log_tot_len_ h = len (encode (mkLog h (PreparedBody payload))) →
  dest + log_tot_len_ h ≤ len buf →
  Q tt (splice dest (encode (mkLog h (PreparedBody payload))) buf) →
  wp (Prepared_serialize (log_tot_len_ h) payload dest) Q (splice dest (enc_header h) buf).
Proof.
  intros Hd Ht Hl HQ. unfold Prepared_serialize. rewrite Ht in *. unfold encode in *. cbn [enc_body hdr body] in *.
  set (bs := enc_header h ++ le 4 (len payload) ++ payload) in *.
  assert (len bs = LOG_HEADER_SIZE + 4 + len payload) as Hbs by (unfold bs; len_lia).
  assert (len (enc_header h ++ (le 4 (len payload) ++ payload) ++ le 8 (Checksum bs)) =
          len bs + 8) as Et by (unfold bs; len_lia).
  rewrite Et in *.
  do 2 (wp_step; put). wp_step. unfold bs in HQ.
  rewrite <- !app_assoc in *. fold bs in HQ |- *.
  assert (stored (splice dest bs buf) dest (bs ++ [])) as Hs.
  { rewrite app_nil_r. apply stored_splice; lia. }
  eapply wp_read; [exact Hs|done|lia|]. intros _.
  put. unfold bs at 1. rewrite <- !app_assoc. exact HQ.
Qed.

Lemma wp_serialize `{RequestCodec} dest r (Q : unit → buffer → Prop) buf :
  0 ≤ dest → log_tot_len_ (hdr r) = len (encode r) → dest + len (encode r) ≤ len buf →
  Q tt (splice dest (encode r) buf) → wp (serialize r dest) Q buf.
Proof.
  intros Hd Ht Hl HQ. unfold serialize. pose proof (encode_length r). wp_step.
  apply wp_header; [done|lia|]. destruct r as [h b]. unfold encode in *. cbn [hdr body] in *.
  assert (len (enc_header h) = LOG_HEADER_SIZE) as Hh by apply len_enc_header.
  rewrite len_app in Hl.
  destruct b; try (cbn [enc_body] in HQ; rewrite app_nil_r in HQ; by wp_step).
  - eapply Insert_writes; [done|done| |exact HQ]; lia.
  - eapply Delete_writes; [done|done| |exact HQ]; lia.
  - eapply FSMUpdate_writes; [done|done| |exact HQ]; lia.
  - eapply Update_writes; [done|done| |exact HQ]; lia.
  - eapply NewPage_writes; [done|done| |exact HQ]; lia.
  - eapply Lock_writes; [done|done| |exact HQ]; lia.
  - apply Prepared_writes; [done|exact Ht| |exact HQ]. rewrite Ht, len_app. lia.
Qed.

(** ** [DecodeRecord] reads the format *)

Ltac get Hs :=
  lazymatch goal with
  | |- wp (load_uint _ _) _ _ =>
      eapply wp_read_uint; [exact Hs|len_lia|first [assumption|tauto]|]
  | |- wp (load_sint _ _) _ _ =>
      eapply wp_read_sint; [exact Hs|len_lia|lia|first [assumption|tauto]|]
  | |- wp (memcpy_from _ _) _ _ => eapply wp_read; [exact Hs|len_lia|len_lia|]
  | |- wp (load_Rid _) _ _ => eapply wp_load_Rid; [exact Hs|len_lia|tauto|]
  | |- wp (load_RmPageHdr _) _ _ => eapply wp_load_RmPageHdr; [exact Hs|len_lia|tauto|]
  end; clear Hs; intros Hs; cbv beta.

Lemma enc_name_nil n : enc_name n = le 8 (len n) ++ n ++ [].
Proof. unfold enc_name. by rewrite app_nil_r. Qed.

Lemma stored_le buf off w z : stored buf off (le w z) → stored buf off (le w z ++ []).
Proof. by rewrite app_nil_r. Qed.

Lemma uint_fits_len (n : buffer) k : 0 ≤ k → k + len n < 2 ^ 64 → uint_fits 8 (len n).
Proof. intros. unfold uint_fits. change (8 * Z.of_nat 8) with 64. pose proof (len_nonneg n). lia. Qed.

Section decode.
Context (src : Z) (buf : buffer).
Implicit Types Q : LogBody → buffer → Prop.

Definition reads_body (m : M buffer LogBody) (bs : buffer) (b : LogBody) : Prop :=
  ∀ Q, stored buf (src + LOG_HEADER_SIZE) bs → len bs < 2 ^ 32 → Q b buf → wp m Q buf.

Lemma wp_get_name off' l off name (Q : buffer → buffer → Prop) :
  stored buf off' (name ++ l) → off = off' →
  (stored buf (off' + len name) l → Q name buf) → wp (get_name off (len name)) Q buf.
Proof using All.
  intros Hs -> HQ. unfold get_name. destruct (Z.ltb_spec 0 (len name)).
  - eapply wp_read; [exact Hs|done|done|exact HQ].
  - destruct name; [|rewrite len_cons in *; pose proof (len_nonneg name); lia].
    apply wp_ret. apply HQ. by rewrite len_nil, Z.add_0_r.
Qed.

Lemma Insert_reads h v p s n :
  body_fits (InsertBody v p s n) →
  reads_body (Insert_deserialize src) (enc_body h (InsertBody v p s n)) (InsertBody v p s n).
Proof using All.
  intros (F1 & F2 & F3) Q Hs Hl HQ. cbn [enc_body] in *. unfold Insert_deserialize.
  assert (uint_fits 8 (value_size_ v)) by (apply (uint_fits_len _ 0); [lia|len_lia]).
  assert (uint_fits 8 (len n)) by (apply (uint_fits_len _ 0); [lia|len_lia]).
  rewrite enc_name_nil in Hs.
  wp_step. eapply wp_Deserialize; [exact Hs|done|by split|]. clear Hs. intros Hs. cbv beta iota.
  do 4 (wp_step; get Hs). by wp_step.
Qed.

Lemma get_delete_meta_reads m off off' l (Q : option DeleteMeta * Z → buffer → Prop) :
  match m with Some d => delete_meta_fits d | None => True end →
  stored buf off' (enc_delete_meta m ++ l) → src + off = off' →
  (stored buf (off' + len (enc_delete_meta m)) l → Q (m, off + len (enc_delete_meta m)) buf) →
  wp (get_delete_meta src off) Q buf.
Proof using All.
  intros Hm Hs <- HQ. unfold get_delete_meta, enc_delete_meta in *.
  destruct m as [[bo bv ph ff]|]; cbn [bucket_offset_ bucket_value_ page_hdr_ m_first_free_page_no_] in *.
  - destruct Hm as (F1 & F2 & F3 & F4). simpl in F1, F2, F3, F4. rewrite <- !app_assoc in Hs.
    assert (uint_fits 1 1) by done.
    wp_step. get Hs. cbn [Z.eqb Pos.eqb]. do 4 (wp_step; get Hs). wp_step.
    set (bs := le 1 1 ++ _) in HQ. assert (len bs = 34) as Eb by (subst bs; len_lia).
    rewrite Eb in HQ. replace (off + 1 + 4 + 1 + sizeof_RmPageHdr + 4) with (off + 34) by (sizes; lia).
    apply HQ. replace (src + off + 34) with
      (src + off + Z.of_nat 1 + Z.of_nat 4 + Z.of_nat 1 + sizeof_RmPageHdr + Z.of_nat 4)
      by (sizes; lia).
    exact Hs.
  - assert (uint_fits 1 0) by done. wp_step. get Hs. cbn [Z.eqb]. wp_step.
    rewrite len_le in HQ. by apply HQ.
Qed.

Lemma get_undo_meta_reads m off off' (Q : option UndoMeta → buffer → Prop) :
  match m with Some u => undo_meta_fits u | None => True end →
  stored buf off' (enc_undo_meta m) → src + off = off' →
  Q m buf → wp (get_undo_meta src off) Q buf.
Proof using All.
  intros Hm Hs <- HQ. rewrite <- (app_nil_r (enc_undo_meta m)) in Hs.
  unfold get_undo_meta, enc_undo_meta in *.
  destruct m as [[uv ph ff]|]; cbn [undo_bucket_value_ undo_page_hdr_ undo_first_free_page_no_] in *.
  - destruct Hm as (F1 & F2 & F3). simpl in F1, F2, F3. rewrite <- !app_assoc in Hs.
    assert (uint_fits 1 1) by done.
    wp_step. get Hs. cbn [Z.eqb Pos.eqb]. do 3 (wp_step; get Hs). by wp_step.
  - assert (uint_fits 1 0) by done. wp_step. get Hs. cbn [Z.eqb]. by wp_step.
Qed.

Lemma Delete_reads h t n p s dm um :
  body_fits (DeleteBody t n p s dm um) →
  reads_body (Delete_deserialize src) (enc_body h (DeleteBody t n p s dm um))
    (DeleteBody t n p s dm um).
Proof using All.
  intros (F1 & F2 & F3 & F4 & F5) Q Hs Hl HQ. cbn [enc_body] in *. unfold Delete_deserialize.
  assert (uint_fits 8 (len n)).
  { apply (uint_fits_len _ 0); [lia|]. pose proof (len_nonneg (enc_undo_meta um)).
    pose proof (len_nonneg (enc_delete_meta dm)). len_lia. }
  unfold enc_name in Hs. rewrite <- !app_assoc in Hs.
  do 2 (wp_step; get Hs). wp_step. eapply wp_get_name; [exact Hs|len_lia|].
  clear Hs. intros Hs. cbv beta zeta. do 2 (wp_step; get Hs). wp_step.
  eapply get_delete_meta_reads; [exact F4|exact Hs|len_lia|]. clear Hs. intros Hs. cbv beta iota.
  wp_step. eapply get_undo_meta_reads; [exact F5|exact Hs|len_lia|]. by wp_step.
Qed.

Lemma FSMUpdate_reads h t p f n :
  body_fits (FSMUpdateBody t p f n) →
  reads_body (FSMUpdate_deserialize src) (enc_body h (FSMUpdateBody t p f n))
    (FSMUpdateBody t p f n).
Proof using All.
  intros (F1 & F2 & F3) Q Hs Hl HQ. cbn [enc_body] in *. unfold FSMUpdate_deserialize.
  assert (uint_fits 8 (len n)) by (apply (uint_fits_len _ 0); [lia|len_lia]).
  rewrite enc_name_nil in Hs.
  do 4 (wp_step; get Hs). wp_step. eapply wp_get_name; [exact Hs|len_lia|]. intros _. by wp_step.
Qed.

Lemma Update_reads h v r n o :
  body_fits (UpdateBody v r n o) →
  reads_body (Update_deserialize src) (enc_body h (UpdateBody v r n o)) (UpdateBody v r n o).
Proof using All.
  intros (F1 & F2 & F3) Q Hs Hl HQ. cbn [enc_body] in *. unfold Update_deserialize.
  pose proof (len_nonneg (enc_old o)).
  assert (uint_fits 8 (value_size_ v)) by (apply (uint_fits_len _ 0); [lia|len_lia]).
  assert (uint_fits 8 (len n)) by (apply (uint_fits_len _ 0); [lia|len_lia]).
  unfold enc_name in Hs. rewrite <- !app_assoc in Hs.
  wp_step. eapply wp_Deserialize; [exact Hs|done|by split|]. clear Hs. intros Hs. cbv beta iota.
  do 3 (wp_step; get Hs). cbv zeta.
  assert (uint_fits 1 1) by done. assert (uint_fits 1 0) by done.
  wp_step. destruct o as [w|]; cbn [enc_old] in Hs.
  - get Hs. cbn [Z.eqb Pos.eqb].
    assert (uint_fits 8 (value_size_ w)).
    { apply (uint_fits_len _ 0); [lia|]. cbn [enc_old] in *. len_lia. }
    wp_step. rewrite <- (app_nil_r (enc_RmRecord w)) in Hs.
    eapply wp_Deserialize; [exact Hs|len_lia|by split|]. intros _. cbv beta iota. by wp_step.
  - apply stored_le in Hs. get Hs. cbn [Z.eqb]. by wp_step.
Qed.

Lemma NewPage_reads h ps t n :
  body_fits (NewPageBody ps t n) →
  reads_body (NewPage_deserialize src) (enc_body h (NewPageBody ps t n)) (NewPageBody ps t n).
Proof using All.
  intros (F1 & F2) Q Hs Hl HQ. cbn [enc_body] in *. unfold NewPage_deserialize.
  assert (uint_fits 8 (len n)) by (apply (uint_fits_len _ 0); [lia|len_lia]).
  rewrite enc_name_nil in Hs.
  do 3 (wp_step; get Hs). wp_step. eapply wp_get_name; [exact Hs|len_lia|]. intros _. by wp_step.
Qed.

Lemma Lock_reads h t r lk ts nd ow n :
  body_fits (LockBody t r lk ts nd ow n) →
  reads_body (Lock_deserialize src) (enc_body h (LockBody t r lk ts nd ow n))
    (LockBody t r lk ts nd ow n).
Proof using All.
  intros (F1 & F2 & F3 & F4 & F5 & F6) Q Hs Hl HQ. cbn [enc_body] in *. unfold Lock_deserialize.
  assert (uint_fits 8 (len n)) by (apply (uint_fits_len _ 0); [lia|len_lia]).
  rewrite enc_name_nil in Hs.
  do 8 (wp_step; get Hs). by wp_step.
Qed.
End decode.

Lemma type_of_cases b :
  type_of b ∈ [UPDATE; INSERT; DELETE; BEGIN; COMMIT; ABORT; NEWPAGE; FSMUPDATE; BATCHEND; LOCK; PREPARED].
Proof. destruct b; vm_compute; set_solver. Qed.

Lemma type_fits b : sint_fits 4 (type_of b).
Proof. destruct b; vm_compute; split; congruence. Qed.

Section roundtrip.
Context `{RequestCodec}.
Implicit Types r : LogRecord.

Lemma wp_LogRecord_deserialize buf src l h (Q : LogHeader → buffer → Prop) :
  stored buf src (enc_header h ++ l) → header_fits h → sint_fits 4 (log_type_ h) →
  Q h buf → wp (LogRecord_deserialize src) Q buf.
Proof using All.
  intros Hs (F1 & F2 & F3 & F4 & F5 & F6) Ft HQ. unfold LogRecord_deserialize, enc_header in *.
  rewrite <- !app_assoc in Hs. do 7 (wp_step; get Hs). wp_step. by destruct h.
Qed.

(** Any field of the header, at its offset. *)
Lemma stored_header_field buf src h l :
  stored buf src (enc_header h ++ l) →
  stored buf (src + OFFSET_LOG_TYPE) (le 4 (log_type_ h)) ∧
  stored buf (src + OFFSET_LOG_TOT_LEN) (le 4 (log_tot_len_ h)) ∧
  stored buf (src + OFFSET_LOG_NODE_ID) (le 4 (log_node_id_ h)).
Proof using All.
  intros Hs. unfold enc_header in Hs. rewrite <- !app_assoc in Hs.
  apply stored_app in Hs as [_ Hs]. apply stored_app in Hs as [S1 Hs].
  apply stored_app in Hs as [_ Hs]. apply stored_app in Hs as [S2 Hs].
  apply stored_app in Hs as [_ Hs]. apply stored_app in Hs as [S3 _].
  rewrite !len_le in *. sizes. split_and!.
  - by replace (src + 8) with (src + Z.of_nat 8) by lia.
  - replace (src + (8 + 4 + 8)) with (src + Z.of_nat 8 + Z.of_nat 4 + Z.of_nat 8) by lia. done.
  - replace (src + (8 + 4 + 8 + 4 + 8)) with
      (src + Z.of_nat 8 + Z.of_nat 4 + Z.of_nat 8 + Z.of_nat 4 + Z.of_nat 8) by lia. done.
Qed.

(** A read from the middle, when the place of the bytes is known. *)
Lemma wp_load_at buf off w z (Q : Z → buffer → Prop) :
  stored buf off (le w z) → uint_fits w z → Q z buf → wp (load_uint off w) Q buf.
Proof using All.
  intros Hs Hf HQ. eapply wp_read_uint; [by apply stored_le|done|done|auto].
Qed.

Lemma wp_load_sint_at buf off w z (Q : Z → buffer → Prop) :
  stored buf off (le w z) → (0 < w)%nat → sint_fits w z → Q z buf → wp (load_sint off w) Q buf.
Proof using All.
  intros Hs Hw Hf HQ. eapply wp_read_sint; [by apply stored_le|done|done|done|auto].
Qed.

Lemma wp_memcpy_at buf off n bs (Q : buffer → buffer → Prop) :
  stored buf off bs → n = len bs → Q bs buf → wp (memcpy_from off n) Q buf.
Proof using All.
  intros Hs -> HQ. rewrite <- (app_nil_r bs) in Hs.
  eapply wp_read; [exact Hs|done|done|auto].
Qed.

Lemma checksum_fits bs : uint_fits 8 (Checksum bs).
Proof using All.
  unfold Checksum. assert (uint_fits 8 14695981039346656037) as Hz by (vm_compute; split; congruence).
  revert Hz. generalize 14695981039346656037 as z. induction bs as [|b bs IH]; intros z Hz; simpl; [done|].
  apply IH. apply u64_range.
Qed.

Lemma wp_Decode buf src r payload (Q : option LogRecord → buffer → Prop) :
  wf r → body r = PreparedBody payload → stored buf src (encode r) →
  Q (Some r) buf → wp (Decode src (log_tot_len_ (hdr r))) Q buf.
Proof using All.
  intros [Wt Wl Wh Wb Wv] Eb Hs HQ. unfold vote_ok in Wv. rewrite Eb in Wv.
  destruct Wv as (Hfit & q & Hp & Hv & Htid & Hnode & Hprev).
  destruct r as [h b]. cbn [hdr body] in *. subst b. unfold encode in *. cbn [hdr body enc_body type_of] in *.
  set (bs := enc_header h ++ le 4 (len payload) ++ payload) in *.
  assert (len bs = LOG_HEADER_SIZE + 4 + len payload) as Hbs by (unfold bs; len_lia).
  assert (log_tot_len_ h = kEnvelopeSize + len payload) as Ht.
  { rewrite Wl. unfold bs. len_lia. }
  rewrite <- app_assoc in Hs.
  pose proof (stored_app buf src (enc_header h ++ le 4 (len payload) ++ payload)
    (le 8 (Checksum bs))) as Hcut. rewrite <- !app_assoc in Hcut. destruct (Hcut Hs) as [S1 S2].
  fold bs in S1, S2. clear Hcut.
  destruct (stored_header_field _ _ _ _ Hs) as (Sty & Slen & _).
  apply stored_app in Hs as HS. destruct HS as [_ HS]. rewrite len_enc_header in HS.
  apply stored_app in HS as [Sps HS]. rewrite len_le in HS. apply stored_app in HS as [Spay _].
  pose proof (len_nonneg payload). pose proof (len_nonneg (SerializeAsString q)).
  assert (LOG_REPLAY_BUFFER_SIZE < 2 ^ 32) by done.
  unfold Decode. destruct (Z.ltb_spec (log_tot_len_ h) kEnvelopeSize); [lia|].
  wp_step. eapply wp_load_at; [exact Slen|apply Wh|]. cbv beta.
  replace ((log_tot_len_ h <? kEnvelopeSize) || (LOG_REPLAY_BUFFER_SIZE <? log_tot_len_ h) ||
    (log_tot_len_ h <? log_tot_len_ h)) with false
    by (symmetry; rewrite !orb_false_iff, !Z.ltb_ge; sizes; lia).
  wp_step. eapply wp_load_at; [exact Sps|unfold uint_fits; sizes; simpl; lia|]. cbv beta.
  replace (len payload =? log_tot_len_ h - kEnvelopeSize) with true
    by (symmetry; apply Z.eqb_eq; lia). cbn [negb].
  wp_step. eapply wp_load_at; [|apply (checksum_fits bs)|].
  { by replace (src + log_tot_len_ h - 8) with (src + len bs) by (rewrite Ht, Hbs; sizes; lia). }
  cbv beta. wp_step. eapply wp_memcpy_at; [exact S1|rewrite Ht, Hbs; sizes; lia|]. cbv beta.
  rewrite Z.eqb_refl. cbn [negb].
  wp_step. eapply wp_memcpy_at; [exact Spay|done|]. cbv beta.
  rewrite Hp, parse_serialize, Hv. cbn [negb]. rewrite <- Hp.
  wp_step. eapply wp_LogRecord_deserialize; [exact Hs|done|rewrite Wt; by vm_compute|]. cbv beta.
  rewrite Wt, Htid, Hnode, Hprev, !Z.eqb_refl. cbn [negb orb]. by wp_step.
Qed.

Lemma body_reads r buf src :
  wf r → (∀ p, body r ≠ PreparedBody p) →
  reads_body src buf (body_deserialize (type_of (body r)) src) (enc_body (hdr r) (body r)) (body r).
Proof using All.
  intros W Hn. pose proof (wf_body _ W) as F. destruct r as [h b]. cbn [hdr body] in *.
  destruct b; try (intros Q _ _ HQ; exact HQ).
  - by apply Insert_reads.
  - by apply Delete_reads.
  - by apply FSMUpdate_reads.
  - by apply Update_reads.
  - by apply NewPage_reads.
  - by apply Lock_reads.
  - by destruct (Hn payload).
Qed.

Lemma decode_ok buf src r (Q : LogRecord → buffer → Prop) :
  wf r → stored buf src (encode r) → Q r buf →
  wp (DecodeRecord src (log_tot_len_ (hdr r))) Q buf.
Proof using All.
  intros W Hs HQ. pose proof W as W'. destruct W' as [Wt Wl Wh Wb Wv].
  destruct (stored_header_field _ _ _ _ Hs) as (Sty & _ & _).
  pose proof (type_of_cases (body r)) as Hcases. pose proof (type_fits (body r)) as Hfit.
  unfold DecodeRecord. wp_step.
  eapply wp_load_sint_at; [exact Sty|lia|by rewrite Wt|]. cbv beta. rewrite Wt.
  destruct (Z.eqb_spec (type_of (body r)) PREPARED) as [E|E].
  - assert (∃ p, body r = PreparedBody p) as [p Hp].
    { destruct (body r); vm_compute in E; try discriminate. by eexists. }
    wp_step. eapply wp_Decode; [exact W|exact Hp|exact Hs|]. by wp_step.
  - rewrite bool_decide_true by set_solver.
    wp_step. eapply wp_LogRecord_deserialize; [exact Hs|done|by rewrite Wt|]. cbv beta.
    apply stored_app in Hs as [_ Hs]. rewrite len_enc_header in Hs.
    wp_step. apply body_reads; [exact W| |exact Hs| |].
    + intros p Hp. rewrite Hp in E. by destruct E.
    + unfold encode in Wl. rewrite len_app, len_enc_header in Wl.
      destruct Wh as (_ & _ & Ht & _). unfold uint_fits in Ht. simpl in Ht.
      assert (0 ≤ LOG_HEADER_SIZE) by done. lia.
    + wp_step. by destruct r.
Qed.
End roundtrip.

(** C33: the log format is a round trip.  A well-formed record is written into
    any buffer that has the room it states, outside of which nothing changes;
    and wherever its bytes then lie, decoding them gives the record back. *)
Theorem log_record_roundtrip `{RequestCodec} (r : LogRecord) (dest : Z) (buf : buffer) :
  wf r → 0 ≤ dest → dest + log_tot_len_ (hdr r) ≤ len buf →
  ∃ buf', serialize r dest buf = Done (tt, buf') ∧
    len buf' = len buf ∧
    slice 0 dest buf' = slice 0 dest buf ∧
    (∀ off, dest + log_tot_len_ (hdr r) ≤ off →
            slice off (len buf - off) buf' = slice off (len buf - off) buf) ∧
    DecodeRecord dest (log_tot_len_ (hdr r)) buf' = Done (r, buf').
Proof.
  intros W Hd Hl. pose proof (wf_length _ W) as Wl. rewrite Wl in Hl.
  destruct (wp_inv _ _ _ (wp_serialize dest r (λ _ b, b = splice dest (encode r) buf) buf Hd Wl Hl eq_refl))
    as ([] & buf' & Hrun & ->).
  eexists. split; [exact Hrun|]. split_and!.
  - by apply len_splice.
  - apply slice_splice_other; lia.
  - intros off Ho. rewrite Wl in Ho. pose proof (len_nonneg (encode r)).
    apply slice_splice_other; lia.
  - destruct (wp_inv _ _ _ (decode_ok _ dest r (λ a b, a = r ∧ b = splice dest (encode r) buf) W
      (stored_splice _ _ _ Hd Hl) (conj eq_refl eq_refl))) as (a & b & Hdec & -> & ->).
    exact Hdec.
Qed.

(** ** The constructors *)

Section constructors.
Context `{RequestCodec}.

Lemma wf_new batch node txn tot b :
  uint_fits 8 batch → sint_fits 4 node → uint_fits 8 txn → body_fits b →
  (∀ p, b ≠ PreparedBody p) → tot < 2 ^ 32 →
  (∀ h, tot = LOG_HEADER_SIZE + len (enc_body h b)) →
  wf (mkLog (new_LogHeader (type_of b) tot txn batch node) b).
Proof using All.
  intros Fb Fn Ft F Hnp Hl Htot. set (h := new_LogHeader _ _ _ _ _).
  pose proof (len_nonneg (enc_body h b)). assert (0 ≤ LOG_HEADER_SIZE) by done.
  assert (log_tot_len_ h = tot) as E.
  { unfold h, new_LogHeader. cbn [log_tot_len_]. apply Z.mod_small. specialize (Htot h). lia. }
  split; cbn [hdr body].
  - done.
  - unfold encode. cbn [hdr body]. rewrite E, (Htot h), len_app, len_enc_header. done.
  - unfold header_fits. rewrite E. split_and!; try done.
    unfold uint_fits. simpl. specialize (Htot h). lia.
  - exact F.
  - unfold vote_ok. cbn [body]. destruct b; try done. by destruct (Hnp payload).
Qed.

(** Growing a record by a part of its body keeps it well formed. *)
Lemma wf_grow r b n :
  wf r → body_fits b → type_of b = type_of (body r) → (∀ p, b ≠ PreparedBody p) → 0 ≤ n →
  log_tot_len_ (hdr r) + n < 2 ^ 32 →
  (∀ h h', len (enc_body h b) = len (enc_body h' (body r)) + n) →
  wf (mkLog (add_tot_len n (hdr r)) b).
Proof using All.
  intros [Wt Wl Wh Wb Wv] F Hty Hnp Hn Hl Hgrow. unfold header_fits in Wh.
  assert (0 ≤ log_tot_len_ (hdr r)) by (destruct Wh as (_ & _ & Hx & _); apply Hx).
  assert (u32 (log_tot_len_ (hdr r) + n) = log_tot_len_ (hdr r) + n) as E.
  { apply Z.mod_small. lia. }
  split; cbn [hdr body].
  - unfold add_tot_len. cbn [log_type_]. by rewrite Hty.
  - unfold encode in *. cbn [hdr body]. unfold add_tot_len at 1. cbn [log_tot_len_]. rewrite E, Wl.
    rewrite !len_app, !len_enc_header, (Hgrow _ (hdr r)). lia.
  - unfold header_fits, add_tot_len. cbn. rewrite E. destruct Wh as (?&?&?&?&?&?).
    split_and!; try done. unfold uint_fits. simpl. lia.
  - exact F.
  - unfold vote_ok. cbn [body]. destruct b; try done. by destruct (Hnp payload).
Qed.
End constructors.

(** The records that the code makes, from arguments of their types. *)
Inductive built `{RequestCodec} : LogRecord → Prop :=
  | built_begin batch node txn : uint_fits 8 batch → sint_fits 4 node → uint_fits 8 txn →
      built (new_BeginLogRecord batch node txn)
  | built_commit batch node txn : uint_fits 8 batch → sint_fits 4 node → uint_fits 8 txn →
      built (new_CommitLogRecord batch node txn)
  | built_abort batch node txn : uint_fits 8 batch → sint_fits 4 node → uint_fits 8 txn →
      built (new_AbortLogRecord batch node txn)
  | built_batch_end batch node txn : uint_fits 8 batch → sint_fits 4 node → uint_fits 8 txn →
      built (new_BatchEndLogRecord batch node txn)
  | built_insert batch node txn v p s n : uint_fits 8 batch → sint_fits 4 node → uint_fits 8 txn →
      body_fits (InsertBody v p s n) → value_size_ v + len n < 2 ^ 31 →
      built (new_InsertLogRecord batch node txn v p s n)
  | built_delete batch node txn t n p s : uint_fits 8 batch → sint_fits 4 node → uint_fits 8 txn →
      body_fits (DeleteBody t n p s None None) → len n < 2 ^ 31 →
      built (new_DeleteLogRecord batch node txn t n p s)
  | built_delete_meta batch node txn t n p s d u :
      uint_fits 8 batch → sint_fits 4 node → uint_fits 8 txn →
      body_fits (DeleteBody t n p s (Some d) (Some u)) → len n < 2 ^ 31 →
      built (set_meta d u (new_DeleteLogRecord batch node txn t n p s))
  | built_fsm batch node txn t n p f : uint_fits 8 batch → sint_fits 4 node → uint_fits 8 txn →
      body_fits (FSMUpdateBody t p f n) → len n < 2 ^ 31 →
      built (new_FSMUpdateLogRecord batch node txn t n p f)
  | built_update batch node txn v rid n old :
      uint_fits 8 batch → sint_fits 4 node → uint_fits 8 txn →
      body_fits (UpdateBody v rid n old) →
      value_size_ v + len n + match old with Some w => value_size_ w | None => 0 end < 2 ^ 31 →
      built (new_UpdateLogRecord batch node txn v rid n old)
  | built_new_page batch node txn t n ps : uint_fits 8 batch → sint_fits 4 node → uint_fits 8 txn →
      body_fits (NewPageBody ps t n) → len n < 2 ^ 31 →
      built (new_NewPageLogRecord batch node txn t n ps)
  | built_lock batch node txn t n rid l ts nd ow :
      uint_fits 8 batch → sint_fits 4 node → uint_fits 8 txn →
      body_fits (LockBody t rid l ts nd ow n) → len n < 2 ^ 31 →
      built (new_LockLogRecord batch node txn t n rid l ts nd ow)
  | built_prepared q r : uint_fits 8 (transaction_id q) → sint_fits 4 (participant_node q) →
      new_PreparedLogRecord q = Some r → built r
  | built_lsn prev lsn r : built r → uint_fits 8 prev → uint_fits 8 lsn →
      (∀ p, body r = PreparedBody p → prev = INVALID_LSN) →
      built (set_lsns prev lsn r).

Ltac constructed :=
  unfold new_BeginLogRecord, new_CommitLogRecord, new_AbortLogRecord, new_BatchEndLogRecord,
    new_InsertLogRecord, new_DeleteLogRecord, new_FSMUpdateLogRecord, new_NewPageLogRecord,
    new_LockLogRecord;
  lazymatch goal with
  | |- wf (mkLog (new_LogHeader _ ?tot ?txn ?batch ?node) ?b) => apply (wf_new batch node txn tot b)
  end; try assumption; try discriminate;
  lazymatch goal with
  | |- body_fits _ => cbn [body_fits]; tauto
  | |- _ < _ => sizes; unfold value_size_ in *; lia
  | |- ∀ h, _ => intros h; cbn [enc_body enc_delete_meta enc_undo_meta enc_old]; len_lia
  end.

Lemma built_wf `{RequestCodec} r : built r → wf r.
Proof.
  intros Hb. induction Hb.
  - by constructed.
  - by constructed.
  - by constructed.
  - by constructed.
  - by constructed.
  - by constructed.
  - match goal with F : body_fits _ |- _ => destruct F as (F1 & F2 & F3 & F4 & F5) end.
    assert (wf (new_DeleteLogRecord batch node txn t n p s)) as W by by constructed.
    pose proof (wf_length _ W) as Wl. unfold set_meta. cbn [body new_DeleteLogRecord].
    apply wf_grow; try done.
    + rewrite Wl. unfold encode, new_DeleteLogRecord.
      cbn [hdr body enc_body enc_delete_meta enc_undo_meta]. len_lia.
    + intros h h'. cbn [enc_body enc_delete_meta enc_undo_meta new_DeleteLogRecord body]. len_lia.
  - by constructed.
  - match goal with F : body_fits _ |- _ => destruct F as (F1 & F2 & F3) end. unfold new_UpdateLogRecord.
    assert (∀ v', value_size_ v + len n + value_size_ v' < 2 ^ 31 → len n + value_size_ v < 2 ^ 31) as Hsz.
    { intros v' ?. unfold value_size_ in *. pose proof (len_nonneg (value_ v')). lia. }
    destruct old as [w|]; [|by constructed].
    unfold AttachUndoPayload. cbn [body].
    match goal with |- wf (mkLog (add_tot_len ?k (hdr ?r)) _) => assert (wf r) as W end.
    { specialize (Hsz w). by constructed. }
    pose proof (wf_length _ W) as Wl.
    apply (wf_grow _ (UpdateBody v rid n (Some w)) (8 + 8 + value_size_ w) W); try done.
    + unfold value_size_. pose proof (len_nonneg (value_ w)). lia.
    + rewrite Wl. unfold encode. cbn [hdr body enc_body enc_old]. len_lia.
    + intros h h'. cbn [enc_body enc_old body]. len_lia.
  - by constructed.
  - by constructed.
  - match goal with E : new_PreparedLogRecord _ = _ |- _ => rename E into Hnew end.
    unfold new_PreparedLogRecord in Hnew. destruct (ValidRequest q) eqn:Ev; [|done].
    cbn [negb orb] in Hnew. destruct (Z.ltb_spec (LOG_REPLAY_BUFFER_SIZE - kEnvelopeSize) (len (SerializeAsString q))); [done|].
    injection Hnew as <-. pose proof (len_nonneg (SerializeAsString q)).
    assert (LOG_REPLAY_BUFFER_SIZE < 2 ^ 31) by done.
    assert (u32 (kEnvelopeSize + len (SerializeAsString q)) = kEnvelopeSize + len (SerializeAsString q)) as E
      by (unfold u32; apply Z.mod_small; sizes; lia).
    split; cbn [hdr body log_type_ log_tot_len_]; [done| | |done|].
    + rewrite E. unfold encode. cbn [hdr body enc_body]. len_lia.
    + unfold header_fits. cbn. rewrite E. split_and!; try done. unfold uint_fits. sizes. simpl. lia.
    + unfold vote_ok. cbn [body hdr log_tid_ log_node_id_ prev_lsn_]. split; [lia|]. by eexists.
  - destruct IHHb as [Wt Wl Wh Wb Wv]. split; cbn [set_lsns hdr body log_type_ log_tot_len_]; [done| | |done|].
    + rewrite Wl. unfold encode. cbn [set_lsns hdr body]. rewrite !len_app, !len_enc_header. f_equal.
      destruct (body r); cbn [enc_body]; try done. len_lia.
    + unfold header_fits in *. cbn. tauto.
    + unfold vote_ok in *. cbn [set_lsns hdr body log_tid_ log_node_id_ prev_lsn_].
      destruct (body r) eqn:Eb; try done. destruct Wv as (Hf & q & ? & ? & ? & ? & ?).
      split; [done|]. exists q. split_and!; try done. by eauto.
Qed.

(** C34: every record that the code makes is well typed: its fields fit, and the
    length in its header is the number of its bytes. *)
Theorem log_records_well_formed `{RequestCodec} (r : LogRecord) : built r → wf r.
Proof. apply built_wf. Qed.

(** ** An update with its old value, for the demonstrations *)

Definition demo_update : LogRecord :=
  set_lsns 7 9 (new_UpdateLogRecord 0 3 42 (mkRecord 5 [1; 2; 3]) (mkRid 1 0) [116; 49]
                  (Some (mkRecord 5 [9; 9; 9]))).

#[local] Existing Instance demo_codec.

Lemma demo_update_built : built demo_update.
Proof.
  apply built_lsn; [|vm_compute; repeat split; congruence..|discriminate].
  apply built_update; vm_compute; repeat split; congruence.
Qed.

Lemma log_records_well_formed_witness : built demo_update ∧ wf demo_update.
Proof. split; [apply demo_update_built|apply log_records_well_formed, demo_update_built]. Defined.

Lemma log_record_roundtrip_witness :
  wf demo_update ∧
  ∃ buf', serialize demo_update 2 (replicate 110 0) = Done (tt, buf') ∧
    DecodeRecord 2 (log_tot_len_ (hdr demo_update)) buf' = Done (demo_update, buf').
Proof.
  split; [apply built_wf, demo_update_built|].
  destruct (log_record_roundtrip demo_update 2 (replicate 110 0)) as (buf' & Hrun & _ & _ & _ & Hdec).
  - apply built_wf, demo_update_built.
  - lia.
  - vm_compute. congruence.
  - exists buf'. split; [exact Hrun|exact Hdec].
Defined.
