(* ===== verification/Bitmap.v ===== *)
(** [core/util/bitmap.h]: which slots of a page hold a record.  The bitmap lies
    in the bytes of the page, from the offset [bm] on, the highest bit of a byte
    first. *)

From S2P Require Import Prelude Common Bytes.

Definition BITMAP_WIDTH : Z := 8.
Definition BITMAP_HIGHEST_BIT : Z := 128.

Definition get_bucket (pos : Z) : Z := Z.quot pos BITMAP_WIDTH.
Definition get_bit (pos : Z) : Z := Z.shiftr BITMAP_HIGHEST_BIT (Z.rem pos BITMAP_WIDTH).

Definition init (bm size : Z) : M buffer unit := memcpy_to bm (replicate (Z.to_nat size) 0).

Definition set (bm pos : Z) : M buffer unit :=
  b ← load_uint (bm + get_bucket pos) 1 ;
  memcpy_to (bm + get_bucket pos) [Z.lor b (get_bit pos)].

Definition reset (bm pos : Z) : M buffer unit :=
  b ← load_uint (bm + get_bucket pos) 1 ;
  memcpy_to (bm + get_bucket pos) [Z.land b (Z.lxor 255 (get_bit pos))].

Definition is_set (bm pos : Z) : M buffer bool :=
  b ← load_uint (bm + get_bucket pos) 1 ;
  mret (negb (Z.land b (get_bit pos) =? 0)).

(** The loop of [next_bit] with [fuel] positions left. *)
Fixpoint next_bit_from (fuel : nat) (bit : bool) (bm max_n i : Z) : M buffer Z :=
  match fuel with
  | O => mret max_n
  | S fuel' =>
      b ← is_set bm i ;
      if Bool.eqb b bit then mret i else next_bit_from fuel' bit bm max_n (i + 1)
  end.

Definition next_bit (bit : bool) (bm max_n curr : Z) : M buffer Z :=
  next_bit_from (Z.to_nat (max_n - (curr + 1))) bit bm max_n (curr + 1).

Definition first_bit (bit : bool) (bm max_n : Z) : M buffer Z := next_bit bit bm max_n (-1).

(** [__builtin_popcount] of a byte. *)
Definition popcount (b : Z) : Z := countZ (λ i, Z.testbit b i) [0; 1; 2; 3; 4; 5; 6; 7].

Fixpoint free_in_buckets (n : nat) (bm bucket count : Z) : M buffer Z :=
  match n with
  | O => mret count
  | S n' =>
      byte ← load_uint (bm + bucket) 1 ;
      free_in_buckets n' bm (bucket + 1) (count + (BITMAP_WIDTH - popcount byte))
  end.

Definition getfreeposnum (bm max_n : Z) : M buffer Z :=
  let full_buckets := Z.quot max_n BITMAP_WIDTH in
  let tail_bits := Z.rem max_n BITMAP_WIDTH in
  free_count ← free_in_buckets (Z.to_nat full_buckets) bm 0 0 ;
  if 0 <? tail_bits then
    byte ← load_uint (bm + full_buckets) 1 ;
    let mask := Z.lxor 255 (Z.shiftl 1 (BITMAP_WIDTH - tail_bits) - 1) in
    mret (free_count + (tail_bits - popcount (Z.land byte mask)))
  else mret free_count.

(** ** The bitmap as a set of positions *)

Definition byte_at (buf : buffer) (off : Z) : Z := nth (Z.to_nat off) buf 0.

Definition bit_at (buf : buffer) (bm pos : Z) : bool :=
  Z.testbit (byte_at buf (bm + pos / 8)) (7 - pos mod 8).

(** The bytes of a bitmap of [n] positions lie in the buffer. *)
Definition bitmap_in (buf : buffer) (bm n : Z) : Prop :=
  0 ≤ bm ∧ bm + (n + 7) / 8 ≤ len buf.

Lemma get_bucket_div pos : 0 ≤ pos → get_bucket pos = pos / 8.
Proof. intros. unfold get_bucket, BITMAP_WIDTH. apply Z.quot_div_nonneg; lia. Qed.

Lemma get_bit_pow pos : 0 ≤ pos → get_bit pos = 2 ^ (7 - pos mod 8).
Proof.
  intros. unfold get_bit, BITMAP_WIDTH, BITMAP_HIGHEST_BIT. rewrite Z.rem_mod_nonneg by lia.
  pose proof (Z.mod_pos_bound pos 8). change 128 with (2 ^ 7).
  rewrite Z.shiftr_div_pow2 by lia. rewrite <- Z.pow_sub_r by lia. done.
Qed.

Lemma land_pow2 a k : 0 ≤ k → negb (Z.land a (2 ^ k) =? 0) = Z.testbit a k.
Proof.
  intros Hk. destruct (Z.testbit a k) eqn:E.
  - apply negb_true_iff, Z.eqb_neq. intros H0.
    assert (Z.testbit (Z.land a (2 ^ k)) k = false) as Hf by (by rewrite H0, Z.bits_0).
    rewrite Z.land_spec, E, Z.pow2_bits_true in Hf by done. done.
  - apply negb_false_iff, Z.eqb_eq. apply Z.bits_inj'. intros i Hi.
    rewrite Z.land_spec, Z.bits_0. destruct (decide (i = k)) as [->|].
    + by rewrite E.
    + by rewrite Z.pow2_bits_false, andb_false_r by lia.
Qed.

(** ** Bytes of a buffer *)

Lemma byte_at_lookup buf off : 0 ≤ off < len buf → buf !! Z.to_nat off = Some (byte_at buf off).
Proof.
  intros. unfold byte_at, len in *. destruct (lookup_lt_is_Some_2 buf (Z.to_nat off)) as [x Hx]; [lia|].
  rewrite Hx. f_equal. symmetry. by apply nth_lookup_Some.
Qed.

Lemma slice_byte buf off : 0 ≤ off < len buf → slice off 1 buf = [byte_at buf off].
Proof.
  intros. unfold slice. pose proof (byte_at_lookup buf off H) as E.
  rewrite (drop_S _ _ _ E). simpl. by rewrite take_0.
Qed.

Lemma wp_load_byte off (Q : Z → buffer → Prop) buf :
  0 ≤ off < len buf → Q (byte_at buf off) buf → wp (load_uint off 1) Q buf.
Proof.
  intros Ho HQ. unfold load_uint. apply wp_bind. unfold wp, memcpy_from.
  rewrite in_bounds_true by lia. change (Z.of_nat 1) with 1. rewrite slice_byte by done.
  simpl. by rewrite Z.add_0_r.
Qed.

Lemma byte_at_splice off b buf off' :
  0 ≤ off < len buf → 0 ≤ off' →
  byte_at (splice off [b] buf) off' = if decide (off' = off) then b else byte_at buf off'.
Proof.
  intros Ho Ho'. unfold byte_at.
  destruct (decide (off' < len buf)).
  - assert (splice off [b] buf !! Z.to_nat off' =
            Some (if decide (off' = off) then b else byte_at buf off')) as E.
    { rewrite splice_lookup by (unfold len in *; simpl; lia). simpl length.
      case_decide as D1; case_decide as D2; try lia.
      - subst. replace (Z.to_nat off - Z.to_nat off)%nat with 0%nat by lia. done.
      - apply byte_at_lookup. lia. }
    erewrite nth_lookup_Some; [|exact E]. done.
  - unfold len in *. rewrite !nth_overflow by (rewrite ?length_splice; unfold len; simpl; lia).
    case_decide; [lia|done].
Qed.

Section bitmap.
Context (bm n : Z).
Implicit Types buf : buffer.

Lemma bucket_in buf pos : bitmap_in buf bm n → 0 ≤ pos < n → 0 ≤ bm + pos / 8 < len buf.
Proof using All.
  intros [Hb Hl] Hp. assert (0 ≤ pos / 8) by (apply Z.div_pos; lia).
  assert (pos / 8 < (n + 7) / 8); [|lia].
  apply Z.div_lt_upper_bound; [lia|]. pose proof (Z.div_mod (n + 7) 8).
  pose proof (Z.mod_pos_bound (n + 7) 8). lia.
Qed.

Lemma wp_is_set buf pos (Q : bool → buffer → Prop) :
  bitmap_in buf bm n → 0 ≤ pos < n → Q (bit_at buf bm pos) buf → wp (is_set bm pos) Q buf.
Proof using All.
  intros Hin Hp HQ. unfold is_set. wp_step. rewrite get_bucket_div by lia.
  apply wp_load_byte; [by apply bucket_in|]. wp_step. rewrite get_bit_pow by lia.
  pose proof (Z.mod_pos_bound pos 8). by rewrite land_pow2 by lia.
Qed.

(** Writing the bucket of [pos] with the bit of [pos] changed to [b]. *)
Lemma bit_at_bucket buf pos byte (b : bool) pos' :
  bitmap_in buf bm n → 0 ≤ pos < n → 0 ≤ pos' < n →
  (∀ i, 0 ≤ i < 8 → Z.testbit byte i =
     if decide (i = 7 - pos mod 8) then b else Z.testbit (byte_at buf (bm + pos / 8)) i) →
  bit_at (splice (bm + pos / 8) [byte] buf) bm pos' =
  if decide (pos' = pos) then b else bit_at buf bm pos'.
Proof using All.
  intros Hin Hp Hp' Hb. unfold bit_at. pose proof (Z.mod_pos_bound pos 8).
  pose proof (Z.mod_pos_bound pos' 8). pose proof (bucket_in _ _ Hin Hp') as Hbk.
  rewrite byte_at_splice by (try apply bucket_in; auto; lia).
  pose proof (Z.div_mod pos 8). pose proof (Z.div_mod pos' 8).
  destruct (decide (bm + pos' / 8 = bm + pos / 8)) as [E|E].
  - rewrite Hb by lia. destruct (decide (pos' = pos)) as [->|Hne].
    + by rewrite decide_True.
    + rewrite decide_False by lia. by rewrite E.
  - rewrite decide_False; [done|]. intros ->. done.
Qed.

Lemma wp_set buf pos (Q : unit → buffer → Prop) :
  bitmap_in buf bm n → 0 ≤ pos < n →
  (∀ byte, let buf' := splice (bm + pos / 8) [byte] buf in
     (∀ pos', 0 ≤ pos' < n →
        bit_at buf' bm pos' = if decide (pos' = pos) then true else bit_at buf bm pos') →
     Q tt buf') →
  wp (set bm pos) Q buf.
Proof using All.
  intros Hin Hp HQ. unfold set. wp_step. rewrite get_bucket_div by lia.
  pose proof (bucket_in _ _ Hin Hp). apply wp_load_byte; [done|].
  apply wp_memcpy_to; [lia|unfold len in *; simpl; lia|]. apply HQ. intros pos' Hp'.
  apply bit_at_bucket; [done..|]. intros i Hi. rewrite get_bit_pow by lia.
  pose proof (Z.mod_pos_bound pos 8). rewrite Z.lor_spec. case_decide as D.
  - subst. by rewrite Z.pow2_bits_true, orb_true_r by lia.
  - by rewrite Z.pow2_bits_false, orb_false_r by lia.
Qed.

Lemma wp_reset buf pos (Q : unit → buffer → Prop) :
  bitmap_in buf bm n → 0 ≤ pos < n →
  (∀ byte, let buf' := splice (bm + pos / 8) [byte] buf in
     (∀ pos', 0 ≤ pos' < n →
        bit_at buf' bm pos' = if decide (pos' = pos) then false else bit_at buf bm pos') →
     Q tt buf') →
  wp (reset bm pos) Q buf.
Proof using All.
  intros Hin Hp HQ. unfold reset. wp_step. rewrite get_bucket_div by lia.
  pose proof (bucket_in _ _ Hin Hp). apply wp_load_byte; [done|].
  apply wp_memcpy_to; [lia|unfold len in *; simpl; lia|]. apply HQ. intros pos' Hp'.
  apply bit_at_bucket; [done..|]. intros i Hi. rewrite get_bit_pow by lia.
  pose proof (Z.mod_pos_bound pos 8). rewrite Z.land_spec, Z.lxor_spec.
  assert (Z.testbit 255 i = true) as ->.
  { change 255 with (Z.ones 8). apply Z.ones_spec_low. lia. }
  case_decide as D.
  - subst. by rewrite Z.pow2_bits_true, andb_false_r by lia.
  - by rewrite Z.pow2_bits_false, andb_true_r by lia.
Qed.

(** The first position from [i] on that has the bit, or [n]. *)
Definition is_next (bit : bool) buf (i res : Z) : Prop :=
  i ≤ res ≤ n ∧ (∀ j, i ≤ j < res → bit_at buf bm j = negb bit) ∧
  (res < n → bit_at buf bm res = bit).

Lemma wp_next_bit_from fuel bit buf i (Q : Z → buffer → Prop) :
  bitmap_in buf bm n → 0 ≤ i → Z.of_nat fuel = Z.max 0 (n - i) → i ≤ n →
  (∀ res, is_next bit buf i res → Q res buf) → wp (next_bit_from fuel bit bm n i) Q buf.
Proof using All.
  intros Hin. revert i. induction fuel as [|fuel IH]; intros i Hi Hf Hn HQ; simpl.
  - wp_step. apply HQ. unfold is_next. split_and!; intros; lia.
  - wp_step. apply wp_is_set; [done|lia|]. destruct (Bool.eqb _ bit) eqn:E.
    + wp_step. apply HQ. apply Bool.eqb_prop in E. unfold is_next.
      split; [lia|]. split; [intros; lia|done].
    + apply IH; [lia..|]. intros res (Hr & Hlo & Hhi). apply HQ. unfold is_next.
      split; [lia|]. split; [|done].
      intros j Hj. destruct (decide (j = i)) as [->|]; [|apply Hlo; lia].
      destruct (bit_at buf bm i), bit; done.
Qed.

Lemma wp_next_bit bit buf curr (Q : Z → buffer → Prop) :
  bitmap_in buf bm n → -1 ≤ curr < n →
  (∀ res, is_next bit buf (curr + 1) res → Q res buf) → wp (next_bit bit bm n curr) Q buf.
Proof using All. intros. unfold next_bit. apply wp_next_bit_from; auto; lia. Qed.
End bitmap.

(** ** [getfreeposnum] counts the positions that are free *)

Definition free_count (buf : buffer) (bm first n : Z) : Z :=
  countZ (λ pos, negb (bit_at buf bm pos)) (seqZ first n).

Lemma countZ_negb {A} (p : A → bool) l : countZ (λ x, negb (p x)) l = len l - countZ p l.
Proof.
  induction l as [|x l IH]; [done|]. rewrite !countZ_cons, IH, len_cons. destruct (p x); simpl; lia.
Qed.

Lemma bucket_bit buf bm k i : 0 ≤ k → 0 ≤ i < 8 →
  bit_at buf bm (8 * k + i) = Z.testbit (byte_at buf (bm + k)) (7 - i).
Proof.
  intros Hk Hi. unfold bit_at. rewrite (Z.mul_comm 8 k), Z.div_add_l by lia.
  rewrite (Z.div_small i) by lia. rewrite Z.add_0_r.
  rewrite (Z.add_comm _ i), Z.mod_add, Z.mod_small by lia. done.
Qed.

Lemma seqZ_bucket k : seqZ (8 * k) 8 =
  [8 * k + 0; 8 * k + 1; 8 * k + 2; 8 * k + 3; 8 * k + 4; 8 * k + 5; 8 * k + 6; 8 * k + 7].
Proof.
  unfold seqZ. change (Z.to_nat 8) with 8%nat. cbn [seq fmap list_fmap]. repeat (f_equal; [lia|]). f_equal. lia.
Qed.

Lemma free_in_bucket buf bm k : 0 ≤ k →
  free_count buf bm (8 * k) 8 = 8 - popcount (byte_at buf (bm + k)).
Proof.
  intros Hk. unfold free_count. rewrite countZ_negb, seqZ_bucket.
  change (len _) with 8. f_equal. unfold popcount.
  autorewrite with mp_rw. rewrite !bucket_bit by lia. simpl. lia.
Qed.

Lemma free_count_app buf bm first n m : 0 ≤ n → 0 ≤ m →
  free_count buf bm first (n + m) = free_count buf bm first n + free_count buf bm (first + n) m.
Proof. intros. unfold free_count. rewrite seqZ_app by lia. apply countZ_app. Qed.

Lemma wp_free_in_buckets m bm k count buf (Q : Z → buffer → Prop) :
  0 ≤ bm → 0 ≤ k → bm + k + Z.of_nat m ≤ len buf →
  Q (count + free_count buf bm (8 * k) (8 * Z.of_nat m)) buf →
  wp (free_in_buckets m bm k count) Q buf.
Proof.
  intros Hb. revert k count. induction m as [|m IH]; intros k count Hk Hl HQ; simpl.
  - wp_step. unfold free_count in HQ. rewrite seqZ_nil in HQ by lia. rewrite countZ_nil in HQ.
    by rewrite Z.add_0_r in HQ.
  - wp_step. apply wp_load_byte; [lia|]. apply IH; [lia..|].
    replace (8 * Z.of_nat (S m)) with (8 + 8 * Z.of_nat m) in HQ by lia.
    rewrite free_count_app, free_in_bucket in HQ by lia.
    replace (8 * (k + 1)) with (8 * k + 8) by lia.
    replace (count + (BITMAP_WIDTH - popcount (byte_at buf (bm + k))) + free_count buf bm (8 * k + 8) (8 * Z.of_nat m))
      with (count + (8 - popcount (byte_at buf (bm + k)) + free_count buf bm (8 * k + 8) (8 * Z.of_nat m)))
      by (unfold BITMAP_WIDTH; lia).
    exact HQ.
Qed.

(** The tail: the mask keeps the bits of the first [t] positions. *)
Lemma free_in_tail buf bm k t : 0 ≤ k → 0 < t < 8 →
  free_count buf bm (8 * k) t =
  t - popcount (Z.land (byte_at buf (bm + k)) (Z.lxor 255 (Z.shiftl 1 (8 - t) - 1))).
Proof.
  intros Hk Ht. unfold free_count. rewrite countZ_negb.
  assert (len (seqZ (8 * k) t) = t) as -> by (unfold len; rewrite length_seqZ; lia).
  f_equal. unfold popcount. generalize (byte_at buf (bm + k)) (bucket_bit buf bm k). intros b Hb.
  assert (t = 1 ∨ t = 2 ∨ t = 3 ∨ t = 4 ∨ t = 5 ∨ t = 6 ∨ t = 7) as Hcases by lia.
  assert (seqZ (8 * k) t = take (Z.to_nat t) (seqZ (8 * k) 8)) as ->.
  { assert (seqZ (8 * k) 8 = seqZ (8 * k) t ++ seqZ (8 * k + t) (8 - t)) as ->.
    { rewrite <- seqZ_app by lia. f_equal. lia. }
    rewrite take_app_le by (rewrite length_seqZ; lia).
    rewrite take_ge by (rewrite length_seqZ; lia). done. }
  rewrite seqZ_bucket.
  destruct Hcases as [->|[->|[->|[->|[->|[->| ->]]]]]]; simpl take;
    autorewrite with mp_rw; rewrite !Z.land_spec, !Hb by lia; simpl; rewrite ?andb_true_r, ?andb_false_r; lia.
Qed.

(** C36: [getfreeposnum], byte by byte with a masked tail, is the number of free
    positions: what a walk over the positions would count. *)
Theorem getfreeposnum_counts buf bm n :
  0 ≤ n → bitmap_in buf bm n →
  getfreeposnum bm n buf = Done (free_count buf bm 0 n, buf).
Proof.
  intros Hn [Hb Hl].
  assert (wp (getfreeposnum bm n) (λ r b, r = free_count buf bm 0 n ∧ b = buf) buf) as Hwp.
  { unfold getfreeposnum, BITMAP_WIDTH. rewrite Z.quot_div_nonneg, Z.rem_mod_nonneg by lia.
    pose proof (Z.div_mod n 8). pose proof (Z.mod_pos_bound n 8).
    assert (0 ≤ n / 8) by (apply Z.div_pos; lia).
    assert (n / 8 ≤ (n + 7) / 8) by (apply Z.div_le_mono; lia).
    wp_step. apply wp_free_in_buckets; [lia..|]. rewrite Z.add_0_l, Z2Nat.id by lia.
    change (8 * 0) with 0. destruct (Z.ltb_spec 0 (n mod 8)).
    - assert (n / 8 < (n + 7) / 8).
      { apply Z.lt_le_trans with ((n + 7) / 8); [|lia].
        assert ((n / 8 + 1) * 8 ≤ n + 7) by lia.
        pose proof (Z.div_le_lower_bound (n + 7) 8 (n / 8 + 1)). lia. }
      wp_step. apply wp_load_byte; [lia|]. wp_step. split; [|done].
      rewrite <- free_in_tail by lia.
      assert (free_count buf bm 0 n = free_count buf bm 0 (8 * (n / 8)) +
                free_count buf bm (0 + 8 * (n / 8)) (n mod 8)) as ->; [|done].
      rewrite <- free_count_app by lia. f_equal. lia.
    - wp_step. split; [|done]. f_equal. lia. }
  destruct (wp_inv _ _ _ Hwp) as (r & b & -> & -> & ->). done.
Qed.

Lemma getfreeposnum_counts_witness :
  bitmap_in [0; 255; 160] 1 10 ∧
  getfreeposnum 1 10 [0; 255; 160] = Done (1, [0; 255; 160]) ∧
  free_count [0; 255; 160] 1 0 10 = 1.
Proof.
  assert (bitmap_in [0; 255; 160] 1 10) as Hb by (vm_compute; split; congruence).
  split; [exact Hb|]. assert (free_count [0; 255; 160] 1 0 10 = 1) as E by (vm_compute; reflexivity).
  split; [|exact E]. rewrite <- E. apply getfreeposnum_counts; [lia|exact Hb].
Defined.
