(* ===== verification/RecordPage.v ===== *)
(** How records lie in a page: [core/record/rm_manager.cc] fixes how many fit,
    [core/record/rm_file_handle.h] where they are, [core/base/data_item.h] what a
    row's bytes begin with. *)

From S2P Require Import Prelude Common Bytes Bitmap Record.

Definition PAGE_SIZE : Z := 4096.
Definition OFFSET_PAGE_HDR : Z := 0.
Definition OFFSET_FILE_HDR : Z := 24.
Definition PAGE_NO_RM_FILE_HDR : Z := 0.
Definition RM_NO_PAGE : Z := -1.

(** [bitmap] and [slots] of a page, as offsets. *)
Definition bitmap_offset : Z := sizeof_RmPageHdr + OFFSET_PAGE_HDR.

Definition slot_size (fh : RmFileHdr) : Z := record_size_ fh + sizeof_itemkey_t.

Definition get_slot_offset (fh : RmFileHdr) (slot_no : Z) : Z :=
  sizeof_RmPageHdr + bitmap_size_ fh + slot_no * slot_size fh.

(** [get_slot_no], in the unsigned arithmetic of [size_t]; the answer is an
    [int].  It subtracts the size of [RmPageHandle], a handle of five pointers. *)
Definition sizeof_RmPageHandle : Z := 40.
Definition get_slot_no (fh : RmFileHdr) (slot_offset : Z) : Z :=
  sint 4 (u32 (u64 (slot_offset - sizeof_RmPageHandle - bitmap_size_ fh) / u64 (slot_size fh))).

(** The geometry that [create_file] computes from the size of a record. *)
Definition records_per_page (record_size : Z) : Z :=
  (BITMAP_WIDTH * (PAGE_SIZE - 1 - sizeof_RmFileHdr) + 1) /
  (1 + (record_size + sizeof_itemkey_t) * BITMAP_WIDTH).

Definition create_file_hdr (record_size : Z) : RmFileHdr :=
  let n := records_per_page record_size in
  mkFileHdr record_size 1 n RM_NO_PAGE (Z.quot (n + BITMAP_WIDTH - 1) BITMAP_WIDTH).

(** ** [DataItem], whose fields are padded to their alignment *)

Definition sizeof_DataItem : Z := 72.
Definition offsetof_lock : Z := 8.
Definition offsetof_valid : Z := 48.
Definition offsetof_holder_node : Z := 50.
Definition offsetof_lock_owner_node : Z := 51.
Definition offsetof_timeStamp : Z := 56.
Definition offsetof_commitTimeStamp : Z := 64.

(** ** The geometry is sound when the slots end within the page *)

Definition page_end (fh : RmFileHdr) : Z :=
  get_slot_offset fh (num_records_per_page_ fh).

Record geometry (fh : RmFileHdr) : Prop := {
  geo_record : 0 < record_size_ fh;
  geo_slots : 0 < num_records_per_page_ fh;
  geo_bitmap : (num_records_per_page_ fh + 7) / 8 ≤ bitmap_size_ fh;
  geo_end : page_end fh ≤ PAGE_SIZE
}.

#[export] Instance geometry_dec fh : Decision (geometry fh).
Proof.
  refine (cast_if (decide (0 < record_size_ fh ∧ 0 < num_records_per_page_ fh ∧
    (num_records_per_page_ fh + 7) / 8 ≤ bitmap_size_ fh ∧ page_end fh ≤ PAGE_SIZE))).
  - destruct_and!. by split.
  - intros [? ? ? ?]. naive_solver.
Defined.

(** C37: how far the records of a page reach.  The comment of [create_file]
    promises that they end within the page; it counts the header of the file (20
    bytes) where the page has its own (24 bytes), so the promise is kept up to
    four bytes: there are record sizes, such as that of a row of 30 bytes, whose
    last record ends behind the page. *)
Theorem page_capacity record_size :
  0 < record_size ≤ 4000 →
  sizeof_RmFileHdr + (page_end (create_file_hdr record_size) - sizeof_RmPageHdr) ≤ PAGE_SIZE ∧
  page_end (create_file_hdr record_size) ≤ PAGE_SIZE + 4 ∧
  PAGE_SIZE < page_end (create_file_hdr (sizeof_DataItem + 30)).
Proof.
  intros Hr.
  assert (sizeof_RmFileHdr + (page_end (create_file_hdr record_size) - sizeof_RmPageHdr) ≤ PAGE_SIZE) as Hc.
  { unfold page_end, get_slot_offset, create_file_hdr, slot_size.
    cbn [bitmap_size_ record_size_ num_records_per_page_].
    unfold records_per_page, BITMAP_WIDTH, PAGE_SIZE, sizeof_RmFileHdr, sizeof_RmPageHdr, sizeof_itemkey_t.
    set (w := record_size + 8). set (n := (8 * (4096 - 1 - 20) + 1) / (1 + w * 8)).
    assert (0 ≤ n) by (apply Z.div_pos; lia).
    rewrite Z.quot_div_nonneg by lia.
    assert ((1 + w * 8) * n ≤ 8 * (4096 - 1 - 20) + 1) by (apply Z.mul_div_le; lia).
    pose proof (Z.mul_div_le (n + 8 - 1) 8). lia. }
  split; [exact Hc|]. split; [|by vm_compute].
  unfold sizeof_RmFileHdr, sizeof_RmPageHdr in Hc. lia.
Qed.

Lemma page_capacity_witness :
  0 < sizeof_DataItem + 30 ≤ 4000 ∧ page_end (create_file_hdr (sizeof_DataItem + 30)) = PAGE_SIZE + 3 ∧
  page_end (create_file_hdr (sizeof_DataItem + 30)) ≤ PAGE_SIZE + 4.
Proof.
  assert (0 < sizeof_DataItem + 30 ≤ 4000) as H by (vm_compute; split; congruence).
  split; [exact H|]. split; [vm_compute; reflexivity|].
  destruct (page_capacity _ H) as (_ & He & _). exact He.
Defined.

(** ** Slots lie side by side behind the bitmap *)

Section slots.
Context (fh : RmFileHdr).
Hypothesis G : geometry fh.

Definition valid_slot (slot : Z) : Prop := 0 ≤ slot < num_records_per_page_ fh.

Lemma slot_size_pos : 0 < slot_size fh.
Proof using G. destruct G. unfold slot_size, sizeof_itemkey_t. lia. Qed.

Lemma slot_in_page slot :
  valid_slot slot →
  bitmap_offset + (num_records_per_page_ fh + 7) / 8 ≤ get_slot_offset fh slot ∧
  get_slot_offset fh slot + slot_size fh ≤ PAGE_SIZE.
Proof using G.
  intros [Hs1 Hs2]. destruct G as [Hr Hn Hb He]. pose proof slot_size_pos.
  unfold page_end, get_slot_offset, bitmap_offset, OFFSET_PAGE_HDR in *.
  assert (slot * slot_size fh + slot_size fh ≤ num_records_per_page_ fh * slot_size fh) by nia.
  nia.
Qed.

Lemma slots_disjoint slot slot' :
  slot ≠ slot' →
  get_slot_offset fh slot + slot_size fh ≤ get_slot_offset fh slot' ∨
  get_slot_offset fh slot' + slot_size fh ≤ get_slot_offset fh slot.
Proof using G. pose proof slot_size_pos. unfold get_slot_offset. intros. nia. Qed.

Lemma bitmap_in_page buf :
  len buf = PAGE_SIZE → bitmap_in buf bitmap_offset (num_records_per_page_ fh).
Proof using G.
  intros Hl. destruct G as [Hr Hn Hb He]. split; [done|]. rewrite Hl.
  destruct (slot_in_page 0) as [H1 H2]; [split; lia|]. pose proof slot_size_pos. lia.
Qed.
End slots.

(** [get_slot_no] converts an offset; applied to a slot number, as [delete_record]
    and [update_record] do, it wraps around below zero and the quotient is far
    outside of the bitmap. *)
Example get_slot_no_of_slot :
  let fh := create_file_hdr 100 in
  get_slot_no fh 3 = -1272582903 ∧ num_records_per_page_ fh = 37.
Proof. split; vm_compute; reflexivity. Qed.
