(* ===== verification/DiskManager.v ===== *)
(** [core/storage/disk_manager.cc]: the files of the storage node, as the operating
    system keeps them, and the manager that keeps them open and reads and writes
    their pages.

    Of the operating system: files by their path, the table of open descriptors
    (those of this manager and any others of the process), and [pread] and
    [pwrite] as documented.  A descriptor is resolved to the path it was opened
    with: the manager unlinks a file only while it has no descriptor of it. *)

From S2P Require Import Prelude Common Bytes Record RecordPage.

Abbreviation path := buffer.

Record DiskManager := mkDM {
  files : gmap path buffer;
  fds : gmap Z path;
  path2fd_ : gmap path Z;
  fd2path_ : gmap Z path;
  fd2pageno_ : gmap Z Z;
  direct_page_reads_ : bool;
  direct_read_fds_ : gmap Z Z
}.

Abbreviation MD := (M DiskManager).

Definition set_files x d := mkDM x (fds d) (path2fd_ d) (fd2path_ d) (fd2pageno_ d) (direct_page_reads_ d) (direct_read_fds_ d).
Definition set_fds x d := mkDM (files d) x (path2fd_ d) (fd2path_ d) (fd2pageno_ d) (direct_page_reads_ d) (direct_read_fds_ d).
Definition set_path2fd x d := mkDM (files d) (fds d) x (fd2path_ d) (fd2pageno_ d) (direct_page_reads_ d) (direct_read_fds_ d).
Definition set_fd2path x d := mkDM (files d) (fds d) (path2fd_ d) x (fd2pageno_ d) (direct_page_reads_ d) (direct_read_fds_ d).
Definition set_fd2pageno x d := mkDM (files d) (fds d) (path2fd_ d) (fd2path_ d) x (direct_page_reads_ d) (direct_read_fds_ d).
Definition set_direct x d := mkDM (files d) (fds d) (path2fd_ d) (fd2path_ d) (fd2pageno_ d) (direct_page_reads_ d) x.

Definition new_DiskManager (fs : gmap path buffer) (open : gmap Z path) (direct : bool) : DiskManager :=
  mkDM fs open ∅ ∅ ∅ direct ∅.

(** ** The operating system *)

(** The lowest number that is not an open descriptor. *)
Definition lowest_free (used : gset Z) : Z :=
  default 0 (head (filter (λ n, n ∉ used) (seqZ 0 (Z.of_nat (size used) + 1)))).

(** [open(path, O_RDWR)]: a new descriptor, or -1 when there is no such file. *)
Definition os_open (p : path) : MD Z :=
  f ← gets (λ d, files d !! p) ;
  match f with
  | None => mret (-1)
  | Some _ =>
      fd ← gets (λ d, lowest_free (dom (fds d))) ;
      modify (λ d, set_fds (<[fd := p]> (fds d)) d) ;;
      mret fd
  end.

(** [O_CREAT]: the file is there, empty if it is new. *)
Definition os_create (p : path) : MD Z :=
  modify (λ d, set_files (<[p := default [] (files d !! p)]> (files d)) d) ;;
  os_open p.

(** [close]; [false] when the descriptor is not open. *)
Definition os_close (fd : Z) : MD bool :=
  open ← gets (λ d, bool_decide (fd ∈ dom (fds d))) ;
  modify (λ d, set_fds (delete fd (fds d)) d) ;;
  mret open.

(** [pread]: the bytes that are there, at most [n]; none for a bad descriptor or
    a negative offset. *)
Definition pread (fd n off : Z) : MD (option buffer) :=
  f ← gets (λ d, p ← fds d !! fd ; files d !! p) ;
  mret (match f with
        | Some bs => if off <? 0 then None else Some (slice off n bs)
        | None => None
        end).

(** The file is filled up with zeros where [pwrite] starts behind its end. *)
Definition extend (n : Z) (bs : buffer) : buffer := bs ++ replicate (Z.to_nat (n - len bs)) 0.

Definition pwrite (fd : Z) (bs : buffer) (off : Z) : MD bool :=
  p ← gets (λ d, fds d !! fd) ;
  f ← gets (λ d, p ← p ; files d !! p) ;
  match p, f with
  | Some p, Some file =>
      if off <? 0 then mret false
      else
        when (0 <? len bs)
          (modify (λ d, set_files (<[p := splice off bs (extend (off + len bs) file)]> (files d)) d)) ;;
        mret true
  | _, _ => mret false
  end.

(** ** The manager *)

(** Errors of the system calls are thrown as [UnixError] or [InternalError]. *)
Definition or_throw (line : Z) (ok : bool) : MD unit :=
  if ok then mret tt else crash (Thrown line).

Definition write_page (fd page_no : Z) (bytes : buffer) : MD unit :=
  ok ← pwrite fd bytes (page_no * PAGE_SIZE) ;
  or_throw 51 ok.

Definition read_page (fd page_no num_bytes : Z) : MD buffer :=
  r ← pread fd num_bytes (page_no * PAGE_SIZE) ;
  match r with
  | Some bs => if len bs =? num_bytes then mret bs else crash (Thrown 64)
  | None => crash (Thrown 64)
  end.

Definition update_value (fd page_no slot_offset : Z) (value : buffer) : MD unit :=
  ok ← pwrite fd value (page_no * PAGE_SIZE + slot_offset) ;
  or_throw 92 ok.

Definition page_read_fd (fd : Z) : MD Z :=
  direct ← gets direct_page_reads_ ;
  if negb direct then mret fd
  else
    it ← gets (λ d, direct_read_fds_ d !! fd) ;
    match it with
    | Some fd' => mret fd'
    | None =>
        p ← gets (λ d, fd2path_ d !! fd) ;
        match p with
        | None => crash (Thrown 33)
        | Some p =>
            direct_fd ← os_open p ;
            if direct_fd <? 0 then crash (Thrown 36)
            else
              modify (λ d, set_direct (<[fd := direct_fd]> (direct_read_fds_ d)) d) ;;
              mret direct_fd
        end
    end.

(** The header of a page, read through the pointer [RmPageHdr*]. *)
Definition header_of (bs : buffer) : MD RmPageHdr := λ d,
  match load_RmPageHdr 0 bs with
  | Done (h, _) => Done (h, d)
  | Blocked => Blocked
  | Crash e => Crash e
  end.

Definition read_page_for_fetch (fd page_no target_lsn : Z) : MD buffer :=
  read_fd ← page_read_fd fd ;
  bs ← read_page read_fd page_no PAGE_SIZE ;
  h ← header_of bs ;
  if LLSN_ h <? target_lsn then crash (Thrown 81) else mret bs.

Definition MAX_FD : Z := 30000.

(** An access to the array [fd2pageno_]. *)
Definition at_fd (fd : Z) : MD Z := λ d,
  if (0 <=? fd) && (fd <? MAX_FD) then Done (default 0 (fd2pageno_ d !! fd), d)
  else Crash OutOfBounds.
Definition set_at_fd (fd n : Z) : MD unit := λ d,
  if (0 <=? fd) && (fd <? MAX_FD) then Done (tt, set_fd2pageno (<[fd := n]> (fd2pageno_ d)) d)
  else Crash OutOfBounds.

Definition allocate_page (fd : Z) : MD Z :=
  check 98 ((0 <=? fd) && (fd <? MAX_FD)) ;;
  n ← at_fd fd ;
  set_at_fd fd (n + 1) ;;
  mret n.

Definition is_file (p : path) : MD bool := gets (λ d, bool_decide (is_Some (files d !! p))).

Definition create_file (p : path) : MD unit :=
  exists_ ← is_file p ;
  check 138 (negb exists_) ;;
  it ← gets (λ d, path2fd_ d !! p) ;
  check 141 (bool_decide (it = None)) ;;
  fd ← os_create p ;
  or_throw 144 (0 <=? fd) ;;
  modify (λ d, set_path2fd (<[p := fd]> (path2fd_ d)) d) ;;
  modify (λ d, set_fd2path (<[fd := p]> (fd2path_ d)) d) ;;
  set_at_fd fd 0.

Definition destroy_file (p : path) : MD unit :=
  exists_ ← is_file p ;
  check 156 exists_ ;;
  it ← gets (λ d, path2fd_ d !! p) ;
  or_throw 159 (bool_decide (it = None)) ;;
  modify (λ d, set_files (delete p (files d)) d).

(** The other thread that may open the file between the two locks leaves this one
    the branch of a file that is open already. *)
Definition open_file (p : path) : MD Z :=
  it ← gets (λ d, path2fd_ d !! p) ;
  match it with
  | Some fd =>
      check 174 (0 <=? fd) ;;
      it' ← gets (λ d, fd2path_ d !! fd) ;
      check 175 (bool_decide (is_Some it')) ;;
      mret fd
  | None =>
      fd ← os_open p ;
      if fd <? 0 then mret (-1)
      else
        it' ← gets (λ d, fd2path_ d !! fd) ;
        check 190 (bool_decide (it' = None)) ;;
        modify (λ d, set_fd2path (<[fd := p]> (fd2path_ d)) d) ;;
        modify (λ d, set_path2fd (<[p := fd]> (path2fd_ d)) d) ;;
        end_off ← gets (λ d, len (default [] (files d !! p))) ;
        set_at_fd fd (end_off / PAGE_SIZE) ;;
        mret fd
  end.

Definition close_file (fd : Z) : MD unit :=
  direct ← gets (λ d, direct_read_fds_ d !! fd) ;
  match direct with
  | Some direct_fd =>
      os_close direct_fd ;;
      modify (λ d, set_direct (delete fd (direct_read_fds_ d)) d)
  | None => mret tt
  end ;;
  ok ← os_close fd ;
  or_throw 216 ok ;;
  it ← gets (λ d, fd2path_ d !! fd) ;
  check 219 (bool_decide (is_Some it)) ;;
  match it with
  | Some p =>
      modify (λ d, set_path2fd (delete p (path2fd_ d)) d) ;;
      modify (λ d, set_fd2path (delete fd (fd2path_ d)) d) ;;
      set_at_fd fd 0
  | None => mret tt
  end.

Definition get_file_size (p : path) : MD Z :=
  f ← gets (λ d, files d !! p) ;
  mret (match f with Some bs => len bs | None => u64 (-1) end).

Definition get_file_name (fd : Z) : MD path :=
  it ← gets (λ d, fd2path_ d !! fd) ;
  match it with
  | Some p => mret p
  | None => crash (Thrown 246)
  end.

Definition get_file_fd (p : path) : MD Z :=
  it ← gets (λ d, path2fd_ d !! p) ;
  check 254 (bool_decide (is_Some it)) ;;
  mret (default 0 it).

(** ** Pages of a file *)

Definition has_page (file : buffer) (p : Z) : Prop := 0 ≤ p ∧ (p + 1) * PAGE_SIZE ≤ len file.
Definition page_of (file : buffer) (p : Z) : buffer := slice (p * PAGE_SIZE) PAGE_SIZE file.
Definition set_page (p : Z) (pg file : buffer) : buffer := splice (p * PAGE_SIZE) pg file.

#[export] Instance has_page_dec file p : Decision (has_page file p).
Proof. unfold has_page. apply _. Defined.

Section pages.
Context (file : buffer) (p : Z).
Hypothesis Hp : has_page file p.

#[local] Ltac page_arith := destruct Hp; unfold has_page, PAGE_SIZE in *; lia.

Lemma len_page_of : len (page_of file p) = PAGE_SIZE.
Proof using Hp. unfold page_of. rewrite len_slice; page_arith. Qed.

Lemma len_set_page pg : len pg = PAGE_SIZE → len (set_page p pg file) = len file.
Proof using Hp. intros Hl. unfold set_page. rewrite len_splice; page_arith. Qed.

Lemma page_of_set_page pg : len pg = PAGE_SIZE → page_of (set_page p pg file) p = pg.
Proof using Hp. intros Hl. unfold page_of, set_page. rewrite <- Hl at 2. apply slice_splice; page_arith. Qed.

Lemma page_of_set_page_other pg q :
  len pg = PAGE_SIZE → 0 ≤ q → q ≠ p → page_of (set_page p pg file) q = page_of file q.
Proof using Hp.
  intros Hl Hq Hne. unfold page_of, set_page. apply slice_splice_other; [page_arith..|].
  rewrite Hl. unfold PAGE_SIZE. lia.
Qed.

Lemma has_page_set_page pg q : len pg = PAGE_SIZE → has_page (set_page p pg file) q ↔ has_page file q.
Proof using Hp. intros Hl. unfold has_page. by rewrite len_set_page. Qed.

(** A write within the page changes that page only. *)
Lemma splice_in_page off bs :
  0 ≤ off → off + len bs ≤ PAGE_SIZE →
  splice (p * PAGE_SIZE + off) bs file = set_page p (splice off bs (page_of file p)) file.
Proof using Hp.
  intros Ho Hl. pose proof len_page_of as Hpl. unfold set_page.
  assert (len (splice off bs (page_of file p)) = PAGE_SIZE) as Hsl by (rewrite len_splice; lia).
  destruct Hp as [H0 H1]. pose proof (len_nonneg bs). unfold PAGE_SIZE in *.
  apply list_eq. intros i. rewrite !splice_lookup by lia.
  assert (Z.of_nat (length (splice off bs (page_of file p))) = 4096) as Hs by exact Hsl.
  unfold len in *. repeat case_decide; try lia; try done.
  - f_equal. lia.
  - unfold page_of, PAGE_SIZE. rewrite slice_lookup by lia. rewrite decide_True by lia. f_equal. lia.
Qed.

Lemma slice_in_page off n :
  0 ≤ off → 0 ≤ n → off + n ≤ PAGE_SIZE →
  slice (p * PAGE_SIZE + off) n file = slice off n (page_of file p).
Proof using Hp.
  intros. destruct Hp. unfold page_of. rewrite slice_slice; unfold PAGE_SIZE in *; [done|lia..].
Qed.
End pages.

Lemma set_page_twice file p pg pg' :
  has_page file p → len pg = PAGE_SIZE → len pg' = PAGE_SIZE →
  set_page p pg (set_page p pg' file) = set_page p pg file.
Proof.
  intros [H0 H1] Hl Hl'. unfold set_page, PAGE_SIZE in *.
  apply list_eq. intros i. rewrite !splice_lookup by (rewrite ?len_splice; lia).
  unfold len in *. repeat case_decide; try done; lia.
Qed.

(** ** What the accesses do to a file with the page *)

Section access.
Context (d : DiskManager) (fd : Z) (name : path) (file : buffer) (p : Z).
Hypothesis Hfd : fds d !! fd = Some name.
Hypothesis Hfile : files d !! name = Some file.
Hypothesis Hp : has_page file p.

Definition with_page (pg : buffer) : DiskManager :=
  set_files (<[name := set_page p pg file]> (files d)) d.

Lemma wp_pread n off (Q : option buffer → DiskManager → Prop) :
  0 ≤ off → 0 ≤ n → off + n ≤ PAGE_SIZE →
  Q (Some (slice off n (page_of file p))) d → wp (pread fd n (p * PAGE_SIZE + off)) Q d.
Proof using All.
  intros Ho Hn Hl HQ. unfold pread. repeat wp_step. rewrite Hfd. simpl. rewrite Hfile.
  assert ((p * PAGE_SIZE + off <? 0) = false) as -> by (apply Z.ltb_ge; destruct Hp; unfold PAGE_SIZE; lia).
  by rewrite slice_in_page.
Qed.

Lemma wp_read_page n (Q : buffer → DiskManager → Prop) :
  0 ≤ n ≤ PAGE_SIZE → Q (slice 0 n (page_of file p)) d → wp (read_page fd p n) Q d.
Proof using All.
  intros Hn HQ. unfold read_page. repeat wp_step.
  rewrite <- (Z.add_0_r (p * PAGE_SIZE)). apply wp_pread; [lia..|].
  rewrite len_slice, Z.eqb_refl; [by apply wp_ret|..]; rewrite ?len_page_of by done; lia.
Qed.

Lemma wp_read_whole_page (Q : buffer → DiskManager → Prop) :
  Q (page_of file p) d → wp (read_page fd p PAGE_SIZE) Q d.
Proof using All.
  intros HQ. apply wp_read_page; [unfold PAGE_SIZE; lia|].
  rewrite <- (len_page_of file p Hp) at 1. by rewrite slice_all.
Qed.

Lemma wp_pwrite off bs (Q : bool → DiskManager → Prop) :
  0 ≤ off → 0 < len bs → off + len bs ≤ PAGE_SIZE →
  Q true (with_page (splice off bs (page_of file p))) → wp (pwrite fd bs (p * PAGE_SIZE + off)) Q d.
Proof using All.
  intros Ho Hn Hl HQ. unfold pwrite. repeat wp_step. rewrite Hfd. simpl. rewrite Hfile.
  assert ((p * PAGE_SIZE + off <? 0) = false) as -> by (apply Z.ltb_ge; destruct Hp; unfold PAGE_SIZE; lia).
  assert (extend (p * PAGE_SIZE + off + len bs) file = file) as ->.
  { unfold extend. replace (Z.to_nat _) with 0%nat; [simpl; apply app_nil_r|].
    destruct Hp. unfold PAGE_SIZE in *. lia. }
  repeat wp_step; [|lia]. rewrite splice_in_page by done. exact HQ.
Qed.

Lemma wp_update_value off bs (Q : unit → DiskManager → Prop) :
  0 ≤ off → 0 < len bs → off + len bs ≤ PAGE_SIZE →
  Q tt (with_page (splice off bs (page_of file p))) → wp (update_value fd p off bs) Q d.
Proof using All. intros. unfold update_value. repeat wp_step. apply wp_pwrite; auto. Qed.

Lemma wp_write_page bs (Q : unit → DiskManager → Prop) :
  len bs = PAGE_SIZE → Q tt (with_page bs) → wp (write_page fd p bs) Q d.
Proof using All.
  intros Hl HQ. unfold write_page. repeat wp_step. rewrite <- (Z.add_0_r (p * PAGE_SIZE)).
  apply wp_pwrite; [lia|rewrite Hl; unfold PAGE_SIZE; lia|lia|].
  replace (splice 0 bs (page_of file p)) with bs; [exact HQ|].
  unfold splice. rewrite drop_ge; [by rewrite app_nil_r|].
  pose proof (len_page_of file p Hp). unfold len in *. lia.
Qed.
End access.

(** ** The tables of open files *)

Lemma lowest_free_fresh used : (lowest_free used ∉ used) ∧ 0 ≤ lowest_free used.
Proof.
  unfold lowest_free. set (l := filter _ _). destruct l as [|n l'] eqn:El.
  - exfalso. assert (list_to_set (seqZ 0 (Z.of_nat (size used) + 1)) ⊆ used) as Hsub.
    { intros x Hx%elem_of_list_to_set. destruct (decide (x ∈ used)); [done|].
      assert (x ∈ l) as Hin by (by apply list_elem_of_filter). rewrite El in Hin. set_solver. }
    apply subseteq_size in Hsub. rewrite size_list_to_set in Hsub by apply NoDup_seqZ.
    rewrite length_seqZ in Hsub. lia.
  - simpl. assert (n ∈ l) as Hin by (rewrite El; left).
    apply list_elem_of_filter in Hin as [? ?%elem_of_seqZ]. split; [done|lia].
Qed.

Record dm_wf (d : DiskManager) : Prop := {
  wf_inverse p fd : path2fd_ d !! p = Some fd ↔ fd2path_ d !! fd = Some p;
  wf_open fd p : fd2path_ d !! fd = Some p →
    0 ≤ fd ∧ fds d !! fd = Some p ∧ is_Some (files d !! p);
  wf_direct fd fd' : direct_read_fds_ d !! fd = Some fd' →
    ∃ p, fd2path_ d !! fd = Some p ∧ fds d !! fd' = Some p ∧ fd2path_ d !! fd' = None;
  wf_direct_inj fd1 fd2 fd' : direct_read_fds_ d !! fd1 = Some fd' →
    direct_read_fds_ d !! fd2 = Some fd' → fd1 = fd2
}.

Lemma new_DiskManager_wf fs open direct : dm_wf (new_DiskManager fs open direct).
Proof.
  split; intros *; simpl; rewrite ?lookup_empty; done.
Qed.

(** A call preserves the tables if it leaves them well formed whenever it returns. *)
Definition keeps_tables {A} (m : MD A) : Prop :=
  ∀ d a d', dm_wf d → m d = Done (a, d') → dm_wf d'.

Lemma keeps_wlp {A} (m : MD A) : (∀ d, dm_wf d → wlp m (λ _, dm_wf) d) → keeps_tables m.
Proof. intros H d a d' Hd E. specialize (H d Hd). unfold wlp in H. by rewrite E in H. Qed.

Lemma keeps_elim {A} (m : MD A) d : keeps_tables m → dm_wf d → wlp m (λ _, dm_wf) d.
Proof. intros H Hd. unfold wlp. destruct (m d) as [[a d']| |] eqn:E; [|done..]. by eapply H. Qed.

Lemma keeps_ret {A} (a : A) : keeps_tables (mret a).
Proof. intros d b d' Hd [= _ <-]. done. Qed.

Lemma keeps_bind {A B} (m : MD A) (f : A → MD B) :
  keeps_tables m → (∀ a, keeps_tables (f a)) → keeps_tables (m ≫= f).
Proof.
  intros Hm Hf. apply keeps_wlp. intros d Hd. apply wlp_bind.
  eapply wlp_mono; [by apply keeps_elim|]. intros a d' Hd'. by apply keeps_elim.
Qed.

(** A write to a file, and an extension of the table of descriptors, keep them. *)
Lemma dm_wf_write d p bs :
  dm_wf d → dm_wf (set_files (<[p := bs]> (files d)) d).
Proof.
  intros [Hi Ho Hd Hj]. split; simpl; [done| |done|done].
  intros fd q Hq. destruct (Ho _ _ Hq) as (? & ? & ?). split_and!; [done..|].
  destruct (decide (p = q)) as [->|]; [rewrite lookup_insert_eq|rewrite lookup_insert_ne by done]; done.
Qed.

Lemma dm_wf_new_fd d p fd :
  dm_wf d → fds d !! fd = None → dm_wf (set_fds (<[fd := p]> (fds d)) d).
Proof.
  intros [Hi Ho Hd Hj] Hfd. split; simpl; [done| | |done].
  - intros fd' q Hq. destruct (Ho _ _ Hq) as (? & ? & ?). split_and!; [done| |done].
    rewrite lookup_insert_ne; [done|]. congruence.
  - intros fd1 fd' H1. destruct (Hd _ _ H1) as (q & ? & ? & ?). exists q. split_and!; [done| |done].
    rewrite lookup_insert_ne; [done|]. congruence.
Qed.

Lemma dm_wf_pages d fd n : dm_wf d → dm_wf (set_fd2pageno (<[fd := n]> (fd2pageno_ d)) d).
Proof. intros [Hi Ho Hd Hj]. by split. Qed.

(** Entering a descriptor that the system has just given out. *)
Lemma dm_wf_enter d p fd :
  dm_wf d → 0 ≤ fd → path2fd_ d !! p = None → fd2path_ d !! fd = None → fds d !! fd = Some p →
  (∀ g, direct_read_fds_ d !! g ≠ Some fd) → is_Some (files d !! p) →
  dm_wf (set_path2fd (<[p := fd]> (path2fd_ d)) (set_fd2path (<[fd := p]> (fd2path_ d)) d)).
Proof.
  intros [Hi Ho Hd Hj] H0 Hp Hf Hfd Hg Hfile. split; simpl; [| | |done].
  - intros q fd'. rewrite !lookup_insert_Some. specialize (Hi q fd'). split.
    + intros [[-> ->]|[Hne H1]]; [by left|]. right. split; [|by apply Hi].
      intros ->. apply Hi in H1. congruence.
    + intros [[-> ->]|[Hne H1]]; [by left|]. right. split; [|by apply Hi].
      intros ->. apply Hi in H1. congruence.
  - intros fd' q [[<- <-]|[Hne Hq]]%lookup_insert_Some; [done|by apply Ho].
  - intros fd1 fd' H1. destruct (Hd _ _ H1) as (q & Hq & ? & ?). exists q.
    assert (fd1 ≠ fd) by congruence. assert (fd' ≠ fd) by (intros ->; by apply (Hg fd1)).
    rewrite !lookup_insert_ne by done. done.
Qed.

(** Closing a descriptor that only the system knows. *)
Lemma dm_wf_close d fd :
  dm_wf d → fd2path_ d !! fd = None → (∀ g, direct_read_fds_ d !! g ≠ Some fd) →
  dm_wf (set_fds (delete fd (fds d)) d).
Proof.
  intros [Hi Ho Hd Hj] Hf Hg. split; simpl; [done| | |done].
  - intros fd' q Hq. destruct (Ho _ _ Hq) as (? & ? & ?). split_and!; [done| |done].
    rewrite lookup_delete_ne; [done|]. congruence.
  - intros fd1 fd' H1. destruct (Hd _ _ H1) as (q & ? & ? & ?). exists q. split_and!; [done| |done].
    rewrite lookup_delete_ne; [done|]. intros ->. by apply (Hg fd1).
Qed.

Lemma dm_wf_leave d p fd :
  dm_wf d → fd2path_ d !! fd = Some p → direct_read_fds_ d !! fd = None →
  dm_wf (set_fd2path (delete fd (fd2path_ d)) (set_path2fd (delete p (path2fd_ d)) d)).
Proof.
  intros [Hi Ho Hd Hj] Hf Hg. split; simpl; [| | |done].
  - intros q fd'. rewrite !lookup_delete_Some. pose proof (Hi p fd) as Hpf. specialize (Hi q fd'). split.
    + intros [Hne H1]. split; [|by apply Hi]. intros ->. apply Hi in H1. congruence.
    + intros [Hne H1]. split; [|by apply Hi]. intros ->.
      apply Hpf in Hf. apply Hi in H1. congruence.
  - intros fd' q [Hne Hq]%lookup_delete_Some. by apply Ho.
  - intros fd1 fd' H1. destruct (Hd _ _ H1) as (q & Hq & ? & Hn). exists q.
    rewrite lookup_delete_ne by congruence. split_and!; [done..|]. by apply lookup_delete_None; right.
Qed.

(** ** Every method *)

Lemma keeps_pread fd n off : keeps_tables (pread fd n off).
Proof. apply keeps_wlp. intros d Hd. unfold pread. by repeat wlp_step. Qed.

Lemma keeps_pwrite fd bs off : keeps_tables (pwrite fd bs off).
Proof.
  apply keeps_wlp. intros d Hd. unfold pwrite. repeat wlp_step.
  destruct (fds d !! fd) as [p|]; [|by apply wlp_ret].
  simpl. destruct (files d !! p); [|by apply wlp_ret].
  repeat wlp_step; [done|by apply dm_wf_write|done].
Qed.

Lemma keeps_or_throw line ok : keeps_tables (or_throw line ok).
Proof. intros d a d' Hd. destruct ok; [intros [= _ <-]; done|done]. Qed.

Lemma keeps_check line b : keeps_tables (check line b).
Proof. intros d a d' Hd. destruct b; [intros [= _ <-]; done|done]. Qed.

Lemma keeps_gets {A} (f : DiskManager → A) : keeps_tables (gets f).
Proof. intros d a d' Hd [= _ <-]. done. Qed.

Lemma keeps_crash {A} e : keeps_tables (crash e : MD A).
Proof. done. Qed.

Lemma keeps_header_of bs : keeps_tables (header_of bs).
Proof.
  intros d a d' Hd. unfold header_of. destruct (load_RmPageHdr 0 bs) as [[h b]| |]; [|done..].
  by intros [= _ <-].
Qed.

Lemma keeps_at_fd fd : keeps_tables (at_fd fd).
Proof. intros d a d' Hd. unfold at_fd. case_match; [by intros [= _ <-]|done]. Qed.

Lemma keeps_set_at_fd fd n : keeps_tables (set_at_fd fd n).
Proof.
  intros d a d' Hd. unfold set_at_fd. case_match; [|done]. intros [= _ <-]. by apply dm_wf_pages.
Qed.

Create HintDb tables discriminated.
#[export] Hint Resolve keeps_ret keeps_pread keeps_pwrite keeps_or_throw keeps_check keeps_gets
  keeps_crash keeps_header_of keeps_at_fd keeps_set_at_fd : tables.

(** Composition, case by case. *)
Ltac keeps :=
  repeat first
    [ solve [auto with tables]
    | apply keeps_bind; [|intros ?]
    | match goal with |- keeps_tables (match ?x with _ => _ end) => destruct x end
    | match goal with |- keeps_tables (let _ := ?x in _) => destruct x end ].

Lemma keeps_read_page fd p n : keeps_tables (read_page fd p n).
Proof. unfold read_page. keeps. Qed.
#[export] Hint Resolve keeps_read_page : tables.

Lemma wlp_os_open p d (Q : Z → DiskManager → Prop) :
  (files d !! p = None → Q (-1) d) →
  (∀ fd, is_Some (files d !! p) → 0 ≤ fd → fds d !! fd = None →
         Q fd (set_fds (<[fd := p]> (fds d)) d)) →
  wlp (os_open p) Q d.
Proof.
  intros H1 H2. unfold os_open. wlp_step. wlp_step. destruct (files d !! p) eqn:E.
  - repeat wlp_step. destruct (lowest_free_fresh (dom (fds d))) as [Hf H0].
    apply H2; [done|done|]. by apply not_elem_of_dom.
  - wlp_step. by apply H1.
Qed.

Lemma keeps_page_read_fd fd : keeps_tables (page_read_fd fd).
Proof.
  apply keeps_wlp. intros d Hd. unfold page_read_fd. wlp_step. wlp_step. wlp_step; [by wlp_step|].
  wlp_step. wlp_step. destruct (direct_read_fds_ d !! fd) as [fd'|] eqn:Ed; [by wlp_step|].
  wlp_step. wlp_step. destruct (fd2path_ d !! fd) as [p|] eqn:Ep; [|done].
  apply wlp_bind, wlp_os_open.
  - intros _. done.
  - intros fd' _ H0 Hn. destruct (Z.ltb_spec fd' 0); [done|]. repeat wlp_step.
    pose proof (dm_wf_new_fd d p fd' Hd Hn) as [Hi Ho Hdi Hj].
    assert (fd2path_ d !! fd' = None) as Hnf.
    { destruct (fd2path_ d !! fd') eqn:E; [|done]. destruct (wf_open d Hd _ _ E) as (? & ? & ?). congruence. }
    assert (∀ g, direct_read_fds_ d !! g ≠ Some fd') as Hng.
    { intros g Hg. destruct (wf_direct d Hd _ _ Hg) as (? & ? & ? & ?). congruence. }
    split; simpl; [done|done| |].
    + intros fd1 fd2 [[<- <-]|[Hne Hx]]%lookup_insert_Some.
      * exists p. by rewrite lookup_insert_eq.
      * by apply Hdi.
    + intros fd1 fd2 g [[<- <-]|[Hne1 Hx]]%lookup_insert_Some [[<- ?]|[Hne2 Hy]]%lookup_insert_Some;
        [done|by destruct (Hng fd2)|subst; by destruct (Hng fd1)|by eapply Hj].
Qed.
#[export] Hint Resolve keeps_page_read_fd : tables.

Lemma keeps_open_file p : keeps_tables (open_file p).
Proof.
  apply keeps_wlp. intros d Hd. unfold open_file. wlp_step. wlp_step.
  destruct (path2fd_ d !! p) as [fd|] eqn:Ep; [by repeat wlp_step|].
  apply wlp_bind, wlp_os_open; [intros _; by wlp_step|].
  intros fd Hfile H0 Hn. destruct (Z.ltb_spec fd 0); [lia|].
  wlp_step. wlp_step. wlp_step. wlp_step. bool_simpl. do 4 wlp_step. wlp_step. wlp_step. wlp_step.
  eapply wlp_mono; [apply keeps_elim; [apply keeps_set_at_fd|]|].
  - apply (dm_wf_enter (set_fds (<[fd:=p]> (fds d)) d)); simpl; try done.
    + by apply dm_wf_new_fd.
    + by rewrite lookup_insert_eq.
    + intros g Hg. destruct (wf_direct d Hd _ _ Hg) as (? & ? & ? & ?). congruence.
  - intros [] d' Hd'. by wlp_step.
Qed.
#[export] Hint Resolve keeps_open_file : tables.

Lemma keeps_create_file p : keeps_tables (create_file p).
Proof.
  apply keeps_wlp. intros d Hd. unfold create_file, is_file, os_create. do 6 wlp_step. bool_simpl.
  wlp_step. wlp_step. wlp_step. 
  apply wlp_os_open; simpl; rewrite lookup_insert_eq; [done|].
  intros fd _ Hpos Hn. wlp_step. unfold or_throw. destruct (Z.leb_spec 0 fd); [|done].
  do 4 wlp_step. wlp_step.
  apply keeps_elim; [apply keeps_set_at_fd|].
  set (d1 := set_files _ d) in *. assert (dm_wf d1) as Hd1 by (by apply dm_wf_write).
  pose proof (dm_wf_new_fd d1 p fd Hd1 Hn) as Hd2.
  assert (fd2path_ d !! fd = None) as Hnf.
  { destruct (fd2path_ d !! fd) eqn:E; [|done]. destruct (wf_open d Hd _ _ E) as (? & ? & ?). simpl in *. congruence. }
  apply (dm_wf_enter _ p fd Hd2); simpl; try done.
  - by bool_simpl.
  - by rewrite lookup_insert_eq.
  - intros g Hg. destruct (wf_direct d Hd _ _ Hg) as (? & ? & ? & ?). simpl in *. congruence.
  - by rewrite lookup_insert_eq.
Qed.

Lemma keeps_destroy_file p : keeps_tables (destroy_file p).
Proof.
  apply keeps_wlp. intros d Hd. unfold destroy_file, is_file, or_throw. do 6 wlp_step.
  case_match eqn:Hn; [|done]. bool_simpl. wlp_step. wlp_step.
  destruct Hd as [Hi Ho Hdi Hj]. split; simpl; [done| |done|done].
  intros fd q Hq. destruct (Ho _ _ Hq) as (? & ? & ?). split_and!; [done..|].
  rewrite lookup_delete_ne; [done|]. intros ->. apply Hi in Hq. congruence.
Qed.

Lemma keeps_close_file fd : keeps_tables (close_file fd).
Proof.
  apply keeps_wlp. intros d Hd. unfold close_file, os_close, or_throw. wlp_step. wlp_step. wlp_step.
  apply (wlp_mono _ (λ _ d', dm_wf d' ∧ direct_read_fds_ d' !! fd = None)).
  - destruct (direct_read_fds_ d !! fd) as [fd'|] eqn:Ed; [|by wlp_step].
    repeat wlp_step. simpl. split; [|apply lookup_delete_eq].
    destruct (wf_direct d Hd _ _ Ed) as (p & Hp & Hfd & Hn).
    set (d1 := set_direct (delete fd (direct_read_fds_ d)) d).
    assert (dm_wf d1) as Hd1.
    { destruct Hd as [Hi Ho Hdi Hj]. split; simpl; [done|done| |].
      - intros f1 f2 [_ Hx]%lookup_delete_Some. by apply Hdi.
      - intros f1 f2 g [_ Hx]%lookup_delete_Some [_ Hy]%lookup_delete_Some. by eapply Hj. }
    apply (dm_wf_close d1 fd' Hd1 Hn). simpl. intros g [Hg1 Hg2]%lookup_delete_Some.
    apply Hg1. by eapply (wf_direct_inj d Hd).
  - intros _ d1 [Hd1 Hn]. do 4 wlp_step. case_bool_decide as Hin; [|done]. simpl.
    do 3 wlp_step. simpl. wlp_step. do 2 wlp_step. wlp_step. wlp_step. simpl in *. bool_simpl.
    destruct (fd2path_ d1 !! fd) as [p|] eqn:Ep; [|by wlp_step].
    repeat wlp_step.
    apply keeps_elim; [apply keeps_set_at_fd|].
    pose proof (dm_wf_leave d1 p fd Hd1 Ep Hn) as Hd2.
    apply (dm_wf_close _ fd Hd2); simpl; [apply lookup_delete_eq|].
    intros g Hg. destruct (wf_direct d1 Hd1 _ _ Hg) as (? & ? & ? & ?). congruence.
Qed.
#[export] Hint Resolve keeps_create_file keeps_destroy_file keeps_close_file : tables.

Lemma keeps_write_page fd p bs : keeps_tables (write_page fd p bs).
Proof. unfold write_page. keeps. Qed.
Lemma keeps_update_value fd p off bs : keeps_tables (update_value fd p off bs).
Proof. unfold update_value. keeps. Qed.
Lemma keeps_read_page_for_fetch fd p lsn : keeps_tables (read_page_for_fetch fd p lsn).
Proof. unfold read_page_for_fetch. keeps. Qed.
Lemma keeps_allocate_page fd : keeps_tables (allocate_page fd).
Proof. unfold allocate_page. keeps. Qed.
#[export] Hint Resolve keeps_write_page keeps_update_value keeps_read_page_for_fetch
  keeps_allocate_page : tables.

(** ** Any sequence of calls, while the rest of the process opens and closes
    descriptors of its own *)

Inductive dm_step : DiskManager → DiskManager → Prop :=
  | step_open p fd d d' : open_file p d = Done (fd, d') → dm_step d d'
  | step_create p d d' : create_file p d = Done (tt, d') → dm_step d d'
  | step_destroy p d d' : destroy_file p d = Done (tt, d') → dm_step d d'
  | step_close fd d d' : close_file fd d = Done (tt, d') → dm_step d d'
  | step_read fd p n bs d d' : read_page fd p n d = Done (bs, d') → dm_step d d'
  | step_fetch fd p lsn bs d d' : read_page_for_fetch fd p lsn d = Done (bs, d') → dm_step d d'
  | step_write fd p bs d d' : write_page fd p bs d = Done (tt, d') → dm_step d d'
  | step_update fd p off bs d d' : update_value fd p off bs d = Done (tt, d') → dm_step d d'
  | step_allocate fd p d d' : allocate_page fd d = Done (p, d') → dm_step d d'
  | step_other_opens fd p d : fds d !! fd = None → dm_step d (set_fds (<[fd := p]> (fds d)) d)
  | step_other_closes fd d : fd2path_ d !! fd = None → (∀ g, direct_read_fds_ d !! g ≠ Some fd) →
      dm_step d (set_fds (delete fd (fds d)) d).

Lemma dm_step_wf d d' : dm_step d d' → dm_wf d → dm_wf d'.
Proof.
  intros Hs Hd. destruct Hs as [??? ? E|?? ? E|?? ? E|?? ? E|????? ? E|????? ? E|???? ? E|????? ? E|??? ? E|????|????];
    try (match type of E with ?m _ = _ =>
           assert (keeps_tables m) as Hk by auto with tables; by eapply Hk end).
  - by apply dm_wf_new_fd.
  - by apply dm_wf_close.
Qed.

(** C35: whatever files are created, opened, accessed, closed and destroyed, the
    manager's two tables are inverse to each other: a path is open under one
    descriptor and a descriptor stands for one path, which is the file the system
    has under that descriptor and which exists; the descriptors for direct reads
    belong to open files, one each, and are not those of the manager. *)
Theorem open_files_consistent fs open direct d :
  star dm_step (new_DiskManager fs open direct) d →
  (∀ p fd, path2fd_ d !! p = Some fd ↔ fd2path_ d !! fd = Some p) ∧
  (∀ fd p, fd2path_ d !! fd = Some p → 0 ≤ fd ∧ fds d !! fd = Some p ∧ is_Some (files d !! p)) ∧
  (∀ fd fd', direct_read_fds_ d !! fd = Some fd' →
     fds d !! fd' = fd2path_ d !! fd ∧ is_Some (fd2path_ d !! fd) ∧ fd2path_ d !! fd' = None).
Proof.
  intros Hs.
  assert (dm_wf d) as Hd.
  { eapply star_invariant; [by apply new_DiskManager_wf| |exact Hs]. intros. by eapply dm_step_wf. }
  split; [apply (wf_inverse d Hd)|]. split; [apply (wf_open d Hd)|].
  intros fd fd' E. destruct (wf_direct d Hd _ _ E) as (p & Hp & Hf & Hn).
  split_and!; [by rewrite Hp|by rewrite Hp|done].
Qed.

Definition demo_dm : DiskManager := new_DiskManager {[ [116] := replicate (Z.to_nat 8192) 0 ]} {[ 0 := [] ]} true.
Definition demo_dm1 : DiskManager := after (open_file [116]) demo_dm.
Definition demo_dm2 : DiskManager := after (update_value 1 1 8 [5]) demo_dm1.
Definition demo_dm3 : DiskManager := after (read_page_for_fetch 1 1 5) demo_dm2.

Lemma open_files_consistent_witness :
  ∃ d, star dm_step demo_dm d ∧ path2fd_ d !! [116] = Some 1 ∧ direct_read_fds_ d !! 1 = Some 2 ∧
    (∀ p fd, path2fd_ d !! p = Some fd ↔ fd2path_ d !! fd = Some p).
Proof.
  assert (star dm_step demo_dm demo_dm3) as Hs.
  { eapply star_snoc; [eapply star_snoc; [eapply star_snoc; [apply star_refl|]|]|].
    - apply (step_open [116] 1). vm_compute. reflexivity.
    - apply (step_update 1 1 8 [5]). vm_compute. reflexivity.
    - apply (step_fetch 1 1 5 (<[8%nat := 5]> (replicate (Z.to_nat 4096) 0))). vm_compute. reflexivity. }
  exists demo_dm3. split; [exact Hs|]. split; [vm_compute; reflexivity|].
  split; [vm_compute; reflexivity|]. exact (proj1 (open_files_consistent _ _ _ _ Hs)).
Defined.
