(* ===== verification/FsmReplay.v ===== *)
(** [core/storage/logreplay.cc], lines 17-282: what replaying a record of type
    [FSMUPDATE] does to the free-space map of a table, a tree of pages each of
    which holds a complete binary tree of categories where a node is the maximum
    of its children ([core/storage/fsm_tree/s_fsm_tree.h]).

    The header of such a page is kept as its 56 bytes, padding included. *)

From S2P Require Import Prelude Common Bytes Record RecordPage DiskManager.

Definition S_FSM_META_PAGE_ID : Z := 1.

(** [S_FSMPageType] *)
Definition INTERNAL_PAGE : Z := 1.
Definition LEAF_PAGE : Z := 2.

(** [S_SpaceCategory] *)
Definition NO_SPACE : Z := 0.
Definition ALMOST_FULL : Z := 64.
Definition HALF_FULL : Z := 128.
Definition ALMOST_EMPTY : Z := 192.
Definition EMPTY : Z := 255.

(** ** [S_FSMPageHeader] *)

Definition sizeof_S_FSMPageHeader : Z := 56.

Definition field (off w : Z) (h : buffer) : Z := unle (slice off w h).
Definition set_field (off : Z) (w : nat) (v : Z) (h : buffer) : buffer := splice off (le w v) h.

Definition magic_number (h : buffer) : Z := field 0 4 h.
Definition page_type (h : buffer) : Z := field 8 1 h.
Definition first_heap_page (h : buffer) : Z := field 20 4 h.
Definition heap_pages_count (h : buffer) : Z := field 24 4 h.
Definition first_child_page (h : buffer) : Z := field 28 4 h.
Definition child_count (h : buffer) : Z := field 32 4 h.
Definition node_count (h : buffer) : Z := field 36 4 h.
Definition leaf_start (h : buffer) : Z := field 40 4 h.

(** [S_FSMPageData]; whether a node is dirty is never asked. *)
Record S_FSMPageData := mkFsmPage {
  header : buffer;
  nodes : list Z;
  child_page_ids : list Z
}.

Definition set_header x p := mkFsmPage x (nodes p) (child_page_ids p).
Definition set_nodes x p := mkFsmPage (header p) x (child_page_ids p).
Definition set_children x p := mkFsmPage (header p) (nodes p) x.

Definition FsmSpaceToCategory (free_space : Z) : Z :=
  if free_space =? 0 then NO_SPACE
  else if Z.quot (PAGE_SIZE * 9) 10 <=? free_space then EMPTY
  else if Z.quot (PAGE_SIZE * 2) 3 <=? free_space then ALMOST_EMPTY
  else if Z.quot PAGE_SIZE 3 <=? free_space then HALF_FULL
  else if Z.quot PAGE_SIZE 10 <=? free_space then ALMOST_FULL
  else ALMOST_FULL.

(** Indices are [uint32_t]. *)
Definition GetParentIndex (child : Z) : Z := u32 (child - 1) / 2.
Definition GetLeftChild (parent : Z) : Z := u32 (2 * parent + 1).
Definition GetRightChild (parent : Z) : Z := u32 (2 * parent + 2).

(** The children numbered from [first_child_page] on. *)
Definition numbered_children (h : buffer) : list Z :=
  (λ i, u32 (first_child_page h + i)) <$> seqZ 0 (child_count h).

Definition EnsureChildVector (p : S_FSMPageData) : S_FSMPageData :=
  if negb (page_type (header p) =? INTERNAL_PAGE) then set_children [] p
  else match child_page_ids p with
       | _ :: _ => p
       | [] => set_children (numbered_children (header p)) p
       end.

Fixpoint index_of (x i : Z) (l : list Z) : option Z :=
  match l with
  | [] => None
  | y :: l' => if y =? x then Some i else index_of x (i + 1) l'
  end.

(** [None]: the largest [uint32_t], no such child. *)
Definition FindChildIndex (parent : S_FSMPageData) (child_page_id : Z) : option Z :=
  let h := header parent in
  if negb (page_type h =? INTERNAL_PAGE) then None
  else match index_of child_page_id 0 (child_page_ids parent) with
       | Some i => Some i
       | None =>
           if bool_decide (child_page_ids parent = []) && (0 <? child_count h) &&
              (first_child_page h <=? child_page_id) &&
              (child_page_id <? u32 (first_child_page h + child_count h))
           then Some (u32 (child_page_id - first_child_page h))
           else None
       end.

(** ** A page and its bytes *)

Definition FSM_PAGE_MAGIC : Z := 0x46535047.
Definition FSM_META_MAGIC : Z := 0x46534D54.

(** [uint32_t] values one behind the other. *)
Fixpoint load_ids (n : nat) (bs : buffer) : list Z :=
  match n with
  | O => []
  | S n' => unle (take 4 bs) :: load_ids n' (drop 4 bs)
  end.

(** [DeserializeFSMPage], of a whole page. *)
Definition DeserializeFSMPage (bs : buffer) : option S_FSMPageData :=
  let h := slice 0 sizeof_S_FSMPageHeader bs in
  if negb (magic_number h =? FSM_PAGE_MAGIC) then None
  else
    let payload_bytes := PAGE_SIZE - sizeof_S_FSMPageHeader in
    let child_bytes_needed := child_count h * 4 in
    let has_child_blob := (page_type h =? INTERNAL_PAGE) &&
                          (node_count h + child_bytes_needed <=? payload_bytes) in
    let node_bytes_limit := if has_child_blob then payload_bytes - child_bytes_needed else payload_bytes in
    let node_bytes := Z.min (node_count h) node_bytes_limit in
    let remaining := if node_bytes <? payload_bytes then payload_bytes - node_bytes else 0 in
    let children :=
      if (page_type h =? INTERNAL_PAGE) && (0 <? child_count h) then
        if has_child_blob && (child_bytes_needed <=? remaining)
        then load_ids (Z.to_nat (child_count h))
               (slice (sizeof_S_FSMPageHeader + node_bytes) child_bytes_needed bs)
        else numbered_children h
      else [] in
    Some (mkFsmPage h (slice sizeof_S_FSMPageHeader node_bytes bs) children).

(** [SerializeFSMPage] into a page of zeros; [now] is [time(nullptr)].  [None]:
    the page does not hold all nodes. *)
Definition SerializeFSMPage (now : Z) (p : S_FSMPageData) : option buffer :=
  let p :=
    if page_type (header p) =? INTERNAL_PAGE then
      let p := EnsureChildVector p in
      set_header (set_field 28 4 (default 0 (head (child_page_ids p)))
                    (set_field 32 4 (len (child_page_ids p)) (header p))) p
    else set_header (set_field 28 4 0 (set_field 32 4 0 (header p))) (set_children [] p) in
  let child_bytes := if page_type (header p) =? INTERNAL_PAGE then child_count (header p) * 4 else 0 in
  let node_region_capacity :=
    if sizeof_S_FSMPageHeader + child_bytes <? PAGE_SIZE
    then PAGE_SIZE - sizeof_S_FSMPageHeader - child_bytes else 0 in
  if node_region_capacity <? len (nodes p) then None
  else
    let h := set_field 48 8 now (set_field 0 4 FSM_PAGE_MAGIC (header p)) in
    let zeros := replicate (Z.to_nat PAGE_SIZE) 0 in
    let bs := splice sizeof_S_FSMPageHeader (nodes p) (splice 0 h zeros) in
    Some (if (page_type h =? INTERNAL_PAGE) && (0 <? child_count h)
          then splice (sizeof_S_FSMPageHeader + len (nodes p)) (concat (le 4 <$> child_page_ids p)) bs
          else bs).

Definition LoadFSMPage (fd page_id : Z) : MD (option S_FSMPageData) :=
  bs ← read_page fd page_id PAGE_SIZE ;
  mret (DeserializeFSMPage bs).

Definition StoreFSMPage (now fd page_id : Z) (p : S_FSMPageData) : MD bool :=
  match SerializeFSMPage now p with
  | None => mret false
  | Some bs => write_page fd page_id bs ;; mret true
  end.

(** ** The tree within a page *)

(** [nodes[i]] where it is below [node_count]; [None]: behind the vector. *)
Definition child_value (p : S_FSMPageData) (i : Z) : option Z :=
  if i <? node_count (header p) then nodes p !! Z.to_nat i else Some 0.

Definition set_node (i v : Z) (p : S_FSMPageData) : S_FSMPageData :=
  set_nodes (<[Z.to_nat i := v]> (nodes p)) p.

Fixpoint recompute_up (fuel : nat) (p : S_FSMPageData) (node_index : Z) : option S_FSMPageData :=
  match fuel with
  | O => Some p
  | S fuel' =>
      if 0 <? node_index then
        let parent_index := GetParentIndex node_index in
        left_value ← child_value p (GetLeftChild parent_index) ;
        right_value ← child_value p (GetRightChild parent_index) ;
        old ← nodes p !! Z.to_nat parent_index ;
        let new_parent_value := Z.max left_value right_value in
        if new_parent_value =? old then Some p
        else recompute_up fuel' (set_node parent_index new_parent_value p) parent_index
      else Some p
  end.

Definition root_value (p : S_FSMPageData) : Z := default 0 (head (nodes p)).

(** The page and whether its root has changed; a node's index at least halves in
    every round, so [node_index] rounds are enough. *)
Definition RecomputeWithinPage (p : S_FSMPageData) (node_index : Z) : option (S_FSMPageData * bool) :=
  p' ← recompute_up (Z.to_nat node_index) p node_index ;
  Some (p', bool_decide (nodes p' ≠ []) && negb (root_value p' =? root_value p)).

(** ** The tree of pages *)

Abbreviation FsmPath := (list (Z * S_FSMPageData)).

Section children.
Variable rec : Z → MD (option FsmPath).

Fixpoint first_path (children : list Z) : MD (option FsmPath) :=
  match children with
  | [] => mret None
  | c :: l =>
      r ← rec c ;
      match r with
      | Some path => mret (Some path)
      | None => first_path l
      end
  end.
End children.

(** From the root to the leaf that manages the heap page; a path longer than
    [fuel] pages is not searched to its end. *)
Fixpoint BuildPathToLeaf (fuel : nat) (fd heap_page_id page_id : Z) : MD (option FsmPath) :=
  match fuel with
  | O => block
  | S fuel' =>
      page ← LoadFSMPage fd page_id ;
      match page with
      | None => mret None
      | Some current =>
          let h := header current in
          if page_type h =? LEAF_PAGE then
            mret (if (first_heap_page h <=? heap_page_id) &&
                     (heap_page_id <? u32 (first_heap_page h + heap_pages_count h))
                  then Some [(page_id, current)] else None)
          else
            let current := EnsureChildVector current in
            r ← first_path (BuildPathToLeaf fuel' fd heap_page_id) (child_page_ids current) ;
            mret (match r with
                  | Some path => Some ((page_id, current) :: path)
                  | None => None
                  end)
      end
  end.

(** The loop that carries the value of a changed root into the parents, from the
    page above the leaf upwards. *)
Fixpoint propagate (now fd : Z) (parents : FsmPath) (child child_root_value : Z) : MD bool :=
  match parents with
  | [] => mret true
  | (page_id, page) :: above =>
      let parent_page := EnsureChildVector page in
      match FindChildIndex parent_page child with
      | None => mret true
      | Some child_offset =>
          let parent_node_index := u32 (leaf_start (header parent_page) + child_offset) in
          if node_count (header parent_page) <=? parent_node_index then mret true
          else
            match nodes parent_page !! Z.to_nat parent_node_index with
            | None => crash OutOfBounds
            | Some v =>
                if v =? child_root_value then mret true
                else
                  match RecomputeWithinPage (set_node parent_node_index child_root_value parent_page)
                          parent_node_index with
                  | None => crash OutOfBounds
                  | Some (parent_page, parent_root_changed) =>
                      ok ← StoreFSMPage now fd page_id parent_page ;
                      if negb ok then mret false
                      else if (parent_root_changed : bool)
                      then propagate now fd above page_id (root_value parent_page)
                      else mret true
                  end
            end
      end
  end.

Definition ApplyFsmUpdate (now : Z) (fuel : nat) (fd heap_page_id free_space : Z) : MD bool :=
  meta ← read_page fd S_FSM_META_PAGE_ID PAGE_SIZE ;
  if negb (field 0 4 meta =? FSM_META_MAGIC) then mret false
  else
    path ← BuildPathToLeaf fuel fd heap_page_id (field 20 4 meta) ;
    match reverse <$> path with
    | None | Some [] => mret false
    | Some ((leaf_id, leaf_page) :: parents) =>
        let heap_offset := u32 (heap_page_id - first_heap_page (header leaf_page)) in
        let leaf_index := u32 (leaf_start (header leaf_page) + heap_offset) in
        if node_count (header leaf_page) <=? leaf_index then mret false
        else
          match nodes leaf_page !! Z.to_nat leaf_index with
          | None => crash OutOfBounds
          | Some old_category =>
              let new_category := FsmSpaceToCategory free_space in
              if new_category =? old_category then mret true
              else
                match RecomputeWithinPage (set_node leaf_index new_category leaf_page) leaf_index with
                | None => crash OutOfBounds
                | Some (leaf_page, leaf_root_changed) =>
                    ok ← StoreFSMPage now fd leaf_id leaf_page ;
                    if negb ok then mret false
                    else if (leaf_root_changed : bool)
                    then propagate now fd parents leaf_id (root_value leaf_page)
                    else mret true
                end
          end
    end.

(** ** Within a page every inner node is the maximum of its children *)

Definition value_at (p : S_FSMPageData) (i : Z) : Z := default 0 (nodes p !! Z.to_nat i).

(** The node's value is right (a leaf's always is). *)
Definition node_ok (p : S_FSMPageData) (i : Z) : Prop :=
  2 * i + 1 < len (nodes p) →
  value_at p i = Z.max (value_at p (2 * i + 1)) (value_at p (2 * i + 2)).

(** The vector of nodes has the size that the header says, and no index wraps. *)
Definition fsm_page_wf (p : S_FSMPageData) : Prop :=
  len (nodes p) = node_count (header p) ∧ len (nodes p) < 2 ^ 31.

Lemma value_at_out p i : len (nodes p) ≤ i → value_at p i = 0.
Proof.
  intros Hi. unfold value_at. rewrite lookup_ge_None_2; [done|]. unfold len in Hi. lia.
Qed.

Lemma child_value_at p i : fsm_page_wf p → 0 ≤ i → child_value p i = Some (value_at p i).
Proof.
  intros [Hl Hb] Hi. unfold child_value, value_at, len in *. rewrite <- Hl.
  destruct (Z.ltb_spec i (Z.of_nat (length (nodes p)))) as [Hlt|Hge].
  - destruct (lookup_lt_is_Some_2 (nodes p) (Z.to_nat i)) as [v ->]; [lia|done].
  - rewrite lookup_ge_None_2 by lia. done.
Qed.

Lemma value_at_set_node p i v j :
  0 ≤ i < len (nodes p) → 0 ≤ j → value_at (set_node i v p) j = if decide (j = i) then v else value_at p j.
Proof.
  intros Hi Hj. unfold value_at, set_node, len in *. cbn [nodes set_nodes].
  case_decide as D; [subst|].
  - rewrite list_lookup_insert_eq by lia. done.
  - rewrite list_lookup_insert_ne by lia. done.
Qed.

Lemma fsm_page_wf_set_node p i v : fsm_page_wf p → fsm_page_wf (set_node i v p).
Proof. unfold fsm_page_wf, set_node, len. cbn [nodes header set_nodes]. by rewrite length_insert. Qed.

Lemma parent_of k : 0 < k < 2 ^ 31 → GetParentIndex k = (k - 1) / 2.
Proof. intros Hk. unfold GetParentIndex, u32. rewrite Z.mod_small; [done|lia]. Qed.

Lemma child_of k : 0 ≤ k < 2 ^ 31 - 1 → GetLeftChild k = 2 * k + 1 ∧ GetRightChild k = 2 * k + 2.
Proof. intros Hk. unfold GetLeftChild, GetRightChild, u32. rewrite !Z.mod_small; lia. Qed.

Lemma parent_bounds k :
  0 < k → 0 ≤ (k - 1) / 2 ∧ 2 * ((k - 1) / 2) + 1 ≤ k ∧ k ≤ 2 * ((k - 1) / 2) + 2.
Proof. intros Hk. pose proof (Z.div_mod (k - 1) 2). pose proof (Z.mod_pos_bound (k - 1) 2). lia. Qed.

Lemma parent_unique k q : 0 < k → k = 2 * q + 1 ∨ k = 2 * q + 2 → (k - 1) / 2 = q.
Proof. intros Hk Hq. pose proof (parent_bounds k Hk). lia. Qed.

Lemma recompute_up_ok fuel p k :
  fsm_page_wf p → 0 ≤ k < len (nodes p) → (Z.to_nat k ≤ fuel)%nat →
  (∀ i, 0 ≤ i → (0 < k → i ≠ (k - 1) / 2) → node_ok p i) →
  ∃ p', recompute_up fuel p k = Some p' ∧ header p' = header p ∧ len (nodes p') = len (nodes p) ∧
    (∀ i, 0 ≤ i → node_ok p' i) ∧
    (∀ i, 0 ≤ i → len (nodes p) ≤ 2 * i + 1 ∨ k ≤ i → value_at p' i = value_at p i).
Proof.
  revert p k. induction fuel as [|fuel IH]; intros p k Hwf Hk Hfuel Hok.
  { exists p. cbn. split_and!; [done..| |done]. intros i Hi. apply Hok; lia. }
  cbn [recompute_up]. destruct (Z.ltb_spec 0 k) as [Hpos|Hz].
  2:{ exists p. split_and!; [done..| |done]. intros i Hi. apply Hok; lia. }
  destruct Hwf as [Hl Hb]. rewrite parent_of by lia.
  set (q := (k - 1) / 2).
  assert (0 ≤ q ∧ 2 * q + 1 ≤ k ∧ k ≤ 2 * q + 2) as (Hq0 & Hq1 & Hq2) by (by apply parent_bounds).
  destruct (child_of q) as [-> ->]; [lia|].
  rewrite !child_value_at by (done || lia). cbn.
  destruct (lookup_lt_is_Some_2 (nodes p) (Z.to_nat q)) as [old Hold]; [unfold len in *; lia|].
  rewrite Hold. cbn. assert (value_at p q = old) as Hv by (unfold value_at; by rewrite Hold).
  set (m := Z.max (value_at p (2 * q + 1)) (value_at p (2 * q + 2))).
  destruct (Z.eqb_spec m old) as [Heq|Hne].
  - exists p. split_and!; [done..| |done]. intros i Hi. destruct (decide (i = q)) as [->|].
    + intros _. by rewrite Hv.
    + apply Hok; [done|]. intros _. done.
  - assert (len (nodes (set_node q m p)) = len (nodes p)) as Hlen.
    { unfold set_node, len. cbn. by rewrite length_insert. }
    destruct (IH (set_node q m p) q) as (p' & Hp' & Hh & Hln & Hnode & Hkeep).
    + by apply fsm_page_wf_set_node.
    + lia.
    + lia.
    + intros i Hi Hne'. intros Hin. rewrite Hlen in Hin.
      rewrite !value_at_set_node by lia.
      destruct (decide (i = q)) as [->|Hiq].
      * rewrite !decide_False by lia. done.
      * assert (2 * i + 1 ≠ q ∧ 2 * i + 2 ≠ q) as [H1 H2].
        { split; intros E; apply Hne'; try lia; symmetry; apply parent_unique; lia. }
        rewrite !decide_False by done. apply Hok; [done|subst q; done|lia].
    + exists p'. split_and!; [done|done|lia|done|].
      intros i Hi Hout. rewrite Hkeep by lia.
      rewrite value_at_set_node by lia. rewrite decide_False by lia. done.
Qed.

(** when one node of a page has got a new value, recomputing from it upwards
    makes every inner node the maximum of its children again, in particular the
    root the maximum of the page; it changes nothing but ancestors of the node,
    and says whether the root has changed. *)
Theorem recompute_restores_maxima p k :
  fsm_page_wf p → 0 ≤ k < len (nodes p) →
  (∀ i, 0 ≤ i → (0 < k → i ≠ (k - 1) / 2) → node_ok p i) →
  ∃ p', RecomputeWithinPage p k = Some (p', negb (value_at p' 0 =? value_at p 0)) ∧
    header p' = header p ∧
    (∀ i, 0 ≤ i → node_ok p' i) ∧
    (∀ i, 0 ≤ i < len (nodes p) → value_at p' i ≤ value_at p' 0) ∧
    (∀ i, 0 ≤ i → len (nodes p) ≤ 2 * i + 1 ∨ k ≤ i → value_at p' i = value_at p i).
Proof.
  intros Hwf Hk Hok.
  destruct (recompute_up_ok (Z.to_nat k) p k Hwf Hk (le_n _) Hok) as (p' & Hp' & Hh & Hlen & Hnode & Hkeep).
  exists p'. split_and!; [|done|done| |done].
  - unfold RecomputeWithinPage. rewrite Hp'. cbn.
    assert (∀ r, len (nodes r) = len (nodes p) → root_value r = value_at r 0 ∧ nodes r ≠ []) as Hroot.
    { intros r Hr. unfold root_value, value_at, len in *. destruct (nodes r); [simpl in *; lia|done]. }
    destruct (Hroot p' Hlen) as [-> Hn]. destruct (Hroot p eq_refl) as [-> _].
    by rewrite bool_decide_eq_true_2.
  - assert (∀ n i, (Z.to_nat i ≤ n)%nat → 0 ≤ i < len (nodes p) → value_at p' i ≤ value_at p' 0) as Hmax.
    { induction n as [|n IHn]; intros i Hn Hi.
      - replace i with 0 by lia. done.
      - destruct (decide (i = 0)) as [->|]; [done|].
        set (q := (i - 1) / 2). destruct (parent_bounds i) as (Hq0 & Hq1 & Hq2); [lia|]. fold q in Hq0, Hq1, Hq2.
        assert (i = 2 * q + 1 ∨ i = 2 * q + 2) as Hiq by lia.
        specialize (Hnode q). unfold node_ok in Hnode. rewrite Hlen in Hnode.
        specialize (Hnode ltac:(lia) ltac:(lia)). specialize (IHn q ltac:(lia) ltac:(lia)).
        clearbody q; destruct Hiq as [E|E]; rewrite E; lia. }
    intros i Hi. by apply (Hmax (Z.to_nat i)).
Qed.

(** A leaf page that manages the four heap pages from 8 on. *)
Definition demo_fsm_header : buffer :=
  set_field 40 4 3 (set_field 36 4 7 (set_field 24 4 4 (set_field 20 4 8
    (set_field 8 1 LEAF_PAGE (set_field 0 4 FSM_PAGE_MAGIC (replicate 56 0)))))).
Definition demo_fsm_page : S_FSMPageData := mkFsmPage demo_fsm_header [64; 0; 64; 0; 255; 64; 64] [].

Lemma recompute_restores_maxima_witness :
  fsm_page_wf demo_fsm_page ∧
  ∃ p', RecomputeWithinPage demo_fsm_page 4 = Some (p', true) ∧ nodes p' = [255; 255; 64; 0; 255; 64; 64] ∧
    (∀ i, 0 ≤ i → node_ok p' i).
Proof.
  assert (fsm_page_wf demo_fsm_page) as Hwf by (split; vm_compute; reflexivity).
  assert (0 ≤ 4 < len (nodes demo_fsm_page)) as Hk by (vm_compute; split; congruence).
  assert (∀ i, 0 ≤ i → (0 < 4 → i ≠ (4 - 1) / 2) → node_ok demo_fsm_page i) as Hok.
  { intros i Hi Hne Hin. specialize (Hne eq_refl). change ((4 - 1) / 2) with 1 in Hne.
    change (len (nodes demo_fsm_page)) with 7 in Hin.
    assert (i = 0 ∨ i = 2) as [-> | ->] by lia; vm_compute; reflexivity. }
  split; [exact Hwf|].
  destruct (recompute_restores_maxima demo_fsm_page 4 Hwf Hk Hok) as (p' & Hp' & Hh & Hn & _).
  exists p'. assert (RecomputeWithinPage demo_fsm_page 4 =
    Some (mkFsmPage demo_fsm_header [255; 255; 64; 0; 255; 64; 64] [], true)) as E by (vm_compute; reflexivity).
  rewrite E in Hp'. injection Hp' as <- _.
  split; [exact E|]. split; [vm_compute; reflexivity|exact Hn].
Defined.

(** A map of one page: heap page 9 gets 3000 bytes of free space. *)
Definition demo_fsm_file : buffer :=
  replicate (Z.to_nat 4096) 0 ++
  splice 0 (le 4 FSM_META_MAGIC) (splice 20 (le 4 2) (replicate (Z.to_nat 4096) 0)) ++
  default [] (SerializeFSMPage 0 (set_nodes [64; 64; 64; 0; 64; 64; 64] demo_fsm_page)).
Definition demo_fsm_disk : DiskManager :=
  after (open_file [102]) (new_DiskManager {[ [102] := demo_fsm_file ]} ∅ false).

Example fsm_update :
  let d := after (ApplyFsmUpdate 7 4 0 9 3000) demo_fsm_disk in
  result (ApplyFsmUpdate 7 4 0 9 3000) demo_fsm_disk = Some true ∧
  (nodes <$> (x ← result (LoadFSMPage 0 2) d ; x)) = Some [192; 192; 64; 0; 192; 64; 64].
Proof. split; vm_compute; reflexivity. Qed.
