(* ===== verification/LogReplay.v ===== *)
(** [core/storage/logreplay.cc]: the storage node reads the write-ahead log of every
    compute node and applies its records to the pages of the tables.

    The log of a node is the file [LOG_FILE_<node>], kept here apart from the files
    of the tables.  The replay thread is the only one that applies records;
    [page_progress_] is what it shares with the threads that serve pages. *)

From stdpp Require Import sorting.
From S2P Require Import Prelude Common Bytes Bitmap Record RecordPage PreparedTxn LogRecord DiskManager FsmReplay.

Abbreviation PageKey := (path * Z)%type.

Record Stream := mkStream {
  durable_end : Z;
  read_offset : Z;
  sbuffer : buffer
}.

(** What is known of a page's version since somebody asked for it. *)
Record PageProgress := mkProgress {
  applied : Z;
  initialized : bool
}.

Record LogReplay := mkLR {
  disk_manager_ : DiskManager;
  wal : gmap Z buffer;
  sql_mode : bool;
  db_tables : gset path;
  table_name_map_ : gmap Z path;
  table_fd_cache_ : gmap Z Z;
  streams_ : gmap Z Stream;
  waiting_ : gmap PageKey (gmap Z LogRecord);
  replayed_files_ : gset Z;
  records_read_ : Z;
  records_replayed_ : Z;
  pending_records_ : Z;
  page_progress_ : gmap PageKey PageProgress;
  update_hdr_cache : gmap Z RmFileHdr;
  lock_hdr_cache : gmap Z RmFileHdr
}.

Abbreviation MR := (M LogReplay).

Section setters.
Implicit Types r : LogReplay.
Definition set_disk x r := mkLR x (wal r) (sql_mode r) (db_tables r) (table_name_map_ r) (table_fd_cache_ r) (streams_ r) (waiting_ r) (replayed_files_ r) (records_read_ r) (records_replayed_ r) (pending_records_ r) (page_progress_ r) (update_hdr_cache r) (lock_hdr_cache r).
Definition set_wal x r := mkLR (disk_manager_ r) x (sql_mode r) (db_tables r) (table_name_map_ r) (table_fd_cache_ r) (streams_ r) (waiting_ r) (replayed_files_ r) (records_read_ r) (records_replayed_ r) (pending_records_ r) (page_progress_ r) (update_hdr_cache r) (lock_hdr_cache r).
Definition set_name_map x r := mkLR (disk_manager_ r) (wal r) (sql_mode r) (db_tables r) x (table_fd_cache_ r) (streams_ r) (waiting_ r) (replayed_files_ r) (records_read_ r) (records_replayed_ r) (pending_records_ r) (page_progress_ r) (update_hdr_cache r) (lock_hdr_cache r).
Definition set_fd_cache x r := mkLR (disk_manager_ r) (wal r) (sql_mode r) (db_tables r) (table_name_map_ r) x (streams_ r) (waiting_ r) (replayed_files_ r) (records_read_ r) (records_replayed_ r) (pending_records_ r) (page_progress_ r) (update_hdr_cache r) (lock_hdr_cache r).
Definition set_streams x r := mkLR (disk_manager_ r) (wal r) (sql_mode r) (db_tables r) (table_name_map_ r) (table_fd_cache_ r) x (waiting_ r) (replayed_files_ r) (records_read_ r) (records_replayed_ r) (pending_records_ r) (page_progress_ r) (update_hdr_cache r) (lock_hdr_cache r).
Definition set_waiting x r := mkLR (disk_manager_ r) (wal r) (sql_mode r) (db_tables r) (table_name_map_ r) (table_fd_cache_ r) (streams_ r) x (replayed_files_ r) (records_read_ r) (records_replayed_ r) (pending_records_ r) (page_progress_ r) (update_hdr_cache r) (lock_hdr_cache r).
Definition set_replayed_files x r := mkLR (disk_manager_ r) (wal r) (sql_mode r) (db_tables r) (table_name_map_ r) (table_fd_cache_ r) (streams_ r) (waiting_ r) x (records_read_ r) (records_replayed_ r) (pending_records_ r) (page_progress_ r) (update_hdr_cache r) (lock_hdr_cache r).
Definition set_read x r := mkLR (disk_manager_ r) (wal r) (sql_mode r) (db_tables r) (table_name_map_ r) (table_fd_cache_ r) (streams_ r) (waiting_ r) (replayed_files_ r) x (records_replayed_ r) (pending_records_ r) (page_progress_ r) (update_hdr_cache r) (lock_hdr_cache r).
Definition set_replayed x r := mkLR (disk_manager_ r) (wal r) (sql_mode r) (db_tables r) (table_name_map_ r) (table_fd_cache_ r) (streams_ r) (waiting_ r) (replayed_files_ r) (records_read_ r) x (pending_records_ r) (page_progress_ r) (update_hdr_cache r) (lock_hdr_cache r).
Definition set_pending x r := mkLR (disk_manager_ r) (wal r) (sql_mode r) (db_tables r) (table_name_map_ r) (table_fd_cache_ r) (streams_ r) (waiting_ r) (replayed_files_ r) (records_read_ r) (records_replayed_ r) x (page_progress_ r) (update_hdr_cache r) (lock_hdr_cache r).
Definition set_progress x r := mkLR (disk_manager_ r) (wal r) (sql_mode r) (db_tables r) (table_name_map_ r) (table_fd_cache_ r) (streams_ r) (waiting_ r) (replayed_files_ r) (records_read_ r) (records_replayed_ r) (pending_records_ r) x (update_hdr_cache r) (lock_hdr_cache r).
Definition set_update_cache x r := mkLR (disk_manager_ r) (wal r) (sql_mode r) (db_tables r) (table_name_map_ r) (table_fd_cache_ r) (streams_ r) (waiting_ r) (replayed_files_ r) (records_read_ r) (records_replayed_ r) (pending_records_ r) (page_progress_ r) x (lock_hdr_cache r).
Definition set_lock_cache x r := mkLR (disk_manager_ r) (wal r) (sql_mode r) (db_tables r) (table_name_map_ r) (table_fd_cache_ r) (streams_ r) (waiting_ r) (replayed_files_ r) (records_read_ r) (records_replayed_ r) (pending_records_ r) (page_progress_ r) (update_hdr_cache r) x.
End setters.

Definition onDisk {A} (m : MD A) : MR A := zoom disk_manager_ set_disk m.

(** Work on a local buffer. *)
Definition on_buffer {S A} (bs : buffer) (m : M buffer A) : M S (A * buffer) := λ s,
  match m bs with
  | Done (a, bs') => Done ((a, bs'), s)
  | Blocked => Blocked
  | Crash e => Crash e
  end.

(** [ReplayError] ends the process. *)
Definition ReplayError {A} (line : Z) : MR A := crash (AssertFailed line).

(** ** Progress of pages *)

Definition PublishPageApplied (table : path) (page lsn : Z) : MR unit :=
  it ← gets (λ r, page_progress_ r !! (table, page)) ;
  match it with
  | None => mret tt
  | Some _ => modify (λ r, set_progress (<[(table, page) := mkProgress lsn true]> (page_progress_ r)) r)
  end.

(** Up to the test of the [while] loop; the answer is whether the page has the
    version that is asked for. *)
Definition WaitForPage (table : path) (page target : Z) : MR bool :=
  if target =? 0 then mret true
  else
    entry ← gets (λ r, page_progress_ r !! (table, page)) ;
    let state := default (mkProgress 0 false) entry in
    (if initialized state then
       modify (λ r, set_progress (<[(table, page) := state]> (page_progress_ r)) r)
     else
       modify (λ r, set_progress (<[(table, page) := state]> (page_progress_ r)) r) ;;
       fd ← onDisk (open_file table) ;
       bs ← onDisk (read_page fd page sizeof_RmPageHdr) ;
       h ← onDisk (header_of bs) ;
       modify (λ r, set_progress (<[(table, page) := mkProgress (LLSN_ h) true]> (page_progress_ r)) r)) ;;
    now ← gets (λ r, page_progress_ r !! (table, page)) ;
    mret (target <=? applied (default (mkProgress 0 false) now)).

(** The test of the loop again, after a wakeup; the waiter keeps the entry it
    found even if the table is forgotten meanwhile. *)
Definition page_reached (table : path) (page target : Z) : MR bool :=
  now ← gets (λ r, page_progress_ r !! (table, page)) ;
  mret (target <=? applied (default (mkProgress 0 false) now)).

Definition ForgetTableProgress (table : path) : MR unit :=
  modify (λ r, set_progress (filter (λ kp, kp.1.1 ≠ table ∨ kp.1.2 < 0) (page_progress_ r)) r).

(** [StoragePoolImpl::GetPageWithLsn] for one page, once the wait is over. *)
Definition serve_page (table : path) (page lsn : Z) : MR buffer :=
  fd ← onDisk (open_file table) ;
  onDisk (read_page_for_fetch fd page lsn).

(** ** What a record does to its page *)

Definition offsetof_num_records : Z := 4.
Definition offsetof_LLSN : Z := 8.
Definition offsetof_pre_LLSN : Z := 16.

(** [page_hdr->num_records_ += n] *)
Definition add_num_records (n : Z) : M buffer unit :=
  k ← load_sint offsetof_num_records 4 ;
  memcpy_to offsetof_num_records (le 4 (k + n)).

(** [page_hdr->pre_LLSN_ = page_hdr->LLSN_; page_hdr->LLSN_ = log_llsn;] *)
Definition advance_LLSN (lsn : Z) : M buffer unit :=
  old ← load_uint offsetof_LLSN 8 ;
  memcpy_to offsetof_pre_LLSN (le 8 old) ;;
  memcpy_to offsetof_LLSN (le 8 lsn).

(** [page_hdr->LLSN_ >= log_llsn || log->prev_lsn_ != page_hdr->LLSN_] *)
Definition out_of_order (h : RmPageHdr) (lsn prev : Z) : bool :=
  (lsn <=? LLSN_ h) || negb (prev =? LLSN_ h).

Definition insert_into_page (fh : RmFileHdr) (lsn prev : Z) (value : RmRecord) (slot_no : Z) : M buffer unit :=
  h ← load_RmPageHdr OFFSET_PAGE_HDR ;
  check 336 (negb (out_of_order h lsn prev)) ;;
  b ← is_set bitmap_offset slot_no ;
  check 346 (negb b) ;;
  set bitmap_offset slot_no ;;
  add_num_records 1 ;;
  let tuple := get_slot_offset fh slot_no in
  memcpy_to tuple (le 8 (key_ value)) ;;
  memcpy_to (tuple + sizeof_itemkey_t) (value_ value) ;;
  advance_LLSN lsn.

Definition delete_from_page (fh : RmFileHdr) (lsn prev slot_no : Z) : M buffer unit :=
  h ← load_RmPageHdr OFFSET_PAGE_HDR ;
  check 395 (negb (out_of_order h lsn prev)) ;;
  b ← is_set bitmap_offset slot_no ;
  check 399 b ;;
  reset bitmap_offset slot_no ;;
  add_num_records (-1) ;;
  advance_LLSN lsn ;;
  let item := get_slot_offset fh slot_no + sizeof_itemkey_t in
  valid ← load_uint (item + offsetof_valid) 1 ;
  check 409 (valid =? 1) ;;
  lock ← load_uint (item + offsetof_lock) 8 ;
  check 410 (lock =? EXCLUSIVE_LOCKED).

(** The bytes of a [DataItem] with the fields of its lock replaced. *)
Definition with_lock (lock ts holder owner : Z) : M buffer unit :=
  memcpy_to offsetof_lock (le 8 lock) ;;
  memcpy_to offsetof_timeStamp (le 8 ts) ;;
  memcpy_to offsetof_holder_node (le 1 holder) ;;
  memcpy_to offsetof_lock_owner_node (le 1 owner).

(** ** Applying a record *)

(** [mode == "SQL" && !sm_manager->db.is_table(table_name)] *)
Definition table_is_gone (table : path) : MR bool :=
  gets (λ r, sql_mode r && negb (bool_decide (table ∈ db_tables r))).

Definition read_file_hdr (fd : Z) : MD RmFileHdr :=
  bs ← read_page fd PAGE_NO_RM_FILE_HDR (sizeof_RmPageHdr + sizeof_RmFileHdr) ;
  r ← on_buffer bs (load_RmFileHdr OFFSET_FILE_HDR) ;
  mret (fst r).

(** The thread's cache of file headers, of which there are two. *)
Definition cached_file_hdr (get : LogReplay → gmap Z RmFileHdr)
    (put : gmap Z RmFileHdr → LogReplay → LogReplay) (fd : Z) : MR RmFileHdr :=
  it ← gets (λ r, get r !! fd) ;
  match it with
  | Some fh => mret fh
  | None =>
      fh ← onDisk (read_file_hdr fd) ;
      modify (λ r, put (<[fd := fh]> (get r)) r) ;;
      mret fh
  end.

Definition slot_in_range (fh : RmFileHdr) (slot_no : Z) : bool :=
  (0 <=? slot_no) && (slot_no <? num_records_per_page_ fh).

Definition apply_insert (table : path) (page_no slot_no : Z) (value : RmRecord) (lsn prev : Z) : MR unit :=
  gone ← table_is_gone table ;
  if gone : bool then mret tt
  else
    fd ← onDisk (open_file table) ;
    if fd <? 0 then mret tt
    else
      fh ← onDisk (read_file_hdr fd) ;
      check 327 (slot_in_range fh slot_no) ;;
      page ← onDisk (read_page fd page_no PAGE_SIZE) ;
      '(_, page) ← on_buffer page (insert_into_page fh lsn prev value slot_no) ;
      onDisk (write_page fd page_no page) ;;
      PublishPageApplied table page_no lsn.

Definition apply_delete (table : path) (page_no slot_no : Z) (lsn prev : Z) : MR unit :=
  gone ← table_is_gone table ;
  if gone : bool then mret tt
  else
    fd ← onDisk (open_file table) ;
    if fd <? 0 then mret tt
    else
      fh ← onDisk (read_file_hdr fd) ;
      check 383 (slot_in_range fh slot_no) ;;
      page ← onDisk (read_page fd page_no PAGE_SIZE) ;
      '(_, page) ← on_buffer page (delete_from_page fh lsn prev slot_no) ;
      onDisk (write_page fd page_no page) ;;
      PublishPageApplied table page_no lsn.

(** The header of the page, checked and advanced. *)
Definition next_page_hdr (line fd page_no lsn prev : Z) : MD RmPageHdr :=
  bs ← read_page fd page_no sizeof_RmPageHdr ;
  h ← header_of bs ;
  check line (negb (out_of_order h lsn prev)) ;;
  mret (mkPageHdr (next_free_page_no_ h) (num_records_ h) lsn (LLSN_ h)).

Definition apply_update (table : path) (rid : Rid) (value : RmRecord) (lsn prev : Z) : MR unit :=
  gone ← table_is_gone table ;
  if gone : bool then mret tt
  else
    fd ← onDisk (open_file table) ;
    if fd <? 0 then mret tt
    else
      fh ← cached_file_hdr update_hdr_cache set_update_cache fd ;
      check 441 (slot_in_range fh (slot_no_ rid)) ;;
      page_hdr ← onDisk (next_page_hdr 449 fd (page_no_ rid) lsn prev) ;
      let tuple_offset := get_slot_offset fh (slot_no_ rid) in
      onDisk (update_value fd (page_no_ rid) tuple_offset (le 8 (key_ value) ++ value_ value)) ;;
      onDisk (update_value fd (page_no_ rid) OFFSET_PAGE_HDR (enc_RmPageHdr page_hdr)) ;;
      PublishPageApplied table (page_no_ rid) lsn.

Definition apply_lock (table : path) (rid : Rid) (lock ts holder owner : Z) (lsn prev : Z) : MR unit :=
  gone ← table_is_gone table ;
  if gone : bool then mret tt
  else
    fd ← onDisk (open_file table) ;
    if fd <? 0 then mret tt
    else
      fh ← cached_file_hdr lock_hdr_cache set_lock_cache fd ;
      check 578 (slot_in_range fh (slot_no_ rid)) ;;
      page_hdr ← onDisk (next_page_hdr 588 fd (page_no_ rid) lsn prev) ;
      let item_offset := get_slot_offset fh (slot_no_ rid) + sizeof_itemkey_t in
      br ← onDisk (pread fd sizeof_DataItem (page_no_ rid * PAGE_SIZE + item_offset)) ;
      match br with
      | None => check 609 false
      | Some item_raw =>
          check 609 (len item_raw =? sizeof_DataItem) ;;
          '(_, item_raw) ← on_buffer item_raw (with_lock lock ts holder owner) ;
          onDisk (update_value fd (page_no_ rid) item_offset item_raw) ;;
          onDisk (update_value fd (page_no_ rid) OFFSET_PAGE_HDR (enc_RmPageHdr page_hdr)) ;;
          PublishPageApplied table (page_no_ rid) lsn
      end.

(** [LOG(FATAL)] ends the process. *)
Definition ResolveTableName (table_id : Z) (name : buffer) : MR path :=
  it ← gets (λ r, table_name_map_ r !! table_id) ;
  match it with
  | Some p => mret p
  | None => if 0 <? len name then mret name else crash (AssertFailed 292)
  end.

Definition ResolveTableFd (table_id : Z) (name : buffer) : MR Z :=
  table_name ← ResolveTableName table_id name ;
  it ← gets (λ r, table_fd_cache_ r !! table_id) ;
  match it with
  | Some fd => mret fd
  | None =>
      fd ← onDisk (open_file table_name) ;
      modify (λ r, set_fd_cache (<[table_id := fd]> (table_fd_cache_ r)) r) ;;
      mret fd
  end.

Definition set_table_name_map (names : gmap Z path) : MR unit :=
  modify (set_name_map names) ;;
  modify (set_fd_cache ∅).

Section replay.
(** The clock, and how deep the tree of a free-space map is followed. *)
Variable now : Z.
Variable fsm_depth : nat.

(** Records of type [NEWPAGE] are not expected: the code asserts before it would
    apply one. *)
Definition apply_single_log (log : LogRecord) : MR unit :=
  let lsn := lsn_ (hdr log) in
  let prev := prev_lsn_ (hdr log) in
  match body log with
  | InsertBody value page_no slot_no name => apply_insert name page_no slot_no value lsn prev
  | DeleteBody _ name page_no slot_no _ _ => apply_delete name page_no slot_no lsn prev
  | UpdateBody value rid name _ => apply_update name rid value lsn prev
  | NewPageBody _ _ _ => check 479 false
  | FSMUpdateBody table_id page_id free_space name =>
      fd ← ResolveTableFd table_id name ;
      when (0 <=? fd) (onDisk (ApplyFsmUpdate now fsm_depth fd page_id free_space) ;; mret tt)
  | LockBody _ rid lock ts holder owner name => apply_lock name rid lock ts holder owner lsn prev
  | PreparedBody _ | BatchEndBody | BeginBody | CommitBody | AbortBody => mret tt
  end.

(** Nothing in the program calls this one. *)
Definition apply_undo_log (log : LogRecord) : MR unit :=
  match body log with
  | UpdateBody _ rid name (Some undo_image) =>
      fd ← onDisk (open_file name) ;
      fh ← onDisk (read_file_hdr fd) ;
      let value_offset := get_slot_offset fh (slot_no_ rid) + sizeof_itemkey_t in
      onDisk (update_value fd (page_no_ rid) value_offset (value_ undo_image))
  | DeleteBody table_id name page_no _ meta (Some undo) =>
      fd ← ResolveTableFd table_id name ;
      onDisk (update_value fd PAGE_NO_RM_FILE_HDR (OFFSET_FILE_HDR + 12)
                (le 4 (undo_first_free_page_no_ undo))) ;;
      onDisk (update_value fd page_no OFFSET_PAGE_HDR (enc_RmPageHdr (undo_page_hdr_ undo))) ;;
      let bucket_offset := match meta with Some m => bucket_offset_ m | None => 0 end in
      onDisk (update_value fd page_no bucket_offset (le 1 (undo_bucket_value_ undo))) ;;
      name ← onDisk (get_file_name fd) ;
      PublishPageApplied name page_no (LLSN_ (undo_page_hdr_ undo))
  | _ => mret tt
  end.

(** ** Records in the order of their page *)

(** [None]: the record belongs to no page. *)
Definition PageForLog (log : LogRecord) : option PageKey :=
  match body log with
  | UpdateBody _ rid name _ => Some (name, page_no_ rid)
  | LockBody _ rid _ _ _ _ name => Some (name, page_no_ rid)
  | InsertBody _ page_no _ name => Some (name, page_no)
  | DeleteBody _ name page_no _ _ _ => Some (name, page_no)
  | _ => None
  end.

Definition count_replayed : MR unit := modify (λ r, set_replayed (u64 (records_replayed_ r + 1)) r).

(** [while (current)]: applies the record and then the one that waits for it, as
    long as there is one.  Every round but the first takes a record out of the
    page's queue. *)
Fixpoint apply_chain (fuel : nat) (key : PageKey) (fd : Z) (current : LogRecord) : MR unit :=
  match fuel with
  | O => block
  | S fuel' =>
      apply_single_log current ;;
      modify (λ r, set_replayed_files ({[fd]} ∪ replayed_files_ r) r) ;;
      count_replayed ;;
      page ← gets (λ r, waiting_ r !! key) ;
      match page with
      | None => mret tt
      | Some queue =>
          match queue !! lsn_ (hdr current) with
          | None => mret tt
          | Some next =>
              let queue' : gmap Z LogRecord := delete (lsn_ (hdr current)) queue in
              modify (λ r, set_pending (u64 (pending_records_ r - 1)) r) ;;
              modify (λ r, set_waiting (if bool_decide (queue' = ∅) then delete key (waiting_ r)
                                        else <[key := queue']> (waiting_ r)) r) ;;
              apply_chain fuel' key fd next
          end
      end
  end.

Definition chain_fuel (key : PageKey) (r : LogReplay) : nat :=
  S (size (default ∅ (waiting_ r !! key))).

Definition Dispatch (log : LogRecord) : MR unit :=
  match PageForLog log with
  | None => apply_single_log log ;; count_replayed
  | Some key =>
      let lsn := lsn_ (hdr log) in
      let prev := prev_lsn_ (hdr log) in
      fd ← onDisk (open_file (fst key)) ;
      bs ← onDisk (read_page fd (snd key) sizeof_RmPageHdr) ;
      h ← onDisk (header_of bs) ;
      if lsn <=? LLSN_ h then
        PublishPageApplied (fst key) (snd key) (LLSN_ h) ;;
        count_replayed
      else if LLSN_ h <? prev then
        queue ← gets (λ r, default (∅ : gmap Z LogRecord) (waiting_ r !! key)) ;
        modify (λ r, set_waiting (<[key := match queue !! prev with
                                           | None => <[prev := log]> queue
                                           | Some _ => queue
                                           end]> (waiting_ r)) r) ;;
        match queue !! prev with
        | Some _ => ReplayError 933
        | None => modify (λ r, set_pending (u64 (pending_records_ r + 1)) r)
        end
      else if negb (prev =? LLSN_ h) || (lsn <=? prev) then ReplayError 938
      else
        fuel ← gets (chain_fuel key) ;
        apply_chain fuel key fd log
  end.

(** ** The streams *)

Context `{RequestCodec}.

Definition set_stream (node : Z) (s : Stream) (r : LogReplay) : LogReplay :=
  set_streams (<[node := s]> (streams_ r)) r.

(** [while (size - consumed >= LOG_HEADER_SIZE)], over what was read into the
    stream's buffer; the answer is the number of bytes consumed.  Every round
    consumes a header at least. *)
Fixpoint dispatch_records (fuel : nat) (node size consumed : Z) : MR Z :=
  match fuel with
  | O => block
  | S fuel' =>
      if LOG_HEADER_SIZE <=? size - consumed then
        buf ← gets (λ r, match streams_ r !! node with Some s => sbuffer s | None => [] end) ;
        '(length, _) ← on_buffer buf (load_uint (consumed + OFFSET_LOG_TOT_LEN) 4) ;
        if (length <? LOG_HEADER_SIZE) || (len buf <? length) then ReplayError 967
        else if size - consumed <? length then mret consumed
        else
          '(log, _) ← on_buffer buf (DecodeRecord consumed length) ;
          if negb (log_node_id_ (hdr log) =? node) then ReplayError 970
          else
            modify (λ r, set_read (u64 (records_read_ r + 1)) r) ;;
            Dispatch log ;;
            dispatch_records fuel' node size (consumed + length)
      else mret consumed
  end.

Definition ReadStream (node : Z) : MR bool :=
  it ← gets (λ r, streams_ r !! node) ;
  match it with
  | None => crash OutOfBounds
  | Some s =>
      let offset := read_offset s in
      let size := Z.min (u64 (durable_end s - offset)) (len (sbuffer s)) in
      if size =? 0 then mret false
      else
        file ← gets (λ r, default [] (wal r !! node)) ;
        let bytes := slice offset size file in
        check 961 (len bytes =? size) ;;
        modify (set_stream node (mkStream (durable_end s) offset (splice 0 bytes (sbuffer s)))) ;;
        consumed ← dispatch_records (S (Z.to_nat size)) node size 0 ;
        check 975 (negb (consumed =? 0)) ;;
        modify (λ r, match streams_ r !! node with
                     | Some s => set_stream node (mkStream (durable_end s) (u64 (offset + consumed)) (sbuffer s)) r
                     | None => r
                     end) ;;
        mret true
  end.

Definition RegisterStream (node stream_end : Z) : MR unit :=
  it ← gets (λ r, streams_ r !! node) ;
  match it with
  | Some _ => mret tt
  | None =>
      file ← gets (λ r, wal r !! node) ;
      match file with
      | None => ReplayError 784
      | Some _ =>
          modify (set_stream node (mkStream stream_end 0
                                     (replicate (Z.to_nat LOG_REPLAY_BUFFER_SIZE) 0)))
      end
  end.

Definition PublishDurable (node stream_end : Z) : MR unit :=
  it ← gets (λ r, streams_ r !! node) ;
  match it with
  | None => ReplayError 794
  | Some s => modify (set_stream node (mkStream stream_end (read_offset s) (sbuffer s)))
  end.

Definition all_read (r : LogReplay) : bool :=
  forallb (λ ns : Z * Stream, read_offset (snd ns) =? durable_end (snd ns)) (map_to_list (streams_ r)).

Definition CaughtUp : MR bool :=
  pending ← gets pending_records_ ;
  if negb (pending =? 0) then mret false else gets all_read.

(** [Drain] once its wait is over; the synchronisation of the files succeeds. *)
Definition Drain : MR unit :=
  r ← gets all_read ;
  if negb r then block
  else
    pending ← gets pending_records_ ;
    if negb (pending =? 0) then ReplayError 817 else mret tt.

(** ** Restart *)

(** The end of the last complete record of a log of [length] bytes.  Every round
    takes a header at least. *)
Fixpoint scan_log (fuel : nat) (node : Z) (file : buffer) (length end_ : Z) : MR Z :=
  match fuel with
  | O => block
  | S fuel' =>
      if LOG_HEADER_SIZE <=? length - end_ then
        let header := slice end_ LOG_HEADER_SIZE file in
        '(size, _) ← on_buffer header (load_uint OFFSET_LOG_TOT_LEN 4) ;
        '(producer, _) ← on_buffer header (load_sint OFFSET_LOG_NODE_ID 4) ;
        if (size <? LOG_HEADER_SIZE) || (LOG_REPLAY_BUFFER_SIZE <? size) || negb (producer =? node)
        then ReplayError 751
        else if length - end_ <? size then mret end_
        else scan_log fuel' node file length (end_ + size)
      else mret end_
  end.

Definition recover_file (node : Z) : MR unit :=
  file ← gets (λ r, default [] (wal r !! node)) ;
  let length := len file in
  end_ ← scan_log (S (Z.to_nat length)) node file length 0 ;
  when (negb (end_ =? length))
    (modify (λ r, set_wal (<[node := take (Z.to_nat end_) file]> (wal r)) r)) ;;
  RegisterStream node end_.

(** [std::map] goes through its keys from the least on. *)
Definition stream_nodes (r : LogReplay) : list Z := merge_sort Z.le (elements (dom (streams_ r))).

Fixpoint read_all (nodes : list Z) (progress : bool) : MR bool :=
  match nodes with
  | [] => mret progress
  | n :: l => p ← ReadStream n ; read_all l (progress || p)
  end.

(** [do .. while (progress)]: every round but the last reads a record. *)
Fixpoint read_until_done (fuel : nat) : MR unit :=
  match fuel with
  | O => block
  | S fuel' =>
      nodes ← gets stream_nodes ;
      progress ← read_all nodes false ;
      if progress : bool then read_until_done fuel' else mret tt
  end.

Definition wal_bytes (r : LogReplay) : nat :=
  Z.to_nat (foldr Z.add 0 ((λ nf : Z * buffer, len (snd nf)) <$> map_to_list (wal r))).

(** The constructor, on the logs and tables that a previous process left; the
    directory is listed in some order. *)
Definition start (nodes : list Z) : MR unit :=
  for_each recover_file nodes ;;
  fuel ← gets (λ r, S (wal_bytes r)) ;
  read_until_done fuel ;;
  pending ← gets pending_records_ ;
  if negb (pending =? 0) then ReplayError 767 else mret tt.

Definition new_LogReplay (d : DiskManager) (logs : gmap Z buffer) (sql : bool) (tables : gset path)
    (names : gmap Z path) : LogReplay :=
  mkLR d logs sql tables names ∅ ∅ ∅ ∅ 0 0 0 ∅ ∅ ∅.

(** One round of the replay thread. *)
Definition replay_round : MR bool :=
  nodes ← gets stream_nodes ;
  read_all nodes false.
End replay.
