(* ===== verification/LogManager.v ===== *)
(** [core/storage/log_manager.cc]: the storage node appends the batches of log
    records that the compute nodes send to one file per node, and tells the replay
    ([LogReplay]) how far each file is durable.  The files are those of
    [LogReplay]; writing and synchronising them succeeds. *)

From S2P Require Import Prelude Common Bytes Record RecordPage PreparedTxn LogRecord DiskManager LogReplay.

Record LogManager := mkLM {
  lm_streams : gmap Z Z;
  log_replay_ : LogReplay
}.

Abbreviation ML := (M LogManager).

Definition set_lm_streams x m := mkLM x (log_replay_ m).
Definition set_replay x m := mkLM (lm_streams m) x.

Definition onReplay {A} (m : MR A) : ML A := zoom log_replay_ set_replay m.

(** [WalError] ends the process. *)
Definition WalError {A} (line : Z) : ML A := crash (AssertFailed line).

(** The stream of a node; its state is the length of the file. *)
Definition GetStream (node : Z) : ML Z :=
  it ← gets (λ m, lm_streams m !! node) ;
  match it with
  | Some end_ => mret end_
  | None =>
      onReplay (modify (λ r, set_wal (<[node := default [] (wal r !! node)]> (wal r)) r)) ;;
      end_ ← onReplay (gets (λ r, len (default [] (wal r !! node)))) ;
      modify (λ m, set_lm_streams (<[node := end_]> (lm_streams m)) m) ;;
      onReplay (RegisterStream node end_) ;;
      mret end_
  end.

(** The loop that checks the records of a batch; every round takes a header at
    least. *)
Fixpoint check_batch (fuel : nat) (data : buffer) (node offset : Z) : ML unit :=
  match fuel with
  | O => block
  | S fuel' =>
      if offset <? len data then
        if len data - offset <? LOG_HEADER_SIZE then WalError 61
        else
          '(length, _) ← on_buffer data (load_uint (offset + OFFSET_LOG_TOT_LEN) 4) ;
          '(producer, _) ← on_buffer data (load_sint (offset + OFFSET_LOG_NODE_ID) 4) ;
          if negb (producer =? node) || (length <? LOG_HEADER_SIZE) || (len data - offset <? length)
          then WalError 67
          else check_batch fuel' data node (offset + length)
      else mret tt
  end.

Definition AppendAndSync (data : buffer) : ML unit :=
  if len data =? 0 then mret tt
  else if len data <? LOG_HEADER_SIZE then WalError 55
  else
    '(node, _) ← on_buffer data (load_sint OFFSET_LOG_NODE_ID 4) ;
    if node <? 0 then WalError 58
    else
      check_batch (S (Z.to_nat (len data))) data node 0 ;;
      end_ ← GetStream node ;
      onReplay (modify (λ r, set_wal (<[node := default [] (wal r !! node) ++ data]> (wal r)) r)) ;;
      modify (λ m, set_lm_streams (<[node := u64 (end_ + len data)]> (lm_streams m)) m) ;;
      onReplay (PublishDurable node (u64 (end_ + len data))).
