(* ===== verification/LogBuffer.v ===== *)
(** The compute node's half of the write-ahead log ([compute_server/server.h],
    [server.cc]): a change of a page is numbered, queued, flushed to the storage
    node with the queue, and counted as durable once the storage node has answered.

    [log_mtx], which [UpdatePageLLSN] takes and [AddToLogNoBlock] releases, is part
    of the state.  A flush is cut in two at the call of the storage node: until the
    answer arrives its batch is in [log_flushing_], and no other flush starts
    ([log_flush_mtx_]). *)

From S2P Require Import Prelude Common Bytes Record RecordPage PreparedTxn LogRecord.

Record LogBuffer := mkLB {
  current_llsn_ : Z;
  log_records : list LogRecord;
  log_flushing_ : option (list LogRecord);
  persist_lsn : Z;
  requested_flush_lsn_ : Z;
  generate_log_ : bool;
  log_mtx : bool
}.

Abbreviation MB := (M LogBuffer).

Definition set_current x b := mkLB x (log_records b) (log_flushing_ b) (persist_lsn b) (requested_flush_lsn_ b) (generate_log_ b) (log_mtx b).
Definition set_records x b := mkLB (current_llsn_ b) x (log_flushing_ b) (persist_lsn b) (requested_flush_lsn_ b) (generate_log_ b) (log_mtx b).
Definition set_flushing x b := mkLB (current_llsn_ b) (log_records b) x (persist_lsn b) (requested_flush_lsn_ b) (generate_log_ b) (log_mtx b).
Definition set_persist x b := mkLB (current_llsn_ b) (log_records b) (log_flushing_ b) x (requested_flush_lsn_ b) (generate_log_ b) (log_mtx b).
Definition set_requested x b := mkLB (current_llsn_ b) (log_records b) (log_flushing_ b) (persist_lsn b) x (generate_log_ b) (log_mtx b).
Definition set_log_mtx x b := mkLB (current_llsn_ b) (log_records b) (log_flushing_ b) (persist_lsn b) (requested_flush_lsn_ b) (generate_log_ b) x.

#[export] Instance LogBuffer_mutex : HasMutex LogBuffer.
Proof. refine {| mutex_held := log_mtx; mutex_set := set_log_mtx |}; by intros; destruct s. Defined.

Definition new_LogBuffer (generate_log : bool) : LogBuffer := mkLB 0 [] None 0 0 generate_log false.

(** ** Numbering *)

Definition generate_next_llsn : MB Z :=
  n ← gets (λ b, u64 (current_llsn_ b + 1)) ;
  modify (set_current n) ;;
  mret n.

Definition advance_llsn (new_llsn : Z) : MB unit :=
  cur ← gets current_llsn_ ;
  when (cur <? new_llsn) (modify (set_current new_llsn)).

(** The header is that of the caller's page: the new one is part of the answer. *)
Definition update_page_llsn (h : RmPageHdr) : MB (Z * RmPageHdr) :=
  let old_page_llsn := LLSN_ h in
  generated ← generate_next_llsn ;
  let new_llsn := if generated <=? old_page_llsn then u64 (old_page_llsn + 1) else generated in
  when (generated <=? old_page_llsn) (advance_llsn new_llsn) ;;
  mret (new_llsn, mkPageHdr (next_free_page_no_ h) (num_records_ h) new_llsn old_page_llsn).

Definition UpdatePageLLSN (h : RmPageHdr) : MB (Z * RmPageHdr) :=
  mutex_lock ;;
  update_page_llsn h.

(** ** Queueing *)

Definition AddToLogNoBlock (log : LogRecord) : MB unit :=
  g ← gets generate_log_ ;
  if negb g then mutex_unlock
  else
    modify (λ b, set_records (log_records b ++ [log]) b) ;;
    mutex_unlock.

Definition AddMetadataLog (log : LogRecord) : MB Z :=
  enabled ← gets generate_log_ ;
  if negb enabled then mret 0
  else
    mutex_lock ;;
    lsn ← generate_next_llsn ;
    AddToLogNoBlock (set_lsns (prev_lsn_ (hdr log)) lsn log) ;;
    mret lsn.

(** What the methods that log a change of a page have in common. *)
Definition add_page_log (log : LogRecord) (pagehdr : RmPageHdr) : MB (Z * RmPageHdr) :=
  let prev := LLSN_ pagehdr in
  '(lsn, pagehdr) ← UpdatePageLLSN pagehdr ;
  AddToLogNoBlock (set_lsns prev lsn log) ;;
  mret (lsn, pagehdr).

(** [itemkey_t pri_key], the largest number for a table without a primary key. *)
Definition pri_key (key : option Z) : Z := default (u64 (-1)) key.

(** [item] is the object's bytes, [value] what it points to. *)
Definition AddUpdateLog (node tx_id : Z) (table_name : buffer) (item value : buffer) (key : option Z)
    (rid : Rid) (pagehdr : RmPageHdr) (commit_ts : Z) : MB (Z * RmPageHdr) :=
  let item := if commit_ts =? 0 then item else splice offsetof_commitTimeStamp (le 8 commit_ts) item in
  let log := new_UpdateLogRecord 0 node tx_id (mkRecord (pri_key key) (item ++ value)) rid table_name None in
  '(lsn, pagehdr) ← add_page_log log pagehdr ;
  check 942 (0 <? lsn) ;;
  mret (lsn, pagehdr).

Definition AddLockLog (node tx_id table_id : Z) (table_name : buffer) (rid : Rid) (lock_type : Z)
    (pagehdr : RmPageHdr) (time_stamp holder_node lock_owner_node : Z) : MB (Z * RmPageHdr) :=
  add_page_log (new_LockLogRecord 0 node tx_id table_id table_name rid lock_type time_stamp
                  (holder_node mod 256) (lock_owner_node mod 256)) pagehdr.

Definition AddDeleteLog (node tx_id table_id : Z) (table_name : buffer) (page_no slot_no : Z)
    (pagehdr : RmPageHdr) : MB (Z * RmPageHdr) :=
  add_page_log (new_DeleteLogRecord 0 node tx_id table_id table_name page_no slot_no) pagehdr.

Definition AddInsertLog (node tx_id : Z) (table_name : buffer) (item value : buffer) (key : option Z)
    (rid : Rid) (pagehdr : RmPageHdr) : MB (Z * RmPageHdr) :=
  add_page_log (new_InsertLogRecord 0 node tx_id (mkRecord (pri_key key) (item ++ value))
                  (page_no_ rid) (slot_no_ rid) table_name) pagehdr.

(** ** Flushing *)

(** The records one behind the other, each as long as it says. *)
Fixpoint serialize_all (logs : list LogRecord) (dest : Z) : M buffer unit :=
  match logs with
  | [] => mret tt
  | log :: l => serialize log dest ;; serialize_all l (dest + log_tot_len_ (hdr log))
  end.

Definition total_size (logs : list LogRecord) : Z :=
  fold_left (λ n log, n + log_tot_len_ (hdr log)) logs 0.
Definition max_lsn (logs : list LogRecord) : Z :=
  fold_left (λ m log, if m <? lsn_ (hdr log) then lsn_ (hdr log) else m) logs 0.

Definition serialize_batch (logs : list LogRecord) : outcome (unit * buffer) :=
  serialize_all logs 0 (replicate (Z.to_nat (total_size logs)) 0).

(** [LogFlush] up to the call; the answer is the batch to send, if there is one. *)
Definition LogFlush_take : MB (option buffer) :=
  busy ← gets log_flushing_ ;
  match busy with
  | Some _ => block
  | None =>
      g ← gets generate_log_ ;
      if negb g then mret None
      else
        mutex_lock ;;
        batch_logs ← gets log_records ;
        modify (set_records []) ;;
        mutex_unlock ;;
        match batch_logs with
        | [] => mret None
        | _ =>
            modify (set_flushing (Some batch_logs)) ;;
            match serialize_batch batch_logs with
            | Done (_, bs) => mret (Some bs)
            | Blocked => block
            | Crash e => crash e
            end
        end
  end.

(** ... and after it. *)
Definition LogFlush_done : MB unit :=
  batch ← gets log_flushing_ ;
  match batch with
  | None => mret tt
  | Some logs =>
      let m := max_lsn logs in
      p ← gets persist_lsn ;
      when ((0 <? m) && (p <? m)) (modify (set_persist m)) ;;
      modify (set_flushing None)
  end.

Definition RequestLogFlush (target_lsn : Z) : MB unit :=
  g ← gets generate_log_ ;
  if negb g then mret tt
  else
    p ← gets persist_lsn ;
    when (p <? target_lsn)
      (modify (λ b, set_requested (Z.max (requested_flush_lsn_ b) target_lsn) b)).

(** [wait_log_flush] up to its wait, and the test of its wait. *)
Definition wait_log_flush_request (require_lsn : Z) : MB unit := RequestLogFlush require_lsn.
Definition wait_log_flush_done (require_lsn : Z) : MB unit :=
  g ← gets generate_log_ ;
  if negb g then mret tt
  else
    p ← gets persist_lsn ;
    if p <? require_lsn then block else mret tt.
