(* ===== verification/Redo.v ===== *)
(** What the replay of a log record does to its page, as a function of the bytes of the page.
    [apply_single_log] works on the page's file, reading and writing it in pieces,
    through the manager's tables and the thread's caches; [wp_apply_single_log] shows
    that this comes down to [redo].  What [redo] does to the page is said in
    [RedoView], without the bytes. *)

From S2P Require Import Prelude Common Bytes Bitmap Record RecordPage PreparedTxn LogRecord LogFormat DiskManager FsmReplay LogReplay.

#[local] Arguments le : simpl never.

Definition redo (fh : RmFileHdr) (log : LogRecord) : M buffer unit :=
  let lsn := lsn_ (hdr log) in
  let prev := prev_lsn_ (hdr log) in
  match body log with
  | InsertBody v _ slot _ =>
      check 327 (slot_in_range fh slot) ;; insert_into_page fh lsn prev v slot
  | DeleteBody _ _ _ slot _ _ =>
      check 383 (slot_in_range fh slot) ;; delete_from_page fh lsn prev slot
  | UpdateBody v rid _ _ =>
      check 441 (slot_in_range fh (slot_no_ rid)) ;;
      h ← load_RmPageHdr OFFSET_PAGE_HDR ;
      check 449 (negb (out_of_order h lsn prev)) ;;
      memcpy_to (get_slot_offset fh (slot_no_ rid)) (le 8 (key_ v) ++ value_ v) ;;
      memcpy_to OFFSET_PAGE_HDR (enc_RmPageHdr (mkPageHdr (next_free_page_no_ h) (num_records_ h) lsn (LLSN_ h)))
  | LockBody _ rid lock ts holder owner _ =>
      check 578 (slot_in_range fh (slot_no_ rid)) ;;
      h ← load_RmPageHdr OFFSET_PAGE_HDR ;
      check 588 (negb (out_of_order h lsn prev)) ;;
      let item_offset := get_slot_offset fh (slot_no_ rid) + sizeof_itemkey_t in
      item ← memcpy_from item_offset sizeof_DataItem ;
      '(_, item) ← on_buffer item (with_lock lock ts holder owner) ;
      memcpy_to item_offset item ;;
      memcpy_to OFFSET_PAGE_HDR (enc_RmPageHdr (mkPageHdr (next_free_page_no_ h) (num_records_ h) lsn (LLSN_ h)))
  | _ => mret tt
  end.

(** The version of a page. *)
Definition page_LLSN (pg : buffer) : Z := unle (slice offsetof_LLSN 8 pg).

(** ** What it means that a computation has returned *)

Section inversion.
Context {S : Type}.

Lemma bind_done {A B} (m : M S A) (f : A → M S B) s r :
  (m ≫= f) s = Done r → ∃ a s1, m s = Done (a, s1) ∧ f a s1 = Done r.
Proof. unfold mbind, M_bind. destruct (m s) as [[a s1]| |]; [|done..]. eauto. Qed.

Lemma mret_done {A} (a : A) (s : S) r : (mret a : M S A) s = Done r → r = (a, s).
Proof. by intros [= <-]. Qed.

Lemma check_done n b (s : S) r : check n b s = Done r → b = true ∧ r = (tt, s).
Proof. destruct b; [intros [= <-]; done|done]. Qed.

Lemma on_buffer_done {A} bs (m : M buffer A) (s : S) r :
  on_buffer bs m s = Done r → ∃ a bs', m bs = Done (a, bs') ∧ r = ((a, bs'), s).
Proof. unfold on_buffer. destruct (m bs) as [[a bs']| |]; [|done..]. intros [= <-]. eauto. Qed.

Lemma run_on_buffer {A} bs (m : M buffer A) a bs' (s : S) :
  m bs = Done (a, bs') → on_buffer bs m s = Done ((a, bs'), s).
Proof. unfold on_buffer. by intros ->. Qed.

Lemma wp_on_buffer {A} bs (m : M buffer A) (Q : A * buffer → S → Prop) s a bs' :
  m bs = Done (a, bs') → Q (a, bs') s → wp (on_buffer bs m) Q s.
Proof. intros E HQ. eapply wp_done; [by apply run_on_buffer|done]. Qed.
End inversion.

Lemma memcpy_to_done off bs buf r :
  memcpy_to off bs buf = Done r → 0 ≤ off ∧ off + len bs ≤ len buf ∧ r = (tt, splice off bs buf).
Proof.
  unfold memcpy_to, in_bounds. case_match eqn:E; [|done]. intros [= <-]. bool_simpl. done.
Qed.

Lemma memcpy_from_done off n buf r :
  memcpy_from off n buf = Done r → 0 ≤ off ∧ 0 ≤ n ∧ off + n ≤ len buf ∧ r = (slice off n buf, buf).
Proof.
  unfold memcpy_from, in_bounds. case_match eqn:E; [|done]. intros [= <-]. bool_simpl. done.
Qed.

Lemma load_uint_done off w buf r :
  load_uint off w buf = Done r →
  0 ≤ off ∧ off + Z.of_nat w ≤ len buf ∧ r = (unle (slice off (Z.of_nat w) buf), buf).
Proof.
  unfold load_uint. intros (a & s1 & H1 & H2)%bind_done.
  apply memcpy_from_done in H1 as (? & ? & ? & [= -> ->]). injection H2 as <-. done.
Qed.

Lemma load_sint_done off w buf r :
  load_sint off w buf = Done r →
  0 ≤ off ∧ off + Z.of_nat w ≤ len buf ∧ r = (sint w (unle (slice off (Z.of_nat w) buf)), buf).
Proof.
  unfold load_sint. intros (a & s1 & H1 & H2)%bind_done.
  apply memcpy_from_done in H1 as (? & ? & ? & [= -> ->]). injection H2 as <-. done.
Qed.

Lemma load_uint_run off w buf :
  0 ≤ off → off + Z.of_nat w ≤ len buf → load_uint off w buf = Done (unle (slice off (Z.of_nat w) buf), buf).
Proof.
  intros. unfold load_uint, mbind, M_bind, memcpy_from. rewrite in_bounds_true by lia. done.
Qed.

Lemma load_sint_run off w buf :
  0 ≤ off → off + Z.of_nat w ≤ len buf →
  load_sint off w buf = Done (sint w (unle (slice off (Z.of_nat w) buf)), buf).
Proof.
  intros. unfold load_sint, mbind, M_bind, memcpy_from. rewrite in_bounds_true by lia. done.
Qed.

(** The header at the beginning of a page, as a value. *)
Definition hdr_at (pg : buffer) : RmPageHdr :=
  mkPageHdr (sint 4 (unle (slice 0 4 pg))) (sint 4 (unle (slice 4 4 pg)))
    (unle (slice 8 8 pg)) (unle (slice 16 8 pg)).

Lemma load_hdr_run pg : 24 ≤ len pg → load_RmPageHdr 0 pg = Done (hdr_at pg, pg).
Proof.
  intros Hl. unfold load_RmPageHdr.
  rewrite (run_bind _ _ _ _ _ (load_sint_run 0 4 pg ltac:(lia) ltac:(lia))).
  rewrite (run_bind _ _ _ _ _ (load_sint_run (0 + 4) 4 pg ltac:(lia) ltac:(lia))).
  rewrite (run_bind _ _ _ _ _ (load_uint_run (0 + 8) 8 pg ltac:(lia) ltac:(lia))).
  rewrite (run_bind _ _ _ _ _ (load_uint_run (0 + 16) 8 pg ltac:(lia) ltac:(lia))).
  done.
Qed.

Lemma load_hdr_done pg r : load_RmPageHdr 0 pg = Done r → 24 ≤ len pg ∧ r = (hdr_at pg, pg).
Proof.
  intros H. assert (24 ≤ len pg) as Hl; [|split; [done|]; rewrite load_hdr_run in H by done; congruence].
  unfold load_RmPageHdr in H.
  apply bind_done in H as (? & ? & H1 & H). apply load_sint_done in H1 as (_ & _ & [= -> ->]).
  apply bind_done in H as (? & ? & H1 & H). apply load_sint_done in H1 as (_ & _ & [= -> ->]).
  apply bind_done in H as (? & ? & H1 & H). apply load_uint_done in H1 as (_ & _ & [= -> ->]).
  apply bind_done in H as (? & ? & H1 & H). apply load_uint_done in H1 as (_ & ? & _). lia.
Qed.

Lemma hdr_at_LLSN pg : LLSN_ (hdr_at pg) = page_LLSN pg.
Proof. done. Qed.

Lemma hdr_at_slice pg : 24 ≤ len pg → hdr_at (slice 0 sizeof_RmPageHdr pg) = hdr_at pg.
Proof.
  intros Hl. unfold hdr_at, sizeof_RmPageHdr. by rewrite !slice_slice by lia.
Qed.

(** Splitting a run that has returned into its steps. *)
Ltac done_inv :=
  repeat match goal with
  | H : (_ ≫= _) _ = Done _ |- _ =>
      let a := fresh "a" in let s := fresh "s" in let E := fresh "E" in
      apply bind_done in H as (a & s & E & H)
  | H : check _ _ _ = Done _ |- _ => apply check_done in H as [? ?]
  | H : memcpy_to _ _ _ = Done _ |- _ => apply memcpy_to_done in H as (? & ? & ?)
  | H : memcpy_from _ _ _ = Done _ |- _ => apply memcpy_from_done in H as (? & ? & ? & ?)
  | H : load_uint _ _ _ = Done _ |- _ => apply load_uint_done in H as (? & ? & ?)
  | H : load_sint _ _ _ = Done _ |- _ => apply load_sint_done in H as (? & ? & ?)
  | H : load_RmPageHdr _ _ = Done _ |- _ => apply load_hdr_done in H as (? & ?)
  | H : on_buffer _ _ _ = Done _ |- _ =>
      let a := fresh "a" in let bs := fresh "bs" in let E := fresh "E" in
      apply on_buffer_done in H as (a & bs & E & ?)
  | H : mret _ _ = Done _ |- _ => apply mret_done in H
  | H : (_, _) = (_, _) |- _ => apply pair_equal_spec in H as [? ?]
  | H : tt = _ |- _ => clear H
  | H : (let '(_, _) := ?x in _) _ = Done _ |- _ => destruct x; cbv beta iota in H
  end; subst.

(** ** The length and the version of the page *)

Lemma out_of_order_false h lsn prev :
  negb (out_of_order h lsn prev) = true → prev = LLSN_ h ∧ LLSN_ h < lsn.
Proof. unfold out_of_order. intros H. bool_simpl. split; [done|lia]. Qed.

Lemma set_done bm pos buf r : set bm pos buf = Done r → ∃ buf', r = (tt, buf') ∧ len buf' = len buf.
Proof.
  unfold set. intros H. done_inv. eexists. split; [done|]. apply len_splice; [done|]. done.
Qed.
Lemma reset_done bm pos buf r : reset bm pos buf = Done r → ∃ buf', r = (tt, buf') ∧ len buf' = len buf.
Proof.
  unfold reset. intros H. done_inv. eexists. split; [done|]. apply len_splice; [done|]. done.
Qed.
Lemma is_set_done bm pos buf r : is_set bm pos buf = Done r → ∃ b, r = (b, buf).
Proof. unfold is_set. intros H. done_inv. eauto. Qed.
Lemma add_num_records_done n buf r :
  add_num_records n buf = Done r → ∃ buf', r = (tt, buf') ∧ len buf' = len buf.
Proof.
  unfold add_num_records. intros H. done_inv. eexists. split; [done|]. by apply len_splice.
Qed.

Lemma page_LLSN_write lsn buf :
  uint_fits 8 lsn → 16 ≤ len buf → page_LLSN (splice offsetof_LLSN (le 8 lsn) buf) = lsn.
Proof.
  intros Hf Hl. unfold page_LLSN, offsetof_LLSN.
  pose proof (slice_splice 8 (le 8 lsn) buf) as E. rewrite len_le in E.
  change (Z.of_nat 8) with 8 in E. rewrite E by lia. by apply unle_le.
Qed.

Lemma page_LLSN_write_hdr h buf :
  uint_fits 8 (LLSN_ h) → 24 ≤ len buf → page_LLSN (splice 0 (enc_RmPageHdr h) buf) = LLSN_ h.
Proof.
  intros Hf Hl. unfold page_LLSN, offsetof_LLSN.
  assert (stored (splice 0 (enc_RmPageHdr h) buf) 0 (enc_RmPageHdr h)) as Hs.
  { apply stored_splice; [lia|]. rewrite len_enc_RmPageHdr. unfold sizeof_RmPageHdr. lia. }
  unfold enc_RmPageHdr in Hs at 2. rewrite (app_assoc (le 4 _)) in Hs.
  apply stored_app in Hs as [_ Hs]. apply stored_app in Hs as [Hs _].
  apply stored_slice in Hs as (_ & _ & Hs). len. change (Z.of_nat 8) with 8 in Hs.
  change (0 + (Z.of_nat 4 + Z.of_nat 4)) with 8 in Hs. rewrite Hs. by apply unle_le.
Qed.

Lemma advance_LLSN_done lsn buf r :
  uint_fits 8 lsn → advance_LLSN lsn buf = Done r →
  ∃ buf', r = (tt, buf') ∧ len buf' = len buf ∧ page_LLSN buf' = lsn.
Proof.
  unfold advance_LLSN. intros Hf H. done_inv. eexists. split; [done|].
  assert (len (splice offsetof_pre_LLSN (le 8 (unle (slice offsetof_LLSN (Z.of_nat 8) buf))) buf) = len buf) as Hl
    by (by apply len_splice).
  len. unfold offsetof_LLSN, offsetof_pre_LLSN in *. split.
  - rewrite len_splice; len; lia.
  - apply page_LLSN_write; [done|]. lia.
Qed.

(** Applying a record keeps the size of the page, and the page was of the version
    that precedes the record and is of the record's afterwards. *)
Lemma redo_page fh log pg pg' :
  PageForLog log ≠ None → uint_fits 8 (lsn_ (hdr log)) → redo fh log pg = Done (tt, pg') →
  len pg' = len pg ∧ page_LLSN pg = prev_lsn_ (hdr log) ∧ prev_lsn_ (hdr log) < lsn_ (hdr log) ∧
  page_LLSN pg' = lsn_ (hdr log).
Proof.
  intros Hk Hf. unfold redo. unfold PageForLog in Hk. destruct (body log); try done; intros H; done_inv.
  - unfold insert_into_page in H. done_inv. 
    match goal with H : negb (out_of_order _ _ _) = true |- _ => apply out_of_order_false in H as [Hp Hlt] end.
    match goal with H : is_set _ _ _ = _ |- _ => apply is_set_done in H as (? & Hb); simplify_eq end.
    match goal with H : set _ _ _ = _ |- _ => apply set_done in H as (? & Hb & Hl1); simplify_eq end.
    match goal with H : add_num_records _ _ = _ |- _ => apply add_num_records_done in H as (? & Hb & Hl2); simplify_eq end.
    apply advance_LLSN_done in H as (? & Hb & Hl3 & HL); [|done]. simplify_eq. len.
    rewrite !len_splice in * by (rewrite ?len_splice; len; lia).
    simplify_eq. split_and!; [lia|by rewrite Hp|by rewrite Hp|done].
  - unfold delete_from_page in H. done_inv.
    match goal with H : negb (out_of_order _ _ _) = true |- _ => apply out_of_order_false in H as [Hp Hlt] end.
    match goal with H : is_set _ _ _ = _ |- _ => apply is_set_done in H as (? & Hb); simplify_eq end.
    match goal with H : reset _ _ _ = _ |- _ => apply reset_done in H as (? & Hb & Hl1); simplify_eq end.
    match goal with H : add_num_records _ _ = _ |- _ => apply add_num_records_done in H as (? & Hb & Hl2); simplify_eq end.
    match goal with H : advance_LLSN _ _ = _ |- _ => apply advance_LLSN_done in H as (? & Hb & Hl3 & HL); [|done] end.
    simplify_eq.
    simplify_eq. split_and!; [lia|by rewrite Hp|by rewrite Hp|done].
  - match goal with H : negb (out_of_order _ _ _) = true |- _ => apply out_of_order_false in H as [Hp Hlt] end.
    match goal with |- context [splice OFFSET_PAGE_HDR _ ?x] =>
      assert (len x = len pg) as Hl by (by apply len_splice) end.
    split_and!; [|by rewrite Hp|by rewrite Hp|].
    + rewrite len_splice; [done|lia|]. done.
    + apply (page_LLSN_write_hdr (mkPageHdr _ _ _ _)); [done|lia].
  - match goal with H : negb (out_of_order _ _ _) = true |- _ => apply out_of_order_false in H as [Hp Hlt] end.
    match goal with |- context [splice OFFSET_PAGE_HDR _ ?x] =>
      assert (len x = len pg) as Hl by (by apply len_splice) end.
    split_and!; [|by rewrite Hp|by rewrite Hp|].
    + rewrite len_splice; [done|lia|]. done.
    + apply (page_LLSN_write_hdr (mkPageHdr _ _ _ _)); [done|lia].
Qed.

(** ** Opening the file of a table *)

(** Members of one set that have different partners in another. *)
Lemma size_le_partners `{Countable A, Countable B} (R : A → B → Prop) (X : gset A) (Y : gset B) :
  (∀ x, x ∈ X → ∃ y, y ∈ Y ∧ R x y) → (∀ x x' y, R x y → R x' y → x = x') → (size X ≤ size Y)%nat.
Proof.
  intros Hex Hinj. revert Y Hex. induction X as [|x X Hx IH] using set_ind_L; intros Y Hex.
  - rewrite size_empty. lia.
  - destruct (Hex x) as (y & Hy & Hxy); [set_solver|].
    rewrite size_union, size_singleton by set_solver.
    assert (size X ≤ size (Y ∖ {[y]}))%nat as Hle.
    { apply IH. intros x' Hx'. destruct (Hex x') as (y' & Hy' & Hxy'); [set_solver|].
      exists y'. split; [|done]. assert (y' ≠ y); [|set_solver].
      intros ->. apply Hx. by rewrite (Hinj x x' y). }
    rewrite size_difference, size_singleton in Hle by set_solver.
    assert (size Y ≠ 0%nat); [|lia]. intros E%size_empty_inv. set_solver.
Qed.

Lemma lowest_free_le used : lowest_free used ≤ Z.of_nat (size used).
Proof.
  unfold lowest_free. destruct (filter _ _) as [|n l] eqn:E; [simpl; lia|]. simpl.
  assert (n ∈ n :: l) as Hn by left. rewrite <- E in Hn.
  apply list_elem_of_filter in Hn as [_ Hn%elem_of_seqZ]. lia.
Qed.

(** The tables are well formed, and there are descriptors left for all files, on top
    of the [n0] that the process uses otherwise. *)
Record dm_room (n0 : nat) (d : DiskManager) : Prop := {
  room_wf : dm_wf d;
  room_fds : (size (dom (fds d)) ≤ n0 + size (path2fd_ d) + size (direct_read_fds_ d))%nat;
  room_left : Z.of_nat n0 + 2 * Z.of_nat (size (files d)) < MAX_FD
}.

Lemma room_open n0 d :
  dm_room n0 d → (size (path2fd_ d) ≤ size (files d))%nat ∧ (size (direct_read_fds_ d) ≤ size (files d))%nat.
Proof.
  intros [[Hi Ho Hd Hj] _ _]. split.
  - rewrite <- !(size_dom (D := gset _)). apply subseteq_size. intros p [fd Hp]%elem_of_dom. apply Hi, Ho in Hp as (_ & _ & ?).
    by apply elem_of_dom.
  - rewrite <- !(size_dom (D := gset _)).
    apply (size_le_partners (λ fd p, fd2path_ d !! fd = Some p)).
    + intros fd [fd' Hf]%elem_of_dom. destruct (Hd _ _ Hf) as (p & Hp & _).
      exists p. split; [|done]. apply Ho in Hp as (_ & _ & ?). by apply elem_of_dom.
    + intros x x' y H1%Hi H2%Hi. congruence.
Qed.

(** What opening leaves: the same files, the same open files and possibly one more. *)
Record opens (d d' : DiskManager) : Prop := {
  opens_files : files d' = files d;
  opens_fd2path : fd2path_ d ⊆ fd2path_ d'
}.

Lemma opens_refl d : opens d d.
Proof. by split. Qed.
Lemma opens_trans d1 d2 d3 : opens d1 d2 → opens d2 d3 → opens d1 d3.
Proof. intros [H1 H2] [H3 H4]. split; [congruence|by etrans]. Qed.

Lemma wp_open_file n0 d name file (Q : Z → DiskManager → Prop) :
  dm_room n0 d → files d !! name = Some file →
  (∀ fd d', 0 ≤ fd → fd2path_ d' !! fd = Some name → fds d' !! fd = Some name →
     dm_room n0 d' → opens d d' → Q fd d') →
  wp (open_file name) Q d.
Proof.
  intros Hr Hf HQ. pose proof (room_wf _ _ Hr) as Hwf. unfold open_file. wp_step. wp_step.
  destruct (path2fd_ d !! name) as [fd|] eqn:Ep.
  - pose proof Ep as Hfd. apply (wf_inverse d Hwf) in Hfd.
    destruct (wf_open d Hwf _ _ Hfd) as (H0 & Hfds & _).
    wp_step. wp_step; [by apply Z.leb_le|]. wp_step. wp_step. wp_step.
    wp_step; [apply bool_decide_eq_true; by rewrite Hfd|]. wp_step. apply HQ; auto using opens_refl.
  - set (fd := lowest_free (dom (fds d))). destruct (lowest_free_fresh (dom (fds d))) as [Hfresh H0].
    fold fd in Hfresh, H0. apply not_elem_of_dom in Hfresh.
    assert (fd2path_ d !! fd = None) as Hnew.
    { destruct (fd2path_ d !! fd) eqn:E; [|done]. destruct (wf_open d Hwf _ _ E) as (? & ? & ?). congruence. }
    destruct (room_open n0 d Hr) as [Hp Hd].
    assert (fd < MAX_FD) as Hmax.
    { pose proof (lowest_free_le (dom (fds d))) as Hle. fold fd in Hle.
      pose proof (room_fds _ _ Hr). pose proof (room_left _ _ Hr). lia. }
    unfold os_open. do 3 wp_step. rewrite Hf. do 5 wp_step. fold fd.
    destruct (Z.ltb_spec fd 0); [lia|]. do 3 wp_step. wp_step; [by apply bool_decide_eq_true|]. do 7 wp_step.
    unfold wp, set_at_fd. assert ((0 <=? fd) && (fd <? MAX_FD) = true) as ->.
    { rewrite andb_true_iff, Z.leb_le, Z.ltb_lt. done. }
    assert (dm_wf (set_path2fd (<[name := fd]> (path2fd_ d)) (set_fd2path (<[fd := name]> (fd2path_ d))
      (set_fds (<[fd := name]> (fds d)) d)))) as Hwf'.
    { apply (dm_wf_enter (set_fds (<[fd := name]> (fds d)) d)); simpl; try done.
      - by apply dm_wf_new_fd.
      - by rewrite lookup_insert_eq.
      - intros g Hg. destruct (wf_direct d Hwf _ _ Hg) as (? & ? & ? & ?). congruence. }
    apply HQ; simpl.
    + done.
    + by rewrite lookup_insert_eq.
    + by rewrite lookup_insert_eq.
    + split; [exact (dm_wf_pages _ fd _ Hwf')| |apply (room_left _ _ Hr)]. simpl.
      rewrite dom_insert_L, size_union, size_singleton by (apply not_elem_of_dom in Hfresh; set_solver).
      rewrite map_size_insert_None by done. pose proof (room_fds _ _ Hr). lia.
    + split; [done|]. simpl. by apply insert_subseteq.
Qed.

Lemma dm_room_write n0 d name bs :
  dm_room n0 d → is_Some (files d !! name) → dm_room n0 (set_files (<[name := bs]> (files d)) d).
Proof.
  intros [Hw Hf Hl] [f0 Hs]. split; [by apply dm_wf_write|done|]. simpl.
  rewrite map_size_insert_Some by (by eexists). done.
Qed.

(** ** The storage node's tables *)

(** The file of a table with this geometry. *)
Definition table_file (fh : RmFileHdr) (f : buffer) : Prop :=
  has_page f 0 ∧
  result (load_RmFileHdr OFFSET_FILE_HDR) (slice 0 (sizeof_RmPageHdr + sizeof_RmFileHdr) (page_of f 0)) = Some fh.

(** The contents of a page on disk. *)
Definition page_at (r : LogReplay) (key : PageKey) : option buffer :=
  f ← files (disk_manager_ r) !! key.1 ; if decide (has_page f key.2) then Some (page_of f key.2) else None.

Lemma page_at_Some r key pg :
  page_at r key = Some pg ↔
  ∃ f, files (disk_manager_ r) !! key.1 = Some f ∧ has_page f key.2 ∧ pg = page_of f key.2.
Proof.
  unfold page_at. destruct (files (disk_manager_ r) !! key.1) as [f|]; simpl; [|naive_solver].
  case_decide; naive_solver.
Qed.

Lemma len_page_at r key pg : page_at r key = Some pg → len pg = PAGE_SIZE.
Proof. intros (f & _ & Hp & ->)%page_at_Some. by apply len_page_of. Qed.

Section tables.
Context (n0 : nat) (hdrs : gmap path RmFileHdr).

Record disk_ok (r : LogReplay) : Prop := {
  ok_room : dm_room n0 (disk_manager_ r);
  ok_table name fh : hdrs !! name = Some fh →
    ∃ f, files (disk_manager_ r) !! name = Some f ∧ table_file fh f;
  ok_sql : sql_mode r = true → dom hdrs ⊆ db_tables r;
  ok_update_cache fd fh : update_hdr_cache r !! fd = Some fh →
    ∃ name, fd2path_ (disk_manager_ r) !! fd = Some name ∧ hdrs !! name = Some fh;
  ok_lock_cache fd fh : lock_hdr_cache r !! fd = Some fh →
    ∃ name, fd2path_ (disk_manager_ r) !! fd = Some name ∧ hdrs !! name = Some fh
}.

Lemma disk_ok_opens r d' :
  disk_ok r → opens (disk_manager_ r) d' → dm_room n0 d' → disk_ok (set_disk d' r).
Proof.
  intros [H1 H2 H3 H4 H5] [Hf Ho] Hr. split; simpl; [done| |done| |].
  - intros name fh Hn. rewrite Hf. by apply H2.
  - intros fd fh Hc. destruct (H4 _ _ Hc) as (name & Hn & ?). exists name. split; [|done].
    by eapply lookup_weaken.
  - intros fd fh Hc. destruct (H5 _ _ Hc) as (name & Hn & ?). exists name. split; [|done].
    by eapply lookup_weaken.
Qed.

Lemma disk_ok_write r name f p pg :
  disk_ok r → files (disk_manager_ r) !! name = Some f → has_page f p → p ≠ 0 → len pg = PAGE_SIZE →
  disk_ok (set_disk (set_files (<[name := set_page p pg f]> (files (disk_manager_ r))) (disk_manager_ r)) r).
Proof.
  intros [H1 H2 H3 H4 H5] Hf Hp H0 Hl. split; simpl; [|intros name' fh Hn|done|done|done].
  - apply dm_room_write; [done|by eexists].
  - destruct (H2 _ _ Hn) as (f' & Hf' & [Hp0 Hh]). destruct (decide (name = name')) as [<-|].
    + rewrite lookup_insert_eq. eexists. split; [done|]. simplify_eq. split.
      * by apply has_page_set_page.
      * rewrite page_of_set_page_other; [done|done|done|lia|]. congruence.
    + rewrite lookup_insert_ne by done. eauto.
Qed.

Lemma disk_ok_progress r x : disk_ok r → disk_ok (set_progress x r).
Proof. intros [H1 H2 H3 H4 H5]. by split. Qed.

Lemma disk_ok_update_cache r fd name fh :
  disk_ok r → fd2path_ (disk_manager_ r) !! fd = Some name → hdrs !! name = Some fh →
  disk_ok (set_update_cache (<[fd := fh]> (update_hdr_cache r)) r).
Proof.
  intros [H1 H2 H3 H4 H5] Hn Hh. split; simpl; [done..| |done].
  intros fd' fh' [[<- <-]|[_ Hc]]%lookup_insert_Some; eauto.
Qed.

Lemma disk_ok_lock_cache r fd name fh :
  disk_ok r → fd2path_ (disk_manager_ r) !! fd = Some name → hdrs !! name = Some fh →
  disk_ok (set_lock_cache (<[fd := fh]> (lock_hdr_cache r)) r).
Proof.
  intros [H1 H2 H3 H4 H5] Hn Hh. split; simpl; [done..|].
  intros fd' fh' [[<- <-]|[_ Hc]]%lookup_insert_Some; eauto.
Qed.

(** ** Applying a record, piece by piece *)

Lemma wp_onDisk {A} (m : MD A) (Q : A → LogReplay → Prop) r :
  wp m (λ a d, Q a (set_disk d r)) (disk_manager_ r) → wp (onDisk m) Q r.
Proof. apply wp_zoom. Qed.

Lemma set_disk_same r : set_disk (disk_manager_ r) r = r.
Proof. by destruct r. Qed.
Lemma set_disk_twice d d' r : set_disk d (set_disk d' r) = set_disk d r.
Proof. done. Qed.

Definition publish (key : PageKey) (lsn : Z) (m : gmap PageKey PageProgress) : gmap PageKey PageProgress :=
  match m !! key with None => m | Some _ => <[key := mkProgress lsn true]> m end.

Lemma wp_PublishPageApplied table page lsn (Q : unit → LogReplay → Prop) r :
  Q tt (set_progress (publish (table, page) lsn (page_progress_ r)) r) →
  wp (PublishPageApplied table page lsn) Q r.
Proof.
  unfold PublishPageApplied, publish. intros HQ. wp_step. wp_step.
  destruct (page_progress_ r !! (table, page)); wp_step; [exact HQ|]. by destruct r.
Qed.

Lemma wp_table_is_gone r name fh (Q : bool → LogReplay → Prop) :
  disk_ok r → hdrs !! name = Some fh → Q false r → wp (table_is_gone name) Q r.
Proof.
  intros Hok Hh HQ. unfold table_is_gone. wp_step.
  destruct (sql_mode r) eqn:E; [|done]. rewrite bool_decide_eq_true_2; [done|].
  apply (ok_sql r Hok E). by apply elem_of_dom.
Qed.

Lemma wp_open_table r name fh (Q : Z → LogReplay → Prop) :
  disk_ok r → hdrs !! name = Some fh →
  (∀ fd d', 0 ≤ fd → fd2path_ d' !! fd = Some name → fds d' !! fd = Some name →
     opens (disk_manager_ r) d' → disk_ok (set_disk d' r) → Q fd (set_disk d' r)) →
  wp (onDisk (open_file name)) Q r.
Proof.
  intros Hok Hh HQ. destruct (ok_table r Hok _ _ Hh) as (f & Hf & _).
  apply wp_onDisk. eapply wp_open_file; [by apply ok_room|done|]. intros fd d' H0 Hp Hfd Hr Ho.
  apply HQ; auto using disk_ok_opens.
Qed.

Lemma wp_read_file_hdr d fd name f fh (Q : RmFileHdr → DiskManager → Prop) :
  fds d !! fd = Some name → files d !! name = Some f → table_file fh f → Q fh d →
  wp (read_file_hdr fd) Q d.
Proof.
  intros Hfd Hf [Hp Hh] HQ. unfold read_file_hdr. wp_step.
  eapply wp_read_page; [done|done|done|unfold PAGE_SIZE, sizeof_RmPageHdr, sizeof_RmFileHdr; lia|].
  apply run_result in Hh. wp_step. eapply wp_on_buffer; [exact Hh|]. by wp_step.
Qed.

Lemma wp_header_of pg d (Q : RmPageHdr → DiskManager → Prop) :
  24 ≤ len pg → Q (hdr_at pg) d → wp (header_of pg) Q d.
Proof. intros Hl HQ. unfold wp, header_of. by rewrite load_hdr_run. Qed.

Lemma wp_cached_file_hdr get put r fd name fh (Q : RmFileHdr → LogReplay → Prop) :
  (∀ fd fh, get r !! fd = Some fh → ∃ name, fd2path_ (disk_manager_ r) !! fd = Some name ∧ hdrs !! name = Some fh) →
  disk_ok r → fd2path_ (disk_manager_ r) !! fd = Some name → fds (disk_manager_ r) !! fd = Some name →
  hdrs !! name = Some fh →
  (get r !! fd = Some fh → Q fh r) → Q fh (put (<[fd := fh]> (get r)) r) →
  wp (cached_file_hdr get put fd) Q r.
Proof.
  intros Hc Hok Hfp Hfd Hh Q1 Q2. unfold cached_file_hdr. wp_step. wp_step.
  destruct (get r !! fd) as [fh'|] eqn:E.
  - destruct (Hc _ _ E) as (name' & Hn' & Hh'). simplify_eq. wp_step. by apply Q1.
  - destruct (ok_table r Hok _ _ Hh) as (f & Hf & Htf). wp_step. apply wp_onDisk.
    eapply wp_read_file_hdr; [done..|]. rewrite set_disk_same. by repeat wp_step.
Qed.

(** ** The whole record *)

Record same_rest (r r' : LogReplay) : Prop := {
  sr_wal : wal r' = wal r;
  sr_sql : sql_mode r' = sql_mode r;
  sr_tables : db_tables r' = db_tables r;
  sr_streams : streams_ r' = streams_ r;
  sr_waiting : waiting_ r' = waiting_ r;
  sr_files : replayed_files_ r' = replayed_files_ r;
  sr_read : records_read_ r' = records_read_ r;
  sr_replayed : records_replayed_ r' = records_replayed_ r;
  sr_pending : pending_records_ r' = pending_records_ r
}.

(** From [r] to [r']: the page's contents are replaced, whoever asked for the page
    learns its version; nothing else has changed but the tables of open files and
    the caches. *)
Record page_replaced (key : PageKey) (pg : buffer) (lsn : Z) (r r' : LogReplay) : Prop := {
  pr_ok : disk_ok r';
  pr_file : ∃ f, files (disk_manager_ r) !! key.1 = Some f ∧ has_page f key.2 ∧
    files (disk_manager_ r') = <[key.1 := set_page key.2 pg f]> (files (disk_manager_ r));
  pr_progress : page_progress_ r' = publish key lsn (page_progress_ r);
  pr_rest : same_rest r r'
}.

Lemma page_replaced_same key pg lsn r r' : page_replaced key pg lsn r r' → len pg = PAGE_SIZE →
  page_at r' key = Some pg.
Proof.
  intros [_ (f & Hf & Hp & E) _ _] Hl. apply page_at_Some. rewrite E, lookup_insert_eq.
  eexists. split; [done|]. split; [by apply has_page_set_page|]. by rewrite page_of_set_page.
Qed.

Lemma page_replaced_other key pg lsn r r' key' : page_replaced key pg lsn r r' → len pg = PAGE_SIZE →
  key' ≠ key → page_at r' key' = page_at r key'.
Proof.
  intros [_ (f & Hf & Hp & E) _ _] Hl Hne. unfold page_at. rewrite E.
  destruct (decide (key'.1 = key.1)) as [Hn|Hn].
  - rewrite Hn, lookup_insert_eq, Hf. simpl.
    assert (key'.2 ≠ key.2) as Hpne by (intros ?; apply Hne; destruct key, key'; simpl in *; congruence).
    destruct (decide (has_page f key'.2)) as [Hq|Hq].
    + rewrite decide_True by (by apply has_page_set_page). rewrite page_of_set_page_other; [done|done|done| |done].
      apply Hq.
    + rewrite decide_False; [done|]. by rewrite has_page_set_page.
  - by rewrite lookup_insert_ne by done.
Qed.
End tables.

Section apply.
Context (n0 : nat) (hdrs : gmap path RmFileHdr) (now : Z) (depth : nat).

(** The end of every case: the file has been written and the version is published. *)
Lemma replaced_and_published r d' rc name p f pg lsn :
  disk_ok n0 hdrs r → files (disk_manager_ r) !! name = Some f → has_page f p → p ≠ 0 →
  len pg = PAGE_SIZE → opens (disk_manager_ r) d' → disk_ok n0 hdrs rc →
  disk_manager_ rc = d' → page_progress_ rc = page_progress_ r →
  same_rest r rc →
  wp (PublishPageApplied name p lsn) (λ _ r', page_replaced n0 hdrs (name, p) pg lsn r r')
    (set_disk (set_files (<[name := set_page p pg f]> (files d')) d') rc).
Proof.
  intros Hok Hf Hp H0 Hl [Ho1 Ho2] Hokc Hd Hpr Hrest. apply wp_PublishPageApplied. split; simpl.
  - apply disk_ok_progress. subst d'. apply disk_ok_write; try done. by rewrite Ho1.
  - exists f. by rewrite Ho1.
  - by rewrite Hpr.
  - destruct Hrest. by split.
Qed.

(** The branch that leaves the page alone, for a table that is there. *)
Ltac open_table Hok Hh :=
  wp_step; eapply wp_table_is_gone; [exact Hok|exact Hh|]; cbv beta iota;
  wp_step; eapply wp_open_table; [exact Hok|exact Hh|];
  let fd := fresh "fd" in let d' := fresh "d'" in let H0 := fresh "Hfd0" in
  let H1 := fresh "Hfp" in let H2 := fresh "Hfd" in let H3 := fresh "Hop" in let H4 := fresh "Hok'" in
  intros fd d' H0 H1 H2 H3 H4; destruct (Z.ltb_spec fd 0); [lia|].

Lemma apply_insert_redo r name p slot v lsn prev fh pg pg' :
  disk_ok n0 hdrs r → hdrs !! name = Some fh → page_at r (name, p) = Some pg → p ≠ 0 →
  slot_in_range fh slot = true → insert_into_page fh lsn prev v slot pg = Done (tt, pg') →
  len pg' = PAGE_SIZE →
  wp (apply_insert name p slot v lsn prev) (λ _ r', page_replaced n0 hdrs (name, p) pg' lsn r r') r.
Proof.
  intros Hok Hh Hpg H0 Hslot Hrun Hl. apply page_at_Some in Hpg as (f & Hf & Hp & ->). simpl in *.
  unfold apply_insert. open_table Hok Hh.
  destruct (ok_table n0 hdrs r Hok _ _ Hh) as (f' & Hf' & Htf). simplify_eq.
  assert (files d' !! name = Some f) as Hfd' by (by rewrite (opens_files _ _ Hop)).
  wp_step. apply wp_onDisk. eapply wp_read_file_hdr; [done..|]. rewrite set_disk_twice. simpl.
  wp_step. wp_step; [done|]. wp_step. apply wp_onDisk. eapply wp_read_whole_page; [done..|]. simpl.
  wp_step. eapply wp_on_buffer; [exact Hrun|]. wp_step. apply wp_onDisk. simpl.
  eapply wp_write_page; [done..|]. unfold with_page. rewrite !set_disk_twice.
  apply (replaced_and_published r d' (set_disk d' r)); try done; by split.
Qed.

Lemma apply_delete_redo r name p slot lsn prev fh pg pg' :
  disk_ok n0 hdrs r → hdrs !! name = Some fh → page_at r (name, p) = Some pg → p ≠ 0 →
  slot_in_range fh slot = true → delete_from_page fh lsn prev slot pg = Done (tt, pg') →
  len pg' = PAGE_SIZE →
  wp (apply_delete name p slot lsn prev) (λ _ r', page_replaced n0 hdrs (name, p) pg' lsn r r') r.
Proof.
  intros Hok Hh Hpg H0 Hslot Hrun Hl. apply page_at_Some in Hpg as (f & Hf & Hp & ->). simpl in *.
  unfold apply_delete. open_table Hok Hh.
  destruct (ok_table n0 hdrs r Hok _ _ Hh) as (f' & Hf' & Htf). simplify_eq.
  assert (files d' !! name = Some f) as Hfd' by (by rewrite (opens_files _ _ Hop)).
  wp_step. apply wp_onDisk. eapply wp_read_file_hdr; [done..|]. rewrite set_disk_twice. simpl.
  wp_step. wp_step; [done|]. wp_step. apply wp_onDisk. eapply wp_read_whole_page; [done..|]. simpl.
  wp_step. eapply wp_on_buffer; [exact Hrun|]. wp_step. apply wp_onDisk. simpl.
  eapply wp_write_page; [done..|]. unfold with_page. rewrite !set_disk_twice.
  apply (replaced_and_published r d' (set_disk d' r)); try done; by split.
Qed.

(** The header that a partial read of the page gives. *)
Lemma wp_next_page_hdr d line fd name f p lsn prev (Q : RmPageHdr → DiskManager → Prop) :
  fds d !! fd = Some name → files d !! name = Some f → has_page f p →
  negb (out_of_order (hdr_at (page_of f p)) lsn prev) = true →
  (let h := hdr_at (page_of f p) in
   Q (mkPageHdr (next_free_page_no_ h) (num_records_ h) lsn (LLSN_ h)) d) →
  wp (next_page_hdr line fd p lsn prev) Q d.
Proof.
  intros Hfd Hf Hp Hord HQ. unfold next_page_hdr. pose proof (len_page_of f p Hp) as Hl.
  unfold PAGE_SIZE in Hl.
  wp_step. eapply wp_read_page; [done|done|done|unfold PAGE_SIZE, sizeof_RmPageHdr; lia|].
  wp_step. apply wp_header_of; [rewrite len_slice; unfold sizeof_RmPageHdr; lia|].
  rewrite hdr_at_slice by lia. wp_step. wp_step; [done|]. wp_step. exact HQ.
Qed.

(** Two writes into the page: a part and then the header. *)
Lemma wp_two_updates d fd name f p off bs h (Q : unit → DiskManager → Prop) :
  fds d !! fd = Some name → files d !! name = Some f → has_page f p →
  0 ≤ off → 0 < len bs → off + len bs ≤ PAGE_SIZE →
  Q tt (set_files (<[name := set_page p (splice OFFSET_PAGE_HDR (enc_RmPageHdr h) (splice off bs (page_of f p))) f]>
                     (files d)) d) →
  wp (update_value fd p off bs ;; update_value fd p OFFSET_PAGE_HDR (enc_RmPageHdr h)) Q d.
Proof.
  intros Hfd Hf Hp Ho Hn Hl HQ. pose proof (len_page_of f p Hp) as Hlp.
  assert (len (splice off bs (page_of f p)) = PAGE_SIZE) as Hls by (rewrite len_splice; lia).
  assert (len (enc_RmPageHdr h) = 24) as Hle by apply len_enc_RmPageHdr.
  wp_step. eapply wp_update_value; [done..|]. unfold with_page.
  eapply wp_update_value; simpl; [exact Hfd|apply lookup_insert_eq|by apply has_page_set_page|
    unfold OFFSET_PAGE_HDR; lia|lia|unfold OFFSET_PAGE_HDR, PAGE_SIZE; lia|].
  unfold with_page. simpl. rewrite insert_insert_eq, page_of_set_page, set_page_twice; try done.
  rewrite len_splice; unfold OFFSET_PAGE_HDR, PAGE_SIZE in *; lia.
Qed.

Lemma with_lock_len lock ts holder owner bs u bs' :
  with_lock lock ts holder owner bs = Done (u, bs') → len bs' = len bs.
Proof.
  unfold with_lock. intros H. done_inv. repeat (rewrite len_splice; [|done|done]). done.
Qed.

Lemma wp_onDisk_seq {A} (m1 m2 : MD unit) (k : MR A) Q r :
  wp (m1 ;; m2) (λ _ d, wp k Q (set_disk d r)) (disk_manager_ r) →
  wp (onDisk m1 ;; onDisk m2 ;; k) Q r.
Proof.
  intros H%wp_bind_inv. wp_step. apply wp_onDisk. eapply wp_mono; [exact H|]. intros [] d Hd.
  wp_step. apply wp_onDisk. exact Hd.
Qed.

Lemma apply_update_redo r name rid v lsn prev fh f :
  disk_ok n0 hdrs r → hdrs !! name = Some fh → files (disk_manager_ r) !! name = Some f →
  has_page f (page_no_ rid) → page_no_ rid ≠ 0 →
  slot_in_range fh (slot_no_ rid) = true →
  let pg := page_of f (page_no_ rid) in
  negb (out_of_order (hdr_at pg) lsn prev) = true →
  let off := get_slot_offset fh (slot_no_ rid) in
  let bs := le 8 (key_ v) ++ value_ v in
  0 ≤ off → off + len bs ≤ PAGE_SIZE →
  let h := mkPageHdr (next_free_page_no_ (hdr_at pg)) (num_records_ (hdr_at pg)) lsn (LLSN_ (hdr_at pg)) in
  wp (apply_update name rid v lsn prev)
    (λ _ r', page_replaced n0 hdrs (name, page_no_ rid)
               (splice OFFSET_PAGE_HDR (enc_RmPageHdr h) (splice off bs pg)) lsn r r') r.
Proof.
  intros Hok Hh Hf Hp H0 Hslot pg Hord off bs Ho Hl h.
  unfold apply_update. open_table Hok Hh.
  assert (files d' !! name = Some f) as Hfd' by (by rewrite (opens_files _ _ Hop)).
  assert (len (splice OFFSET_PAGE_HDR (enc_RmPageHdr h) (splice off bs pg)) = PAGE_SIZE) as Hls.
  { pose proof (len_page_of f _ Hp) as Hlp. fold pg in Hlp. pose proof (len_enc_RmPageHdr h) as E.
    unfold sizeof_RmPageHdr, OFFSET_PAGE_HDR, PAGE_SIZE in *.
    rewrite !len_splice; try lia. rewrite len_splice; lia. }
  wp_step.
  assert (∀ rc, disk_ok n0 hdrs rc → disk_manager_ rc = d' → page_progress_ rc = page_progress_ r →
    same_rest r rc →
    wp (check 441 (slot_in_range fh (slot_no_ rid)) ;;
        page_hdr ← onDisk (next_page_hdr 449 fd (page_no_ rid) lsn prev) ;
        onDisk (update_value fd (page_no_ rid) off bs) ;;
        onDisk (update_value fd (page_no_ rid) OFFSET_PAGE_HDR (enc_RmPageHdr page_hdr)) ;;
        PublishPageApplied name (page_no_ rid) lsn)
      (λ _ r', page_replaced n0 hdrs (name, page_no_ rid)
               (splice OFFSET_PAGE_HDR (enc_RmPageHdr h) (splice off bs pg)) lsn r r') rc) as Hrest.
  { intros rc Hokc Hd Hpr Hfr. wp_step. wp_step; [done|]. wp_step. apply wp_onDisk. rewrite Hd.
    eapply wp_next_page_hdr; [done..|]. cbv zeta. fold pg. fold h. apply wp_onDisk_seq. simpl.
    eapply wp_two_updates; [done|done|done|done| |done|].
    - subst bs. len. pose proof (len_nonneg (value_ v)). lia.
    - rewrite set_disk_twice. fold pg. apply (replaced_and_published r d' rc); try done; by split. }
  eapply wp_cached_file_hdr; [apply (ok_update_cache n0 hdrs (set_disk d' r) Hok')|exact Hok'|done|done|done| |].
  - intros _. apply Hrest; try done; by split.
  - apply Hrest; [|done|done|by split]. by apply (disk_ok_update_cache n0 hdrs (set_disk d' r) fd name).
Qed.

Lemma apply_lock_redo r name rid lock ts holder owner lsn prev fh f item :
  disk_ok n0 hdrs r → hdrs !! name = Some fh → files (disk_manager_ r) !! name = Some f →
  has_page f (page_no_ rid) → page_no_ rid ≠ 0 →
  slot_in_range fh (slot_no_ rid) = true →
  let pg := page_of f (page_no_ rid) in
  negb (out_of_order (hdr_at pg) lsn prev) = true →
  let off := get_slot_offset fh (slot_no_ rid) + sizeof_itemkey_t in
  0 ≤ off → off + sizeof_DataItem ≤ PAGE_SIZE →
  with_lock lock ts holder owner (slice off sizeof_DataItem pg) = Done (tt, item) →
  len item = sizeof_DataItem →
  let h := mkPageHdr (next_free_page_no_ (hdr_at pg)) (num_records_ (hdr_at pg)) lsn (LLSN_ (hdr_at pg)) in
  wp (apply_lock name rid lock ts holder owner lsn prev)
    (λ _ r', page_replaced n0 hdrs (name, page_no_ rid)
               (splice OFFSET_PAGE_HDR (enc_RmPageHdr h) (splice off item pg)) lsn r r') r.
Proof.
  intros Hok Hh Hf Hp H0 Hslot pg Hord off Ho Hl Hit Hli h.
  unfold apply_lock. open_table Hok Hh.
  assert (files d' !! name = Some f) as Hfd' by (by rewrite (opens_files _ _ Hop)).
  pose proof (len_page_of f _ Hp) as Hlp. fold pg in Hlp.
  assert (len (splice OFFSET_PAGE_HDR (enc_RmPageHdr h) (splice off item pg)) = PAGE_SIZE) as Hls.
  { pose proof (len_enc_RmPageHdr h) as E.
    unfold sizeof_RmPageHdr, OFFSET_PAGE_HDR, PAGE_SIZE in *.
    rewrite !len_splice; try lia. rewrite len_splice; lia. }
  wp_step.
  assert (∀ rc, disk_ok n0 hdrs rc → disk_manager_ rc = d' → page_progress_ rc = page_progress_ r →
    same_rest r rc →
    wp (check 578 (slot_in_range fh (slot_no_ rid)) ;;
        page_hdr ← onDisk (next_page_hdr 588 fd (page_no_ rid) lsn prev) ;
        br ← onDisk (pread fd sizeof_DataItem (page_no_ rid * PAGE_SIZE + off)) ;
        match br with
        | None => check 609 false
        | Some item_raw =>
          check 609 (len item_raw =? sizeof_DataItem) ;;
          '(_, item_raw) ← on_buffer item_raw (with_lock lock ts holder owner) ;
          onDisk (update_value fd (page_no_ rid) off item_raw) ;;
          onDisk (update_value fd (page_no_ rid) OFFSET_PAGE_HDR (enc_RmPageHdr page_hdr)) ;;
          PublishPageApplied name (page_no_ rid) lsn
        end)
      (λ _ r', page_replaced n0 hdrs (name, page_no_ rid)
               (splice OFFSET_PAGE_HDR (enc_RmPageHdr h) (splice off item pg)) lsn r r') rc) as Hrest.
  { intros rc Hokc Hd Hpr Hfr. wp_step. wp_step; [done|]. wp_step. apply wp_onDisk. rewrite Hd.
    eapply wp_next_page_hdr; [done..|]. cbv zeta. fold pg. fold h. wp_step. apply wp_onDisk. simpl.
    eapply wp_pread; [done|done|done|lia|unfold sizeof_DataItem; lia|done|]. rewrite !set_disk_twice. fold pg.
    wp_step. wp_step; [rewrite len_slice by (unfold sizeof_DataItem in *; lia); done|].
    wp_step. eapply wp_on_buffer; [exact Hit|]. cbv beta iota. apply wp_onDisk_seq. simpl.
    eapply wp_two_updates; [done|done|done|done|rewrite Hli; done|lia|].
    rewrite set_disk_twice. fold pg. apply (replaced_and_published r d' rc); try done; by split. }
  eapply wp_cached_file_hdr; [apply (ok_lock_cache n0 hdrs (set_disk d' r) Hok')|exact Hok'|done|done|done| |].
  - intros _. apply Hrest; try done; by split.
  - apply Hrest; [|done|done|by split]. by apply (disk_ok_lock_cache n0 hdrs (set_disk d' r) fd name).
Qed.

Lemma wp_apply_single_log r log key fh pg pg' :
  disk_ok n0 hdrs r → PageForLog log = Some key → hdrs !! key.1 = Some fh →
  page_at r key = Some pg → key.2 ≠ 0 → uint_fits 8 (lsn_ (hdr log)) →
  redo fh log pg = Done (tt, pg') →
  wp (apply_single_log now depth log)
    (λ _ r', page_replaced n0 hdrs key pg' (lsn_ (hdr log)) r r') r.
Proof.
  intros Hok Hk Hh Hpg H0 Hf Hrun.
  assert (PageForLog log ≠ None) as Hsome by congruence.
  destruct (redo_page fh log pg pg' Hsome Hf Hrun) as (Hl & _). rewrite (len_page_at _ _ _ Hpg) in Hl.
  revert Hrun. unfold redo, apply_single_log, PageForLog in *.
  destruct (body log); try done; apply (inj Some) in Hk; subst key; cbn [fst snd] in *; intros Hrun.
  - done_inv. by eapply apply_insert_redo.
  - done_inv. by eapply apply_delete_redo.
  - apply page_at_Some in Hpg as (f & Hfile & Hp & ->). cbn [fst snd] in *. pose proof (len_page_of f _ Hp).
    done_inv. eapply apply_update_redo; try done. lia.
  - apply page_at_Some in Hpg as (f & Hfile & Hp & ->). cbn [fst snd] in *. pose proof (len_page_of f _ Hp).
    done_inv. eapply apply_lock_redo; try done; [lia| |].
    + match goal with x : unit |- _ => destruct x end. eassumption.
    + match goal with H : with_lock _ _ _ _ _ = _ |- _ => apply with_lock_len in H as -> end.
      rewrite len_slice; [done|lia|unfold sizeof_DataItem; lia|lia].
Qed.

End apply.

(** ** A table of two pages *)

Definition demo_name : buffer := [116].
Definition demo_fh : RmFileHdr := create_file_hdr 100.
Definition demo_page : buffer := replicate (Z.to_nat PAGE_SIZE) 0.
Definition demo_file : buffer :=
  splice OFFSET_FILE_HDR (enc_RmFileHdr demo_fh) demo_page ++ demo_page.
Definition demo_replay (logs : gmap Z buffer) : LogReplay :=
  new_LogReplay (new_DiskManager {[ demo_name := demo_file ]} ∅ false) logs false ∅ ∅.
Definition demo_hdrs : gmap path RmFileHdr := {[ demo_name := demo_fh ]}.

(** Row 3 of page 1 gets 80 bytes, and is changed afterwards. *)
Definition demo_insert : LogRecord :=
  set_lsns 0 1 (new_InsertLogRecord 0 1 7 (mkRecord 42 (replicate (Z.to_nat 80) 9)) 1 3 demo_name).
Definition demo_change : LogRecord :=
  set_lsns 1 5 (new_UpdateLogRecord 0 2 8 (mkRecord 42 (replicate (Z.to_nat 80) 6)) (mkRid 1 3) demo_name None).

Lemma demo_disk_ok logs : disk_ok 0 demo_hdrs (demo_replay logs).
Proof.
  split.
  - split; [apply new_DiskManager_wf|vm_compute; lia|].
    change (size _) with 1%nat. vm_compute. reflexivity.
  - intros name fh Hn. unfold demo_hdrs in Hn. apply lookup_singleton_Some in Hn as [<- <-]. exists demo_file.
    split; [apply lookup_singleton_eq|]. split; [|vm_compute; reflexivity].
    split; vm_compute; congruence.
  - done.
  - intros fd fh. simpl. by rewrite lookup_empty.
  - intros fd fh. simpl. by rewrite lookup_empty.
Qed.
