(* ===== verification/RedoView.v ===== *)
(** What a log record does to a page of a table, said without the bytes of the page: the page is
    a header and slots, and a record changes one slot and the header.  The replay of
    [LogReplay] on the bytes of the file is shown to do this. *)

From S2P Require Import Prelude Common Bytes Bitmap Record RecordPage PreparedTxn LogRecord LogFormat DiskManager FsmReplay LogReplay Redo.

#[local] Arguments le : simpl never.

(** ** A page of a table *)

(** A slot: whether it holds a row, and its bytes, the key and the row.  In these the lock word is at
    16, the valid byte at 56, the node that holds the lock at 58, the node it was taken
    from at 59 and the time stamp at 64 ([core/base/data_item.h] behind 8 bytes of key). *)
Record Slot := mkSlot { used : bool; row_bytes : buffer }.

Record TablePage := mkTablePage {
  next_free : Z;
  count : Z;
  version : Z;
  previous : Z;
  slots : list Slot
}.

(** What the bytes of a page say. *)
Definition slot_of (fh : RmFileHdr) (pg : buffer) (i : Z) : Slot :=
  mkSlot (bit_at pg 24 i) (slice (24 + bitmap_size_ fh + i * (record_size_ fh + 8)) (record_size_ fh + 8) pg).

Definition view (fh : RmFileHdr) (pg : buffer) : TablePage :=
  mkTablePage (sint 4 (unle (slice 0 4 pg))) (sint 4 (unle (slice 4 4 pg)))
    (unle (slice 8 8 pg)) (unle (slice 16 8 pg))
    (slot_of fh pg <$> seqZ 0 (num_records_per_page_ fh)).

(** ** What records do *)

Definition on_slot (i : Z) (f : Slot → Slot) (p : TablePage) : TablePage :=
  mkTablePage (next_free p) (count p) (version p) (previous p) (alter f (Z.to_nat i) (slots p)).
Definition with_count (n : Z) (p : TablePage) : TablePage :=
  mkTablePage (next_free p) n (version p) (previous p) (slots p).
Definition with_versions (v old : Z) (p : TablePage) : TablePage :=
  mkTablePage (next_free p) (count p) v old (slots p).
(** The page is of version [lsn] now, and remembers the version before. *)
Definition advance (lsn : Z) (p : TablePage) : TablePage := with_versions lsn (version p) p.

Definition fill_slot (key : Z) (value : buffer) (s : Slot) : Slot :=
  mkSlot (used s) (splice 0 (le 8 key ++ value) (row_bytes s)).
Definition lock_slot (lock ts holder owner : Z) (s : Slot) : Slot :=
  mkSlot (used s) (splice 59 (le 1 owner) (splice 58 (le 1 holder) (splice 64 (le 8 ts) (splice 16 (le 8 lock) (row_bytes s))))).
Definition mark (b : bool) (s : Slot) : Slot := mkSlot b (row_bytes s).

Definition get_slot (slot : Z) (p : TablePage) : option Slot :=
  if slot <? 0 then None else slots p !! Z.to_nat slot.

(** The row is valid and locked, as a row to be deleted is. *)
Definition deletable (s : Slot) : bool :=
  used s && (unle (slice 56 1 (row_bytes s)) =? 1) && (unle (slice 16 8 (row_bytes s)) =? EXCLUSIVE_LOCKED).

(** [None]: the record does not apply to the page; it is not the next one, or its slot is not
    as it should be, or has no room for the row. *)
Definition record_effect (fh : RmFileHdr) (log : LogRecord) (p : TablePage) : option TablePage :=
  let lsn := lsn_ (hdr log) in
  let next := (version p =? prev_lsn_ (hdr log)) && (version p <? lsn) in
  let fits (v : RmRecord) := len (value_ v) <=? record_size_ fh in
  match body log with
  | InsertBody v _ slot _ =>
      s ← get_slot slot p ;
      if next && negb (used s) && fits v
      then Some (advance lsn (with_count (count p + 1) (on_slot slot (λ s, mark true (fill_slot (key_ v) (value_ v) s)) p)))
      else None
  | DeleteBody _ _ _ slot _ _ =>
      s ← get_slot slot p ;
      if next && deletable s
      then Some (advance lsn (with_count (count p - 1) (on_slot slot (mark false) p)))
      else None
  | UpdateBody v rid _ _ =>
      s ← get_slot (slot_no_ rid) p ;
      if next && fits v
      then Some (advance lsn (on_slot (slot_no_ rid) (fill_slot (key_ v) (value_ v)) p))
      else None
  | LockBody _ rid lock ts holder owner _ =>
      s ← get_slot (slot_no_ rid) p ;
      if next then Some (advance lsn (on_slot (slot_no_ rid) (lock_slot lock ts holder owner) p))
      else None
  | _ => Some p
  end.

(** ** What writes to the bytes do to the page *)

Section page.
Context (fh : RmFileHdr).
Hypothesis G : geometry fh.
Hypothesis Hrow : sizeof_DataItem ≤ record_size_ fh.

Abbreviation n := (num_records_per_page_ fh).
Abbreviation off i := (24 + bitmap_size_ fh + i * (record_size_ fh + 8)).

Lemma slot_bounds i : 0 ≤ i < n →
  24 + (n + 7) / 8 ≤ off i ∧ off i + (record_size_ fh + 8) ≤ PAGE_SIZE ∧ 0 < record_size_ fh.
Proof using G. intros Hi. destruct (slot_in_page fh G i Hi). split_and!; [done|done|apply G]. Qed.

Lemma bucket_bounds i : 0 ≤ i < n → 0 ≤ i / 8 < (n + 7) / 8.
Proof using Type.
  intros Hi. assert (0 ≤ i / 8) by (apply Z.div_pos; lia). split; [done|].
  apply Z.div_lt_upper_bound; [lia|]. pose proof (Z.div_mod (n + 7) 8). pose proof (Z.mod_pos_bound (n + 7) 8). lia.
Qed.

Lemma byte_at_slice pg pg' o : 0 ≤ o < len pg → len pg' = len pg →
  slice o 1 pg' = slice o 1 pg → byte_at pg' o = byte_at pg o.
Proof using Type. intros Ho Hl. rewrite !slice_byte by lia. by intros [= ?]. Qed.

Lemma slots_list pg (i : nat) : (slot_of fh pg <$> seqZ 0 n) !! i =
  if decide (Z.of_nat i < n) then Some (slot_of fh pg (Z.of_nat i)) else None.
Proof using Type.
  rewrite list_lookup_fmap. case_decide.
  - rewrite lookup_seqZ_lt by lia. done.
  - rewrite lookup_seqZ_ge by lia. done.
Qed.

Lemma view_eq pg p :
  next_free p = sint 4 (unle (slice 0 4 pg)) → count p = sint 4 (unle (slice 4 4 pg)) →
  version p = unle (slice 8 8 pg) → previous p = unle (slice 16 8 pg) →
  (∀ i : nat, slots p !! i = if decide (Z.of_nat i < n) then Some (slot_of fh pg (Z.of_nat i)) else None) →
  view fh pg = p.
Proof using Type.
  intros H1 H2 H3 H4 H5. destruct p as [a b c d l]. cbn in *. subst. unfold view. f_equal. apply list_eq. intros i.
  rewrite H5. exact (slots_list pg i).
Qed.

(** A write into the header leaves the slots alone. *)
Lemma slot_of_header o bs pg i : len pg = PAGE_SIZE → 0 ≤ o → o + len bs ≤ 24 → 0 ≤ i < n →
  slot_of fh (splice o bs pg) i = slot_of fh pg i.
Proof using G.
  intros Hl Ho Hb Hi. pose proof (slot_bounds i Hi). pose proof (bucket_bounds i Hi). unfold PAGE_SIZE in *.
  unfold slot_of. f_equal.
  - unfold bit_at. f_equal. apply byte_at_slice; [lia|rewrite len_splice; lia|]. apply slice_splice_other; lia.
  - apply slice_splice_other; lia.
Qed.

Lemma view_count c pg : len pg = PAGE_SIZE → sint_fits 4 c →
  view fh (splice 4 (le 4 c) pg) = with_count c (view fh pg).
Proof using G.
  intros Hl Hc. unfold PAGE_SIZE in Hl. apply view_eq; cbn [with_count view next_free count version previous slots].
  - rewrite slice_splice_other by (len; lia). done.
  - change 4 with (Z.of_nat 4) at 2. rewrite <- (len_le 4 c) at 1. rewrite slice_splice by (len; lia).
    symmetry. by apply sint_unle_le; [lia|].
  - rewrite slice_splice_other by (len; lia). done.
  - rewrite slice_splice_other by (len; lia). done.
  - intros i. rewrite slots_list. case_decide; [|done]. f_equal. symmetry. apply slot_of_header; len; lia || done.
Qed.

Lemma view_versions v old pg : len pg = PAGE_SIZE → uint_fits 8 v → uint_fits 8 old →
  view fh (splice 8 (le 8 v) (splice 16 (le 8 old) pg)) = with_versions v old (view fh pg).
Proof using G.
  intros Hl Hv Ho. unfold PAGE_SIZE in Hl.
  assert (len (splice 16 (le 8 old) pg) = 4096) as Hl' by (rewrite len_splice; len; lia).
  apply view_eq; cbn [with_versions view next_free count version previous slots].
  - rewrite !slice_splice_other by (len; lia). done.
  - rewrite !slice_splice_other by (len; lia). done.
  - pose proof (slice_splice 8 (le 8 v) (splice 16 (le 8 old) pg)) as E. rewrite len_le in E.
    change (Z.of_nat 8) with 8 in E. rewrite E by lia. by rewrite unle_le.
  - rewrite slice_splice_other by (len; lia). pose proof (slice_splice 16 (le 8 old) pg) as E. rewrite len_le in E.
    change (Z.of_nat 8) with 8 in E. rewrite E by lia. by rewrite unle_le.
  - intros i. rewrite slots_list. case_decide; [|done]. f_equal.
    rewrite !slot_of_header by (len; lia || done). done.
Qed.

(** Behind the header. *)
Lemma view_behind pg pg' p :
  (∀ o w, 0 ≤ o → 0 ≤ w → o + w ≤ 24 → slice o w pg' = slice o w pg) →
  next_free p = next_free (view fh pg) → count p = count (view fh pg) → version p = version (view fh pg) →
  previous p = previous (view fh pg) →
  (∀ i : nat, slots p !! i = if decide (Z.of_nat i < n) then Some (slot_of fh pg' (Z.of_nat i)) else None) →
  view fh pg' = p.
Proof using Type.
  intros Hs H1 H2 H3 H4 H5. apply view_eq; [rewrite H1|rewrite H2|rewrite H3|rewrite H4|done];
    cbn [view next_free count version previous]; rewrite Hs by lia; done.
Qed.

(** A bit of the bitmap. *)
Lemma view_mark pg slot byte b : len pg = PAGE_SIZE → 0 ≤ slot < n →
  (∀ pos', 0 ≤ pos' < n → bit_at (splice (24 + slot / 8) [byte] pg) 24 pos' =
     if decide (pos' = slot) then b else bit_at pg 24 pos') →
  view fh (splice (24 + slot / 8) [byte] pg) = on_slot slot (mark b) (view fh pg).
Proof using G.
  intros Hl Hs Hbits. pose proof (bucket_bounds slot Hs). pose proof (slot_bounds slot Hs). unfold PAGE_SIZE in *.
  assert (len [byte] = 1) as L1 by done.
  apply (view_behind pg); try done.
  - intros o w H1 H2 H3. apply slice_splice_other; lia.
  - intros i. cbn [on_slot view slots]. destruct (decide (i = Z.to_nat slot)) as [->|Hne].
    + rewrite list_lookup_alter_eq, slots_list, Z2Nat.id by lia. rewrite !decide_True by lia. cbn. f_equal.
      unfold slot_of, mark. cbn [row_bytes]. f_equal; [by rewrite Hbits, decide_True by done|]. symmetry. apply slice_splice_other; lia.
    + rewrite list_lookup_alter_ne, slots_list by congruence. case_decide; [|done]. f_equal. unfold slot_of.
      pose proof (slot_bounds (Z.of_nat i) ltac:(lia)). f_equal.
      * rewrite Hbits, decide_False by lia. done.
      * symmetry. apply slice_splice_other; lia.
Qed.

Lemma slice_splice_inside o w o' bs pg : 0 ≤ o → 0 ≤ o' → o' + len bs ≤ w → o + w ≤ len pg →
  slice o w (splice (o + o') bs pg) = splice o' bs (slice o w pg).
Proof using Type.
  intros Ho Ho' Hb Hl. pose proof (len_nonneg bs). assert (len (slice o w pg) = w) as Hs by (apply len_slice; lia).
  apply list_eq. intros i. rewrite slice_lookup, !splice_lookup, slice_lookup by lia. unfold len in *.
  repeat case_decide; try lia; try done; try (f_equal; lia).
Qed.

(** A part of a row. *)
Lemma view_slot pg slot o bs : len pg = PAGE_SIZE → 0 ≤ slot < n → 0 ≤ o → o + len bs ≤ record_size_ fh + 8 →
  view fh (splice (off slot + o) bs pg) = on_slot slot (λ s, mkSlot (used s) (splice o bs (row_bytes s))) (view fh pg).
Proof using G.
  intros Hl Hs Ho Hb. pose proof (bucket_bounds slot Hs). pose proof (slot_bounds slot Hs). unfold PAGE_SIZE in *.
  pose proof (len_nonneg bs).
  apply (view_behind pg); try done.
  - intros o' w Ha Hb' Hc'. apply slice_splice_other; lia.
  - intros i. cbn [on_slot view slots].
    assert (∀ i, 0 ≤ i < n → bit_at (splice (off slot + o) bs pg) 24 i = bit_at pg 24 i) as Hbit.
    { intros j Hj. pose proof (bucket_bounds j Hj). unfold bit_at. f_equal.
      apply byte_at_slice; [lia|rewrite len_splice; lia|]. apply slice_splice_other; lia. }
    destruct (decide (i = Z.to_nat slot)) as [->|Hne].
    + rewrite list_lookup_alter_eq, slots_list, Z2Nat.id by lia. rewrite !decide_True by lia. cbn. f_equal.
      unfold slot_of. cbn [used row_bytes]. f_equal; [by rewrite Hbit|]. symmetry. apply slice_splice_inside; lia.
    + rewrite list_lookup_alter_ne, slots_list by congruence. case_decide; [|done]. f_equal. unfold slot_of.
      pose proof (slot_bounds (Z.of_nat i) ltac:(lia)). f_equal; [by rewrite Hbit by lia|].
      symmetry. apply slice_splice_other; [lia|lia|lia|].
      destruct (Z.lt_total (Z.of_nat i) slot) as [Hlt|[Heq|Hgt]]; [left|lia|right]; nia.
Qed.

(** The header, written as a whole. *)
Lemma view_header h pg : len pg = PAGE_SIZE →
  sint_fits 4 (next_free_page_no_ h) → sint_fits 4 (num_records_ h) → uint_fits 8 (LLSN_ h) → uint_fits 8 (pre_LLSN_ h) →
  view fh (splice 0 (enc_RmPageHdr h) pg) =
  mkTablePage (next_free_page_no_ h) (num_records_ h) (LLSN_ h) (pre_LLSN_ h) (slots (view fh pg)).
Proof using G.
  intros Hl H1 H2 H3 H4. assert (len (enc_RmPageHdr h) = 24) as Hh by apply len_enc_RmPageHdr.
  assert (stored (splice 0 (enc_RmPageHdr h) pg) 0 (enc_RmPageHdr h)) as Hs
    by (apply stored_splice; unfold PAGE_SIZE in *; lia).
  unfold enc_RmPageHdr in Hs at 2.
  apply stored_app in Hs as [S1 Hs]. apply stored_app in Hs as [S2 Hs]. apply stored_app in Hs as [S3 S4].
  apply stored_slice in S1 as (_ & _ & S1), S2 as (_ & _ & S2), S3 as (_ & _ & S3), S4 as (_ & _ & S4).
  len. change (Z.of_nat 4) with 4 in *. change (Z.of_nat 8) with 8 in *.
  change (0 + 4) with 4 in *. change (4 + 4) with 8 in *. change (8 + 8) with 16 in *.
  apply view_eq; cbn [next_free count version previous slots].
  - rewrite S1. by rewrite sint_unle_le by (done || lia).
  - rewrite S2. by rewrite sint_unle_le by (done || lia).
  - rewrite S3. by rewrite unle_le.
  - rewrite S4. by rewrite unle_le.
  - intros i. unfold view. cbn [slots]. rewrite slots_list. case_decide; [|done]. f_equal.
    symmetry. apply slot_of_header; lia || done.
Qed.

Lemma on_slot_twice i f g p : on_slot i f (on_slot i g p) = on_slot i (f ∘ g) p.
Proof using Type. unfold on_slot. cbn [slots next_free count version previous]. by rewrite list_alter_alter_eq. Qed.

Lemma get_slot_view slot pg s : get_slot slot (view fh pg) = Some s → 0 ≤ slot < n ∧ s = slot_of fh pg slot.
Proof using Type.
  unfold get_slot. destruct (Z.ltb_spec slot 0); [done|]. cbn [view slots]. rewrite slots_list.
  case_decide; [|done]. intros [= <-]. rewrite Z2Nat.id in * by lia. split; [lia|done].
Qed.

Lemma on_slot_ext slot f g pg : 0 ≤ slot < n → f (slot_of fh pg slot) = g (slot_of fh pg slot) →
  on_slot slot f (view fh pg) = on_slot slot g (view fh pg).
Proof using Type.
  intros Hs Hfg. unfold on_slot. f_equal. apply list_alter_ext; [|done]. intros s. cbn [view slots].
  rewrite slots_list, Z2Nat.id, decide_True by lia. intros [= <-]. done.
Qed.

(** ** The operations, on what the bytes say *)

Lemma wp_view_set slot (Q : unit → buffer → Prop) pg : len pg = PAGE_SIZE → 0 ≤ slot < n →
  (∀ pg', len pg' = PAGE_SIZE → view fh pg' = on_slot slot (mark true) (view fh pg) → Q tt pg') →
  wp (set bitmap_offset slot) Q pg.
Proof using G.
  intros Hl Hs HQ. pose proof (bucket_bounds slot Hs). pose proof (slot_bounds slot Hs). unfold PAGE_SIZE in *.
  apply (wp_set _ n); [by apply bitmap_in_page|done|]. intros byte pg' Hbits.
  assert (len [byte] = 1) as L1 by done. apply HQ.
  - unfold pg'. rewrite len_splice by (unfold bitmap_offset, sizeof_RmPageHdr, OFFSET_PAGE_HDR; lia). done.
  - by apply view_mark.
Qed.

Lemma wp_view_reset slot (Q : unit → buffer → Prop) pg : len pg = PAGE_SIZE → 0 ≤ slot < n →
  (∀ pg', len pg' = PAGE_SIZE → view fh pg' = on_slot slot (mark false) (view fh pg) → Q tt pg') →
  wp (reset bitmap_offset slot) Q pg.
Proof using G.
  intros Hl Hs HQ. pose proof (bucket_bounds slot Hs). pose proof (slot_bounds slot Hs). unfold PAGE_SIZE in *.
  apply (wp_reset _ n); [by apply bitmap_in_page|done|]. intros byte pg' Hbits.
  assert (len [byte] = 1) as L1 by done. apply HQ.
  - unfold pg'. rewrite len_splice by (unfold bitmap_offset, sizeof_RmPageHdr, OFFSET_PAGE_HDR; lia). done.
  - by apply view_mark.
Qed.

Lemma wp_view_count k (Q : unit → buffer → Prop) pg : len pg = PAGE_SIZE → sint_fits 4 (count (view fh pg) + k) →
  (∀ pg', len pg' = PAGE_SIZE → view fh pg' = with_count (count (view fh pg) + k) (view fh pg) → Q tt pg') →
  wp (add_num_records k) Q pg.
Proof using G.
  intros Hl Hk HQ. unfold add_num_records, offsetof_num_records. wp_step. unfold PAGE_SIZE in *.
  eapply wp_done; [apply load_sint_run; lia|]. apply wp_memcpy_to; [lia|len; lia|]. apply HQ.
  - rewrite len_splice; len; lia.
  - by apply view_count.
Qed.

Lemma wp_view_advance lsn (Q : unit → buffer → Prop) pg : len pg = PAGE_SIZE → uint_fits 8 lsn →
  uint_fits 8 (version (view fh pg)) →
  (∀ pg', len pg' = PAGE_SIZE → view fh pg' = advance lsn (view fh pg) → Q tt pg') →
  wp (advance_LLSN lsn) Q pg.
Proof using G.
  intros Hl Hlsn Hv HQ. unfold advance_LLSN, offsetof_LLSN, offsetof_pre_LLSN. unfold PAGE_SIZE in *. wp_step.
  eapply wp_done; [apply load_uint_run; lia|]. wp_step. apply wp_memcpy_to; [lia|len; lia|].
  assert (len (splice 16 (le 8 (unle (slice 8 (Z.of_nat 8) pg))) pg) = 4096) as Hl' by (rewrite len_splice; len; lia).
  apply wp_memcpy_to; [lia|len; lia|]. apply HQ.
  - rewrite len_splice; len; lia.
  - by apply view_versions.
Qed.

Lemma fits_in_slot slot bs pg : len pg = PAGE_SIZE → 0 ≤ slot < n → len bs ≤ record_size_ fh + 8 →
  0 ≤ off slot ∧ off slot + len bs ≤ len pg ∧ len (splice (off slot) bs pg) = PAGE_SIZE ∧
  view fh (splice (off slot) bs pg) = on_slot slot (λ s, mkSlot (used s) (splice 0 bs (row_bytes s))) (view fh pg).
Proof using G Hrow.
  intros Hl Hs Hb. pose proof (bucket_bounds slot Hs). pose proof (slot_bounds slot Hs). pose proof (len_nonneg bs).
  split_and!; [lia|lia|rewrite len_splice; lia|]. rewrite <- (Z.add_0_r (off slot)) at 1. by apply view_slot.
Qed.

(** The key and the row, in one part or two. *)
Lemma wp_view_fill slot key value (Q : unit → buffer → Prop) pg : len pg = PAGE_SIZE → 0 ≤ slot < n →
  len value ≤ record_size_ fh →
  (∀ pg', len pg' = PAGE_SIZE → view fh pg' = on_slot slot (fill_slot key value) (view fh pg) → Q tt pg') →
  wp (memcpy_to (off slot) (le 8 key ++ value)) Q pg.
Proof using G Hrow.
  intros Hl Hs Hv HQ. destruct (fits_in_slot slot (le 8 key ++ value) pg) as (H0 & H1 & H2 & H3); [done|done|len; lia|].
  apply wp_memcpy_to; [done|done|]. by apply HQ.
Qed.

Lemma wp_view_fill_parts {A} slot key value (k : M buffer A) (Q : A → buffer → Prop) pg :
  len pg = PAGE_SIZE → 0 ≤ slot < n → len value ≤ record_size_ fh →
  (∀ pg', len pg' = PAGE_SIZE → view fh pg' = on_slot slot (fill_slot key value) (view fh pg) → wp k Q pg') →
  wp (memcpy_to (off slot) (le 8 key) ;; memcpy_to (off slot + 8) value ;; k) Q pg.
Proof using G Hrow.
  intros Hl Hs Hv HQ. destruct (fits_in_slot slot (le 8 key ++ value) pg) as (H0 & H1 & H2 & H3); [done|done|len; lia|].
  pose proof (splice_app (off slot) (le 8 key) value pg H0) as E. rewrite len_app in H1. pose proof (len_nonneg value).
  len. change (Z.of_nat 8) with 8 in *. specialize (E ltac:(lia)).
  wp_step. apply wp_memcpy_to; [lia|len; lia|]. wp_step.
  apply wp_memcpy_to; [lia|rewrite len_splice; len; lia|]. rewrite E. by apply HQ.
Qed.

(** ** A part of a window *)

Lemma splice_window o a b c buf : 0 ≤ o → 0 ≤ a → a + len b ≤ len c → o + len c ≤ len buf →
  splice o (splice a b c) buf = splice (o + a) b (splice o c buf).
Proof using Type.
  intros Ho Ha Hb Hc. pose proof (len_nonneg b). pose proof (len_nonneg c).
  assert (len (splice a b c) = len c) as Hl by (by rewrite len_splice by lia).
  assert (len (splice o c buf) = len buf) as Hl' by (by rewrite len_splice by lia).
  apply list_eq. intros i. rewrite !splice_lookup by lia. unfold len in *.
  repeat case_decide; try lia; try done; f_equal; lia.
Qed.

Lemma splice_slice o w buf : 0 ≤ o → 0 ≤ w → o + w ≤ len buf → splice o (slice o w buf) buf = buf.
Proof using Type.
  intros Ho Hw Hl. assert (len (slice o w buf) = w) as Hs by (apply len_slice; lia).
  apply list_eq. intros i. rewrite splice_lookup by lia. case_decide; [|done].
  rewrite slice_lookup by lia. unfold len in *. rewrite decide_True by lia. f_equal. lia.
Qed.

(** The lock of the [DataItem], which is behind the key. *)
Lemma lock_slot_item lock ts holder owner rb : 80 ≤ len rb →
  splice 8 (splice 51 (le 1 owner) (splice 50 (le 1 holder) (splice 56 (le 8 ts) (splice 8 (le 8 lock) (slice 8 72 rb))))) rb =
  splice 59 (le 1 owner) (splice 58 (le 1 holder) (splice 64 (le 8 ts) (splice 16 (le 8 lock) rb))).
Proof using Type.
  intros Hl. assert (len (slice 8 72 rb) = 72) as Hs by (apply len_slice; lia).
  rewrite !splice_window by (rewrite ?len_splice; len; rewrite ?len_splice; len; rewrite ?len_splice; len; lia).
  by rewrite splice_slice by lia.
Qed.

(** ** A record *)

(** The fields of a header, as the bytes say. *)
Lemma view_fits pg : len pg = PAGE_SIZE → Forall is_byte pg →
  sint_fits 4 (next_free (view fh pg)) ∧ sint_fits 4 (count (view fh pg)) ∧ uint_fits 8 (version (view fh pg)).
Proof using Type.
  intros Hl Hb. unfold PAGE_SIZE in Hl. cbn [view next_free count version].
  assert (∀ (o w : Z), 0 ≤ o → 0 ≤ w → o + w ≤ 4096 → uint_fits (Z.to_nat w) (unle (slice o w pg))) as Hf.
  { intros o w H0 H1 H2. pose proof (len_slice o w pg H0 H1 ltac:(lia)) as E. unfold len in E.
    replace (Z.to_nat w) with (length (slice o w pg)) by lia. by apply unle_fits, slice_bytes. }
  split_and!; [apply sint_fits_sint; [lia|apply (Hf 0 4); lia]|apply sint_fits_sint; [lia|apply (Hf 4 4); lia]|].
  apply (Hf 8 8); lia.
Qed.

Lemma in_order_true lsn prev pg :
  (version (view fh pg) =? prev) && (version (view fh pg) <? lsn) = true →
  negb (out_of_order (hdr_at pg) lsn prev) = true.
Proof using Type.
  intros H. bool_simpl. unfold out_of_order. cbn [hdr_at LLSN_]. cbn [view version] in *.
  apply negb_true_iff, orb_false_iff. split; [apply Z.leb_gt; lia|]. apply negb_false_iff, Z.eqb_eq. lia.
Qed.

Lemma slot_in_range_view slot : 0 ≤ slot < n → slot_in_range fh slot = true.
Proof using Type. intros. unfold slot_in_range. apply andb_true_iff. split; [apply Z.leb_le|apply Z.ltb_lt]; lia. Qed.

(** ** What the replay does to the page, for each type of record *)

(** The record of version [lsn] is the next one of the page. *)
Definition is_next (lsn prev : Z) (pg : buffer) : Prop :=
  (version (view fh pg) =? prev) && (version (view fh pg) <? lsn) = true.

Lemma insert_view lsn prev v slot pg : len pg = PAGE_SIZE → Forall is_byte pg → uint_fits 8 lsn → is_next lsn prev pg →
  0 ≤ slot < n → used (slot_of fh pg slot) = false → len (value_ v) ≤ record_size_ fh →
  sint_fits 4 (count (view fh pg) + 1) →
  wp (insert_into_page fh lsn prev v slot)
    (λ _ pg', view fh pg' = advance lsn (with_count (count (view fh pg) + 1)
       (on_slot slot (λ s, mark true (fill_slot (key_ v) (value_ v) s)) (view fh pg)))) pg.
Proof using G Hrow.
  intros Hl Hb Hlsn Ho Hs Hu Hv Hc. destruct (view_fits pg Hl Hb) as (_ & _ & Hver). unfold insert_into_page. wp_step.
  eapply wp_done; [apply load_hdr_run; unfold PAGE_SIZE in *; lia|]. wp_step. wp_step; [by apply in_order_true|]. wp_step.
  apply (wp_is_set _ n); [by apply bitmap_in_page|done|]. wp_step.
  change (bit_at pg bitmap_offset slot) with (used (slot_of fh pg slot)). rewrite Hu. wp_step; [done|]. wp_step.
  apply wp_view_set; [done|done|]. intros pg1 L1 V1. wp_step.
  apply wp_view_count; [done|by rewrite V1|]. intros pg2 L2 V2. cbv zeta.
  apply wp_view_fill_parts; [done|done|done|]. intros pg3 L3 V3.
  apply wp_view_advance; [done|done|by rewrite V3, V2, V1|]. intros pg4 L4 V4. rewrite V4, V3, V2, V1.
  transitivity (advance lsn (with_count (count (view fh pg) + 1)
    (on_slot slot (fill_slot (key_ v) (value_ v)) (on_slot slot (mark true) (view fh pg))))); [done|].
  by rewrite on_slot_twice.
Qed.

Lemma delete_view lsn prev slot pg : len pg = PAGE_SIZE → Forall is_byte pg → uint_fits 8 lsn → is_next lsn prev pg →
  0 ≤ slot < n → deletable (slot_of fh pg slot) = true → sint_fits 4 (count (view fh pg) - 1) →
  wp (delete_from_page fh lsn prev slot)
    (λ _ pg', view fh pg' = advance lsn (with_count (count (view fh pg) - 1) (on_slot slot (mark false) (view fh pg)))) pg.
Proof using G Hrow.
  intros Hl Hb Hlsn Ho Hs Hu Hc. destruct (view_fits pg Hl Hb) as (_ & _ & Hver). unfold deletable in Hu. bool_simpl.
  unfold delete_from_page. wp_step.
  eapply wp_done; [apply load_hdr_run; unfold PAGE_SIZE in *; lia|]. wp_step. wp_step; [by apply in_order_true|]. wp_step.
  apply (wp_is_set _ n); [by apply bitmap_in_page|done|]. wp_step.
  change (bit_at pg bitmap_offset slot) with (used (slot_of fh pg slot)). wp_step; [done|]. wp_step.
  apply wp_view_reset; [done|done|]. intros pg1 L1 V1. wp_step.
  apply wp_view_count; [done|by rewrite V1|]. intros pg2 L2 V2. wp_step.
  apply wp_view_advance; [done|done|by rewrite V2, V1|]. intros pg3 L3 V3. cbv zeta.
  rewrite V2, V1 in V3.
  assert (row_bytes (slot_of fh pg3 slot) = row_bytes (slot_of fh pg slot)) as Hrb.
  { apply (f_equal slots) in V3. apply (f_equal (λ l : list Slot, l !! Z.to_nat slot)) in V3. revert V3.
    cbn [advance with_versions with_count on_slot slots]. rewrite list_lookup_alter_eq. cbn [view slots].
    rewrite !slots_list, Z2Nat.id, !decide_True by lia. intros E.
    apply (inj Some (slot_of fh pg3 slot) (mark false (slot_of fh pg slot))) in E. by rewrite E. }
  pose proof (slot_bounds slot Hs) as (B1 & B2 & _). unfold PAGE_SIZE, sizeof_DataItem in *.
  assert (0 ≤ (n + 7) / 8) by (apply Z.div_pos; lia).
  assert (∀ o w, 0 ≤ o → 0 ≤ w → o + w ≤ 80 → slice (off slot + o) w pg3 = slice o w (row_bytes (slot_of fh pg slot))) as Hsl.
  { intros o w Ho0 Hw0 How. rewrite <- Hrb. unfold slot_of. cbn [row_bytes]. by rewrite slice_slice by lia. }
  assert (∀ o, get_slot_offset fh slot + sizeof_itemkey_t + o = off slot + (8 + o)) as Hoff
    by (intros; change (get_slot_offset fh slot) with (off slot); change sizeof_itemkey_t with 8; lia).
  rewrite !Hoff. unfold offsetof_valid, offsetof_lock. change (8 + 48) with 56. change (8 + 8) with 16.
  wp_step. eapply wp_done; [apply load_uint_run; lia|]. rewrite Hsl by lia. wp_step. wp_step; [by apply Z.eqb_eq|]. wp_step.
  eapply wp_done; [apply load_uint_run; lia|]. rewrite Hsl by lia. wp_step; [by apply Z.eqb_eq|].
  by rewrite V3.
Qed.

Lemma header_view lsn pg pg1 f slot : len pg = PAGE_SIZE → Forall is_byte pg → uint_fits 8 lsn →
  len pg1 = PAGE_SIZE → view fh pg1 = on_slot slot f (view fh pg) →
  wp (memcpy_to OFFSET_PAGE_HDR (enc_RmPageHdr
      (mkPageHdr (next_free_page_no_ (hdr_at pg)) (num_records_ (hdr_at pg)) lsn (LLSN_ (hdr_at pg)))))
    (λ _ pg', view fh pg' = advance lsn (on_slot slot f (view fh pg))) pg1.
Proof using G.
  intros Hl Hb Hlsn L1 V1. destruct (view_fits pg Hl Hb) as (H1 & H2 & H3).
  apply wp_memcpy_to; [done|rewrite len_enc_RmPageHdr, L1; done|]. rewrite view_header by done.
  rewrite V1. done.
Qed.

Lemma update_view lsn v slot pg : len pg = PAGE_SIZE → Forall is_byte pg → uint_fits 8 lsn →
  0 ≤ slot < n → len (value_ v) ≤ record_size_ fh →
  wp (memcpy_to (get_slot_offset fh slot) (le 8 (key_ v) ++ value_ v) ;;
      memcpy_to OFFSET_PAGE_HDR (enc_RmPageHdr
        (mkPageHdr (next_free_page_no_ (hdr_at pg)) (num_records_ (hdr_at pg)) lsn (LLSN_ (hdr_at pg)))))
    (λ _ pg', view fh pg' = advance lsn (on_slot slot (fill_slot (key_ v) (value_ v)) (view fh pg))) pg.
Proof using G Hrow.
  intros Hl Hb Hlsn Hs Hv. wp_step. apply wp_view_fill; [done|done|done|]. intros pg1 L1 V1. by apply header_view.
Qed.

(** Writing the lock into a copy of the [DataItem]. *)
Lemma with_lock_splices lock ts holder owner item : len item = 72 →
  with_lock lock ts holder owner item =
  Done (tt, splice 51 (le 1 owner) (splice 50 (le 1 holder) (splice 56 (le 8 ts) (splice 8 (le 8 lock) item)))).
Proof using Type.
  intros Hl. unfold with_lock, offsetof_lock, offsetof_timeStamp, offsetof_holder_node, offsetof_lock_owner_node.
  assert (∀ o bs b, 0 ≤ o → o + len bs ≤ 72 → len b = 72 →
    memcpy_to o bs b = Done (tt, splice o bs b) ∧ len (splice o bs b) = 72) as Hw.
  { intros o bs b H0 H1 Hb. unfold memcpy_to. rewrite in_bounds_true by (rewrite ?Hb; auto using len_nonneg).
    split; [done|]. by rewrite len_splice by lia. }
  destruct (Hw 8 (le 8 lock) item) as [E1 L1]; [lia|by len|done|].
  destruct (Hw 56 (le 8 ts) _ ltac:(lia) ltac:(by len) L1) as [E2 L2].
  destruct (Hw 50 (le 1 holder) _ ltac:(lia) ltac:(by len) L2) as [E3 L3].
  destruct (Hw 51 (le 1 owner) _ ltac:(lia) ltac:(by len) L3) as [E4 L4].
  by rewrite (run_bind _ _ _ _ _ E1), (run_bind _ _ _ _ _ E2), (run_bind _ _ _ _ _ E3), E4.
Qed.

Lemma lock_view lsn lock ts holder owner slot pg : len pg = PAGE_SIZE → Forall is_byte pg → uint_fits 8 lsn →
  0 ≤ slot < n →
  wp (let item_offset := get_slot_offset fh slot + sizeof_itemkey_t in
      item ← memcpy_from item_offset sizeof_DataItem ;
      '(_, item) ← on_buffer item (with_lock lock ts holder owner) ;
      memcpy_to item_offset item ;;
      memcpy_to OFFSET_PAGE_HDR (enc_RmPageHdr
        (mkPageHdr (next_free_page_no_ (hdr_at pg)) (num_records_ (hdr_at pg)) lsn (LLSN_ (hdr_at pg)))))
    (λ _ pg', view fh pg' = advance lsn (on_slot slot (lock_slot lock ts holder owner) (view fh pg))) pg.
Proof using G Hrow.
  intros Hl Hb Hlsn Hs. pose proof (slot_bounds slot Hs) as (B1 & B2 & _).
  assert (0 ≤ (n + 7) / 8) by (apply Z.div_pos; lia).
  unfold sizeof_DataItem, sizeof_itemkey_t in *. cbv zeta. change (get_slot_offset fh slot) with (off slot).
  wp_step. unfold wp at 1, memcpy_from. rewrite in_bounds_true by lia.
  set (item := slice (off slot + 8) 72 pg). assert (len item = 72) as Hi by (apply len_slice; lia).
  wp_step. eapply wp_on_buffer; [by apply with_lock_splices|]. cbv beta iota. wp_step.
  set (item' := splice 51 _ _).
  assert (len item' = 72) as Hi'.
  { unfold item'. rewrite !len_splice; len; rewrite ?len_splice; len; rewrite ?len_splice; len; rewrite ?len_splice; len; lia. }
  apply wp_memcpy_to; [lia|lia|]. apply header_view; [done|done|done|rewrite len_splice; lia|].
  rewrite view_slot by lia. apply on_slot_ext; [done|]. unfold lock_slot. f_equal. unfold item', item.
  rewrite <- lock_slot_item; [|unfold slot_of; cbn [row_bytes]; rewrite len_slice; lia].
  unfold slot_of. cbn [row_bytes]. by rewrite slice_slice by lia.
Qed.

(** Replaying a record on the bytes of a page does what the record says. *)
Lemma redo_view log pg p' : len pg = PAGE_SIZE → Forall is_byte pg → uint_fits 8 (lsn_ (hdr log)) →
  PageForLog log ≠ None → record_effect fh log (view fh pg) = Some p' → sint_fits 4 (count p') →
  wp (redo fh log) (λ _ pg', view fh pg' = p') pg.
Proof using G Hrow.
  intros Hl Hb Hlsn Hk. unfold record_effect, redo, PageForLog in *. cbv zeta.
  assert (24 ≤ len pg) as H24 by (unfold PAGE_SIZE in *; lia).
  destruct (body log); try done; intros (s & [Hs ->]%get_slot_view & He)%bind_Some;
    (match type of He with (if ?c then _ else _) = _ => destruct c eqn:Ec; [|done] end); injection He as <-; intros Hc;
    wp_step; (wp_step; [by apply slot_in_range_view|]).
  - apply andb_true_iff in Ec as [[Ho Hu%negb_true_iff]%andb_true_iff Hv%Z.leb_le]. by apply insert_view.
  - apply andb_true_iff in Ec as [Ho Hd]. by apply delete_view.
  - apply andb_true_iff in Ec as [Ho Hv%Z.leb_le]. wp_step. eapply wp_done; [by apply load_hdr_run|]. wp_step.
    wp_step; [by apply in_order_true|]. by apply update_view.
  - wp_step. eapply wp_done; [by apply load_hdr_run|]. wp_step. wp_step; [by apply in_order_true|]. by apply lock_view.
Qed.

End page.

(** ** The replay of a record *)

(** C40: replaying a log record that belongs to a page does to the page what the record
    says.  If the record is the next one of the page, and its slot is as it should be
    (free for an insert, with a valid and locked row for a delete), then the replay
    returns, no assertion fires, and the page in the file has a new version and
    remembers the old one; an insert has put its key and row into its slot and marked
    it, a delete has freed its slot, the number of records is one more or less; an
    update has put its key and row into its slot; a lock has set the lock word, the
    time stamp and the nodes of holder and owner in the row; no other slot has changed.
    Nothing else on the disk changes, and whoever waits for the page learns the
    version. *)
Theorem replayed_record_effect n0 hdrs now depth r log key fh pg p' :
  disk_ok n0 hdrs r → PageForLog log = Some key → hdrs !! key.1 = Some fh → key.2 ≠ 0 →
  geometry fh → sizeof_DataItem ≤ record_size_ fh → page_at r key = Some pg → Forall is_byte pg →
  uint_fits 8 (lsn_ (hdr log)) → record_effect fh log (view fh pg) = Some p' → sint_fits 4 (count p') →
  wp (apply_single_log now depth log)
    (λ _ r', ∃ pg', page_at r' key = Some pg' ∧ view fh pg' = p' ∧
       page_replaced n0 hdrs key pg' (lsn_ (hdr log)) r r') r.
Proof.
  intros Hok Hk Hh H0 G Hrow Hpg Hb Hlsn He Hc. pose proof (len_page_at _ _ _ Hpg) as Hl.
  assert (PageForLog log ≠ None) as Hsome by congruence.
  destruct (wp_inv _ _ _ (redo_view fh G Hrow log pg p' Hl Hb Hlsn Hsome He Hc)) as ([] & pg' & Hrun & Hv).
  destruct (redo_page fh log pg pg' Hsome Hlsn Hrun) as (Hl' & _). rewrite Hl in Hl'.
  eapply wp_mono; [by eapply wp_apply_single_log|]. intros u r' Hr. exists pg'.
  split; [eapply page_replaced_same; [exact Hr|congruence]|]. done.
Qed.

(** Row 3 of the page gets its key and 80 of its 100 bytes. *)
Definition demo_inserted : TablePage :=
  default (view demo_fh demo_page) (record_effect demo_fh demo_insert (view demo_fh demo_page)).

Lemma replayed_record_effect_witness :
  wp (apply_single_log 0 0 demo_insert)
    (λ _ r', ∃ pg', page_at r' (demo_name, 1) = Some pg' ∧ count (view demo_fh pg') = 1 ∧
       version (view demo_fh pg') = 1 ∧ used <$> slots (view demo_fh pg') !! 4%nat = Some false ∧
       slots (view demo_fh pg') !! 3%nat =
         Some (mkSlot true (le 8 42 ++ replicate (Z.to_nat 80) 9 ++ replicate (Z.to_nat 20) 0)))
    (demo_replay ∅).
Proof.
  eapply wp_mono.
  - apply (replayed_record_effect 0 demo_hdrs 0 0%nat (demo_replay ∅) demo_insert (demo_name, 1) demo_fh demo_page demo_inserted).
    + apply demo_disk_ok.
    + reflexivity.
    + apply lookup_singleton_eq.
    + discriminate.
    + split; vm_compute; congruence.
    + vm_compute. congruence.
    + vm_compute. reflexivity.
    + apply Forall_replicate. vm_compute. split; congruence.
    + vm_compute. split; congruence.
    + vm_compute. reflexivity.
    + vm_compute. split; congruence.
  - intros [] r' (pg' & Hat & Hv & _). exists pg'. split; [exact Hat|]. rewrite Hv. split_and!; vm_compute; reflexivity.
Defined.
