(* ===== verification/LogStream.v ===== *)
(** The log of a node as a sequence of records: what the loops that write, check,
    scan and read a log do on bytes that are the encodings of records one behind
    the other, with possibly a part of one more at the end. *)

From S2P Require Import Prelude Common Bytes Record RecordPage PreparedTxn LogRecord LogFormat DiskManager FsmReplay LogReplay LogManager LogBuffer Redo.

#[local] Arguments le : simpl never.
#[local] Arguments replicate : simpl never.
#[local] Arguments Z.to_nat : simpl never.

Section streams.
Context `{RequestCodec}.

Definition encodes (l : list LogRecord) : buffer := concat (encode <$> l).

(** A record of the node that the replayer's buffer has room for. *)
Record loggable (node : Z) (r : LogRecord) : Prop := {
  lg_wf : wf r;
  lg_node : log_node_id_ (hdr r) = node;
  lg_fits : log_tot_len_ (hdr r) ≤ LOG_REPLAY_BUFFER_SIZE
}.

(** A part of a record, less than the whole. *)
Definition torn (node : Z) (bs : buffer) : Prop :=
  bs = [] ∨ ∃ r k, loggable node r ∧ encode r = bs ++ k ∧ k ≠ [].

Lemma encodes_nil : encodes [] = [].
Proof using All. done. Qed.
Lemma encodes_cons r l : encodes (r :: l) = encode r ++ encodes l.
Proof using All. done. Qed.
Lemma encodes_app l k : encodes (l ++ k) = encodes l ++ encodes k.
Proof using All. unfold encodes. by rewrite fmap_app, concat_app. Qed.
Lemma len_encode_pos r : 0 < len (encode r).
Proof using All. pose proof (encode_length r). assert (0 < LOG_HEADER_SIZE) by done. lia. Qed.

Lemma wp_on_buffer_wp {S A} bs (m : M buffer A) (Q : A * buffer → S → Prop) s :
  wp m (λ a bs', Q (a, bs') s) bs → wp (on_buffer bs m) Q s.
Proof using All. intros (a & bs' & E & HQ)%wp_inv. by eapply wp_on_buffer. Qed.

(** ** Fields of the header of a record that begins somewhere *)

Lemma wp_peek_length {S} buf off r l (Q : Z * buffer → S → Prop) s :
  stored buf off (enc_header (hdr r) ++ l) → wf r → Q (log_tot_len_ (hdr r), buf) s →
  wp (on_buffer buf (load_uint (off + OFFSET_LOG_TOT_LEN) 4)) Q s.
Proof using All.
  intros Hs W HQ. apply wp_on_buffer_wp. destruct (stored_header_field _ _ _ _ Hs) as (_ & Hl & _).
  eapply wp_load_at; [exact Hl|apply W|exact HQ].
Qed.

Lemma wp_peek_node {S} buf off r l (Q : Z * buffer → S → Prop) s :
  stored buf off (enc_header (hdr r) ++ l) → wf r → Q (log_node_id_ (hdr r), buf) s →
  wp (on_buffer buf (load_sint (off + OFFSET_LOG_NODE_ID) 4)) Q s.
Proof using All.
  intros Hs W HQ. apply wp_on_buffer_wp. destruct (stored_header_field _ _ _ _ Hs) as (_ & _ & Hl).
  eapply wp_load_sint_at; [exact Hl|lia|apply W|exact HQ].
Qed.

Lemma stored_record buf off r l :
  stored buf off (encodes (r :: l)) → stored buf off (enc_header (hdr r) ++ enc_body (hdr r) (body r)).
Proof using All. rewrite encodes_cons. intros [Hs _]%stored_app. exact Hs. Qed.

(** What is long enough to have a header has the header of its record. *)
Lemma torn_header node bs :
  torn node bs → LOG_HEADER_SIZE ≤ len bs →
  ∃ r l, loggable node r ∧ bs = enc_header (hdr r) ++ l ∧ len bs < log_tot_len_ (hdr r).
Proof using All.
  intros [->|(r & k & Lr & E & Hk)] Hl; [by vm_compute in Hl|]. exists r.
  pose proof (len_enc_header (hdr r)) as Hh. pose proof (wf_length _ (lg_wf _ _ Lr)) as Ht.
  assert (enc_header (hdr r) `prefix_of` bs) as [l ->].
  { destruct (prefix_weak_total (enc_header (hdr r)) bs (encode r)) as [Hp|Hp].
    - by eexists.
    - by eexists.
    - done.
    - destruct Hp as [x Hx]. assert (x = []) as ->.
      { apply nil_length_inv. apply (f_equal len) in Hx. len. unfold len in *. lia. }
      rewrite app_nil_r in Hx. by rewrite Hx. }
  exists l. split; [done|]. split; [done|]. rewrite Ht, E. len.
  destruct k; [done|]. len. pose proof (len_nonneg k). lia.
Qed.

(** The beginning of a sequence of records consists of the first ones and a part of
    the next; it is long enough for one record if there is one. *)
Lemma take_encodes node n l :
  Forall (loggable node) l →
  ∃ now later p, l = now ++ later ∧ take n (encodes l) = encodes now ++ p ∧ torn node p ∧
    (LOG_REPLAY_BUFFER_SIZE ≤ Z.of_nat n ∨ len (encodes l) ≤ Z.of_nat n → l ≠ [] → now ≠ []).
Proof using All.
  revert n. induction l as [|r l IH]; intros n Hf.
  - exists [], [], []. rewrite encodes_nil, take_nil. split_and!; try done. by left.
  - apply Forall_cons in Hf as [Lr Hf].
    pose proof (wf_length _ (lg_wf _ _ Lr)) as Ht. pose proof (lg_fits _ _ Lr).
    destruct (decide (length (encode r) ≤ n)%nat) as [Hle|Hgt].
    + destruct (IH (n - length (encode r))%nat Hf) as (now & later & p & -> & E & Hp & _).
      exists (r :: now), later, p. split; [done|]. split; [|split; [done|done]].
      rewrite !encodes_cons, take_app_ge, E by done. by rewrite app_assoc.
    + exists [], (r :: l), (take n (encode r)). split; [done|]. split.
      { rewrite encodes_cons, take_app_le by lia. done. }
      split.
      * right. exists r, (drop n (encode r)). split; [done|]. split; [by rewrite take_drop|].
        intros Hd. apply (f_equal length) in Hd. rewrite length_drop in Hd. cbn [length] in Hd. lia.
      * rewrite encodes_cons. len. pose proof (len_nonneg (encodes l)). unfold len in *.
        intros [Hn|Hn] _ _; lia.
Qed.

(** ** Writing a batch *)

Lemma wp_serialize_all logs : ∀ dest (Q : unit → buffer → Prop) buf,
  Forall wf logs → 0 ≤ dest → dest + len (encodes logs) ≤ len buf →
  Q tt (splice dest (encodes logs) buf) → wp (serialize_all logs dest) Q buf.
Proof using All.
  induction logs as [|r l IH]; intros dest Q buf Hf Hd Hl HQ; simpl.
  - wp_step. rewrite encodes_nil, splice_nil in HQ. done.
  - apply Forall_cons in Hf as [W Hf]. rewrite encodes_cons in *. len.
    pose proof (len_nonneg (encodes l)). pose proof (len_nonneg (encode r)).
    wp_step. apply wp_serialize; [done|apply W|lia|].
    apply IH; [done|rewrite (wf_length _ W); lia| |].
    + rewrite (wf_length _ W), len_splice; lia.
    + rewrite (wf_length _ W), splice_app; [done|..]; lia.
Qed.

Lemma total_size_eq logs : Forall wf logs → total_size logs = len (encodes logs).
Proof using All.
  intros Hf. unfold total_size.
  assert (∀ n, fold_left (λ n log, n + log_tot_len_ (hdr log)) logs n = n + len (encodes logs)) as E.
  { induction Hf as [|r l W Hf IH]; intros n; simpl; [rewrite encodes_nil; len; lia|].
    rewrite IH, encodes_cons, (wf_length _ W). len. lia. }
  by rewrite E.
Qed.

Lemma splice_whole bs buf : len buf = len bs → splice 0 bs buf = bs.
Proof using All.
  intros Hl. unfold splice. simpl. rewrite drop_ge, app_nil_r; [done|]. unfold len in *. lia.
Qed.

Lemma serialize_batch_ok logs : Forall wf logs → serialize_batch logs = Done (tt, encodes logs).
Proof using All.
  intros Hf. unfold serialize_batch. rewrite total_size_eq by done.
  pose proof (len_nonneg (encodes logs)).
  assert (len (replicate (Z.to_nat (len (encodes logs))) 0) = len (encodes logs)) as Hr
    by (unfold len at 1; rewrite length_replicate; lia).
  assert (wp (serialize_all logs 0) (λ u buf, (u, buf) = (tt, encodes logs))
    (replicate (Z.to_nat (len (encodes logs))) 0)) as (u & bs & E & Hb)%wp_inv.
  { apply wp_serialize_all; [done|lia|lia|]. by rewrite splice_whole. }
  rewrite E. by rewrite Hb.
Qed.

(** ** Appending a batch *)

Lemma wp_check_batch node data : ∀ logs fuel off (Q : unit → LogManager → Prop) m,
  Forall (loggable node) logs → stored data off (encodes logs) → off + len (encodes logs) = len data →
  len (encodes logs) < Z.of_nat fuel → Q tt m → wp (check_batch fuel data node off) Q m.
Proof using All.
  intros logs. induction logs as [|r l IH]; intros fuel off Q m Hf Hs Hend Hfuel HQ;
    (destruct fuel as [|fuel]; [match type of Hfuel with len ?x < _ => pose proof (len_nonneg x) end; lia|]); cbn [check_batch].
  - rewrite encodes_nil in *. len. destruct (Z.ltb_spec off (len data)); [lia|]. by wp_step.
  - apply Forall_cons in Hf as [Lr Hf]. pose proof (stored_record _ _ _ _ Hs) as Hr.
    pose proof (lg_wf _ _ Lr) as W. pose proof (wf_length _ W) as Ht. pose proof (encode_length r).
    pose proof (len_encode_pos r). pose proof (len_nonneg (encodes l)).
    rewrite encodes_cons in *. len. apply stored_app in Hs as [_ Hs].
    destruct (Z.ltb_spec off (len data)); [|lia]. destruct (Z.ltb_spec (len data - off) LOG_HEADER_SIZE); [lia|].
    wp_step. eapply wp_peek_length; [exact Hr|done|]. cbv beta iota.
    wp_step. eapply wp_peek_node; [exact Hr|done|]. cbv beta iota.
    rewrite (lg_node _ _ Lr), Z.eqb_refl.
    destruct (Z.ltb_spec (log_tot_len_ (hdr r)) LOG_HEADER_SIZE); [lia|].
    destruct (Z.ltb_spec (len data - off) (log_tot_len_ (hdr r))); [lia|]. cbn [negb orb].
    rewrite Ht. apply IH; [done|done|lia|lia|done].
Qed.

(** The file and the stream after more bytes have become durable. *)
Definition wal_file (r : LogReplay) (node : Z) : buffer := default [] (wal r !! node).

Definition empty_buffer : buffer := replicate (Z.to_nat LOG_REPLAY_BUFFER_SIZE) 0.

Definition appended (node : Z) (data : buffer) (m : LogManager) : LogManager :=
  let r := log_replay_ m in
  let file := wal_file r node ++ data in
  let s := default (mkStream (len (wal_file r node)) 0 empty_buffer) (streams_ r !! node) in
  mkLM (<[node := len file]> (lm_streams m))
    (set_stream node (mkStream (len file) (read_offset s) (sbuffer s)) (set_wal (<[node := file]> (wal r)) r)).

Lemma wp_RegisterStream node e (Q : unit → LogReplay → Prop) r :
  is_Some (wal r !! node) →
  Q tt (match streams_ r !! node with
        | Some _ => r
        | None => set_stream node (mkStream e 0 empty_buffer) r
        end) →
  wp (RegisterStream node e) Q r.
Proof using All.
  intros [f Hf] HQ. unfold RegisterStream. wp_step. wp_step.
  destruct (streams_ r !! node); [by wp_step|]. wp_step. wp_step. rewrite Hf. by wp_step.
Qed.

Lemma wp_GetStream node m (Q : Z → LogManager → Prop) :
  (∀ e, lm_streams m !! node = Some e →
     e = len (wal_file (log_replay_ m) node) ∧ is_Some (streams_ (log_replay_ m) !! node)) →
  (let r := log_replay_ m in
   let s := default (mkStream (len (wal_file r node)) 0 empty_buffer) (streams_ r !! node) in
   ∀ ls w, <[node := 0]> ls = <[node := 0]> (lm_streams m) →
     <[node := []]> w = <[node := []]> (wal r) → default [] (w !! node) = wal_file r node →
     ∀ ss, <[node := s]> ss = <[node := s]> (streams_ r) → ss !! node = Some s →
     Q (len (wal_file r node)) (mkLM ls (set_streams ss (set_wal w r)))) →
  wp (GetStream node) Q m.
Proof using All.
  intros Hm HQ. cbv zeta in HQ. unfold GetStream. wp_step. wp_step. destruct (lm_streams m !! node) as [e|] eqn:E.
  - destruct (Hm _ eq_refl) as [-> [s Hs]]. rewrite Hs in HQ. wp_step. destruct m as [ls r]. simpl in *.
    specialize (HQ ls (wal r) eq_refl eq_refl eq_refl (streams_ r) eq_refl Hs). by destruct r.
  - wp_step. unfold onReplay. apply wp_zoom. wp_step. wp_step. apply wp_zoom. wp_step.
    wp_step. wp_step. wp_step. apply wp_zoom. apply wp_RegisterStream.
    { simpl. rewrite lookup_insert_eq. by eexists. }
    simpl. destruct (streams_ (log_replay_ m) !! node) as [s|] eqn:Es.
    + wp_step. simpl. rewrite lookup_insert_eq.
      apply (HQ (<[node:=_]> (lm_streams m)) (<[node:=_]> (wal (log_replay_ m)))
               ltac:(by rewrite insert_insert_eq) ltac:(by rewrite insert_insert_eq) ltac:(by rewrite lookup_insert_eq)
               (streams_ (log_replay_ m)) eq_refl Es).
    + wp_step. simpl. rewrite lookup_insert_eq.
      apply (HQ (<[node:=_]> (lm_streams m)) (<[node:=_]> (wal (log_replay_ m)))
               ltac:(by rewrite insert_insert_eq) ltac:(by rewrite insert_insert_eq) ltac:(by rewrite lookup_insert_eq)
               (<[node:=_]> (streams_ (log_replay_ m))) ltac:(by rewrite insert_insert_eq) ltac:(by rewrite lookup_insert_eq)).
Qed.

Lemma wp_AppendAndSync node logs m (Q : unit → LogManager → Prop) :
  logs ≠ [] → Forall (loggable node) logs → 0 ≤ node →
  (∀ e, lm_streams m !! node = Some e →
     e = len (wal_file (log_replay_ m) node) ∧ is_Some (streams_ (log_replay_ m) !! node)) →
  len (wal_file (log_replay_ m) node) + len (encodes logs) < 2 ^ 64 →
  Q tt (appended node (encodes logs) m) →
  wp (AppendAndSync (encodes logs)) Q m.
Proof using All.
  intros Hne Hf Hn Hm Hb HQ. destruct logs as [|r l]; [done|]. pose proof Hf as Hf'.
  apply Forall_cons in Hf' as [Lr Hfl]. pose proof (lg_wf _ _ Lr) as W. pose proof (wf_length _ W) as Ht.
  pose proof (encode_length r). pose proof (len_encode_pos r). pose proof (len_nonneg (encodes l)).
  assert (stored (encodes (r :: l)) 0 (encodes (r :: l))) as Hs.
  { exists [], []. by rewrite app_nil_r. }
  pose proof (stored_record _ _ _ _ Hs) as Hr.
  set (data := encodes (r :: l)) in *.
  assert (len (encode r) ≤ len data) by (subst data; rewrite encodes_cons; len; lia).
  unfold AppendAndSync. destruct (Z.eqb_spec (len data) 0); [lia|].
  destruct (Z.ltb_spec (len data) LOG_HEADER_SIZE); [lia|].
  wp_step. eapply (wp_peek_node data 0); [exact Hr|done|]. cbv beta iota. rewrite (lg_node _ _ Lr).
  destruct (Z.ltb_spec node 0); [lia|].
  wp_step. eapply wp_check_batch; [exact Hf|exact Hs|fold data; lia|fold data; lia|].
  wp_step. apply wp_GetStream; [done|]. cbv zeta. intros ls w El Ew Ewd ss Es Ess. unfold onReplay.
  pose proof (len_nonneg (wal_file (log_replay_ m) node)).
  wp_step. apply wp_zoom. wp_step. wp_step. wp_step. apply wp_zoom. unfold PublishDurable.
  wp_step. wp_step. simpl. rewrite Ess. wp_step. simpl.
  rewrite u64_small by lia. rewrite Ewd.
  match goal with |- Q tt ?x => assert (x = appended node data m) as ->; [|exact HQ] end.
  unfold appended, set_replay, set_stream, set_lm_streams, set_streams, set_wal. simpl.
  rewrite len_app. f_equal.
  - rewrite <- (insert_insert_eq ls node _ 0), El. by rewrite insert_insert_eq.
  - f_equal.
    + rewrite <- (insert_insert_eq w node _ []), Ew. by rewrite insert_insert_eq.
    + rewrite <- (insert_insert_eq ss node _ (default (mkStream (len (wal_file (log_replay_ m) node)) 0 empty_buffer)
        (streams_ (log_replay_ m) !! node))), Es. by rewrite insert_insert_eq.
Qed.

(** ** Reading *)

Section reading.
Context (now : Z) (depth : nat) (node : Z).

(** [I l r]: the records [l] have been read so far. *)
Context (I : list LogRecord → LogReplay → Prop) (s : Stream).
Context (I_stream : ∀ l r, I l r → streams_ r !! node = Some s).

Definition dispatches (todo : list LogRecord) : Prop :=
  ∀ l x k r, todo = l ++ x :: k → I l r →
    wp (Dispatch now depth x) (λ _, I (l ++ [x])) (set_read (u64 (records_read_ r + 1)) r).

Lemma wp_dispatch_records size p : torn node p → len (sbuffer s) = LOG_REPLAY_BUFFER_SIZE →
  ∀ todo fuel l off r,
  Forall (loggable node) todo → stored (sbuffer s) off (encodes todo ++ p) →
  size = off + len (encodes todo) + len p → len (encodes todo) < Z.of_nat fuel →
  dispatches (l ++ todo) → I l r →
  wp (dispatch_records now depth fuel node size off)
    (λ consumed r', consumed = off + len (encodes todo) ∧ I (l ++ todo) r') r.
Proof using All.
  intros Hp Hbuf todo. induction todo as [|x todo IH]; intros fuel l off r Hf Hs Hsize Hfuel Hd HI;
    (destruct fuel as [|fuel]; [match type of Hfuel with len ?x < _ => pose proof (len_nonneg x) end; lia|]);
    cbn [dispatch_records].
  - rewrite encodes_nil, app_nil_l in *. rewrite len_nil in *.
    destruct (Z.leb_spec LOG_HEADER_SIZE (size - off)); [|wp_step; rewrite app_nil_r; split; [lia|done]].
    destruct (torn_header node p Hp ltac:(lia)) as (x & k & Lx & -> & Hlt).
    wp_step. wp_step. rewrite (I_stream _ _ HI). wp_step.
    eapply wp_peek_length; [exact Hs|apply Lx|]. cbv beta iota.
    pose proof (lg_fits _ _ Lx). pose proof (encode_length x). pose proof (wf_length _ (lg_wf _ _ Lx)).
    rewrite Hbuf. destruct (Z.ltb_spec (log_tot_len_ (hdr x)) LOG_HEADER_SIZE); [lia|].
    destruct (Z.ltb_spec LOG_REPLAY_BUFFER_SIZE (log_tot_len_ (hdr x))); [lia|]. cbn [orb].
    destruct (Z.ltb_spec (size - off) (log_tot_len_ (hdr x))); [|lia].
    wp_step. rewrite app_nil_r. split; [lia|done].
  - apply Forall_cons in Hf as [Lx Hf]. pose proof (lg_wf _ _ Lx) as W. pose proof (wf_length _ W) as Ht.
    pose proof (lg_fits _ _ Lx). pose proof (encode_length x). pose proof (len_encode_pos x).
    pose proof (len_nonneg (encodes todo)). pose proof (len_nonneg p).
    rewrite encodes_cons, <- app_assoc in Hs. rewrite encodes_cons, len_app in Hsize, Hfuel.
    apply stored_app in Hs as [Hx Hs].
    destruct (Z.leb_spec LOG_HEADER_SIZE (size - off)); [|lia].
    wp_step. wp_step. rewrite (I_stream _ _ HI). wp_step.
    eapply wp_peek_length; [exact Hx|exact W|]. cbv beta iota. rewrite Hbuf.
    destruct (Z.ltb_spec (log_tot_len_ (hdr x)) LOG_HEADER_SIZE); [lia|].
    destruct (Z.ltb_spec LOG_REPLAY_BUFFER_SIZE (log_tot_len_ (hdr x))); [lia|]. cbn [orb].
    destruct (Z.ltb_spec (size - off) (log_tot_len_ (hdr x))); [lia|].
    wp_step. apply wp_on_buffer_wp. eapply decode_ok; [exact W|exact Hx|]. cbv beta iota.
    rewrite (lg_node _ _ Lx), Z.eqb_refl. cbn [negb].
    wp_step. wp_step. wp_step. eapply wp_mono; [apply (Hd l x todo); done|]. intros [] r' HI'.
    rewrite Ht. eapply wp_mono.
    + apply (IH fuel (l ++ [x])); [done|exact Hs|lia|lia| |done]. by rewrite <- app_assoc.
    + cbv beta. intros c r'' [-> HI'']. rewrite <- app_assoc in HI''. rewrite encodes_cons. len. split; [lia|done].
Qed.
End reading.

(** The state while the stream's bytes are in its buffer. *)
Definition loaded (node : Z) (s : Stream) (bytes : buffer) : Stream :=
  mkStream (durable_end s) (read_offset s) (splice 0 bytes (sbuffer s)).

Lemma encodes_empty_inv node l : Forall (loggable node) l → len (encodes l) = 0 → l = [].
Proof using All.
  intros Hf Hl. destruct l as [|x l]; [done|]. rewrite encodes_cons in Hl. len.
  pose proof (len_encode_pos x). pose proof (len_nonneg (encodes l)). lia.
Qed.

(** [ReadStream] reads what is left, or as many records as its buffer has room for
    and at least one. *)
Lemma wp_ReadStream now depth node (I : Stream → list LogRecord → LogReplay → Prop) old todo s r
    (Q : bool → LogReplay → Prop) :
  (∀ s' l r', I s' l r' → streams_ r' !! node = Some s') →
  streams_ r !! node = Some s → wal_file r node = encodes (old ++ todo) →
  Forall (loggable node) (old ++ todo) →
  read_offset s = len (encodes old) → durable_end s = len (encodes (old ++ todo)) →
  durable_end s < 2 ^ 64 → len (sbuffer s) = LOG_REPLAY_BUFFER_SIZE →
  (∀ bytes, len (splice 0 bytes (sbuffer s)) = LOG_REPLAY_BUFFER_SIZE → 
     I (loaded node s bytes) [] (set_stream node (loaded node s bytes) r)) →
  (∀ bytes, dispatches now depth (I (loaded node s bytes)) todo) →
  (todo = [] → Q false r) →
  (∀ bytes read later r', todo = read ++ later → read ≠ [] → I (loaded node s bytes) read r' →
     len (splice 0 bytes (sbuffer s)) = LOG_REPLAY_BUFFER_SIZE →
     Q true (set_stream node (mkStream (durable_end s) (len (encodes (old ++ read)))
                                (splice 0 bytes (sbuffer s))) r')) →
  wp (ReadStream now depth node) Q r.
Proof using All.
  intros HIs Hs Hfile Hf Hro Hde Hb Hbuf HI Hd Q0 Q1. unfold ReadStream.
  wp_step. wp_step. rewrite Hs. rewrite encodes_app, len_app in Hde.
  pose proof (len_nonneg (encodes old)). pose proof (len_nonneg (encodes todo)).
  rewrite Hro, Hbuf, u64_small by lia.
  apply Forall_app in Hf as [_ Hft].
  assert (0 < LOG_REPLAY_BUFFER_SIZE) by done.
  destruct (Z.eqb_spec (Z.min (durable_end s - len (encodes old)) LOG_REPLAY_BUFFER_SIZE) 0) as [E|E].
  - wp_step. apply Q0. apply (encodes_empty_inv node); [done|lia].
  - set (size := Z.min (durable_end s - len (encodes old)) LOG_REPLAY_BUFFER_SIZE) in *.
    assert (0 < size ≤ len (encodes todo) ∧ size ≤ LOG_REPLAY_BUFFER_SIZE ∧
            (LOG_REPLAY_BUFFER_SIZE ≤ size ∨ len (encodes todo) ≤ size)) as (Hsz & HszB & Hcase) by lia.
    clearbody size.
    wp_step. wp_step. change (default [] (wal r !! node)) with (wal_file r node).
    rewrite Hfile, encodes_app.
    assert (slice (len (encodes old)) size (encodes old ++ encodes todo) = take (Z.to_nat size) (encodes todo)) as ->.
    { unfold slice, len. by rewrite Nat2Z.id, drop_app_length. }
    destruct (take_encodes node (Z.to_nat size) todo Hft) as (rd & later & p & -> & E' & Hp & Hne).
    set (bytes := take (Z.to_nat size) (encodes (rd ++ later))) in *.
    assert (len bytes = size) as Hlb by (subst bytes; unfold len in *; rewrite length_take; lia).
    assert (rd ≠ []) as Hrd.
    { apply Hne; [rewrite Z2Nat.id by lia; exact Hcase|]. intros E2.
      assert (len (encodes (rd ++ later)) = 0) by (by rewrite E2). lia. }
    wp_step. wp_step; [by apply Z.eqb_eq|]. wp_step. wp_step.
    assert (len (splice 0 bytes (sbuffer s)) = LOG_REPLAY_BUFFER_SIZE) as Hl
      by (rewrite len_splice; lia).
    rewrite <- Hro. fold (loaded node s bytes). clearbody bytes. subst bytes.
    wp_step. eapply wp_mono.
    + eapply (wp_dispatch_records now depth node (I (loaded node s _)) (loaded node s _) (HIs _) size p Hp Hl rd _ []);
        [| | | | |by apply HI].
      * by apply Forall_app in Hft as [? _].
      * apply stored_splice; lia.
      * len. lia.
      * len. pose proof (len_nonneg p). lia.
      * intros l x k r' E2 HI'. rewrite app_nil_l in E2. apply (Hd _ l x (k ++ later)); [|done].
        by rewrite E2, <- app_assoc.
    + cbv beta. intros c r' [-> HI']. rewrite app_nil_l in HI'.
      assert (0 < len (encodes rd)) as Hpos.
      { destruct rd as [|x l]; [done|]. rewrite encodes_cons. len. pose proof (len_encode_pos x).
        pose proof (len_nonneg (encodes l)). lia. }
      wp_step. wp_step; [by destruct (Z.eqb_spec (0 + len (encodes rd)) 0); [lia|]|].
      wp_step. wp_step. wp_step. rewrite (HIs _ _ _ HI').
      match goal with |- Q true (set_stream node ?x r') =>
        replace x with (mkStream (durable_end s) (len (encodes (old ++ rd))) (splice 0 (encodes rd ++ p) (sbuffer s))) end.
      * by apply (Q1 _ rd later).
      * unfold loaded. simpl. f_equal. rewrite Hro, Z.add_0_l, encodes_app. len. rewrite u64_small; [done|].
        rewrite encodes_app in *. len. pose proof (len_nonneg (encodes later)). lia.
Qed.

(** ** Finding the end of a log *)

Lemma wp_peek_header {S} off file r l (Q : (Z * buffer) → S → Prop) (Q' : (Z * buffer) → S → Prop) s :
  stored file off (enc_header (hdr r) ++ l) → wf r →
  let header := slice off LOG_HEADER_SIZE file in
  (Q (log_tot_len_ (hdr r), header) s → wp (on_buffer header (load_uint OFFSET_LOG_TOT_LEN 4)) Q s) ∧
  (Q' (log_node_id_ (hdr r), header) s → wp (on_buffer header (load_sint OFFSET_LOG_NODE_ID 4)) Q' s).
Proof using All.
  intros [Hs _]%stored_app W header. apply stored_slice in Hs as (_ & _ & Hs). rewrite len_enc_header in Hs.
  assert (stored header 0 (enc_header (hdr r) ++ [])) as Hh.
  { rewrite app_nil_r. exists [], []. unfold header. rewrite Hs. by rewrite app_nil_r. }
  split; intros HQ.
  - by apply (wp_peek_length header 0 r []).
  - by apply (wp_peek_node header 0 r []).
Qed.

Lemma wp_scan_log node file p : torn node p → ∀ l fuel off (Q : Z → LogReplay → Prop) r,
  Forall (loggable node) l → stored file off (encodes l ++ p) →
  off + len (encodes l) + len p = len file → len (encodes l) < Z.of_nat fuel →
  Q (off + len (encodes l)) r → wp (scan_log fuel node file (len file) off) Q r.
Proof using All.
  intros Hp l. induction l as [|x l IH]; intros fuel off Q r Hf Hs Hlen Hfuel HQ;
    (destruct fuel as [|fuel]; [match type of Hfuel with len ?x < _ => pose proof (len_nonneg x) end; lia|]);
    cbn [scan_log].
  - rewrite encodes_nil, app_nil_l in *. rewrite len_nil in *. rewrite Z.add_0_r in *.
    destruct (Z.leb_spec LOG_HEADER_SIZE (len file - off)); [|by wp_step].
    destruct (torn_header node p Hp ltac:(lia)) as (x & k & Lx & -> & Hlt).
    wp_step. eapply (wp_peek_header off file x k _ (λ _ _, False)); [exact Hs|apply Lx|]. cbv beta iota.
    wp_step. eapply (wp_peek_header off file x k (λ _ _, False)); [exact Hs|apply Lx|]. cbv beta iota.
    pose proof (lg_fits _ _ Lx). pose proof (encode_length x). pose proof (wf_length _ (lg_wf _ _ Lx)).
    destruct (Z.ltb_spec (log_tot_len_ (hdr x)) LOG_HEADER_SIZE); [lia|].
    destruct (Z.ltb_spec LOG_REPLAY_BUFFER_SIZE (log_tot_len_ (hdr x))); [lia|].
    rewrite (lg_node _ _ Lx), Z.eqb_refl. cbn [negb orb].
    destruct (Z.ltb_spec (len file - off) (log_tot_len_ (hdr x))); [by wp_step|lia].
  - apply Forall_cons in Hf as [Lx Hf]. pose proof (lg_wf _ _ Lx) as W. pose proof (wf_length _ W) as Ht.
    pose proof (lg_fits _ _ Lx). pose proof (encode_length x). pose proof (len_encode_pos x).
    pose proof (len_nonneg (encodes l)). pose proof (len_nonneg p).
    rewrite encodes_cons, <- app_assoc in Hs. rewrite encodes_cons, len_app in Hlen, Hfuel, HQ.
    apply stored_app in Hs as [Hx Hs].
    destruct (Z.leb_spec LOG_HEADER_SIZE (len file - off)); [|lia].
    wp_step. eapply (wp_peek_header off file x _ _ (λ _ _, False)); [exact Hx|exact W|]. cbv beta iota.
    wp_step. eapply (wp_peek_header off file x _ (λ _ _, False)); [exact Hx|exact W|]. cbv beta iota.
    destruct (Z.ltb_spec (log_tot_len_ (hdr x)) LOG_HEADER_SIZE); [lia|].
    destruct (Z.ltb_spec LOG_REPLAY_BUFFER_SIZE (log_tot_len_ (hdr x))); [lia|].
    rewrite (lg_node _ _ Lx), Z.eqb_refl. cbn [negb orb].
    destruct (Z.ltb_spec (len file - off) (log_tot_len_ (hdr x))); [lia|].
    rewrite Ht. apply IH; [done|exact Hs|lia|lia|]. by rewrite <- Z.add_assoc.
Qed.

(** What is left of a log, without the part of a record at its end. *)
Lemma wp_recover_file node l p r (Q : unit → LogReplay → Prop) :
  wal r !! node = Some (encodes l ++ p) → torn node p → Forall (loggable node) l →
  streams_ r !! node = None →
  Q tt (set_stream node (mkStream (len (encodes l)) 0 empty_buffer)
          (set_wal (<[node := encodes l]> (wal r)) r)) →
  wp (recover_file node) Q r.
Proof using All.
  intros Hw Hp Hf Hs HQ. unfold recover_file. wp_step. wp_step. rewrite Hw. cbn [default from_option id].
  pose proof (len_nonneg (encodes l)). pose proof (len_nonneg p).
  wp_step. eapply (wp_scan_log node _ p Hp l).
  - done.
  - exists [], []. by rewrite app_nil_r.
  - len. lia.
  - len. lia.
  - rewrite Z.add_0_l. wp_step.
    assert (take (Z.to_nat (len (encodes l))) (encodes l ++ p) = encodes l) as Ht.
    { unfold len. by rewrite Nat2Z.id, take_app_length. }
    assert (∀ w, w = <[node:=encodes l]> (wal r) →
      wp (RegisterStream node (len (encodes l))) Q (set_wal w r)) as Hreg.
    { intros w ->. apply wp_RegisterStream; simpl; [rewrite lookup_insert_eq; by eexists|].
      rewrite Hs. exact HQ. }
    wp_step.
    + wp_step. rewrite Ht. by apply Hreg.
    + match goal with E : negb _ = false |- _ => apply negb_false_iff, Z.eqb_eq in E; rename E into E' end.
      len. assert (p = []) as -> by (apply nil_length_inv; unfold len in *; lia).
      rewrite app_nil_r in Hw. assert (set_wal (wal r) r = r) as <- by (by destruct r).
      apply Hreg. by rewrite insert_id.
Qed.
End streams.
