(* ===== verification/ReplayOrder.v ===== *)
(** The order of replay.  Records of one page reach the replay thread through the
    logs of several nodes, in any order; each names the version of the page that it
    follows.  [wp_Dispatch]: whatever the order, a page has always the contents that
    the first records of its history make of it, up to the first one that has not
    been read; those read too early wait. *)

From S2P Require Import Prelude Common Bytes Record RecordPage PreparedTxn LogRecord LogFormat DiskManager FsmReplay LogReplay Redo.

#[local] Arguments le : simpl never.

(** ** The history of a page *)

Definition redo_all (fh : RmFileHdr) (l : list LogRecord) : M buffer unit := for_each (redo fh) l.

(** Every record applies to what the ones before it have left. *)
Record history_ok (key : PageKey) (fh : RmFileHdr) (pg0 : buffer) (l : list LogRecord) : Prop := {
  h_key r : r ∈ l → PageForLog r = Some key;
  h_lsn r : r ∈ l → uint_fits 8 (lsn_ (hdr r));
  h_redo : ∃ pg, redo_all fh l pg0 = Done (tt, pg)
}.

Lemma redo_all_app fh l k pg0 pg :
  redo_all fh (l ++ k) pg0 = Done (tt, pg) ↔
  ∃ pg1, redo_all fh l pg0 = Done (tt, pg1) ∧ redo_all fh k pg1 = Done (tt, pg).
Proof.
  revert pg0. unfold redo_all. induction l as [|x l IH]; intros pg0; simpl.
  - split; [intros H; by exists pg0|]. by intros (pg1 & [= <-] & H).
  - split.
    + intros ([] & pg1 & H1 & H2)%bind_done. apply IH in H2 as (pg2 & H2 & H3). exists pg2.
      split; [|done]. by rewrite (run_bind _ _ _ _ _ H1).
    + intros (pg2 & ([] & pg1 & H1 & H2)%bind_done & H3). rewrite (run_bind _ _ _ _ _ H1).
      apply IH. eauto.
Qed.

Lemma redo_all_snoc fh l r pg0 pg1 pg :
  redo_all fh l pg0 = Done (tt, pg1) → redo fh r pg1 = Done (tt, pg) →
  redo_all fh (l ++ [r]) pg0 = Done (tt, pg).
Proof.
  intros H1 H2. apply redo_all_app. exists pg1. split; [done|]. unfold redo_all. simpl.
  by rewrite (run_bind _ _ _ _ _ H2).
Qed.

(** The version of the page after the first [i] records. *)
Definition version (pg0 : buffer) (l : list LogRecord) (i : nat) : Z :=
  match i with
  | O => page_LLSN pg0
  | S j => from_option (λ r, lsn_ (hdr r)) 0 (l !! j)
  end.

Section history.
Context (key : PageKey) (fh : RmFileHdr) (pg0 : buffer) (l : list LogRecord).
Context (Hl : history_ok key fh pg0 l).

Lemma history_step i r pg :
  l !! i = Some r → redo_all fh (take i l) pg0 = Done (tt, pg) →
  ∃ pg', redo fh r pg = Done (tt, pg') ∧ redo_all fh (take (S i) l) pg0 = Done (tt, pg').
Proof using All.
  intros Hi Hpg. destruct (h_redo _ _ _ _ Hl) as (pgn & Hn).
  rewrite <- (take_drop i l) in Hn. apply redo_all_app in Hn as (pg1 & H1 & H2).
  rewrite Hpg in H1. injection H1 as <-. rewrite (drop_S l r) in H2 by done.
  unfold redo_all in H2. simpl in H2. apply bind_done in H2 as ([] & pg' & H2 & _).
  exists pg'. split; [done|]. rewrite (take_S_r l i r) by done. by eapply redo_all_snoc.
Qed.

Lemma history_page i : (i ≤ length l)%nat →
  ∃ pg, redo_all fh (take i l) pg0 = Done (tt, pg) ∧ page_LLSN pg = version pg0 l i ∧ len pg = len pg0.
Proof using All.
  induction i as [|i IH]; intros Hi.
  - exists pg0. done.
  - destruct IH as (pg & Hpg & Hv & Hlen); [lia|].
    destruct (lookup_lt_is_Some_2 l i) as [r Hr]; [lia|].
    destruct (history_step i r pg Hr Hpg) as (pg' & Hredo & Hall).
    assert (r ∈ l) as Hin by (by apply list_elem_of_lookup_2 in Hr).
    destruct (redo_page fh r pg pg') as (Hl1 & Hp & Hlt & Hv'); [by rewrite (h_key _ _ _ _ Hl)|by apply Hl|done|].
    exists pg'. split; [done|]. simpl. rewrite Hr. simpl. split; [done|congruence].
Qed.

Lemma history_chain i r : l !! i = Some r →
  prev_lsn_ (hdr r) = version pg0 l i ∧ lsn_ (hdr r) = version pg0 l (S i) ∧
  version pg0 l i < version pg0 l (S i).
Proof using All.
  intros Hr. assert (i ≤ length l)%nat as Hi by (apply lookup_lt_Some in Hr; lia).
  destruct (history_page i Hi) as (pg & Hpg & Hv & Hlen).
  destruct (history_step i r pg Hr Hpg) as (pg' & Hredo & Hall).
  assert (r ∈ l) as Hin by (by apply list_elem_of_lookup_2 in Hr).
  destruct (redo_page fh r pg pg') as (Hl1 & Hp & Hlt & Hv'); [by rewrite (h_key _ _ _ _ Hl)|by apply Hl|done|].
  simpl. rewrite Hr. simpl. rewrite <- Hv, Hp. done.
Qed.

Lemma version_lt i j : (i < j)%nat → (j ≤ length l)%nat → version pg0 l i < version pg0 l j.
Proof using All.
  intros Hij. induction Hij as [|j Hij IH]; intros Hj.
  - destruct (lookup_lt_is_Some_2 l i) as [r Hr]; [lia|]. by apply (history_chain i r).
  - destruct (lookup_lt_is_Some_2 l j) as [r Hr]; [lia|]. specialize (IH ltac:(lia)).
    destruct (history_chain j r Hr) as (_ & _ & ?). lia.
Qed.

Lemma version_inj i j : (i ≤ length l)%nat → (j ≤ length l)%nat → version pg0 l i = version pg0 l j → i = j.
Proof using All.
  intros Hi Hj E. destruct (Nat.lt_trichotomy i j) as [H|[H|H]]; [|done|]; pose proof (version_lt _ _ H); lia.
Qed.

Lemma version_le i j : (i ≤ length l)%nat → (j ≤ length l)%nat →
  version pg0 l i ≤ version pg0 l j ↔ (i ≤ j)%nat.
Proof using All.
  intros Hi Hj. destruct (decide (i = j)) as [->|]; [lia|].
  split; intros; [|assert (i < j)%nat as H0 by lia; pose proof (version_lt _ _ H0); lia].
  destruct (decide (j < i)%nat) as [H0|]; [|lia]. pose proof (version_lt _ _ H0). lia.
Qed.

(** A record has one place in the history. *)
Lemma history_inj i j r r' : l !! i = Some r → l !! j = Some r' →
  prev_lsn_ (hdr r) = prev_lsn_ (hdr r') → i = j.
Proof using All.
  intros Hi Hj E. pose proof (lookup_lt_Some _ _ _ Hi). pose proof (lookup_lt_Some _ _ _ Hj).
  apply version_inj; [lia|lia|]. rewrite <- (proj1 (history_chain _ _ Hi)), E. by apply history_chain.
Qed.

Lemma history_NoDup : NoDup l.
Proof using All.
  apply NoDup_alt. intros i j r Hi Hj. by apply (history_inj i j r r).
Qed.
End history.

(** ** Counting the records that wait *)

Abbreviation Waiting := (gmap PageKey (gmap Z LogRecord)).

Section msum.
Context `{Countable K} {A : Type} (f : A → Z).

(** The sum over the values of a map. *)
Definition msum (m : gmap K A) : Z := map_fold (λ _ x n, f x + n) 0 m.

Lemma msum_delete m k : msum (delete k m) = msum m - from_option f 0 (m !! k).
Proof using All.
  unfold msum. destruct (m !! k) as [x|] eqn:E; simpl.
  - rewrite (map_fold_delete_L _ 0 k x m); [lia| |done]. intros. lia.
  - rewrite delete_id by done. lia.
Qed.

Lemma msum_insert m k x : msum (<[k := x]> m) = msum m - from_option f 0 (m !! k) + f x.
Proof using All.
  rewrite <- msum_delete, <- insert_delete_eq. unfold msum.
  rewrite map_fold_insert_L; [lia| |apply lookup_delete_eq]. intros. lia.
Qed.

Lemma msum_zero m : (∀ k x, m !! k = Some x → f x = 0) → msum m = 0.
Proof using All.
  induction m as [|k x m Hk IH] using map_ind; intros Hm; [done|].
  rewrite msum_insert, Hk. simpl. rewrite IH, (Hm k x); [done|apply lookup_insert_eq|].
  intros k' x' Hk'. apply (Hm k'). rewrite lookup_insert_ne; [done|congruence].
Qed.

Lemma msum_nonneg m : (∀ k x, m !! k = Some x → 0 ≤ f x) → 0 ≤ msum m.
Proof using All.
  induction m as [|k x m Hk IH] using map_ind; intros Hm; [done|].
  rewrite msum_insert, Hk. simpl. assert (0 ≤ f x) by (apply (Hm k); apply lookup_insert_eq).
  assert (0 ≤ msum m); [|lia]. apply IH. intros k' x' Hk'. apply (Hm k'). rewrite lookup_insert_ne; [done|congruence].
Qed.

Lemma msum_list m : msum m = foldr Z.add 0 (f <$> (map_to_list m).*2).
Proof using All.
  unfold msum. rewrite map_fold_foldr. induction (map_to_list m) as [|[k x] l IH]; simpl; [done|]. by rewrite IH.
Qed.
End msum.

Definition waiting_total (w : Waiting) : Z := msum (λ q : gmap Z LogRecord, Z.of_nat (size q)) w.

Definition queue_of (w : Waiting) (key : PageKey) : gmap Z LogRecord := default ∅ (w !! key).

Lemma size_queue_of w key :
  from_option (λ q : gmap Z LogRecord, Z.of_nat (size q)) 0 (w !! key) = Z.of_nat (size (queue_of w key)).
Proof. unfold queue_of. destruct (w !! key); simpl; [done|]. by rewrite map_size_empty. Qed.

Lemma waiting_total_delete w key :
  waiting_total (delete key w) = waiting_total w - Z.of_nat (size (queue_of w key)).
Proof. unfold waiting_total. by rewrite msum_delete, size_queue_of. Qed.

Lemma waiting_total_insert w key q :
  waiting_total (<[key := q]> w) = waiting_total w - Z.of_nat (size (queue_of w key)) + Z.of_nat (size q).
Proof. unfold waiting_total. by rewrite msum_insert, size_queue_of. Qed.

Lemma waiting_total_empty w : (∀ key, queue_of w key = ∅) → waiting_total w = 0.
Proof.
  intros Hq. apply msum_zero. intros key q Hk. specialize (Hq key). unfold queue_of in Hq.
  rewrite Hk in Hq. simpl in Hq. by rewrite Hq, map_size_empty.
Qed.

Lemma u64_add a b : u64 (u64 a + b) = u64 (a + b).
Proof. unfold u64. by rewrite Zplus_mod_idemp_l. Qed.

(** ** The state of the replay *)

Section replay.
Context (n0 : nat) (hdrs : gmap path RmFileHdr).
Context (base : gmap PageKey buffer) (hist : PageKey → list LogRecord).

(** The records that may have been applied, now or before a restart. *)
Context (ever : LogRecord → Prop).

(** The pages that are logged: data pages of tables that are there. *)
Record histories_ok : Prop := {
  hs_table key : is_Some (base !! key) → is_Some (hdrs !! key.1) ∧ key.2 ≠ 0;
  hs_history key pg0 fh : base !! key = Some pg0 → hdrs !! key.1 = Some fh → history_ok key fh pg0 (hist key)
}.

(** The page has been brought to the version after its first [m] records; which of
    the later ones wait. *)
Record page_st (key : PageKey) (pg0 : buffer) (fh : RmFileHdr) (seen : LogRecord → Prop) (m : nat)
    (r : LogReplay) : Prop := {
  ps_le : (m ≤ length (hist key))%nat;
  ps_page : ∃ pg, redo_all fh (take m (hist key)) pg0 = Done (tt, pg) ∧ page_at r key = Some pg;
  ps_read i x : hist key !! i = Some x → (m < i)%nat →
    (seen x ↔ queue_of (waiting_ r) key !! prev_lsn_ (hdr x) = Some x);
  ps_ever i x : hist key !! i = Some x → (i < m)%nat → ever x;
  ps_queue p x : queue_of (waiting_ r) key !! p = Some x →
    prev_lsn_ (hdr x) = p ∧ ∃ i, (m < i)%nat ∧ hist key !! i = Some x
}.

(** ... and the next one has not been read. *)
Definition page_ok (key : PageKey) (pg0 : buffer) (fh : RmFileHdr) (seen : LogRecord → Prop)
    (r : LogReplay) : Prop :=
  ∃ m, page_st key pg0 fh seen m r ∧ ∀ x, hist key !! m = Some x → ¬ seen x.

Definition progress_ok (r : LogReplay) : Prop :=
  ∀ key st, page_progress_ r !! key = Some st →
    initialized st = true ∧ ∀ pg, page_at r key = Some pg → applied st = page_LLSN pg.

Record replay_but (busy : PageKey → Prop) (seen : LogRecord → Prop) (r : LogReplay) : Prop := {
  ro_disk : disk_ok n0 hdrs r;
  ro_page key pg0 fh : ¬ busy key → base !! key = Some pg0 → hdrs !! key.1 = Some fh → page_ok key pg0 fh seen r;
  ro_waiting key : is_Some (waiting_ r !! key) → is_Some (base !! key);
  ro_pending : pending_records_ r = u64 (waiting_total (waiting_ r));
  ro_progress : progress_ok r;
  ro_ever x : seen x → ever x
}.

Definition replay_ok : (LogRecord → Prop) → LogReplay → Prop := replay_but (λ _, False).

Lemma page_st_frame key pg0 fh seen seen' m r r' :
  page_st key pg0 fh seen m r → page_at r' key = page_at r key →
  queue_of (waiting_ r') key = queue_of (waiting_ r) key →
  (∀ x, x ∈ hist key → seen' x ↔ seen x) → page_st key pg0 fh seen' m r'.
Proof using base hist.
  intros [H1 H2 H3 HE H4] Hp Hq Hs. split; rewrite ?Hp, ?Hq; try done.
  intros i x Hi Hm. rewrite Hs by (by apply list_elem_of_lookup_2 in Hi). by eapply H3.
Qed.

Lemma page_ok_frame key pg0 fh seen seen' r r' :
  page_ok key pg0 fh seen r → page_at r' key = page_at r key →
  queue_of (waiting_ r') key = queue_of (waiting_ r) key →
  (∀ x, x ∈ hist key → seen' x ↔ seen x) → page_ok key pg0 fh seen' r'.
Proof using base hist.
  intros (m & Hst & Hm) Hp Hq Hs. exists m. split; [by eapply page_st_frame|].
  intros x Hx. rewrite Hs by (by apply list_elem_of_lookup_2 in Hx). by apply Hm.
Qed.

Lemma replay_ok_ext busy seen seen' r :
  (∀ x, seen' x ↔ seen x) → replay_but busy seen r → replay_but busy seen' r.
Proof using All.
  intros Hs [H1 H2 H3 H4 H5 H6]. split; try done; [|intros x; rewrite Hs; apply H6].
  intros key pg0 fh Hbusy Hb Hh. eapply page_ok_frame; eauto.
Qed.

Lemma replay_but_weaken (busy busy' : PageKey → Prop) seen r :
  (∀ k, busy k → busy' k) → replay_but busy seen r → replay_but busy' seen r.
Proof using All. intros Hk [H1 H2 H3 H4 H5 H6]. split; try done. intros k pg0 fh Hn. apply H2. naive_solver. Qed.

(** What concerns neither the pages nor the queues. *)
Record same_pages (r r' : LogReplay) : Prop := {
  sp_files : files (disk_manager_ r') = files (disk_manager_ r);
  sp_waiting : waiting_ r' = waiting_ r;
  sp_pending : pending_records_ r' = pending_records_ r
}.

Lemma page_at_files r r' key : files (disk_manager_ r') = files (disk_manager_ r) → page_at r' key = page_at r key.
Proof using. intros E. unfold page_at. by rewrite E. Qed.

Lemma replay_ok_same busy seen r r' :
  same_pages r r' → disk_ok n0 hdrs r' → progress_ok r' → replay_but busy seen r → replay_but busy seen r'.
Proof using All.
  intros [E1 E2 E3] Hd Hp [H1 H2 H3 H4 H5 H6]. split; [done| |by rewrite E2|by rewrite E3, E2|done|done].
  intros key pg0 fh Hbusy Hb Hh. eapply page_ok_frame; [by eapply H2|by apply page_at_files|by rewrite E2|done].
Qed.

Lemma progress_ok_publish r key pg x :
  progress_ok r → page_at r key = Some pg → x = page_LLSN pg →
  progress_ok (set_progress (publish key x (page_progress_ r)) r).
Proof using.
  intros Hp Hpg -> key' st. unfold publish. simpl.
  destruct (page_progress_ r !! key) eqn:E; [|apply Hp].
  intros [[<- <-]|[_ Hst]]%lookup_insert_Some; [|by apply Hp].
  split; [done|]. intros pg' Hpg'. simpl. unfold page_at in *. simpl in *. congruence.
Qed.

(** What a computation of the replay thread leaves alone. *)
Record frame (r r' : LogReplay) : Prop := {
  fr_wal : wal r' = wal r;
  fr_sql : sql_mode r' = sql_mode r;
  fr_tables : db_tables r' = db_tables r;
  fr_streams : streams_ r' = streams_ r;
  fr_files : dom (files (disk_manager_ r')) = dom (files (disk_manager_ r))
}.

Lemma frame_refl r : frame r r.
Proof using. done. Qed.
Lemma frame_trans r1 r2 r3 : frame r1 r2 → frame r2 r3 → frame r1 r3.
Proof using. intros [] []. split; congruence. Qed.

Lemma page_replaced_frame key pg x r r' : page_replaced n0 hdrs key pg x r r' → frame r r'.
Proof using n0 hdrs.
  intros [_ (f & Hf & _ & E) _ []]. split; try done. rewrite E. apply dom_insert_lookup_L. by eexists.
Qed.

(** ** A chain of records *)

Context (now : Z) (depth : nat) (Hhist : histories_ok).

Lemma wp_count_replayed (Q : unit → LogReplay → Prop) r :
  Q tt (set_replayed (u64 (records_replayed_ r + 1)) r) → wp count_replayed Q r.
Proof using. intros. by apply wp_modify. Qed.

Lemma page_st_next key pg0 fh seen m r r' w current next :
  base !! key = Some pg0 → hdrs !! key.1 = Some fh →
  page_st key pg0 fh seen m r → hist key !! m = Some current → ever current →
  queue_of (waiting_ r) key !! lsn_ (hdr current) = next →
  waiting_ r' = w → queue_of w key = delete (lsn_ (hdr current)) (queue_of (waiting_ r) key) →
  (∃ pg, redo_all fh (take (S m) (hist key)) pg0 = Done (tt, pg) ∧ page_at r' key = Some pg) →
  page_st key pg0 fh seen (S m) r' ∧
  match next with
  | Some x => hist key !! S m = Some x
  | None => ∀ x, hist key !! S m = Some x → ¬ seen x
  end.
Proof using All.
  intros Hb Hh [H1 H2 H3 HE H4] Hc Hec Hn Hw Hq Hpg. pose proof (hs_history Hhist _ _ _ Hb Hh) as Hl.
  pose proof (lookup_lt_Some _ _ _ Hc) as Hlt.
  destruct (history_chain _ _ _ _ Hl _ _ Hc) as (_ & Hlsn & _).
  assert (∀ i x, hist key !! i = Some x → prev_lsn_ (hdr x) = lsn_ (hdr current) → i = S m) as Huniq.
  { intros i x Hi E. destruct (history_chain _ _ _ _ Hl _ _ Hi) as (Hp & _ & _).
    pose proof (lookup_lt_Some _ _ _ Hi).
    apply (version_inj _ _ _ _ Hl); [lia|lia|congruence]. }
  split; [split|].
  - lia.
  - done.
  - intros i x Hi Hm. rewrite Hw, Hq, lookup_delete_ne; [by apply (H3 i); [done|lia]|].
    intros E. assert (i = S m) as ->; [by eapply Huniq|lia].
  - intros i x Hi Him. destruct (decide (i = m)) as [->|]; [by simplify_eq|]. apply (HE i x Hi). lia.
  - intros p x. rewrite Hw, Hq. intros [Hne Hx]%lookup_delete_Some.
    destruct (H4 _ _ Hx) as (Hp & i & Hi & Hix). split; [done|]. exists i. split; [|done].
    assert (i ≠ S m); [|lia]. intros ->. destruct (history_chain _ _ _ _ Hl _ _ Hix) as (Hp' & _ & _). congruence.
  - destruct next as [x|].
    + destruct (H4 _ _ Hn) as (Hp & i & Hi & Hix). by rewrite <- (Huniq i x Hix Hp).
    + intros x Hx Hs. destruct (history_chain _ _ _ _ Hl _ _ Hx) as (Hp & _ & _).
      apply (H3 _ _ Hx ltac:(lia)) in Hs. rewrite Hp, <- Hlsn, Hn in Hs. done.
Qed.

Lemma replay_but_applied key seen pg x r r' :
  replay_but (λ k, k = key) seen r → page_replaced n0 hdrs key pg x r r' → len pg = PAGE_SIZE →
  x = page_LLSN pg → replay_but (λ k, k = key) seen r'.
Proof using All.
  intros [H1 H2 H3 H4 H5 H6] Hr Hl Hx. pose proof (pr_rest _ _ _ _ _ _ _ Hr) as Hs.
  split; rewrite ?(sr_waiting _ _ Hs), ?(sr_pending _ _ Hs); try done.
  - by apply Hr.
  - intros k pg0 fh Hk Hb Hh. eapply page_ok_frame; [by eapply H2| |by rewrite (sr_waiting _ _ Hs)|done].
    by eapply page_replaced_other.
  - intros k st. rewrite (pr_progress _ _ _ _ _ _ _ Hr). unfold publish.
    assert (page_progress_ r !! k = Some st → k ≠ key → initialized st = true ∧
      ∀ pg1, page_at r' k = Some pg1 → applied st = page_LLSN pg1) as Hother.
    { intros Hst Hne. rewrite (page_replaced_other _ _ _ _ _ _ _ k Hr Hl Hne). by apply H5. }
    destruct (page_progress_ r !! key) eqn:E.
    + intros [[<- <-]|[Hne Hst]]%lookup_insert_Some; [|by apply Hother].
      split; [done|]. intros pg1 Hpg1. rewrite (page_replaced_same _ _ _ _ _ _ _ Hr Hl) in Hpg1. simpl. congruence.
    + intros Hst. apply Hother; [done|congruence].
Qed.

(** A record leaves its queue. *)
Lemma replay_but_dequeue key seen r p x :
  replay_but (λ k, k = key) seen r → queue_of (waiting_ r) key !! p = Some x →
  let q := delete p (queue_of (waiting_ r) key) in
  let w := if bool_decide (q = ∅) then delete key (waiting_ r) else <[key := q]> (waiting_ r) in
  queue_of w key = q ∧
  replay_but (λ k, k = key) seen (set_waiting w (set_pending (u64 (pending_records_ r - 1)) r)).
Proof using All.
  intros [H1 H2 H3 H4 H5 H6] Hx q w.
  assert (queue_of w key = q ∧ (∀ k, k ≠ key → queue_of w k = queue_of (waiting_ r) k) ∧
    (∀ k, is_Some (w !! k) → is_Some (waiting_ r !! k)) ∧
    waiting_total w = waiting_total (waiting_ r) - 1) as (Hw1 & Hw2 & Hw3 & Hw4).
  { assert (Z.of_nat (size (queue_of (waiting_ r) key)) = 1 + Z.of_nat (size q)) as Hsz.
    { subst q. rewrite <- (insert_id _ _ _ Hx) at 1. rewrite <- insert_delete_eq.
      rewrite map_size_insert_None by apply lookup_delete_eq. lia. }
    assert (is_Some (waiting_ r !! key)) as Hk.
    { unfold queue_of in Hx. destruct (waiting_ r !! key); [by eexists|]. simpl in Hx. by rewrite lookup_empty in Hx. }
    subst w. case_bool_decide as E.
    - split_and!.
      + unfold queue_of. by rewrite lookup_delete_eq, E.
      + intros k Hk'. unfold queue_of. by rewrite lookup_delete_ne.
      + intros k. rewrite lookup_delete_is_Some. tauto.
      + rewrite waiting_total_delete. rewrite E, map_size_empty in Hsz. lia.
    - split_and!.
      + unfold queue_of. by rewrite lookup_insert_eq.
      + intros k Hk'. unfold queue_of. by rewrite lookup_insert_ne.
      + intros k. destruct (decide (key = k)) as [<-|]; [done|]. by rewrite lookup_insert_ne.
      + rewrite waiting_total_insert. lia. }
  clearbody w. split; [done|]. split; simpl; [by destruct H1| | | |done|done].
  - intros k pg0 fh Hk Hb Hh. eapply page_ok_frame; [by eapply H2|done|by apply Hw2|done].
  - intros k Hk. by apply H3, Hw3.
  - rewrite H4, Hw4. unfold Z.sub. by rewrite u64_add.
Qed.

Lemma replay_ok_page key pg0 fh seen m r :
  base !! key = Some pg0 → hdrs !! key.1 = Some fh →
  replay_but (λ k, k = key) seen r → page_st key pg0 fh seen m r →
  (∀ x, hist key !! m = Some x → ¬ seen x) → replay_ok seen r.
Proof using All.
  intros Hb Hh [H1 H2 H3 H4 H5 H6] Hst Hm. split; try done. intros k pg0' fh' _ Hb' Hh'.
  destruct (decide (k = key)) as [->|]; [|by apply H2]. simplify_eq. by exists m.
Qed.

Lemma wp_apply_chain key pg0 fh seen fd : base !! key = Some pg0 → hdrs !! key.1 = Some fh →
  ∀ fuel m r current,
  replay_but (λ k, k = key) seen r → page_st key pg0 fh seen m r → hist key !! m = Some current →
  ever current → (size (queue_of (waiting_ r) key) < fuel)%nat →
  wp (apply_chain now depth fuel key fd current) (λ _ r', replay_ok seen r' ∧ frame r r') r.
Proof using All.
  intros Hb Hh fuel. pose proof (hs_history Hhist _ _ _ Hb Hh) as Hl.
  induction fuel as [|fuel IH]; intros m r current Hr Hst Hc Hec Hfuel; [lia|]. cbn [apply_chain].
  destruct (ps_page _ _ _ _ _ _ Hst) as (pg & Hpg & Hat).
  destruct (history_step _ _ _ _ Hl _ _ _ Hc Hpg) as (pg' & Hredo & Hpg').
  assert (current ∈ hist key) as Hin by (by apply list_elem_of_lookup_2 in Hc).
  destruct (redo_page fh current pg pg') as (Hlen & _ & _ & Hv);
    [by rewrite (h_key _ _ _ _ Hl)|by apply Hl|done|].
  rewrite (len_page_at _ _ _ Hat) in Hlen.
  wp_step. eapply wp_mono; [eapply (wp_apply_single_log n0 hdrs now depth r current key)|].
  { by apply Hr. } { by apply (h_key _ _ _ _ Hl). } { done. } { done. }
  { by apply (hs_table Hhist key (ex_intro _ _ Hb)). } { by apply Hl. } { done. }
  intros [] r1 Hr1. pose proof (replay_but_applied _ _ _ _ _ _ Hr Hr1 Hlen (eq_sym Hv)) as Hb1.
  pose proof (page_replaced_frame _ _ _ _ _ Hr1) as Hf1.
  pose proof (pr_rest _ _ _ _ _ _ _ Hr1) as Hs1.
  do 2 wp_step. wp_step. apply wp_count_replayed. wp_step. wp_step.
  set (r2 := set_replayed _ _).
  assert (replay_but (λ k, k = key) seen r2) as Hb2.
  { eapply replay_ok_same; [| | |exact Hb1]; [by split|by destruct Hb1 as [[]]|by destruct Hb1]. }
  assert (frame r r2) as Hf2 by (eapply frame_trans; [exact Hf1|by split]).
  assert (waiting_ r2 = waiting_ r) as Hw2 by apply Hs1.
  assert (page_at r2 key = Some pg') as Hat2.
  { change (page_at r1 key = Some pg'). by eapply page_replaced_same. }
  clearbody r2.
  assert (queue_of (waiting_ r2) key !! lsn_ (hdr current) = None → 
    replay_ok seen r2) as Hend.
  { rewrite Hw2. intros E. destruct (page_st_next key pg0 fh seen m r r2 (waiting_ r) current None) as [Hst2 Hn2]; try done.
    - by rewrite delete_id.
    - by exists pg'.
    - by eapply replay_ok_page. }
  unfold queue_of in Hend at 1. destruct (waiting_ r2 !! key) as [q|] eqn:Eq; simpl in Hend.
  2:{ wp_step. rewrite lookup_empty in Hend. split; [by apply Hend|done]. }
  destruct (q !! lsn_ (hdr current)) as [next|] eqn:En.
  2:{ wp_step. split; [by apply Hend|done]. }
  assert (queue_of (waiting_ r2) key = q) as Hq by (unfold queue_of; by rewrite Eq).
  destruct (replay_but_dequeue key seen r2 (lsn_ (hdr current)) next Hb2) as [Hq3 Hb3]; [by rewrite Hq|].
  rewrite Hq in Hq3, Hb3. wp_step. wp_step. wp_step. wp_step.
  set (r3 := set_waiting _ _). fold r3 in Hb3.
  destruct (page_st_next key pg0 fh seen m r r3 (waiting_ r3) current (Some next)) as [Hst3 Hn3]; try done.
  { by rewrite <- Hw2, Hq. }
  { by rewrite <- Hw2, Hq. }
  { by exists pg'. }
  eapply wp_mono; [eapply (IH (S m) r3 next); try done|].
  - apply (ro_ever _ _ _ Hr). apply (ps_read _ _ _ _ _ _ Hst (S m) next Hn3); [lia|].
    destruct (ps_queue _ _ _ _ _ _ Hst (lsn_ (hdr current)) next) as [-> _]; [by rewrite <- Hw2, Hq|].
    by rewrite <- Hw2, Hq.
  - change (queue_of (waiting_ r3) key) with (queue_of (waiting_ (set_waiting (waiting_ r3) r2)) key).
    simpl. rewrite Hq3. rewrite <- Hw2, Hq in Hfuel.
    rewrite <- (insert_id _ _ _ En), <- insert_delete_eq in Hfuel.
    rewrite map_size_insert_None in Hfuel by apply lookup_delete_eq. lia.
  - intros [] r' [? Hf']. split; [done|]. eapply frame_trans; [exact Hf2|]. eapply frame_trans; [|exact Hf']. by split.
Qed.

(** ** Dispatching a record *)

(** What the nodes put into their logs besides changes of pages; records of the
    other kinds are never queued. *)
Definition harmless (x : LogRecord) : Prop :=
  match body x with
  | PreparedBody _ | BatchEndBody | BeginBody | CommitBody | AbortBody => True
  | _ => False
  end.

(** A record that has not been read, of a page that is logged or of none. *)
Definition fresh (seen : LogRecord → Prop) (x : LogRecord) : Prop :=
  match PageForLog x with
  | Some key => is_Some (base !! key) ∧ x ∈ hist key ∧ ¬ seen x
  | None => harmless x
  end ∧ ever x.

Lemma replay_but_seen busy seen x r key :
  PageForLog x = Some key → ever x → replay_but busy seen r →
  replay_but (λ k, busy k ∨ k = key) (λ y, seen y ∨ y = x) r.
Proof using All.
  intros Hx Hex [H1 H2 H3 H4 H5 H6]. split; try done; [|naive_solver]. intros k pg0 fh Hk Hb Hh.
  eapply page_ok_frame; [by eapply H2; eauto|done..|]. intros y Hy. split; [|tauto].
  intros [?| ->]; [done|]. pose proof (hs_history Hhist _ _ _ Hb Hh) as Hl.
  apply (h_key _ _ _ _ Hl) in Hy. destruct Hk. right. congruence.
Qed.

Lemma wp_dispatch_none seen x r :
  harmless x → ever x → replay_ok seen r →
  wp (apply_single_log now depth x ;; count_replayed)
    (λ _ r', replay_ok (λ y, seen y ∨ y = x) r' ∧ frame r r') r.
Proof using All.
  intros Hx Hex Hr.
  assert (replay_ok (λ y, seen y ∨ y = x) r) as Hr'.
  { destruct Hr as [H1 H2 H3 H4 H5 H6]. split; try done; [|naive_solver]. intros k pg0 fh Hk Hb Hh.
    eapply page_ok_frame; [by eapply H2|done..|]. intros y Hy. split; [|tauto].
    intros [?| ->]; [done|]. pose proof (hs_history Hhist _ _ _ Hb Hh) as Hl.
    apply (h_key _ _ _ _ Hl) in Hy. unfold PageForLog, harmless in *. by destruct (body x). }
  assert (wp count_replayed (λ _ r', replay_ok (λ y, seen y ∨ y = x) r' ∧ frame r r') r) as Hc.
  { apply wp_count_replayed. split; [|by split].
    eapply replay_ok_same; [| | |exact Hr']; [by split|by destruct Hr' as [[]]|by destruct Hr']. }
  unfold apply_single_log, harmless in *. wp_step. destruct (body x); done || by wp_step.
Qed.

(** A record that comes too early joins the queue of its page. *)
Lemma replay_ok_enqueue key pg0 fh seen x r m i :
  base !! key = Some pg0 → hdrs !! key.1 = Some fh →
  replay_but (λ k, k = key) (λ y, seen y ∨ y = x) r → page_st key pg0 fh seen m r →
  (∀ y, hist key !! m = Some y → ¬ seen y) →
  hist key !! i = Some x → (m < i)%nat → ¬ seen x →
  let q := queue_of (waiting_ r) key in
  q !! prev_lsn_ (hdr x) = None ∧
  replay_ok (λ y, seen y ∨ y = x)
    (set_pending (u64 (pending_records_ r + 1)) (set_waiting (<[key := <[prev_lsn_ (hdr x) := x]> q]> (waiting_ r)) r)).
Proof using All.
  intros Hb Hh [H1 H2 H3 H4 H5 H6] [P1 P2 P3 PE P4] Hm Hi Hmi Hns q.
  pose proof (hs_history Hhist _ _ _ Hb Hh) as Hl.
  assert (q !! prev_lsn_ (hdr x) = None) as Hq.
  { destruct (q !! prev_lsn_ (hdr x)) as [y|] eqn:E; [|done]. destruct (P4 _ _ E) as (Hp & j & Hj & Hjy).
    assert (j = i) as -> by (by eapply (history_inj _ _ _ _ Hl)). simplify_eq.
    apply (P3 _ _ Hi Hmi) in E. done. }
  split; [done|]. eapply (replay_ok_page key pg0 fh _ m); [done|done| |split|].
  - split; simpl; [by destruct H1| | | |done|done].
    + intros k pg0' fh' Hk Hb' Hh'. eapply page_ok_frame; [by eapply H2|done| |done].
      unfold queue_of. simpl. by rewrite lookup_insert_ne by congruence.
    + intros k. destruct (decide (key = k)) as [<-|]; [by eexists|]. rewrite lookup_insert_ne by done. apply H3.
    + rewrite H4, u64_add, waiting_total_insert. fold q. f_equal.
      rewrite map_size_insert_None by done. lia.
  - done.
  - exact P2.
  - intros j y Hj Hmj. unfold queue_of. simpl. rewrite lookup_insert_eq. simpl.
    destruct (decide (i = j)) as [<-|Hne]; [simplify_eq; rewrite lookup_insert_eq; tauto|].
    assert (prev_lsn_ (hdr x) ≠ prev_lsn_ (hdr y)) as Hpne
      by (intros E; apply Hne; by eapply (history_inj _ _ _ _ Hl)).
    rewrite lookup_insert_ne by done. unfold q. rewrite <- (P3 _ _ Hj Hmj). naive_solver.
  - exact PE.
  - intros p y. unfold queue_of. simpl. rewrite lookup_insert_eq. simpl.
    intros [[<- <-]|[Hne Hy]]%lookup_insert_Some; [by eauto|]. by apply P4.
  - intros y Hy [Hs| ->]; [by eapply Hm|].
    assert (m = i); [|lia]. by eapply (history_inj _ _ _ _ Hl).
Qed.

Lemma wp_Dispatch seen x r :
  fresh seen x → replay_ok seen r →
  wp (Dispatch now depth x) (λ _ r', replay_ok (λ y, seen y ∨ y = x) r' ∧ frame r r') r.
Proof using All.
  intros [Hx Hex] Hr. unfold Dispatch in *. destruct (PageForLog x) as [key|] eqn:Ekey; [|by apply wp_dispatch_none].
  destruct Hx as ([pg0 Hb] & Hin & Hns).
  destruct (hs_table Hhist key (ex_intro _ _ Hb)) as ([fh Hh] & H0).
  pose proof (hs_history Hhist _ _ _ Hb Hh) as Hl.
  destruct (ro_page _ _ _ Hr key pg0 fh ltac:(tauto) Hb Hh) as (m & Hst & Hm).
  pose proof (ps_le _ _ _ _ _ _ Hst) as Hmle.
  destruct (ps_page _ _ _ _ _ _ Hst) as (pg & Hpg & Hat).
  destruct (history_page _ _ _ _ Hl m Hmle) as (pg1 & Hpg1 & Hv & _). rewrite Hpg in Hpg1. injection Hpg1 as <-.
  apply list_elem_of_lookup_1 in Hin as [i Hi]. destruct (history_chain _ _ _ _ Hl _ _ Hi) as (Hp & Hlsn & Hlt).
  pose proof (lookup_lt_Some _ _ _ Hi) as Hilt.
  wp_step. eapply wp_open_table; [by apply Hr|exact Hh|]. intros fd d' Hfd0 Hfp Hfd Hop Hok'.
  assert (replay_ok seen (set_disk d' r)) as Hr1.
  { eapply replay_ok_same; [|exact Hok'| |exact Hr]; [split; try done; apply Hop|].
    intros k st Hst'. destruct (ro_progress _ _ _ Hr k st Hst') as [? Ha]. split; [done|].
    intros pg'. rewrite (page_at_files r); [apply Ha|apply Hop]. }
  assert (frame r (set_disk d' r)) as Hf1 by (split; try done; simpl; by rewrite (opens_files _ _ Hop)).
  assert (page_at (set_disk d' r) key = Some pg) as Hat1.
  { rewrite <- Hat. apply page_at_files. apply Hop. }
  assert (page_st key pg0 fh seen m (set_disk d' r)) as Hst1.
  { eapply page_st_frame; [exact Hst|by rewrite Hat1|done|done]. }
  pose proof (page_at_Some (set_disk d' r) key pg) as [Hfile _]. destruct (Hfile Hat1) as (f & Hf & Hpage & ->).
  pose proof (len_page_of f _ Hpage) as Hlen. clear Hfile. unfold PAGE_SIZE in Hlen.
  wp_step. apply wp_onDisk. simpl. eapply wp_read_page; [exact Hfd|exact Hf|exact Hpage|unfold PAGE_SIZE, sizeof_RmPageHdr; lia|].
  wp_step. apply wp_onDisk. apply wp_header_of; [rewrite len_slice; unfold sizeof_RmPageHdr; lia|].
  rewrite hdr_at_slice, hdr_at_LLSN by lia. set (pg := page_of f key.2) in *.
  change (set_disk _ _) with (set_disk d' r). set (r1 := set_disk d' r) in *. clearbody r1.
  rewrite Hv, Hp, Hlsn.
  pose proof (replay_but_seen _ _ _ _ _ Ekey Hex Hr1) as Hbut.
  destruct (decide (i < m)%nat) as [Him|Him].
  - (* already there *)
    pose proof (proj2 (version_le _ _ _ _ Hl (S i) m ltac:(lia) ltac:(lia)) Him) as Hle.
    apply Z.leb_le in Hle as ->. wp_step. apply wp_PublishPageApplied. apply wp_count_replayed.
    split; [|eapply frame_trans; [exact Hf1|by split]].
    destruct key as [name p]. cbn [fst snd] in *.
    apply (replay_ok_page (name, p) pg0 fh _ m); [done|done| |destruct Hst1 as [P1 P2 P3 PE P4]; split|]; simpl; try done.
    + eapply (replay_but_weaken (λ k, False ∨ k = (name, p))); [tauto|].
      eapply replay_ok_same; [| | |exact Hbut]; [by split| |].
      * destruct Hr1 as [[]]. by split.
      * apply (progress_ok_publish r1 (name, p) pg); [by apply Hr1|done|done].
    + intros j y Hj Hmj. rewrite <- (P3 _ _ Hj Hmj). split; [|tauto]. intros [?| ->]; [done|].
      assert (i = j); [|lia]. by eapply (history_inj _ _ _ _ Hl).
    + intros y Hy [Hs| ->]; [by eapply Hm|]. assert (i = m); [|lia]. by eapply (history_inj _ _ _ _ Hl).
  - assert (version pg0 (hist key) m < version pg0 (hist key) (S i)) as Hgt
      by (apply (version_lt _ _ _ _ Hl); lia).
    destruct (Z.leb_spec (version pg0 (hist key) (S i)) (version pg0 (hist key) m)); [lia|].
    destruct (decide (i = m)) as [->|Hne].
    + (* the next one *)
      rewrite Z.ltb_irrefl, Z.eqb_refl. destruct (Z.leb_spec (version pg0 (hist key) (S m)) (version pg0 (hist key) m)); [lia|].
      cbn [negb orb]. wp_step. wp_step. eapply wp_mono.
      * eapply (wp_apply_chain key pg0 fh _ _ Hb Hh _ m); [| |exact Hi|exact Hex|unfold chain_fuel, queue_of; lia].
        -- eapply replay_but_weaken; [|exact Hbut]. by intros k [[]|].
        -- destruct Hst1 as [P1 P2 P3 PE P4]; split; try done. intros j y Hj Hmj. rewrite <- (P3 _ _ Hj Hmj).
           split; [|tauto]. intros [?| ->]; [done|]. assert (m = j); [|lia]. by eapply (history_inj _ _ _ _ Hl).
      * intros [] r' [? Hf']. split; [done|]. by eapply frame_trans.
    + (* too early *)
      assert (m < i)%nat as Hmi by lia.
      pose proof (version_lt _ _ _ _ Hl m i Hmi ltac:(lia)) as Hvlt. apply Z.ltb_lt in Hvlt as ->.
      destruct (replay_ok_enqueue key pg0 fh seen x r1 m i Hb Hh) as [Hq Hr2]; try done.
      { eapply replay_but_weaken; [|exact Hbut]. by intros k [[]|]. }
      rewrite Hp in Hq, Hr2. unfold queue_of in Hq, Hr2.
      wp_step. wp_step. rewrite Hq. wp_step. wp_step. wp_step. split; [exact Hr2|].
      eapply frame_trans; [exact Hf1|by split].
Qed.

End replay.
