(* ===== verification/ReplayRead.v ===== *)
(** Reading the logs: [replay_inv] relates the storage node to the records that its
    log files hold and to those that have been read; every call of [ReadStream]
    keeps it, and reading until nothing is left ends with everything read. *)

From stdpp Require Import functions sorting.
From S2P Require Import Prelude Common Bytes Record RecordPage PreparedTxn LogRecord LogFormat DiskManager FsmReplay LogReplay LogManager LogBuffer Redo LogStream ReplayOrder.

#[local] Arguments le : simpl never.

#[export] Instance LogHeader_eq_dec : EqDecision LogHeader.
Proof. solve_decision. Defined.
#[export] Instance RmRecord_eq_dec : EqDecision RmRecord.
Proof. solve_decision. Defined.
#[export] Instance DeleteMeta_eq_dec : EqDecision DeleteMeta.
Proof. solve_decision. Defined.
#[export] Instance UndoMeta_eq_dec : EqDecision UndoMeta.
Proof. solve_decision. Defined.
#[export] Instance LogBody_eq_dec : EqDecision LogBody.
Proof. solve_decision. Defined.
#[export] Instance LogRecord_eq_dec : EqDecision LogRecord.
Proof. solve_decision. Defined.

(** ** Lists *)

(** What comes before a member of a beginning belongs to it. *)
Lemma NoDup_prefix_before {A} (d l : list A) i j x y :
  NoDup l → d `prefix_of` l → l !! i = Some x → l !! j = Some y → (i ≤ j)%nat → y ∈ d → x ∈ d.
Proof.
  intros Hnd [k ->] Hi Hj Hij Hy. apply list_elem_of_lookup_1 in Hy as [j' Hj'].
  assert (j' = j) as -> by (eapply NoDup_lookup; [exact Hnd| |exact Hj]; by apply lookup_app_l_Some).
  apply lookup_lt_Some in Hj'. rewrite lookup_app_l in Hi by lia. by apply list_elem_of_lookup_2 in Hi.
Qed.

(** The places of two members, one behind the other, in a filtered list. *)
Lemma filter_lookup_before {A} (P : A → Prop) `{!∀ x, Decision (P x)} (l : list A) i j x y :
  l !! i = Some x → l !! j = Some y → (i ≤ j)%nat → P x → P y →
  ∃ i' j', filter P l !! i' = Some x ∧ filter P l !! j' = Some y ∧ (i' ≤ j')%nat.
Proof.
  intros Hi Hj Hij Hx Hy.
  assert (l = take i l ++ x :: drop (S i) l) as E by (by rewrite take_drop_middle).
  destruct (decide (i = j)) as [<-|Hne].
  - assert (x = y) as <- by congruence. assert (x ∈ filter P l) as Hin.
    { apply list_elem_of_filter. split; [done|]. by apply list_elem_of_lookup_2 in Hi. }
    apply list_elem_of_lookup_1 in Hin as [k Hk]. by exists k, k.
  - assert (y ∈ filter P (drop (S i) l)) as Hin.
    { apply list_elem_of_filter. split; [done|]. apply (list_elem_of_lookup_2 _ (j - S i)).
      rewrite lookup_drop. by replace (S i + (j - S i))%nat with j by lia. }
    apply list_elem_of_lookup_1 in Hin as [k Hk].
    revert E Hk. generalize (take i l) (drop (S i) l). intros a b E Hk.
    exists (length (filter P a)), (length (filter P a) + S k)%nat.
    rewrite E, filter_app, filter_cons_True by done. split; [|split; [|lia]].
    + by rewrite lookup_app_r, Nat.sub_diag by lia.
    + rewrite lookup_app_r by lia.
      by replace (_ + S k - _)%nat with (S k) by lia.
Qed.

(** A property that the earlier members have when the later ones do holds of a
    beginning. *)
Lemma filter_take {A} (P : A → Prop) `{!∀ x, Decision (P x)} (l : list A) :
  (∀ i j x y, l !! i = Some x → l !! j = Some y → (i ≤ j)%nat → P y → P x) →
  ∃ k, (k ≤ length l)%nat ∧ filter P l = take k l ∧ ∀ i x, l !! i = Some x → P x ↔ (i < k)%nat.
Proof.
  induction l as [|x l IH]; intros Hd.
  - exists 0%nat. split; [simpl; lia|]. split; [done|]. intros i x Hi. by rewrite lookup_nil in Hi.
  - destruct (decide (P x)) as [Hx|Hx].
    + destruct IH as (k & Hk & Hf & Hi).
      { intros i j y z Hy Hz Hij. apply (Hd (S i) (S j)); [done|done|lia]. }
      exists (S k). split; [simpl; lia|]. rewrite filter_cons_True, Hf by done. split; [done|].
      intros [|i] y Hy; simpl in Hy; [simplify_eq; split; [lia|done]|].
      rewrite (Hi i y Hy). lia.
    + assert (∀ i y, (x :: l) !! i = Some y → ¬ P y) as Hno.
      { intros i y Hy HP. apply Hx. apply (Hd 0%nat i x y); [done|done|lia|done]. }
      exists 0%nat. split; [simpl; lia|]. split.
      * rewrite filter_cons_False by done. simpl. destruct (filter P l) as [|y l'] eqn:E; [done|].
        assert (y ∈ filter P l) as Hin by (rewrite E; left).
        apply list_elem_of_filter in Hin as [HP Hin]. apply list_elem_of_lookup_1 in Hin as [i Hi].
        destruct (Hno (S i) y Hi HP).
      * intros i y Hy. split; [|lia]. intros HP. destruct (Hno i y Hy HP).
Qed.

(** ** The records of the logs *)

Section read.
Context `{RequestCodec}.
Context (n0 : nat) (hdrs : gmap path RmFileHdr) (base : gmap PageKey buffer).
Context (hist : PageKey → list LogRecord).

Abbreviation node_of x := (log_node_id_ (hdr x)).

(** The logs [L] of the nodes against the histories of the pages. *)
Record logs_ok (L : Z → list LogRecord) : Prop := {
  lo_loggable n : Forall (loggable n) (L n);
  lo_page n x key : x ∈ L n → PageForLog x = Some key → is_Some (base !! key) ∧ x ∈ hist key;
  lo_other n x : x ∈ L n → PageForLog x = None → harmless x;
  lo_order n key : filter (λ x, PageForLog x = Some key) (L n) = filter (λ x, node_of x = n) (hist key)
}.

Record replay_inv (D reads : Z → list LogRecord) (r : LogReplay) : Prop := {
  ri_file n : wal_file r n = encodes (D n);
  ri_wal n : is_Some (streams_ r !! n) → is_Some (wal r !! n);
  ri_stream n s : streams_ r !! n = Some s →
    durable_end s = len (encodes (D n)) ∧ durable_end s < 2 ^ 64 ∧
    len (sbuffer s) = LOG_REPLAY_BUFFER_SIZE ∧ read_offset s = len (encodes (reads n));
  ri_none n : streams_ r !! n = None → D n = [];
  ri_reads n : reads n `prefix_of` D n;
  ri_ok : replay_ok n0 hdrs base hist (λ x, x ∈ D (node_of x)) (λ x, x ∈ reads (node_of x)) r
}.

Definition unread (r : LogReplay) : Z := msum (λ s, durable_end s - read_offset s) (streams_ r).

Context (Hhist : histories_ok hdrs base hist).
Context (L D : Z → list LogRecord) (HL : logs_ok L) (HD : ∀ n, D n `prefix_of` L n).

Lemma logs_NoDup n key : is_Some (base !! key) → NoDup (filter (λ x, PageForLog x = Some key) (L n)).
Proof using All.
  intros [pg0 Hb]. rewrite (lo_order _ HL). apply NoDup_filter.
  destruct (hs_table _ _ _ Hhist key (ex_intro _ _ Hb)) as [[fh Hh] _].
  by eapply history_NoDup, (hs_history _ _ _ Hhist).
Qed.

Lemma logs_node n x : x ∈ L n → node_of x = n.
Proof using HL. intros Hx. pose proof (lo_loggable _ HL n) as Hf. rewrite Forall_forall in Hf. by apply Hf. Qed.

(** The next record of a log has not been read before. *)
Lemma next_is_fresh n (seen : LogRecord → Prop) l x k :
  L n = l ++ x :: k → x ∈ D n → (∀ y, seen y → node_of y = n → y ∈ l) →
  fresh base hist (λ x, x ∈ D (node_of x)) seen x.
Proof using All.
  intros E HxD Hs. assert (x ∈ L n) as Hx by (rewrite E; set_solver). unfold fresh.
  split; [|by rewrite (logs_node n x Hx)].
  destruct (PageForLog x) as [key|] eqn:Ek; [|by eapply lo_other].
  destruct (lo_page _ HL _ _ _ Hx Ek) as [Hb Hh]. split; [done|]. split; [done|]. intros Hseen.
  apply Hs in Hseen; [|by apply logs_node].
  pose proof (logs_NoDup n key Hb) as Hnd. rewrite E, filter_app, filter_cons_True in Hnd by done.
  apply NoDup_app in Hnd as (_ & Hnd & _). apply (Hnd x); [|left]. by apply list_elem_of_filter.
Qed.

Lemma prefix_trans' n reads : reads `prefix_of` D n → reads `prefix_of` L n.
Proof using HD. intros Hr. etrans; [exact Hr|apply HD]. Qed.

Lemma unread_bound reads r : replay_inv D reads r → 0 ≤ unread r.
Proof using All.
  intros Hr. apply msum_nonneg. intros n s Hs. destruct (ri_stream _ _ _ Hr n s Hs) as (-> & _ & _ & ->).
  destruct (ri_reads _ _ _ Hr n) as [k ->]. rewrite encodes_app. len. pose proof (len_nonneg (encodes k)). lia.
Qed.

Lemma fn_insert_reads (reads : Z → list LogRecord) n l (x : LogRecord) :
  Forall (loggable n) l →
  x ∈ (<[n := reads n ++ l]> reads : Z → list LogRecord) (node_of x) ↔ x ∈ reads (node_of x) ∨ x ∈ l.
Proof using All.
  intros Hf. rewrite Forall_forall in Hf. destruct (decide (n = node_of x)) as [->|Hne].
  - rewrite fn_lookup_insert. set_solver.
  - rewrite fn_lookup_insert_ne by done. split; [tauto|]. intros [?|Hx]; [done|].
    destruct Hne. symmetry. by apply Hf.
Qed.

Lemma wp_read_stream now depth reads r n :
  replay_inv D reads r → is_Some (streams_ r !! n) →
  wp (ReadStream now depth n)
    (λ b r', ∃ reads', replay_inv D reads' r' ∧ (∀ m, reads m `prefix_of` reads' m) ∧
       dom (streams_ r') = dom (streams_ r) ∧ wal r' = wal r ∧
       (if b : bool then unread r' < unread r else r' = r ∧ reads' = reads ∧ reads n = D n)) r.
Proof using All.
  intros Hr [s Hs]. destruct (ri_stream _ _ _ Hr n s Hs) as (Hde & Hb & Hbuf & Hro).
  destruct (ri_reads _ _ _ Hr n) as [todo Htodo].
  assert (Forall (loggable n) (D n)) as HfD.
  { destruct (HD n) as [k Hk]. pose proof (lo_loggable _ HL n) as Hf. rewrite Hk in Hf.
    by apply Forall_app in Hf as [? _]. }
  rewrite Htodo in HfD, Hde.
  set (seen := λ l x, x ∈ reads (node_of x) ∨ x ∈ (l : list LogRecord)).
  set (r0 s' := set_stream n s' r).
  apply (wp_ReadStream now depth n
    (λ s' l r', replay_ok n0 hdrs base hist (λ x, x ∈ D (node_of x)) (seen l) r' ∧ frame (r0 s') r') (reads n) todo s).
  - intros s' l r' [_ Hfr]. rewrite (fr_streams _ _ Hfr). apply lookup_insert_eq.
  - done.
  - by rewrite (ri_file _ _ _ Hr), Htodo.
  - done.
  - done.
  - done.
  - done.
  - done.
  - intros bytes _. split; [|apply frame_refl].
    eapply replay_ok_ext; [|eapply replay_ok_same; [| | |apply (ri_ok _ _ _ Hr)]].
    + intros x. subst seen. simpl. set_solver.
    + by split.
    + pose proof (ri_ok _ _ _ Hr) as [[]]. by split.
    + by pose proof (ri_ok _ _ _ Hr) as [].
  - intros bytes l x k r' E [Hok Hfr].
    eapply wp_mono; [eapply (wp_Dispatch n0 hdrs base hist _ now depth Hhist (seen l))|].
    + destruct (HD n) as [k2 Hk2]. apply (next_is_fresh n _ (reads n ++ l) x (k ++ k2)).
      * rewrite Hk2, Htodo, E. by rewrite <- !app_assoc.
      * rewrite Htodo, E. set_solver.
      * intros y [Hy|Hy] Hn; [rewrite Hn in Hy|]; set_solver.
    + eapply replay_ok_same; [| | |exact Hok]; [by split|by destruct Hok as [[]]|by destruct Hok].
    + intros [] r2 [Hok2 Hfr2]. split.
      * eapply replay_ok_ext; [|exact Hok2]. intros y. subst seen. simpl. set_solver.
      * eapply frame_trans; [exact Hfr|]. eapply frame_trans; [|exact Hfr2]. by split.
  - intros ->. exists reads. split; [done|]. split; [done|]. split; [done|]. split; [done|].
    split; [done|]. split; [done|]. by rewrite Htodo, app_nil_r.
  - intros bytes rd later r' E Hne [Hok Hfr] Hl. exists (<[n := reads n ++ rd]> reads).
    assert (Forall (loggable n) rd) as Hfrd.
    { rewrite E in HfD. apply Forall_app in HfD as [_ HfD]. by apply Forall_app in HfD as [? _]. }
    pose proof (fr_streams _ _ Hfr) as Est. pose proof (fr_wal _ _ Hfr) as Ewal. simpl in Est, Ewal.
    split_and!.
    + split.
      * intros m. unfold wal_file, set_stream. simpl. rewrite Ewal. apply (ri_file _ _ _ Hr).
      * intros m. simpl. rewrite Ewal, Est. intros Hm. apply (ri_wal _ _ _ Hr). destruct (decide (n = m)) as [<-|]; [by eexists|].
        by rewrite !lookup_insert_ne in Hm by done.
      * intros m s'. simpl. rewrite Est, insert_insert_eq.
        intros [[<- <-]|[Hm Hs']]%lookup_insert_Some; simpl.
        -- rewrite fn_lookup_insert. rewrite Htodo. done.
        -- rewrite fn_lookup_insert_ne by done. by apply (ri_stream _ _ _ Hr).
      * intros m. simpl. rewrite Est, insert_insert_eq. intros [Hm ?]%lookup_insert_None. by apply (ri_none _ _ _ Hr).
      * intros m. destruct (decide (n = m)) as [<-|].
        -- rewrite fn_lookup_insert, Htodo, E. exists later. by rewrite app_assoc.
        -- rewrite fn_lookup_insert_ne by done. apply (ri_reads _ _ _ Hr).
      * eapply replay_ok_ext; [intros x; by apply fn_insert_reads|].
        eapply replay_ok_same; [| | |exact Hok]; [by split|by destruct Hok as [[]]; split|by destruct Hok].
    + intros m. destruct (decide (n = m)) as [<-|].
      * rewrite fn_lookup_insert. by eexists.
      * by rewrite fn_lookup_insert_ne.
    + simpl. rewrite Est, insert_insert_eq. apply dom_insert_lookup_L. by eexists.
    + done.
    + unfold unread. simpl. rewrite Est, insert_insert_eq, msum_insert, Hs. simpl. rewrite Hro, encodes_app. len.
      assert (0 < len (encodes rd)); [|lia]. destruct rd as [|x rd]; [done|]. rewrite encodes_cons. len.
      pose proof (len_encode_pos x). pose proof (len_nonneg (encodes rd)). lia.
Qed.

(** ** Reading until nothing is left *)

Definition grows (reads reads' : Z → list LogRecord) (r r' : LogReplay) : Prop :=
  (∀ m, reads m `prefix_of` reads' m) ∧ dom (streams_ r') = dom (streams_ r) ∧ wal r' = wal r.

Lemma grows_refl reads r : grows reads reads r r.
Proof using. done. Qed.

Lemma grows_trans a b c r1 r2 r3 : grows a b r1 r2 → grows b c r2 r3 → grows a c r1 r3.
Proof using.
  intros (H1 & H2 & H3) (H4 & H5 & H6). split; [intros m; etrans; [apply H1|apply H4]|]. split; congruence.
Qed.

Lemma wp_read_all now depth : ∀ nodes reads r p,
  replay_inv D reads r → (∀ n, n ∈ nodes → n ∈ dom (streams_ r)) →
  wp (read_all now depth nodes p)
    (λ b r', ∃ reads', replay_inv D reads' r' ∧ grows reads reads' r r' ∧ unread r' ≤ unread r ∧
       if b : bool then p = true ∨ unread r' < unread r
       else p = false ∧ r' = r ∧ reads' = reads ∧ ∀ n, n ∈ nodes → reads n = D n) r.
Proof using All.
  intros nodes. induction nodes as [|n nodes IH]; intros reads r p Hr Hn; simpl.
  - wp_step. exists reads. split; [done|]. split; [apply grows_refl|]. split; [lia|]. destruct p; [by left|].
    split_and!; try done. intros n Hn'. by apply not_elem_of_nil in Hn'.
  - wp_step. eapply wp_mono; [apply wp_read_stream; [exact Hr|apply elem_of_dom, Hn; left]|].
    intros b r1 (reads1 & Hr1 & Hg1 & Hd1 & Hw1 & Hb1). cbv beta.
    eapply wp_mono; [apply (IH reads1 r1 (p || b) Hr1)|].
    { intros m Hm. rewrite Hd1. apply Hn. by right. }
    intros b2 r2 (reads2 & Hr2 & Hg2 & Hu2 & Hb2). exists reads2.
    assert (unread r1 ≤ unread r) as Hu1 by (destruct b; [lia|destruct Hb1 as [-> _]; lia]).
    split; [done|]. split; [eapply grows_trans; [|exact Hg2]; by split|]. split; [lia|].
    destruct b2.
    + destruct Hb2 as [Hp|?]; [|right; lia]. apply orb_true_iff in Hp as [->|Hp]; [by left|].
      subst b. right. lia.
    + destruct Hb2 as (Hp & -> & -> & Hall). apply orb_false_iff in Hp as [-> ->].
      destruct Hb1 as (-> & -> & Hrn). split_and!; try done. intros m [->|Hm]%elem_of_cons; auto.
Qed.

Lemma elem_of_stream_nodes n r : n ∈ stream_nodes r ↔ n ∈ dom (streams_ r).
Proof using. unfold stream_nodes. rewrite merge_sort_Permutation. apply elem_of_elements. Qed.

Lemma wp_read_until_done now depth : ∀ fuel reads r,
  replay_inv D reads r → unread r < Z.of_nat fuel →
  wp (read_until_done now depth fuel)
    (λ _ r', replay_inv D D r' ∧ grows reads D r r') r.
Proof using All.
  intros fuel. induction fuel as [|fuel IH]; intros reads r Hr Hf.
  - pose proof (unread_bound _ _ Hr). lia.
  - cbn [read_until_done]. wp_step. wp_step. wp_step.
    eapply wp_mono; [apply (wp_read_all now depth _ reads r false Hr)|].
    { intros n. by rewrite elem_of_stream_nodes. }
    intros b r1 (reads1 & Hr1 & Hg1 & Hu1 & Hb). cbv beta. destruct b.
    + destruct Hb as [?|Hb]; [done|]. eapply wp_mono; [apply (IH reads1); [done|lia]|].
      intros [] r2 (Hr2 & Hg2). split; [done|]. by eapply grows_trans.
    + destruct Hb as (_ & -> & -> & Hall). wp_step.
      assert (∀ n, reads n = D n) as E.
      { intros n. destruct (streams_ r !! n) eqn:Es.
        - apply Hall. rewrite elem_of_stream_nodes. apply elem_of_dom. by eexists.
        - pose proof (ri_reads _ _ _ Hr n) as Hp. rewrite (ri_none _ _ _ Hr n Es) in *.
          by apply prefix_nil_inv in Hp. }
      split.
      * destruct Hr as [R1 R2 R3 R4 R5 R6]. split; try done.
        -- intros n s Hs. destruct (R3 n s Hs) as (E1&E2&E3&E4). rewrite (E n) in E4. done.
        -- eapply replay_ok_ext; [|exact R6]. intros x. cbv beta. by rewrite (E (log_node_id_ (hdr x))).
      * split; [|done]. intros m. by rewrite E.
Qed.

(** ** Everything has been read *)

(** The rule of write-ahead logging: a record is followed by another node's only if
    it is durable. *)
Definition wal_rule : Prop := ∀ key i j x y,
  hist key !! i = Some x → hist key !! j = Some y → (i < j)%nat → x ∈ D (node_of x) ∨ node_of y = node_of x.

Lemma durable_before key i j x y : wal_rule → is_Some (base !! key) →
  hist key !! i = Some x → hist key !! j = Some y → (i ≤ j)%nat →
  y ∈ D (node_of y) → x ∈ D (node_of x).
Proof using All.
  intros Hwal Hb Hi Hj Hij Hy. destruct (decide (i = j)) as [<-|Hne]; [congruence|].
  destruct (Hwal key i j x y Hi Hj ltac:(lia)) as [?|Hn]; [done|].
  destruct (filter_lookup_before (λ z, node_of z = node_of x) (hist key) i j x y) as (i' & j' & Hi' & Hj' & Hij'); try done.
  rewrite <- (lo_order _ HL) in Hi', Hj'.
  assert (x ∈ filter (λ z, PageForLog z = Some key) (D (node_of x))) as [_ ?]%list_elem_of_filter; [|done].
  eapply (NoDup_prefix_before _ (filter (λ z, PageForLog z = Some key) (L (node_of x))) i' j'); [by apply logs_NoDup| |done|done|done|].
  - destruct (HD (node_of x)) as [k ->]. rewrite filter_app. by eexists.
  - apply list_elem_of_filter. rewrite <- Hn. split; [|done].
    apply list_elem_of_lookup_2 in Hj'. by apply list_elem_of_filter in Hj' as [? _].
Qed.

(** The durable part of the history of a page. *)
Definition durable_history (key : PageKey) : list LogRecord := filter (λ x, x ∈ D (node_of x)) (hist key).

Lemma durable_history_take key : wal_rule → is_Some (base !! key) →
  ∃ k, (k ≤ length (hist key))%nat ∧ durable_history key = take k (hist key) ∧
    ∀ i x, hist key !! i = Some x → x ∈ D (node_of x) ↔ (i < k)%nat.
Proof using All.
  intros Hwal Hb. apply filter_take. intros i j x y Hi Hj Hij Hy. by eapply durable_before.
Qed.

Definition pages_durable (r : LogReplay) : Prop := ∀ key pg0 fh,
  base !! key = Some pg0 → hdrs !! key.1 = Some fh →
  ∃ pg, redo_all fh (durable_history key) pg0 = Done (tt, pg) ∧ page_at r key = Some pg.

Lemma caught_up r : wal_rule → replay_inv D D r → pending_records_ r = 0 ∧ pages_durable r.
Proof using All.
  intros Hwal Hr. pose proof (ri_ok _ _ _ Hr) as [R1 R2 R3 R4 R5].
  assert (∀ key pg0 fh, base !! key = Some pg0 → hdrs !! key.1 = Some fh →
    queue_of (waiting_ r) key = ∅ ∧
    ∃ pg, redo_all fh (durable_history key) pg0 = Done (tt, pg) ∧ page_at r key = Some pg) as Hall.
  { intros key pg0 fh Hb Hh. destruct (R2 key pg0 fh ltac:(tauto) Hb Hh) as (m & [P1 P2 P3 PE P4] & Hm).
    destruct (durable_history_take key Hwal (ex_intro _ _ Hb)) as (k & Hk & Ek & Hdk).
    assert (k ≤ m)%nat as Hkm.
    { destruct (decide (k ≤ m)%nat) as [|Hn]; [done|]. destruct (lookup_lt_is_Some_2 (hist key) m) as [x Hx]; [lia|].
      destruct (Hm x Hx). apply (Hdk m x Hx). lia. }
    split.
    - apply map_eq. intros p. rewrite lookup_empty. destruct (queue_of (waiting_ r) key !! p) as [x|] eqn:Ex; [|done].
      destruct (P4 _ _ Ex) as (<- & i & Hi & Hix). apply (P3 i x Hix Hi) in Ex. apply (Hdk i x Hix) in Ex. lia.
    - rewrite Ek. destruct P2 as (pg & Hpg & Hat). exists pg. split; [|done].
      destruct (decide (m ≤ k)%nat) as [|Hn]; [by replace k with m by lia|].
      destruct (lookup_lt_is_Some_2 (hist key) k) as [x Hx]; [lia|].
      assert (k < k)%nat; [|lia]. apply (Hdk k x Hx), (PE k x Hx). lia. }
  split; [|intros key pg0 fh Hb Hh; by eapply Hall].
  rewrite R4, waiting_total_empty; [done|]. intros key. unfold queue_of.
  destruct (waiting_ r !! key) as [q|] eqn:E; [|done].
  destruct (R3 key (ex_intro _ _ E)) as [pg0 Hb].
  destruct (hs_table _ _ _ Hhist key (ex_intro _ _ Hb)) as [[fh Hh] _].
  destruct (Hall key pg0 fh Hb Hh) as [Hq _]. unfold queue_of in Hq. by rewrite E in Hq.
Qed.
End read.
