(* ===== verification/ReplayStart.v ===== *)
(** Restart of the storage node: [start], on the tables and the logs that a crash has
    left, whose ends may be parts of records, cuts the logs to their whole records
    and brings every page to the version of its durable history. *)

From stdpp Require Import functions sorting.
From S2P Require Import Prelude Common Bytes Record RecordPage PreparedTxn LogRecord LogFormat DiskManager FsmReplay LogReplay LogManager LogBuffer Redo LogStream ReplayOrder ReplayRead.

#[local] Arguments le : simpl never.
#[local] Arguments replicate : simpl never.
#[local] Arguments Z.to_nat : simpl never.

Lemma msum_fmap `{Countable K} {A B} (f : B → Z) (g : A → B) (m : gmap K A) :
  msum f (g <$> m) = msum (λ x, f (g x)) m.
Proof.
  induction m as [|k x m Hk IH] using map_ind; [by rewrite fmap_empty|].
  rewrite fmap_insert, !msum_insert, IH, lookup_fmap, Hk. simpl. lia.
Qed.

Lemma msum_ext `{Countable K} {A} (f g : A → Z) (m : gmap K A) : (∀ x, f x = g x) → msum f m = msum g m.
Proof.
  intros E. induction m as [|k x m Hk IH] using map_ind; [done|].
  by rewrite !msum_insert, IH, Hk, E.
Qed.

Lemma wal_bytes_sum r : Z.of_nat (wal_bytes r) = msum len (wal r).
Proof.
  unfold wal_bytes. rewrite msum_list.
  assert (∀ l : list (Z * buffer), 0 ≤ foldr Z.add 0 (len <$> l.*2) ∧
    (λ nf : Z * buffer, len nf.2) <$> l = len <$> l.*2) as Hl.
  { intros l. induction l as [|[k x] l IH]; simpl; [done|]. pose proof (len_nonneg x). destruct IH as [? IH].
    split; [apply Z.add_nonneg_nonneg; done|]. by f_equal. }
  destruct (Hl (map_to_list (wal r))) as [Hp ->]. rewrite Z2Nat.id; [done|exact Hp].
Qed.

Section start.
Context `{RequestCodec}.
Context (n0 : nat) (hdrs : gmap path RmFileHdr) (base : gmap PageKey buffer).
Context (hist : PageKey → list LogRecord) (D : Z → list LogRecord).
Context (Hhist : histories_ok hdrs base hist) (HD : logs_ok base hist D).
Context (Hall : wal_rule hist D).

(** What the crash has left. *)
Context (w : gmap Z buffer).
Context (Hw : ∀ n, ∃ p, default [] (w !! n) = encodes (D n) ++ p ∧ torn n p).
Context (Hsize : ∀ n, len (default [] (w !! n)) < 2 ^ 64).

Definition recovered_stream (n : Z) : Stream := mkStream (len (encodes (D n))) 0 empty_buffer.

Definition recovering (r0 : LogReplay) (done : list Z) (r : LogReplay) : Prop :=
  ∃ ss ww, r = set_streams ss (set_wal ww r0) ∧ ∀ n,
    (n ∈ done → ww !! n = Some (encodes (D n)) ∧ ss !! n = Some (recovered_stream n)) ∧
    (n ∉ done → ww !! n = w !! n ∧ ss !! n = None).

Lemma wp_recover_files r0 : wal r0 = w → streams_ r0 = ∅ → ∀ todo done r,
  NoDup (done ++ todo) → (∀ n, n ∈ todo → is_Some (w !! n)) → recovering r0 done r →
  wp (for_each recover_file todo) (λ _, recovering r0 (done ++ todo)) r.
Proof using All.
  intros Hw0 Hs0 todo. induction todo as [|n todo IH]; intros done r Hnd Htodo Hr; cbn [for_each].
  - wp_step. by rewrite app_nil_r.
  - destruct Hr as (ss & ww & -> & Hr). destruct (Htodo n ltac:(left)) as [file Hfile].
    assert (n ∉ done) as Hn.
    { apply NoDup_app in Hnd as (_ & Hnd & _). intros ?. apply (Hnd n); [done|left]. }
    destruct (Hr n) as [_ Hn']. destruct (Hn' Hn) as [Hwn Hsn]. destruct (Hw n) as (p & Hp & Ht).
    rewrite Hfile in Hp, Hwn. simpl in Hp. subst file.
    wp_step. eapply (wp_recover_file n (D n) p); [simpl; by rewrite Hwn| |apply HD|done|].
    + done.
    + rewrite cons_middle, app_assoc in Hnd |- *. apply IH; [done|intros m Hm; apply Htodo; by right|].
      exists (<[n := recovered_stream n]> ss), (<[n := encodes (D n)]> ww). split; [done|].
      intros m. destruct (decide (m = n)) as [->|Hne].
      * rewrite !lookup_insert_eq. split; [done|]. set_solver.
      * rewrite !lookup_insert_ne by done. destruct (Hr m) as [H1 H2]. set_solver.
Qed.

Lemma replay_inv_recovered r0 order r :
  wal r0 = w → order ≡ₚ elements (dom w) → recovering r0 order r →
  replay_ok n0 hdrs base hist (λ x, x ∈ D (log_node_id_ (hdr x))) (λ _, False) r0 →
  replay_inv n0 hdrs base hist D (λ _, []) r ∧ unread r = msum len (wal r).
Proof using All.
  intros Hw0 Ho (ss & ww & -> & Hr) Hok.
  assert (∀ n, (is_Some (w !! n) ∧ ww !! n = Some (encodes (D n)) ∧ ss !! n = Some (recovered_stream n)) ∨
    (w !! n = None ∧ ww !! n = None ∧ ss !! n = None)) as Hn.
  { intros n. destruct (Hr n) as [H1 H2]. destruct (w !! n) as [f|] eqn:E.
    - left. split; [by eexists|]. apply H1. rewrite Ho. apply elem_of_elements, elem_of_dom. by eexists.
    - right. split; [done|]. apply H2. rewrite Ho. rewrite elem_of_elements, elem_of_dom, E. by intros []. }
  assert (∀ n, w !! n = None → D n = []) as HDn.
  { intros n E. destruct (Hw n) as (p & Hp & _). rewrite E in Hp. simpl in Hp. symmetry in Hp.
    apply app_eq_nil in Hp as [Hp _].
    apply (encodes_empty_inv n); [apply HD|]. by rewrite Hp. }
  split.
  - split; simpl.
    + intros n. unfold wal_file. simpl. destruct (Hn n) as [(_ & -> & _)|(E & -> & _)]; [done|]. by rewrite (HDn n E).
    + intros n. destruct (Hn n) as [(_ & -> & _)|(E & _ & ->)]; [done|]. by intros [].
    + intros n s. destruct (Hn n) as [(_ & _ & ->)|(E & _ & ->)]; [|done]. intros [= <-]. simpl.
      split; [done|]. split; [|split; [by vm_compute|done]].
      destruct (Hw n) as (p & Hp & _). specialize (Hsize n). rewrite Hp in Hsize. len.
      pose proof (len_nonneg p). lia.
    + intros n. destruct (Hn n) as [(_ & _ & ->)|(E & _ & ->)]; [done|]. intros _. by apply HDn.
    + intros n. apply prefix_nil.
    + eapply replay_ok_ext; [|eapply replay_ok_same; [| | |exact Hok]].
      * intros x. cbv beta. by rewrite elem_of_nil.
      * by split.
      * destruct Hok as [[]]. by split.
      * by destruct Hok.
  - unfold unread. simpl. assert (ss = (λ f, mkStream (len f) 0 empty_buffer) <$> ww) as ->.
    { apply map_eq. intros n. rewrite lookup_fmap. by destruct (Hn n) as [(_ & -> & ->)|(E & -> & ->)]. }
    rewrite msum_fmap. apply msum_ext. intros f. simpl. lia.
Qed.

(** The state the process starts in: the tables are those of the disk, no file is
    open and nothing has been read. *)
Lemma wp_start now depth r0 order :
  wal r0 = w → streams_ r0 = ∅ → order ≡ₚ elements (dom w) →
  replay_ok n0 hdrs base hist (λ x, x ∈ D (log_node_id_ (hdr x))) (λ _, False) r0 →
  wp (start now depth order) (λ _ r, replay_inv n0 hdrs base hist D D r ∧ pending_records_ r = 0 ∧
    pages_durable hdrs base hist D r) r0.
Proof using All.
  intros Hw0 Hs0 Ho Hok. unfold start. wp_step.
  eapply wp_mono; [apply (wp_recover_files r0 Hw0 Hs0 order [] r0)|].
  { rewrite app_nil_l, Ho. apply NoDup_elements. }
  { intros n. rewrite Ho, elem_of_elements, elem_of_dom. done. }
  { exists ∅, w. split; [rewrite <- Hw0, <- Hs0; by destruct r0|]. intros n. rewrite lookup_empty.
    split; [by intros ?%not_elem_of_nil|done]. }
  intros [] r1 Hrec. rewrite app_nil_l in Hrec.
  destruct (replay_inv_recovered r0 order r1 Hw0 Ho Hrec Hok) as [Hinv Hu].
  wp_step. wp_step. wp_step.
  eapply wp_mono; [apply (wp_read_until_done n0 hdrs base hist Hhist D D HD (λ n, reflexivity (D n)) now depth _ (λ _, []));
    [done|rewrite Hu, Nat2Z.inj_succ, wal_bytes_sum; lia]|].
  intros [] r2 [Hr2 _]. destruct (caught_up n0 hdrs base hist Hhist D D HD (λ n, reflexivity (D n)) r2 Hall Hr2) as [Hp Hpages].
  wp_step. wp_step. rewrite Hp. cbn [negb Z.eqb]. by wp_step.
Qed.
End start.
