(* ===== verification/ReplaySystem.v ===== *)
(** Write-ahead logging of the whole cluster: compute nodes that change pages and
    log the changes, the requests by which their logs reach the storage node, the
    storage node that appends and replays them, and crashes of the cluster.

    A step is one call of a modelled function.  Three things are taken from outside:
    a node that changes a page holds it exclusively and has its latest contents
    ([EagerSystem.eager_reads_latest], [NodeProtocol]); the change it makes in its
    buffer is the one its record describes, so that [redo] on that buffer is defined
    (for the calls of transactions shown in [TxRedo] and used in [RowSystem]);
    and a page leaves a node only once the node's log is durable
    ([NodeProtocol.push_respects_log]), so that a page that another node has changed
    was changed durably. *)

From stdpp Require Import functions sorting.
From S2P Require Import Prelude Common Bytes Record RecordPage PreparedTxn LogRecord LogFormat DiskManager FsmReplay LogReplay LogManager LogBuffer Redo LogStream ReplayOrder ReplayRead ReplayStart.

#[local] Arguments le : simpl never.

Abbreviation node_of x := (log_node_id_ (hdr x)).

Record Sys := mkSys {
  nodes : Z → LogBuffer;
  sent : Z → option buffer;             (* LogWrite requests on their way *)
  storage : LogManager;
  hist : PageKey → list LogRecord;      (* the changes of every page, in order *)
  durable : Z → list LogRecord          (* the records in the file of every node *)
}.

Definition replay (s : Sys) : LogReplay := log_replay_ (storage s).

(** The records of a request that the storage node has not answered to. *)
Definition in_flight (s : Sys) (n : Z) : list LogRecord :=
  match sent s n with
  | Some _ => default [] (log_flushing_ (nodes s n))
  | None => []
  end.

(** All records of a node, in the order in which it has made them. *)
Definition logged (s : Sys) (n : Z) : list LogRecord :=
  durable s n ++ in_flight s n ++ log_records (nodes s n).

(** The calls by which a node logs a change of a page that it has with the header
    [h], and the records they make before these are numbered. *)
Inductive page_call (n : Z) (h : RmPageHdr) : LogRecord → MB (Z * RmPageHdr) → Prop :=
  | call_update tx name item value key rid ts :
      page_call n h
        (new_UpdateLogRecord 0 n tx
           (mkRecord (pri_key key)
              ((if ts =? 0 then item else splice offsetof_commitTimeStamp (le 8 ts) item) ++ value)) rid name None)
        (AddUpdateLog n tx name item value key rid h ts)
  | call_lock tx table name rid lock ts holder owner :
      page_call n h (new_LockLogRecord 0 n tx table name rid lock ts (holder mod 256) (owner mod 256))
        (AddLockLog n tx table name rid lock h ts holder owner)
  | call_delete tx table name page slot :
      page_call n h (new_DeleteLogRecord 0 n tx table name page slot)
        (AddDeleteLog n tx table name page slot h)
  | call_insert tx name item value key rid :
      page_call n h
        (new_InsertLogRecord 0 n tx (mkRecord (pri_key key) (item ++ value)) (page_no_ rid) (slot_no_ rid) name)
        (AddInsertLog n tx name item value key rid h).

Section system.
Context `{RequestCodec}.
Context (n0 : nat) (hdrs : gmap path RmFileHdr) (base : gmap PageKey buffer).

(** What a crash of the cluster leaves of the logs: the files, and of every request on
    its way possibly a part. *)
Definition crash_image (s : Sys) (logs : gmap Z buffer) : Prop := ∀ n,
  len (default [] (logs !! n)) < 2 ^ 64 ∧
  ∃ part, default [] (logs !! n) = wal_file (replay s) n ++ part ∧
    match sent s n with Some bs => part `prefix_of` bs | None => part = [] end.

(** The first records whose encodings lie within [k] bytes. *)
Fixpoint whole (k : nat) (l : list LogRecord) : list LogRecord :=
  match l with
  | [] => []
  | r :: l => if decide (length (encode r) ≤ k)%nat then r :: whole (k - length (encode r)) l else []
  end.

(** The records of a request on its way that are whole in the file of the node. *)
Definition survivors (s : Sys) (logs : gmap Z buffer) (n : Z) : list LogRecord :=
  whole (length (default [] (logs !! n)) - length (wal_file (replay s) n)) (in_flight s n).

(** After a crash the compute nodes start anew; what is not in the logs is lost. *)
Definition surviving (s : Sys) (logs : gmap Z buffer) (n : Z) : list LogRecord :=
  durable s n ++ survivors s logs n.

Definition restarted (s : Sys) (logs : gmap Z buffer) (r : LogReplay) : Sys :=
  mkSys (λ _, new_LogBuffer true) (λ _, None) (mkLM ∅ r)
    (λ key, filter (λ x, x ∈ surviving s logs (node_of x)) (hist s key)) (surviving s logs).

(** The process of the storage node as it starts. *)
Definition boot (s : Sys) (logs : gmap Z buffer) (other : gmap Z path) (direct : bool) (names : gmap Z path)
    : LogReplay :=
  new_LogReplay (new_DiskManager (files (disk_manager_ (replay s))) other direct) logs
    (sql_mode (replay s)) (db_tables (replay s)) names.

(** The steps that change no page: other records, flushes, and what the storage node does. *)
Inductive quiet_step (s : Sys) : Sys → Prop :=
  | step_meta n x lsn b' :
      0 ≤ n → harmless x → current_llsn_ (nodes s n) + 1 < 2 ^ 64 →
      AddMetadataLog x (nodes s n) = Done (lsn, b') →
      loggable n (set_lsns (prev_lsn_ (hdr x)) lsn x) →
      quiet_step s (mkSys (<[n := b']> (nodes s)) (sent s) (storage s) (hist s) (durable s))
  | step_take n bs b' :
      LogFlush_take (nodes s n) = Done (Some bs, b') →
      quiet_step s (mkSys (<[n := b']> (nodes s)) (<[n := Some bs]> (sent s)) (storage s) (hist s) (durable s))
  | step_append n bs m' :
      sent s n = Some bs → len (wal_file (replay s) n) + len bs < 2 ^ 64 →
      AppendAndSync bs (storage s) = Done (tt, m') →
      quiet_step s (mkSys (nodes s) (<[n := None]> (sent s)) m' (hist s)
                (<[n := durable s n ++ in_flight s n]> (durable s)))
  | step_answered n b' :
      sent s n = None → LogFlush_done (nodes s n) = Done (tt, b') →
      quiet_step s (mkSys (<[n := b']> (nodes s)) (sent s) (storage s) (hist s) (durable s))
  | step_read now depth n b r' :
      ReadStream now depth n (replay s) = Done (b, r') →
      quiet_step s (mkSys (nodes s) (sent s) (set_replay r' (storage s)) (hist s) (durable s))
  | step_wait key target b r' :
      is_Some (base !! key) → WaitForPage key.1 key.2 target (replay s) = Done (b, r') →
      quiet_step s (mkSys (nodes s) (sent s) (set_replay r' (storage s)) (hist s) (durable s)).

Inductive step (s : Sys) : Sys → Prop :=
  | step_log n key fh pg0 pg pg' h x call lsn h' b' :
      0 ≤ n → base !! key = Some pg0 → hdrs !! key.1 = Some fh →
      redo_all fh (hist s key) pg0 = Done (tt, pg) →
      page_call n h x call → LLSN_ h = page_LLSN pg →
      current_llsn_ (nodes s n) + 1 < 2 ^ 64 →
      call (nodes s n) = Done ((lsn, h'), b') →
      let r := set_lsns (LLSN_ h) lsn x in
      PageForLog r = Some key → redo fh r pg = Done (tt, pg') → loggable n r →
      (∀ y, y ∈ hist s key → y ∈ durable s (node_of y) ∨ node_of y = n) →
      step s (mkSys (<[n := b']> (nodes s)) (sent s) (storage s)
                (<[key := hist s key ++ [r]]> (hist s)) (durable s))
  | step_quiet s' : quiet_step s s' → step s s'
  | step_crash now depth logs other direct names order r' :
      crash_image s logs → (size (dom other) ≤ n0)%nat → order ≡ₚ elements (dom logs) →
      start now depth order (boot s logs other direct names) = Done (tt, r') →
      step s (restarted s logs r').

(** A cluster that has just been set up. *)
Definition initial (d : DiskManager) (sql : bool) (tables : gset path) (names : gmap Z path) : Sys :=
  mkSys (λ _, new_LogBuffer true) (λ _, None) (mkLM ∅ (new_LogReplay d ∅ sql tables names))
    (λ _, []) (λ _, []).

Record set_up (s : Sys) : Prop := {
  su_initial : ∃ d sql tables names, s = initial d sql tables names;
  su_disk : disk_ok n0 hdrs (replay s);
  su_base key pg0 : base !! key = Some pg0 →
    page_at (replay s) key = Some pg0 ∧ is_Some (hdrs !! key.1) ∧ key.2 ≠ 0
}.

Definition reachable (s : Sys) : Prop := ∃ s0, set_up s0 ∧ star step s0 s.
End system.

Lemma whole_prefix k l : whole k l `prefix_of` l.
Proof.
  revert k. induction l as [|r l IH]; intros k; simpl; [done|]. case_decide; [|apply prefix_nil].
  by apply prefix_cons.
Qed.

Lemma take_whole `{RequestCodec} node k l : Forall (loggable node) l →
  ∃ p, take k (encodes l) = encodes (whole k l) ++ p ∧ torn node p.
Proof.
  intros Hf. revert k. induction Hf as [|r l Lr Hf IH]; intros k; cbn [whole].
  - exists []. rewrite encodes_nil, take_nil. split; [done|by left].
  - rewrite encodes_cons. case_decide as Hk.
    + destruct (IH (k - length (encode r))%nat) as (p & E & Hp). exists p. split; [|done].
      by rewrite encodes_cons, take_app_ge, E, app_assoc by done.
    + exists (take k (encode r)). rewrite take_app_le by lia. split; [done|]. right.
      exists r, (drop k (encode r)). split; [done|]. split; [by rewrite take_drop|].
      intros Hd. apply (f_equal length) in Hd. rewrite length_drop in Hd. cbn [length] in Hd. lia.
Qed.

(** ** The log of a compute node *)

Record ready (b : LogBuffer) : Prop := {
  rd_generate : generate_log_ b = true;
  rd_mutex : log_mtx b = false;
  rd_current : 0 ≤ current_llsn_ b
}.

Definition next_lsn (b : LogBuffer) (old : Z) : Z :=
  if current_llsn_ b + 1 <=? old then u64 (old + 1) else current_llsn_ b + 1.

Definition queued (b : LogBuffer) (x : LogRecord) (lsn : Z) : LogBuffer :=
  set_records (log_records b ++ [x]) (set_current (Z.max (current_llsn_ b + 1) lsn) b).

Lemma wp_generate_next_llsn b (Q : Z → LogBuffer → Prop) :
  0 ≤ current_llsn_ b → current_llsn_ b + 1 < 2 ^ 64 →
  Q (current_llsn_ b + 1) (set_current (current_llsn_ b + 1) b) → wp generate_next_llsn Q b.
Proof.
  intros H0 H1 HQ. unfold generate_next_llsn. wp_step. wp_step. rewrite u64_small by lia. by do 3 wp_step.
Qed.

Lemma wp_AddToLogNoBlock b x (Q : unit → LogBuffer → Prop) :
  generate_log_ b = true → log_mtx b = true →
  Q tt (set_log_mtx false (set_records (log_records b ++ [x]) b)) → wp (AddToLogNoBlock x) Q b.
Proof.
  intros Hg Hm HQ. unfold AddToLogNoBlock. wp_step. wp_step. rewrite Hg. cbn [negb]. wp_step. wp_step.
  by apply wp_mutex_unlock.
Qed.

(** The header of a page with its next version. *)
Definition next_hdr (h : RmPageHdr) (lsn : Z) : RmPageHdr :=
  mkPageHdr (next_free_page_no_ h) (num_records_ h) lsn (LLSN_ h).

Lemma wp_add_page_log b x h (Q : Z * RmPageHdr → LogBuffer → Prop) :
  ready b → current_llsn_ b + 1 < 2 ^ 64 →
  (let lsn := next_lsn b (LLSN_ h) in
   Q (lsn, next_hdr h lsn) (queued b (set_lsns (LLSN_ h) lsn x) lsn)) →
  wp (add_page_log x h) Q b.
Proof.
  intros [Hg Hm H0] Hb HQ. cbv zeta in HQ. unfold next_lsn in HQ.
  unfold add_page_log, UpdatePageLLSN, update_page_llsn. wp_step. wp_step.
  apply wp_mutex_lock; [done|]. wp_step. apply wp_generate_next_llsn; [done..|]. simpl.
  assert (∀ c, current_llsn_ b + 1 ≤ c → ∀ lsn, lsn = next_lsn b (LLSN_ h) → c = Z.max (current_llsn_ b + 1) lsn →
    wp (AddToLogNoBlock (set_lsns (LLSN_ h) lsn x) ;; mret (lsn, next_hdr h lsn)) Q (set_current c (set_log_mtx true b))) as Hend.
  { intros c Hc lsn -> ->. wp_step. apply wp_AddToLogNoBlock; [done|done|]. wp_step.
    unfold queued, next_lsn in *. destruct b; simpl in *; subst. exact HQ. }
  unfold next_lsn in Hend.
  destruct (Z.leb_spec (current_llsn_ b + 1) (LLSN_ h)); cbn [when].
  - wp_step. unfold advance_llsn. wp_step. wp_step. wp_step.
    + wp_step. wp_step. match goal with E : (_ <? _) = true |- _ => apply Z.ltb_lt in E; simpl in E end.
      apply (Hend (u64 (LLSN_ h + 1))); [lia|done|lia].
    + wp_step. match goal with E : (_ <? _) = false |- _ => apply Z.ltb_ge in E; simpl in E end.
      apply (Hend (current_llsn_ b + 1)); [lia|done|lia].
  - wp_step. wp_step. apply (Hend (current_llsn_ b + 1)); [lia|done|lia].
Qed.

Lemma page_call_done n h x call b lsn h' b' :
  page_call n h x call → ready b → current_llsn_ b + 1 < 2 ^ 64 → call b = Done ((lsn, h'), b') →
  lsn = next_lsn b (LLSN_ h) ∧ b' = queued b (set_lsns (LLSN_ h) lsn x) lsn.
Proof.
  intros Hcall Hr Hb Hdone.
  destruct (wp_inv (add_page_log x h) (λ a b', ∃ h', a = (next_lsn b (LLSN_ h), h') ∧
    b' = queued b (set_lsns (LLSN_ h) (next_lsn b (LLSN_ h)) x) (next_lsn b (LLSN_ h))) b) as (a & b1 & Hrun & h1 & -> & ->).
  { apply wp_add_page_log; [done|done|]. cbv zeta. eauto. }
  assert (call b = add_page_log x h b ∨ call b = Crash (AssertFailed 942)) as [E|E].
  { destruct Hcall; [|by left..]. unfold AddUpdateLog. rewrite (run_bind _ _ _ _ _ Hrun), Hrun.
    unfold check. destruct (0 <? next_lsn b (LLSN_ h)); [by left|by right]. }
  - rewrite Hrun in E. rewrite E in Hdone. by injection Hdone as <- _ <-.
  - by rewrite E in Hdone.
Qed.

Lemma AddMetadataLog_done x b lsn b' :
  ready b → current_llsn_ b + 1 < 2 ^ 64 → AddMetadataLog x b = Done (lsn, b') →
  lsn = current_llsn_ b + 1 ∧ b' = queued b (set_lsns (prev_lsn_ (hdr x)) lsn x) lsn.
Proof.
  intros [Hg Hm H0] Hb Hdone.
  assert (wp (AddMetadataLog x) (λ a b', a = current_llsn_ b + 1 ∧
    b' = queued b (set_lsns (prev_lsn_ (hdr x)) (current_llsn_ b + 1) x) (current_llsn_ b + 1)) b) as Hwp.
  { unfold AddMetadataLog. wp_step. wp_step. rewrite Hg. cbn [negb]. wp_step.
    apply wp_mutex_lock; [done|]. wp_step. apply wp_generate_next_llsn; [done..|]. wp_step.
    apply wp_AddToLogNoBlock; [done|done|]. wp_step. split; [done|].
    unfold queued. rewrite Z.max_id. destruct b; simpl in *; by subst. }
  eapply wp_run in Hwp; [|exact Hdone]. destruct Hwp as [-> ->]. done.
Qed.
