(* ===== verification/ReplayInv.v ===== *)
(** The invariant of write-ahead logging: every reachable state of [ReplaySystem]
    satisfies [sys_inv]. *)

From stdpp Require Import functions sorting.
From S2P Require Import Prelude Common Bytes Record RecordPage PreparedTxn LogRecord LogFormat DiskManager FsmReplay LogReplay LogManager LogBuffer Redo LogStream ReplayOrder ReplayRead ReplayStart ReplaySystem.

#[local] Arguments le : simpl never.
#[local] Arguments replicate : simpl never.
#[local] Arguments Z.to_nat : simpl never.

Section inv.
Context `{RequestCodec}.
Context (n0 : nat) (hdrs : gmap path RmFileHdr) (base : gmap PageKey buffer).

(** ** One more record *)

Lemma history_ok_snoc key fh pg0 l x pg pg' :
  history_ok key fh pg0 l → redo_all fh l pg0 = Done (tt, pg) →
  PageForLog x = Some key → uint_fits 8 (lsn_ (hdr x)) → redo fh x pg = Done (tt, pg') →
  history_ok key fh pg0 (l ++ [x]).
Proof using.
  intros [H1 H2 H3] Hpg Hk Hl Hx. split.
  - intros y [Hy| ->%list_elem_of_singleton]%elem_of_app; auto.
  - intros y [Hy| ->%list_elem_of_singleton]%elem_of_app; auto.
  - exists pg'. by eapply redo_all_snoc.
Qed.

Lemma history_ok_take key fh pg0 l k : (k ≤ length l)%nat → history_ok key fh pg0 l → history_ok key fh pg0 (take k l).
Proof using.
  intros Hk Hl. destruct (history_page key fh pg0 l Hl k Hk) as (pg & Hpg & _). destruct Hl as [H1 H2 _]. split.
  - intros x Hx. apply H1. rewrite <- (take_drop k l). set_solver.
  - intros x Hx. apply H2. rewrite <- (take_drop k l). set_solver.
  - by exists pg.
Qed.

Lemma histories_ok_log hist key fh pg0 x pg pg' :
  histories_ok hdrs base hist → base !! key = Some pg0 → hdrs !! key.1 = Some fh →
  redo_all fh (hist key) pg0 = Done (tt, pg) → redo fh x pg = Done (tt, pg') →
  PageForLog x = Some key → uint_fits 8 (lsn_ (hdr x)) →
  histories_ok hdrs base (<[key := hist key ++ [x]]> hist).
Proof using.
  intros [H1 H2] Hb Hh Hpg Hx Hk Hl. split; [done|]. intros k p f Hb' Hh'.
  destruct (decide (key = k)) as [<-|Hne].
  - simplify_eq. rewrite fn_lookup_insert. eapply history_ok_snoc; eauto.
  - rewrite fn_lookup_insert_ne by done. eauto.
Qed.

Lemma logs_ok_ext hist L L' : (∀ n, L' n = L n) → logs_ok base hist L → logs_ok base hist L'.
Proof using.
  intros E [H1 H2 H3 H4]. split; intros n; rewrite E; [apply H1|apply H2|apply H3|apply H4].
Qed.

Lemma logs_ok_log hist L L' n key x :
  logs_ok base hist L → L' n = L n ++ [x] → (∀ m, m ≠ n → L' m = L m) →
  loggable n x → PageForLog x = Some key → is_Some (base !! key) →
  logs_ok base (<[key := hist key ++ [x]]> hist) L'.
Proof using.
  intros [H1 H2 H3 H4] En Em Lx Hk Hb.
  assert (∀ k y, y ∈ hist k → y ∈ (<[key := hist key ++ [x]]> hist : PageKey → list LogRecord) k) as Hmono.
  { intros k y Hy. destruct (decide (key = k)) as [<-|].
    - rewrite fn_lookup_insert. set_solver.
    - by rewrite fn_lookup_insert_ne. }
  split.
  - intros m. destruct (decide (m = n)) as [->|Hm]; [|by rewrite Em]. rewrite En. apply Forall_app. by rewrite Forall_singleton.
  - intros m y k Hy Hyk. destruct (decide (m = n)) as [->|Hm]; [|rewrite Em in Hy by done; destruct (H2 _ _ _ Hy Hyk); auto].
    rewrite En in Hy. apply elem_of_app in Hy as [Hy| ->%list_elem_of_singleton]; [destruct (H2 _ _ _ Hy Hyk); auto|].
    assert (k = key) as -> by congruence. split; [done|]. rewrite fn_lookup_insert. set_solver.
  - intros m y Hy Hyk. destruct (decide (m = n)) as [->|Hm]; [|rewrite Em in Hy by done; eauto].
    rewrite En in Hy. apply elem_of_app in Hy as [Hy| ->%list_elem_of_singleton]; [eauto|congruence].
  - intros m k. destruct (decide (key = k)) as [<-|Hne].
    + rewrite fn_lookup_insert, filter_app. destruct (decide (m = n)) as [->|Hm].
      * rewrite En, filter_app, H4. f_equal. rewrite !filter_cons_True; [done|apply Lx|done].
      * rewrite Em, H4 by done. rewrite filter_cons_False; [by rewrite filter_nil, app_nil_r|].
        rewrite (lg_node _ _ Lx). congruence.
    + rewrite fn_lookup_insert_ne by done. destruct (decide (m = n)) as [->|Hm].
      * rewrite En, filter_app, H4. rewrite filter_cons_False by congruence. by rewrite filter_nil, app_nil_r.
      * by rewrite Em, H4.
Qed.

Lemma logs_ok_meta hist L L' n x :
  logs_ok base hist L → L' n = L n ++ [x] → (∀ m, m ≠ n → L' m = L m) →
  loggable n x → harmless x → logs_ok base hist L'.
Proof using.
  intros [H1 H2 H3 H4] En Em Lx Hx.
  assert (PageForLog x = None) as Hk by (unfold PageForLog, harmless in *; by destruct (body x)).
  split.
  - intros m. destruct (decide (m = n)) as [->|Hm]; [|by rewrite Em]. rewrite En. apply Forall_app. by rewrite Forall_singleton.
  - intros m y k Hy Hyk. destruct (decide (m = n)) as [->|Hm]; [|rewrite Em in Hy by done; eauto].
    rewrite En in Hy. apply elem_of_app in Hy as [Hy| ->%list_elem_of_singleton]; [eauto|congruence].
  - intros m y Hy Hyk. destruct (decide (m = n)) as [->|Hm]; [|rewrite Em in Hy by done; eauto].
    rewrite En in Hy. apply elem_of_app in Hy as [Hy| ->%list_elem_of_singleton]; [eauto|done].
  - intros m k. destruct (decide (m = n)) as [->|Hm]; [|by rewrite Em].
    rewrite En, filter_app, H4. rewrite filter_cons_False by congruence. by rewrite filter_nil, app_nil_r.
Qed.

(** The replay does not notice a record that it has not read. *)
Lemma replay_ok_log hist ever seen r key x :
  replay_ok n0 hdrs base hist ever seen r → histories_ok hdrs base (<[key := hist key ++ [x]]> hist) →
  ¬ seen x → replay_ok n0 hdrs base (<[key := hist key ++ [x]]> hist) ever seen r.
Proof using.
  intros [H1 H2 H3 H4 H5 H6] Hh' Hs. split; try done. intros k pg0 fh _ Hb Hh.
  destruct (H2 k pg0 fh ltac:(tauto) Hb Hh) as (m & [P1 P2 P3 PE P4] & Hm).
  pose proof (hs_history _ _ _ Hh' k pg0 fh Hb Hh) as Hl. unfold page_ok.
  destruct (decide (key = k)) as [<-|Hne].
  2:{ rewrite fn_lookup_insert_ne in Hl by done. exists m.
      split; [split|]; rewrite ?fn_lookup_insert_ne by done; try done.
      all: intros *; rewrite fn_lookup_insert_ne by done; eauto. }
  rewrite fn_lookup_insert in Hl. exists m. split; [split|]; rewrite ?fn_lookup_insert.
  - rewrite length_app. lia.
  - by rewrite take_app_le.
  - intros i y Hi Hmi.
    apply lookup_app_Some in Hi as Hi'. destruct Hi' as [Hi'|[Hge Hi']]; [by apply (P3 i)|].
    apply list_lookup_singleton_Some in Hi' as [Hi0 <-]. split; [done|]. intros Hq.
    destruct (P4 _ _ Hq) as (_ & j & Hj & Hjx).
    assert (i = j); [|apply lookup_lt_Some in Hjx; lia].
    apply (history_inj _ _ _ _ Hl i j x x); [done| |done]. by apply lookup_app_l_Some.
  - intros i y Hi Him. rewrite lookup_app_l in Hi by lia. eauto.
  - intros p y Hq. destruct (P4 _ _ Hq) as (? & i & ? & ?). split; [done|]. exists i. split; [done|].
    by apply lookup_app_l_Some.
  - intros y Hy. apply lookup_app_Some in Hy as [Hy|[_ Hy]]; [by apply Hm|].
    by apply list_lookup_singleton_Some in Hy as [_ <-].
Qed.

(** ** The invariant *)

(** A node's records that are not durable have numbers above all that it takes for
    durable; a later record has a greater number than those of the request. *)
Record node_ok (b : LogBuffer) (req : option buffer) (dur : list LogRecord) : Prop := {
  nk_ready : ready b;
  nk_persist : persist_lsn b ≤ current_llsn_ b;
  nk_queue x : x ∈ log_records b → persist_lsn b < lsn_ (hdr x) ≤ current_llsn_ b;
  nk_idle : log_flushing_ b = None → req = None;
  nk_flush logs : log_flushing_ b = Some logs →
    logs ≠ [] ∧ (∀ x, x ∈ logs → lsn_ (hdr x) ≤ current_llsn_ b) ∧
    (∀ x y, x ∈ logs → y ∈ log_records b → lsn_ (hdr x) < lsn_ (hdr y)) ∧
    match req with
    | Some bs => bs = encodes logs ∧ ∀ x, x ∈ logs → persist_lsn b < lsn_ (hdr x)
    | None => ∀ x, x ∈ logs → x ∈ dur
    end
}.

Record sys_inv (s : Sys) : Prop := {
  si_node n : node_ok (nodes s n) (sent s n) (durable s n);
  si_nonneg n : logged s n ≠ [] → 0 ≤ n;
  si_hist : histories_ok hdrs base (hist s);
  si_logs : logs_ok base (hist s) (logged s);
  si_wal : wal_rule (hist s) (durable s);
  si_lm n e : lm_streams (storage s) !! n = Some e →
    e = len (wal_file (replay s) n) ∧ is_Some (streams_ (replay s) !! n);
  si_replay : ∃ reads, replay_inv n0 hdrs base (hist s) (durable s) reads (replay s)
}.

Lemma durable_prefix s n : durable s n `prefix_of` logged s n.
Proof using. by eexists. Qed.

(** A node queues a record. *)
Lemma node_ok_queued b req dur x lsn :
  node_ok b req dur → lsn_ (hdr x) = lsn → current_llsn_ b < lsn → node_ok (queued b x lsn) req dur.
Proof using.
  intros [H1 H2 H3 H4 H5] Hx Hl. unfold queued. pose proof (rd_current _ H1). split; simpl; try done.
  - destruct H1. split; simpl; try done. lia.
  - lia.
  - intros y [Hy| ->%list_elem_of_singleton]%elem_of_app; [destruct (H3 _ Hy)|]; lia.
  - intros logs E. destruct (H5 _ E) as (Ha & Hb & Hc & Hd). split; [done|]. split; [intros y Hy; specialize (Hb y Hy); lia|].
    split; [|done]. intros y z Hy [Hz| ->%list_elem_of_singleton]%elem_of_app; [by apply Hc|].
    specialize (Hb y Hy). lia.
Qed.

Lemma logged_queued s n x lsn s' :
  s' = mkSys (<[n := queued (nodes s n) x lsn]> (nodes s)) (sent s) (storage s) (hist s') (durable s) →
  logged s' n = logged s n ++ [x] ∧ ∀ m, m ≠ n → logged s' m = logged s m.
Proof using.
  intros E. unfold logged, in_flight. rewrite E. simpl. split.
  - rewrite fn_lookup_insert. simpl. by rewrite !app_assoc.
  - intros m Hm. by rewrite fn_lookup_insert_ne by done.
Qed.

Lemma node_ok_insert (nodes : Z → LogBuffer) (sent : Z → option buffer) (dur : Z → list LogRecord) n b :
  (∀ m, node_ok (nodes m) (sent m) (dur m)) → node_ok b (sent n) (dur n) →
  ∀ m, node_ok ((<[n := b]> nodes : Z → LogBuffer) m) (sent m) (dur m).
Proof using.
  intros Hall Hb m. destruct (decide (n = m)) as [<-|]; [by rewrite fn_lookup_insert|by rewrite fn_lookup_insert_ne].
Qed.

(** ** Logging *)

Lemma next_lsn_cases b old :
  next_lsn b old = current_llsn_ b + 1 ∧ old < current_llsn_ b + 1 ∨
  next_lsn b old = u64 (old + 1) ∧ current_llsn_ b + 1 ≤ old.
Proof using.
  unfold next_lsn. destruct (Z.leb_spec (current_llsn_ b + 1) old); [right|left]; done.
Qed.

(** A record that follows its page's version is numbered above all of the node's. *)
Lemma next_lsn_above b old : 0 ≤ current_llsn_ b → uint_fits 8 old → old < next_lsn b old →
  current_llsn_ b < next_lsn b old.
Proof using.
  intros H0 Hf Hlt. destruct (next_lsn_cases b old) as [[-> ?]|[E ?]]; [lia|].
  unfold uint_fits in Hf. change (2 ^ (8 * Z.of_nat 8)) with (2 ^ 64) in Hf.
  destruct (decide (old + 1 < 2 ^ 64)) as [Hb|Hb]; [rewrite E, u64_small; lia|].
  rewrite E in Hlt. replace (old + 1) with (2 ^ 64) in Hlt by lia. unfold u64 in Hlt.
  rewrite Z.mod_same in Hlt; lia.
Qed.

Lemma preserves_log s s' n key fh pg0 pg pg' h x call lsn h' b' :
  sys_inv s → 0 ≤ n → base !! key = Some pg0 → hdrs !! key.1 = Some fh →
  redo_all fh (hist s key) pg0 = Done (tt, pg) → page_call n h x call → 
  current_llsn_ (nodes s n) + 1 < 2 ^ 64 → call (nodes s n) = Done ((lsn, h'), b') →
  let r := set_lsns (LLSN_ h) lsn x in
  PageForLog r = Some key → redo fh r pg = Done (tt, pg') → loggable n r →
  (∀ y, y ∈ hist s key → y ∈ durable s (node_of y) ∨ node_of y = n) →
  s' = mkSys (<[n := b']> (nodes s)) (sent s) (storage s) (<[key := hist s key ++ [r]]> (hist s)) (durable s) →
  sys_inv s'.
Proof using.
  intros [I1 I2 I3 I4 I5 I6 [reads I7]] Hn Hb Hh Hpg Hcall Hcur Hdone r Hk Hredo Lr Hheld ->.
  pose proof (I1 n) as Hnode. pose proof (nk_ready _ _ _ Hnode) as Hrd.
  destruct (page_call_done _ _ _ _ _ _ _ _ Hcall Hrd Hcur Hdone) as [Hlsn ->]. fold r.
  assert (header_fits (hdr r)) as Hfit by apply Lr. destruct Hfit as (_ & Hfl & _ & _ & _ & Hfp).
  assert (uint_fits 8 (LLSN_ h)) as HfL by exact Hfp. assert (uint_fits 8 lsn) as Hfl' by exact Hfl.
  assert (LLSN_ h < lsn) as Hlt.
  { assert (PageForLog r ≠ None) as Hne by congruence.
    by destruct (redo_page fh r pg pg' Hne Hfl Hredo) as (_ & _ & ? & _). }
  assert (current_llsn_ (nodes s n) < lsn) as Habove.
  { rewrite Hlsn in Hlt |- *. apply next_lsn_above; [apply Hrd|done|done]. }
  assert (histories_ok hdrs base (<[key:=hist s key ++ [r]]> (hist s))) as Hhist.
  { eapply histories_ok_log; eauto. }
  destruct (logged_queued s n r lsn (mkSys (<[n := queued (nodes s n) r lsn]> (nodes s)) (sent s) (storage s)
    (<[key := hist s key ++ [r]]> (hist s)) (durable s)) eq_refl) as [Hln Hlm].
  split; simpl.
  - apply node_ok_insert; [done|]. by apply node_ok_queued.
  - intros m. destruct (decide (m = n)) as [->|Hm]; [done|]. rewrite Hlm by done. apply I2.
  - done.
  - eapply logs_ok_log; [exact I4|exact Hln|exact Hlm|done|done|by eexists].
  - intros k i j y z. destruct (decide (key = k)) as [<-|Hne]; [|rewrite fn_lookup_insert_ne by done; apply I5].
    rewrite fn_lookup_insert. intros Hi Hj Hij.
    assert (i < length (hist s key))%nat as Hil.
    { apply lookup_lt_Some in Hj. rewrite length_app in Hj. simpl in Hj. lia. }
    rewrite lookup_app_l in Hi by done.
    apply lookup_app_Some in Hj as [Hj|[_ [_ <-]%list_lookup_singleton_Some]]; [by eapply I5|].
    rewrite (lg_node _ _ Lr). apply list_elem_of_lookup_2 in Hi. destruct (Hheld y Hi) as [?|?]; [by left|right; congruence].
  - done.
  - exists reads. destruct I7 as [R1 R2 R3 R4 R5 R6]. split; try done. apply replay_ok_log; [done|done|].
    cbv beta. rewrite (lg_node _ _ Lr). intros Hin.
    assert (r ∈ logged s n) as Hlog.
    { destruct (R5 n) as [k1 E1]. destruct (durable_prefix s n) as [k2 E2]. rewrite E2, E1. set_solver. }
    destruct (lo_page _ _ _ I4 n r key Hlog Hk) as [_ Hin'].
    pose proof (history_NoDup _ _ _ _ (hs_history _ _ _ Hhist key pg0 fh Hb Hh)) as Hnd.
    rewrite fn_lookup_insert in Hnd. apply NoDup_app in Hnd as (_ & Hnd & _). apply (Hnd r Hin'). left.
Qed.

Lemma preserves_meta s s' n x lsn b' :
  sys_inv s → 0 ≤ n → harmless x → current_llsn_ (nodes s n) + 1 < 2 ^ 64 →
  AddMetadataLog x (nodes s n) = Done (lsn, b') → loggable n (set_lsns (prev_lsn_ (hdr x)) lsn x) →
  s' = mkSys (<[n := b']> (nodes s)) (sent s) (storage s) (hist s) (durable s) → sys_inv s'.
Proof using.
  intros [I1 I2 I3 I4 I5 I6 I7] Hn Hx Hcur Hdone Lr ->.
  pose proof (I1 n) as Hnode. pose proof (nk_ready _ _ _ Hnode) as Hrd.
  destruct (AddMetadataLog_done _ _ _ _ Hrd Hcur Hdone) as [Hlsn ->].
  set (r := set_lsns (prev_lsn_ (hdr x)) lsn x) in *.
  destruct (logged_queued s n r lsn (mkSys (<[n := queued (nodes s n) r lsn]> (nodes s)) (sent s) (storage s)
    (hist s) (durable s)) eq_refl) as [Hln Hlm].
  split; simpl; try done.
  - apply node_ok_insert; [done|]. apply node_ok_queued; [done|done|lia].
  - intros m. destruct (decide (m = n)) as [->|Hm]; [done|]. rewrite Hlm by done. apply I2.
  - eapply logs_ok_meta; [exact I4|exact Hln|exact Hlm|done|exact Hx].
Qed.

(** ** Flushing *)

Lemma LogFlush_take_done b bs b' :
  ready b → LogFlush_take b = Done (Some bs, b') →
  log_flushing_ b = None ∧ log_records b ≠ [] ∧
  b' = set_flushing (Some (log_records b)) (set_records [] b) ∧
  (Forall wf (log_records b) → bs = encodes (log_records b)).
Proof using.
  intros [Hg Hm H0] Hdone.
  assert (log_flushing_ b = None) as Hf.
  { destruct (log_flushing_ b) eqn:E; [|done]. unfold LogFlush_take, mbind, M_bind, gets in Hdone. by rewrite E in Hdone. }
  assert (∃ logs, log_records b = logs ∧ match logs with
    | [] => LogFlush_take b = Done (None, set_records [] b)
    | _ => LogFlush_take b =
        match serialize_batch logs with
        | Done (_, bs) => Done (Some bs, set_flushing (Some logs) (set_records [] b))
        | Blocked => Blocked
        | Crash e => Crash e
        end
    end) as (logs & El & Hrun).
  { exists (log_records b). split; [done|].
    unfold LogFlush_take. unfold mbind, M_bind, gets, modify, mutex_lock, mutex_unlock. rewrite Hf. cbn -[serialize_batch].
    rewrite Hg. cbn -[serialize_batch]. rewrite Hm. cbn -[serialize_batch]. destruct b; simpl in *; subst.
    destruct log_records; cbn -[serialize_batch]; [done|].
    by destruct (serialize_batch (l :: log_records)) as [[u b2]| |]. }
  rewrite Hdone in Hrun. destruct logs as [|x l]; [done|]. rewrite El.
  destruct (serialize_batch (x :: l)) as [[u b2]| |] eqn:Es; [|done..]. injection Hrun as -> ->.
  split_and!; try done. intros Hwf. rewrite serialize_batch_ok in Es by done. by injection Es.
Qed.

Lemma loggable_queue s n : sys_inv s → Forall (loggable n) (log_records (nodes s n)).
Proof using.
  intros Hs. pose proof (lo_loggable _ _ _ (si_logs _ Hs) n) as Hf. unfold logged in Hf.
  apply Forall_app in Hf as [_ Hf]. by apply Forall_app in Hf as [_ Hf].
Qed.

Lemma loggable_in_flight s n : sys_inv s → Forall (loggable n) (in_flight s n).
Proof using.
  intros Hs. pose proof (lo_loggable _ _ _ (si_logs _ Hs) n) as Hf. unfold logged in Hf.
  apply Forall_app in Hf as [_ Hf]. by apply Forall_app in Hf as [Hf _].
Qed.

Lemma loggable_wf n l : Forall (loggable n) l → Forall wf l.
Proof using. intros Hf. eapply Forall_impl; [exact Hf|]. intros x Hx. apply Hx. Qed.

Lemma preserves_take s s' n bs b' :
  sys_inv s → LogFlush_take (nodes s n) = Done (Some bs, b') →
  s' = mkSys (<[n := b']> (nodes s)) (<[n := Some bs]> (sent s)) (storage s) (hist s) (durable s) → sys_inv s'.
Proof using.
  intros Hs Hdone ->. pose proof (loggable_queue s n Hs) as Hq. destruct Hs as [I1 I2 I3 I4 I5 I6 I7].
  pose proof (I1 n) as [N1 N2 N3 N4 N5].
  destruct (LogFlush_take_done _ _ _ N1 Hdone) as (Hf & Hne & -> & Hbs). apply loggable_wf, Hbs in Hq as ->.
  assert (∀ m, logged (mkSys (<[n := set_flushing (Some (log_records (nodes s n))) (set_records [] (nodes s n))]> (nodes s))
    (<[n := Some (encodes (log_records (nodes s n)))]> (sent s)) (storage s) (hist s) (durable s)) m = logged s m) as Hlog.
  { intros m. unfold logged, in_flight. simpl. destruct (decide (n = m)) as [<-|].
    - rewrite !fn_lookup_insert. simpl. rewrite (N4 Hf), app_nil_r. done.
    - by rewrite !fn_lookup_insert_ne. }
  split; simpl; try done.
  - intros m. destruct (decide (n = m)) as [<-|]; [|by rewrite !fn_lookup_insert_ne].
    rewrite !fn_lookup_insert. split; simpl; try done.
    + by destruct N1.
    + intros x Hx. by apply not_elem_of_nil in Hx.
    + intros logs [= <-]. split; [done|]. split; [intros x Hx; by apply N3|].
      split; [intros x y _ Hy; by apply not_elem_of_nil in Hy|]. split; [done|]. intros x Hx. by apply N3.
  - intros m. rewrite Hlog. apply I2.
  - by eapply logs_ok_ext.
Qed.

Lemma max_lsn_lt logs k : 0 < k → (∀ x, x ∈ logs → lsn_ (hdr x) < k) → max_lsn logs < k.
Proof using.
  unfold max_lsn. intros H0 Hall.
  assert (∀ m, m < k → fold_left (λ m log, if m <? lsn_ (hdr log) then lsn_ (hdr log) else m) logs m < k) as Hf; [|by apply Hf].
  induction logs as [|x l IH]; intros m Hm; simpl; [done|]. apply IH.
  - intros y Hy. apply Hall. by right.
  - case_match; [|done]. apply Hall. left.
Qed.

Lemma preserves_answered s s' n b' :
  sys_inv s → sent s n = None → LogFlush_done (nodes s n) = Done (tt, b') →
  s' = mkSys (<[n := b']> (nodes s)) (sent s) (storage s) (hist s) (durable s) → sys_inv s'.
Proof using.
  intros [I1 I2 I3 I4 I5 I6 I7] Hsent Hdone ->. pose proof (I1 n) as [N1 N2 N3 N4 N5].
  assert (wp LogFlush_done (λ _ b, ∃ p, b = set_flushing None (set_persist p (nodes s n)) ∧
    (p = persist_lsn (nodes s n) ∨ ∃ logs, log_flushing_ (nodes s n) = Some logs ∧ p = max_lsn logs ∧ 0 < p)) (nodes s n)) as Hwp.
  { unfold LogFlush_done. wp_step. wp_step. destruct (log_flushing_ (nodes s n)) as [logs|] eqn:E.
    - wp_step. wp_step. wp_step. wp_step.
      + wp_step. wp_step. exists (max_lsn logs). split; [done|]. right. exists logs. bool_simpl. by split_and!.
      + wp_step. exists (persist_lsn (nodes s n)). split; [by destruct (nodes s n)|by left].
    - wp_step. exists (persist_lsn (nodes s n)). split; [|by left]. destruct (nodes s n). simpl in *. by subst. }
  eapply wp_run in Hwp; [|exact Hdone]. destruct Hwp as (p & -> & Hp). pose proof (rd_current _ N1) as H0.
  assert (p ≤ current_llsn_ (nodes s n) ∧ ∀ x, x ∈ log_records (nodes s n) → p < lsn_ (hdr x)) as [Hpc Hpq].
  { destruct Hp as [->|(logs & E & -> & Hpos)].
    - split; [done|]. intros x Hx. by apply N3.
    - destruct (N5 _ E) as (_ & Hle & Hlt & _). split.
      + assert (max_lsn logs < current_llsn_ (nodes s n) + 1); [|lia]. apply max_lsn_lt; [lia|].
        intros x Hx. specialize (Hle x Hx). lia.
      + intros x Hx. destruct (decide (0 < lsn_ (hdr x))) as [Hx0|Hx0].
        * apply max_lsn_lt; [done|]. intros y Hy. by apply Hlt.
        * assert (max_lsn logs < 1); [|lia]. apply max_lsn_lt; [lia|].
          intros y Hy. specialize (Hlt y x Hy Hx). lia. }
  assert (∀ m, logged (mkSys (<[n := set_flushing None (set_persist p (nodes s n))]> (nodes s))
    (sent s) (storage s) (hist s) (durable s)) m = logged s m) as Hlog.
  { intros m. unfold logged, in_flight. simpl. destruct (decide (n = m)) as [<-|].
    - by rewrite !fn_lookup_insert, Hsent.
    - by rewrite !fn_lookup_insert_ne. }
  split; simpl; try done.
  - apply node_ok_insert; [done|]. split; simpl; try done.
    + by destruct N1.
    + intros x Hx. split; [by apply Hpq|by apply N3].
  - intros m. rewrite Hlog. apply I2.
  - by eapply logs_ok_ext.
Qed.

(** ** Appending *)

Lemma sent_batch s n bs :
  sys_inv s → sent s n = Some bs →
  ∃ logs, log_flushing_ (nodes s n) = Some logs ∧ in_flight s n = logs ∧ bs = encodes logs ∧ logs ≠ [].
Proof using.
  intros Hs Hb. pose proof (si_node _ Hs n) as [N1 N2 N3 N4 N5]. unfold in_flight. rewrite Hb in *.
  destruct (log_flushing_ (nodes s n)) as [logs|] eqn:E; [|by specialize (N4 eq_refl)].
  destruct (N5 _ eq_refl) as (? & _ & _ & -> & _). by exists logs.
Qed.

Lemma wp_append s n bs :
  sys_inv s → sent s n = Some bs → len (wal_file (replay s) n) + len bs < 2 ^ 64 →
  wp (AppendAndSync bs) (λ _ m, m = appended n bs (storage s)) (storage s).
Proof using.
  intros Hs Hb Hl. destruct (sent_batch s n bs Hs Hb) as (logs & Hf & Hin & -> & Hne).
  apply (wp_AppendAndSync n logs); try done.
  - rewrite <- Hin. by apply loggable_in_flight.
  - apply (si_nonneg _ Hs). unfold logged. rewrite Hin. intros E. apply app_eq_nil in E as [_ E].
    by apply app_eq_nil in E as [E _].
  - intros e He. by apply (si_lm _ Hs).
Qed.

Lemma replay_ok_ever hist (ever ever' seen : LogRecord → Prop) r :
  (∀ x, ever x → ever' x) → replay_ok n0 hdrs base hist ever seen r → replay_ok n0 hdrs base hist ever' seen r.
Proof using.
  intros He [H1 H2 H3 H4 H5 H6]. split; try done; [|by auto]. intros k pg0 fh Hn Hb Hh.
  destruct (H2 k pg0 fh Hn Hb Hh) as (m & [P1 P2 P3 PE P4] & Hm). exists m. split; [|done]. split; eauto.
Qed.

Lemma wal_rule_mono hist (D D' : Z → list LogRecord) :
  (∀ n, D n ⊆ D' n) → wal_rule hist D → wal_rule hist D'.
Proof using.
  intros Hd Hw key i j x y Hi Hj Hij. destruct (Hw key i j x y Hi Hj Hij) as [?|?]; [left; by apply Hd|by right].
Qed.

Lemma preserves_append s s' n bs m' :
  sys_inv s → sent s n = Some bs → len (wal_file (replay s) n) + len bs < 2 ^ 64 →
  AppendAndSync bs (storage s) = Done (tt, m') →
  s' = mkSys (nodes s) (<[n := None]> (sent s)) m' (hist s) (<[n := durable s n ++ in_flight s n]> (durable s)) →
  sys_inv s'.
Proof using.
  intros Hs Hb Hl Hdone ->. pose proof (wp_append s n bs Hs Hb Hl) as Hwp.
  eapply wp_run in Hwp; [|exact Hdone]. subst m'.
  destruct (sent_batch s n bs Hs Hb) as (logs & Hf & Hin & -> & Hne).
  destruct Hs as [I1 I2 I3 I4 I5 I6 [reads I7]].
  assert (∀ m, durable s m ⊆ (<[n := durable s n ++ in_flight s n]> (durable s) : Z → list LogRecord) m) as Hsub.
  { intros m. destruct (decide (n = m)) as [<-|]; [rewrite fn_lookup_insert; set_solver|by rewrite fn_lookup_insert_ne]. }
  assert (∀ m, logged (mkSys (nodes s) (<[n := None]> (sent s)) (appended n (encodes logs) (storage s)) (hist s)
    (<[n := durable s n ++ in_flight s n]> (durable s))) m = logged s m) as Hlog.
  { intros m. unfold logged. simpl. destruct (decide (n = m)) as [<-|].
    - rewrite fn_lookup_insert. unfold in_flight at 2. simpl. rewrite fn_lookup_insert. by rewrite <- app_assoc.
    - unfold in_flight. simpl. by rewrite !fn_lookup_insert_ne. }
  split; simpl.
  - intros m. destruct (decide (n = m)) as [<-|]; [|by rewrite !fn_lookup_insert_ne].
    rewrite !fn_lookup_insert. pose proof (I1 n) as [N1 N2 N3 N4 N5]. split; try done.
    intros logs' E. destruct (N5 _ E) as (Ha & Hb' & Hc & _). split_and!; try done.
    assert (logs' = logs) as -> by congruence. rewrite Hin. set_solver.
  - intros m. rewrite Hlog. apply I2.
  - done.
  - by eapply logs_ok_ext.
  - by eapply wal_rule_mono.
  - unfold replay. simpl. intros m e. unfold wal_file. simpl. intros [[<- <-]|[Hm He]]%lookup_insert_Some.
    + rewrite !lookup_insert_eq. split; [done|by eexists].
    + rewrite !lookup_insert_ne by done. by apply I6.
  - exists reads. pose proof I7 as [R1 R2 R3 R4 R5 R6]. unfold replay in *. rewrite Hin.
    assert (wal_file (log_replay_ (storage s)) n ++ encodes logs = encodes (durable s n ++ logs)) as Hfile
      by (by rewrite encodes_app, R1).
    split; simpl.
    + intros m. unfold wal_file. simpl. destruct (decide (n = m)) as [<-|].
      * rewrite lookup_insert_eq, fn_lookup_insert. simpl. exact Hfile.
      * rewrite lookup_insert_ne, fn_lookup_insert_ne by done. apply R1.
    + intros m. destruct (decide (n = m)) as [<-|]; [rewrite !lookup_insert_eq; intros _; by eexists|].
      rewrite !lookup_insert_ne by done. apply R2.
    + intros m st [[<- <-]|[Hm Hst]]%lookup_insert_Some; simpl.
      * rewrite fn_lookup_insert, Hfile. split; [done|]. split.
        { rewrite <- Hfile. len. lia. }
        destruct (streams_ (log_replay_ (storage s)) !! n) as [st|] eqn:Est; simpl.
        -- by destruct (R3 n st Est) as (_ & _ & ? & ?).
        -- split; [by vm_compute|]. specialize (R5 n). rewrite (R4 n Est) in R5. by apply prefix_nil_inv in R5 as ->.
      * rewrite fn_lookup_insert_ne by done. by apply R3.
    + intros m [Hm Hst]%lookup_insert_None. rewrite fn_lookup_insert_ne by done. by apply R4.
    + intros m. destruct (decide (n = m)) as [<-|]; [|rewrite fn_lookup_insert_ne by done; apply R5].
      rewrite fn_lookup_insert. etrans; [apply R5|by eexists].
    + eapply replay_ok_same; [| | |eapply replay_ok_ever; [|exact R6]].
      * by split.
      * destruct R6 as [[]]. by split.
      * by destruct R6.
      * intros x Hx. cbv beta in *. rewrite <- Hin. by apply Hsub.
Qed.

(** ** Reading and serving *)

Lemma preserves_read s s' now depth n b r' :
  sys_inv s → ReadStream now depth n (replay s) = Done (b, r') →
  s' = mkSys (nodes s) (sent s) (set_replay r' (storage s)) (hist s) (durable s) → sys_inv s'.
Proof using.
  intros [I1 I2 I3 I4 I5 I6 [reads I7]] Hdone ->.
  assert (is_Some (streams_ (replay s) !! n)) as Hst.
  { destruct (streams_ (replay s) !! n) eqn:E; [by eexists|].
    unfold ReadStream, mbind, M_bind, gets in Hdone. by rewrite E in Hdone. }
  pose proof (wp_read_stream n0 hdrs base (hist s) I3 (logged s) (durable s) I4 (durable_prefix s) now depth reads
    (replay s) n I7 Hst) as Hwp.
  eapply wp_run in Hwp; [|exact Hdone]. destruct Hwp as (reads' & Hr' & _ & Hdom & Hwal & _).
  split; simpl; try done.
  - intros m e He. destruct (I6 m e He) as [-> Hm]. unfold replay, wal_file. simpl. rewrite Hwal. split; [done|].
    apply elem_of_dom. rewrite Hdom. by apply elem_of_dom.
  - by exists reads'.
Qed.

Lemma wp_WaitForPage hist ever seen r key pg0 target :
  replay_ok n0 hdrs base hist ever seen r → histories_ok hdrs base hist → base !! key = Some pg0 →
  wp (WaitForPage key.1 key.2 target)
    (λ b r', replay_ok n0 hdrs base hist ever seen r' ∧ frame r r' ∧ (∀ k, page_at r' k = page_at r k) ∧
       ∃ pg, page_at r' key = Some pg ∧ b = (target =? 0) || (target <=? page_LLSN pg)) r.
Proof using.
  intros Hok Hhist Hb. destruct (hs_table _ _ _ Hhist key (ex_intro _ _ Hb)) as [[fh Hh] H0].
  destruct (ro_page _ _ _ _ _ _ _ _ Hok key pg0 fh ltac:(tauto) Hb Hh) as (m & Hst & _).
  destruct (ps_page _ _ _ _ _ _ _ _ Hst) as (pg & _ & Hat). unfold WaitForPage.
  destruct (Z.eqb_spec target 0) as [->|Hne].
  { wp_step. split; [done|]. split; [apply frame_refl|]. split; [done|]. by exists pg. }
  destruct key as [name p]. cbn [fst snd] in *.
  wp_step. wp_step. destruct (page_progress_ r !! (name, p)) as [st|] eqn:Est; cbn [default from_option id].
  - destruct (ro_progress _ _ _ _ _ _ _ _ Hok _ _ Est) as [Hi Ha]. rewrite Hi.
    wp_step. wp_step. wp_step. wp_step. wp_step. simpl. rewrite lookup_insert_eq. simpl.
    rewrite insert_id by done. replace (set_progress (page_progress_ r) r) with r by (by destruct r).
    split; [done|]. split; [apply frame_refl|]. split; [done|]. exists pg. by rewrite (Ha pg Hat).
  - cbn [initialized]. wp_step. wp_step. wp_step. wp_step.
    set (r1 := set_progress _ r).
    assert (disk_ok n0 hdrs r1) as Hd1 by (destruct Hok as [[]]; by split).
    eapply wp_open_table; [exact Hd1|exact Hh|]. intros fd d' Hfd0 Hfp Hfd Hop Hok'.
    assert (page_at (set_disk d' r1) (name, p) = Some pg) as Hat1.
    { rewrite <- Hat. apply page_at_files. apply Hop. }
    pose proof Hat1 as (f & Hf & Hpage & ->)%page_at_Some. cbn [fst snd] in *.
    pose proof (len_page_of f _ Hpage) as Hlen. unfold PAGE_SIZE in Hlen.
    wp_step. apply wp_onDisk. simpl. eapply wp_read_page; [exact Hfd|exact Hf|exact Hpage|unfold PAGE_SIZE, sizeof_RmPageHdr; lia|].
    wp_step. apply wp_onDisk. apply wp_header_of; [rewrite len_slice; unfold sizeof_RmPageHdr; lia|].
    rewrite hdr_at_slice, hdr_at_LLSN by lia. set (pg := page_of f p) in *.
    wp_step. wp_step. wp_step. wp_step. simpl. rewrite lookup_insert_eq. simpl.
    set (r2 := set_progress _ _).
    assert (files (disk_manager_ r2) = files (disk_manager_ r)) as Hfiles by apply Hop.
    split; [|split; [by split; try done; rewrite Hfiles|split; [intros k; by apply page_at_files|]]].
    + eapply replay_ok_same; [| | |exact Hok]; [by split| |].
      * destruct Hok'. by split.
      * intros k st'. unfold r2. simpl. rewrite insert_insert_eq.
        intros [[<- <-]|[Hk Hst']]%lookup_insert_Some.
        -- split; [done|]. intros pg'. rewrite (page_at_files r) by exact Hfiles. rewrite Hat. by intros [= <-].
        -- destruct (ro_progress _ _ _ _ _ _ _ _ Hok _ _ Hst') as [? Ha]. split; [done|]. intros pg'.
           rewrite (page_at_files r) by exact Hfiles. apply Ha.
    + exists pg. split; [|done]. rewrite <- Hat. by apply page_at_files.
Qed.

Lemma preserves_wait s s' key target b r' :
  sys_inv s → is_Some (base !! key) → WaitForPage key.1 key.2 target (replay s) = Done (b, r') →
  s' = mkSys (nodes s) (sent s) (set_replay r' (storage s)) (hist s) (durable s) → sys_inv s'.
Proof using.
  intros [I1 I2 I3 I4 I5 I6 [reads I7]] [pg0 Hb] Hdone ->. pose proof I7 as [R1 R2 R3 R4 R5 R6].
  pose proof (wp_WaitForPage _ _ _ _ key pg0 target R6 I3 Hb) as Hwp.
  eapply wp_run in Hwp; [|exact Hdone]. destruct Hwp as (Hok & Hfr & _).
  split; simpl; try done; unfold replay; simpl.
  - intros m e He. unfold wal_file. rewrite (fr_wal _ _ Hfr), (fr_streams _ _ Hfr). by apply I6.
  - exists reads. split; try done; unfold wal_file; by rewrite ?(fr_wal _ _ Hfr), ?(fr_streams _ _ Hfr).
Qed.

(** ** Crashes *)

(** What has reached the file of a node: its durable records, the whole ones of its
    request, and a part of one more. *)
Lemma crash_file s logs n : sys_inv s → crash_image s logs →
  ∃ p, default [] (logs !! n) = encodes (surviving s logs n) ++ p ∧ torn n p.
Proof using.
  intros Hs Hc. destruct (si_replay _ Hs) as [reads Hr]. unfold surviving, survivors.
  destruct (Hc n) as (_ & part & E & Hp). rewrite E, length_app.
  replace (length (wal_file (replay s) n) + length part - length (wal_file (replay s) n))%nat with (length part) by lia.
  rewrite encodes_app, (ri_file _ _ _ _ _ _ _ Hr).
  destruct (take_whole n (length part) _ (loggable_in_flight s n Hs)) as (p & Et & Ht). exists p.
  split; [|done]. rewrite <- app_assoc, <- Et. f_equal.
  destruct (sent s n) as [bs|] eqn:Esent.
  - destruct (sent_batch s n bs Hs Esent) as (l & _ & -> & -> & _). destruct Hp as [rest ->]. by rewrite take_app_length.
  - by rewrite Hp.
Qed.

Lemma surviving_prefix s logs n : surviving s logs n `prefix_of` logged s n.
Proof using.
  unfold surviving, logged. apply prefix_app. destruct (whole_prefix (length (default [] (logs !! n)) -
    length (wal_file (replay s) n)) (in_flight s n)) as [k Hk].
  exists (k ++ log_records (nodes s n)). unfold survivors. by rewrite app_assoc, <- Hk.
Qed.

Lemma filter_idem_all {A} (P : A → Prop) `{!∀ x, Decision (P x)} (l : list A) :
  (∀ x, x ∈ l → P x) → filter P l = l.
Proof using.
  induction l as [|x l IH]; intros Hl; [done|]. rewrite filter_cons_True by (apply Hl; left).
  f_equal. apply IH. intros y Hy. apply Hl. by right.
Qed.

Lemma filter_none_all {A} (P : A → Prop) `{!∀ x, Decision (P x)} (l : list A) :
  (∀ x, x ∈ l → ¬ P x) → filter P l = [].
Proof using.
  induction l as [|x l IH]; intros Hl; [done|]. rewrite filter_cons_False by (apply Hl; left).
  apply IH. intros y Hy. apply Hl. by right.
Qed.

(** The histories cut to a beginning [D] of the logs. *)
Section cut.
Context (hist : PageKey → list LogRecord) (L D : Z → list LogRecord).
Context (Hhist : histories_ok hdrs base hist) (HL : logs_ok base hist L).
Context (HD : ∀ n, D n `prefix_of` L n) (Hwal : wal_rule hist D).

Lemma histories_cut : histories_ok hdrs base (durable_history hist D).
Proof using All.
  split; [apply Hhist|]. intros key pg0 fh Hb Hh.
  destruct (durable_history_take n0 hdrs base hist Hhist L D HL HD key Hwal (ex_intro _ _ Hb)) as (k & Hk & -> & _).
  apply history_ok_take; [done|]. by apply Hhist.
Qed.

Lemma logs_cut : logs_ok base (durable_history hist D) D.
Proof using All.
  assert (∀ n x, x ∈ D n → x ∈ L n) as Hin.
  { intros n x Hx. destruct (HD n) as [k ->]. set_solver. }
  split.
  - intros n. destruct (HD n) as [k E]. pose proof (lo_loggable _ _ _ HL n) as Hf. rewrite E in Hf.
    by apply Forall_app in Hf as [? _].
  - intros n x key Hx Hk. destruct (lo_page _ _ _ HL n x key (Hin _ _ Hx) Hk) as [? ?]. split; [done|].
    apply list_elem_of_filter. split; [|done]. by rewrite (logs_node base hist L HL n x (Hin _ _ Hx)).
  - intros n x Hx. by apply (lo_other _ _ _ HL n), Hin.
  - intros n key. destruct (HD n) as [k E]. unfold durable_history.
    pose proof (lo_order _ _ _ HL n key) as Ho. rewrite E, filter_app in Ho.
    rewrite list_filter_filter. 
    transitivity (filter (λ x, x ∈ D (node_of x)) (filter (λ x, node_of x = n) (hist key))).
    + rewrite <- Ho, filter_app, (filter_idem_all (λ x, x ∈ D (node_of x))), (filter_none_all (λ x, x ∈ D (node_of x)));
        [by rewrite app_nil_r| |].
      * intros x [Hk Hx]%list_elem_of_filter HxD.
        assert (x ∈ L n) as HxL by (rewrite E; set_solver).
        destruct (lo_page _ _ _ HL n x key HxL Hk) as [Hb _].
        rewrite (logs_node base hist L HL n x HxL) in HxD.
        pose proof (logs_NoDup n0 hdrs base hist Hhist L D HL HD n key Hb) as Hnd. rewrite E, filter_app in Hnd.
        apply NoDup_app in Hnd as (_ & Hnd & _). apply (Hnd x); by apply list_elem_of_filter.
      * intros x [_ Hx]%list_elem_of_filter. by rewrite (logs_node base hist L HL n x (Hin _ _ Hx)).
    + rewrite list_filter_filter. apply list_filter_iff. intros x. tauto.
Qed.

Lemma wal_cut : wal_rule (durable_history hist D) D.
Proof using All.
  intros key i j x y Hi _ _. left. apply list_elem_of_lookup_2 in Hi. by apply list_elem_of_filter in Hi as [? _].
Qed.

(** The tables, as a process that knows nothing of the logs finds them. *)
Lemma replay_ok_boot ever seen r r' :
  replay_ok n0 hdrs base hist ever seen r → (∀ x, ever x → x ∈ D (node_of x)) →
  disk_ok n0 hdrs r' → files (disk_manager_ r') = files (disk_manager_ r) →
  waiting_ r' = ∅ → pending_records_ r' = 0 → page_progress_ r' = ∅ →
  replay_ok n0 hdrs base (durable_history hist D) (λ x, x ∈ D (node_of x)) (λ _, False) r'.
Proof using All.
  intros [H1 H2 H3 H4 H5 H6] He Hd Hf Hw Hp Hpr. split; rewrite ?Hw, ?Hp; try done.
  - intros key pg0 fh Hn Hb Hh. destruct (H2 key pg0 fh Hn Hb Hh) as (m & [P1 P2 P3 PE P4] & _).
    destruct (durable_history_take n0 hdrs base hist Hhist L D HL HD key Hwal (ex_intro _ _ Hb)) as (k & Hk & Ek & Hdk).
    assert (m ≤ k)%nat as Hmk.
    { destruct (decide (m ≤ k)%nat) as [|Hn']; [done|]. destruct (lookup_lt_is_Some_2 (hist key) k) as [x Hx]; [lia|].
      assert (k < k)%nat; [|lia]. apply (Hdk k x Hx), He, (PE k x Hx). lia. }
    exists m. split; [|by intros ? ?]. split; rewrite ?Ek, ?Hw.
    + rewrite length_take. lia.
    + rewrite take_take, Nat.min_l by done. destruct P2 as (pg & Hpg & Hat). exists pg. split; [done|].
      rewrite <- Hat. by apply page_at_files.
    + intros i x _ _. unfold queue_of. rewrite lookup_empty. simpl. by rewrite lookup_empty.
    + intros i x Hi Him. apply lookup_take_Some in Hi as [Hi Hik]. by apply (Hdk i x Hi).
    + intros p x. unfold queue_of. rewrite lookup_empty. simpl. by rewrite lookup_empty.
  - intros key. rewrite lookup_empty. by intros [].
  - intros key st. by rewrite Hpr, lookup_empty.
Qed.
End cut.

Lemma node_ok_new dur : node_ok (new_LogBuffer true) None dur.
Proof using.
  split; simpl; try done. by intros x ?%not_elem_of_nil.
Qed.

Lemma wal_rule_surviving s logs : sys_inv s → wal_rule (hist s) (surviving s logs).
Proof using.
  intros Hs. eapply wal_rule_mono; [|apply (si_wal _ Hs)]. intros n. unfold surviving. set_solver.
Qed.

Lemma disk_ok_boot s logs other direct names :
  disk_ok n0 hdrs (replay s) → (size (dom other) ≤ n0)%nat → disk_ok n0 hdrs (boot s logs other direct names).
Proof using.
  intros [H1 H2 H3 H4 H5] Ho. split; simpl; try done.
  split; [apply new_DiskManager_wf| |apply (room_left _ _ H1)]. simpl. lia.
Qed.

(** After a crash the storage node starts, whatever part of the requests has reached
    the files, and has then replayed all that was in them. *)
Lemma wp_restart s now depth logs other direct names order :
  sys_inv s → crash_image s logs → (size (dom other) ≤ n0)%nat → order ≡ₚ elements (dom logs) →
  let D := surviving s logs in
  let hist' := durable_history (hist s) D in
  wp (start now depth order)
    (λ _ r, replay_inv n0 hdrs base hist' D D r ∧ pending_records_ r = 0 ∧ pages_durable hdrs base hist' D r)
    (boot s logs other direct names).
Proof using.
  intros Hs Hc Ho Hord D hist'. pose proof (si_replay _ Hs) as [reads Hr].
  pose proof (ri_ok _ _ _ _ _ _ _ Hr) as Hok.
  assert (∀ n, D n `prefix_of` logged s n) as HD by apply surviving_prefix.
  pose proof (wal_rule_surviving s logs Hs) as Hwal.
  apply (wp_start n0 hdrs base hist' D (histories_cut _ _ _ (si_hist _ Hs) (si_logs _ Hs) HD Hwal)
    (logs_cut _ _ _ (si_hist _ Hs) (si_logs _ Hs) HD Hwal) (wal_cut _ _ _ (si_hist _ Hs) (si_logs _ Hs) HD Hwal) logs);
    try done.
  - intros n. by apply crash_file.
  - intros n. by destruct (Hc n).
  - eapply replay_ok_boot; try done; [apply Hs..| |].
    + intros x Hx. cbv beta in Hx. unfold D, surviving. set_solver.
    + apply disk_ok_boot; [|done]. by destruct Hok.
Qed.

Lemma preserves_crash s s' now depth logs other direct names order r' :
  sys_inv s → crash_image s logs → (size (dom other) ≤ n0)%nat → order ≡ₚ elements (dom logs) →
  start now depth order (boot s logs other direct names) = Done (tt, r') →
  s' = restarted s logs r' → sys_inv s'.
Proof using.
  intros Hs Hc Ho Hord Hdone ->. pose proof (wp_restart s now depth logs other direct names order Hs Hc Ho Hord) as Hwp.
  eapply wp_run in Hwp; [|exact Hdone]. destruct Hwp as (Hr' & _).
  assert (∀ n, surviving s logs n `prefix_of` logged s n) as HD by apply surviving_prefix.
  pose proof (wal_rule_surviving s logs Hs) as Hwal.
  assert (∀ n, logged (restarted s logs r') n = surviving s logs n) as Hlog.
  { intros n. unfold logged, in_flight. simpl. by rewrite app_nil_r. }
  split; simpl.
  - intros n. apply node_ok_new.
  - intros n. rewrite Hlog. intros Hne. apply (si_nonneg _ Hs). intros E. destruct (HD n) as [k Hk].
    rewrite E in Hk. symmetry in Hk. by apply app_eq_nil in Hk as [? _].
  - exact (histories_cut _ _ _ (si_hist _ Hs) (si_logs _ Hs) HD Hwal).
  - eapply logs_ok_ext; [exact Hlog|]. exact (logs_cut _ _ _ (si_hist _ Hs) (si_logs _ Hs) HD Hwal).
  - exact (wal_cut _ _ _ (si_hist _ Hs) (si_logs _ Hs) HD Hwal).
  - intros n e. by rewrite lookup_empty.
  - by exists (surviving s logs).
Qed.

(** ** All reachable states *)

Lemma step_inv s s' : step n0 hdrs base s s' → sys_inv s → sys_inv s'.
Proof using.
  intros Hstep Hs. destruct Hstep as [|? Hq|].
  - by eapply preserves_log.
  - destruct Hq.
    + by eapply preserves_meta.
    + by eapply preserves_take.
    + by eapply preserves_append.
    + by eapply preserves_answered.
    + by eapply preserves_read.
    + by eapply preserves_wait.
  - by eapply preserves_crash.
Qed.

Lemma set_up_inv s : set_up n0 hdrs base s → sys_inv s.
Proof using.
  intros [(d & sql & tables & names & ->) Hd Hb]. 
  assert (histories_ok hdrs base (λ _, [])) as Hh.
  { split.
    - intros key [pg0 Hk]. by destruct (Hb key pg0 Hk) as (_ & ? & ?).
    - intros key pg0 fh _ _. split; [by intros r ?%not_elem_of_nil..|]. by exists pg0. }
  split; simpl; try done.
  - intros n. apply node_ok_new.
  - split; try done; try (by intros n x ?%not_elem_of_nil). by intros n x key ?%not_elem_of_nil.
  - exists (λ _, []). split; simpl.
    + intros n. unfold wal_file. simpl. by rewrite lookup_empty.
    + intros n. rewrite lookup_empty. by intros [].
    + intros n st. by rewrite lookup_empty.
    + done.
    + done.
    + split; simpl; [done| | |done| |].
      * intros key pg0 fh _ Hk Hf. exists 0%nat. split; [|by intros x; rewrite lookup_nil].
        split; simpl.
        -- done.
        -- exists pg0. split; [done|]. by destruct (Hb key pg0 Hk).
        -- intros i x. by rewrite lookup_nil.
        -- intros i x. by rewrite lookup_nil.
        -- intros p x. unfold queue_of. rewrite lookup_empty. simpl. by rewrite lookup_empty.
      * intros key. rewrite lookup_empty. by intros [].
      * intros key st. simpl. by rewrite lookup_empty.
      * intros x Hx. by apply not_elem_of_nil in Hx.
Qed.

Lemma reachable_sys_inv s : reachable n0 hdrs base s → sys_inv s.
Proof using.
  intros (s0 & H0 & Hs). eapply star_invariant; [by apply set_up_inv| |exact Hs]. intros. by eapply step_inv.
Qed.

(** A node that has waited for the flush up to a number has the record durable. *)
Lemma flushed_in_log s n lsn b' x :
  reachable n0 hdrs base s → wait_log_flush_done lsn (nodes s n) = Done (tt, b') →
  x ∈ logged s n → lsn_ (hdr x) ≤ lsn →
  x ∈ durable s n ∧ ∀ logs, crash_image s logs → x ∈ surviving s logs n.
Proof using.
  intros Hs%reachable_sys_inv Hw Hx Hl. pose proof (si_node _ Hs n) as [N1 N2 N3 N4 N5].
  assert (lsn ≤ persist_lsn (nodes s n)) as Hp.
  { unfold wait_log_flush_done, mbind, M_bind, gets in Hw. rewrite (rd_generate _ N1) in Hw. cbn [negb] in Hw.
    destruct (Z.ltb_spec (persist_lsn (nodes s n)) lsn); done. }
  assert (x ∈ durable s n) as Hd.
  { unfold logged in Hx. apply elem_of_app in Hx as [?|[Hx|Hx]%elem_of_app]; [done| |].
    - unfold in_flight in Hx. destruct (sent s n) as [bs|] eqn:Eb; [|by apply not_elem_of_nil in Hx].
      destruct (log_flushing_ (nodes s n)) as [logs|] eqn:E; [|by apply not_elem_of_nil in Hx].
      destruct (N5 _ eq_refl) as (_ & _ & _ & _ & Hlt). simpl in Hx. specialize (Hlt x Hx). lia.
    - specialize (N3 x Hx). lia. }
  split; [done|]. intros logs _. unfold surviving. set_solver.
Qed.
End inv.
