(* ===== verification/ReplayDemo.v ===== *)
(** A run of [ReplaySystem], step by step: node 1 inserts a row and flushes; node 2
    changes the row and flushes; the storage node reads the log of node 2 first. *)

From stdpp Require Import functions sorting.
From S2P Require Import Prelude Common Bytes Record RecordPage PreparedTxn LogRecord LogFormat DiskManager FsmReplay LogReplay LogManager LogBuffer Redo LogStream ReplayOrder ReplayRead ReplayStart ReplaySystem.

#[local] Existing Instance demo_codec.

Definition demo_key : PageKey := (demo_name, 1).
Definition demo_base : gmap PageKey buffer := {[ demo_key := demo_page ]}.

Definition s_initial : Sys :=
  initial (new_DiskManager {[ demo_name := demo_file ]} ∅ false) false ∅ ∅.

Definition reached (s : Sys) : Prop := reachable 0 demo_hdrs demo_base s.

Lemma reach_initial : reached s_initial.
Proof.
  exists s_initial. split; [|apply star_refl]. split.
  - by eexists _, _, _, _.
  - apply (demo_disk_ok ∅).
  - intros key pg0. unfold demo_base. intros [<- <-]%lookup_singleton_Some. split; [by vm_compute|].
    split; [by eexists|done].
Qed.

Lemma reach_step s s' : reached s → step 0 demo_hdrs demo_base s s' → reached s'.
Proof. intros (s0 & H0 & Hs) Hstep. exists s0. split; [done|]. by eapply star_snoc. Qed.

(** ** The steps as functions *)

Definition do_log (n : Z) (call : MB (Z * RmPageHdr)) (r : LogRecord) (s : Sys) : Sys :=
  mkSys (<[n := after call (nodes s n)]> (nodes s)) (sent s) (storage s)
    (<[demo_key := hist s demo_key ++ [r]]> (hist s)) (durable s).

Definition do_take (n : Z) (s : Sys) : Sys :=
  mkSys (<[n := after LogFlush_take (nodes s n)]> (nodes s))
    (<[n := default None (result LogFlush_take (nodes s n))]> (sent s)) (storage s) (hist s) (durable s).

Definition do_append (n : Z) (s : Sys) : Sys :=
  mkSys (nodes s) (<[n := None]> (sent s)) (after (AppendAndSync (default [] (sent s n))) (storage s)) (hist s)
    (<[n := durable s n ++ in_flight s n]> (durable s)).

Definition do_answered (n : Z) (s : Sys) : Sys :=
  mkSys (<[n := after LogFlush_done (nodes s n)]> (nodes s)) (sent s) (storage s) (hist s) (durable s).

Definition do_read (n : Z) (s : Sys) : Sys :=
  mkSys (nodes s) (sent s) (set_replay (after (ReadStream 0 0 n) (replay s)) (storage s)) (hist s) (durable s).

Definition answers {S A} (m : M S A) (s : S) : bool := match m s with Done _ => true | _ => false end.

Lemma answers_run {S A} (m : M S A) s : answers m s = true → ∃ a, result m s = Some a ∧ m s = Done (a, after m s).
Proof. unfold answers, result, after. destruct (m s) as [[a s']| |]; [|done..]. by exists a. Qed.

Lemma answers_tt {S} (m : M S unit) s : answers m s = true → m s = Done (tt, after m s).
Proof. intros ([] & _ & E)%answers_run. exact E. Qed.

Lemma reach_log n h x call lsn h' s :
  reached s → 0 ≤ n → page_call n h x call → current_llsn_ (nodes s n) + 1 < 2 ^ 64 →
  let r := set_lsns (LLSN_ h) lsn x in
  let pg := after (redo_all demo_fh (hist s demo_key)) demo_page in
  answers (redo_all demo_fh (hist s demo_key)) demo_page = true → LLSN_ h = page_LLSN pg →
  result call (nodes s n) = Some (lsn, h') → answers (redo demo_fh r) pg = true →
  PageForLog r = Some demo_key → loggable n r →
  forallb (λ y, bool_decide (y ∈ durable s (node_of y)) || (node_of y =? n)) (hist s demo_key) = true →
  reached (do_log n call r s).
Proof.
  intros Hs Hn Hc Hcur r pg Hpg Hh Hrun Hr Hk Hl Hd. eapply reach_step; [exact Hs|].
  eapply (step_log _ _ _ s n demo_key demo_fh demo_page pg _ h x call lsn h'); try done.
  - by apply answers_tt.
  - by apply run_result.
  - by apply answers_tt.
  - intros y Hy. apply list_elem_of_In in Hy. rewrite forallb_forall in Hd. specialize (Hd y Hy).
    apply orb_true_iff in Hd as [Hd%bool_decide_eq_true|Hd%Z.eqb_eq]; [by left|by right].
Qed.

Lemma reach_take n s :
  reached s → match result LogFlush_take (nodes s n) with Some (Some _) => true | _ => false end = true →
  reached (do_take n s).
Proof.
  intros Hs Hr. eapply reach_step; [exact Hs|]. unfold do_take.
  destruct (result LogFlush_take (nodes s n)) as [[bs|]|] eqn:E; [|done..]. simpl.
  apply step_quiet, step_take. by apply run_result.
Qed.

Lemma reach_append n s :
  reached s → bool_decide (is_Some (sent s n)) = true →
  len (wal_file (replay s) n) + len (default [] (sent s n)) < 2 ^ 64 →
  answers (AppendAndSync (default [] (sent s n))) (storage s) = true → reached (do_append n s).
Proof.
  intros Hs [bs Hb]%bool_decide_eq_true Hl Hr. eapply reach_step; [exact Hs|]. unfold do_append.
  rewrite Hb in *. simpl in *. eapply step_quiet, step_append; [done|done|]. by apply answers_tt.
Qed.

Lemma reach_answered n s :
  reached s → sent s n = None → answers LogFlush_done (nodes s n) = true → reached (do_answered n s).
Proof. intros Hs Hb Hr. eapply reach_step; [exact Hs|]. apply step_quiet, step_answered; [done|]. by apply answers_tt. Qed.

Lemma reach_read n s : reached s → answers (ReadStream 0 0 n) (replay s) = true → reached (do_read n s).
Proof.
  intros Hs Hr. eapply reach_step; [exact Hs|]. apply answers_run in Hr as (b & _ & E).
  by apply step_quiet, (step_read _ s 0 0%nat n b).
Qed.

(** ** The run *)

Definition demo_value : buffer := replicate (Z.to_nat 80) 9.
Definition demo_hdr (lsn : Z) : RmPageHdr := mkPageHdr 0 0 lsn 0.

Definition insert_call : MB (Z * RmPageHdr) :=
  AddInsertLog 1 7 demo_name demo_value [] (Some 42) (mkRid 1 3) (demo_hdr 0).
Definition insert_record : LogRecord :=
  set_lsns 0 1 (new_InsertLogRecord 0 1 7 (mkRecord 42 (demo_value ++ [])) 1 3 demo_name).

Definition s_inserted : Sys := do_log 1 insert_call insert_record s_initial.
Definition s_requested : Sys := do_take 1 s_inserted.
Definition s_appended : Sys := do_append 1 s_requested.
Definition s_durable : Sys := do_answered 1 s_appended.

Definition update_call : MB (Z * RmPageHdr) :=
  AddUpdateLog 2 8 demo_name demo_value [] (Some 42) (mkRid 1 3) (demo_hdr 1) 5.
Definition update_record : LogRecord :=
  set_lsns 1 2 (new_UpdateLogRecord 0 2 8
    (mkRecord 42 (splice offsetof_commitTimeStamp (le 8 5) demo_value ++ [])) (mkRid 1 3) demo_name None).

Definition s_updated : Sys := do_log 2 update_call update_record s_durable.
Definition s_both : Sys := do_append 2 (do_take 2 s_updated).
Definition s_early : Sys := do_read 2 s_both.
Definition s_read : Sys := do_read 1 s_early.

Lemma insert_loggable : loggable 1 insert_record.
Proof.
  split; [|done|vm_compute; congruence]. apply built_wf, built_lsn; [|vm_compute; repeat split; congruence..|discriminate].
  apply built_insert; vm_compute; repeat split; congruence.
Qed.

Lemma update_loggable : loggable 2 update_record.
Proof.
  split; [|done|vm_compute; congruence]. apply built_wf, built_lsn; [|vm_compute; repeat split; congruence..|discriminate].
  apply built_update; vm_compute; repeat split; congruence.
Qed.

Lemma reach_inserted : reached s_inserted.
Proof.
  eapply (reach_log 1 (demo_hdr 0) (new_InsertLogRecord 0 1 7 (mkRecord 42 (demo_value ++ [])) 1 3 demo_name) insert_call 1);
    [apply reach_initial|done|apply (call_insert 1 (demo_hdr 0) 7 demo_name demo_value [] (Some 42) (mkRid 1 3))|..].
  - by vm_compute.
  - by vm_compute.
  - by vm_compute.
  - vm_compute. reflexivity.
  - vm_compute. reflexivity.
  - done.
  - apply insert_loggable.
  - by vm_compute.
Qed.

Lemma reach_requested : reached s_requested.
Proof. apply reach_take; [apply reach_inserted|vm_compute; reflexivity]. Qed.
Lemma reach_durable : reached s_durable.
Proof.
  apply reach_answered; [|vm_compute; reflexivity..].
  apply reach_append; [apply reach_requested|vm_compute; reflexivity..].
Qed.

Lemma reach_updated : reached s_updated.
Proof.
  eapply (reach_log 2 (demo_hdr 1) (new_UpdateLogRecord 0 2 8
      (mkRecord 42 (splice offsetof_commitTimeStamp (le 8 5) demo_value ++ [])) (mkRid 1 3) demo_name None) update_call 2);
    [apply reach_durable|done|apply (call_update 2 (demo_hdr 1) 8 demo_name demo_value [] (Some 42) (mkRid 1 3) 5)|..].
  - by vm_compute.
  - by vm_compute.
  - by vm_compute.
  - vm_compute. reflexivity.
  - vm_compute. reflexivity.
  - done.
  - apply update_loggable.
  - by vm_compute.
Qed.

Lemma reach_both : reached s_both.
Proof.
  apply reach_append; [|vm_compute; reflexivity..]. apply reach_take; [apply reach_updated|vm_compute; reflexivity].
Qed.

(** The record of node 2 waits, that of node 1 has not been read. *)
Lemma reach_early : reached s_early.
Proof. apply reach_read; [apply reach_both|vm_compute; reflexivity]. Qed.

Lemma early_waits : pending_records_ (replay s_early) = 1 ∧
  page_at (replay s_early) demo_key = Some demo_page.
Proof. split; vm_compute; reflexivity. Qed.

Lemma reach_read_both : reached s_read.
Proof. apply reach_read; [apply reach_early|vm_compute; reflexivity]. Qed.

Definition demo_final : buffer := after (redo_all demo_fh [insert_record; update_record]) demo_page.

Lemma read_applied : pending_records_ (replay s_read) = 0 ∧
  page_at (replay s_read) demo_key = Some demo_final ∧ page_LLSN demo_final = 2.
Proof. split_and!; vm_compute; reflexivity. Qed.
