(* ===== verification/ReplayProtocol.v ===== *)
(** What write-ahead logging and replay promise together, in every state that
    [ReplaySystem] reaches. *)

From stdpp Require Import functions sorting.
From S2P Require Import Prelude Common Bytes Record RecordPage PreparedTxn LogRecord LogFormat DiskManager FsmReplay LogReplay LogManager LogBuffer Redo LogStream ReplayOrder ReplayRead ReplayStart ReplaySystem ReplayInv ReplayDemo.

#[local] Arguments le : simpl never.
#[local] Arguments replicate : simpl never.
#[local] Arguments Z.to_nat : simpl never.

(** ** Serving a page *)

(** The descriptor for reading pages: that of the table, or one opened for it. *)
Lemma wp_page_read_fd n0 d fd name f (Q : Z → DiskManager → Prop) :
  dm_room n0 d → fd2path_ d !! fd = Some name → files d !! name = Some f →
  (∀ rfd d', fds d' !! rfd = Some name → files d' = files d → Q rfd d') →
  wp (page_read_fd fd) Q d.
Proof.
  intros Hr Hp Hf HQ. pose proof (room_wf _ _ Hr) as Hwf. destruct (wf_open d Hwf _ _ Hp) as (_ & Hfd & _).
  unfold page_read_fd. wp_step. wp_step. wp_step; [wp_step; by apply HQ|]. wp_step. wp_step.
  destruct (direct_read_fds_ d !! fd) as [rfd|] eqn:Ed.
  - wp_step. destruct (wf_direct d Hwf _ _ Ed) as (p & Hp' & Hr' & _). apply HQ; [congruence|done].
  - wp_step. wp_step. rewrite Hp. wp_step. unfold os_open. wp_step. wp_step. rewrite Hf.
    wp_step. wp_step. wp_step. wp_step. wp_step.
    destruct (lowest_free_fresh (dom (fds d))) as [_ H0]. destruct (Z.ltb_spec (lowest_free (dom (fds d))) 0); [lia|].
    wp_step. wp_step. wp_step. apply HQ; [|done]. simpl. apply lookup_insert_eq.
Qed.

Section theorems.
Context `{RequestCodec}.
Context (n0 : nat) (hdrs : gmap path RmFileHdr) (base : gmap PageKey buffer).

Lemma wp_serve_page hist ever seen r key pg0 pg target :
  replay_ok n0 hdrs base hist ever seen r → histories_ok hdrs base hist → base !! key = Some pg0 →
  page_at r key = Some pg → target ≤ page_LLSN pg →
  wp (serve_page key.1 key.2 target) (λ bs r', bs = pg ∧ files (disk_manager_ r') = files (disk_manager_ r)) r.
Proof using.
  intros Hok Hhist Hb Hat Hle. destruct (hs_table _ _ _ Hhist key (ex_intro _ _ Hb)) as [[fh Hh] H0].
  unfold serve_page. wp_step. eapply wp_open_table; [by destruct Hok|exact Hh|].
  intros fd d' Hfd0 Hfp Hfd Hop Hok'.
  pose proof Hat as (f & Hf & Hpage & ->)%page_at_Some.
  pose proof (len_page_of f _ Hpage) as Hlen. unfold PAGE_SIZE in Hlen.
  assert (files d' !! key.1 = Some f) as Hf' by (by rewrite (opens_files _ _ Hop)).
  apply wp_onDisk. simpl. unfold read_page_for_fetch. wp_step.
  eapply wp_page_read_fd; [apply Hok'|exact Hfp|exact Hf'|]. intros rfd d2 Hrfd Hf2.
  wp_step. eapply wp_read_whole_page; [exact Hrfd|by rewrite Hf2|exact Hpage|].
  wp_step. apply wp_header_of; [lia|]. rewrite hdr_at_LLSN.
  destruct (Z.ltb_spec (page_LLSN (page_of f key.2)) target); [lia|]. wp_step. split; [done|].
  simpl. rewrite Hf2. apply Hop.
Qed.

(** C12: in every reachable state of the cluster, with any number of nodes logging
    and flushing in any interleaving and after any number of crashes: the storage
    node accepts every request that is on its way, reads every log without an error,
    and answers whoever waits for a page; and after a crash, whatever part of the
    requests has reached the files, it starts again.  No assertion fires, no record
    is taken for broken, and none misses its predecessor. *)
Theorem replay_never_fails s :
  reachable n0 hdrs base s →
  (∀ n bs, sent s n = Some bs → len (wal_file (replay s) n) + len bs < 2 ^ 64 →
     wp (AppendAndSync bs) (λ _ _, True) (storage s)) ∧
  (∀ now depth n, is_Some (streams_ (replay s) !! n) → wp (ReadStream now depth n) (λ _ _, True) (replay s)) ∧
  (∀ key target, is_Some (base !! key) → wp (WaitForPage key.1 key.2 target) (λ _ _, True) (replay s)) ∧
  (∀ now depth logs other direct names order, crash_image s logs → (size (dom other) ≤ n0)%nat →
     order ≡ₚ elements (dom logs) → wp (start now depth order) (λ _ _, True) (boot s logs other direct names)).
Proof using.
  intros Hs%reachable_sys_inv. pose proof (si_replay _ _ _ _ Hs) as [reads Hr]. split_and!.
  - intros n bs Hb Hl. eapply wp_mono; [by eapply wp_append|done].
  - intros now depth n Hn. eapply wp_mono; [apply (wp_read_stream n0 hdrs base (hist s) (si_hist _ _ _ _ Hs) (logged s) (durable s) (si_logs _ _ _ _ Hs)
      (durable_prefix s) now depth reads (replay s) n Hr Hn)|done].
  - intros key target [pg0 Hb]. eapply wp_mono; [eapply wp_WaitForPage; [apply Hr|apply Hs|done]|done].
  - intros. eapply wp_mono; [by eapply wp_restart|done].
Qed.

(** C8: replay keeps the order of every page.  In every reachable state a page on
    the storage node is what the first records of its history make of it, each
    applied once; these are durable.  The next record has not been read; of the
    later ones exactly those that have been read wait, under the version that they
    follow. *)
Theorem replay_follows_history s :
  reachable n0 hdrs base s →
  ∃ reads : Z → list LogRecord,
    (∀ n, reads n `prefix_of` durable s n ∧
       ∀ st, streams_ (replay s) !! n = Some st → read_offset st = len (encodes (reads n))) ∧
    ∀ key pg0 fh, base !! key = Some pg0 → hdrs !! key.1 = Some fh →
    ∃ m pg, (m ≤ length (hist s key))%nat ∧
      redo_all fh (take m (hist s key)) pg0 = Done (tt, pg) ∧ page_at (replay s) key = Some pg ∧
      (∀ x, x ∈ take m (hist s key) → x ∈ durable s (node_of x)) ∧
      (∀ x, hist s key !! m = Some x → x ∉ reads (node_of x)) ∧
      (∀ x, x ∈ drop (S m) (hist s key) →
         x ∈ reads (node_of x) ↔ queue_of (waiting_ (replay s)) key !! prev_lsn_ (hdr x) = Some x).
Proof using.
  intros Hs%reachable_sys_inv. pose proof (si_replay _ _ _ _ Hs) as [reads Hr]. exists reads. split.
  - intros n. split; [apply (ri_reads _ _ _ _ _ _ _ Hr)|]. intros st Hst. by apply (ri_stream _ _ _ _ _ _ _ Hr).
  - intros key pg0 fh Hb Hh.
    destruct (ro_page _ _ _ _ _ _ _ _ (ri_ok _ _ _ _ _ _ _ Hr) key pg0 fh ltac:(tauto) Hb Hh)
      as (m & [P1 (pg & Hpg & Hat) P3 PE P4] & Hm).
    exists m, pg. split_and!; try done.
    + intros x [i [Hi Him]%lookup_take_Some]%list_elem_of_lookup_1. by apply (PE i).
    + intros x [i Hi]%list_elem_of_lookup_1. rewrite lookup_drop in Hi. apply (P3 _ _ Hi). lia.
Qed.

(** C9: replay catches up.  From any reachable state, reading rounds end, with
    every durable byte read; then no record waits, so that draining succeeds, and
    every page has the contents that the durable records of its history make of it:
    whatever the order in which the logs were read, nothing is lost and nothing is
    applied twice. *)
Theorem replay_catches_up s now depth fuel :
  reachable n0 hdrs base s → unread (replay s) < Z.of_nat fuel →
  wp (read_until_done now depth fuel)
    (λ _ r, all_read r = true ∧ pending_records_ r = 0 ∧ wp Drain (λ _ _, True) r ∧
       ∀ key pg0 fh, base !! key = Some pg0 → hdrs !! key.1 = Some fh →
       ∃ pg, redo_all fh (filter (λ x, x ∈ durable s (node_of x)) (hist s key)) pg0 = Done (tt, pg) ∧
         page_at r key = Some pg) (replay s).
Proof using.
  intros Hs%reachable_sys_inv Hf. pose proof (si_replay _ _ _ _ Hs) as [reads Hr].
  eapply wp_mono; [apply (wp_read_until_done n0 hdrs base (hist s) (si_hist _ _ _ _ Hs) (logged s) (durable s)
    (si_logs _ _ _ _ Hs) (durable_prefix s) now depth fuel reads); done|].
  intros [] r [Hr' _].
  destruct (caught_up n0 hdrs base (hist s) (si_hist _ _ _ _ Hs) (logged s) (durable s)
    (si_logs _ _ _ _ Hs) (durable_prefix s) r (si_wal _ _ _ _ Hs) Hr') as [Hp Hpages].
  assert (all_read r = true) as Hall.
  { apply forallb_forall. intros [n st] Hin. apply list_elem_of_In, elem_of_map_to_list in Hin.
    destruct (ri_stream _ _ _ _ _ _ _ Hr' n st Hin) as (E1 & _ & _ & E2).
    apply Z.eqb_eq. simpl. congruence. }
  split_and!; [done|done| |exact Hpages].
  unfold Drain. wp_step. wp_step. rewrite Hall. cbn [negb]. wp_step. wp_step. rewrite Hp. by wp_step.
Qed.

(** C10: a restart recovers the cluster.  After a crash in any reachable state, of
    whose requests any part may have reached the files, the storage node cuts every
    log to its whole records, and before it serves anybody every page has the
    contents that those records make of it. *)
Theorem restart_recovers s now depth logs other direct names order :
  reachable n0 hdrs base s → crash_image s logs → (size (dom other) ≤ n0)%nat →
  order ≡ₚ elements (dom logs) →
  wp (start now depth order)
    (λ _ r, (∀ n, wal_file r n = encodes (surviving s logs n)) ∧ all_read r = true ∧
       ∀ key pg0 fh, base !! key = Some pg0 → hdrs !! key.1 = Some fh →
       ∃ pg, redo_all fh (filter (λ x, x ∈ surviving s logs (node_of x)) (hist s key)) pg0 = Done (tt, pg) ∧
         page_at r key = Some pg)
    (boot s logs other direct names).
Proof using.
  intros Hs%reachable_sys_inv Hc Ho Hord.
  eapply wp_mono; [by eapply wp_restart|]. intros [] r (Hr & _ & Hpages). split_and!.
  - apply (ri_file _ _ _ _ _ _ _ Hr).
  - apply forallb_forall. intros [n st] Hin. apply list_elem_of_In, elem_of_map_to_list in Hin.
    destruct (ri_stream _ _ _ _ _ _ _ Hr n st Hin) as (E1 & _ & _ & E2).
    apply Z.eqb_eq. simpl. congruence.
  - intros key pg0 fh Hb Hh. destruct (Hpages key pg0 fh Hb Hh) as (pg & Hpg & Hat). exists pg. split; [|done].
    revert Hpg. unfold durable_history. rewrite filter_idem_all; [done|]. by intros x [? _]%list_elem_of_filter.
Qed.

(** C11: what a node takes for durable is durable.  Once waiting for the flush up to
    a number has returned, every record of the node up to that number is in its log
    on the storage node, and survives every crash from then on. *)
Theorem flushed_is_durable s n lsn b' x :
  reachable n0 hdrs base s → wait_log_flush_done lsn (nodes s n) = Done (tt, b') →
  x ∈ logged s n → lsn_ (hdr x) ≤ lsn →
  x ∈ durable s n ∧ ∀ logs, crash_image s logs → x ∈ surviving s logs n.
Proof using. apply flushed_in_log. Qed.

(** C19: a page is served in the version that was asked for.  When waiting for a
    version of a page returns, reading the page gives what some beginning of its
    history makes of it, of that version or a later one; who asked for the version
    that the last change has left gets exactly the contents that the nodes have. *)
Theorem served_page_version s key pg0 fh target r' :
  reachable n0 hdrs base s → base !! key = Some pg0 → hdrs !! key.1 = Some fh → target ≠ 0 →
  WaitForPage key.1 key.2 target (replay s) = Done (true, r') →
  wp (serve_page key.1 key.2 target)
    (λ bs _, target ≤ page_LLSN bs ∧
       (∃ m, redo_all fh (take m (hist s key)) pg0 = Done (tt, bs)) ∧
       ∀ last, redo_all fh (hist s key) pg0 = Done (tt, last) → target = page_LLSN last → bs = last) r'.
Proof using.
  intros Hs%reachable_sys_inv Hb Hh Hne Hw. pose proof (si_replay _ _ _ _ Hs) as [reads Hr].
  pose proof (si_hist _ _ _ _ Hs) as Hhist.
  pose proof (wp_WaitForPage _ _ _ _ _ _ _ key pg0 target (ri_ok _ _ _ _ _ _ _ Hr) Hhist Hb) as Hwp.
  eapply wp_run in Hwp; [|exact Hw]. destruct Hwp as (Hok & _ & Hsame & pg & Hat & Hle).
  symmetry in Hle. apply orb_true_iff in Hle as [?%Z.eqb_eq|Hle%Z.leb_le]; [done|].
  eapply wp_mono; [eapply wp_serve_page; eauto|]. intros bs r2 [-> _]. split; [done|].
  destruct (ro_page _ _ _ _ _ _ _ _ Hok key pg0 fh ltac:(tauto) Hb Hh) as (m & Hst & _).
  destruct (ps_page _ _ _ _ _ _ _ _ Hst) as (pg1 & Hpg & Hat1). simplify_eq. pose proof (ps_le _ _ _ _ _ _ _ _ Hst) as Hm.
  pose proof (hs_history _ _ _ Hhist key pg0 fh Hb Hh) as Hl.
  split; [by exists m|]. intros last Hlast ->.
  destruct (history_page _ _ _ _ Hl m Hm) as (p1 & E1 & V1 & _).
  destruct (history_page _ _ _ _ Hl (length (hist s key)) ltac:(lia)) as (p2 & E2 & V2 & _).
  rewrite firstn_all in E2. rewrite Hpg in E1. rewrite Hlast in E2. simplify_eq.
  rewrite V1, V2, (version_le _ _ _ _ Hl) in Hle by lia. assert (m = length (hist s key)) as -> by lia.
  rewrite firstn_all in Hpg. congruence.
Qed.
End theorems.

(** ** On the run of [ReplayDemo] *)

#[local] Existing Instance demo_codec.

Lemma replay_never_fails_witness :
  reached s_requested ∧ bool_decide (is_Some (sent s_requested 1)) = true ∧
  wp (AppendAndSync (default [] (sent s_requested 1))) (λ _ _, True) (storage s_requested).
Proof.
  split; [apply reach_requested|]. split; [vm_compute; reflexivity|].
  destruct (replay_never_fails 0 demo_hdrs demo_base s_requested reach_requested) as [Ha _].
  apply (Ha 1); vm_compute; reflexivity.
Defined.

Lemma replay_follows_history_witness :
  reached s_early ∧ pending_records_ (replay s_early) = 1 ∧
  ∃ m pg, redo_all demo_fh (take m [insert_record; update_record]) demo_page = Done (tt, pg) ∧
    page_at (replay s_early) demo_key = Some pg.
Proof.
  split; [apply reach_early|]. split; [vm_compute; reflexivity|].
  destruct (replay_follows_history 0 demo_hdrs demo_base s_early reach_early) as (reads & _ & Hall).
  destruct (Hall demo_key demo_page demo_fh (lookup_singleton_eq _ _) (lookup_singleton_eq _ _))
    as (m & pg & _ & Hpg & Hat & _).
  exists m, pg. split; [exact Hpg|exact Hat].
Defined.

Lemma replay_catches_up_witness :
  reached s_early ∧ unread (replay s_early) < Z.of_nat (Z.to_nat 4096) ∧
  wp (read_until_done 0 0 (Z.to_nat 4096))
    (λ _ r, pending_records_ r = 0 ∧
       ∃ pg, redo_all demo_fh (filter (λ x, x ∈ durable s_early (node_of x)) (hist s_early demo_key)) demo_page =
               Done (tt, pg) ∧ page_at r demo_key = Some pg) (replay s_early).
Proof.
  assert (unread (replay s_early) < Z.of_nat (Z.to_nat 4096)) as Hu by (vm_compute; reflexivity).
  split; [apply reach_early|]. split; [exact Hu|].
  eapply wp_mono; [apply (replay_catches_up 0 demo_hdrs demo_base s_early 0 0 (Z.to_nat 4096) reach_early Hu)|].
  intros [] r (_ & Hp & _ & Hall). split; [exact Hp|].
  apply Hall; apply lookup_singleton_eq.
Defined.

Lemma flushed_is_durable_witness :
  reached s_durable ∧ wait_log_flush_done 1 (nodes s_durable 1) = Done (tt, nodes s_durable 1) ∧
  insert_record ∈ durable s_durable 1.
Proof.
  assert (wait_log_flush_done 1 (nodes s_durable 1) = Done (tt, nodes s_durable 1)) as Hw by (vm_compute; reflexivity).
  split; [apply reach_durable|]. split; [exact Hw|].
  apply (flushed_is_durable 0 demo_hdrs demo_base s_durable 1 1 _ insert_record reach_durable Hw).
  - apply (bool_decide_eq_true_1 _). vm_compute. reflexivity.
  - vm_compute. congruence.
Defined.

Definition r_waited : LogReplay := after (WaitForPage demo_key.1 demo_key.2 2) (replay s_read).

Lemma served_page_version_witness :
  reached s_read ∧ WaitForPage demo_key.1 demo_key.2 2 (replay s_read) = Done (true, r_waited) ∧
  wp (serve_page demo_key.1 demo_key.2 2) (λ bs _, bs = demo_final) r_waited.
Proof.
  assert (WaitForPage demo_key.1 demo_key.2 2 (replay s_read) = Done (true, r_waited)) as Hw
    by (unfold r_waited; apply run_result; vm_compute; reflexivity).
  assert (redo_all demo_fh (hist s_read demo_key) demo_page = Done (tt, demo_final)) as Hl
    by (unfold demo_final; apply run_result; vm_compute; reflexivity).
  split; [apply reach_read_both|]. split; [exact Hw|].
  eapply wp_mono; [apply (served_page_version 0 demo_hdrs demo_base s_read demo_key demo_page demo_fh 2 r_waited
    reach_read_both (lookup_singleton_eq _ _) (lookup_singleton_eq _ _)); [discriminate|exact Hw]|].
  intros bs r' (_ & _ & Hlast). apply (Hlast _ Hl). vm_compute. reflexivity.
Defined.

(** Node 2 has sent its log, of which fifty bytes have reached the file. *)
Definition s_asked : Sys := do_take 2 s_updated.

Definition torn_logs : gmap Z buffer :=
  {[ 1 := encodes [insert_record]; 2 := take 50 (encodes [update_record]) ]}.

Lemma reach_asked : reached s_asked.
Proof. apply reach_take; [apply reach_updated|vm_compute; reflexivity]. Qed.

Lemma torn_image : crash_image s_asked torn_logs.
Proof.
  intros n. destruct (decide (n = 1)) as [->|H1]; [|destruct (decide (n = 2)) as [->|H2]].
  - split; [vm_compute; reflexivity|]. exists []. split; vm_compute; reflexivity.
  - split; [vm_compute; reflexivity|]. exists (take 50 (encodes [update_record])). split; [vm_compute; reflexivity|].
    assert (sent s_asked 2 = Some (encodes [update_record])) as -> by (vm_compute; reflexivity).
    apply prefix_take.
  - assert (torn_logs !! n = None) as -> by (unfold torn_logs; by rewrite lookup_insert_ne, lookup_singleton_ne).
    split; [vm_compute; reflexivity|]. exists [].
    assert (wal (replay s_asked) = {[ 1 := encodes [insert_record] ]}) as Hw by (vm_compute; reflexivity).
    unfold wal_file. rewrite Hw, lookup_singleton_ne by done. split; [done|].
    unfold s_asked, s_updated, s_durable, s_appended, s_requested, s_inserted, s_initial, do_take, do_log, do_answered,
      do_append. cbn [sent initial]. by rewrite !fn_lookup_insert_ne by done.
Qed.

Lemma restart_recovers_witness :
  crash_image s_asked torn_logs ∧
  wp (start 0 0 [2; 1])
    (λ _ r, wal_file r 2 = [] ∧ page_at r demo_key = Some (after (redo demo_fh insert_record) demo_page))
    (boot s_asked torn_logs ∅ false ∅).
Proof.
  split; [apply torn_image|].
  eapply wp_mono; [apply (restart_recovers 0 demo_hdrs demo_base s_asked 0 0 torn_logs ∅ false ∅ [2; 1]
    reach_asked torn_image)|].
  - vm_compute. lia.
  - apply NoDup_Permutation; [apply (bool_decide_eq_true_1 _); vm_compute; reflexivity|apply NoDup_elements|].
    intros n. assert (elements (dom torn_logs) = [1; 2] ∨ elements (dom torn_logs) = [2; 1]) as [-> | ->]
      by (vm_compute; auto); set_solver.
  - intros [] r (Hw & _ & Hall). split.
    + rewrite Hw. vm_compute. reflexivity.
    + destruct (Hall demo_key demo_page demo_fh (lookup_singleton_eq _ _) (lookup_singleton_eq _ _)) as (pg & Hpg & Hat).
      rewrite Hat. f_equal. apply (f_equal (λ o, match o with Done (_, p) => p | _ => [] end)) in Hpg.
      vm_compute in Hpg |- *. congruence.
Defined.
