(* ===== verification/TxPage.v ===== *)
(** What a transaction does to a row while its node holds the row's page: the bodies
    of the loops of [core/dtx/dtx_exe.cc] between the fetch of a page and its
    release, with the accessors of [core/dtx/dtx.cc], and the same for the
    participants of two-phase commit ([compute_server/twopc_server.cc],
    [compute_server/twopc_fetch_server.cc]).

    The state is the page in the node's buffer together with the node's log.  The
    address of the buffer is a parameter: the code stores pointers into the page. *)

From S2P Require Import Prelude Common Bytes Bitmap Record RecordPage PreparedTxn LogRecord LogReplay LogBuffer LockWait.

Record HeldPage := mkHeld {
  page_data : buffer;
  is_dirty : bool;
  node_log : LogBuffer
}.

Abbreviation MP := (M HeldPage).

Definition set_data x p := mkHeld x (is_dirty p) (node_log p).
Definition set_dirty x p := mkHeld (page_data p) x (node_log p).
Definition set_log x p := mkHeld (page_data p) (is_dirty p) x.

Definition inPage {A} (m : M buffer A) : MP A := zoom page_data set_data m.
Definition inLog {A} (m : MB A) : MP A := zoom node_log set_log m.

(** ** The fields of a row *)

Definition offsetof_value : Z := 16.
Definition offsetof_value_size : Z := 24.
Definition offsetof_version : Z := 32.
Definition offsetof_prev_lsn : Z := 40.
Definition offsetof_user_insert : Z := 49.

(** Where the [DataItem] of a slot begins, behind the key. *)
Definition item_offset (fh : RmFileHdr) (slot : Z) : Z := get_slot_offset fh slot + sizeof_itemkey_t.

(** The fields that carry the lock. *)
Definition load_item_lock (item : Z) : M buffer DataItem :=
  lock ← load_uint (item + offsetof_lock) 8 ;
  ts ← load_uint (item + offsetof_timeStamp) 8 ;
  holder ← load_uint (item + offsetof_holder_node) 1 ;
  owner ← load_uint (item + offsetof_lock_owner_node) 1 ;
  mret (mkItem lock ts holder owner).

Definition store_item_lock (item : Z) (it : DataItem) : M buffer unit :=
  memcpy_to (item + offsetof_lock) (le 8 (lock it)) ;;
  memcpy_to (item + offsetof_timeStamp) (le 8 (timeStamp it)) ;;
  memcpy_to (item + offsetof_holder_node) (le 1 (holder_node it)) ;;
  memcpy_to (item + offsetof_lock_owner_node) (le 1 (lock_owner_node it)).

(** A function on these fields, run on the row in the page. *)
Definition on_item_lock {A} (item : Z) (m : M DataItem A) : M buffer A :=
  it ← load_item_lock item ;
  match m it with
  | Done (a, it') => store_item_lock item it' ;; mret a
  | Blocked => block
  | Crash e => crash e
  end.

(** A [DataItem] that a transaction keeps, its value copied. *)
Record ItemCopy : Set := mkCopy {
  c_table_id : Z;
  c_lock : DataItem;
  c_value : buffer;
  c_version : Z;
  c_prev_lsn : Z;
  c_valid : Z;
  c_user_insert : Z;
  c_commitTimeStamp : Z
}.

(** [item->value_size] bytes behind the item. *)
Definition item_value (item : Z) : M buffer buffer :=
  n ← load_sint (item + offsetof_value_size) 4 ;
  memcpy_from (item + sizeof_DataItem) n.

(** [*item.item_ptr = *orginal_item] *)
Definition copy_item (item : Z) : M buffer ItemCopy :=
  table ← load_sint item 4 ;
  lck ← load_item_lock item ;
  version ← load_uint (item + offsetof_version) 8 ;
  prev ← load_uint (item + offsetof_prev_lsn) 8 ;
  valid ← load_uint (item + offsetof_valid) 1 ;
  user ← load_uint (item + offsetof_user_insert) 1 ;
  commit ← load_uint (item + offsetof_commitTimeStamp) 8 ;
  value ← item_value item ;
  mret (mkCopy table lck value version prev valid user commit).

Section page.
(** The node, the names of the tables, and the address of the page. *)
Context (me : Z) (names : Z → buffer) (addr : Z).

(** [disk_item->value = (uint8_t* )disk_item + sizeof(DataItem)] *)
Definition relocate_value (item : Z) : M buffer unit :=
  memcpy_to (item + offsetof_value) (le 8 (addr + item + sizeof_DataItem)).

(** It returns its argument; the rollback to an older version is commented out. *)
Definition UndoDataItem (item : Z) : M buffer unit := mret tt.

Definition GetDataItemFromPageRO (start_ts : Z) (fh : RmFileHdr) (rid : Rid) (item_key : Z) : M buffer Z :=
  let item := item_offset fh (slot_no_ rid) in
  relocate_value item ;;
  disk_key ← load_uint (get_slot_offset fh (slot_no_ rid)) 8 ;
  check 139 (disk_key =? item_key) ;;
  version ← load_uint (item + offsetof_version) 8 ;
  when (start_ts <? version) (UndoDataItem item) ;;
  mret item.

(** The key that it stores for the caller, and the item. *)
Definition GetDataItemFromPageRW (fh : RmFileHdr) (rid : Rid) : M buffer (Z * Z) :=
  let item := item_offset fh (slot_no_ rid) in
  relocate_value item ;;
  disk_key ← load_uint (get_slot_offset fh (slot_no_ rid)) 8 ;
  mret (disk_key, item).

(** ** Logging what has been done to the page *)

Definition on_page_hdr (m : RmPageHdr → MB (Z * RmPageHdr)) : MP Z :=
  h ← inPage (load_RmPageHdr OFFSET_PAGE_HDR) ;
  '(lsn, h') ← inLog (m h) ;
  inPage (memcpy_to OFFSET_PAGE_HDR (enc_RmPageHdr h')) ;;
  mret lsn.

(** [compute_server->AddUpdateLog(tx_id, item, &key, rid, value, hdr, commit_ts)]:
    of [value] it copies as many bytes as the item says. *)
Definition log_update (tx_id item : Z) (key : option Z) (rid : Rid) (value : buffer) (commit_ts : Z) : MP Z :=
  bs ← inPage (memcpy_from item sizeof_DataItem) ;
  n ← inPage (load_sint (item + offsetof_value_size) 4) ;
  '(value, _) ← on_buffer value (memcpy_from 0 n) ;
  table ← inPage (load_sint item 4) ;
  on_page_hdr (λ h, AddUpdateLog me tx_id (names table) bs value key rid h commit_ts).

Definition log_lock (tx_id table : Z) (rid : Rid) (lock ts holder owner : Z) : MP Z :=
  on_page_hdr (λ h, AddLockLog me tx_id table (names table) rid lock h ts holder owner).

(** ** Reading a row *)

(** The read-only loop of [TxExe], with the page held in shared mode. *)
Definition read_row (start_ts : Z) (fh : RmFileHdr) (rid : Rid) (key : Z) : MP ItemCopy :=
  item ← inPage (GetDataItemFromPageRO start_ts fh rid key) ;
  inPage (copy_item item).

(** ** Locking a row *)

Inductive LockAnswer : Set :=
  | Acquired
  | Own
  | Held (holder_ts holder_node lock_owner_node : Z).

(** The read-write loop of [TxExe] until the page is released. *)
Definition lock_row (tx_id start_ts : Z) (fh : RmFileHdr) (table : Z) (rid : Rid) (release_imme : bool)
    : MP (Z * ItemCopy * LockAnswer) :=
  '(key, item) ← inPage (GetDataItemFromPageRW fh rid) ;
  copy ← inPage (copy_item item) ;
  it ← inPage (load_item_lock item) ;
  if lock it =? UNLOCKED then
    inPage (store_item_lock item (mkItem EXCLUSIVE_LOCKED start_ts (u8 me) (u8 me))) ;;
    when release_imme (inPage (memcpy_to (item + offsetof_lock) (le 8 UNLOCKED))) ;;
    modify (set_dirty true) ;;
    log_lock tx_id table rid EXCLUSIVE_LOCKED start_ts me me ;;
    mret (key, copy, Acquired)
  else if (lock it =? EXCLUSIVE_LOCKED) && (timeStamp it =? start_ts) then mret (key, copy, Own)
  else mret (key, copy, Held (timeStamp it) (holder_node it) (lock_owner_node it)).

(** ** Committing and aborting the change of a row *)

(** [UnlockTupleWithHandoff], and the lock word reset when nobody takes over. *)
Definition unlock_item (table : Z) (rid : Rid) (item holder_ts : Z) (ph : PendingHandoff) : MP bool :=
  inPage (on_item_lock item (write_unlocked (mkKey table (page_no_ rid) (slot_no_ rid)) holder_ts ph)).

(** The loop of [TxCommitSingle]. *)
Definition commit_row (tx_id start_ts commit_ts : Z) (fh : RmFileHdr) (rid : Rid) (data_item : ItemCopy)
    (lw_handoff : PendingHandoff) : MP bool :=
  '(item_key, item) ← inPage (GetDataItemFromPageRW fh rid) ;
  inPage (memcpy_to (item + offsetof_version) (le 8 commit_ts)) ;;
  inPage (memcpy_to (item + offsetof_commitTimeStamp) (le 8 commit_ts)) ;;
  lw_handed ← unlock_item (c_table_id data_item) rid item start_ts lw_handoff ;
  inPage (memcpy_to (item + sizeof_DataItem) (c_value data_item)) ;;
  modify (set_dirty true) ;;
  log_update tx_id item (Some item_key) rid (c_value data_item) commit_ts ;;
  mret lw_handed.

(** The loop of [TxAbortWorkLoad]. *)
Definition abort_row (tx_id start_ts : Z) (fh : RmFileHdr) (table : Z) (rid : Rid) (lw_handoff : PendingHandoff)
    : MP bool :=
  '(item_key, item) ← inPage (GetDataItemFromPageRW fh rid) ;
  lw_handed ← unlock_item table rid item start_ts lw_handoff ;
  modify (set_dirty true) ;;
  value ← inPage (item_value item) ;
  log_update tx_id item (Some item_key) rid value 0 ;;
  mret lw_handed.

(** ** The coordinator of two-phase commit on its own pages *)

(** [Get_2pc_Local_page] for a writer: with the answer the row's bytes. *)
Definition Get_2pc_Local_page (tx_id start_ts : Z) (fh : RmFileHdr) (table : Z) (rid : Rid) (item_key : Z)
    : MP (option buffer * LockAnswer) :=
  let item := item_offset fh (slot_no_ rid) in
  key ← inPage (load_uint (get_slot_offset fh (slot_no_ rid)) 8) ;
  check 41 (key =? item_key) ;;
  it ← inPage (load_item_lock item) ;
  if lock it =? UNLOCKED then
    inPage (store_item_lock item (mkItem EXCLUSIVE_LOCKED start_ts (u8 me) (u8 me))) ;;
    modify (set_dirty true) ;;
    inPage (relocate_value item) ;;
    log_lock tx_id table rid EXCLUSIVE_LOCKED start_ts me me ;;
    bs ← inPage (memcpy_from item (record_size_ fh)) ;
    mret (Some bs, Acquired)
  else if (lock it =? EXCLUSIVE_LOCKED) && (timeStamp it =? start_ts) then
    inPage (relocate_value item) ;;
    bs ← inPage (memcpy_from item (record_size_ fh)) ;
    mret (Some bs, Own)
  else mret (None, Held (timeStamp it) (holder_node it) (lock_owner_node it)).

(** The loop of [Tx2PCCommitLocal]. *)
Definition commit_row_local (tx_id start_ts commit_ts : Z) (fh : RmFileHdr) (rid : Rid) (item_key : Z)
    (data_item : ItemCopy) (lw_handoff : PendingHandoff) : MP bool :=
  let item := item_offset fh (slot_no_ rid) in
  disk_key ← inPage (load_uint (get_slot_offset fh (slot_no_ rid)) 8) ;
  check 1180 (disk_key =? item_key) ;;
  lck ← inPage (load_uint (item + offsetof_lock) 8) ;
  check 1181 (lck =? EXCLUSIVE_LOCKED) ;;
  inPage (memcpy_to (item + sizeof_DataItem) (c_value data_item)) ;;
  inPage (memcpy_to (item + offsetof_commitTimeStamp) (le 8 commit_ts)) ;;
  lw_handed ← unlock_item (c_table_id data_item) rid item start_ts lw_handoff ;
  inPage (relocate_value item) ;;
  modify (set_dirty true) ;;
  value ← inPage (item_value item) ;
  log_update tx_id item (Some disk_key) rid value commit_ts ;;
  mret lw_handed.

(** The loop of [Tx2PCAbortLocal]. *)
Definition abort_row_local (tx_id start_ts : Z) (fh : RmFileHdr) (table : Z) (rid : Rid) (item_key : Z)
    (lw_handoff : PendingHandoff) : MP bool :=
  let item := item_offset fh (slot_no_ rid) in
  inPage (relocate_value item) ;;
  lck ← inPage (load_uint (item + offsetof_lock) 8) ;
  check 1268 (lck =? EXCLUSIVE_LOCKED) ;;
  lw_handed ← unlock_item table rid item start_ts lw_handoff ;
  modify (set_dirty true) ;;
  value ← inPage (item_value item) ;
  log_update tx_id item (Some item_key) rid value 0 ;;
  mret lw_handed.

(** ** The participants of two-phase commit *)

(** [TwoPCServiceImpl::GetDataItem] for a writer. *)
Definition GetDataItem (tx_id start_ts requester_node : Z) (fh : RmFileHdr) (table : Z) (rid : Rid)
    : MP (option buffer * LockAnswer) :=
  let item := item_offset fh (slot_no_ rid) in
  it ← inPage (load_item_lock item) ;
  if lock it =? UNLOCKED then
    inPage (store_item_lock item (mkItem EXCLUSIVE_LOCKED start_ts (u8 requester_node) (u8 me))) ;;
    modify (set_dirty true) ;;
    data ← gets page_data ;
    log_lock tx_id table rid EXCLUSIVE_LOCKED start_ts requester_node me ;;
    mret (Some data, Acquired)
  else if (lock it =? EXCLUSIVE_LOCKED) && (timeStamp it =? start_ts) then
    data ← gets page_data ;
    mret (Some data, Own)
  else mret (None, Held (timeStamp it) (holder_node it) (lock_owner_node it)).

(** What a prepared commit checks besides the lock: the transaction, its
    coordinator, and the key of the row. *)
Record PreparedRow : Set := mkPreparedRow {
  p_start_ts : Z;
  p_coordinator_node : Z;
  p_key : Z
}.

(** The loop of [TwoPCServiceImpl::Commit]; the owner of the lock is the answer's second part. *)
Definition commit_row_participant (tx_id commit_ts : Z) (fh : RmFileHdr) (table : Z) (rid : Rid)
    (write_remote_data : buffer) (prepared : option PreparedRow) (lw_handoff : PendingHandoff) : MP (bool * Z) :=
  let item := item_offset fh (slot_no_ rid) in
  pri_key ← inPage (load_uint (get_slot_offset fh (slot_no_ rid)) 8) ;
  it ← inPage (load_item_lock item) ;
  check 306 (lock it =? EXCLUSIVE_LOCKED) ;;
  match prepared with
  | Some p =>
      check 308 ((lock it =? EXCLUSIVE_LOCKED) && (timeStamp it =? p_start_ts p) &&
                 (holder_node it =? p_coordinator_node p) && (lock_owner_node it =? me)) ;;
      check 311 (pri_key =? p_key p)
  | None => mret tt
  end ;;
  '(value, _) ← on_buffer write_remote_data (memcpy_from 0 (record_size_ fh - sizeof_DataItem)) ;
  inPage (memcpy_to (item + sizeof_DataItem) value) ;;
  inPage (memcpy_to (item + offsetof_commitTimeStamp) (le 8 commit_ts)) ;;
  lw_handed ← unlock_item table rid item (timeStamp it) lw_handoff ;
  inPage (relocate_value item) ;;
  modify (set_dirty true) ;;
  value ← inPage (item_value item) ;
  log_update tx_id item (Some pri_key) rid value commit_ts ;;
  mret (lw_handed, timeStamp it).

(** The loop of [TwoPCServiceImpl::Abort]. *)
Definition abort_row_participant (tx_id : Z) (fh : RmFileHdr) (table : Z) (rid : Rid)
    (lw_handoff : PendingHandoff) : MP (bool * Z) :=
  let item := item_offset fh (slot_no_ rid) in
  it ← inPage (load_item_lock item) ;
  check 395 (lock it =? EXCLUSIVE_LOCKED) ;;
  lw_handed ← unlock_item table rid item (timeStamp it) lw_handoff ;
  key ← inPage (load_uint (get_slot_offset fh (slot_no_ rid)) 8) ;
  inPage (relocate_value item) ;;
  modify (set_dirty true) ;;
  value ← inPage (item_value item) ;
  log_update tx_id item (Some key) rid value 0 ;;
  mret (lw_handed, timeStamp it).
End page.
