(* ===== verification/TxRow.v ===== *)
(** A row as the contents of its slot: the fields of the key, the [DataItem] and the
    value, one behind the other.  Reading and writing a field of the page through its
    offset is reading and updating the field of the row. *)

From S2P Require Import Prelude Common Bytes Bitmap Record RecordPage PreparedTxn LogRecord LogReplay LogBuffer LockWait TxPage.

#[local] Arguments le : simpl never.

Record Row : Set := mkRow {
  r_key : Z;
  r_table_id : Z;
  r_pad1 : Z;
  r_ptr : Z;
  r_value_size : Z;
  r_pad2 : Z;
  r_version : Z;
  r_prev_lsn : Z;
  r_valid : Z;
  r_user_insert : Z;
  r_lock : DataItem;
  r_pad3 : Z;
  r_commit_ts : Z;
  r_value : buffer
}.

Definition fields (r : Row) : list buffer :=
  [le 8 (r_key r); le 4 (r_table_id r); le 4 (r_pad1 r); le 8 (lock (r_lock r)); le 8 (r_ptr r);
   le 4 (r_value_size r); le 4 (r_pad2 r); le 8 (r_version r); le 8 (r_prev_lsn r); le 1 (r_valid r);
   le 1 (r_user_insert r); le 1 (holder_node (r_lock r)); le 1 (lock_owner_node (r_lock r)); le 4 (r_pad3 r);
   le 8 (timeStamp (r_lock r)); le 8 (r_commit_ts r); r_value r].

Definition enc_row (r : Row) : buffer := concat (fields r).

(** The bytes of the [DataItem]. *)
Definition enc_item (r : Row) : buffer := concat (take 15 (drop 1 (fields r))).

Record row_fits (r : Row) : Prop := {
  rf_key : uint_fits 8 (r_key r);
  rf_table : sint_fits 4 (r_table_id r);
  rf_size : sint_fits 4 (r_value_size r);
  rf_version : uint_fits 8 (r_version r);
  rf_prev : uint_fits 8 (r_prev_lsn r);
  rf_valid : uint_fits 1 (r_valid r);
  rf_user : uint_fits 1 (r_user_insert r);
  rf_lock : uint_fits 8 (lock (r_lock r));
  rf_ts : uint_fits 8 (timeStamp (r_lock r));
  rf_holder : uint_fits 1 (holder_node (r_lock r));
  rf_owner : uint_fits 1 (lock_owner_node (r_lock r));
  rf_commit : uint_fits 8 (r_commit_ts r);
  rf_value : len (r_value r) = r_value_size r
}.

(** Updates of one field. *)
Definition with_ptr x r := mkRow (r_key r) (r_table_id r) (r_pad1 r) x (r_value_size r) (r_pad2 r) (r_version r) (r_prev_lsn r) (r_valid r) (r_user_insert r) (r_lock r) (r_pad3 r) (r_commit_ts r) (r_value r).
Definition with_version x r := mkRow (r_key r) (r_table_id r) (r_pad1 r) (r_ptr r) (r_value_size r) (r_pad2 r) x (r_prev_lsn r) (r_valid r) (r_user_insert r) (r_lock r) (r_pad3 r) (r_commit_ts r) (r_value r).
Definition with_item_lock x r := mkRow (r_key r) (r_table_id r) (r_pad1 r) (r_ptr r) (r_value_size r) (r_pad2 r) (r_version r) (r_prev_lsn r) (r_valid r) (r_user_insert r) x (r_pad3 r) (r_commit_ts r) (r_value r).
Definition with_commit_ts x r := mkRow (r_key r) (r_table_id r) (r_pad1 r) (r_ptr r) (r_value_size r) (r_pad2 r) (r_version r) (r_prev_lsn r) (r_valid r) (r_user_insert r) (r_lock r) (r_pad3 r) x (r_value r).
Definition with_value x r := mkRow (r_key r) (r_table_id r) (r_pad1 r) (r_ptr r) (r_value_size r) (r_pad2 r) (r_version r) (r_prev_lsn r) (r_valid r) (r_user_insert r) (r_lock r) (r_pad3 r) (r_commit_ts r) x.

Lemma len_enc_row r : len (enc_row r) = sizeof_itemkey_t + sizeof_DataItem + len (r_value r).
Proof. unfold enc_row, fields. cbn [concat]. rewrite app_nil_r. len. unfold sizeof_itemkey_t, sizeof_DataItem. lia. Qed.

Lemma len_enc_item r : len (enc_item r) = sizeof_DataItem.
Proof. unfold enc_item, fields. cbn [take drop concat]. rewrite app_nil_r. len. done. Qed.
#[export] Hint Rewrite len_enc_row len_enc_item : len.

Lemma enc_row_split r : enc_row r = le 8 (r_key r) ++ enc_item r ++ r_value r.
Proof. unfold enc_row, enc_item, fields. cbn [take drop concat]. rewrite !app_nil_r, <- !app_assoc. done. Qed.

(** ** Writing and reading one of a sequence of fields *)

Lemma splice_same off bs buf : stored buf off bs → splice off bs buf = buf.
Proof.
  intros (pre & post & -> & <-). unfold splice, len. rewrite Nat2Z.id, take_app_length. f_equal.
  f_equal. by rewrite <- drop_drop, drop_app_length, drop_app_length.
Qed.

Lemma splice_splice off l k buf :
  0 ≤ off → len l = len k → off + len l ≤ len buf → splice off k (splice off l buf) = splice off k buf.
Proof.
  intros H0 Hl Hb. apply list_eq. intros i. unfold len in *.
  rewrite !splice_lookup by (rewrite ?len_splice; unfold len; lia).
  repeat case_decide; try done; lia.
Qed.

(** A write inside of what has been written. *)
Lemma splice_inside off a b b' c buf :
  0 ≤ off → len b = len b' → off + len (a ++ b ++ c) ≤ len buf →
  splice (off + len a) b' (splice off (a ++ b ++ c) buf) = splice off (a ++ b' ++ c) buf.
Proof.
  intros H0 Hb Hl. apply list_eq. intros i.
  assert (len (a ++ b' ++ c) = len (a ++ b ++ c)) as Hs by (len; lia).
  assert (len (splice off (a ++ b ++ c) buf) = len buf) as Hlen by (by rewrite len_splice).
  pose proof (len_nonneg a). pose proof (len_nonneg c).
  rewrite splice_lookup; [|lia|rewrite Hlen; len; lia].
  rewrite !splice_lookup by (len; lia). len. unfold len in *.
  repeat rewrite length_app in *. repeat case_decide; try lia; try done.
  - rewrite lookup_app_r by lia. rewrite lookup_app_l by lia. f_equal. lia.
  - destruct (decide (i - Z.to_nat off < length a)%nat).
    + by rewrite !lookup_app_l by lia.
    + rewrite !(lookup_app_r a), !lookup_app_r by lia. f_equal. lia.
Qed.

Lemma concat_insert (fs : list buffer) i b :
  (i < length fs)%nat → concat (<[i := b]> fs) = concat (take i fs) ++ b ++ concat (drop (S i) fs).
Proof.
  intros Hi. rewrite insert_take_drop by done. by rewrite concat_app.
Qed.

Lemma concat_split (fs : list buffer) i b :
  fs !! i = Some b → concat fs = concat (take i fs) ++ b ++ concat (drop (S i) fs).
Proof. intros Hi. rewrite <- (take_drop_middle fs i b) at 1 by done. by rewrite concat_app. Qed.

Lemma wp_write_nth i fs b b' off off' (Q : unit → buffer → Prop) buf :
  fs !! i = Some b → len b = len b' → 0 ≤ off → off + len (concat fs) ≤ len buf →
  off' = off + len (concat (take i fs)) →
  Q tt (splice off (concat (<[i := b']> fs)) buf) →
  wp (memcpy_to off' b') Q (splice off (concat fs) buf).
Proof.
  intros Hi Hb H0 Hl -> HQ. pose proof (concat_split fs i b Hi) as E. apply lookup_lt_Some in Hi as Hlt.
  pose proof (len_nonneg (concat (take i fs))). pose proof (len_nonneg (concat (drop (S i) fs))).
  assert (len (concat fs) = len (concat (take i fs)) + len b + len (concat (drop (S i) fs))) as Hlen
    by (rewrite E at 1; len; lia).
  apply wp_memcpy_to; [lia|rewrite len_splice by lia; lia|].
  rewrite concat_insert in HQ by done. rewrite E at 1. rewrite splice_inside; [done|done|done|].
  rewrite <- E. lia.
Qed.

Lemma wp_read_nth i fs b off off' n (Q : buffer → buffer → Prop) buf :
  fs !! i = Some b → 0 ≤ off → off + len (concat fs) ≤ len buf →
  off' = off + len (concat (take i fs)) → n = len b →
  Q b (splice off (concat fs) buf) → wp (memcpy_from off' n) Q (splice off (concat fs) buf).
Proof.
  intros Hi H0 Hl -> -> HQ.
  assert (stored (splice off (concat fs) buf) off (concat fs)) as Hs by (by apply stored_splice).
  pose proof (concat_split fs i b Hi) as E. rewrite E in Hs at 2. apply stored_app in Hs as [_ Hs].
  by eapply wp_read.
Qed.

(** ** The fields of the row in a page *)

Section row.
Context (off : Z) (pg : buffer).

(** The row lies in the page from [off] on. *)
Definition row_in (r : Row) : Prop := 0 ≤ off ∧ off + len (enc_row r) ≤ len pg.

Abbreviation item := (off + sizeof_itemkey_t) (only parsing).
Abbreviation page r := (splice off (enc_row r) pg) (only parsing).

Ltac field i :=
  intros;
  lazymatch goal with
  | H : row_in ?r |- wp (memcpy_to _ _) _ _ =>
      destruct H as [Hoff Hend];
      eapply (wp_write_nth i (fields r)); [reflexivity|len; try done; try lia|exact Hoff|exact Hend| |done];
      unfold sizeof_itemkey_t, sizeof_DataItem; cbn [take fields concat]; len; unfold sizeof_DataItem in *; lia
  | H : row_in ?r |- wp (memcpy_from _ _) _ _ =>
      destruct H as [Hoff Hend];
      eapply (wp_read_nth i (fields r)); [reflexivity|exact Hoff|exact Hend| |len; done|done];
      unfold sizeof_itemkey_t, sizeof_DataItem; cbn [take fields concat]; len; lia
  end.

Lemma wp_write_ptr r x (Q : unit → buffer → Prop) :
  row_in r → Q tt (page (with_ptr x r)) → wp (memcpy_to (item + offsetof_value) (le 8 x)) Q (page r).
Proof using Type. unfold offsetof_value. field 4%nat. Qed.

Lemma wp_write_version r x (Q : unit → buffer → Prop) :
  row_in r → Q tt (page (with_version x r)) → wp (memcpy_to (item + offsetof_version) (le 8 x)) Q (page r).
Proof using Type. unfold offsetof_version. field 7%nat. Qed.

Lemma wp_write_commit_ts r x (Q : unit → buffer → Prop) :
  row_in r → Q tt (page (with_commit_ts x r)) → wp (memcpy_to (item + offsetof_commitTimeStamp) (le 8 x)) Q (page r).
Proof using Type. unfold offsetof_commitTimeStamp. field 15%nat. Qed.

Lemma wp_write_value r v (Q : unit → buffer → Prop) :
  row_in r → len v = len (r_value r) → Q tt (page (with_value v r)) →
  wp (memcpy_to (item + sizeof_DataItem) v) Q (page r).
Proof using Type. field 16%nat. Qed.

Lemma wp_write_lock r x (Q : unit → buffer → Prop) :
  row_in r →
  Q tt (page (with_item_lock (mkItem x (timeStamp (r_lock r)) (holder_node (r_lock r)) (lock_owner_node (r_lock r))) r)) →
  wp (memcpy_to (item + offsetof_lock) (le 8 x)) Q (page r).
Proof using Type. unfold offsetof_lock. field 3%nat. Qed.

Lemma wp_write_timeStamp r x (Q : unit → buffer → Prop) :
  row_in r →
  Q tt (page (with_item_lock (mkItem (lock (r_lock r)) x (holder_node (r_lock r)) (lock_owner_node (r_lock r))) r)) →
  wp (memcpy_to (item + offsetof_timeStamp) (le 8 x)) Q (page r).
Proof using Type. unfold offsetof_timeStamp. field 14%nat. Qed.

Lemma wp_write_holder r x (Q : unit → buffer → Prop) :
  row_in r →
  Q tt (page (with_item_lock (mkItem (lock (r_lock r)) (timeStamp (r_lock r)) x (lock_owner_node (r_lock r))) r)) →
  wp (memcpy_to (item + offsetof_holder_node) (le 1 x)) Q (page r).
Proof using Type. unfold offsetof_holder_node. field 11%nat. Qed.

Lemma wp_write_owner r x (Q : unit → buffer → Prop) :
  row_in r →
  Q tt (page (with_item_lock (mkItem (lock (r_lock r)) (timeStamp (r_lock r)) (holder_node (r_lock r)) x) r)) →
  wp (memcpy_to (item + offsetof_lock_owner_node) (le 1 x)) Q (page r).
Proof using Type. unfold offsetof_lock_owner_node. field 12%nat. Qed.

Ltac uint_field i :=
  let Hin := fresh in let Hf := fresh in let HQ := fresh in
  intros Hin Hf HQ; unfold load_uint; apply wp_bind; destruct Hin as [Hoff Hend];
  lazymatch goal with
  | |- wp _ _ (splice _ (enc_row ?r) _) =>
      eapply (wp_read_nth i (fields r)); [reflexivity|exact Hoff|exact Hend| |len; done|]
  end;
  [unfold sizeof_itemkey_t; cbn [take fields concat]; len; lia|];
  apply wp_ret; rewrite unle_le; [exact HQ|apply Hf].

Lemma wp_load_key r (Q : Z → buffer → Prop) :
  row_in r → row_fits r → Q (r_key r) (page r) → wp (load_uint off 8) Q (page r).
Proof using Type. uint_field 0%nat. Qed.
Lemma wp_load_version r (Q : Z → buffer → Prop) :
  row_in r → row_fits r → Q (r_version r) (page r) → wp (load_uint (item + offsetof_version) 8) Q (page r).
Proof using Type. unfold offsetof_version. uint_field 7%nat. Qed.
Lemma wp_load_prev_lsn r (Q : Z → buffer → Prop) :
  row_in r → row_fits r → Q (r_prev_lsn r) (page r) → wp (load_uint (item + offsetof_prev_lsn) 8) Q (page r).
Proof using Type. unfold offsetof_prev_lsn. uint_field 8%nat. Qed.
Lemma wp_load_valid r (Q : Z → buffer → Prop) :
  row_in r → row_fits r → Q (r_valid r) (page r) → wp (load_uint (item + offsetof_valid) 1) Q (page r).
Proof using Type. unfold offsetof_valid. uint_field 9%nat. Qed.
Lemma wp_load_user_insert r (Q : Z → buffer → Prop) :
  row_in r → row_fits r → Q (r_user_insert r) (page r) → wp (load_uint (item + offsetof_user_insert) 1) Q (page r).
Proof using Type. unfold offsetof_user_insert. uint_field 10%nat. Qed.
Lemma wp_load_commit_ts r (Q : Z → buffer → Prop) :
  row_in r → row_fits r → Q (r_commit_ts r) (page r) → wp (load_uint (item + offsetof_commitTimeStamp) 8) Q (page r).
Proof using Type. unfold offsetof_commitTimeStamp. uint_field 15%nat. Qed.
Lemma wp_load_lock r (Q : Z → buffer → Prop) :
  row_in r → row_fits r → Q (lock (r_lock r)) (page r) → wp (load_uint (item + offsetof_lock) 8) Q (page r).
Proof using Type. unfold offsetof_lock. uint_field 3%nat. Qed.
Lemma wp_load_timeStamp r (Q : Z → buffer → Prop) :
  row_in r → row_fits r → Q (timeStamp (r_lock r)) (page r) → wp (load_uint (item + offsetof_timeStamp) 8) Q (page r).
Proof using Type. unfold offsetof_timeStamp. uint_field 14%nat. Qed.
Lemma wp_load_holder r (Q : Z → buffer → Prop) :
  row_in r → row_fits r → Q (holder_node (r_lock r)) (page r) → wp (load_uint (item + offsetof_holder_node) 1) Q (page r).
Proof using Type. unfold offsetof_holder_node. uint_field 11%nat. Qed.
Lemma wp_load_owner r (Q : Z → buffer → Prop) :
  row_in r → row_fits r → Q (lock_owner_node (r_lock r)) (page r) →
  wp (load_uint (item + offsetof_lock_owner_node) 1) Q (page r).
Proof using Type. unfold offsetof_lock_owner_node. uint_field 12%nat. Qed.

(** Updates keep the row where it is, and its fields in range. *)
Lemma row_in_ptr x r : row_in r → row_in (with_ptr x r). Proof using Type. done. Qed.
Lemma row_in_version x r : row_in r → row_in (with_version x r). Proof using Type. done. Qed.
Lemma row_in_lock x r : row_in r → row_in (with_item_lock x r). Proof using Type. done. Qed.
Lemma row_in_commit_ts x r : row_in r → row_in (with_commit_ts x r). Proof using Type. done. Qed.
Lemma row_in_value x r : len x = len (r_value r) → row_in r → row_in (with_value x r).
Proof using Type. unfold row_in. len. simpl. by intros ->. Qed.

(** The item as a whole, and what its table and its size say. *)
Lemma wp_load_item r (Q : buffer → buffer → Prop) :
  row_in r → Q (enc_item r) (page r) → wp (memcpy_from item sizeof_DataItem) Q (page r).
Proof using Type.
  intros [Hoff Hend] HQ. rewrite enc_row_split in *.
  replace (le 8 (r_key r) ++ enc_item r ++ r_value r) with (concat [le 8 (r_key r); enc_item r; r_value r]) in *
    by (cbn [concat]; by rewrite app_nil_r).
  eapply (wp_read_nth 1); [reflexivity|exact Hoff|exact Hend| |by len|exact HQ].
  cbn [take concat]. len. done.
Qed.

Ltac sint_field i :=
  let Hin := fresh in let Hf := fresh in let HQ := fresh in
  intros Hin Hf HQ; unfold load_sint; apply wp_bind; destruct Hin as [Hoff Hend];
  lazymatch goal with
  | |- wp _ _ (splice _ (enc_row ?r) _) =>
      eapply (wp_read_nth i (fields r)); [reflexivity|exact Hoff|exact Hend| |len; done|]
  end;
  [unfold sizeof_itemkey_t; cbn [take fields concat]; len; lia|];
  apply wp_ret; rewrite sint_unle_le; [exact HQ|lia|apply Hf].

Lemma wp_load_table_id r (Q : Z → buffer → Prop) :
  row_in r → row_fits r → Q (r_table_id r) (page r) → wp (load_sint item 4) Q (page r).
Proof using Type. sint_field 1%nat. Qed.
Lemma wp_load_value_size r (Q : Z → buffer → Prop) :
  row_in r → row_fits r → Q (r_value_size r) (page r) → wp (load_sint (item + offsetof_value_size) 4) Q (page r).
Proof using Type. unfold offsetof_value_size. sint_field 5%nat. Qed.

Lemma wp_item_value r (Q : buffer → buffer → Prop) :
  row_in r → row_fits r → Q (r_value r) (page r) → wp (item_value item) Q (page r).
Proof using Type.
  intros Hin Hf HQ. unfold item_value. apply wp_bind. apply wp_load_value_size; [done..|].
  destruct Hin as [Hoff Hend].
  eapply (wp_read_nth 16 (fields r)); [reflexivity|exact Hoff|exact Hend| | |exact HQ].
  - unfold sizeof_itemkey_t, sizeof_DataItem. cbn [take fields concat]. len. lia.
  - symmetry. apply Hf.
Qed.

Lemma wp_load_item_lock r (Q : DataItem → buffer → Prop) :
  row_in r → row_fits r → Q (r_lock r) (page r) → wp (load_item_lock item) Q (page r).
Proof using Type.
  intros Hin Hf HQ. unfold load_item_lock. wp_step. apply wp_load_lock; [done..|]. wp_step.
  apply wp_load_timeStamp; [done..|]. wp_step. apply wp_load_holder; [done..|]. wp_step.
  apply wp_load_owner; [done..|]. wp_step. by destruct (r_lock r).
Qed.

Lemma wp_store_item_lock r it (Q : unit → buffer → Prop) :
  row_in r → Q tt (page (with_item_lock it r)) → wp (store_item_lock item it) Q (page r).
Proof using Type.
  intros Hin HQ. unfold store_item_lock. wp_step. apply wp_write_lock; [done|]. wp_step.
  apply wp_write_timeStamp; [done|]. wp_step. apply wp_write_holder; [done|].
  apply wp_write_owner; [done|]. by destruct it.
Qed.

Lemma wp_on_item_lock {A} r (m : M DataItem A) a it (Q : A → buffer → Prop) :
  row_in r → row_fits r → m (r_lock r) = Done (a, it) → Q a (page (with_item_lock it r)) →
  wp (on_item_lock item m) Q (page r).
Proof using Type.
  intros Hin Hf E HQ. unfold on_item_lock. wp_step. apply wp_load_item_lock; [done..|]. rewrite E.
  wp_step. apply wp_store_item_lock; [done|]. by wp_step.
Qed.

(** What the transaction gets of the row. *)
Definition copy_of (r : Row) : ItemCopy :=
  mkCopy (r_table_id r) (r_lock r) (r_value r) (r_version r) (r_prev_lsn r) (r_valid r) (r_user_insert r) (r_commit_ts r).

Lemma wp_copy_item r (Q : ItemCopy → buffer → Prop) :
  row_in r → row_fits r → Q (copy_of r) (page r) → wp (copy_item item) Q (page r).
Proof using Type.
  intros Hin Hf HQ. unfold copy_item. wp_step. apply wp_load_table_id; [done..|]. wp_step.
  apply wp_load_item_lock; [done..|]. wp_step. apply wp_load_version; [done..|]. wp_step.
  apply wp_load_prev_lsn; [done..|]. wp_step. apply wp_load_valid; [done..|]. wp_step.
  apply wp_load_user_insert; [done..|]. wp_step. apply wp_load_commit_ts; [done..|]. wp_step.
  apply wp_item_value; [done..|]. by wp_step.
Qed.

Lemma wp_relocate_value addr r (Q : unit → buffer → Prop) :
  row_in r → Q tt (page (with_ptr (addr + item + sizeof_DataItem) r)) → wp (relocate_value addr item) Q (page r).
Proof using Type. intros. unfold relocate_value. by apply wp_write_ptr. Qed.
End row.

Lemma row_fits_ptr x r : row_fits r → row_fits (with_ptr x r). Proof. by destruct 1. Qed.
Lemma row_fits_version x r : uint_fits 8 x → row_fits r → row_fits (with_version x r).
Proof. intros ?. by destruct 1. Qed.
Lemma row_fits_commit_ts x r : uint_fits 8 x → row_fits r → row_fits (with_commit_ts x r).
Proof. intros ?. by destruct 1. Qed.
Lemma row_fits_value x r : len x = r_value_size r → row_fits r → row_fits (with_value x r).
Proof. intros ?. by destruct 1. Qed.

Record item_lock_fits (it : DataItem) : Prop := {
  lf_lock : uint_fits 8 (lock it);
  lf_ts : uint_fits 8 (timeStamp it);
  lf_holder : uint_fits 1 (holder_node it);
  lf_owner : uint_fits 1 (lock_owner_node it)
}.
Lemma row_fits_lock it r : item_lock_fits it → row_fits r → row_fits (with_item_lock it r).
Proof. intros []. by destruct 1. Qed.
Lemma row_fits_item_lock r : row_fits r → item_lock_fits (r_lock r). Proof. by destruct 1. Qed.
Create HintDb row.
#[export] Hint Resolve row_in_ptr row_in_version row_in_lock row_in_commit_ts row_in_value
  row_fits_ptr row_fits_version row_fits_commit_ts row_fits_value row_fits_lock row_fits_item_lock : row.
