(* ===== verification/TxSpec.v ===== *)
(** What the row operations of [TxPage] promise: each changes the fields of one row,
    and logs the change with the next version of the page. *)

From S2P Require Import Prelude Common Bytes Bitmap Record RecordPage PreparedTxn LogRecord LogFormat LogReplay LogBuffer LockWait Redo ReplaySystem TxPage TxRow.

#[local] Arguments le : simpl never.

(** The row [r] lies in the slot. *)
Definition row_at (fh : RmFileHdr) (slot : Z) (r : Row) (pg : buffer) : Prop :=
  stored pg (get_slot_offset fh slot) (enc_row r).

Definition put_row (fh : RmFileHdr) (slot : Z) (r : Row) (pg : buffer) : buffer :=
  splice (get_slot_offset fh slot) (enc_row r) pg.

(** The page with its next version. *)
Definition put_version (lsn : Z) (pg : buffer) : buffer :=
  splice OFFSET_PAGE_HDR (enc_RmPageHdr (next_hdr (hdr_at pg) lsn)) pg.

Lemma row_at_in fh slot r pg : row_at fh slot r pg → row_in (get_slot_offset fh slot) pg r.
Proof. intros H%stored_bounds. exact H. Qed.

Lemma row_at_put fh slot r pg : row_at fh slot r pg → put_row fh slot r pg = pg.
Proof. apply splice_same. Qed.

Lemma row_at_put_row fh slot r pg : row_in (get_slot_offset fh slot) pg r → row_at fh slot r (put_row fh slot r pg).
Proof. intros []. by apply stored_splice. Qed.

(** ** The header lies in front of the rows *)

Definition behind_header (fh : RmFileHdr) (slot : Z) : Prop := sizeof_RmPageHdr ≤ get_slot_offset fh slot.

Lemma hdr_at_splice off bs pg :
  sizeof_RmPageHdr ≤ off → off + len bs ≤ len pg → hdr_at (splice off bs pg) = hdr_at pg.
Proof.
  unfold sizeof_RmPageHdr. intros H0 Hl. unfold hdr_at.
  rewrite !slice_splice_other by lia. done.
Qed.

Lemma hdr_at_put_row fh slot r pg :
  behind_header fh slot → row_in (get_slot_offset fh slot) pg r → hdr_at (put_row fh slot r pg) = hdr_at pg.
Proof. intros ? []. by apply hdr_at_splice. Qed.

Lemma len_put_row fh slot r pg : row_in (get_slot_offset fh slot) pg r → len (put_row fh slot r pg) = len pg.
Proof. intros []. by apply len_splice. Qed.

Lemma len_put_version lsn pg : sizeof_RmPageHdr ≤ len pg → len (put_version lsn pg) = len pg.
Proof. intros. apply len_splice; [done|]. by rewrite len_enc_RmPageHdr. Qed.

Lemma page_LLSN_put_version lsn pg :
  uint_fits 8 lsn → sizeof_RmPageHdr ≤ len pg → page_LLSN (put_version lsn pg) = lsn.
Proof. intros. by apply (page_LLSN_write_hdr (next_hdr _ _)). Qed.

(** The version of a page does not touch its rows. *)
Lemma slice_put_version off n lsn pg :
  sizeof_RmPageHdr ≤ off → sizeof_RmPageHdr ≤ len pg → slice off n (put_version lsn pg) = slice off n pg.
Proof.
  intros. apply slice_splice_other; rewrite ?len_enc_RmPageHdr; unfold sizeof_RmPageHdr, OFFSET_PAGE_HDR in *; try done; lia.
Qed.

Lemma row_at_put_version fh slot r lsn pg :
  behind_header fh slot → sizeof_RmPageHdr ≤ len pg → row_at fh slot r pg → row_at fh slot r (put_version lsn pg).
Proof.
  intros Hb Hl. unfold row_at. rewrite !stored_slice, len_put_version by done.
  intros (? & ? & ?). by rewrite slice_put_version.
Qed.

(** Another row stays as it is. *)
Lemma row_at_put_other fh slot slot' r r' pg :
  row_in (get_slot_offset fh slot) pg r → row_at fh slot' r' pg →
  get_slot_offset fh slot + len (enc_row r) ≤ get_slot_offset fh slot' ∨
  get_slot_offset fh slot' + len (enc_row r') ≤ get_slot_offset fh slot →
  row_at fh slot' r' (put_row fh slot r pg).
Proof.
  intros Hin Hat Hd. unfold row_at in *. rewrite stored_slice in *. destruct Hin as [H0 H1].
  rewrite len_put_row by done. destruct Hat as (? & ? & Hs). split; [done|]. split; [done|].
  unfold put_row. rewrite slice_splice_other; [done|done|done|done|lia].
Qed.

(** ** The calls *)

Inductive RowCall : Set :=
  | CRead (start_ts : Z) (rid : Rid) (key : Z)
  | CLock (tx_id start_ts table : Z) (rid : Rid) (release_imme : bool)
  | CCommit (tx_id start_ts commit_ts : Z) (rid : Rid) (data_item : ItemCopy) (ph : PendingHandoff)
  | CAbort (tx_id start_ts table : Z) (rid : Rid) (ph : PendingHandoff)
  | CLockLocal (tx_id start_ts table : Z) (rid : Rid) (key : Z)
  | CCommitLocal (tx_id start_ts commit_ts : Z) (rid : Rid) (key : Z) (data_item : ItemCopy) (ph : PendingHandoff)
  | CAbortLocal (tx_id start_ts table : Z) (rid : Rid) (key : Z) (ph : PendingHandoff)
  | CLockParticipant (tx_id start_ts requester table : Z) (rid : Rid)
  | CCommitParticipant (tx_id commit_ts table : Z) (rid : Rid) (value : buffer) (prepared : option PreparedRow)
      (ph : PendingHandoff)
  | CAbortParticipant (tx_id table : Z) (rid : Rid) (ph : PendingHandoff).

Definition call_rid (c : RowCall) : Rid :=
  match c with
  | CRead _ rid _ | CLock _ _ _ rid _ | CCommit _ _ _ rid _ _ | CAbort _ _ _ rid _ | CLockLocal _ _ _ rid _
  | CCommitLocal _ _ _ rid _ _ _ | CAbortLocal _ _ _ rid _ _ | CLockParticipant _ _ _ _ rid
  | CCommitParticipant _ _ _ rid _ _ _ | CAbortParticipant _ _ rid _ => rid
  end.

Section calls.
Context (me : Z) (names : Z → buffer) (addr : Z) (fh : RmFileHdr).

Definition run_call (c : RowCall) : MP unit :=
  match c with
  | CRead ts rid key => read_row addr ts fh rid key ;; mret tt
  | CLock tx ts table rid imm => lock_row me names addr tx ts fh table rid imm ;; mret tt
  | CCommit tx ts cts rid it ph => commit_row me names addr tx ts cts fh rid it ph ;; mret tt
  | CAbort tx ts table rid ph => abort_row me names addr tx ts fh table rid ph ;; mret tt
  | CLockLocal tx ts table rid key => Get_2pc_Local_page me names addr tx ts fh table rid key ;; mret tt
  | CCommitLocal tx ts cts rid key it ph => commit_row_local me names addr tx ts cts fh rid key it ph ;; mret tt
  | CAbortLocal tx ts table rid key ph => abort_row_local me names addr tx ts fh table rid key ph ;; mret tt
  | CLockParticipant tx ts req table rid => GetDataItem me names tx ts req fh table rid ;; mret tt
  | CCommitParticipant tx cts table rid v p ph => commit_row_participant me names addr tx cts fh table rid v p ph ;; mret tt
  | CAbortParticipant tx table rid ph => abort_row_participant me names addr tx fh table rid ph ;; mret tt
  end.

(** The row belongs to the transaction, and the handoff has been prepared for it. *)
Definition owned (ts : Z) (r : Row) : Prop := lock (r_lock r) = EXCLUSIVE_LOCKED ∧ timeStamp (r_lock r) = ts.
Definition prepared_for (table : Z) (rid : Rid) (ts : Z) (ph : PendingHandoff) : Prop :=
  prepared ph = true ∧ h_key ph = mkKey table (page_no_ rid) (slot_no_ rid) ∧ source_holder_ts ph = ts ∧
  uint_fits 8 (new_holder_ts ph).

(** When a call may be made on the row. *)
Definition call_ok (c : RowCall) (r : Row) : Prop :=
  match c with
  | CRead _ _ key => r_key r = key
  | CLock _ ts table _ _ => r_table_id r = table ∧ uint_fits 8 ts
  | CCommit _ ts cts rid it ph =>
      owned ts r ∧ prepared_for (c_table_id it) rid ts ph ∧ len (c_value it) = r_value_size r ∧
      uint_fits 8 cts ∧ Forall is_byte (c_value it)
  | CAbort _ ts table rid ph => owned ts r ∧ prepared_for table rid ts ph
  | CLockLocal _ ts table _ key =>
      r_key r = key ∧ r_table_id r = table ∧ uint_fits 8 ts ∧ record_size_ fh = sizeof_DataItem + r_value_size r
  | CCommitLocal _ ts cts rid key it ph =>
      r_key r = key ∧ owned ts r ∧ prepared_for (c_table_id it) rid ts ph ∧ len (c_value it) = r_value_size r ∧
      uint_fits 8 cts ∧ Forall is_byte (c_value it)
  | CAbortLocal _ ts table rid key ph => r_key r = key ∧ owned ts r ∧ prepared_for table rid ts ph
  | CLockParticipant _ ts _ table _ => r_table_id r = table ∧ uint_fits 8 ts
  | CCommitParticipant _ cts table rid v p ph =>
      owned (timeStamp (r_lock r)) r ∧ prepared_for table rid (timeStamp (r_lock r)) ph ∧
      record_size_ fh = sizeof_DataItem + r_value_size r ∧ r_value_size r ≤ len v ∧ uint_fits 8 cts ∧ Forall is_byte v ∧
      match p with
      | Some p => timeStamp (r_lock r) = p_start_ts p ∧ holder_node (r_lock r) = p_coordinator_node p ∧
                  lock_owner_node (r_lock r) = me ∧ r_key r = p_key p
      | None => True
      end
  | CAbortParticipant _ table rid ph =>
      owned (timeStamp (r_lock r)) r ∧ prepared_for table rid (timeStamp (r_lock r)) ph
  end.

(** What becomes of the lock of the row. *)
Definition unlocked (ph : PendingHandoff) (it : DataItem) : DataItem :=
  if new_holder_ts ph =? 0 then mkItem UNLOCKED (timeStamp it) (holder_node it) (lock_owner_node it)
  else mkItem (lock it) (new_holder_ts ph) (u8 (new_holder_node ph)) (u8 (new_holder_node ph)).

Definition update_record (tx : Z) (rid : Rid) (r : Row) : LogRecord :=
  new_UpdateLogRecord 0 me tx (mkRecord (r_key r) (enc_item r ++ r_value r)) rid (names (r_table_id r)) None.
Definition lock_record (tx table : Z) (rid : Rid) (it : DataItem) : LogRecord :=
  new_LockLogRecord 0 me tx table (names table) rid (lock it) (timeStamp it) (holder_node it) (lock_owner_node it).

Definition located (slot : Z) (r : Row) : Row := with_ptr (addr + item_offset fh slot + sizeof_DataItem) r.

Definition locked_by (ts holder : Z) : DataItem := mkItem EXCLUSIVE_LOCKED ts (u8 holder) (u8 me).

(** The row afterwards, and the record of the change. *)
Definition lock_effect (tx ts holder table : Z) (rid : Rid) (imm : bool) (r : Row) : Row * option LogRecord :=
  if lock (r_lock r) =? UNLOCKED then
    let it := locked_by ts holder in
    (with_item_lock (if imm then mkItem UNLOCKED (timeStamp it) (holder_node it) (lock_owner_node it) else it) r,
     Some (lock_record tx table rid it))
  else (r, None).

Definition call_effect (c : RowCall) (r : Row) : Row * option LogRecord :=
  match c with
  | CRead _ rid _ => (located (slot_no_ rid) r, None)
  | CLock tx ts table rid imm => lock_effect tx ts me table rid imm (located (slot_no_ rid) r)
  | CCommit tx _ cts rid it ph =>
      let r' := with_value (c_value it) (with_item_lock (unlocked ph (r_lock r))
                  (with_commit_ts cts (with_version cts (located (slot_no_ rid) r)))) in
      (r', Some (update_record tx rid r'))
  | CAbort tx _ _ rid ph | CAbortLocal tx _ _ rid _ ph | CAbortParticipant tx _ rid ph =>
      let r' := with_item_lock (unlocked ph (r_lock r)) (located (slot_no_ rid) r) in
      (r', Some (update_record tx rid r'))
  | CLockLocal tx ts table rid _ =>
      lock_effect tx ts me table rid false
        (if (lock (r_lock r) =? UNLOCKED) || ((lock (r_lock r) =? EXCLUSIVE_LOCKED) && (timeStamp (r_lock r) =? ts))
         then located (slot_no_ rid) r else r)
  | CCommitLocal tx _ cts rid _ it ph =>
      let r' := located (slot_no_ rid) (with_item_lock (unlocked ph (r_lock r))
                  (with_commit_ts cts (with_value (c_value it) r))) in
      (r', Some (update_record tx rid r'))
  | CLockParticipant tx ts req table rid => lock_effect tx ts req table rid false r
  | CCommitParticipant tx cts _ rid v _ ph =>
      let r' := located (slot_no_ rid) (with_item_lock (unlocked ph (r_lock r))
                  (with_commit_ts cts (with_value (take (Z.to_nat (r_value_size r)) v) r))) in
      (r', Some (update_record tx rid r'))
  end.

(** What the transaction hears about the lock. *)
Definition lock_answer (ts : Z) (it : DataItem) : LockAnswer :=
  if lock it =? UNLOCKED then Acquired
  else if (lock it =? EXCLUSIVE_LOCKED) && (timeStamp it =? ts) then Own
  else Held (timeStamp it) (holder_node it) (lock_owner_node it).

(** The page and the log afterwards. *)
Definition applied (slot : Z) (e : Row * option LogRecord) (p : HeldPage) : HeldPage :=
  let pg := put_row fh slot (fst e) (page_data p) in
  match snd e with
  | None => set_data pg p
  | Some x =>
      let b := node_log p in
      let prev := page_LLSN (page_data p) in
      let lsn := next_lsn b prev in
      mkHeld (put_version lsn pg) true (queued b (set_lsns prev lsn x) lsn)
  end.
End calls.

(** The calls one by one, and their cases. *)
Ltac call_cases c :=
  destruct c; cbn [call_ok call_effect fst snd] in *; unfold lock_effect; repeat case_match; cbn [fst snd].
