(* ===== verification/TxCalls.v ===== *)
(** The row operations of [TxPage] keep the promises of [TxSpec]: none fails, and the
    page and the log are afterwards as the effect of the call says. *)

From S2P Require Import Prelude Common Bytes Bitmap Record RecordPage PreparedTxn LogRecord LogFormat LogReplay LogBuffer LockWait Redo ReplaySystem TxPage TxRow TxSpec.

#[local] Arguments le : simpl never.

(** The state of the page, with the row folded. *)
Ltac held_simpl :=
  cbn [set_data set_dirty set_log page_data is_dirty node_log];
  repeat match goal with
  | |- context [splice (get_slot_offset ?fh ?slot) (enc_row ?r) ?pg] =>
      change (splice (get_slot_offset fh slot) (enc_row r) pg) with (put_row fh slot r pg)
  end.

(** ** Logging *)

Lemma next_lsn_bounds b old :
  0 ≤ current_llsn_ b → current_llsn_ b + 1 < 2 ^ 64 → 0 ≤ old → old + 1 < 2 ^ 64 →
  old < next_lsn b old ∧ 0 < next_lsn b old < 2 ^ 64.
Proof. intros. unfold next_lsn. case_match eqn:E; bool_simpl; [rewrite u64_small by lia|]; lia. Qed.

Section calls.
Context (me : Z) (names : Z → buffer) (addr : Z) (fh : RmFileHdr).

Lemma wp_on_page_hdr m x p (Q : Z → HeldPage → Prop) :
  let pg := page_data p in let b := node_log p in let lsn := next_lsn b (page_LLSN pg) in
  sizeof_RmPageHdr ≤ len pg → ready b → current_llsn_ b + 1 < 2 ^ 64 →
  (∀ h R, LLSN_ h = page_LLSN pg → wp (add_page_log x h) R b → wp (m h) R b) →
  Q lsn (mkHeld (put_version lsn pg) (is_dirty p) (queued b (set_lsns (page_LLSN pg) lsn x) lsn)) →
  wp (on_page_hdr m) Q p.
Proof using Type.
  destruct p as [pg d b]. cbn [page_data node_log is_dirty]. intros Hl Hr Hc Hm HQ.
  unfold on_page_hdr. wp_step. apply wp_zoom. cbn [page_data].
  eapply wp_done; [by apply load_hdr_run|]. cbn [set_data is_dirty node_log]. wp_step. apply wp_zoom.
  cbn [node_log]. apply (Hm (hdr_at pg)); [done|]. apply wp_add_page_log; [done|done|].
  rewrite hdr_at_LLSN. cbv zeta beta iota. cbn [set_log page_data is_dirty].
  wp_step. apply wp_zoom. cbn [page_data]. apply wp_memcpy_to; [done|by rewrite len_enc_RmPageHdr|].
  cbn [set_data is_dirty node_log]. wp_step. exact HQ.
Qed.

Lemma wp_AddUpdateLog tx name item value key rid h cts b (R : Z * RmPageHdr → LogBuffer → Prop) :
  0 < next_lsn b (LLSN_ h) → ready b → current_llsn_ b + 1 < 2 ^ 64 →
  wp (add_page_log (new_UpdateLogRecord 0 me tx
        (mkRecord (pri_key key) ((if cts =? 0 then item else splice offsetof_commitTimeStamp (le 8 cts) item) ++ value))
        rid name None) h) R b →
  wp (AddUpdateLog me tx name item value key rid h cts) R b.
Proof using Type.
  intros Hpos Hr Hc HR. unfold AddUpdateLog. cbv zeta. wp_step.
  destruct (wp_inv _ _ _ (wp_add_page_log b (new_UpdateLogRecord 0 me tx
        (mkRecord (pri_key key) ((if cts =? 0 then item else splice offsetof_commitTimeStamp (le 8 cts) item) ++ value))
        rid name None) h (λ a _, fst a = next_lsn b (LLSN_ h)) Hr Hc eq_refl)) as ([lsn h'] & b' & E & Hlsn).
  cbn [fst] in Hlsn. eapply wp_done; [exact E|]. eapply wp_run in HR; [|exact E].
  cbv beta iota. wp_step. wp_step; [subst; by apply Z.ltb_lt|]. by wp_step.
Qed.

(** The time of the commit is in the item already. *)
Lemma enc_item_commit_ts r : splice offsetof_commitTimeStamp (le 8 (r_commit_ts r)) (enc_item r) = enc_item r.
Proof using Type.
  apply splice_same. exists (concat (take 14 (drop 1 (fields r)))), [].
  split; [|unfold fields; cbn [take drop concat]; len; done].
  unfold enc_item, fields. cbn [take drop concat]. rewrite !app_nil_r, <- !app_assoc. done.
Qed.

Section slot.
Context (slot : Z) (pg : buffer).
Hypothesis Hb : behind_header fh slot.

Abbreviation off := (get_slot_offset fh slot) (only parsing).
Abbreviation held r d b := (mkHeld (put_row fh slot r pg) d b) (only parsing).

Lemma wp_log_update tx key rid r value cts d b (Q : Z → HeldPage → Prop) :
  row_in off pg r → row_fits r → ready b → current_llsn_ b + 1 < 2 ^ 64 →
  uint_fits 8 (page_LLSN pg) → page_LLSN pg + 1 < 2 ^ 64 →
  key = r_key r → value = r_value r → (cts = 0 ∨ cts = r_commit_ts r) →
  let lsn := next_lsn b (page_LLSN pg) in
  Q lsn (mkHeld (put_version lsn (put_row fh slot r pg)) d
           (queued b (set_lsns (page_LLSN pg) lsn (update_record me names tx rid r)) lsn)) →
  wp (log_update me names tx (item_offset fh slot) (Some key) rid value cts) Q (held r d b).
Proof using Hb.
  intros Hin Hf Hr Hc Hp0 Hp -> -> Hcts lsn HQ.
  assert (page_LLSN (put_row fh slot r pg) = page_LLSN pg) as HL.
  { rewrite <- !hdr_at_LLSN. by rewrite hdr_at_put_row. }
  unfold log_update. wp_step. apply wp_zoom. cbn [page_data]. apply wp_load_item; [done|]. held_simpl.
  wp_step. apply wp_zoom. cbn [page_data]. apply wp_load_value_size; [done|done|]. held_simpl.
  wp_step. eapply (wp_on_buffer (r_value r) _ _ _ (r_value r) (r_value r)).
  { unfold memcpy_from. rewrite <- (rf_value r Hf). rewrite in_bounds_true by (pose proof (len_nonneg (r_value r)); lia).
    by rewrite slice_all. }
  cbv beta iota. wp_step. apply wp_zoom. cbn [page_data]. apply wp_load_table_id; [done|done|]. held_simpl.
  apply (wp_on_page_hdr _ (update_record me names tx rid r)); held_simpl; rewrite ?HL; try done.
  - rewrite len_put_row by done. destruct Hin. unfold behind_header in Hb. pose proof (len_nonneg (enc_row r)). lia.
  - intros h R Hh HR. apply wp_AddUpdateLog; [|done|done|].
    + rewrite Hh. unfold uint_fits in Hp0. destruct Hr. apply next_lsn_bounds; lia.
    + revert HR. unfold update_record, pri_key. cbn [default].
      destruct Hcts as [->| ->]; [done|]. destruct (_ =? 0); [done|]. by rewrite enc_item_commit_ts.
Qed.

Lemma wp_log_lock tx table rid it ts holder owner r d b (Q : Z → HeldPage → Prop) :
  row_in off pg r → ready b → current_llsn_ b + 1 < 2 ^ 64 →
  it = mkItem EXCLUSIVE_LOCKED ts (u8 holder) (u8 owner) →
  let lsn := next_lsn b (page_LLSN pg) in
  Q lsn (mkHeld (put_version lsn (put_row fh slot r pg)) d
           (queued b (set_lsns (page_LLSN pg) lsn (lock_record me names tx table rid it)) lsn)) →
  wp (log_lock me names tx table rid EXCLUSIVE_LOCKED ts holder owner) Q (held r d b).
Proof using Hb.
  intros Hin Hr Hc -> lsn HQ.
  assert (page_LLSN (put_row fh slot r pg) = page_LLSN pg) as HL.
  { rewrite <- !hdr_at_LLSN. by rewrite hdr_at_put_row. }
  unfold log_lock.
  apply (wp_on_page_hdr _ (lock_record me names tx table rid (mkItem EXCLUSIVE_LOCKED ts (u8 holder) (u8 owner))));
    held_simpl; rewrite ?HL; try done.
  rewrite len_put_row by done. destruct Hin. unfold behind_header in Hb. pose proof (len_nonneg (enc_row r)). lia.
Qed.

(** ** The calls *)

(** One access to the row. *)
Ltac on_row L :=
  wp_step; apply wp_zoom; cbn [page_data]; unfold put_row; apply L; [solve [eauto 6 with row]..|]; held_simpl.

Lemma write_unlocked_done table rid ts ph r :
  owned ts r → prepared_for table rid ts ph →
  write_unlocked (mkKey table (page_no_ rid) (slot_no_ rid)) ts ph (r_lock r) =
    Done (negb (new_holder_ts ph =? 0), unlocked ph (r_lock r)).
Proof using Type.
  intros [Hl Ht] (Hp & Hk & Hs & _). unfold write_unlocked, UnlockTupleWithHandoff2PC, unlocked.
  rewrite Hp, Hk, Hs, bool_decide_true, Z.eqb_refl by done. cbn [andb].
  destruct (r_lock r) as [l t h o]. cbn [lock timeStamp] in *. subst.
  unfold mbind, M_bind, check, gets, mret, M_ret. cbn [lock timeStamp]. rewrite !Z.eqb_refl. cbn [andb].
  by destruct (new_holder_ts ph =? 0).
Qed.

Lemma wp_unlock_item table rid ts ph r d b (Q : bool → HeldPage → Prop) :
  row_in off pg r → row_fits r → owned ts r → prepared_for table rid ts ph →
  Q (negb (new_holder_ts ph =? 0)) (held (with_item_lock (unlocked ph (r_lock r)) r) d b) →
  wp (unlock_item table rid (item_offset fh slot) ts ph) Q (held r d b).
Proof using Type.
  intros Hin Hf Ho Hp HQ. unfold unlock_item. apply wp_zoom. cbn [page_data]. unfold put_row.
  eapply wp_on_item_lock; [done|done|by apply write_unlocked_done|]. by held_simpl.
Qed.

Lemma unlocked_fits ph it : uint_fits 8 (new_holder_ts ph) → item_lock_fits it → item_lock_fits (unlocked ph it).
Proof using Type.
  intros Hf []. unfold unlocked. case_match; split; simpl; try done; apply Z.mod_pos_bound; done.
Qed.

Lemma locked_by_fits ts holder : uint_fits 8 ts → item_lock_fits (locked_by me ts holder).
Proof using Type. intros. split; simpl; try done; try (apply Z.mod_pos_bound; done). Qed.
Hint Resolve unlocked_fits locked_by_fits : row.

(** The fields of a row that has been changed step by step. *)
Ltac row_fits :=
  repeat first
    [ assumption
    | apply row_fits_ptr
    | apply row_fits_version; [assumption|]
    | apply row_fits_commit_ts; [assumption|]
    | apply row_fits_value; [simpl in *; assumption|]
    | apply row_fits_lock; [first [apply unlocked_fits; [assumption|] | by apply locked_by_fits]|]
    | apply row_fits_item_lock ].

(** What the calls have in common. *)
Record call_pre (r : Row) (b : LogBuffer) : Prop := {
  cp_row : row_in off pg r;
  cp_fits : row_fits r;
  cp_ready : ready b;
  cp_current : current_llsn_ b + 1 < 2 ^ 64;
  cp_version0 : uint_fits 8 (page_LLSN pg);
  cp_version : page_LLSN pg + 1 < 2 ^ 64
}.

Ltac row_pre := split; try done; first [solve [row_fits]|eauto 9 with row].

(** The end of every call that changes a value or unlocks a row. *)
Lemma wp_finish {A} tx key rid r value cts (a : A) d b (e : Row * option LogRecord) r0 :
  call_pre r b → key = r_key r → value = r_value r → (cts = 0 ∨ cts = r_commit_ts r) →
  e = (r, Some (update_record me names tx rid r)) → page_data r0 = pg → node_log r0 = b →
  wp (modify (set_dirty true) ;; log_update me names tx (item_offset fh slot) (Some key) rid value cts ;; mret a)
    (λ a' p', a' = a ∧ p' = applied fh slot e r0) (held r d b).
Proof using Hb.
  intros [] -> -> Hcts -> Hpg Hlog. wp_step. wp_step. held_simpl. wp_step. apply wp_log_update; try done.
  wp_step. split; [done|]. unfold applied. cbn [fst snd]. by rewrite Hpg, Hlog.
Qed.

Lemma wp_finish_value {A} tx key rid r cts (a : A) d b (e : Row * option LogRecord) r0 :
  call_pre r b → key = r_key r → (cts = 0 ∨ cts = r_commit_ts r) →
  e = (r, Some (update_record me names tx rid r)) → page_data r0 = pg → node_log r0 = b →
  wp (modify (set_dirty true) ;;
      value ← inPage (item_value (item_offset fh slot)) ;
      log_update me names tx (item_offset fh slot) (Some key) rid value cts ;; mret a)
    (λ a' p', a' = a ∧ p' = applied fh slot e r0) (held r d b).
Proof using Hb.
  intros Hpre -> Hcts He Hpg Hlog. destruct Hpre as [Hin Hf Hr Hc Hv0 Hv]. wp_step. wp_step. held_simpl.
  on_row wp_item_value. wp_step. apply wp_log_update; try done.
  wp_step. split; [done|]. rewrite He. unfold applied. cbn [fst snd]. by rewrite Hpg, Hlog.
Qed.

Abbreviation before d b := (mkHeld pg d b) (only parsing).
Abbreviation effect := (call_effect me names addr fh) (only parsing).

Lemma wp_read_row ts rid key r (d : bool) b :
  slot = slot_no_ rid → call_pre r b → call_ok me fh (CRead ts rid key) r →
  wp (read_row addr ts fh rid key)
    (λ a p', a = copy_of r ∧ p' = applied fh slot (effect (CRead ts rid key) r) (before d b)) (held r d b).
Proof using Type.
  intros Hs [Hin Hf Hr Hc Hv0 Hv] Hk. cbn [call_ok] in Hk. unfold read_row, GetDataItemFromPageRO.
  cbn [call_effect]. rewrite <- !Hs.
  wp_step. apply wp_zoom. cbn [page_data]. unfold put_row. cbv zeta. wp_step.
  apply wp_relocate_value; [done|]. wp_step. apply wp_load_key; [eauto 6 with row..|]. wp_step.
  wp_step; [by apply Z.eqb_eq|]. wp_step. apply wp_load_version; [eauto 6 with row..|]. wp_step.
  apply wp_when; intros _; unfold UndoDataItem; repeat wp_step; held_simpl; apply wp_zoom; cbn [page_data];
    unfold put_row; apply wp_copy_item; eauto 6 with row.
Qed.

Lemma wp_GetDataItemFromPageRW rid r (Q : Z * Z → buffer → Prop) :
  slot = slot_no_ rid → row_in off pg r → row_fits r →
  Q (r_key r, item_offset fh slot) (put_row fh slot (located addr fh slot r) pg) →
  wp (GetDataItemFromPageRW addr fh rid) Q (put_row fh slot r pg).
Proof using Type.
  intros Hs Hin Hf HQ. unfold GetDataItemFromPageRW. rewrite <- !Hs. cbv zeta. wp_step. unfold put_row.
  apply wp_relocate_value; [done|]. wp_step. apply wp_load_key; [eauto 6 with row..|]. by wp_step.
Qed.

Lemma wp_lock_row tx ts table rid imm r (d : bool) b :
  slot = slot_no_ rid → call_pre r b → call_ok me fh (CLock tx ts table rid imm) r →
  wp (lock_row me names addr tx ts fh table rid imm)
    (λ a p', a = (r_key r, copy_of r, lock_answer ts (r_lock r)) ∧
             p' = applied fh slot (effect (CLock tx ts table rid imm) r) (before d b)) (held r d b).
Proof using Hb.
  intros Hs [Hin Hf Hr Hc Hv0 Hv] [Ht Hts]. unfold lock_row. wp_step. apply wp_zoom. cbn [page_data].
  apply wp_GetDataItemFromPageRW; [done..|]. held_simpl. cbv beta iota.
  on_row wp_copy_item. on_row wp_load_item_lock.
  unfold lock_answer. cbn [call_effect]. rewrite <- Hs. unfold lock_effect.
  change (r_lock (located addr fh slot r)) with (r_lock r).
  destruct (lock (r_lock r) =? UNLOCKED) eqn:EU.
  - on_row wp_store_item_lock. wp_step.
    assert (∀ r', row_in off pg r' →
      wp (modify (set_dirty true) ;;
          log_lock me names tx table rid EXCLUSIVE_LOCKED ts me me ;; mret (r_key r, copy_of (located addr fh slot r), Acquired))
        (λ a p', a = (r_key r, copy_of r, Acquired) ∧
           p' = applied fh slot (r', Some (lock_record me names tx table rid (locked_by me ts me))) (before d b)) (held r' d b)) as Hend.
    { intros r' Hin'. wp_step. wp_step. held_simpl. wp_step. by eapply wp_log_lock. }
    destruct imm; cbn [when].
    + apply wp_zoom. cbn [page_data]. unfold put_row. apply wp_write_lock; [eauto 6 with row|]. held_simpl.
      apply Hend. eauto 6 with row.
    + wp_step. apply Hend. eauto 6 with row.
  - destruct (_ && _); by wp_step.
Qed.

Lemma wp_commit_row tx ts cts rid it ph r (d : bool) b :
  slot = slot_no_ rid → call_pre r b → call_ok me fh (CCommit tx ts cts rid it ph) r →
  wp (commit_row me names addr tx ts cts fh rid it ph)
    (λ a p', a = negb (new_holder_ts ph =? 0) ∧
             p' = applied fh slot (effect (CCommit tx ts cts rid it ph) r) (before d b)) (held r d b).
Proof using Hb.
  intros Hs [Hin Hf Hr Hc Hv0 Hv] (Ho & Hp & Hlen & Hcts & Hc0). unfold commit_row. wp_step. apply wp_zoom.
  cbn [page_data]. apply wp_GetDataItemFromPageRW; [done..|]. held_simpl. cbv beta iota.
  on_row wp_write_version. on_row wp_write_commit_ts. wp_step.
  apply wp_unlock_item; [eauto 6 with row|eauto 6 with row|done|done|]. wp_step.
  assert (len (c_value it) = len (r_value r)) as Hlv by (rewrite Hlen; symmetry; apply Hf).
  apply wp_zoom. cbn [page_data]. unfold put_row. apply wp_write_value; [eauto 7 with row|done|]. held_simpl.
  destruct Hp as (_ & _ & _ & Hn).
  apply wp_finish; try done; [row_pre|by right|].
  cbn [call_effect]. by rewrite <- Hs.
Qed.

Lemma wp_abort_row tx ts table rid ph r (d : bool) b :
  slot = slot_no_ rid → call_pre r b → call_ok me fh (CAbort tx ts table rid ph) r →
  wp (abort_row me names addr tx ts fh table rid ph)
    (λ a p', a = negb (new_holder_ts ph =? 0) ∧
             p' = applied fh slot (effect (CAbort tx ts table rid ph) r) (before d b)) (held r d b).
Proof using Hb.
  intros Hs [Hin Hf Hr Hc Hv0 Hv] (Ho & Hp). unfold abort_row. wp_step. apply wp_zoom.
  cbn [page_data]. apply wp_GetDataItemFromPageRW; [done..|]. held_simpl. cbv beta iota. wp_step.
  apply wp_unlock_item; [eauto 6 with row|eauto 6 with row|done|done|].
  destruct Hp as (_ & _ & _ & Hn).
  apply wp_finish_value; try done; [row_pre|by left|].
  cbn [call_effect]. by rewrite <- Hs.
Qed.

(** Copying the row out of the page. *)
Lemma wp_copy_out pg' n (Q : buffer → buffer → Prop) :
  off + sizeof_itemkey_t + n ≤ len pg' → 0 ≤ n → 0 ≤ off → Q (slice (item_offset fh slot) n pg') pg' →
  wp (memcpy_from (item_offset fh slot) n) Q pg'.
Proof using Type.
  unfold item_offset, sizeof_itemkey_t. intros ? ? ? HQ. unfold wp, memcpy_from. by rewrite in_bounds_true by lia.
Qed.

Lemma wp_Get_2pc_Local_page tx ts table rid key r (d : bool) b :
  slot = slot_no_ rid → call_pre r b → call_ok me fh (CLockLocal tx ts table rid key) r →
  wp (Get_2pc_Local_page me names addr tx ts fh table rid key)
    (λ a p', snd a = lock_answer ts (r_lock r) ∧
             p' = applied fh slot (effect (CLockLocal tx ts table rid key) r) (before d b)) (held r d b).
Proof using Hb.
  intros Hs [Hin Hf Hr Hc Hv0 Hv] (Hk & Ht & Hts & Hsize). unfold Get_2pc_Local_page. rewrite <- !Hs. cbv zeta.
  on_row wp_load_key. wp_step. wp_step; [by apply Z.eqb_eq|]. on_row wp_load_item_lock.
  assert (0 ≤ off ∧ off + sizeof_itemkey_t + record_size_ fh ≤ len pg ∧ 0 ≤ record_size_ fh) as (Ho & Hl & Hn).
  { destruct Hin as [? Hl]. rewrite Hsize. rewrite len_enc_row in Hl. pose proof (len_nonneg (r_value r)).
    rewrite <- (rf_value r Hf). unfold sizeof_DataItem, sizeof_itemkey_t in *. lia. }
  unfold lock_answer. cbn [call_effect]. rewrite <- Hs. unfold lock_effect.
  destruct (lock (r_lock r) =? UNLOCKED) eqn:EU; cbn [orb].
  - on_row wp_store_item_lock. wp_step. wp_step. held_simpl. on_row wp_relocate_value. wp_step.
    eapply wp_log_lock; [eauto 6 with row|done|done|done|]. wp_step. apply wp_zoom. cbn [page_data].
    apply wp_copy_out; [|done|done|].
    { rewrite len_put_version, len_put_row; [done|eauto 6 with row|].
      rewrite len_put_row by eauto 6 with row. destruct Hin. unfold behind_header in Hb.
      pose proof (len_nonneg (enc_row r)). lia. }
    held_simpl. wp_step. cbn [snd]. split; [done|].
    change (r_lock (located addr fh slot r)) with (r_lock r). by rewrite EU.
  - destruct (_ && _) eqn:EO.
    + on_row wp_relocate_value. wp_step. apply wp_zoom. cbn [page_data].
      held_simpl. apply wp_copy_out; [by rewrite len_put_row by eauto 6 with row|done|done|]. held_simpl. wp_step.
      change (r_lock (located addr fh slot r)) with (r_lock r). by rewrite EU.
    + wp_step. by rewrite EU.
Qed.

Lemma wp_GetDataItem tx ts req table rid r (d : bool) b :
  slot = slot_no_ rid → call_pre r b → call_ok me fh (CLockParticipant tx ts req table rid) r →
  wp (GetDataItem me names tx ts req fh table rid)
    (λ a p', snd a = lock_answer ts (r_lock r) ∧
             p' = applied fh slot (effect (CLockParticipant tx ts req table rid) r) (before d b)) (held r d b).
Proof using Hb.
  intros Hs [Hin Hf Hr Hc Hv0 Hv] (Ht & Hts). unfold GetDataItem. rewrite <- !Hs. cbv zeta.
  on_row wp_load_item_lock. unfold lock_answer. cbn [call_effect]. unfold lock_effect.
  destruct (lock (r_lock r) =? UNLOCKED) eqn:EU.
  - on_row wp_store_item_lock. wp_step. wp_step. held_simpl. wp_step. wp_step. wp_step.
    eapply wp_log_lock; [eauto 6 with row|done|done|done|]. by wp_step.
  - destruct (_ && _); [wp_step; wp_step|]; wp_step; done.
Qed.

Lemma wp_commit_row_local tx ts cts rid key it ph r (d : bool) b :
  slot = slot_no_ rid → call_pre r b → call_ok me fh (CCommitLocal tx ts cts rid key it ph) r →
  wp (commit_row_local me names addr tx ts cts fh rid key it ph)
    (λ a p', a = negb (new_holder_ts ph =? 0) ∧
             p' = applied fh slot (effect (CCommitLocal tx ts cts rid key it ph) r) (before d b)) (held r d b).
Proof using Hb.
  intros Hs [Hin Hf Hr Hc Hv0 Hv] (Hk & Ho & Hp & Hlen & Hcts & Hc0). unfold commit_row_local. rewrite <- !Hs. cbv zeta.
  on_row wp_load_key. wp_step. wp_step; [by apply Z.eqb_eq|]. on_row wp_load_lock. wp_step.
  wp_step; [apply Z.eqb_eq, Ho|].
  assert (len (c_value it) = len (r_value r)) as Hlv by (rewrite Hlen; symmetry; apply Hf).
  on_row wp_write_value. on_row wp_write_commit_ts. wp_step. destruct Hp as (Hp1 & Hp2 & Hp3 & Hn).
  apply wp_unlock_item; [eauto 6 with row|row_fits|done|done|].
  wp_step. apply wp_zoom. cbn [page_data]. unfold put_row. apply wp_relocate_value; [eauto 8 with row|]. held_simpl.
  apply wp_finish_value; try done; [row_pre|by right|].
  cbn [call_effect]. by rewrite <- Hs.
Qed.

Lemma wp_abort_row_local tx ts table rid key ph r (d : bool) b :
  slot = slot_no_ rid → call_pre r b → call_ok me fh (CAbortLocal tx ts table rid key ph) r →
  wp (abort_row_local me names addr tx ts fh table rid key ph)
    (λ a p', a = negb (new_holder_ts ph =? 0) ∧
             p' = applied fh slot (effect (CAbortLocal tx ts table rid key ph) r) (before d b)) (held r d b).
Proof using Hb.
  intros Hs [Hin Hf Hr Hc Hv0 Hv] (Hk & Ho & Hp). unfold abort_row_local. rewrite <- !Hs. cbv zeta.
  on_row wp_relocate_value. on_row wp_load_lock. wp_step. wp_step; [apply Z.eqb_eq, Ho|]. wp_step.
  apply wp_unlock_item; [eauto 6 with row|eauto 6 with row|done|done|].
  destruct Hp as (_ & _ & _ & Hn).
  apply wp_finish_value; try done; [row_pre|by left|].
  cbn [call_effect]. by rewrite <- Hs.
Qed.

Lemma wp_commit_row_participant tx cts table rid v p ph r (d : bool) b :
  slot = slot_no_ rid → call_pre r b → call_ok me fh (CCommitParticipant tx cts table rid v p ph) r →
  wp (commit_row_participant me names addr tx cts fh table rid v p ph)
    (λ a p', a = (negb (new_holder_ts ph =? 0), timeStamp (r_lock r)) ∧
             p' = applied fh slot (effect (CCommitParticipant tx cts table rid v p ph) r) (before d b)) (held r d b).
Proof using Hb.
  intros Hs [Hin Hf Hr Hc Hv0 Hv] (Ho & Hp & Hsize & Hlen & Hcts & Hc0 & Hprep). unfold commit_row_participant.
  rewrite <- !Hs. cbv zeta. on_row wp_load_key. on_row wp_load_item_lock. wp_step. wp_step; [apply Z.eqb_eq, Ho|].
  wp_step. match goal with |- wp _ ?K _ => assert (K tt (held r d b)) as Hrest end.
  2:{ destruct p as [p|]; [|by wp_step]. destruct Hprep as (H1 & H2 & H3 & H4).
      wp_step. wp_step; [|wp_step; [by apply Z.eqb_eq|exact Hrest]].
      destruct Ho as [-> _]. by rewrite H1, H2, H3, !Z.eqb_refl. }
  wp_step. replace (record_size_ fh - sizeof_DataItem) with (r_value_size r) by lia.
  assert (0 ≤ r_value_size r) as Hv1 by (rewrite <- (rf_value r Hf); apply len_nonneg).
  eapply (wp_on_buffer v _ _ _ (take (Z.to_nat (r_value_size r)) v) v).
  { unfold memcpy_from. rewrite in_bounds_true by lia. unfold slice. by rewrite drop_0. }
  cbv beta iota.
  assert (len (take (Z.to_nat (r_value_size r)) v) = r_value_size r) as Hlt by (unfold len in *; rewrite length_take; lia).
  assert (len (take (Z.to_nat (r_value_size r)) v) = len (r_value r)) as Hlv by (rewrite Hlt; symmetry; apply Hf).
  on_row wp_write_value. on_row wp_write_commit_ts. wp_step. destruct Hp as (Hp1 & Hp2 & Hp3 & Hn).
  apply wp_unlock_item; [eauto 6 with row|row_fits|done|done|].
  wp_step. apply wp_zoom. cbn [page_data]. unfold put_row. apply wp_relocate_value; [eauto 8 with row|]. held_simpl.
  apply wp_finish_value; try done; [row_pre|by right|].
  cbn [call_effect]. by rewrite <- Hs.
Qed.

Lemma wp_abort_row_participant tx table rid ph r (d : bool) b :
  slot = slot_no_ rid → call_pre r b → call_ok me fh (CAbortParticipant tx table rid ph) r →
  wp (abort_row_participant me names addr tx fh table rid ph)
    (λ a p', a = (negb (new_holder_ts ph =? 0), timeStamp (r_lock r)) ∧
             p' = applied fh slot (effect (CAbortParticipant tx table rid ph) r) (before d b)) (held r d b).
Proof using Hb.
  intros Hs [Hin Hf Hr Hc Hv0 Hv] (Ho & Hp). unfold abort_row_participant. rewrite <- !Hs. cbv zeta.
  on_row wp_load_item_lock. wp_step. wp_step; [apply Z.eqb_eq, Ho|]. wp_step.
  apply wp_unlock_item; [done|done|done|done|]. destruct Hp as (_ & _ & _ & Hn).
  wp_step. apply wp_zoom. cbn [page_data]. unfold put_row. apply wp_load_key; [eauto 6 with row|row_fits|]. held_simpl.
  on_row wp_relocate_value.
  apply wp_finish_value; try done; [row_pre|by left|].
  cbn [call_effect]. by rewrite <- Hs.
Qed.

Ltac by_spec L := eapply wp_mono; [by apply L|by intros ? ? [_ ->]].

(** Every call does what its effect says. *)
Lemma wp_run_call_held c r (d : bool) b :
  slot = slot_no_ (call_rid c) → call_pre r b → call_ok me fh c r →
  wp (run_call me names addr fh c) (λ _ p', p' = applied fh slot (effect c r) (before d b)) (held r d b).
Proof using Hb.
  intros Hs Hpre Hok.
  destruct c; cbn [run_call call_rid] in *; wp_step.
  - by_spec wp_read_row.
  - by_spec wp_lock_row.
  - by_spec wp_commit_row.
  - by_spec wp_abort_row.
  - by_spec wp_Get_2pc_Local_page.
  - by_spec wp_commit_row_local.
  - by_spec wp_abort_row_local.
  - by_spec wp_GetDataItem.
  - by_spec wp_commit_row_participant.
  - by_spec wp_abort_row_participant.
Qed.
(** ** A lock released at once

    [release_imme] leaves the row unlocked in the page.  Whoever unlocks it in the end
    finds the lock word other than it has to be. *)

Lemma bind_crash {S A B} (m : M S A) (f : A → M S B) s e :
  wp m (λ a s', f a s' = Crash e) s → (m ≫= f) s = Crash e.
Proof using Type. unfold wp, mbind, M_bind. by destruct (m s) as [[a s']| |]. Qed.

Lemma unlock_item_crash {B} table rid ts ph r d b (f : bool → MP B) :
  row_in off pg r → row_fits r → lock (r_lock r) ≠ EXCLUSIVE_LOCKED → prepared_for table rid ts ph →
  (unlock_item table rid (item_offset fh slot) ts ph ≫= f) (held r d b) = Crash (AssertFailed 1742).
Proof using Type.
  intros Hin Hf Hl (Hp & Hk & Hs & _). apply run_bind_crash. unfold unlock_item, inPage, zoom. cbn [page_data].
  assert (on_item_lock (item_offset fh slot) (write_unlocked (mkKey table (page_no_ rid) (slot_no_ rid)) ts ph)
    (put_row fh slot r pg) = Crash (AssertFailed 1742)) as ->; [|done].
  unfold on_item_lock. apply bind_crash. unfold put_row. apply wp_load_item_lock; [done|done|].
  assert (write_unlocked (mkKey table (page_no_ rid) (slot_no_ rid)) ts ph (r_lock r) = Crash (AssertFailed 1742)) as ->; [|done].
  unfold write_unlocked, UnlockTupleWithHandoff2PC. rewrite Hp, Hk, Hs, bool_decide_true, Z.eqb_refl by done.
  unfold mbind, M_bind, check, gets, mret, M_ret. cbn [andb]. apply Z.eqb_neq in Hl. by rewrite Hl.
Qed.

Lemma commit_row_crash tx ts cts rid it ph r (d : bool) b :
  slot = slot_no_ rid → row_in off pg r → row_fits r → lock (r_lock r) ≠ EXCLUSIVE_LOCKED →
  prepared_for (c_table_id it) rid ts ph → uint_fits 8 cts →
  commit_row me names addr tx ts cts fh rid it ph (held r d b) = Crash (AssertFailed 1742).
Proof using Type.
  intros Hs Hin Hf Hl Hp Hc. unfold commit_row. apply bind_crash, wp_zoom. cbn [page_data].
  apply wp_GetDataItemFromPageRW; [done..|]. held_simpl. cbv beta iota.
  apply bind_crash, wp_zoom. cbn [page_data]. unfold put_row. apply wp_write_version; [eauto with row|]. held_simpl.
  apply bind_crash, wp_zoom. cbn [page_data]. unfold put_row. apply wp_write_commit_ts; [eauto with row|]. held_simpl.
  apply unlock_item_crash; [eauto 6 with row|row_fits|done|done].
Qed.

Lemma abort_row_crash tx ts table rid ph r (d : bool) b :
  slot = slot_no_ rid → row_in off pg r → row_fits r → lock (r_lock r) ≠ EXCLUSIVE_LOCKED →
  prepared_for table rid ts ph →
  abort_row me names addr tx ts fh table rid ph (held r d b) = Crash (AssertFailed 1742).
Proof using Type.
  intros Hs Hin Hf Hl Hp. unfold abort_row. apply bind_crash, wp_zoom. cbn [page_data].
  apply wp_GetDataItemFromPageRW; [done..|]. held_simpl. cbv beta iota.
  apply unlock_item_crash; [eauto 6 with row|row_fits|done|done].
Qed.
End slot.

(** The same of a page that contains the row. *)
Lemma wp_run_call c r p :
  let slot := slot_no_ (call_rid c) in
  behind_header fh slot → row_at fh slot r (page_data p) → row_fits r → ready (node_log p) →
  current_llsn_ (node_log p) + 1 < 2 ^ 64 → uint_fits 8 (page_LLSN (page_data p)) →
  page_LLSN (page_data p) + 1 < 2 ^ 64 → call_ok me fh c r →
  wp (run_call me names addr fh c) (λ _ p', p' = applied fh slot (call_effect me names addr fh c r) p) p.
Proof using Type.
  intros slot Hb Hat Hf Hr Hc Hv0 Hv Hok. destruct p as [pg d b]. cbn [page_data node_log] in *.
  pose proof (wp_run_call_held slot pg Hb c r d b eq_refl) as H. rewrite row_at_put in H by done.
  apply H; [|done]. split; try done. by apply row_at_in.
Qed.
End calls.
