(* ===== verification/TxRedo.v ===== *)
(** Replaying the log of the row operations does to the storage node's copy of a page
    what the operations did to the copy in the compute node's buffer.

    The copies are equal up to the value pointers of the rows: the code writes the
    address of the value into the page whenever it looks at a row, and only some of
    these pointers are logged.  And they differ in the lock words of the rows that were
    released at once when they were locked: such a call logs the lock, and frees the
    row in the page. *)

From S2P Require Import Prelude Common Bytes Bitmap Record RecordPage PreparedTxn LogRecord LogFormat DiskManager LogReplay LogBuffer LockWait Redo ReplayOrder ReplaySystem TxPage TxRow TxSpec TxCalls.

#[local] Arguments le : simpl never.

(** ** Pages up to the value pointers and the lock words of some slots *)

Section page_equiv.
Context (fh : RmFileHdr) (early : gset Z).

(** A byte of a pointer or of the lock word in front of it. *)
Definition loose_byte (i : nat) : Prop := ∃ slot, valid_slot fh slot ∧
  item_offset fh slot + (if decide (slot ∈ early) then offsetof_lock else offsetof_value) ≤ Z.of_nat i <
  item_offset fh slot + offsetof_value + 8.

Definition page_equiv (pg pg' : buffer) : Prop :=
  len pg = len pg' ∧ ∀ i, ¬ loose_byte i → pg !! i = pg' !! i.

#[export] Instance page_equiv_equivalence : Equivalence page_equiv.
Proof.
  split.
  - by intros pg.
  - intros pg pg' [Hl H]. split; [done|]. intros i Hi. by rewrite H.
  - intros pg1 pg2 pg3 [Hl1 H1] [Hl2 H2]. split; [congruence|]. intros i Hi. by rewrite H1, H2.
Qed.

(** Writing the same bytes keeps pages equivalent, whatever is there. *)
Definition fits_page (off : Z) (bs pg : buffer) : Prop := 0 ≤ off ∧ off + len bs ≤ len pg.

Lemma splice_equiv off bs pg pg' :
  fits_page off bs pg → page_equiv pg pg' → page_equiv (splice off bs pg) (splice off bs pg').
Proof.
  intros [H0 H1] [Hl H]. split; [by rewrite !len_splice by lia|].
  intros i Hi. rewrite !splice_lookup by lia. case_decide; [done|]. by apply H.
Qed.
End page_equiv.

#[export] Hint Extern 0 (page_equiv _ _ ?x ?x) => reflexivity : core.

Section geometry.
Context (fh : RmFileHdr).
Hypothesis G : geometry fh.
Hypothesis Hrec : sizeof_DataItem ≤ record_size_ fh.

Lemma slot_behind_header slot : valid_slot fh slot → behind_header fh slot.
Proof using G.
  intros Hs. destruct (slot_in_page fh G slot Hs) as [H _]. unfold behind_header. destruct G.
  unfold bitmap_offset, OFFSET_PAGE_HDR in H. assert (0 ≤ (num_records_per_page_ fh + 7) / 8) by (apply Z.div_pos; lia). lia.
Qed.

(** The header holds no pointer and no lock. *)
Lemma header_not_loose E i : Z.of_nat i < sizeof_RmPageHdr → ¬ loose_byte fh E i.
Proof using G.
  intros Hi (slot & Hs & H1 & H2). pose proof (slot_behind_header slot Hs) as Hb. unfold behind_header in Hb.
  unfold item_offset, sizeof_itemkey_t, offsetof_value, offsetof_lock in *. case_decide; lia.
Qed.

Lemma slice_header_equiv E off n pg pg' :
  0 ≤ off → off + n ≤ sizeof_RmPageHdr → page_equiv fh E pg pg' → slice off n pg = slice off n pg'.
Proof using G.
  intros H0 Hn [_ H]. apply list_eq. intros i. rewrite !slice_lookup by done. case_decide; [|done].
  apply H, header_not_loose. lia.
Qed.

#[export] Instance hdr_at_proper E : Proper (page_equiv fh E ==> eq) hdr_at.
Proof using G.
  intros pg pg' H. unfold hdr_at.
  by rewrite !(slice_header_equiv E _ _ pg pg') by (done || unfold sizeof_RmPageHdr; lia).
Qed.

#[export] Instance page_LLSN_proper E : Proper (page_equiv fh E ==> eq) page_LLSN.
Proof using G. intros pg pg' H. rewrite <- !hdr_at_LLSN. by rewrite H. Qed.

Lemma put_version_equiv E lsn pg pg' :
  sizeof_RmPageHdr ≤ len pg → page_equiv fh E pg pg' → page_equiv fh E (put_version lsn pg) (put_version lsn pg').
Proof using G.
  intros Hl H. unfold put_version. rewrite <- (hdr_at_proper _ _ _ H). apply splice_equiv; [|done].
  split; [done|]. by rewrite len_enc_RmPageHdr.
Qed.

(** *** A row, its lock word and its pointer *)

Definition with_word (l : Z) (r : Row) : Row :=
  with_item_lock (mkItem l (timeStamp (r_lock r)) (holder_node (r_lock r)) (lock_owner_node (r_lock r))) r.

(** The lock word lies in the row from byte 16 on, the pointer from byte 24 on. *)
Lemma enc_row_loose r :
  ∃ a c, len a = sizeof_itemkey_t + offsetof_lock ∧
    ∀ l q, enc_row (with_ptr q (with_word l r)) = a ++ le 8 l ++ le 8 q ++ c.
Proof using Type.
  exists (concat (take 3 (fields r))), (concat (drop 5 (fields r))). split.
  - unfold fields. cbn [take concat]. len. done.
  - intros l q. unfold enc_row, fields. cbn [take drop concat]. rewrite !app_nil_r, <- !app_assoc. done.
Qed.

Lemma with_same r : with_ptr (r_ptr r) (with_word (lock (r_lock r)) r) = r.
Proof using Type. by destruct r as [? ? ? ? ? ? ? ? ? ? [] ? ? ?]. Qed.

(** Rows that differ in the pointer and, if [loose], in the lock word. *)
Definition same_row (loose : Prop) (r r' : Row) : Prop :=
  ∃ q l, r' = with_ptr q (with_word l r) ∧ (loose ∨ l = lock (r_lock r)).

#[export] Instance same_row_equivalence loose : Equivalence (same_row loose).
Proof using Type.
  split.
  - intros r. exists (r_ptr r), (lock (r_lock r)). rewrite with_same. tauto.
  - intros r r' (q & l & -> & H). exists (r_ptr r), (lock (r_lock r)).
    split; [by destruct r as [? ? ? ? ? ? ? ? ? ? [] ? ? ?]|]. destruct H as [?| ->]; tauto.
  - intros r1 r2 r3 (q & l & -> & H) (q' & l' & -> & H'). exists q', l'. split; [done|].
    destruct H as [?| ->]; [tauto|]. destruct H' as [?| ->]; tauto.
Qed.

Lemma same_row_mono (P Q : Prop) r r' : (P → Q) → same_row P r r' → same_row Q r r'.
Proof using Type. intros HPQ (q & l & -> & H). exists q, l. split; [done|]. tauto. Qed.

Lemma same_row_ptr P q r : same_row P r (with_ptr q r).
Proof using Type. exists q, (lock (r_lock r)). split; [by destruct r as [? ? ? ? ? ? ? ? ? ? [] ? ? ?]|tauto]. Qed.

Definition whole_row (r : Row) : Prop := len (enc_row r) = slot_size fh.

Lemma whole_row_same P r r' : same_row P r r' → whole_row r → whole_row r'.
Proof using Type. intros (q & l & -> & _). unfold whole_row. by len. Qed.

Lemma row_in_page slot r pg :
  valid_slot fh slot → whole_row r → len pg = PAGE_SIZE → row_in (get_slot_offset fh slot) pg r.
Proof using G.
  intros Hs Hw Hl. destruct (slot_in_page fh G slot Hs) as [H1 H2]. unfold row_in. rewrite Hw, Hl.
  split; [|done]. pose proof (slot_behind_header slot Hs) as Hb. unfold behind_header, sizeof_RmPageHdr in Hb. lia.
Qed.

(** A byte of a row that is loose in the page is of its own pointer or lock word. *)
Lemma row_loose E slot (j : nat) :
  valid_slot fh slot → Z.of_nat j < slot_size fh → loose_byte fh E (Z.to_nat (get_slot_offset fh slot) + j) →
  24 ≤ Z.of_nat j < 32 ∨ slot ∈ E ∧ 16 ≤ Z.of_nat j < 24.
Proof using G Hrec.
  intros Hs Hj (slot' & Hs' & Hp). pose proof (slot_behind_header slot Hs) as Hb.
  unfold behind_header, sizeof_RmPageHdr, item_offset, sizeof_itemkey_t, offsetof_value, offsetof_lock in *.
  destruct (decide (slot' = slot)) as [->|Hne].
  - case_decide; [|left; lia]. destruct (decide (24 ≤ Z.of_nat j)); [left; lia|right; split; [done|lia]].
  - exfalso. pose proof (slots_disjoint fh G slot slot' (not_eq_sym Hne)).
    unfold slot_size, sizeof_DataItem, sizeof_itemkey_t in *. case_decide; lia.
Qed.

Lemma row_at_equiv E slot r pg pg' :
  valid_slot fh slot → whole_row r → Forall is_byte pg' → page_equiv fh E pg pg' → row_at fh slot r pg →
  ∃ r', same_row (slot ∈ E) r r' ∧ row_at fh slot r' pg'.
Proof using G Hrec.
  intros Hs Hw Hby [Hl He] Hat. pose proof (slot_behind_header slot Hs) as Hb.
  unfold behind_header, sizeof_RmPageHdr in Hb. unfold row_at in *. set (off := get_slot_offset fh slot) in *.
  apply stored_slice in Hat as (H0 & H1 & Hsl). unfold whole_row in Hw. rewrite Hw in *.
  assert (72 + 8 ≤ slot_size fh) as Hbig by (unfold slot_size, sizeof_DataItem, sizeof_itemkey_t in *; lia).
  assert (∀ o, 0 ≤ o ≤ 32 → le 8 (unle (slice (off + o) 8 pg')) = slice (off + o) 8 pg') as Hword.
  { intros o Ho. assert (len (slice (off + o) 8 pg') = 8) as Hl8 by (apply len_slice; lia).
    etrans; [|apply le_unle; by apply slice_bytes]. f_equal. unfold len in Hl8. lia. }
  set (q := unle (slice (off + 24) 8 pg')).
  set (l := if decide (slot ∈ E) then unle (slice (off + 16) 8 pg') else lock (r_lock r)).
  exists (with_ptr q (with_word l r)). split.
  { exists q, l. split; [done|]. unfold l. case_decide; tauto. }
  destruct (enc_row_loose r) as (a & c & Ha & Henc).
  assert (len (enc_row (with_ptr q (with_word l r))) = slot_size fh) as Hlen by (rewrite <- Hw; by len).
  apply stored_slice. rewrite Hlen. split; [done|]. split; [lia|].
  apply list_eq. intros j. rewrite slice_lookup by done. case_decide as Hj.
  2:{ symmetry. apply lookup_ge_None_2. unfold len in *. lia. }
  pose proof (row_loose E slot j Hs ltac:(lia)) as Hloose. fold off in Hloose. rewrite Henc.
  assert (¬ loose_byte fh E (Z.to_nat off + j) →
    pg' !! (Z.to_nat off + j)%nat = (a ++ le 8 (lock (r_lock r)) ++ le 8 (r_ptr r) ++ c) !! j) as Hsame.
  { intros Hn. rewrite <- He by done. rewrite <- Henc, with_same, <- Hsl. by rewrite slice_lookup, decide_True by done. }
  unfold sizeof_itemkey_t, offsetof_lock, len in Ha.
  destruct (decide (Z.of_nat j < 16)).
  { rewrite Hsame by (intros [?|[_ ?]]%Hloose; lia). by rewrite !lookup_app_l by lia. }
  rewrite !(lookup_app_r a) in * by lia.
  destruct (decide (Z.of_nat j < 24)).
  - rewrite lookup_app_l in * by (rewrite length_le; lia). unfold l. case_decide as Hd.
    + rewrite Hword by lia. rewrite slice_lookup by lia. rewrite decide_True by lia. f_equal. lia.
    + by rewrite Hsame by (intros [?|[? ?]]%Hloose; [lia|done]).
  - rewrite (lookup_app_r (le 8 _)) in * by (rewrite length_le; lia). rewrite length_le in *.
    destruct (decide (Z.of_nat j < 32)).
    + rewrite lookup_app_l by (rewrite length_le; lia). unfold q. rewrite Hword by lia.
      rewrite slice_lookup by lia. rewrite decide_True by lia. f_equal. lia.
    + rewrite Hsame by (intros [?|[_ ?]]%Hloose; lia). rewrite lookup_app_r by (rewrite length_le; lia).
      rewrite !lookup_app_r by (rewrite ?length_le; lia). by rewrite !length_le.
Qed.

(** Writing rows that differ in the pointer, and perhaps in the lock word, makes the pages
    agree, or not, on the lock word of the slot, and leaves the other slots. *)
Lemma put_row_equiv E E' slot r r' pg pg' :
  valid_slot fh slot → whole_row r → len pg = PAGE_SIZE → same_row (slot ∈ E') r r' →
  (∀ slot', slot' ≠ slot → slot' ∈ E → slot' ∈ E') → page_equiv fh E pg pg' →
  page_equiv fh E' (put_row fh slot r pg) (put_row fh slot r' pg').
Proof using G Hrec.
  intros Hs Hw Hpg (q & l & -> & Hloose) HE [Hl He]. pose proof (slot_behind_header slot Hs) as Hb.
  unfold behind_header, sizeof_RmPageHdr in Hb.
  assert (row_in (get_slot_offset fh slot) pg r) as [H0 H1] by (by apply row_in_page).
  assert (len (enc_row (with_ptr q (with_word l r))) = len (enc_row r)) as Hlen by (by len).
  destruct (enc_row_loose r) as (a & c & Ha & Henc). unfold put_row. split; [rewrite !len_splice; lia|].
  intros i Hi. rewrite !splice_lookup by lia. unfold len in Hlen. rewrite Nat2Z.inj_iff in Hlen. rewrite Hlen.
  case_decide as Hd.
  - rewrite Henc. rewrite <- (with_same r), Henc. unfold sizeof_itemkey_t, offsetof_lock, len in *.
    set (j := (i - Z.to_nat (get_slot_offset fh slot))%nat).
    destruct (decide (Z.of_nat j < 16)); [by rewrite !lookup_app_l by lia|].
    rewrite !(lookup_app_r a) by lia. destruct (decide (Z.of_nat j < 32)).
    + destruct (decide (Z.of_nat j < 24)).
      * destruct Hloose as [Hin| ->]; [|by rewrite !lookup_app_l by (rewrite length_le; lia)].
        exfalso. apply Hi. exists slot. split; [done|]. rewrite decide_True by done.
        unfold item_offset, sizeof_itemkey_t, offsetof_value, offsetof_lock. lia.
      * exfalso. apply Hi. exists slot. split; [done|].
        unfold item_offset, sizeof_itemkey_t, offsetof_value, offsetof_lock. case_decide; lia.
    + by rewrite !lookup_app_r, !length_le by (rewrite ?length_le; lia).
  - apply He. intros (slot' & Hs' & Hp). destruct (decide (slot' = slot)) as [->|Hne].
    + apply Hd. unfold whole_row, len in Hw. rewrite <- Nat2Z.inj_lt in * || idtac.
      unfold slot_size, item_offset, sizeof_DataItem, sizeof_itemkey_t, offsetof_value, offsetof_lock in *.
      case_decide; lia.
    + apply Hi. exists slot'. split; [done|]. pose proof (HE slot' Hne).
      unfold offsetof_value, offsetof_lock in *. repeat case_decide; try tauto; lia.
Qed.

(** ** Replaying a record *)

Section records.
Context (me : Z) (names : Z → buffer).

Lemma wp_eq {S A} (m : M S A) a s s' : wp m (λ a' s1, a' = a ∧ s1 = s') s → m s = Done (a, s').
Proof using Type. unfold wp. destruct (m s) as [[a1 s1]| |]; [|done..]. by intros [-> ->]. Qed.

Lemma slot_in_range_true slot : valid_slot fh slot → slot_in_range fh slot = true.
Proof using Type. intros [? ?]. unfold slot_in_range. apply andb_true_iff. split; [by apply Z.leb_le|by apply Z.ltb_lt]. Qed.

Lemma in_order pg prev lsn : prev = page_LLSN pg → prev < lsn → negb (out_of_order (hdr_at pg) lsn prev) = true.
Proof using Type.
  intros -> Hlt. unfold out_of_order. rewrite hdr_at_LLSN, Z.eqb_refl. cbn [negb orb]. rewrite orb_false_r.
  apply negb_true_iff, Z.leb_gt. done.
Qed.

Lemma page_size_header (pg : buffer) : len pg = PAGE_SIZE → sizeof_RmPageHdr ≤ len pg.
Proof using Type. intros ->. done. Qed.

(** The header of the page is read before the row is written. *)
Lemma put_version_after slot r lsn pg :
  valid_slot fh slot → row_in (get_slot_offset fh slot) pg r →
  splice OFFSET_PAGE_HDR (enc_RmPageHdr (next_hdr (hdr_at pg) lsn)) (put_row fh slot r pg) =
  put_version lsn (put_row fh slot r pg).
Proof using G. intros. unfold put_version. rewrite hdr_at_put_row; [done|by apply slot_behind_header|done]. Qed.

Lemma redo_update tx rid r prev lsn pg :
  valid_slot fh (slot_no_ rid) → whole_row r → len pg = PAGE_SIZE → prev = page_LLSN pg → prev < lsn →
  redo fh (set_lsns prev lsn (update_record me names tx rid r)) pg =
  Done (tt, put_version lsn (put_row fh (slot_no_ rid) r pg)).
Proof using G.
  intros Hs Hw Hl Hp Hlt. assert (row_in (get_slot_offset fh (slot_no_ rid)) pg r) as Hin by (by apply row_in_page).
  apply wp_eq. unfold redo. cbn [set_lsns update_record new_UpdateLogRecord body hdr lsn_ prev_lsn_ key_ value_].
  wp_step. wp_step; [by apply slot_in_range_true|]. wp_step.
  eapply wp_done; [apply load_hdr_run; by apply page_size_header in Hl|]. wp_step.
  wp_step; [by apply in_order|]. wp_step. rewrite <- enc_row_split. destruct Hin as [H0 H1].
  apply wp_memcpy_to; [done|done|]. fold (put_row fh (slot_no_ rid) r pg).
  assert (row_in (get_slot_offset fh (slot_no_ rid)) pg r) as Hin by done.
  apply wp_memcpy_to; [done|rewrite len_put_row, len_enc_RmPageHdr by done; by apply page_size_header|].
  split; [done|]. by apply put_version_after.
Qed.

Lemma splice_all l buf : len l = len buf → splice 0 l buf = l.
Proof using Type.
  intros Hl. unfold splice, len in *. simpl. rewrite drop_ge by lia. by rewrite app_nil_r.
Qed.

(** Writing one field of the item. *)
Ltac item_field i :=
  eapply (wp_write_nth i);
    [reflexivity|by len|done
    |unfold fields; cbn [take drop concat insert list_insert]; rewrite ?len_enc_item; len; done
    |unfold fields; cbn [take drop concat insert list_insert]; len; done|].

Lemma with_lock_run r it :
  with_lock (lock it) (timeStamp it) (holder_node it) (lock_owner_node it) (enc_item r) =
  Done (tt, enc_item (with_item_lock it r)).
Proof using Type.
  apply wp_eq. rewrite <- (splice_all (enc_item r) (enc_item r) eq_refl). unfold with_lock, enc_item at 1.
  wp_step. item_field 2%nat. wp_step. item_field 13%nat. wp_step. item_field 10%nat. item_field 11%nat.
  split; [done|]. change (splice 0 (enc_item (with_item_lock it r)) (enc_item r) = enc_item (with_item_lock it r)).
  apply splice_all. by rewrite !len_enc_item.
Qed.

Lemma splice_item slot r r' pg :
  row_at fh slot r pg → r_key r' = r_key r → r_value r' = r_value r →
  splice (item_offset fh slot) (enc_item r') pg = put_row fh slot r' pg.
Proof using Type.
  intros Hat Hk Hv. rewrite <- (row_at_put fh slot r pg Hat) at 1. apply row_at_in in Hat as [H0 H1].
  unfold put_row, item_offset. rewrite !enc_row_split, Hk, Hv in *.
  change sizeof_itemkey_t with (len (le 8 (r_key r))).
  rewrite splice_inside; [done|done|by rewrite !len_enc_item|done].
Qed.

Lemma load_item_run slot r pg :
  row_at fh slot r pg → memcpy_from (item_offset fh slot) sizeof_DataItem pg = Done (enc_item r, pg).
Proof using Type.
  intros Hat. pose proof (row_at_put _ _ _ _ Hat) as E. apply wp_eq.
  pose proof (wp_load_item (get_slot_offset fh slot) pg r (λ a s, a = enc_item r ∧ s = put_row fh slot r pg)) as H.
  fold (put_row fh slot r pg) in H. rewrite E in H. apply H; [by apply row_at_in|done].
Qed.

Lemma redo_lock tx table rid it r prev lsn pg :
  valid_slot fh (slot_no_ rid) → whole_row r → len pg = PAGE_SIZE → row_at fh (slot_no_ rid) r pg →
  prev = page_LLSN pg → prev < lsn →
  redo fh (set_lsns prev lsn (lock_record me names tx table rid it)) pg =
  Done (tt, put_version lsn (put_row fh (slot_no_ rid) (with_item_lock it r) pg)).
Proof using G.
  intros Hs Hw Hl Hat Hp Hlt. assert (row_in (get_slot_offset fh (slot_no_ rid)) pg (with_item_lock it r)) as Hin.
  { by apply row_in_lock, row_in_page. }
  apply wp_eq. unfold redo. cbn [set_lsns lock_record new_LockLogRecord body hdr lsn_ prev_lsn_].
  wp_step. wp_step; [by apply slot_in_range_true|]. wp_step.
  eapply wp_done; [apply load_hdr_run; by apply page_size_header in Hl|]. wp_step.
  wp_step; [by apply in_order|]. cbv zeta. fold (item_offset fh (slot_no_ rid)). wp_step.
  pose proof (row_at_in _ _ _ _ Hat) as Hin'.
  eapply wp_done; [by apply load_item_run|]. wp_step. eapply wp_on_buffer; [apply with_lock_run|]. cbv beta iota. wp_step.
  apply wp_memcpy_to.
  { destruct Hin'. unfold item_offset, sizeof_itemkey_t. lia. }
  { destruct Hin' as [_ H1]. rewrite len_enc_row in H1. rewrite len_enc_item. unfold item_offset.
    pose proof (len_nonneg (r_value r)). lia. }
  rewrite (splice_item _ r) by done.
  apply wp_memcpy_to; [done|rewrite len_put_row, len_enc_RmPageHdr by done; by apply page_size_header|].
  split; [done|]. by apply put_version_after.
Qed.

(** ** Replaying a call *)

Context (addr : Z).
Abbreviation effect := (call_effect me names addr fh) (only parsing).

(** [release_imme] unlocks the row again in the page, but logs the lock. *)
Definition releases_at_once (c : RowCall) (r : Row) : bool :=
  match c with
  | CLock _ _ _ _ true => lock (r_lock r) =? UNLOCKED
  | _ => false
  end.

(** The slots whose lock word in the page is not the one in the log, after the call. *)
Definition early_after (c : RowCall) (r : Row) (E : gset Z) : gset Z :=
  match snd (effect c r) with
  | None => E
  | Some _ => if releases_at_once c r then {[ slot_no_ (call_rid c) ]} ∪ E else E ∖ {[ slot_no_ (call_rid c) ]}
  end.

Lemma take_len (n : Z) (v : buffer) : 0 ≤ n ≤ len v → len (take (Z.to_nat n) v) = n.
Proof using Type. unfold len. intros. rewrite length_take. lia. Qed.

Lemma effect_len c r :
  row_fits r → call_ok me fh c r → len (r_value (fst (effect c r))) = len (r_value r).
Proof using Type.
  intros Hf Hok. pose proof (rf_value r Hf) as Hv. pose proof (len_nonneg (r_value r)).
  call_cases c; cbn [r_value with_value with_item_lock with_commit_ts with_version located with_ptr]; try done;
    try (destruct Hok as (_ & _ & Hl & _); congruence).
  all: destruct Hok as (_ & _ & _ & Hl & _); rewrite ?take_len; lia.
Qed.

Lemma effect_value_bytes c r :
  call_ok me fh c r → Forall is_byte (r_value r) → Forall is_byte (r_value (fst (effect c r))).
Proof using Type.
  intros Hok Hb. call_cases c; cbn [r_value with_value with_item_lock with_commit_ts with_version located with_ptr]; try done.
  all: try apply Forall_take; naive_solver.
Qed.

(** The row is that of the page except for the fields of the lock and its value, times and pointer. *)
Lemma effect_same c r :
  snd (effect c r) = None → same_row False r (fst (effect c r)).
Proof using Type.
  call_cases c; intros Hn; try done; first [reflexivity|apply same_row_ptr].
Qed.

(** What a logged effect is: the whole row, or its lock. *)
Lemma effect_logged c r x :
  snd (effect c r) = Some x →
  (∃ tx, x = update_record me names tx (call_rid c) (fst (effect c r))) ∨
  (∃ tx table it, x = lock_record me names tx table (call_rid c) it ∧
     same_row (releases_at_once c r = true) (with_item_lock it r) (fst (effect c r))).
Proof using Type.
  call_cases c; cbn [call_rid releases_at_once] in *; intros Hx; try done; injection Hx as <-;
    try (left; by eexists); right; do 3 eexists; (split; [reflexivity|]); try reflexivity;
    first [apply (same_row_ptr _ _ (with_item_lock _ _))|eexists _, UNLOCKED; split; [reflexivity|by left]].
Qed.

Lemma early_after_logged c r x E slot : snd (effect c r) = Some x →
  slot ∈ early_after c r E ↔
  if decide (slot = slot_no_ (call_rid c)) then releases_at_once c r = true else slot ∈ E.
Proof using Type.
  clear G Hrec. intros Hx. unfold early_after. rewrite Hx. destruct (releases_at_once c r); case_decide; set_solver.
Qed.

Lemma concat_bytes (fs : list buffer) : Forall (Forall is_byte) fs → Forall is_byte (concat fs).
Proof using Type. induction 1; cbn [concat]; [done|]. by apply Forall_app. Qed.

Lemma enc_row_bytes r : Forall is_byte (r_value r) → Forall is_byte (enc_row r).
Proof using Type. intros Hv. apply concat_bytes. unfold fields. repeat (constructor; [apply le_bytes|]). by repeat constructor. Qed.

Lemma put_row_bytes slot r pg : Forall is_byte (r_value r) → Forall is_byte pg → Forall is_byte (put_row fh slot r pg).
Proof using Type. intros. apply splice_bytes; [by apply enc_row_bytes|done]. Qed.

Lemma put_version_bytes lsn pg : Forall is_byte pg → Forall is_byte (put_version lsn pg).
Proof using Type.
  intros. apply splice_bytes; [|done]. unfold enc_RmPageHdr. repeat (apply Forall_app; split; [apply le_bytes|]). apply le_bytes.
Qed.

Lemma row_value_bytes slot r pg : row_at fh slot r pg → Forall is_byte pg → Forall is_byte (r_value r).
Proof using Type.
  intros (_ & _ & E)%stored_slice Hb. pose proof (slice_bytes (get_slot_offset fh slot) (len (enc_row r)) pg Hb) as H.
  rewrite E, enc_row_split in H. by apply Forall_app in H as [_ [_ H]%Forall_app].
Qed.

Lemma effect_whole c r : row_fits r → call_ok me fh c r → whole_row r → whole_row (fst (effect c r)).
Proof using Type. intros Hf Hok. unfold whole_row. len. by rewrite effect_len. Qed.

(** A call that logs nothing changes nothing but the pointer. *)
Lemma silent_call E c r pg pgs :
  let slot := slot_no_ (call_rid c) in
  valid_slot fh slot → row_at fh slot r pg → whole_row r → len pg = PAGE_SIZE → page_equiv fh E pg pgs →
  snd (effect c r) = None → page_equiv fh E (put_row fh slot (fst (effect c r)) pg) pgs.
Proof using G Hrec.
  intros slot Hs Hat Hw Hl He Hn. pose proof (effect_same c r Hn) as Hsame.
  transitivity pg; [|done]. rewrite <- (row_at_put fh slot r pg Hat) at 2.
  apply (put_row_equiv E); [done|by apply (whole_row_same False r)|done| |done|done].
  symmetry. by eapply (same_row_mono False).
Qed.

(** Replaying the record of a call does to a copy of the page what the call has done. *)
Lemma logged_call E c r x lsn pg pgs :
  let slot := slot_no_ (call_rid c) in
  valid_slot fh slot → row_at fh slot r pg → row_fits r → whole_row r → call_ok me fh c r →
  len pg = PAGE_SIZE → page_equiv fh E pg pgs → Forall is_byte pgs → page_LLSN pg < lsn →
  snd (effect c r) = Some x →
  ∃ q, let pgs' := put_version lsn (put_row fh slot q pgs) in
    redo fh (set_lsns (page_LLSN pg) lsn x) pgs = Done (tt, pgs') ∧ whole_row q ∧ Forall is_byte pgs' ∧
    page_equiv fh (early_after c r E) (put_version lsn (put_row fh slot (fst (effect c r)) pg)) pgs'.
Proof using G Hrec.
  intros slot Hs Hat Hf Hw Hok Hl He Hby Hlt Hx.
  pose proof (page_LLSN_proper _ _ _ He) as HL. rewrite HL in *.
  assert (len pgs = PAGE_SIZE) as Hls by (by rewrite <- (proj1 He)).
  pose proof (effect_whole c r Hf Hok Hw) as Hw'.
  destruct (row_at_equiv E slot r pg pgs Hs Hw Hby He Hat) as (rs & Hsame & Hats).
  pose proof (row_value_bytes _ _ _ Hats Hby) as Hvb.
  assert (∀ q, same_row (releases_at_once c r = true) (fst (effect c r)) q → page_equiv fh (early_after c r E)
    (put_version lsn (put_row fh slot (fst (effect c r)) pg)) (put_version lsn (put_row fh slot q pgs))) as Hput.
  { intros q Hq. apply put_version_equiv.
    - rewrite len_put_row by (by apply row_in_page). by apply page_size_header.
    - apply (put_row_equiv E); try done.
      + eapply same_row_mono; [|exact Hq]. rewrite (early_after_logged c r x) by done. by rewrite decide_True.
      + intros slot' Hne. rewrite (early_after_logged c r x) by done. by rewrite decide_False. }
  destruct (effect_logged c r x Hx) as [(tx & ->)|(tx & table & it & -> & Hq)].
  - exists (fst (effect c r)). split; [by apply redo_update|]. split; [done|]. split; [|by apply Hput].
    apply put_version_bytes, put_row_bytes; [|done].
    apply effect_value_bytes; [done|]. by destruct Hsame as (q & l & -> & _).
  - pose proof (whole_row_same _ _ _ Hsame Hw) as Hwq.
    exists (with_item_lock it rs). split; [by apply (redo_lock _ _ _ _ rs)|]. split; [done|].
    split; [apply put_version_bytes, put_row_bytes; done|]. apply Hput. rewrite <- Hq.
    destruct Hsame as (q & l & -> & _). apply (same_row_ptr _ q (with_item_lock it r)).
Qed.
End records.
End geometry.
