(* ===== verification/RowSystem.v ===== *)
(** The cluster of [ReplaySystem] with the contents of the pages: compute nodes that
    call the row operations of [TxPage] on the pages they hold, the write-ahead log,
    the storage node that replays it, and crashes.

    Two things are taken from outside.  A node that calls holds the page exclusively
    and has its latest contents ([EagerSystem.eager_reads_latest],
    [NodeProtocol.shared_page_latest]): there is one contents per page.  And a page
    leaves a node only once the node's log is durable ([NodeProtocol.push_respects_log]),
    so that changes by other nodes are durable.

    A lock call may release the row at once ([release_imme]); then its lock word in the
    page is not the one in the log.  [early] keeps the slots for which this is so. *)

From stdpp Require Import functions sorting.
From S2P Require Import Prelude Common Bytes Bitmap Record RecordPage PreparedTxn LogRecord LogFormat DiskManager FsmReplay LogReplay LogManager LogBuffer LockWait Redo LogStream ReplayOrder ReplayRead ReplayStart ReplaySystem ReplayInv TxPage TxRow TxSpec TxCalls TxRedo.

#[local] Arguments le : simpl never.

Record Cluster := mkCluster {
  cl_sys : Sys;
  pages : PageKey → buffer;      (* the latest contents, where the page is *)
  early : PageKey → gset Z       (* the slots whose lock is released in the page, not in the log *)
}.

Section cluster.
Context `{RequestCodec}.
Context (n0 : nat) (hdrs : gmap path RmFileHdr) (base : gmap PageKey buffer).
(** The names of the tables, and where a node has a page in memory. *)
Context (names : Z → path) (addr : Z → PageKey → Z).

Definition hist_of (s : Cluster) (key : PageKey) : list LogRecord := hist (cl_sys s) key.
Definition log_of (s : Cluster) (n : Z) : LogBuffer := nodes (cl_sys s) n.

(** A node may call [c] on the page, which has the row [r]. *)
Record may_call (s : Cluster) (n : Z) (key : PageKey) (fh : RmFileHdr) (c : RowCall) (r : Row) : Prop := {
  mc_node : 0 ≤ n;
  mc_table : hdrs !! key.1 = Some fh;
  mc_page : is_Some (base !! key) ∧ page_no_ (call_rid c) = key.2;
  mc_slot : valid_slot fh (slot_no_ (call_rid c));
  mc_row : row_at fh (slot_no_ (call_rid c)) r (pages s key);
  mc_fits : row_fits r ∧ record_size_ fh = sizeof_DataItem + r_value_size r ∧ names (r_table_id r) = key.1;
  mc_ok : call_ok n fh c r;
  mc_current : current_llsn_ (log_of s n) + 1 < 2 ^ 64;
  mc_version : page_LLSN (pages s key) + 1 < 2 ^ 64;
  mc_durable y : y ∈ hist_of s key → y ∈ durable (cl_sys s) (node_of y) ∨ node_of y = n
}.

Inductive cluster_step (s : Cluster) : Cluster → Prop :=
  | cs_call n key fh c r d p' x :
      may_call s n key fh c r →
      run_call n names (addr n key) fh c (mkHeld (pages s key) d (log_of s n)) = Done (tt, p') →
      log_records (node_log p') = log_records (log_of s n) ++ [x] → loggable n x →
      let y := cl_sys s in
      cluster_step s (mkCluster
        (mkSys (<[n := node_log p']> (nodes y)) (sent y) (storage y) (<[key := hist y key ++ [x]]> (hist y)) (durable y))
        (<[key := page_data p']> (pages s))
        (<[key := early_after fh n names (addr n key) c r (early s key)]> (early s)))
  | cs_look n key fh c r d p' :
      may_call s n key fh c r →
      run_call n names (addr n key) fh c (mkHeld (pages s key) d (log_of s n)) = Done (tt, p') →
      node_log p' = log_of s n →
      cluster_step s (mkCluster (cl_sys s) (<[key := page_data p']> (pages s)) (early s))
  | cs_quiet y' :
      quiet_step base (cl_sys s) y' → cluster_step s (mkCluster y' (pages s) (early s))
  | cs_crash now depth logs other direct names' order r' pages' :
      crash_image (cl_sys s) logs → (size (dom other) ≤ n0)%nat → order ≡ₚ elements (dom logs) →
      start now depth order (boot (cl_sys s) logs other direct names') = Done (tt, r') →
      (∀ key, is_Some (base !! key) → page_at r' key = Some (pages' key)) →
      cluster_step s (mkCluster (restarted (cl_sys s) logs r') pages' (λ _, ∅)).

(** The tables have room for rows, and their pages are of bytes. *)
Record tables_ok : Prop := {
  tb_geometry name fh : hdrs !! name = Some fh → geometry fh ∧ sizeof_DataItem ≤ record_size_ fh;
  tb_page key pg0 : base !! key = Some pg0 → len pg0 = PAGE_SIZE ∧ Forall is_byte pg0 ∧ is_Some (hdrs !! key.1)
}.

Definition cluster_set_up (s : Cluster) : Prop :=
  set_up n0 hdrs base (cl_sys s) ∧ (∀ key pg0, base !! key = Some pg0 → pages s key = pg0) ∧
  ∀ key, early s key = ∅.

Definition cluster_reachable (s : Cluster) : Prop := ∃ s0, cluster_set_up s0 ∧ star cluster_step s0 s.

(** The slot that a record of an update or a lock is about. *)
Definition record_slot (x : LogRecord) : option Z :=
  match body x with
  | UpdateBody _ rid _ _ | LockBody _ rid _ _ _ _ _ => Some (slot_no_ rid)
  | _ => None
  end.

(** The record changes one row, and the version of the page. *)
Definition changes_row (fh : RmFileHdr) (x : LogRecord) (pg : buffer) : Prop :=
  ∃ slot q lsn, record_slot x = Some slot ∧ valid_slot fh slot ∧ whole_row fh q ∧
    redo fh x pg = Done (tt, put_version lsn (put_row fh slot q pg)).

(** The history of a page, at every length, is of changes that apply; the contents of
    the page are what all of them leave, up to the pointers and the locks released. *)
Record page_inv (fh : RmFileHdr) (E : gset Z) (pg0 : buffer) (l : list LogRecord) (pg : buffer) : Prop := {
  pi_prefix k : ∃ pgk, redo_all fh (take k l) pg0 = Done (tt, pgk) ∧ Forall is_byte pgk ∧ len pgk = PAGE_SIZE;
  pi_page : ∃ pgl, redo_all fh l pg0 = Done (tt, pgl) ∧ page_equiv fh E pgl pg;
  pi_changes k x pgk : l !! k = Some x → redo_all fh (take k l) pg0 = Done (tt, pgk) → changes_row fh x pgk
}.

Record cluster_inv (s : Cluster) : Prop := {
  ci_reachable : reachable n0 hdrs base (cl_sys s);
  ci_pages key pg0 fh : base !! key = Some pg0 → hdrs !! key.1 = Some fh →
    page_inv fh (early s key) pg0 (hist_of s key) (pages s key)
}.

Hypothesis T : tables_ok.

Lemma reachable_step y y' : reachable n0 hdrs base y → step n0 hdrs base y y' → reachable n0 hdrs base y'.
Proof using Type. intros (y0 & H0 & Hs) Hstep. exists y0. split; [done|]. by eapply star_snoc. Qed.

(** ** A call *)

Lemma len_redo_all fh l pg0 pg : Forall (λ x, PageForLog x ≠ None ∧ uint_fits 8 (lsn_ (hdr x))) l →
  redo_all fh l pg0 = Done (tt, pg) → len pg = len pg0.
Proof using Type.
  intros Hl. revert pg0. unfold redo_all. induction Hl as [|x l [Hk Hf] Hl IH]; intros pg0; cbn [for_each].
  - by intros [= <-].
  - intros ([] & pg1 & H1 & H2)%bind_done. rewrite (IH pg1 H2). by destruct (redo_page fh x pg0 pg1 Hk Hf H1) as [? _].
Qed.


Definition numbers (x : LogRecord) (h : RmPageHdr) (call : MB (Z * RmPageHdr)) : Prop := ∀ b,
  ready b → current_llsn_ b + 1 < 2 ^ 64 → 0 < next_lsn b (LLSN_ h) →
  let lsn := next_lsn b (LLSN_ h) in
  call b = Done ((lsn, next_hdr h lsn), queued b (set_lsns (LLSN_ h) lsn x) lsn).

Lemma add_page_log_numbers x h : numbers x h (add_page_log x h).
Proof using Type. intros b Hr Hc Hp lsn. apply wp_eq. by apply wp_add_page_log. Qed.

Lemma update_call n tx rid r h :
  ∃ call, page_call n h (update_record n names tx rid r) call ∧ numbers (update_record n names tx rid r) h call.
Proof using Type.
  exists (AddUpdateLog n tx (names (r_table_id r)) (enc_item r) (r_value r) (Some (r_key r)) rid h 0). split.
  - apply (call_update n h tx (names (r_table_id r)) (enc_item r) (r_value r) (Some (r_key r)) rid 0).
  - intros b Hr Hc Hp lsn. apply wp_eq. apply wp_AddUpdateLog; [done..|]. by apply wp_add_page_log.
Qed.

Lemma lock_call n tx table rid ts holder owner h :
  let x := lock_record n names tx table rid (mkItem EXCLUSIVE_LOCKED ts (u8 holder) (u8 owner)) in
  ∃ call, page_call n h x call ∧ numbers x h call.
Proof using Type.
  intros x. exists (AddLockLog n tx table (names table) rid EXCLUSIVE_LOCKED h ts holder owner).
  split; [apply call_lock|]. apply add_page_log_numbers.
Qed.

Lemma effect_call n a fh c r x :
  call_ok n fh c r → snd (call_effect n names a fh c r) = Some x →
  PageForLog x = Some (names (r_table_id r), page_no_ (call_rid c)) ∧
  ∀ h, ∃ call, page_call n h x call ∧ numbers x h call.
Proof using Type.
  intros Hok. clear addr T. call_cases c; cbn [call_rid]; intros Hx; try done; injection Hx as <-;
    (split; [first [done|naive_solver]|]); intros h; first [apply update_call|apply lock_call].
Qed.

Lemma effect_slot n a fh c r x lsn v :
  snd (call_effect n names a fh c r) = Some x → record_slot (set_lsns v lsn x) = Some (slot_no_ (call_rid c)).
Proof using Type.
  intros [(tx & ->)|(tx & table & it & -> & _)]%effect_logged; done.
Qed.

Lemma quiet_hist y y' : quiet_step base y y' → hist y' = hist y.
Proof using Type. by destruct 1. Qed.

Lemma page_inv_snoc fh E E' pg0 l x pgl pg' pgc :
  page_inv fh E pg0 l pgc → redo_all fh l pg0 = Done (tt, pgl) → redo fh x pgl = Done (tt, pg') →
  changes_row fh x pgl → Forall is_byte pg' → len pg' = PAGE_SIZE →
  ∀ pgc', page_equiv fh E' pg' pgc' → page_inv fh E' pg0 (l ++ [x]) pgc'.
Proof using Type.
  intros [H1 H2 H3] Hl Hx Hch Hb Hlen pgc' He. pose proof (redo_all_snoc _ _ _ _ _ _ Hl Hx) as Hall. split.
  - intros k. destruct (decide (k ≤ length l)%nat).
    + by rewrite take_app_le.
    + rewrite take_ge by (rewrite length_app; simpl; lia). by exists pg'.
  - by exists pg'.
  - intros k y pgk [Hk|[Hk ->]]%lookup_snoc_Some.
    + destruct Hk. rewrite take_app_le by lia. by apply H3.
    + rewrite Hk, take_app_length, Hl. by intros [= <-].
Qed.

(** What is known about the page of a call. *)
Record call_facts (s : Cluster) (n : Z) (key : PageKey) (fh : RmFileHdr) (r : Row) : Prop := {
  cf_ready : ready (log_of s n);
  cf_geometry : geometry fh;
  cf_record : sizeof_DataItem ≤ record_size_ fh;
  cf_whole : whole_row fh r;
  cf_len : len (pages s key) = PAGE_SIZE;
  cf_version : uint_fits 8 (page_LLSN (pages s key));
  cf_base : ∃ pg0 pgl, base !! key = Some pg0 ∧ redo_all fh (hist_of s key) pg0 = Done (tt, pgl) ∧
    page_equiv fh (early s key) (pages s key) pgl ∧ Forall is_byte pgl ∧
    page_inv fh (early s key) pg0 (hist_of s key) (pages s key)
}.

Lemma may_call_facts s n key fh c r : cluster_inv s → may_call s n key fh c r → call_facts s n key fh r.
Proof using T.
  intros [Hr Hp] Hc. pose proof (reachable_sys_inv _ _ _ _ Hr) as Hs.
  destruct (mc_page _ _ _ _ _ _ Hc) as [[pg0 Hb] _]. pose proof (mc_table _ _ _ _ _ _ Hc) as Hh.
  destruct (tb_geometry T _ _ Hh) as [G Hrec]. pose proof (Hp key pg0 fh Hb Hh) as Hpi.
  destruct (pi_page _ _ _ _ _ Hpi) as (pgl & Hl & He).
  destruct (pi_prefix _ _ _ _ _ Hpi (length (hist_of s key))) as (pgl' & Hl' & Hby & Hlen).
  rewrite take_ge in Hl' by done. rewrite Hl in Hl'. injection Hl' as <-.
  assert (len (pages s key) = PAGE_SIZE) as Hlc by (by rewrite <- (proj1 He)).
  destruct (mc_fits _ _ _ _ _ _ Hc) as (Hf & Hsize & _). split; try done.
  - apply (si_node _ _ _ _ Hs n).
  - unfold whole_row, slot_size. rewrite len_enc_row, Hsize, (rf_value r Hf). lia.
  - rewrite <- (page_LLSN_proper fh G _ _ _ He). unfold page_LLSN.
    pose proof (slice_bytes offsetof_LLSN 8 pgl Hby) as Hsb. apply unle_fits in Hsb.
    assert (length (slice offsetof_LLSN 8 pgl) = 8%nat) as E8; [|by rewrite E8 in Hsb].
    pose proof (len_slice offsetof_LLSN 8 pgl) as E. rewrite Hlen in E. unfold len in E.
    assert (Z.of_nat (length (slice offsetof_LLSN 8 pgl)) = 8); [|lia]. apply E; done.
  - exists pg0, pgl. split; [done|]. split; [done|]. split; [by symmetry|]. done.
Qed.

Lemma call_runs s n key fh c r d : cluster_inv s → may_call s n key fh c r →
  wp (run_call n names (addr n key) fh c)
    (λ _ p', p' = applied fh (slot_no_ (call_rid c)) (call_effect n names (addr n key) fh c r)
                    (mkHeld (pages s key) d (log_of s n)))
    (mkHeld (pages s key) d (log_of s n)).
Proof using T.
  intros Hi Hc. pose proof (may_call_facts _ _ _ _ _ _ Hi Hc) as [].
  destruct (mc_fits _ _ _ _ _ _ Hc) as (Hf & _ & _). pose proof (mc_ok _ _ _ _ _ _ Hc) as Hok.
  apply wp_run_call; cbn [page_data node_log]; try done; try apply Hc.
  apply slot_behind_header; [done|apply Hc].
Qed.

Lemma cluster_call s n key fh c r d p' x :
  cluster_inv s → may_call s n key fh c r →
  run_call n names (addr n key) fh c (mkHeld (pages s key) d (log_of s n)) = Done (tt, p') →
  log_records (node_log p') = log_records (log_of s n) ++ [x] → loggable n x →
  let y := cl_sys s in
  cluster_inv (mkCluster
    (mkSys (<[n := node_log p']> (nodes y)) (sent y) (storage y) (<[key := hist y key ++ [x]]> (hist y)) (durable y))
    (<[key := page_data p']> (pages s))
    (<[key := early_after fh n names (addr n key) c r (early s key)]> (early s))).
Proof using T.
  intros Hi Hc Hrun Hx Hlog y. pose proof (wp_run _ _ _ _ _ (call_runs _ _ _ _ _ _ d Hi Hc) Hrun) as Hp'. cbv beta in Hp'.
  destruct (may_call_facts _ _ _ _ _ _ Hi Hc) as [Hr G Hrec Hw Hlen Hv (pg0 & pgl & Hb & Hl & He & Hby & Hpi)].
  destruct (mc_fits _ _ _ _ _ _ Hc) as (Hf & Hsize & Hname). pose proof (mc_ok _ _ _ _ _ _ Hc) as Hok.
  destruct (mc_page _ _ _ _ _ _ Hc) as [_ Hpage]. pose proof (mc_current _ _ _ _ _ _ Hc) as Hcur.
  pose proof (mc_version _ _ _ _ _ _ Hc) as Hver.
  destruct (next_lsn_bounds (log_of s n) (page_LLSN (pages s key))) as [Hlt Hpos];
    [apply Hr|done|apply Hv|done|].
  destruct (snd (call_effect n names (addr n key) fh c r)) as [x'|] eqn:Ee.
  2:{ exfalso. subst p'. unfold applied in Hx. rewrite Ee in Hx. cbn [set_data node_log] in Hx.
      apply (f_equal length) in Hx. rewrite length_app in Hx. simpl in Hx. lia. }
  assert (x = set_lsns (page_LLSN (pages s key)) (next_lsn (log_of s n) (page_LLSN (pages s key))) x') as ->.
  { subst p'. unfold applied in Hx. rewrite Ee in Hx. cbn [node_log page_data queued set_records log_records] in Hx.
    apply app_inj_tail in Hx as [_ <-]. done. }
  destruct (logged_call fh G Hrec n names (addr n key) (early s key) c r x' (next_lsn (log_of s n) (page_LLSN (pages s key)))
    (pages s key) pgl) as (q & Hredo & Hq & Hby' & He'); try done; [apply Hc|apply Hc|].
  set (pg' := put_version _ (put_row _ _ q _)) in Hredo, Hby', He'.
  destruct (effect_call n (addr n key) fh c r x' Hok Ee) as [Hk Hcalls].
  destruct (Hcalls (hdr_at pgl)) as (call & Hcall & Hnum).
  pose proof (page_LLSN_proper fh G _ _ _ He) as HL.
  assert (LLSN_ (hdr_at pgl) = page_LLSN (pages s key)) as HLh by (by rewrite hdr_at_LLSN).
  specialize (Hnum (log_of s n) Hr Hcur). rewrite HLh in Hnum. specialize (Hnum (proj1 Hpos)). cbv zeta in Hnum.
  assert (len pg' = PAGE_SIZE) as Hlen'.
  { rewrite <- (proj1 He'). rewrite len_put_version, len_put_row; try done.
    - apply row_in_page; try done; [apply Hc|]. by apply effect_whole.
    - rewrite len_put_row; [by rewrite Hlen|]. apply row_in_page; try done; [apply Hc|]. by apply effect_whole. }
  split; cbn [cl_sys pages early].
  - apply (reachable_step y); [apply Hi|].
    assert (node_log p' = queued (log_of s n) (set_lsns (page_LLSN (pages s key))
      (next_lsn (log_of s n) (page_LLSN (pages s key))) x') (next_lsn (log_of s n) (page_LLSN (pages s key)))) as Hb'.
    { subst p'. unfold applied. rewrite Ee. done. }
    rewrite Hb'. rewrite <- HLh in *.
    eapply (step_log _ _ _ y n key fh pg0 pgl pg' (hdr_at pgl) x' call); try done; try apply Hc.
    unfold set_lsns. unfold PageForLog in *. cbn [body]. rewrite Hk. destruct key. cbn in *. congruence.
  - intros key' pg0' fh' Hb' Hh'. unfold hist_of. cbn [cl_sys hist early]. destruct (decide (key = key')) as [<-|Hne].
    + rewrite !fn_lookup_insert. rewrite Hb in Hb'. injection Hb' as <-. rewrite (mc_table _ _ _ _ _ _ Hc) in Hh'.
      injection Hh' as <-. eapply page_inv_snoc; try done.
      * exists (slot_no_ (call_rid c)), q, (next_lsn (log_of s n) (page_LLSN (pages s key))).
        split; [by eapply effect_slot|]. split; [apply Hc|]. split; [done|exact Hredo].
      * symmetry. etrans; [|exact He']. subst p'. unfold applied. rewrite Ee. cbn [page_data]. reflexivity.
    + rewrite !fn_lookup_insert_ne by done. by apply (ci_pages _ Hi).
Qed.

Lemma cluster_look s n key fh c r d p' :
  cluster_inv s → may_call s n key fh c r →
  run_call n names (addr n key) fh c (mkHeld (pages s key) d (log_of s n)) = Done (tt, p') →
  node_log p' = log_of s n → cluster_inv (mkCluster (cl_sys s) (<[key := page_data p']> (pages s)) (early s)).
Proof using T.
  intros Hi Hc Hrun Hn. pose proof (wp_run _ _ _ _ _ (call_runs _ _ _ _ _ _ d Hi Hc) Hrun) as Hp'. cbv beta in Hp'.
  destruct (may_call_facts _ _ _ _ _ _ Hi Hc) as [Hr G Hrec Hw Hlen Hv (pg0 & pgl & Hb & Hl & He & Hby & Hpi)].
  split; cbn [cl_sys pages early]; [apply Hi|].
  intros key' pg0' fh' Hb' Hh'. unfold hist_of. cbn [cl_sys]. destruct (decide (key = key')) as [<-|Hne].
  2:{ rewrite fn_lookup_insert_ne by done. by apply (ci_pages _ Hi). }
  rewrite fn_lookup_insert. rewrite Hb in Hb'. injection Hb' as <-. rewrite (mc_table _ _ _ _ _ _ Hc) in Hh'.
  injection Hh' as <-. split; [apply Hpi| |apply Hpi]. exists pgl. split; [done|].
  destruct (snd (call_effect n names (addr n key) fh c r)) as [x'|] eqn:Ee.
  { exfalso. subst p'. unfold applied in Hn. rewrite Ee in Hn. cbn [node_log page_data] in Hn.
    apply (f_equal (length ∘ log_records)) in Hn. simpl in Hn. rewrite length_app in Hn. simpl in Hn. lia. }
  subst p'. unfold applied. rewrite Ee. cbn [page_data set_data]. symmetry.
  apply silent_call; try done; apply Hc.
Qed.

(** What a crash leaves of a history is a beginning of it. *)
Lemma surviving_take y logs key : sys_inv n0 hdrs base y → is_Some (base !! key) →
  ∃ k, durable_history (hist y) (surviving y logs) key = take k (hist y key) ∧
    ∀ i x, hist y key !! i = Some x → x ∈ surviving y logs (node_of x) ↔ (i < k)%nat.
Proof using Type.
  intros Hs Hb. destruct (durable_history_take n0 hdrs base (hist y) (si_hist _ _ _ _ Hs) (logged y) (surviving y logs)
    (si_logs _ _ _ _ Hs) (surviving_prefix _ _) key) as (k & _ & Ek & Hk); [by eapply wal_rule_surviving|done|].
  by exists k.
Qed.

Lemma cluster_crash s now depth logs other direct names' order r' pages' :
  cluster_inv s → crash_image (cl_sys s) logs → (size (dom other) ≤ n0)%nat → order ≡ₚ elements (dom logs) →
  start now depth order (boot (cl_sys s) logs other direct names') = Done (tt, r') →
  (∀ key, is_Some (base !! key) → page_at r' key = Some (pages' key)) →
  cluster_inv (mkCluster (restarted (cl_sys s) logs r') pages' (λ _, ∅)).
Proof using T.
  intros Hi Hc Ho Hord Hrun Hpages. pose proof (reachable_sys_inv _ _ _ _ (ci_reachable _ Hi)) as Hs.
  split; cbn [cl_sys pages early].
  - apply (reachable_step (cl_sys s)); [apply Hi|]. by eapply step_crash.
  - intros key pg0 fh Hb Hh. pose proof (ci_pages _ Hi key pg0 fh Hb Hh) as Hpi.
    pose proof (wp_restart _ _ _ _ now depth logs other direct names' order Hs Hc Ho Hord) as Hwp.
    eapply wp_run in Hwp; [|exact Hrun]. destruct Hwp as (_ & _ & Hdur).
    destruct (Hdur key pg0 fh Hb Hh) as (pg & Hpg & Hat). rewrite Hpages in Hat by done. injection Hat as <-.
    unfold durable_history at 1 in Hpg. rewrite filter_idem_all in Hpg by (by intros x [? _]%list_elem_of_filter).
    destruct (surviving_take (cl_sys s) logs key Hs) as (k & Ek & _); [by eexists|].
    unfold hist_of. cbn [cl_sys restarted hist]. change (filter _ _) with (durable_history (hist (cl_sys s)) (surviving (cl_sys s) logs) key).
    rewrite Ek in *. split.
    + intros j. rewrite take_take. apply Hpi.
    + exists (pages' key). split; [done|reflexivity].
    + intros j x pgj [Hj Hlt]%lookup_take_Some. rewrite take_take, min_l by lia. by apply Hpi.
Qed.

Lemma cluster_step_inv s s' : cluster_step s s' → cluster_inv s → cluster_inv s'.
Proof using T.
  intros Hstep Hi. destruct Hstep as [n key fh c r d p' x Hc Hrun Hx Hl y|n key fh c r d p' Hc Hrun Hn|y' Hq|].
  - by eapply cluster_call.
  - by eapply cluster_look.
  - split; cbn [cl_sys pages early]; [apply (reachable_step (cl_sys s)); [apply Hi|by apply step_quiet]|].
    intros key pg0 fh Hb Hh. unfold hist_of. cbn [cl_sys]. rewrite (quiet_hist _ _ Hq). by apply (ci_pages _ Hi).
  - by eapply cluster_crash.
Qed.

Lemma cluster_reachable_inv s : cluster_reachable s → cluster_inv s.
Proof using T.
  intros (s0 & (H0 & Hp & He) & Hs). eapply (star_invariant _ cluster_inv); [|intros a b Hi Hab; by apply (cluster_step_inv a)|exact Hs].
  split.
  - exists (cl_sys s0). split; [done|apply star_refl].
  - intros key pg0 fh Hb Hh. destruct H0 as [(d & sql & tables & nms & E) _ _].
    destruct (tb_page T _ _ Hb) as (Hl & Hby & _). unfold hist_of. rewrite E. cbn [initial hist]. split.
    + intros k. rewrite take_nil. by exists pg0.
    + exists pg0. split; [done|]. by rewrite (Hp _ _ Hb).
    + intros k x pgk Hk. by rewrite lookup_nil in Hk.
Qed.

(** ** Durability of what a transaction has done to a row *)

(** A durable change keeps its place in the history, through all that follows. *)
Definition durable_entry (key : PageKey) (i : nat) (x : LogRecord) (s : Cluster) : Prop :=
  hist_of s key !! i = Some x ∧ x ∈ durable (cl_sys s) (node_of x).

Lemma quiet_durable y y' n x : quiet_step base y y' → x ∈ durable y n → x ∈ durable y' n.
Proof using Type.
  clear names addr T. destruct 1 as [| |m ?| | |]; cbn [durable]; try done. intros Hx. destruct (decide (m = n)) as [->|Hne].
  - rewrite fn_lookup_insert. set_solver.
  - by rewrite fn_lookup_insert_ne.
Qed.

Lemma durable_entry_step key i x s s' : is_Some (base !! key) → cluster_inv s → cluster_step s s' →
  durable_entry key i x s → durable_entry key i x s'.
Proof using T.
  intros Hb Hi Hstep [Hx Hd]. unfold durable_entry, hist_of in *. destruct Hstep as [n key' fh c r d p' z _ _ _ _ y| |y' Hq|].
  - cbn [cl_sys hist durable]. split; [|done]. destruct (decide (key' = key)) as [->|Hne].
    + rewrite fn_lookup_insert. by apply lookup_app_l_Some.
    + by rewrite fn_lookup_insert_ne.
  - done.
  - cbn [cl_sys]. rewrite (quiet_hist _ _ Hq). split; [done|]. by eapply quiet_durable.
  - cbn [cl_sys restarted hist durable].
    assert (x ∈ surviving (cl_sys s) logs (node_of x)) as Hin by (unfold surviving; set_solver). split; [|done].
    destruct (surviving_take (cl_sys s) logs key (reachable_sys_inv _ _ _ _ (ci_reachable _ Hi)) Hb) as (k & Ek & Hk).
    change (filter _ _) with (durable_history (hist (cl_sys s)) (surviving (cl_sys s) logs) key).
    rewrite Ek. apply lookup_take_Some. split; [done|]. by apply (Hk i x).
Qed.

Lemma durable_entry_star key i x s s' : is_Some (base !! key) → cluster_inv s → star cluster_step s s' →
  durable_entry key i x s → cluster_inv s' ∧ durable_entry key i x s'.
Proof using T.
  intros Hb Hi Hs Hx. apply (star_invariant cluster_step (λ s, cluster_inv s ∧ durable_entry key i x s) s s'); [done| |done].
  intros a b [Ha Hxa] Hab. split; [by eapply cluster_step_inv|by eapply durable_entry_step].
Qed.

(** A change of another row leaves a row as it is. *)
Lemma row_at_changed fh slot slot' r q lsn pg :
  geometry fh → valid_slot fh slot → valid_slot fh slot' → slot ≠ slot' → whole_row fh r → whole_row fh q →
  len pg = PAGE_SIZE → row_at fh slot r (put_version lsn (put_row fh slot' q pg)) → row_at fh slot r pg.
Proof using Type.
  intros G Hs Hs' Hne Hr Hq Hl. pose proof (slot_behind_header fh G slot Hs) as Hb.
  pose proof (row_in_page fh G slot' q pg Hs' Hq Hl) as [H0 H1].
  assert (len (put_row fh slot' q pg) = PAGE_SIZE) as Hl' by (by rewrite len_put_row).
  assert (sizeof_RmPageHdr ≤ len (put_row fh slot' q pg)) as Hbig by (by rewrite Hl').
  unfold row_at. rewrite !stored_slice, len_put_version, len_put_row by done. rewrite slice_put_version by done.
  assert (0 ≤ get_slot_offset fh slot) by (unfold behind_header, sizeof_RmPageHdr in Hb; lia).
  pose proof (slots_disjoint fh G slot slot' Hne). pose proof (len_nonneg (enc_row r)).
  unfold put_row. unfold whole_row in *. rewrite slice_splice_other by lia. done.
Qed.

(** A row that is not changed any more is on the page as it was [d] changes ago. *)
Lemma row_unchanged fh E pg0 l pg slot r pgl :
  geometry fh → page_inv fh E pg0 l pg → valid_slot fh slot → whole_row fh r →
  redo_all fh l pg0 = Done (tt, pgl) → row_at fh slot r pgl →
  ∀ d k pgk, (k + d = length l)%nat → (∀ j y, (k ≤ j)%nat → l !! j = Some y → record_slot y ≠ Some slot) →
  redo_all fh (take k l) pg0 = Done (tt, pgk) → row_at fh slot r pgk.
Proof using Type.
  intros G Hpi Hs Hw Hl Hat. induction d as [|d IH]; intros k pgk Hk Hother Hpgk.
  - rewrite take_ge, Hl in Hpgk by lia. by injection Hpgk as <-.
  - destruct (lookup_lt_is_Some_2 l k) as [x Hx]; [lia|].
    destruct (pi_changes _ _ _ _ _ Hpi k x pgk Hx Hpgk) as (slot' & q & lsn & Hsx & Hs' & Hq & Hredo).
    destruct (pi_prefix _ _ _ _ _ Hpi k) as (pgk' & Hpgk' & _ & Hlen). rewrite Hpgk in Hpgk'. injection Hpgk' as <-.
    apply (row_at_changed fh slot slot' r q lsn); try done.
    + intros ->. by apply (Hother k x).
    + apply (IH (S k)); [lia|intros j y Hj; apply Hother; lia|]. rewrite (take_S_r _ _ x) by done. by apply redo_all_snoc with pgk.
Qed.

(** Restarting after a crash that leaves a change of a page brings the page back as it
    was after that change, or after a later one. *)
Lemma restart_page s logs now depth other direct names' order key pg0 fh i x :
  cluster_inv s → crash_image (cl_sys s) logs → (size (dom other) ≤ n0)%nat → order ≡ₚ elements (dom logs) →
  base !! key = Some pg0 → hdrs !! key.1 = Some fh → hist_of s key !! i = Some x →
  x ∈ surviving (cl_sys s) logs (node_of x) →
  wp (start now depth order) (λ _ r, ∃ k pg, (i < k ≤ length (hist_of s key))%nat ∧ page_at r key = Some pg ∧
      redo_all fh (take k (hist_of s key)) pg0 = Done (tt, pg))
    (boot (cl_sys s) logs other direct names').
Proof using T.
  intros Hi Hc Ho Hord Hb Hh Hx Hin. pose proof (reachable_sys_inv _ _ _ _ (ci_reachable _ Hi)) as Hs.
  eapply wp_mono; [by eapply wp_restart|]. intros [] r (_ & _ & Hdur).
  destruct (Hdur key pg0 fh Hb Hh) as (pg & Hpg & Hat).
  unfold durable_history at 1 in Hpg. rewrite filter_idem_all in Hpg by (by intros y [? _]%list_elem_of_filter).
  destruct (surviving_take (cl_sys s) logs key Hs) as (k & Ek & Hk); [by eexists|]. rewrite Ek in Hpg.
  apply (Hk i x Hx) in Hin. pose proof (lookup_lt_Some _ _ _ Hx) as Hlt.
  exists (Nat.min k (length (hist_of s key))), pg. split; [unfold hist_of in *; lia|]. split; [done|].
  destruct (Nat.min_spec k (length (hist_of s key))) as [[_ ->]|[Hge ->]]; [done|].
  unfold hist_of in *. rewrite firstn_all. by rewrite take_ge in Hpg.
Qed.
End cluster.
