(* ===== verification/RowDemo.v ===== *)
(** A run of the cluster of [RowSystem], step by step: node 1 locks a row for a
    transaction, flushes its log, and commits a new value of the row. *)

From stdpp Require Import functions sorting.
From S2P Require Import Prelude Common Bytes Bitmap Record RecordPage PreparedTxn LogRecord LogFormat DiskManager FsmReplay LogReplay LogManager LogBuffer LockWait Redo LogStream ReplayOrder ReplayRead ReplayStart ReplaySystem ReplayInv ReplayDemo TxPage TxRow TxSpec TxCalls TxRedo RowSystem.

#[local] Existing Instance demo_codec.

Definition row0 : Row := mkRow 42 0 0 0 28 0 0 0 1 0 (mkItem 0 0 0 0) 0 0 (replicate (Z.to_nat 28) 9).
Definition row_page : buffer := put_row demo_fh 3 row0 demo_page.
Definition row_file : buffer := splice OFFSET_FILE_HDR (enc_RmFileHdr demo_fh) demo_page ++ row_page.
Definition row_base : gmap PageKey buffer := {[ demo_key := row_page ]}.
Definition row_rid : Rid := mkRid 1 3.
Definition row_names (table : Z) : path := demo_name.
Definition row_addr (n : Z) (key : PageKey) : Z := 4096.

Definition c_initial : Cluster :=
  mkCluster (initial (new_DiskManager {[ demo_name := row_file ]} ∅ false) false ∅ ∅) (λ _, row_page) (λ _, ∅).

Definition row_reached (s : Cluster) : Prop := cluster_reachable 0 demo_hdrs row_base row_names row_addr s.

Lemma row_disk_ok : disk_ok 0 demo_hdrs (replay (cl_sys c_initial)).
Proof.
  split; [..|intros fd fh; simpl; by rewrite lookup_empty|intros fd fh; simpl; by rewrite lookup_empty].
  - split; [apply new_DiskManager_wf|vm_compute; lia|].
    change (size _) with 1%nat. vm_compute. reflexivity.
  - intros name fh Hn. unfold demo_hdrs in Hn. apply lookup_singleton_Some in Hn as [<- <-]. exists row_file.
    split; [apply lookup_singleton_eq|]. split; [|vm_compute; reflexivity].
    split; vm_compute; congruence.
  - done.
Qed.

Lemma row_tables_ok : tables_ok demo_hdrs row_base.
Proof.
  split.
  - intros name fh Hn. unfold demo_hdrs in Hn. apply lookup_singleton_Some in Hn as [<- <-]. split; [|vm_compute; congruence].
    split; vm_compute; congruence.
  - intros key pg0 Hb. unfold row_base in Hb. apply lookup_singleton_Some in Hb as [<- <-]. split; [by vm_compute|]. split; [|by eexists].
    apply Forall_forall. intros x Hx.
    assert (forallb (λ x, (0 <=? x) && (x <? 256)) row_page = true) as Hf by (vm_compute; reflexivity).
    rewrite forallb_forall in Hf. apply list_elem_of_In in Hx. apply Hf in Hx. unfold is_byte. lia.
Qed.

Lemma row_reach_initial : row_reached c_initial.
Proof.
  exists c_initial. split; [|apply star_refl]. split_and!; [| |done].
  - split; [by eexists _, _, _, _|apply row_disk_ok|].
    intros key pg0 Hb. unfold row_base in Hb. apply lookup_singleton_Some in Hb as [<- <-]. split; [by vm_compute|]. split; [by eexists|done].
  - intros key pg0 Hb. unfold row_base in Hb. by apply lookup_singleton_Some in Hb as [<- <-].
Qed.

Lemma row_reach_step s s' :
  row_reached s → cluster_step 0 demo_hdrs row_base row_names row_addr s s' → row_reached s'.
Proof. intros (s0 & H0 & Hs) Hstep. exists s0. split; [done|]. by eapply star_snoc. Qed.

(** ** The steps as functions *)

Definition held_by (n : Z) (s : Cluster) : HeldPage := mkHeld (pages s demo_key) false (log_of s n).

Definition do_call (n : Z) (c : RowCall) (r : Row) (x : LogRecord) (s : Cluster) : Cluster :=
  let p' := after (run_call n row_names 4096 demo_fh c) (held_by n s) in
  let y := cl_sys s in
  mkCluster (mkSys (<[n := node_log p']> (nodes y)) (sent y) (storage y)
      (<[demo_key := hist y demo_key ++ [x]]> (hist y)) (durable y))
    (<[demo_key := page_data p']> (pages s))
    (<[demo_key := early_after demo_fh n row_names 4096 c r (early s demo_key)]> (early s)).

Definition on_sys (f : Sys → Sys) (s : Cluster) : Cluster := mkCluster (f (cl_sys s)) (pages s) (early s).

Definition flush (n : Z) (s : Cluster) : Cluster := on_sys (λ y, do_answered n (do_append n (do_take n y))) s.

Lemma row_reach_call n c r x s :
  row_reached s → may_call demo_hdrs row_base row_names s n demo_key demo_fh c r →
  answers (run_call n row_names 4096 demo_fh c) (held_by n s) = true →
  log_records (node_log (after (run_call n row_names 4096 demo_fh c) (held_by n s))) =
    log_records (log_of s n) ++ [x] →
  loggable n x → row_reached (do_call n c r x s).
Proof.
  intros Hs Hc Ha Hx Hl. eapply row_reach_step; [exact Hs|].
  eapply (cs_call 0 demo_hdrs row_base row_names row_addr s n demo_key demo_fh c r false); [exact Hc|by apply answers_tt|exact Hx|exact Hl].
Qed.

Lemma row_reach_quiet y s : row_reached s → quiet_step row_base (cl_sys s) y → row_reached (mkCluster y (pages s) (early s)).
Proof. intros Hs Hq. eapply row_reach_step; [exact Hs|]. by apply cs_quiet. Qed.

(** Taking, appending and answering, one after the other. *)
Lemma row_reach_flush n s :
  let y1 := do_take n (cl_sys s) in
  let y2 := do_append n y1 in
  row_reached s →
  match result LogFlush_take (nodes (cl_sys s) n) with Some (Some _) => true | _ => false end = true →
  len (wal_file (replay y1) n) + len (default [] (sent y1 n)) < 2 ^ 64 →
  answers (AppendAndSync (default [] (sent y1 n))) (storage y1) = true →
  answers LogFlush_done (nodes y2 n) = true → row_reached (flush n s).
Proof.
  intros y1 y2 Hs H1 H2 H3 H4.
  destruct (result LogFlush_take (nodes (cl_sys s) n)) as [[bs|]|] eqn:E; [|done..].
  assert (sent y1 n = Some bs) as Hb by (unfold y1, do_take; rewrite E; simpl; apply fn_lookup_insert).
  assert (row_reached (mkCluster y1 (pages s) (early s))) as R1.
  { apply row_reach_quiet; [done|]. unfold y1, do_take. rewrite E. simpl. apply step_take. by apply run_result. }
  assert (row_reached (mkCluster y2 (pages s) (early s))) as R2.
  { apply (row_reach_quiet y2 (mkCluster y1 (pages s) (early s)) R1). cbn [cl_sys]. unfold y2, do_append.
    rewrite Hb in H2, H3 |- *. eapply (step_append _ y1 n bs); [done|done|]. by apply answers_tt. }
  apply (row_reach_quiet _ (mkCluster y2 (pages s) (early s)) R2). cbn [cl_sys]. apply step_answered; [|by apply answers_tt].
  unfold y2, do_append. simpl. apply fn_lookup_insert.
Qed.

Lemma sent_flush n m s : m ≠ n → sent (cl_sys (flush n s)) m = sent (cl_sys s) m.
Proof.
  intros Hn. unfold flush, on_sys, do_answered, do_append, do_take. cbn [cl_sys sent].
  by rewrite !fn_lookup_insert_ne by done.
Qed.

Lemma sent_call n c r x s m : sent (cl_sys (do_call n c r x s)) m = sent (cl_sys s) m.
Proof. done. Qed.

(** ** The run *)

Definition lock_call : RowCall := CLock 7 5 0 row_rid false.
Definition locked_row : Row := with_item_lock (mkItem EXCLUSIVE_LOCKED 5 1 1) (located 4096 demo_fh 3 row0).
Definition row_locked : LogRecord :=
  set_lsns 0 1 (new_LockLogRecord 0 1 7 0 demo_name row_rid EXCLUSIVE_LOCKED 5 1 1).

Definition c_locked : Cluster := do_call 1 lock_call row0 row_locked c_initial.
Definition c_flushed : Cluster := flush 1 c_locked.

Definition new_copy : ItemCopy := mkCopy 0 (r_lock locked_row) (replicate (Z.to_nat 28) 8) 0 0 1 0 0.
Definition no_waiter : PendingHandoff := mkHandoff (mkKey 0 1 3) 5 0 0 0 [] false true.
Definition commit_call : RowCall := CCommit 7 5 6 row_rid new_copy no_waiter.
Definition committed_row : Row := fst (call_effect 1 row_names 4096 demo_fh commit_call locked_row).
Definition row_committed : LogRecord := set_lsns 1 2 (update_record 1 row_names 7 row_rid committed_row).
Definition c_committed : Cluster := do_call 1 commit_call locked_row row_committed c_flushed.
Definition c_durable : Cluster := flush 1 c_committed.

Lemma lock_loggable : loggable 1 row_locked.
Proof.
  split; [|done|vm_compute; congruence]. apply built_wf, built_lsn; [|vm_compute; repeat split; congruence..|discriminate].
  apply built_lock; vm_compute; repeat split; congruence.
Qed.

Lemma commit_loggable : loggable 1 row_committed.
Proof.
  split; [|done|vm_compute; congruence]. apply built_wf, built_lsn; [|vm_compute; repeat split; congruence..|discriminate].
  apply built_update; vm_compute; repeat split; congruence.
Qed.

(** The row lies in its slot, and its fields fit. *)
Definition row_fitsb (r : Row) : bool :=
  (0 <=? r_key r) && (r_key r <? 2 ^ 64) && (- 2 ^ 31 <=? r_table_id r) && (r_table_id r <? 2 ^ 31) &&
  (- 2 ^ 31 <=? r_value_size r) && (r_value_size r <? 2 ^ 31) && (0 <=? r_version r) && (r_version r <? 2 ^ 64) &&
  (0 <=? r_prev_lsn r) && (r_prev_lsn r <? 2 ^ 64) && (0 <=? r_valid r) && (r_valid r <? 256) &&
  (0 <=? r_user_insert r) && (r_user_insert r <? 256) && (0 <=? lock (r_lock r)) && (lock (r_lock r) <? 2 ^ 64) &&
  (0 <=? timeStamp (r_lock r)) && (timeStamp (r_lock r) <? 2 ^ 64) && (0 <=? holder_node (r_lock r)) &&
  (holder_node (r_lock r) <? 256) && (0 <=? lock_owner_node (r_lock r)) && (lock_owner_node (r_lock r) <? 256) &&
  (0 <=? r_commit_ts r) && (r_commit_ts r <? 2 ^ 64) && (len (r_value r) =? r_value_size r).

Lemma row_fits_bool r : row_fitsb r = true → row_fits r.
Proof.
  unfold row_fitsb. rewrite !andb_true_iff. intros H. split; unfold uint_fits, sint_fits; simpl; lia.
Qed.

Lemma may_lock : may_call demo_hdrs row_base row_names c_initial 1 demo_key demo_fh lock_call row0.
Proof.
  split.
  - done.
  - apply lookup_singleton_eq.
  - split; [by eexists|done].
  - vm_compute. split; congruence.
  - apply stored_splice; vm_compute; congruence.
  - split; [by apply row_fits_bool|done].
  - vm_compute. repeat split; congruence.
  - by vm_compute.
  - by vm_compute.
  - intros y Hy. by apply elem_of_nil in Hy.
Qed.

Lemma reach_locked : row_reached c_locked.
Proof.
  apply (row_reach_call 1 lock_call row0).
  - apply row_reach_initial.
  - apply may_lock.
  - vm_compute. reflexivity.
  - vm_compute. reflexivity.
  - apply lock_loggable.
Qed.

Lemma reach_flushed : row_reached c_flushed.
Proof. apply row_reach_flush; [apply reach_locked|vm_compute; reflexivity..]. Qed.

(** A run that releases the row at once. *)
Definition early_call : RowCall := CLock 7 5 0 row_rid true.
Definition c_early : Cluster := do_call 1 early_call row0 row_locked c_initial.

Lemma may_lock_early : may_call demo_hdrs row_base row_names c_initial 1 demo_key demo_fh early_call row0.
Proof. destruct may_lock. by split. Qed.

Lemma reach_released : row_reached c_early.
Proof.
  apply (row_reach_call 1 early_call row0).
  - apply row_reach_initial.
  - apply may_lock_early.
  - vm_compute. reflexivity.
  - vm_compute. reflexivity.
  - apply lock_loggable.
Qed.

(** The page that the node has after it has locked the row. *)
Definition locked_page : buffer := put_version 1 (put_row demo_fh 3 locked_row row_page).

Lemma flushed_page : pages c_flushed demo_key = locked_page.
Proof. vm_compute. reflexivity. Qed.

Lemma locked_row_at : row_at demo_fh 3 locked_row locked_page.
Proof. apply row_at_put_version; [vm_compute; congruence..|]. apply stored_splice; vm_compute; congruence. Qed.

Lemma may_commit : may_call demo_hdrs row_base row_names c_flushed 1 demo_key demo_fh commit_call locked_row.
Proof.
  split; rewrite ?flushed_page.
  - done.
  - apply lookup_singleton_eq.
  - split; [by eexists|done].
  - vm_compute. split; congruence.
  - apply locked_row_at.
  - split; [by apply row_fits_bool|done].
  - split_and!; try (vm_compute; repeat split; congruence). by repeat constructor.
  - by vm_compute.
  - by vm_compute.
  - intros y Hy. right. assert (hist_of c_flushed demo_key = [row_locked]) as E by (vm_compute; reflexivity).
    rewrite E in Hy. by apply list_elem_of_singleton in Hy as ->.
Qed.

Lemma reach_committed : row_reached c_committed.
Proof.
  apply (row_reach_call 1 commit_call locked_row).
  - apply reach_flushed.
  - apply may_commit.
  - vm_compute. reflexivity.
  - vm_compute. reflexivity.
  - apply commit_loggable.
Qed.

Lemma reach_row_durable : row_reached c_durable.
Proof. apply row_reach_flush; [apply reach_committed|vm_compute; reflexivity..]. Qed.

Definition committed_page : buffer := put_version 2 (put_row demo_fh 3 committed_row locked_page).

Lemma durable_page : pages c_durable demo_key = committed_page.
Proof. vm_compute. reflexivity. Qed.

Lemma committed_row_at : row_at demo_fh 3 committed_row committed_page.
Proof. apply row_at_put_version; [vm_compute; congruence..|]. apply stored_splice; vm_compute; congruence. Qed.

(** A crash that leaves the file of node 1 as it is. *)
Definition kept_logs : gmap Z buffer := {[ 1 := encodes [row_locked; row_committed] ]}.

Lemma kept_image : crash_image (cl_sys c_durable) kept_logs.
Proof.
  intros n. unfold kept_logs. destruct (decide (n = 1)) as [->|H1].
  - split; [vm_compute; reflexivity|]. exists []. split; vm_compute; reflexivity.
  - rewrite lookup_singleton_ne by done. split; [vm_compute; reflexivity|]. exists [].
    assert (wal_file (replay (cl_sys c_durable)) n = [] ∧ sent (cl_sys c_durable) n = None) as [-> ->]; [|done].
    split.
    + assert (wal (replay (cl_sys c_durable)) = kept_logs) as E by (vm_compute; reflexivity).
      unfold wal_file. rewrite E. unfold kept_logs. by rewrite lookup_singleton_ne.
    + unfold c_durable. rewrite sent_flush by done. unfold c_committed. rewrite sent_call. unfold c_flushed.
      rewrite sent_flush by done. unfold c_locked. by rewrite sent_call.
Qed.
