(* ===== verification/RowProtocol.v ===== *)
(** The contract of the row operations in the cluster of [RowSystem]: they return and
    do what their effects say, the log tells the storage node what they have done,
    and what a transaction has waited for survives crashes. *)

From stdpp Require Import functions sorting.
From S2P Require Import Prelude Common Bytes Bitmap Record RecordPage PreparedTxn LogRecord LogFormat DiskManager FsmReplay LogReplay LogManager LogBuffer LockWait Redo LogStream ReplayOrder ReplayRead ReplayStart ReplaySystem ReplayInv ReplayDemo TxPage TxRow TxSpec TxCalls TxRedo RowSystem RowDemo.

#[local] Arguments le : simpl never.

Section theorems.
Context `{RequestCodec}.
Context (n0 : nat) (hdrs : gmap path RmFileHdr) (base : gmap PageKey buffer).
Context (names : Z → path) (addr : Z → PageKey → Z).
Hypothesis T : tables_ok hdrs base.

Abbreviation reached := (cluster_reachable n0 hdrs base names addr).

(** C5: whatever the interleaving of transactions, flushes, replay and crashes, a
    call on a row that may be made ([may_call]) returns, changes that row as its effect
    says, and logs the change
    with the next version of the page; the log is one that [ReplaySystem] describes,
    and what all changes of a page do to the page as it was in the beginning is what
    the page is, up to the value pointers of its rows and the lock words of the rows
    whose last change was a lock released at once ([early]: the log has the lock, the
    page does not). *)
Theorem row_calls_follow_log s :
  reached s →
  reachable n0 hdrs base (cl_sys s) ∧
  (∀ key pg0 fh, base !! key = Some pg0 → hdrs !! key.1 = Some fh →
     ∃ pg, redo_all fh (hist_of s key) pg0 = Done (tt, pg) ∧ page_equiv fh (early s key) pg (pages s key)) ∧
  (∀ n key fh c r d, may_call hdrs base names s n key fh c r →
     wp (run_call n names (addr n key) fh c)
       (λ _ p', p' = applied fh (slot_no_ (call_rid c)) (call_effect n names (addr n key) fh c r)
                       (mkHeld (pages s key) d (log_of s n)))
       (mkHeld (pages s key) d (log_of s n))).
Proof using T.
  intros Hi%cluster_reachable_inv; [|done]. split; [apply Hi|]. split.
  - intros key pg0 fh Hb Hh. apply (ci_pages _ _ _ _ Hi key pg0 fh Hb Hh).
  - intros n key fh c r d Hc. by eapply call_runs.
Qed.

(** A change in the history of a page is in the log of its node. *)
Lemma history_logged y key x :
  sys_inv n0 hdrs base y → is_Some (base !! key) → x ∈ hist y key → x ∈ logged y (node_of x).
Proof using Type.
  intros Hs Hb Hx. pose proof (lo_order _ _ _ (si_logs _ _ _ _ Hs)) as Ho.
  assert (x ∈ filter (λ z, node_of z = node_of x) (hist y key)) as Hf by (by apply list_elem_of_filter).
  rewrite <- Ho in Hf by done. by apply list_elem_of_filter in Hf as [_ ?].
Qed.

(** C6: what a transaction has done to a row is not lost once it has waited for the
    log.  Let a node have waited for the flush of its log up to one of the changes of a
    page.  Then, whatever happens after that, and after every crash, the storage node
    starts, and has the page in its file as that change or a later one has left it; and
    a row that no later change is about is as it was in the buffers when the cluster
    crashed: key, value, times and lock (but for the lock word of a row whose lock was
    released at once). *)
Theorem committed_row_survives s s' key pg0 fh i x lsn b' logs now depth other direct names' order :
  reached s → base !! key = Some pg0 → hdrs !! key.1 = Some fh →
  hist_of s key !! i = Some x → lsn_ (hdr x) ≤ lsn →
  wait_log_flush_done lsn (log_of s (node_of x)) = Done (tt, b') →
  star (cluster_step n0 hdrs base names addr) s s' →
  crash_image (cl_sys s') logs → (size (dom other) ≤ n0)%nat → order ≡ₚ elements (dom logs) →
  wp (start now depth order)
    (λ _ l, ∃ k pg, (i < k ≤ length (hist_of s' key))%nat ∧ page_at l key = Some pg ∧
       redo_all fh (take k (hist_of s' key)) pg0 = Done (tt, pg) ∧
       ∀ slot r, valid_slot fh slot → row_at fh slot r (pages s' key) → whole_row fh r →
         (∀ j y, (i < j)%nat → hist_of s' key !! j = Some y → record_slot y ≠ Some slot) →
         ∃ r', same_row (slot ∈ early s' key) r r' ∧ row_at fh slot r' pg)
    (boot (cl_sys s') logs other direct names').
Proof using T.
  intros Hi%cluster_reachable_inv Hb Hh Hx Hle Hw Hstar Hc Ho Hord; [|done].
  pose proof (reachable_sys_inv _ _ _ _ (ci_reachable _ _ _ _ Hi)) as Hinv.
  assert (x ∈ logged (cl_sys s) (node_of x)) as Hlog.
  { apply (history_logged _ key); [done|by eexists|]. by apply list_elem_of_lookup_2 in Hx. }
  destruct (flushed_in_log _ _ _ _ (node_of x) lsn b' x (ci_reachable _ _ _ _ Hi) Hw Hlog Hle) as [Hdur _].
  destruct (durable_entry_star n0 hdrs base names addr T key i x s s') as [Hi' [Hx' Hdur']]; [by eexists|done..|].
  eapply wp_mono.
  { eapply (restart_page n0 hdrs base T s' logs now depth other direct names' order key pg0 fh i x); try done.
    unfold surviving. set_solver. }
  intros [] l (k & pg & Hk & Hpg & Hredo). exists k, pg. split; [done|]. split; [done|]. split; [done|].
  intros slot r Hs Hat Hwhole Hother. destruct (tb_geometry _ _ T _ _ Hh) as [G Hrec].
  pose proof (ci_pages _ _ _ _ Hi' key pg0 fh Hb Hh) as Hpi.
  destruct (pi_page _ _ _ _ _ Hpi) as (pgl & Hl & He).
  destruct (pi_prefix _ _ _ _ _ Hpi (length (hist_of s' key))) as (pgl' & Hl' & Hby & _).
  rewrite take_ge, Hl in Hl' by done. injection Hl' as <-. symmetry in He.
  destruct (row_at_equiv fh G Hrec _ slot r _ pgl Hs Hwhole Hby He Hat) as (r' & Hsame & Hat').
  exists r'. split; [done|].
  eapply (row_unchanged fh _ pg0 (hist_of s' key) _ slot r' pgl G Hpi Hs (whole_row_same _ _ _ _ Hsame Hwhole) Hl Hat'
    (length (hist_of s' key) - k) k pg); [lia| |done].
  intros j y Hj. apply Hother. lia.
Qed.
End theorems.

(** C7: a row that is unlocked at once when it is locked, as the payment of TPC-C asks
    for its warehouse, can be neither committed nor aborted: the lock word in the page
    is free while the logged record says that it is taken, and the transaction that
    locked the row stops its node when it unlocks it ([CHECK] of
    [UnlockTupleWithHandoff2PC]). *)
Theorem early_release_stops_node me names addr fh tx ts table rid p r :
  let slot := slot_no_ rid in
  behind_header fh slot → row_at fh slot r (page_data p) → row_fits r → ready (node_log p) →
  current_llsn_ (node_log p) + 1 < 2 ^ 64 → uint_fits 8 (page_LLSN (page_data p)) →
  page_LLSN (page_data p) + 1 < 2 ^ 64 → r_table_id r = table → uint_fits 8 ts → lock (r_lock r) = UNLOCKED →
  wp (lock_row me names addr tx ts fh table rid true)
    (λ a p', snd a = Acquired ∧
       (∃ r', row_at fh slot r' (page_data p') ∧ lock (r_lock r') = UNLOCKED) ∧
       (∃ x, log_records (node_log p') = log_records (node_log p) ++ [x] ∧
          body x = LockBody table rid EXCLUSIVE_LOCKED ts (u8 me) (u8 me) (names table)) ∧
       (∀ cts it ph, uint_fits 8 cts → prepared_for (c_table_id it) rid ts ph →
          commit_row me names addr tx ts cts fh rid it ph p' = Crash (AssertFailed 1742)) ∧
       (∀ ph, prepared_for table rid ts ph →
          abort_row me names addr tx ts fh table rid ph p' = Crash (AssertFailed 1742))) p.
Proof.
  intros slot Hb Hat Hf Hr Hc Hv0 Hv Ht Hts Hl. destruct p as [pg d b]. cbn [page_data node_log] in *.
  pose proof (row_at_in _ _ _ _ Hat) as Hin.
  pose proof (wp_lock_row me names addr fh slot pg Hb tx ts table rid true r d b eq_refl
    (Build_call_pre fh slot pg r b Hin Hf Hr Hc Hv0 Hv) (conj Ht Hts)) as Hwp.
  rewrite row_at_put in Hwp by done. eapply wp_mono; [exact Hwp|]. intros a p' [-> ->].
  unfold lock_answer, applied. cbn [call_effect]. unfold lock_effect.
  change (r_lock (located addr fh (slot_no_ rid) r)) with (r_lock r). rewrite Hl, Z.eqb_refl. cbn [fst snd node_log page_data].
  set (r' := with_item_lock _ _). set (lsn := next_lsn _ _).
  assert (row_in (get_slot_offset fh slot) pg r') as Hin' by done.
  assert (row_fits r') as Hf'.
  { apply row_fits_lock; [|by apply row_fits_ptr]. split; simpl; try done; by apply Z.mod_pos_bound. }
  assert (sizeof_RmPageHdr ≤ len (put_row fh slot r' pg)) as Hlen.
  { rewrite len_put_row by done. destruct Hin. unfold behind_header in Hb. pose proof (len_nonneg (enc_row r)). lia. }
  assert (row_at fh slot r' (put_version lsn (put_row fh slot r' pg))) as Hat'
    by (apply row_at_put_version; [done|done|by apply row_at_put_row]).
  split; [done|]. split; [by exists r'|]. split; [by eexists|].
  split; intros; rewrite <- (row_at_put _ _ _ _ Hat').
  - apply commit_row_crash; try done. by apply row_at_in in Hat'.
  - apply abort_row_crash; try done. by apply row_at_in in Hat'.
Qed.

(** ** Witnesses *)

#[local] Existing Instance demo_codec.

Lemma row_calls_follow_log_witness :
  row_reached c_flushed ∧ may_call demo_hdrs row_base row_names c_flushed 1 demo_key demo_fh commit_call locked_row ∧
  wp (run_call 1 row_names 4096 demo_fh commit_call)
    (λ _ p', row_at demo_fh 3 committed_row (page_data p') ∧ lock (r_lock committed_row) = UNLOCKED)
    (mkHeld (pages c_flushed demo_key) false (log_of c_flushed 1)) ∧
  row_reached c_early ∧ early c_early demo_key = {[ 3 ]} ∧
  ∃ pg, redo_all demo_fh (hist_of c_early demo_key) row_page = Done (tt, pg) ∧
    page_equiv demo_fh {[ 3 ]} pg (pages c_early demo_key) ∧ pg ≠ pages c_early demo_key.
Proof.
  split; [apply reach_flushed|]. split; [apply may_commit|]. split_and!; [|apply reach_released|vm_compute; reflexivity|].
  - destruct (row_calls_follow_log 0 demo_hdrs row_base row_names row_addr row_tables_ok c_flushed reach_flushed)
      as (_ & _ & Hruns).
    eapply wp_mono; [apply (Hruns 1 demo_key demo_fh commit_call locked_row false may_commit)|].
    intros [] p' ->. split; [|vm_compute; reflexivity]. rewrite flushed_page.
    assert (page_data (applied demo_fh (slot_no_ (call_rid commit_call))
      (call_effect 1 row_names (row_addr 1 demo_key) demo_fh commit_call locked_row)
      (mkHeld locked_page false (log_of c_flushed 1))) = committed_page) as -> by (vm_compute; reflexivity).
    apply committed_row_at.
  - destruct (row_calls_follow_log 0 demo_hdrs row_base row_names row_addr row_tables_ok c_early reach_released)
      as (_ & Hpages & _).
    destruct (Hpages demo_key row_page demo_fh (lookup_singleton_eq _ _) (lookup_singleton_eq _ _)) as (pg & Hpg & He).
    exists pg. split; [exact Hpg|]. assert (early c_early demo_key = {[ 3 ]}) as Ee by (vm_compute; reflexivity).
    rewrite Ee in He. split; [exact He|]. intros ->.
    assert (match redo_all demo_fh (hist_of c_early demo_key) row_page with
      | Done (_, pg) => bool_decide (pg = pages c_early demo_key) | _ => true end = false) as Hne
      by (vm_compute; reflexivity).
    rewrite Hpg, bool_decide_eq_true_2 in Hne by reflexivity. discriminate.
Defined.

Lemma committed_row_survives_witness :
  row_reached c_durable ∧ crash_image (cl_sys c_durable) kept_logs ∧
  wp (start 0 0 [1])
    (λ _ l, ∃ pg r', page_at l demo_key = Some pg ∧ same_row False committed_row r' ∧ row_at demo_fh 3 r' pg)
    (boot (cl_sys c_durable) kept_logs ∅ false ∅).
Proof.
  split; [apply reach_row_durable|]. split; [apply kept_image|].
  eapply wp_mono.
  - apply (committed_row_survives 0 demo_hdrs row_base row_names row_addr row_tables_ok c_durable c_durable demo_key row_page
      demo_fh 1 row_committed 2 (log_of c_durable 1) kept_logs 0 0%nat ∅ false ∅ [1] reach_row_durable
      (lookup_singleton_eq _ _) (lookup_singleton_eq _ _)).
    + vm_compute. reflexivity.
    + vm_compute. congruence.
    + vm_compute. reflexivity.
    + apply star_refl.
    + apply kept_image.
    + vm_compute. lia.
    + apply NoDup_Permutation; [apply (bool_decide_eq_true_1 _); vm_compute; reflexivity|apply NoDup_elements|].
      intros n. unfold kept_logs. set_solver.
  - intros [] l (k & pg & _ & Hpg & _ & Hrows). exists pg.
    destruct (Hrows 3 committed_row) as (r' & Hsame & Hat).
    + vm_compute. split; congruence.
    + rewrite durable_page. apply committed_row_at.
    + vm_compute. reflexivity.
    + assert (length (hist_of c_durable demo_key) = 2%nat) as E by (vm_compute; reflexivity).
      intros j y Hj Hy%lookup_lt_Some. lia.
    + exists r'. split; [exact Hpg|]. split; [|exact Hat].
      assert (early c_durable demo_key = ∅) as Ee by (vm_compute; reflexivity). rewrite Ee in Hsame.
      eapply same_row_mono; [|exact Hsame]. intros Hin; by apply not_elem_of_empty in Hin.
Defined.

Lemma early_release_stops_node_witness :
  row_at demo_fh 3 row0 row_page ∧
  wp (lock_row 1 row_names 4096 7 5 demo_fh 0 row_rid true)
    (λ a p', snd a = Acquired ∧
       abort_row 1 row_names 4096 7 5 demo_fh 0 row_rid no_waiter p' = Crash (AssertFailed 1742))
    (mkHeld row_page false (new_LogBuffer true)).
Proof.
  assert (row_at demo_fh 3 row0 row_page) as Hat by apply may_lock. split; [exact Hat|].
  eapply wp_mono; [apply (early_release_stops_node 1 row_names 4096 demo_fh 7 5 0 row_rid
    (mkHeld row_page false (new_LogBuffer true)) row0)|].
  - vm_compute. congruence.
  - exact Hat.
  - by apply row_fits_bool.
  - done.
  - by vm_compute.
  - vm_compute. split; congruence.
  - by vm_compute.
  - done.
  - vm_compute. split; congruence.
  - done.
  - intros a p' (Ha & _ & _ & _ & Hab). split; [exact Ha|]. apply Hab. vm_compute. repeat split; congruence.
Defined.
