(* ===== verification/BLinkNode.v ===== *)
(** A node of the B-link index as it lies in a page: [BLNodeHdr]
    ([core/index/bp_tree/blink/blink_defs.h]) and [BLinkNodeHandle]
    ([core/index/bp_tree/blink/blink.h], [blink.cc]).  The two arrays behind the
    header have room for one pair more than [order]; an access behind their end is
    out of bounds.

    A node's pairs are the beginnings of its arrays; the lemmas say what every method
    does to the list of pairs. *)

From stdpp Require Import sorting.
From S2P Require Import Prelude Common Bytes Record.

Definition PAGE_SIZE : Z := 4096.
Definition sizeof_BLNodeHdr : Z := 32.
Definition NEG_KEY : Z := 0.

Record BLNode := mkNode {
  prev_leaf : Z;
  next_leaf : Z;
  right_sibling : Z;
  num_key : Z;
  high_key : Z;
  is_leaf : bool;
  has_high_key : bool;
  is_root : bool;
  keys : list Z;
  rids : list Rid
}.

Definition set_prev_leaf x n := mkNode x (next_leaf n) (right_sibling n) (num_key n) (high_key n) (is_leaf n) (has_high_key n) (is_root n) (keys n) (rids n).
Definition set_next_leaf x n := mkNode (prev_leaf n) x (right_sibling n) (num_key n) (high_key n) (is_leaf n) (has_high_key n) (is_root n) (keys n) (rids n).
Definition set_right_sibling x n := mkNode (prev_leaf n) (next_leaf n) x (num_key n) (high_key n) (is_leaf n) (has_high_key n) (is_root n) (keys n) (rids n).
Definition set_size x n := mkNode (prev_leaf n) (next_leaf n) (right_sibling n) x (high_key n) (is_leaf n) (has_high_key n) (is_root n) (keys n) (rids n).
Definition set_high_key x n := mkNode (prev_leaf n) (next_leaf n) (right_sibling n) (num_key n) x (is_leaf n) true (is_root n) (keys n) (rids n).
Definition set_is_leaf x n := mkNode (prev_leaf n) (next_leaf n) (right_sibling n) (num_key n) (high_key n) x (has_high_key n) (is_root n) (keys n) (rids n).
Definition set_has_high_key x n := mkNode (prev_leaf n) (next_leaf n) (right_sibling n) (num_key n) (high_key n) (is_leaf n) x (is_root n) (keys n) (rids n).
Definition set_is_root x n := mkNode (prev_leaf n) (next_leaf n) (right_sibling n) (num_key n) (high_key n) (is_leaf n) (has_high_key n) x (keys n) (rids n).
Definition set_keys x n := mkNode (prev_leaf n) (next_leaf n) (right_sibling n) (num_key n) (high_key n) (is_leaf n) (has_high_key n) (is_root n) x (rids n).
Definition set_rids x n := mkNode (prev_leaf n) (next_leaf n) (right_sibling n) (num_key n) (high_key n) (is_leaf n) (has_high_key n) (is_root n) (keys n) x.
Definition reset_high_key n := mkNode (prev_leaf n) (next_leaf n) (right_sibling n) (num_key n) NEG_KEY (is_leaf n) false (is_root n) (keys n) (rids n).

(** [order]: the constructor of the handle computes it from the sizes. *)
Definition order : Z := (PAGE_SIZE - sizeof_BLNodeHdr) / (sizeof_itemkey_t + sizeof_Rid) - 1.
Definition get_max_size : Z := order.

(** A page of zeros. *)
Definition zero_node : BLNode :=
  mkNode 0 0 0 0 0 false false false (replicate (Z.to_nat (order + 1)) 0) (replicate (Z.to_nat (order + 1)) (mkRid 0 0)).

Abbreviation MN := (M BLNode).

(** ** Arrays *)

Definition fits {A} (off n : Z) (arr : list A) : bool := (0 <=? off) && (0 <=? n) && (off + n <=? len arr).

(** [xs] copied over the array from [off] on. *)
Definition overlay {A} (off : Z) (xs arr : list A) : list A :=
  take (Z.to_nat off) arr ++ xs ++ drop (Z.to_nat off + length xs) arr.

Section array.
Context {A : Type} (get : BLNode → list A) (put : list A → BLNode → BLNode).

Definition array_get (i : Z) : MN A :=
  arr ← gets get ;
  match (if 0 <=? i then arr !! Z.to_nat i else None) with
  | Some x => mret x
  | None => crash OutOfBounds
  end.

Definition array_read (off n : Z) : MN (list A) :=
  arr ← gets get ;
  if fits off n arr then mret (take (Z.to_nat n) (drop (Z.to_nat off) arr)) else crash OutOfBounds.

Definition array_write (off : Z) (xs : list A) : MN unit :=
  arr ← gets get ;
  if fits off (len xs) arr then modify (put (overlay off xs arr)) else crash OutOfBounds.

(** [memmove] within the array. *)
Definition array_move (dst src n : Z) : MN unit :=
  xs ← array_read src n ;
  array_write dst xs.

(** Making room for [xs] by moving [move_num] elements, and copying. *)
Definition array_insert (pos : Z) (xs : list A) (move_num : Z) : MN unit :=
  array_move (pos + len xs) pos move_num ;;
  array_write pos xs.
End array.

Definition get_key : Z → MN Z := array_get keys.
Definition get_rid : Z → MN Rid := array_get rids.
Definition set_key (i key : Z) : MN unit := array_write keys set_keys i [key].
Definition set_rid (i : Z) (rid : Rid) : MN unit := array_write rids set_rids i [rid].

Definition value_at (index : Z) : MN Z :=
  rid ← get_rid index ;
  mret (page_no_ rid).

Definition need_to_right (target : Z) (n : BLNode) : bool :=
  has_high_key n && (high_key n <=? target) && negb (right_sibling n =? INVALID_PAGE_ID).

Definition init_internal_node : MN unit :=
  size ← gets num_key ;
  check 143 (size =? 0) ;;
  leaf ← gets is_leaf ;
  check 144 (negb leaf) ;;
  set_key 0 NEG_KEY ;;
  modify (set_size 1) ;;
  modify reset_high_key ;;
  modify (set_right_sibling INVALID_PAGE_ID).

(** ** Searching *)

(** The loops of the binary searches: [go_left] is the comparison; the interval shrinks
    in every round, so that its length is enough fuel. *)
Fixpoint bisect (fuel : nat) (go_left : Z → bool) (l r : Z) : MN Z :=
  if l <? r then
    match fuel with
    | O => block
    | S fuel' =>
        let mid := (l + r) / 2 in
        key ← get_key mid ;
        if go_left key then bisect fuel' go_left l mid else bisect fuel' go_left (mid + 1) r
    end
  else mret l.

Definition lower_bound (target : Z) : MN Z :=
  size ← gets num_key ;
  bisect (Z.to_nat size) (λ key, target <=? key) 0 size.

Definition upper_bound (target : Z) : MN Z :=
  size ← gets num_key ;
  bisect (Z.to_nat size) (λ key, target <? key) 1 size.

Definition isIt (pos key : Z) : MN bool :=
  k ← get_key pos ;
  mret (k =? key).

(** [pos != get_size() && isIt(pos , key)] *)
Definition key_at (pos key : Z) : MN bool :=
  size ← gets num_key ;
  if pos =? size then mret false else isIt pos key.

Definition leaf_lookup (target : Z) : MN (option Rid) :=
  leaf ← gets is_leaf ;
  check 57 leaf ;;
  pos ← lower_bound target ;
  found ← key_at pos target ;
  if found : bool then rid ← get_rid pos ; mret (Some rid) else mret None.

Definition need_delete (key : Z) : MN bool :=
  pos ← lower_bound key ;
  key_at pos key.

Fixpoint find_child_from (fuel : nat) (i child : Z) : MN Z :=
  match fuel with
  | O => mret (-1)
  | S fuel' =>
      v ← value_at i ;
      if v =? child then mret i else find_child_from fuel' (i + 1) child
  end.

Definition find_child (child_page_id : Z) : MN Z :=
  size ← gets num_key ;
  find_child_from (Z.to_nat size) 0 child_page_id.

(** ** Changing *)

Definition insert_pairs (pos : Z) (ks : list Z) (rs : list Rid) : MN unit :=
  size ← gets num_key ;
  check 36 (negb ((size <? pos) || (pos <? 0))) ;;
  (if size =? 0 then
     array_write keys set_keys 0 ks ;;
     array_write rids set_rids 0 rs
   else
     let move_num := size - pos in
     array_insert keys set_keys pos ks move_num ;;
     array_insert rids set_rids pos rs move_num) ;;
  size ← gets num_key ;
  modify (set_size (size + len ks)).

Definition insert_pair (pos key : Z) (rid : Rid) : MN unit := insert_pairs pos [key] [rid].

Definition insert (key : Z) (value : Rid) : MN Z :=
  size ← gets num_key ;
  if size =? 0 then
    insert_pair 0 key value ;;
    size ← gets num_key ;
    check 73 (size =? 1) ;;
    mret size
  else
    pos ← lower_bound key ;
    found ← key_at pos key ;
    if found : bool then gets num_key
    else
      insert_pair pos key value ;;
      gets num_key.

Definition erase_pair (pos : Z) : MN unit :=
  size ← gets num_key ;
  check 88 ((0 <=? pos) && (pos <? size)) ;;
  let move_num := size - pos - 1 in
  array_move keys set_keys pos (pos + 1) move_num ;;
  array_move rids set_rids pos (pos + 1) move_num ;;
  modify (set_size (size - 1)).

Definition remove (key : Z) : MN Z :=
  pos ← lower_bound key ;
  found ← key_at pos key ;
  if found : bool then
    erase_pair pos ;;
    gets num_key
  else gets num_key.

(** ** The pairs of a node *)

#[local] Arguments replicate : simpl never.
#[local] Arguments Z.to_nat : simpl never.

Abbreviation pairs := (list (Z * Rid)).

Record node_holds (n : BLNode) (l : pairs) : Prop := {
  nh_size : num_key n = len l;
  nh_keys : take (length l) (keys n) = l.*1;
  nh_rids : take (length l) (rids n) = l.*2;
  nh_key_room : len (keys n) = order + 1;
  nh_rid_room : len (rids n) = order + 1
}.

(** What the methods on pairs leave as it is. *)
Definition hdr (n : BLNode) :=
  (prev_leaf n, next_leaf n, right_sibling n, high_key n, is_leaf n, has_high_key n, is_root n).

Lemma order_value : order = 253. Proof. done. Qed.

Lemma node_holds_room n l : node_holds n l → len l ≤ order + 1.
Proof.
  intros [_ Hk _ Hr _]. apply (f_equal length) in Hk. rewrite length_take, length_fmap in Hk. unfold len in *. lia.
Qed.

Lemma zero_node_holds : node_holds zero_node [].
Proof. split; try done; unfold zero_node, len; cbn [keys rids]; rewrite length_replicate; by vm_compute. Qed.

Lemma node_holds_unique n l l' : node_holds n l → node_holds n l' → l = l'.
Proof.
  intros [S1 K1 R1 _ _] [S2 K2 R2 _ _]. assert (length l = length l') as Hl by (unfold len in *; lia).
  rewrite Hl in *. rewrite <- (zip_fst_snd l), <- (zip_fst_snd l'). congruence.
Qed.

(** Sorted by key. *)
Definition key_lt (a b : Z * Rid) : Prop := a.1 < b.1.
Abbreviation sorted l := (StronglySorted key_lt l).

Definition pairs_map (l : pairs) : gmap Z Rid := list_to_map l.

(** Where a key is, or would be. *)
Inductive located (key : Z) : pairs → nat → bool → Prop :=
  | located_found l1 r l2 :
      Forall (λ p, p.1 < key) l1 → Forall (λ p, key < p.1) l2 →
      located key (l1 ++ (key, r) :: l2) (length l1) true
  | located_absent l1 l2 :
      Forall (λ p, p.1 < key) l1 → Forall (λ p, key < p.1) l2 →
      located key (l1 ++ l2) (length l1) false.

Lemma pairs_map_not_in key (l : pairs) : Forall (λ p, p.1 ≠ key) l → pairs_map l !! key = None.
Proof.
  intros Hl. apply not_elem_of_list_to_map_1. intros (p & -> & Hp)%list_elem_of_fmap.
  rewrite Forall_forall in Hl. by apply (Hl p).
Qed.

Lemma pairs_map_app key (l1 l2 : pairs) :
  pairs_map (l1 ++ l2) !! key = match pairs_map l1 !! key with Some r => Some r | None => pairs_map l2 !! key end.
Proof.
  unfold pairs_map. rewrite list_to_map_app, lookup_union.
  by destruct (list_to_map l1 !! key), (list_to_map l2 !! key).
Qed.

Lemma pairs_map_below key (l : pairs) : Forall (λ p, p.1 < key) l → pairs_map l !! key = None.
Proof. intros H. apply pairs_map_not_in. eapply Forall_impl; [exact H|]. simpl. lia. Qed.
Lemma pairs_map_above key (l : pairs) : Forall (λ p, key < p.1) l → pairs_map l !! key = None.
Proof. intros H. apply pairs_map_not_in. eapply Forall_impl; [exact H|]. simpl. lia. Qed.

Lemma located_lookup key l i b : located key l i b →
  pairs_map l !! key = if b then snd <$> l !! i else None.
Proof.
  destruct 1 as [l1 r l2 H1 H2|l1 l2 H1 H2]; rewrite pairs_map_app, (pairs_map_below key l1) by done.
  - rewrite list_lookup_middle by done. unfold pairs_map. simpl. by rewrite lookup_insert_eq.
  - by apply pairs_map_above.
Qed.

(** ** Reading *)

Lemma keys_lookup n l i p : node_holds n l → l !! i = Some p → keys n !! i = Some p.1.
Proof.
  intros Hn Hp. pose proof (lookup_lt_Some _ _ _ Hp) as Hlt. rewrite <- (lookup_take_lt _ (length l)) by done.
  by rewrite (nh_keys _ _ Hn), list_lookup_fmap, Hp.
Qed.

Lemma rids_lookup n l i p : node_holds n l → l !! i = Some p → rids n !! i = Some p.2.
Proof.
  intros Hn Hp. pose proof (lookup_lt_Some _ _ _ Hp) as Hlt. rewrite <- (lookup_take_lt _ (length l)) by done.
  by rewrite (nh_rids _ _ Hn), list_lookup_fmap, Hp.
Qed.

Lemma sorted_le l i j p q : sorted l → (i ≤ j)%nat → l !! i = Some p → l !! j = Some q → p.1 ≤ q.1.
Proof.
  intros Hs Hij Hp Hq. destruct (decide (i = j)) as [->|Hne]; [rewrite Hp in Hq; injection Hq as ->; lia|].
  enough (key_lt p q) by (unfold key_lt in *; lia).
  rewrite <- (take_drop j l) in Hs. eapply StronglySorted_app_1_elem_of; [exact Hs|..].
  - apply list_elem_of_lookup. exists i. by rewrite lookup_take_lt by lia.
  - apply list_elem_of_lookup. exists 0%nat. rewrite lookup_drop. by replace (j + 0)%nat with j by lia.
Qed.

Lemma sorted_around (l1 : pairs) p (l2 : pairs) :
  sorted (l1 ++ p :: l2) → Forall (λ q, q.1 < p.1) l1 ∧ Forall (λ q, p.1 < q.1) l2.
Proof.
  intros Hs. split.
  - apply Forall_forall. intros q Hq. by apply (StronglySorted_app_1_elem_of key_lt l1 (p :: l2) q p Hs); [|left].
  - apply StronglySorted_app_1_r, StronglySorted_cons in Hs as [Hs _]. exact Hs.
Qed.

Lemma located_at key l i b : located key l i b →
  if b then ∃ r, l !! i = Some (key, r) else i = length l ∨ ∃ p, l !! i = Some p ∧ p.1 ≠ key.
Proof.
  destruct 1 as [l1 r l2 H1 H2|l1 [|p l2] H1 H2].
  - exists r. by apply list_lookup_middle.
  - left. by rewrite app_nil_r.
  - right. exists p. split; [by apply list_lookup_middle|]. apply Forall_cons_1 in H2 as [H2 _]. lia.
Qed.

Lemma located_absent_unique key l1 l2 i b :
  Forall (λ p, p.1 < key) l1 → Forall (λ p, key < p.1) l2 → located key (l1 ++ l2) i b → i = length l1 ∧ b = false.
Proof.
  intros H1 H2 Hl. remember (l1 ++ l2) as l eqn:El. destruct Hl as [k1 r k2 K1 K2|k1 k2 K1 K2].
  - exfalso. assert ((key, r) ∈ l1 ++ l2) as [Hin|Hin]%elem_of_app by (rewrite <- El; set_solver).
    + rewrite Forall_forall in H1. specialize (H1 _ Hin). simpl in H1. lia.
    + rewrite Forall_forall in H2. specialize (H2 _ Hin). simpl in H2. lia.
  - split; [|done]. symmetry in El. apply app_eq_inv in El as [(m & -> & ->)|(m & -> & ->)].
    + destruct m as [|p m]; [by rewrite app_nil_r|]. exfalso. apply Forall_app in H1 as [_ H1].
      apply Forall_cons_1 in H1 as [H1 _]. apply Forall_cons_1 in K2 as [K2 _]. lia.
    + destruct m as [|p m]; [by rewrite app_nil_r|]. exfalso. apply Forall_app in K1 as [_ K1].
      apply Forall_cons_1 in H2 as [H2 _]. apply Forall_cons_1 in K1 as [K1 _]. lia.
Qed.

Lemma located_found_unique key l1 r l2 i b :
  sorted (l1 ++ (key, r) :: l2) → located key (l1 ++ (key, r) :: l2) i b → i = length l1 ∧ b = true.
Proof.
  intros Hs Hl. apply sorted_around in Hs as Hb. destruct Hb as [H1 H2]. simpl in H1, H2.
  remember (l1 ++ (key, r) :: l2) as l eqn:El. destruct Hl as [k1 r' k2 K1 K2|k1 k2 K1 K2].
  - split; [|done]. assert ((k1 ++ (key, r') :: k2) !! length k1 = Some (key, r')) as E1 by (by apply list_lookup_middle).
    rewrite El in E1. destruct (decide (length k1 < length l1)%nat) as [Hlt|].
    + rewrite lookup_app_l in E1 by done. rewrite Forall_lookup in H1. specialize (H1 _ _ E1). simpl in H1. lia.
    + rewrite lookup_app_r in E1 by lia. destruct (length k1 - length l1)%nat eqn:E; [lia|]. simpl in E1.
      rewrite Forall_lookup in H2. specialize (H2 _ _ E1). simpl in H2. lia.
  - exfalso. assert ((key, r) ∈ k1 ++ k2) as [Hin|Hin]%elem_of_app by (rewrite El; set_solver).
    + rewrite Forall_forall in K1. specialize (K1 _ Hin). simpl in K1. lia.
    + rewrite Forall_forall in K2. specialize (K2 _ Hin). simpl in K2. lia.
Qed.

(** What a binary search for the first key that is not smaller finds. *)
Lemma bisect_located key l (i : nat) :
  sorted l → (i ≤ length l)%nat → (∀ j p, (j < i)%nat → l !! j = Some p → p.1 < key) →
  (∀ j p, (i ≤ j)%nat → l !! j = Some p → key ≤ p.1) → ∃ b, located key l i b.
Proof.
  intros Hs Hi H1 H2. assert (length (take i l) = i) as El by (rewrite length_take; lia).
  enough (∃ b, located key (take i l ++ drop i l) (length (take i l)) b) as H by (by rewrite take_drop, El in H).
  assert (Forall (λ p, p.1 < key) (take i l)) as Hlt.
  { apply Forall_lookup. intros j p [Hp Hj]%lookup_take_Some. by apply (H1 j p). }
  assert (∀ j p, drop i l !! j = Some p → key ≤ p.1) as Hge.
  { intros j p. rewrite lookup_drop. apply H2. lia. }
  destruct (drop i l) as [|[k r] l2] eqn:E.
  - exists false. by apply located_absent.
  - assert (l = take i l ++ (k, r) :: l2) as Hl by (by rewrite <- E, take_drop).
    rewrite Hl in Hs. apply sorted_around in Hs as [_ Hgt]. specialize (Hge 0%nat (k, r) eq_refl) as Hk. simpl in Hk, Hgt.
    destruct (decide (k = key)) as [->|Hne].
    + exists true. by apply located_found.
    + exists false. apply located_absent; [done|]. constructor; [simpl; lia|].
      eapply Forall_impl; [exact Hgt|]. simpl. lia.
Qed.

Section methods.
Context (n : BLNode) (l : pairs).
Hypothesis Hn : node_holds n l.

Lemma wp_get_key (i : nat) z p (Q : Z → BLNode → Prop) :
  z = Z.of_nat i → l !! i = Some p → Q p.1 n → wp (get_key z) Q n.
Proof using Hn.
  intros -> Hp HQ. unfold get_key, array_get. wp_step. wp_step. rewrite (proj2 (Z.leb_le 0 _)) by lia.
  rewrite Nat2Z.id, (keys_lookup _ _ _ _ Hn Hp). by wp_step.
Qed.

Lemma wp_get_rid (i : nat) z p (Q : Rid → BLNode → Prop) :
  z = Z.of_nat i → l !! i = Some p → Q p.2 n → wp (get_rid z) Q n.
Proof using Hn.
  intros -> Hp HQ. unfold get_rid, array_get. wp_step. wp_step. rewrite (proj2 (Z.leb_le 0 _)) by lia.
  rewrite Nat2Z.id, (rids_lookup _ _ _ _ Hn Hp). by wp_step.
Qed.

Lemma wp_value_at (i : nat) z p (Q : Z → BLNode → Prop) :
  z = Z.of_nat i → l !! i = Some p → Q (page_no_ p.2) n → wp (value_at z) Q n.
Proof using Hn. intros Hz Hp HQ. unfold value_at. wp_step. eapply wp_get_rid; [done|done|]. by wp_step. Qed.

(** The binary search finds the boundary of any property that, once it holds of a key,
    holds of all later ones. *)
Lemma wp_bisect fuel (f : Z → bool) (a b : nat) (Q : Z → BLNode → Prop) :
  (a ≤ b)%nat → (b ≤ length l)%nat → (b - a ≤ fuel)%nat →
  (∀ i j p q, (a ≤ i ≤ j)%nat → l !! i = Some p → l !! j = Some q → f p.1 = true → f q.1 = true) →
  (∀ i, (a ≤ i ≤ b)%nat → (∀ j p, (a ≤ j < i)%nat → l !! j = Some p → f p.1 = false) →
     (∀ j p, (i ≤ j < b)%nat → l !! j = Some p → f p.1 = true) → Q (Z.of_nat i) n) →
  wp (bisect fuel f (Z.of_nat a) (Z.of_nat b)) Q n.
Proof using Hn.
  revert a b. induction fuel as [|fuel IH]; intros a b Hab Hb Hf Hm HQ; cbn [bisect].
  - rewrite (proj2 (Z.ltb_ge _ _)) by lia. wp_step. apply HQ; [lia|intros; lia..].
  - destruct (Z.of_nat a <? Z.of_nat b) eqn:E; bool_simpl; [|wp_step; apply HQ; [lia|intros; lia..]].
    cbv zeta. set (mid := ((a + b) / 2)%nat).
    assert (a ≤ mid < b)%nat as Hmid.
    { pose proof (Nat.div_mod_eq (a + b) 2). pose proof (Nat.mod_upper_bound (a + b) 2). lia. }
    assert ((Z.of_nat a + Z.of_nat b) / 2 = Z.of_nat mid) as ->.
    { unfold mid. rewrite Nat2Z.inj_div. f_equal; lia. }
    destruct (lookup_lt_is_Some_2 l mid) as [p Hp]; [lia|]. wp_step. eapply wp_get_key; [done|done|].
    destruct (f p.1) eqn:Ef.
    + apply IH; [lia|lia|lia| |].
      { intros i j q q' Hij. apply Hm. lia. }
      intros i Hi H1 H2. apply HQ; [lia|done|]. intros j q Hj Hq. destruct (decide (j < mid)%nat).
      * apply (H2 j q); [lia|done].
      * apply (Hm mid j p q); [lia|done..].
    + replace (Z.of_nat mid + 1) with (Z.of_nat (S mid)) by lia. apply IH; [lia|lia|lia| |].
      { intros i j q q' Hij. apply Hm. lia. }
      intros i Hi H1 H2. apply HQ; [lia| |done]. intros j q Hj Hq. destruct (decide (S mid ≤ j)%nat).
      * apply (H1 j q); [lia|done].
      * destruct (f q.1) eqn:Eq; [|done]. rewrite <- Ef. symmetry. apply (Hm j mid q p); [lia|done..].
Qed.

Lemma wp_lower_bound key (Q : Z → BLNode → Prop) :
  sorted l → (∀ i b, located key l i b → Q (Z.of_nat i) n) → wp (lower_bound key) Q n.
Proof using Hn.
  intros Hs HQ. unfold lower_bound. wp_step. wp_step. rewrite (nh_size _ _ Hn). unfold len.
  apply (wp_bisect _ _ 0 (length l)); [lia|lia|lia| |].
  - intros i j p q Hij Hp Hq Hk. apply Z.leb_le in Hk. apply Z.leb_le. pose proof (sorted_le _ _ _ _ _ Hs (proj2 Hij) Hp Hq). lia.
  - intros i Hi H1 H2. destruct (bisect_located key l i Hs) as [b Hb]; [lia|..|by eapply HQ].
    + intros j p Hj Hp. specialize (H1 j p). rewrite Z.leb_gt in H1. apply H1; [lia|done].
    + intros j p Hj Hp. specialize (H2 j p). rewrite Z.leb_le in H2. apply H2; [|done]. apply lookup_lt_Some in Hp. lia.
Qed.

Lemma wp_key_at key i b (Q : bool → BLNode → Prop) :
  located key l i b → Q b n → wp (key_at (Z.of_nat i) key) Q n.
Proof using Hn.
  intros Hl HQ. unfold key_at. wp_step. wp_step. rewrite (nh_size _ _ Hn). unfold len.
  apply located_at in Hl. destruct b; [destruct Hl as [r Hr]|destruct Hl as [->|(p & Hp & Hk)]].
  - apply lookup_lt_Some in Hr as Hlt. rewrite (proj2 (Z.eqb_neq _ _)) by lia. unfold isIt. wp_step.
    eapply wp_get_key; [done|exact Hr|]. wp_step. simpl. by rewrite Z.eqb_refl.
  - rewrite Z.eqb_refl. by wp_step.
  - apply lookup_lt_Some in Hp as Hlt. rewrite (proj2 (Z.eqb_neq _ _)) by lia. unfold isIt. wp_step.
    eapply wp_get_key; [done|exact Hp|]. wp_step. by rewrite (proj2 (Z.eqb_neq _ _)) by done.
Qed.

Lemma wp_upper_bound h t target (Q : Z → BLNode → Prop) :
  l = h :: t → sorted t →
  (∀ t1 t2, t = t1 ++ t2 → Forall (λ p, p.1 ≤ target) t1 → Forall (λ p, target < p.1) t2 →
     Q (Z.of_nat (S (length t1))) n) →
  wp (upper_bound target) Q n.
Proof using Hn.
  intros Hl Hs HQ. unfold upper_bound. wp_step. wp_step. rewrite (nh_size _ _ Hn). unfold len.
  apply (wp_bisect _ _ 1 (length l)); [rewrite Hl; simpl; lia|lia|lia| |].
  - intros i j p q Hij Hp Hq Hk. apply Z.ltb_lt in Hk. apply Z.ltb_lt. rewrite Hl in Hp, Hq.
    destruct i as [|i], j as [|j]; [lia..|]. simpl in Hp, Hq.
    assert (i ≤ j)%nat as Hij' by lia. pose proof (sorted_le _ _ _ _ _ Hs Hij' Hp Hq). lia.
  - intros i Hi H1 H2. rewrite Hl in Hi. simpl in Hi.
    replace i with (S (length (take (i - 1) t))) by (rewrite length_take; lia).
    apply (HQ _ (drop (i - 1) t)); [by rewrite take_drop|..]; apply Forall_lookup; intros j p Hp.
    + apply lookup_take_Some in Hp as [Hp Hj]. specialize (H1 (S j) p). rewrite Z.ltb_ge, Hl in H1. apply H1; [lia|done].
    + rewrite lookup_drop in Hp. specialize (H2 (S (i - 1 + j)) p). rewrite Z.ltb_lt, Hl in H2. apply H2; [|done].
      apply lookup_lt_Some in Hp. simpl. lia.
Qed.

Lemma wp_leaf_lookup key (Q : option Rid → BLNode → Prop) :
  is_leaf n = true → sorted l → Q (pairs_map l !! key) n → wp (leaf_lookup key) Q n.
Proof using Hn.
  intros Hleaf Hs HQ. unfold leaf_lookup. wp_step. wp_step. wp_step. wp_step; [done|]. wp_step.
  apply wp_lower_bound; [done|]. intros i b Hl. rewrite (located_lookup _ _ _ _ Hl) in HQ. wp_step.
  eapply wp_key_at; [done|]. apply located_at in Hl. destruct b; [|by wp_step]. destruct Hl as [r Hr]. wp_step.
  eapply wp_get_rid; [done|exact Hr|]. wp_step. by rewrite Hr in HQ.
Qed.

Lemma wp_find_child_from fuel (i : nat) child (Q : Z → BLNode → Prop) :
  (i + fuel)%nat = length l →
  (∀ j p, (j < i)%nat → l !! j = Some p → page_no_ p.2 ≠ child) →
  (∀ j p, l !! j = Some p → page_no_ p.2 = child →
     (∀ k q, (k < j)%nat → l !! k = Some q → page_no_ q.2 ≠ child) → Q (Z.of_nat j) n) →
  ((∀ j p, l !! j = Some p → page_no_ p.2 ≠ child) → Q (-1) n) →
  wp (find_child_from fuel (Z.of_nat i) child) Q n.
Proof using Hn.
  revert i. induction fuel as [|fuel IH]; intros i Hf Hi Hfound Hnone; cbn [find_child_from].
  - wp_step. apply Hnone. intros j p Hp. apply (Hi j p); [|done]. apply lookup_lt_Some in Hp. lia.
  - destruct (lookup_lt_is_Some_2 l i) as [p Hp]; [lia|]. wp_step. eapply wp_value_at; [done|done|].
    destruct (page_no_ p.2 =? child) eqn:E; bool_simpl.
    + wp_step. by eapply Hfound.
    + replace (Z.of_nat i + 1) with (Z.of_nat (S i)) by lia. apply IH; [lia| |done..].
      intros j q Hj Hq. destruct (decide (j = i)) as [->|]; [congruence|]. apply (Hi j q); [lia|done].
Qed.

(** The first pair whose page is the child. *)
Lemma wp_find_child l1 k r l2 (Q : Z → BLNode → Prop) :
  l = l1 ++ (k, r) :: l2 → Forall (λ p, page_no_ p.2 ≠ page_no_ r) l1 →
  Q (Z.of_nat (length l1)) n → wp (find_child (page_no_ r)) Q n.
Proof using Hn.
  intros Hl H1 HQ. unfold find_child. wp_step. wp_step. rewrite (nh_size _ _ Hn). unfold len. rewrite Nat2Z.id.
  assert (l !! length l1 = Some (k, r)) as Hk by (rewrite Hl; by apply list_lookup_middle).
  apply (wp_find_child_from _ 0); [lia|intros; lia|..].
  - intros j p Hp Hc Hb. replace j with (length l1); [done|].
    destruct (decide (length l1 < j)%nat) as [Hlt|]; [by specialize (Hb _ _ Hlt Hk)|].
    destruct (decide (j < length l1)%nat) as [Hlt|]; [|lia]. rewrite Hl, lookup_app_l in Hp by done.
    rewrite Forall_lookup in H1. by apply (H1 j p) in Hp.
  - intros Hnone. by destruct (Hnone _ _ Hk).
Qed.
End methods.

(** ** Writing *)

Lemma length_overlay {A} off (xs arr : list A) :
  0 ≤ off → off + len xs ≤ len arr → length (overlay off xs arr) = length arr.
Proof. intros H0 H. unfold overlay, len in *. rewrite !length_app, length_take, length_drop. lia. Qed.

Lemma fits_true {A} off n (arr : list A) : 0 ≤ off → 0 ≤ n → off + n ≤ len arr → fits off n arr = true.
Proof. intros. unfold fits. rewrite !andb_true_iff, !Z.leb_le. lia. Qed.

(** Moving the end of the array and writing into the gap. *)
Lemma overlay_gap {A} (l1 xs l2 arr : list A) :
  take (length (l1 ++ l2)) arr = l1 ++ l2 → (length (l1 ++ xs ++ l2) ≤ length arr)%nat →
  take (length (l1 ++ xs ++ l2)) (overlay (len l1) xs (overlay (len l1 + len xs) l2 arr)) = l1 ++ xs ++ l2.
Proof.
  intros Ha Hl. rewrite !length_app in *.
  assert (arr = (l1 ++ l2) ++ drop (length l1 + length l2) arr) as Harr by (by rewrite <- Ha, take_drop).
  set (rest := drop _ arr) in Harr. clearbody rest. subst arr. rewrite !length_app in Hl.
  unfold overlay, len. rewrite !Nat2Z.id, !Z2Nat.inj_add, !Nat2Z.id by lia.
  assert (take (length l1) (take (length l1 + length xs) ((l1 ++ l2) ++ rest) ++ l2 ++
            drop (length l1 + length xs + length l2) ((l1 ++ l2) ++ rest)) = l1) as ->.
  { rewrite take_app_le by (rewrite length_take, !length_app; lia). rewrite take_take, Nat.min_l by lia.
    by rewrite <- app_assoc, take_app_length. }
  rewrite (drop_app_ge _ _ (length l1 + length xs)) by (rewrite length_take, !length_app; lia).
  rewrite length_take, !length_app, Nat.min_l by lia. rewrite Nat.sub_diag, drop_0.
  rewrite !app_assoc. rewrite take_app_le by (rewrite !length_app; lia).
  rewrite take_ge by (rewrite !length_app; lia). done.
Qed.

(** Moving the end of the array over a gap. *)
Lemma overlay_close {A} (l1 xs l2 arr : list A) :
  take (length (l1 ++ xs ++ l2)) arr = l1 ++ xs ++ l2 →
  take (length (l1 ++ l2)) (overlay (len l1) l2 arr) = l1 ++ l2.
Proof.
  intros Ha. unfold overlay, len. rewrite Nat2Z.id.
  assert (take (length l1) arr = l1) as ->.
  { assert (take (length l1) (take (length (l1 ++ xs ++ l2)) arr) = l1) as E by (by rewrite Ha, take_app_length).
    by rewrite take_take, Nat.min_l in E by (rewrite !length_app; lia). }
  rewrite app_assoc. by rewrite take_app_length.
Qed.

Lemma take_drop_middle_app {A} (l1 l2 l3 arr : list A) :
  take (length (l1 ++ l2 ++ l3)) arr = l1 ++ l2 ++ l3 → take (length l2) (drop (length l1) arr) = l2.
Proof.
  intros Ha. pose proof (take_drop (length (l1 ++ l2 ++ l3)) arr) as E. rewrite Ha in E. rewrite <- E.
  rewrite <- app_assoc, drop_app_length, <- app_assoc. by rewrite take_app_length.
Qed.

Section array.
Context {A : Type} (get : BLNode → list A) (put : list A → BLNode → BLNode).
Hypothesis get_put : ∀ a n, get (put a n) = a.
Hypothesis put_put : ∀ a b n, put b (put a n) = put b n.

Lemma wp_array_write off (xs : list A) (Q : unit → BLNode → Prop) n :
  0 ≤ off → off + len xs ≤ len (get n) → Q tt (put (overlay off xs (get n)) n) → wp (array_write get put off xs) Q n.
Proof using Type.
  intros H0 Hl HQ. unfold array_write. wp_step. wp_step. rewrite fits_true; [by wp_step|done|unfold len; lia|done].
Qed.

Lemma wp_array_read off k (Q : list A → BLNode → Prop) n :
  0 ≤ off → 0 ≤ k → off + k ≤ len (get n) → Q (take (Z.to_nat k) (drop (Z.to_nat off) (get n))) n →
  wp (array_read get off k) Q n.
Proof using Type. intros H0 H1 Hl HQ. unfold array_read. wp_step. wp_step. rewrite fits_true by done. by wp_step. Qed.

Lemma wp_array_move l1 l2 l3 off (Q : unit → BLNode → Prop) n :
  take (length (l1 ++ l2 ++ l3)) (get n) = l1 ++ l2 ++ l3 → 0 ≤ off → off + len l2 ≤ len (get n) →
  Q tt (put (overlay off l2 (get n)) n) → wp (array_move get put off (len l1) (len l2)) Q n.
Proof using Type.
  intros Ha H0 Hl HQ. unfold array_move. wp_step. apply wp_array_read; [unfold len; lia..| |].
  - apply (f_equal length) in Ha. rewrite length_take, !length_app in Ha. unfold len. lia.
  - unfold len at 1 2. rewrite !Nat2Z.id, (take_drop_middle_app _ _ _ _ Ha). by apply wp_array_write.
Qed.

(** Opening a gap in the array and filling it. *)
Lemma wp_array_insert l1 xs l2 (Q : unit → BLNode → Prop) n :
  take (length (l1 ++ l2)) (get n) = l1 ++ l2 → len (l1 ++ xs ++ l2) ≤ len (get n) →
  (∀ arr, length arr = length (get n) → take (length (l1 ++ xs ++ l2)) arr = l1 ++ xs ++ l2 → Q tt (put arr n)) →
  wp (array_insert get put (len l1) xs (len l2)) Q n.
Proof using get_put put_put.
  intros Ha Hl Hk. unfold len in Hl. rewrite !length_app in Hl. unfold array_insert. wp_step.
  apply (wp_array_move _ _ []); [by rewrite app_nil_r|unfold len; lia..|].
  apply wp_array_write; rewrite ?get_put; [unfold len; lia|unfold len; rewrite length_overlay; unfold len; lia|].
  rewrite put_put. apply Hk; [|apply overlay_gap; [done|rewrite !length_app; lia]].
  rewrite !length_overlay; rewrite ?length_overlay; unfold len; rewrite ?length_overlay; unfold len; lia.
Qed.

Lemma wp_array_fill xs (Q : unit → BLNode → Prop) n :
  len xs ≤ len (get n) →
  (∀ arr, length arr = length (get n) → take (length xs) arr = xs → Q tt (put arr n)) →
  wp (array_write get put 0 xs) Q n.
Proof using Type.
  intros Hl Hk. apply wp_array_write; [done|done|]. apply Hk; [by apply length_overlay|].
  unfold overlay. simpl. by rewrite take_app_length.
Qed.

Lemma overlay_single (i : nat) (x : A) arr : (i < length arr)%nat → overlay (Z.of_nat i) [x] arr = <[i := x]> arr.
Proof using Type.
  intros Hi. unfold overlay. rewrite Nat2Z.id, insert_take_drop by done. simpl. by rewrite Nat.add_1_r.
Qed.

(** Closing a gap of the array. *)
Lemma wp_array_close l1 xs l2 (Q : unit → BLNode → Prop) n :
  take (length (l1 ++ xs ++ l2)) (get n) = l1 ++ xs ++ l2 →
  (∀ arr, length arr = length (get n) → take (length (l1 ++ l2)) arr = l1 ++ l2 → Q tt (put arr n)) →
  wp (array_move get put (len l1) (len (l1 ++ xs)) (len l2)) Q n.
Proof using Type.
  intros Ha Hk. assert (length (l1 ++ xs ++ l2) ≤ length (get n))%nat as Hl.
  { apply (f_equal length) in Ha. rewrite length_take in Ha. lia. }
  rewrite !length_app in Hl.
  apply (wp_array_move _ _ []); [by rewrite app_nil_r, <- app_assoc|unfold len; lia..|].
  apply Hk; [by rewrite length_overlay; unfold len; lia|by apply (overlay_close _ xs)].
Qed.
End array.

Lemma take_fmap_fst (l : pairs) (arr : list Z) : take (length l) arr = l.*1 → take (length l.*1) arr = l.*1.
Proof. by rewrite length_fmap. Qed.
Lemma take_fmap_snd (l : pairs) (arr : list Rid) : take (length l) arr = l.*2 → take (length l.*2) arr = l.*2.
Proof. by rewrite length_fmap. Qed.

Lemma len_fmap {A B} (f : A → B) l : len (f <$> l) = len l.
Proof. unfold len. by rewrite length_fmap. Qed.
Lemma len_app' {A} (l k : list A) : len (l ++ k) = len l + len k.
Proof. unfold len. rewrite length_app. lia. Qed.

Section changes.
Context (n : BLNode).

Lemma node_holds_put l' ks rs k : node_holds n l' → ∀ l : pairs,
  length ks = length (keys n) → length rs = length (rids n) →
  take (length l.*1) ks = l.*1 → take (length l.*2) rs = l.*2 → k = len l →
  node_holds (set_size k (set_rids rs (set_keys ks n))) l.
Proof using Type.
  intros [_ _ _ Hk Hr] l Lk Lr Ek Er ->. rewrite length_fmap in Ek. rewrite length_fmap in Er.
  split; cbn [num_key keys rids set_size set_rids set_keys]; try done; unfold len in *; lia.
Qed.

Lemma wp_insert_pairs l1 l2 (xs : pairs) (Q : unit → BLNode → Prop) :
  node_holds n (l1 ++ l2) → len (l1 ++ xs ++ l2) ≤ order + 1 →
  (∀ n', node_holds n' (l1 ++ xs ++ l2) → hdr n' = hdr n → Q tt n') →
  wp (insert_pairs (len l1) xs.*1 xs.*2) Q n.
Proof using Type.
  intros Hh Hl HQ. pose proof Hh as [Hs Hk%take_fmap_fst Hr%take_fmap_snd Hkr Hrr]. rewrite !fmap_app in Hk. rewrite !fmap_app in Hr.
  rewrite !len_app' in Hl. rewrite len_app' in Hs. unfold insert_pairs. do 2 wp_step. wp_step. wp_step.
  { rewrite Hs. unfold len. apply negb_true_iff, orb_false_iff. rewrite !Z.ltb_ge. lia. }
  wp_step. cbv beta.
  assert (∀ ks rs, length ks = length (keys n) → length rs = length (rids n) →
    take (length (l1.*1 ++ xs.*1 ++ l2.*1)) ks = l1.*1 ++ xs.*1 ++ l2.*1 →
    take (length (l1.*2 ++ xs.*2 ++ l2.*2)) rs = l1.*2 ++ xs.*2 ++ l2.*2 →
    wp (size ← gets num_key ; modify (set_size (size + len xs.*1))) Q (set_rids rs (set_keys ks n))) as Hend.
  { intros ks rs Lk Lr Ek Er. do 3 wp_step. apply HQ; [|done]. cbn [num_key set_rids set_keys].
    apply (node_holds_put (l1 ++ l2)); try done; rewrite ?fmap_app; try done. rewrite Hs, len_fmap, !len_app'. lia. }
  destruct (num_key n =? 0) eqn:E; bool_simpl.
  - assert (l1 = [] ∧ l2 = []) as [-> ->].
    { unfold len in *. split; apply length_zero_iff_nil; lia. }
    simpl in Hend. rewrite !app_nil_r in Hend. 
    assert (len xs ≤ order + 1) as Hl' by (unfold len in *; simpl in Hl; lia).
    wp_step. apply (wp_array_fill keys set_keys); [rewrite len_fmap; lia|]. intros ks Lk Ek.
    apply (wp_array_fill rids set_rids); [cbn [rids set_keys]; rewrite len_fmap; lia|].
    intros rs Lr Er. by apply Hend.
  - assert (num_key n - len l1 = len l2) as -> by lia. cbv zeta.
    rewrite <- (len_fmap fst l1), <- (len_fmap fst l2).
    wp_step. apply (wp_array_insert keys set_keys); [done|done|done|rewrite !len_app', !len_fmap; lia|]. intros ks Lk Ek.
    rewrite (len_fmap fst l1), (len_fmap fst l2), <- (len_fmap snd l1), <- (len_fmap snd l2).
    apply (wp_array_insert rids set_rids); [done|done|done|rewrite !len_app', !len_fmap; cbn [rids set_keys]; lia|].
    intros rs Lr Er. by apply Hend.
Qed.

Lemma wp_insert_pair l1 key rid l2 (Q : unit → BLNode → Prop) :
  node_holds n (l1 ++ l2) → len (l1 ++ l2) ≤ order →
  (∀ n', node_holds n' (l1 ++ (key, rid) :: l2) → hdr n' = hdr n → Q tt n') →
  wp (insert_pair (len l1) key rid) Q n.
Proof using Type.
  intros Hh Hl HQ. apply (wp_insert_pairs l1 l2 [(key, rid)]); [done| |done].
  rewrite !len_app' in *. unfold len in *. simpl. lia.
Qed.

(** A key that is not there is inserted at its place. *)
Lemma wp_insert l1 key rid l2 (Q : Z → BLNode → Prop) :
  node_holds n (l1 ++ l2) → sorted (l1 ++ l2) → len (l1 ++ l2) ≤ order →
  Forall (λ p, p.1 < key) l1 → Forall (λ p, key < p.1) l2 →
  (∀ n', node_holds n' (l1 ++ (key, rid) :: l2) → hdr n' = hdr n → Q (len (l1 ++ l2) + 1) n') →
  wp (insert key rid) Q n.
Proof using Type.
  intros Hh Hsort Hl H1 H2 HQ. unfold insert. do 2 wp_step. pose proof (nh_size _ _ Hh) as Hs.
  assert (∀ n', node_holds n' (l1 ++ (key, rid) :: l2) → num_key n' = len (l1 ++ l2) + 1) as Hn'.
  { intros n' Hn'. rewrite (nh_size _ _ Hn'), !len_app'. unfold len. simpl. lia. }
  destruct (num_key n =? 0) eqn:E; bool_simpl.
  - assert (l1 = [] ∧ l2 = []) as [-> ->].
    { rewrite Hs, len_app' in E. unfold len in *. split; apply length_zero_iff_nil; lia. }
    wp_step. apply (wp_insert_pair [] _ _ []); [done|done|]. intros n' Hh' Hhdr. do 2 wp_step. rewrite (Hn' _ Hh').
    wp_step. wp_step; [done|]. wp_step. by apply HQ.
  - wp_step. apply (wp_lower_bound n (l1 ++ l2)); [done|done|]. intros i b Hloc. wp_step.
    eapply (wp_key_at n (l1 ++ l2)); [done|exact Hloc|]. destruct (located_absent_unique _ _ _ _ _ H1 H2 Hloc) as [-> ->].
    cbv iota. wp_step. apply (wp_insert_pair l1 _ _ l2); [done|done|]. intros n' Hh' Hhdr. wp_step. rewrite (Hn' _ Hh'). by apply HQ.
Qed.

Lemma wp_erase_pair l1 p l2 (Q : unit → BLNode → Prop) :
  node_holds n (l1 ++ p :: l2) →
  (∀ n', node_holds n' (l1 ++ l2) → hdr n' = hdr n → Q tt n') → wp (erase_pair (len l1)) Q n.
Proof using Type.
  intros Hh HQ. pose proof Hh as [Hs Hk%take_fmap_fst Hr%take_fmap_snd Hkr Hrr].
  change (p :: l2) with ([p] ++ l2) in *. rewrite !fmap_app in Hk. rewrite !fmap_app in Hr.
  assert (num_key n = len l1 + 1 + len l2) as Hs' by (rewrite Hs, !len_app'; unfold len; simpl; lia).
  unfold erase_pair. do 2 wp_step. wp_step. wp_step.
  { rewrite Hs', andb_true_iff, Z.leb_le, Z.ltb_lt. unfold len. lia. }
  cbv zeta. replace (num_key n - len l1 - 1) with (len l2) by lia.
  replace (len l1 + 1) with (len (l1.*1 ++ [p].*1)) by (rewrite len_app', len_fmap; done).
  rewrite <- (len_fmap fst l1), <- (len_fmap fst l2). wp_step.
  apply (wp_array_close keys set_keys); [done|]. intros ks Lk Ek. wp_step.
  replace (len (l1.*1 ++ [p].*1)) with (len (l1.*2 ++ [p].*2)) by (rewrite !len_app', !len_fmap; done).
  rewrite (len_fmap fst l1), (len_fmap fst l2), <- (len_fmap snd l1), <- (len_fmap snd l2).
  apply (wp_array_close rids set_rids); [done|]. intros rs Lr Er. wp_step. apply HQ; [|done].
  apply (node_holds_put (l1 ++ [p] ++ l2)); try done; rewrite ?fmap_app; try done. rewrite len_app'. lia.
Qed.

Lemma wp_remove l1 key r l2 (Q : Z → BLNode → Prop) :
  node_holds n (l1 ++ (key, r) :: l2) → sorted (l1 ++ (key, r) :: l2) →
  (∀ n', node_holds n' (l1 ++ l2) → hdr n' = hdr n → Q (len (l1 ++ l2)) n') → wp (remove key) Q n.
Proof using Type.
  intros Hh Hsort HQ. unfold remove. wp_step. eapply wp_lower_bound; [done|done|]. intros i b Hloc. wp_step.
  eapply wp_key_at; [done|exact Hloc|]. apply located_found_unique in Hloc as [-> ->]; [|done]. cbv iota. wp_step.
  apply (wp_erase_pair l1 (key, r) l2); [done|]. intros n' Hh' Hhdr. wp_step. rewrite (nh_size _ _ Hh'). by apply HQ.
Qed.

(** Writing a field of a pair. *)
Lemma wp_set_key l (i : nat) z x p (Q : unit → BLNode → Prop) :
  node_holds n l → z = Z.of_nat i → l !! i = Some p →
  (∀ n', node_holds n' (<[i := (x, p.2)]> l) → hdr n' = hdr n → Q tt n') → wp (set_key z x) Q n.
Proof using Type.
  intros Hh -> Hp HQ. pose proof Hh as [Hs Hk Hr Hkr Hrr]. pose proof (lookup_lt_Some _ _ _ Hp) as Hlt.
  pose proof (keys_lookup _ _ _ _ Hh Hp) as Hkp. apply lookup_lt_Some in Hkp as Hlt'.
  apply (wp_array_write keys set_keys); [lia|unfold len; simpl; lia|]. apply HQ; [|done].
  rewrite overlay_single by done. split; cbn [num_key keys rids set_keys]; rewrite ?length_insert; try done.
  - by rewrite Hs; unfold len; rewrite length_insert.
  - rewrite take_insert_lt, Hk, list_fmap_insert by done. done.
  - rewrite Hr, list_fmap_insert. simpl. by rewrite list_insert_id by (by rewrite list_lookup_fmap, Hp).
  - unfold len. by rewrite length_insert.
Qed.

Lemma wp_set_rid l (i : nat) z x p (Q : unit → BLNode → Prop) :
  node_holds n l → z = Z.of_nat i → l !! i = Some p →
  (∀ n', node_holds n' (<[i := (p.1, x)]> l) → hdr n' = hdr n → Q tt n') → wp (set_rid z x) Q n.
Proof using Type.
  intros Hh -> Hp HQ. pose proof Hh as [Hs Hk Hr Hkr Hrr]. pose proof (lookup_lt_Some _ _ _ Hp) as Hlt.
  pose proof (rids_lookup _ _ _ _ Hh Hp) as Hrp. apply lookup_lt_Some in Hrp as Hlt'.
  apply (wp_array_write rids set_rids); [lia|unfold len; simpl; lia|]. apply HQ; [|done].
  rewrite overlay_single by done. split; cbn [num_key keys rids set_rids]; rewrite ?length_insert; try done.
  - by rewrite Hs; unfold len; rewrite length_insert.
  - rewrite Hk, list_fmap_insert. simpl. by rewrite list_insert_id by (by rewrite list_lookup_fmap, Hp).
  - rewrite take_insert_lt, Hr, list_fmap_insert by done. done.
  - unfold len. by rewrite length_insert.
Qed.
End changes.
