(* ===== verification/BLinkTree.v ===== *)
(** The B-link index of a table: [BLinkIndexHandle] of
    [core/index/bp_tree/blink/blink.h] and [blink.cc], as the compute nodes use it.

    The nodes and the head page of the index are shared by all compute nodes; each has
    a handle with its copy of the head and a cache from keys to leaves.  An operation
    keeps track of the pages whose latches it holds: fetching a page that it holds
    already would wait for ever, and a page is read and written only under its latch.
    Loops take fuel; more nodes than there are pages cannot lie on a path. *)

From S2P Require Import Prelude Common Bytes Record BLinkNode.

Definition BL_LEAF_HEADER_PAGE_ID : Z := 0.
Definition BL_HEAD_PAGE_ID : Z := 1.
Definition BL_INIT_ROOT_PAGE_ID : Z := 2.
Definition BL_INIT_PAGE_NUM : Z := 3.

Definition INDEX_NOT_FOUND : Rid := mkRid (-1) (-1).

Inductive BPOperation : Set := INSERT_OPERA | DELETE_OPERA | SEARCH_OPERA | UPDATE_OPERA.

Record BLFileHdr : Set := mkHdr {
  root_page_id : Z;
  first_leaf : Z;
  last_leaf : Z
}.

Record BLStore := mkStore {
  nodes : gmap Z BLNode;
  head : BLFileHdr;
  next_page : Z
}.

Record BLHandle := mkHandle {
  file_hdr : BLFileHdr;
  key2leaf : gmap Z Z
}.

Record BLink := mkBLink {
  store : BLStore;
  handle : BLHandle;
  latches : gmap Z bool     (* the pages held, and whether for writing *)
}.

Abbreviation MI := (M BLink).

Definition set_nodes x s := mkBLink (mkStore x (head (store s)) (next_page (store s))) (handle s) (latches s).
Definition set_head x s := mkBLink (mkStore (nodes (store s)) x (next_page (store s))) (handle s) (latches s).
Definition set_next_page x s := mkBLink (mkStore (nodes (store s)) (head (store s)) x) (handle s) (latches s).
Definition set_file_hdr x s := mkBLink (store s) (mkHandle x (key2leaf (handle s))) (latches s).
Definition set_key2leaf x s := mkBLink (store s) (mkHandle (file_hdr (handle s)) x) (latches s).
Definition set_latches x s := mkBLink (store s) (handle s) x.

Definition set_root_page_id x h := mkHdr x (first_leaf h) (last_leaf h).
Definition set_last_leaf x h := mkHdr (root_page_id h) (first_leaf h) x.

(** ** Pages *)

(** A search takes a page for reading, everything else for writing. *)
Definition for_writing (opera : BPOperation) : bool :=
  match opera with SEARCH_OPERA => false | _ => true end.

Definition latch (page_id : Z) (x : bool) : MI unit :=
  held ← gets latches ;
  match held !! page_id with
  | Some _ => block
  | None => modify (set_latches (<[page_id := x]> held))
  end.

Definition unlatch (page_id : Z) (x : bool) : MI unit :=
  held ← gets latches ;
  match held !! page_id with
  | Some y => if Bool.eqb x y then modify (set_latches (delete page_id held)) else crash UnlockNotHeld
  | None => crash UnlockNotHeld
  end.

(** The handle of a node is the number of its page. *)
Definition fetch_node (page_id : Z) (opera : BPOperation) : MI unit :=
  ns ← gets (λ s, nodes (store s)) ;
  if bool_decide (is_Some (ns !! page_id)) then latch page_id (for_writing opera) else crash OutOfBounds.

Definition release_node (page_id : Z) (opera : BPOperation) : MI unit := unlatch page_id (for_writing opera).

(** What a method reads of a node, under the latch. *)
Definition reading {A} (page_id : Z) (m : MN A) : MI A := λ s,
  match latches s !! page_id, nodes (store s) !! page_id with
  | Some _, Some n =>
      match m n with
      | Done (a, _) => Done (a, s)
      | Blocked => Blocked
      | Crash e => Crash e
      end
  | _, _ => Crash UnlockNotHeld
  end.

Definition writing {A} (page_id : Z) (m : MN A) : MI A := λ s,
  match latches s !! page_id, nodes (store s) !! page_id with
  | Some true, Some n =>
      match m n with
      | Done (a, n') => Done (a, set_nodes (<[page_id := n']> (nodes (store s))) s)
      | Blocked => Blocked
      | Crash e => Crash e
      end
  | _, _ => Crash UnlockNotHeld
  end.

Definition s_get_file_hdr : MI unit :=
  latch BL_HEAD_PAGE_ID false ;;
  h ← gets (λ s, head (store s)) ;
  modify (set_file_hdr h).
Definition s_release_file_hdr : MI unit := unlatch BL_HEAD_PAGE_ID false.

Definition x_get_file_hdr : MI unit :=
  latch BL_HEAD_PAGE_ID true ;;
  h ← gets (λ s, head (store s)) ;
  modify (set_file_hdr h).
Definition x_release_file_hdr : MI unit :=
  h ← gets (λ s, file_hdr (handle s)) ;
  modify (set_head h) ;;
  unlatch BL_HEAD_PAGE_ID true.

(** The storage node appends a page of zeros to the file. *)
Definition create_node : MI Z :=
  page_no ← gets (λ s, next_page (store s)) ;
  modify (λ s, set_next_page (page_no + 1) (set_nodes (<[page_no := zero_node]> (nodes (store s))) s)) ;;
  mret page_no.

(** ** Going down *)

(** The first loop of every descent: the root, held for reading. *)
Fixpoint find_root (fuel : nat) : MI Z :=
  match fuel with
  | O => block
  | S fuel' =>
      s_get_file_hdr ;;
      root ← gets (λ s, root_page_id (file_hdr (handle s))) ;
      s_release_file_hdr ;;
      fetch_node root SEARCH_OPERA ;;
      top ← reading root (gets is_root) ;
      if top : bool then mret root
      else
        release_node root SEARCH_OPERA ;;
        find_root fuel'
  end.

(** [while (node->need_to_right(key))] *)
Fixpoint move_right (fuel : nat) (opera : BPOperation) (key node : Z) : MI Z :=
  match fuel with
  | O => block
  | S fuel' =>
      right ← reading node (gets (need_to_right key)) ;
      if right : bool then
        sib ← reading node (gets right_sibling) ;
        release_node node opera ;;
        fetch_node sib opera ;;
        move_right fuel' opera key sib
      else mret node
  end.

(** The child of the node for the key; the node is released. *)
Definition step_down (key node : Z) : MI Z :=
  pos ← reading node (upper_bound key) ;
  child_page_no ← reading node (value_at (pos - 1)) ;
  release_node node SEARCH_OPERA ;;
  mret child_page_no.

(** [while (!node->is_leaf())]; [trace] has the pages passed, the last in front. *)
Fixpoint descend (fuel : nat) (key : Z) (trace : list Z) (node : Z) : MI (Z * list Z) :=
  match fuel with
  | O => block
  | S fuel' =>
      leaf ← reading node (gets is_leaf) ;
      if leaf : bool then mret (node, trace)
      else
        node ← move_right fuel' SEARCH_OPERA key node ;
        child ← step_down key node ;
        fetch_node child SEARCH_OPERA ;;
        descend fuel' key (node :: trace) child
  end.

Definition fuel_for (s : BLink) : nat := S (size (nodes (store s))).

Definition find_leaf_for_search (key : Z) : MI Z :=
  fuel ← gets fuel_for ;
  root ← find_root fuel ;
  '(node, _) ← descend fuel key [] root ;
  move_right fuel SEARCH_OPERA key node.

(** The second part of the descent for a change: the leaf is released and taken again
    for writing. *)
Definition take_leaf (opera : BPOperation) (key leaf_id : Z) : MI Z :=
  fuel ← gets fuel_for ;
  fetch_node leaf_id opera ;;
  move_right fuel opera key leaf_id.

Definition find_leaf_for_insert (key : Z) : MI (Z * list Z) :=
  fuel ← gets fuel_for ;
  root ← find_root fuel ;
  '(leaf_id, trace) ← descend fuel key [] root ;
  release_node leaf_id SEARCH_OPERA ;;
  node ← take_leaf INSERT_OPERA key leaf_id ;
  mret (node, trace).

Definition find_leaf_for_delete (key : Z) : MI Z :=
  fuel ← gets fuel_for ;
  root ← find_root fuel ;
  '(leaf_id, _) ← descend fuel key [] root ;
  release_node leaf_id SEARCH_OPERA ;;
  take_leaf DELETE_OPERA key leaf_id.

(** ** Splitting *)

(** The new node, and the key that separates the two. *)
Definition split (node : Z) : MI (Z * Z) :=
  size ← reading node (gets num_key) ;
  check 424 (size =? get_max_size) ;;
  new_node ← create_node ;
  fetch_node new_node INSERT_OPERA ;;
  leaf ← reading node (gets is_leaf) ;
  sib ← reading node (gets right_sibling) ;
  writing new_node (modify (λ n,
    let n := set_right_sibling sib (set_next_leaf INVALID_PAGE_ID (set_prev_leaf INVALID_PAGE_ID (set_size 0 (set_is_leaf leaf n)))) in
    if negb leaf then reset_high_key n else n)) ;;
  let old_node_size := size / 2 in
  let new_node_size := size - old_node_size in
  check 441 ((0 <? old_node_size) && (0 <? new_node_size)) ;;
  writing node (modify (set_size old_node_size)) ;;
  new_keys ← reading node (array_read keys old_node_size new_node_size) ;
  new_rids ← reading node (array_read rids old_node_size new_node_size) ;
  writing new_node (insert_pairs 0 new_keys new_rids) ;;
  old_node_high_key ← reading new_node (get_key 0) ;
  (if leaf : bool then
     next ← reading node (gets next_leaf) ;
     writing new_node (modify (λ n, set_prev_leaf node (set_next_leaf next n))) ;;
     when (negb (next =? INVALID_PAGE_ID))
       (fetch_node next UPDATE_OPERA ;;
        writing next (modify (set_prev_leaf new_node)) ;;
        release_node next UPDATE_OPERA) ;;
     writing node (modify (set_next_leaf new_node))
   else writing new_node (set_key 0 NEG_KEY)) ;;
  writing node (modify (λ n, set_right_sibling new_node (set_has_high_key true (set_high_key old_node_high_key n)))) ;;
  mret (new_node, old_node_high_key).

(** [old_node] was the root: a new one with the two halves. *)
Definition new_root (old_node sep_key new_node : Z) : MI unit :=
  new_root_id ← create_node ;
  fetch_node new_root_id INSERT_OPERA ;;
  writing new_root_id (modify (λ n,
    set_size 0 (set_is_root true (set_prev_leaf INVALID_PAGE_ID (set_next_leaf INVALID_PAGE_ID (set_is_leaf false n)))))) ;;
  writing new_root_id init_internal_node ;;
  writing new_root_id (set_rid 0 (mkRid old_node (-1))) ;;
  writing new_root_id (insert_pair 1 sep_key (mkRid new_node (-1))) ;;
  writing old_node (modify (set_is_root false)) ;;
  writing new_node (modify (set_is_root false)) ;;
  release_node new_node INSERT_OPERA ;;
  release_node old_node INSERT_OPERA ;;
  release_node new_root_id INSERT_OPERA ;;
  x_get_file_hdr ;;
  modify (λ s, set_file_hdr (set_root_page_id new_root_id (file_hdr (handle s))) s) ;;
  x_release_file_hdr.

(** [while (idx == -1 && parent->need_to_right(sep_key))]: [idx] does not change. *)
Definition parent_for (sep_key old_page_id parent : Z) : MI Z :=
  fuel ← gets fuel_for ;
  idx ← reading parent (find_child old_page_id) ;
  if idx =? -1 then
    right ← reading parent (gets (need_to_right sep_key)) ;
    check 524 right ;;
    move_right fuel INSERT_OPERA sep_key parent
  else mret parent.

Fixpoint insert_into_parent (trace : list Z) (old_node sep_key new_node : Z) : MI unit :=
  top ← reading old_node (gets is_root) ;
  if top : bool then new_root old_node sep_key new_node
  else
    release_node new_node INSERT_OPERA ;;
    match trace with
    | [] => crash OutOfBounds
    | parent_page_id :: trace =>
        fetch_node parent_page_id INSERT_OPERA ;;
        release_node old_node INSERT_OPERA ;;
        parent ← parent_for sep_key old_node parent_page_id ;
        old_child_idx ← reading parent (find_child old_node) ;
        writing parent (insert_pairs (old_child_idx + 1) [sep_key] [mkRid new_node (-1)]) ;;
        size ← reading parent (gets num_key) ;
        if size =? get_max_size then
          '(parent_right_bro, min_key) ← split parent ;
          insert_into_parent trace parent min_key parent_right_bro
        else release_node parent INSERT_OPERA
    end.

(** ** The operations *)

Definition checkIfDirectlyGetPage (key : Z) : MI (option Rid) :=
  cache ← gets (λ s, key2leaf (handle s)) ;
  match cache !! key with
  | Some page_id =>
      fetch_node page_id SEARCH_OPERA ;;
      leaf ← reading page_id (gets is_leaf) ;
      check 567 leaf ;;
      rid ← reading page_id (leaf_lookup key) ;
      match rid with
      | Some rid =>
          release_node page_id SEARCH_OPERA ;;
          mret (Some rid)
      | None =>
          modify (λ s, set_key2leaf (delete key (key2leaf (handle s))) s) ;;
          release_node page_id SEARCH_OPERA ;;
          mret None
      end
  | None => mret None
  end.

(** The search once it has the leaf. *)
Definition search_leaf (key leaf : Z) : MI (option Rid) :=
  rid ← reading leaf (leaf_lookup key) ;
  (match rid with
   | Some _ => modify (λ s, set_key2leaf (<[key := leaf]> (key2leaf (handle s))) s)
   | None => mret tt
   end) ;;
  release_node leaf SEARCH_OPERA ;;
  mret rid.

Definition search (key : Z) : MI (option Rid) :=
  direct ← checkIfDirectlyGetPage key ;
  match direct with
  | Some rid => mret (Some rid)
  | None =>
      leaf ← find_leaf_for_search key ;
      search_leaf key leaf
  end.

Definition update_entry (key : Z) (value : Rid) : MI Z :=
  check 605 (bool_decide (value ≠ INDEX_NOT_FOUND)) ;;
  '(leaf, _) ← find_leaf_for_insert key ;
  ok ← reading leaf (gets is_leaf) ;
  check 609 ok ;;
  pos ← reading leaf (lower_bound key) ;
  found ← reading leaf (key_at pos key) ;
  check 614 found ;;
  rid ← reading leaf (get_rid pos) ;
  check 617 (bool_decide (rid = INDEX_NOT_FOUND)) ;;
  writing leaf (set_rid pos value) ;;
  release_node leaf UPDATE_OPERA ;;
  mret leaf.

(** What follows when a new key has made the leaf full. *)
Definition split_leaf (leaf : Z) (trace : list Z) : MI unit :=
  '(bro, _) ← split leaf ;
  next ← reading bro (gets next_leaf) ;
  when (next =? INVALID_PAGE_ID)
    (x_get_file_hdr ;;
     modify (λ s, set_file_hdr (set_last_leaf leaf (file_hdr (handle s))) s) ;;
     check 652 (negb (leaf =? 0)) ;;
     modify (λ s, set_file_hdr (set_last_leaf bro (file_hdr (handle s))) s) ;;
     x_release_file_hdr) ;;
  sep ← reading bro (get_key 0) ;
  insert_into_parent trace leaf sep bro.

(** The insertion once it has the leaf for writing. *)
Definition insert_at (key : Z) (value : Rid) (leaf : Z) (trace : list Z) : MI Z :=
  ok ← reading leaf (gets is_leaf) ;
  check 631 ok ;;
  pos ← reading leaf (lower_bound key) ;
  found ← reading leaf (key_at pos key) ;
  if found : bool then
    release_node leaf INSERT_OPERA ;;
    mret INVALID_PAGE_ID
  else
    old_size ← reading leaf (gets num_key) ;
    new_size ← writing leaf (insert key value) ;
    check 643 (negb (old_size =? new_size)) ;;
    size ← reading leaf (gets num_key) ;
    (if size =? get_max_size then split_leaf leaf trace
     else release_node leaf INSERT_OPERA) ;;
    mret leaf.

Definition insert_entry (key : Z) (value : Rid) : MI Z :=
  '(leaf, trace) ← find_leaf_for_insert key ;
  insert_at key value leaf trace.

Definition delete_entry (key : Z) : MI Rid :=
  leaf ← find_leaf_for_delete key ;
  ok ← reading leaf (gets is_leaf) ;
  check 672 ok ;;
  size ← reading leaf (gets num_key) ;
  present ← (if size =? 0 then mret false else reading leaf (need_delete key)) ;
  if negb present then
    release_node leaf DELETE_OPERA ;;
    mret INDEX_NOT_FOUND
  else
    pos ← reading leaf (lower_bound key) ;
    ret ← reading leaf (get_rid pos) ;
    check 683 (negb (page_no_ ret =? -1)) ;;
    writing leaf (remove key) ;;
    release_node leaf DELETE_OPERA ;;
    mret ret.
