(* ===== verification/BLinkInv.v ===== *)
(** The shape of the B-link index between operations, and while a node has been split
    and its parent does not know.

    Every page has a span: its level, the half-open interval of keys it is for, and
    its parent.  [C] has the spans as the parents see them and [G] as they are; the two
    differ only for the halves of a split node. *)

From stdpp Require Import sorting.
From S2P Require Import Prelude Common Bytes Record BLinkNode BLinkTree.

Record Span := mkSpan {
  level : nat;
  lo : Z;
  hi : Z;
  up : option Z
}.

(** Keys are 64 bits wide. *)
Definition TOP : Z := 2 ^ 64.

Definition covers (sp : Span) (key : Z) : Prop := lo sp ≤ key < hi sp.

#[export] Instance covers_dec sp key : Decision (covers sp key).
Proof. unfold covers. apply _. Defined.

Abbreviation Spans := (gmap Z Span).

(** The limits between the children of an inner node; its first key does not count. *)
Definition limits (sp : Span) (l : pairs) : list Z := lo sp :: (tail l).*1 ++ [hi sp].

Definition children_ok (C : Spans) (p : Z) (sp : Span) (l : pairs) : Prop :=
  ∀ i x b b', l !! i = Some x → limits sp l !! i = Some b → limits sp l !! S i = Some b' →
    C !! page_no_ x.2 = Some (mkSpan (pred (level sp)) b b' (Some p)).

Record inner_ok (C : Spans) (p : Z) (sp : Span) (l : pairs) : Prop := {
  in_some : l ≠ [];
  in_sorted : StronglySorted Z.lt (limits sp l);
  in_children : children_ok C p sp l
}.

Record leaf_ok (m : gmap Z Rid) (sp : Span) (l : pairs) : Prop := {
  lf_sorted : sorted l;
  lf_range : Forall (λ x, covers sp x.1) l;
  lf_map key : covers sp key → m !! key = pairs_map l !! key
}.

(** The neighbours of a node on its level; leaves are linked in a circle through the
    header page. *)
Record links_ok (G : Spans) (sp : Span) (n : BLNode) : Prop := {
  lk_right : if decide (hi sp = TOP) then right_sibling n = INVALID_PAGE_ID
             else ∃ sp', G !! right_sibling n = Some sp' ∧ level sp' = level sp ∧ lo sp' = hi sp;
  lk_next : level sp = 0%nat →
    next_leaf n = if decide (hi sp = TOP) then BL_LEAF_HEADER_PAGE_ID else right_sibling n;
  lk_prev : level sp = 0%nat →
    if decide (lo sp = 0) then prev_leaf n = BL_LEAF_HEADER_PAGE_ID
    else ∃ sp', G !! prev_leaf n = Some sp' ∧ level sp' = 0%nat ∧ hi sp' = lo sp
}.

Record node_ok (C G : Spans) (root : Z) (m : gmap Z Rid) (full : option Z) (p : Z) (sp : Span) (n : BLNode) (l : pairs)
    : Prop := {
  no_holds : node_holds n l;
  no_leaf : is_leaf n = (level sp =? 0)%nat;
  no_root : is_root n = bool_decide (p = root);
  no_range : 0 ≤ lo sp ∧ lo sp < hi sp ∧ hi sp ≤ TOP;
  no_high : has_high_key n = true → high_key n = hi sp;
  no_room : len l < order ∨ (len l = order ∧ full = Some p);
  no_links : links_ok G sp n;
  no_body : if level sp is 0%nat then leaf_ok m sp l else inner_ok C p sp l
}.

(** The parent of a page has it as a child. *)
Definition has_child (ns : gmap Z BLNode) (G : Spans) (q p : Z) : Prop :=
  ∃ sq n l x, G !! q = Some sq ∧ (0 < level sq)%nat ∧ ns !! q = Some n ∧ node_holds n l ∧ x ∈ l ∧ page_no_ x.2 = p.

Record tree_ok (C G : Spans) (m : gmap Z Rid) (full : option Z) (st : BLStore) : Prop := {
  to_node p sp : G !! p = Some sp →
    ∃ n l, nodes st !! p = Some n ∧ node_ok C G (root_page_id (head st)) m full p sp n l;
  to_page p : is_Some (G !! p) → 2 ≤ p;
  to_disjoint p q sp sq : G !! p = Some sp → G !! q = Some sq → level sp = level sq → p ≠ q →
    hi sp ≤ lo sq ∨ hi sq ≤ lo sp;
  to_up p sp q : C !! p = Some sp → up sp = Some q → has_child (nodes st) G q p;
  to_header : is_Some (nodes st !! BL_LEAF_HEADER_PAGE_ID);
  to_fresh p : is_Some (nodes st !! p) → 0 ≤ p < next_page st;
  to_keys key : is_Some (m !! key) → 0 ≤ key < TOP;
  to_first : ∃ sp, G !! first_leaf (head st) = Some sp ∧ level sp = 0%nat ∧ lo sp = 0
}.

(** The index between operations. *)
Record index_ok (G : Spans) (H : nat) (m : gmap Z Rid) (st : BLStore) : Prop := {
  ix_tree : tree_ok G G m None st;
  ix_root : G !! root_page_id (head st) = Some (mkSpan H 0 TOP None);
  ix_top p sp : G !! p = Some sp → p ≠ root_page_id (head st) → is_Some (up sp);
  ix_level p sp : G !! p = Some sp → (level sp ≤ H)%nat
}.

(** The cache of a handle leads to leaves. *)
Definition cache_ok (G : Spans) (h : BLHandle) : Prop :=
  ∀ key p, key2leaf h !! key = Some p → ∃ sp, G !! p = Some sp ∧ level sp = 0%nat.

(** ** Limits *)

Lemma limits_length sp l : l ≠ [] → length (limits sp l) = S (length l).
Proof.
  destruct l as [|x t]; [done|intros _]. unfold limits. cbn [tail length]. rewrite length_app, length_fmap. simpl. lia.
Qed.

Lemma limits_child sp l i x : l !! i = Some x →
  ∃ b b', limits sp l !! i = Some b ∧ limits sp l !! S i = Some b'.
Proof.
  intros Hi. assert (l ≠ []) as Hl by (by intros ->). apply lookup_lt_Some in Hi.
  destruct (lookup_lt_is_Some_2 (limits sp l) i) as [b Hb]; [rewrite limits_length by done; lia|].
  destruct (lookup_lt_is_Some_2 (limits sp l) (S i)) as [b' Hb']; [rewrite limits_length by done; lia|].
  by exists b, b'.
Qed.

Lemma Zlt_sorted_lookup (bs : list Z) i j a b :
  StronglySorted Z.lt bs → (i < j)%nat → bs !! i = Some a → bs !! j = Some b → a < b.
Proof.
  intros Hs Hij Ha Hb. rewrite <- (take_drop j bs) in Hs. eapply (StronglySorted_app_1_elem_of Z.lt); [exact Hs|..].
  - apply list_elem_of_lookup. exists i. by rewrite lookup_take_lt by lia.
  - apply list_elem_of_lookup. exists 0%nat. rewrite lookup_drop. by replace (j + 0)%nat with j by lia.
Qed.

Lemma limits_at_0 sp l : limits sp l !! 0%nat = Some (lo sp). Proof. done. Qed.


(** The limit before a child but the first is its key, that behind the last is the node's. *)
Lemma limits_key sp l i x : l !! S i = Some x → limits sp l !! S i = Some x.1.
Proof.
  destruct l as [|y t]; [done|]. intros Hx. change (t !! i = Some x) in Hx. change ((t.*1 ++ [hi sp]) !! i = Some x.1).
  rewrite lookup_app_l; [by rewrite list_lookup_fmap, Hx|]. rewrite length_fmap. by apply lookup_lt_Some in Hx.
Qed.

Lemma limits_last sp l : l ≠ [] → limits sp l !! length l = Some (hi sp).
Proof.
  destruct l as [|y t]; [done|intros _]. change ((t.*1 ++ [hi sp]) !! length t = Some (hi sp)).
  rewrite lookup_app_r by (rewrite length_fmap; lia). by rewrite length_fmap, Nat.sub_diag.
Qed.

Lemma limits_app sp l1 s r l2 : l1 ≠ [] →
  limits sp (l1 ++ (s, r) :: l2) = (lo sp :: (tail l1).*1) ++ s :: l2.*1 ++ [hi sp].
Proof.
  destruct l1 as [|x t]; [done|intros _]. unfold limits. cbn [app tail]. by rewrite fmap_app, <- app_assoc.
Qed.

Lemma limits_sorted sp x t : StronglySorted Z.lt (limits sp (x :: t)) → sorted t.
Proof.
  unfold limits. cbn [tail]. intros [_ Hs]%StronglySorted_cons. apply StronglySorted_app_1_l in Hs.
  induction t as [|y t IH]; [apply SSorted_nil|]. rewrite fmap_cons in Hs. apply StronglySorted_cons in Hs as [Hy Hs].
  apply StronglySorted_cons. split; [|by apply IH]. apply (proj1 (Forall_fmap fst (Z.lt y.1) t)) in Hy. exact Hy.
Qed.

(** A key between two limits. *)
Lemma limits_cover sp x t1 t2 key b b' :
  lo sp ≤ key < hi sp → Forall (λ p, p.1 ≤ key) t1 → Forall (λ p, key < p.1) t2 →
  limits sp (x :: t1 ++ t2) !! length t1 = Some b → limits sp (x :: t1 ++ t2) !! S (length t1) = Some b' →
  b ≤ key < b'.
Proof.
  intros Hk H1 H2 Hb Hb'. unfold limits in *. cbn [tail] in *. rewrite fmap_app, <- app_assoc in *.
  change ((t1.*1 ++ t2.*1 ++ [hi sp]) !! length t1 = Some b') in Hb'.
  rewrite lookup_app_r in Hb' by (rewrite length_fmap; lia). rewrite length_fmap, Nat.sub_diag in Hb'. split.
  - destruct t1 as [|y t1 _] using rev_ind.
    + injection Hb as <-. lia.
    + rewrite length_app, Nat.add_1_r in Hb. apply Forall_app in H1 as [_ H1]. apply Forall_cons_1 in H1 as [H1 _].
      change (((t1 ++ [y]).*1 ++ t2.*1 ++ [hi sp]) !! length t1 = Some b) in Hb.
      rewrite lookup_app_l in Hb by (rewrite length_fmap, length_app; simpl; lia).
      rewrite list_lookup_fmap, list_lookup_middle in Hb by done. by injection Hb as <-.
  - destruct t2 as [|y t2]; injection Hb' as <-; [lia|]. by apply Forall_cons_1 in H2 as [H2 _].
Qed.

(** The child of a pair determines its place. *)
Lemma child_index C p sp l i j x y :
  inner_ok C p sp l → l !! i = Some x → l !! j = Some y → page_no_ x.2 = page_no_ y.2 → i = j.
Proof.
  intros [_ Hs Hc] Hx Hy E. destruct (limits_child sp _ _ _ Hx) as (b & b' & Hb & Hb').
  destruct (limits_child sp _ _ _ Hy) as (c & c' & Hc' & Hc'').
  pose proof (Hc _ _ _ _ Hx Hb Hb') as E1. pose proof (Hc _ _ _ _ Hy Hc' Hc'') as E2. rewrite E in E1.
  assert (b = c) as -> by congruence. destruct (lt_eq_lt_dec i j) as [[Hlt|]|Hlt]; [|done|].
  - pose proof (Zlt_sorted_lookup _ _ _ _ _ Hs Hlt Hb Hc'). lia.
  - pose proof (Zlt_sorted_lookup _ _ _ _ _ Hs Hlt Hc' Hb). lia.
Qed.

(** ** Facts about a tree *)

Section tree.
Context (C G : Spans) (m : gmap Z Rid) (full : option Z) (st : BLStore).
Hypothesis T : tree_ok C G m full st.

Lemma span_nonempty p sp : G !! p = Some sp → 0 ≤ lo sp ∧ lo sp < hi sp ∧ hi sp ≤ TOP.
Proof using T. intros Hp. destruct (to_node _ _ _ _ _ T _ _ Hp) as (n & l & _ & Hn). apply Hn. Qed.

(** Keys determine the page of a level. *)
Lemma covering_unique p q sp sq key :
  G !! p = Some sp → G !! q = Some sq → level sp = level sq → covers sp key → covers sq key → p = q.
Proof using T.
  intros Hp Hq Hl [] []. destruct (decide (p = q)); [done|].
  destruct (to_disjoint _ _ _ _ _ T p q sp sq); try done; lia.
Qed.

Lemma same_lo_unique p q sp sq :
  G !! p = Some sp → G !! q = Some sq → level sp = level sq → lo sp = lo sq → p = q.
Proof using T.
  intros Hp Hq Hl He. pose proof (span_nonempty _ _ Hp). pose proof (span_nonempty _ _ Hq).
  eapply (covering_unique p q sp sq (lo sp)); unfold covers; try done; lia.
Qed.

Lemma same_hi_unique p q sp sq :
  G !! p = Some sp → G !! q = Some sq → level sp = level sq → hi sp = hi sq → p = q.
Proof using T.
  intros Hp Hq Hl He. pose proof (span_nonempty _ _ Hp). pose proof (span_nonempty _ _ Hq).
  eapply (covering_unique p q sp sq (hi sp - 1)); unfold covers; try done; lia.
Qed.
End tree.

(** The pages from a node up to the root. *)
Fixpoint path_ok (G : Spans) (root : Z) (trace : list Z) (p : Z) : Prop :=
  match trace with
  | [] => p = root
  | q :: trace => (∃ sp, G !! p = Some sp ∧ up sp = Some q) ∧ path_ok G root trace q
  end.
