(* ===== verification/BLinkSteps.v ===== *)
(** What the changes of nodes do to the shape of the index: a leaf gets other pairs,
    a node is split, the parent gets to know, the root is replaced. *)

From stdpp Require Import sorting.
From S2P Require Import Prelude Common Bytes Record BLinkNode BLinkTree BLinkInv.

Definition with_nodes (ns : gmap Z BLNode) (st : BLStore) : BLStore := mkStore ns (head st) (next_page st).

(** A node that does not change, seen with other spans and contents. *)
Lemma node_ok_frame C C' G G' root m m' full full' p sp n l :
  node_ok C G root m full p sp n l →
  (full = Some p → full' = Some p) →
  (links_ok G sp n → links_ok G' sp n) →
  (level sp = 0%nat → ∀ key, covers sp key → m' !! key = m !! key) →
  ((0 < level sp)%nat → children_ok C p sp l → children_ok C' p sp l) →
  node_ok C' G' root m' full' p sp n l.
Proof.
  intros [H1 H2 H3 H4 H5 H6 H7 H8] Hf Hl Hm Hc. split; try done.
  - destruct H6 as [|[? ?]]; [by left|right; auto].
  - by apply Hl.
  - destruct (level sp) eqn:E.
    + destruct H8 as [? ? Hk]. split; [done|done|]. intros key Hkey. rewrite Hm by done. by apply Hk.
    + destruct H8 as [? ? Hk]. split; [done|done|]. apply Hc; [lia|done].
Qed.

(** Another node with the same header and other pairs. *)
Lemma hdr_eq n n' : hdr n' = hdr n →
  prev_leaf n' = prev_leaf n ∧ next_leaf n' = next_leaf n ∧ right_sibling n' = right_sibling n ∧
  high_key n' = high_key n ∧ is_leaf n' = is_leaf n ∧ has_high_key n' = has_high_key n ∧ is_root n' = is_root n.
Proof. unfold hdr. intros. by simplify_eq. Qed.

Lemma hdr_fields n a b c d e f g : hdr n = (a, b, c, d, e, f, g) →
  prev_leaf n = a ∧ next_leaf n = b ∧ right_sibling n = c ∧ high_key n = d ∧ is_leaf n = e ∧ has_high_key n = f ∧
  is_root n = g.
Proof. unfold hdr. intros. by simplify_eq. Qed.

Lemma links_ok_hdr G sp n n' : hdr n' = hdr n → links_ok G sp n → links_ok G sp n'.
Proof. intros (E1 & E2 & E3 & _)%hdr_eq [H1 H2 H3]. split; by rewrite ?E1, ?E2, ?E3. Qed.

Lemma node_ok_pairs C C' G root m m' full full' p sp n n' l l' :
  node_ok C G root m full p sp n l → hdr n' = hdr n → node_holds n' l' →
  len l' < order ∨ (len l' = order ∧ full' = Some p) →
  (if level sp is 0%nat then leaf_ok m' sp l' else inner_ok C' p sp l') →
  node_ok C' G root m' full' p sp n' l'.
Proof.
  intros [H1 H2 H3 H4 H5 H6 H7 H8] Hh Hn Hr Hb. pose proof (hdr_eq _ _ Hh) as (E1 & E2 & E3 & E4 & E5 & E6 & E7).
  split; try done.
  - by rewrite E5.
  - by rewrite E7.
  - by rewrite E6, E4.
  - by eapply links_ok_hdr.
Qed.

Lemma has_child_frame ns ns' C C' q p :
  has_child ns C q p →
  (∀ sq n l, C !! q = Some sq → (0 < level sq)%nat → ns !! q = Some n → node_holds n l →
     (∃ x, x ∈ l ∧ page_no_ x.2 = p) →
     ∃ sq' n' l', C' !! q = Some sq' ∧ (0 < level sq')%nat ∧ ns' !! q = Some n' ∧ node_holds n' l' ∧
       ∃ x, x ∈ l' ∧ page_no_ x.2 = p) →
  has_child ns' C' q p.
Proof.
  intros (sq & n & l & x & H1 & H2 & H3 & H4 & H5 & H6) Hf.
  destruct (Hf sq n l) as (sq' & n' & l' & ? & ? & ? & ? & y & ? & ?); try done; [by exists x|].
  by exists sq', n', l', y.
Qed.

(** ** A leaf *)

Lemma tree_leaf G m m' full full' st p sp n l n' l' :
  tree_ok G G m full st → G !! p = Some sp → level sp = 0%nat → nodes st !! p = Some n →
  node_ok G G (root_page_id (head st)) m full p sp n l → hdr n' = hdr n → node_holds n' l' →
  len l' < order ∨ (len l' = order ∧ full' = Some p) → (∀ q, full = Some q → q = p) →
  leaf_ok m' sp l' → (∀ key, ¬ covers sp key → m' !! key = m !! key) →
  tree_ok G G m' full' (with_nodes (<[p := n']> (nodes st)) st).
Proof.
  intros T Hp Hlev Hn Hok Hh Hn' Hroom Hfull Hleaf Hm. split; cbn [nodes head next_page with_nodes].
  - intros q sq Hq. destruct (decide (p = q)) as [<-|Hne].
    + rewrite Hp in Hq. injection Hq as <-. exists n', l'. split; [apply lookup_insert_eq|].
      eapply node_ok_pairs; try done. by rewrite Hlev.
    + destruct (to_node _ _ _ _ _ T _ _ Hq) as (nq & lq & Hnq & Hokq). exists nq, lq.
      rewrite lookup_insert_ne by done. split; [done|]. eapply node_ok_frame; try done.
      * intros ->. by destruct Hne; symmetry; apply Hfull.
      * intros Hl0 key Hkey. apply Hm. intros Hc. apply Hne. eapply (covering_unique G G m full st T p q); try done. congruence.
  - apply T.
  - apply T.
  - intros q sq r Hq Hr. eapply has_child_frame; [by eapply (to_up _ _ _ _ _ T)|].
    intros sr nr lr Hsr Hlr Hnr Hlr' Hx. exists sr, nr, lr. rewrite lookup_insert_ne; [done|].
    intros <-. rewrite Hp in Hsr. injection Hsr as <-. lia.
  - destruct (to_header _ _ _ _ _ T) as [h Hh0]. rewrite lookup_insert_ne; [by eexists|].
    pose proof (to_page _ _ _ _ _ T p (ex_intro _ _ Hp)). unfold BL_LEAF_HEADER_PAGE_ID. lia.
  - intros q Hq. apply (to_fresh _ _ _ _ _ T). rewrite lookup_insert_is_Some' in Hq. destruct Hq as [<-|?]; [by eexists|done].
  - intros key Hk. destruct (decide (covers sp key)) as [Hc|Hc].
    + destruct (no_range _ _ _ _ _ _ _ _ _ Hok). unfold covers in Hc. lia.
    + rewrite Hm in Hk by done. by apply (to_keys _ _ _ _ _ T).
  - apply T.
Qed.

(** The parent of a page is no matter of its node. *)
Lemma node_ok_up C G root m full p sp sp' n l :
  level sp' = level sp → lo sp' = lo sp → hi sp' = hi sp →
  node_ok C G root m full p sp n l → node_ok C G root m full p sp' n l.
Proof.
  destruct sp as [lv a b u], sp' as [lv' a' b' u']. cbn [level lo hi]. intros -> -> ->.
  intros [H1 H2 H3 H4 H5 H6 [L1 L2 L3] H8]. split; try done.
  cbn [level] in *. destruct lv; destruct H8; by split.
Qed.

Lemma node_ok_prev C G G' root m full p sp n l (b : bool) x :
  node_ok C G root m full p sp n l → links_ok G' sp (if b then set_prev_leaf x n else n) →
  node_ok C G' root m full p sp (if b then set_prev_leaf x n else n) l.
Proof. intros [H1 H2 H3 H4 H5 H6 H7 H8] Hl. destruct b; split; try done. by destruct H1. Qed.

(** ** Splitting a node *)

Definition kids (l : pairs) : list Z := (λ x, page_no_ x.2) <$> l.

(** The children of [l] get the parent [q]. *)
Definition reparent (q : Z) (l : pairs) (G : Spans) : Spans :=
  map_imap (λ p sp, Some (if bool_decide (p ∈ kids l) then mkSpan (level sp) (lo sp) (hi sp) (Some q) else sp)) G.

Lemma reparent_lookup q l G p :
  reparent q l G !! p =
    (λ sp, if bool_decide (p ∈ kids l) then mkSpan (level sp) (lo sp) (hi sp) (Some q) else sp) <$> G !! p.
Proof. unfold reparent. rewrite map_lookup_imap. by destruct (G !! p). Qed.

(** What the parents see after a split, and what is so. *)
Definition seen (leaf : bool) (q : Z) (l : pairs) (G : Spans) : Spans := if leaf then G else reparent q l G.

Definition halves (C : Spans) (p q : Z) (sp : Span) (s : Z) : Spans :=
  <[p := mkSpan (level sp) (lo sp) s (up sp)]> (<[q := mkSpan (level sp) s (hi sp) (up sp)]> C).

Section split.
Context (G : Spans) (m : gmap Z Rid) (full : option Z) (st : BLStore) (p : Z) (sp : Span) (n : BLNode).
Context (l1 : pairs) (s : Z) (r : Rid) (l2 : pairs).
Context (q : Z) (nl nr : BLNode) (ns : gmap Z BLNode).

Abbreviation l := (l1 ++ (s, r) :: l2).
Abbreviation root := (root_page_id (head st)).

Hypothesis T : tree_ok G G m full st.
Hypothesis Hfull : ∀ x, full = Some x → x = p.
Hypothesis Hp : G !! p = Some sp.
Hypothesis Hn : nodes st !! p = Some n.
Hypothesis Hok : node_ok G G root m full p sp n l.
Hypothesis Hl1 : l1 ≠ [].
Hypothesis Hroom1 : len l1 < order.
Hypothesis Hroom2 : len ((s, r) :: l2) < order.
Hypothesis Hq : q = next_page st.

Let leaf : bool := is_leaf n.
Let right_pairs : pairs := (if leaf then s else NEG_KEY, r) :: l2.
Hypothesis Hroot : is_Some (G !! root).
Hypothesis Hnl : node_holds nl l1.
Hypothesis Hnl' : hdr nl = (prev_leaf n, if leaf then q else next_leaf n, q, s, leaf, true, is_root n).
Hypothesis Hnr : node_holds nr right_pairs.
Hypothesis Hnr' : hdr nr = (if leaf then p else INVALID_PAGE_ID, if leaf then next_leaf n else INVALID_PAGE_ID,
  right_sibling n, NEG_KEY, leaf, false, false).
Hypothesis Hns : ∀ x, ns !! x =
  if decide (x = p) then Some nl else if decide (x = q) then Some nr
  else if leaf && (x =? next_leaf n) then set_prev_leaf q <$> nodes st !! x else nodes st !! x.

Let C' : Spans := seen leaf q ((s, r) :: l2) G.
Let G' : Spans := halves C' p q sp s.

Lemma split_leaf_level : leaf = (level sp =? 0)%nat.
Proof using All. apply Hok. Qed.

Lemma split_fresh : nodes st !! q = None.
Proof using All.
  apply eq_None_not_Some. intros Hs%(to_fresh _ _ _ _ _ T). lia.
Qed.

Lemma split_fresh_span : G !! q = None.
Proof using All.
  apply eq_None_not_Some. intros [sq Hsq]. destruct (to_node _ _ _ _ _ T _ _ Hsq) as (? & ? & Hx & _).
  by rewrite split_fresh in Hx.
Qed.

Lemma split_new : q ≠ p ∧ 2 ≤ q.
Proof using All.
  pose proof (to_fresh _ _ _ _ _ T p (ex_intro _ _ Hn)). pose proof (to_page _ _ _ _ _ T p (ex_intro _ _ Hp)). lia.
Qed.

Lemma split_range : lo sp < s < hi sp.
Proof using All.
  pose proof (no_body _ _ _ _ _ _ _ _ _ Hok) as Hb. assert (∃ x t, l1 = x :: t) as (x & t & E).
  { revert Hl1. clear. destruct l1 as [|x t]; [by intros []|]. intros _. by exists x, t. }
  rewrite E in Hb. destruct (level sp).
  - destruct Hb as [Hs Hr _]. apply Forall_app in Hr as [Hr1 Hr2].
    apply Forall_cons_1 in Hr2 as [[? ?] _]. apply Forall_cons_1 in Hr1 as [[? ?] _]. simpl in *.
    apply (sorted_around (x :: t)) in Hs as [Hs _]. apply Forall_cons_1 in Hs as [Hs _]. simpl in Hs. lia.
  - destruct Hb as [_ Hs _].
    assert (limits sp ((x :: t) ++ (s, r) :: l2) !! S (length t) = Some s) as Hi.
    { apply (limits_key _ _ _ (s, r)). by apply (list_lookup_middle (x :: t)). }
    split.
    + apply (Zlt_sorted_lookup _ 0 (S (length t)) _ _ Hs); [lia|done|exact Hi].
    + apply (Zlt_sorted_lookup _ (S (length t)) (length ((x :: t) ++ (s, r) :: l2)) _ _ Hs); [|exact Hi|by apply limits_last].
      rewrite length_app. simpl. lia.
Qed.

Lemma halves_p : G' !! p = Some (mkSpan (level sp) (lo sp) s (up sp)).
Proof using All. unfold G', halves. apply lookup_insert_eq. Qed.

Lemma halves_q : G' !! q = Some (mkSpan (level sp) s (hi sp) (up sp)).
Proof using All. unfold G', halves. rewrite lookup_insert_ne by (symmetry; apply split_new). apply lookup_insert_eq. Qed.

Lemma halves_other x : x ≠ p → x ≠ q → G' !! x = C' !! x.
Proof using All. intros H1 H2. unfold G', halves. by rewrite !lookup_insert_ne. Qed.

(** A child of the right half that the left half or another node has as well: there is none. *)
Lemma seen_leaf : level sp = 0%nat → C' = G.
Proof using All. intros Hl. unfold C', seen. by rewrite split_leaf_level, Hl. Qed.

Lemma seen_lookup x : C' !! x =
  (λ sx, if negb leaf && bool_decide (x ∈ kids ((s, r) :: l2)) then mkSpan (level sx) (lo sx) (hi sx) (Some q) else sx) <$> G !! x.
Proof using All.
  unfold C', seen. destruct leaf; [by destruct (G !! x)|]. rewrite reparent_lookup. done.
Qed.

Lemma seen_span x sx : G !! x = Some sx →
  ∃ sx', C' !! x = Some sx' ∧ level sx' = level sx ∧ lo sx' = lo sx ∧ hi sx' = hi sx.
Proof using All.
  intros Hx. rewrite seen_lookup, Hx. eexists. split; [done|]. by destruct (negb leaf && _).
Qed.

Lemma seen_back x sx : C' !! x = Some sx →
  ∃ sx', G !! x = Some sx' ∧ level sx = level sx' ∧ lo sx = lo sx' ∧ hi sx = hi sx'.
Proof using All.
  rewrite seen_lookup. destruct (G !! x) as [sx'|]; [|done]. intros [= <-]. exists sx'. split; [done|].
  by destruct (negb leaf && _).
Qed.

Lemma halves_span x sx : G !! x = Some sx →
  ∃ sx', G' !! x = Some sx' ∧ level sx' = level sx ∧ lo sx' = lo sx ∧ (x ≠ p → hi sx' = hi sx).
Proof using All.
  intros Hx. destruct (decide (x = p)) as [->|Hne].
  - rewrite Hp in Hx. injection Hx as <-. eexists. split; [apply halves_p|done].
  - rewrite halves_other; [|done|intros ->; by rewrite split_fresh_span in Hx].
    destruct (seen_span _ _ Hx) as (sx' & ? & ? & ? & ?). by exists sx'.
Qed.

Lemma halves_back x sx : G' !! x = Some sx → x ≠ q →
  ∃ sx', G !! x = Some sx' ∧ level sx = level sx' ∧ lo sx = lo sx' ∧ (x ≠ p → hi sx = hi sx').
Proof using All.
  intros Hx Hxq. destruct (decide (x = p)) as [->|Hne].
  - rewrite halves_p in Hx. injection Hx as <-. by exists sp.
  - rewrite halves_other in Hx by done. destruct (seen_back _ _ Hx) as (sx' & ? & ? & ? & ?). by exists sx'.
Qed.

(** ** The halves *)

Lemma split_prev x sx : level sp = 0%nat → G !! x = Some sx → hi sx = lo sp → level sx = 0%nat →
  ∃ sx', G' !! x = Some sx' ∧ level sx' = 0%nat ∧ hi sx' = lo sp.
Proof using All.
  intros Hl Hx Hh Hlx. destruct (halves_span _ _ Hx) as (sx' & Hx' & Hlv & _ & Hhi). exists sx'. split; [done|].
  split; [congruence|]. rewrite Hhi; [done|]. intros ->. rewrite Hp in Hx. injection Hx as <-.
  destruct (no_range _ _ _ _ _ _ _ _ _ Hok). lia.
Qed.

Lemma split_left_links : links_ok G' (mkSpan (level sp) (lo sp) s (up sp)) nl.
Proof using All.
  pose proof split_range as Hs. pose proof (no_range _ _ _ _ _ _ _ _ _ Hok) as Hr.
  pose proof (no_links _ _ _ _ _ _ _ _ _ Hok) as [_ _ Hprev]. pose proof split_leaf_level as Hleaf.
  destruct (hdr_fields _ _ _ _ _ _ _ _ Hnl') as (E1 & E2 & E3 & _).
  split; cbn [hi lo level]; rewrite ?decide_False by lia.
  - eexists. rewrite E3. split; [apply halves_q|done].
  - intros Hl. by rewrite E2, E3, Hleaf, Hl.
  - intros Hl. rewrite E1. specialize (Hprev Hl). destruct (decide (lo sp = 0)); [done|].
    destruct Hprev as (sx & Hx & Hlx & Hh). by eapply split_prev.
Qed.

Lemma split_right_links : links_ok G' (mkSpan (level sp) s (hi sp) (up sp)) nr.
Proof using All.
  pose proof split_range as Hs. pose proof (no_range _ _ _ _ _ _ _ _ _ Hok) as Hr.
  pose proof (no_links _ _ _ _ _ _ _ _ _ Hok) as [Hright Hnext _]. pose proof split_leaf_level as Hleaf.
  destruct (hdr_fields _ _ _ _ _ _ _ _ Hnr') as (E1 & E2 & E3 & _).
  split; cbn [hi lo level]; rewrite ?E3.
  - destruct (decide (hi sp = TOP)); [done|]. destruct Hright as (sx & Hx & Hlx & Hlo).
    destruct (halves_span _ _ Hx) as (sx' & Hx' & Hlv & Hlo' & _). exists sx'. split; [done|]. by rewrite Hlv, Hlo'.
  - intros Hl. rewrite E2, Hleaf, Hl. simpl. by rewrite Hnext by done.
  - intros Hl. rewrite decide_False by lia. rewrite E1, Hleaf, Hl. simpl. eexists. split; [apply halves_p|done].
Qed.

(** The pairs of the halves. *)
Lemma split_left_body :
  if level sp is 0%nat then leaf_ok m (mkSpan (level sp) (lo sp) s (up sp)) l1
  else inner_ok C' p (mkSpan (level sp) (lo sp) s (up sp)) l1.
Proof using All.
  pose proof (no_body _ _ _ _ _ _ _ _ _ Hok) as Hb. destruct (level sp) eqn:El.
  - destruct Hb as [Hs Hr Hm]. pose proof split_range as Hrange.
    pose proof (sorted_around _ _ _ Hs) as [Hlt Hgt]. simpl in Hlt, Hgt. split.
    + by apply StronglySorted_app_1_l in Hs.
    + apply Forall_app in Hr as [Hr _]. apply Forall_forall. intros x Hx. rewrite Forall_forall in Hr, Hlt.
      specialize (Hr _ Hx). specialize (Hlt _ Hx). unfold covers in *. simpl in *. lia.
    + intros key [H1 H2]. cbn [lo hi] in *. rewrite Hm by (unfold covers; lia).
      rewrite pairs_map_app. destruct (pairs_map l1 !! key); [done|]. apply pairs_map_above. constructor; [simpl; lia|].
      eapply Forall_impl; [exact Hgt|]. simpl. lia.
  - pose proof Hb as [_ Hs Hc]. rewrite limits_app in Hs by done. split; [done|..].
    + change (s :: l2.*1 ++ [hi sp]) with ([s] ++ l2.*1 ++ [hi sp]) in Hs. rewrite app_assoc in Hs.
      by apply StronglySorted_app_1_l in Hs.
    + intros i x b b' Hx Hlb Hlb'. cbn [level].
      assert (l !! i = Some x) as Hxl by (by apply lookup_app_l_Some).
      assert (∀ j y, limits (mkSpan (S n0) (lo sp) s (up sp)) l1 !! j = Some y → limits sp l !! j = Some y) as Hlim.
      { intros j y Hj. rewrite limits_app by done. change (s :: l2.*1 ++ [hi sp]) with ([s] ++ l2.*1 ++ [hi sp]).
        rewrite app_assoc. by apply lookup_app_l_Some. }
      specialize (Hc _ _ _ _ Hxl (Hlim _ _ Hlb) (Hlim _ _ Hlb')). rewrite El in Hc.
      rewrite seen_lookup, Hc. cbn [fmap option_fmap option_map]. rewrite bool_decide_false; [by rewrite andb_false_r|].
      unfold kids. intros (y & Ey & Hy)%list_elem_of_fmap. apply list_elem_of_lookup in Hy as [j Hj].
      assert (l !! (length l1 + j)%nat = Some y) as Hyl by (rewrite lookup_app_r by lia; by replace (length l1 + j - length l1)%nat with j by lia).
      pose proof (child_index _ _ _ _ _ _ _ _ Hb Hxl Hyl Ey). apply lookup_lt_Some in Hx. lia.
Qed.

Lemma split_right_body :
  if level sp is 0%nat then leaf_ok m (mkSpan (level sp) s (hi sp) (up sp)) right_pairs
  else inner_ok C' q (mkSpan (level sp) s (hi sp) (up sp)) right_pairs.
Proof using All.
  pose proof (no_body _ _ _ _ _ _ _ _ _ Hok) as Hb. pose proof split_leaf_level as Hleaf. unfold right_pairs.
  rewrite Hleaf. destruct (level sp) eqn:El; cbn [Nat.eqb].
  - destruct Hb as [Hs Hr Hm]. pose proof split_range as Hrange.
    pose proof (sorted_around _ _ _ Hs) as [Hlt Hgt]. simpl in Hlt, Hgt. split.
    + by apply StronglySorted_app_1_r in Hs.
    + apply Forall_app in Hr as [_ Hr]. constructor; [unfold covers; simpl; lia|]. apply Forall_cons_1 in Hr as [_ Hr].
      apply Forall_forall. intros x Hx. rewrite Forall_forall in Hr, Hgt.
      specialize (Hr _ Hx). specialize (Hgt _ Hx). unfold covers in *. simpl in *. lia.
    + intros key [H1 H2]. cbn [lo hi] in *. rewrite Hm by (unfold covers; lia).
      rewrite pairs_map_app. rewrite (pairs_map_below key l1); [done|].
      eapply Forall_impl; [exact Hlt|]. simpl. lia.
  - pose proof Hb as [_ Hs Hc]. rewrite limits_app in Hs by done. split; [done|..].
    + by apply StronglySorted_app_1_r in Hs.
    + intros i x b b' Hx Hlb Hlb'. cbn [level].
      assert (∃ y, l !! (length l1 + i)%nat = Some y ∧ y.2 = x.2 ∧ y ∈ (s, r) :: l2) as (y & Hyl & <- & Hy).
      { rewrite lookup_app_r by lia. replace (length l1 + i - length l1)%nat with i by lia. destruct i as [|i].
        - injection Hx as <-. exists (s, r). split; [done|]. split; [done|by left].
        - exists x. split; [done|]. split; [done|]. right. change (l2 !! i = Some x) in Hx. by apply list_elem_of_lookup_2 in Hx. }
      assert (∀ j z, limits (mkSpan (S n0) s (hi sp) (up sp)) ((NEG_KEY, r) :: l2) !! j = Some z →
                limits sp l !! (length l1 + j)%nat = Some z) as Hlim.
      { intros j z Hj. rewrite limits_app by done.
        assert (length l1 = length (lo sp :: (tail l1).*1)) as ->.
        { simpl. rewrite length_fmap. clear -Hl1. destruct l1; [by destruct Hl1|done]. }
        rewrite lookup_app_r by lia. replace (_ + j - _)%nat with j by lia. exact Hj. }
      apply Hlim in Hlb. apply Hlim in Hlb'. rewrite Nat.add_succ_r in Hlb'.
      specialize (Hc _ _ _ _ Hyl Hlb Hlb'). rewrite El in Hc. rewrite seen_lookup, Hc. cbn [fmap option_fmap option_map].
      rewrite Hleaf, bool_decide_true; [done|]. unfold kids. apply list_elem_of_fmap. by exists y.
Qed.

Lemma split_left_ok : node_ok C' G' root m None p (mkSpan (level sp) (lo sp) s (up sp)) nl l1.
Proof using All.
  pose proof split_range. pose proof (no_range _ _ _ _ _ _ _ _ _ Hok).
  destruct (hdr_fields _ _ _ _ _ _ _ _ Hnl') as (_ & _ & _ & E4 & E5 & E6 & E7).
  split; cbn [level lo hi].
  - done.
  - by rewrite E5, split_leaf_level.
  - rewrite E7. apply Hok.
  - lia.
  - done.
  - by left.
  - apply split_left_links.
  - apply split_left_body.
Qed.

(** The new node is not the root's page: this stays, or the root moves up. *)
Lemma split_right_ok : node_ok C' G' root m None q (mkSpan (level sp) s (hi sp) (up sp)) nr right_pairs.
Proof using All.
  pose proof split_range. pose proof (no_range _ _ _ _ _ _ _ _ _ Hok).
  destruct (hdr_fields _ _ _ _ _ _ _ _ Hnr') as (_ & _ & _ & E4 & E5 & E6 & E7).
  split; cbn [level lo hi].
  - done.
  - by rewrite E5, split_leaf_level.
  - rewrite E7, bool_decide_false; [done|]. intros Hr. destruct Hroot as [sr Hsr]. by rewrite <- Hr, split_fresh_span in Hsr.
  - lia.
  - by rewrite E6.
  - by left.
  - apply split_right_links.
  - apply split_right_body.
Qed.

(** ** The other nodes *)

Lemma split_node_at x : x ≠ p → x ≠ q →
  ns !! x = (λ nx, if leaf && (x =? next_leaf n) then set_prev_leaf q nx else nx) <$> nodes st !! x.
Proof using All.
  intros H1 H2. rewrite Hns, !decide_False by done. destruct (leaf && (x =? next_leaf n)); [done|].
  by destruct (nodes st !! x).
Qed.

Lemma split_links x sx nx : x ≠ p → G !! x = Some sx → links_ok G sx nx →
  links_ok G' sx (if leaf && (x =? next_leaf n) then set_prev_leaf q nx else nx).
Proof using All.
  intros Hxp Hx [Hright Hnext Hprev]. pose proof split_leaf_level as Hleaf.
  pose proof (no_links _ _ _ _ _ _ _ _ _ Hok) as [Hpr Hpn _]. pose proof (no_range _ _ _ _ _ _ _ _ _ Hok) as Hr.
  assert (∀ b : bool, right_sibling (if b then set_prev_leaf q nx else nx) = right_sibling nx ∧
            next_leaf (if b then set_prev_leaf q nx else nx) = next_leaf nx) as Hsame by (by intros []).
  split.
  - rewrite (proj1 (Hsame _)). destruct (decide (hi sx = TOP)); [done|]. destruct Hright as (sy & Hy & Hly & Hlo).
    destruct (halves_span _ _ Hy) as (sy' & Hy' & Hlv & Hlo' & _). exists sy'. split; [done|]. by rewrite Hlv, Hlo'.
  - rewrite (proj1 (Hsame _)), (proj2 (Hsame _)). done.
  - intros Hlx. specialize (Hprev Hlx). destruct (leaf && (x =? next_leaf n)) eqn:E; bool_simpl.
    + rewrite Hleaf in H. apply Nat.eqb_eq in H. specialize (Hpn H). subst x.
      destruct (decide (hi sp = TOP)) as [Ht|Ht].
      { exfalso. pose proof (to_page _ _ _ _ _ T _ (ex_intro _ _ Hx)). unfold BL_LEAF_HEADER_PAGE_ID in *. lia. }
      destruct Hpr as (sy & Hy & Hly & Hlo). rewrite <- Hpn, Hx in Hy. injection Hy as <-.
      rewrite decide_False by lia. cbn [prev_leaf set_prev_leaf]. eexists. split; [apply halves_q|]. done.
    + destruct (decide (lo sx = 0)); [done|]. destruct Hprev as (sy & Hy & Hly & Hhi).
      destruct (halves_span _ _ Hy) as (sy' & Hy' & Hlv & _ & Hhi'). exists sy'. split; [done|]. split; [congruence|].
      rewrite Hhi'; [done|]. intros Ep. rewrite Ep, Hp in Hy. injection Hy as <-.
      rewrite Hleaf, Hly in E. simpl in E. specialize (Hpn Hly). pose proof (span_nonempty _ _ _ _ _ T _ _ Hx) as Hne.
      rewrite decide_False in Hpn by lia. rewrite decide_False in Hpr by lia. destruct Hpr as (sz & Hz & Hlz & Hlo).
      apply Z.eqb_neq in E. apply E. rewrite Hpn. apply (same_lo_unique G G m full st T _ _ sx sz); try done; congruence.
Qed.

Lemma split_other_ok x sx : x ≠ p → x ≠ q → G' !! x = Some sx →
  ∃ nx lx, ns !! x = Some nx ∧ node_ok C' G' root m None x sx nx lx.
Proof using All.
  intros Hxp Hxq Hx. rewrite halves_other in Hx by done. destruct (seen_back _ _ Hx) as (sy & Hy & E1 & E2 & E3).
  destruct (to_node _ _ _ _ _ T _ _ Hy) as (nx & lx & Hnx & Hokx).
  exists (if leaf && (x =? next_leaf n) then set_prev_leaf q nx else nx), lx.
  split; [by rewrite split_node_at, Hnx|]. apply (node_ok_up _ _ _ _ _ _ sy); [done..|].
  eapply node_ok_prev; [|apply (split_links x sy nx); [done|done|apply Hokx]].
  eapply node_ok_frame; [exact Hokx|by intros ?%Hfull|done|done|].
  intros Hlv Hc i y b b' Hly Hb Hb'. specialize (Hc _ _ _ _ Hly Hb Hb'). rewrite seen_lookup, Hc.
  cbn [fmap option_fmap option_map level lo hi]. destruct (negb leaf && _) eqn:E; [|done]. exfalso.
  apply andb_true_iff in E as [El (z & Ez & Hz)%bool_decide_eq_true%list_elem_of_fmap].
  rewrite split_leaf_level in El. pose proof (no_body _ _ _ _ _ _ _ _ _ Hok) as Hbody.
  destruct (level sp) eqn:Elv; [done|]. destruct Hbody as [_ _ Hcp].
  assert (z ∈ l) as Hzl by (apply elem_of_app; by right). apply list_elem_of_lookup in Hzl as [j Hj].
  destruct (limits_child sp _ _ _ Hj) as (c & c' & Hc1 & Hc2). specialize (Hcp _ _ _ _ Hj Hc1 Hc2).
  rewrite <- Ez, Hc in Hcp. injection Hcp as _ _ _ E. by apply Hxp.
Qed.

Lemma split_to_up x sx y : C' !! x = Some sx → up sx = Some y → has_child ns G' y x.
Proof using All.
  intros Hx Hup. rewrite seen_lookup in Hx. destruct (G !! x) as [sx'|] eqn:Hgx; [|done].
  pose proof split_leaf_level as Hleaf. cbn [fmap option_fmap option_map] in Hx.
  destruct (negb leaf && bool_decide (x ∈ kids ((s, r) :: l2))) eqn:E; injection Hx as <-.
  - cbn [up] in Hup. injection Hup as <-. apply andb_true_iff in E as [El Hk]. apply bool_decide_eq_true in Hk.
    assert (∃ z, z ∈ right_pairs ∧ page_no_ z.2 = x) as (z & Hz & Ez).
    { unfold kids in Hk. apply list_elem_of_fmap in Hk as (z & Ez & Hz). apply elem_of_cons in Hz as [->|Hz].
      - eexists. split; [by left|done].
      - exists z. split; [by right|done]. }
    eexists _, nr, right_pairs, z. split; [apply halves_q|]. cbn [level].
    split; [rewrite Hleaf in El; destruct (level sp); [done|lia]|].
    split; [by rewrite Hns, decide_False, decide_True by (done || apply split_new)|done].
  - destruct (to_up _ _ _ _ _ T _ _ _ Hgx Hup) as (sy & ny & ly & z & Hy & Hlv & Hny & Hly & Hz & Ez).
    destruct (halves_span _ _ Hy) as (sy' & Hy' & Hlv' & _). destruct (decide (y = p)) as [->|Hyp].
    + rewrite Hp in Hy. injection Hy as <-. rewrite Hn in Hny. injection Hny as <-.
      assert (ly = l) as -> by (eapply node_holds_unique; [done|apply Hok]).
      exists sy', nl, l1, z. split; [done|]. split; [lia|]. split; [by rewrite Hns, decide_True|]. split; [done|].
      split; [|done]. apply elem_of_app in Hz as [|Hz]; [done|]. exfalso.
      rewrite Hleaf in E. destruct (level sp); [lia|]. cbn [Nat.eqb negb andb] in E. apply bool_decide_eq_false in E. apply E.
      unfold kids. apply list_elem_of_fmap. by exists z.
    + assert (y ≠ q) as Hyq by (intros ->; by rewrite split_fresh_span in Hy).
      exists sy', ny, ly, z. split; [done|]. split; [lia|]. split; [|done]. rewrite split_node_at, Hny by done. simpl.
      destruct (leaf && (y =? next_leaf n)) eqn:El; [|done]. exfalso. apply andb_true_iff in El as [El Ey].
      apply Z.eqb_eq in Ey. rewrite Hleaf in El. apply Nat.eqb_eq in El.
      destruct (to_node _ _ _ _ _ T _ _ Hy) as (ny' & ly' & Hny' & Hoky). 
      pose proof (no_links _ _ _ _ _ _ _ _ _ Hok) as [Hpr Hpn _]. specialize (Hpn El). rewrite <- Ey in Hpn.
      destruct (decide (hi sp = TOP)) as [Ht|Ht].
      * pose proof (to_page _ _ _ _ _ T _ (ex_intro _ _ Hy)). unfold BL_LEAF_HEADER_PAGE_ID in *. lia.
      * destruct Hpr as (sz & Hz' & Hlz & _). rewrite <- Hpn, Hy in Hz'. injection Hz' as ->. lia.
Qed.

Lemma split_disjoint x y sx sy : G' !! x = Some sx → G' !! y = Some sy → level sx = level sy → x ≠ y →
  hi sx ≤ lo sy ∨ hi sy ≤ lo sx.
Proof using All.
  intros Hx Hy Hl Hne. pose proof split_range as Hr.
  assert (∀ z sz, G' !! z = Some sz → level sz = level sp → z ≠ p → z ≠ q → hi sz ≤ lo sp ∨ hi sp ≤ lo sz) as Hother.
  { intros z sz Hz Hlz Hzp Hzq. destruct (halves_back _ _ Hz Hzq) as (sz' & Hz' & E1 & E2 & E3).
    destruct (to_disjoint _ _ _ _ _ T z p sz' sp Hz' Hp); [congruence|done|..]; rewrite ?E2, ?E3 by done; auto. }
  destruct (decide (x = p)) as [->|Hxp]; [|destruct (decide (x = q)) as [->|Hxq]].
  - rewrite halves_p in Hx. injection Hx as <-. cbn [level lo hi] in *. destruct (decide (y = q)) as [->|Hyq].
    + rewrite halves_q in Hy. injection Hy as <-. cbn [lo]. lia.
    + destruct (Hother y sy); try done; try congruence; lia.
  - rewrite halves_q in Hx. injection Hx as <-. cbn [level lo hi] in *. destruct (decide (y = p)) as [->|Hyp].
    + rewrite halves_p in Hy. injection Hy as <-. cbn [hi]. lia.
    + destruct (Hother y sy); try done; try congruence; lia.
  - destruct (decide (y = p)) as [->|Hyp]; [|destruct (decide (y = q)) as [->|Hyq]].
    + rewrite halves_p in Hy. injection Hy as <-. cbn [level lo hi] in *. destruct (Hother x sx); try done; lia.
    + rewrite halves_q in Hy. injection Hy as <-. cbn [level lo hi] in *. destruct (Hother x sx); try done; lia.
    + destruct (halves_back _ _ Hx Hxq) as (sx' & Hx' & E1 & E2 & E3).
      destruct (halves_back _ _ Hy Hyq) as (sy' & Hy' & F1 & F2 & F3).
      rewrite E2, E3, F2, F3 by done. apply (to_disjoint _ _ _ _ _ T x y); try done; congruence.
Qed.

Lemma tree_split : tree_ok C' G' m None (mkStore ns (head st) (q + 1)).
Proof using All.
  assert (∀ x, is_Some (ns !! x) ↔ x = q ∨ is_Some (nodes st !! x)) as Hdom.
  { intros x. rewrite Hns. destruct (decide (x = p)) as [->|]; [split; [intros _; right; by eexists|by eexists]|].
    destruct (decide (x = q)) as [->|]; [split; [by left|by eexists]|].
    destruct (leaf && (x =? next_leaf n)); rewrite ?fmap_is_Some; naive_solver. }
  split; cbn [nodes head next_page].
  - intros x sx Hx. destruct (decide (x = p)) as [->|Hxp]; [|destruct (decide (x = q)) as [->|Hxq]].
    + rewrite halves_p in Hx. injection Hx as <-. exists nl, l1. split; [by rewrite Hns, decide_True|apply split_left_ok].
    + rewrite halves_q in Hx. injection Hx as <-. exists nr, right_pairs.
      split; [by rewrite Hns, decide_False, decide_True|apply split_right_ok].
    + by apply split_other_ok.
  - intros x [sx Hx]. destruct (decide (x = q)) as [->|Hxq]; [apply split_new|].
    destruct (halves_back _ _ Hx Hxq) as (sx' & Hx' & _). apply (to_page _ _ _ _ _ T). by eexists.
  - apply split_disjoint.
  - apply split_to_up.
  - apply Hdom. right. apply T.
  - intros x Hx%Hdom. pose proof (to_fresh _ _ _ _ _ T p (ex_intro _ _ Hn)).
    destruct Hx as [->|Hx]; [lia|]. pose proof (to_fresh _ _ _ _ _ T x Hx). lia.
  - apply T.
  - destruct (to_first _ _ _ _ _ T) as (sf & Hf & Hl & Hlo). destruct (halves_span _ _ Hf) as (sf' & Hf' & Hl' & Hlo' & _).
    exists sf'. split; [done|]. split; congruence.
Qed.
End split.
