(* ===== verification/BLinkParent.v ===== *)
(** The parent learns of a split, or a new root is put on top of the halves. *)

From stdpp Require Import sorting.
From S2P Require Import Prelude Common Bytes Record BLinkNode BLinkTree BLinkInv BLinkSteps.

(** ** A pair behind another *)

Lemma limits_insert sp l1 x y l2 :
  limits sp (l1 ++ x :: y :: l2) =
    take (S (length l1)) (limits sp (l1 ++ x :: l2)) ++ y.1 :: drop (S (length l1)) (limits sp (l1 ++ x :: l2)).
Proof.
  unfold limits. destruct l1 as [|z t].
  - reflexivity.
  - cbn [app tail length take drop]. cbn [firstn skipn]. rewrite !fmap_app, !fmap_cons. f_equal.
    change (S (length t)) with (1 + length t)%nat.
    assert (1 + length t = length (t.*1 ++ [x.1]))%nat as -> by (rewrite length_app, length_fmap; simpl; lia).
    replace ((t.*1 ++ x.1 :: l2.*1) ++ [hi sp]) with ((t.*1 ++ [x.1]) ++ l2.*1 ++ [hi sp]) by (by rewrite <- !app_assoc).
    rewrite take_app_length, drop_app_length, <- !app_assoc. done.
Qed.

Lemma lookup_gap_before {A} (bs : list A) j z i : (i < j)%nat → (j ≤ length bs)%nat →
  (take j bs ++ z :: drop j bs) !! i = bs !! i.
Proof. intros Hi Hj. rewrite lookup_app_l by (rewrite length_take; lia). by rewrite lookup_take_lt. Qed.

Lemma lookup_gap_at {A} (bs : list A) j z : (j ≤ length bs)%nat → (take j bs ++ z :: drop j bs) !! j = Some z.
Proof. intros Hj. apply list_lookup_middle. rewrite length_take. lia. Qed.

Lemma lookup_gap_after {A} (bs : list A) j z i : (j ≤ i)%nat → (j ≤ length bs)%nat →
  (take j bs ++ z :: drop j bs) !! S i = bs !! i.
Proof.
  intros Hi Hj. rewrite lookup_app_r by (rewrite length_take; lia). rewrite length_take.
  replace (S i - j `min` length bs)%nat with (S (i - j)) by lia.
  change (drop j bs !! (i - j)%nat = bs !! i). rewrite lookup_drop. f_equal. lia.
Qed.

Lemma Zlt_sorted_gap (bs : list Z) j a z b : StronglySorted Z.lt bs →
  bs !! j = Some a → bs !! S j = Some b → a < z < b → StronglySorted Z.lt (take (S j) bs ++ z :: drop (S j) bs).
Proof.
  intros Hs Ha Hb Hz. assert (∀ i c, bs !! i = Some c → (i ≤ j)%nat → c ≤ a) as Hle.
  { intros i c Hc Hi. destruct (decide (i = j)) as [->|]; [assert (c = a) by congruence; lia|].
    enough (c < a) by lia. by apply (Zlt_sorted_lookup bs i j); [|lia|..]. }
  assert (∀ i c, bs !! i = Some c → (j < i)%nat → b ≤ c) as Hge.
  { intros i c Hc Hi. destruct (decide (i = S j)) as [->|]; [assert (c = b) by congruence; lia|].
    enough (b < c) by lia. by apply (Zlt_sorted_lookup bs (S j) i); [|lia|..]. }
  rewrite <- (take_drop (S j) bs) in Hs. apply StronglySorted_app in Hs as (H12 & H1 & H2).
  apply StronglySorted_app. split; [|split; [done|]].
  - intros c d Hc Hd. apply elem_of_cons in Hd as [->|Hd]; [|by apply H12].
    apply list_elem_of_lookup in Hc as [i [Hi Hlt]%lookup_take_Some]. specialize (Hle _ _ Hi). lia.
  - apply StronglySorted_cons. split; [|done]. apply Forall_forall. intros d Hd.
    apply list_elem_of_lookup in Hd as [i Hi]. rewrite lookup_drop in Hi. specialize (Hge _ _ Hi). lia.
Qed.

(** ** The parent *)

Section parent.
Context (C G : Spans) (m : gmap Z Rid) (full' : option Z) (st : BLStore) (p q : Z) (sp : Span) (s : Z) (P : Z).
Context (sP : Span) (n n' : BLNode) (l1 : pairs) (k : Z) (r : Rid) (l2 : pairs) (x : Z).

Abbreviation root := (root_page_id (head st)).
Abbreviation l := (l1 ++ (k, r) :: l2).
Abbreviation l' := (l1 ++ (k, r) :: (s, mkRid q x) :: l2).

Hypothesis T : tree_ok C G m None st.
Hypothesis HG : G = halves C p q sp s.
Hypothesis Hp : C !! p = Some sp.
Hypothesis Hq : C !! q = None.
Hypothesis Hs : lo sp < s < hi sp.
Hypothesis Hup : up sp = Some P.
Hypothesis HP : G !! P = Some sP.
Hypothesis Hn : nodes st !! P = Some n.
Hypothesis Hok : node_ok C G root m None P sP n l.
Hypothesis Hr : page_no_ r = p.
Hypothesis Hlv : (0 < level sP)%nat.
Hypothesis Hn' : node_holds n' l'.
Hypothesis Hh : hdr n' = hdr n.
Hypothesis Hroom : len l' < order ∨ (len l' = order ∧ full' = Some P).

Lemma parent_inner : inner_ok C P sP l.
Proof using All. pose proof (no_body _ _ _ _ _ _ _ _ _ Hok) as Hb. destruct (level sP); [lia|done]. Qed.

Lemma parent_at : l !! length l1 = Some (k, r).
Proof using All. by apply list_lookup_middle. Qed.

Lemma parent_child : limits sP l !! length l1 = Some (lo sp) ∧ limits sP l !! S (length l1) = Some (hi sp) ∧
  level sP = S (level sp).
Proof using All.
  destruct (limits_child sP _ _ _ parent_at) as (b & b' & Hb & Hb').
  pose proof (in_children _ _ _ _ parent_inner _ _ _ _ parent_at Hb Hb') as Hc. cbn [snd] in Hc.
  rewrite Hr, Hp in Hc. injection Hc as ->. cbn [lo hi level]. split; [done|]. split; [done|]. lia.
Qed.

Lemma parent_p : G !! p = Some (mkSpan (level sp) (lo sp) s (up sp)).
Proof using All. rewrite HG. apply lookup_insert_eq. Qed.

Lemma parent_p_q : p ≠ q.
Proof using All. intros ->. congruence. Qed.

Lemma parent_q : G !! q = Some (mkSpan (level sp) s (hi sp) (up sp)).
Proof using All. rewrite HG. unfold halves. rewrite lookup_insert_ne by apply parent_p_q. apply lookup_insert_eq. Qed.

Lemma parent_other y : y ≠ p → y ≠ q → G !! y = C !! y.
Proof using All. intros. rewrite HG. unfold halves. by rewrite !lookup_insert_ne. Qed.

(** A child of another node, or another child. *)
Lemma parent_seen y sy : C !! y = Some sy → y ≠ p → G !! y = Some sy.
Proof using All. intros Hy Hne. rewrite parent_other; [done|done|]. intros ->. congruence. Qed.

Lemma parent_children : children_ok G P sP l'.
Proof using All.
  destruct parent_child as (Hb & Hb' & Hlvl). pose proof parent_inner as Hin. pose proof Hin as [_ _ Hc].
  set (j := length l1) in *. assert (S j ≤ length (limits sP l))%nat as Hlen by (apply lookup_lt_Some in Hb'; lia).
  assert (∀ i y c c', l !! i = Some y → i ≠ j → limits sP l !! i = Some c → limits sP l !! S i = Some c' →
    G !! page_no_ y.2 = Some (mkSpan (pred (level sP)) c c' (Some P))) as Hothers.
  { intros i y c c' Hy Hij Hl Hl'. apply parent_seen; [by eapply Hc|]. intros E. apply Hij.
    apply (child_index _ _ _ _ _ _ _ _ Hin Hy parent_at). by rewrite E. }
  intros i y b b' Hy Hlb Hlb'. rewrite limits_insert in Hlb, Hlb'. fold j in Hlb, Hlb'.
  destruct (decide (i < j)%nat) as [Hi|Hi].
  - rewrite lookup_gap_before in Hlb by lia. rewrite lookup_gap_before in Hlb' by lia.
    apply (Hothers i); [|lia|done|done]. rewrite lookup_app_l in Hy by done. by rewrite lookup_app_l.
  - rewrite lookup_app_r in Hy by lia. fold j in Hy. destruct (decide (i = j)) as [->|Hij].
    + rewrite Nat.sub_diag in Hy. injection Hy as <-. cbn [snd]. rewrite lookup_gap_before in Hlb by lia.
      rewrite lookup_gap_at in Hlb' by lia. rewrite Hb in Hlb. injection Hlb as <-. injection Hlb' as <-.
      rewrite Hr, parent_p, Hlvl, Hup. done.
    + destruct i as [|i]; [lia|]. rewrite lookup_gap_after in Hlb' by lia.
      destruct (decide (i = j)) as [->|Hij'].
      * replace (S j - j)%nat with 1%nat in Hy by lia. injection Hy as <-. cbn [snd page_no_].
        rewrite lookup_gap_at in Hlb by lia. injection Hlb as <-. rewrite Hb' in Hlb'. injection Hlb' as <-.
        rewrite parent_q, Hlvl, Hup. done.
      * rewrite lookup_gap_after in Hlb by lia. apply (Hothers i); [|done..].
        rewrite lookup_app_r by lia. fold j. destruct (i - j)%nat as [|d] eqn:Ed; [lia|].
        replace (S i - j)%nat with (S (S d)) in Hy by lia. exact Hy.
Qed.

Lemma parent_ok : node_ok G G root m full' P sP n' l'.
Proof using All.
  destruct parent_child as (Hb & Hb' & Hlvl). eapply node_ok_pairs; [exact Hok|done|done|done|].
  pose proof parent_inner as [_ Hsort _]. assert (inner_ok G P sP l') as Hin.
  { split; [intros E; by apply app_eq_nil in E as [_ E]|rewrite limits_insert; by eapply Zlt_sorted_gap|apply parent_children]. }
  destruct (level sP) eqn:E; [lia|exact Hin].
Qed.

Lemma parent_has_child y : y ∈ kids l' → has_child (<[P := n']> (nodes st)) G P y.
Proof using All.
  unfold kids. intros (z & -> & Hz)%list_elem_of_fmap. exists sP, n', l', z. by rewrite lookup_insert_eq.
Qed.

Lemma tree_parent : tree_ok G G m full' (with_nodes (<[P := n']> (nodes st)) st).
Proof using All.
  assert (∀ y, y ∈ kids l → y ∈ kids l') as Hkids.
  { unfold kids. intros y. rewrite !list_elem_of_fmap. intros (z & -> & Hz). exists z. split; [done|].
    apply elem_of_app in Hz as [Hz|Hz]; apply elem_of_app; [by left|right].
    apply elem_of_cons in Hz as [->|Hz]; [by left|]. by do 2 right. }
  split; cbn [nodes head next_page with_nodes].
  - intros y sy Hy. destruct (decide (P = y)) as [<-|Hne].
    + rewrite HP in Hy. injection Hy as <-. exists n', l'. split; [apply lookup_insert_eq|apply parent_ok].
    + destruct (to_node _ _ _ _ _ T _ _ Hy) as (ny & ly & Hny & Hoky). exists ny, ly.
      rewrite lookup_insert_ne by done. split; [done|]. eapply node_ok_frame; [exact Hoky|done|done|done|].
      intros Hl Hc i z b b' Hz Hlb Hlb'. specialize (Hc _ _ _ _ Hz Hlb Hlb'). apply parent_seen; [done|].
      intros E. rewrite E, Hp in Hc. apply Hne. assert (up sp = Some y) by (by injection Hc as ->). congruence.
  - apply T.
  - apply T.
  - intros y sy z Hy Hz. destruct (decide (y = p)) as [->|Hyp]; [|destruct (decide (y = q)) as [->|Hyq]].
    + rewrite parent_p in Hy. injection Hy as <-. cbn [up] in Hz. rewrite Hup in Hz. injection Hz as <-.
      apply parent_has_child, Hkids. unfold kids. apply list_elem_of_fmap. exists (k, r). split; [done|]. apply elem_of_app. right. by left.
    + rewrite parent_q in Hy. injection Hy as <-. cbn [up] in Hz. rewrite Hup in Hz. injection Hz as <-.
      apply parent_has_child. unfold kids. apply list_elem_of_fmap. exists (s, mkRid q x). split; [done|].
      apply elem_of_app. right. right. by left.
    + rewrite parent_other in Hy by done. pose proof (to_up _ _ _ _ _ T _ _ _ Hy Hz) as Hc.
      destruct Hc as (sz & nz & lz & w & Hsz & Hlz & Hnz & Hhz & Hw & Ew). destruct (decide (P = z)) as [<-|Hne].
      * apply parent_has_child, Hkids. rewrite Hn in Hnz. injection Hnz as <-.
        assert (lz = l) as -> by (eapply node_holds_unique; [done|apply Hok]). unfold kids. apply list_elem_of_fmap. by exists w.
      * exists sz, nz, lz, w. by rewrite lookup_insert_ne.
  - destruct (to_header _ _ _ _ _ T) as [h Hh0]. rewrite lookup_insert_ne; [by eexists|].
    pose proof (to_page _ _ _ _ _ T P (ex_intro _ _ HP)). unfold BL_LEAF_HEADER_PAGE_ID. lia.
  - intros y Hy. apply (to_fresh _ _ _ _ _ T). rewrite lookup_insert_is_Some' in Hy. destruct Hy as [<-|?]; [by eexists|done].
  - apply T.
  - apply T.
Qed.
End parent.

(** ** A new root *)

Section root.
Context (C G : Spans) (m : gmap Z Rid) (st : BLStore) (p q : Z) (s : Z) (H : nat) (R : Z).
Context (np nq nR : BLNode) (ns : gmap Z BLNode) (k x y : Z).

Hypothesis T : tree_ok C G m None st.
Hypothesis HG : G = halves C p q (mkSpan H 0 TOP None) s.
Hypothesis Hp : C !! p = Some (mkSpan H 0 TOP None).
Hypothesis Hq : C !! q = None.
Hypothesis Hs : 0 < s < TOP.
Hypothesis Hlevels : ∀ z sz, G !! z = Some sz → (level sz ≤ H)%nat.
Hypothesis Hroot : p = root_page_id (head st).
Hypothesis HR : R = next_page st.
Hypothesis Hnp : nodes st !! p = Some np.
Hypothesis Hnq : nodes st !! q = Some nq.
Hypothesis HnR : node_holds nR [(k, mkRid p x); (s, mkRid q y)].
Hypothesis HnR' : right_sibling nR = INVALID_PAGE_ID ∧ is_leaf nR = false ∧ has_high_key nR = false ∧ is_root nR = true.
Hypothesis Hns : ∀ z, ns !! z = if decide (z = R) then Some nR else if decide (z = p ∨ z = q) then set_is_root false <$> nodes st !! z
  else nodes st !! z.

Let G' : Spans := <[R := mkSpan (S H) 0 TOP None]> (<[p := mkSpan H 0 s (Some R)]> (<[q := mkSpan H s TOP (Some R)]> G)).

Lemma root_fresh : nodes st !! R = None ∧ G !! R = None ∧ R ≠ p ∧ R ≠ q ∧ p ≠ q.
Proof using All.
  assert (nodes st !! R = None) as HRn.
  { apply eq_None_not_Some. intros Hx%(to_fresh _ _ _ _ _ T). lia. }
  split; [done|]. split.
  - apply eq_None_not_Some. intros [sR Hx]. destruct (to_node _ _ _ _ _ T _ _ Hx) as (? & ? & Hy & _). by rewrite HRn in Hy.
  - split; [intros ->; congruence|]. split; [intros ->; congruence|]. intros ->. congruence.
Qed.

Lemma root_R : G' !! R = Some (mkSpan (S H) 0 TOP None).
Proof using All. apply lookup_insert_eq. Qed.
Lemma root_p : G' !! p = Some (mkSpan H 0 s (Some R)).
Proof using All.
  destruct root_fresh as (_ & _ & ? & ? & ?). unfold G'. rewrite lookup_insert_ne by done. apply lookup_insert_eq.
Qed.
Lemma root_q : G' !! q = Some (mkSpan H s TOP (Some R)).
Proof using All.
  destruct root_fresh as (_ & _ & ? & ? & ?). unfold G'. rewrite lookup_insert_ne, lookup_insert_ne by done. apply lookup_insert_eq.
Qed.
Lemma root_other z : z ≠ R → z ≠ p → z ≠ q → G' !! z = C !! z.
Proof using All. intros. unfold G'. rewrite !lookup_insert_ne by done. rewrite HG. unfold halves. by rewrite !lookup_insert_ne. Qed.

(** The old pages keep level and limits. *)
Lemma root_span z sz : G !! z = Some sz →
  ∃ sz', G' !! z = Some sz' ∧ level sz' = level sz ∧ lo sz' = lo sz ∧ hi sz' = hi sz.
Proof using All.
  intros Hz. destruct root_fresh as (_ & HRG & HRp & HRq & Hpq). rewrite HG in Hz. unfold halves in Hz.
  destruct (decide (z = p)) as [->|Hzp]; [|destruct (decide (z = q)) as [->|Hzq]].
  - rewrite lookup_insert_eq in Hz. injection Hz as <-. eexists. by split; [apply root_p|].
  - rewrite lookup_insert_ne, lookup_insert_eq in Hz by done. injection Hz as <-. eexists. by split; [apply root_q|].
  - rewrite !lookup_insert_ne in Hz by done. exists sz. split; [|done]. rewrite root_other; [done| |done|done].
    intros ->. rewrite HG in HRG. unfold halves in HRG. rewrite !lookup_insert_ne in HRG by done. congruence.
Qed.

Lemma root_back z sz : G' !! z = Some sz → z ≠ R →
  ∃ sz', G !! z = Some sz' ∧ level sz = level sz' ∧ lo sz = lo sz' ∧ hi sz = hi sz'.
Proof using All.
  intros Hz HzR. destruct root_fresh as (_ & HRG & HRp & HRq & Hpq).
  destruct (decide (z = p)) as [->|Hzp]; [|destruct (decide (z = q)) as [->|Hzq]].
  - rewrite root_p in Hz. injection Hz as <-. eexists. split; [rewrite HG; apply lookup_insert_eq|done].
  - rewrite root_q in Hz. injection Hz as <-. eexists.
    split; [rewrite HG; unfold halves; rewrite lookup_insert_ne by done; apply lookup_insert_eq|done].
  - rewrite root_other in Hz by done. exists sz. split; [|done]. rewrite HG. unfold halves. by rewrite !lookup_insert_ne.
Qed.

Lemma root_links z sz n : G !! z = Some sz → links_ok G sz n → links_ok G' sz n.
Proof using All.
  intros Hz [H1 H2 H3]. split.
  - destruct (decide (hi sz = TOP)); [done|]. destruct H1 as (sy & Hy & E1 & E2).
    destruct (root_span _ _ Hy) as (sy' & Hy' & F1 & F2 & _). exists sy'. split; [done|]. by rewrite F1, F2.
  - done.
  - intros Hl. specialize (H3 Hl). destruct (decide (lo sz = 0)); [done|]. destruct H3 as (sy & Hy & E1 & E2).
    destruct (root_span _ _ Hy) as (sy' & Hy' & F1 & _ & F2). exists sy'. split; [done|]. by rewrite F1, F2.
Qed.

Lemma root_old_ok z sz : G' !! z = Some sz → z ≠ R → ∃ n l, ns !! z = Some n ∧ node_ok G' G' R m None z sz n l.
Proof using All.
  intros Hz HzR. destruct (root_back _ _ Hz HzR) as (sy & Hy & E1 & E2 & E3).
  destruct (to_node _ _ _ _ _ T _ _ Hy) as (n & l & Hn & [K1 K2 K3 K4 K5 K6 K7 K8]).
  exists (if decide (z = p ∨ z = q) then set_is_root false n else n), l.
  split; [rewrite Hns, decide_False, Hn by done; by destruct (decide (z = p ∨ z = q))|].
  apply (node_ok_up _ _ _ _ _ _ sy); [done..|].
  assert (is_root (if decide (z = p ∨ z = q) then set_is_root false n else n) = false) as Hflag.
  { destruct (decide (z = p ∨ z = q)); [done|]. rewrite K3, bool_decide_false; [done|]. rewrite <- Hroot. tauto. }
  assert (node_ok G' G' R m None z sy (set_is_root false n) l) as Hok.
  { split; try done.
    - by destruct K1.
    - by rewrite bool_decide_false.
    - apply (root_links z); [done|]. by destruct K7.
    - destruct (level sy) eqn:El; [done|]. destruct K8 as [J1 J2 J3]. split; [done|done|].
      intros i w b b' Hw Hb Hb'. specialize (J3 _ _ _ _ Hw Hb Hb'). rewrite root_other; [done|..]; intros E; rewrite E in J3.
      + destruct root_fresh as (_ & HRG & HRp & HRq & Hpq). rewrite HG in HRG. unfold halves in HRG.
        rewrite !lookup_insert_ne in HRG by done. congruence.
      + rewrite Hp in J3. discriminate J3.
      + congruence. }
  destruct (decide (z = p ∨ z = q)); [done|].
  assert (set_is_root false n = n) as <-; [|done]. destruct n. cbn in Hflag. by rewrite Hflag.
Qed.

Lemma root_new_ok : node_ok G' G' R m None R (mkSpan (S H) 0 TOP None) nR [(k, mkRid p x); (s, mkRid q y)].
Proof using All.
  destruct HnR' as (E1 & E2 & E3 & E4). split; cbn [level lo hi].
  - done.
  - done.
  - by rewrite bool_decide_true.
  - unfold TOP. lia.
  - by rewrite E3.
  - left. rewrite order_value. unfold len. simpl. lia.
  - split; cbn [level lo hi]; try done. 
  - split; [done|..].
    + change (StronglySorted Z.lt [0; s; TOP]). rewrite !StronglySorted_cons, !Forall_cons, !Forall_nil.
      split_and!; try done; try lia. apply SSorted_nil.
    + intros [|[|i]] w b b' Hw Hb Hb'; cbn in Hw, Hb, Hb'; try done;
        injection Hw as <-; injection Hb as <-; injection Hb' as <-; cbn [snd page_no_ level pred].
      * apply root_p.
      * apply root_q.
Qed.

Lemma tree_root : tree_ok G' G' m None (mkStore ns (set_root_page_id R (head st)) (R + 1)).
Proof using All.
  destruct root_fresh as (HRn & HRG & HRp & HRq & Hpq).
  assert (∀ z, is_Some (ns !! z) ↔ z = R ∨ is_Some (nodes st !! z)) as Hdom.
  { intros z. rewrite Hns. destruct (decide (z = R)) as [->|]; [split; [by left|by eexists]|].
    destruct (decide (z = p ∨ z = q)); rewrite ?fmap_is_Some; naive_solver. }
  split; cbn [nodes head next_page root_page_id set_root_page_id].
  - intros z sz Hz. destruct (decide (z = R)) as [->|Hne]; [|by apply root_old_ok].
    rewrite root_R in Hz. injection Hz as <-. exists nR, [(k, mkRid p x); (s, mkRid q y)].
    split; [by rewrite Hns, decide_True|apply root_new_ok].
  - intros z [sz Hz]. destruct (decide (z = R)) as [->|Hne].
    + pose proof (to_fresh _ _ _ _ _ T p (ex_intro _ _ Hnp)).
      assert (is_Some (G !! p)) as Hgp by (rewrite HG; eexists; apply lookup_insert_eq).
      pose proof (to_page _ _ _ _ _ T p Hgp). lia.
    + destruct (root_back _ _ Hz Hne) as (sy & Hy & _). apply (to_page _ _ _ _ _ T). by eexists.
  - intros z w sz sw Hz Hw Hl Hne.
    assert (∀ v sv, G' !! v = Some sv → v ≠ R → (level sv ≤ H)%nat) as Hlv.
    { intros v sv Hv HvR. destruct (root_back _ _ Hv HvR) as (su & Hu & -> & _). by eapply Hlevels. }
    destruct (decide (z = R)) as [->|HzR]; [|destruct (decide (w = R)) as [->|HwR]].
    + rewrite root_R in Hz. injection Hz as <-. cbn [level] in Hl. specialize (Hlv _ _ Hw ltac:(congruence)). lia.
    + rewrite root_R in Hw. injection Hw as <-. cbn [level] in Hl. specialize (Hlv _ _ Hz HzR). lia.
    + destruct (root_back _ _ Hz HzR) as (sz' & Hz' & E1 & E2 & E3). destruct (root_back _ _ Hw HwR) as (sw' & Hw' & F1 & F2 & F3).
      rewrite E2, E3, F2, F3. apply (to_disjoint _ _ _ _ _ T z w); try done. congruence.
  - intros z sz w Hz Hw. assert (∀ v, v ∈ [p; q] → has_child ns G' R v) as HcR.
    { intros v Hv. assert (∃ u, u ∈ [(k, mkRid p x); (s, mkRid q y)] ∧ page_no_ u.2 = v) as (u & Hu & Eu).
      { apply elem_of_cons in Hv as [->|Hv%list_elem_of_singleton].
        - eexists. split; [by left|done].
        - subst v. eexists. split; [right; by left|done]. }
      eexists _, nR, _, u. split; [apply root_R|]. cbn [level]. split; [lia|]. by rewrite Hns, decide_True. }
    destruct (decide (z = R)) as [->|HzR]; [rewrite root_R in Hz; injection Hz as <-; done|].
    destruct (decide (z = p)) as [->|Hzp]; [|destruct (decide (z = q)) as [->|Hzq]].
    + rewrite root_p in Hz. injection Hz as <-. injection Hw as <-. apply HcR. by left.
    + rewrite root_q in Hz. injection Hz as <-. injection Hw as <-. apply HcR. right. by left.
    + rewrite root_other in Hz by done.
      destruct (to_up _ _ _ _ _ T _ _ _ Hz Hw) as (sw & n & l & u & Hsw & Hlw & Hn & Hnl & Hu & Eu).
      destruct (root_span _ _ Hsw) as (sw' & Hsw' & E1 & _).
      exists sw', (if decide (w = p ∨ w = q) then set_is_root false n else n), l, u. split; [done|]. split; [lia|].
      split; [|split; [|done]].
      * rewrite Hns, decide_False, Hn; [by destruct (decide (w = p ∨ w = q))|]. intros ->. by rewrite HRG in Hsw.
      * destruct (decide (w = p ∨ w = q)); [|done]. by destruct Hnl.
  - apply Hdom. right. apply T.
  - intros z Hz%Hdom. pose proof (to_fresh _ _ _ _ _ T p (ex_intro _ _ Hnp)).
    destruct Hz as [->|Hz]; [lia|]. pose proof (to_fresh _ _ _ _ _ T z Hz). lia.
  - apply T.
  - destruct (to_first _ _ _ _ _ T) as (sf & Hf & Hl & Hlo). destruct (root_span _ _ Hf) as (sf' & Hf' & Hl' & Hlo' & _).
    exists sf'. split; [done|]. split; congruence.
Qed.
End root.
