(* ===== verification/BLinkCalls.v ===== *)
(** The calls of the B-link index, started with no latch held: what they do to the
    pages, and that they give back every latch. *)

From stdpp Require Import sorting.
From S2P Require Import Prelude Common Bytes Record BLinkNode BLinkTree BLinkInv BLinkSteps BLinkParent.

#[local] Arguments replicate : simpl never.
#[local] Arguments Z.to_nat : simpl never.
#[local] Arguments order : simpl never.

(** ** Latches and pages *)

Section pages.
Context (st : BLStore) (h : BLHandle) (L : gmap Z bool).
Abbreviation here := (mkBLink st h L).

Lemma wp_latch p x (Q : unit → BLink → Prop) :
  L !! p = None → Q tt (mkBLink st h (<[p := x]> L)) → wp (latch p x) Q here.
Proof using Type. intros Hp HQ. unfold latch. do 2 wp_step. cbn [latches]. rewrite Hp. by wp_step. Qed.

Lemma wp_unlatch p x (Q : unit → BLink → Prop) :
  L !! p = Some x → Q tt (mkBLink st h (delete p L)) → wp (unlatch p x) Q here.
Proof using Type.
  intros Hp HQ. unfold unlatch. do 2 wp_step. cbn [latches]. rewrite Hp, eqb_reflx. by wp_step.
Qed.

Lemma wp_fetch_node p op n (Q : unit → BLink → Prop) :
  nodes st !! p = Some n → L !! p = None → Q tt (mkBLink st h (<[p := for_writing op]> L)) →
  wp (fetch_node p op) Q here.
Proof using Type.
  intros Hn Hp HQ. unfold fetch_node. do 2 wp_step. cbn [store]. rewrite Hn, bool_decide_true by (by eexists).
  by apply wp_latch.
Qed.

Lemma wp_release_node p op (Q : unit → BLink → Prop) :
  L !! p = Some (for_writing op) → Q tt (mkBLink st h (delete p L)) → wp (release_node p op) Q here.
Proof using Type. apply wp_unlatch. Qed.

Lemma wp_reading {A} p b n (m : MN A) (Q : A → BLink → Prop) :
  L !! p = Some b → nodes st !! p = Some n → wp m (λ a _, Q a here) n → wp (reading p m) Q here.
Proof using Type.
  intros Hp Hn Hm. unfold wp, reading in *. cbn [latches store]. rewrite Hp, Hn. by destruct (m n) as [[a n']| |].
Qed.

Lemma wp_writing {A} p n (m : MN A) (Q : A → BLink → Prop) :
  L !! p = Some true → nodes st !! p = Some n →
  wp m (λ a n', Q a (mkBLink (with_nodes (<[p := n']> (nodes st)) st) h L)) n → wp (writing p m) Q here.
Proof using Type.
  intros Hp Hn Hm. unfold wp, writing in *. cbn [latches store]. rewrite Hp, Hn. by destruct (m n) as [[a n']| |].
Qed.
End pages.

(** ** Going down *)

Section descent.
Context (G : Spans) (H : nat) (m : gmap Z Rid) (st : BLStore).
Hypothesis I : index_ok G H m st.

Lemma index_node p sp : G !! p = Some sp →
  ∃ n l, nodes st !! p = Some n ∧ node_ok G G (root_page_id (head st)) m None p sp n l.
Proof using I. apply (to_node _ _ _ _ _ (ix_tree _ _ _ _ I)). Qed.

Lemma wp_find_root fuel fh kc (Q : Z → BLink → Prop) :
  (0 < fuel)%nat →
  Q (root_page_id (head st)) (mkBLink st (mkHandle (head st) kc) {[root_page_id (head st) := false]}) →
  wp (find_root fuel) Q (mkBLink st (mkHandle fh kc) ∅).
Proof using I.
  intros Hf HQ. destruct fuel as [|fuel]; [lia|]. cbn [find_root].
  destruct (index_node _ _ (ix_root _ _ _ _ I)) as (n & l & Hn & Hok).
  wp_step. unfold s_get_file_hdr. wp_step. apply wp_latch; [apply lookup_empty|]. do 2 wp_step. wp_step.
  unfold set_file_hdr. cbn [store handle key2leaf latches]. do 2 wp_step. cbn [handle file_hdr]. wp_step.
  apply wp_unlatch; [apply lookup_insert_eq|]. wp_step.
  rewrite delete_insert_id by apply lookup_empty.
  eapply wp_fetch_node; [exact Hn|apply lookup_empty|]. wp_step.
  eapply wp_reading; [apply lookup_insert_eq|exact Hn|]. wp_step. rewrite (no_root _ _ _ _ _ _ _ _ _ Hok), bool_decide_true by done.
  wp_step. exact HQ.
Qed.

Lemma no_need_to_right root full p sp n l key :
  node_ok G G root m full p sp n l → covers sp key → need_to_right key n = false.
Proof using Type.
  intros Hok [_ Hk]. unfold need_to_right. destruct (has_high_key n) eqn:E; [|done].
  rewrite (no_high _ _ _ _ _ _ _ _ _ Hok E). rewrite (proj2 (Z.leb_gt _ _)) by lia. done.
Qed.

Lemma wp_move_right fuel op p sp h b key (Q : Z → BLink → Prop) :
  (0 < fuel)%nat → G !! p = Some sp → covers sp key → Q p (mkBLink st h {[p := b]}) →
  wp (move_right fuel op key p) Q (mkBLink st h {[p := b]}).
Proof using I.
  intros Hf Hp Hc HQ. destruct fuel as [|fuel]; [lia|]. cbn [move_right].
  destruct (index_node _ _ Hp) as (n & l & Hn & Hok). wp_step.
  eapply wp_reading; [apply lookup_singleton_eq|exact Hn|]. wp_step. erewrite no_need_to_right by done. by wp_step.
Qed.

(** The child that [upper_bound] finds is the one for the key. *)
Lemma wp_step_down p sp h key (Q : Z → BLink → Prop) :
  G !! p = Some sp → (0 < level sp)%nat → covers sp key →
  (∀ c sc, G !! c = Some sc → S (level sc) = level sp → up sc = Some p → covers sc key → Q c (mkBLink st h ∅)) →
  wp (step_down key p) Q (mkBLink st h {[p := false]}).
Proof using I.
  intros Hp Hl Hc HQ. destruct (index_node _ _ Hp) as (n & l & Hn & Hok). unfold step_down. wp_step.
  pose proof (no_holds _ _ _ _ _ _ _ _ _ Hok) as Hnl.
  assert (inner_ok G p sp l) as [Hne Hs Hch].
  { pose proof (no_body _ _ _ _ _ _ _ _ _ Hok) as Hb. destruct (level sp); [lia|done]. }
  destruct l as [|x t] eqn:El; [done|].
  assert (sorted t) as Hst by by apply limits_sorted in Hs.
  eapply wp_reading; [apply lookup_singleton_eq|exact Hn|].
  apply (wp_upper_bound n (x :: t) Hnl x t); [done|done|]. intros t1 t2 Ht H1 H2. wp_step.
  destruct (lookup_lt_is_Some_2 (x :: t) (length t1)) as [y Hy]; [rewrite Ht; simpl; rewrite length_app; lia|].
  eapply wp_reading; [apply lookup_singleton_eq|exact Hn|].
  eapply wp_value_at; [exact Hnl| |exact Hy|]; [lia|]. wp_step. apply wp_release_node; [apply lookup_singleton_eq|].
  rewrite delete_singleton_eq. wp_step.
  destruct (limits_child sp _ _ _ Hy) as (b & b' & Hb & Hb').
  eapply HQ; [exact (Hch _ _ _ _ Hy Hb Hb')|cbn [level]; lia|done|]. unfold covers in *. cbn [lo hi].
  rewrite Ht in Hb, Hb'. by eapply limits_cover.
Qed.

Lemma wp_descend lv fuel p sp h trace key (Q : Z * list Z → BLink → Prop) :
  level sp = lv → (lv < fuel)%nat → G !! p = Some sp → covers sp key → path_ok G (root_page_id (head st)) trace p →
  (∀ leaf sl tr, G !! leaf = Some sl → level sl = 0%nat → covers sl key → path_ok G (root_page_id (head st)) tr leaf →
     Q (leaf, tr) (mkBLink st h {[leaf := false]})) →
  wp (descend fuel key trace p) Q (mkBLink st h {[p := false]}).
Proof using I.
  intros Hlv Hf Hp Hc Htr HQ. revert fuel p sp trace Hlv Hf Hp Hc Htr.
  induction lv as [|lv IH]; intros [|fuel] p sp trace Hlv Hf Hp Hc Htr; try lia; cbn [descend];
    destruct (index_node _ _ Hp) as (n & l & Hn & Hok); wp_step;
    (eapply wp_reading; [apply lookup_singleton_eq|exact Hn|]; wp_step); rewrite (no_leaf _ _ _ _ _ _ _ _ _ Hok), Hlv;
    cbn [Nat.eqb]; cbv iota.
  - wp_step. by eapply HQ.
  - wp_step. eapply wp_move_right; [lia|done|done|]. wp_step. eapply wp_step_down; [done|lia|done|].
    intros c sc Hcc Hlc Hup Hcc'. wp_step. destruct (index_node _ _ Hcc) as (nc & lc & Hnc & _).
    eapply wp_fetch_node; [exact Hnc|apply lookup_empty|]. cbn [for_writing].
    apply (IH fuel c sc); [lia|lia|done|done|]. split; [by exists sc|done].
Qed.

(** There is a page at every level. *)
Lemma levels_below lv p sp : level sp = lv → G !! p = Some sp →
  ∃ X : gset Z, size X = S lv ∧ ∀ x, x ∈ X → ∃ sx, G !! x = Some sx ∧ (level sx ≤ lv)%nat.
Proof using I.
  revert p sp. induction lv as [|lv IH]; intros p sp Hlv Hp.
  - exists {[p]}. split; [apply size_singleton|]. intros x ->%elem_of_singleton. exists sp. split; [done|lia].
  - destruct (index_node _ _ Hp) as (n & l & _ & Hok). pose proof (no_body _ _ _ _ _ _ _ _ _ Hok) as Hb.
    rewrite Hlv in Hb. destruct Hb as [Hne _ Hch]. destruct l as [|x t]; [done|].
    destruct (limits_child sp (x :: t) 0 x eq_refl) as (b & b' & Hb & Hb').
    specialize (Hch 0%nat x _ _ eq_refl Hb Hb'). rewrite Hlv in Hch. apply IH in Hch as (X & HX & HXl); [|done].
    exists ({[p]} ∪ X). split.
    + rewrite size_union, size_singleton, HX; [lia|]. intros y ->%elem_of_singleton Hy.
      destruct (HXl _ Hy) as (sy & Hsy & Hly). rewrite Hp in Hsy. injection Hsy as <-. lia.
    + intros y [->%elem_of_singleton|Hy]%elem_of_union; [exists sp; split; [done|lia]|].
      destruct (HXl _ Hy) as (sy & Hsy & Hly). exists sy. split; [done|lia].
Qed.

(** The fuel of the descents is enough. *)
Lemma height_size : (H < size (nodes st))%nat.
Proof using I.
  destruct (levels_below H _ _ (eq_refl : level (mkSpan H 0 TOP None) = H) (ix_root _ _ _ _ I)) as (X & HX & HXl).
  enough (size X ≤ size (dom (nodes st)))%nat as Hle by (rewrite size_dom in Hle; lia).
  apply subseteq_size. intros x (sx & Hx & _)%HXl. destruct (index_node _ _ Hx) as (n & _ & Hn & _).
  apply elem_of_dom. by exists n.
Qed.

Lemma root_covers key : 0 ≤ key < TOP → covers (mkSpan H 0 TOP None) key.
Proof using Type. done. Qed.

Section leaf.
Context (fh : BLFileHdr) (kc : gmap Z Z) (key : Z).
Hypothesis Hkey : 0 ≤ key < TOP.

Abbreviation entry := (mkBLink st (mkHandle fh kc) ∅).
Abbreviation at_leaf b leaf := (mkBLink st (mkHandle (head st) kc) {[leaf := b]}).

(** The common first part: the leaf for the key, held for reading. *)
Lemma wp_find_leaf {A} (f : Z → Z * list Z → MI A) (Q : A → BLink → Prop) :
  (∀ leaf sl tr, G !! leaf = Some sl → level sl = 0%nat → covers sl key → path_ok G (root_page_id (head st)) tr leaf →
     wp (f (root_page_id (head st)) (leaf, tr)) Q (at_leaf false leaf)) →
  wp (root ← find_root (S (size (nodes st))) ;
      d ← descend (S (size (nodes st))) key [] root ; f root d) Q entry.
Proof using I Hkey.
  intros HQ. wp_step. apply wp_find_root; [lia|]. wp_step. pose proof height_size.
  eapply (wp_descend H); [|lia|apply (ix_root _ _ _ _ I)|by apply root_covers|done|exact HQ]. done.
Qed.

Lemma wp_find_leaf_for_search (Q : Z → BLink → Prop) :
  (∀ leaf sl, G !! leaf = Some sl → level sl = 0%nat → covers sl key → Q leaf (at_leaf false leaf)) →
  wp (find_leaf_for_search key) Q entry.
Proof using I Hkey.
  intros HQ. unfold find_leaf_for_search. wp_step. wp_step. unfold fuel_for. cbn [store].
  apply (wp_find_leaf (λ _ '(node, _), move_right (S (size (nodes st))) SEARCH_OPERA key node)).
  intros leaf sl tr Hl Hlv Hc _. eapply wp_move_right; [lia|done|done|]. by eapply HQ.
Qed.

Lemma wp_take_leaf op leaf sl (Q : Z → BLink → Prop) :
  for_writing op = true → G !! leaf = Some sl → covers sl key → Q leaf (at_leaf true leaf) →
  wp (take_leaf op key leaf) Q (mkBLink st (mkHandle (head st) kc) ∅).
Proof using I.
  intros Hop Hl Hc HQ. destruct (index_node _ _ Hl) as (n & _ & Hn & _). unfold take_leaf. wp_step. wp_step. wp_step.
  eapply wp_fetch_node; [exact Hn|apply lookup_empty|]. rewrite Hop. unfold fuel_for. cbn [store].
  eapply wp_move_right; [lia|done|done|]. done.
Qed.

Lemma wp_find_leaf_for_insert (Q : Z * list Z → BLink → Prop) :
  (∀ leaf sl tr, G !! leaf = Some sl → level sl = 0%nat → covers sl key → path_ok G (root_page_id (head st)) tr leaf →
     Q (leaf, tr) (at_leaf true leaf)) →
  wp (find_leaf_for_insert key) Q entry.
Proof using I Hkey.
  intros HQ. unfold find_leaf_for_insert. wp_step. wp_step. unfold fuel_for. cbn [store].
  apply (wp_find_leaf (λ _ '(leaf_id, trace), release_node leaf_id SEARCH_OPERA ;;
    node ← take_leaf INSERT_OPERA key leaf_id ; mret (node, trace))).
  intros leaf sl tr Hl Hlv Hc Htr. wp_step. apply wp_release_node; [apply lookup_singleton_eq|].
  rewrite delete_singleton_eq. wp_step. eapply wp_take_leaf; [done|done|done|]. wp_step. by eapply HQ.
Qed.

Lemma wp_find_leaf_for_delete (Q : Z → BLink → Prop) :
  (∀ leaf sl, G !! leaf = Some sl → level sl = 0%nat → covers sl key → Q leaf (at_leaf true leaf)) →
  wp (find_leaf_for_delete key) Q entry.
Proof using I Hkey.
  intros HQ. unfold find_leaf_for_delete. wp_step. wp_step. unfold fuel_for. cbn [store].
  apply (wp_find_leaf (λ _ '(leaf_id, _), release_node leaf_id SEARCH_OPERA ;; take_leaf DELETE_OPERA key leaf_id)).
  intros leaf sl tr Hl Hlv Hc Htr. wp_step. apply wp_release_node; [apply lookup_singleton_eq|].
  rewrite delete_singleton_eq. eapply wp_take_leaf; [done|done|done|]. by eapply HQ.
Qed.
End leaf.
End descent.
