(* ===== verification/BLinkSplit.v ===== *)
(** Splitting a full node, from the calls to the shape: what [split] leaves behind for
    [insert_into_parent]. *)

From stdpp Require Import sorting.
From S2P Require Import Prelude Common Bytes Record BLinkNode BLinkTree BLinkInv BLinkSteps BLinkParent BLinkCalls.

#[local] Arguments replicate : simpl never.
#[local] Arguments Z.to_nat : simpl never.
#[local] Arguments order : simpl never.

(** ** Arrays of a node *)

Lemma node_holds_take n l1 l2 : node_holds n (l1 ++ l2) → node_holds (set_size (len l1) n) l1.
Proof.
  intros [Hs Hk Hr Hkr Hrr]. split; cbn [num_key keys rids set_size]; try done.
  - apply (f_equal (take (length l1))) in Hk. rewrite take_take, length_app, Nat.min_l, fmap_app in Hk by lia.
    by rewrite Hk, take_app_le, take_ge by (rewrite length_fmap; lia).
  - apply (f_equal (take (length l1))) in Hr. rewrite take_take, length_app, Nat.min_l, fmap_app in Hr by lia.
    by rewrite Hr, take_app_le, take_ge by (rewrite length_fmap; lia).
Qed.

(** The second half of the arrays, whatever the size says. *)
Lemma wp_read_keys n l1 l2 k (Q : list Z → BLNode → Prop) :
  node_holds n (l1 ++ l2) → Q l2.*1 (set_size k n) → wp (array_read keys (len l1) (len l2)) Q (set_size k n).
Proof.
  intros Hn HQ. pose proof (node_holds_room _ _ Hn) as Hroom. rewrite len_app' in Hroom. destruct Hn as [Hs Hk Hr Hkr Hrr].
  apply wp_array_read; cbn [keys set_size]; [unfold len; lia..| |].
  - rewrite Hkr. unfold len in *. lia.
  - unfold len. rewrite !Nat2Z.id. rewrite length_app, fmap_app in Hk.
    rewrite <- (length_fmap fst l1), <- (length_fmap fst l2). erewrite (take_drop_middle_app _ _ []); [done|].
    by rewrite app_nil_r, length_app, !length_fmap.
Qed.

Lemma wp_read_rids n l1 l2 k (Q : list Rid → BLNode → Prop) :
  node_holds n (l1 ++ l2) → Q l2.*2 (set_size k n) → wp (array_read rids (len l1) (len l2)) Q (set_size k n).
Proof.
  intros Hn HQ. pose proof (node_holds_room _ _ Hn) as Hroom. rewrite len_app' in Hroom. destruct Hn as [Hs Hk Hr Hkr Hrr].
  apply wp_array_read; cbn [rids set_size]; [unfold len; lia..| |].
  - rewrite Hrr. unfold len in *. lia.
  - unfold len. rewrite !Nat2Z.id. rewrite length_app, fmap_app in Hr.
    rewrite <- (length_fmap snd l1), <- (length_fmap snd l2). erewrite (take_drop_middle_app _ _ []); [done|].
    by rewrite app_nil_r, length_app, !length_fmap.
Qed.

(** ** The calls of [split] *)

Ltac at_store := unfold with_nodes; cbn [nodes head next_page store handle latches].

(** What is at a page after some writes; that pages differ is in the context. *)
Ltac at_page :=
  at_store; repeat first [rewrite lookup_insert_eq | rewrite lookup_insert_ne by congruence
    | rewrite lookup_singleton_eq | rewrite lookup_singleton_ne by congruence | rewrite lookup_empty];
  try reflexivity; eassumption.

Ltac on_node := first [eapply wp_reading | eapply wp_writing]; [at_page|at_page|].

Section split_calls.
Context (st : BLStore) (h : BLHandle) (p : Z) (n : BLNode) (l1 : pairs) (s : Z) (r : Rid) (l2 : pairs).

Abbreviation q := (next_page st).
Abbreviation leaf := (is_leaf n).

Hypothesis Hn : nodes st !! p = Some n.
Hypothesis Hl : node_holds n (l1 ++ (s, r) :: l2).
Hypothesis Hsize : len (l1 ++ (s, r) :: l2) = order.
Hypothesis Hhalf : len l1 = order / 2.
Hypothesis Hq : q ≠ p.
Hypothesis Hnext : leaf = true →
  next_leaf n ≠ INVALID_PAGE_ID ∧ next_leaf n ≠ p ∧ next_leaf n ≠ q ∧ is_Some (nodes st !! next_leaf n).

Lemma wp_split_calls (Q : Z * Z → BLink → Prop) :
  (∀ nl nr ns,
     node_holds nl l1 →
     hdr nl = (prev_leaf n, if leaf then q else next_leaf n, q, s, leaf, true, is_root n) →
     node_holds nr ((if leaf then s else NEG_KEY, r) :: l2) →
     hdr nr = (if leaf then p else INVALID_PAGE_ID, if leaf then next_leaf n else INVALID_PAGE_ID,
               right_sibling n, NEG_KEY, leaf, false, false) →
     (∀ x, ns !! x =
       if decide (x = p) then Some nl else if decide (x = q) then Some nr
       else if leaf && (x =? next_leaf n) then set_prev_leaf q <$> nodes st !! x else nodes st !! x) →
     Q (q, s) (mkBLink (mkStore ns (head st) (q + 1)) h (<[q := true]> {[p := true]}))) →
  wp (split p) Q (mkBLink st h {[p := true]}).
Proof using All.
  intros HQ. unfold split. wp_step. on_node. wp_step. rewrite (nh_size _ _ Hl), Hsize. wp_step.
  wp_step; [apply Z.eqb_refl|]. unfold create_node. wp_step. wp_step. wp_step. at_store. wp_step. wp_step.
  unfold set_next_page, set_nodes. at_store. wp_step. wp_step.
  eapply wp_fetch_node; [at_page|at_page|]. cbn [for_writing]. wp_step. on_node. wp_step.

  pose proof (node_holds_room _ _ Hl) as Hroom. rewrite len_app' in Hsize, Hroom.
  assert (0 < len l1 ∧ 0 < len ((s, r) :: l2)) as [Hpos1 Hpos2].
  { rewrite order_value in *. unfold len in *. cbn [length] in *. change (253 / 2) with 126 in Hhalf. lia. }
  assert (order - order / 2 = len ((s, r) :: l2)) as Hrest by lia. rewrite Hrest, <- Hhalf.
  wp_step. on_node. wp_step. wp_step. on_node. wp_step. at_store. wp_step.
  wp_step; [by apply andb_true_iff; rewrite !Z.ltb_lt|]. wp_step. on_node. wp_step. at_store.
  wp_step. on_node. eapply wp_read_keys; [exact Hl|]. wp_step. on_node. eapply wp_read_rids; [exact Hl|].
  wp_step. on_node.
  eapply (wp_insert_pairs _ [] [] ((s, r) :: l2)).
  { destruct leaf; split; apply zero_node_holds. }
  { rewrite app_nil_r. cbn [app]. lia. }
  intros nr1 Hnr1 Hh1. rewrite app_nil_r in Hnr1. cbn [app] in Hnr1.
  assert (hdr nr1 = (INVALID_PAGE_ID, INVALID_PAGE_ID, right_sibling n, NEG_KEY, leaf, false, false)) as E1.
  { rewrite Hh1. by destruct leaf. }
  clear Hh1. wp_step. on_node. eapply (wp_get_key _ _ Hnr1 0 0 (s, r)); [done|done|]. cbn [fst].
  wp_step. at_store. revert E1. destruct leaf eqn:Eleaf; intros E1.
  - destruct (Hnext eq_refl) as (Hx1 & Hx2 & Hx3 & [nx Hnx]). wp_step. on_node. wp_step. cbn [next_leaf set_size].
    wp_step. on_node. wp_step. wp_step. at_store.
    rewrite (proj2 (Z.eqb_neq _ _) Hx1). cbn [negb when]. wp_step.
    eapply wp_fetch_node; [at_page|at_page|]. cbn [for_writing]. wp_step. on_node. wp_step.
    apply wp_release_node; [at_page|]. rewrite delete_insert_id by at_page. at_store.
    on_node. wp_step. wp_step. on_node. wp_step. wp_step. at_store.
    apply (HQ (set_right_sibling q (set_has_high_key true (set_high_key s (set_next_leaf q (set_size (len l1) n)))))
      (set_prev_leaf p (set_next_leaf (next_leaf n) nr1))).
    + by apply node_holds_take in Hl as [].
    + unfold hdr. cbn. by rewrite Eleaf.
    + by destruct Hnr1.
    + unfold hdr in *. cbn. by injection E1 as _ _ -> -> -> -> ->.
    + intros x. rewrite !lookup_insert. repeat case_decide; subst; try done.
      * by rewrite Z.eqb_refl, Hnx.
      * by rewrite (proj2 (Z.eqb_neq _ _)) by congruence.
  - on_node. eapply (wp_set_key _ _ 0%nat 0 NEG_KEY (s, r)); [exact Hnr1|done|done|]. intros nr2 Hnr2 Hh2.
    at_store. wp_step. on_node. wp_step. wp_step. at_store.
    apply (HQ (set_right_sibling q (set_has_high_key true (set_high_key s (set_size (len l1) n)))) nr2).
    + by apply node_holds_take in Hl as [].
    + unfold hdr. cbn. by rewrite Eleaf.
    + exact Hnr2.
    + by rewrite Hh2.
    + intros x. rewrite !lookup_insert. repeat case_decide; subst; try done.
Qed.
End split_calls.

(** ** What is left to do *)

(** The spans of a whole tree, up to the root. *)
Record rooted (G : Spans) (root : Z) (H : nat) : Prop := {
  rt_root : G !! root = Some (mkSpan H 0 TOP None);
  rt_top p sp : G !! p = Some sp → p ≠ root → is_Some (up sp);
  rt_level p sp : G !! p = Some sp → (level sp ≤ H)%nat
}.

Definition keeps_leaves (C G : Spans) : Prop :=
  ∀ x sx, C !! x = Some sx → level sx = 0%nat → ∃ sx', G !! x = Some sx' ∧ level sx' = 0%nat.

(** The page [p] has been split at [s], [q] is its new neighbour, and the pages of [trace]
    are those above. *)
Record pending (C G : Spans) (H : nat) (m : gmap Z Rid) (p q s : Z) (sp : Span) (trace : list Z) (st : BLStore) : Prop := {
  pd_tree : tree_ok C G m None st;
  pd_spans : G = halves C p q sp s;
  pd_old : C !! p = Some sp;
  pd_new : C !! q = None;
  pd_key : lo sp < s < hi sp;
  pd_path : path_ok C (root_page_id (head st)) trace p;
  pd_rooted : rooted C (root_page_id (head st)) H
}.

Lemma keeps_leaves_trans C G K : keeps_leaves C G → keeps_leaves G K → keeps_leaves C K.
Proof. intros H1 H2 x sx Hx Hl. destruct (H1 _ _ Hx Hl) as (sy & Hy & Hly). by apply (H2 _ _ Hy). Qed.

Lemma index_rooted G H m st : index_ok G H m st → rooted G (root_page_id (head st)) H.
Proof. by intros [? ? ? ?]. Qed.

Lemma rooted_index G H m st : tree_ok G G m None st → rooted G (root_page_id (head st)) H → index_ok G H m st.
Proof. by intros ? [? ? ?]. Qed.

(** The parent of a page is one level above. *)
Lemma up_level C G m full st p sp q : tree_ok C G m full st → C !! p = Some sp → up sp = Some q →
  ∃ sq, G !! q = Some sq ∧ level sq = S (level sp).
Proof.
  intros T Hp Hup. destruct (to_up _ _ _ _ _ T _ _ _ Hp Hup) as (sq & n & l & x & Hq & Hlv & Hn & Hl & Hx & Ex).
  exists sq. split; [done|]. destruct (to_node _ _ _ _ _ T _ _ Hq) as (n' & l' & Hn' & Hok).
  rewrite Hn in Hn'. injection Hn' as <-.
  assert (l' = l) as -> by (eapply node_holds_unique; [apply Hok|done]).
  pose proof (no_body _ _ _ _ _ _ _ _ _ Hok) as Hb. destruct (level sq) as [|k] eqn:Ek; [lia|]. destruct Hb as [_ _ Hc].
  apply list_elem_of_lookup in Hx as [i Hi]. destruct (limits_child sq _ _ _ Hi) as (b & b' & Hb & Hb').
  specialize (Hc _ _ _ _ Hi Hb Hb'). rewrite Ex, Hp, Ek in Hc. injection Hc as ->. done.
Qed.

Section reparented.
Context (G : Spans) (m : gmap Z Rid) (full : option Z) (st : BLStore) (p : Z) (sp : Span) (n : BLNode) (l : pairs).
Context (leaf : bool) (q : Z) (l2 : pairs).
Hypothesis T : tree_ok G G m full st.
Hypothesis Hp : G !! p = Some sp.
Hypothesis Hok : node_ok G G (root_page_id (head st)) m full p sp n l.
Hypothesis Hleaf : leaf = (level sp =? 0)%nat.
Hypothesis Hsub : ∀ x, x ∈ l2 → x ∈ l.

Lemma kid_up x sx : (0 < level sp)%nat → x ∈ kids l2 → G !! x = Some sx → up sx = Some p.
Proof using Hok Hsub.
  clear Hleaf. intros Hlv Hx Hsx. unfold kids in Hx. apply list_elem_of_fmap in Hx as (z & -> & Hz%Hsub).
  pose proof (no_body _ _ _ _ _ _ _ _ _ Hok) as Hb. destruct (level sp); [lia|]. destruct Hb as [_ _ Hc].
  apply list_elem_of_lookup in Hz as [i Hi]. destruct (limits_child sp _ _ _ Hi) as (b & b' & Hb & Hb').
  specialize (Hc _ _ _ _ Hi Hb Hb'). rewrite Hsx in Hc. by injection Hc as ->.
Qed.

(** The pages that are not below [p] keep their parents. *)
Lemma seen_same x sx : G !! x = Some sx → up sx ≠ Some p → seen leaf q l2 G !! x = Some sx.
Proof using All.
  intros Hx Hup. unfold seen. destruct leaf eqn:E; [done|]. rewrite reparent_lookup, Hx. cbn [fmap option_fmap option_map].
  rewrite bool_decide_false; [done|]. intros Hk. apply Hup. apply (kid_up x); [|done|done].
  destruct (level sp); [done|lia].
Qed.

Lemma seen_cases x sx : seen leaf q l2 G !! x = Some sx →
  ∃ sx', G !! x = Some sx' ∧ level sx = level sx' ∧ (up sx = up sx' ∨ up sx = Some q).
Proof using Type.
  clear Hleaf. unfold seen. destruct leaf; [intros Hx; exists sx; auto|]. rewrite reparent_lookup. destruct (G !! x) as [sy|]; [|done].
  intros Hx. injection Hx as <-. exists sy. split; [done|]. case_bool_decide; auto.
Qed.

Lemma above_up x sx : G !! x = Some sx → (level sp ≤ level sx)%nat → up sx ≠ Some p.
Proof using T Hp.
  intros Hx Hlv Hup. destruct (up_level _ _ _ _ _ _ _ _ T Hx Hup) as (sq & Hq & Hl).
  rewrite Hp in Hq. injection Hq as <-. lia.
Qed.

Lemma seen_path trace x sx root : G !! x = Some sx → (level sp ≤ level sx)%nat → path_ok G root trace x →
  path_ok (seen leaf q l2 G) root trace x.
Proof using All.
  revert x sx. induction trace as [|y trace IH]; intros x sx Hx Hlv; [done|]. intros [(sx' & Hx' & Hup) Hpath].
  rewrite Hx in Hx'. injection Hx' as <-. split.
  - exists sx. split; [|done]. apply seen_same; [done|by eapply above_up].
  - destruct (up_level _ _ _ _ _ _ _ _ T Hx Hup) as (sy & Hy & Hl). eapply IH; [exact Hy|lia|done].
Qed.

Lemma seen_rooted root H : rooted G root H → rooted (seen leaf q l2 G) root H.
Proof using All.
  intros [Hr Ht Hl]. split.
  - by apply seen_same.
  - intros x sx (sx' & Hx' & _ & Hup)%seen_cases Hne. destruct Hup as [->| ->]; [by eapply Ht|done].
  - intros x sx (sx' & Hx' & -> & _)%seen_cases. by eapply Hl.
Qed.

Lemma seen_leaves : keeps_leaves G (seen leaf q l2 G).
Proof using Type.
  clear Hleaf. intros x sx Hx Hl. unfold seen. destruct leaf; [by exists sx|]. rewrite reparent_lookup, Hx. eexists. split; [done|].
  by case_bool_decide.
Qed.
End reparented.

Section split.
Context (G : Spans) (H : nat) (m : gmap Z Rid) (full : option Z) (st : BLStore) (h : BLHandle).
Context (p : Z) (sp : Span) (n : BLNode) (l : pairs) (trace : list Z).
Abbreviation root := (root_page_id (head st)).
Hypothesis T : tree_ok G G m full st.
Hypothesis Hfull : ∀ x, full = Some x → x = p.
Hypothesis Hrooted : rooted G root H.
Hypothesis Hp : G !! p = Some sp.
Hypothesis Hpath : path_ok G root trace p.
Hypothesis Hn : nodes st !! p = Some n.
Hypothesis Hok : node_ok G G root m full p sp n l.
Hypothesis Hsize : len l = order.

(** The next leaf is a page of its own. *)
Lemma next_leaf_page : is_leaf n = true →
  next_leaf n ≠ INVALID_PAGE_ID ∧ next_leaf n ≠ p ∧ next_leaf n ≠ next_page st ∧ is_Some (nodes st !! next_leaf n).
Proof using T Hp Hok.
  intros Hleaf. rewrite (no_leaf _ _ _ _ _ _ _ _ _ Hok) in Hleaf. apply Nat.eqb_eq in Hleaf.
  pose proof (to_page _ _ _ _ _ T p (ex_intro _ _ Hp)) as Hp2.
  assert (is_Some (nodes st !! next_leaf n) ∧ next_leaf n ≠ p) as [Hs Hne].
  { pose proof (no_links _ _ _ _ _ _ _ _ _ Hok) as [Hr Hx _]. specialize (Hx Hleaf).
    pose proof (no_range _ _ _ _ _ _ _ _ _ Hok) as Hrange. rewrite Hx. destruct (decide (hi sp = TOP)).
    - split; [apply T|]. unfold BL_LEAF_HEADER_PAGE_ID. lia.
    - destruct Hr as (sq & Hq & Hlq & Hlo). destruct (to_node _ _ _ _ _ T _ _ Hq) as (nq & _ & Hnq & _).
      split; [by exists nq|]. intros E. rewrite E, Hp in Hq. injection Hq as <-. lia. }
  pose proof (to_fresh _ _ _ _ _ T _ Hs). unfold INVALID_PAGE_ID. split; [lia|]. split; [done|]. split; [lia|done].
Qed.

Lemma split_point : ∃ l1 s r l2, l = l1 ++ (s, r) :: l2 ∧ len l1 = order / 2.
Proof using Hsize.
  assert (Z.to_nat (order / 2) < length l)%nat as Hlt by (rewrite order_value in *; unfold len in Hsize; change (253 / 2) with 126; lia).
  destruct (lookup_lt_is_Some_2 _ _ Hlt) as [[s r] Hx]. exists (take (Z.to_nat (order / 2)) l), s, r, (drop (S (Z.to_nat (order / 2))) l).
  split; [by rewrite take_drop_middle|]. unfold len. rewrite length_take, Nat.min_l by lia. apply Z2Nat.id. by rewrite order_value.
Qed.

Lemma split_new_page : next_page st ≠ p.
Proof using T Hn. pose proof (to_fresh _ _ _ _ _ T p (ex_intro _ _ Hn)). lia. Qed.

(** What the calls of [split] leave is a split that the parent does not know of. *)
Lemma split_pending l1 s r l2 nl nr ns :
  l = l1 ++ (s, r) :: l2 → len l1 = order / 2 →
  node_holds nl l1 →
  hdr nl = (prev_leaf n, if is_leaf n then next_page st else next_leaf n, next_page st, s, is_leaf n, true, is_root n) →
  node_holds nr ((if is_leaf n then s else NEG_KEY, r) :: l2) →
  hdr nr = (if is_leaf n then p else INVALID_PAGE_ID, if is_leaf n then next_leaf n else INVALID_PAGE_ID,
            right_sibling n, NEG_KEY, is_leaf n, false, false) →
  (∀ x, ns !! x =
    if decide (x = p) then Some nl else if decide (x = next_page st) then Some nr
    else if is_leaf n && (x =? next_leaf n) then set_prev_leaf (next_page st) <$> nodes st !! x else nodes st !! x) →
  ∃ C' G', pending C' G' H m p (next_page st) s sp trace (mkStore ns (head st) (next_page st + 1)) ∧ keeps_leaves G C' ∧
    (level sp = 0%nat →
       ∃ nb r l2, ns !! next_page st = Some nb ∧ next_leaf nb ≠ INVALID_PAGE_ID ∧ node_holds nb ((s, r) :: l2)).
Proof using T Hfull Hrooted Hp Hpath Hn Hok Hsize.
  intros El Hhalf Hnl Hnl' Hnr Hnr' Hns.
  assert (node_ok G G root m full p sp n (l1 ++ (s, r) :: l2)) as Hok' by (by rewrite <- El).
  pose proof split_new_page as Hqp.
  assert (0 < len l1 ∧ len l1 < order ∧ len ((s, r) :: l2) < order) as (Hlen1 & Hlen2 & Hlen3).
  { rewrite El, len_app' in Hsize. rewrite order_value in *. change (253 / 2) with 126 in Hhalf. lia. }
  assert (l1 ≠ []) as Hl1 by (by intros ->).
  pose proof (rt_root _ _ _ Hrooted) as Hroot.
  pose proof (tree_split G m full st p sp n l1 s r l2 (next_page st) nl nr ns T Hfull Hp Hn Hok' Hl1 Hlen2 Hlen3 eq_refl
    (ex_intro _ _ Hroot) Hnl Hnl' Hnr Hnr' Hns) as T'.
  pose proof (split_range G m full st p sp n l1 s r l2 (next_page st) nl nr ns T Hfull Hp Hn Hok' Hl1 Hlen2 Hlen3 eq_refl
    (ex_intro _ _ Hroot) Hnl Hnl' Hnr Hnr' Hns) as Hs.
  pose proof (split_fresh_span G m full st p sp n l1 s r l2 (next_page st) nl nr ns T Hfull Hp Hn Hok' Hl1 Hlen2 Hlen3 eq_refl
    (ex_intro _ _ Hroot) Hnl Hnl' Hnr Hnr' Hns) as Hq.
  pose proof (no_leaf _ _ _ _ _ _ _ _ _ Hok) as Hleaf.
  assert (∀ x, x ∈ (s, r) :: l2 → x ∈ l) as Hsub by (intros x Hx; rewrite El; apply elem_of_app; by right).
  eexists _, _. split; [split; cbn [head]|split].
  - exact T'.
  - done.
  - eapply (seen_same G m full st p sp n l); try done. eapply (above_up G m full st p sp); try done; lia.
  - unfold seen. destruct (is_leaf n); [done|]. by rewrite reparent_lookup, Hq.
  - done.
  - eapply (seen_path G m full st p sp n l); try done; lia.
  - eapply (seen_rooted G m full st p sp n l); try done; lia.
  - apply seen_leaves.
  - intros Hlv. exists nr, r, l2. rewrite Hns, decide_False, decide_True by done. split; [done|].
    rewrite Hlv in Hleaf. cbn in Hleaf. destruct (next_leaf_page Hleaf) as (Hx & _).
    rewrite Hleaf in Hnr, Hnr'. split; [|done]. apply hdr_fields in Hnr' as (_ & -> & _). done.
Qed.

Lemma wp_split (Q : Z * Z → BLink → Prop) :
  (∀ C' G' q s st', pending C' G' H m p q s sp trace st' → head st' = head st → keeps_leaves G C' →
     (level sp = 0%nat → ∃ nb r l2, nodes st' !! q = Some nb ∧ next_leaf nb ≠ INVALID_PAGE_ID ∧ node_holds nb ((s, r) :: l2)) →
     Q (q, s) (mkBLink st' h (<[q := true]> {[p := true]}))) →
  wp (split p) Q (mkBLink st h {[p := true]}).
Proof using All.
  intros HQ. destruct split_point as (l1 & s & r & l2 & El & Hhalf).
  eapply wp_split_calls; [exact Hn|rewrite <- El; apply Hok|by rewrite <- El|exact Hhalf|exact split_new_page|exact next_leaf_page|].
  intros nl nr ns Hnl Hnl' Hnr Hnr' Hns.
  destruct (split_pending l1 s r l2 nl nr ns El Hhalf Hnl Hnl' Hnr Hnr' Hns) as (C' & G' & P' & HK & Hb).
  by eapply HQ.
Qed.
End split.
