(* ===== verification/BLinkInsert.v ===== *)
(** Telling the parent of a split, up to a new root: [insert_into_parent] ends with the
    index whole again. *)

From stdpp Require Import sorting.
From S2P Require Import Prelude Common Bytes Record BLinkNode BLinkTree BLinkInv BLinkSteps BLinkParent BLinkCalls BLinkSplit.

#[local] Arguments replicate : simpl never.
#[local] Arguments Z.to_nat : simpl never.
#[local] Arguments order : simpl never.

Lemma wp_init_internal_node n (Q : unit → BLNode → Prop) :
  node_holds n [] → is_leaf n = false →
  (∀ n' r, node_holds n' [(NEG_KEY, r)] →
     hdr n' = (prev_leaf n, next_leaf n, INVALID_PAGE_ID, NEG_KEY, false, false, is_root n) → Q tt n') →
  wp init_internal_node Q n.
Proof.
  intros [Hs Hk Hr Hkr Hrr] Hleaf HQ. unfold init_internal_node. wp_step. wp_step. wp_step.
  wp_step; [by rewrite Hs|]. wp_step. wp_step. wp_step. wp_step; [by rewrite Hleaf|]. wp_step.
  unfold set_key. apply wp_array_write; [done|rewrite Hkr, order_value; by vm_compute|]. wp_step. wp_step. wp_step. wp_step. wp_step.
  destruct (rids n) as [|r rest] eqn:E; [rewrite order_value in Hrr; done|].
  apply (HQ _ r).
  - split; cbn [num_key keys rids set_right_sibling reset_high_key set_size set_keys].
    + done.
    + change (Z.of_nat 0) with 0. unfold overlay. change (Z.to_nat 0) with 0%nat. done.
    + by rewrite E.
    + unfold len in *. by rewrite length_overlay; unfold len; rewrite ?Hkr, ?order_value.
    + by rewrite E.
  - unfold hdr. cbn. by rewrite Hleaf.
Qed.

(** ** Latches of two pages *)

Lemma two_latches_release_first (a b : Z) (x y : bool) : a ≠ b →
  delete a (<[a := x]> ({[b := y]} : gmap Z bool)) = {[b := y]}.
Proof. intros Hne. apply delete_insert_id. by apply lookup_singleton_ne. Qed.

Lemma two_latches_release_second (a b : Z) (x y : bool) : a ≠ b →
  delete b (<[a := x]> ({[b := y]} : gmap Z bool)) = {[a := x]}.
Proof. intros Hne. by rewrite delete_insert_ne, delete_singleton_eq, insert_empty by congruence. Qed.

(** ** A new root *)

Section new_root.
Context (C G : Spans) (H : nat) (m : gmap Z Rid) (p q s : Z) (sp : Span) (trace : list Z) (st : BLStore).
Hypothesis P : pending C G H m p q s sp trace st.

Lemma pending_new : q ≠ p.
Proof using P. intros ->. pose proof (pd_old _ _ _ _ _ _ _ _ _ _ P). pose proof (pd_new _ _ _ _ _ _ _ _ _ _ P). congruence. Qed.

Lemma pending_p : G !! p = Some (mkSpan (level sp) (lo sp) s (up sp)).
Proof using P. rewrite (pd_spans _ _ _ _ _ _ _ _ _ _ P). apply lookup_insert_eq. Qed.

Lemma pending_q : G !! q = Some (mkSpan (level sp) s (hi sp) (up sp)).
Proof using P.
  pose proof pending_new. rewrite (pd_spans _ _ _ _ _ _ _ _ _ _ P). unfold halves.
  by rewrite lookup_insert_ne, lookup_insert_eq by congruence.
Qed.

Lemma pending_other x : x ≠ p → x ≠ q → G !! x = C !! x.
Proof using P. intros. rewrite (pd_spans _ _ _ _ _ _ _ _ _ _ P). unfold halves. by rewrite !lookup_insert_ne by congruence. Qed.

Lemma pending_span x sx : C !! x = Some sx → ∃ sx', G !! x = Some sx' ∧ level sx' = level sx ∧ up sx' = up sx.
Proof using P.
  intros Hx. destruct (decide (x = p)) as [->|Hxp].
  - rewrite (pd_old _ _ _ _ _ _ _ _ _ _ P) in Hx. injection Hx as <-. eexists. by split; [apply pending_p|].
  - exists sx. rewrite pending_other; [done|done|]. intros ->. by rewrite (pd_new _ _ _ _ _ _ _ _ _ _ P) in Hx.
Qed.

Lemma pending_back x sx : G !! x = Some sx → x = q ∨ ∃ sx', C !! x = Some sx' ∧ level sx = level sx' ∧ up sx = up sx'.
Proof using P.
  intros Hx. destruct (decide (x = q)) as [->|Hxq]; [by left|right]. destruct (decide (x = p)) as [->|Hxp].
  - rewrite pending_p in Hx. injection Hx as <-. exists sp. split; [apply P|done].
  - rewrite pending_other in Hx by done. by exists sx.
Qed.

Lemma pending_leaves : keeps_leaves C G.
Proof using P. intros x sx Hx Hl. destruct (pending_span _ _ Hx) as (sx' & ? & ? & _). exists sx'. split; [done|congruence]. Qed.

Lemma pending_level x sx : G !! x = Some sx → (level sx ≤ H)%nat.
Proof using P.
  pose proof (pd_rooted _ _ _ _ _ _ _ _ _ _ P) as R. intros Hx. destruct (pending_back _ _ Hx) as [->|(sx' & Hx' & -> & _)].
  - rewrite pending_q in Hx. injection Hx as <-. cbn [level]. apply (rt_level _ _ _ R p). apply P.
  - by apply (rt_level _ _ _ R x).
Qed.

Lemma pending_node x sx : G !! x = Some sx →
  ∃ n l, nodes st !! x = Some n ∧ node_ok C G (root_page_id (head st)) m None x sx n l.
Proof using P. apply (to_node _ _ _ _ _ (pd_tree _ _ _ _ _ _ _ _ _ _ P)). Qed.

(** The shape with the new root. *)
Definition root_grown (R : Z) : Spans :=
  <[R := mkSpan (S H) 0 TOP None]> (<[p := mkSpan H 0 s (Some R)]> (<[q := mkSpan H s TOP (Some R)]> G)).

Section grown.
Context (np nq nR : BLNode) (ns : gmap Z BLNode) (k x y : Z).
Abbreviation R := (next_page st).
Hypothesis Hroot : p = root_page_id (head st).
Hypothesis Hnp : nodes st !! p = Some np.
Hypothesis Hnq : nodes st !! q = Some nq.
Hypothesis HnR : node_holds nR [(k, mkRid p x); (s, mkRid q y)].
Hypothesis HnR' : right_sibling nR = INVALID_PAGE_ID ∧ is_leaf nR = false ∧ has_high_key nR = false ∧ is_root nR = true.
Hypothesis Hns : ∀ z, ns !! z = if decide (z = R) then Some nR else if decide (z = p ∨ z = q) then set_is_root false <$> nodes st !! z
  else nodes st !! z.

Lemma grown_old : sp = mkSpan H 0 TOP None.
Proof using P Hroot.
  pose proof (pd_old _ _ _ _ _ _ _ _ _ _ P) as Hp. pose proof (rt_root _ _ _ (pd_rooted _ _ _ _ _ _ _ _ _ _ P)) as Hr.
  rewrite <- Hroot, Hp in Hr. by injection Hr as ->.
Qed.

Lemma grown_tree : tree_ok (root_grown R) (root_grown R) m None (mkStore ns (set_root_page_id R (head st)) (R + 1)).
Proof using All.
  pose proof grown_old as E. pose proof P as [T HG Hp Hq Hs Hpath [Hr Ht Hl]]. rewrite E in HG, Hp, Hs. cbn [lo hi] in Hs.
  eapply (tree_root C G m st p q s H R np nq nR ns k x y); try done. apply pending_level.
Qed.

Lemma grown_at z sz : root_grown R !! z = Some sz →
  z = R ∧ sz = mkSpan (S H) 0 TOP None ∨ (level sz ≤ H)%nat ∧ is_Some (up sz).
Proof using P Hroot.
  pose proof P as [T HG Hp Hq Hs Hpath [Hr Ht Hl]]. unfold root_grown. rewrite !lookup_insert.
  case_decide; [intros [= <-]; by left|]. case_decide; [intros [= <-]; right; split; [cbn; lia|by eexists]|].
  case_decide; [intros [= <-]; right; split; [cbn; lia|by eexists]|]. intros Hz. right.
  rewrite pending_other in Hz by congruence. split; [by eapply Hl|]. apply (Ht z); [done|]. congruence.
Qed.

Lemma root_index : index_ok (root_grown R) (S H) m (mkStore ns (set_root_page_id R (head st)) (R + 1)).
Proof using All.
  split; [apply grown_tree|apply lookup_insert_eq|..]; cbn [head root_page_id set_root_page_id].
  - intros z sz [[-> _]|[_ Hz]]%grown_at Hne; done.
  - intros z sz [[_ ->]|[Hz _]]%grown_at; [done|lia].
Qed.

Lemma root_leaves : keeps_leaves C (root_grown R).
Proof using P Hroot.
  pose proof grown_old as E. pose proof P as [T HG Hp Hq Hs Hpath [Hr Ht Hl]]. intros z sz Hz Hlz.
  unfold root_grown. rewrite !lookup_insert. case_decide as HzR.
  - exfalso. subst z. destruct (pending_span _ _ Hz) as (sz' & Hz' & _). destruct (pending_node _ _ Hz') as (n & _ & Hn & _).
    pose proof (to_fresh _ _ _ _ _ T _ (ex_intro _ _ Hn)). lia.
  - case_decide as Hzp; [eexists; split; [done|]; cbn; subst z; rewrite E in Hp; rewrite Hz in Hp; by injection Hp as ->|].
    case_decide as Hzq; [subst z; congruence|]. exists sz. rewrite pending_other by congruence. done.
Qed.
End grown.

Lemma wp_new_root fh kc (Q : unit → BLink → Prop) :
  p = root_page_id (head st) →
  (∀ G' H' st' fh', index_ok G' H' m st' → keeps_leaves C G' → Q tt (mkBLink st' (mkHandle fh' kc) ∅)) →
  wp (new_root p s q) Q (mkBLink st (mkHandle fh kc) (<[q := true]> {[p := true]})).
Proof using P.
  intros Hroot HQ. pose proof pending_new as Hqp.
  destruct (pending_node _ _ pending_p) as (np & lp & Hnp & Hokp). destruct (pending_node _ _ pending_q) as (nq & lq & Hnq & Hokq).
  pose proof (to_fresh _ _ _ _ _ (pd_tree _ _ _ _ _ _ _ _ _ _ P) _ (ex_intro _ _ Hnp)) as Hfp.
  pose proof (to_fresh _ _ _ _ _ (pd_tree _ _ _ _ _ _ _ _ _ _ P) _ (ex_intro _ _ Hnq)) as Hfq.
  assert (next_page st ≠ p ∧ next_page st ≠ q) as [HRp HRq] by lia.
  pose proof (to_page _ _ _ _ _ (pd_tree _ _ _ _ _ _ _ _ _ _ P) _ (ex_intro _ _ pending_p)) as Hp2.
  unfold new_root. wp_step. unfold create_node. wp_step. wp_step. wp_step. at_store. wp_step. wp_step.
  unfold set_next_page, set_nodes. at_store. wp_step. eapply wp_fetch_node; [at_page|at_page|]. cbn [for_writing].
  wp_step. on_node. wp_step. wp_step. at_store. on_node. eapply wp_init_internal_node; [split; apply zero_node_holds|done|].
  intros n1 r1 Hn1 Hh1. wp_step. at_store. on_node. eapply (wp_set_rid _ _ 0%nat 0 _ (NEG_KEY, r1)); [exact Hn1|done|done|].
  intros n2 Hn2 Hh2. wp_step. at_store. on_node.
  eapply (wp_insert_pair _ [(NEG_KEY, mkRid p (-1))] s (mkRid q (-1)) []); [exact Hn2|by vm_compute|].
  intros n3 Hn3 Hh3. at_store. wp_step. on_node. wp_step. wp_step. at_store. on_node. wp_step. wp_step. at_store.
  apply wp_release_node; [at_page|]. rewrite delete_insert_ne, two_latches_release_first by congruence.
  wp_step. apply wp_release_node; [at_page|]. rewrite two_latches_release_second by congruence.
  wp_step. apply wp_release_node; [at_page|]. rewrite delete_singleton_eq.
  wp_step. unfold x_get_file_hdr. wp_step. apply wp_latch; [apply lookup_empty|]. wp_step. wp_step. wp_step. at_store.
  unfold set_file_hdr. at_store. cbn [key2leaf]. wp_step. wp_step. at_store. cbn [file_hdr key2leaf].
  unfold x_release_file_hdr. wp_step. wp_step. wp_step. wp_step. unfold set_head. at_store. cbn [file_hdr].
  apply wp_unlatch; [at_page|]. rewrite delete_insert_id by at_page.
  cbn [app] in Hn3.
  assert (hdr n3 = (INVALID_PAGE_ID, INVALID_PAGE_ID, INVALID_PAGE_ID, NEG_KEY, false, false, true)) as Hh.
  { by rewrite Hh3, Hh2, Hh1. }
  apply (HQ (root_grown (next_page st)) (S H)); [|by apply root_leaves].
  eapply root_index; [done|exact Hnp|exact Hnq|exact Hn3|..].
  - apply hdr_fields in Hh as (_ & _ & -> & _ & -> & -> & ->). done.
  - intros z. rewrite !lookup_insert. repeat case_decide; subst; try done; try tauto; try congruence.
    + by rewrite Hnq.
    + by rewrite Hnp.
    + exfalso. intuition congruence.
Qed.
End new_root.

(** ** The parents *)

Lemma path_ok_mono C G root trace p :
  (∀ x sx, C !! x = Some sx → ∃ sx', G !! x = Some sx' ∧ level sx' = level sx ∧ up sx' = up sx) →
  path_ok C root trace p → path_ok G root trace p.
Proof.
  intros HCG. revert p. induction trace as [|q trace IH]; intros p; [done|]. intros [(sp & Hp & Hup) Hpath].
  split; [|by apply IH]. destruct (HCG _ _ Hp) as (sp' & Hp' & _ & Hup'). exists sp'. split; [done|congruence].
Qed.

(** The place of a child in its parent. *)
Lemma child_place C p sp l x : inner_ok C p sp l → x ∈ l →
  ∃ l1 k r l2, l = l1 ++ (k, r) :: l2 ∧ page_no_ r = page_no_ x.2 ∧ Forall (λ y, page_no_ y.2 ≠ page_no_ r) l1.
Proof.
  intros Hin Hx. apply list_elem_of_lookup in Hx as [i Hi]. destruct x as [k r].
  exists (take i l), k, r, (drop (S i) l). split; [by rewrite take_drop_middle|]. split; [done|].
  apply Forall_forall. intros y Hy E. apply list_elem_of_lookup in Hy as [j [Hj Hlt]%lookup_take_Some].
  pose proof (child_index _ _ _ _ _ _ _ _ Hin Hj Hi E). lia.
Qed.

(** The size of a node after an insertion decides whether it is split. *)
Definition full_at (k : Z) (p : Z) : option Z := if k =? order then Some p else None.

Section parent.
Context (C G : Spans) (H : nat) (m : gmap Z Rid) (p q s : Z) (sp : Span) (P0 : Z) (trace : list Z) (st : BLStore).
Hypothesis P : pending C G H m p q s sp (P0 :: trace) st.

Lemma parent_up : up sp = Some P0 ∧ path_ok C (root_page_id (head st)) trace P0.
Proof using P.
  destruct (pd_path _ _ _ _ _ _ _ _ _ _ P) as [(sp' & Hp & Hup) Hpath].
  rewrite (pd_old _ _ _ _ _ _ _ _ _ _ P) in Hp. by injection Hp as <-.
Qed.

Lemma parent_rooted : rooted G (root_page_id (head st)) H.
Proof using P.
  pose proof (pd_rooted _ _ _ _ _ _ _ _ _ _ P) as [Hr Ht Hl]. split.
  - rewrite (pending_other _ _ _ _ _ _ _ _ _ _ P); [done|..]; intros E; rewrite E in Hr.
    + pose proof (pd_old _ _ _ _ _ _ _ _ _ _ P) as Hp. rewrite Hr in Hp. injection Hp as E'.
      destruct parent_up as [Hup _]. rewrite <- E' in Hup. discriminate Hup.
    + by rewrite (pd_new _ _ _ _ _ _ _ _ _ _ P) in Hr.
  - intros x sx Hx Hne. destruct (pending_back _ _ _ _ _ _ _ _ _ _ P _ _ Hx) as [->|(sx' & Hx' & _ & ->)]; [|by eapply Ht].
    rewrite (pending_q _ _ _ _ _ _ _ _ _ _ P) in Hx. injection Hx as <-. cbn [up]. destruct parent_up as [-> _]. by eexists.
  - by apply (pending_level _ _ _ _ _ _ _ _ _ _ P).
Qed.

(** What the parent is before and after. *)
Lemma parent_node : ∃ sP n l1 k r l2,
  G !! P0 = Some sP ∧ P0 ≠ p ∧ P0 ≠ q ∧ nodes st !! P0 = Some n ∧
  node_ok C G (root_page_id (head st)) m None P0 sP n (l1 ++ (k, r) :: l2) ∧ page_no_ r = p ∧
  Forall (λ y, page_no_ y.2 ≠ page_no_ r) l1 ∧ (0 < level sP)%nat.
Proof using P.
  destruct parent_up as [Hup _]. pose proof (pd_tree _ _ _ _ _ _ _ _ _ _ P) as T.
  pose proof (pd_old _ _ _ _ _ _ _ _ _ _ P) as Hp. destruct (up_level _ _ _ _ _ _ _ _ T Hp Hup) as (sP & HP & Hlv).
  destruct (to_up _ _ _ _ _ T _ _ _ Hp Hup) as (sP' & n & l & x & HP' & _ & Hn & Hl & Hx & Ex).
  rewrite HP in HP'. injection HP' as <-. destruct (pending_node _ _ _ _ _ _ _ _ _ _ P _ _ HP) as (n' & l' & Hn' & Hok).
  rewrite Hn in Hn'. injection Hn' as <-. assert (l' = l) as -> by (eapply node_holds_unique; [apply Hok|done]).
  assert (inner_ok C P0 sP l) as Hin.
  { pose proof (no_body _ _ _ _ _ _ _ _ _ Hok) as Hb. by rewrite Hlv in Hb. }
  destruct (child_place _ _ _ _ _ Hin Hx) as (l1 & k & r & l2 & -> & Er & H1).
  exists sP, n, l1, k, r, l2. split; [done|].
  split; [intros E; rewrite E, (pending_p _ _ _ _ _ _ _ _ _ _ P) in HP; injection HP as <-; cbn [level] in Hlv; lia|].
  split; [intros E; rewrite E, (pending_q _ _ _ _ _ _ _ _ _ _ P) in HP; injection HP as <-; cbn [level] in Hlv; lia|].
  split; [done|]. split; [done|]. split; [congruence|]. split; [done|lia].
Qed.

Lemma parent_path : path_ok G (root_page_id (head st)) trace P0.
Proof using P. eapply path_ok_mono; [|apply parent_up]. apply (pending_span _ _ _ _ _ _ _ _ _ _ P). Qed.

(** The parent with the new child. *)
Section told.
Context (sP : Span) (n n' : BLNode) (l1 : pairs) (k : Z) (r : Rid) (l2 : pairs).
Abbreviation l' := (l1 ++ (k, r) :: (s, mkRid q (-1)) :: l2).
Abbreviation st' := (with_nodes (<[P0 := n']> (nodes st)) st).
Hypothesis HP : G !! P0 = Some sP.
Hypothesis Hn : nodes st !! P0 = Some n.
Hypothesis Hok : node_ok C G (root_page_id (head st)) m None P0 sP n (l1 ++ (k, r) :: l2).
Hypothesis Er : page_no_ r = p.
Hypothesis Hlv : (0 < level sP)%nat.
Hypothesis Hn' : node_holds n' l'.
Hypothesis Hh : hdr n' = hdr n.

Lemma told_room : len l' ≤ order.
Proof using Hok.
  assert (len (l1 ++ (k, r) :: l2) < order) as Hroom by (destruct (no_room _ _ _ _ _ _ _ _ _ Hok) as [|[_ ?]]; done).
  clear -Hroom. rewrite !len_app' in *. unfold len in *. simpl in *. lia.
Qed.

Lemma told_tree : tree_ok G G m (full_at (len l') P0) st'.
Proof using All.
  assert (len l' < order ∨ (len l' = order ∧ full_at (len l') P0 = Some P0)) as Hfull.
  { pose proof told_room. unfold full_at. destruct (len l' =? order) eqn:E; bool_simpl; [by right|left; lia]. }
  destruct parent_up as [Hup _].
  exact (tree_parent C G m (full_at (len l') P0) st p q sp s P0 sP n n' l1 k r l2 (-1) (pd_tree _ _ _ _ _ _ _ _ _ _ P)
    (pd_spans _ _ _ _ _ _ _ _ _ _ P) (pd_old _ _ _ _ _ _ _ _ _ _ P) (pd_new _ _ _ _ _ _ _ _ _ _ P)
    (pd_key _ _ _ _ _ _ _ _ _ _ P) Hup HP Hn Hok Er Hlv Hn' Hh Hfull).
Qed.

Lemma told_index : len l' ≠ order → index_ok G H m st'.
Proof using All.
  intros E. pose proof told_tree as T. unfold full_at in T. rewrite (proj2 (Z.eqb_neq _ _) E) in T.
  apply rooted_index; [done|exact parent_rooted].
Qed.

Lemma told_full : len l' = order →
  tree_ok G G m (Some P0) st' ∧ node_ok G G (root_page_id (head st)) m (Some P0) P0 sP n' l'.
Proof using All.
  intros E. pose proof told_tree as T. unfold full_at in T. rewrite (proj2 (Z.eqb_eq _ _) E) in T. split; [done|].
  destruct (to_node _ _ _ _ _ T _ _ HP) as (n'' & l'' & Hn'' & Hok'). cbn [nodes with_nodes] in Hn''.
  rewrite lookup_insert_eq in Hn''. injection Hn'' as <-.
  assert (l'' = l') as -> by (eapply node_holds_unique; [apply Hok'|done]). exact Hok'.
Qed.
End told.
End parent.

Lemma wp_insert_into_parent H m trace C G p q s sp st fh kc (Q : unit → BLink → Prop) :
  pending C G H m p q s sp trace st →
  (∀ G' H' st' fh', index_ok G' H' m st' → keeps_leaves C G' → Q tt (mkBLink st' (mkHandle fh' kc) ∅)) →
  wp (insert_into_parent trace p s q) Q (mkBLink st (mkHandle fh kc) (<[q := true]> {[p := true]})).
Proof.
  revert C G p q s sp st Q. induction trace as [|P0 trace IH]; intros C G p q s sp st Q P HQ; cbn [insert_into_parent];
    pose proof (pending_new _ _ _ _ _ _ _ _ _ _ P) as Hqp;
    destruct (pending_node _ _ _ _ _ _ _ _ _ _ P _ _ (pending_p _ _ _ _ _ _ _ _ _ _ P)) as (np & lp & Hnp & Hokp);
    wp_step; (on_node; wp_step); rewrite (no_root _ _ _ _ _ _ _ _ _ Hokp).
  - pose proof (pd_path _ _ _ _ _ _ _ _ _ _ P) as Hroot. cbn [path_ok] in Hroot. rewrite bool_decide_true by done.
    by eapply wp_new_root.
  - pose proof (parent_rooted _ _ _ _ _ _ _ _ _ _ _ P) as HrG. destruct (parent_up _ _ _ _ _ _ _ _ _ _ _ P) as [Hup Hpath].
    destruct (parent_node _ _ _ _ _ _ _ _ _ _ _ P) as (sP & n & l1 & k & r & l2 & HP & HPp & HPq & Hn & Hok & Er & H1 & Hlv).
    assert (p ≠ root_page_id (head st)) as Hpr.
    { intros E. pose proof (rt_root _ _ _ HrG) as Hr. rewrite <- E, (pending_p _ _ _ _ _ _ _ _ _ _ P) in Hr. injection Hr as _ _ _ Hr. congruence. }
    rewrite bool_decide_false by done. cbv iota. wp_step. apply wp_release_node; [at_page|]. rewrite two_latches_release_first by done.
    wp_step. eapply wp_fetch_node; [exact Hn|at_page|]. cbn [for_writing]. wp_step. apply wp_release_node; [at_page|].
    rewrite two_latches_release_second by done. wp_step. unfold parent_for.
    pose proof (no_holds _ _ _ _ _ _ _ _ _ Hok) as Hl.
    wp_step. wp_step. wp_step. on_node. rewrite <- Er. eapply (wp_find_child n _ Hl); [done|exact H1|].
    rewrite (proj2 (Z.eqb_neq _ _)) by lia. cbv iota. wp_step. wp_step. on_node. eapply (wp_find_child n _ Hl); [done|exact H1|].
    assert (len (l1 ++ (k, r) :: (s, mkRid q (-1)) :: l2) ≤ order) as Hroom by (eapply told_room; exact Hok).
    wp_step. on_node. assert (Z.of_nat (length l1) + 1 = len (l1 ++ [(k, r)])) as -> by (unfold len; rewrite length_app; simpl; lia).
    apply (wp_insert_pairs n (l1 ++ [(k, r)]) l2 [(s, mkRid q (-1))]).
    { by rewrite <- app_assoc. }
    { rewrite <- !app_assoc. cbn [app]. lia. }
    intros n' Hn' Hh. rewrite <- !app_assoc in Hn'. cbn [app] in Hn'.
    assert (keeps_leaves C G) as HCG by apply (pending_leaves _ _ _ _ _ _ _ _ _ _ P).
    wp_step. on_node. wp_step. rewrite (nh_size _ _ Hn'). unfold get_max_size. match goal with |- wp (if ?a =? ?b then _ else _) _ _ => destruct (a =? b) eqn:E end; bool_simpl; cbv iota.
    + edestruct told_full as [T' Hok']; [exact P|exact HP|exact Hn|exact Hok|exact Er|exact Hlv|exact Hn'|exact Hh|exact E|].
      wp_step. eapply (wp_split G H m (Some P0) _ _ P0 sP n' _ trace); try done.
      { by intros x [= ->]. }
      { exact (parent_path _ _ _ _ _ _ _ _ _ _ _ P). }
      { at_page. }
      intros C2 G2 q2 s2 st2 P2 _ HK _. cbv iota. eapply IH; [exact P2|]. intros G3 H3 st3 fh3 I3 K3.
      eapply HQ; [exact I3|]. eapply keeps_leaves_trans; [exact HCG|]. by eapply keeps_leaves_trans.
    + apply wp_release_node; [at_page|]. rewrite delete_singleton_eq. eapply HQ; [|exact HCG].
      eapply told_index; [exact P|exact HP|exact Hn|exact Hok|exact Er|exact Hlv|exact Hn'|exact Hh|exact E].
Qed.
