(* ===== verification/BLinkOps.v ===== *)
(** The operations of the B-link index against a map from keys to record positions. *)

From stdpp Require Import sorting.
From S2P Require Import Prelude Common Bytes Record BLinkNode BLinkTree BLinkInv BLinkSteps BLinkParent BLinkCalls BLinkSplit BLinkInsert.

#[local] Arguments replicate : simpl never.
#[local] Arguments Z.to_nat : simpl never.
#[local] Arguments order : simpl never.

(** ** The pairs of a leaf as a map *)

Lemma pairs_map_insert key v l1 l2 k : Forall (λ p, p.1 < key) l1 →
  pairs_map (l1 ++ (key, v) :: l2) !! k = if decide (k = key) then Some v else pairs_map (l1 ++ l2) !! k.
Proof.
  intros H1. rewrite !pairs_map_app. unfold pairs_map at 2. cbn [list_to_map fst snd foldr uncurry].
  case_decide as E.
  - subst k. rewrite (pairs_map_below key l1) by done. apply lookup_insert_eq.
  - destruct (pairs_map l1 !! k); [done|]. by apply lookup_insert_ne.
Qed.

Lemma sorted_insert key v l1 l2 : sorted (l1 ++ l2) → Forall (λ p, p.1 < key) l1 → Forall (λ p, key < p.1) l2 →
  sorted (l1 ++ (key, v) :: l2).
Proof.
  intros Hs H1 H2. apply StronglySorted_app in Hs as (H12 & Hs1 & Hs2). apply StronglySorted_app.
  rewrite Forall_forall in H1, H2. split; [|split; [done|]].
  - intros x y Hx Hy. apply elem_of_cons in Hy as [->|Hy]; [by apply H1|by apply H12].
  - apply StronglySorted_cons. split; [|done]. apply Forall_forall. intros y Hy. by apply H2.
Qed.

Lemma insert_middle {A} (l1 : list A) x y l2 : <[length l1 := y]> (l1 ++ x :: l2) = l1 ++ y :: l2.
Proof. induction l1 as [|z l1 IH]; [done|]. simpl. by rewrite IH. Qed.

Lemma sorted_delete p l1 l2 : sorted (l1 ++ p :: l2) → sorted (l1 ++ l2).
Proof.
  intros (H12 & Hs1 & Hs2)%StronglySorted_app. apply StronglySorted_cons in Hs2 as [_ Hs2].
  apply StronglySorted_app. split; [|done]. intros x y Hx Hy. apply H12; [done|by right].
Qed.

Section leaf_maps.
Context (m : gmap Z Rid) (sp : Span) (key : Z) (l1 l2 : pairs).
Hypothesis Hkey : covers sp key.

Lemma leaf_insert v : leaf_ok m sp (l1 ++ l2) → Forall (λ p, p.1 < key) l1 → Forall (λ p, key < p.1) l2 →
  leaf_ok (<[key := v]> m) sp (l1 ++ (key, v) :: l2).
Proof using Hkey.
  intros [Hs Hr Hm] H1 H2. split.
  - by apply sorted_insert.
  - apply Forall_app in Hr as [Hr1 Hr2]. apply Forall_app. split; [done|]. by constructor.
  - intros k Hk. rewrite pairs_map_insert by done. case_decide as E; [subst k; apply lookup_insert_eq|].
    rewrite lookup_insert_ne by done. by apply Hm.
Qed.

Lemma leaf_replace r v : leaf_ok m sp (l1 ++ (key, r) :: l2) →
  leaf_ok (<[key := v]> m) sp (l1 ++ (key, v) :: l2).
Proof using Hkey.
  intros [Hs Hr Hm]. apply sorted_around in Hs as Hb. destruct Hb as [H1 H2]. cbn [fst] in *. split.
  - apply sorted_insert; [by eapply sorted_delete|done|done].
  - apply Forall_app in Hr as [Hr1 Hr2]. apply Forall_app. split; [done|]. apply Forall_cons_1 in Hr2 as [_ Hr2]. by constructor.
  - intros k Hk. rewrite pairs_map_insert by done. case_decide as E; [subst k; apply lookup_insert_eq|].
    rewrite lookup_insert_ne, Hm, pairs_map_insert by done. by rewrite decide_False.
Qed.

Lemma leaf_delete r : leaf_ok m sp (l1 ++ (key, r) :: l2) → leaf_ok (delete key m) sp (l1 ++ l2).
Proof using Hkey.
  intros [Hs Hr Hm]. apply sorted_around in Hs as Hb. destruct Hb as [H1 H2]. cbn [fst] in *. split.
  - by eapply sorted_delete.
  - apply Forall_app in Hr as [Hr1 Hr2]. apply Forall_app. split; [done|]. by apply Forall_cons_1 in Hr2 as [_ Hr2].
  - intros k Hk. destruct (decide (k = key)) as [->|E].
    + rewrite lookup_delete_eq, pairs_map_app, (pairs_map_below key l1), (pairs_map_above key l2) by done. done.
    + rewrite lookup_delete_ne, Hm, pairs_map_insert by done. by rewrite decide_False.
Qed.
End leaf_maps.

(** ** The operations *)

Section operations.
Context (G : Spans) (H : nat) (m : gmap Z Rid) (st : BLStore) (fh : BLFileHdr) (kc : gmap Z Z) (key : Z).
Hypothesis I : index_ok G H m st.
Hypothesis K : cache_ok G (mkHandle fh kc).
Hypothesis Hkey : 0 ≤ key < TOP.

Abbreviation root := (root_page_id (head st)).
Abbreviation start := (mkBLink st (mkHandle fh kc) ∅).

(** A leaf, its node and its pairs. *)
Lemma leaf_node leaf sl : G !! leaf = Some sl → level sl = 0%nat →
  ∃ n l, nodes st !! leaf = Some n ∧ node_ok G G root m None leaf sl n l ∧ node_holds n l ∧ is_leaf n = true ∧ leaf_ok m sl l.
Proof using I.
  intros Hl Hlv. destruct (index_node _ _ _ _ I _ _ Hl) as (n & l & Hn & Hok). exists n, l. split; [done|]. split; [done|].
  split; [apply Hok|]. split; [rewrite (no_leaf _ _ _ _ _ _ _ _ _ Hok), Hlv; done|].
  pose proof (no_body _ _ _ _ _ _ _ _ _ Hok) as Hb. by rewrite Hlv in Hb.
Qed.

Lemma wp_checkIfDirectlyGetPage (Q : option Rid → BLink → Prop) :
  (∀ r, m !! key = Some r → Q (Some r) start) →
  (∀ kc', cache_ok G (mkHandle fh kc') → Q None (mkBLink st (mkHandle fh kc') ∅)) →
  wp (checkIfDirectlyGetPage key) Q start.
Proof using I K.
  intros Hsome Hnone. unfold checkIfDirectlyGetPage. wp_step. wp_step. at_store. cbn [key2leaf].
  destruct (kc !! key) as [p|] eqn:Ep; [|wp_step; by apply Hnone].
  destruct (K _ _ Ep) as (sp & Hp & Hlv). destruct (leaf_node _ _ Hp Hlv) as (n & l & Hn & Hok & Hl & Hleaf & [Hs Hr Hm]).
  wp_step. eapply wp_fetch_node; [exact Hn|apply lookup_empty|]. cbn [for_writing]. wp_step. on_node. wp_step. wp_step.
  wp_step; [done|]. wp_step. on_node. apply (wp_leaf_lookup n l Hl); [done|done|].
  destruct (pairs_map l !! key) as [r|] eqn:Er.
  - wp_step. apply wp_release_node; [at_page|]. rewrite delete_insert_id by apply lookup_empty. wp_step. apply Hsome.
    rewrite Hm, Er; [done|]. apply elem_of_list_to_map_2 in Er. rewrite Forall_forall in Hr. by apply (Hr (key, r)).
  - wp_step. wp_step. unfold set_key2leaf. at_store. cbn [file_hdr key2leaf]. wp_step. apply wp_release_node; [at_page|].
    rewrite delete_insert_id by apply lookup_empty. wp_step. apply Hnone. intros k x Hx. cbn [key2leaf] in Hx. apply lookup_delete_Some in Hx as [_ Hx].
    by eapply K.
Qed.

Lemma wp_search (Q : option Rid → BLink → Prop) :
  (∀ fh' kc', cache_ok G (mkHandle fh' kc') → Q (m !! key) (mkBLink st (mkHandle fh' kc') ∅)) →
  wp (search key) Q start.
Proof using I K Hkey.
  intros HQ. unfold search. wp_step. apply wp_checkIfDirectlyGetPage.
  - intros r Hr. wp_step. rewrite <- Hr. by apply HQ.
  - intros kc' K'. wp_step. eapply wp_find_leaf_for_search; [exact I|done|]. intros leaf sl Hl Hlv Hc.
    destruct (leaf_node _ _ Hl Hlv) as (n & l & Hn & Hok & Hnl & Hleaf & [Hs Hr Hm]). unfold search_leaf.
    wp_step. on_node. apply (wp_leaf_lookup n l Hnl); [done|done|]. rewrite <- Hm by done. wp_step.
    destruct (m !! key) as [r|] eqn:Er; wp_step; unfold set_key2leaf; at_store; cbn [file_hdr key2leaf]; wp_step;
      (apply wp_release_node; [at_page|]); rewrite delete_singleton_eq; wp_step; apply HQ; [|done].
    intros k x Hx. cbn [key2leaf] in Hx. destruct (decide (k = key)) as [->|Hne].
    + rewrite lookup_insert_eq in Hx. injection Hx as <-. by exists sl.
    + rewrite lookup_insert_ne in Hx by done. by eapply K'.
Qed.

(** A leaf with other pairs, not too many: the index of another map. *)
Lemma leaf_changed leaf sl n l n' l' m' :
  G !! leaf = Some sl → level sl = 0%nat → nodes st !! leaf = Some n → node_ok G G root m None leaf sl n l →
  hdr n' = hdr n → node_holds n' l' → len l' ≤ order → leaf_ok m' sl l' →
  (∀ k, ¬ covers sl k → m' !! k = m !! k) →
  tree_ok G G m' (full_at (len l') leaf) (with_nodes (<[leaf := n']> (nodes st)) st).
Proof using I.
  intros Hl Hlv Hn Hok Hh Hn' Hroom Hleaf Hm. eapply tree_leaf; try done; [apply I|].
  unfold full_at. destruct (len l' =? order) eqn:E; bool_simpl; [by right|left; lia].
Qed.

Lemma leaf_changed_index leaf sl n l n' l' m' :
  G !! leaf = Some sl → level sl = 0%nat → nodes st !! leaf = Some n → node_ok G G root m None leaf sl n l →
  hdr n' = hdr n → node_holds n' l' → len l' < order → leaf_ok m' sl l' →
  (∀ k, ¬ covers sl k → m' !! k = m !! k) →
  index_ok G H m' (with_nodes (<[leaf := n']> (nodes st)) st).
Proof using I.
  intros Hl Hlv Hn Hok Hh Hn' Hroom Hleaf Hm.
  assert (tree_ok G G m' (full_at (len l') leaf) (with_nodes (<[leaf := n']> (nodes st)) st)) as T
    by (eapply leaf_changed; try done; lia).
  unfold full_at in T. rewrite (proj2 (Z.eqb_neq _ _)) in T by lia. apply rooted_index; [done|exact (index_rooted _ _ _ _ I)].
Qed.

Lemma leaf_room leaf sl n l : node_ok G G root m None leaf sl n l → len l < order.
Proof using Type. intros Hok. by destruct (no_room _ _ _ _ _ _ _ _ _ Hok) as [|[_ ?]]. Qed.

(** Other keys are elsewhere. *)
Lemma other_key (m' : gmap Z Rid) sl k :
  covers sl key → (∀ j, j ≠ key → m' !! j = m !! j) → ¬ covers sl k → m' !! k = m !! k.
Proof using Type. intros Hc Hm Hk. apply Hm. by intros ->. Qed.

Lemma wp_split_leaf m' leaf sl n l tr fh' (Q : unit → BLink → Prop) :
  G !! leaf = Some sl → level sl = 0%nat → path_ok G root tr leaf →
  tree_ok G G m' (Some leaf) (with_nodes (<[leaf := n]> (nodes st)) st) → node_holds n l → len l = order →
  (∀ G' H' st' fh'', index_ok G' H' m' st' → keeps_leaves G G' → Q tt (mkBLink st' (mkHandle fh'' kc) ∅)) →
  wp (split_leaf leaf tr) Q (mkBLink (with_nodes (<[leaf := n]> (nodes st)) st) (mkHandle fh' kc) {[leaf := true]}).
Proof using I.
  intros Hl Hlv Htr T Hn Hfull HQ. destruct (to_node _ _ _ _ _ T _ _ Hl) as (n' & l' & Hn' & Hok).
  assert (n' = n) as -> by (revert Hn'; at_store; rewrite lookup_insert_eq; by intros [= ->]).
  assert (l' = l) as -> by (eapply node_holds_unique; [apply Hok|done]).
  unfold split_leaf. wp_step. eapply (wp_split G H m' (Some leaf) _ _ leaf sl n l tr); try done.
  { by intros x [= ->]. }
  { exact (index_rooted _ _ _ _ I). }
  intros C2 G2 q2 s2 st2 P2 _ HK Hb. destruct (Hb Hlv) as (nb & r & l2 & Hnb & Hnx & Hlb). wp_step. on_node. wp_step.
  rewrite (proj2 (Z.eqb_neq _ _)) by done. cbn [when]. wp_step. wp_step. wp_step. on_node.
  eapply (wp_get_key nb _ Hlb 0 0); [done|done|]. cbn [fst]. eapply wp_insert_into_parent; [exact P2|].
  intros G3 H3 st3 fh3 I3 K3. eapply HQ; [exact I3|]. by eapply keeps_leaves_trans.
Qed.

Lemma wp_insert_entry value (Q : Z → BLink → Prop) :
  (∀ r fh', m !! key = Some r → Q INVALID_PAGE_ID (mkBLink st (mkHandle fh' kc) ∅)) →
  (∀ leaf G' H' st' fh', m !! key = None → leaf ≠ INVALID_PAGE_ID → index_ok G' H' (<[key := value]> m) st' → keeps_leaves G G' →
     Q leaf (mkBLink st' (mkHandle fh' kc) ∅)) →
  wp (insert_entry key value) Q start.
Proof using I Hkey.
  intros Hold Hnew. unfold insert_entry. wp_step. eapply wp_find_leaf_for_insert; [exact I|done|]. intros leaf sl tr Hl Hlv Hc Htr.
  destruct (leaf_node _ _ Hl Hlv) as (n & l & Hn & Hok & Hnl & Hleaf & Hlf). pose proof (lf_map _ _ _ Hlf _ Hc) as Hm.
  cbv iota. unfold insert_at. wp_step. on_node. wp_step. wp_step. wp_step; [done|]. wp_step. on_node.
  apply (wp_lower_bound n l Hnl); [apply Hlf|]. intros i b Hloc. wp_step. on_node. eapply (wp_key_at n l Hnl); [exact Hloc|].
  rewrite (located_lookup _ _ _ _ Hloc) in Hm. destruct Hloc as [l1 r l2 H1 H2|l1 l2 H1 H2].
  - wp_step. apply wp_release_node; [at_page|]. rewrite delete_singleton_eq. wp_step.
    rewrite list_lookup_middle in Hm by done. by eapply Hold.
  - pose proof (leaf_room _ _ _ _ Hok) as Hroom. wp_step. on_node. wp_step. wp_step. on_node.
    eapply wp_insert; [exact Hnl|apply Hlf|lia|exact H1|exact H2|]. intros n' Hn' Hh. wp_step.
    wp_step; [rewrite (nh_size _ _ Hnl); apply negb_true_iff, Z.eqb_neq; lia|]. wp_step. on_node. wp_step. wp_step.
    rewrite (nh_size _ _ Hn'). set (l' := l1 ++ (key, value) :: l2) in *.
    assert (len l' ≤ order) as Hroom' by (unfold l'; rewrite len_app' in *; unfold len in *; simpl; lia).
    assert (leaf_ok (<[key := value]> m) sl l') as Hlf' by (by apply leaf_insert).
    assert (∀ k, ¬ covers sl k → <[key := value]> m !! k = m !! k) as Hother.
    { intros k. apply (other_key _ _ _ Hc). intros j Hj. by apply lookup_insert_ne. }
    assert (leaf ≠ INVALID_PAGE_ID) as Hvalid.
    { pose proof (to_page _ _ _ _ _ (ix_tree _ _ _ _ I) _ (ex_intro _ _ Hl)). unfold INVALID_PAGE_ID. lia. }
    unfold get_max_size. destruct (len l' =? order) eqn:E; bool_simpl; cbv iota.
    + eapply wp_split_leaf; try done.
      { assert (Some leaf = full_at (len l') leaf) as -> by (unfold full_at; by rewrite (proj2 (Z.eqb_eq _ _) E)).
        by eapply leaf_changed. }
      intros G' H' st' fh'' I' K'. wp_step. by eapply Hnew.
    + apply wp_release_node; [at_page|]. rewrite delete_singleton_eq. wp_step. eapply Hnew; [done|done| |].
      * eapply leaf_changed_index; try done. lia.
      * intros x sx Hx Hlx. by exists sx.
Qed.

Lemma wp_update_entry value (Q : Z → BLink → Prop) :
  value ≠ INDEX_NOT_FOUND → m !! key = Some INDEX_NOT_FOUND →
  (∀ leaf st' fh', leaf ≠ INVALID_PAGE_ID → index_ok G H (<[key := value]> m) st' →
     Q leaf (mkBLink st' (mkHandle fh' kc) ∅)) →
  wp (update_entry key value) Q start.
Proof using I Hkey.
  intros Hv Hm0 HQ. unfold update_entry. wp_step. wp_step; [by apply bool_decide_eq_true_2|]. wp_step.
  eapply wp_find_leaf_for_insert; [exact I|done|]. intros leaf sl tr Hl Hlv Hc Htr.
  destruct (leaf_node _ _ Hl Hlv) as (n & l & Hn & Hok & Hnl & Hleaf & Hlf). pose proof (lf_map _ _ _ Hlf _ Hc) as Hm.
  cbv iota. wp_step. on_node. wp_step. wp_step. wp_step; [done|]. wp_step. on_node.
  apply (wp_lower_bound n l Hnl); [apply Hlf|]. intros i b Hloc. wp_step. on_node. eapply (wp_key_at n l Hnl); [exact Hloc|].
  rewrite (located_lookup _ _ _ _ Hloc), Hm0 in Hm. destruct Hloc as [l1 r l2 H1 H2|l1 l2 H1 H2]; [|done].
  rewrite list_lookup_middle in Hm by done. cbn in Hm. injection Hm as <-.
  wp_step. wp_step; [done|]. wp_step. on_node. eapply (wp_get_rid n _ Hnl (length l1)); [done|by apply list_lookup_middle|]. cbn [snd].
  wp_step. wp_step; [by apply bool_decide_eq_true_2|]. wp_step. on_node.
  eapply (wp_set_rid _ _ (length l1)); [exact Hnl|done|by apply list_lookup_middle|]. intros n' Hn' Hh.
  rewrite insert_middle in Hn'. cbn [fst] in Hn'.
  wp_step. apply wp_release_node; [at_page|]. rewrite delete_singleton_eq. wp_step. apply HQ.
  { pose proof (to_page _ _ _ _ _ (ix_tree _ _ _ _ I) _ (ex_intro _ _ Hl)). unfold INVALID_PAGE_ID. lia. }
  eapply (leaf_changed_index leaf sl n); try done.
  - apply leaf_room in Hok. rewrite len_app' in *. unfold len in *. simpl in *. lia.
  - by eapply leaf_replace.
  - intros k. apply (other_key _ _ _ Hc). intros j Hj. by apply lookup_insert_ne.
Qed.

Lemma wp_delete_entry (Q : Rid → BLink → Prop) :
  (∀ fh', m !! key = None → Q INDEX_NOT_FOUND (mkBLink st (mkHandle fh' kc) ∅)) →
  (∀ r, m !! key = Some r → page_no_ r ≠ -1 ∧
     ∀ st' fh', index_ok G H (delete key m) st' → Q r (mkBLink st' (mkHandle fh' kc) ∅)) →
  wp (delete_entry key) Q start.
Proof using I Hkey.
  intros Hnone Hsome. unfold delete_entry. wp_step. eapply wp_find_leaf_for_delete; [exact I|done|]. intros leaf sl Hl Hlv Hc.
  destruct (leaf_node _ _ Hl Hlv) as (n & l & Hn & Hok & Hnl & Hleaf & Hlf). pose proof (lf_map _ _ _ Hlf _ Hc) as Hm.
  wp_step. on_node. wp_step. wp_step. wp_step; [done|]. wp_step. on_node. wp_step. rewrite (nh_size _ _ Hnl).
  wp_step. assert (∀ Q' : bool → BLink → Prop, (∀ i b, located key l i b → Q' b (mkBLink st (mkHandle (head st) kc) {[leaf := true]})) →
    wp (if len l =? 0 then mret false else reading leaf (need_delete key)) Q' (mkBLink st (mkHandle (head st) kc) {[leaf := true]})) as Hpresent.
  { intros Q' HQ'. destruct (len l =? 0) eqn:E; bool_simpl; cbv iota.
    - wp_step. assert (l = []) as El by (destruct l; [done|unfold len in E; simpl in E; lia]).
      apply (HQ' 0%nat). rewrite El. by apply (located_absent key [] []).
    - on_node. unfold need_delete. wp_step. apply (wp_lower_bound n l Hnl); [apply Hlf|]. intros i b Hloc.
      eapply (wp_key_at n l Hnl); [exact Hloc|]. by eapply HQ'. }
  apply Hpresent. clear Hpresent. intros i b Hloc. pose proof (located_lookup _ _ _ _ Hloc) as Hlook. rewrite <- Hm in Hlook.
  destruct Hloc as [l1 r l2 H1 H2|l1 l2 H1 H2]; cbn [negb]; cbv iota.
  - rewrite list_lookup_middle in Hlook by done. destruct (Hsome _ Hlook) as [Hr HQ]. wp_step. on_node.
    apply (wp_lower_bound n _ Hnl); [apply Hlf|]. intros i b Hloc.
    destruct (located_found_unique _ _ _ _ _ _ (lf_sorted _ _ _ Hlf) Hloc) as [-> _].
    wp_step. on_node. eapply (wp_get_rid n _ Hnl (length l1)); [done|by apply list_lookup_middle|]. cbn [snd]. wp_step.
    wp_step; [apply negb_true_iff, Z.eqb_neq; exact Hr|]. wp_step. on_node.
    eapply wp_remove; [exact Hnl|apply Hlf|]. intros n' Hn' Hh. wp_step. apply wp_release_node; [at_page|].
    rewrite delete_singleton_eq. wp_step. apply HQ. eapply (leaf_changed_index leaf sl n); try done.
    + apply leaf_room in Hok. rewrite len_app' in *. unfold len in *. simpl in *. lia.
    + by eapply leaf_delete.
    + intros k. apply (other_key _ _ _ Hc). intros j Hj. by apply lookup_delete_ne.
  - wp_step. apply wp_release_node; [at_page|]. rewrite delete_singleton_eq. wp_step. by apply Hnone.
Qed.
End operations.

Lemma cache_keeps G G' fh fh' kc : cache_ok G (mkHandle fh kc) → keeps_leaves G G' → cache_ok G' (mkHandle fh' kc).
Proof. intros K HG key p Hp. destruct (K _ _ Hp) as (sp & Hsp & Hlv). by eapply HG. Qed.
