(* ===== verification/SBLink.v ===== *)
(** The storage node's side of the B-link index: [S_BLinkIndexHandle] of
    [core/storage/blink_tree/blink_tree.h] and [blink_tree.cc], which makes the empty tree
    and loads the initial entries, one after the other and alone.

    [S_BLinkNodeHandle] has the methods of [BLinkNodeHandle] over again, so that those of
    [BLinkNode] serve here too.  The buffer pool is taken to have a frame for every page
    asked for; the pins are counted, since a pinned page keeps its frame. *)

From S2P Require Import Prelude Common Bytes Record BLinkNode BLinkTree.

(** ** The empty index *)

(** The first page of the list of leaves: it is none itself. *)
Definition leaf_header : BLNode :=
  set_right_sibling INVALID_PAGE_ID (set_has_high_key false (set_high_key (2 ^ 64 - 1)
    (set_prev_leaf BL_INIT_ROOT_PAGE_ID (set_size 0 (set_next_leaf BL_INIT_ROOT_PAGE_ID (set_is_leaf true zero_node)))))).

Definition first_root : BLNode :=
  set_is_root true (set_right_sibling INVALID_PAGE_ID (set_has_high_key false (set_high_key (2 ^ 64 - 1)
    (set_prev_leaf BL_LEAF_HEADER_PAGE_ID (set_size 0 (set_next_leaf BL_LEAF_HEADER_PAGE_ID (set_is_leaf true zero_node))))))).

Definition first_hdr : BLFileHdr := mkHdr BL_INIT_ROOT_PAGE_ID BL_INIT_ROOT_PAGE_ID BL_INIT_ROOT_PAGE_ID.

Definition empty_store : BLStore :=
  mkStore (<[BL_LEAF_HEADER_PAGE_ID := leaf_header]> {[BL_INIT_ROOT_PAGE_ID := first_root]}) first_hdr BL_INIT_PAGE_NUM.

(** ** Operations *)

Module S_BLink.

Record SBLink := mkSBLink {
  store : BLStore;
  file_hdr : BLFileHdr;
  pins : gmap Z Z         (* the pages pinned, and how often *)
}.

Abbreviation MS := (M SBLink).

Definition new_SBLink : SBLink := mkSBLink empty_store first_hdr ∅.

Definition set_nodes x s := mkSBLink (mkStore x (head (store s)) (next_page (store s))) (file_hdr s) (pins s).
Definition set_head x s := mkSBLink (mkStore (nodes (store s)) x (next_page (store s))) (file_hdr s) (pins s).
Definition set_next_page x s := mkSBLink (mkStore (nodes (store s)) (head (store s)) x) (file_hdr s) (pins s).
Definition set_file_hdr x s := mkSBLink (store s) x (pins s).
Definition set_pins x s := mkSBLink (store s) (file_hdr s) x.

Definition pin (p : Z) (held : gmap Z Z) : gmap Z Z := <[p := default 0 (held !! p) + 1]> held.

(** [unpin_page] of a page that is not pinned does nothing. *)
Definition unpin (p : Z) (held : gmap Z Z) : gmap Z Z :=
  match held !! p with
  | None => held
  | Some k => if k =? 1 then delete p held else <[p := k - 1]> held
  end.

Definition fetch_node (page_id : Z) (opera : BPOperation) : MS unit :=
  ns ← gets (λ s, nodes (store s)) ;
  if bool_decide (is_Some (ns !! page_id)) then modify (λ s, set_pins (pin page_id (pins s)) s)
  else crash OutOfBounds.

(** What was changed is in the frame already, and flushed. *)
Definition release_node (page_id : Z) (opera : BPOperation) : MS unit :=
  modify (λ s, set_pins (unpin page_id (pins s)) s).

(** A node is read and written in its frame, while it is pinned. *)
Definition reading {A} (page_id : Z) (m : MN A) : MS A := λ s,
  match pins s !! page_id, nodes (store s) !! page_id with
  | Some _, Some n =>
      match m n with
      | Done (a, _) => Done (a, s)
      | Blocked => Blocked
      | Crash e => Crash e
      end
  | _, _ => Crash UnlockNotHeld
  end.

Definition writing {A} (page_id : Z) (m : MN A) : MS A := λ s,
  match pins s !! page_id, nodes (store s) !! page_id with
  | Some _, Some n =>
      match m n with
      | Done (a, n') => Done (a, set_nodes (<[page_id := n']> (nodes (store s))) s)
      | Blocked => Blocked
      | Crash e => Crash e
      end
  | _, _ => Crash UnlockNotHeld
  end.

Definition create_node : MS Z :=
  new_page_no ← gets (λ s, next_page (store s)) ;
  modify (λ s, set_next_page (new_page_no + 1) (set_nodes (<[new_page_no := zero_node]> (nodes (store s))) s)) ;;
  mret new_page_no.

Definition write_file_hdr_to_page : MS unit :=
  h ← gets file_hdr ;
  modify (set_head h).

Definition internal_lookup (target : Z) : MN Z :=
  pos ← upper_bound target ;
  page_no ← value_at (pos - 1) ;
  check 95 ((0 <=? page_no) && negb (page_no =? BL_HEAD_PAGE_ID)) ;;
  mret page_no.

(** [while (!node->is_leaf())]: it is the child that is released, before it is fetched. *)
Fixpoint descend (fuel : nat) (opera : BPOperation) (key : Z) (trace : list Z) (node : Z) : MS (Z * list Z) :=
  match fuel with
  | O => block
  | S fuel' =>
      leaf ← reading node (gets is_leaf) ;
      if leaf : bool then mret (node, trace)
      else
        child_page_no ← reading node (internal_lookup key) ;
        release_node child_page_no SEARCH_OPERA ;;
        fetch_node child_page_no opera ;;
        descend fuel' opera key (node :: trace) child_page_no
  end.

Definition find_leaf (key : Z) (opera : BPOperation) : MS (Z * list Z) :=
  root_id ← gets (λ s, root_page_id (file_hdr s)) ;
  fetch_node root_id opera ;;
  fuel ← gets (λ s, S (size (nodes (store s)))) ;
  descend fuel opera key [] root_id.

Definition split (node : Z) : MS (Z * Z) :=
  size ← reading node (gets num_key) ;
  check 172 (size =? get_max_size) ;;
  new_node ← create_node ;
  fetch_node new_node INSERT_OPERA ;;
  leaf ← reading node (gets is_leaf) ;
  sib ← reading node (gets right_sibling) ;
  writing new_node (modify (λ n,
    let n := set_right_sibling sib (set_next_leaf INVALID_PAGE_ID (set_prev_leaf INVALID_PAGE_ID (set_size 0 (set_is_leaf leaf n)))) in
    if negb leaf then reset_high_key n else n)) ;;
  let old_node_size := size / 2 in
  let new_node_size := size - old_node_size in
  check 188 ((0 <? old_node_size) && (0 <? new_node_size)) ;;
  new_keys ← reading node (array_read keys old_node_size new_node_size) ;
  new_rids ← reading node (array_read rids old_node_size new_node_size) ;
  writing new_node (insert_pairs 0 new_keys new_rids) ;;
  writing node (modify (set_size old_node_size)) ;;
  old_node_high_key ← reading new_node (get_key 0) ;
  (if leaf : bool then
     next ← reading node (gets next_leaf) ;
     writing new_node (modify (λ n, set_prev_leaf node (set_next_leaf next n))) ;;
     when (negb (next =? INVALID_PAGE_ID))
       (fetch_node next INSERT_OPERA ;;
        writing next (modify (set_prev_leaf new_node)) ;;
        release_node next INSERT_OPERA) ;;
     writing node (modify (set_next_leaf new_node))
   else writing new_node (set_key 0 NEG_KEY)) ;;
  writing node (modify (λ n, set_right_sibling new_node (set_high_key old_node_high_key n))) ;;
  mret (new_node, old_node_high_key).

Definition new_root (old_node sep_key new_node : Z) : MS unit :=
  new_root_id ← create_node ;
  fetch_node new_root_id INSERT_OPERA ;;
  writing new_root_id (modify (λ n,
    set_size 0 (set_is_root true (set_prev_leaf INVALID_PAGE_ID (set_next_leaf INVALID_PAGE_ID (set_is_leaf false n)))))) ;;
  writing new_root_id init_internal_node ;;
  writing new_root_id (set_rid 0 (mkRid old_node (-1))) ;;
  writing new_root_id (insert_pair 1 sep_key (mkRid new_node (-1))) ;;
  writing old_node (modify (set_is_root false)) ;;
  writing new_node (modify (set_is_root false)) ;;
  modify (λ s, set_file_hdr (set_root_page_id new_root_id (file_hdr s)) s) ;;
  write_file_hdr_to_page ;;
  release_node new_node INSERT_OPERA ;;
  release_node old_node INSERT_OPERA ;;
  release_node new_root_id INSERT_OPERA.

Fixpoint insert_into_parent (trace : list Z) (old_node sep_key new_node : Z) : MS unit :=
  top ← reading old_node (gets is_root) ;
  if top : bool then new_root old_node sep_key new_node
  else
    release_node new_node INSERT_OPERA ;;
    match trace with
    | [] => crash OutOfBounds
    | parent :: trace =>
        fetch_node parent INSERT_OPERA ;;
        release_node old_node INSERT_OPERA ;;
        idx ← reading parent (find_child old_node) ;
        check 259 (negb (idx =? -1)) ;;
        writing parent (insert_pairs (idx + 1) [sep_key] [mkRid new_node (-1)]) ;;
        size ← reading parent (gets num_key) ;
        if size =? get_max_size then
          '(parent_right_bro, min_key) ← split parent ;
          insert_into_parent trace parent min_key parent_right_bro
        else release_node parent INSERT_OPERA
    end.

Definition search (key : Z) : MS (option Rid) :=
  '(leaf, _) ← find_leaf key SEARCH_OPERA ;
  exist ← reading leaf (leaf_lookup key) ;
  check 285 (bool_decide (is_Some exist)) ;;
  release_node leaf SEARCH_OPERA ;;
  mret exist.

Definition insert_entry (key : Z) (value : Rid) : MS Z :=
  '(leaf, trace) ← find_leaf key INSERT_OPERA ;
  ok ← reading leaf (gets is_leaf) ;
  check 297 ok ;;
  pos ← reading leaf (lower_bound key) ;
  found ← reading leaf (key_at pos key) ;
  if found : bool then
    release_node leaf INSERT_OPERA ;;
    mret leaf
  else
    old_size ← reading leaf (gets num_key) ;
    new_size ← writing leaf (insert key value) ;
    check 308 (negb (old_size =? new_size)) ;;
    size ← reading leaf (gets num_key) ;
    (if size =? get_max_size then
       '(bro, _) ← split leaf ;
       next ← reading bro (gets next_leaf) ;
       when (next =? INVALID_PAGE_ID)
         (modify (λ s, set_file_hdr (set_last_leaf bro (file_hdr s)) s) ;;
          write_file_hdr_to_page) ;;
       sep ← reading bro (get_key 0) ;
       insert_into_parent trace leaf sep bro
     else release_node leaf INSERT_OPERA) ;;
    mret leaf.

End S_BLink.
