(* ===== verification/SBLinkOps.v ===== *)
(** Loading the index on the storage node: the calls of [S_BLinkIndexHandle] make the same
    changes to the shape of the tree as those of the compute nodes. *)

From stdpp Require Import sorting.
From S2P Require Import Prelude Common Bytes Record BLinkNode BLinkTree BLinkInv BLinkSteps BLinkParent BLinkCalls BLinkSplit BLinkInsert BLinkOps SBLink.

#[local] Arguments replicate : simpl never.
#[local] Arguments Z.to_nat : simpl never.
#[local] Arguments order : simpl never.

Module S_Calls.
Import S_BLink.

(** ** Pins *)

Definition pinned (P : gmap Z Z) (p : Z) : Prop := is_Some (P !! p).

Lemma pinned_same P p : pinned (pin p P) p.
Proof. unfold pinned, pin. rewrite lookup_insert_eq. by eexists. Qed.

Lemma pinned_pin P p q : pinned P p → pinned (pin q P) p.
Proof. unfold pinned, pin. intros H. apply lookup_insert_is_Some'. by right. Qed.

Lemma pinned_unpin P p q : p ≠ q → pinned P p → pinned (unpin q P) p.
Proof.
  unfold pinned, unpin. intros Hne [k Hk]. destruct (P !! q) as [c|]; [|by exists k].
  destruct (c =? 1); [rewrite lookup_delete_ne by done|rewrite lookup_insert_ne by done]; by exists k.
Qed.

Ltac at_pin := repeat first [assumption | apply pinned_same | apply pinned_unpin; [congruence|] | apply pinned_pin].

Ltac at_spage :=
  unfold with_nodes; cbn [nodes head next_page store file_hdr pins];
  repeat first [rewrite lookup_insert_eq | rewrite lookup_insert_ne by congruence]; try reflexivity; eassumption.

Section pages.
Context (st : BLStore) (h : BLFileHdr) (P : gmap Z Z).
Abbreviation here := (mkSBLink st h P).

Lemma swp_fetch_node p op n (Q : unit → SBLink → Prop) :
  nodes st !! p = Some n → Q tt (mkSBLink st h (pin p P)) → wp (fetch_node p op) Q here.
Proof using Type.
  intros Hn HQ. unfold fetch_node. do 2 wp_step. cbn [store]. rewrite Hn, bool_decide_true by (by eexists). by wp_step.
Qed.

Lemma swp_release_node p op (Q : unit → SBLink → Prop) :
  Q tt (mkSBLink st h (unpin p P)) → wp (release_node p op) Q here.
Proof using Type. done. Qed.

Lemma swp_reading {A} p n (m : MN A) (Q : A → SBLink → Prop) :
  pinned P p → nodes st !! p = Some n → wp m (λ a _, Q a here) n → wp (reading p m) Q here.
Proof using Type.
  intros [k Hp] Hn Hm. unfold wp, reading in *. cbn [pins store]. rewrite Hp, Hn. by destruct (m n) as [[a n']| |].
Qed.

Lemma swp_writing {A} p n (m : MN A) (Q : A → SBLink → Prop) :
  pinned P p → nodes st !! p = Some n →
  wp m (λ a n', Q a (mkSBLink (with_nodes (<[p := n']> (nodes st)) st) h P)) n → wp (writing p m) Q here.
Proof using Type.
  intros [k Hp] Hn Hm. unfold wp, writing in *. cbn [pins store]. rewrite Hp, Hn. by destruct (m n) as [[a n']| |].
Qed.
End pages.

Ltac s_store := unfold with_nodes; cbn [nodes head next_page store file_hdr pins].
Ltac s_node := first [eapply swp_reading | eapply swp_writing]; [at_pin|at_spage|].

(** ** Going down *)

Section descent.
Context (G : Spans) (H : nat) (m : gmap Z Rid) (st : BLStore).
Hypothesis I : index_ok G H m st.

Lemma wp_internal_lookup p sp n l key (Q : Z → BLNode → Prop) :
  G !! p = Some sp → (0 < level sp)%nat → covers sp key → node_ok G G (root_page_id (head st)) m None p sp n l →
  (∀ c sc, G !! c = Some sc → S (level sc) = level sp → up sc = Some p → covers sc key → Q c n) →
  wp (internal_lookup key) Q n.
Proof using I.
  intros Hp Hl Hc Hok HQ. unfold internal_lookup. wp_step.
  pose proof (no_holds _ _ _ _ _ _ _ _ _ Hok) as Hnl.
  assert (inner_ok G p sp l) as [Hne Hs Hch].
  { pose proof (no_body _ _ _ _ _ _ _ _ _ Hok) as Hb. destruct (level sp); [lia|done]. }
  destruct l as [|x t] eqn:El; [done|].
  assert (sorted t) as Hst by by apply limits_sorted in Hs.
  apply (wp_upper_bound n (x :: t) Hnl x t); [done|done|]. intros t1 t2 Ht H1 H2. wp_step.
  destruct (lookup_lt_is_Some_2 (x :: t) (length t1)) as [y Hy]; [rewrite Ht; simpl; rewrite length_app; lia|].
  eapply wp_value_at; [exact Hnl| |exact Hy|]; [lia|].
  destruct (limits_child sp _ _ _ Hy) as (b & b' & Hb & Hb'). pose proof (Hch _ _ _ _ Hy Hb Hb') as Hcs.
  pose proof (to_page _ _ _ _ _ (ix_tree _ _ _ _ I) _ (ex_intro _ _ Hcs)) as Hge.
  wp_step. wp_step.
  { apply andb_true_iff. rewrite negb_true_iff, Z.leb_le, Z.eqb_neq. unfold BL_HEAD_PAGE_ID. lia. }
  wp_step. eapply HQ; [exact Hcs|cbn [level]; lia|done|]. unfold covers in *. cbn [lo hi].
  rewrite Ht in Hb, Hb'. by eapply limits_cover.
Qed.

Lemma swp_descend lv fuel op p sp h P trace key (Q : Z * list Z → SBLink → Prop) :
  level sp = lv → (lv < fuel)%nat → G !! p = Some sp → covers sp key → path_ok G (root_page_id (head st)) trace p →
  pinned P p →
  (∀ leaf sl tr P', G !! leaf = Some sl → level sl = 0%nat → covers sl key → path_ok G (root_page_id (head st)) tr leaf →
     pinned P' leaf → Q (leaf, tr) (mkSBLink st h P')) →
  wp (descend fuel op key trace p) Q (mkSBLink st h P).
Proof using I.
  intros Hlv Hf Hp Hc Htr HP HQ. revert fuel p sp trace P Hlv Hf Hp Hc Htr HP.
  induction lv as [|lv IH]; intros [|fuel] p sp trace P Hlv Hf Hp Hc Htr HP; try lia; cbn [descend];
    destruct (index_node _ _ _ _ I _ _ Hp) as (n & l & Hn & Hok); wp_step;
    (eapply swp_reading; [done|exact Hn|]; wp_step); rewrite (no_leaf _ _ _ _ _ _ _ _ _ Hok), Hlv;
    cbn [Nat.eqb]; cbv iota.
  - wp_step. by eapply HQ.
  - wp_step. eapply swp_reading; [done|exact Hn|]. eapply wp_internal_lookup; [exact Hp|lia|done|done|].
    intros c sc Hcc Hlc Hup Hcc'. wp_step. apply swp_release_node. wp_step. destruct (index_node _ _ _ _ I _ _ Hcc) as (nc & lc & Hnc & _).
    eapply swp_fetch_node; [exact Hnc|]. apply (IH fuel c sc); [lia|lia|done|done| |apply pinned_same]. split; [by exists sc|done].
Qed.

Lemma swp_find_leaf key op P (Q : Z * list Z → SBLink → Prop) :
  0 ≤ key < TOP →
  (∀ leaf sl tr P', G !! leaf = Some sl → level sl = 0%nat → covers sl key → path_ok G (root_page_id (head st)) tr leaf →
     pinned P' leaf → Q (leaf, tr) (mkSBLink st (head st) P')) →
  wp (find_leaf key op) Q (mkSBLink st (head st) P).
Proof using I.
  intros Hkey HQ. unfold find_leaf. wp_step. wp_step. wp_step. cbn [file_hdr].
  destruct (index_node _ _ _ _ I _ _ (ix_root _ _ _ _ I)) as (n & l & Hn & _). eapply swp_fetch_node; [exact Hn|].
  wp_step. wp_step. pose proof (height_size _ _ _ _ I). cbn [store].
  eapply (swp_descend H); [|lia|apply (ix_root _ _ _ _ I)|by apply root_covers|done|apply pinned_same|exact HQ]. done.
Qed.
End descent.

(** ** Splitting *)

Lemma set_size_same n : set_size (num_key n) n = n.
Proof. by destruct n. Qed.

Section split_calls.
Context (st : BLStore) (h : BLFileHdr) (P : gmap Z Z) (p : Z) (n : BLNode) (l1 : pairs) (s : Z) (r : Rid) (l2 : pairs).

Abbreviation q := (next_page st).
Abbreviation leaf := (is_leaf n).

Hypothesis HP : pinned P p.
Hypothesis Hn : nodes st !! p = Some n.
Hypothesis Hl : node_holds n (l1 ++ (s, r) :: l2).
Hypothesis Hsize : len (l1 ++ (s, r) :: l2) = order.
Hypothesis Hhalf : len l1 = order / 2.
Hypothesis Hq : q ≠ p.
Hypothesis Hnext : leaf = true →
  next_leaf n ≠ INVALID_PAGE_ID ∧ next_leaf n ≠ p ∧ next_leaf n ≠ q ∧ is_Some (nodes st !! next_leaf n).

Lemma swp_split_calls (Q : Z * Z → SBLink → Prop) :
  (∀ nl nr ns P',
     node_holds nl l1 →
     hdr nl = (prev_leaf n, if leaf then q else next_leaf n, q, s, leaf, true, is_root n) →
     node_holds nr ((if leaf then s else NEG_KEY, r) :: l2) →
     hdr nr = (if leaf then p else INVALID_PAGE_ID, if leaf then next_leaf n else INVALID_PAGE_ID,
               right_sibling n, NEG_KEY, leaf, false, false) →
     (∀ x, ns !! x =
       if decide (x = p) then Some nl else if decide (x = q) then Some nr
       else if leaf && (x =? next_leaf n) then set_prev_leaf q <$> nodes st !! x else nodes st !! x) →
     pinned P' p → pinned P' q →
     Q (q, s) (mkSBLink (mkStore ns (head st) (q + 1)) h P')) →
  wp (split p) Q (mkSBLink st h P).
Proof using All.
  intros HQ. unfold split. wp_step. s_node. wp_step. rewrite (nh_size _ _ Hl), Hsize. wp_step.
  wp_step; [apply Z.eqb_refl|]. unfold create_node. wp_step. wp_step. wp_step. s_store. wp_step. wp_step.
  unfold set_next_page, set_nodes. s_store. wp_step. wp_step.
  eapply swp_fetch_node; [at_spage|]. wp_step. s_node. wp_step.
  pose proof (node_holds_room _ _ Hl) as Hroom. pose proof Hsize as Hsize'. rewrite len_app' in Hsize', Hroom.
  assert (0 < len l1 ∧ 0 < len ((s, r) :: l2)) as [Hpos1 Hpos2].
  { rewrite order_value in *. unfold len in *. cbn [length] in *. change (253 / 2) with 126 in Hhalf. lia. }
  assert (order - order / 2 = len ((s, r) :: l2)) as Hrest by lia. rewrite Hrest, <- Hhalf.
  wp_step. s_node. wp_step. wp_step. s_node. wp_step. s_store. wp_step.
  wp_step; [by apply andb_true_iff; rewrite !Z.ltb_lt|]. wp_step. s_node.
  pose proof (λ Q', wp_read_keys n l1 ((s, r) :: l2) (num_key n) Q' Hl) as Rk. rewrite set_size_same in Rk. apply Rk. clear Rk.
  wp_step. s_node.
  pose proof (λ Q', wp_read_rids n l1 ((s, r) :: l2) (num_key n) Q' Hl) as Rr. rewrite set_size_same in Rr. apply Rr. clear Rr.
  wp_step. s_node.
  eapply (wp_insert_pairs _ [] [] ((s, r) :: l2)).
  { destruct leaf; split; apply zero_node_holds. }
  { rewrite app_nil_r. cbn [app]. lia. }
  intros nr1 Hnr1 Hh1. rewrite app_nil_r in Hnr1. cbn [app] in Hnr1.
  assert (hdr nr1 = (INVALID_PAGE_ID, INVALID_PAGE_ID, right_sibling n, NEG_KEY, leaf, false, false)) as E1.
  { rewrite Hh1. by destruct leaf. }
  clear Hh1. s_store. wp_step. s_node. wp_step. s_store. wp_step. s_node.
  eapply (wp_get_key _ _ Hnr1 0 0 (s, r)); [done|done|]. cbn [fst].
  wp_step. revert E1. destruct leaf eqn:Eleaf; intros E1.
  - destruct (Hnext eq_refl) as (Hx1 & Hx2 & Hx3 & [nx Hnx]). wp_step. s_node. wp_step. cbn [next_leaf set_size].
    wp_step. s_node. wp_step. wp_step. s_store.
    rewrite (proj2 (Z.eqb_neq _ _) Hx1). cbn [negb when]. wp_step.
    eapply swp_fetch_node; [at_spage|]. wp_step. s_node. wp_step.
    apply swp_release_node. s_store. s_node. wp_step. wp_step. s_node. wp_step. wp_step. s_store.
    apply (HQ (set_right_sibling q (set_high_key s (set_next_leaf q (set_size (len l1) n))))
      (set_prev_leaf p (set_next_leaf (next_leaf n) nr1))); [..|at_pin|at_pin].
    + by apply node_holds_take in Hl as [].
    + unfold hdr. cbn. by rewrite Eleaf.
    + by destruct Hnr1.
    + unfold hdr in *. cbn. by injection E1 as _ _ -> -> -> -> ->.
    + intros x. rewrite !lookup_insert. repeat case_decide; subst; try done.
      * by rewrite Z.eqb_refl, Hnx.
      * by rewrite (proj2 (Z.eqb_neq _ _)) by congruence.
  - s_node. eapply (wp_set_key _ _ 0%nat 0 NEG_KEY (s, r)); [exact Hnr1|done|done|]. intros nr2 Hnr2 Hh2.
    s_store. wp_step. s_node. wp_step. wp_step. s_store.
    apply (HQ (set_right_sibling q (set_high_key s (set_size (len l1) n))) nr2); [..|at_pin|at_pin].
    + by apply node_holds_take in Hl as [].
    + unfold hdr. cbn. by rewrite Eleaf.
    + exact Hnr2.
    + by rewrite Hh2.
    + intros x. rewrite !lookup_insert. repeat case_decide; subst; try done.
Qed.
End split_calls.

Lemma swp_split G H m full st h P p sp n l trace (Q : Z * Z → SBLink → Prop) :
  tree_ok G G m full st → (∀ x, full = Some x → x = p) → rooted G (root_page_id (head st)) H → G !! p = Some sp →
  path_ok G (root_page_id (head st)) trace p → nodes st !! p = Some n →
  node_ok G G (root_page_id (head st)) m full p sp n l → len l = order → pinned P p →
  (∀ C' G' q s st' P', pending C' G' H m p q s sp trace st' → head st' = head st → keeps_leaves G C' →
     (level sp = 0%nat → ∃ nb r l2, nodes st' !! q = Some nb ∧ next_leaf nb ≠ INVALID_PAGE_ID ∧ node_holds nb ((s, r) :: l2)) →
     pinned P' p → pinned P' q →
     Q (q, s) (mkSBLink st' h P')) →
  wp (split p) Q (mkSBLink st h P).
Proof.
  intros T Hfull Hr Hp Hpath Hn Hok Hsize HP HQ. destruct (split_point l Hsize) as (l1 & s & r & l2 & El & Hhalf).
  eapply swp_split_calls; [exact HP|exact Hn|rewrite <- El; apply Hok|by rewrite <- El|exact Hhalf| | |].
  { by eapply split_new_page. }
  { by eapply next_leaf_page. }
  intros nl nr ns P' Hnl Hnl' Hnr Hnr' Hns HPp HPq.
  destruct (split_pending G H m full st p sp n l trace T Hfull Hr Hp Hpath Hn Hok Hsize l1 s r l2 nl nr ns El Hhalf Hnl Hnl' Hnr Hnr' Hns)
    as (C' & G' & P'' & HK & Hb).
  by eapply HQ.
Qed.

(** ** The parents *)

Lemma swp_new_root C G H m p q s sp trace st P (Q : unit → SBLink → Prop) :
  pending C G H m p q s sp trace st → p = root_page_id (head st) → pinned P p → pinned P q →
  (∀ G' H' st' P', index_ok G' H' m st' → keeps_leaves C G' → Q tt (mkSBLink st' (head st') P')) →
  wp (new_root p s q) Q (mkSBLink st (head st) P).
Proof.
  intros Pd Hroot HPp HPq HQ. pose proof (pending_new _ _ _ _ _ _ _ _ _ _ Pd) as Hqp.
  pose proof (pd_tree _ _ _ _ _ _ _ _ _ _ Pd) as T.
  destruct (pending_node _ _ _ _ _ _ _ _ _ _ Pd _ _ (pending_p _ _ _ _ _ _ _ _ _ _ Pd)) as (np & lp & Hnp & Hokp).
  destruct (pending_node _ _ _ _ _ _ _ _ _ _ Pd _ _ (pending_q _ _ _ _ _ _ _ _ _ _ Pd)) as (nq & lq & Hnq & Hokq).
  pose proof (to_fresh _ _ _ _ _ T _ (ex_intro _ _ Hnp)) as Hfp. pose proof (to_fresh _ _ _ _ _ T _ (ex_intro _ _ Hnq)) as Hfq.
  assert (next_page st ≠ p ∧ next_page st ≠ q) as [HRp HRq] by lia.
  unfold new_root. wp_step. unfold create_node. wp_step. wp_step. wp_step. s_store. wp_step. wp_step.
  unfold set_next_page, set_nodes. s_store. wp_step. eapply swp_fetch_node; [at_spage|].
  wp_step. s_node. wp_step. wp_step. s_store. s_node. eapply wp_init_internal_node; [split; apply zero_node_holds|done|].
  intros n1 r1 Hn1 Hh1. wp_step. s_store. s_node. eapply (wp_set_rid _ _ 0%nat 0 _ (NEG_KEY, r1)); [exact Hn1|done|done|].
  intros n2 Hn2 Hh2. wp_step. s_store. s_node.
  eapply (wp_insert_pair _ [(NEG_KEY, mkRid p (-1))] s (mkRid q (-1)) []); [exact Hn2|by vm_compute|].
  intros n3 Hn3 Hh3. s_store. wp_step. s_node. wp_step. wp_step. s_store. s_node. wp_step. wp_step. s_store.
  wp_step. unfold set_file_hdr. s_store. wp_step. unfold write_file_hdr_to_page. wp_step. wp_step. wp_step. unfold set_head. s_store.
  wp_step. apply swp_release_node. wp_step. apply swp_release_node. apply swp_release_node. cbn [app] in Hn3.
  assert (hdr n3 = (INVALID_PAGE_ID, INVALID_PAGE_ID, INVALID_PAGE_ID, NEG_KEY, false, false, true)) as Hh.
  { by rewrite Hh3, Hh2, Hh1. }
  apply (HQ (root_grown G H p q s (next_page st)) (S H) (mkStore _ (set_root_page_id (next_page st) (head st)) (next_page st + 1)));
    [|by eapply root_leaves].
  eapply (root_index C G H m p q s sp trace st Pd); [done|exact Hnp|exact Hnq|exact Hn3|..].
  - apply hdr_fields in Hh as (_ & _ & -> & _ & -> & -> & ->). done.
  - intros z. rewrite !lookup_insert. repeat case_decide; subst; try done; try tauto; try congruence.
    + by rewrite Hnq.
    + by rewrite Hnp.
    + exfalso. intuition congruence.
Qed.

Lemma swp_insert_into_parent H m trace C G p q s sp st P (Q : unit → SBLink → Prop) :
  pending C G H m p q s sp trace st → pinned P p → pinned P q →
  (∀ G' H' st' P', index_ok G' H' m st' → keeps_leaves C G' → Q tt (mkSBLink st' (head st') P')) →
  wp (insert_into_parent trace p s q) Q (mkSBLink st (head st) P).
Proof.
  revert C G p q s sp st P Q. induction trace as [|P0 trace IH]; intros C G p q s sp st P Q Pd HPp HPq HQ; cbn [insert_into_parent];
    pose proof (pending_new _ _ _ _ _ _ _ _ _ _ Pd) as Hqp;
    destruct (pending_node _ _ _ _ _ _ _ _ _ _ Pd _ _ (pending_p _ _ _ _ _ _ _ _ _ _ Pd)) as (np & lp & Hnp & Hokp);
    wp_step; (s_node; wp_step); rewrite (no_root _ _ _ _ _ _ _ _ _ Hokp).
  - pose proof (pd_path _ _ _ _ _ _ _ _ _ _ Pd) as Hroot. cbn [path_ok] in Hroot. rewrite bool_decide_true by done.
    by eapply swp_new_root.
  - pose proof (parent_rooted _ _ _ _ _ _ _ _ _ _ _ Pd) as HrG. destruct (parent_up _ _ _ _ _ _ _ _ _ _ _ Pd) as [Hup Hpath].
    destruct (parent_node _ _ _ _ _ _ _ _ _ _ _ Pd) as (sP & n & l1 & k & r & l2 & HP & HPp' & HPq' & Hn & Hok & Er & H1 & Hlv).
    assert (p ≠ root_page_id (head st)) as Hpr.
    { intros E. pose proof (rt_root _ _ _ HrG) as Hr. rewrite <- E, (pending_p _ _ _ _ _ _ _ _ _ _ Pd) in Hr. injection Hr as _ _ _ Hr. congruence. }
    rewrite bool_decide_false by done. cbv iota. wp_step. apply swp_release_node.
    wp_step. eapply swp_fetch_node; [exact Hn|]. wp_step. apply swp_release_node. wp_step.
    pose proof (no_holds _ _ _ _ _ _ _ _ _ Hok) as Hl. pose proof (pinned_unpin _ _ p HPp' (pinned_same (unpin q P) P0)) as HP0.
    s_node. rewrite <- Er. eapply (wp_find_child n _ Hl); [done|exact H1|].
    wp_step. wp_step; [apply negb_true_iff, Z.eqb_neq; lia|]. wp_step. rewrite Er. s_node.
    assert (len (l1 ++ (k, r) :: (s, mkRid q (-1)) :: l2) ≤ order) as Hroom by (eapply told_room; exact Hok).
    assert (Z.of_nat (length l1) + 1 = len (l1 ++ [(k, r)])) as -> by (unfold len; rewrite length_app; simpl; lia).
    apply (wp_insert_pairs n (l1 ++ [(k, r)]) l2 [(s, mkRid q (-1))]).
    { by rewrite <- app_assoc. }
    { rewrite <- !app_assoc. cbn [app]. lia. }
    intros n' Hn' Hh. rewrite <- !app_assoc in Hn'. cbn [app] in Hn'.
    assert (keeps_leaves C G) as HCG by apply (pending_leaves _ _ _ _ _ _ _ _ _ _ Pd).
    wp_step. s_node. wp_step. rewrite (nh_size _ _ Hn'). unfold get_max_size.
    match goal with |- wp (if ?a =? ?b then _ else _) _ _ => destruct (a =? b) eqn:E end; bool_simpl; cbv iota.
    + edestruct told_full as [T' Hok']; [exact Pd|exact HP|exact Hn|exact Hok|exact Er|exact Hlv|exact Hn'|exact Hh|exact E|].
      wp_step. eapply (swp_split G H m (Some P0) _ _ _ P0 sP n' _ trace); [exact T'|by intros x [= ->]|exact HrG|exact HP|..].
      { exact (parent_path _ _ _ _ _ _ _ _ _ _ _ Pd). }
      { at_spage. }
      { exact Hok'. }
      { exact E. }
      { exact HP0. }
      intros C2 G2 q2 s2 st2 P2 Pd2 Ehd HK _ HPp2 HPq2. cbv iota.
      change (head st) with (head (with_nodes (<[P0 := n']> (nodes st)) st)). rewrite <- Ehd.
      eapply IH; [exact Pd2|done|done|]. intros G3 H3 st3 P3 I3 K3.
      eapply HQ; [exact I3|]. eapply keeps_leaves_trans; [exact HCG|]. by eapply keeps_leaves_trans.
    + apply swp_release_node. apply (HQ G H (with_nodes (<[P0 := n']> (nodes st)) st)); [|exact HCG].
      eapply told_index; [exact Pd|exact HP|exact Hn|exact Hok|exact Er|exact Hlv|exact Hn'|exact Hh|exact E].
Qed.

(** ** The operations *)

Section operations.
Context (G : Spans) (H : nat) (m : gmap Z Rid) (st : BLStore) (P : gmap Z Z) (key : Z).
Hypothesis I : index_ok G H m st.
Hypothesis Hkey : 0 ≤ key < TOP.

Abbreviation start := (mkSBLink st (head st) P).

Lemma swp_search r (Q : option Rid → SBLink → Prop) :
  m !! key = Some r → (∀ P', Q (Some r) (mkSBLink st (head st) P')) → wp (search key) Q start.
Proof using I Hkey.
  intros Hr HQ. unfold search. wp_step. eapply swp_find_leaf; [exact I|done|]. intros leaf sl tr P' Hl Hlv Hc Htr HP.
  destruct (leaf_node _ _ _ _ I _ _ Hl Hlv) as (n & l & Hn & Hok & Hnl & Hleaf & [Hs Hrange Hm]). cbv iota. wp_step. s_node.
  apply (wp_leaf_lookup n l Hnl); [done|done|]. rewrite <- Hm, Hr by done. wp_step. wp_step; [done|].
  wp_step. apply swp_release_node. wp_step. apply HQ.
Qed.

Lemma swp_insert_entry value (Q : Z → SBLink → Prop) :
  (∀ r leaf P', m !! key = Some r → Q leaf (mkSBLink st (head st) P')) →
  (∀ leaf G' H' st' P', m !! key = None → index_ok G' H' (<[key := value]> m) st' → Q leaf (mkSBLink st' (head st') P')) →
  wp (insert_entry key value) Q start.
Proof using I Hkey.
  intros Hold Hnew. unfold insert_entry. wp_step. eapply swp_find_leaf; [exact I|done|]. intros leaf sl tr P' Hl Hlv Hc Htr HP.
  destruct (leaf_node _ _ _ _ I _ _ Hl Hlv) as (n & l & Hn & Hok & Hnl & Hleaf & Hlf). pose proof (lf_map _ _ _ Hlf _ Hc) as Hm.
  cbv iota. wp_step. s_node. wp_step. wp_step. wp_step; [done|]. wp_step. s_node.
  apply (wp_lower_bound n l Hnl); [apply Hlf|]. intros i b Hloc. wp_step. s_node. eapply (wp_key_at n l Hnl); [exact Hloc|].
  rewrite (located_lookup _ _ _ _ Hloc) in Hm. destruct Hloc as [l1 r l2 H1 H2|l1 l2 H1 H2].
  - wp_step. apply swp_release_node. wp_step. rewrite list_lookup_middle in Hm by done. by eapply Hold.
  - pose proof (leaf_room _ _ _ _ _ _ _ Hok) as Hroom. wp_step. s_node. wp_step. wp_step. s_node.
    eapply wp_insert; [exact Hnl|apply Hlf|lia|exact H1|exact H2|]. intros n' Hn' Hh. wp_step.
    wp_step; [rewrite (nh_size _ _ Hnl); apply negb_true_iff, Z.eqb_neq; lia|]. wp_step. s_node. wp_step. wp_step.
    rewrite (nh_size _ _ Hn'). set (l' := l1 ++ (key, value) :: l2) in *.
    assert (len l' ≤ order) as Hroom' by (unfold l'; rewrite len_app' in *; unfold len in *; simpl; lia).
    assert (leaf_ok (<[key := value]> m) sl l') as Hlf' by (by apply leaf_insert).
    assert (∀ k, ¬ covers sl k → <[key := value]> m !! k = m !! k) as Hother.
    { intros k. apply (other_key _ _ _ _ _ Hc). intros j Hj. by apply lookup_insert_ne. }
    unfold get_max_size. destruct (len l' =? order) eqn:E; bool_simpl; cbv iota.
    + assert (tree_ok G G (<[key := value]> m) (Some leaf) (with_nodes (<[leaf := n']> (nodes st)) st)) as T.
      { assert (Some leaf = full_at (len l') leaf) as -> by (unfold full_at; by rewrite (proj2 (Z.eqb_eq _ _) E)).
        by eapply leaf_changed. }
      destruct (to_node _ _ _ _ _ T _ _ Hl) as (n'' & l'' & Hn'' & Hok').
      assert (n'' = n') as -> by (revert Hn''; s_store; rewrite lookup_insert_eq; by intros [= ->]).
      assert (l'' = l') as -> by (eapply node_holds_unique; [apply Hok'|done]).
      wp_step. eapply (swp_split G H (<[key := value]> m) (Some leaf) _ _ _ leaf sl n' l' tr);
        [exact T|by intros x [= ->]|exact (index_rooted _ _ _ _ I)|exact Hl|exact Htr|at_spage|exact Hok'|exact E|exact HP|].
      intros C2 G2 q2 s2 st2 P2 Pd2 Ehd HK Hb HPp HPq. destruct (Hb Hlv) as (nb & r & l3 & Hnb & Hnx & Hlb). cbv iota.
      wp_step. s_node. wp_step. rewrite (proj2 (Z.eqb_neq _ _)) by done. cbn [when]. wp_step. wp_step. wp_step. s_node.
      eapply (wp_get_key nb _ Hlb 0 0); [done|done|]. cbn [fst].
      change (head st) with (head (with_nodes (<[leaf := n']> (nodes st)) st)). rewrite <- Ehd.
      eapply swp_insert_into_parent; [exact Pd2|done|done|]. intros G3 H3 st3 P3 I3 K3. wp_step. by eapply Hnew.
    + apply swp_release_node. wp_step. apply (Hnew leaf G H (with_nodes (<[leaf := n']> (nodes st)) st)); [done|].
      eapply leaf_changed_index; try done. lia.
Qed.
End operations.
End S_Calls.
