(* ===== verification/BLinkSystem.v ===== *)
(** The B-link index of a table through its life: the storage node makes the empty tree and
    loads the first entries ([SBLink]), then the compute nodes share it, pages and head
    for all, a handle for each, and whole operations one after the other.  The
    specification is a map from keys to positions of records. *)

From stdpp Require Import sorting.
From S2P Require Import Prelude Common Bytes Record BLinkNode BLinkTree BLinkInv BLinkSteps BLinkParent BLinkCalls BLinkSplit BLinkInsert BLinkOps SBLink SBLinkOps.

#[local] Arguments replicate : simpl never.
#[local] Arguments order : simpl never.

(** The handle of a compute node when it starts. *)
Definition new_handle : BLHandle := mkHandle first_hdr ∅.

(** ** Operations of the nodes *)

Record Index := mkIndex {
  pages : BLStore;
  handles : Z → BLHandle
}.

Definition new_index : Index := mkIndex empty_store (λ _, new_handle).

Inductive Operation : Set :=
  | Search (key : Z)
  | Insert (key : Z) (value : Rid)
  | Update (key : Z) (value : Rid)
  | Delete (key : Z).

Inductive Answer : Set :=
  | Found (r : option Rid)
  | Changed (page : Z)
  | Removed (r : Rid).

Definition perform (op : Operation) : MI Answer :=
  match op with
  | Search key => r ← search key ; mret (Found r)
  | Insert key value => page ← insert_entry key value ; mret (Changed page)
  | Update key value => page ← update_entry key value ; mret (Changed page)
  | Delete key => r ← delete_entry key ; mret (Removed r)
  end.

(** An operation of node [i], started with no latch. *)
Definition enter (i : Z) (ix : Index) : BLink := mkBLink (pages ix) (handles ix i) ∅.
Definition leave (i : Z) (ix : Index) (s : BLink) : Index :=
  mkIndex (store s) (λ j, if decide (j = i) then handle s else handles ix j).

(** ** The specification *)

Definition key_of (op : Operation) : Z :=
  match op with Search key | Insert key _ | Update key _ | Delete key => key end.

(** What the code takes for granted: keys have 64 bits, only an entry that waits for its
    record is updated, and no such entry is deleted. *)
Definition expected (op : Operation) (m : gmap Z Rid) : Prop :=
  0 ≤ key_of op < TOP ∧
  match op with
  | Update key value => m !! key = Some INDEX_NOT_FOUND ∧ value ≠ INDEX_NOT_FOUND
  | Delete key => ∀ r, m !! key = Some r → page_no_ r ≠ -1
  | _ => True
  end.

Inductive answers : Operation → gmap Z Rid → Answer → gmap Z Rid → Prop :=
  | answers_search key m : answers (Search key) m (Found (m !! key)) m
  | answers_insert key value m page : m !! key = None → page ≠ INVALID_PAGE_ID →
      answers (Insert key value) m (Changed page) (<[key := value]> m)
  | answers_present key value m : is_Some (m !! key) → answers (Insert key value) m (Changed INVALID_PAGE_ID) m
  | answers_update key value m page : m !! key = Some INDEX_NOT_FOUND → page ≠ INVALID_PAGE_ID →
      answers (Update key value) m (Changed page) (<[key := value]> m)
  | answers_delete key m r : m !! key = Some r → answers (Delete key) m (Removed r) (delete key m)
  | answers_missing key m : m !! key = None → answers (Delete key) m (Removed INDEX_NOT_FOUND) m.

(** An entry is loaded where there is none for its key. *)
Definition add_entry (key : Z) (value : Rid) (m : gmap Z Rid) : gmap Z Rid :=
  match m !! key with Some _ => m | None => <[key := value]> m end.

(** The states the storage node loads the index into. *)
Inductive storage_reachable : S_BLink.SBLink → gmap Z Rid → Prop :=
  | storage_new : storage_reachable S_BLink.new_SBLink ∅
  | storage_insert s m key value page s' :
      storage_reachable s m → 0 ≤ key < TOP → S_BLink.insert_entry key value s = Done (page, s') →
      storage_reachable s' (add_entry key value m).

(** The states the index gets into, with the map that the operations have made. *)
Inductive index_reachable : Index → gmap Z Rid → Prop :=
  | reach_loaded s m : storage_reachable s m → index_reachable (mkIndex (S_BLink.store s) (λ _, new_handle)) m
  | reach_op ix m i op a s m' :
      index_reachable ix m → expected op m → perform op (enter i ix) = Done (a, s) → answers op m a m' →
      index_reachable (leave i ix s) m'.

(** ** The invariant *)

Record represents (G : Spans) (H : nat) (m : gmap Z Rid) (ix : Index) : Prop := {
  rp_index : index_ok G H m (pages ix);
  rp_cache i : cache_ok G (handles ix i)
}.

Definition first_spans : Spans := {[BL_INIT_ROOT_PAGE_ID := mkSpan 0 0 TOP None]}.

Lemma first_spans_at p sp : first_spans !! p = Some sp → p = BL_INIT_ROOT_PAGE_ID ∧ sp = mkSpan 0 0 TOP None.
Proof. unfold first_spans. by intros [<- <-]%lookup_singleton_Some. Qed.

Lemma first_root_ok : node_ok first_spans first_spans BL_INIT_ROOT_PAGE_ID ∅ None BL_INIT_ROOT_PAGE_ID (mkSpan 0 0 TOP None) first_root [].
Proof.
  split; cbn [level lo hi]; try done.
  - left. by rewrite order_value.
  - split; [constructor|constructor|]. intros key _. by rewrite lookup_empty.
Qed.

Lemma first_tree : tree_ok first_spans first_spans ∅ None empty_store.
Proof.
  split.
  - intros p sp [-> ->]%first_spans_at. exists first_root, []. split; [done|apply first_root_ok].
  - intros p [sp [-> _]%first_spans_at]. done.
  - intros p q sp sq [-> _]%first_spans_at [-> _]%first_spans_at. done.
  - intros p sp q [_ ->]%first_spans_at. done.
  - by eexists.
  - intros p Hp. unfold empty_store in Hp. cbn [nodes] in Hp. rewrite lookup_insert_is_Some' in Hp.
    destruct Hp as [<-|[n [<- _]%lookup_singleton_Some]]; done.
  - intros key [r Hr]. by rewrite lookup_empty in Hr.
  - eexists. split; [apply lookup_singleton_eq|done].
Qed.

Lemma new_index_represents : represents first_spans 0 ∅ new_index.
Proof.
  split.
  - split; [apply first_tree|apply lookup_singleton_eq|..]; intros p sp [-> ->]%first_spans_at; done.
  - intros i key p Hp. cbn in Hp. by rewrite lookup_empty in Hp.
Qed.

Lemma reach_new : index_reachable new_index ∅.
Proof. exact (reach_loaded _ _ storage_new). Qed.

(** The storage node keeps the head in memory and on its page, and the shape. *)
Record storage_represents (G : Spans) (H : nat) (m : gmap Z Rid) (s : S_BLink.SBLink) : Prop := {
  sr_index : index_ok G H m (S_BLink.store s);
  sr_head : S_BLink.file_hdr s = head (S_BLink.store s)
}.

Lemma storage_insert_represents G H m s key value :
  storage_represents G H m s → 0 ≤ key < TOP →
  wp (S_BLink.insert_entry key value) (λ _ s', ∃ G' H', storage_represents G' H' (add_entry key value m) s') s.
Proof.
  intros [I Eh] Hkey. destruct s as [st fh P]. cbn in Eh, I. subst fh. unfold add_entry.
  eapply S_Calls.swp_insert_entry; [exact I|done|..].
  - intros r leaf P' Hr. rewrite Hr. by exists G, H.
  - intros leaf G' H' st' P' Hnone I'. rewrite Hnone. by exists G', H'.
Qed.

Lemma storage_search_returns G H m s key r :
  storage_represents G H m s → 0 ≤ key < TOP → m !! key = Some r →
  wp (S_BLink.search key) (λ a s', a = Some r ∧ S_BLink.store s' = S_BLink.store s) s.
Proof.
  intros [I Eh] Hkey Hr. destruct s as [st fh P]. cbn in Eh, I. subst fh.
  eapply S_Calls.swp_search; [exact I|done|exact Hr|]. done.
Qed.

Lemma storage_reachable_represents s m : storage_reachable s m → ∃ G H, storage_represents G H m s.
Proof.
  induction 1 as [|s m key value page s' Hr (G & H & R) Hkey Hdo].
  - exists first_spans, 0%nat. split; [|done]. apply new_index_represents.
  - destruct (wp_run _ _ _ _ _ (storage_insert_represents G H m s key value R Hkey) Hdo) as (G' & H' & R'). by exists G', H'.
Qed.

(** Node [i] comes back with other pages and another cache. *)
Lemma represents_leave G H m ix G' H' m' i st' fh' kc' :
  represents G H m ix → index_ok G' H' m' st' → keeps_leaves G G' → cache_ok G' (mkHandle fh' kc') →
  represents G' H' m' (leave i ix (mkBLink st' (mkHandle fh' kc') ∅)).
Proof.
  intros [_ K] I' HG K'. split; [done|]. intros j. unfold leave. cbn [handles]. case_decide; [done|].
  pose proof (K j) as Kj. destruct (handles ix j) as [fh kc]. by eapply cache_keeps.
Qed.

Lemma keeps_leaves_refl G : keeps_leaves G G.
Proof. intros x sx Hx Hl. by exists sx. Qed.

(** Every operation answers, gives back its latches and keeps the shape. *)
Lemma perform_represents G H m ix i op :
  represents G H m ix → expected op m →
  wp (perform op) (λ a s, latches s = ∅ ∧
    ∃ G' H' m', answers op m a m' ∧ represents G' H' m' (leave i ix s)) (enter i ix).
Proof.
  intros R [Hkey Hop]. pose proof (rp_index _ _ _ _ R) as I. pose proof (rp_cache _ _ _ _ R i) as K.
  unfold enter. destruct (handles ix i) as [fh kc]. destruct op as [key|key value|key value|key]; cbn [perform key_of] in *; wp_step.
  - eapply wp_search; [exact I|exact K|done|]. intros fh' kc' K'. wp_step. split; [done|]. exists G, H, m.
    split; [constructor|]. eapply represents_leave; [exact R|done|apply keeps_leaves_refl|done].
  - eapply wp_insert_entry; [exact I|done|..].
    + intros r fh' Hr. wp_step. split; [done|]. exists G, H, m. split; [constructor; by eexists|].
      eapply represents_leave; [exact R|done|apply keeps_leaves_refl|]. eapply cache_keeps; [exact K|apply keeps_leaves_refl].
    + intros leaf G' H' st' fh' Hnone Hleaf I' HG. wp_step. split; [done|]. exists G', H', (<[key := value]> m).
      split; [by constructor|]. eapply represents_leave; [exact R|done|done|]. by eapply cache_keeps.
  - destruct Hop as [Hm Hv]. eapply wp_update_entry; [exact I|done|done|done|]. intros leaf st' fh' Hleaf I'. wp_step. split; [done|].
    exists G, H, (<[key := value]> m). split; [by constructor|].
    eapply represents_leave; [exact R|done|apply keeps_leaves_refl|]. eapply cache_keeps; [exact K|apply keeps_leaves_refl].
  - eapply wp_delete_entry; [exact I|done|..].
    + intros fh' Hnone. wp_step. split; [done|]. exists G, H, m. split; [by constructor|].
      eapply represents_leave; [exact R|done|apply keeps_leaves_refl|]. eapply cache_keeps; [exact K|apply keeps_leaves_refl].
    + intros r Hr. split; [by apply Hop|]. intros st' fh' I'. wp_step. split; [done|]. exists G, H, (delete key m).
      split; [by constructor|]. eapply represents_leave; [exact R|done|apply keeps_leaves_refl|].
      eapply cache_keeps; [exact K|apply keeps_leaves_refl].
Qed.

(** An answer determines the map that follows. *)
Lemma answers_det op m a m1 m2 : answers op m a m1 → answers op m a m2 → m1 = m2.
Proof.
  intros A B. destruct A; inversion B; subst; try done; try congruence.
Qed.

Lemma reachable_represents ix m : index_reachable ix m → ∃ G H, represents G H m ix.
Proof.
  intros Hr. induction Hr as [s m Hs|ix m i op a s m' Hr (G & H & R) Hop Hdo Ha].
  - destruct (storage_reachable_represents _ _ Hs) as (G & H & [I _]). exists G, H. split; [done|].
    intros i key p Hp. cbn in Hp. by rewrite lookup_empty in Hp.
  - destruct (wp_run _ _ _ _ _ (perform_represents G H m ix i op R Hop) Hdo) as (_ & G' & H' & m'' & Ha' & R').
    rewrite (answers_det _ _ _ _ _ Ha Ha'). by exists G', H'.
Qed.
