(* ===== verification/BLinkChain.v ===== *)
(** The list of leaves: from the first leaf of the head, following [next_leaf] to the
    header page, the pairs of the leaves are the whole map in the order of the keys. *)

From stdpp Require Import sorting.
From S2P Require Import Prelude Common Bytes Record BLinkNode BLinkTree BLinkInv BLinkSystem.

#[local] Arguments replicate : simpl never.
#[local] Arguments order : simpl never.

(** The pairs of a node, as a reader of the page sees them. *)
Definition node_pairs (n : BLNode) : pairs :=
  zip (take (Z.to_nat (num_key n)) (keys n)) (take (Z.to_nat (num_key n)) (rids n)).

Fixpoint leaf_chain (fuel : nat) (ns : gmap Z BLNode) (p : Z) : option pairs :=
  if decide (p = BL_LEAF_HEADER_PAGE_ID) then Some []
  else match fuel with
       | O => None
       | S fuel' =>
           n ← ns !! p ;
           rest ← leaf_chain fuel' ns (next_leaf n) ;
           mret (node_pairs n ++ rest)
       end.

Lemma node_pairs_eq n l : node_holds n l → node_pairs n = l.
Proof.
  intros [Hs Hk Hr _ _]. unfold node_pairs. rewrite Hs. unfold len. rewrite Nat2Z.id, Hk, Hr. apply zip_fst_snd.
Qed.

Section chain.
Context (C G : Spans) (m : gmap Z Rid) (full : option Z) (st : BLStore).
Hypothesis T : tree_ok C G m full st.

(** The leaves that begin at [a] or later. *)
Definition leaves_from (a : Z) : gset Z := dom (filter (λ x, level x.2 = 0%nat ∧ a ≤ lo x.2) G).

Lemma elem_of_leaves_from a p : p ∈ leaves_from a ↔ ∃ sp, G !! p = Some sp ∧ level sp = 0%nat ∧ a ≤ lo sp.
Proof using Type.
  unfold leaves_from. rewrite elem_of_dom. split.
  - intros [sp [Hp [Hl Ha]]%map_lookup_filter_Some]. by exists sp.
  - intros (sp & Hp & Hl & Ha). exists sp. by apply map_lookup_filter_Some.
Qed.

Lemma leaves_from_next p sp : G !! p = Some sp → level sp = 0%nat →
  (size (leaves_from (hi sp)) < size (leaves_from (lo sp)))%nat.
Proof using T.
  intros Hp Hl. pose proof (span_nonempty _ _ _ _ _ T _ _ Hp). apply subset_size. split.
  - intros x (sx & Hx & Hlx & Ha)%elem_of_leaves_from. apply elem_of_leaves_from. exists sx. split; [done|]. split; [done|lia].
  - intros Hsub. assert (p ∈ leaves_from (hi sp)) as (sp' & Hp' & _ & Hlo)%elem_of_leaves_from.
    { apply Hsub, elem_of_leaves_from. by exists sp. }
    rewrite Hp in Hp'. injection Hp' as <-. lia.
Qed.

(** What the chain from a leaf gives. *)
Lemma leaf_chain_from fuel p sp :
  G !! p = Some sp → level sp = 0%nat → (size (leaves_from (lo sp)) ≤ fuel)%nat →
  ∃ l, leaf_chain fuel (nodes st) p = Some l ∧ sorted l ∧ Forall (λ x, lo sp ≤ x.1) l ∧
    ∀ key, lo sp ≤ key → m !! key = pairs_map l !! key.
Proof using T.
  revert p sp. induction fuel as [|fuel IH]; intros p sp Hp Hl Hf; pose proof (leaves_from_next _ _ Hp Hl); [lia|].
  destruct (to_node _ _ _ _ _ T _ _ Hp) as (n & l & Hn & Hok).
  pose proof (no_body _ _ _ _ _ _ _ _ _ Hok) as Hb. rewrite Hl in Hb. destruct Hb as [Hs Hr Hm].
  pose proof (to_page _ _ _ _ _ T p (ex_intro _ _ Hp)) as Hp2.
  pose proof (node_pairs_eq _ _ (no_holds _ _ _ _ _ _ _ _ _ Hok)) as El.
  pose proof (no_range _ _ _ _ _ _ _ _ _ Hok) as Hrange.
  assert (∃ l', leaf_chain fuel (nodes st) (next_leaf n) = Some l' ∧ sorted l' ∧ Forall (λ x, hi sp ≤ x.1) l' ∧
    ∀ key, hi sp ≤ key → m !! key = pairs_map l' !! key) as (l' & Hl' & Hs' & Hr' & Hm').
  { pose proof (no_links _ _ _ _ _ _ _ _ _ Hok) as [Hright Hnext _]. rewrite (Hnext Hl). destruct (decide (hi sp = TOP)) as [Et|].
    - exists []. split; [by destruct fuel|]. split; [constructor|]. split; [constructor|]. intros key Hkey.
      apply eq_None_not_Some. intros Hk%(to_keys _ _ _ _ _ T). lia.
    - destruct Hright as (sq & Hq & Hlq & Elo). rewrite <- Elo. apply (IH _ sq); [done|congruence|]. rewrite Elo. lia. }
  exists (l ++ l'). cbn [leaf_chain]. rewrite decide_False by (unfold BL_LEAF_HEADER_PAGE_ID; lia).
  split; [rewrite Hn; cbn [mbind option_bind]; by rewrite Hl', El|].
  split; [|split].
  - apply StronglySorted_app. split; [|done]. intros x y Hx Hy. unfold key_lt. rewrite Forall_forall in Hr, Hr'.
    specialize (Hr _ Hx). specialize (Hr' _ Hy). unfold covers in Hr. lia.
  - apply Forall_app. split; [eapply Forall_impl; [exact Hr|]|eapply Forall_impl; [exact Hr'|]]; cbn; unfold covers; lia.
  - intros key Hkey. rewrite pairs_map_app. destruct (decide (key < hi sp)) as [Hlt|Hge].
    + rewrite <- Hm by (unfold covers; lia). destruct (m !! key) eqn:E; [done|]. symmetry. apply pairs_map_above.
      eapply Forall_impl; [exact Hr'|]. cbn. lia.
    + rewrite (pairs_map_below key l); [apply Hm'; lia|]. eapply Forall_impl; [exact Hr|]. cbn. unfold covers. lia.
Qed.

Lemma leaves_size a : (size (leaves_from a) ≤ size (nodes st))%nat.
Proof using T.
  rewrite <- (size_dom (D := gset Z) (nodes st)). apply subseteq_size. intros p (sp & Hp & _)%elem_of_leaves_from.
  destruct (to_node _ _ _ _ _ T _ _ Hp) as (n & _ & Hn & _). apply elem_of_dom. by exists n.
Qed.

Lemma leaf_chain_all : ∃ l, leaf_chain (size (nodes st)) (nodes st) (first_leaf (head st)) = Some l ∧ sorted l ∧ pairs_map l = m.
Proof using T.
  destruct (to_first _ _ _ _ _ T) as (sp & Hp & Hl & Hlo).
  destruct (leaf_chain_from (size (nodes st)) _ _ Hp Hl (leaves_size _)) as (l & Hc & Hs & Hr & Hm).
  exists l. split; [done|]. split; [done|]. apply map_eq. intros key. rewrite Hlo in Hr, Hm.
  destruct (decide (0 ≤ key)) as [H0|H0]; [by rewrite Hm|].
  rewrite pairs_map_above by (eapply Forall_impl; [exact Hr|]; cbn; lia).
  symmetry. apply eq_None_not_Some. intros Hk%(to_keys _ _ _ _ _ T). lia.
Qed.
End chain.
