(* ===== verification/BLinkDemo.v ===== *)
(** Runs of the index: a load, and what two nodes do to each other between the steps of
    an operation. *)

From S2P Require Import Prelude Common Bytes Record BLinkNode BLinkTree BLinkInv SBLink BLinkSystem.

#[local] Arguments replicate : simpl never.
#[local] Arguments order : simpl never.

(** Node [i] inserts keys one after the other. *)
Fixpoint load (i : Z) (v : Rid) (ks : list Z) (ix : Index) : option Index :=
  match ks with
  | [] => Some ix
  | k :: ks =>
      match perform (Insert k v) (enter i ix) with
      | Done (_, s) => load i v ks (leave i ix s)
      | _ => None
      end
  end.

Definition loaded (v : Rid) (ks : list Z) (m : gmap Z Rid) : gmap Z Rid :=
  foldl (λ m k, match m !! k with Some _ => m | None => <[k := v]> m end) m ks.

Lemma load_reachable i v ks ix m : index_reachable ix m → Forall (λ k, 0 ≤ k < TOP) ks → ∀ ix', load i v ks ix = Some ix' →
  index_reachable ix' (loaded v ks m).
Proof.
  revert ix m. induction ks as [|k ks IH]; intros ix m Hr Hks ix'; cbn [load loaded foldl]; [by intros [= <-]|].
  apply Forall_cons_1 in Hks as [Hk Hks].
  destruct (perform (Insert k v) (enter i ix)) as [[a s]| |] eqn:E; [|done|done]. apply IH; [|done].
  destruct (reachable_represents _ _ Hr) as (G & H & R).
  assert (expected (Insert k v) m) as Hop by done.
  pose proof (perform_represents G H m ix i (Insert k v) R Hop) as W.
  destruct (wp_run _ _ _ _ _ W E) as (_ & G' & H' & m' & Ha & R').
  assert (m' = match m !! k with Some _ => m | None => <[k := v]> m end) as <-.
  { inversion Ha as [|? ? ? ? Hnone|? ? ? [r Hsome]| | |]; subst; [by rewrite Hnone|by rewrite Hsome]. }
  by eapply reach_op.
Qed.

(** The storage node loads keys one after the other. *)
Fixpoint s_load (v : Rid) (ks : list Z) (s : S_BLink.SBLink) : option S_BLink.SBLink :=
  match ks with
  | [] => Some s
  | k :: ks =>
      match S_BLink.insert_entry k v s with
      | Done (_, s) => s_load v ks s
      | _ => None
      end
  end.

Lemma s_load_reachable v ks s m : storage_reachable s m → Forall (λ k, 0 ≤ k < TOP) ks → ∀ s', s_load v ks s = Some s' →
  storage_reachable s' (loaded v ks m).
Proof.
  revert s m. induction ks as [|k ks IH]; intros s m Hr Hks s'; cbn [s_load loaded foldl]; [by intros [= <-]|].
  apply Forall_cons_1 in Hks as [Hk Hks]. destruct (S_BLink.insert_entry k v s) as [[a s1]| |] eqn:E; [|done|done].
  apply IH; [|done]. by eapply storage_insert.
Qed.

(** The first half of a search, until it holds nothing: the child of the root. *)
Definition search_child (key : Z) : MI Z :=
  fuel ← gets fuel_for ;
  root ← find_root fuel ;
  node ← move_right fuel SEARCH_OPERA key root ;
  step_down key node.

(** The rest of it. *)
Definition search_from (key child : Z) : MI (option Rid) :=
  fuel ← gets fuel_for ;
  fetch_node child SEARCH_OPERA ;;
  '(node, _) ← descend fuel key [] child ;
  leaf ← move_right fuel SEARCH_OPERA key node ;
  search_leaf key leaf.

(** The first half of an insertion, until it holds nothing, and the rest. *)
Definition insert_leaf (key : Z) : MI (Z * list Z) :=
  fuel ← gets fuel_for ;
  root ← find_root fuel ;
  '(leaf_id, trace) ← descend fuel key [] root ;
  release_node leaf_id SEARCH_OPERA ;;
  mret (leaf_id, trace).

Definition insert_from (key : Z) (value : Rid) (leaf_id : Z) (trace : list Z) : MI Z :=
  node ← take_leaf INSERT_OPERA key leaf_id ;
  insert_at key value node trace.

Definition steps (from step n : Z) : list Z := (λ i, from + step * Z.of_nat i) <$> seq 0 (Z.to_nat n).

Definition some_rid : Rid := mkRid 7 1.

(** Two leaves under a root, then the left one split twice. *)
Definition two_leaves : option Index := load 1 some_rid (steps 0 1000000 253) new_index.
Definition twice_split (ix : Index) : option Index :=
  ix ← load 1 some_rid (steps 1000 1000 127) ix ;
  load 1 some_rid (steps 1 1 127) ix.
