(* ===== verification/BLinkProtocol.v ===== *)
(** What the B-link index promises to its callers, and where the promise ends: what
    happens to an operation that others overtake between two of its pages. *)

From stdpp Require Import sorting.
From S2P Require Import Prelude Common Bytes Record BLinkNode BLinkTree BLinkInv SBLink BLinkSystem BLinkChain BLinkDemo.

#[local] Arguments replicate : simpl never.
#[local] Arguments order : simpl never.

(** ** Whole operations *)

(** C13: the B-link index refines a map.  In every state that whole operations of any
    compute nodes lead to, an operation that keeps to the conventions of its callers returns
    (no latch is waited for in vain, no assertion fires, no array is overrun, no page is
    missing, and the fuel is enough), has given back every latch, answers what the map
    says whatever its cache of leaves holds, and leaves the index in the state of the
    map that follows. *)
Theorem blink_refines_map ix m i op :
  index_reachable ix m → expected op m →
  ∃ a s m', perform op (enter i ix) = Done (a, s) ∧ latches s = ∅ ∧ answers op m a m' ∧
    index_reachable (leave i ix s) m'.
Proof.
  intros Hr Hop. destruct (reachable_represents _ _ Hr) as (G & H & R).
  destruct (wp_inv _ _ _ (perform_represents G H m ix i op R Hop)) as (a & s & Hdo & HL & G' & H' & m' & Ha & _).
  exists a, s, m'. do 3 (split; [done|]). by eapply reach_op.
Qed.

Lemma blink_refines_map_witness :
  index_reachable new_index ∅ ∧ expected (Insert 5 some_rid) ∅ ∧
  ∃ a s m', perform (Insert 5 some_rid) (enter 3 new_index) = Done (a, s) ∧ latches s = ∅ ∧
    answers (Insert 5 some_rid) ∅ a m' ∧ index_reachable (leave 3 new_index s) m'.
Proof.
  split; [apply reach_new|]. split; [by split|]. apply blink_refines_map; [apply reach_new|by split].
Defined.

(** C14: the shape of the tree in every reachable state: every page of the tree has a span of
    keys; pages of a level do not overlap; a leaf has its keys in order, within its span, and
    exactly the entries of the map there; an inner node's keys cut its span into the spans of its
    children, one level below, and every page but the root is a child of its parent; no
    page is full; a high key is the end of the span; right siblings and the
    links of the leaves lead to the neighbours; and the caches lead to leaves. *)
Theorem blink_shape ix m : index_reachable ix m → ∃ G H, represents G H m ix.
Proof. apply reachable_represents. Qed.

Lemma blink_shape_witness : index_reachable new_index ∅ ∧ ∃ G H, represents G H ∅ new_index.
Proof. split; [apply reach_new|]. apply blink_shape, reach_new. Defined.

(** From [first_leaf] of the head page along [next_leaf] to the header page one meets
    every entry once, in the order of the keys. *)
Definition lists_in_order (st : BLStore) (m : gmap Z Rid) : Prop :=
  ∃ l, leaf_chain (size (nodes st)) (nodes st) (first_leaf (head st)) = Some l ∧ StronglySorted Z.lt l.*1 ∧ list_to_map l = m.

(** C15: the list of leaves is the map in order, in every reachable state. *)
Theorem blink_leaf_list ix m : index_reachable ix m → lists_in_order (pages ix) m.
Proof.
  intros (G & H & R)%reachable_represents. pose proof (rp_index _ _ _ _ R) as I.
  destruct (leaf_chain_all _ _ _ _ _ (ix_tree _ _ _ _ I)) as (l & Hl & Hs & Hm). exists l. split; [done|]. split; [|done].
  clear -Hs. induction Hs as [|x l Hs IH Hx]; [constructor|]. rewrite fmap_cons. constructor; [done|].
  apply Forall_fmap. exact Hx.
Qed.

Lemma blink_leaf_list_witness : index_reachable new_index ∅ ∧ lists_in_order (pages new_index) ∅.
Proof. split; [apply reach_new|]. exact (blink_leaf_list new_index ∅ reach_new). Defined.

(** C16: loading on the storage node: in every state that loading leads to, inserting an entry
    returns, leaves the entries with this one if its key is new, and every entry is
    then found.  What was loaded is what the compute nodes start with ([reach_loaded]). *)
Theorem blink_load s m key value :
  storage_reachable s m → 0 ≤ key < TOP →
  ∃ page s', S_BLink.insert_entry key value s = Done (page, s') ∧ storage_reachable s' (add_entry key value m) ∧
    ∀ k r, add_entry key value m !! k = Some r → result (S_BLink.search k) s' = Some (Some r).
Proof.
  intros Hs Hkey. destruct (storage_reachable_represents _ _ Hs) as (G & H & R).
  destruct (wp_inv _ _ _ (storage_insert_represents G H m s key value R Hkey)) as (page & s' & Hdo & G' & H' & R').
  exists page, s'. split; [done|]. split; [by eapply storage_insert|]. intros k r Hr.
  pose proof (to_keys _ _ _ _ _ (ix_tree _ _ _ _ (sr_index _ _ _ _ R')) k (ex_intro _ _ Hr)) as Hk.
  destruct (wp_inv _ _ _ (storage_search_returns G' H' _ s' k r R' Hk Hr)) as (a & s2 & Hdo' & -> & _).
  unfold result. by rewrite Hdo'.
Qed.

Lemma blink_load_witness :
  storage_reachable S_BLink.new_SBLink ∅ ∧ 0 ≤ 5 < TOP ∧
  ∃ page s', S_BLink.insert_entry 5 some_rid S_BLink.new_SBLink = Done (page, s') ∧
    storage_reachable s' (add_entry 5 some_rid ∅) ∧
    ∀ k r, add_entry 5 some_rid ∅ !! k = Some r → result (S_BLink.search k) s' = Some (Some r).
Proof. split; [apply storage_new|]. split; [done|]. apply blink_load; [apply storage_new|done]. Defined.

(** ** Overtaken operations *)

Lemma steps_range from step n : 0 ≤ from → 0 ≤ step → from + step * n < TOP → 0 ≤ n →
  Forall (λ k, 0 ≤ k < TOP) (steps from step n).
Proof.
  intros Hf Hs Hn H0. apply Forall_forall. intros k (i & -> & Hi%elem_of_seq)%list_elem_of_fmap. nia.
Qed.

Definition two_leaves_map : gmap Z Rid := loaded some_rid (steps 0 1000000 253) ∅.
Definition twice_split_map : gmap Z Rid := loaded some_rid (steps 1 1 127) (loaded some_rid (steps 1000 1000 127) two_leaves_map).

Lemma two_leaves_reachable ix : two_leaves = Some ix → index_reachable ix two_leaves_map.
Proof.
  unfold two_leaves, two_leaves_map. apply (load_reachable 1 some_rid (steps 0 1000000 253) new_index ∅ reach_new).
  by apply steps_range.
Qed.

Lemma twice_split_reachable ix m ix' : index_reachable ix m → twice_split ix = Some ix' →
  index_reachable ix' (loaded some_rid (steps 1 1 127) (loaded some_rid (steps 1000 1000 127) m)).
Proof.
  intros Hr. unfold twice_split. destruct (load 1 some_rid (steps 1000 1000 127) ix) as [ix1|] eqn:E1; [|done].
  cbn [mbind option_bind]. apply load_reachable; [|by apply steps_range].
  revert E1. apply load_reachable; [exact Hr|by apply steps_range].
Qed.

(** Reading off what a run comes to. *)
Lemma ran {A B} (o : option A) (f : A → B) (b : B) : f <$> o = Some b → ∃ a, o = Some a ∧ f a = b.
Proof. intros (a & E & ->)%fmap_Some. by exists a. Qed.

(** C17: a search may miss a key that is there all the time.  Node 0 has got the child of
    the root for the key, released the root and not yet taken the child; meanwhile
    node 1 inserts and splits the child twice.  The page in between gets no high key, so
    that the search stops there although the key is further right. *)
Theorem stale_reader_misses_key : ∃ ix m ix' m' key child r,
  index_reachable ix m ∧ m !! key = Some r ∧
  result (search_child key) (enter 0 ix) = Some child ∧ latches (after (search_child key) (enter 0 ix)) = ∅ ∧
  twice_split ix = Some ix' ∧ index_reachable ix' m' ∧ m' !! key = Some r ∧
  result (search_from key child) (enter 0 ix') = Some None.
Proof.
  destruct (ran (ix ← two_leaves ; ix' ← twice_split ix ; Some (ix, ix'))
    (λ '(ix, ix'), (result (search_child 125000000) (enter 0 ix), latches (after (search_child 125000000) (enter 0 ix)),
      result (search_from 125000000 2) (enter 0 ix'))) (Some 2, ∅, Some None)) as ([ix ix'] & E & E1); [by vm_compute|].
  destruct two_leaves as [ix0|] eqn:E2; [|done]. cbn [mbind option_bind] in E.
  destruct (twice_split ix0) as [ix1|] eqn:E3; [|done]. cbn [mbind option_bind] in E. injection E as <- <-.
  injection E1 as E4 E5 E6. apply two_leaves_reachable in E2.
  exists ix0, two_leaves_map, ix1, (loaded some_rid (steps 1 1 127) (loaded some_rid (steps 1000 1000 127) two_leaves_map)).
  exists 125000000, 2, some_rid. split; [exact E2|]. split; [by vm_compute|]. split; [exact E4|]. split; [exact E5|].
  split; [exact E3|]. split; [exact (twice_split_reachable _ _ _ E2 E3)|]. split; [by vm_compute|exact E6].
Qed.

(** The root leaf is split while an insertion has released it, and filled again. *)
Definition first_split : option Index := load 1 some_rid (steps 0 1000 253) new_index.
Definition filled_again (ix : Index) : option Index := load 1 some_rid (steps 1 1 126) ix.

(** an insertion may run off the end of its path.  Node 0 has found the root to be the leaf
    for its key, so that its path is empty, and released it; meanwhile node 1 splits the
    root and fills the left half to one entry less than the most.  The insertion goes
    on with the leaf, has to split it, the leaf is no root any more, and the parent is
    taken from the end of the empty path. *)
Theorem stale_trace_crashes : ∃ ix m key leaf,
  result (insert_leaf key) (enter 0 new_index) = Some (leaf, []) ∧
  latches (after (insert_leaf key) (enter 0 new_index)) = ∅ ∧
  (first_split ≫= filled_again) = Some ix ∧ index_reachable ix m ∧ m !! key = None ∧
  insert_from key some_rid leaf [] (enter 0 ix) = Crash OutOfBounds.
Proof.
  destruct (ran (first_split ≫= filled_again) (λ ix, insert_from 500 some_rid 2 [] (enter 0 ix)) (Crash OutOfBounds))
    as (ix & E & E1); [by vm_compute|].
  exists ix, (loaded some_rid (steps 1 1 126) (loaded some_rid (steps 0 1000 253) ∅)), 500, 2.
  split; [by vm_compute|]. split; [by vm_compute|]. split; [exact E|]. split; [|split; [by vm_compute|exact E1]].
  destruct first_split as [ix1|] eqn:E2; [|done]. cbn [mbind option_bind] in E. revert E.
  apply load_reachable; [|by apply steps_range]. revert E2. apply load_reachable; [apply reach_new|by apply steps_range].
Qed.

(** the head page keeps the first leaf for the last one: the leaves are linked in a circle
    through the header page, so that no [next_leaf] is ever invalid, which is what
    [insert_entry] waits for. *)
Theorem last_leaf_is_stale : ∃ ix m last,
  first_split = Some ix ∧ index_reachable ix m ∧
  option_map next_leaf (nodes (pages ix) !! last) = Some BL_LEAF_HEADER_PAGE_ID ∧ last_leaf (head (pages ix)) ≠ last.
Proof.
  destruct (ran first_split (λ ix, (option_map next_leaf (nodes (pages ix) !! 3), last_leaf (head (pages ix)))) (Some 0, 2))
    as (ix & E & E1); [by vm_compute|]. injection E1 as E2 E3.
  exists ix, (loaded some_rid (steps 0 1000 253) ∅), 3. split; [exact E|]. split; [|split; [exact E2|by rewrite E3]].
  revert E. apply load_reachable; [apply reach_new|by apply steps_range].
Qed.

(** an entry that still waits for its record cannot be deleted: the assertion fires. *)
Theorem delete_of_waiting_entry_aborts : ∃ ix m key,
  index_reachable ix m ∧ m !! key = Some INDEX_NOT_FOUND ∧
  perform (Delete key) (enter 0 ix) = Crash (AssertFailed 683).
Proof.
  destruct (ran (load 1 INDEX_NOT_FOUND [5] new_index) (λ ix, perform (Delete 5) (enter 0 ix)) (Crash (AssertFailed 683)))
    as (ix & E & E1); [by vm_compute|].
  exists ix, (loaded INDEX_NOT_FOUND [5] ∅), 5. split; [|split; [by vm_compute|exact E1]].
  revert E. apply load_reachable; [apply reach_new|]. by repeat constructor.
Qed.

(** loading leaves pins behind: [find_leaf] releases the child it is about to fetch and not
    the node it comes from, so that when all calls have returned the root is still
    pinned, as often as there were calls since it is the root. *)
Theorem find_leaf_leaks_pins : ∃ s m,
  storage_reachable s m ∧ root_page_id (head (S_BLink.store s)) = 4 ∧ S_BLink.pins s !! 4 = Some 47.
Proof.
  destruct (ran (s_load some_rid (steps 0 1 300) S_BLink.new_SBLink)
    (λ s, (root_page_id (head (S_BLink.store s)), S_BLink.pins s !! 4)) (4, Some 47)) as (s & E & E1); [by vm_compute|].
  injection E1 as E2 E3. exists s, (loaded some_rid (steps 0 1 300) ∅). split; [|by split].
  revert E. apply s_load_reachable; [apply storage_new|by apply steps_range].
Qed.
