(* ===== verification/FsmTree.v ===== *)
(** The free-space map of a table as the compute nodes use it: [SecFSM] of
    [core/fsm/fsm_tree.h] and [fsm_tree.cc].  The map is a file of pages, each with a binary tree of
    categories; the leaves of the inner pages stand for other pages, those of the
    leaf pages for the pages of the table.

    A page is what its bytes decode to ([FsmReplay] has the format, which the
    storage node shares).  A call keeps track of the pages whose latches it holds; taking
    one twice would wait for ever.  The recursion from page to page takes fuel. *)

From S2P Require Import Prelude Common Bytes Record RecordPage FsmReplay.

Definition FSM_META_PAGE_ID : Z := 1.

(** [0xFFFFFFFF]: no page. *)
Definition NO_PAGE : Z := 2 ^ 32 - 1.

Definition sizeof_FSMMetaData : Z := 120.
Definition total_heap_pages (m : buffer) : Z := field 8 4 m.
Definition root_page_id (m : buffer) : Z := field 20 4 m.

Definition parent_page (h : buffer) : Z := field 12 4 h.

Record SecFSM := mkSecFSM {
  pages : gmap Z buffer;                (* of all nodes *)
  fsm_pages_ : gmap Z S_FSMPageData;
  meta_ : buffer;
  initialized_ : bool;
  latches : gmap Z bool;                (* the pages held, and whether for writing *)
  pageinuse : option Z
}.

Abbreviation MF := (M SecFSM).

Definition set_pages x s := mkSecFSM x (fsm_pages_ s) (meta_ s) (initialized_ s) (latches s) (pageinuse s).
Definition set_fsm_pages x s := mkSecFSM (pages s) x (meta_ s) (initialized_ s) (latches s) (pageinuse s).
Definition set_meta x s := mkSecFSM (pages s) (fsm_pages_ s) x (initialized_ s) (latches s) (pageinuse s).
Definition set_initialized x s := mkSecFSM (pages s) (fsm_pages_ s) (meta_ s) x (latches s) (pageinuse s).
Definition set_latches x s := mkSecFSM (pages s) (fsm_pages_ s) (meta_ s) (initialized_ s) x (pageinuse s).
Definition set_pageinuse x s := mkSecFSM (pages s) (fsm_pages_ s) (meta_ s) (initialized_ s) (latches s) x.

Definition FSM_ROOT_PAGE_ID : Z := 2.
Definition LEAVES_PER_PAGE : Z := 1024.
Definition CHILDREN_PER_PAGE : Z := 512.

(** The constructors' [FSMMetaData]; what the reserved bytes are is not determined. *)
Definition new_meta (table_id : Z) (reserved : buffer) : buffer :=
  le 4 FSM_META_MAGIC ++ le 4 1 ++ le 4 0 ++ le 4 0 ++ le 4 0 ++ le 4 FSM_ROOT_PAGE_ID ++ le 4 (FSM_ROOT_PAGE_ID - 1) ++
  le 4 LEAVES_PER_PAGE ++ le 4 CHILDREN_PER_PAGE ++ le 4 0 ++ le 8 0 ++ le 4 table_id ++ reserved.

(** The constructor, over the pages that the node can fetch. *)
Definition new_SecFSM (table_id : Z) (reserved : buffer) (ps : gmap Z buffer) : SecFSM :=
  mkSecFSM ps ∅ (new_meta table_id reserved) false ∅ None.

(** ** Categories *)

Definition space_to_category : Z → Z := FsmSpaceToCategory.

Definition category_to_space (category : Z) : Z :=
  if category =? EMPTY then Z.quot (PAGE_SIZE * 9) 10
  else if category =? ALMOST_EMPTY then Z.quot (PAGE_SIZE * 2) 3
  else if category =? HALF_FULL then Z.quot PAGE_SIZE 3
  else if category =? ALMOST_FULL then Z.quot PAGE_SIZE 10
  else 0.

(** ** Pages *)

Definition latch (page_id : Z) (x : bool) : MF unit :=
  held ← gets latches ;
  match held !! page_id with
  | Some _ => block
  | None => modify (set_latches (<[page_id := x]> held))
  end.

Definition release_page (page_id : Z) (read : bool) : MF unit :=
  held ← gets latches ;
  match held !! page_id with
  | Some x => if Bool.eqb x (negb read) then modify (set_latches (delete page_id held)) else crash UnlockNotHeld
  | None => crash UnlockNotHeld
  end.

(** [deserialize_metadata]: a page with another magic number changes nothing. *)
Definition deserialize_metadata (bs : buffer) : MF unit :=
  let loaded_meta := slice 0 sizeof_FSMMetaData bs in
  if field 0 4 loaded_meta =? FSM_META_MAGIC then modify (set_meta loaded_meta) else mret tt.

(** The page is latched and its bytes are at hand. *)
Definition take_page (page_id : Z) (read : bool) : MF buffer :=
  ps ← gets pages ;
  match ps !! page_id with
  | None => crash OutOfBounds
  | Some bs =>
      latch page_id (negb read) ;;
      when (negb read) (modify (set_pageinuse (Some page_id))) ;;
      mret bs
  end.

Definition fetch_meta : MF unit :=
  bs ← take_page FSM_META_PAGE_ID true ;
  deserialize_metadata bs.

(** [fetch_page] of another page: the entry of the cache, which keeps what it had if the
    page does not decode; one that never had anything has no header. *)
Definition fetch_page (page_id : Z) (read : bool) : MF S_FSMPageData :=
  bs ← take_page page_id read ;
  cache ← gets fsm_pages_ ;
  match DeserializeFSMPage bs with
  | Some page_data => modify (set_fsm_pages (<[page_id := page_data]> cache)) ;; mret page_data
  | None =>
      match cache !! page_id with
      | Some page_data => mret page_data
      | None => crash OutOfBounds
      end
  end.

Definition keep_page (page_id : Z) (page_data : S_FSMPageData) : MF unit :=
  modify (λ s, set_fsm_pages (<[page_id := page_data]> (fsm_pages_ s)) s).

(** [serialize_page] over the bytes that the page has; it writes nothing if the nodes do not fit.
    [now] is [time(nullptr)]. *)
Definition refresh_header (p : S_FSMPageData) : S_FSMPageData :=
  if page_type (header p) =? INTERNAL_PAGE then
    let p := EnsureChildVector p in
    set_header (set_field 28 4 (default 0 (head (child_page_ids p)))
                  (set_field 32 4 (len (child_page_ids p)) (header p))) p
  else set_header (set_field 28 4 0 (set_field 32 4 0 (header p))) (set_children [] p).

Definition serialize_page (now : Z) (p : S_FSMPageData) (old : buffer) : S_FSMPageData * option buffer :=
  let p := refresh_header p in
  let child_bytes := if page_type (header p) =? INTERNAL_PAGE then child_count (header p) * 4 else 0 in
  let node_region_capacity :=
    if sizeof_S_FSMPageHeader + child_bytes <? PAGE_SIZE
    then PAGE_SIZE - sizeof_S_FSMPageHeader - child_bytes else 0 in
  if node_region_capacity <? len (nodes p) then (p, None)
  else
    let h := set_field 48 8 now (set_field 0 4 FSM_PAGE_MAGIC (header p)) in
    let p := set_header h p in
    let bs := splice sizeof_S_FSMPageHeader (nodes p) (splice 0 h old) in
    (p, Some (if (page_type h =? INTERNAL_PAGE) && (0 <? child_count h)
              then splice (sizeof_S_FSMPageHeader + len (nodes p)) (concat (le 4 <$> child_page_ids p)) bs
              else bs)).

(** [serialize_page] of the page into the frame of the page last taken for writing. *)
Definition write_back (now page_id : Z) (page_data : S_FSMPageData) : MF unit :=
  used ← gets pageinuse ;
  match used with
  | None => crash OutOfBounds
  | Some u =>
      ps ← gets pages ;
      held ← gets latches ;
      match ps !! u, held !! u with
      | Some bs, Some true =>
          let '(p, bs') := serialize_page now page_data bs in
          keep_page page_id p ;;
          modify (set_pages (<[u := default bs bs']> ps))
      | _, _ => crash UnlockNotHeld
      end
  end.

(** ** Searching *)

Definition make_ready : MF unit :=
  ready ← gets initialized_ ;
  when (negb ready)
    (fetch_meta ;;
     release_page FSM_META_PAGE_ID true ;;
     modify (set_initialized true)).

(** [index < node_count && nodes[index].get_value() >= required_category] *)
Definition reaches {S} (p : S_FSMPageData) (index required_category : Z) : M S bool :=
  if index <? node_count (header p) then
    match nodes p !! Z.to_nat index with
    | Some v => mret (required_category <=? v)
    | None => crash OutOfBounds
    end
  else mret false.

(** The loop of [search_in_leaf_page]; an index more than doubles in every round. *)
Fixpoint search_nodes {S} (fuel : nat) (p : S_FSMPageData) (required_category current_index : Z) : M S Z :=
  if leaf_start (header p) <=? current_index then
    mret (u32 (first_heap_page (header p) + u32 (current_index - leaf_start (header p))))
  else
    match fuel with
    | O => block
    | S fuel' =>
        left ← reaches p (GetLeftChild current_index) required_category ;
        if left : bool then search_nodes fuel' p required_category (GetLeftChild current_index)
        else
          right ← reaches p (GetRightChild current_index) required_category ;
          if right : bool then search_nodes fuel' p required_category (GetRightChild current_index)
          else mret NO_PAGE
    end.

Definition search_in_leaf_page (p : S_FSMPageData) (required_category : Z) : MF Z :=
  make_ready ;;
  search_nodes (Z.to_nat (leaf_start (header p))) p required_category 0.

(** The loop over the children of an inner page: the first that may have a page. *)
Fixpoint first_child (k : nat) (p : S_FSMPageData) (required_category offset : Z) : MF (option Z) :=
  match k with
  | O => mret None
  | S k' =>
      let node_index := u32 (leaf_start (header p) + offset) in
      if node_count (header p) <=? node_index then mret None
      else
        match nodes p !! Z.to_nat node_index with
        | None => crash OutOfBounds
        | Some v =>
            if required_category <=? v then
              mret (Some (match child_page_ids p !! Z.to_nat offset with
                          | Some c => c
                          | None => u32 (first_child_page (header p) + offset)
                          end))
            else first_child k' p required_category (offset + 1)
        end
  end.

Fixpoint search_from_page (fuel : nat) (fsm_page_id required_category : Z) : MF Z :=
  match fuel with
  | O => block
  | S fuel' =>
      page_data ← fetch_page fsm_page_id true ;
      if page_type (header page_data) =? LEAF_PAGE then
        temp ← search_in_leaf_page page_data required_category ;
        release_page fsm_page_id true ;;
        mret temp
      else
        let page_data := EnsureChildVector page_data in
        keep_page fsm_page_id page_data ;;
        match nodes page_data with
        | [] => release_page fsm_page_id true ;; mret NO_PAGE
        | v :: _ =>
            if v <? required_category then release_page fsm_page_id true ;; mret NO_PAGE
            else
              child ← first_child (Z.to_nat (child_count (header page_data))) page_data required_category 0 ;
              release_page fsm_page_id true ;;
              match child with
              | Some child_page_id => search_from_page fuel' child_page_id required_category
              | None => mret NO_PAGE
              end
        end
  end.

Definition fuel_for (s : SecFSM) : nat := S (size (pages s)).

Definition find_free_page (min_space_needed : Z) : MF Z :=
  make_ready ;;
  m ← gets meta_ ;
  fuel ← gets fuel_for ;
  search_from_page fuel (root_page_id m) (space_to_category min_space_needed).

(** ** The leaf page of a page *)

Section children.
Context {S : Type} (rec : Z → M S Z).

Fixpoint first_answer (children : list Z) : M S Z :=
  match children with
  | [] => mret NO_PAGE
  | c :: l =>
      result ← rec c ;
      if negb (result =? NO_PAGE) then mret result else first_answer l
  end.
End children.

Fixpoint search_leaf_page_from (fuel : nat) (heap_page_id fsm_page_id : Z) : MF Z :=
  match fuel with
  | O => block
  | S fuel' =>
      page_data ← fetch_page fsm_page_id true ;
      let h := header page_data in
      if page_type h =? LEAF_PAGE then
        release_page fsm_page_id true ;;
        mret (if (first_heap_page h <=? heap_page_id) &&
                 (heap_page_id <? u32 (first_heap_page h + heap_pages_count h)) then fsm_page_id else NO_PAGE)
      else
        let page_data := EnsureChildVector page_data in
        keep_page fsm_page_id page_data ;;
        release_page fsm_page_id true ;;
        first_answer (search_leaf_page_from fuel' heap_page_id) (child_page_ids page_data)
  end.

Definition find_leaf_page_for_heap_page (heap_page_id : Z) : MF Z :=
  m ← gets meta_ ;
  fuel ← gets fuel_for ;
  search_leaf_page_from fuel heap_page_id (root_page_id m).

(** ** Updating *)

(** The loop of [propagate_update] within a page: the page and where it stopped. *)
Fixpoint propagate_nodes (fuel : nat) (p : S_FSMPageData) (node_index : Z) : option (S_FSMPageData * Z) :=
  match fuel with
  | O => Some (p, node_index)
  | S fuel' =>
      if 0 <? node_index then
        let parent_index := GetParentIndex node_index in
        left_value ← child_value p (GetLeftChild parent_index) ;
        right_value ← child_value p (GetRightChild parent_index) ;
        old ← nodes p !! Z.to_nat parent_index ;
        let new_parent_value := Z.max left_value right_value in
        if new_parent_value =? old then Some (p, node_index)
        else propagate_nodes fuel' (set_node parent_index new_parent_value p) parent_index
      else Some (p, node_index)
  end.

Section propagate.
Variable (now : Z) (update_node_value : Z → Z → Z → MF unit).

Definition propagate_update (fsm_page_id node_index : Z) : MF unit :=
  page_data ← fetch_page fsm_page_id false ;
  match propagate_nodes (Z.to_nat node_index) page_data node_index with
  | None => crash OutOfBounds
  | Some (page_data, node_index) =>
      if (node_index =? 0) && negb (parent_page (header page_data) =? 0) then
        match nodes page_data with
        | [] => crash OutOfBounds
        | root_value :: _ =>
            let parent_page_id := parent_page (header page_data) in
            write_back now fsm_page_id page_data ;;
            release_page fsm_page_id false ;;
            parent ← fetch_page parent_page_id false ;
            let parent := EnsureChildVector parent in
            keep_page parent_page_id parent ;;
            match FindChildIndex parent fsm_page_id with
            | None => release_page parent_page_id false
            | Some child_offset =>
                let parent_node_index := u32 (leaf_start (header parent) + child_offset) in
                if parent_node_index <? node_count (header parent) then
                  match nodes parent !! Z.to_nat parent_node_index with
                  | None => crash OutOfBounds
                  | Some v =>
                      release_page parent_page_id false ;;
                      if negb (v =? root_value)
                      then update_node_value parent_page_id parent_node_index root_value
                      else mret tt
                  end
                else release_page parent_page_id false
            end
        end
      else
        write_back now fsm_page_id page_data ;;
        release_page fsm_page_id false
  end.
End propagate.

Fixpoint update_node_value (fuel : nat) (now fsm_page_id node_index new_value : Z) : MF unit :=
  match fuel with
  | O => block
  | S fuel' =>
      page_data ← fetch_page fsm_page_id false ;
      match nodes page_data !! Z.to_nat node_index with
      | None => crash OutOfBounds
      | Some _ =>
          write_back now fsm_page_id (set_node node_index new_value page_data) ;;
          release_page fsm_page_id false ;;
          propagate_update now (update_node_value fuel' now) fsm_page_id node_index
      end
  end.

Definition update_page_space (now page_id free_space : Z) : MF unit :=
  make_ready ;;
  leaf_page_id ← find_leaf_page_for_heap_page page_id ;
  if leaf_page_id =? NO_PAGE then mret tt
  else
    leaf_page ← fetch_page leaf_page_id false ;
    let heap_offset := u32 (page_id - first_heap_page (header leaf_page)) in
    let leaf_index := u32 (leaf_start (header leaf_page) + heap_offset) in
    if node_count (header leaf_page) <=? leaf_index then mret tt
    else
      match nodes leaf_page !! Z.to_nat leaf_index with
      | None => crash OutOfBounds
      | Some old_category =>
          let new_category := space_to_category free_space in
          release_page leaf_page_id false ;;
          if negb (new_category =? old_category) then
            fuel ← gets fuel_for ;
            update_node_value fuel now leaf_page_id leaf_index new_category
          else mret tt
      end.

Definition get_page_space (page_id : Z) : MF Z :=
  ready ← gets initialized_ ;
  m ← gets meta_ ;
  if negb ready || (total_heap_pages m <=? page_id) then mret 0
  else
    leaf_page_id ← find_leaf_page_for_heap_page page_id ;
    if leaf_page_id =? NO_PAGE then mret 0
    else
      leaf_page ← fetch_page leaf_page_id true ;
      let heap_offset := u32 (page_id - first_heap_page (header leaf_page)) in
      let leaf_index := u32 (leaf_start (header leaf_page) + heap_offset) in
      if node_count (header leaf_page) <=? leaf_index then mret 0
      else
        match nodes leaf_page !! Z.to_nat leaf_index with
        | None => crash OutOfBounds
        | Some v =>
            release_page leaf_page_id true ;;
            mret (category_to_space v)
        end.
