(* ===== verification/FsmPage.v ===== *)
(** What the pages of the free-space map keep between calls: the tree of categories
    within a page is exact, so the root tells what the best leaf has, the search finds such a
    leaf, and a page that is written is read back as it was. *)

From S2P Require Import Prelude Common Bytes Record RecordPage FsmReplay FsmTree.

(** ** Fields of the header *)

Lemma len_set_field off w v h :
  0 ≤ off → off + Z.of_nat w ≤ len h → len (set_field off w v h) = len h.
Proof. intros. unfold set_field. apply len_splice; rewrite ?len_le; lia. Qed.

Lemma field_set_same off (w : nat) v h :
  0 ≤ off → off + Z.of_nat w ≤ len h → uint_fits w v → field off (Z.of_nat w) (set_field off w v h) = v.
Proof.
  intros Ho Hl Hv. unfold field, set_field. rewrite <- (len_le w v) at 1.
  rewrite slice_splice by (rewrite ?len_le; lia). by apply unle_le.
Qed.

Lemma field_set_other off n off' w v h :
  0 ≤ off → 0 ≤ off' → off' + Z.of_nat w ≤ len h → off + n ≤ off' ∨ off' + Z.of_nat w ≤ off →
  field off n (set_field off' w v h) = field off n h.
Proof.
  intros. unfold field, set_field. rewrite slice_splice_other by (rewrite ?len_le; lia). done.
Qed.

Definition level (h : buffer) : Z := field 16 4 h.

(** What of a header stays for ever. *)
Definition shape (h : buffer) : list Z :=
  [page_type h; parent_page h; level h; first_heap_page h; heap_pages_count h; node_count h; leaf_start h].

Lemma shape_eq h h' : shape h = shape h' →
  page_type h = page_type h' ∧ parent_page h = parent_page h' ∧ level h = level h' ∧
  first_heap_page h = first_heap_page h' ∧ heap_pages_count h = heap_pages_count h' ∧
  node_count h = node_count h' ∧ leaf_start h = leaf_start h'.
Proof. unfold shape. intros [= -> -> -> -> -> -> ->]. done. Qed.

(** ** A page that can be written *)

Record storable (p : S_FSMPageData) : Prop := {
  st_header : len (header p) = sizeof_S_FSMPageHeader;
  st_magic : magic_number (header p) = FSM_PAGE_MAGIC;
  st_nodes : len (nodes p) = node_count (header p);
  st_room : len (nodes p) + 4 * len (child_page_ids p) ≤ PAGE_SIZE - sizeof_S_FSMPageHeader;
  st_kids : Forall (uint_fits 4) (child_page_ids p);
  st_type : (page_type (header p) = INTERNAL_PAGE ∧ child_page_ids p ≠ [] ∧
             child_count (header p) = len (child_page_ids p)) ∨
            (page_type (header p) = LEAF_PAGE ∧ child_page_ids p = [])
}.

Lemma storable_ensure p : storable p → EnsureChildVector p = p.
Proof.
  intros [_ _ _ _ _ [(Ht & Hc & _) | (Ht & Hc)]]; unfold EnsureChildVector; rewrite Ht; cbn.
  - by destruct (child_page_ids p).
  - destruct p; cbn in *. by rewrite Hc.
Qed.

Lemma storable_set_node i v p : storable p → storable (set_node i v p).
Proof.
  intros [H1 H2 H3 H4 H5 H6]. unfold set_node. split; cbn [header nodes child_page_ids set_nodes]; try done;
    unfold len in *; by rewrite length_insert.
Qed.

(** The header that [serialize_page] writes. *)
Definition stamp (now : Z) (p : S_FSMPageData) : S_FSMPageData :=
  set_header (set_field 48 8 now (set_field 0 4 FSM_PAGE_MAGIC (header (refresh_header p)))) (refresh_header p).

Lemma refresh_storable p : storable p →
  nodes (refresh_header p) = nodes p ∧ child_page_ids (refresh_header p) = child_page_ids p ∧
  len (header (refresh_header p)) = sizeof_S_FSMPageHeader ∧
  shape (header (refresh_header p)) = shape (header p) ∧
  child_count (header (refresh_header p)) = len (child_page_ids p).
Proof.
  intros Hp. pose proof (storable_ensure p Hp) as He. destruct Hp as [Hh Hm Hn Hr Hk Ht].
  unfold refresh_header. rewrite He. change sizeof_S_FSMPageHeader with 56 in *.
  assert (0 ≤ len (child_page_ids p) < 2 ^ 32) as Hc.
  { pose proof (len_nonneg (nodes p)). pose proof (len_nonneg (child_page_ids p)).
    change PAGE_SIZE with 4096 in Hr. lia. }
  assert (∀ x y, 0 ≤ y < 2 ^ 32 → let h := set_field 28 4 x (set_field 32 4 y (header p)) in
    len h = 56 ∧ shape h = shape (header p) ∧ child_count h = y) as Hset.
  { intros x y Hy h. assert (len (set_field 32 4 y (header p)) = 56) as Hl by (rewrite len_set_field; lia).
    assert (len h = 56) as Hl' by (unfold h; rewrite len_set_field; lia). split_and!; [done| |].
    - unfold shape, page_type, parent_page, level, first_heap_page, heap_pages_count, node_count, leaf_start, h.
      repeat (rewrite field_set_other by (rewrite ?Hl; lia)). done.
    - unfold child_count, h. rewrite field_set_other by (rewrite ?Hl; lia).
      change 4 with (Z.of_nat 4). apply field_set_same; [lia|lia|]. unfold uint_fits. lia. }
  destruct Ht as [(Ht & Hne & Hcc) | (Ht & Hnil)]; rewrite Ht; cbn [Z.eqb]; cbn [nodes child_page_ids header set_header set_children].
  - destruct (Hset (default 0 (head (child_page_ids p))) _ Hc) as (H1 & H2 & H3). done.
  - rewrite Hnil. destruct (Hset 0 0 ltac:(lia)) as (H1 & H2 & H3). done.
Qed.

Lemma stamp_storable now p : storable p →
  storable (stamp now p) ∧ shape (header (stamp now p)) = shape (header p) ∧
  nodes (stamp now p) = nodes p ∧ child_page_ids (stamp now p) = child_page_ids p.
Proof.
  intros Hp. destruct (refresh_storable p Hp) as (Hn & Hk & Hl & Hs & Hc).
  unfold stamp. cbn [nodes child_page_ids header set_header]. rewrite Hn, Hk.
  set (h := header (refresh_header p)) in *. set (h' := set_field 48 8 now (set_field 0 4 FSM_PAGE_MAGIC h)).
  change sizeof_S_FSMPageHeader with 56 in Hl.
  assert (len (set_field 0 4 FSM_PAGE_MAGIC h) = 56) as Hl1 by (rewrite len_set_field; lia).
  assert (len h' = 56) as Hl2 by (unfold h'; rewrite len_set_field; lia).
  assert (∀ off w, 4 ≤ off → off + w ≤ 48 → field off w h' = field off w h) as Hother.
  { intros off w H1 H2. unfold h'. rewrite !field_set_other by (rewrite ?Hl1; lia). done. }
  assert (shape h' = shape h) as Hs'.
  { unfold shape, page_type, parent_page, level, first_heap_page, heap_pages_count, node_count, leaf_start.
    by rewrite !Hother by lia. }
  split; [|by rewrite Hs']. rewrite Hs in Hs'. apply shape_eq in Hs' as (Ht & _ & _ & _ & _ & Hnc & _).
  destruct Hp as [Hh Hm Hnn Hr Hkk Htt].
  split; cbn [nodes child_page_ids header set_header]; rewrite ?Hn, ?Hk; try done.
  - by rewrite Hnn.
  - rewrite Ht. destruct Htt as [(? & ? & ?) | ?]; [left|by right]. split_and!; [done|done|].
    unfold child_count. rewrite Hother by lia. exact Hc.
Qed.

Lemma load_ids_le l : Forall (uint_fits 4) l → load_ids (length l) (concat (le 4 <$> l)) = l.
Proof.
  induction 1 as [|x l Hx _ IH]; [done|]. cbn [length load_ids fmap list_fmap concat].
  rewrite take_app_length', drop_app_length' by (by rewrite length_le). by rewrite unle_le, IH.
Qed.

Lemma len_ids l : len (concat (le 4 <$> l)) = 4 * len l.
Proof. induction l as [|x l IH]; [done|]. cbn [fmap list_fmap concat]. rewrite len_app, len_le, len_cons. lia. Qed.

(** The bytes of a page. *)
Definition image (p : S_FSMPageData) (bs : buffer) : Prop :=
  slice 0 sizeof_S_FSMPageHeader bs = header p ∧
  slice sizeof_S_FSMPageHeader (len (nodes p)) bs = nodes p ∧
  slice (sizeof_S_FSMPageHeader + len (nodes p)) (len (child_page_ids p) * 4) bs =
    concat (le 4 <$> child_page_ids p).

Lemma image_decodes p bs : storable p → image p bs → DeserializeFSMPage bs = Some p.
Proof.
  intros [Hh Hm Hnn Hroom Hkids Htype] (G1 & G2 & G3). unfold DeserializeFSMPage.
  pose proof (len_nonneg (nodes p)) as Hn0. pose proof (len_nonneg (child_page_ids p)) as Hk0.
  set (room := PAGE_SIZE - sizeof_S_FSMPageHeader) in *.
  rewrite G1, Hm, <- Hnn. rewrite Z.eqb_refl. cbn [negb].
  destruct Htype as [(Ht & Hne & Hcc) | (Ht & Hnil)]; rewrite Ht.
  - rewrite Hcc, Z.eqb_refl. cbn [andb].
    assert (0 < len (child_page_ids p)) as Hpos.
    { destruct (child_page_ids p); [done|]. rewrite len_cons in *. pose proof (len_nonneg l). lia. }
    rewrite (proj2 (Z.leb_le (len (nodes p) + len (child_page_ids p) * 4) _)) by lia.
    rewrite Z.min_l by lia. rewrite (proj2 (Z.ltb_lt (len (nodes p)) _)) by lia.
    rewrite (proj2 (Z.ltb_lt 0 _)) by lia.
    rewrite (proj2 (Z.leb_le (len (child_page_ids p) * 4) _)) by lia. cbn [andb].
    rewrite G2, G3. unfold len at 1. rewrite Nat2Z.id, load_ids_le by done. by destruct p.
  - change (LEAF_PAGE =? INTERNAL_PAGE) with false. cbn [andb].
    rewrite Z.min_l by lia. rewrite G2. destruct p; cbn in *. by subst.
Qed.

(** Header, nodes and children written one behind the other. *)
Lemma image_splices p old :
  storable p → len old = PAGE_SIZE →
  let bs := splice (sizeof_S_FSMPageHeader + len (nodes p)) (concat (le 4 <$> child_page_ids p))
              (splice sizeof_S_FSMPageHeader (nodes p) (splice 0 (header p) old)) in
  len bs = PAGE_SIZE ∧ image p bs.
Proof.
  intros [Hh Hm Hnn Hroom Hkids Htype] Hold.
  pose proof (len_nonneg (nodes p)) as Hn0. pose proof (len_nonneg (child_page_ids p)) as Hk0.
  change sizeof_S_FSMPageHeader with 56 in *. change PAGE_SIZE with 4096 in *. cbv zeta.
  set (b0 := splice 0 (header p) old). assert (len b0 = 4096) as E0 by (unfold b0; rewrite len_splice; lia).
  set (b1 := splice 56 (nodes p) b0). assert (len b1 = 4096) as E1 by (unfold b1; rewrite len_splice; lia).
  split; [rewrite len_splice; rewrite ?len_ids; lia|].
  unfold image. change sizeof_S_FSMPageHeader with 56. split_and!.
  - rewrite slice_splice_other by (rewrite ?len_ids; lia). unfold b1. rewrite slice_splice_other by lia.
    rewrite <- Hh. apply slice_splice; lia.
  - rewrite slice_splice_other by (rewrite ?len_ids; lia). apply slice_splice; lia.
  - replace (len (child_page_ids p) * 4) with (len (concat (le 4 <$> child_page_ids p))) by (rewrite len_ids; lia).
    apply slice_splice; rewrite ?len_ids; lia.
Qed.

Lemma serialize_page_ok now p old :
  storable p → len old = PAGE_SIZE →
  ∃ bs, serialize_page now p old = (stamp now p, Some bs) ∧ len bs = PAGE_SIZE ∧
    DeserializeFSMPage bs = Some (stamp now p).
Proof.
  intros Hp Hold. destruct (refresh_storable p Hp) as (Hn & Hk & Hl & Hs & Hc).
  destruct (stamp_storable now p Hp) as (Hst & Hss & Hsn & Hsk).
  destruct (image_splices _ old Hst Hold) as [Hlen Him]. rewrite Hsn, Hsk in Hlen, Him.
  eexists. split; [|split; [exact Hlen|by apply image_decodes]].
  unfold serialize_page. set (r := refresh_header p) in *.
  change (set_header (set_field 48 8 now (set_field 0 4 FSM_PAGE_MAGIC (header r))) r) with (stamp now p).
  change (set_field 48 8 now (set_field 0 4 FSM_PAGE_MAGIC (header r))) with (header (stamp now p)).
  destruct (shape_eq _ _ Hs) as (Hrt & _). destruct (shape_eq _ _ Hss) as (Htt & _).
  rewrite Hn, Hc, Hrt, Htt, Hsn, Hsk. cbv zeta.
  destruct Hp as [_ _ _ Hroom _ Htype]. destruct Hst as [_ _ _ _ _ Htype'].
  rewrite Htt, Hsk in Htype'.
  pose proof (len_nonneg (nodes p)) as Hn0. pose proof (len_nonneg (child_page_ids p)) as Hk0.
  change sizeof_S_FSMPageHeader with 56 in *. change PAGE_SIZE with 4096 in *.
  destruct Htype' as [(Ht & Hne & ->) | (Ht & Hnil)]; rewrite Ht.
  - rewrite Z.eqb_refl. cbn [andb].
    assert (0 < len (child_page_ids p)) as Hpos.
    { destruct (child_page_ids p); [done|]. rewrite len_cons in *. pose proof (len_nonneg l). lia. }
    rewrite (proj2 (Z.ltb_lt 0 _) Hpos).
    destruct (Z.ltb_spec (56 + len (child_page_ids p) * 4) 4096).
    + rewrite (proj2 (Z.ltb_ge _ (len (nodes p)))) by lia. done.
    + rewrite (proj2 (Z.ltb_ge _ (len (nodes p)))) by lia. done.
  - change (LEAF_PAGE =? INTERNAL_PAGE) with false. cbn [andb]. change (56 + 0 <? 4096) with true. cbv iota.
    rewrite Hnil in Hroom. change (len []) with 0 in Hroom.
    rewrite (proj2 (Z.ltb_ge _ (len (nodes p)))) by lia.
    rewrite Hnil. cbn [fmap list_fmap concat]. by rewrite splice_nil.
Qed.

(** ** The tree of categories of a page *)

(** Every inner node is the maximum of its children, the ones that the page has room for only
    included. *)
Record exact (p : S_FSMPageData) : Prop := {
  ex_len : len (nodes p) = node_count (header p);
  ex_small : len (nodes p) < 2 ^ 31;
  ex_depth : ∃ K : nat, leaf_start (header p) + 1 = 2 ^ Z.of_nat K;
  ex_leaves : leaf_start (header p) < node_count (header p) ≤ 2 * leaf_start (header p) + 1;
  ex_nonneg : ∀ i, 0 ≤ value_at p i;
  ex_max : ∀ i, 0 ≤ i < leaf_start (header p) →
    value_at p i = Z.max (value_at p (2 * i + 1)) (value_at p (2 * i + 2))
}.

(** Node [k] is [e] levels below node [i]. *)
Definition below (e : nat) (i k : Z) : Prop :=
  (i + 1) * 2 ^ Z.of_nat e ≤ k + 1 < (i + 2) * 2 ^ Z.of_nat e.

(** The nodes [e] levels below node [i] are leaves. *)
Definition spans (n : Z) (e : nat) (i : Z) : Prop :=
  0 ≤ i ∧ n + 1 ≤ (i + 1) * 2 ^ Z.of_nat e ∧ (i + 2) * 2 ^ Z.of_nat e ≤ 2 * (n + 1).

Lemma pow2_S e : 2 ^ Z.of_nat (S e) = 2 * 2 ^ Z.of_nat e.
Proof. rewrite Nat2Z.inj_succ, Z.pow_succ_r by lia. done. Qed.

Lemma pow2_pos e : 0 < 2 ^ Z.of_nat e.
Proof. apply Z.pow_pos_nonneg; lia. Qed.

Lemma below_0 i k : below 0 i k ↔ k = i.
Proof. unfold below. change (2 ^ Z.of_nat 0) with 1. lia. Qed.

Lemma below_S e i k : below (S e) i k ↔ below e (2 * i + 1) k ∨ below e (2 * i + 2) k.
Proof. unfold below. rewrite pow2_S. generalize (2 ^ Z.of_nat e). intros z. lia. Qed.

Lemma spans_S n e i : spans n (S e) i →
  i < n ∧ spans n e (2 * i + 1) ∧ spans n e (2 * i + 2).
Proof. unfold spans. rewrite pow2_S. pose proof (pow2_pos e). intros (? & ? & ?). split; [nia|lia]. Qed.

Lemma spans_0 n i : spans n 0 i → n ≤ i ≤ 2 * n.
Proof. unfold spans. change (2 ^ Z.of_nat 0) with 1. lia. Qed.

Lemma spans_root n (K : nat) : n + 1 = 2 ^ Z.of_nat K → spans n K 0.
Proof. unfold spans. intros ->. lia. Qed.

Lemma below_root p K k :
  leaf_start (header p) + 1 = 2 ^ Z.of_nat K → leaf_start (header p) ≤ k ≤ 2 * leaf_start (header p) → below K 0 k.
Proof. unfold below. intros E Hk. lia. Qed.

Lemma le_pow2 (K : nat) n : n + 1 = 2 ^ Z.of_nat K → (K ≤ Z.to_nat n)%nat.
Proof.
  intros E. enough (Z.of_nat K + 1 ≤ 2 ^ Z.of_nat K) by lia. clear E.
  induction K as [|K IH]; [done|]. rewrite pow2_S. lia.
Qed.

Section exact.
Variable p : S_FSMPageData.
Hypothesis E : exact p.

Let n := leaf_start (header p).

Lemma value_beyond i : node_count (header p) ≤ i → value_at p i = 0.
Proof using E. intros Hi. apply value_at_out. rewrite (ex_len _ E). done. Qed.

(** A node is at least what is below it. *)
Lemma below_le e i k : spans n e i → below e i k → value_at p k ≤ value_at p i.
Proof using E.
  revert i. induction e as [|e IH]; intros i Hs Hb.
  - apply below_0 in Hb as ->. done.
  - apply spans_S in Hs as (Hi & Hl & Hr). assert (0 ≤ i) by (destruct Hl; lia).
    rewrite (ex_max _ E i) by (split; assumption).
    apply below_S in Hb as [Hb|Hb]; [specialize (IH _ Hl Hb)|specialize (IH _ Hr Hb)]; lia.
Qed.

(** A node that has something to offer has it from a leaf. *)
Lemma attained e i : spans n e i → 0 < value_at p i → ∃ k, below e i k ∧ value_at p k = value_at p i.
Proof using E.
  revert i. induction e as [|e IH]; intros i Hs Hv.
  - exists i. split; [by apply below_0|done].
  - apply spans_S in Hs as (Hi & Hl & Hr). assert (0 ≤ i) as Hi0 by (destruct Hl; lia).
    pose proof (ex_max _ E i (conj Hi0 Hi)) as Hm.
    destruct (Z.max_spec (value_at p (2 * i + 1)) (value_at p (2 * i + 2))) as [[_ Hx]|[_ Hx]];
      rewrite Hx in Hm; [destruct (IH _ Hr) as (k & Hb & Hk)|destruct (IH _ Hl) as (k & Hb & Hk)];
      try lia; exists k; (split; [apply below_S; auto|lia]).
Qed.

Lemma root_best k : n ≤ k → value_at p k ≤ value_at p 0.
Proof using E.
  intros Hk. destruct (Z.le_gt_cases (node_count (header p)) k) as [Hout|Hin].
  - rewrite value_beyond by done. apply (ex_nonneg _ E).
  - destruct (ex_depth _ E) as [K HK]. apply (below_le K); [by apply spans_root|].
    eapply below_root; [done|]. pose proof (ex_leaves _ E). subst n. lia.
Qed.

Lemma root_attained : 0 < value_at p 0 →
  ∃ k, n ≤ k < node_count (header p) ∧ value_at p k = value_at p 0.
Proof using E.
  intros Hv. destruct (ex_depth _ E) as [K HK].
  destruct (attained K 0) as (k & Hb & Hk); [by apply spans_root|done|]. exists k. split; [|done].
  unfold below in Hb. split; [subst n; lia|]. destruct (Z.lt_ge_cases k (node_count (header p))); [done|].
  rewrite value_beyond in Hk by done. lia.
Qed.

Lemma run_reaches {S} i r (s : S) : 0 ≤ i →
  reaches p i r s = Done ((i <? node_count (header p)) && (r <=? value_at p i), s).
Proof using E.
  intros Hi. unfold reaches. destruct (Z.ltb_spec i (node_count (header p))) as [Hlt|]; [|done].
  unfold value_at. destruct (lookup_lt_is_Some_2 (nodes p) (Z.to_nat i)) as [v ->]; [|done].
  pose proof (ex_len _ E) as Hl. unfold len in Hl. lia.
Qed.


(** From a node that is good enough and above some leaf the search gets to a leaf. *)
Lemma search_nodes_finds {S} fuel e i r (s : S) :
  spans n e i → (e ≤ fuel)%nat → r ≤ value_at p i → (i + 1) * 2 ^ Z.of_nat e ≤ node_count (header p) →
  ∃ k, n ≤ k < node_count (header p) ∧ r ≤ value_at p k ∧
    search_nodes fuel p r i s = Done (u32 (first_heap_page (header p) + u32 (k - n)), s).
Proof using E.
  revert fuel i. induction e as [|e IH]; intros fuel i Hs Hf Hv Hfirst.
  - apply spans_0 in Hs. change (2 ^ Z.of_nat 0) with 1 in Hfirst. exists i. split; [lia|]. split; [done|].
    destruct fuel; cbn [search_nodes]; rewrite (proj2 (Z.leb_le (leaf_start (header p)) i)) by (subst n; lia); done.
  - assert (0 ≤ i) as Hi0 by (destruct Hs; lia). apply spans_S in Hs as (Hi & Hl & Hr).
    destruct fuel as [|fuel]; [lia|]. cbn [search_nodes].
    rewrite (proj2 (Z.leb_gt (leaf_start (header p)) i)) by (subst n; lia).
    pose proof (ex_small _ E) as Hsm. rewrite (ex_len _ E) in Hsm. pose proof (ex_leaves _ E) as Hlv.
    destruct (child_of i) as [-> ->]; [subst n; lia|].
    rewrite pow2_S in Hfirst. pose proof (pow2_pos e) as Hp.
    rewrite (run_bind _ _ _ _ _ (run_reaches (2 * i + 1) r s ltac:(lia))).
    pose proof (ex_max _ E i (conj Hi0 Hi)) as Hm.
    destruct (Z.leb_spec r (value_at p (2 * i + 1))) as [Hok|Hno].
    + rewrite (proj2 (Z.ltb_lt (2 * i + 1) _)) by nia. cbn [andb]. cbv iota.
      apply IH; [done|lia|done|lia].
    + rewrite andb_false_r. rewrite (run_bind _ _ _ _ _ (run_reaches (2 * i + 2) r s ltac:(lia))).
      pose proof (ex_nonneg _ E (2 * i + 1)).
      rewrite (proj2 (Z.leb_le r (value_at p (2 * i + 2)))) by lia.
      destruct (attained e (2 * i + 2) Hr) as (k & Hb & Hk); [lia|].
      assert (k < node_count (header p)) as Hkn.
      { destruct (Z.lt_ge_cases k (node_count (header p))); [done|].
        rewrite value_beyond in Hk by done. lia. }
      unfold below in Hb.
      rewrite (proj2 (Z.ltb_lt (2 * i + 2) _)) by nia. cbn [andb]. cbv iota.
      apply IH; [done|lia|lia|nia].
Qed.

(** Where the root is not good enough, the search ends at once, unless the page has
    no inner node at all. *)
Lemma search_nodes_none {S} fuel r (s : S) :
  0 < n → value_at p 0 < r → (0 < fuel)%nat → search_nodes fuel p r 0 s = Done (NO_PAGE, s).
Proof using E.
  intros Hn Hv Hf. destruct fuel as [|fuel]; [lia|]. cbn [search_nodes].
  rewrite (proj2 (Z.leb_gt (leaf_start (header p)) 0)) by (subst n; lia).
  destruct (child_of 0) as [-> ->]; [lia|].
  pose proof (ex_max _ E 0 ltac:(subst n; lia)) as Hm.
  rewrite (run_bind _ _ _ _ _ (run_reaches (2 * 0 + 1) r s ltac:(lia))).
  rewrite (proj2 (Z.leb_gt r (value_at p (2 * 0 + 1)))) by lia. rewrite andb_false_r.
  rewrite (run_bind _ _ _ _ _ (run_reaches (2 * 0 + 2) r s ltac:(lia))).
  rewrite (proj2 (Z.leb_gt r (value_at p (2 * 0 + 2)))) by lia. rewrite andb_false_r. done.
Qed.

End exact.

(** ** A new value for a leaf *)

Lemma propagate_recompute fuel p k : fst <$> propagate_nodes fuel p k = recompute_up fuel p k.
Proof.
  revert p k. induction fuel as [|fuel IH]; intros p k; cbn [propagate_nodes recompute_up]; [done|].
  destruct (0 <? k); [|done].
  destruct (child_value p (GetLeftChild (GetParentIndex k))) as [a|]; [|done]. cbn.
  destruct (child_value p (GetRightChild (GetParentIndex k))) as [b|]; [|done]. cbn.
  destruct (nodes p !! Z.to_nat (GetParentIndex k)) as [o|]; [|done]. cbn.
  destruct (Z.max a b =? o); [done|]. apply IH.
Qed.

(** What the loop leaves alone: the children, and the root if it does not get there. *)
Lemma propagate_keeps fuel p k p' stop :
  fsm_page_wf p → 0 ≤ k < len (nodes p) → (Z.to_nat k ≤ fuel)%nat → (∀ i, 0 ≤ value_at p i) →
  propagate_nodes fuel p k = Some (p', stop) →
  child_page_ids p' = child_page_ids p ∧ (∀ i, 0 ≤ i → 0 ≤ value_at p' i) ∧
  (stop = 0 ∨ value_at p' 0 = value_at p 0).
Proof.
  revert p k. induction fuel as [|fuel IH]; intros p k Hwf Hk Hf Hnn; cbn [propagate_nodes].
  { intros [= <- <-]. split_and!; [done|auto|left; lia]. }
  destruct (Z.ltb_spec 0 k) as [Hpos|Hz]; [|intros [= <- <-]; split_and!; [done|auto|left; lia]].
  pose proof Hwf as [Hl Hb]. rewrite parent_of by lia. destruct (parent_bounds k Hpos) as (Hq0 & Hq1 & Hq2).
  set (q := (k - 1) / 2) in *. destruct (child_of q) as [-> ->]; [lia|].
  rewrite !child_value_at by (done || lia). cbn.
  destruct (nodes p !! Z.to_nat q) as [o|] eqn:Ho; [|done]. cbn.
  set (m := Z.max (value_at p (2 * q + 1)) (value_at p (2 * q + 2))).
  destruct (Z.eqb_spec m o) as [Heq|Hne]; [intros [= <- <-]; auto|]. intros Hrun.
  assert (len (nodes (set_node q m p)) = len (nodes p)) as Hlen by (unfold set_node, len; cbn; by rewrite length_insert).
  assert (∀ i, value_at (set_node q m p) i =
    if decide (Z.to_nat i = Z.to_nat q) then m else value_at p i) as Hset.
  { intros i. unfold value_at, set_node. cbn [nodes set_nodes]. unfold len in *. case_decide as D.
    - rewrite D, list_lookup_insert_eq by lia. done.
    - rewrite list_lookup_insert_ne by lia. done. }
  destruct (IH (set_node q m p) q) as (Hc & Hv & Hs); try done; try lia.
  { by apply fsm_page_wf_set_node. }
  { intros i. rewrite Hset. case_decide; [|done]. pose proof (Hnn (2 * q + 1)). lia. }
  split_and!; [done|done|]. destruct Hs as [->|Hs]; [by left|]. rewrite Hset in Hs. case_decide as D; [|by right].
  left. assert (q = 0) as E0 by lia. rewrite E0 in Hrun. destruct fuel; cbn in Hrun; by simplify_eq.
Qed.

Lemma exact_wf p : exact p → fsm_page_wf p.
Proof. intros E. split; [apply (ex_len _ E)|apply (ex_small _ E)]. Qed.

Lemma exact_start p : exact p → 0 ≤ leaf_start (header p).
Proof. intros E. destruct (ex_depth _ E) as [K HK]. pose proof (pow2_pos K). lia. Qed.

(** After a leaf of an exact page has got a new value, the loop makes the page exact again. *)
Lemma propagate_exact p k v :
  exact p → leaf_start (header p) ≤ k < node_count (header p) → 0 ≤ v →
  ∃ p' stop, propagate_nodes (Z.to_nat k) (set_node k v p) k = Some (p', stop) ∧ exact p' ∧
    header p' = header p ∧ child_page_ids p' = child_page_ids p ∧ len (nodes p') = len (nodes p) ∧
    (∀ i, leaf_start (header p) ≤ i → value_at p' i = if decide (i = k) then v else value_at p i) ∧
    (stop = 0 ∨ value_at p' 0 = value_at p 0).
Proof.
  intros E Hk Hv. pose proof (exact_start p E) as Hs0. pose proof (exact_wf p E) as Hwf.
  pose proof (ex_len _ E) as Hlen. pose proof (ex_leaves _ E) as Hlv.
  set (p1 := set_node k v p).
  assert (fsm_page_wf p1) as Hwf1 by (by apply fsm_page_wf_set_node).
  assert (len (nodes p1) = len (nodes p)) as Hlen1 by (unfold p1, set_node, len; cbn; by rewrite length_insert).
  assert (∀ i, 0 ≤ i → value_at p1 i = if decide (i = k) then v else value_at p i) as Hset
    by (intros i Hi; apply value_at_set_node; lia).
  assert (∀ i, 0 ≤ i → (0 < k → i ≠ (k - 1) / 2) → node_ok p1 i) as Hhole.
  { intros i Hi Hne Hin. destruct (Z.lt_ge_cases i (leaf_start (header p))) as [Hlt|Hge]; [|lia].
    rewrite !Hset by lia. destruct (decide (i = k)); [lia|].
    assert (2 * i + 1 ≠ k ∧ 2 * i + 2 ≠ k) as [H1 H2].
    { split; intros <-; apply Hne; try lia; symmetry; apply parent_unique; lia. }
    rewrite !decide_False by done. apply (ex_max _ E). lia. }
  assert (∀ i, 0 ≤ value_at p1 i) as Hnn1.
  { intros i. unfold p1, value_at, set_node. cbn [nodes set_nodes].
    destruct (decide (Z.to_nat k = Z.to_nat i)) as [->|D].
    - destruct (<[_:=v]> (nodes p) !! Z.to_nat i) eqn:El; [|done]. rewrite list_lookup_insert in El.
      case_decide; cbn; [naive_solver|]. pose proof (ex_nonneg _ E i). unfold value_at in *. destruct (nodes p !! Z.to_nat i); naive_solver.
    - rewrite list_lookup_insert_ne by done. apply (ex_nonneg _ E). }
  destruct (recompute_up_ok (Z.to_nat k) p1 k) as (p' & Hp' & Hh & Hl & Hok & Hkeep); try done; [lia|].
  pose proof (propagate_recompute (Z.to_nat k) p1 k) as Hpr. rewrite Hp' in Hpr.
  destruct (propagate_nodes (Z.to_nat k) p1 k) as [[p'' stop]|] eqn:Hrun; [|done]. cbn in Hpr. injection Hpr as ->.
  destruct (propagate_keeps (Z.to_nat k) p1 k p' stop) as (Hc & Hnn & Hstop); try done; [lia|].
  assert (header p' = header p) as Hh' by done.
  exists p', stop. split_and!; try done; try lia.
  - split; rewrite ?Hh', ?Hl, ?Hlen1; try apply E.
    + intros i. destruct (Z.le_gt_cases 0 i); [auto|]. unfold value_at.
      replace (Z.to_nat i) with (Z.to_nat 0) by lia. apply (Hnn 0). lia.
    + intros i Hi. destruct (Z.lt_ge_cases (2 * i + 1) (len (nodes p))) as [Hin|Hout].
      * apply Hok; [lia|]. lia.
      * rewrite !Hkeep by lia. rewrite !Hset by lia. rewrite !decide_False by lia.
        apply (ex_max _ E). lia.
  - intros i Hi. rewrite Hkeep by lia. apply Hset. lia.
  - destruct Hstop as [->|Hstop]; [by left|]. rewrite Hset in Hstop by lia. case_decide as D; [|by right].
    left. rewrite <- D in Hrun. change (Z.to_nat 0) with O in Hrun. cbn [propagate_nodes] in Hrun. by injection Hrun.
Qed.
