(* ===== verification/FsmInv.v ===== *)
(** The tree of pages of a free-space map, as a map from page numbers to decoded pages: what
    holds of it between calls, what it says about the pages of the table, and what
    a new category of one of these changes. *)

From S2P Require Import Prelude Common Bytes Record RecordPage FsmReplay FsmTree FsmPage.

Abbreviation fsm_map := (gmap Z S_FSMPageData).

(** The node of an inner page that stands for its [j]-th child, and of a leaf page for the [j]-th of
    its pages. *)
Definition leaf_value (p : S_FSMPageData) (j : Z) : Z := value_at p (leaf_start (header p) + j).

Definition is_leaf_page (p : S_FSMPageData) : bool := page_type (header p) =? LEAF_PAGE.

(** The leaf page has the page of the table. *)
Definition covers (p : S_FSMPageData) (h : Z) : bool :=
  is_leaf_page p && (first_heap_page (header p) <=? h) &&
  (h <? first_heap_page (header p) + heap_pages_count (header p)).

(** The map says that page [h] of the table has category [v]. *)
Definition records (d : fsm_map) (h v : Z) : Prop :=
  ∃ id p, d !! id = Some p ∧ covers p h = true ∧ v = leaf_value p (h - first_heap_page (header p)).

(** What holds of a page by itself, whatever its nodes are. *)
Record page_shaped (id : Z) (p : S_FSMPageData) : Prop := {
  sh_id : 0 < id < NO_PAGE;
  sh_store : storable p;
  sh_level : 0 ≤ level (header p);
  sh_kids : is_leaf_page p = false →
    len (child_page_ids p) = node_count (header p) - leaf_start (header p) ∧ NoDup (child_page_ids p);
  sh_heap : is_leaf_page p = true →
    heap_pages_count (header p) = node_count (header p) - leaf_start (header p) ∧
    0 ≤ first_heap_page (header p) ∧ 0 ≤ first_heap_page (header p) + heap_pages_count (header p) ≤ NO_PAGE
}.

(** What holds of page [c] as the [j]-th child of page [id]. *)
Definition child_of_page (id : Z) (p : S_FSMPageData) (q : S_FSMPageData) : Prop :=
  parent_page (header q) = id ∧ level (header q) < level (header p).

(** The pages form a tree under the root, each page of the table in one leaf page at most. *)
Record shaped (d : fsm_map) (root : Z) (n : nat) : Prop := {
  t_page : ∀ id p, d !! id = Some p → page_shaped id p;
  t_root : ∃ p, d !! root = Some p ∧ parent_page (header p) = 0 ∧
    (is_leaf_page p = true → 0 < leaf_start (header p));
  t_top : ∀ id p, d !! id = Some p → level (header p) < Z.of_nat n;
  t_kids : ∀ id p c, d !! id = Some p → c ∈ child_page_ids p → ∃ q, d !! c = Some q ∧ child_of_page id p q;
  t_parent : ∀ id q, d !! id = Some q → id ≠ root →
    ∃ p, d !! parent_page (header q) = Some p ∧ id ∈ child_page_ids p;
  t_disjoint : ∀ id id' p p' h, d !! id = Some p → d !! id' = Some p' →
    covers p h = true → covers p' h = true → id = id'
}.

(** Every page but [x] says at its node for a child what the child's root says. *)
Definition agrees (d : fsm_map) (x : option Z) : Prop :=
  ∀ id p j c q, d !! id = Some p → child_page_ids p !! Z.to_nat j = Some c → 0 ≤ j → d !! c = Some q →
    x ≠ Some c → leaf_value p j = value_at q 0.

Record fsm_tree (d : fsm_map) (root : Z) (n : nat) : Prop := {
  tr_shaped : shaped d root n;
  tr_exact : ∀ id p, d !! id = Some p → exact p;
  tr_agrees : agrees d None
}.

(** ** What a change of nodes keeps *)

Definition alike (p p' : S_FSMPageData) : Prop :=
  shape (header p') = shape (header p) ∧ child_page_ids p' = child_page_ids p ∧ len (nodes p') = len (nodes p).

Lemma alike_refl p : alike p p.
Proof. done. Qed.

Lemma alike_trans p q r : alike p q → alike q r → alike p r.
Proof. unfold alike. intros (-> & -> & ->) (-> & -> & ->). done. Qed.

Lemma alike_stamp now p : storable p → alike p (stamp now p).
Proof.
  intros Hp. destruct (stamp_storable now p Hp) as (_ & Hs & Hn & Hk). unfold alike. by rewrite Hs, Hn, Hk.
Qed.

Lemma covers_alike p p' h : alike p p' → covers p' h = covers p h.
Proof.
  intros (Hs & _). apply shape_eq in Hs as (Ht & _ & _ & Hf & Hc & _). unfold covers, is_leaf_page.
  by rewrite Ht, Hf, Hc.
Qed.

Lemma leaf_value_stamp now p j : storable p → leaf_value (stamp now p) j = leaf_value p j.
Proof.
  intros Hp. destruct (stamp_storable now p Hp) as (_ & Hs & Hn & _).
  apply shape_eq in Hs as (_ & _ & _ & _ & _ & _ & Hl). unfold leaf_value, value_at. by rewrite Hn, Hl.
Qed.

Lemma value_at_stamp now p i : storable p → value_at (stamp now p) i = value_at p i.
Proof. intros Hp. destruct (stamp_storable now p Hp) as (_ & _ & Hn & _). unfold value_at. by rewrite Hn. Qed.

Lemma exact_alike p p' : alike p p' → (∀ i, value_at p' i = value_at p i) → exact p → exact p'.
Proof.
  intros (Hs & _ & Hlen) Hv [H1 H2 H3 H4 H5 H6]. apply shape_eq in Hs as (_ & _ & _ & _ & _ & Hn & Hl).
  split; rewrite ?Hn, ?Hl, ?Hlen; try done; intros i; rewrite !Hv; auto.
Qed.

Lemma page_shaped_alike id p p' : alike p p' → storable p' → page_shaped id p → page_shaped id p'.
Proof.
  intros (Hs & Hk & Hlen) Hst [H1 H2 H3 H4 H5].
  apply shape_eq in Hs as (Ht & _ & Hv & Hf & Hc & Hn & Hl). unfold is_leaf_page in *.
  split; unfold is_leaf_page; rewrite ?Ht, ?Hv, ?Hf, ?Hc, ?Hn, ?Hl, ?Hk; done.
Qed.

(** Pages that differ in their nodes only are in the same shape. *)
Lemma shaped_alike d d' root n :
  (∀ i q', d' !! i = Some q' → ∃ q, d !! i = Some q ∧ alike q q' ∧ storable q') →
  (∀ i q, d !! i = Some q → ∃ q', d' !! i = Some q' ∧ alike q q') →
  shaped d root n → shaped d' root n.
Proof.
  intros Hold Hnew [H1 H2 H3 H4 H5 H6].
  split.
  - intros i q' Hi. destruct (Hold _ _ Hi) as (q & Hq & Haq & Hsq). eapply page_shaped_alike; eauto.
  - destruct H2 as (q & Hq & Hqp & Hql). destruct (Hnew _ _ Hq) as (q' & Hq' & (Hs' & _)).
    apply shape_eq in Hs' as (Htq & Hpq & _ & _ & _ & _ & Hlq). exists q'. split; [done|].
    unfold is_leaf_page in *. by rewrite Hpq, Htq, Hlq.
  - intros i q' Hi. destruct (Hold _ _ Hi) as (q & Hq & (Hs' & _) & _).
    apply shape_eq in Hs' as (_ & _ & -> & _). eauto.
  - intros i q' c Hi Hin. destruct (Hold _ _ Hi) as (q & Hq & (Hs' & Hk' & _) & _). rewrite Hk' in Hin.
    destruct (H4 _ _ _ Hq Hin) as (r & Hr & Hpr & Hlr). destruct (Hnew _ _ Hr) as (r' & Hr' & (Hsr & _)).
    apply shape_eq in Hs' as (_ & _ & Hlv & _). apply shape_eq in Hsr as (_ & Hp2 & Hl2 & _).
    exists r'. split; [done|]. unfold child_of_page. rewrite Hp2, Hl2, Hlv. done.
  - intros i q' Hi Hne. destruct (Hold _ _ Hi) as (q & Hq & (Hs' & _) & _).
    apply shape_eq in Hs' as (_ & -> & _). destruct (H5 _ _ Hq Hne) as (P & HP & Hin).
    destruct (Hnew _ _ HP) as (P' & HP' & (_ & HkP & _)). exists P'. split; [done|]. by rewrite HkP.
  - intros i i' q q' h Hi Hi' Hc1 Hc2. destruct (Hold _ _ Hi) as (r & Hr & Hra & _).
    destruct (Hold _ _ Hi') as (r' & Hr' & Hra' & _).
    rewrite (covers_alike _ _ _ Hra) in Hc1. rewrite (covers_alike _ _ _ Hra') in Hc2. eauto.
Qed.

(** In particular when one page is written. *)
Lemma shaped_insert d root n id p p' :
  shaped d root n → d !! id = Some p → alike p p' → storable p' → shaped (<[id := p']> d) root n.
Proof.
  intros T Hp Ha Hst. apply (shaped_alike d); [| |done].
  - intros i q' Hi. destruct (decide (i = id)) as [->|Hne].
    + rewrite lookup_insert_eq in Hi. injection Hi as <-. eauto.
    + rewrite lookup_insert_ne in Hi by done. exists q'. split; [done|]. split; [done|].
      exact (sh_store _ _ (t_page _ _ _ T _ _ Hi)).
  - intros i q Hi. destruct (decide (i = id)) as [->|Hne].
    + rewrite lookup_insert_eq. simplify_eq. eauto.
    + rewrite lookup_insert_ne by done. eauto using alike_refl.
Qed.

Lemma shaped_more d root n n' : (n ≤ n')%nat → shaped d root n → shaped d root n'.
Proof. intros Hn [H1 H2 H3 H4 H5 H6]. split; try done. intros id p Hp. specialize (H3 _ _ Hp). lia. Qed.

(** The tree when the headers have got their stamps. *)
Lemma fsm_tree_stamped now d root n n' :
  fsm_tree d root n → (n ≤ n')%nat → fsm_tree (stamp now <$> d) root n' ∧
  ∀ h v, records (stamp now <$> d) h v ↔ records d h v.
Proof.
  intros [T E A] Hn.
  assert (∀ id p, d !! id = Some p → storable p) as Hst by (intros id p Hp; exact (sh_store _ _ (t_page _ _ _ T _ _ Hp))).
  assert (∀ i q', (stamp now <$> d) !! i = Some q' → ∃ q, d !! i = Some q ∧ q' = stamp now q) as Hold.
  { intros i q' Hi. rewrite lookup_fmap in Hi. destruct (d !! i) as [q|]; [|done]. injection Hi as <-. eauto. }
  assert (∀ i q, d !! i = Some q → (stamp now <$> d) !! i = Some (stamp now q)) as Hnew
    by (intros i q Hi; by rewrite lookup_fmap, Hi).
  split; [split|].
  - apply (shaped_more _ _ n); [done|]. apply (shaped_alike d); [| |done].
    + intros i q' Hi. destruct (Hold _ _ Hi) as (q & Hq & ->). exists q. split; [done|].
      split; [by apply alike_stamp; eauto|]. by apply stamp_storable; eauto.
    + intros i q Hq. eexists. split; [by apply Hnew|]. by apply alike_stamp; eauto.
  - intros i q' Hi. destruct (Hold _ _ Hi) as (q & Hq & ->). eapply exact_alike; [by apply alike_stamp; eauto| |by eauto].
    intros j. by apply value_at_stamp; eauto.
  - intros i q' j c r' Hi Hc Hj Hr _. destruct (Hold _ _ Hi) as (q & Hq & ->). destruct (Hold _ _ Hr) as (r & Hr' & ->).
    rewrite leaf_value_stamp, value_at_stamp by eauto. eapply A; eauto.
    destruct (stamp_storable now q (Hst _ _ Hq)) as (_ & _ & _ & Hk). by rewrite Hk in Hc.
  - intros h v. split.
    + intros (id & p' & Hp' & Hc & ->). destruct (Hold _ _ Hp') as (p & Hp & ->).
      pose proof (alike_stamp now p (Hst _ _ Hp)) as Ha. rewrite (covers_alike _ _ _ Ha) in Hc.
      exists id, p. split; [done|]. split; [done|]. rewrite leaf_value_stamp by eauto.
      destruct Ha as (Hs & _). by apply shape_eq in Hs as (_ & _ & _ & -> & _).
    + intros (id & p & Hp & Hc & ->). pose proof (alike_stamp now p (Hst _ _ Hp)) as Ha.
      exists id, (stamp now p). split; [by apply Hnew|]. split; [by rewrite (covers_alike _ _ _ Ha)|].
      rewrite leaf_value_stamp by eauto. destruct Ha as (Hs & _). by apply shape_eq in Hs as (_ & _ & _ & -> & _).
Qed.

(** ** From the root to the leaves *)

(** [reach d id l]: page [l] is in the tree under page [id]. *)
Inductive reach (d : fsm_map) : Z → Z → Prop :=
  | reach_refl id : reach d id id
  | reach_step id p c l : d !! id = Some p → c ∈ child_page_ids p → reach d c l → reach d id l.

Lemma reach_snoc d id l p c :
  reach d id l → d !! l = Some p → c ∈ child_page_ids p → reach d id c.
Proof. induction 1; eauto using reach. Qed.

Section tree.
Context (d : fsm_map) (root : Z) (n : nat) (T : shaped d root n).

(** Going up by parents ends at the root. *)
Lemma tree_ind (P : Z → Prop) :
  P root →
  (∀ id p c q, d !! id = Some p → c ∈ child_page_ids p → d !! c = Some q → P id → P c) →
  ∀ id p, d !! id = Some p → P id.
Proof using T.
  intros Hroot Hstep.
  enough (∀ m id p, d !! id = Some p → (Z.to_nat (Z.of_nat n - level (header p)) ≤ m)%nat → P id) as H by eauto.
  induction m as [|m IH]; intros id p Hp Hm; destruct (decide (id = root)) as [->|Hne]; try done.
  - pose proof (t_top _ _ _ T _ _ Hp). lia.
  - destruct (t_parent _ _ _ T _ _ Hp Hne) as (P' & HP & Hin).
    destruct (t_kids _ _ _ T _ _ _ HP Hin) as (q & Hq & _ & Hlev). assert (q = p) as -> by congruence.
    apply (Hstep _ _ _ _ HP Hin Hp). eapply IH; [exact HP|].
    pose proof (t_top _ _ _ T _ _ Hp). pose proof (t_top _ _ _ T _ _ HP). lia.
Qed.

Lemma reach_all id p : d !! id = Some p → reach d root id.
Proof using T.
  intros Hp. revert id p Hp. apply tree_ind; [constructor|]. intros. eapply reach_snoc; eauto.
Qed.

Lemma child_position p id c :
  d !! id = Some p → c ∈ child_page_ids p → ∃ j, 0 ≤ j ∧ child_page_ids p !! Z.to_nat j = Some c.
Proof. intros _ [j Hj]%list_elem_of_lookup. exists (Z.of_nat j). split; [lia|]. by rewrite Nat2Z.id. Qed.

(** Records are unique. *)
Lemma records_inj h v v' : records d h v → records d h v' → v = v'.
Proof using T.
  intros (id & p & Hp & Hc & ->) (id' & p' & Hp' & Hc' & ->).
  assert (id = id') as -> by (eapply t_disjoint; eauto). by simplify_eq.
Qed.

End tree.

Section exact_tree.
Context (d : fsm_map) (root : Z) (n : nat) (T : fsm_tree d root n).

(** The root of the tree bounds the root of every page. *)
Lemma root_bounds r : d !! root = Some r → ∀ id p, d !! id = Some p → value_at p 0 ≤ value_at r 0.
Proof using T.
  intros Hr id p Hp. enough (∀ q, d !! id = Some q → value_at q 0 ≤ value_at r 0) by eauto.
  pattern id. revert id p Hp. apply (tree_ind d root n (tr_shaped _ _ _ T)).
  - intros q Hq. by simplify_eq.
  - intros id p c q Hp Hin Hq IH q' Hq'. simplify_eq. specialize (IH _ Hp).
    destruct (child_position d p id c Hp Hin) as (j & Hj & Hc).
    pose proof (tr_agrees _ _ _ T _ _ _ _ _ Hp Hc Hj Hq ltac:(done)) as Hv.
    pose proof (root_best p (tr_exact _ _ _ T _ _ Hp) (leaf_start (header p) + j) ltac:(lia)) as Hb.
    unfold leaf_value in Hv. lia.
Qed.

Lemma leaf_page_start p : exact p → 0 ≤ leaf_start (header p).
Proof. intros E. destruct (ex_depth _ E) as [K HK]. pose proof (pow2_pos K). lia. Qed.

(** Where the root is not good enough, no page of the table is. *)
Lemma records_bounded r h v : d !! root = Some r → records d h v → v ≤ value_at r 0.
Proof using T.
  intros Hr (id & p & Hp & Hc & ->). pose proof (root_bounds r Hr _ _ Hp).
  unfold covers in Hc. bool_simpl.
  pose proof (root_best p (tr_exact _ _ _ T _ _ Hp) (leaf_start (header p) + (h - first_heap_page (header p)))
    ltac:(lia)). unfold leaf_value. lia.
Qed.

End exact_tree.

(** ** Changing the nodes of one page *)

Lemma leaf_value_alike p p' j :
  alike p p' → (∀ i, leaf_start (header p) ≤ i → value_at p' i = value_at p i) → 0 ≤ j →
  leaf_value p' j = leaf_value p j.
Proof.
  intros (Hs & _) Hv Hj. apply shape_eq in Hs as (_ & _ & _ & _ & _ & _ & Hl). unfold leaf_value.
  rewrite Hl. apply Hv. lia.
Qed.

Lemma covers_offset p h : covers p h = true → 0 ≤ h - first_heap_page (header p).
Proof. unfold covers. intros. bool_simpl. lia. Qed.

(** Inner pages, and leaf pages with the same leaves, record the same. *)
Lemma records_insert d id p p' h v :
  d !! id = Some p → alike p p' →
  (is_leaf_page p = true → ∀ j, 0 ≤ j → leaf_value p' j = leaf_value p j) →
  records (<[id := p']> d) h v ↔ records d h v.
Proof.
  intros Hp Ha Hv. pose proof Ha as (Hs & _). apply shape_eq in Hs as (_ & _ & _ & Hf & _).
  split; intros (i & q & Hi & Hc & ->).
  - destruct (decide (i = id)) as [->|Hne].
    + rewrite lookup_insert_eq in Hi. simplify_eq. rewrite (covers_alike _ _ _ Ha) in Hc.
      exists id, p. split; [done|]. split; [done|]. rewrite Hf. apply Hv; [|by apply covers_offset].
      unfold covers in Hc. by bool_simpl.
    + rewrite lookup_insert_ne in Hi by done. exists i, q. done.
  - destruct (decide (i = id)) as [->|Hne].
    + simplify_eq. exists id, p'. rewrite lookup_insert_eq, (covers_alike _ _ _ Ha). split; [done|]. split; [done|].
      rewrite Hf. symmetry. apply Hv; [|by apply covers_offset]. unfold covers in Hc. by bool_simpl.
    + exists i, q. rewrite lookup_insert_ne by done. done.
Qed.

(** A new value for the node of one page of the table. *)
Lemma records_set d root n id p p' h v :
  shaped d root n → d !! id = Some p → covers p h = true → alike p p' →
  (∀ j, 0 ≤ j → leaf_value p' j = if decide (j = h - first_heap_page (header p)) then v else leaf_value p j) →
  ∀ h' v', records (<[id := p']> d) h' v' ↔ if decide (h' = h) then v' = v else records d h' v'.
Proof.
  intros T Hp Hc Ha Hv h' v'. pose proof Ha as (Hs & _). apply shape_eq in Hs as (_ & _ & _ & Hf & _).
  split.
  - intros (i & q & Hi & Hq & ->). destruct (decide (i = id)) as [->|Hne].
    + rewrite lookup_insert_eq in Hi. simplify_eq. rewrite (covers_alike _ _ _ Ha) in Hq.
      rewrite Hf, Hv by (by apply covers_offset). case_decide as D; case_decide as D'; try lia; try done.
      exists id, p. done.
    + rewrite lookup_insert_ne in Hi by done. case_decide as D; [|exists i, q; done]. subst h'.
      destruct Hne. eapply t_disjoint; eauto.
  - case_decide as D.
    + intros ->. subst h'. exists id, p'. rewrite lookup_insert_eq, (covers_alike _ _ _ Ha).
      split; [done|]. split; [done|]. rewrite Hf, Hv by (by apply covers_offset). by rewrite decide_True.
    + intros (i & q & Hi & Hq & ->). destruct (decide (i = id)) as [->|Hne].
      * simplify_eq. exists id, p'. rewrite lookup_insert_eq, (covers_alike _ _ _ Ha). split; [done|]. split; [done|].
        rewrite Hf, Hv by (by apply covers_offset). by rewrite decide_False by lia.
      * exists i, q. rewrite lookup_insert_ne by done. done.
Qed.

(** Before a page gets a new value for a node: its children agree with what the node will be, its
    parent with what its root is. *)
Record updatable (d : fsm_map) (root : Z) (n : nat) (id k v : Z) (p : S_FSMPageData) : Prop := {
  up_shaped : shaped d root n;
  up_exact : ∀ i q, d !! i = Some q → exact q;
  up_page : d !! id = Some p;
  up_node : leaf_start (header p) ≤ k < node_count (header p);
  up_value : 0 ≤ v;
  up_kids : agrees (<[id := set_node k v p]> d) (Some id);
  up_root : ∀ i P j, d !! i = Some P → child_page_ids P !! Z.to_nat j = Some id → 0 ≤ j →
    leaf_value P j = value_at p 0
}.

Lemma alike_set_node k v p : alike p (set_node k v p).
Proof. unfold alike, set_node, len. cbn [header child_page_ids nodes set_nodes]. by rewrite length_insert. Qed.

(** When the page is exact again the tree is, but for its parent's node. *)
Lemma page_settled d root n id k v p q :
  updatable d root n id k v p → alike p q → storable q → exact q →
  (∀ i, leaf_start (header p) ≤ i → value_at q i = if decide (i = k) then v else value_at p i) →
  shaped (<[id := q]> d) root n ∧ (∀ i r, <[id := q]> d !! i = Some r → exact r) ∧
  agrees (<[id := q]> d) (Some id) ∧
  (∀ h w, records (<[id := q]> d) h w ↔ records (<[id := set_node k v p]> d) h w) ∧
  (id = root ∨ value_at q 0 = value_at p 0 ∨
   (∀ i P j, d !! i = Some P → child_page_ids P !! Z.to_nat j = Some id → 0 ≤ j → leaf_value P j = value_at q 0) →
   fsm_tree (<[id := q]> d) root n).
Proof.
  intros [T E Hp Hk Hv Hkids Hroot] Ha Hst Hq Hval.
  pose proof (exact_start p (E _ _ Hp)) as Hs0.
  assert (shaped (<[id := q]> d) root n) as T' by (by eapply shaped_insert).
  assert (∀ i r, <[id := q]> d !! i = Some r → exact r) as E'.
  { intros i r Hi. destruct (decide (i = id)) as [->|Hne]; [rewrite lookup_insert_eq in Hi; by simplify_eq|].
    rewrite lookup_insert_ne in Hi by done. eauto. }
  assert (∀ j, 0 ≤ j → leaf_value q j = leaf_value (set_node k v p) j) as Hleaf.
  { intros j Hj. unfold leaf_value. pose proof Ha as (Hs & _). apply shape_eq in Hs as (_ & _ & _ & _ & _ & _ & ->).
    rewrite Hval by lia. change (header (set_node k v p)) with (header p).
    pose proof (ex_len _ (E _ _ Hp)). by rewrite value_at_set_node by lia. }
  assert (agrees (<[id := q]> d) (Some id)) as A.
  { intros i r j c r' Hi Hc Hj Hr' Hx. assert (c ≠ id) as Hne by congruence.
    rewrite lookup_insert_ne in Hr' by done. destruct (decide (i = id)) as [->|Hi'].
    - rewrite lookup_insert_eq in Hi. injection Hi as <-. rewrite Hleaf by done.
      apply (Hkids id (set_node k v p) j c r'); try done; [by rewrite lookup_insert_eq| |by rewrite lookup_insert_ne].
      destruct Ha as (_ & Hc' & _). rewrite Hc' in Hc. done.
    - rewrite lookup_insert_ne in Hi by done.
      apply (Hkids i r j c r'); try done; by rewrite lookup_insert_ne. }
  split_and!; try done.
  - intros h w. rewrite <- (insert_insert_eq d id q (set_node k v p)). apply (records_insert _ id (set_node k v p)).
    + by rewrite lookup_insert_eq.
    + destruct Ha as (Hs & Hc & Hl). unfold alike. change (header (set_node k v p)) with (header p).
      change (child_page_ids (set_node k v p)) with (child_page_ids p).
      destruct (alike_set_node k v p) as (_ & _ & ->). done.
    + intros _ j Hj. by apply Hleaf.
  - intros Hup. split; [done|done|]. intros i r j c r' Hi Hc Hj Hr' _.
    destruct (decide (c = id)) as [->|Hne]; [|by eapply A; eauto; congruence].
    rewrite lookup_insert_eq in Hr'. injection Hr' as <-.
    destruct (t_kids _ _ _ T' _ _ id Hi) as (q' & Hq' & Hpar & Hlev); [by eapply list_elem_of_lookup_2|].
    rewrite lookup_insert_eq in Hq'. injection Hq' as <-.
    assert (i ≠ id) as Hi' by (intros ->; rewrite lookup_insert_eq in Hi; injection Hi as <-; lia).
    rewrite lookup_insert_ne in Hi by done. destruct Hup as [->|[Hup|Hup]].
    + destruct (t_root _ _ _ T) as (p' & Hp' & Hz & _). simplify_eq.
      destruct Ha as (Hs & _). apply shape_eq in Hs as (_ & Hpp & _). rewrite Hpp, Hz in Hi.
      pose proof (sh_id _ _ (t_page _ _ _ T _ _ Hi)). lia.
    + rewrite Hup. eauto.
    + eauto.
Qed.
