(* ===== verification/FsmUpdate.v ===== *)
(** The calls of the free-space map against the tree that its pages decode to: how a call takes,
    writes and gives back a page; that the searches find a page with space, and the leaf
    page of a page of the table, if there is one; and that a new category goes from it up
    to the root. *)

From S2P Require Import Prelude Common Bytes Record RecordPage FsmReplay FsmTree FsmPage FsmInv.

(** The pages [d] can be read from the bytes. *)
Definition backed (ps : gmap Z buffer) (d : fsm_map) : Prop :=
  ∀ id p, d !! id = Some p → ∃ bs, ps !! id = Some bs ∧ len bs = PAGE_SIZE ∧ DeserializeFSMPage bs = Some p.

(** The object in the middle of a call, with the pages [L] latched. *)
Record sys (m : buffer) (n : nat) (d : fsm_map) (L : gmap Z bool) (s : SecFSM) : Prop := {
  sys_backed : backed (pages s) d;
  sys_size : size (pages s) = n;
  sys_meta : meta_ s = m;
  sys_ready : initialized_ s = true;
  sys_latches : latches s = L
}.

Section calls.
Context (m : buffer) (n : nat).

Lemma wp_fetch d L id p read (Q : S_FSMPageData → SecFSM → Prop) s :
  sys m n d L s → d !! id = Some p → L !! id = None →
  (∀ s', sys m n d (<[id := negb read]> L) s' → (read = false → pageinuse s' = Some id) → Q p s') →
  wp (fetch_page id read) Q s.
Proof.
  intros [Hb Hn Hm Hr HL] Hd Hfree HQ. destruct (Hb _ _ Hd) as (bs & Hps & Hlen & Hdec).
  unfold fetch_page, take_page, latch. repeat (wp_step; cbv beta). rewrite Hps. repeat wp_step.
  rewrite HL, Hfree. repeat wp_step.
  all: rewrite Hdec; repeat wp_step; apply HQ; [split; cbn; done|]; cbn; intros ->; done.
Qed.

Lemma wp_release d L id read (Q : unit → SecFSM → Prop) s :
  sys m n d (<[id := negb read]> L) s → L !! id = None →
  (∀ s', sys m n d L s' → Q tt s') → wp (release_page id read) Q s.
Proof.
  intros [Hb Hn Hm Hr HL] Hfree HQ. unfold release_page. repeat wp_step. rewrite HL, lookup_insert_eq.
  rewrite Bool.eqb_reflx. wp_step. apply HQ. split; cbn; try done. rewrite delete_insert_eq.
  by apply delete_id.
Qed.

Lemma wp_keep d L id p (Q : unit → SecFSM → Prop) s :
  sys m n d L s → (∀ s', sys m n d L s' → pageinuse s' = pageinuse s → Q tt s') → wp (keep_page id p) Q s.
Proof. intros [Hb Hn Hm Hr HL] HQ. unfold keep_page. wp_step. apply HQ; [split; done|done]. Qed.

Lemma wp_write_back now d L id p0 p (Q : unit → SecFSM → Prop) s :
  sys m n d (<[id := true]> L) s → pageinuse s = Some id → d !! id = Some p0 → storable p →
  (∀ s', sys m n (<[id := stamp now p]> d) (<[id := true]> L) s' → Q tt s') →
  wp (write_back now id p) Q s.
Proof.
  intros [Hb Hn Hm Hr HL] Huse Hd Hst HQ. destruct (Hb _ _ Hd) as (bs & Hps & Hlen & Hdec).
  unfold write_back. repeat wp_step. rewrite Huse. repeat wp_step. rewrite Hps, HL, lookup_insert_eq.
  destruct (serialize_page_ok now p bs Hst Hlen) as (bs' & Hser & Hlen' & Hdec'). rewrite Hser.
  unfold keep_page. repeat wp_step. apply HQ. split; cbn; try done.
  - intros i q Hi. destruct (decide (i = id)) as [->|Hne].
    + rewrite lookup_insert_eq in Hi. injection Hi as <-. exists bs'. by rewrite lookup_insert_eq.
    + rewrite lookup_insert_ne in Hi by done. destruct (Hb _ _ Hi) as (b & ? & ? & ?). exists b.
      by rewrite lookup_insert_ne.
  - rewrite map_size_insert_Some; [done|by rewrite Hps].
Qed.

Lemma wp_ready d L (Q : unit → SecFSM → Prop) s :
  sys m n d L s → Q tt s → wp make_ready Q s.
Proof. intros Hs HQ. unfold make_ready. wp_step. wp_step. rewrite (sys_ready _ _ _ _ _ Hs). done. Qed.

(** ** Searching *)

Section search.
Context (d : fsm_map) (root : Z) (T : fsm_tree d root n).

Let page_ok id p (Hp : d !! id = Some p) := t_page _ _ _ (tr_shaped _ _ _ T) id p Hp.

Lemma leaf_or_inner id p : d !! id = Some p →
  (page_type (header p) =? LEAF_PAGE) = is_leaf_page p ∧ EnsureChildVector p = p ∧ nodes p ≠ [].
Proof using T.
  intros Hp. split; [done|]. split; [exact (storable_ensure p (sh_store _ _ (page_ok _ _ Hp)))|].
  pose proof (tr_exact _ _ _ T _ _ Hp) as E. pose proof (ex_len _ E) as Hl. pose proof (ex_leaves _ E) as Hlv.
  pose proof (exact_start p E). intros Hn. rewrite Hn in Hl. unfold len in Hl. cbn [length] in Hl. lia.
Qed.

Lemma wp_leaf_search L id p r (Q : Z → SecFSM → Prop) s :
  sys m n d L s → d !! id = Some p → is_leaf_page p = true → r ≤ value_at p 0 →
  (∀ h v, h ≠ NO_PAGE → records d h v → r ≤ v → Q h s) → wp (search_in_leaf_page p r) Q s.
Proof using T.
  intros Hs Hp Hleaf Hr HQ. unfold search_in_leaf_page. wp_step. eapply wp_ready; [exact Hs|].
  pose proof (tr_exact _ _ _ T _ _ Hp) as E. destruct (ex_depth _ E) as [K HK].
  pose proof (ex_leaves _ E) as Hlv. pose proof (exact_start p E) as Hs0.
  destruct (search_nodes_finds p E (Z.to_nat (leaf_start (header p))) K 0 r s) as (k & Hk & Hv & Hrun).
  { by apply spans_root. } { by apply le_pow2. } { done. } { rewrite <- HK. lia. }
  eapply wp_done; [exact Hrun|]. destruct (sh_heap _ _ (page_ok _ _ Hp) Hleaf) as (Hc & H0 & Hmax).
  unfold NO_PAGE in *.
  assert (u32 (first_heap_page (header p) + u32 (k - leaf_start (header p))) =
          first_heap_page (header p) + (k - leaf_start (header p))) as ->.
  { unfold u32. rewrite (Z.mod_small (k - leaf_start (header p))) by lia. rewrite Z.mod_small; lia. }
  apply (HQ _ (value_at p k)); [unfold NO_PAGE; lia| |done].
  exists id, p. split; [done|]. split.
  - unfold covers. rewrite Hleaf, !andb_true_iff, Z.leb_le, Z.ltb_lt. lia.
  - unfold leaf_value. f_equal. lia.
Qed.

(** The first child whose node is good enough: there is one. *)
Lemma run_first_child id p r s :
  d !! id = Some p → is_leaf_page p = false → r ≤ value_at p 0 →
  ∃ j c, 0 ≤ j ∧ child_page_ids p !! Z.to_nat j = Some c ∧ r ≤ leaf_value p j ∧
    first_child (Z.to_nat (child_count (header p))) p r 0 s = Done (Some c, s).
Proof using T.
  intros Hp Hleaf Hr. pose proof (tr_exact _ _ _ T _ _ Hp) as E. pose proof (exact_start p E) as Hs0.
  pose proof (page_ok _ _ Hp) as Hok. destruct (sh_kids _ _ Hok Hleaf) as [Hlen _].
  pose proof (ex_len _ E) as Hln. pose proof (ex_small _ E) as Hsm. pose proof (ex_leaves _ E) as Hlv.
  assert (child_count (header p) = len (child_page_ids p)) as ->.
  { destruct (st_type _ (sh_store _ _ Hok)) as [(_ & _ & ?)|(Ht & _)]; [done|].
    unfold is_leaf_page in Hleaf. by rewrite Ht in Hleaf. }
  assert (∃ j, 0 ≤ j < len (child_page_ids p) ∧ r ≤ leaf_value p j) as (j & Hj & Hvj).
  { destruct (Z.lt_ge_cases 0 (value_at p 0)) as [Hpos|Hz].
    - destruct (root_attained p E Hpos) as (k & Hk & Hv). exists (k - leaf_start (header p)).
      split; [lia|]. unfold leaf_value. replace (leaf_start (header p) + (k - leaf_start (header p))) with k; lia.
    - exists 0. split; [lia|]. pose proof (ex_nonneg _ E (leaf_start (header p) + 0)). unfold leaf_value. lia. }
  assert (∀ k off, 0 ≤ off → (Z.to_nat (len (child_page_ids p) - off) ≤ k)%nat → off ≤ j →
    ∃ j c, 0 ≤ j ∧ child_page_ids p !! Z.to_nat j = Some c ∧ r ≤ leaf_value p j ∧
      first_child k p r off s = Done (Some c, s)) as H.
  { induction k as [|k IH]; intros off Ho Hk Hoj; [lia|]. cbn [first_child].
    assert (u32 (leaf_start (header p) + off) = leaf_start (header p) + off) as ->
      by (unfold u32; rewrite Z.mod_small; lia).
    rewrite (proj2 (Z.leb_gt (node_count (header p)) _)) by lia.
    destruct (lookup_lt_is_Some_2 (nodes p) (Z.to_nat (leaf_start (header p) + off))) as [v Hv];
      [unfold len in Hln; lia|]. rewrite Hv.
    assert (leaf_value p off = v) as Hlv' by (unfold leaf_value, value_at; by rewrite Hv).
    destruct (Z.leb_spec r v) as [Hok'|Hno].
    - destruct (lookup_lt_is_Some_2 (child_page_ids p) (Z.to_nat off)) as [c Hc]; [unfold len in *; lia|].
      exists off, c. rewrite Hc. split_and!; [done|done|lia|done].
    - apply IH; [lia|lia|]. assert (off ≠ j); [|lia]. intros ->. lia. }
  apply H; lia.
Qed.

Lemma wp_search_from fuel id p r L (Q : Z → SecFSM → Prop) s :
  sys m n d L s → d !! id = Some p → L = ∅ → level (header p) < Z.of_nat fuel → r ≤ value_at p 0 →
  (∀ h v s', sys m n d L s' → h ≠ NO_PAGE → records d h v → r ≤ v → Q h s') →
  wp (search_from_page fuel id r) Q s.
Proof using T.
  intros Hs Hp -> Hf Hr HQ. revert id p s Hs Hp Hf Hr.
  induction fuel as [|fuel IH]; intros id p s Hs Hp Hf Hr.
  { pose proof (sh_level _ _ (page_ok _ _ Hp)). lia. }
  cbn [search_from_page]. wp_step. eapply wp_fetch; [exact Hs|exact Hp|done|]. intros s1 H1 _. cbv beta.
  destruct (leaf_or_inner _ _ Hp) as (-> & He & Hnn). destruct (is_leaf_page p) eqn:Hleaf.
  - wp_step. eapply wp_leaf_search; [exact H1|exact Hp|done|done|]. intros h v Hh Hrec Hv.
    wp_step. eapply wp_release; [exact H1|done|]. intros s2 H2. cbv beta. wp_step. eapply HQ; eauto.
  - rewrite He. wp_step. eapply wp_keep; [exact H1|]. intros s2 H2 _. cbv beta.
    destruct (nodes p) as [|v l] eqn:Hns; [done|].
    assert (value_at p 0 = v) as Hv0 by (unfold value_at; by rewrite Hns).
    rewrite (proj2 (Z.ltb_ge v r)) by lia. wp_step.
    destruct (run_first_child id p r s2 Hp Hleaf Hr) as (j & c & Hj & Hc & Hvj & Hrun).
    eapply wp_done; [exact Hrun|]. cbv beta. wp_step.
    eapply wp_release; [exact H2|done|]. intros s3 H3. cbv beta iota.
    destruct (t_kids _ _ _ (tr_shaped _ _ _ T) id p c Hp) as (q & Hq & _ & Hlev); [by eapply list_elem_of_lookup_2|].
    eapply IH; [exact H3|exact Hq|lia|].
    rewrite <- (tr_agrees _ _ _ T _ _ _ _ _ Hp Hc Hj Hq); done.
Qed.

(** [find_free_page] after the first call. *)
Lemma wp_find_free_page need (Q : Z → SecFSM → Prop) s :
  sys m n d ∅ s → root = root_page_id m →
  (∀ h s', sys m n d ∅ s' →
     (h = NO_PAGE → ∀ h' v, records d h' v → v < space_to_category need) →
     (h ≠ NO_PAGE → ∃ v, records d h v ∧ space_to_category need ≤ v) → Q h s') →
  wp (find_free_page need) Q s.
Proof using T.
  intros Hs Hroot HQ. unfold find_free_page. wp_step. eapply wp_ready; [exact Hs|]. do 4 wp_step.
  unfold fuel_for. rewrite (sys_meta _ _ _ _ _ Hs), (sys_size _ _ _ _ _ Hs), <- Hroot.
  destruct (t_root _ _ _ (tr_shaped _ _ _ T)) as (r & Hr & _ & Hbig).
  pose proof (t_top _ _ _ (tr_shaped _ _ _ T) _ _ Hr) as Htop.
  destruct (Z.le_gt_cases (space_to_category need) (value_at r 0)) as [Hge|Hlt].
  - eapply wp_search_from; [exact Hs|exact Hr|done|lia|done|]. intros h v s' Hs' Hh Hrec Hv.
    apply HQ; [done|done|eauto].
  - assert (∀ h' v, records d h' v → v < space_to_category need) as Hnone.
    { intros h' v Hrec. pose proof (records_bounded _ _ _ T _ _ _ Hr Hrec). lia. }
    cbn [search_from_page]. wp_step. eapply wp_fetch; [exact Hs|exact Hr|done|]. intros s1 H1 _. cbv beta.
    destruct (leaf_or_inner _ _ Hr) as (-> & He & Hnn). destruct (is_leaf_page r) eqn:Hleaf.
    + wp_step. unfold search_in_leaf_page. wp_step. eapply wp_ready; [exact H1|].
      specialize (Hbig eq_refl). eapply wp_done; [apply search_nodes_none; try done; [by eapply tr_exact|lia]|].
      cbv beta. wp_step. eapply wp_release; [exact H1|done|]. intros s2 H2. cbv beta. wp_step.
      apply HQ; [done|done|done].
    + rewrite He. wp_step. eapply wp_keep; [exact H1|]. intros s2 H2 _. cbv beta.
      destruct (nodes r) as [|v l] eqn:Hns; [done|].
      assert (value_at r 0 = v) as Hv0 by (unfold value_at; by rewrite Hns).
      rewrite (proj2 (Z.ltb_lt v _)) by lia. wp_step. eapply wp_release; [exact H2|done|]. intros s3 H3.
      cbv beta. wp_step. apply HQ; [done|done|done].
Qed.

End search.
End calls.

(** ** The leaf page *)

Lemma covers_code p h id : page_shaped id p → is_leaf_page p = true →
  (first_heap_page (header p) <=? h) &&
  (h <? u32 (first_heap_page (header p) + heap_pages_count (header p))) = covers p h.
Proof.
  intros Hok Hl. destruct (sh_heap _ _ Hok Hl) as (Hc & H0 & Hmax). unfold covers. rewrite Hl.
  destruct (Z.leb_spec (first_heap_page (header p)) h); [|done]. cbn [andb].
  unfold u32. rewrite Z.mod_small; [done|]. unfold NO_PAGE in Hmax. lia.
Qed.

(** The answer of a search for the leaf page of [h], where [none] holds if there is none. *)
Definition leaf_answer (d : fsm_map) (h x : Z) (none : Prop) : Prop :=
  (x ≠ NO_PAGE ∧ ∃ q, d !! x = Some q ∧ covers q h = true) ∨ (x = NO_PAGE ∧ none).

Definition none_under (d : fsm_map) (h id : Z) : Prop := ∀ l q, reach d id l → d !! l = Some q → covers q h = false.

Lemma wp_first_answer {S} (I : S → Prop) d rec h kids (Q : Z → S → Prop) s :
  (∀ c s (R : Z → S → Prop), c ∈ kids → I s →
     (∀ x s', I s' → leaf_answer d h x (none_under d h c) → R x s') → wp (rec c) R s) →
  I s →
  (∀ x s', I s' → leaf_answer d h x (∀ c, c ∈ kids → none_under d h c) → Q x s') →
  wp (first_answer rec kids) Q s.
Proof.
  revert s Q. induction kids as [|c kids IH]; intros s Q Hrec Hs HQ; cbn [first_answer].
  { wp_step. apply HQ; [done|]. right. split; [done|]. intros c Hc. by apply elem_of_nil in Hc. }
  wp_step. apply Hrec; [by left|done|]. intros x s1 H1 [[Hx Hq]|[-> Hnone]]; cbv beta.
  - rewrite (proj2 (Z.eqb_neq x NO_PAGE)) by done. cbn [negb]. wp_step. apply HQ; [done|]. by left.
  - rewrite Z.eqb_refl. cbn [negb]. apply IH; [|done|].
    + intros c' s' R Hc'. apply Hrec. by right.
    + intros x s2 H2 [Hq|[-> Hn]]; apply HQ; try done; [by left|]. right. split; [done|].
      intros c' [->|Hc']%elem_of_cons; auto.
Qed.

(** What a leaf page answers, and an inner page whose children have none. *)
Lemma leaf_answers d h id p :
  d !! id = Some p → page_shaped id p → is_leaf_page p = true →
  leaf_answer d h (if covers p h then id else NO_PAGE) (none_under d h id).
Proof.
  intros Hp Hok Hleaf. destruct (covers p h) eqn:Hc.
  - left. pose proof (sh_id _ _ Hok). split; [lia|eauto].
  - right. split; [done|]. intros l q Hreach Hq. inversion Hreach as [|? p' c ? Hp' Hin]; [by simplify_eq|].
    simplify_eq. destruct (st_type _ (sh_store _ _ Hok)) as [(Ht & _)|(_ & Hk)].
    + unfold is_leaf_page in Hleaf. by rewrite Ht in Hleaf.
    + rewrite Hk in Hin. by apply elem_of_nil in Hin.
Qed.

Lemma inner_answers d h id p x :
  d !! id = Some p → is_leaf_page p = false →
  leaf_answer d h x (∀ c, c ∈ child_page_ids p → none_under d h c) → leaf_answer d h x (none_under d h id).
Proof.
  intros Hp Hleaf [Hq|[-> Hn]]; [by left|]. right. split; [done|].
  intros l q Hreach Hq. inversion Hreach as [|? p' c ? Hp' Hin Hr]; simplify_eq.
  - unfold covers. by rewrite Hleaf.
  - by eapply Hn.
Qed.

Lemma none_recorded d root n h : shaped d root n → none_under d h root → ∀ v, ¬ records d h v.
Proof.
  intros T Hn v (l & q & Hq & Hc & _). rewrite (Hn l q) in Hc; [done| |done]. by eapply reach_all.
Qed.

Section leaf.
Context (m : buffer) (n : nat) (d : fsm_map) (root : Z) (T : fsm_tree d root n).

Lemma wp_search_leaf fuel id p h (Q : Z → SecFSM → Prop) s :
  sys m n d ∅ s → d !! id = Some p → level (header p) < Z.of_nat fuel →
  (∀ x s', sys m n d ∅ s' → leaf_answer d h x (none_under d h id) → Q x s') →
  wp (search_leaf_page_from fuel h id) Q s.
Proof using T.
  revert id p s Q. induction fuel as [|fuel IH]; intros id p s Q Hs Hp Hf HQ;
    pose proof (t_page _ _ _ (tr_shaped _ _ _ T) _ _ Hp) as Hok.
  { pose proof (sh_level _ _ Hok). lia. }
  cbn [search_leaf_page_from]. wp_step. eapply wp_fetch; [exact Hs|exact Hp|done|]. intros s1 H1 _. cbv beta zeta.
  destruct (leaf_or_inner n d root T id p Hp) as (-> & He & Hnn). destruct (is_leaf_page p) eqn:Hleaf.
  - wp_step. eapply wp_release; [exact H1|done|]. intros s2 H2. cbv beta. wp_step.
    rewrite (covers_code p h id Hok Hleaf). apply HQ; [done|]. by apply leaf_answers.
  - rewrite He. wp_step. eapply wp_keep; [exact H1|]. intros s2 H2 _. cbv beta. wp_step.
    eapply wp_release; [exact H2|done|]. intros s3 H3. cbv beta.
    eapply (wp_first_answer (sys m n d ∅) d _ h); [|exact H3|].
    + intros c s' R Hc Hs' HR. destruct (t_kids _ _ _ (tr_shaped _ _ _ T) _ _ _ Hp Hc) as (q & Hq & _ & Hlev).
      eapply IH; [exact Hs'|exact Hq|lia|exact HR].
    + intros x s4 H4 Ha. apply HQ; [done|]. by eapply inner_answers.
Qed.

Lemma wp_find_leaf_page h (Q : Z → SecFSM → Prop) s :
  sys m n d ∅ s → root = root_page_id m →
  (∀ x s', sys m n d ∅ s' → leaf_answer d h x (∀ v, ¬ records d h v) → Q x s') →
  wp (find_leaf_page_for_heap_page h) Q s.
Proof using T.
  intros Hs Hroot HQ. unfold find_leaf_page_for_heap_page. repeat wp_step. unfold fuel_for.
  rewrite (sys_meta _ _ _ _ _ Hs), (sys_size _ _ _ _ _ Hs), <- Hroot.
  destruct (t_root _ _ _ (tr_shaped _ _ _ T)) as (r & Hr & _).
  pose proof (t_top _ _ _ (tr_shaped _ _ _ T) _ _ Hr).
  eapply wp_search_leaf; [exact Hs|exact Hr|lia|]. intros x s' Hs' [Hq|[-> Hn]]; apply HQ; try done; [by left|].
  right. split; [done|]. eapply none_recorded; [exact (tr_shaped _ _ _ T)|exact Hn].
Qed.

End leaf.

(** ** From the leaf page to the root *)

Lemma index_of_found c l i : c ∈ l → ∃ j, index_of c i l = Some j ∧ i ≤ j ∧ l !! Z.to_nat (j - i) = Some c.
Proof.
  revert i. induction l as [|y l IH]; intros i Hin; [by apply elem_of_nil in Hin|]. cbn [index_of].
  destruct (Z.eqb_spec y c) as [->|Hne].
  - exists i. split; [done|]. split; [lia|]. by rewrite Z.sub_diag.
  - apply elem_of_cons in Hin as [->|Hin]; [done|]. destruct (IH (i + 1) Hin) as (j & -> & Hj & Hl).
    exists j. split; [done|]. split; [lia|]. replace (Z.to_nat (j - i)) with (S (Z.to_nat (j - (i + 1)))) by lia.
    done.
Qed.

Lemma find_child p c : is_leaf_page p = false → storable p → c ∈ child_page_ids p →
  ∃ j, FindChildIndex p c = Some j ∧ 0 ≤ j ∧ child_page_ids p !! Z.to_nat j = Some c.
Proof.
  intros Hl Hst Hin. unfold FindChildIndex.
  destruct (st_type _ Hst) as [(Ht & _)|(Ht & _)]; [|unfold is_leaf_page in Hl; by rewrite Ht in Hl].
  rewrite Ht. cbn [negb Z.eqb]. destruct (index_of_found c _ 0 Hin) as (j & Hj & H0 & Hl'). rewrite Z.sub_0_r in Hl'.
  change (INTERNAL_PAGE =? INTERNAL_PAGE) with true. cbn [negb]. rewrite Hj. eauto.
Qed.

Section update.
Context (m : buffer) (n : nat) (root now : Z).

(** The parent of a page whose root has changed can be told. *)
Lemma parent_updatable d id k v p q pid P j :
  updatable d root n id k v p → alike p q → storable q →
  shaped (<[id := q]> d) root n → (∀ i r, <[id := q]> d !! i = Some r → exact r) →
  agrees (<[id := q]> d) (Some id) →
  d !! pid = Some P → pid ≠ id → is_leaf_page P = false → 0 ≤ j → child_page_ids P !! Z.to_nat j = Some id →
  updatable (<[id := q]> d) root n pid (leaf_start (header P) + j) (value_at q 0) P.
Proof.
  intros Hup Ha Hst T' E' A HP Hne HPl Hj Hc.
  assert (<[id := q]> d !! pid = Some P) as HP' by (by rewrite lookup_insert_ne).
  pose proof (E' _ _ HP') as EP. pose proof (exact_start P EP) as Hs0.
  destruct (sh_kids _ _ (t_page _ _ _ T' _ _ HP') HPl) as [Hlen Hnd].
  assert (j < len (child_page_ids P)) as Hjl by (apply lookup_lt_Some in Hc; unfold len; lia).
  split; try done.
  - lia.
  - apply (ex_nonneg _ (E' id q ltac:(by rewrite lookup_insert_eq))).
  - intros i r j' c r' Hi Hc' Hj' Hr' Hx. assert (c ≠ pid) as Hcp by congruence.
    rewrite (lookup_insert_ne _ pid c) in Hr' by done. destruct (decide (i = pid)) as [->|Hip].
    + rewrite lookup_insert_eq in Hi. injection Hi as <-. cbn [child_page_ids set_node set_nodes] in Hc'.
      unfold leaf_value. cbn [header set_node set_nodes]. change (header (set_node (leaf_start (header P) + j) (value_at q 0) P)) with (header P).
      pose proof (ex_len _ EP). rewrite value_at_set_node by lia.
      case_decide as D.
      * assert (j' = j) as -> by lia. assert (c = id) as -> by congruence.
        rewrite lookup_insert_eq in Hr'. by simplify_eq.
      * assert (c ≠ id) as Hci.
        { intros ->. apply D. assert (Z.to_nat j' = Z.to_nat j) by (eapply NoDup_lookup; eauto). lia. }
        apply (A pid P j' c r'); try done. congruence.
    + rewrite lookup_insert_ne in Hi by done. destruct (decide (c = id)) as [->|Hci].
      * destruct (t_kids _ _ _ T' i r id Hi) as (q1 & Hq1 & Hpar & _); [by eapply list_elem_of_lookup_2|].
        destruct (t_kids _ _ _ T' pid P id HP') as (q2 & Hq2 & Hpar2 & _); [by eapply list_elem_of_lookup_2|].
        simplify_eq.
      * apply (A i r j' c r'); try done. congruence.
  - intros i r j' Hi Hc' Hj'. apply (A i r j' pid P); try done. congruence.
Qed.

Lemma alike_set_nodes p q k v : alike (set_node k v p) q → alike p q.
Proof. intros H. eapply alike_trans; [apply alike_set_node|exact H]. Qed.

(** One page: its node is written, and then its path to the root. *)
Lemma page_propagated d id k v p :
  updatable d root n id k v p → ∃ p2 stop, let p1 := stamp now (set_node k v p) in
  propagate_nodes (Z.to_nat k) p1 k = Some (p2, stop) ∧ alike p p2 ∧ storable p2 ∧ exact p2 ∧
  (∀ i, leaf_start (header p) ≤ i → value_at p2 i = if decide (i = k) then v else value_at p i) ∧
  (stop = 0 ∨ value_at p2 0 = value_at p 0).
Proof.
  intros [T E Hp Hk Hv Hkids Hroot]. pose proof (E _ _ Hp) as Ep.
  pose proof (sh_store _ _ (t_page _ _ _ T _ _ Hp)) as Hst.
  pose proof (storable_set_node k v p Hst) as Hst1.
  (* The page that is read back is the new header with the same nodes. *)
  set (p0 := set_header (header (stamp now (set_node k v p))) p).
  destruct (stamp_storable now _ Hst1) as (Hst2 & Hs2 & Hn2 & Hc2).
  assert (stamp now (set_node k v p) = set_node k v p0) as Heq.
  { destruct (stamp now (set_node k v p)) as [h1 n1 c1] eqn:Es. cbn in Hn2, Hc2. unfold p0, set_node. cbn.
    by rewrite Hn2, Hc2. }
  rewrite Heq in Hst2 |- *.
  change (header (set_node k v p)) with (header p) in Hs2. change (shape (header p0) = shape (header p)) in Hs2.
  assert (alike p p0) as Ha0 by (split; [exact Hs2|done]).
  assert (exact p0) as E0 by (eapply exact_alike; [exact Ha0|done|exact Ep]).
  pose proof Hs2 as Hs2'. apply shape_eq in Hs2' as (Ht & _ & _ & _ & _ & Hnc & Hls).
  destruct (propagate_exact p0 k v E0 ltac:(rewrite Hls, Hnc; done) Hv)
    as (p2 & stop & Hrun & Ex & Hh & Hc & Hl & Hval & Hstop).
  exists p2, stop. cbv zeta. split; [exact Hrun|].
  assert (alike p p2) as Ha2 by (split; [by rewrite Hh|]; split; [by rewrite Hc|by rewrite Hl]).
  split; [done|]. split; [|split; [done|]; split; [|done]].
  - destruct Hst2 as [H1 H2 H3 H4 H5 H6]. change (header (set_node k v p0)) with (header p0) in *.
    change (child_page_ids (set_node k v p0)) with (child_page_ids p0) in *.
    assert (len (nodes (set_node k v p0)) = len (nodes p0)) as Hls2 by (unfold set_node, len; cbn; by rewrite length_insert).
    rewrite Hls2 in *. split; rewrite ?Hh, ?Hc, ?Hl; done.
  - intros i Hi. rewrite Hval by (by rewrite Hls). done.
Qed.

Lemma wp_update_node fuel id k v p d (Q : unit → SecFSM → Prop) s :
  updatable d root n id k v p → sys m n d ∅ s → Z.of_nat n - level (header p) ≤ Z.of_nat fuel →
  (∀ d' s', sys m n d' ∅ s' → fsm_tree d' root n →
     (∀ h w, records d' h w ↔ records (<[id := set_node k v p]> d) h w) → Q tt s') →
  wp (update_node_value fuel now id k v) Q s.
Proof.
  revert id k v p d s Q. induction fuel as [|fuel IH]; intros id k v p d s Q Hup Hs Hf HQ;
    pose proof Hup as [T E Hp Hk Hv Hkids Hroot].
  { pose proof (t_top _ _ _ T _ _ Hp). lia. }
  pose proof (E _ _ Hp) as Ep. pose proof (exact_start p Ep) as Hs0.
  pose proof (t_page _ _ _ T _ _ Hp) as Hok. pose proof (storable_set_node k v p (sh_store _ _ Hok)) as Hst1.
  cbn [update_node_value]. wp_step. eapply wp_fetch; [exact Hs|exact Hp|done|]. intros s1 H1 Hu1. cbv beta.
  destruct (lookup_lt_is_Some_2 (nodes p) (Z.to_nat k)) as [o Ho].
  { pose proof (ex_len _ Ep) as Hl. unfold len in Hl. lia. }
  rewrite Ho. wp_step. eapply wp_write_back; [exact H1|by apply Hu1|exact Hp|exact Hst1|]. intros s2 H2.
  cbv beta. wp_step. eapply wp_release; [exact H2|done|]. intros s3 H3. cbv beta.
  destruct (page_propagated d id k v p Hup) as (p2 & stop & Hrun & Ha & Hst2 & Ex2 & Hval & Hstop).
  unfold propagate_update. wp_step.
  eapply wp_fetch; [exact H3|by rewrite lookup_insert_eq|done|]. intros s4 H4 Hu4. cbv beta. rewrite Hrun.
  (* The tree after the second write. *)
  set (q := stamp now p2).
  destruct (stamp_storable now p2 Hst2) as (Hstq & Hsq & Hnq & Hcq).
  assert (alike p q) as Haq by (eapply alike_trans; [exact Ha|by apply alike_stamp]).
  assert (∀ i, value_at q i = value_at p2 i) as Hvq by (intros i; by apply value_at_stamp).
  assert (exact q) as Exq by (eapply exact_alike; [by apply alike_stamp|exact Hvq|exact Ex2]).
  destruct (page_settled d root n id k v p q Hup Haq Hstq Exq) as (T' & E' & A' & Hrec & Hdone).
  { intros i Hi. rewrite Hvq. by apply Hval. }
  assert (parent_page (header p2) = parent_page (header p)) as Hpar.
  { destruct Ha as (Hsh & _). by apply shape_eq in Hsh as (_ & ? & _). }
  rewrite Hpar. assert (<[id := q]> (<[id := stamp now (set_node k v p)]> d) = <[id := q]> d) as Hins
    by apply insert_insert_eq.
  destruct ((stop =? 0) && negb (parent_page (header p) =? 0)) eqn:Hgo.
  - apply andb_true_iff in Hgo as [Hz%Z.eqb_eq Hpz]. apply negb_true_iff, Z.eqb_neq in Hpz.
    assert (id ≠ root) as Hidr.
    { intros ->. destruct (t_root _ _ _ T) as (p' & Hp' & Hz' & _). simplify_eq. }
    destruct (t_parent _ _ _ T _ _ Hp Hidr) as (P & HP & Hin). set (pid := parent_page (header p)) in *.
    destruct (t_kids _ _ _ T _ _ _ HP Hin) as (p' & Hp' & _ & Hlev).
    assert (p' = p) as -> by congruence.
    assert (pid ≠ id) as Hne by (intros Heq; assert (P = p) as -> by congruence; lia).
    assert (is_leaf_page P = false) as HPl.
    { destruct (is_leaf_page P) eqn:HPl; [|done]. unfold is_leaf_page in HPl. apply Z.eqb_eq in HPl.
      destruct (st_type _ (sh_store _ _ (t_page _ _ _ T _ _ HP))) as [(Ht & _)|(_ & Hk')].
      - by rewrite HPl in Ht.
      - rewrite Hk' in Hin. by apply elem_of_nil in Hin. }
    pose proof (sh_store _ _ (t_page _ _ _ T _ _ HP)) as HstP.
    destruct (find_child P id HPl HstP Hin) as (j & Hj & Hj0 & Hcj).
    destruct (nodes p2) as [|rv l2] eqn:Hn2.
    { pose proof (ex_len _ Ex2) as Hl. pose proof (ex_leaves _ Ex2). pose proof (exact_start p2 Ex2).
      rewrite Hn2 in Hl. unfold len in Hl. cbn [length] in Hl. lia. }
    assert (value_at q 0 = rv) as Hrv by (rewrite Hvq; unfold value_at; by rewrite Hn2).
    wp_step. eapply wp_write_back; [exact H4|by apply Hu4|by rewrite lookup_insert_eq|exact Hst2|].
    intros s5 H5. fold q in H5; rewrite Hins in H5. cbv beta. wp_step. eapply wp_release; [exact H5|done|]. intros s6 H6.
    cbv beta. wp_step. assert (<[id := q]> d !! pid = Some P) as HP' by (by rewrite lookup_insert_ne).
    eapply wp_fetch; [exact H6|exact HP'|done|]. intros s7 H7 _. cbv beta zeta.
    rewrite (storable_ensure P HstP). wp_step. eapply wp_keep; [exact H7|]. intros s8 H8 _. cbv beta.
    rewrite Hj. pose proof (E _ _ HP) as EP. pose proof (exact_start P EP) as HsP.
    destruct (sh_kids _ _ (t_page _ _ _ T _ _ HP) HPl) as [HlenP _].
    assert (j < len (child_page_ids P)) as Hjl by (apply lookup_lt_Some in Hcj; unfold len; lia).
    pose proof (ex_len _ EP) as HlP. pose proof (ex_small _ EP) as HsmP.
    assert (u32 (leaf_start (header P) + j) = leaf_start (header P) + j) as ->
      by (unfold u32; rewrite Z.mod_small; lia).
    rewrite (proj2 (Z.ltb_lt (leaf_start (header P) + j) _)) by lia.
    destruct (lookup_lt_is_Some_2 (nodes P) (Z.to_nat (leaf_start (header P) + j))) as [pv Hpv];
      [unfold len in HlP; lia|]. rewrite Hpv.
    assert (leaf_value P j = pv) as Hlv by (unfold leaf_value, value_at; by rewrite Hpv).
    wp_step. eapply wp_release; [exact H8|done|]. intros s9 H9. cbv beta.
    destruct (Z.eqb_spec pv rv) as [Heq|Hneq]; cbn [negb].
    + wp_step. eapply HQ; [exact H9| |exact Hrec]. apply Hdone. right. left. rewrite Hrv, <- Heq, <- Hlv. by eapply Hroot.
    + pose proof (parent_updatable d id k v p q pid P j Hup Haq Hstq T' E' A' HP Hne HPl Hj0 Hcj) as Hup'.
      rewrite Hrv in Hup'. eapply IH; [exact Hup'|exact H9|lia|].
      intros d' s' Hs' Ht' Hrec'. eapply HQ; [exact Hs'|exact Ht'|]. intros h w. rewrite Hrec', <- Hrec.
      apply (records_insert _ pid P); [done|apply alike_set_node|]. by rewrite HPl.
  - wp_step. eapply wp_write_back; [exact H4|by apply Hu4|by rewrite lookup_insert_eq|exact Hst2|].
    intros s5 H5. fold q in H5; rewrite Hins in H5. cbv beta. eapply wp_release; [exact H5|done|]. intros s6 H6.
    eapply HQ; [exact H6| |exact Hrec]. apply Hdone. apply andb_false_iff in Hgo as [Hz%Z.eqb_neq|Hpz].
    + right. left. rewrite Hvq. by destruct Hstop.
    + apply negb_false_iff, Z.eqb_eq in Hpz. left. destruct (decide (id = root)); [done|].
      destruct (t_parent _ _ _ T _ _ Hp) as (P & HP & _); [done|]. rewrite Hpz in HP.
      pose proof (sh_id _ _ (t_page _ _ _ T _ _ HP)). lia.
Qed.

End update.
