(* ===== verification/FsmProtocol.v ===== *)
(** The free-space map of a table as a map from the table's pages to categories: each call of
    [SecFSM] does to the tree of pages what the map says, and leaves no page
    latched. *)

From S2P Require Import Prelude Common Bytes Record RecordPage FsmReplay FsmTree FsmPage FsmInv FsmUpdate.

(** The metadata are loaded, or will be by the first call. *)
Definition metadata (s : SecFSM) (m : buffer) : Prop :=
  (initialized_ s = true ∧ meta_ s = m) ∨
  (initialized_ s = false ∧ field 0 4 m = FSM_META_MAGIC ∧
   ∃ bs, pages s !! FSM_META_PAGE_ID = Some bs ∧ slice 0 sizeof_FSMMetaData bs = m).

(** Between calls the object stands for a map from pages of the table to categories. *)
Definition fsm_represents (s : SecFSM) (m : buffer) (space : gmap Z Z) : Prop :=
  metadata s m ∧ latches s = ∅ ∧
  ∃ d, backed (pages s) d ∧ fsm_tree d (root_page_id m) (size (pages s)) ∧
    (∀ h v, space !! h = Some v ↔ records d h v).

(** ** Single calls *)

Lemma sys_ready_state m s : metadata s m → latches s = ∅ →
  ∀ d (Q : unit → SecFSM → Prop), backed (pages s) d →
  (∀ s', sys m (size (pages s)) d ∅ s' → Q tt s') → wp make_ready Q s.
Proof.
  intros Hm HL d Q Hb HQ. unfold make_ready. do 2 wp_step.
  destruct Hm as [[Hi Hmeta]|(Hi & Hmagic & bs & Hbs & Hsl)]; rewrite Hi; cbn [negb when].
  - wp_step. apply HQ. by split.
  - wp_step. unfold fetch_meta, take_page, latch. repeat (wp_step; cbv beta). rewrite Hbs. repeat wp_step.
    rewrite HL, lookup_empty. cbn [negb when]. repeat wp_step. unfold deserialize_metadata. cbv zeta. rewrite Hsl, Hmagic, Z.eqb_refl.
    wp_step. cbv beta. wp_step. unfold release_page. repeat wp_step.
    cbn [latches set_meta set_latches]. rewrite lookup_insert_eq. cbn [Bool.eqb negb]. repeat wp_step.
    apply HQ. by split.
Qed.

Lemma represents_sys m d n s space :
  sys m n d ∅ s → fsm_tree d (root_page_id m) n → (∀ h v, space !! h = Some v ↔ records d h v) →
  fsm_represents s m space.
Proof.
  intros [Hb Hn Hm Hr HL] T Hrec. split; [by left|]. split; [done|]. exists d. by rewrite Hn.
Qed.

(** [make_ready] twice is as good as once. *)
Lemma wp_make_ready_then {A} m s d (k : MF A) (Q : A → SecFSM → Prop) :
  metadata s m → latches s = ∅ → backed (pages s) d →
  (∀ s', sys m (size (pages s)) d ∅ s' → wp k Q s') → wp (make_ready ;; k) Q s.
Proof. intros Hm HL Hb Hk. wp_step. eapply sys_ready_state; eauto. Qed.

Lemma ready_again m n d s : sys m n d ∅ s → make_ready s = Done (tt, s).
Proof. intros Hs. unfold make_ready, mbind, M_bind, gets. cbv beta iota. by rewrite (sys_ready _ _ _ _ _ Hs). Qed.

Definition found (space : gmap Z Z) (need h : Z) : Prop :=
  (h = NO_PAGE → ∀ h' v, space !! h' = Some v → v < space_to_category need) ∧
  (h ≠ NO_PAGE → ∃ v, space !! h = Some v ∧ space_to_category need ≤ v).

Lemma fsm_find_call m s space need :
  fsm_represents s m space →
  wp (find_free_page need) (λ h s', fsm_represents s' m space ∧ initialized_ s' = true ∧ found space need h) s.
Proof.
  intros (Hm & HL & d & Hb & T & Hrec).
  unfold find_free_page. eapply wp_make_ready_then; eauto. intros s' Hs'.
  pose proof (wp_find_free_page m (size (pages s)) d (root_page_id m) T need
    (λ h s', fsm_represents s' m space ∧ initialized_ s' = true ∧ found space need h) s' Hs' eq_refl) as H.
  unfold find_free_page in H. apply wp_bind_inv in H.
  assert (make_ready s' = Done (tt, s')) as Hr by (by eapply ready_again).
  unfold wp in H at 1. rewrite Hr in H. apply H.
  intros h s2 H2 Hnone Hsome. split; [by eapply represents_sys|]. split; [apply H2|]. split.
  - intros Hh h' v Hv. apply (Hnone Hh h'). by apply Hrec.
  - intros Hh. destruct (Hsome Hh) as (v & Hv & Hle). exists v. split; [by apply Hrec|done].
Qed.

(** A page that the map does not have stays out of it. *)
Definition told (space : gmap Z Z) (h category : Z) : gmap Z Z :=
  if decide (is_Some (space !! h)) then <[h := category]> space else space.

Lemma space_category_nonneg x : 0 ≤ space_to_category x.
Proof. unfold space_to_category, FsmSpaceToCategory, EMPTY, ALMOST_EMPTY, HALF_FULL, ALMOST_FULL, NO_SPACE. repeat case_match; lia. Qed.

(** The leaf page of [h] and the node in it. *)
Lemma table_page_node n d root id q h : fsm_tree d root n → d !! id = Some q → covers q h = true → 0 ≤ h < 2 ^ 32 →
  u32 (leaf_start (header q) + u32 (h - first_heap_page (header q))) =
    leaf_start (header q) + (h - first_heap_page (header q)) ∧
  leaf_start (header q) ≤ leaf_start (header q) + (h - first_heap_page (header q)) < node_count (header q) ∧
  is_Some (nodes q !! Z.to_nat (leaf_start (header q) + (h - first_heap_page (header q)))).
Proof.
  intros T Hq Hc Hh. pose proof (tr_exact _ _ _ T _ _ Hq) as E. pose proof (exact_start q E) as Hs0.
  pose proof (ex_len _ E) as Hl. pose proof (ex_small _ E) as Hsm.
  unfold covers in Hc. bool_simpl.
  destruct (sh_heap _ _ (t_page _ _ _ (tr_shaped _ _ _ T) _ _ Hq)) as (Hcnt & Hlow & Hmax); [done|].
  split_and!; try lia.
  - unfold u32. rewrite (Z.mod_small (h - _)) by lia. rewrite Z.mod_small; lia.
  - apply lookup_lt_is_Some_2. unfold len in Hl. lia.
Qed.

(** Every leaf's category is known: what a change of it needs. *)
Lemma leaf_updatable n d root id q k v : fsm_tree d root n → d !! id = Some q → is_leaf_page q = true →
  leaf_start (header q) ≤ k < node_count (header q) → 0 ≤ v → updatable d root n id k v q.
Proof.
  intros T Hq Hl Hk Hv. pose proof (t_page _ _ _ (tr_shaped _ _ _ T) _ _ Hq) as Hok.
  assert (child_page_ids q = []) as Hnil.
  { destruct (st_type _ (sh_store _ _ Hok)) as [(Ht & _)|(_ & ?)]; [|done].
    unfold is_leaf_page in Hl. by rewrite Ht in Hl. }
  split; try done; try apply T.
  - intros i r j c r' Hi Hc Hj Hr' Hx. destruct (decide (i = id)) as [->|Hne].
    + rewrite lookup_insert_eq in Hi. injection Hi as <-. cbn [child_page_ids set_node set_nodes] in Hc.
      change (child_page_ids (set_node k v q)) with (child_page_ids q) in Hc. by rewrite Hnil in Hc.
    + rewrite lookup_insert_ne in Hi, Hr' by congruence. eapply (tr_agrees _ _ _ T); eauto.
  - intros i P j HP Hc Hj. eapply (tr_agrees _ _ _ T); eauto.
Qed.

Lemma fsm_update_call m s space now h free :
  fsm_represents s m space → 0 ≤ h < 2 ^ 32 →
  wp (update_page_space now h free) (λ _ s', initialized_ s' = true ∧
    fsm_represents s' m (told space h (space_to_category free))) s.
Proof.
  intros (Hm & HL & d & Hb & T & Hrec) Hh. set (n := size (pages s)) in *. set (v := space_to_category free).
  unfold update_page_space. eapply wp_make_ready_then; eauto. fold n. intros s1 H1.
  wp_step. eapply (wp_find_leaf_page m n d _ T); [exact H1|done|].
  intros x s2 H2 [[Hx (q & Hq & Hc)]|[-> Hn]]; cbv beta.
  2:{ rewrite Z.eqb_refl. wp_step. split; [apply H2|]. unfold told. rewrite decide_False; [by eapply represents_sys|].
      intros [w Hw]. by apply Hrec, Hn in Hw. }
  rewrite (proj2 (Z.eqb_neq x NO_PAGE)) by done. wp_step. eapply wp_fetch; [exact H2|exact Hq|done|].
  intros s3 H3 _. cbv beta zeta.
  destruct (table_page_node n d _ x q h T Hq Hc Hh) as (-> & Hk & [o Ho]).
  rewrite (proj2 (Z.leb_gt (node_count (header q)) _)) by lia. rewrite Ho.
  wp_step. eapply wp_release; [exact H3|done|]. intros s4 H4. cbv beta.
  set (k := leaf_start (header q) + (h - first_heap_page (header q))) in *.
  assert (leaf_value q (h - first_heap_page (header q)) = o) as Hlv
    by (unfold leaf_value, value_at; fold k; by rewrite Ho).
  assert (space !! h = Some o) as Hsp by (apply Hrec; exists x, q; done).
  unfold told. rewrite decide_True by eauto. fold v. destruct (Z.eqb_spec v o) as [->|Hne]; cbn [negb].
  { wp_step. split; [apply H4|]. rewrite insert_id by done. by eapply represents_sys. }
  repeat wp_step. unfold fuel_for. rewrite (sys_size _ _ _ _ _ H4).
  assert (is_leaf_page q = true) as Hleaf by (unfold covers in Hc; by bool_simpl).
  assert (updatable d (root_page_id m) n x k v q) as Hup
    by (apply leaf_updatable; [done|done|done|lia|apply space_category_nonneg]).
  pose proof (sh_level _ _ (t_page _ _ _ (tr_shaped _ _ _ T) _ _ Hq)).
  eapply wp_update_node; [exact Hup|exact H4|lia|]. intros d' s' Hs' T' Hrec'. split; [apply Hs'|].
  eapply represents_sys; [exact Hs'|exact T'|]. intros h' w. rewrite Hrec'.
  rewrite (records_set d (root_page_id m) n x q (set_node k v q) h v);
    [|apply T|done|done|apply alike_set_node|].
  - case_decide as D; [subst h'; rewrite lookup_insert_eq; naive_solver|].
    rewrite lookup_insert_ne by done. apply Hrec.
  - intros j Hj. unfold leaf_value. change (header (set_node k v q)) with (header q).
    pose proof (tr_exact _ _ _ T _ _ Hq) as E. pose proof (exact_start q E). pose proof (ex_len _ E).
    rewrite value_at_set_node by lia. unfold k. repeat case_decide; lia || done.
Qed.

Lemma fsm_get_call m s space h :
  fsm_represents s m space → 0 ≤ h < 2 ^ 32 → (∀ h v, space !! h = Some v → h < total_heap_pages m) →
  wp (get_page_space h) (λ x s', fsm_represents s' m space ∧
    x = if initialized_ s then category_to_space (default NO_SPACE (space !! h)) else 0) s.
Proof.
  intros (Hm & HL & d & Hb & T & Hrec) Hh Htot. unfold get_page_space. repeat wp_step.
  - destruct Hm as [[Hi Hmm]|(Hi & Hr)].
    + split; [split; [by left|]; split; eauto|]. rewrite Hi, Hmm in *. cbn in *. bool_simpl.
      destruct (space !! h) as [v|] eqn:Hs; [|done]. apply Htot in Hs. lia.
    + split; [split; [by right|]; split; eauto|]. by rewrite Hi.
  - bool_simpl. destruct Hm as [[Hi Hmeta]|(Hi & _)]; [|congruence]. rewrite Hmeta in *.
    assert (sys m (size (pages s)) d ∅ s) as Hs by (by split). rewrite Hi.
    eapply (wp_find_leaf_page m _ d _ T); [exact Hs|done|].
    intros x s2 H2 [[Hx (q & Hq & Hc)]|[-> Hn]]; cbv beta.
    2:{ rewrite Z.eqb_refl. wp_step. split; [by eapply represents_sys|]. destruct (space !! h) as [v|] eqn:Hv; [|done].
        by apply Hrec, Hn in Hv. }
    rewrite (proj2 (Z.eqb_neq x NO_PAGE)) by done. wp_step. eapply wp_fetch; [exact H2|exact Hq|done|].
    intros s3 H3 _. cbv beta zeta.
    destruct (table_page_node _ d _ x q h T Hq Hc Hh) as (-> & Hk & [o Ho]).
    rewrite (proj2 (Z.leb_gt (node_count (header q)) _)) by lia. rewrite Ho.
    wp_step. eapply wp_release; [exact H3|done|]. intros s4 H4. cbv beta. wp_step.
    split; [by eapply represents_sys|]. assert (space !! h = Some o) as ->; [|done].
    apply Hrec. exists x, q. unfold leaf_value, value_at. by rewrite Ho.
Qed.

(** ** Sequences of calls *)

Inductive fsm_call :=
  | FindFreePage (need : Z)
  | UpdatePageSpace (now page free : Z).

Definition run_fsm_call (c : fsm_call) : MF Z :=
  match c with
  | FindFreePage need => find_free_page need
  | UpdatePageSpace now page free => update_page_space now page free ;; mret 0
  end.

Fixpoint run_fsm_calls (l : list fsm_call) : MF (list Z) :=
  match l with
  | [] => mret []
  | c :: l' => x ← run_fsm_call c ; xs ← run_fsm_calls l' ; mret (x :: xs)
  end.

(** What the map says about the answers. *)
Fixpoint fsm_answers (space : gmap Z Z) (l : list fsm_call) (xs : list Z) (final : gmap Z Z) : Prop :=
  match l, xs with
  | [], [] => final = space
  | FindFreePage need :: l', h :: xs' => found space need h ∧ fsm_answers space l' xs' final
  | UpdatePageSpace _ page free :: l', _ :: xs' =>
      fsm_answers (told space page (space_to_category free)) l' xs' final
  | _, _ => False
  end.

Definition fsm_call_ok (c : fsm_call) : Prop :=
  match c with FindFreePage _ => True | UpdatePageSpace _ page _ => 0 ≤ page < 2 ^ 32 end.

(** From a map of pages to categories any sequence of searches and updates goes as the map
    says. *)
Lemma fsm_calls_refine s m space l :
  fsm_represents s m space → Forall fsm_call_ok l →
  wp (run_fsm_calls l) (λ xs s', ∃ space', fsm_answers space l xs space' ∧ fsm_represents s' m space') s.
Proof.
  intros Hs Hl. revert s space Hs. induction Hl as [|c l Hc _ IH]; intros s space Hs; cbn [run_fsm_calls].
  { wp_step. by exists space. }
  wp_step. destruct c as [need|now page free]; cbn [run_fsm_call].
  - eapply wp_mono; [by apply fsm_find_call|]. intros h s1 (H1 & _ & Hf). cbv beta. wp_step.
    eapply wp_mono; [by apply IH|]. intros xs s2 (space' & Ha & H2). cbv beta. wp_step. by exists space'.
  - wp_step. eapply wp_mono; [by apply fsm_update_call|]. intros [] s1 (_ & H1). cbv beta. wp_step. wp_step.
    eapply wp_mono; [by apply IH|]. intros xs s2 (space' & Ha & H2). cbv beta. wp_step. by exists space'.
Qed.
