(* ===== verification/FsmReplayProtocol.v ===== *)
(** The replay of free-space records: a file with a free-space map is a map from pages of the table
    to categories, and a record is a change of it.  The path from the root to the leaf page is found,
    and the pages on it are written bottom up until a root does not change. *)

From S2P Require Import Prelude Common Bytes Record RecordPage DiskManager FsmReplay FsmTree FsmPage FsmInv FsmUpdate FsmProtocol.

Lemma serialize_same now p : SerializeFSMPage now p = snd (serialize_page now p (replicate (Z.to_nat PAGE_SIZE) 0)).
Proof.
  unfold SerializeFSMPage, serialize_page. change (if page_type (header p) =? INTERNAL_PAGE then _ else _) with (refresh_header p).
  cbv zeta. by case_match.
Qed.

(** The file has the pages of the tree behind its page of metadata. *)
Record map_pages (F : buffer) (m : buffer) (d : fsm_map) : Prop := {
  mp_meta : has_page F S_FSM_META_PAGE_ID ∧ slice 0 120 (page_of F S_FSM_META_PAGE_ID) = m;
  mp_page : ∀ id p, d !! id = Some p → 2 ≤ id ∧ has_page F id ∧ DeserializeFSMPage (page_of F id) = Some p
}.

(** Every page has inner nodes, so the root of a page is none of its leaves. *)
Definition branching (d : fsm_map) : Prop := ∀ id p, d !! id = Some p → 0 < leaf_start (header p).

Lemma branching_insert d id p p' : branching d → d !! id = Some p → alike p p' → branching (<[id := p']> d).
Proof.
  intros B Hp (Hs & _) i q Hi. apply shape_eq in Hs as (_ & _ & _ & _ & _ & _ & Hl).
  destruct (decide (i = id)) as [->|Hne].
  - rewrite lookup_insert_eq in Hi. injection Hi as <-. rewrite Hl. eauto.
  - rewrite lookup_insert_ne in Hi by done. eauto.
Qed.

Section replay.
Context (fd : Z) (name : path) (m : buffer) (now : Z).

Record holds (d : fsm_map) (dm : DiskManager) : Prop := {
  ho_fd : fds dm !! fd = Some name;
  ho_file : ∃ F, files dm !! name = Some F ∧ map_pages F m d
}.

Lemma wp_load_page d id p (Q : option S_FSMPageData → DiskManager → Prop) dm :
  holds d dm → d !! id = Some p → Q (Some p) dm → wp (LoadFSMPage fd id) Q dm.
Proof.
  intros [Hfd (F & HF & Hm)] Hp HQ. destruct (mp_page _ _ _ Hm _ _ Hp) as (_ & Hhas & Hdec).
  unfold LoadFSMPage. wp_step. eapply wp_read_whole_page; [done|done|done|]. cbv beta. rewrite Hdec. by wp_step.
Qed.

Lemma wp_store_page d id p p2 (Q : bool → DiskManager → Prop) dm :
  holds d dm → d !! id = Some p → storable p2 →
  (∀ dm', holds (<[id := stamp now p2]> d) dm' → Q true dm') → wp (StoreFSMPage now fd id p2) Q dm.
Proof.
  intros [Hfd (F & HF & Hm)] Hp Hst HQ. destruct (mp_page _ _ _ Hm _ _ Hp) as (H2 & Hhas & _).
  unfold StoreFSMPage. rewrite serialize_same.
  destruct (serialize_page_ok now p2 (replicate (Z.to_nat PAGE_SIZE) 0) Hst) as (bs & -> & Hlen & Hdec).
  { unfold len. rewrite length_replicate. done. }
  cbn [snd]. wp_step. eapply wp_write_page; [done|done|done|done|]. cbv beta. wp_step. apply HQ.
  split; [done|]. exists (set_page id bs F). split; [cbn; by rewrite lookup_insert_eq|].
  assert (∀ q, q ≠ id → has_page F q → has_page (set_page id bs F) q ∧ page_of (set_page id bs F) q = page_of F q) as Hother.
  { intros q Hq Hqh. split; [|apply page_of_set_page_other; try done; apply Hqh].
    destruct Hhas, Hqh. unfold has_page, set_page, PAGE_SIZE in *. rewrite len_splice; lia. }
  split.
  - destruct (mp_meta _ _ _ Hm) as [H1 <-]. destruct (Hother S_FSM_META_PAGE_ID) as [? ->]; [unfold S_FSM_META_PAGE_ID; lia|done|done].
  - intros i q Hi. destruct (decide (i = id)) as [->|Hne].
    + rewrite lookup_insert_eq in Hi. injection Hi as <-. split; [done|]. split; [|by rewrite page_of_set_page].
      destruct Hhas. unfold has_page, set_page, PAGE_SIZE in *. rewrite len_splice; lia.
    + rewrite lookup_insert_ne in Hi by done. destruct (mp_page _ _ _ Hm _ _ Hi) as (? & Hh & ?).
      destruct (Hother i Hne Hh) as [? ->]. done.
Qed.

(** ** The path to the leaf page *)

(** Pages from [id] downwards, the last one a leaf page with page [h] of the table. *)
Fixpoint leads (d : fsm_map) (h id : Z) (l : FsmPath) : Prop :=
  match l with
  | [] => False
  | (i, p) :: rest => i = id ∧ d !! i = Some p ∧
      match rest with
      | [] => covers p h = true
      | (c, _) :: _ => c ∈ child_page_ids p ∧ leads d h c rest
      end
  end.

(** Pages from the parent of [id] upwards to the root. *)
Fixpoint climbs (d : fsm_map) (root lev id : Z) (above : FsmPath) : Prop :=
  match above with
  | [] => id = root
  | (i, p) :: rest => d !! i = Some p ∧ id ∈ child_page_ids p ∧ lev < level (header p) ∧
      climbs d root (level (header p)) i rest
  end.

Lemma climbs_insert d root lev id above x p q :
  d !! x = Some p → level (header p) ≤ lev → climbs d root lev id above → climbs (<[x := q]> d) root lev id above.
Proof.
  intros Hx. revert lev id. induction above as [|[i r] rest IH]; intros lev id Hlev; [done|].
  cbn [climbs]. intros (Hi & Hin & Hlt & Hc). split_and!; [|done|done|].
  - rewrite lookup_insert_ne; [done|]. intros ->. assert (r = p) as -> by congruence. lia.
  - apply IH; [lia|done].
Qed.

(** The path read from its end. *)
Lemma leads_reverse d root n h id l acc :
  shaped d root n → leads d h id l →
  (∀ p, d !! id = Some p → climbs d root (level (header p)) id acc) →
  ∃ i p above, reverse l ++ acc = (i, p) :: above ∧ d !! i = Some p ∧ covers p h = true ∧
    climbs d root (level (header p)) i above.
Proof.
  intros T. revert id acc. induction l as [|[i p] rest IH]; intros id acc Hl Hacc; [done|].
  destruct Hl as (-> & Hp & Hrest). rewrite reverse_cons, <- app_assoc. cbn [app].
  destruct rest as [|[c q] rest].
  - exists id, p, acc. cbn. auto.
  - destruct Hrest as [Hin Hrest]. apply (IH c); [done|]. intros r Hr.
    destruct (t_kids _ _ _ T _ _ _ Hp Hin) as (r' & Hr' & _ & Hlev). assert (r' = r) as -> by congruence.
    cbn [climbs]. auto.
Qed.

Lemma leads_head d h id l : leads d h id l → ∃ p rest, l = (id, p) :: rest.
Proof. destruct l as [|[i p] rest]; [done|]. intros (-> & _). eauto. Qed.

Definition path_answer (d : fsm_map) (h id : Z) (r : option FsmPath) (none : Prop) : Prop :=
  (∃ l, r = Some l ∧ leads d h id l) ∨ (r = None ∧ none).

Lemma wp_first_path d rec h kids (Q : option FsmPath → DiskManager → Prop) dm :
  (∀ c R, c ∈ kids → (∀ r, path_answer d h c r (none_under d h c) → R r dm) → wp (rec c) R dm) →
  (∀ c l, c ∈ kids → leads d h c l → Q (Some l) dm) →
  ((∀ c, c ∈ kids → none_under d h c) → Q None dm) →
  wp (first_path rec kids) Q dm.
Proof.
  induction kids as [|c kids IH]; intros Hrec Hsome Hnone; cbn [first_path].
  { wp_step. apply Hnone. intros c Hc. by apply elem_of_nil in Hc. }
  wp_step. apply Hrec; [by left|]. intros r [(l & -> & Hl)|[-> Hn]]; cbv beta iota.
  - wp_step. apply (Hsome c); [by left|done].
  - apply IH.
    + intros c' R Hc'. apply Hrec. by right.
    + intros c' l Hc'. apply Hsome. by right.
    + intros Hrest. apply Hnone. intros c' [->|Hc']%elem_of_cons; auto.
Qed.

Lemma wp_build_path n d root (T : fsm_tree d root n) fuel id p h (Q : option FsmPath → DiskManager → Prop) dm :
  holds d dm → d !! id = Some p → level (header p) < Z.of_nat fuel →
  (∀ r, path_answer d h id r (none_under d h id) → Q r dm) → wp (BuildPathToLeaf fuel fd h id) Q dm.
Proof.
  intros Hd. revert id p Q. induction fuel as [|fuel IH]; intros id p Q Hp Hf HQ;
    pose proof (t_page _ _ _ (tr_shaped _ _ _ T) _ _ Hp) as Hok.
  { pose proof (sh_level _ _ Hok). lia. }
  cbn [BuildPathToLeaf]. wp_step. eapply wp_load_page; [exact Hd|exact Hp|]. cbv beta iota zeta.
  change (page_type (header p) =? LEAF_PAGE) with (is_leaf_page p). destruct (is_leaf_page p) eqn:Hleaf.
  - wp_step. pose proof (covers_code p h id Hok Hleaf) as ->. apply HQ.
    pose proof (leaf_answers d h id p Hp Hok Hleaf) as Ha. destruct (covers p h) eqn:Hc.
    + left. eexists. split; [done|]. cbn. done.
    + right. split; [done|]. destruct Ha as [[Hne _]|[_ Hn]]; done.
  - rewrite (storable_ensure p (sh_store _ _ Hok)). wp_step. eapply (wp_first_path d _ h).
    + intros c R Hc HR. destruct (t_kids _ _ _ (tr_shaped _ _ _ T) _ _ _ Hp Hc) as (q & Hq & _ & Hlev).
      eapply IH; [exact Hq|lia|exact HR].
    + intros c l Hc Hl. wp_step. apply HQ. left. eexists. split; [done|].
      destruct (leads_head _ _ _ _ Hl) as (q & rest & ->). cbn [leads]. cbn [leads] in Hl. done.
    + intros Hn. wp_step. apply HQ. right. split; [done|].
      assert (leaf_answer d h NO_PAGE (none_under d h id)) as [[Hne _]|[_ ?]]; [|done|done].
      apply (inner_answers d h id p); [done|done|]. by right.
Qed.

(** ** From the leaf page to the root *)

(** The page with its new category, as the replay leaves it. *)
Lemma page_recomputed d root n id k v p :
  updatable d root n id k v p → branching d →
  ∃ p2, RecomputeWithinPage (set_node k v p) k = Some (p2, negb (value_at p2 0 =? value_at p 0)) ∧
    alike p p2 ∧ storable p2 ∧ exact p2 ∧ root_value p2 = value_at p2 0 ∧
    (∀ i, leaf_start (header p) ≤ i → value_at p2 i = if decide (i = k) then v else value_at p i).
Proof.
  intros [T E Hp Hk Hv _ _] B. specialize (B _ _ Hp). pose proof (E _ _ Hp) as Ep.
  destruct (propagate_exact p k v Ep Hk Hv) as (p2 & stop & Hrun & Ex & Hh & Hc & Hl & Hval & _).
  pose proof (propagate_recompute (Z.to_nat k) (set_node k v p) k) as Hr. rewrite Hrun in Hr. cbn in Hr.
  assert (∀ r, len (nodes r) = len (nodes p) → root_value r = value_at r 0 ∧ nodes r ≠ []) as Hroot.
  { pose proof (ex_len _ Ep). intros r Hlr. unfold root_value, value_at, len in *. destruct (nodes r); [simpl in *; lia|done]. }
  destruct (Hroot p2 Hl) as [Hr2 Hn2].
  destruct (Hroot (set_node k v p)) as [Hr1 _]; [by destruct (alike_set_node k v p) as (_ & _ & ?)|].
  exists p2. split_and!; try done.
  - unfold RecomputeWithinPage. rewrite <- Hr. cbn. rewrite bool_decide_eq_true_2 by done.
    rewrite Hr1, Hr2, value_at_set_node by (pose proof (ex_len _ Ep); lia). by rewrite decide_False by lia.
  - unfold alike. by rewrite Hh.
  - pose proof (sh_store _ _ (t_page _ _ _ T _ _ Hp)) as [H1 H2 H3 H4 H5 H6]. split; rewrite ?Hh, ?Hc, ?Hl; done.
Qed.

(** What [ApplyFsmUpdate] and the rounds of its loop do with a page whose node has got a new value. *)
Definition settle (above : FsmPath) (id k v : Z) (p : S_FSMPageData) : MD bool :=
  match RecomputeWithinPage (set_node k v p) k with
  | None => crash OutOfBounds
  | Some (p, root_changed) =>
      ok ← StoreFSMPage now fd id p ;
      if negb ok then mret false
      else if (root_changed : bool) then propagate now fd above id (root_value p) else mret true
  end.

Lemma wp_settle root n above id k v p d (Q : bool → DiskManager → Prop) dm :
  updatable d root n id k v p → branching d → climbs d root (level (header p)) id above → holds d dm →
  (∀ d' dm', holds d' dm' → fsm_tree d' root n → branching d' → size d' = size d →
     (∀ h w, records d' h w ↔ records (<[id := set_node k v p]> d) h w) → Q true dm') →
  wp (settle above id k v p) Q dm.
Proof.
  revert id k v p d Q dm. induction above as [|[pid P] above IH]; intros id k v p d Q dm Hup B Hcl Hd HQ;
    pose proof Hup as [T E Hp Hk Hv Hkids Hroot];
    destruct (page_recomputed d root n id k v p Hup B) as (p2 & Hrun & Ha & Hst2 & Ex2 & Hrv & Hval);
    unfold settle; rewrite Hrun;
    (wp_step; eapply wp_store_page; [exact Hd|exact Hp|exact Hst2|]; intros dm1 H1; cbv beta; cbn [negb]);
    destruct (stamp_storable now p2 Hst2) as (Hstq & _);
    (assert (∀ i, value_at (stamp now p2) i = value_at p2 i) as Hvq by (intros i; by apply value_at_stamp));
    (assert (exact (stamp now p2)) as Exq by (eapply exact_alike; [by apply alike_stamp|exact Hvq|exact Ex2]));
    (assert (alike p (stamp now p2)) as Haq by (eapply alike_trans; [exact Ha|by apply alike_stamp]));
    set (q := stamp now p2) in *;
    (destruct (page_settled d root n id k v p q Hup Haq Hstq Exq) as (T' & E' & A' & Hrec & Hdone);
      [intros i Hi; rewrite Hvq; by apply Hval|]);
    pose proof (branching_insert d id p q B Hp Haq) as B';
    (assert (size (<[id := q]> d) = size d) as Hsz by (apply map_size_insert_Some; eauto));
    rewrite <- (Hvq 0); rewrite <- (Hvq 0) in Hrv.
  - cbn [propagate climbs] in *. destruct (Z.eqb_spec (value_at q 0) (value_at p 0)); cbn [negb]; wp_step;
      (eapply HQ; [exact H1|apply Hdone; by left|exact B'|exact Hsz|exact Hrec]).
  - destruct Hcl as (HP & Hin & Hlev & Hcl).
    destruct (Z.eqb_spec (value_at q 0) (value_at p 0)) as [Heq|Hchg]; cbn [negb].
    { wp_step. eapply HQ; [exact H1|apply Hdone; by right; left|exact B'|exact Hsz|exact Hrec]. }
    cbn [propagate].
    assert (pid ≠ id) as Hne by (intros ->; assert (P = p) as -> by congruence; lia).
    pose proof (sh_store _ _ (t_page _ _ _ T _ _ HP)) as HstP. rewrite (storable_ensure P HstP).
    assert (is_leaf_page P = false) as HPl.
    { destruct (is_leaf_page P) eqn:HPl; [|done]. unfold is_leaf_page in HPl. apply Z.eqb_eq in HPl.
      destruct (st_type _ HstP) as [(Ht & _)|(_ & Hk')]; [by rewrite HPl in Ht|].
      rewrite Hk' in Hin. by apply elem_of_nil in Hin. }
    destruct (find_child P id HPl HstP Hin) as (j & -> & Hj0 & Hcj).
    pose proof (E _ _ HP) as EP. pose proof (exact_start P EP) as HsP.
    destruct (sh_kids _ _ (t_page _ _ _ T _ _ HP) HPl) as [HlenP _].
    assert (j < len (child_page_ids P)) as Hjl by (apply lookup_lt_Some in Hcj; unfold len; lia).
    pose proof (ex_len _ EP) as HlP. pose proof (ex_small _ EP) as HsmP.
    assert (u32 (leaf_start (header P) + j) = leaf_start (header P) + j) as ->
      by (unfold u32; rewrite Z.mod_small; lia).
    rewrite (proj2 (Z.leb_gt (node_count (header P)) _)) by lia.
    destruct (lookup_lt_is_Some_2 (nodes P) (Z.to_nat (leaf_start (header P) + j))) as [pv Hpv];
      [unfold len in HlP; lia|]. rewrite Hpv.
    assert (leaf_value P j = pv) as Hlv by (unfold leaf_value, value_at; by rewrite Hpv).
    rewrite Hrv. destruct (Z.eqb_spec pv (value_at q 0)) as [Heq|Hneq].
    { wp_step. eapply HQ; [exact H1| |exact B'|exact Hsz|exact Hrec]. destruct Hchg.
      rewrite <- Heq, <- Hlv. eapply Hroot; eauto. }
    assert (<[id := q]> d !! pid = Some P) as HP' by (by rewrite lookup_insert_ne).
    pose proof (parent_updatable n root d id k v p q pid P j Hup Haq Hstq T' E' A' HP Hne HPl Hj0 Hcj) as Hup'.
    apply (IH _ _ _ _ (<[id := q]> d)); [exact Hup'|exact B'| |exact H1|].
    + eapply climbs_insert; [exact Hp|lia|exact Hcl].
    + intros d' dm' Hd' Ht' Bd' Hsz' Hrec'. eapply HQ; [exact Hd'|exact Ht'|exact Bd'|congruence|].
      intros h w. rewrite Hrec', <- Hrec. apply (records_insert _ pid P); [done|apply alike_set_node|]. by rewrite HPl.
Qed.

End replay.

(** The file holds a tree that stands for the map; [m] are its metadata. *)
Definition map_file (F m : buffer) (space : gmap Z Z) (d : fsm_map) : Prop :=
  map_pages F m d ∧ field 0 4 m = FSM_META_MAGIC ∧ fsm_tree d (root_page_id m) (size d) ∧
  ∀ h v, space !! h = Some v ↔ records d h v.

(** The file with the map, as the disk manager has it open. *)
Definition map_open (fd : Z) (name : path) (m : buffer) (space : gmap Z Z) (d : fsm_map) (dm : DiskManager) : Prop :=
  fds dm !! fd = Some name ∧ ∃ F, files dm !! name = Some F ∧ map_file F m space d.

Lemma map_open_holds fd name m space d dm :
  map_open fd name m space d dm ↔ holds fd name m d dm ∧ field 0 4 m = FSM_META_MAGIC ∧
    fsm_tree d (root_page_id m) (size d) ∧ (∀ h v, space !! h = Some v ↔ records d h v).
Proof.
  split.
  - intros (Hfd & F & HF & Hm & Hmag & T & Hrec). split_and!; [split; eauto|done..].
  - intros ([Hfd (F & HF & Hm)] & Hmag & T & Hrec). split; [done|]. exists F. done.
Qed.

Lemma meta_field_page F m d off n : map_pages F m d → 0 ≤ off → 0 ≤ n → off + n ≤ 120 →
  field off n (page_of F S_FSM_META_PAGE_ID) = field off n m.
Proof.
  intros [[Hp <-] _] H1 H2 H3. unfold field. f_equal. pose proof (len_page_of _ _ Hp) as Hl. unfold PAGE_SIZE in Hl.
  rewrite slice_slice by lia. by rewrite Z.add_0_l.
Qed.

Lemma wp_apply_update now fuel fd name m space d h free (Q : bool → DiskManager → Prop) dm :
  map_open fd name m space d dm → branching d → (size d ≤ fuel)%nat → 0 ≤ h < 2 ^ 32 →
  (∀ d' dm', map_open fd name m (told space h (space_to_category free)) d' dm' → branching d' → size d' = size d →
     Q (bool_decide (is_Some (space !! h))) dm') →
  wp (ApplyFsmUpdate now fuel fd h free) Q dm.
Proof.
  intros Hopen B Hfuel Hh HQ. pose proof Hopen as (Hhold & Hmag & T & Hrec)%map_open_holds.
  pose proof Hhold as [Hfd (F & HF & Hm)]. pose proof (mp_meta _ _ _ Hm) as [Hp1 _].
  unfold ApplyFsmUpdate. wp_step. eapply wp_read_whole_page; [done|done|done|]. cbv beta.
  rewrite !(meta_field_page F m d) by (done || lia). rewrite Hmag. cbn [negb]. rewrite Z.eqb_refl. cbn [negb].
  destruct (t_root _ _ _ (tr_shaped _ _ _ T)) as (r & Hr & _). change (field 20 4 m) with (root_page_id m).
  pose proof (t_top _ _ _ (tr_shaped _ _ _ T) _ _ Hr) as Htop.
  wp_step. eapply (wp_build_path fd name m (size d) d _ T); [exact Hhold|exact Hr|lia|].
  intros x [(l & -> & Hl)|[-> Hn]]; cbv beta; cbn [fmap option_fmap option_map].
  2:{ assert (space !! h = None) as Hsp.
      { destruct (space !! h) as [w|] eqn:E; [|done]. by apply Hrec, (none_recorded _ _ _ _ (tr_shaped _ _ _ T) Hn) in E. }
      wp_step. specialize (HQ d dm). rewrite bool_decide_eq_false_2 in HQ by (rewrite Hsp; by intros [? ?]).
      apply HQ; [|done|done]. unfold told. rewrite decide_False; [done|]. rewrite Hsp. by intros [? ?]. }
  destruct (leads_reverse d _ _ h _ l [] (tr_shaped _ _ _ T) Hl) as (x & q & above & Hrev & Hq & Hc & Hcl);
    [done|]. rewrite app_nil_r in Hrev. rewrite Hrev.
  destruct (table_page_node _ d _ x q h T Hq Hc Hh) as (-> & Hk & [o Ho]).
  rewrite (proj2 (Z.leb_gt (node_count (header q)) _)) by lia. rewrite Ho.
  set (k := leaf_start (header q) + (h - first_heap_page (header q))) in *.
  assert (leaf_value q (h - first_heap_page (header q)) = o) as Hlv
    by (unfold leaf_value, value_at; fold k; by rewrite Ho).
  assert (space !! h = Some o) as Hsp by (apply Hrec; exists x, q; done).
  rewrite bool_decide_eq_true_2 in HQ by eauto. unfold told in HQ. rewrite decide_True in HQ by eauto.
  change (FsmSpaceToCategory free) with (space_to_category free).
  set (v := space_to_category free) in *. destruct (Z.eqb_spec v o) as [->|Hne].
  { wp_step. apply (HQ d); [|done|done]. by rewrite insert_id. }
  assert (updatable d (root_page_id m) (size d) x k v q) as Hup.
  { apply leaf_updatable; [done|done| |lia|apply space_category_nonneg]. unfold covers in Hc. by bool_simpl. }
  apply (wp_settle fd name m now (root_page_id m) (size d) above x k v q d); [done..|].
  intros d' dm' Hd' T' B' Hsz Hrec'. apply (HQ d'); [|done|done]. apply map_open_holds.
  split_and!; [done|done|by rewrite Hsz|]. intros h' w. rewrite Hrec'.
  rewrite (records_set d (root_page_id m) (size d) x q (set_node k v q) h v);
    [|apply T|done|done|apply alike_set_node|].
  - case_decide as D; [subst h'; rewrite lookup_insert_eq; naive_solver|].
    rewrite lookup_insert_ne by done. apply Hrec.
  - intros j Hj. unfold leaf_value. change (header (set_node k v q)) with (header q).
    pose proof (tr_exact _ _ _ T _ _ Hq) as E. pose proof (exact_start q E). pose proof (ex_len _ E).
    rewrite value_at_set_node by lia. unfold k. repeat case_decide; lia || done.
Qed.

(** ** Many records, and the node that reads the file afterwards *)

(** The free-space records of a log, one after the other; what a call answers is not looked at
    ([LogReplay.apply_single_log]). *)
Definition replay_updates (now : Z) (fuel : nat) (fd : Z) (updates : list (Z * Z)) : MD unit :=
  for_each (λ '(h, free_space), ApplyFsmUpdate now fuel fd h free_space ;; mret tt) updates.

(** Page numbers with the free space of the pages. *)
Definition counted (space : gmap Z Z) (free : list (Z * Z)) : gmap Z Z :=
  foldl (λ sp '(i, free_space), told sp i (space_to_category free_space)) space free.

Lemma wp_replay_updates now fuel fd name m updates space d (Q : unit → DiskManager → Prop) dm :
  map_open fd name m space d dm → (updates = [] ∨ branching d) → (size d ≤ fuel)%nat →
  Forall (λ '(h, _), 0 ≤ h < 2 ^ 32) updates →
  (∀ d' dm', map_open fd name m (counted space updates) d' dm' → Q tt dm') →
  wp (replay_updates now fuel fd updates) Q dm.
Proof.
  intros Hopen B Hfuel Hall HQ. unfold replay_updates.
  apply (wp_for_each _ (λ rest dm', ∃ sp d', map_open fd name m sp d' dm' ∧ (rest = [] ∨ branching d') ∧
    (size d' ≤ fuel)%nat ∧ Forall (λ '(h, _), 0 ≤ h < 2 ^ 32) rest ∧ counted sp rest = counted space updates)).
  - exists space, d. done.
  - intros [h free] rest dm' (sp & d' & Ho & Hb & Hf & Hr & Heq). inversion Hr as [|? ? Hh Hrest]; subst.
    destruct Hb as [|Hb]; [done|]. wp_step. eapply wp_apply_update; [exact Ho|exact Hb|exact Hf|exact Hh|].
    intros d2 dm2 Ho2 Hb2 Hs2. cbv beta. wp_step. eexists _, d2. split; [exact Ho2|]. split; [by right|].
    split; [lia|]. done.
  - intros dm' (sp & d' & Ho & _ & _ & _ & Heq). cbn in Heq. subst sp. by eapply HQ.
Qed.

(** A compute node that has not used the map yet and gets its pages from the file. *)
Definition fetches (n : SecFSM) (F : buffer) : Prop :=
  FsmTree.initialized_ n = false ∧ latches n = ∅ ∧ ∀ id, has_page F id → pages n !! id = Some (page_of F id).

Lemma fetched_represents F m space d n : map_file F m space d → fetches n F → fsm_represents n m space.
Proof.
  intros ([[Hp1 Hm] Hpages] & Hmag & [T E A] & Hrec) (Hn1 & Hn2 & Hn3).
  split; [right; split; [done|]; split; [done|]; eexists; split; [by apply Hn3|done]|]. split; [done|].
  assert (size d ≤ size (pages n))%nat as Hsize.
  { rewrite <- !(size_dom (D := gset Z)). apply subseteq_size. intros id [p Hp]%elem_of_dom.
    destruct (Hpages _ _ Hp) as (_ & Hhas & _). apply elem_of_dom. rewrite Hn3 by done. eauto. }
  exists d. split; [|split; [|exact Hrec]].
  - intros id p Hp. destruct (Hpages _ _ Hp) as (_ & Hhas & Hdec). exists (page_of F id).
    split; [by apply Hn3|]. split; [by apply len_page_of|done].
  - split; [by eapply shaped_more|done|done].
Qed.

(** Every page of the map in the file has inner nodes. *)
Definition branching_file (F : buffer) : Prop :=
  ∀ id p, 2 ≤ id → has_page F id → DeserializeFSMPage (page_of F id) = Some p → 0 < leaf_start (header p).

Lemma branching_pages F m space d : map_file F m space d → branching_file F → branching d.
Proof.
  intros (Hm & _) B id p Hp. destruct (mp_page _ _ _ Hm _ _ Hp) as (H2 & Hhas & Hdec). by eapply B.
Qed.

(** A file does not hold more pages of the map than it has. *)
Lemma pages_bound F m space d : map_file F m space d → Z.of_nat (size d) ≤ len F / PAGE_SIZE.
Proof.
  intros (Hm & _). rewrite <- (size_dom (D := gset Z)). pose proof (len_nonneg F).
  assert (dom d ⊆ list_to_set (seqZ 0 (len F / PAGE_SIZE))) as Hsub.
  { intros id [p Hp]%elem_of_dom. destruct (mp_page _ _ _ Hm _ _ Hp) as (H2 & [_ Hhas] & _).
    apply elem_of_list_to_set, elem_of_seqZ. enough (id + 1 ≤ len F / PAGE_SIZE) by lia. apply Z.div_le_lower_bound; [done|]. lia. }
  apply subseteq_size in Hsub. rewrite size_list_to_set in Hsub by apply NoDup_seqZ.
  rewrite length_seqZ in Hsub. assert (0 ≤ len F / PAGE_SIZE) by (by apply Z.div_pos). lia.
Qed.
