(* ===== verification/SFsm.v ===== *)
(** The free-space map on the storage node: [S_SecFSM] of [core/storage/fsm_tree/s_fsm_tree.h] and
    [s_fsm_tree.cc], which builds the map when a table is created or loaded, records what is free
    and writes the pages into the map's file, where the compute nodes find them.

    The pages are kept in memory, with a mark on those to be written.  What the search
    within a page, the conversions and the format are is the same code as on the
    compute nodes ([FsmTree]).  The buffer pool appears as the pages that it can
    fetch; [now] is [time(nullptr)]. *)

From S2P Require Import Prelude Common Bytes Record RecordPage DiskManager FsmReplay FsmTree.

Definition S_FSM_ROOT_PAGE_ID : Z := 2.
Definition S_LEAVES_PER_PAGE : Z := 1024.
Definition S_CHILDREN_PER_PAGE : Z := 512.

Definition tree_height (m : buffer) : Z := field 16 4 m.
Definition next_fsm_page_id (m : buffer) : Z := field 24 4 m.
Definition total_fsm_pages (m : buffer) : Z := field 12 4 m.
Definition meta_table_id (m : buffer) : Z := sint 4 (field 48 4 m).

(** ** Pages as they are made *)

(** The height of the smallest complete tree with room for the leaves. *)
Fixpoint needed_height (fuel : nat) (height max_leaves leaves_needed : Z) : Z :=
  if max_leaves <? leaves_needed then
    match fuel with
    | O => height
    | S fuel' => needed_height fuel' (height + 1) (Z.shiftl 1 (height + 1 - 1)) leaves_needed
    end
  else height.

Definition first_leaf (leaves_needed : Z) : Z :=
  Z.shiftl 1 (needed_height (Z.to_nat leaves_needed) 1 1 leaves_needed - 1) - 1.

(** [calculate_leaf_structure] and [calculate_internal_structure] *)
Definition calculate_structure (leaves_needed : Z) (h : buffer) : buffer :=
  set_field 36 4 (first_leaf leaves_needed + leaves_needed) (set_field 40 4 (first_leaf leaves_needed) h).

(** The bytes that are not set are the zeros of [blank]; the timestamp is set when the page is
    written. *)
Definition blank : buffer := set_field 0 4 FSM_PAGE_MAGIC (replicate (Z.to_nat sizeof_S_FSMPageHeader) 0).

Definition page_header (page_id type parent_id level first count child children : Z) : buffer :=
  set_field 32 4 children (set_field 28 4 child (set_field 24 4 count (set_field 20 4 first
    (set_field 16 4 level (set_field 12 4 parent_id (set_field 8 1 type (set_field 4 4 page_id blank))))))).

Definition fresh_nodes (h : buffer) : list Z := replicate (Z.to_nat (node_count h)) NO_SPACE.

Definition initialize_leaf_page (page_id parent_id level first_heap_page heap_pages_count : Z) : S_FSMPageData :=
  let h := calculate_structure heap_pages_count
             (page_header page_id LEAF_PAGE parent_id level first_heap_page heap_pages_count 0 0) in
  mkFsmPage h (fresh_nodes h) [].

Definition initialize_internal_page (page_id parent_id level : Z) (child_pages : list Z) : S_FSMPageData :=
  let h := calculate_structure (len child_pages)
             (page_header page_id INTERNAL_PAGE parent_id level 0 0 (default 0 (head child_pages)) (len child_pages)) in
  mkFsmPage h (fresh_nodes h) child_pages.

Definition set_parent (parent_id : Z) (p : S_FSMPageData) : S_FSMPageData :=
  set_header (set_field 12 4 parent_id (header p)) p.

(** ** The object *)

Module S_Fsm.

Record S_SecFSM := mkFsm {
  dm_ : DiskManager;
  buffer_pool_ : gmap Z buffer;
  fsm_file : path;                             (* [tableid2tableName(meta_.table_id)] *)
  meta_ : buffer;
  fsm_pages_ : gmap Z (S_FSMPageData * bool);  (* with [is_dirty] *)
  initialized_ : bool
}.

Abbreviation MS := (M S_SecFSM).

Definition set_dm x s := mkFsm x (buffer_pool_ s) (fsm_file s) (meta_ s) (fsm_pages_ s) (initialized_ s).
Definition set_meta x s := mkFsm (dm_ s) (buffer_pool_ s) (fsm_file s) x (fsm_pages_ s) (initialized_ s).
Definition set_fsm_pages x s := mkFsm (dm_ s) (buffer_pool_ s) (fsm_file s) (meta_ s) x (initialized_ s).
Definition set_initialized x s := mkFsm (dm_ s) (buffer_pool_ s) (fsm_file s) (meta_ s) (fsm_pages_ s) x.

Definition set_meta_field (off : Z) (w : nat) (v : Z) : MS unit :=
  modify (λ s, set_meta (set_field off w v (meta_ s)) s).

Definition on_disk {A} (m : MD A) : MS A := zoom dm_ set_dm m.

Definition new_S_SecFSM (dm : DiskManager) (pool : gmap Z buffer) (file : path) (table_id : Z) (reserved : buffer) :
    S_SecFSM :=
  mkFsm dm pool file (new_meta table_id reserved) ∅ false.

(** ** Building *)

Definition allocate_fsm_page : MS Z :=
  m ← gets meta_ ;
  let page_id := u32 (next_fsm_page_id m + 1) in
  let page_id := if page_id <? S_FSM_ROOT_PAGE_ID then S_FSM_ROOT_PAGE_ID else page_id in
  set_meta_field 24 4 page_id ;;
  set_meta_field 12 4 (u32 (total_fsm_pages m + 1)) ;;
  mret page_id.

Definition put_page (page_id : Z) (p : S_FSMPageData) : MS unit :=
  modify (λ s, set_fsm_pages (<[page_id := (p, true)]> (fsm_pages_ s)) s).

Definition get_page (page_id : Z) : MS (option S_FSMPageData) :=
  ps ← gets fsm_pages_ ; mret (fst <$> ps !! page_id).

Definition adopt (parent_page_id child_page_id : Z) : MS unit :=
  it ← get_page child_page_id ;
  match it with
  | Some p => put_page child_page_id (set_parent parent_page_id p)
  | None => mret tt
  end.

Definition create_internal_pages (child_pages : list Z) (parent_page_id level : Z) : MS bool :=
  if bool_decide (child_pages = []) then mret false
  else
    put_page parent_page_id (initialize_internal_page parent_page_id 0 level child_pages) ;;
    for_each (adopt parent_page_id) child_pages ;;
    mret true.

(** The loop that makes the leaf pages; [None]: there is no page left. *)
Fixpoint create_leaves (k : nat) (total i : Z) : MS (option (list Z)) :=
  match k with
  | O => mret (Some [])
  | S k' =>
      let first_heap_page := u32 (i * S_LEAVES_PER_PAGE) in
      let heap_pages_count := Z.min S_LEAVES_PER_PAGE (u32 (total - first_heap_page)) in
      leaf_page_id ← allocate_fsm_page ;
      if leaf_page_id =? 0 then mret None
      else
        put_page leaf_page_id (initialize_leaf_page leaf_page_id 0 0 first_heap_page heap_pages_count) ;;
        rest ← create_leaves k' total (i + 1) ;
        mret (cons leaf_page_id <$> rest)
  end.

(** One level: every group of pages gets a parent. *)
Fixpoint create_level (fuel : nat) (current_level_pages : list Z) (level : Z) : MS (option (list Z)) :=
  match fuel, current_level_pages with
  | _, [] => mret (Some [])
  | O, _ => block
  | S fuel', _ =>
      let child_pages := take (Z.to_nat S_CHILDREN_PER_PAGE) current_level_pages in
      parent_page_id ← allocate_fsm_page ;
      if parent_page_id =? 0 then mret None
      else
        ok ← create_internal_pages child_pages parent_page_id level ;
        if negb ok then mret None
        else
          rest ← create_level fuel' (drop (Z.to_nat S_CHILDREN_PER_PAGE) current_level_pages) level ;
          mret (cons parent_page_id <$> rest)
  end.

Fixpoint create_levels (fuel : nat) (current_level_pages : list Z) (level : Z) : MS (option (list Z)) :=
  if len current_level_pages <=? 1 then mret (Some current_level_pages)
  else
    match fuel with
    | O => block
    | S fuel' =>
        next ← create_level (length current_level_pages) current_level_pages level ;
        match next with
        | None => mret None
        | Some next_level_pages =>
            m ← gets meta_ ;
            set_meta_field 16 4 (u32 (tree_height m + 1)) ;;
            create_levels fuel' next_level_pages (level + 1)
        end
    end.

Definition build_fsm_tree : MS bool :=
  modify (set_fsm_pages ∅) ;;
  set_meta_field 12 4 0 ;;
  set_meta_field 16 4 0 ;;
  m ← gets meta_ ;
  let total := total_heap_pages m in
  if total =? 0 then mret false
  else
    let leaf_pages_needed := u32 (total + S_LEAVES_PER_PAGE - 1) / S_LEAVES_PER_PAGE in
    leaves ← create_leaves (Z.to_nat leaf_pages_needed) total 0 ;
    match leaves with
    | None => mret false
    | Some current_level_pages =>
        set_meta_field 16 4 1 ;;
        top ← create_levels (length current_level_pages) current_level_pages 1 ;
        match top with
        | Some [root] => set_meta_field 20 4 root ;; mret true
        | _ => mret false
        end
    end.

Definition initialize (now table_id initial_heap_pages : Z) : MS bool :=
  when (negb (table_id =? -1)) (set_meta_field 48 4 table_id) ;;
  ready ← gets initialized_ ;
  if ready : bool then mret true
  else
    modify (set_fsm_pages ∅) ;;
    set_meta_field 0 4 FSM_META_MAGIC ;;
    set_meta_field 4 4 1 ;;
    set_meta_field 40 8 now ;;
    set_meta_field 12 4 0 ;;
    set_meta_field 16 4 0 ;;
    set_meta_field 20 4 0 ;;
    set_meta_field 24 4 (S_FSM_ROOT_PAGE_ID - 1) ;;
    set_meta_field 28 4 S_LEAVES_PER_PAGE ;;
    set_meta_field 32 4 S_CHILDREN_PER_PAGE ;;
    if initial_heap_pages =? 0 then mret false
    else
      set_meta_field 8 4 initial_heap_pages ;;
      ok ← build_fsm_tree ;
      if negb ok then mret false
      else modify (set_initialized true) ;; mret true.

(** ** Loading *)

Definition load_fsm_page (fsm_page_id : Z) : MS bool :=
  ps ← gets fsm_pages_ ;
  m ← gets meta_ ;
  pool ← gets buffer_pool_ ;
  if bool_decide (is_Some (ps !! fsm_page_id)) then mret true
  else if meta_table_id m =? -1 then mret false
  else
    match pool !! fsm_page_id ≫= DeserializeFSMPage with
    | Some page_data => modify (set_fsm_pages (<[fsm_page_id := (page_data, false)]> ps)) ;; mret true
    | None => mret false
    end.

(** The page in memory, loaded if need be. *)
Definition loaded (fsm_page_id : Z) : MS (option S_FSMPageData) :=
  ok ← load_fsm_page fsm_page_id ;
  if ok : bool then get_page fsm_page_id else mret None.

(** A vector of children that was missing is kept; it does not make a page dirty. *)
Definition ensure_child_vector (page_id : Z) (p : S_FSMPageData) : MS S_FSMPageData :=
  ps ← gets fsm_pages_ ;
  let p' := EnsureChildVector p in
  modify (set_fsm_pages (<[page_id := (p', default false (snd <$> ps !! page_id))]> ps)) ;;
  mret p'.

(** ** Searching *)

Definition search_in_leaf_page (p : S_FSMPageData) (required_category : Z) : MS Z :=
  m ← gets meta_ ;
  heap_page_id ← search_nodes (Z.to_nat (leaf_start (header p))) p required_category 0 ;
  mret (if heap_page_id <? total_heap_pages m then heap_page_id else NO_PAGE).

Section children.
Variable (rec : Z → MS Z).

Fixpoint first_child_answer (required_category : Z) (children : list Z) : MS Z :=
  match children with
  | [] => mret NO_PAGE
  | c :: l =>
      child_page ← loaded c ;
      match child_page with
      | None => first_child_answer required_category l
      | Some q =>
          match nodes q with
          | [] => crash OutOfBounds
          | v :: _ =>
              if required_category <=? v then
                result ← rec c ;
                if negb (result =? NO_PAGE) then mret result else first_child_answer required_category l
              else first_child_answer required_category l
          end
      end
  end.
End children.

Fixpoint search_from_page (fuel : nat) (required_category fsm_page_id : Z) : MS Z :=
  match fuel with
  | O => block
  | S fuel' =>
      page ← loaded fsm_page_id ;
      match page with
      | None => mret NO_PAGE
      | Some page_data =>
          if page_type (header page_data) =? LEAF_PAGE then search_in_leaf_page page_data required_category
          else
            page_data ← ensure_child_vector fsm_page_id page_data ;
            first_child_answer (search_from_page fuel' required_category) required_category (child_page_ids page_data)
      end
  end.

Definition fuel_for (s : S_SecFSM) : nat := S (size (fsm_pages_ s) + size (buffer_pool_ s)).

Definition find_free_page (min_space_needed : Z) : MS Z :=
  ready ← gets initialized_ ;
  m ← gets meta_ ;
  if negb ready || (tree_height m =? 0) then mret NO_PAGE
  else
    fuel ← gets fuel_for ;
    search_from_page fuel (space_to_category min_space_needed) (root_page_id m).

Fixpoint search_leaf_page_from (fuel : nat) (heap_page_id fsm_page_id : Z) : MS Z :=
  match fuel with
  | O => block
  | S fuel' =>
      page ← loaded fsm_page_id ;
      match page with
      | None => mret NO_PAGE
      | Some page_data =>
          let h := header page_data in
          if page_type h =? LEAF_PAGE then
            mret (if (first_heap_page h <=? heap_page_id) &&
                     (heap_page_id <? u32 (first_heap_page h + heap_pages_count h)) then fsm_page_id else NO_PAGE)
          else
            page_data ← ensure_child_vector fsm_page_id page_data ;
            first_answer (search_leaf_page_from fuel' heap_page_id) (child_page_ids page_data)
      end
  end.

Definition find_leaf_page_for_heap_page (heap_page_id : Z) : MS Z :=
  m ← gets meta_ ;
  fuel ← gets fuel_for ;
  search_leaf_page_from fuel heap_page_id (root_page_id m).

(** ** Updating *)

Section propagate.
Variable (update_node_value : Z → Z → Z → MS unit).

(** The page is dirty if the loop has changed a node or it was before. *)
Definition propagate_update (fsm_page_id node_index : Z) : MS unit :=
  ps ← gets fsm_pages_ ;
  match ps !! fsm_page_id with
  | None => mret tt
  | Some (page_data, is_dirty) =>
      match propagate_nodes (Z.to_nat node_index) page_data node_index with
      | None => crash OutOfBounds
      | Some (page_data, stop) =>
          modify (set_fsm_pages (<[fsm_page_id := (page_data, is_dirty || negb (stop =? node_index))]> ps)) ;;
          if (stop =? 0) && negb (parent_page (header page_data) =? 0) then
            match nodes page_data with
            | [] => crash OutOfBounds
            | root_value :: _ =>
                let parent_page_id := parent_page (header page_data) in
                parent ← loaded parent_page_id ;
                match parent with
                | None => mret tt
                | Some parent =>
                    parent ← ensure_child_vector parent_page_id parent ;
                    match FindChildIndex parent fsm_page_id with
                    | None => mret tt
                    | Some child_offset =>
                        let parent_node_index := u32 (leaf_start (header parent) + child_offset) in
                        if parent_node_index <? node_count (header parent) then
                          match nodes parent !! Z.to_nat parent_node_index with
                          | None => crash OutOfBounds
                          | Some v =>
                              if negb (v =? root_value)
                              then update_node_value parent_page_id parent_node_index root_value
                              else mret tt
                          end
                        else mret tt
                    end
                end
            end
          else mret tt
      end
  end.
End propagate.

Fixpoint update_node_value (fuel : nat) (fsm_page_id node_index new_value : Z) : MS unit :=
  match fuel with
  | O => block
  | S fuel' =>
      page ← get_page fsm_page_id ;
      match page with
      | None => mret tt
      | Some page_data =>
          match nodes page_data !! Z.to_nat node_index with
          | None => crash OutOfBounds
          | Some _ =>
              put_page fsm_page_id (set_node node_index new_value page_data) ;;
              propagate_update (update_node_value fuel') fsm_page_id node_index
          end
      end
  end.

Definition update_page_space (page_id free_space : Z) : MS unit :=
  ready ← gets initialized_ ;
  m ← gets meta_ ;
  if negb ready || (total_heap_pages m <=? page_id) then mret tt
  else
    leaf_page_id ← find_leaf_page_for_heap_page page_id ;
    if leaf_page_id =? NO_PAGE then mret tt
    else
      page ← loaded leaf_page_id ;
      match page with
      | None => mret tt
      | Some leaf_page =>
          let heap_offset := u32 (page_id - first_heap_page (header leaf_page)) in
          let leaf_index := u32 (leaf_start (header leaf_page) + heap_offset) in
          if node_count (header leaf_page) <=? leaf_index then mret tt
          else
            match nodes leaf_page !! Z.to_nat leaf_index with
            | None => crash OutOfBounds
            | Some old_category =>
                let new_category := space_to_category free_space in
                if negb (new_category =? old_category) then
                  fuel ← gets fuel_for ;
                  update_node_value fuel leaf_page_id leaf_index new_category
                else mret tt
            end
      end.

Definition get_page_space (page_id : Z) : MS Z :=
  ready ← gets initialized_ ;
  m ← gets meta_ ;
  if negb ready || (total_heap_pages m <=? page_id) then mret 0
  else
    leaf_page_id ← find_leaf_page_for_heap_page page_id ;
    if leaf_page_id =? NO_PAGE then mret 0
    else
      page ← loaded leaf_page_id ;
      match page with
      | None => mret 0
      | Some leaf_page =>
          let heap_offset := u32 (page_id - first_heap_page (header leaf_page)) in
          let leaf_index := u32 (leaf_start (header leaf_page) + heap_offset) in
          if node_count (header leaf_page) <=? leaf_index then mret 0
          else
            match nodes leaf_page !! Z.to_nat leaf_index with
            | None => crash OutOfBounds
            | Some v => mret (category_to_space v)
            end
      end.

(** ** Writing the pages *)

Definition zeros : buffer := replicate (Z.to_nat PAGE_SIZE) 0.

Definition flush_fsm_page (now fsm_fd fsm_page_id : Z) : MS bool :=
  ps ← gets fsm_pages_ ;
  match ps !! fsm_page_id with
  | None => mret false
  | Some (page_data, is_dirty) =>
      if negb is_dirty then mret true
      else
        match serialize_page now page_data zeros with
        | (p, None) => modify (set_fsm_pages (<[fsm_page_id := (p, is_dirty)]> ps)) ;; mret false
        | (p, Some bs) =>
            on_disk (write_page fsm_fd fsm_page_id bs) ;;
            modify (set_fsm_pages (<[fsm_page_id := (set_header (set_field 48 8 now (header p)) p, false)]> ps)) ;;
            mret true
        end
  end.

Fixpoint flush_each (now fsm_fd : Z) (ids : list Z) : MS bool :=
  match ids with
  | [] => mret true
  | id :: ids' =>
      ok ← flush_fsm_page now fsm_fd id ;
      if negb ok then mret false else flush_each now fsm_fd ids'
  end.

Definition flush_all_pages (now : Z) : MS bool :=
  file ← gets fsm_file ;
  fsm_fd ← on_disk (open_file file) ;
  ready ← gets initialized_ ;
  if negb ready then mret false
  else
    set_meta_field 40 8 now ;;
    m ← gets meta_ ;
    on_disk (write_page fsm_fd S_FSM_META_PAGE_ID (splice 0 m zeros)) ;;
    ps ← gets fsm_pages_ ;
    flush_each now fsm_fd (elements (dom ps)).

(** ** Extending *)

(** The categories of the pages of the table so far. *)
Fixpoint take_snapshot (k : nat) (heap_page : Z) : MS (list Z) :=
  match k with
  | O => mret []
  | S k' =>
      leaf_page_id ← find_leaf_page_for_heap_page heap_page ;
      page ← (if leaf_page_id =? NO_PAGE then mret None else loaded leaf_page_id) ;
      let category :=
        match page with
        | None => EMPTY
        | Some leaf_page =>
            let node_index := u32 (leaf_start (header leaf_page) + u32 (heap_page - first_heap_page (header leaf_page))) in
            if node_index <? node_count (header leaf_page)
            then default EMPTY (nodes leaf_page !! Z.to_nat node_index) else EMPTY
        end in
      rest ← take_snapshot k' (heap_page + 1) ;
      mret (category :: rest)
  end.

Fixpoint restore_snapshot (heap_page : Z) (snapshot : list Z) : MS unit :=
  match snapshot with
  | [] => mret tt
  | category :: rest =>
      leaf_page_id ← find_leaf_page_for_heap_page heap_page ;
      page ← (if leaf_page_id =? NO_PAGE then mret None else get_page leaf_page_id) ;
      match page with
      | None => mret tt
      | Some leaf_page =>
          let node_index := u32 (leaf_start (header leaf_page) + u32 (heap_page - first_heap_page (header leaf_page))) in
          when ((node_index <? node_count (header leaf_page)) &&
                negb (default category (nodes leaf_page !! Z.to_nat node_index) =? category))
            (fuel ← gets fuel_for ;
             update_node_value fuel leaf_page_id node_index category)
      end ;;
      restore_snapshot (heap_page + 1) rest
  end.

Definition extend (now additional_pages : Z) : MS bool :=
  ready ← gets initialized_ ;
  if negb ready || (additional_pages =? 0) then mret true
  else
    m ← gets meta_ ;
    snapshot ← take_snapshot (Z.to_nat (total_heap_pages m)) 0 ;
    set_meta_field 8 4 (u32 (total_heap_pages m + additional_pages)) ;;
    set_meta_field 20 4 0 ;;
    set_meta_field 16 4 0 ;;
    set_meta_field 12 4 0 ;;
    ok ← build_fsm_tree ;
    if negb ok then mret false
    else
      restore_snapshot 0 snapshot ;;
      flush_all_pages now.

End S_Fsm.

(** A table of 5 pages: page 3 gets space, and is found; then 2000 more pages. *)
Definition demo_map_disk : DiskManager :=
  after (open_file [102]) (new_DiskManager {[ [102] := replicate (Z.to_nat 4096) 0 ]} ∅ false).
Definition demo_map : S_Fsm.S_SecFSM :=
  after (S_Fsm.initialize 7 20000 5 ;; S_Fsm.update_page_space 3 3000 ;; S_Fsm.flush_all_pages 7)
    (S_Fsm.new_S_SecFSM demo_map_disk ∅ [102] 20000 (replicate 68 0)).

Example demo_map_runs :
  result (S_Fsm.find_free_page 100) demo_map = Some 3 ∧
  result (S_Fsm.find_free_page 4000) demo_map = Some NO_PAGE ∧
  result (S_Fsm.get_page_space 3) demo_map = Some 2730 ∧
  size (S_Fsm.fsm_pages_ demo_map) = 1%nat ∧
  len <$> files (S_Fsm.dm_ demo_map) !! [102] = Some 12288.
Proof. split_and!; vm_compute; reflexivity. Qed.

Example demo_map_extends :
  let s := after (S_Fsm.extend 8 2000) demo_map in
  result (S_Fsm.extend 8 2000) demo_map = Some true ∧
  result (S_Fsm.find_free_page 100) s = Some 3 ∧ size (S_Fsm.fsm_pages_ s) = 3%nat ∧
  root_page_id (S_Fsm.meta_ s) = 5.
Proof. split_and!; vm_compute; reflexivity. Qed.
