(* ===== verification/SFsmOps.v ===== *)
(** The storage node's free-space map: the pages that [build_fsm_tree] makes form a tree in which
    every page of the table has no space, and what the free space of a page changes in the
    tree that is kept in memory. *)

From S2P Require Import Prelude Common Bytes Record RecordPage DiskManager FsmReplay FsmTree FsmPage FsmInv FsmUpdate SFsm.

(** ** Headers *)

Definition hdr (h : buffer) : Prop := len h = sizeof_S_FSMPageHeader.

Lemma hdr_set off w v h : hdr h → 0 ≤ off → off + Z.of_nat w ≤ 56 → hdr (set_field off w v h).
Proof. unfold hdr. change sizeof_S_FSMPageHeader with 56. intros. rewrite len_set_field; lia. Qed.

Lemma hdr_blank : hdr blank.
Proof. apply hdr_set; [|lia|lia]. done. Qed.

Lemma hdr_same off w v h : hdr h → 0 ≤ off → off + Z.of_nat w ≤ 56 → uint_fits w v →
  field off (Z.of_nat w) (set_field off w v h) = v.
Proof. unfold hdr. change sizeof_S_FSMPageHeader with 56. intros. apply field_set_same; lia || done. Qed.

Lemma hdr_other off n off' w v h : hdr h → 0 ≤ off → 0 ≤ off' → off' + Z.of_nat w ≤ 56 →
  off + n ≤ off' ∨ off' + Z.of_nat w ≤ off → field off n (set_field off' w v h) = field off n h.
Proof. unfold hdr. change sizeof_S_FSMPageHeader with 56. intros. apply field_set_other; lia. Qed.

#[local] Ltac hdr_ok := repeat (apply hdr_set; [|lia|lia]); try apply hdr_blank; try assumption.

(** Reads a field through the writes of others. *)
#[local] Ltac read_field :=
  unfold magic_number, page_type, parent_page, level, first_heap_page, heap_pages_count, first_child_page,
    child_count, node_count, leaf_start;
  repeat (rewrite hdr_other by (hdr_ok || lia));
  lazymatch goal with
  | |- field ?o 4 (set_field ?o 4 ?v _) = _ => apply (hdr_same o 4); [hdr_ok|lia|lia|]
  | |- field ?o 1 (set_field ?o 1 ?v _) = _ => apply (hdr_same o 1); [hdr_ok|lia|lia|]
  | |- _ => idtac
  end.

(** ** The size of a page's tree *)

Lemma needed_height_ok fuel h n :
  1 ≤ h → n ≤ 2 ^ (h - 1 + Z.of_nat fuel) →
  h = 1 ∨ 2 ^ (h - 2) < n →
  let H := needed_height fuel h (2 ^ (h - 1)) n in
  1 ≤ H ∧ n ≤ 2 ^ (H - 1) ∧ (H = 1 ∨ 2 ^ (H - 2) < n).
Proof.
  revert h. induction fuel as [|fuel IH]; intros h Hh Hn Hlast; cbn [needed_height].
  - rewrite Z.add_0_r in Hn. destruct (Z.ltb_spec (2 ^ (h - 1)) n); [lia|]. done.
  - destruct (Z.ltb_spec (2 ^ (h - 1)) n) as [Hlt|Hge]; [|done].
    rewrite Z.shiftl_mul_pow2, Z.mul_1_l by lia. apply IH; [lia| |].
    + replace (h + 1 - 1 + Z.of_nat fuel) with (h - 1 + Z.of_nat (S fuel)) by lia. done.
    + right. replace (h + 1 - 2) with (h - 1) by lia. done.
Qed.

Lemma first_leaf_ok n : 0 < n →
  (∃ K : nat, first_leaf n + 1 = 2 ^ Z.of_nat K) ∧ n ≤ first_leaf n + 1 ≤ 2 * n ∧ 0 ≤ first_leaf n.
Proof.
  intros Hn. unfold first_leaf.
  destruct (needed_height_ok (Z.to_nat n) 1 n) as (H1 & H2 & H3); [lia| |by left|].
  { rewrite Z.sub_diag, Z.add_0_l, Z2Nat.id by lia. apply Z.lt_le_incl, Z.pow_gt_lin_r; lia. }
  change (2 ^ (1 - 1)) with 1 in *. set (H := needed_height (Z.to_nat n) 1 1 n) in *.
  rewrite Z.shiftl_mul_pow2, Z.mul_1_l by lia. split; [|].
  - exists (Z.to_nat (H - 1)). rewrite Z2Nat.id by lia. lia.
  - assert (0 < 2 ^ (H - 1)) by (apply Z.pow_pos_nonneg; lia). split; [|lia]. split; [lia|].
    destruct H3 as [->|H3]; [change (2 ^ (1 - 1)) with 1; lia|].
    destruct (Z.eq_dec H 1) as [->|]; [change (2 ^ (1 - 1)) with 1; lia|].
    replace (H - 1) with (Z.succ (H - 2)) by lia. rewrite Z.pow_succ_r by lia. lia.
Qed.

(** ** Fresh pages *)

(** Nothing in the page has space. *)
Definition no_space (p : S_FSMPageData) : Prop := ∀ i, value_at p i = 0.

Lemma fresh_nodes_zero h kids : no_space (mkFsmPage h (fresh_nodes h) kids).
Proof.
  intros i. unfold value_at, fresh_nodes. cbn [nodes]. destruct (replicate _ _ !! Z.to_nat i) as [v|] eqn:E; [|done].
  by apply lookup_replicate in E as [-> _].
Qed.

Record fresh_page (id : Z) (p : S_FSMPageData) : Prop := {
  fr_shaped : page_shaped id p;
  fr_exact : exact p;
  fr_zero : no_space p
}.

(** What the constructors of pages have in common. *)
Section fresh.
Context (id type lev first count child n : Z) (kids : list Z).
Context (Hid : 0 < id < NO_PAGE) (Hlev : uint_fits 4 lev) (Hfirst : uint_fits 4 first) (Hcount : uint_fits 4 count).
Context (Hchild : uint_fits 4 child) (Hn : 0 < n ≤ 1024).

Let h := calculate_structure n (page_header id type 0 lev first count child (len kids)).
Let p := mkFsmPage h (fresh_nodes h) kids.

Lemma fresh_fields : uint_fits 1 type → uint_fits 4 (len kids) →
  hdr h ∧ magic_number h = FSM_PAGE_MAGIC ∧ page_type h = type ∧ parent_page h = 0 ∧ level h = lev ∧
  first_heap_page h = first ∧ heap_pages_count h = count ∧ child_count h = len kids ∧
  node_count h = first_leaf n + n ∧ leaf_start h = first_leaf n.
Proof using Hid Hlev Hfirst Hcount Hchild Hn.
  intros Htype Hkids. destruct (first_leaf_ok n) as (_ & Hb & H0); [lia|].
  assert (uint_fits 4 (first_leaf n) ∧ uint_fits 4 (first_leaf n + n)) as [Hf1 Hf2] by (unfold uint_fits; lia).
  unfold NO_PAGE in Hid. subst h. unfold calculate_structure, page_header. split_and!; try (read_field; done).
Qed.

Lemma fresh_ok : uint_fits 1 type → uint_fits 4 (len kids) →
  (type = INTERNAL_PAGE ∧ kids ≠ [] ∧ len kids = n ∧ n ≤ 512 ∧ Forall (uint_fits 4) kids ∧ NoDup kids) ∨
  (type = LEAF_PAGE ∧ kids = [] ∧ count = n ∧ first + count ≤ NO_PAGE) →
  fresh_page id p ∧ is_leaf_page p = (type =? LEAF_PAGE).
Proof using Hid Hlev Hfirst Hcount Hchild Hn.
  intros Htype Hkids Hcase. destruct (fresh_fields Htype Hkids) as (H1 & H2 & H3 & H4 & H5 & H6 & H7 & H8 & H9 & H10).
  destruct (first_leaf_ok n) as (HK & Hb & H0); [lia|].
  assert (len (nodes p) = node_count h) as Hlen.
  { unfold p, fresh_nodes, len. cbn [nodes]. rewrite length_replicate. lia. }
  assert (no_space p) as Hz by apply fresh_nodes_zero. unfold uint_fits in *.
  split; [|unfold is_leaf_page; change (header p) with h; by rewrite H3]. split; [| |done].
  - split; try done.
    + split; change (header p) with h; change (child_page_ids p) with kids; try done.
      * rewrite Hlen, H9. change (PAGE_SIZE - sizeof_S_FSMPageHeader) with 4040.
        destruct Hcase as [(_ & _ & -> & ? & _)|(_ & -> & _)]; unfold len; cbn [length]; lia.
      * destruct Hcase as [(_ & _ & _ & _ & ? & _)|(_ & -> & _)]; [done|constructor].
      * rewrite H3, H8. destruct Hcase as [(? & ? & _)|(? & ? & _)]; [left|right]; done.
    + change (header p) with h. lia.
    + unfold is_leaf_page. change (header p) with h. rewrite H3, H9, H10. change (child_page_ids p) with kids.
      intros Ht. destruct Hcase as [(_ & _ & -> & _ & _ & ?)|(-> & _)]; [split; [lia|done]|done].
    + unfold is_leaf_page. change (header p) with h. rewrite H3, H6, H7, H9, H10.
      intros Ht. destruct Hcase as [(-> & _)|(_ & _ & -> & ?)]; [done|]. lia.
  - change (header p) with h in *. split; change (header p) with h; rewrite ?Hlen, ?H9, ?H10; try done; try lia.
    + intros i. rewrite Hz. done.
    + intros i _. rewrite !Hz. done.
Qed.
End fresh.

Lemma leaf_page_ok id first count :
  0 < id < NO_PAGE → 0 ≤ first → 0 < count ≤ 1024 → first + count ≤ NO_PAGE →
  let p := initialize_leaf_page id 0 0 first count in
  fresh_page id p ∧ is_leaf_page p = true ∧ parent_page (header p) = 0 ∧ level (header p) = 0 ∧
  first_heap_page (header p) = first ∧ heap_pages_count (header p) = count ∧ child_page_ids p = [].
Proof.
  intros Hid H0 Hc Hmax. unfold NO_PAGE in *.
  assert (uint_fits 4 0 ∧ uint_fits 4 first ∧ uint_fits 4 count ∧ uint_fits 1 LEAF_PAGE) as (U0 & U1 & U2 & U3)
    by (unfold uint_fits, LEAF_PAGE; lia).
  destruct (fresh_ok id LEAF_PAGE 0 first count 0 count []) as [Hf Hl]; try done.
  { right. split_and!; [done|done|done|unfold NO_PAGE; lia]. }
  destruct (fresh_fields id LEAF_PAGE 0 first count 0 count []) as (_ & _ & _ & H1 & H2 & H3 & H4 & _); done.
Qed.

Lemma internal_page_ok id lev kids :
  0 < id < NO_PAGE → uint_fits 4 lev → kids ≠ [] → len kids ≤ 512 → Forall (uint_fits 4) kids → NoDup kids →
  let p := initialize_internal_page id 0 lev kids in
  fresh_page id p ∧ is_leaf_page p = false ∧ parent_page (header p) = 0 ∧ level (header p) = lev ∧
  child_page_ids p = kids.
Proof.
  intros Hid Hlev Hne Hlen Hfits Hnd.
  assert (0 < len kids) as Hpos by (destruct kids; [done|rewrite len_cons; pose proof (len_nonneg kids); lia]).
  assert (uint_fits 4 0 ∧ uint_fits 4 (len kids) ∧ uint_fits 1 INTERNAL_PAGE) as (U0 & U1 & U2)
    by (unfold uint_fits, INTERNAL_PAGE; lia).
  assert (uint_fits 4 (default 0 (head kids))) as Hhead by (destruct kids; [done|by inversion Hfits]).
  assert (0 < len kids ≤ 1024) as Hn by lia.
  destruct (fresh_ok id INTERNAL_PAGE lev 0 0 (default 0 (head kids)) (len kids) kids) as [Hf Hl]; try done.
  { left. done. }
  destruct (fresh_fields id INTERNAL_PAGE lev 0 0 (default 0 (head kids)) (len kids) kids)
    as (_ & _ & _ & H1 & H2 & _); done.
Qed.

(** A parent for a page. *)
Lemma set_parent_ok pid id p : 0 < pid < NO_PAGE → fresh_page id p →
  let p' := set_parent pid p in
  fresh_page id p' ∧ parent_page (header p') = pid ∧ level (header p') = level (header p) ∧
  child_page_ids p' = child_page_ids p ∧ is_leaf_page p' = is_leaf_page p ∧
  first_heap_page (header p') = first_heap_page (header p) ∧
  heap_pages_count (header p') = heap_pages_count (header p).
Proof.
  intros Hpid [[H1 [S1 S2 S3 S4 S5 S6] H3 H4 H5] [E1 E2 E3 E4 E5 E6] Hz] p'. unfold NO_PAGE in Hpid.
  set (h := header p) in *. assert (hdr h) as Hh by exact S1.
  assert (header p' = set_field 12 4 pid h) as Eh by done.
  assert (magic_number (header p') = magic_number h ∧ page_type (header p') = page_type h ∧
    level (header p') = level h ∧ first_heap_page (header p') = first_heap_page h ∧
    heap_pages_count (header p') = heap_pages_count h ∧ child_count (header p') = child_count h ∧
    node_count (header p') = node_count h ∧ leaf_start (header p') = leaf_start h) as (F1 & F2 & F3 & F4 & F5 & F6 & F7 & F8).
  { rewrite Eh. split_and!; by read_field. }
  assert (is_leaf_page p' = is_leaf_page p) as Hl by (unfold is_leaf_page; by rewrite F2).
  assert (parent_page (header p') = pid) as Hp' by (rewrite Eh; read_field; unfold uint_fits; lia).
  assert (nodes p' = nodes p ∧ child_page_ids p' = child_page_ids p) as [Hn Hc] by done.
  split_and!; try done. split; [|split|intros i; apply Hz].
  - split; try done; rewrite ?Hl, ?F3, ?F4, ?F5, ?F7, ?F8; try done.
    split; rewrite ?F1, ?F2, ?F6, ?F7; try done. rewrite Eh. apply hdr_set; [done|lia|lia].
  - change (len (nodes p')) with (len (nodes p)). by rewrite F7.
  - done.
  - by rewrite F8.
  - by rewrite F7, F8.
  - intros i. apply E5.
  - rewrite F8. intros i. apply E6.
Qed.

(** The number of leaf pages. *)
Definition leaves_of (N : Z) : Z := (N + 1023) / 1024.

(** ** Forests

    What there is while a level is made: the pages of the level below that wait for a parent,
    and the pages made so far.  Leaf page number [i] is page [i + 2]. *)
Record forest (d : fsm_map) (N : Z) (todo next : list Z) (lev last : Z) : Prop := {
  fo_page : ∀ id p, d !! id = Some p → fresh_page id p ∧ 2 ≤ id ≤ last ∧ level (header p) ≤ lev;
  fo_todo : ∀ id, id ∈ todo → ∃ p, d !! id = Some p ∧ parent_page (header p) = 0 ∧ level (header p) = lev - 1;
  fo_next : ∀ id, id ∈ next → ∃ p, d !! id = Some p ∧ parent_page (header p) = 0 ∧ level (header p) = lev;
  fo_nodup : NoDup (todo ++ next);
  fo_kids : ∀ id p c, d !! id = Some p → c ∈ child_page_ids p → ∃ q, d !! c = Some q ∧ child_of_page id p q;
  fo_parent : ∀ id q, d !! id = Some q → id ∈ todo ++ next ∨
    ∃ p, d !! parent_page (header q) = Some p ∧ id ∈ child_page_ids p;
  fo_leaves : ∀ id p, d !! id = Some p → is_leaf_page p = true →
    first_heap_page (header p) = 1024 * (id - 2) ∧ heap_pages_count (header p) = Z.min 1024 (N - 1024 * (id - 2));
  fo_made : ∀ id, 2 ≤ id ≤ last → id ≤ 1 + leaves_of N → ∃ p, d !! id = Some p ∧ is_leaf_page p = true;
  fo_size : lev + len next ≤ Z.of_nat (size d)
}.

Lemma forest_empty N : forest ∅ N [] [] 0 1.
Proof.
  split; try (intros *; rewrite lookup_empty; done).
  - intros id Hid. by apply elem_of_nil in Hid.
  - intros id Hid. by apply elem_of_nil in Hid.
  - constructor.
  - intros id Hid. lia.
  - rewrite map_size_empty. done.
Qed.

Lemma forest_fresh d N todo next lev last : forest d N todo next lev last → d !! (last + 1) = None.
Proof. intros F. destruct (d !! (last + 1)) eqn:E; [|done]. pose proof (fo_page _ _ _ _ _ _ F _ _ E) as (_ & ? & _). lia. Qed.

(** A leaf page more. *)
Lemma forest_leaf d N next last i :
  forest d N [] next 0 last → last = 1 + i → 0 ≤ i → last + 1 < NO_PAGE → 1024 * i < N ≤ NO_PAGE →
  let p := initialize_leaf_page (last + 1) 0 0 (1024 * i) (Z.min 1024 (N - 1024 * i)) in
  forest (<[last + 1 := p]> d) N [] (next ++ [last + 1]) 0 (last + 1).
Proof.
  intros F Hlast Hi Hmax HN p. pose proof (forest_fresh _ _ _ _ _ _ F) as Hfree. unfold NO_PAGE in *.
  destruct (leaf_page_ok (last + 1) (1024 * i) (Z.min 1024 (N - 1024 * i)))
    as (Hp & Hleaf & Hpar & Hlev & Hfirst & Hcount & Hk); [unfold NO_PAGE; lia|lia|lia|unfold NO_PAGE; lia|].
  fold p in Hp, Hleaf, Hpar, Hlev, Hfirst, Hcount, Hk. clearbody p.
  destruct F as [F1 F2 F3 F4 F5 F6 F7 F9 F8]. split.
  - intros id q Hq. destruct (decide (id = last + 1)) as [->|Hne].
    + rewrite lookup_insert_eq in Hq. injection Hq as <-. split; [done|]. lia.
    + rewrite lookup_insert_ne in Hq by done. destruct (F1 _ _ Hq) as (? & ? & ?). split; [done|]. lia.
  - intros id Hid. by apply elem_of_nil in Hid.
  - intros id [Hid|Hid%list_elem_of_singleton]%elem_of_app.
    + destruct (F3 _ Hid) as (q & Hq & ?). exists q. rewrite lookup_insert_ne; [done|congruence].
    + subst id. exists p. by rewrite lookup_insert_eq.
  - cbn [app] in *. apply NoDup_app. split; [done|]. split; [|apply NoDup_singleton].
    intros x Hx ->%list_elem_of_singleton. destruct (F3 _ Hx) as (q & Hq & _). congruence.
  - intros id q c Hq Hc. destruct (decide (id = last + 1)) as [->|Hne].
    + rewrite lookup_insert_eq in Hq. injection Hq as <-. rewrite Hk in Hc. by apply elem_of_nil in Hc.
    + rewrite lookup_insert_ne in Hq by done. destruct (F5 _ _ _ Hq Hc) as (r & Hr & Hcr). exists r.
      rewrite lookup_insert_ne; [done|congruence].
  - intros id q Hq. destruct (decide (id = last + 1)) as [->|Hne].
    + left. apply elem_of_app. right. apply elem_of_app. right. by apply list_elem_of_singleton.
    + rewrite lookup_insert_ne in Hq by done. destruct (F6 _ _ Hq) as [Hin|(P & HP & Hin)].
      * left. cbn [app] in *. apply elem_of_app. by left.
      * right. exists P. rewrite lookup_insert_ne; [done|]. intros E. rewrite <- E in HP. congruence.
  - intros id q Hq Hl. destruct (decide (id = last + 1)) as [->|Hne].
    + rewrite lookup_insert_eq in Hq. injection Hq as <-. rewrite Hfirst, Hcount. replace (last + 1 - 2) with i by lia. done.
    + rewrite lookup_insert_ne in Hq by done. eauto.
  - intros id Hid Hl'. destruct (decide (id = last + 1)) as [->|Hne].
    + exists p. by rewrite lookup_insert_eq.
    + rewrite lookup_insert_ne by done. apply F9; lia.
  - rewrite map_size_insert_None by done. len. lia.
Qed.

(** The level is made: its pages wait for parents. *)
Lemma forest_promote d N next lev last :
  forest d N [] next lev last → next ≠ [] → forest d N next [] (lev + 1) last.
Proof.
  intros [F1 F2 F3 F4 F5 F6 F7 F9 F8] Hne. split; try done.
  - intros id p Hp. destruct (F1 _ _ Hp) as (? & ? & ?). split; [done|]. lia.
  - intros id Hid. destruct (F3 _ Hid) as (p & ? & ? & ?). exists p. split_and!; [done|done|lia].
  - intros id Hid. by apply elem_of_nil in Hid.
  - by rewrite app_nil_r.
  - intros id q Hq. rewrite app_nil_r. cbn [app] in *. eauto.
  - rewrite len_nil. destruct next as [|x l]; [done|]. rewrite len_cons in F8. pose proof (len_nonneg l). lia.
Qed.

(** A parent for a group of pages. *)
Definition adopted (d d' : fsm_map) (pid : Z) (kids : list Z) (P : S_FSMPageData) : Prop :=
  ∀ i, d' !! i = if decide (i = pid) then Some P
                 else if decide (i ∈ kids) then set_parent pid <$> d !! i else d !! i.

Lemma forest_parent d d' N kids rest next lev last :
  forest d N (kids ++ rest) next lev last → kids ≠ [] → len kids ≤ 512 → 1 + leaves_of N ≤ last → 1 ≤ last → last + 1 < NO_PAGE →
  0 < lev < 2 ^ 32 → size d' = S (size d) →
  adopted d d' (last + 1) kids (initialize_internal_page (last + 1) 0 lev kids) →
  forest d' N rest (next ++ [last + 1]) lev (last + 1).
Proof.
  intros F Hne Hlen Hmade Hl0 Hmax Hlev Hsize Hd. pose proof (forest_fresh _ _ _ _ _ _ F) as Hfree.
  set (pid := last + 1) in *. set (P := initialize_internal_page pid 0 lev kids) in *.
  destruct F as [F1 F2 F3 F4 F5 F6 F7 F9 F8].
  assert (0 < len kids) as Hpos by (destruct kids; [done|rewrite len_cons; pose proof (len_nonneg kids); lia]).
  assert (∀ c, c ∈ kids → ∃ q, d !! c = Some q ∧ parent_page (header q) = 0 ∧ level (header q) = lev - 1) as Hkids
    by (intros c Hc; apply F2, elem_of_app; by left).
  assert (pid ∉ kids) as Hpk by (intros Hin; destruct (Hkids _ Hin) as (q & Hq & _); congruence).
  assert (Forall (uint_fits 4) kids) as Hfits.
  { apply Forall_forall. intros c Hc. destruct (Hkids _ Hc) as (q & Hq & _).
    destruct (F1 _ _ Hq) as ([[Hid _ _ _ _] _ _] & _). unfold uint_fits, NO_PAGE in *. lia. }
  assert (NoDup kids) as Hnd by (rewrite <- app_assoc in F4; by apply NoDup_app in F4 as [? _]).
  destruct (internal_page_ok pid lev kids) as (HP & HPl & HPpar & HPlev & HPk);
    [unfold NO_PAGE in *; lia|unfold uint_fits; lia|done|done|done|done|].
  fold P in HP, HPl, HPpar, HPlev, HPk. clearbody P. unfold NO_PAGE in Hmax.
  (* A page of the new map is the new one, an adopted one, or an old one. *)
  assert (∀ i q', d' !! i = Some q' → (i = pid ∧ q' = P) ∨
    (i ≠ pid ∧ ∃ q, d !! i = Some q ∧ ((i ∈ kids ∧ q' = set_parent pid q) ∨ (¬ (i ∈ kids) ∧ q' = q)))) as Hold.
  { intros i q' Hi. rewrite Hd in Hi. case_decide as D1; [left; split; [done|by injection Hi]|].
    right. split; [done|]. case_decide as D2.
    - destruct (d !! i) as [q|]; [|done]. injection Hi as <-. exists q. auto.
    - exists q'. auto. }
  assert (∀ i q, d !! i = Some q → ∃ q', d' !! i = Some q' ∧ child_page_ids q' = child_page_ids q ∧
    level (header q') = level (header q) ∧ (i ∉ kids → q' = q) ∧ (i ∈ kids → parent_page (header q') = pid)) as Hnew.
  { intros i q Hi. rewrite Hd. rewrite decide_False by congruence. case_decide as D.
    - destruct (set_parent_ok pid i q) as (_ & ? & ? & ? & _); [unfold NO_PAGE; lia|by apply F1|].
      exists (set_parent pid q). rewrite Hi. split_and!; done.
    - exists q. split_and!; done. }
  assert (d' !! pid = Some P) as HP' by (rewrite Hd; by rewrite decide_True).
  split.
  - intros i q' Hi. destruct (Hold _ _ Hi) as [[-> ->]|(Hip & q & Hq & Hcase)]; [split; [done|]; lia|].
    destruct (F1 _ _ Hq) as (Hf & ? & ?). destruct Hcase as [[Hin ->]|[_ ->]]; [|split; [done|]; lia].
    destruct (set_parent_ok pid i q) as (? & _ & Hl & _); [unfold NO_PAGE; lia|done|]. cbv zeta in Hl. split; [done|]. lia.
  - intros i Hi. destruct (F2 i) as (q & Hq & Hpar & Hlv); [apply elem_of_app; by right|].
    assert (i ∉ kids) as Hik.
    { intros Hin. rewrite <- app_assoc in F4. apply NoDup_app in F4 as (_ & Hdis & _). apply (Hdis i Hin). apply elem_of_app. by left. }
    destruct (Hnew _ _ Hq) as (q' & Hq' & _ & _ & Hsame & _). rewrite (Hsame Hik) in Hq'. eauto.
  - intros i [Hi|Hi%list_elem_of_singleton]%elem_of_app; [|subst i; eauto].
    destruct (F3 i Hi) as (q & Hq & Hpar & Hlv).
    assert (i ∉ kids) as Hik by (intros Hin; destruct (Hkids _ Hin) as (r & Hr & _ & Hlr); assert (r = q) by congruence; subst r; lia).
    destruct (Hnew _ _ Hq) as (q' & Hq' & _ & _ & Hsame & _). rewrite (Hsame Hik) in Hq'. eauto.
  - rewrite <- app_assoc in F4. apply NoDup_app in F4 as (_ & _ & F4). rewrite app_assoc. apply NoDup_app.
    split; [done|]. split; [|apply NoDup_singleton]. intros x Hx ->%list_elem_of_singleton.
    apply elem_of_app in Hx as [Hx|Hx].
    + destruct (F2 pid) as (q & Hq & _); [apply elem_of_app; by right|]. congruence.
    + destruct (F3 pid Hx) as (q & Hq & _). congruence.
  - intros i q' c Hi Hc. destruct (Hold _ _ Hi) as [[-> ->]|(Hip & q & Hq & Hcase)].
    + rewrite HPk in Hc. destruct (Hkids _ Hc) as (r & Hr & _ & Hlr).
      destruct (Hnew _ _ Hr) as (r' & Hr' & _ & Hl' & _ & Hpar'). exists r'. split; [done|]. split; [by apply Hpar'|]. lia.
    + assert (child_page_ids q' = child_page_ids q ∧ level (header q') = level (header q)) as [Hcq Hlq].
      { destruct Hcase as [[_ ->]|[_ ->]]; [|done].
        destruct (set_parent_ok pid i q) as (_ & _ & ? & ? & _); [unfold NO_PAGE; lia|by apply F1|]. done. }
      rewrite Hcq in Hc. destruct (F5 _ _ _ Hq Hc) as (r & Hr & Hpr & Hlr).
      assert (c ∉ kids) as Hck.
      { intros Hin. destruct (Hkids _ Hin) as (r' & Hr' & Hz & _). assert (r' = r) by congruence. subst r'.
        pose proof (sh_id _ _ (fr_shaped _ _ (proj1 (F1 _ _ Hq)))). lia. }
      destruct (Hnew _ _ Hr) as (r' & Hr' & _ & _ & Hsame & _). rewrite (Hsame Hck) in Hr'. exists r.
      split; [done|]. split; [done|]. lia.
  - intros i q' Hi. destruct (Hold _ _ Hi) as [[-> ->]|(Hip & q & Hq & Hcase)].
    + left. rewrite !elem_of_app, list_elem_of_singleton. auto.
    + destruct Hcase as [[Hin ->]|[Hin ->]].
      * right. destruct (set_parent_ok pid i q) as (_ & -> & _); [unfold NO_PAGE; lia|by apply F1|]. exists P.
        by rewrite HPk.
      * destruct (F6 _ _ Hq) as [Hto|(R & HR & Hin')].
        -- left. rewrite !elem_of_app in *. naive_solver.
        -- right. destruct (Hnew _ _ HR) as (R' & HR' & Hk' & _). exists R'. by rewrite Hk'.
  - intros i q' Hi Hleaf. destruct (Hold _ _ Hi) as [[-> ->]|(Hip & q & Hq & Hcase)]; [congruence|].
    destruct Hcase as [[_ ->]|[_ ->]]; [|eauto].
    destruct (set_parent_ok pid i q) as (_ & _ & _ & _ & Hl & Hf & Hc); [unfold NO_PAGE; lia|by apply F1|].
    cbv zeta in *. rewrite Hf, Hc. apply F7; [done|]. by rewrite <- Hl.
  - intros i Hi Hil. destruct (F9 i) as (q & Hq & Hleaf); [lia|lia|]. rewrite Hd. rewrite decide_False by lia.
    case_decide as D; [|eauto]. rewrite Hq. exists (set_parent pid q). split; [done|].
    destruct (set_parent_ok pid i q) as (_ & _ & _ & _ & Hl & _); [unfold NO_PAGE; lia|by apply F1|]. by rewrite Hl.
  - rewrite Hsize. len. lia.
Qed.

(** ** The calls *)

Import S_Fsm.

(** The object while it builds: all pages in memory are to be written. *)
Record building (s0 s : S_SecFSM) (d : fsm_map) (N last : Z) : Prop := {
  bu_pages : fsm_pages_ s = (λ p, (p, true)) <$> d;
  bu_size : len (meta_ s) = sizeof_FSMMetaData;
  bu_next : next_fsm_page_id (meta_ s) = last;
  bu_total : total_heap_pages (meta_ s) = N;
  bu_magic : field 0 4 (meta_ s) = field 0 4 (meta_ s0);
  bu_disk : dm_ s = dm_ s0 ∧ fsm_file s = fsm_file s0 ∧ initialized_ s = initialized_ s0 ∧ buffer_pool_ s = buffer_pool_ s0
}.

Lemma wp_meta_field s0 d N last off (w : nat) v (Q : unit → S_SecFSM → Prop) s :
  building s0 s d N last → 0 ≤ off → off + Z.of_nat w ≤ sizeof_FSMMetaData →
  (∀ o, (o = 0 ∨ o = 8 ∨ o = 24) → o + 4 ≤ off ∨ off + Z.of_nat w ≤ o) →
  (∀ s', building s0 s' d N last → meta_ s' = set_field off w v (meta_ s) → Q tt s') → wp (set_meta_field off w v) Q s.
Proof.
  intros [H1 H2 H3 H4 H5 H6] Ho Hw Hd HQ. unfold set_meta_field. wp_step. apply HQ; [|done]. split; cbn; try done.
  - rewrite len_set_field; [done|lia|lia].
  - unfold next_fsm_page_id in *. rewrite field_set_other; [done|lia|lia|lia|]. apply Hd. auto.
  - unfold total_heap_pages in *. rewrite field_set_other; [done|lia|lia|lia|]. apply Hd. auto.
  - rewrite field_set_other; [done|lia|lia|lia|]. apply Hd. auto.
Qed.

Lemma wp_allocate s0 d N last (Q : Z → S_SecFSM → Prop) s :
  building s0 s d N last → 1 ≤ last → last + 1 < NO_PAGE →
  (∀ s', building s0 s' d N (last + 1) → Q (last + 1) s') → wp allocate_fsm_page Q s.
Proof.
  intros [H1 H2 H3 H4 H5 H6] Hl Hmax HQ. unfold NO_PAGE in Hmax. unfold allocate_fsm_page, set_meta_field.
  wp_step. wp_step. rewrite H3. assert (u32 (last + 1) = last + 1) as -> by (unfold u32; rewrite Z.mod_small; lia).
  unfold S_FSM_ROOT_PAGE_ID. rewrite (proj2 (Z.ltb_ge (last + 1) 2)) by lia. repeat wp_step. apply HQ.
  change sizeof_FSMMetaData with 120 in *.
  assert (len (set_field 24 4 (last + 1) (meta_ s)) = 120) as L1 by (rewrite len_set_field; lia).
  split; cbn [fsm_pages_ meta_ dm_ fsm_file initialized_ buffer_pool_ set_meta]; try done.
  - change sizeof_FSMMetaData with 120. rewrite len_set_field; rewrite ?L1; lia.
  - unfold next_fsm_page_id. rewrite field_set_other by (rewrite ?L1; lia).
    apply (field_set_same 24 4); [lia|lia|unfold uint_fits; lia].
  - unfold total_heap_pages in *. rewrite !field_set_other by (rewrite ?L1; lia). done.
  - rewrite !field_set_other by (rewrite ?L1; lia). done.
Qed.

Lemma wp_put_page s0 d N last id p (Q : unit → S_SecFSM → Prop) s :
  building s0 s d N last → (∀ s', building s0 s' (<[id := p]> d) N last → Q tt s') → wp (put_page id p) Q s.
Proof.
  intros [H1 H2 H3 H4 H5 H6] HQ. unfold put_page. wp_step. apply HQ. split; cbn; try done.
  by rewrite H1, fmap_insert.
Qed.

(** Two calls that give a page the same parent are as good as one. *)
Lemma wp_adopt_all s0 N last pid kids d P (Q : unit → S_SecFSM → Prop) s :
  building s0 s (<[pid := P]> d) N last → d !! pid = None → pid ∉ kids → NoDup kids → (∀ c, c ∈ kids → is_Some (d !! c)) →
  (∀ d' s', building s0 s' d' N last → adopted d d' pid kids P → size d' = S (size d) → Q tt s') →
  wp (for_each (adopt pid) kids) Q s.
Proof.
  intros Hs Hfree Hpid Hnd Hsome HQ.
  enough (∀ todo done_ s d', kids = done_ ++ todo → building s0 s d' N last → adopted d d' pid done_ P →
    size d' = S (size d) → wp (for_each (adopt pid) todo) Q s) as H.
  { apply (H kids [] s (<[pid := P]> d)); try done.
    - intros i. destruct (decide (i = pid)) as [->|Hne]; [by rewrite lookup_insert_eq|].
      rewrite lookup_insert_ne by done. rewrite decide_False by (by apply not_elem_of_nil). done.
    - by apply map_size_insert_None. }
  clear s Hs. induction todo as [|c todo IH]; intros done_ s d' Hk Hs Had Hsz; cbn [for_each].
  { wp_step. rewrite app_nil_r in Hk. subst done_. by eapply HQ. }
  assert (c ∈ kids) as Hc by (rewrite Hk; apply elem_of_app; right; by left).
  assert (c ≠ pid) as Hcp by congruence. assert (c ∉ done_) as Hcd.
  { rewrite Hk in Hnd. apply NoDup_app in Hnd as (_ & Hdis & _). intros Hin. apply (Hdis c Hin). by left. }
  destruct (Hsome c Hc) as [q Hq]. assert (d' !! c = Some q) as Hq'.
  { rewrite Had. rewrite decide_False by done. by rewrite decide_False. }
  wp_step. unfold adopt, get_page. repeat wp_step. rewrite (bu_pages _ _ _ _ _ Hs), lookup_fmap, Hq'. cbn [fmap option_fmap option_map fst].
  eapply wp_put_page; [exact Hs|]. intros s' Hs'. apply (IH (done_ ++ [c]) s' (<[c := set_parent pid q]> d')).
  - by rewrite <- app_assoc.
  - exact Hs'.
  - intros i. destruct (decide (i = c)) as [->|Hne].
    + rewrite lookup_insert_eq, decide_False by done. rewrite decide_True; [by rewrite Hq|].
      apply elem_of_app. right. by apply list_elem_of_singleton.
    + rewrite lookup_insert_ne by done. rewrite Had. destruct (decide (i = pid)); [done|].
      destruct (decide (i ∈ done_)) as [Hin|Hin].
      * rewrite decide_True; [done|]. apply elem_of_app. by left.
      * rewrite decide_False; [done|]. rewrite elem_of_app, list_elem_of_singleton. tauto.
  - rewrite map_size_insert_Some; [done|by rewrite Hq'].
Qed.

(** The leaf pages. *)
Lemma wp_create_leaves s0 N k i d next (Q : option (list Z) → S_SecFSM → Prop) s :
  building s0 s d N (1 + i) → forest d N [] next 0 (1 + i) → 0 ≤ i → N ≤ 2 ^ 32 - 1024 →
  Z.of_nat k + i = leaves_of N →
  (∀ d' l s', building s0 s' d' N (1 + i + Z.of_nat k) → forest d' N [] (next ++ l) 0 (1 + i + Z.of_nat k) →
     length l = k → Q (Some l) s') →
  wp (create_leaves k N i) Q s.
Proof.
  revert i d next s Q. induction k as [|k IH]; intros i d next s Q Hs F Hi HN Hk HQ; cbn [create_leaves].
  { wp_step. apply (HQ d []); rewrite ?Z.add_0_r, ?app_nil_r; done. }
  assert (1024 * i < N) as Hin.
  { unfold leaves_of in Hk. pose proof (Z.div_mod (N + 1023) 1024 ltac:(lia)). pose proof (Z.mod_pos_bound (N + 1023) 1024 ltac:(lia)). lia. }
  unfold S_LEAVES_PER_PAGE. wp_step.
  assert (u32 (i * 1024) = 1024 * i) as -> by (unfold u32; rewrite Z.mod_small; lia).
  assert (u32 (N - 1024 * i) = N - 1024 * i) as -> by (unfold u32; rewrite Z.mod_small; lia).
  eapply wp_allocate; [exact Hs|lia|unfold NO_PAGE; lia|]. intros s1 H1. cbv beta.
  rewrite (proj2 (Z.eqb_neq (1 + i + 1) 0)) by lia. wp_step. eapply wp_put_page; [exact H1|]. intros s2 H2. cbv beta.
  pose proof (forest_leaf d N next (1 + i) i F eq_refl Hi ltac:(unfold NO_PAGE; lia) ltac:(unfold NO_PAGE; lia)) as F'.
  cbv zeta in F'. wp_step. replace (1 + i + 1) with (1 + (i + 1)) in * by lia.
  eapply IH; [exact H2|exact F'|lia|done|lia|]. intros d' l s' Hs' F'' Hl. cbv beta. wp_step.
  apply (HQ d' (1 + (i + 1) :: l)).
  - by replace (1 + i + Z.of_nat (S k)) with (1 + (i + 1) + Z.of_nat k) by lia.
  - replace (1 + i + Z.of_nat (S k)) with (1 + (i + 1) + Z.of_nat k) by lia. by rewrite <- app_assoc in F''.
  - cbn. by rewrite Hl.
Qed.

(** The number of groups of a level. *)
Definition groups (n : Z) : Z := (n + 511) / 512.

Lemma groups_step n : 0 < n → groups n = 1 + groups (n - Z.min 512 n).
Proof.
  intros Hn. unfold groups. destruct (Z.le_gt_cases n 512).
  - rewrite Z.min_r, Z.sub_diag by lia. change ((0 + 511) / 512) with 0.
    symmetry. apply (Z.div_unique _ _ _ (n - 1)); lia.
  - rewrite Z.min_l by lia. replace (n + 511) with (n - 512 + 511 + 1 * 512) by lia. rewrite Z.div_add by lia. lia.
Qed.

(** One level. *)
Lemma wp_create_level s0 N fuel d todo next lev last (Q : option (list Z) → S_SecFSM → Prop) s :
  building s0 s d N last → forest d N todo next lev last → 1 + leaves_of N ≤ last → 1 ≤ last → last + len todo < NO_PAGE → 0 < lev < 2 ^ 32 →
  (length todo ≤ fuel)%nat →
  (∀ d' l s', building s0 s' d' N (last + len l) → forest d' N [] (next ++ l) lev (last + len l) →
     len l = groups (len todo) → Q (Some l) s') →
  wp (create_level fuel todo lev) Q s.
Proof.
  revert d todo next last s Q. induction fuel as [|fuel IH]; intros d todo next last s Q Hs F Hmade Hl Hmax Hlev Hf HQ.
  { destruct todo as [|x todo]; [|cbn in Hf; lia]. cbn [create_level]. wp_step. apply (HQ d []); by rewrite ?Z.add_0_r, ?app_nil_r. }
  destruct todo as [|x todo]; [cbn [create_level]; wp_step; apply (HQ d []); by rewrite ?Z.add_0_r, ?app_nil_r|].
  set (l := x :: todo) in *. cbn [create_level]. subst l. cbv iota.
  set (kids := take (Z.to_nat S_CHILDREN_PER_PAGE) (x :: todo)).
  set (rest := drop (Z.to_nat S_CHILDREN_PER_PAGE) (x :: todo)).
  assert (x :: todo = kids ++ rest) as Hsplit by (symmetry; apply take_drop).
  assert (kids ≠ []) as Hne by done.
  assert (len kids = Z.min 512 (len (x :: todo))) as Hlk by (unfold kids, S_CHILDREN_PER_PAGE, len; rewrite length_take; lia).
  assert (len rest = len (x :: todo) - Z.min 512 (len (x :: todo))) as Hlr
    by (unfold rest, S_CHILDREN_PER_PAGE, len; rewrite length_drop; lia).
  assert (0 < len (x :: todo)) as Hpos by (rewrite len_cons; pose proof (len_nonneg todo); lia).
  rewrite Hsplit in F. pose proof (forest_fresh _ _ _ _ _ _ F) as Hfree.
  wp_step. eapply wp_allocate; [exact Hs|done|lia|]. intros s1 H1. cbv beta.
  rewrite (proj2 (Z.eqb_neq (last + 1) 0)) by lia. unfold create_internal_pages.
  rewrite bool_decide_eq_false_2 by done. wp_step. wp_step. eapply wp_put_page; [exact H1|]. intros s2 H2. cbv beta. wp_step.
  assert (∀ c, c ∈ kids → is_Some (d !! c)) as Hsome.
  { intros c Hc. destruct (fo_todo _ _ _ _ _ _ F c) as (q & Hq & _); [apply elem_of_app; by left|eauto]. }
  assert (NoDup kids) as Hnd by (pose proof (fo_nodup _ _ _ _ _ _ F) as Hn; rewrite <- app_assoc in Hn; by apply NoDup_app in Hn as [? _]).
  eapply wp_adopt_all; [exact H2|exact Hfree| |exact Hnd|exact Hsome|].
  { intros Hin. destruct (Hsome _ Hin) as [q Hq]. congruence. }
  intros d' s3 H3 Had Hsz. cbv beta. wp_step. cbn [negb]. wp_step.
  assert (forest d' N rest (next ++ [last + 1]) lev (last + 1)) as F'
    by (eapply forest_parent; [exact F|done|lia|lia|lia|lia|lia|exact Hsz|exact Had]).
  eapply IH; [exact H3|exact F'|lia|lia|lia|done| |].
  { unfold len in *. cbn [length] in *. lia. }
  intros d'' l s4 H4 F'' Hlen. cbv beta. wp_step. apply (HQ d'' (last + 1 :: l)).
  - rewrite len_cons. by replace (last + (1 + len l)) with (last + 1 + len l) by lia.
  - rewrite len_cons. replace (last + (1 + len l)) with (last + 1 + len l) by lia. by rewrite <- app_assoc in F''.
  - rewrite len_cons, Hlen, Hlr. rewrite (groups_step (len (x :: todo))) by done. done.
Qed.

(** All levels: there is one page at the top. *)
Lemma wp_create_levels s0 N fuel d next lev last (Q : option (list Z) → S_SecFSM → Prop) s :
  building s0 s d N last → forest d N [] next lev last → next ≠ [] → 1 + leaves_of N ≤ last → 1 ≤ last →
  last + 2 * len next < NO_PAGE → 0 ≤ lev → lev + len next < 2 ^ 32 → len next ≤ Z.of_nat fuel →
  (∀ d' root lev' last' s', building s0 s' d' N last' → forest d' N [] [root] lev' last' → 1 + leaves_of N ≤ last' → Q (Some [root]) s') →
  wp (create_levels fuel next (lev + 1)) Q s.
Proof.
  revert d next lev last s. induction fuel as [|fuel IH]; intros d next lev last s Hs F Hne Hmade H1 Hmax H0 Hlev Hf HQ.
  { assert (length next = 0%nat) by (unfold len in Hf; lia). by destruct next. }
  cbn [create_levels]. assert (0 < len next) as Hpos by (destruct next; [done|rewrite len_cons; pose proof (len_nonneg next); lia]).
  destruct (Z.leb_spec (len next) 1) as [Hone|Hmany].
  { wp_step. assert (len next = 1) as Hl by lia. unfold len in Hl.
    destruct next as [|root [|]]; cbn [length] in Hl; try lia. eapply HQ; eauto. }
  wp_step. eapply (wp_create_level s0 N _ d next [] (lev + 1) last);
    [exact Hs|by apply forest_promote|done|done|lia|lia|done|].
  intros d' l s' Hs' F' Hl. cbv beta iota. cbn [app] in F'. pose proof (len_nonneg l).
  assert (512 * len l ≤ len next + 511 ∧ 1 ≤ len l) as [Hg Hg1].
  { rewrite Hl. unfold groups. pose proof (Z.div_mod (len next + 511) 512 ltac:(lia)).
    pose proof (Z.mod_pos_bound (len next + 511) 512 ltac:(lia)). lia. }
  repeat wp_step. eapply wp_meta_field; [exact Hs'|lia|unfold sizeof_FSMMetaData; lia|lia|]. intros s2 H2 _. cbv beta.
  eapply IH; [exact H2|exact F'| |lia|lia|lia|lia|lia|lia|exact HQ]. intros ->. rewrite len_nil in Hg1. lia.
Qed.

(** ** The tree *)

Lemma covers_leaf d N todo next lev last id p h :
  forest d N todo next lev last → d !! id = Some p → covers p h = true → id = 2 + h / 1024 ∧ 0 ≤ h < N.
Proof.
  intros F Hp Hc. unfold covers in Hc. bool_simpl.
  destruct (fo_leaves _ _ _ _ _ _ F _ _ Hp) as [Hf Hcnt]; [done|].
  destruct (sh_heap _ _ (fr_shaped _ _ (proj1 (fo_page _ _ _ _ _ _ F _ _ Hp)))) as (_ & Hfirst0 & _); [done|].
  assert (h / 1024 = id - 2) as ->; [|lia]. symmetry. apply (Z.div_unique _ _ _ (h - 1024 * (id - 2))); lia.
Qed.

Section finished.
Context (d : fsm_map) (N : Z) (root lev last : Z).
Hypothesis (F : forest d N [] [root] lev last) (HN : 1 < N ≤ NO_PAGE) (Hmade : 1 + leaves_of N ≤ last).

Lemma top_page : ∃ p, d !! root = Some p ∧ parent_page (header p) = 0 ∧ level (header p) = lev.
Proof using F. apply (fo_next _ _ _ _ _ _ F). by left. Qed.

(** A page that is not the top has an ancestor below it. *)
Lemma top_has_child id q r : d !! id = Some q → id ≠ root → d !! root = Some r → child_page_ids r ≠ [].
Proof using F.
  intros Hq Hne Hr. remember (Z.to_nat (lev - level (header q))) as m eqn:Hm.
  revert id q Hq Hne Hm. induction m as [m IH] using lt_wf_ind. intros id q Hq Hne Hm.
  destruct (fo_parent _ _ _ _ _ _ F _ _ Hq) as [Hin|(P & HP & Hin)].
  { cbn in Hin. by apply list_elem_of_singleton in Hin. }
  destruct (fo_kids _ _ _ _ _ _ F _ _ _ HP Hin) as (q' & Hq' & _ & Hlv). assert (q' = q) as -> by congruence.
  destruct (decide (parent_page (header q) = root)) as [E|Hpr].
  - rewrite E in HP. assert (P = r) as -> by congruence. intros Hn. rewrite Hn in Hin. by apply elem_of_nil in Hin.
  - destruct (fo_page _ _ _ _ _ _ F _ _ HP) as (_ & _ & HlP). eapply (IH (Z.to_nat (lev - level (header P)))); [lia|exact HP|done|done].
Qed.

Lemma forest_shaped : shaped d root (size d).
Proof using F HN Hmade.
  destruct top_page as (r & Hr & Hpar & Hlev). split.
  - intros id p Hp. apply (fr_shaped _ _ (proj1 (fo_page _ _ _ _ _ _ F _ _ Hp))).
  - exists r. split; [done|]. split; [done|]. intros Hleaf.
    destruct (fo_page _ _ _ _ _ _ F _ _ Hr) as ([Hsh Hex _] & Hle & _).
    pose proof (exact_start r Hex). pose proof (ex_leaves _ Hex) as Hlv.
    destruct (sh_heap _ _ Hsh Hleaf) as (Hc & _). destruct (fo_leaves _ _ _ _ _ _ F _ _ Hr Hleaf) as [_ Hcnt].
    destruct (Z.eq_dec (leaf_start (header r)) 0) as [Hz|]; [exfalso|lia].
    pose proof (sh_id _ _ Hsh).
    assert (root ≠ 2) as Hr2 by (intros ->; lia).
    destruct (fo_made _ _ _ _ _ _ F 2) as (q & Hq & _);
      [unfold leaves_of in Hmade; assert (1 <= (N + 1023) / 1024) by (apply Z.div_le_lower_bound; lia); lia|
       unfold leaves_of; assert (1 <= (N + 1023) / 1024) by (apply Z.div_le_lower_bound; lia); lia|].
    apply (top_has_child 2 q r Hq); [done|done|].
    destruct (st_type _ (sh_store _ _ Hsh)) as [(Ht & _)|(_ & Hk)]; [|done].
    unfold is_leaf_page in Hleaf. by rewrite Ht in Hleaf.
  - intros id p Hp. destruct (fo_page _ _ _ _ _ _ F _ _ Hp) as (_ & _ & Hl). pose proof (fo_size _ _ _ _ _ _ F) as Hsz.
    change (len [root]) with 1 in Hsz. lia.
  - apply (fo_kids _ _ _ _ _ _ F).
  - intros id q Hq Hne. destruct (fo_parent _ _ _ _ _ _ F _ _ Hq) as [Hin|?]; [|done].
    cbn in Hin. by apply list_elem_of_singleton in Hin.
  - intros id id' p p' h Hp Hp' Hc Hc'. destruct (covers_leaf _ _ _ _ _ _ _ _ _ F Hp Hc) as [-> _].
    by destruct (covers_leaf _ _ _ _ _ _ _ _ _ F Hp' Hc') as [-> _].
Qed.

Lemma forest_tree : fsm_tree d root (size d) ∧ ∀ h v, records d h v ↔ 0 ≤ h < N ∧ v = NO_SPACE.
Proof using F HN Hmade.
  split; [split; [apply forest_shaped| |]|].
  - intros id p Hp. apply (fr_exact _ _ (proj1 (fo_page _ _ _ _ _ _ F _ _ Hp))).
  - intros id p j c q Hp Hc Hj Hq _. unfold leaf_value.
    rewrite (fr_zero _ _ (proj1 (fo_page _ _ _ _ _ _ F _ _ Hp))).
    by rewrite (fr_zero _ _ (proj1 (fo_page _ _ _ _ _ _ F _ _ Hq))).
  - intros h v. split.
    + intros (id & p & Hp & Hc & ->). destruct (covers_leaf _ _ _ _ _ _ _ _ _ F Hp Hc) as [_ Hh]. split; [done|].
      unfold leaf_value. apply (fr_zero _ _ (proj1 (fo_page _ _ _ _ _ _ F _ _ Hp))).
    + intros [Hh ->]. pose proof (Z.div_mod h 1024 ltac:(lia)) as Hdm. pose proof (Z.mod_pos_bound h 1024 ltac:(lia)) as Hmb.
      assert (h / 1024 < leaves_of N) as Hlt.
      { unfold leaves_of. pose proof (Z.div_mod (N + 1023) 1024 ltac:(lia)).
        pose proof (Z.mod_pos_bound (N + 1023) 1024 ltac:(lia)). lia. }
      pose proof (Z.div_pos h 1024 ltac:(lia) ltac:(lia)).
      destruct (fo_made _ _ _ _ _ _ F (2 + h / 1024)) as (p & Hp & Hleaf); [lia|lia|].
      destruct (fo_leaves _ _ _ _ _ _ F _ _ Hp Hleaf) as [Hf Hc]. exists (2 + h / 1024), p. split; [done|].
      replace (2 + h / 1024 - 2) with (h / 1024) in * by lia. split.
      * unfold covers. rewrite Hleaf, Hf, Hc. cbn [andb]. rewrite andb_true_iff, Z.leb_le, Z.ltb_lt. lia.
      * unfold leaf_value. by rewrite (fr_zero _ _ (proj1 (fo_page _ _ _ _ _ _ F _ _ Hp))).
Qed.
End finished.

Import S_Fsm.

(** ** Calls on the tree in memory *)

(** The object [s] in the middle of a call that began in [s0]. *)
Record in_memory (s0 : S_SecFSM) (d : fsm_map) (s : S_SecFSM) : Prop := {
  im_pages : fst <$> fsm_pages_ s = d;
  im_meta : meta_ s = meta_ s0;
  im_rest : dm_ s = dm_ s0 ∧ fsm_file s = fsm_file s0 ∧ initialized_ s = initialized_ s0 ∧ buffer_pool_ s = buffer_pool_ s0;
  im_dirty : (∀ id e, fsm_pages_ s0 !! id = Some e → snd e = true) → ∀ id e, fsm_pages_ s !! id = Some e → snd e = true
}.

Lemma in_memory_start s : in_memory s (fst <$> fsm_pages_ s) s.
Proof. split; done. Qed.

Lemma in_memory_lookup s0 d s id p : in_memory s0 d s → d !! id = Some p → ∃ b, fsm_pages_ s !! id = Some (p, b).
Proof.
  intros [<- _ _ _] Hp. rewrite lookup_fmap in Hp. destruct (fsm_pages_ s !! id) as [[q b]|]; [|done].
  cbn in Hp. injection Hp as ->. eauto.
Qed.

Lemma wp_loaded s0 d s id p (Q : option S_FSMPageData → S_SecFSM → Prop) :
  in_memory s0 d s → d !! id = Some p → Q (Some p) s → wp (loaded id) Q s.
Proof.
  intros Hs Hp HQ. destruct (in_memory_lookup _ _ _ _ _ Hs Hp) as [b Hb].
  unfold loaded, load_fsm_page, get_page. do 4 wp_step. cbv beta. wp_step. cbv beta.
  wp_step. cbv beta. rewrite Hb. rewrite bool_decide_eq_true_2 by eauto. repeat wp_step. by rewrite Hb.
Qed.

Lemma in_memory_insert s0 d s id p b :
  in_memory s0 d s → (b = true ∨ ∃ q, fsm_pages_ s !! id = Some (q, b)) →
  in_memory s0 (<[id := p]> d) (set_fsm_pages (<[id := (p, b)]> (fsm_pages_ s)) s).
Proof.
  intros [H1 H2 H3 H4] Hb. split; cbn; try done.
  - by rewrite fmap_insert, H1.
  - intros H0 i e He. destruct (decide (i = id)) as [->|Hne].
    + rewrite lookup_insert_eq in He. injection He as <-. cbn. destruct Hb as [->|[q Hq]]; [done|].
      apply (H4 H0 _ _ Hq).
    + rewrite lookup_insert_ne in He by done. eauto.
Qed.

Lemma wp_ensure s0 d s id p (Q : S_FSMPageData → S_SecFSM → Prop) :
  in_memory s0 d s → d !! id = Some p → storable p → (∀ s', in_memory s0 d s' → Q p s') →
  wp (ensure_child_vector id p) Q s.
Proof.
  intros Hs Hp Hst HQ. destruct (in_memory_lookup _ _ _ _ _ Hs Hp) as [b Hb]. unfold ensure_child_vector.
  rewrite (storable_ensure p Hst). repeat wp_step. rewrite Hb. cbn [fmap option_fmap option_map snd default].
  apply HQ. rewrite <- (insert_id d id p Hp). apply in_memory_insert; eauto.
Qed.

Section memory.
Context (s0 : S_SecFSM) (root : Z).

Lemma wp_s_search_leaf n d (T : fsm_tree d root n) fuel id p h (Q : Z → S_SecFSM → Prop) s :
  in_memory s0 d s → d !! id = Some p → level (header p) < Z.of_nat fuel →
  (∀ x s', in_memory s0 d s' → leaf_answer d h x (none_under d h id) → Q x s') →
  wp (search_leaf_page_from fuel h id) Q s.
Proof.
  revert id p s Q. induction fuel as [|fuel IH]; intros id p s Q Hs Hp Hf HQ;
    pose proof (t_page _ _ _ (tr_shaped _ _ _ T) _ _ Hp) as Hok.
  { pose proof (sh_level _ _ Hok). lia. }
  cbn [search_leaf_page_from]. wp_step. eapply wp_loaded; [exact Hs|exact Hp|]. cbv beta iota zeta.
  change (page_type (header p) =? LEAF_PAGE) with (is_leaf_page p). destruct (is_leaf_page p) eqn:Hleaf.
  - wp_step. rewrite (covers_code p h id Hok Hleaf). apply HQ; [done|]. by apply leaf_answers.
  - wp_step. eapply wp_ensure; [exact Hs|exact Hp|apply Hok|]. intros s1 H1. cbv beta.
    eapply (wp_first_answer (in_memory s0 d) d _ h); [|exact H1|].
    + intros c s' R Hc Hs' HR. destruct (t_kids _ _ _ (tr_shaped _ _ _ T) _ _ _ Hp Hc) as (q & Hq & _ & Hlev).
      eapply IH; [exact Hs'|exact Hq|lia|exact HR].
    + intros x s4 H4 Ha. apply HQ; [done|]. by eapply inner_answers.
Qed.

Lemma fuel_enough n d s : in_memory s0 d s → n = size d → (n < fuel_for s)%nat.
Proof. intros Hs ->. unfold fuel_for. rewrite <- (im_pages _ _ _ Hs), map_size_fmap. lia. Qed.

Lemma wp_s_find_leaf n d (T : fsm_tree d root n) h (Q : Z → S_SecFSM → Prop) s :
  in_memory s0 d s → n = size d → root = root_page_id (meta_ s0) →
  (∀ x s', in_memory s0 d s' → leaf_answer d h x (∀ v, ¬ records d h v) → Q x s') →
  wp (find_leaf_page_for_heap_page h) Q s.
Proof.
  intros Hs Hn Hroot HQ. unfold find_leaf_page_for_heap_page. repeat wp_step.
  rewrite (im_meta _ _ _ Hs), <- Hroot. destruct (t_root _ _ _ (tr_shaped _ _ _ T)) as (r & Hr & _).
  pose proof (t_top _ _ _ (tr_shaped _ _ _ T) _ _ Hr). pose proof (fuel_enough n d s Hs Hn).
  eapply (wp_s_search_leaf n d T); [exact Hs|exact Hr|lia|]. intros x s' Hs' [Hq|[-> Hnone]]; apply HQ; try done; [by left|].
  right. split; [done|]. eapply none_recorded; [exact (tr_shaped _ _ _ T)|exact Hnone].
Qed.

Lemma wp_s_update_node n fuel id k v p d (Q : unit → S_SecFSM → Prop) s :
  updatable d root n id k v p → in_memory s0 d s → Z.of_nat n - level (header p) ≤ Z.of_nat fuel →
  (∀ d' s', in_memory s0 d' s' → fsm_tree d' root n → dom d' = dom d →
     (∀ h w, records d' h w ↔ records (<[id := set_node k v p]> d) h w) → Q tt s') →
  wp (update_node_value fuel id k v) Q s.
Proof.
  revert id k v p d s Q. induction fuel as [|fuel IH]; intros id k v p d s Q Hup Hs Hf HQ;
    pose proof Hup as [T E Hp Hk Hv Hkids Hroot].
  { pose proof (t_top _ _ _ T _ _ Hp). lia. }
  pose proof (E _ _ Hp) as Ep. pose proof (exact_start p Ep) as Hs0'.
  pose proof (t_page _ _ _ T _ _ Hp) as Hok.
  destruct (in_memory_lookup _ _ _ _ _ Hs Hp) as [b Hb].
  cbn [update_node_value]. unfold get_page. repeat wp_step. rewrite Hb. cbn [fmap option_fmap option_map fst].
  destruct (lookup_lt_is_Some_2 (nodes p) (Z.to_nat k)) as [o Ho].
  { pose proof (ex_len _ Ep) as Hl. unfold len in Hl. lia. }
  rewrite Ho. wp_step. unfold put_page. wp_step.
  pose proof (in_memory_insert s0 d s id (set_node k v p) true Hs (or_introl eq_refl)) as H1.
  set (s1 := set_fsm_pages _ s) in *. unfold propagate_update. repeat wp_step.
  assert (fsm_pages_ s1 !! id = Some (set_node k v p, true)) as -> by (unfold s1; cbn; by rewrite lookup_insert_eq).
  destruct (propagate_exact p k v Ep Hk Hv) as (q & stop & Hrun & Exq & Hh & Hc & Hl & Hval & Hstop). rewrite Hrun.
  cbn [orb]. wp_step. wp_step.
  pose proof (in_memory_insert s0 _ s1 id q true H1 (or_introl eq_refl)) as H2. rewrite insert_insert_eq in H2.
  set (s2 := set_fsm_pages _ s1) in *.
  assert (alike p q) as Ha by (split; [by rewrite Hh|]; split; [by rewrite Hc|by rewrite Hl]).
  assert (storable q) as Hstq.
  { destruct (sh_store _ _ Hok) as [S1 S2 S3 S4 S5 S6]. split; rewrite ?Hh, ?Hc, ?Hl; done. }
  destruct (page_settled d root n id k v p q Hup Ha Hstq Exq Hval) as (T' & E' & A' & Hrec & Hdone).
  assert (dom (<[id := q]> d) = dom d) as Hsz by (apply dom_insert_lookup_L; eauto).
  rewrite Hh. destruct ((stop =? 0) && negb (parent_page (header p) =? 0)) eqn:Hgo.
  - apply andb_true_iff in Hgo as [Hz%Z.eqb_eq Hpz]. apply negb_true_iff, Z.eqb_neq in Hpz.
    assert (id ≠ root) as Hidr.
    { intros ->. destruct (t_root _ _ _ T) as (p' & Hp' & Hz' & _). simplify_eq. }
    destruct (t_parent _ _ _ T _ _ Hp Hidr) as (P & HP & Hin). set (pid := parent_page (header p)) in *.
    destruct (t_kids _ _ _ T _ _ _ HP Hin) as (p' & Hp' & _ & Hlev). assert (p' = p) as -> by congruence.
    assert (pid ≠ id) as Hne by (intros Heq; assert (P = p) as -> by congruence; lia).
    assert (is_leaf_page P = false) as HPl.
    { destruct (is_leaf_page P) eqn:HPl; [|done]. unfold is_leaf_page in HPl. apply Z.eqb_eq in HPl.
      destruct (st_type _ (sh_store _ _ (t_page _ _ _ T _ _ HP))) as [(Ht & _)|(_ & Hk')].
      - by rewrite HPl in Ht.
      - rewrite Hk' in Hin. by apply elem_of_nil in Hin. }
    pose proof (sh_store _ _ (t_page _ _ _ T _ _ HP)) as HstP.
    destruct (find_child P id HPl HstP Hin) as (j & Hj & Hj0 & Hcj).
    destruct (nodes q) as [|rv l2] eqn:Hn2.
    { pose proof (ex_len _ Exq) as Hl'. pose proof (ex_leaves _ Exq). pose proof (exact_start q Exq).
      rewrite Hn2 in Hl'. unfold len in Hl'. cbn [length] in Hl'. lia. }
    assert (value_at q 0 = rv) as Hrv by (unfold value_at; by rewrite Hn2).
    assert (<[id := q]> d !! pid = Some P) as HP' by (by rewrite lookup_insert_ne).
    wp_step. eapply wp_loaded; [exact H2|exact HP'|]. cbv beta iota. wp_step.
    eapply wp_ensure; [exact H2|exact HP'|exact HstP|]. intros s3 H3. cbv beta.
    rewrite Hj. pose proof (E _ _ HP) as EP. pose proof (exact_start P EP) as HsP.
    destruct (sh_kids _ _ (t_page _ _ _ T _ _ HP) HPl) as [HlenP _].
    assert (j < len (child_page_ids P)) as Hjl by (apply lookup_lt_Some in Hcj; unfold len; lia).
    pose proof (ex_len _ EP) as HlP. pose proof (ex_small _ EP) as HsmP.
    assert (u32 (leaf_start (header P) + j) = leaf_start (header P) + j) as ->
      by (unfold u32; rewrite Z.mod_small; lia).
    rewrite (proj2 (Z.ltb_lt (leaf_start (header P) + j) _)) by lia.
    destruct (lookup_lt_is_Some_2 (nodes P) (Z.to_nat (leaf_start (header P) + j))) as [pv Hpv];
      [unfold len in HlP; lia|]. rewrite Hpv.
    assert (leaf_value P j = pv) as Hlv by (unfold leaf_value, value_at; by rewrite Hpv).
    destruct (Z.eqb_spec pv rv) as [Heq|Hneq]; cbn [negb].
    + wp_step. eapply HQ; [exact H3| |exact Hsz|exact Hrec]. apply Hdone. right. left. rewrite Hrv, <- Heq, <- Hlv. by eapply Hroot.
    + pose proof (parent_updatable n root d id k v p q pid P j Hup Ha Hstq T' E' A' HP Hne HPl Hj0 Hcj) as Hup'.
      rewrite Hrv in Hup'. eapply IH; [exact Hup'|exact H3|lia|].
      intros d' s' Hs' Ht' Hsz' Hrec'. eapply HQ; [exact Hs'|exact Ht'|congruence|]. intros h w. rewrite Hrec', <- Hrec.
      apply (records_insert _ pid P); [done|apply alike_set_node|]. by rewrite HPl.
  - wp_step. eapply HQ; [exact H2| |exact Hsz|exact Hrec]. apply Hdone. apply andb_false_iff in Hgo as [Hz%Z.eqb_neq|Hpz].
    + right. left. by destruct Hstop.
    + apply negb_false_iff, Z.eqb_eq in Hpz. left. destruct (decide (id = root)); [done|].
      destruct (t_parent _ _ _ T _ _ Hp) as (P & HP & _); [done|]. rewrite Hpz in HP.
      pose proof (sh_id _ _ (t_page _ _ _ T _ _ HP)). lia.
Qed.

End memory.
