(* ===== verification/SFsmProtocol.v ===== *)
(** The free-space map from the storage node to the compute nodes: it is built with no space
    anywhere, told what the pages have, written, and then stands for exactly this on
    the compute nodes that fetch its pages. *)

From S2P Require Import Prelude Common Bytes Record RecordPage DiskManager FsmReplay FsmTree FsmPage FsmInv FsmUpdate FsmProtocol FsmReplayProtocol SFsm SFsmOps.

Import S_Fsm.

(** Pages [0] to [N - 1] of the table, without space. *)
Definition empty_map (N : Z) : gmap Z Z := gset_to_gmap NO_SPACE (list_to_set (seqZ 0 N)).

Lemma empty_map_spec N h v : empty_map N !! h = Some v ↔ 0 ≤ h < N ∧ v = NO_SPACE.
Proof.
  unfold empty_map. rewrite lookup_gset_to_gmap_Some, elem_of_list_to_set, elem_of_seqZ. split; intros [? ?]; split; lia || done.
Qed.

(** What the object in memory stands for. *)
Record s_represents (s : S_SecFSM) (space : gmap Z Z) : Prop := {
  sr_ready : initialized_ s = true;
  sr_tree : fsm_tree (fst <$> fsm_pages_ s) (root_page_id (meta_ s)) (size (fsm_pages_ s));
  sr_records : ∀ h v, space !! h = Some v ↔ records (fst <$> fsm_pages_ s) h v;
  sr_total : ∀ h v, space !! h = Some v → h < total_heap_pages (meta_ s);
  sr_ids : ∀ id, id ∈ dom (fsm_pages_ s) → 2 ≤ id;
  sr_meta : len (meta_ s) = sizeof_FSMMetaData ∧ field 0 4 (meta_ s) = FSM_META_MAGIC
}.

(** All pages are to be written. *)
Definition all_dirty (s : S_SecFSM) : Prop := ∀ id e, fsm_pages_ s !! id = Some e → snd e = true.

Definition same_disk (s s' : S_SecFSM) : Prop := dm_ s' = dm_ s ∧ fsm_file s' = fsm_file s.

(** ** Building *)

Lemma building_start s N : len (meta_ s) = sizeof_FSMMetaData → fsm_pages_ s = ∅ →
  next_fsm_page_id (meta_ s) = 1 → total_heap_pages (meta_ s) = N → building s s ∅ N 1.
Proof. intros. split; try done. Qed.

Lemma leaves_bound N : 0 < N ≤ 2 ^ 32 - 1024 → 1 ≤ leaves_of N ≤ 2 ^ 22.
Proof.
  intros HN. unfold leaves_of. pose proof (Z.div_mod (N + 1023) 1024 ltac:(lia)).
  pose proof (Z.mod_pos_bound (N + 1023) 1024 ltac:(lia)). lia.
Qed.

Lemma wp_build N (Q : bool → S_SecFSM → Prop) s :
  len (meta_ s) = sizeof_FSMMetaData → next_fsm_page_id (meta_ s) = 1 → total_heap_pages (meta_ s) = N →
  field 0 4 (meta_ s) = FSM_META_MAGIC → 1 < N ≤ 2 ^ 32 - 1024 →
  (∀ s', initialized_ s' = initialized_ s → same_disk s s' → all_dirty s' →
     (∀ s'', s'' = set_initialized true s' → s_represents s'' (empty_map N)) → Q true s') →
  wp build_fsm_tree Q s.
Proof.
  intros Hlen Hnext Htot Hmag HN HQ. unfold build_fsm_tree. pose proof (leaves_bound N ltac:(lia)) as HL.
  wp_step. wp_step. cbv beta.
  pose proof (building_start (set_fsm_pages ∅ s) N Hlen eq_refl Hnext Htot) as H0. set (s0 := set_fsm_pages ∅ s) in *.
  do 2 (wp_step; eapply wp_meta_field; [eassumption|lia|unfold sizeof_FSMMetaData; lia|lia|]; intros ? ? _; cbv beta).
  wp_step. wp_step. cbv beta.
  match goal with H : building s0 ?x _ _ _ |- wp _ _ ?x => rename H into H2; rename x into s2 end.
  rewrite (bu_total _ _ _ _ _ H2), (proj2 (Z.eqb_neq N 0)) by lia. wp_step.
  assert (u32 (N + S_LEAVES_PER_PAGE - 1) / S_LEAVES_PER_PAGE = leaves_of N) as ->.
  { unfold S_LEAVES_PER_PAGE, u32, leaves_of. rewrite Z.mod_small by lia. f_equal. lia. }
  eapply (wp_create_leaves s0 N _ 0 ∅ []); [exact H2|apply forest_empty|done|lia|lia|].
  intros d l s3 H3 F Hl. cbv beta iota. cbn [app] in F. rewrite Z.add_0_r in *. rewrite Z2Nat.id in * by lia.
  assert (len l = leaves_of N) as Hll by (unfold len; lia). wp_step.
  eapply wp_meta_field; [exact H3|lia|unfold sizeof_FSMMetaData; lia|lia|]. intros s4 H4 _. cbv beta. wp_step.
  eapply (wp_create_levels s0 N _ d l 0); [exact H4|exact F| |lia|lia|unfold NO_PAGE; lia|lia|lia|unfold len; lia|].
  { intros ->. rewrite len_nil in Hll. lia. }
  intros d' root lev last s5 H5 F' Hmade. cbv beta iota. wp_step.
  eapply wp_meta_field; [exact H5|lia|unfold sizeof_FSMMetaData; lia|lia|]. intros s6 H6 Hm6. cbv beta. wp_step.
  destruct (forest_tree d' N root lev last F' ltac:(unfold NO_PAGE; lia) Hmade) as [T Hrec].
  destruct H6 as [P1 P2 P3 P4 P5 (P6 & P7 & P8 & P9)]. apply HQ; [exact P8|done| |].
  - intros id e He. rewrite P1, lookup_fmap in He. destruct (d' !! id); [|done]. by injection He as <-.
  - intros s'' ->. assert (fst <$> fsm_pages_ s6 = d') as Hd.
    { rewrite P1, <- map_fmap_compose. apply map_eq. intros i. rewrite lookup_fmap. by destruct (d' !! i). }
    assert (root_page_id (meta_ s6) = root) as Hroot.
    { rewrite Hm6. unfold root_page_id. apply (field_set_same 20 4); [lia| |].
      - rewrite (bu_size _ _ _ _ _ H5). unfold sizeof_FSMMetaData. lia.
      - destruct (fo_next _ _ _ _ _ _ F' root) as (r & Hr & _); [by left|].
        destruct (fo_page _ _ _ _ _ _ F' _ _ Hr) as ([[Hid _ _ _ _] _ _] & _). unfold uint_fits, NO_PAGE in *. lia. }
    split; cbn; try done.
    + rewrite Hd, Hroot. assert (size (fsm_pages_ s6) = size d') as -> by (rewrite P1; apply map_size_fmap). done.
    + intros h v. by rewrite empty_map_spec, Hd, Hrec.
    + intros h v Hv. apply empty_map_spec in Hv as [Hh _]. rewrite P4. lia.
    + intros id Hid. rewrite P1, dom_fmap_L in Hid. apply elem_of_dom in Hid as [p Hp].
      destruct (fo_page _ _ _ _ _ _ F' _ _ Hp) as (_ & ? & _). lia.
    + by rewrite P5.
Qed.

#[local] Ltac meta_len := repeat (rewrite len_set_field; [|lia|]); try lia.

Lemma meta_other off n off' w v h : len h = 120 → 0 ≤ off → 0 ≤ off' → off' + Z.of_nat w ≤ 120 →
  off + n ≤ off' ∨ off' + Z.of_nat w ≤ off → field off n (set_field off' w v h) = field off n h.
Proof. intros. apply field_set_other; lia. Qed.

Lemma meta_same off w v h : len h = 120 → 0 ≤ off → off + Z.of_nat w ≤ 120 → uint_fits w v →
  field off (Z.of_nat w) (set_field off w v h) = v.
Proof. intros. apply field_set_same; lia || done. Qed.

Lemma meta_size off w v h : len h = 120 → 0 ≤ off → off + Z.of_nat w ≤ 120 → len (set_field off w v h) = 120.
Proof. intros. rewrite len_set_field; lia. Qed.

#[local] Ltac size_ok := repeat (apply meta_size; [|lia|lia]); assumption.

Lemma wp_set_field off w v (Q : unit → S_SecFSM → Prop) dm pool file m pgs ini :
  Q tt (mkFsm dm pool file (set_field off w v m) pgs ini) →
  wp (set_meta_field off w v) Q (mkFsm dm pool file m pgs ini).
Proof. done. Qed.

Lemma wp_initialize now table_id N (Q : bool → S_SecFSM → Prop) s :
  len (meta_ s) = sizeof_FSMMetaData → initialized_ s = false → 1 < N ≤ 2 ^ 32 - 1024 →
  (∀ s', s_represents s' (empty_map N) → same_disk s s' → all_dirty s' → Q true s') →
  wp (initialize now table_id N) Q s.
Proof.
  intros Hlen Hinit HN HQ. change sizeof_FSMMetaData with 120 in Hlen.
  assert (∀ s1, len (meta_ s1) = 120 → initialized_ s1 = false → same_disk s s1 →
    wp (initialize now (-1) N) Q s1) as Hrest.
  { intros s1 Hl1 Hi1 Hd1. destruct s1 as [dm pool file m pgs ini]. cbn [meta_ initialized_] in Hl1, Hi1. subst ini.
    unfold initialize. rewrite Z.eqb_refl. cbn [negb when]. do 4 wp_step. cbn [initialized_]. do 2 wp_step.
    unfold set_fsm_pages. cbn [meta_ dm_ buffer_pool_ fsm_file initialized_]. cbv beta.
    do 9 (wp_step; apply wp_set_field; cbv beta). rewrite (proj2 (Z.eqb_neq N 0)) by lia.
    wp_step. apply wp_set_field. cbv beta. wp_step.
    match goal with |- wp _ _ (mkFsm _ _ _ ?x _ _) => set (m2 := x) end.
    assert (len m2 = 120) as Hl2 by (unfold m2; size_ok).
    eapply (wp_build N); [exact Hl2| | | |lia|].
    - cbn [meta_]. unfold m2, next_fsm_page_id.
      repeat (rewrite meta_other by (size_ok || lia)). apply (meta_same 24 4); [size_ok|lia|lia|].
      unfold uint_fits, S_FSM_ROOT_PAGE_ID. lia.
    - cbn [meta_]. unfold m2, total_heap_pages. apply (meta_same 8 4); [size_ok|lia|lia|].
      unfold uint_fits. lia.
    - cbn [meta_]. unfold m2. repeat (rewrite meta_other by (size_ok || lia)).
      apply (meta_same 0 4); [size_ok|lia|lia|]. unfold uint_fits, FSM_META_MAGIC. lia.
    - intros s' Hi' Hd' Hdirty Hrep. cbv beta. cbn [negb]. repeat wp_step. apply HQ; [by apply Hrep| |exact Hdirty].
      destruct Hd1, Hd'. split; cbn in *; congruence. }
  unfold initialize at 1. destruct (Z.eqb_spec table_id (-1)) as [->|Hne].
  - exact (Hrest s Hlen Hinit (conj eq_refl eq_refl)).
  - cbn [negb when]. wp_step. destruct s as [dm pool file m pgs ini]. apply wp_set_field. cbv beta.
    pose proof (Hrest (mkFsm dm pool file (set_field 48 4 table_id m) pgs ini)) as H. unfold initialize in H at 1.
    rewrite Z.eqb_refl in H. cbn [negb when] in H. apply H; [|done|done].
    apply meta_size; [done|lia|lia].
Qed.

(** ** What is free *)

Lemma wp_update s space h free (Q : unit → S_SecFSM → Prop) :
  s_represents s space → 0 ≤ h < 2 ^ 32 →
  (∀ s', s_represents s' (told space h (space_to_category free)) → same_disk s s' → (all_dirty s → all_dirty s') → Q tt s') →
  wp (update_page_space h free) Q s.
Proof.
  intros [Hi T Hrec Htot Hids Hmeta] Hh HQ. set (d := fst <$> fsm_pages_ s) in *. set (n := size (fsm_pages_ s)) in *.
  set (v := space_to_category free) in *. assert (n = size d) as Hn by (unfold d; by rewrite map_size_fmap).
  assert (∀ s', in_memory s d s' → ∀ space', fsm_tree d (root_page_id (meta_ s)) n →
    space' = space → s_represents s' space') as Hsame.
  { intros s' [P1 P2 (P3 & P4 & P5 & P6) P7] space' T' ->. assert (size (fsm_pages_ s') = n) as Hsz'
      by (rewrite Hn, <- P1; by rewrite map_size_fmap).
    split; rewrite ?P1, ?P2, ?P5, ?Hsz'; try done. intros id Hid. apply Hids. rewrite <- (dom_fmap_L fst), P1 in Hid.
    unfold d in Hid. by rewrite dom_fmap_L in Hid. }
  assert (∀ s', in_memory s d s' → same_disk s s' ∧ (all_dirty s → all_dirty s')) as Hkeep
    by (intros s' [_ _ (P3 & P4 & _) P7]; split; [done|exact P7]).
  unfold update_page_space. wp_step. wp_step. wp_step. wp_step. cbv beta. rewrite Hi. cbn [negb orb].
  destruct (Z.leb_spec (total_heap_pages (meta_ s)) h) as [Hout|Hin].
  { wp_step. pose proof (in_memory_start s) as Hm. destruct (Hkeep _ Hm). apply HQ; [|done|done].
    apply (Hsame _ Hm); [done|]. unfold told. rewrite decide_False; [done|]. intros [w Hw]. apply Htot in Hw. lia. }
  wp_step. eapply (wp_s_find_leaf s _ n d T); [apply in_memory_start|exact Hn|done|].
  intros x s2 H2 [[Hx (q & Hq & Hc)]|[-> Hnone]]; cbv beta; destruct (Hkeep _ H2).
  2:{ rewrite Z.eqb_refl. wp_step. apply HQ; [|done|done]. apply (Hsame _ H2); [done|]. unfold told.
      rewrite decide_False; [done|]. intros [w Hw]. by apply Hrec, Hnone in Hw. }
  rewrite (proj2 (Z.eqb_neq x NO_PAGE)) by done. wp_step. eapply wp_loaded; [exact H2|exact Hq|]. cbv beta iota zeta.
  destruct (table_page_node n d _ x q h T Hq Hc Hh) as (-> & Hk & [o Ho]).
  rewrite (proj2 (Z.leb_gt (node_count (header q)) _)) by lia. rewrite Ho.
  set (k := leaf_start (header q) + (h - first_heap_page (header q))) in *.
  assert (leaf_value q (h - first_heap_page (header q)) = o) as Hlv
    by (unfold leaf_value, value_at; fold k; by rewrite Ho).
  assert (space !! h = Some o) as Hsp by (apply Hrec; exists x, q; done).
  fold v. destruct (Z.eqb_spec v o) as [Heq|Hne]; cbn [negb].
  { wp_step. apply HQ; [|done|done]. apply (Hsame _ H2); [done|]. unfold told. rewrite decide_True by eauto.
    rewrite Heq. by apply insert_id. }
  wp_step. wp_step. cbv beta.
  assert (is_leaf_page q = true) as Hleaf by (unfold covers in Hc; by bool_simpl).
  assert (updatable d (root_page_id (meta_ s)) n x k v q) as Hup
    by (apply leaf_updatable; [done|done|done|lia|apply space_category_nonneg]).
  pose proof (fuel_enough s n d s2 H2 Hn). pose proof (sh_level _ _ (t_page _ _ _ (tr_shaped _ _ _ T) _ _ Hq)).
  eapply wp_s_update_node; [exact Hup|exact H2|lia|]. intros d' s' [P1 P2 (P3 & P4 & P5 & P6) P7] T' Hdom Hrec'.
  assert (size (fsm_pages_ s') = n) as Hsz'.
  { rewrite Hn, <- (size_dom d), <- Hdom, <- P1. by rewrite dom_fmap_L, size_dom. }
  assert (∀ h' w, told space h v !! h' = Some w ↔ records d' h' w) as Hrec2.
  { intros h' w. unfold told. rewrite decide_True by eauto. rewrite Hrec'.
    rewrite (records_set d (root_page_id (meta_ s)) n x q (set_node k v q) h v);
      [|apply T|done|done|apply alike_set_node|].
    - case_decide as D; [subst h'; rewrite lookup_insert_eq; naive_solver|].
      rewrite lookup_insert_ne by done. apply Hrec.
    - intros j Hj. unfold leaf_value. change (header (set_node k v q)) with (header q).
      pose proof (tr_exact _ _ _ T _ _ Hq) as E. pose proof (exact_start q E). pose proof (ex_len _ E).
      rewrite value_at_set_node by lia. unfold k. repeat case_decide; lia || done. }
  apply HQ; [|done|exact P7]. split; rewrite ?P1, ?P2, ?P5, ?Hsz'; try done.
  - intros h' w Hw. unfold told in Hw. rewrite decide_True in Hw by eauto.
    destruct (decide (h' = h)) as [->|D]; [done|]. rewrite lookup_insert_ne in Hw by done. eauto.
  - intros id Hid. apply Hids. rewrite <- (dom_fmap_L fst), P1, Hdom in Hid. unfold d in Hid. by rewrite dom_fmap_L in Hid.
Qed.

(** ** Writing and reading back *)

(** A page written into a file that may end before it. *)
Lemma wp_write_new dm fd name F p bs (Q : unit → DiskManager → Prop) :
  fds dm !! fd = Some name → files dm !! name = Some F → 0 ≤ p → len bs = PAGE_SIZE →
  (∀ F', has_page F' p → page_of F' p = bs →
     (∀ q, q ≠ p → has_page F q → has_page F' q ∧ page_of F' q = page_of F q) →
     Q tt (set_files (<[name := F']> (files dm)) dm)) →
  wp (write_page fd p bs) Q dm.
Proof.
  intros Hfd HF Hp Hlen HQ. unfold write_page, pwrite. repeat wp_step. rewrite Hfd. simpl. rewrite HF. unfold PAGE_SIZE in *.
  assert ((p * 4096 <? 0) = false) as -> by (apply Z.ltb_ge; lia). repeat wp_step; [|lia]. rewrite Hlen.
  set (G := DiskManager.extend (p * 4096 + 4096) F).
  assert (p * 4096 + 4096 ≤ len G ∧ len F ≤ len G) as [HG HFG].
  { unfold G, DiskManager.extend. rewrite len_app. unfold len. rewrite length_replicate. lia. }
  assert (has_page G p) as HpG by (unfold has_page, PAGE_SIZE; lia).
  apply HQ.
  - unfold has_page, PAGE_SIZE. rewrite len_splice; lia.
  - apply (page_of_set_page G p HpG bs Hlen).
  - intros q Hq [Hq0 Hq1]. unfold PAGE_SIZE in Hq1. split.
    + unfold has_page, PAGE_SIZE. rewrite len_splice; lia.
    + change (page_of (set_page p bs G) q = page_of F q). rewrite (page_of_set_page_other G p HpG bs q Hlen Hq0 Hq). unfold page_of, PAGE_SIZE, G, DiskManager.extend.
      apply list_eq. intros i. rewrite !slice_lookup by lia. case_decide; [|done].
      rewrite lookup_app_l; [done|]. unfold len in *. lia.
Qed.

(** The file while it is written: the pages of [done_] decode to what they should. *)
Record written (now : Z) (d : fsm_map) (m : buffer) (done_ : list Z) (file : path) (fd : Z) (dm : DiskManager) : Prop := {
  wr_fd : fds dm !! fd = Some file;
  wr_pages : ∃ F, files dm !! file = Some F ∧
    (∀ id p, id ∈ done_ → d !! id = Some p →
       has_page F id ∧ DeserializeFSMPage (page_of F id) = Some (stamp now p)) ∧
    has_page F FSM_META_PAGE_ID ∧ slice 0 sizeof_FSMMetaData (page_of F FSM_META_PAGE_ID) = m
}.

Lemma len_zeros : len zeros = PAGE_SIZE.
Proof. unfold zeros, len. rewrite length_replicate. done. Qed.

Lemma wp_flush_page now d m done_ file fd id p (Q : bool → S_SecFSM → Prop) s :
  written now d m done_ file fd (dm_ s) → fsm_pages_ s !! id = Some (p, true) → d !! id = Some p → storable p → 2 ≤ id →
  (∀ s', written now d m (id :: done_) file fd (dm_ s') → fsm_file s' = fsm_file s → meta_ s' = meta_ s →
     (∀ i, i ≠ id → fsm_pages_ s' !! i = fsm_pages_ s !! i) → Q true s') →
  wp (flush_fsm_page now fd id) Q s.
Proof.
  intros [Hfd (F & HF & Hdone & Hm1 & Hm2)] Hps Hd Hst Hid HQ. unfold flush_fsm_page. do 2 wp_step. rewrite Hps. cbn [negb].
  destruct (serialize_page_ok now p zeros Hst len_zeros) as (bs & -> & Hlen & Hdec).
  wp_step. unfold on_disk. wp_step. eapply wp_write_new; [exact Hfd|exact HF|lia|exact Hlen|].
  intros F' Hp1 Hp2 Hother. wp_step. wp_step. cbv beta. wp_step. apply HQ; try done.
  - split; [done|]. exists F'. split; [cbn; by rewrite lookup_insert_eq|]. unfold FSM_META_PAGE_ID in *.
    split; [|split; [by apply Hother; [lia|]|]].
    + intros i q Hi Hq. destruct (decide (i = id)) as [->|Hne].
      * split; [done|]. rewrite Hp2, Hdec. congruence.
      * apply elem_of_cons in Hi as [->|Hi]; [done|]. destruct (Hdone _ _ Hi Hq) as [H1 H2].
        destruct (Hother i Hne H1) as [? ->]. done.
    + destruct (Hother 1 ltac:(lia) Hm1) as [_ ->]. done.
  - intros i Hi. cbn. by rewrite lookup_insert_ne.
Qed.

Lemma wp_flush_each now d m done_ file fd ids (Q : bool → S_SecFSM → Prop) s :
  written now d m done_ file fd (dm_ s) → NoDup ids →
  (∀ id, id ∈ ids → ∃ p, fsm_pages_ s !! id = Some (p, true) ∧ d !! id = Some p ∧ storable p ∧ 2 ≤ id) →
  (∀ s', written now d m (reverse ids ++ done_) file fd (dm_ s') → fsm_file s' = fsm_file s → meta_ s' = meta_ s → Q true s') →
  wp (flush_each now fd ids) Q s.
Proof.
  revert done_ s. induction ids as [|id ids IH]; intros done_ s Hw Hnd Hids HQ; cbn [flush_each].
  { wp_step. by apply HQ. }
  destruct (Hids id) as (p & Hp & Hd & Hst & Hid); [by left|]. apply NoDup_cons in Hnd as [Hnin Hnd].
  wp_step. eapply wp_flush_page; [exact Hw|exact Hp|exact Hd|done|done|]. intros s1 H1 Hf1 Hm1 Hps. cbv beta. cbn [negb].
  apply (IH (id :: done_)); [done|done| |].
  - intros i Hi. rewrite Hps by (intros ->; done). apply Hids. by right.
  - intros s2 H2 Hf2 Hm2. apply HQ; [|congruence|congruence]. by rewrite reverse_cons, <- app_assoc.
Qed.

Lemma wp_open_file_known dm file fd (Q : Z → DiskManager → Prop) :
  dm_wf dm → path2fd_ dm !! file = Some fd → Q fd dm → wp (open_file file) Q dm.
Proof.
  intros Hwf Hp HQ. unfold open_file. repeat wp_step. rewrite Hp.
  pose proof (proj1 (wf_inverse _ Hwf _ _) Hp) as Hf. destruct (wf_open _ Hwf _ _ Hf) as (H0 & _).
  repeat wp_step; [by apply Z.leb_le|apply bool_decide_eq_true_2; rewrite Hf; eauto|done].
Qed.

Lemma wp_flush now s space fd (Q : bool → S_SecFSM → Prop) :
  s_represents s space → all_dirty s → dm_wf (dm_ s) → path2fd_ (dm_ s) !! fsm_file s = Some fd →
  (∀ s' m d, map_open fd (fsm_file s) m space d (dm_ s') → Q true s') →
  wp (flush_all_pages now) Q s.
Proof.
  intros [Hi T Hrec Htot Hids [Hml Hmag]] Hdirty Hwf Hopen HQ. set (d := fst <$> fsm_pages_ s) in *.
  pose proof (proj1 (wf_inverse _ Hwf _ _) Hopen) as Hf. destruct (wf_open _ Hwf _ _ Hf) as (H0 & Hfd & [F0 HF0]).
  change sizeof_FSMMetaData with 120 in Hml.
  unfold flush_all_pages. do 3 wp_step. unfold on_disk at 1. wp_step. eapply wp_open_file_known; [done|exact Hopen|].
  cbv beta. do 2 wp_step. cbn [initialized_ set_dm]. rewrite Hi. cbn [negb].
  set (m := set_field 40 8 now (meta_ s)). assert (len m = 120) as Hlm by (by apply meta_size).
  assert (field 0 4 m = FSM_META_MAGIC) as Hmm by (unfold m; rewrite meta_other by lia; done).
  assert (root_page_id m = root_page_id (meta_ s)) as Hroot by (unfold root_page_id, m; by rewrite meta_other by lia).
  wp_step. unfold set_meta_field. wp_step. cbn [meta_ set_dm set_meta]. fold m.
  wp_step. wp_step. cbv beta. unfold on_disk. wp_step. wp_step.
  assert (len (splice 0 m zeros) = PAGE_SIZE) as Hsp by (rewrite len_splice; rewrite ?len_zeros, ?Hlm; unfold PAGE_SIZE; lia).
  cbn [dm_ set_dm set_meta meta_]. eapply wp_write_new; [exact Hfd|exact HF0|unfold S_FSM_META_PAGE_ID; lia|exact Hsp|].
  intros F1 Hp1 Hp2 _. wp_step. wp_step. cbv beta.
  eapply (wp_flush_each now d m []).
  - split; [exact Hfd|]. exists F1. split; [cbn; by rewrite lookup_insert_eq|]. split; [intros ? ? Hn; by apply elem_of_nil in Hn|].
    split; [exact Hp1|]. unfold FSM_META_PAGE_ID, S_FSM_META_PAGE_ID in *. rewrite Hp2.
    change sizeof_FSMMetaData with 120. rewrite <- Hlm at 1. apply slice_splice; rewrite ?len_zeros, ?Hlm; unfold PAGE_SIZE; lia.
  - apply NoDup_elements.
  - intros id Hid%elem_of_elements. cbn in Hid. pose proof (Hids id Hid) as H2. apply elem_of_dom in Hid as [[p b] Hp].
    exists p. cbn. assert (b = true) as -> by exact (Hdirty _ _ Hp).
    assert (d !! id = Some p) as Hd by (unfold d; by rewrite lookup_fmap, Hp).
    split_and!; [done|done|exact (sh_store _ _ (t_page _ _ _ (tr_shaped _ _ _ T) _ _ Hd))|done].
  - rewrite app_nil_r. cbn [fsm_pages_ set_dm set_meta]. intros s' [Hfd' (F & HF & Hpg & Hm1 & Hm2)] _ _.
    assert (size (fsm_pages_ s) = size (stamp now <$> d)) as Hsize by (unfold d; by rewrite !map_size_fmap).
    destruct (fsm_tree_stamped now d _ _ _ T (le_n _)) as [T' Hrec'].
    apply (HQ s' m (stamp now <$> d)). split; [exact Hfd'|]. exists F. split; [exact HF|]. split_and!; [|done| |].
    + split; [done|]. intros id q Hq. rewrite lookup_fmap in Hq. destruct (d !! id) as [p|] eqn:Hp; [|done]. injection Hq as <-.
      assert (id ∈ dom (fsm_pages_ s)) as Hid by (rewrite <- (dom_fmap_L fst); by apply elem_of_dom_2 in Hp).
      split; [by apply Hids|]. apply Hpg; [|done]. by rewrite elem_of_reverse, elem_of_elements.
    + by rewrite Hroot, <- Hsize.
    + intros h v. by rewrite Hrec, Hrec'.
Qed.

(** ** A table is loaded *)

(** What the storage node does with the map of a table with [num_pages] pages whose free space it has counted. *)
Definition load_map (now table_id num_pages : Z) (free : list (Z * Z)) : MS bool :=
  initialize now table_id num_pages ;;
  for_each (λ '(i, free_space), update_page_space i free_space) free ;;
  flush_all_pages now.

Lemma wp_load_map now table_id num_pages free fd (Q : bool → S_SecFSM → Prop) s :
  len (meta_ s) = sizeof_FSMMetaData → initialized_ s = false → 1 < num_pages ≤ 2 ^ 32 - 1024 →
  Forall (λ '(i, _), 0 ≤ i < 2 ^ 32) free →
  dm_wf (dm_ s) → path2fd_ (dm_ s) !! fsm_file s = Some fd →
  (∀ s' m d, map_open fd (fsm_file s) m (counted (empty_map num_pages) free) d (dm_ s') → Q true s') →
  wp (load_map now table_id num_pages free) Q s.
Proof.
  intros Hlen Hinit HN Hfree Hwf Hopen HQ. unfold load_map. wp_step. eapply wp_initialize; [done|done|done|].
  intros s1 R1 [Hd1 Hf1] Hdirty1. cbv beta. wp_step.
  apply (wp_for_each _ (λ rest s', ∃ space, s_represents s' space ∧ same_disk s s' ∧ all_dirty s' ∧
    Forall (λ '(i, _), 0 ≤ i < 2 ^ 32) rest ∧ counted space rest = counted (empty_map num_pages) free)).
  - exists (empty_map num_pages). done.
  - intros [i f] rest s2 (space & R2 & [Hd2 Hf2] & Hdirty2 & Hall & Heq). inversion Hall as [|? ? Hi Hrest]; subst.
    eapply wp_update; [exact R2|exact Hi|]. intros s3 R3 [Hd3 Hf3] Hdirty3. eexists. split; [exact R3|].
    split; [split; congruence|]. split; [auto|]. split; [done|]. exact Heq.
  - intros s2 (space & R2 & [Hd2 Hf2] & Hdirty2 & _ & Heq). cbn in Heq. subst space.
    eapply wp_flush; [exact R2|exact Hdirty2|by rewrite Hd2|by rewrite Hd2, Hf2|].
    intros s3 m d Ho. rewrite Hf2 in Ho. by eapply HQ.
Qed.

(** C18: loading a table of 2 to 2^32-1024 pages, the storage node builds its free-space
    map, tells it the free space that it has counted, and writes it into the file that is
    open for it.  Then it replays any sequence of free-space records on that file, if every
    page of the map has inner nodes ([branching_file]; a table of one page is not built a
    map that works, and at 1024k+1 pages a replayed record can leave the map wrong).  A compute node that
    fetches the pages from the file answers any sequence of searches and updates as a
    map from pages to categories does that starts with exactly the categories counted and
    replayed (no space for pages not mentioned): a search finds a page with at least the
    category asked for unless there is none, an update changes the category of its page if
    the map has it.  All calls return, and no page stays latched. *)
Theorem free_space_map_refines now table_id num_pages free fd s now' fuel updates calls :
  len (meta_ s) = sizeof_FSMMetaData → initialized_ s = false → 1 < num_pages ≤ 2 ^ 32 - 1024 →
  Forall (λ '(i, _), 0 ≤ i < 2 ^ 32) free → Forall (λ '(i, _), 0 ≤ i < 2 ^ 32) updates → Forall fsm_call_ok calls →
  dm_wf (dm_ s) → path2fd_ (dm_ s) !! fsm_file s = Some fd →
  wp (load_map now table_id num_pages free) (λ ok s', ok = true ∧
    ∃ F, files (dm_ s') !! fsm_file s = Some F ∧
      (updates = [] ∨ branching_file F → len F / PAGE_SIZE ≤ Z.of_nat fuel →
       wp (replay_updates now' fuel fd updates) (λ _ dm, ∃ F', files dm !! fsm_file s = Some F' ∧
         ∀ n, fetches n F' → wp (run_fsm_calls calls) (λ xs n', latches n' = ∅ ∧
           ∃ final, fsm_answers (counted (counted (empty_map num_pages) free) updates) calls xs final) n)
         (dm_ s'))) s.
Proof.
  intros Hlen Hinit HN Hfree Hupd Hcalls Hwf Hopen. eapply wp_load_map; [done..|].
  intros s' m d Ho. split; [done|]. pose proof Ho as (_ & F & HF & Hmap). exists F. split; [done|].
  intros B Hfuel. pose proof (pages_bound _ _ _ _ Hmap).
  eapply wp_replay_updates; [exact Ho| |lia|exact Hupd|].
  { destruct B as [->|B]; [by left|right; by eapply branching_pages]. }
  intros d' dm' (_ & F' & HF' & Hmap'). exists F'. split; [done|]. intros n Hfetch.
  pose proof (fetched_represents _ _ _ _ n Hmap' Hfetch) as Hrep.
  eapply wp_mono; [by eapply fsm_calls_refine|]. intros xs n' (final & Ha & (_ & HL & _)). eauto.
Qed.

(** The object that loads a table of 1500 pages, its file [102] open. *)
Definition demo_loader : S_SecFSM :=
  new_S_SecFSM demo_map_disk ∅ [102] 20000 (replicate 68 0).

(** The pages of a file, and a compute node that has not used the map yet. *)
Definition pages_of_file (F : buffer) : gmap Z buffer :=
  list_to_map ((λ i, (i, page_of F i)) <$> seqZ 0 (len F / PAGE_SIZE)).
Definition map_disk (s : S_SecFSM) : buffer := default [] (files (dm_ s) !! fsm_file s).
Definition node_on (F : buffer) : SecFSM := new_SecFSM 20000 (replicate 68 0) (pages_of_file F).

(** The file of a map with 1500 pages has five pages, all of the map with inner nodes. *)
Definition demo_file_ok (s : S_SecFSM) : bool :=
  (len (map_disk s) / PAGE_SIZE <=? 5) &&
  forallb (λ id, match DeserializeFSMPage (page_of (map_disk s) id) with
                 | Some p => 0 <? leaf_start (header p)
                 | None => true
                 end) (seqZ 2 (len (map_disk s) / PAGE_SIZE)).

Lemma demo_file_branches s F : files (dm_ s) !! fsm_file s = Some F → demo_file_ok s = true →
  branching_file F ∧ len F / PAGE_SIZE ≤ 5.
Proof.
  intros HF [H1%Z.leb_le H2]%andb_true_iff. unfold map_disk in *. rewrite HF in *. cbn in *. split; [|done].
  intros id p Hid [_ Hhas] Hp. rewrite forallb_forall in H2. specialize (H2 id).
  rewrite Hp, Z.ltb_lt in H2. apply H2, list_elem_of_In, elem_of_seqZ.
  assert (id + 1 ≤ len F / PAGE_SIZE) by (apply Z.div_le_lower_bound; [done|]; lia). lia.
Qed.

Lemma wp_and {S A} (m : M S A) (P Q : A → S → Prop) s : wp m P s → wp m Q s → wp m (λ a s', P a s' ∧ Q a s') s.
Proof. unfold wp. by destruct (m s) as [[? ?]| |]. Qed.

Lemma free_space_map_refines_witness :
  wp (load_map 7 20000 1500 [(3, 3000); (1200, 500)]) (λ ok s', ok = true ∧ demo_file_ok s' = true ∧
    ∃ F, files (dm_ s') !! [102] = Some F ∧
      wp (replay_updates 9 5 0 [(1200, 4000); (1499, 100)]) (λ _ dm, ∃ F', files dm !! [102] = Some F' ∧
        ∀ n, fetches n F' →
          wp (run_fsm_calls [FindFreePage 2000; UpdatePageSpace 8 3 0; FindFreePage 100]) (λ xs n', latches n' = ∅ ∧
            ∃ final, fsm_answers (counted (counted (empty_map 1500) [(3, 3000); (1200, 500)]) [(1200, 4000); (1499, 100)])
              [FindFreePage 2000; UpdatePageSpace 8 3 0; FindFreePage 100] xs final) n) (dm_ s')) demo_loader.
Proof.
  assert (wp (load_map 7 20000 1500 [(3, 3000); (1200, 500)])
    (λ _ s', demo_file_ok s' = true ∧ fsm_file s' = [102]) demo_loader) as Hok.
  { unfold wp. assert (match load_map 7 20000 1500 [(3, 3000); (1200, 500)] demo_loader with
      | Done (_, s') => demo_file_ok s' && bool_decide (fsm_file s' = [102]) | _ => false end = true) as H
      by (vm_compute; reflexivity).
    destruct (load_map 7 20000 1500 _ demo_loader) as [[? ?]| |]; [|done..].
    apply andb_true_iff in H as [H1 H2%bool_decide_eq_true]. done. }
  eapply wp_mono; [eapply wp_and; [exact Hok|]|].
  - apply (free_space_map_refines 7 20000 1500 [(3, 3000); (1200, 500)] 0 demo_loader 9 5
      [(1200, 4000); (1499, 100)] [FindFreePage 2000; UpdatePageSpace 8 3 0; FindFreePage 100]).
    + vm_compute. reflexivity.
    + reflexivity.
    + lia.
    + repeat constructor; lia.
    + repeat constructor; lia.
    + repeat constructor; lia.
    + change (dm_ demo_loader) with (after (open_file [102]) (new_DiskManager {[ [102] := replicate (Z.to_nat 4096) 0 ]} ∅ false)).
      apply (keeps_open_file [102] (new_DiskManager {[ [102] := replicate (Z.to_nat 4096) 0 ]} ∅ false) 0); [apply new_DiskManager_wf|].
      apply run_result. vm_compute. reflexivity.
    + vm_compute. reflexivity.
  - cbv beta. intros ok s' ([Hf Hfile] & -> & F & HF & Hrest). split; [done|]. split; [done|].
    change (fsm_file demo_loader) with [102] in *. exists F. split; [exact HF|].
    destruct (demo_file_branches s' F) as [B HB]; [by rewrite Hfile|done|]. apply Hrest; [by right|]. lia.
Defined.

(** ** What it takes a map for *)

(** An empty table has one page, the one with its file header.  When it is loaded again, its
    map is a single node without inner nodes, and the search takes this for a page with any
    space: every insert is sent to the file header. *)
Theorem empty_table_offers_header :
  let s := after (load_map 7 20000 1 []) demo_loader in
  result (load_map 7 20000 1 []) demo_loader = Some true ∧
  ∀ need, result (FsmTree.find_free_page need) (node_on (map_disk s)) = Some 0.
Proof. split; [vm_compute; reflexivity|]. intros need. vm_compute. reflexivity. Qed.

(** A page that the table gets after it was loaded is not in the map, and stays out of it. *)
Theorem new_page_stays_out :
  let s := after (load_map 7 20000 5 []) demo_loader in
  result (FsmTree.update_page_space 8 5 4096 ;; FsmTree.find_free_page 1) (node_on (map_disk s)) = Some NO_PAGE.
Proof. vm_compute. reflexivity. Qed.

(** A page of the map whose only node is its leaf, as the last one of a table with 1025 pages is:
    the replay takes the root after the node was set for the old one, and does not tell the
    parent page.  The page of the table that got its space is not found. *)
Theorem replay_leaves_single_node_untold :
  let s := after (load_map 7 20000 1025 []) demo_loader in
  let replayed := ApplyFsmUpdate 9 5 0 1024 4096 in
  result replayed (dm_ s) = Some true ∧
  result (FsmTree.find_free_page 100) (node_on (default [] (files (after replayed (dm_ s)) !! [102]))) = Some NO_PAGE.
Proof. vm_compute. split; reflexivity. Qed.
